(* ===== verification/_CoqProject ===== *)
-Q . S2P
Prelude.v
Double.v
Refcount.v
PtrCompressor.v
DList.v
MMLru.v
MMLruProofs.v
MMLruSpec.v
SList.v
Slab.v
CompressedPtr.v
SlabAllocator.v
SlabAllocatorProofs.v
SlabAllocatorSpec.v
AllocationClass.v
AllocationClassProofs.v
AllocationClassSpec.v
AllocationClassClaims.v
MemoryPool.v
MemoryPoolLookup.v
MemoryPoolFrame.v
MemoryPoolProofs.v
MemoryPoolOps.v
MemoryPoolSpec.v
Preserves.v
MemoryPoolManager.v
MemoryPoolManagerSpec.v
AllocSizes.v
MemoryAllocator.v
MemoryAllocatorSpec.v
ChainedHashTable.v
ChainedHashTableProofs.v
ChainedHashTableSpec.v
Bytes.v
BloomFilter.v
BloomFilterSpec.v
BucketStorage.v
Bucket.v
BucketSpec.v
Device.v
BigHash.v
BigHashProofs.v
BigHashSpec.v
BigHashClaims.v
CountMinSketch.v
NvmCache.v
NvmCacheProofs.v
NvmCacheSpec.v
FurcHash.v
CCacheBucket.v
CCache.v
CCacheResize.v
CCacheProofs.v
CCacheResizeInv.v
CCacheResizeSpec.v
CCacheLru.v
Cohort.v
Region.v
RegionPolicy.v
RegionPolicyProofs.v
BlockIndex.v
RegionManager.v
BlockCache.v
Runs.v
BlockCodec.v
BlockCacheInv.v
BlockCacheMoves.v
BlockCacheFlush.v
BlockCacheInsert.v
BlockCacheLookup.v
BlockCacheJobs.v
BlockCacheSafety.v
Scheduler.v
Engine.v
EngineProofs.v
EngineBigHash.v
EngineBlock.v
Driver.v
DriverSpec.v
