(* ===== verification/Prelude.v ===== *)
(** * CacheLib: verification library

    CacheLib is an in-process caching engine.  Its core is a memory allocator
    for cache items, containers that decide what to evict, and a hash table
    that finds items by key (src/cachelib/allocator).  Navy is its cache on
    flash (src/cachelib/navy).

    ** The parts and how they interact

    A [SlabAllocator] cuts a memory region into slabs of 4 MiB, keeps a header
    for each, and hands slabs to pools.  A [MemoryPool] owns slabs and gives
    them to its [AllocationClass]es, one per allocation size, which carve them
    into allocations and take slabs out of use again ("slab release").  The
    [MemoryPoolManager] keeps the pools by id and name and divides the memory
    among them; the [MemoryAllocator] is the front: it routes allocations to
    pools, and frees by the header of the slab.  Items are linked into the
    intrusive containers through compressed pointers: [MMLru] over [DList]
    decides on eviction, [ChainedHashTable] finds items by key.  The reference
    count of an item ([RefcountWithFlags]) packs an access count, state bits
    and flags into one atomic word, changed by compare-and-swap.

    In Navy a [Device] reads and writes byte ranges.  [BigHash] divides its
    range of the device into buckets, finds the bucket of a key by its hash,
    and reads and writes whole buckets, each a [Bucket] of entries in a
    [BucketStorage]; a [BloomFilter] per bucket saves reads, and a
    [ValidBucketChecker] takes buckets with failed transfers out of service.
    The [BlockCache] is the engine for large items: a [RegionManager] divides
    the device into regions, an [Allocator] fills one region after the other
    through a buffer, jobs flush full regions and reclaim the one its
    [EvictionPolicy] gives up, and an [Index] maps the hash of a key to its
    entry.  An [EnginePair] routes small items to the one engine and large
    ones to the other; the [Driver] admits inserts, spreads keys over pairs,
    and orders the requests to a key by a scheduler.
    The [NvmCache] puts evicted items into Navy, and keeps puts, deletes and
    lookups of a key in order with tokens, tombstones and request contexts.

    A compact cache ([CCache]) is a hash table of small entries in slabs: a
    consistent hash picks the slab, so that it can be resized while requests
    run; cohorts tell when the requests that saw the old size are over.

    ** Files

    - [Prelude]: fixed-width integers, the exception-and-state monad, bits,
      lists.  [Double]: the binary64 arithmetic the code uses.
    - [Refcount] (Refcount.h): the word, the compare-and-swap loop as the
      accesses of a thread to it, every operation, the interleavings of any
      number of threads, and the specification on a triple of fields.
    - [PtrCompressor]: the interface between the containers and pointer
      compression, a class with laws.  [CompressedPtr] (memory/CompressedPtr.h)
      is the layout of compressed pointers.
    - [DList], [SList] (datastruct/DList.h, SList.h): the linked lists on a heap
      of hooks, each with its refinement to a list.
    - [MMLru], [MMLruProofs], [MMLruSpec] (MMLru.h): the eviction container
      with its insertion point and tail flags, promotion by refresh time, and
      its specification as a list cut in two.
    - [Slab], [SlabAllocator], [SlabAllocatorProofs], [SlabAllocatorSpec]
      (memory/Slab.h, SlabAllocator.{h,cpp}): headers, slab ownership, pointer
      compression, saving and restoring.
    - [AllocationClass], [AllocationClassProofs], [AllocationClassSpec],
      [AllocationClassClaims] (memory/AllocationClass.{h,cpp}): one class.
    - [MemoryPool] and [MemoryPoolLookup], [MemoryPoolFrame],
      [MemoryPoolProofs], [MemoryPoolOps], [MemoryPoolSpec]
      (memory/MemoryPool.{h,cpp}): one pool, on the classes.
    - [Preserves]: what the operations of classes and pools leave alone, by a
      tactic that follows the structure of a computation.
    - [MemoryPoolManager], [MemoryPoolManagerSpec]
      (memory/MemoryPoolManager.{h,cpp}).
    - [AllocSizes]: the generators of allocation sizes in
      memory/MemoryAllocator.{h,cpp}.
    - [MemoryAllocator], [MemoryAllocatorSpec]
      (memory/MemoryAllocator.{h,cpp}): any number of pools on one slab
      allocator.
    - [ChainedHashTable], [ChainedHashTableProofs], [ChainedHashTableSpec]
      (ChainedHashTable.h): the table on a heap of hooks, and its refinement to
      a finite map.
    - [Bytes] (common/BytesEqual.h, common/Utils.h): byte arrays with
      bounds-checked loads and stores, the bit helpers, [bytesEqual].
    - [BloomFilter], [BloomFilterSpec] (common/BloomFilter.{h,cpp}): the array of
      filters, saved and recovered.
    - [BucketStorage] (navy/bighash/BucketStorage.{h,cpp}): allocations packed in
      the bytes of a bucket.
    - [Bucket], [BucketSpec] (navy/bighash/Bucket.{h,cpp}): the entries of a
      bucket in insertion order.
    - [Device] (navy/common/Device.{h,cpp}): the interface [NavyDevice] with its
      laws, implemented by the splitting and encrypting [Device] over any
      transfers, and the memory device.
    - [BigHash], [BigHashProofs], [BigHashSpec], [BigHashClaims]
      (navy/bighash/BigHash.{h,cpp}): the engine for small items, over any
      device of the interface.
    - [CountMinSketch] (common/CountMinSketch.h): the sketch for any counter
      width, with the two hash functions as parameters.
    - [NvmCache], [NvmCacheProofs], [NvmCacheSpec] (allocator/nvmcache/NvmCache.h,
      TombStones.h, InFlightPuts.h, ReqContexts.h): puts, removes and fast
      misses of the NVM cache as steps that any number of threads interleave
      with the asynchronous jobs of Navy.
    - [FurcHash] (common/FurcHash.cpp, MurmurHash.h): the Murmur hashes and the
      consistent hash.
    - [CCacheBucket], [CCache] (compact_cache/CCacheFixedLruBucket.h, CCache.h,
      allocator/CCacheAllocator.cpp): the compact cache over buckets of
      fixed-size values.  [CCacheResize] interleaves the parts of its requests
      with the parts of [resize]; [CCacheProofs], with concrete runs and the
      schedules on which an update is lost, [CCacheResizeInv] and
      [CCacheResizeSpec] prove that reads are never stale, [CCacheLru] that a
      bucket is an LRU list and what [purge] removes.
    - [Cohort] (common/Cohort.h): two reference counts in one word, as a
      transition system of atomic operations.
    - [Region], [RegionPolicy], [RegionPolicyProofs] (navy/block_cache/Types.h,
      Region.{h,cpp}, FifoPolicy, LruPolicy): a region with its readers, writers
      and flags, and the eviction policies behind the class [EvictionPolicy].
    - [BlockIndex] (navy/block_cache/Index.h, SparseMapIndex.{h,cpp}): the class
      [Index] with its laws, and the sparse-map index that has them.
    - [RegionManager] (navy/block_cache/RegionManager.{h,cpp}) and [BlockCache]
      (Allocator.{h,cpp}, BlockCache.{h,cpp}): the engine for large items.
      [Runs] is the logic of computations that return; [BlockCodec] the layout
      of entries and the device; [BlockCacheInv] the invariant, which
      [BlockCacheMoves], [BlockCacheFlush], [BlockCacheInsert],
      [BlockCacheLookup] and [BlockCacheJobs] follow through the operations and
      the jobs; [BlockCacheSafety] has the theorems and a concrete cache.
    - [Scheduler] (navy/scheduler/NavyRequestScheduler.{h,cpp},
      NavyRequestDispatcher.cpp): the requests of a shard run in order.
    - [Engine], [EngineProofs] (navy/engine/Engine.h, EnginePair.{h,cpp}): the
      class [Engine] with its laws, and pairs of engines; [EngineBigHash] and
      [EngineBlock]: the two engines have the laws.
    - [Driver], [DriverSpec] (navy/driver/Driver.{h,cpp}): admission and
      routing, and Navy as a whole.

    ** How code is rendered

    A class is a record of its members, a member function a computation in the
    monad [M]: it returns a value or an exception together with the state it
    reached, so writes made before an exception remain.  Unsigned arithmetic
    wraps where the code can wrap ([u8], [u32], [u64]).  Undefined behaviour (a
    null dereference, an index out of range, a division by zero) is the
    exception [UndefinedBehavior], and the theorems that an operation returns
    show that it does not happen.  Debug checks ([XDCHECK]) are not part of the
    behaviour.  A critical section is atomic; what other threads do between
    two critical sections is an argument, quantified in the theorems.  Code
    outside the repository (system calls, the C library, thrift, folly) is an
    argument: whether [madvise] succeeds, the time, a random number, a hash.

    ** What the theorems show

    Refinement: the packed reference count refines a triple of fields, and
    its operations are linearizable when threads interleave at every access to
    the word; the linked lists refine lists; [MMLru] refines a
    list cut in two by its insertion point; the hash table refines a finite
    map from keys to nodes. Invariants over all sequences of operations: slabs
    are split among owners, free and advised lists; the allocations of a
    class, of a pool and of all pools never overlap and can be freed; byte
    counts are exact but for the slabs released from the free list of a pool,
    which are taken off twice (in sequences in which no release is stopped by
    its callback: one that is stopped loses its slab); memory is never
    promised twice. The slab release
    protocol is safe under interference and completes. Round trips: pointer
    compression, saving and restoring. Functional results: the class of a
    size, traversals, statistics, targets for advising slabs away, generated
    sizes. Navy, over any device whose transfers may fail: reads never return
    anything but the last value written, buckets evict in insertion order and
    report what they give up, filters have no false negatives, a restart
    recovers the contents. The block cache, over a device whose writes may
    fail and whose reads do not, with an expiry check and a reinsertion policy
    that do not throw, returns only the last value written, finds what it just
    inserted, keeps every region in one place, and its jobs complete; resets
    are covered when no job is pending and no region is being filled; its LRU policy refines a list, the segmented FIFO
    starves no region, the index comes back from what it saved. Through engine
    pairs, driver and scheduler together, with the jobs of all of them in any
    order, a lookup returns the last value inserted and not removed; the loads
    inserts are admitted by are exact; the requests to a key run in the order
    they were made. Interleavings: where a failed job disables the NVM
    cache (the default) a finished delete wins over every older put, and in
    any configuration no step of it throws but the refusals of [put];
    [switchCohorts] returns only
    when the tokens of the past are released; the compact cache serves no
    stale value while it is resized, provided no two writes of a key are in
    progress at once and none of a moving key is in progress at the switch. Hashing: the consistent hash moves keys only to
    the new part; a count-min sketch never undercounts. Termination: the walks
    along chains and the iteration over the table. [Example]s named in the
    manifest's findings show where the code departs from its comments.

    ** Bounds and fuel

    The compare-and-swap loop has no bound: each access is a step of its
    thread, and alone a thread returns after two.  Transfers of a device are
    below 2^32 bytes, the width of their size.  Walks along linked nodes have as much fuel as there are nodes
    in the heap, enough unless the chain is cyclic, which the invariants
    exclude.  The bisection has the length of the list, the size generators the
    size of a slab.  A busy-wait is given the steps of the other threads; when
    they run out the result is [StillWaiting].  Walks back over the entries of
    a region have the first offset plus one as fuel, enough since no entry is
    empty.  Waiting for jobs ([drain], [flush]) and repeating a request that is
    to be retried take their fuel as an argument.

    ** Not modelled

    The contents of memory (zeroing on release), locks as such, thread pools,
    time sources, shared memory segments, files, file devices and statistics
    libraries are outside the model. In Navy the two engines of a pair have a
    device each, where the code gives them disjoint ranges of one; operations
    of the block cache run one at a time; warm restarts of the block cache, of
    pairs and of the driver, the fixed-size index, combined entries and the
    reinsertion policies themselves are left out (their answers are
    arguments). Not yet modelled, in the order planned: the 2Q and TinyLFU
    containers, the item layout and the cache allocator that composes the
    parts above, the fill of DRAM from the NVM cache, compact caches of
    variable-size values, and the strategies that move slabs between pools. *)
From Stdlib Require Export ZArith Lia.
From stdpp Require Export base tactics numbers gmap list.

#[local] Open Scope Z_scope.

#[global] Arguments Z.testbit : simpl never.
#[global] Arguments Z.pow : simpl never.
#[global] Arguments Z.div : simpl never.
#[global] Arguments Z.modulo : simpl never.
#[global] Arguments Z.shiftl : simpl never.
#[global] Arguments Z.shiftr : simpl never.
#[global] Arguments Z.land : simpl never.
#[global] Arguments Z.lor : simpl never.
#[global] Arguments Z.mul : simpl never.
#[global] Arguments Z.add : simpl never.
#[global] Arguments Z.sub : simpl never.

(** ** Machine-width integers

    The C++ unsigned types are integers with the wrap-around written out at
    the operations that can wrap. *)

Definition u8 (x : Z) : Z := x mod 2 ^ 8.
Definition u32 (x : Z) : Z := x mod 2 ^ 32.
Definition u64 (x : Z) : Z := x mod 2 ^ 64.
Definition is_u8 (x : Z) : Prop := 0 <= x < 2 ^ 8.
Definition is_u32 (x : Z) : Prop := 0 <= x < 2 ^ 32.
Definition is_u64 (x : Z) : Prop := 0 <= x < 2 ^ 64.

Lemma u32_small (x : Z) : is_u32 x -> u32 x = x.
Proof. apply Z.mod_small. Qed.

Lemma u64_small (x : Z) : is_u64 x -> u64 x = x.
Proof. apply Z.mod_small. Qed.

Lemma u64_shift (n d : Z) : u64 (u64 n + d) = u64 (n + d).
Proof. unfold u64. rewrite Zplus_mod_idemp_l. done. Qed.

Lemma u8_small (x : Z) : is_u8 x -> u8 x = x.
Proof. apply Z.mod_small. Qed.

Lemma u32_range (x : Z) : is_u32 (u32 x).
Proof. apply Z.mod_pos_bound. lia. Qed.

Lemma u64_range (x : Z) : is_u64 (u64 x).
Proof. apply Z.mod_pos_bound. lia. Qed.

(** ** Results of fallible code and the state-and-exception monad

    An exception thrown by the C++ code does not undo the writes made before
    it: a computation always returns the state it reached. [UndefinedBehavior]
    marks the executions the C++ standard gives no meaning to (a null
    dereference, an out-of-bounds index, a division by zero); [StillWaiting]
    marks a busy-wait that has not ended when the other threads' steps run
    out; [Aborted] marks a failed fatal check ([XCHECK]), which ends the
    process. *)

Inductive exn : Type :=
| InvalidArgument
| RuntimeError
| LogicError
| OutOfRange
| RefcountOverflow
| RefcountUnderflow
| SlabReleaseAborted
| UndefinedBehavior
| StillWaiting
| Aborted.

#[export] Instance exn_eq_dec : EqDecision exn.
Proof. solve_decision. Defined.

Inductive res (A : Type) : Type :=
| Ok (a : A)
| Throw (e : exn).
Arguments Ok {A} a.
Arguments Throw {A} e.

Definition M (S A : Type) : Type := S -> res A * S.

Definition ret {S A} (a : A) : M S A := fun s => (Ok a, s).
Definition throw {S A} (e : exn) : M S A := fun s => (Throw e, s).
Definition bind {S A B} (m : M S A) (k : A -> M S B) : M S B :=
  fun s => match m s with
           | (Ok a, s') => k a s'
           | (Throw e, s') => (Throw e, s')
           end.
Definition get {S} : M S S := fun s => (Ok s, s).
Definition gets {S A} (f : S -> A) : M S A := fun s => (Ok (f s), s).
Definition modify {S} (f : S -> S) : M S unit := fun s => (Ok tt, f s).
Definition guard {S} (b : bool) (e : exn) : M S unit :=
  if b then throw e else ret tt.

Declare Scope cachelib_scope.
Delimit Scope cachelib_scope with cl.
Notation "'let!' x := m 'in' k" := (bind m (fun x => k))
  (at level 10, x name, m at level 100, k at level 200)
  : cachelib_scope.
Notation "'do!' m 'in' k" := (bind m (fun _ => k))
  (at level 10, m at level 100, k at level 200)
  : cachelib_scope.

(** The value a computation returns and the state it ends in. *)
Definition result_of {S A} (m : M S A) (s : S) : res A := fst (m s).
Definition state_of {S A} (m : M S A) (s : S) : S := snd (m s).

(** ** Bits of integers *)

Create Rewrite HintDb bits.

Lemma testbit_mod_pow2 (a n i : Z) :
  0 <= n -> Z.testbit (a mod 2 ^ n) i = (i <? n) && Z.testbit a i.
Proof.
  intros Hn. destruct (Z.ltb_spec i n) as [Hi|Hi]; simpl.
  - by apply Z.mod_pow2_bits_low.
  - apply Z.mod_pow2_bits_high; lia.
Qed.

Lemma testbit_ones (n i : Z) :
  0 <= n -> 0 <= i -> Z.testbit (Z.ones n) i = (i <? n).
Proof. apply Z.testbit_ones_nonneg. Qed.

Lemma testbit_div_pow2 (a n i : Z) :
  0 <= n -> 0 <= i -> Z.testbit (a / 2 ^ n) i = Z.testbit a (i + n).
Proof.
  intros. rewrite <- Z.shiftr_div_pow2 by done. by apply Z.shiftr_spec.
Qed.

Lemma testbit_above (a n i : Z) :
  0 <= n -> 0 <= a < 2 ^ n -> n <= i -> Z.testbit a i = false.
Proof.
  intros Hn Ha Hi. rewrite <- (Z.mod_small a (2 ^ n)) by done.
  rewrite testbit_mod_pow2 by done. by destruct (Z.ltb_spec i n); [lia|].
Qed.

#[export] Hint Rewrite Z.land_spec Z.lor_spec Z.lxor_spec Z.ldiff_spec
  Z.pow2_bits_eqb Z.shiftl_spec Z.shiftr_spec testbit_mod_pow2 testbit_ones
  testbit_div_pow2 Z.bits_0 Z.setbit_eqb Z.clearbit_eqb
  using lia : bits.

(** [zbits] proves an equality of integers bit by bit; the comparisons of bit
    positions are decided by cases. *)
Ltac zbits_cases :=
  repeat match goal with
  | |- context [Z.eqb ?a ?b] => destruct (Z.eqb_spec a b); try lia
  | |- context [Z.ltb ?a ?b] => destruct (Z.ltb_spec a b); try lia
  end.
Ltac zbits :=
  let i := fresh "i" in let Hi := fresh "Hi" in
  apply Z.bits_inj'; intros i Hi; autorewrite with bits; zbits_cases;
  simpl; rewrite ?andb_true_r, ?andb_false_r, ?orb_false_r, ?orb_true_r;
  try done.

(** A mask test [x & (1 << k)] reads bit [k]. *)
Definition mask_test (x m : Z) : bool := negb (Z.land x m =? 0).

Lemma mask_test_bit (x k : Z) :
  0 <= k -> mask_test x (Z.shiftl 1 k) = Z.testbit x k.
Proof.
  intros Hk. unfold mask_test. rewrite Z.shiftl_1_l.
  destruct (Z.testbit x k) eqn:Hb.
  - apply negb_true_iff, Z.eqb_neq. intros H0.
    assert (Hf : Z.testbit (Z.land x (2 ^ k)) k = false) by (rewrite H0; apply Z.bits_0).
    revert Hf. autorewrite with bits. by rewrite Hb, Z.eqb_refl.
  - apply negb_false_iff, Z.eqb_eq. zbits. subst. by rewrite Hb.
Qed.

(** ** Lists *)

(** [v.back()] of a non-empty vector is [last v], [v.pop_back()] is
    [removelast v]; [*it = v.back(); v.pop_back()] is [swap_remove]. *)
Definition swap_remove {A} (i : nat) (l : list A) : list A :=
  match last l with
  | Some x => removelast (<[i := x]> l)
  | None => l
  end.

(** [std::find] as the index of the first match. *)
Fixpoint find_index {A} (p : A -> bool) (l : list A) : option nat :=
  match l with
  | [] => None
  | x :: l' => if p x then Some O else option_map S (find_index p l')
  end.

Lemma find_index_Some {A} (p : A -> bool) (l : list A) (i : nat) :
  find_index p l = Some i ->
  exists x, l !! i = Some x /\ p x = true.
Proof.
  revert i. induction l as [|y l IH]; intros i; simpl; [done|].
  destruct (p y) eqn:Hy.
  - intros [= <-]. by exists y.
  - destruct (find_index p l) as [j|] eqn:E; simpl; [|done].
    intros [= <-]. simpl. by apply IH.
Qed.

Lemma find_index_None {A} (p : A -> bool) (l : list A) :
  find_index p l = None <-> forall x, x ∈ l -> p x = false.
Proof.
  induction l as [|y l IH]; simpl.
  - split; [|done]. intros _ x Hx. by apply not_elem_of_nil in Hx.
  - destruct (p y) eqn:Hy; simpl.
    + split; [done|]. intros H. rewrite (H y) in Hy by set_solver. done.
    + destruct (find_index p l) as [j|]; simpl.
      * split; [done|]. intros H. exfalso.
        assert (Some j = None) as [=].
        apply (proj2 IH). intros x Hx. apply H. by right.
      * split; [|done]. intros _ x [->|Hx]%elem_of_cons; [done|].
        by apply (proj1 IH).
Qed.

Lemma removelast_snoc {A} (l : list A) (x : A) : removelast (l ++ [x]) = l.
Proof. apply removelast_last. Qed.

Lemma last_snoc_inv {A} (l : list A) (x : A) :
  last l = Some x -> l = removelast l ++ [x].
Proof.
  destruct l as [|y l] using rev_ind; [done|].
  rewrite last_snoc, removelast_snoc. by intros [= ->].
Qed.

Lemma swap_remove_snoc {A} (i : nat) (l : list A) (y : A) :
  swap_remove i (l ++ [y]) = if decide (i < length l)%nat then <[i := y]> l else l.
Proof.
  unfold swap_remove. rewrite last_snoc. case_decide as Hi.
  - rewrite insert_app_l by done. apply removelast_snoc.
  - destruct (decide (i = length l)) as [->|Hne].
    + rewrite insert_app_r_alt, Nat.sub_diag by done. apply removelast_snoc.
    + rewrite list_insert_ge by (rewrite length_app; simpl; lia).
      apply removelast_snoc.
Qed.

Lemma swap_remove_Permutation {A} (i : nat) (l : list A) (x : A) :
  l !! i = Some x -> x :: swap_remove i l ≡ₚ l.
Proof.
  destruct l as [|y l _] using rev_ind; [done|]. intros Hi.
  rewrite swap_remove_snoc. case_decide as Hlt.
  - rewrite lookup_app_l in Hi by done.
    rewrite <- (take_drop_middle l i x Hi) at 2.
    rewrite insert_take_drop by done. by solve_Permutation.
  - assert (i = length l) as ->.
    { apply lookup_lt_Some in Hi. rewrite length_app in Hi. simpl in Hi. lia. }
    rewrite lookup_app_r, Nat.sub_diag in Hi by done. injection Hi as ->.
    by solve_Permutation.
Qed.

Lemma swap_remove_elem {A} (i : nat) (l : list A) (x y : A) :
  l !! i = Some x -> (y ∈ l <-> y = x \/ y ∈ swap_remove i l).
Proof.
  intros Hi. rewrite <- (swap_remove_Permutation i l x Hi) at 1. apply elem_of_cons.
Qed.

Lemma swap_remove_NoDup {A} (i : nat) (l : list A) (x : A) :
  l !! i = Some x -> NoDup l ->
  (x ∉ swap_remove i l) /\ NoDup (swap_remove i l).
Proof.
  intros Hi Hnd. rewrite <- (swap_remove_Permutation i l x Hi) in Hnd.
  by apply NoDup_cons.
Qed.

(** Sums of integers over lists. *)
Definition sumZ (l : list Z) : Z := foldr Z.add 0 l.

Lemma sumZ_app (l k : list Z) : sumZ (l ++ k) = sumZ l + sumZ k.
Proof. induction l; simpl; lia. Qed.

Lemma sumZ_perm (l k : list Z) : l ≡ₚ k -> sumZ l = sumZ k.
Proof. induction 1; simpl in *; lia. Qed.

Lemma sumZ_nonneg (l : list Z) : (forall x, x ∈ l -> 0 <= x) -> 0 <= sumZ l.
Proof.
  induction l as [|x l IH]; simpl; [lia|]. intros H.
  assert (0 <= x) by (apply H; set_solver).
  assert (0 <= sumZ l) by (apply IH; set_solver). lia.
Qed.

(** Adding at the end of one list of a list of lists. *)
Lemma concat_insert_snoc {A} (ls : list (list A)) (i : nat) (l : list A) (x : A) :
  ls !! i = Some l -> concat (<[i := l ++ [x]]> ls) ≡ₚ x :: concat ls.
Proof.
  revert i. induction ls as [|y ls IH]; intros [|i] Hi; try done.
  - injection Hi as ->. cbn. rewrite <- app_assoc. cbn. by rewrite Permutation_middle.
  - cbn in *. rewrite IH by done. by rewrite Permutation_middle.
Qed.

(** ** Tactics *)

(** Run a monadic computation one step in a hypothesis or the goal. *)
Ltac mstep := unfold bind, ret, throw, get, gets, modify, guard; simpl.
Ltac mstep_in H := unfold bind, ret, throw, get, gets, modify, guard in H; simpl in H.

(** Split on every boolean comparison that guards the goal or a hypothesis. *)
Ltac case_cmp :=
  repeat match goal with
  | |- context [if Z.eqb ?a ?b then _ else _] => destruct (Z.eqb_spec a b)
  | |- context [if Z.ltb ?a ?b then _ else _] => destruct (Z.ltb_spec a b)
  | |- context [if Z.leb ?a ?b then _ else _] => destruct (Z.leb_spec a b)
  | H : context [if Z.eqb ?a ?b then _ else _] |- _ => destruct (Z.eqb_spec a b)
  | H : context [if Z.ltb ?a ?b then _ else _] |- _ => destruct (Z.ltb_spec a b)
  | H : context [if Z.leb ?a ?b then _ else _] |- _ => destruct (Z.leb_spec a b)
  end.
