(* ===== verification/Double.v ===== *)
(** * Floating point

    The arithmetic of [double] the code uses: the binary64 numbers of
    [SpecFloat], which compute. *)

From Stdlib Require Export SpecFloat.
From S2P Require Import Prelude.

#[local] Open Scope Z_scope.

(** The product of an integer and a [double] is the correctly rounded one of
    binary64.  A conversion to [uint32_t] truncates; the standard leaves it
    undefined out of the range of the type. *)

Definition double : Type := spec_float.
Definition double_of_u64 (x : Z) : double := binary_normalize 53 1024 x 0 false.
Definition double_mul (x y : double) : double := SFmul 53 1024 x y.

Definition u32_of_double (x : double) : option Z :=
  match x with
  | S754_zero _ => Some 0
  | S754_finite s m e =>
      let t := Z.shiftl (Zpos m) e in
      let t := if s then - t else t in
      if (0 <=? t) && (t <? 2 ^ 32) then Some t else None
  | S754_infinity _ | S754_nan => None
  end.
