(* ===== verification/Refcount.v ===== *)
(** * Reference count and flags of a cache item

    Models [RefcountWithFlags] (cachelib/allocator/Refcount.h): a 32-bit word
    that packs 18 bits of access references, 3 administrative reference bits
    (linked, accessible, exclusive) and 11 flag bits.  Every update goes
    through a compare-and-swap loop or an atomic and/or; the loop is modelled
    with the interference of the other threads as an explicit sequence of
    values they leave in the word.

    The abstract specification [RcAbs] has the packed parts as separate
    fields; the theorems show that each operation acts on the packed word as
    its specification acts on the fields, and that the protocol the comments
    of the source describe (a marked item has no outstanding handle) is an
    invariant of every interleaving of the operations. *)

From S2P Require Import Prelude.

#[local] Open Scope Z_scope.
#[local] Open Scope cachelib_scope.

(** ** Layout *)

Definition Value : Type := Z.
Definition kNumFlags : Z := 11.
Definition kNumAdminRefBits : Z := 3.
Definition kNumAccessRefBits : Z := 18.
Definition NumBits_Value : Z := 32.
Definition Value_max : Z := 2 ^ 32 - 1.
Definition kAccessRefMask : Value :=
  Z.shiftr Value_max (NumBits_Value - kNumAccessRefBits).
Definition kRefMask : Value :=
  Z.shiftr Value_max (NumBits_Value - kNumAdminRefBits - kNumAccessRefBits).

Inductive AdminRef : Type := kLinked | kAccessible | kExclusive.

Inductive Flags : Type :=
| kMMFlag0 | kMMFlag1 | kMMFlag2
| kIsChainedItem | kHasChainedItem
| kNvmClean | kNvmEvicted | kUnevictable_NOOP.

Definition adminBit (a : AdminRef) : Z :=
  match a with
  | kLinked => kNumAccessRefBits
  | kAccessible => kNumAccessRefBits + 1
  | kExclusive => kNumAccessRefBits + 2
  end.

Definition flagBit (f : Flags) : Z :=
  kNumAccessRefBits + kNumAdminRefBits +
  match f with
  | kMMFlag0 => 0 | kMMFlag1 => 1 | kMMFlag2 => 2
  | kIsChainedItem => 3 | kHasChainedItem => 4
  | kNvmClean => 5 | kNvmEvicted => 6 | kUnevictable_NOOP => 7
  end.

Definition getAdminRef (a : AdminRef) : Value := Z.shiftl 1 (adminBit a).
Definition getFlag (f : Flags) : Value := Z.shiftl 1 (flagBit f).

(** [~x] on the 32-bit type. *)
Definition lnot32 (x : Value) : Value := Value_max - x.

Inductive IncResult : Type := kIncOk | kIncFailedMoving | kIncFailedEviction.

(** ** The compare-and-swap loop

    [atomicUpdateValue] takes two C++ lambdas that may assign variables
    captured by reference.  A member function that is one such loop: the
    lambdas it passes, the variables they capture, and what it returns from
    the result of the loop and these variables. *)
Record CasOp (A : Type) : Type := mkCasOp {
  Captured : Type;
  predicate : Value -> Captured -> res bool * Captured;
  newValueF : Value -> Captured -> Value * Captured;
  captured : Captured;
  onReturn : bool -> Captured -> A
}.
Arguments Captured {A} _.
Arguments predicate {A} _ _ _.
Arguments newValueF {A} _ _ _.
Arguments captured {A} _.
Arguments onReturn {A} _ _ _.

(** Where a thread is in the loop: before the load, before the
    compare-and-swap of [curValue] with [newValue], or returned. *)
Inductive CasPc {A} (c : CasOp A) : Type :=
| CasLoad
| CasTry (curValue newValue : Value) (r : Captured c)
| CasDone (a : res A).
Arguments CasLoad {A c}.
Arguments CasTry {A c} _ _ _.
Arguments CasDone {A c} _.

(** From a value that was read to the next compare-and-swap or return. *)
Definition casAttempt {A} (c : CasOp A) (curValue : Value) (r : Captured c) : CasPc c :=
  match predicate c curValue r with
  | (Throw e, _) => CasDone (Throw e)
  | (Ok false, r) => CasDone (Ok (onReturn c false r))
  | (Ok true, r) => let '(newValue, r) := newValueF c curValue r in CasTry curValue newValue r
  end.

(** One access to the word: the load, or the compare-and-swap, which stores
    if it finds [curValue] and otherwise reads the value for the next round. *)
Definition casStep {A} {c : CasOp A} (pc : CasPc c) (mem : Value) : CasPc c * Value :=
  match pc with
  | CasLoad => (casAttempt c mem (captured c), mem)
  | CasTry curValue newValue r =>
      if mem =? curValue then (CasDone (Ok (onReturn c true r)), newValue)
      else (casAttempt c mem r, mem)
  | CasDone a => (CasDone a, mem)
  end.

(** The function run by one thread alone: the load and a compare-and-swap
    that finds the value just read. *)
Definition casRun {A} (c : CasOp A) : M Value A := fun mem =>
  let '(pc, mem) := casStep (c := c) CasLoad mem in
  let '(pc, mem) := casStep pc mem in
  match pc with
  | CasDone r => (r, mem)
  | _ => (Throw StillWaiting, mem)
  end.

(** ** Operations *)

Definition getRaw : M Value Value := get.

Definition incRef_op : CasOp IncResult := {|
  predicate curValue res_ :=
    let exlusiveBitIsSet := mask_test curValue (getAdminRef kExclusive) in
    if Z.land curValue kAccessRefMask =? kAccessRefMask then
      (Throw RefcountOverflow, res_)
    else if exlusiveBitIsSet then
      (Ok false,
       if Z.land curValue kAccessRefMask =? 0 then kIncFailedEviction
       else kIncFailedMoving)
    else (Ok true, kIncOk);
  newValueF curValue res_ := (u32 (curValue + 1), res_);
  captured := kIncOk;
  onReturn _ res_ := res_
|}.

Definition decRef_op : CasOp Value := {|
  predicate curValue retValue :=
    if Z.land curValue kAccessRefMask =? 0 then (Throw RefcountUnderflow, retValue)
    else (Ok true, retValue);
  newValueF curValue _ := let retValue := u32 (curValue - 1) in (retValue, retValue);
  captured := 0;
  onReturn _ retValue := Z.land retValue kRefMask
|}.

Definition incRef : M Value IncResult := casRun incRef_op.
Definition decRef : M Value Value := casRun decRef_op.

Definition getAccessRef : M Value Value :=
  let! raw := getRaw in
  let accessRef := Z.land raw kAccessRefMask in
  if mask_test raw (getAdminRef kExclusive) && (1 <=? accessRef)
  then ret (u32 (accessRef - 1))
  else ret accessRef.

Definition getRefWithAccessAndAdmin : M Value Value :=
  let! raw := getRaw in ret (Z.land raw kRefMask).

Definition atomicOr (bitMask : Value) : M Value unit :=
  modify (fun v => Z.lor v bitMask).
Definition atomicAnd (bitMask : Value) : M Value unit :=
  modify (fun v => Z.land v bitMask).

Definition markInMMContainer : M Value unit := atomicOr (getAdminRef kLinked).
Definition unmarkInMMContainer : M Value unit :=
  atomicAnd (lnot32 (getAdminRef kLinked)).
Definition isInMMContainer : M Value bool :=
  let! raw := getRaw in ret (mask_test raw (getAdminRef kLinked)).

Definition markAccessible : M Value unit := atomicOr (getAdminRef kAccessible).
Definition unmarkAccessible : M Value unit :=
  atomicAnd (lnot32 (getAdminRef kAccessible)).
Definition isAccessible : M Value bool :=
  let! raw := getRaw in ret (mask_test raw (getAdminRef kAccessible)).

Definition markForEviction_op : CasOp bool :=
  let linkedBitMask := getAdminRef kLinked in
  let exclusiveBitMask := getAdminRef kExclusive in
  {| predicate curValue (_ : unit) :=
       let unlinked := negb (mask_test curValue linkedBitMask) in
       let alreadyExclusive := mask_test curValue exclusiveBitMask in
       if unlinked || alreadyExclusive then (Ok false, tt)
       else if negb (Z.land curValue kAccessRefMask =? 0) then (Ok false, tt)
       else (Ok true, tt);
     newValueF curValue (_ : unit) := (Z.lor curValue exclusiveBitMask, tt);
     captured := tt;
     onReturn b _ := b |}.
Definition markForEviction : M Value bool := casRun markForEviction_op.

Definition isMarkedForEviction : M Value bool :=
  let! raw := getRaw in
  ret (mask_test raw (getAdminRef kExclusive) &&
       (Z.land raw kAccessRefMask =? 0)).

Definition unmarkForEviction : M Value Value :=
  let bitMask := lnot32 (getAdminRef kExclusive) in
  do! atomicAnd bitMask in
  let! v := getRaw in
  ret (Z.land v kRefMask).

Definition markMoving_op : CasOp bool :=
  let linkedBitMask := getAdminRef kLinked in
  let exclusiveBitMask := getAdminRef kExclusive in
  {| predicate curValue (_ : unit) :=
       let unlinked := negb (mask_test curValue linkedBitMask) in
       let alreadyExclusive := mask_test curValue exclusiveBitMask in
       if (0 <? Z.land curValue kAccessRefMask) || unlinked || alreadyExclusive
       then (Ok false, tt) else (Ok true, tt);
     newValueF curValue (_ : unit) := (Z.lor (u32 (curValue + 1)) exclusiveBitMask, tt);
     captured := tt;
     onReturn b _ := b |}.
Definition markMoving : M Value bool := casRun markMoving_op.

Definition isMoving : M Value bool :=
  let! raw := getRaw in
  ret (mask_test raw (getAdminRef kExclusive) &&
       negb (Z.land raw kAccessRefMask =? 0)).

Definition unmarkMoving_op : CasOp Value := {|
  predicate _ retValue := (Ok true, retValue);
  newValueF curValue _ :=
    let retValue := Z.land (u32 (curValue - 1)) (lnot32 (getAdminRef kExclusive)) in
    (retValue, retValue);
  captured := 0;
  onReturn _ retValue := Z.land retValue kRefMask
|}.
Definition unmarkMoving : M Value Value := casRun unmarkMoving_op.

Definition markForEvictionWhenMoving_op : CasOp bool := {|
  predicate _ (_ : unit) := (Ok true, tt);
  newValueF curValue (_ : unit) := (u32 (curValue - 1), tt);
  captured := tt;
  onReturn b _ := b
|}.
Definition markForEvictionWhenMoving : M Value bool := casRun markForEvictionWhenMoving_op.

Definition setFlag (f : Flags) : M Value unit := atomicOr (Z.shiftl 1 (flagBit f)).
Definition unSetFlag (f : Flags) : M Value unit :=
  atomicAnd (Value_max - Z.shiftl 1 (flagBit f)).
Definition isFlagSet (f : Flags) : M Value bool :=
  let! raw := getRaw in ret (mask_test raw (getFlag f)).

Definition markIsChainedItem : M Value unit := setFlag kIsChainedItem.
Definition unmarkIsChainedItem : M Value unit := unSetFlag kIsChainedItem.
Definition isChainedItem : M Value bool := isFlagSet kIsChainedItem.
Definition markHasChainedItem : M Value unit := setFlag kHasChainedItem.
Definition unmarkHasChainedItem : M Value unit := unSetFlag kHasChainedItem.
Definition hasChainedItem : M Value bool := isFlagSet kHasChainedItem.
Definition markNvmClean : M Value unit := setFlag kNvmClean.
Definition unmarkNvmClean : M Value unit := unSetFlag kNvmClean.
Definition isNvmClean : M Value bool := isFlagSet kNvmClean.
Definition markNvmEvicted : M Value unit := setFlag kNvmEvicted.
Definition unmarkNvmEvicted : M Value unit := unSetFlag kNvmEvicted.
Definition isNvmEvicted : M Value bool := isFlagSet kNvmEvicted.

Definition isDrained : M Value bool :=
  let! r := getRefWithAccessAndAdmin in ret (r =? 0).

(** ** Abstract specification *)

Record RcAbs : Type := mkRcAbs {
  ra_access : Z;
  ra_linked : bool;
  ra_accessible : bool;
  ra_exclusive : bool;
  ra_flags : Z
}.

Definition rc_abs (v : Value) : RcAbs := {|
  ra_access := v mod 2 ^ kNumAccessRefBits;
  ra_linked := Z.testbit v (adminBit kLinked);
  ra_accessible := Z.testbit v (adminBit kAccessible);
  ra_exclusive := Z.testbit v (adminBit kExclusive);
  ra_flags := v / 2 ^ (kNumAccessRefBits + kNumAdminRefBits)
|}.

Definition rc_wf (a : RcAbs) : Prop :=
  0 <= ra_access a < 2 ^ kNumAccessRefBits /\ 0 <= ra_flags a < 2 ^ kNumFlags.

Definition rc_pack (a : RcAbs) : Value :=
  ra_access a + 2 ^ 18 * Z.b2z (ra_linked a) + 2 ^ 19 * Z.b2z (ra_accessible a)
  + 2 ^ 20 * Z.b2z (ra_exclusive a) + 2 ^ 21 * ra_flags a.

Definition set_access (x : Z) (a : RcAbs) : RcAbs :=
  mkRcAbs x (ra_linked a) (ra_accessible a) (ra_exclusive a) (ra_flags a).
Definition set_admin (k : AdminRef) (b : bool) (a : RcAbs) : RcAbs :=
  match k with
  | kLinked => mkRcAbs (ra_access a) b (ra_accessible a) (ra_exclusive a) (ra_flags a)
  | kAccessible => mkRcAbs (ra_access a) (ra_linked a) b (ra_exclusive a) (ra_flags a)
  | kExclusive => mkRcAbs (ra_access a) (ra_linked a) (ra_accessible a) b (ra_flags a)
  end.
Definition set_flags (x : Z) (a : RcAbs) : RcAbs :=
  mkRcAbs (ra_access a) (ra_linked a) (ra_accessible a) (ra_exclusive a) x.

(** The reference word an operation returns: access count and admin bits. *)
Definition ref_word (a : RcAbs) : Z :=
  ra_access a + 2 ^ 18 * Z.b2z (ra_linked a) + 2 ^ 19 * Z.b2z (ra_accessible a)
  + 2 ^ 20 * Z.b2z (ra_exclusive a).

Definition max_access : Z := 2 ^ kNumAccessRefBits - 1.

(** The operations other components call, and what they return. *)
Inductive rc_op : Type -> Type :=
| OpIncRef : rc_op IncResult
| OpDecRef : rc_op Value
| OpGetAccessRef : rc_op Value
| OpGetRef : rc_op Value
| OpMark (k : AdminRef) (Hk : k <> kExclusive) : rc_op unit
| OpUnmark (k : AdminRef) (Hk : k <> kExclusive) : rc_op unit
| OpMarkForEviction : rc_op bool
| OpUnmarkForEviction : rc_op Value
| OpMarkMoving : rc_op bool
| OpUnmarkMoving : rc_op Value
| OpEvictWhenMoving : rc_op bool
| OpIsMarkedForEviction : rc_op bool
| OpIsMoving : rc_op bool
| OpIsDrained : rc_op bool
| OpSetFlag (f : Flags) : rc_op unit
| OpUnSetFlag (f : Flags) : rc_op unit
| OpIsFlagSet (f : Flags) : rc_op bool.

Definition rc_run {A} (op : rc_op A) : M Value A :=
  match op with
  | OpIncRef => incRef
  | OpDecRef => decRef
  | OpGetAccessRef => getAccessRef
  | OpGetRef => getRefWithAccessAndAdmin
  | OpMark k _ => match k with kLinked => markInMMContainer | _ => markAccessible end
  | OpUnmark k _ =>
      match k with kLinked => unmarkInMMContainer | _ => unmarkAccessible end
  | OpMarkForEviction => markForEviction
  | OpUnmarkForEviction => unmarkForEviction
  | OpMarkMoving => markMoving
  | OpUnmarkMoving => unmarkMoving
  | OpEvictWhenMoving => markForEvictionWhenMoving
  | OpIsMarkedForEviction => isMarkedForEviction
  | OpIsMoving => isMoving
  | OpIsDrained => isDrained
  | OpSetFlag f => setFlag f
  | OpUnSetFlag f => unSetFlag f
  | OpIsFlagSet f => isFlagSet f
  end.

(** When an operation may be called: the assertions (XDCHECK) of the source. *)
Definition rc_pre {A} (op : rc_op A) (a : RcAbs) : Prop :=
  match op with
  | OpUnmarkMoving | OpEvictWhenMoving =>
      ra_exclusive a = true /\ ra_access a <> 0
  | OpUnmarkForEviction => ra_exclusive a = true /\ ra_access a = 0
  | _ => True
  end.

Definition flagIdx (f : Flags) : Z := flagBit f - (kNumAccessRefBits + kNumAdminRefBits).

(** The specification of each operation on the separate fields. *)
Definition rc_spec {A} (op : rc_op A) (a : RcAbs) : res A * RcAbs :=
  match op in rc_op A return res A * RcAbs with
  | OpIncRef =>
      if ra_access a =? max_access then (Throw RefcountOverflow, a)
      else if ra_exclusive a then
        (Ok (if ra_access a =? 0 then kIncFailedEviction else kIncFailedMoving), a)
      else (Ok kIncOk, set_access (ra_access a + 1) a)
  | OpDecRef =>
      if ra_access a =? 0 then (Throw RefcountUnderflow, a)
      else let a' := set_access (ra_access a - 1) a in (Ok (ref_word a'), a')
  | OpGetAccessRef =>
      (Ok (if ra_exclusive a && (1 <=? ra_access a) then ra_access a - 1
           else ra_access a), a)
  | OpGetRef => (Ok (ref_word a), a)
  | OpMark k _ => (Ok tt, set_admin k true a)
  | OpUnmark k _ => (Ok tt, set_admin k false a)
  | OpMarkForEviction =>
      if ra_linked a && negb (ra_exclusive a) && (ra_access a =? 0)
      then (Ok true, set_admin kExclusive true a) else (Ok false, a)
  | OpUnmarkForEviction =>
      let a' := set_admin kExclusive false a in (Ok (ref_word a'), a')
  | OpMarkMoving =>
      if ra_linked a && negb (ra_exclusive a) && (ra_access a =? 0)
      then (Ok true, set_access 1 (set_admin kExclusive true a)) else (Ok false, a)
  | OpUnmarkMoving =>
      let a' := set_access (ra_access a - 1) (set_admin kExclusive false a) in
      (Ok (ref_word a'), a')
  | OpEvictWhenMoving => (Ok true, set_access (ra_access a - 1) a)
  | OpIsMarkedForEviction => (Ok (ra_exclusive a && (ra_access a =? 0)), a)
  | OpIsMoving => (Ok (ra_exclusive a && negb (ra_access a =? 0)), a)
  | OpIsDrained => (Ok (ref_word a =? 0), a)
  | OpSetFlag f => (Ok tt, set_flags (Z.setbit (ra_flags a) (flagIdx f)) a)
  | OpUnSetFlag f => (Ok tt, set_flags (Z.clearbit (ra_flags a) (flagIdx f)) a)
  | OpIsFlagSet f => (Ok (Z.testbit (ra_flags a) (flagIdx f)), a)
  end.

(** ** Lemmas on the packed word *)

Lemma rc_access_mask (v : Value) : Z.land v kAccessRefMask = v mod 2 ^ 18.
Proof. change kAccessRefMask with (Z.ones 18). by apply Z.land_ones. Qed.

Lemma rc_access_max : kAccessRefMask = max_access.
Proof. reflexivity. Qed.

Lemma rc_admin_test (v : Value) (k : AdminRef) :
  mask_test v (getAdminRef k) = Z.testbit v (adminBit k).
Proof. apply mask_test_bit. by destruct k. Qed.

Lemma rc_flag_test (v : Value) (f : Flags) :
  mask_test v (getFlag f) = Z.testbit v (flagBit f).
Proof. apply mask_test_bit. by destruct f. Qed.

(** Two words with the same upper part differ in the access count only. *)
Lemma rc_abs_same_high (v w : Value) :
  w / 2 ^ 18 = v / 2 ^ 18 -> rc_abs w = set_access (w mod 2 ^ 18) (rc_abs v).
Proof.
  intros Hq. unfold rc_abs, set_access; simpl.
  assert (Hb : forall i, 18 <= i -> Z.testbit w i = Z.testbit v i).
  { intros i Hi. replace i with ((i - 18) + 18) by lia.
    by rewrite <- !testbit_div_pow2, Hq by lia. }
  rewrite !Hb by (unfold adminBit, kNumAccessRefBits; lia). f_equal.
  change (2 ^ (kNumAccessRefBits + kNumAdminRefBits)) with (2 ^ 18 * 2 ^ 3).
  by rewrite <- !Z.div_div, Hq by lia.
Qed.

Lemma rc_abs_inc (v : Value) :
  is_u32 v -> v mod 2 ^ 18 <> max_access ->
  is_u32 (u32 (v + 1)) /\
  rc_abs (u32 (v + 1)) = set_access (v mod 2 ^ 18 + 1) (rc_abs v).
Proof.
  unfold is_u32, max_access, kNumAccessRefBits. intros Hv Hm. split; [apply u32_range|].
  pose proof (Z.div_mod v (2 ^ 18)) as Hd. pose proof (Z.mod_pos_bound v (2 ^ 18)) as Hr.
  assert (Hs : u32 (v + 1) = v + 1) by (apply u32_small; unfold is_u32; lia).
  rewrite Hs. assert (Hmod : (v + 1) mod 2 ^ 18 = v mod 2 ^ 18 + 1) by
    (symmetry; apply (Z.mod_unique _ _ (v / 2 ^ 18)); lia).
  rewrite <- Hmod. apply rc_abs_same_high.
  symmetry. apply (Z.div_unique _ _ _ (v mod 2 ^ 18 + 1)); lia.
Qed.

Lemma rc_abs_dec (v : Value) :
  is_u32 v -> v mod 2 ^ 18 <> 0 ->
  is_u32 (u32 (v - 1)) /\
  rc_abs (u32 (v - 1)) = set_access (v mod 2 ^ 18 - 1) (rc_abs v).
Proof.
  unfold is_u32. intros Hv Hm. split; [apply u32_range|].
  pose proof (Z.div_mod v (2 ^ 18)) as Hd. pose proof (Z.mod_pos_bound v (2 ^ 18)) as Hr.
  assert (Hs : u32 (v - 1) = v - 1) by (apply u32_small; unfold is_u32; lia).
  rewrite Hs. assert (Hmod : (v - 1) mod 2 ^ 18 = v mod 2 ^ 18 - 1) by
    (symmetry; apply (Z.mod_unique _ _ (v / 2 ^ 18)); lia).
  rewrite <- Hmod. apply rc_abs_same_high.
  symmetry. apply (Z.div_unique _ _ _ (v mod 2 ^ 18 - 1)); lia.
Qed.

(** Reading the fields of a word with one bit at position [k >= 18] changed. *)
Lemma rc_low_or (v k : Z) :
  18 <= k -> Z.lor v (Z.shiftl 1 k) mod 2 ^ 18 = v mod 2 ^ 18.
Proof. intros Hk. rewrite Z.shiftl_1_l. zbits. Qed.

Lemma rc_lnot_bit (k i : Z) :
  0 <= k < 32 -> 0 <= i -> Z.testbit (lnot32 (Z.shiftl 1 k)) i = (i <? 32) && negb (i =? k).
Proof.
  intros Hk Hi. replace (lnot32 (Z.shiftl 1 k)) with (Z.ldiff (Z.ones 32) (2 ^ k)).
  { autorewrite with bits. rewrite (Z.eqb_sym k). done. }
  unfold lnot32. rewrite Z.shiftl_1_l. change Value_max with (Z.ones 32).
  symmetry. apply Z.sub_nocarry_ldiff. zbits.
Qed.

Lemma rc_low_and (v k : Z) :
  18 <= k < 32 -> Z.land v (lnot32 (Z.shiftl 1 k)) mod 2 ^ 18 = v mod 2 ^ 18.
Proof.
  intros Hk. zbits. rewrite rc_lnot_bit by lia. zbits_cases.
  apply andb_true_r.
Qed.

Lemma rc_u32_or (v k : Z) :
  is_u32 v -> 0 <= k < 32 -> is_u32 (Z.lor v (Z.shiftl 1 k)).
Proof.
  intros Hv Hk. rewrite Z.shiftl_1_l.
  replace (Z.lor v (2 ^ k)) with (u32 (Z.lor v (2 ^ k))); [apply u32_range|].
  unfold u32. zbits. by rewrite (testbit_above v 32) by (unfold is_u32 in Hv; lia).
Qed.

Lemma rc_u32_and (v m : Z) : is_u32 v -> is_u32 (Z.land v m).
Proof.
  intros Hv. replace (Z.land v m) with (u32 (Z.land v m)); [apply u32_range|].
  unfold u32. zbits. by rewrite (testbit_above v 32) by (unfold is_u32 in Hv; lia).
Qed.

#[local] Hint Resolve rc_u32_or rc_u32_and u32_range : core.

Ltac rc_consts :=
  unfold getAdminRef, getFlag, flagIdx, adminBit, flagBit,
    kNumAccessRefBits, kNumAdminRefBits, NumBits_Value in *.

Lemma rc_abs_set_admin (v : Value) (k : AdminRef) :
  is_u32 v -> rc_abs (Z.lor v (getAdminRef k)) = set_admin k true (rc_abs v).
Proof.
  intros Hv. unfold rc_abs, set_admin; destruct k; simpl; rc_consts; f_equal;
    try (by apply rc_low_or); rewrite ?Z.shiftl_1_l;
    try (by autorewrite with bits; zbits_cases; rewrite ?orb_true_r, ?orb_false_r);
    zbits.
Qed.

Lemma rc_abs_clear_admin (v : Value) (k : AdminRef) :
  is_u32 v -> rc_abs (Z.land v (lnot32 (getAdminRef k))) = set_admin k false (rc_abs v).
Proof.
  intros Hv. unfold rc_abs, set_admin; destruct k; simpl; rc_consts; f_equal;
    try (apply rc_low_and; lia);
    try (by rewrite Z.land_spec, rc_lnot_bit by lia; zbits_cases;
         rewrite ?andb_true_r, ?andb_false_r);
    (zbits; rewrite rc_lnot_bit by lia; zbits_cases; rewrite ?andb_true_r; try done;
     simpl; by rewrite (testbit_above v 32) by (unfold is_u32 in Hv; lia)).
Qed.

Lemma rc_abs_set_flag (v : Value) (f : Flags) :
  is_u32 v ->
  rc_abs (Z.lor v (Z.shiftl 1 (flagBit f))) =
    set_flags (Z.setbit (ra_flags (rc_abs v)) (flagIdx f)) (rc_abs v).
Proof.
  intros Hv. unfold rc_abs, set_flags; simpl.
  assert (Hf : 21 <= flagBit f < 32) by (destruct f; rc_consts; lia).
  rewrite rc_low_or by lia. rewrite Z.shiftl_1_l. rc_consts. f_equal;
    try (by autorewrite with bits; zbits_cases; rewrite ?orb_false_r).
  zbits.
Qed.

Lemma rc_abs_clear_flag (v : Value) (f : Flags) :
  is_u32 v ->
  rc_abs (Z.land v (lnot32 (Z.shiftl 1 (flagBit f)))) =
    set_flags (Z.clearbit (ra_flags (rc_abs v)) (flagIdx f)) (rc_abs v).
Proof.
  intros Hv. unfold rc_abs, set_flags; simpl.
  assert (Hf : 21 <= flagBit f < 32) by (destruct f; rc_consts; lia).
  rewrite rc_low_and by lia. rc_consts. f_equal;
    try (by rewrite Z.land_spec, rc_lnot_bit by lia; zbits_cases; rewrite ?andb_true_r).
  zbits; rewrite rc_lnot_bit by lia; zbits_cases; rewrite ?andb_true_r; try done.
  simpl. by rewrite (testbit_above v 32) by (unfold is_u32 in Hv; lia).
Qed.

Lemma rc_admin_digit (v : Value) (k : AdminRef) :
  Z.b2z (Z.testbit v (adminBit k)) =
    v / 2 ^ 18 / match k with kLinked => 1 | kAccessible => 2 | kExclusive => 4 end mod 2.
Proof.
  destruct k; rc_consts; rewrite Z.testbit_spec' by lia;
    rewrite Z.div_div by lia; f_equal; f_equal; lia.
Qed.

Lemma rc_ref_word (v : Value) : Z.land v kRefMask = ref_word (rc_abs v).
Proof.
  change kRefMask with (Z.ones 21). rewrite Z.land_ones by lia.
  unfold ref_word, rc_abs; cbn [ra_access ra_linked ra_accessible ra_exclusive].
  rewrite !rc_admin_digit. change kNumAccessRefBits with 18.
  change (2 ^ 21) with (2 ^ 18 * 8). rewrite Z.rem_mul_r by lia.
  set (q := v / 2 ^ 18). rewrite Z.div_1_r.
  pose proof (Z.div_mod q 8). pose proof (Z.div_mod (q / 2) 2). pose proof (Z.div_mod (q / 4) 2).
  Z.div_mod_to_equations. lia.
Qed.

Lemma rc_pack_abs (v : Value) : rc_pack (rc_abs v) = v.
Proof.
  change (rc_pack (rc_abs v)) with
    (ref_word (rc_abs v) + 2 ^ 21 * ra_flags (rc_abs v)).
  rewrite <- rc_ref_word. change kRefMask with (Z.ones 21). rewrite Z.land_ones by lia.
  simpl. change (2 ^ (kNumAccessRefBits + kNumAdminRefBits)) with (2 ^ 21).
  pose proof (Z.div_mod v (2 ^ 21)). lia.
Qed.

(** ** Refinement *)

#[local] Arguments rc_abs : simpl never.

Lemma rc_abs_range (v : Value) : 0 <= ra_access (rc_abs v) < 2 ^ 18.
Proof. apply Z.mod_pos_bound. lia. Qed.

Ltac rc_open :=
  unfold isDrained, state_of, result_of, incRef, decRef, getAccessRef,
    getRefWithAccessAndAdmin, markForEviction, unmarkForEviction,
    markMoving, unmarkMoving, markForEvictionWhenMoving, isMarkedForEviction,
    isMoving, setFlag, unSetFlag, isFlagSet, markInMMContainer,
    unmarkInMMContainer, markAccessible, unmarkAccessible, getRaw,
    casRun, casStep, casAttempt, incRef_op, decRef_op, markForEviction_op, markMoving_op, unmarkMoving_op,
    markForEvictionWhenMoving_op, atomicOr, atomicAnd, bind, ret, throw, get, gets, modify;
  cbn [predicate newValueF captured onReturn fst snd];
  rewrite ?rc_access_mask, ?rc_admin_test, ?rc_flag_test, ?rc_access_max, ?Z.eqb_refl;
  cbn [fst snd].

Ltac rc_fold v :=
  change (v mod 2 ^ 18) with (ra_access (rc_abs v)) in *;
  change (Z.testbit v (adminBit kExclusive)) with (ra_exclusive (rc_abs v)) in *;
  change (Z.testbit v (adminBit kAccessible)) with (ra_accessible (rc_abs v)) in *;
  change (Z.testbit v (adminBit kLinked)) with (ra_linked (rc_abs v)) in *.

(** The compare-and-swap of a thread alone finds what it read. *)
Ltac cas_alone := cbn; rewrite ?Z.eqb_refl; done.

Lemma incRef_cases (v : Value) :
  incRef v =
    if ra_access (rc_abs v) =? max_access then (Throw RefcountOverflow, v)
    else if ra_exclusive (rc_abs v) then
      (Ok (if ra_access (rc_abs v) =? 0 then kIncFailedEviction
           else kIncFailedMoving), v)
    else (Ok kIncOk, u32 (v + 1)).
Proof.
  rc_open. rc_fold v.
  destruct (ra_access (rc_abs v) =? max_access), (ra_exclusive (rc_abs v)); cas_alone.
Qed.

Lemma decRef_cases (v : Value) :
  decRef v =
    if ra_access (rc_abs v) =? 0 then (Throw RefcountUnderflow, v)
    else (Ok (Z.land (u32 (v - 1)) kRefMask), u32 (v - 1)).
Proof. rc_open. rc_fold v. destruct (ra_access (rc_abs v) =? 0); cas_alone. Qed.

Lemma markForEviction_cases (v : Value) :
  markForEviction v =
    if ra_linked (rc_abs v) && negb (ra_exclusive (rc_abs v)) &&
       (ra_access (rc_abs v) =? 0)
    then (Ok true, Z.lor v (getAdminRef kExclusive)) else (Ok false, v).
Proof.
  rc_open. rc_fold v.
  destruct (ra_linked (rc_abs v)), (ra_exclusive (rc_abs v)), (ra_access (rc_abs v) =? 0); cas_alone.
Qed.

Lemma markMoving_cases (v : Value) :
  markMoving v =
    if ra_linked (rc_abs v) && negb (ra_exclusive (rc_abs v)) &&
       (ra_access (rc_abs v) =? 0)
    then (Ok true, Z.lor (u32 (v + 1)) (getAdminRef kExclusive)) else (Ok false, v).
Proof.
  rc_open. rc_fold v. pose proof (rc_abs_range v).
  destruct (Z.ltb_spec 0 (ra_access (rc_abs v))), (Z.eqb_spec (ra_access (rc_abs v)) 0);
    try lia; destruct (ra_linked (rc_abs v)), (ra_exclusive (rc_abs v)); cas_alone.
Qed.

Lemma rc_op_refines {A : Type} (op : rc_op A) (v : Value) :
  is_u32 v -> rc_pre op (rc_abs v) ->
  is_u32 (state_of (rc_run op) v) /\
  rc_spec op (rc_abs v) =
    (result_of (rc_run op) v, rc_abs (state_of (rc_run op) v)).
Proof.
  intros Hv. destruct op; cbn [rc_run rc_spec rc_pre]; intros Hpre; unfold state_of, result_of.
  - rewrite incRef_cases. repeat case_match; cbn [fst snd]; try done.
    apply Z.eqb_neq in H. destruct (rc_abs_inc v) as [? ->]; auto.
  - rewrite decRef_cases. case_match; cbn [fst snd]; [done|].
    apply Z.eqb_neq in H. rewrite rc_ref_word.
    destruct (rc_abs_dec v) as [? ->]; auto.
  - rc_open. rc_fold v. pose proof (rc_abs_range v).
    case_match eqn:E; [|done]. split; [done|]. cbn [fst snd].
    rewrite u32_small; [done|]. unfold is_u32. lia.
  - rc_open. by rewrite rc_ref_word.
  - destruct k; rc_open; try done; (split; [apply rc_u32_or; [done|rc_consts; lia]|]);
      by rewrite rc_abs_set_admin.
  - destruct k; rc_open; try done; (split; [by apply rc_u32_and|]);
      by rewrite rc_abs_clear_admin.
  - rewrite markForEviction_cases. case_match; cbn [fst snd]; [|done].
    split; [apply rc_u32_or; [done|rc_consts; lia]|]. by rewrite rc_abs_set_admin.
  - rc_open. split; [by apply rc_u32_and|].
    rewrite rc_ref_word. by rewrite rc_abs_clear_admin.
  - rewrite markMoving_cases. case_match eqn:E; cbn [fst snd]; [|done].
    apply andb_true_iff in E as [E Ha]. apply Z.eqb_eq in Ha.
    destruct (rc_abs_inc v) as [Hu Hi]; [done|rc_fold v; by rewrite Ha|].
    split; [apply rc_u32_or; [done|rc_consts; lia]|].
    rewrite rc_abs_set_admin, Hi by done. f_equal. change (v mod 2 ^ 18) with
      (ra_access (rc_abs v)). by rewrite Ha.
  - rc_open. destruct Hpre as [_ Hpre]. destruct (rc_abs_dec v) as [Hu Hd]; [done..|].
    split; [by apply rc_u32_and|]. rewrite rc_ref_word, rc_abs_clear_admin, Hd by done.
    done.
  - rc_open. destruct Hpre as [_ Hpre]. destruct (rc_abs_dec v) as [Hu ->]; done.
  - rc_open. done.
  - rc_open. done.
  - rc_open. by rewrite rc_ref_word.
  - rc_open. assert (0 <= flagBit f < 32) by (destruct f; rc_consts; lia).
    split; [by apply rc_u32_or|]. by rewrite rc_abs_set_flag.
  - rc_open. split; [by apply rc_u32_and|]. change (Value_max - Z.shiftl 1 (flagBit f))
      with (lnot32 (Z.shiftl 1 (flagBit f))). by rewrite rc_abs_clear_flag.
  - rc_open. split; [done|]. f_equal. f_equal. unfold rc_abs; simpl. rc_consts.
    rewrite testbit_div_pow2 by (destruct f; lia). f_equal. lia.
Qed.

(** C9. Every operation of the packed 32-bit reference count does to the word
    what its specification does to the separate fields (access count, the
    three admin bits, the flags), returns the specified value or exception,
    and stays a 32-bit value; no operation disturbs a field it does not own. *)
Theorem refcount_refines {A : Type} (op : rc_op A) (v : Value) :
  is_u32 v -> rc_pre op (rc_abs v) ->
  is_u32 (state_of (rc_run op) v) /\
  rc_spec op (rc_abs v) =
    (result_of (rc_run op) v, rc_abs (state_of (rc_run op) v)).
Proof. apply rc_op_refines. Qed.

Lemma refcount_refines_witness :
  rc_pre OpUnmarkMoving (rc_abs (2 ^ 26 + 2 ^ 20 + 2 ^ 18 + 1)) /\
  rc_abs (state_of (rc_run OpUnmarkMoving) (2 ^ 26 + 2 ^ 20 + 2 ^ 18 + 1)) =
    mkRcAbs 0 true false false 32.
Proof.
  split; [by vm_compute|].
  assert (H : is_u32 (2 ^ 26 + 2 ^ 20 + 2 ^ 18 + 1)) by (unfold is_u32; lia).
  assert (Hp : rc_pre OpUnmarkMoving (rc_abs (2 ^ 26 + 2 ^ 20 + 2 ^ 18 + 1)))
    by (by vm_compute).
  destruct (refcount_refines OpUnmarkMoving _ H Hp) as [_ Hr].
  transitivity (snd (rc_spec OpUnmarkMoving (rc_abs (2 ^ 26 + 2 ^ 20 + 2 ^ 18 + 1))));
    [by rewrite Hr|by vm_compute].
Defined.

(** The layout is faithful: packing the separate fields into a word and
    reading them back is the identity, and every 32-bit word is the packing of
    the fields read from it, so no two states share a word. *)
Theorem refcount_layout_roundtrip (a : RcAbs) (v : Value) :
  rc_wf a -> is_u32 v ->
  is_u32 (rc_pack a) /\ rc_abs (rc_pack a) = a /\ rc_pack (rc_abs v) = v.
Proof.
  intros [Ha Hf] Hv. unfold kNumAccessRefBits, kNumFlags in *.
  assert (Hb : forall b, 0 <= Z.b2z b <= 1) by (intros []; simpl; lia).
  pose proof (Hb (ra_linked a)). pose proof (Hb (ra_accessible a)).
  pose proof (Hb (ra_exclusive a)).
  repeat split; [unfold rc_pack; lia|unfold rc_pack; lia| |apply rc_pack_abs].
  set (n := Z.b2z (ra_linked a) + 2 * Z.b2z (ra_accessible a)
            + 4 * Z.b2z (ra_exclusive a) + 8 * ra_flags a).
  assert (Hp : rc_pack a = 2 ^ 18 * n + ra_access a) by (unfold rc_pack, n; lia).
  assert (Hq : rc_pack a / 2 ^ 18 = n) by
    (symmetry; apply (Z.div_unique _ _ _ (ra_access a)); lia).
  assert (Hd : forall k, Z.b2z (Z.testbit (rc_pack a) (adminBit k)) =
    Z.b2z match k with kLinked => ra_linked a | kAccessible => ra_accessible a
          | kExclusive => ra_exclusive a end).
  { intros k. rewrite rc_admin_digit, Hq. unfold n. destruct k; Z.div_mod_to_equations; lia. }
  destruct a as [x b1 b2 b3 f]; cbn [ra_access ra_flags ra_linked ra_accessible ra_exclusive] in *.
  unfold rc_abs. f_equal.
  - unfold kNumAccessRefBits. rewrite Hp. symmetry. apply (Z.mod_unique _ _ n); lia.
  - by apply Z.b2z_inj, (Hd kLinked).
  - by apply Z.b2z_inj, (Hd kAccessible).
  - by apply Z.b2z_inj, (Hd kExclusive).
  - unfold kNumAccessRefBits, kNumAdminRefBits.
    change (2 ^ (18 + 3)) with (2 ^ 18 * 8). rewrite <- Z.div_div, Hq by lia.
    unfold n. Z.div_mod_to_equations; lia.
Qed.

Lemma refcount_layout_roundtrip_witness :
  rc_abs (rc_pack (mkRcAbs 5 true false true 3)) = mkRcAbs 5 true false true 3.
Proof.
  apply (refcount_layout_roundtrip (mkRcAbs 5 true false true 3) 0);
    [split; vm_compute; split; congruence | split; vm_compute; congruence].
Defined.

(** ** Threads: the operations are linearizable *)

Definition casOf {A} (op : rc_op A) : option (CasOp A) :=
  match op in rc_op A return option (CasOp A) with
  | OpIncRef => Some incRef_op
  | OpDecRef => Some decRef_op
  | OpMarkForEviction => Some markForEviction_op
  | OpMarkMoving => Some markMoving_op
  | OpUnmarkMoving => Some unmarkMoving_op
  | OpEvictWhenMoving => Some markForEvictionWhenMoving_op
  | _ => None
  end.

(** A thread that calls an operation of the word. An operation that is no
    loop is one atomic access. *)
Inductive Pc {A} (op : rc_op A) : Type :=
| PcStart
| PcLoop (c : CasOp A) (pc : CasPc c)
| PcDone (r : res A).
Arguments PcStart {A op}.
Arguments PcLoop {A op} _ _.
Arguments PcDone {A op} _.

Definition inLoop {A} {op : rc_op A} {c : CasOp A} (pc : CasPc c) : Pc op :=
  match pc with CasDone r => PcDone r | pc => PcLoop c pc end.

(** The next access of a thread to the word. *)
Definition pcStep {A} {op : rc_op A} (pc : Pc op) (mem : Value) : Pc op * Value :=
  match pc with
  | PcStart =>
      match casOf op with
      | Some c => let '(pc, mem) := casStep (c := c) CasLoad mem in (inLoop pc, mem)
      | None => let '(r, mem) := rc_run op mem in (PcDone r, mem)
      end
  | PcLoop c pc => let '(pc, mem) := casStep pc mem in (inLoop pc, mem)
  | PcDone r => (PcDone r, mem)
  end.

Inductive Thread : Type :=
| Th {A : Type} (op : rc_op A) (pc : Pc op).

Definition threadDone (t : Thread) : bool :=
  match t with Th _ (PcDone _) => true | _ => false end.
Definition threadStep (t : Thread) (mem : Value) : Thread * Value :=
  match t with Th op pc => let '(pc, mem) := pcStep pc mem in (Th op pc, mem) end.

(** Any thread that has not returned makes its next access. *)
Inductive sys_step : Value * list Thread -> Value * list Thread -> Prop :=
| sys_thread v ts i t t' v' :
    ts !! i = Some t -> threadDone t = false -> threadStep t v = (t', v') ->
    sys_step (v, ts) (v', <[i := t']> ts).

(** The threads in [order] have returned, with what they return when their
    operations run one after the other, each at one instant, from the word
    [v]; the last of them leaves [v']. *)
Fixpoint sequential (ts : list Thread) (order : list nat) (v v' : Value) : Prop :=
  match order with
  | [] => v' = v
  | i :: order => exists A (op : rc_op A) r w,
      ts !! i = Some (Th op (PcDone r)) /\ rc_run op v = (r, w) /\ sequential ts order w v'
  end.

Definition linearizes (v0 : Value) (order : list nat) (s : Value * list Thread) : Prop :=
  NoDup order /\
  (forall i t, snd s !! i = Some t -> threadDone t = true <-> i ∈ order) /\
  sequential (snd s) order v0 (fst s).

(** A thread between its accesses: the value it is about to store was computed
    from the value it is about to compare with. *)
Definition pc_ok {A} {op : rc_op A} (pc : Pc op) : Prop :=
  match pc with
  | PcLoop c pc => casOf op = Some c /\
      match pc with
      | CasTry cur new r => exists r0 r1, predicate c cur r0 = (Ok true, r1) /\ newValueF c cur r1 = (new, r)
      | _ => False
      end
  | _ => True
  end.

Definition thread_ok (t : Thread) : Prop := match t with Th op pc => pc_ok pc end.

(** The captured variables only carry results out of the lambdas. *)
Lemma attempt_captured {A} (op : rc_op A) (c : CasOp A) (cur : Value) (r r' : Captured c) :
  casOf op = Some c -> casAttempt c cur r = casAttempt c cur r'.
Proof.
  destruct op; cbn [casOf]; intros [= <-]; unfold casAttempt, incRef_op, decRef_op, markForEviction_op,
    markMoving_op, unmarkMoving_op, markForEvictionWhenMoving_op in *; cbn in *;
    repeat match goal with |- context [if ?b then _ else _] => destruct b end; try done;
    by destruct r, r'.
Qed.

(** The operation alone, from its first round. *)
Lemma rc_run_attempt {A} (op : rc_op A) (c : CasOp A) (v : Value) :
  casOf op = Some c ->
  rc_run op v = match casAttempt c v (captured c) with
                | CasDone r => (r, v)
                | CasTry _ new r => (Ok (onReturn c true r), new)
                | CasLoad => (Throw StillWaiting, v)
                end.
Proof.
  intros Hc. assert (Hr : rc_run op = casRun c) by (destruct op; cbn [casOf] in Hc; by simplify_eq).
  rewrite Hr. unfold casRun. cbn [casStep]. unfold casAttempt.
  destruct (predicate c v (captured c)) as [[[|]|] r]; cbn [casStep]; [|done..].
  destruct (newValueF c v r) as [new r']. cbn [casStep]. by rewrite Z.eqb_refl.
Qed.

Lemma attempt_ok {A} (op : rc_op A) (c : CasOp A) (v : Value) (r : Captured c) :
  casOf op = Some c -> pc_ok (op := op) (inLoop (casAttempt c v r)) /\
  forall a, inLoop (op := op) (casAttempt c v r) = PcDone a -> rc_run op v = (a, v).
Proof.
  intros Hc. rewrite (rc_run_attempt op c v Hc), (attempt_captured op c v (captured c) r Hc).
  unfold casAttempt. destruct (predicate c v r) as [[[|]|] r1] eqn:Hp; cbn [inLoop pc_ok];
    [|split; [done|by intros a [= <-]]..].
  destruct (newValueF c v r1) as [new r2] eqn:Hn. cbn. split; [|done]. eauto.
Qed.

(** An access keeps the thread consistent; one that returns leaves the word
    and gives the result as the operation alone would. *)
Lemma threadStep_ok (t t' : Thread) (v v' : Value) :
  thread_ok t -> threadDone t = false -> threadStep t v = (t', v') ->
  thread_ok t' /\
  if threadDone t' then exists A (op : rc_op A) r, t' = Th op (PcDone r) /\ rc_run op v = (r, v')
  else v' = v.
Proof.
  destruct t as [A op [|c [|cur new r|a]|a]]; cbn [thread_ok pc_ok threadDone threadStep pcStep]; try done.
  - intros _ _. destruct (casOf op) as [c|] eqn:Hc; cbn [casStep].
    + intros [= <- <-]. destruct (attempt_ok op c v (captured c) Hc) as [H1 H2]. split; [exact H1|].
      cbn [threadDone]. destruct (inLoop (casAttempt c v (captured c))) as [| |a]; [done..|]. eauto 10.
    + destruct (rc_run op v) as [a w] eqn:E. intros [= <- <-]. split; [done|]. cbn. eauto 10.
  - by intros [].
  - intros [Hc (r0 & r1 & Hp & Hn)] _. cbn [casStep]. destruct (Z.eqb_spec v cur) as [->|].
    + intros [= <- <-]. split; [done|]. cbn. exists A, op, (Ok (onReturn c true r)). split; [done|].
      rewrite (rc_run_attempt op c cur Hc), (attempt_captured op c cur (captured c) r0 Hc).
      unfold casAttempt. by rewrite Hp, Hn.
    + intros [= <- <-]. destruct (attempt_ok op c v r Hc) as [H1 H2]. split; [exact H1|].
      cbn [threadDone]. destruct (inLoop (casAttempt c v r)) as [| |a]; [done..|]. eauto 10.
  - by intros [].
Qed.

Lemma sequential_frame (ts : list Thread) (i : nat) (t' : Thread) (order : list nat) (v v' : Value) :
  i ∉ order -> sequential ts order v v' -> sequential (<[i := t']> ts) order v v'.
Proof.
  revert v. induction order as [|j order IH]; intros v Hi; [done|].
  intros (A & op & r & w & Hj & Hr & Hs). exists A, op, r, w.
  rewrite list_lookup_insert_ne by set_solver. split_and!; [done..|]. apply IH; [set_solver|done].
Qed.

Lemma sequential_snoc (ts : list Thread) (i : nat) {A} (op : rc_op A) (r : res A) (order : list nat) (v0 v v' : Value) :
  ts !! i = Some (Th op (PcDone r)) -> rc_run op v = (r, v') ->
  sequential ts order v0 v -> sequential ts (order ++ [i]) v0 v'.
Proof.
  intros Hi Hr. revert v0. induction order as [|j order IH]; intros v0; cbn [app sequential].
  - intros ->. exists A, op, r, v'. done.
  - intros (B & op' & r' & w & Hj & Hr' & Hs). exists B, op', r', w. eauto.
Qed.

Lemma sys_step_linearizes (v0 : Value) (s s' : Value * list Thread) (order : list nat) :
  sys_step s s' -> Forall thread_ok (snd s) -> linearizes v0 order s ->
  Forall thread_ok (snd s') /\ exists l, linearizes v0 (order ++ l) s'.
Proof.
  destruct 1 as [v ts i t t' v' Hi Hd Hs]. cbn [fst snd]. intros Hok (Hnd & Hdone & Hseq).
  cbn [fst snd] in Hdone, Hseq.
  destruct (threadStep_ok t t' v v' (Forall_lookup_1 _ _ _ _ Hok Hi) Hd Hs) as [Hok' Hres].
  split; [by apply Forall_insert|].
  assert (Hn : i ∉ order) by (intros Hin%(Hdone i t Hi); congruence).
  pose proof (lookup_lt_Some _ _ _ Hi) as Hlt.
  pose proof (sequential_frame ts i t' order v0 v Hn Hseq) as Hseq'.
  destruct (threadDone t') eqn:Hd'.
  - destruct Hres as (A & op & r & -> & Hr). exists [i]. unfold linearizes; cbn [fst snd]. split_and!.
    + apply NoDup_app. split_and!; [done| |by apply NoDup_singleton]. intros x Hx ->%list_elem_of_singleton. done.
    + intros j u Hj. rewrite elem_of_app, list_elem_of_singleton. destruct (decide (j = i)) as [->|Hne].
      * rewrite list_lookup_insert_eq in Hj by done. injection Hj as <-. split; [by right|done].
      * rewrite list_lookup_insert_ne in Hj by done. rewrite (Hdone j u Hj). split; [by left|by intros [|]].
    + eapply (sequential_snoc _ i op r); [by apply list_lookup_insert_eq|done|done].
  - subst v'. exists []. rewrite app_nil_r. unfold linearizes; cbn [fst snd]. split_and!; [done| |done].
    intros j u Hj. destruct (decide (j = i)) as [->|Hne].
    + rewrite list_lookup_insert_eq in Hj by done. injection Hj as <-. split; [congruence|done].
    + rewrite list_lookup_insert_ne in Hj by done. by apply Hdone.
Qed.

Lemma sys_steps_linearize (v0 : Value) (s s' : Value * list Thread) (order : list nat) :
  rtc sys_step s s' -> Forall thread_ok (snd s) -> linearizes v0 order s ->
  Forall thread_ok (snd s') /\ exists l, linearizes v0 (order ++ l) s'.
Proof.
  intros Hr. revert order. induction Hr as [s|s1 s2 s3 Hs _ IH]; intros order Hok Hl.
  - split; [done|]. exists []. by rewrite app_nil_r.
  - destruct (sys_step_linearizes v0 s1 s2 order Hs Hok Hl) as (Hok2 & l & Hl2).
    destruct (IH _ Hok2 Hl2) as (Hok3 & l' & Hl3). split; [done|]. exists (l ++ l'). by rewrite app_assoc.
Qed.

(** Threads about to call an operation each. *)
Inductive Call : Type :=
| CallOf {A : Type} (op : rc_op A).
Definition calls (ops : list Call) : list Thread :=
  (fun o => match o with CallOf op => Th op PcStart end) <$> ops.

(** C20. The operations of the word are linearizable. Any number of threads
    call operations on one word, their loads, compare-and-swaps and atomic
    updates interleaved in any way: in every state, the operations that have
    returned have returned what they return when they run one after the
    other, each at one instant, in some order, and the word is what the last
    of them leaves; no update is lost. The order only grows: what had
    returned in an earlier state comes before what returns after it. *)
Theorem refcount_linearizable (v0 : Value) (ops : list Call) (s1 s2 : Value * list Thread) :
  rtc sys_step (v0, calls ops) s1 -> rtc sys_step s1 s2 ->
  exists l1 l2, linearizes v0 l1 s1 /\ linearizes v0 (l1 ++ l2) s2.
Proof.
  intros H1 H2. destruct (sys_steps_linearize v0 _ s1 [] H1) as (Hok & l1 & Hl1).
  - apply Forall_forall. by intros t ([] & -> & _)%list_elem_of_fmap.
  - split_and!; [by apply NoDup_nil_2| |done]. intros i t Hi. apply list_lookup_fmap_Some in Hi as ([] & -> & _).
    split; [done|by intros ?%not_elem_of_nil].
  - destruct (sys_steps_linearize v0 s1 s2 l1 H2 Hok Hl1) as (_ & l2 & Hl2). eauto.
Qed.

(** Two threads take a handle; the compare-and-swap of the second finds the
    first one's store, and it goes round once more. *)
Definition two_handles : list Call := [CallOf OpIncRef; CallOf OpIncRef].
Definition handle_taken : Thread := Th OpIncRef (PcDone (Ok kIncOk)).

Lemma refcount_linearizable_witness :
  exists l1 l2,
    linearizes 0 l1 (1, [handle_taken; Th OpIncRef (PcLoop incRef_op (CasTry (c := incRef_op) 0 1 kIncOk))]) /\
    linearizes 0 (l1 ++ l2) (2, [handle_taken; handle_taken]).
Proof.
  apply (refcount_linearizable 0 two_handles).
  - eapply rtc_l; [by eapply (sys_thread _ _ 0%nat)|].
    eapply rtc_l; [by eapply (sys_thread _ _ 1%nat)|].
    eapply rtc_l; [by eapply (sys_thread _ _ 0%nat)|]. apply rtc_refl.
  - eapply rtc_l; [by eapply (sys_thread _ _ 1%nat)|].
    eapply rtc_l; [by eapply (sys_thread _ _ 1%nat)|]. apply rtc_refl.
Defined.

(** ** The handle protocol

    A state of the system is the word and the number of handles the users
    hold.  A step is one atomic operation, called when the source's
    assertions allow it: a user drops only a handle it holds, and only the
    thread that marked an item unmarks it. *)

Definition rc_plain {A} (op : rc_op A) : Prop :=
  match op with OpIncRef | OpDecRef => False | _ => True end.

Inductive rc_step : Value * Z -> Value * Z -> Prop :=
| rs_acquire v h v' :
    incRef v = (Ok kIncOk, v') -> rc_step (v, h) (v', h + 1)
| rs_refused v h r v' :
    incRef v = (r, v') -> r <> Ok kIncOk -> rc_step (v, h) (v', h)
| rs_release v h r v' :
    0 < h -> decRef v = (r, v') -> rc_step (v, h) (v', h - 1)
| rs_other A (op : rc_op A) v h :
    rc_plain op -> rc_pre op (rc_abs v) ->
    rc_step (v, h) (state_of (rc_run op) v, h).

Definition rc_inv (s : Value * Z) : Prop :=
  let a := rc_abs (fst s) in
  is_u32 (fst s) /\ 0 <= snd s /\
  if ra_exclusive a then snd s = 0 /\ ra_access a <= 1 else ra_access a = snd s.

Lemma rc_inv_step (s s' : Value * Z) : rc_step s s' -> rc_inv s -> rc_inv s'.
Proof.
  unfold rc_inv. destruct 1 as [v h v' Hop|v h r v' Hop Hr|v h r v' Hh Hop|A op v h Hpl Hpre];
    cbn [fst snd]; intros (Hu & Hh0 & Hinv);
    [destruct (rc_op_refines OpIncRef v Hu I) as [Hu' Hsp]
    |destruct (rc_op_refines OpIncRef v Hu I) as [Hu' Hsp]
    |destruct (rc_op_refines OpDecRef v Hu I) as [Hu' Hsp]
    |destruct (rc_op_refines op v Hu Hpre) as [Hu' Hsp]];
    pose proof (rc_abs_range v);
    unfold state_of, result_of in *; cbn [rc_run] in *; try rewrite Hop in *;
    cbn [rc_spec fst snd] in *.
  - destruct (_ =? max_access); [done|].
    destruct (ra_exclusive (rc_abs v)) eqn:He; [by case_match|].
    apply (f_equal snd) in Hsp. cbn [snd] in Hsp. rewrite <- Hsp.
    cbn [set_access ra_exclusive ra_access]. rewrite He. split; [done|lia].
  - destruct (_ =? max_access); [|destruct (ra_exclusive (rc_abs v)) eqn:He];
      pose proof (f_equal fst Hsp) as Hf; apply (f_equal snd) in Hsp;
      cbn [fst snd] in Hsp, Hf; try congruence;
      rewrite <- Hsp, ?He; (split; [done|lia || done]).
  - destruct (ra_exclusive (rc_abs v)) eqn:He; [lia|].
    destruct (Z.eqb_spec (ra_access (rc_abs v)) 0); [lia|].
    apply (f_equal snd) in Hsp. cbn [snd] in Hsp. rewrite <- Hsp.
    cbn [set_access ra_exclusive ra_access]. rewrite He. split; [done|lia].
  - split; [done|]. split; [done|]. revert Hsp Hpre.
    generalize (rc_abs (rc_run op v).2) as a'. intros a' Hsp Hpre.
    destruct op; simpl in *; try done;
      repeat case_match; simplify_eq; simpl in *;
      repeat match goal with k : AdminRef |- _ => destruct k; simpl in * end;
      try congruence; try lia.
Qed.

(** C19. In every state the threads can reach from a fresh item, an item marked
    exclusive (being evicted or moved) has no outstanding handle and at most
    the mover's internal reference, and an item that is not marked has exactly
    as many access references as there are handles. *)
Theorem refcount_exclusive_no_handles (v : Value) (h : Z) :
  rtc rc_step (0, 0) (v, h) ->
  (ra_exclusive (rc_abs v) = true -> h = 0 /\ ra_access (rc_abs v) <= 1) /\
  (ra_exclusive (rc_abs v) = false -> ra_access (rc_abs v) = h).
Proof.
  intros Hr. assert (Hi : rc_inv (v, h)).
  { refine (rtc_ind_r (fun s => rc_inv s) (0, 0) _ _ _ Hr).
    - unfold rc_inv; simpl. vm_compute. repeat split; congruence.
    - intros y z _ Hs Hy. eapply rc_inv_step; eauto. }
  destruct Hi as (_ & _ & Hi). cbn [fst snd] in Hi. by destruct (ra_exclusive (rc_abs v)).
Qed.

Lemma refcount_exclusive_no_handles_witness :
  0 = 0 /\ ra_access (rc_abs (2 ^ 20 + 2 ^ 18 + 1)) <= 1.
Proof.
  apply (refcount_exclusive_no_handles (2 ^ 20 + 2 ^ 18 + 1) 0); [|by vm_compute].
  eapply rtc_l. { apply (rs_other _ (OpMark kLinked ltac:(congruence))); done. }
  eapply rtc_l. { apply (rs_other _ OpMarkMoving); done. }
  apply rtc_refl.
Defined.
