(* ===== verification/PtrCompressor.v ===== *)
(** * Interface: pointer compression

    The intrusive containers ([DList], [SList], [ChainedHashTable]) store
    compressed pointers in the hooks of their nodes and go through a
    [PtrCompressor] (cachelib/allocator/memory/CompressedPtr.h) to read and
    write them.  The class states what the containers rely on; the slab
    allocator's compression discharges it (see [CompressedPtr] and
    [SlabAllocator]). *)

From S2P Require Import Prelude.

#[local] Open Scope Z_scope.

(** [A] is the type of node addresses, [nullptr] is [None]; [C] is the type of
    compressed pointers.  [pc_valid] says which addresses can be compressed:
    those of allocations the allocator has handed out. *)
Class PtrCompressor (A C : Type) : Type := {
  pc_compress : option A -> C;
  pc_unCompress : C -> option A;
  pc_saveState : C -> Z;
  pc_restore : Z -> C;
  pc_valid : A -> Prop
}.

Definition pc_ok {A C} `{PtrCompressor A C} (p : option A) : Prop :=
  match p with Some a => pc_valid a | None => True end.

Class PtrCompressorLaws (A C : Type) `{PC : PtrCompressor A C} : Prop := {
  pc_unCompress_compress (p : option A) :
    pc_ok p -> pc_unCompress (pc_compress p) = p;
  pc_restore_save (p : option A) :
    pc_ok p -> pc_restore (pc_saveState (pc_compress p)) = pc_compress p
}.

(** A compressor for tests of the containers: addresses are positive numbers,
    the null pointer is 0. *)
#[export] Instance idCompressor : PtrCompressor positive Z := {
  pc_compress := fun p => match p with Some a => Zpos a | None => 0 end;
  pc_unCompress := fun c => match c with Zpos a => Some a | _ => None end;
  pc_saveState := fun c => c;
  pc_restore := fun c => c;
  pc_valid := fun _ => True
}.

#[export] Instance idCompressorLaws : PtrCompressorLaws positive Z.
Proof. by split; intros []. Qed.
