(* ===== verification/DList.v ===== *)
(** * Intrusive doubly-linked list

    Models [DListHook] and [DList] (cachelib/allocator/datastruct/DList.h).
    The hooks live in the nodes: [heap] maps a node's address to its hook,
    which holds compressed pointers.  The representation predicate [dl_rep]
    relates the pointer structure to the list of its nodes from head to tail;
    each operation refines an operation on that list. *)

From S2P Require Import Prelude PtrCompressor.

#[local] Open Scope Z_scope.

(** ** The hook *)

Record DListHook (C : Type) : Type := mkHook {
  next_ : C;
  prev_ : C;
  updateTime_ : Z
}.
Arguments mkHook {C} _ _ _.
Arguments next_ {C} _.
Arguments prev_ {C} _.
Arguments updateTime_ {C} _.

(** The fields of the nodes. Every reference to a node names a live object; an
    object whose hook was never written has the default-initialised hook. *)
Abbreviation heap A C := (gmap A (DListHook C)).

Section DList.

Context {A C : Type} `{Countable A} `{PC : PtrCompressor A C}.
#[local] Abbreviation heap := (heap A C).
#[local] Abbreviation DListHook := (DListHook C).

Definition hook0 : DListHook := mkHook (pc_compress None) (pc_compress None) 0.
Definition hook (h : heap) (n : A) : DListHook := default hook0 (h !! n).

Definition setHookNext (h : heap) (n : A) (c : C) : heap :=
  <[n := mkHook c (prev_ (hook h n)) (updateTime_ (hook h n))]> h.
Definition setHookPrev (h : heap) (n : A) (c : C) : heap :=
  <[n := mkHook (next_ (hook h n)) c (updateTime_ (hook h n))]> h.
Definition setUpdateTime (h : heap) (n : A) (t : Z) : heap :=
  <[n := mkHook (next_ (hook h n)) (prev_ (hook h n)) t]> h.
Definition getUpdateTime (h : heap) (n : A) : Z := updateTime_ (hook h n).

(** ** The list *)

Record DList : Type := mkDList {
  head_ : option A;
  tail_ : option A;
  size_ : Z
}.

Definition dlist0 : DList := mkDList None None 0.

Record DListObject : Type := mkDListObject {
  compressedHead : Z;
  compressedTail : Z;
  obj_size : Z
}.

Definition saveState (d : DList) : DListObject := {|
  compressedHead := pc_saveState (pc_compress (head_ d));
  compressedTail := pc_saveState (pc_compress (tail_ d));
  obj_size := size_ d
|}.

Definition restore (o : DListObject) : DList := {|
  head_ := pc_unCompress (pc_restore (compressedHead o));
  tail_ := pc_unCompress (pc_restore (compressedTail o));
  size_ := obj_size o
|}.

Definition getNext (h : heap) (n : A) : option A := pc_unCompress (next_ (hook h n)).
Definition getPrev (h : heap) (n : A) : option A := pc_unCompress (prev_ (hook h n)).
Definition setNext (h : heap) (n : A) (p : option A) : heap :=
  setHookNext h n (pc_compress p).
Definition setPrev (h : heap) (n : A) (p : option A) : heap :=
  setHookPrev h n (pc_compress p).
Definition setNextFrom (h : heap) (n other : A) : heap :=
  setHookNext h n (next_ (hook h other)).
Definition setPrevFrom (h : heap) (n other : A) : heap :=
  setHookPrev h n (prev_ (hook h other)).

Definition getHead (d : DList) : option A := head_ d.
Definition getTail (d : DList) : option A := tail_ d.
Definition size (d : DList) : Z := size_ d.

(** A write through a pointer, guarded by a null check. *)
Definition if_ptr (p : option A) (f : A -> heap -> heap) (h : heap) : heap :=
  match p with Some n => f n h | None => h end.

Definition linkAtHead (node : A) (s : heap * DList) : heap * DList :=
  let '(h, d) := s in
  let h := setNext h node (head_ d) in
  let h := setPrev h node None in
  let h := if_ptr (head_ d) (fun n h => setPrev h n (Some node)) h in
  let tail := match tail_ d with None => Some node | t => t end in
  (h, mkDList (Some node) tail (size_ d + 1)).

Definition linkAtTail (node : A) (s : heap * DList) : heap * DList :=
  let '(h, d) := s in
  let h := setNext h node None in
  let h := setPrev h node (tail_ d) in
  let h := if_ptr (tail_ d) (fun n h => setNext h n (Some node)) h in
  let head := match head_ d with None => Some node | t => t end in
  (h, mkDList head (Some node) (size_ d + 1)).

Definition insertBefore (nextNode node : A) (s : heap * DList) : heap * DList :=
  let '(h, d) := s in
  let prev := getPrev h nextNode in
  let h := setPrev h node prev in
  let '(h, head) :=
    match prev with
    | Some p => (setNext h p (Some node), head_ d)
    | None => (h, Some node)
    end in
  let h := setPrev h nextNode (Some node) in
  let h := setNext h node (Some nextNode) in
  (h, mkDList head (tail_ d) (size_ d + 1)).

Definition unlink (node : A) (s : heap * DList) : heap * DList :=
  let '(h, d) := s in
  let prev := getPrev h node in
  let next := getNext h node in
  let head := if decide (head_ d = Some node) then next else head_ d in
  let tail := if decide (tail_ d = Some node) then prev else tail_ d in
  let h := if_ptr prev (fun p h => setNextFrom h p node) h in
  let h := if_ptr next (fun n h => setPrevFrom h n node) h in
  (h, mkDList head tail (size_ d - 1)).

Definition remove (node : A) (s : heap * DList) : heap * DList :=
  let '(h, d) := unlink node s in
  let h := setNext h node None in
  let h := setPrev h node None in
  (h, d).

Definition replace (oldNode newNode : A) (s : heap * DList) : heap * DList :=
  let '(h, d) := s in
  let head := if decide (head_ d = Some oldNode) then Some newNode else head_ d in
  let tail := if decide (tail_ d = Some oldNode) then Some newNode else tail_ d in
  let prev := getPrev h oldNode in
  let next := getNext h oldNode in
  let h := if_ptr prev (fun p h => setNext h p (Some newNode)) h in
  let h := if_ptr next (fun n h => setPrev h n (Some newNode)) h in
  let h := setPrev h newNode prev in
  let h := setNext h newNode next in
  let h := setPrev h oldNode None in
  let h := setNext h oldNode None in
  (h, mkDList head tail (size_ d)).

Definition moveToHead (node : A) (s : heap * DList) : heap * DList :=
  if decide (head_ (snd s) = Some node) then s
  else linkAtHead node (unlink node s).

(** ** Iterator *)

Inductive Direction : Type := FROM_HEAD | FROM_TAIL.

Record Iterator : Type := mkIterator {
  curr_ : option A;
  dir_ : Direction
}.

Definition begin_ (d : DList) : Iterator := mkIterator (head_ d) FROM_HEAD.
Definition rbegin (d : DList) : Iterator := mkIterator (tail_ d) FROM_TAIL.
Definition end_ : Iterator := mkIterator None FROM_HEAD.
Definition rend : Iterator := mkIterator None FROM_TAIL.

Definition goForward (h : heap) (c : A) (it : Iterator) : Iterator :=
  mkIterator (match dir_ it with
              | FROM_TAIL => getPrev h c
              | FROM_HEAD => getNext h c
              end) (dir_ it).

Definition goBackward (h : heap) (c : A) (it : Iterator) : Iterator :=
  mkIterator (match dir_ it with
              | FROM_TAIL => getNext h c
              | FROM_HEAD => getPrev h c
              end) (dir_ it).

(** [operator++] and [operator--]: nothing happens at the end. *)
Definition incr (h : heap) (it : Iterator) : Iterator :=
  match curr_ it with Some c => goForward h c it | None => it end.
Definition decr (h : heap) (it : Iterator) : Iterator :=
  match curr_ it with Some c => goBackward h c it | None => it end.

Definition resetToBegin (d : DList) (it : Iterator) : Iterator :=
  mkIterator (match dir_ it with FROM_HEAD => head_ d | FROM_TAIL => tail_ d end) (dir_ it).

(** The nodes a loop [for (; it; ++it)] visits in at most [fuel] rounds. *)
Fixpoint visit (fuel : nat) (h : heap) (it : Iterator) : list A * Iterator :=
  match fuel, curr_ it with
  | O, _ | _, None => ([], it)
  | S fuel', Some c => let '(l, it') := visit fuel' h (incr h it) in (c :: l, it')
  end.

End DList.
Arguments DList : clear implicits.
Arguments Iterator : clear implicits.

(** ** Representation *)

Section Representation.

Context {A C : Type} `{Countable A} `{PC : PtrCompressor A C} `{!PtrCompressorLaws A C}.
Implicit Types (h : heap A C) (d : DList A) (l : list A).

(** The neighbours of every node of [l] are the ones its position gives. *)
Definition linked h l : Prop :=
  forall l1 x l2, l = l1 ++ x :: l2 ->
    getNext h x = head l2 /\ getPrev h x = last l1.

Definition dl_rep h d l : Prop :=
  NoDup l /\ Forall pc_valid l /\ linked h l /\
  head_ d = head l /\ tail_ d = last l /\ size_ d = Z.of_nat (length l).

(** *** Reading back what was written *)

Lemma hook_insert h n x k : hook (<[n := k]> h) x = if decide (x = n) then k else hook h x.
Proof.
  unfold hook. destruct (decide (x = n)) as [->|Hne].
  - by rewrite lookup_insert_eq.
  - by rewrite lookup_insert_ne.
Qed.

Lemma getNext_setNext h n p x :
  pc_ok p -> getNext (setNext h n p) x = if decide (x = n) then p else getNext h x.
Proof.
  intros Hp. unfold getNext, setNext, setHookNext. rewrite hook_insert.
  case_decide; [|done]. by apply pc_unCompress_compress.
Qed.

Lemma getPrev_setPrev h n p x :
  pc_ok p -> getPrev (setPrev h n p) x = if decide (x = n) then p else getPrev h x.
Proof.
  intros Hp. unfold getPrev, setPrev, setHookPrev. rewrite hook_insert.
  case_decide; [|done]. by apply pc_unCompress_compress.
Qed.

Lemma getNext_setPrev h n p x : getNext (setPrev h n p) x = getNext h x.
Proof.
  unfold getNext, setPrev, setHookPrev. rewrite hook_insert. by case_decide; subst.
Qed.

Lemma getPrev_setNext h n p x : getPrev (setNext h n p) x = getPrev h x.
Proof.
  unfold getPrev, setNext, setHookNext. rewrite hook_insert. by case_decide; subst.
Qed.

Lemma getNext_setNextFrom h n o x :
  getNext (setNextFrom h n o) x = if decide (x = n) then getNext h o else getNext h x.
Proof. unfold getNext, setNextFrom, setHookNext. rewrite hook_insert. by case_decide. Qed.

Lemma getPrev_setPrevFrom h n o x :
  getPrev (setPrevFrom h n o) x = if decide (x = n) then getPrev h o else getPrev h x.
Proof. unfold getPrev, setPrevFrom, setHookPrev. rewrite hook_insert. by case_decide. Qed.

Lemma getNext_setPrevFrom h n o x : getNext (setPrevFrom h n o) x = getNext h x.
Proof.
  unfold getNext, setPrevFrom, setHookPrev. rewrite hook_insert. by case_decide; subst.
Qed.

Lemma getPrev_setNextFrom h n o x : getPrev (setNextFrom h n o) x = getPrev h x.
Proof.
  unfold getPrev, setNextFrom, setHookNext. rewrite hook_insert. by case_decide; subst.
Qed.

Lemma getNext_setUpdateTime h n t x : getNext (setUpdateTime h n t) x = getNext h x.
Proof. unfold getNext, setUpdateTime. rewrite hook_insert. by case_decide; subst. Qed.

Lemma getPrev_setUpdateTime h n t x : getPrev (setUpdateTime h n t) x = getPrev h x.
Proof. unfold getPrev, setUpdateTime. rewrite hook_insert. by case_decide; subst. Qed.

(** *** Lists: the element before and after a position *)

Lemma split_at_unique l l1 x l2 k1 k2 :
  NoDup l -> l = l1 ++ x :: l2 -> l = k1 ++ x :: k2 -> l1 = k1 /\ l2 = k2.
Proof.
  intros Hnd -> Heq. revert k1 Heq. induction l1 as [|y l1 IH]; intros [|z k1] Heq; simpl in *.
  - by simplify_eq.
  - simplify_eq. apply NoDup_cons in Hnd as [Hni _]. set_solver.
  - simplify_eq. apply NoDup_cons in Hnd as [Hni _]. set_solver.
  - simplify_eq. apply NoDup_cons in Hnd as [_ Hnd].
    destruct (IH Hnd k1) as [-> ->]; done.
Qed.

(** A split of [a ++ x :: b] at another element falls in [a] or in [b]. *)
Lemma split_around (a b l1 l2 : list A) (x y : A) :
  a ++ x :: b = l1 ++ y :: l2 -> x <> y ->
  (exists m, a = l1 ++ y :: m /\ l2 = m ++ x :: b) \/
  (exists m, l1 = a ++ x :: m /\ b = m ++ y :: l2).
Proof.
  revert l1. induction a as [|z a IH]; intros [|w l1] Heq Hne; simpl in *; simplify_eq.
  - right. by exists l1.
  - left. by exists a.
  - destruct (IH l1) as [(m & -> & ->)|(m & -> & ->)]; [done..| |].
    + left. by exists m.
    + right. by exists m.
Qed.

Lemma head_app_cons (m k : list A) (x : A) : head (m ++ x :: k) = head (m ++ [x]).
Proof. by destruct m. Qed.

Lemma last_app_cons (a m : list A) (x : A) : last (a ++ x :: m) = last (x :: m).
Proof.
  rewrite last_app. destruct (last (x :: m)) eqn:E; [done|].
  by apply last_None in E.
Qed.

Lemma last_not_inner (a m : list A) (y : A) :
  NoDup (a ++ y :: m) -> m <> [] -> last (a ++ y :: m) <> Some y.
Proof.
  intros (_ & _ & [Hni _]%NoDup_cons)%NoDup_app Hm. destruct m as [|z m]; [done|].
  rewrite last_app_cons. change (last (y :: z :: m)) with (last (z :: m)).
  by intros ?%last_Some_elem_of.
Qed.

Lemma NoDup_app_disj (a b : list A) (y : A) : NoDup (a ++ b) -> y ∈ a -> y ∈ b -> False.
Proof. intros (_ & Hd & _)%NoDup_app Ha Hb. by apply (Hd y). Qed.

(** *** Changing the linkage *)

(** Insertion of [x] between [l1] and [l2]. *)
Lemma linked_insert h h' l1 x l2 :
  NoDup (l1 ++ x :: l2) -> linked h (l1 ++ l2) ->
  (forall y, y ∈ l1 ++ x :: l2 ->
             getNext h' y = if decide (y = x) then head l2
             else if decide (last l1 = Some y) then Some x else getNext h y) ->
  (forall y, y ∈ l1 ++ x :: l2 ->
             getPrev h' y = if decide (y = x) then last l1
             else if decide (head l2 = Some y) then Some x else getPrev h y) ->
  linked h' (l1 ++ x :: l2).
Proof.
  intros Hnd Hl Hn Hp k1 y k2 Heq.
  rewrite Hn, Hp by (rewrite Heq; set_solver). destruct (decide (y = x)) as [->|Hyx].
  { by destruct (split_at_unique _ _ _ _ _ _ Hnd eq_refl Heq) as [-> ->]. }
  apply NoDup_app in Hnd as (Hnd1 & Hdis & Hnd2).
  destruct (split_around _ _ _ _ _ _ Heq) as [(m & -> & ->)|(m & -> & ->)]; [done|..].
  - destruct (Hl k1 y (m ++ l2)) as [Hny Hpy]; [by rewrite <- app_assoc|].
    rewrite Hny, Hpy. split.
    + destruct m as [|z m].
      * rewrite last_snoc. by rewrite decide_True.
      * rewrite decide_False; [done|]. by apply last_not_inner.
    + rewrite decide_False; [done|]. intros Hh. apply head_Some_elem_of in Hh.
      apply (Hdis y); set_solver.
  - destruct (Hl (l1 ++ m) y k2) as [Hny Hpy]; [by rewrite <- app_assoc|].
    rewrite Hny, Hpy. split.
    + rewrite decide_False; [done|]. intros Hh. apply last_Some_elem_of in Hh.
      apply (Hdis y); set_solver.
    + rewrite last_app_cons. destruct m as [|z m].
      * by rewrite decide_True.
      * rewrite decide_False; [by rewrite last_app_cons|].
        simpl. intros [= ->]. apply NoDup_cons in Hnd2 as [_ Hnd2].
        apply NoDup_cons in Hnd2 as [Hni _]. set_solver.
Qed.

(** Deletion of [x]; nothing is required of [x]'s own hook. *)
Lemma linked_delete h h' l1 x l2 :
  NoDup (l1 ++ x :: l2) -> linked h (l1 ++ x :: l2) ->
  (forall y, y <> x -> getNext h' y = if decide (last l1 = Some y) then head l2 else getNext h y) ->
  (forall y, y <> x -> getPrev h' y = if decide (head l2 = Some y) then last l1 else getPrev h y) ->
  linked h' (l1 ++ l2).
Proof.
  intros Hnd Hl Hn Hp k1 y k2 Heq.
  assert (Hx : x ∉ l1 ++ l2).
  { apply NoDup_app in Hnd as (_ & Hd & Hnd2). apply NoDup_cons in Hnd2 as [? _]. set_solver. }
  assert (Hyx : y <> x) by (intros ->; apply Hx; rewrite Heq; set_solver).
  rewrite Hn, Hp by done.
  apply app_eq_inv in Heq as [(m & -> & Heq)|(m & -> & Heq)].
  - (* y after k1, k1 a prefix of l1 *)
    destruct m as [|z m]; simpl in Heq.
    + subst l2. rewrite app_nil_r in *. destruct (Hl (k1 ++ [x]) y k2) as [Hny Hpy];
        [by rewrite <- app_assoc|]. rewrite Hny, Hpy. split.
      * rewrite decide_False; [done|]. intros Hk. apply last_Some_elem_of in Hk.
        apply NoDup_app in Hnd as (_ & Hd & _). apply (Hd y); set_solver.
      * simpl. by rewrite decide_True.
    + injection Heq as -> ->. destruct (Hl k1 z (m ++ x :: l2)) as [Hny Hpy];
        [by rewrite <- app_assoc|]. rewrite Hny, Hpy. split.
      * destruct m as [|w m].
        -- rewrite last_snoc. by rewrite decide_True.
        -- rewrite decide_False; [done|]. apply NoDup_app in Hnd as (Hnd & _).
           by apply last_not_inner.
      * rewrite decide_False; [done|]. intros Hk. apply head_Some_elem_of in Hk.
        apply NoDup_app in Hnd as (_ & Hd & _). apply (Hd z); set_solver.
  - subst l2. destruct (Hl (l1 ++ x :: m) y k2) as [Hny Hpy]; [by rewrite <- app_assoc|].
    rewrite Hny, Hpy. split.
    + rewrite decide_False; [done|]. intros Hk. apply last_Some_elem_of in Hk.
      apply NoDup_app in Hnd as (_ & Hd & _). apply (Hd y); set_solver.
    + destruct m as [|w m].
      * simpl. rewrite decide_True by done. by rewrite app_nil_r.
      * rewrite decide_False; [by rewrite !last_app_cons|].
        simpl. intros [= ->]. apply NoDup_app in Hnd as (_ & _ & Hnd).
        apply NoDup_cons in Hnd as [_ Hnd]. apply NoDup_cons in Hnd as [? _]. set_solver.
Qed.

(** *** The operations *)

Lemma if_ptr_setNext h p v x :
  pc_ok v ->
  getNext (if_ptr p (fun n h => setNext h n v) h) x =
    (if decide (p = Some x) then v else getNext h x).
Proof.
  intros Hv. destruct p as [n|]; simpl; [|done].
  rewrite getNext_setNext by done. repeat case_decide; naive_solver.
Qed.

Lemma if_ptr_setPrev h p v x :
  pc_ok v ->
  getPrev (if_ptr p (fun n h => setPrev h n v) h) x =
    (if decide (p = Some x) then v else getPrev h x).
Proof.
  intros Hv. destruct p as [n|]; simpl; [|done].
  rewrite getPrev_setPrev by done. repeat case_decide; naive_solver.
Qed.

Lemma if_ptr_setNext_prev h p v x :
  getPrev (if_ptr p (fun n h => setNext h n v) h) x = getPrev h x.
Proof. destruct p; [apply getPrev_setNext|done]. Qed.

Lemma if_ptr_setPrev_next h p v x :
  getNext (if_ptr p (fun n h => setPrev h n v) h) x = getNext h x.
Proof. destruct p; [apply getNext_setPrev|done]. Qed.

Lemma if_ptr_setNextFrom h p o x :
  getNext (if_ptr p (fun n h => setNextFrom h n o) h) x =
    (if decide (p = Some x) then getNext h o else getNext h x).
Proof.
  destruct p as [n|]; simpl; [|done].
  rewrite getNext_setNextFrom. repeat case_decide; naive_solver.
Qed.

Lemma if_ptr_setPrevFrom h p o x :
  getPrev (if_ptr p (fun n h => setPrevFrom h n o) h) x =
    (if decide (p = Some x) then getPrev h o else getPrev h x).
Proof.
  destruct p as [n|]; simpl; [|done].
  rewrite getPrev_setPrevFrom. repeat case_decide; naive_solver.
Qed.

Lemma if_ptr_setNextFrom_prev h p o x :
  getPrev (if_ptr p (fun n h => setNextFrom h n o) h) x = getPrev h x.
Proof. destruct p; [apply getPrev_setNextFrom|done]. Qed.

Lemma if_ptr_setPrevFrom_next h p o x :
  getNext (if_ptr p (fun n h => setPrevFrom h n o) h) x = getNext h x.
Proof. destruct p; [apply getNext_setPrevFrom|done]. Qed.

Lemma valid_head l : Forall pc_valid l -> pc_ok (head l).
Proof. intros Hl. destruct l; simpl; [done|]. by inversion Hl. Qed.

Lemma valid_last l : Forall pc_valid l -> pc_ok (last l).
Proof.
  intros Hl. destruct (last l) as [x|] eqn:E; simpl; [|done].
  apply last_Some_elem_of in E. by eapply Forall_forall in Hl.
Qed.

Lemma dl_rep_split h d l1 x l2 :
  dl_rep h d (l1 ++ x :: l2) -> getNext h x = head l2 /\ getPrev h x = last l1.
Proof. intros (_ & _ & Hl & _). by apply Hl. Qed.

Lemma dl_rep_empty h : dl_rep h dlist0 [].
Proof.
  split_and!; try reflexivity; [apply NoDup_nil_2|by apply Forall_nil|].
  by intros [] ? ? [=].
Qed.

Lemma linked_ext h h' l :
  (forall y, y ∈ l -> getNext h' y = getNext h y /\ getPrev h' y = getPrev h y) ->
  linked h l -> linked h' l.
Proof.
  intros He Hl l1 x l2 ->. destruct (He x) as [-> ->]; [set_solver|]. by apply Hl.
Qed.

Lemma dl_rep_setUpdateTime h d l n t :
  dl_rep h d l -> dl_rep (setUpdateTime h n t) d l.
Proof.
  intros (? & ? & Hl & ? & ? & ?). split_and!; try done. eapply linked_ext, Hl.
  intros y _. by rewrite getNext_setUpdateTime, getPrev_setUpdateTime.
Qed.

Lemma dl_rep_linkAtHead h d l x :
  dl_rep h d l -> pc_valid x -> x ∉ l ->
  dl_rep (linkAtHead x (h, d)).1 (linkAtHead x (h, d)).2 (x :: l).
Proof.
  intros (Hnd & Hv & Hl & Hh & Ht & Hs) Hx Hni. unfold linkAtHead; simpl.
  assert (Hok : pc_ok (head l)) by by apply valid_head.
  split_and!; simpl; try done.
  - by constructor.
  - by constructor.
  - apply (linked_insert h _ [] x l); [by constructor|done|..]; intros y _;
      rewrite ?Hh, ?if_ptr_setPrev_next, ?getNext_setPrev, ?getNext_setNext,
        ?if_ptr_setPrev, ?getPrev_setPrev, ?getPrev_setNext by done.
    + done.
    + destruct (decide (y = x)) as [->|]; [|done].
      rewrite decide_False; [done|]. by intros ?%head_Some_elem_of.
  - rewrite Ht. destruct l as [|y l]; [done|].
    change (last (x :: y :: l)) with (last (y :: l)).
    destruct (last (y :: l)) eqn:E; [done|]. by apply last_None in E.
  - lia.
Qed.

Lemma dl_rep_linkAtTail h d l x :
  dl_rep h d l -> pc_valid x -> x ∉ l ->
  dl_rep (linkAtTail x (h, d)).1 (linkAtTail x (h, d)).2 (l ++ [x]).
Proof.
  intros (Hnd & Hv & Hl & Hh & Ht & Hs) Hx Hni. unfold linkAtTail; simpl.
  assert (Hok : pc_ok (last l)) by by apply valid_last.
  assert (Hnd' : NoDup (l ++ [x])).
  { apply NoDup_app. split_and!; [done|set_solver|apply NoDup_singleton]. }
  split_and!; simpl; try done.
  - apply Forall_app. by split; [|constructor].
  - apply (linked_insert h _ l x []); [done|by rewrite app_nil_r|..]; intros y _;
      rewrite ?Ht, ?if_ptr_setNext_prev, ?if_ptr_setNext, ?getNext_setPrev, ?getNext_setNext,
        ?getPrev_setPrev, ?getPrev_setNext by done.
    + destruct (decide (y = x)) as [->|]; [|done].
      rewrite decide_False; [done|]. by intros ?%last_Some_elem_of.
    + done.
  - rewrite Hh. by destruct l.
  - by rewrite last_snoc.
  - rewrite length_app. simpl. lia.
Qed.

Lemma dl_rep_insertBefore h d l1 n l2 x :
  dl_rep h d (l1 ++ n :: l2) -> pc_valid x -> x ∉ l1 ++ n :: l2 ->
  dl_rep (insertBefore n x (h, d)).1 (insertBefore n x (h, d)).2 (l1 ++ x :: n :: l2).
Proof.
  intros Hrep Hx Hni. destruct (dl_rep_split _ _ _ _ _ Hrep) as [Hnn Hpn].
  destruct Hrep as (Hnd & Hv & Hl & Hh & Ht & Hs).
  assert (Hvn : pc_valid n) by (eapply Forall_forall in Hv; [done|set_solver]).
  assert (Hok : pc_ok (last l1)) by (apply Forall_app in Hv as [? _]; by apply valid_last).
  assert (Hnd' : NoDup (l1 ++ x :: n :: l2)).
  { rewrite <- Permutation_middle. by constructor. }
  assert (Hnx : n <> x) by set_solver.
  unfold insertBefore. rewrite Hpn.
  split_and!; [done|..].
  - apply Forall_app in Hv as [? ?]. apply Forall_app. by split; [|constructor].
  - apply (linked_insert h _ l1 x (n :: l2)); [done|done|..]; intros y _;
      (destruct (last l1) as [p|] eqn:Ep; simpl;
      [assert (Hpx : p <> x) by (apply last_Some_elem_of in Ep; set_solver)|]);
      rewrite ?getNext_setNext, ?getPrev_setNext, ?getPrev_setPrev, ?getNext_setPrev,
        ?getNext_setNext, ?getPrev_setNext, ?getPrev_setPrev, ?getNext_setPrev by done;
      repeat case_decide; naive_solver.
  - simpl. rewrite Hh. by destruct l1 as [|y l1 _] using rev_ind; rewrite ?last_snoc; [|destruct l1].
  - destruct (last l1); simpl; rewrite Ht, !last_app_cons; done.
  - destruct (last l1); simpl; rewrite Hs, !length_app; simpl; lia.
Qed.

Lemma dl_unlink_linked h d l1 x l2 :
  dl_rep h d (l1 ++ x :: l2) ->
  dl_rep (unlink x (h, d)).1 (unlink x (h, d)).2 (l1 ++ l2).
Proof.
  intros Hrep. destruct (dl_rep_split _ _ _ _ _ Hrep) as [Hnx Hpx].
  destruct Hrep as (Hnd & Hv & Hl & Hh & Ht & Hs).
  assert (Hni : x ∉ l1 ++ l2).
  { rewrite <- Permutation_middle in Hnd. by apply NoDup_cons in Hnd as [? _]. }
  unfold unlink. rewrite Hnx, Hpx. split_and!; simpl.
  - rewrite <- Permutation_middle in Hnd. by apply NoDup_cons in Hnd as [_ ?].
  - apply Forall_app in Hv as [? Hv]. inversion Hv. by apply Forall_app.
  - apply (linked_delete h _ l1 x l2); [done|done|..]; intros y Hy;
      rewrite ?if_ptr_setPrevFrom_next, ?if_ptr_setNextFrom, ?if_ptr_setPrevFrom,
        ?if_ptr_setNextFrom_prev, ?Hnx, ?Hpx; done.
  - rewrite Hh. destruct l1 as [|y l1]; simpl; [by rewrite decide_True|].
    rewrite decide_False; [done|]. intros [= ->]. set_solver.
  - rewrite Ht. destruct l2 as [|y l2].
    + rewrite last_snoc, app_nil_r. by rewrite decide_True.
    + rewrite !last_app_cons. change (last (x :: y :: l2)) with (last (y :: l2)).
      rewrite decide_False; [done|]. intros E%last_Some_elem_of. set_solver.
  - rewrite Hs, !length_app. simpl. lia.
Qed.

Lemma dl_rep_remove h d l1 x l2 :
  dl_rep h d (l1 ++ x :: l2) ->
  dl_rep (remove x (h, d)).1 (remove x (h, d)).2 (l1 ++ l2) /\
  getNext (remove x (h, d)).1 x = None /\ getPrev (remove x (h, d)).1 x = None.
Proof.
  intros Hrep. assert (Hni : x ∉ l1 ++ l2).
  { destruct Hrep as (Hnd & _). rewrite <- Permutation_middle in Hnd.
    by apply NoDup_cons in Hnd as [? _]. }
  pose proof (dl_unlink_linked _ _ _ _ _ Hrep) as Hu. unfold remove.
  destruct (unlink x (h, d)) as [h1 d1]. destruct Hu as (? & ? & Hl & ? & ? & ?).
  simpl in *. split_and!.
  - unfold dl_rep. split_and!; try done. eapply linked_ext, Hl. intros y Hy.
    rewrite getNext_setPrev, getNext_setNext, getPrev_setPrev, getPrev_setNext by done.
    assert (y <> x) by (by intros ->). by rewrite !decide_False.
  - by rewrite getNext_setPrev, getNext_setNext, decide_True.
  - by rewrite getPrev_setPrev, decide_True.
Qed.

Lemma dl_rep_moveToHead h d l1 x l2 :
  dl_rep h d (l1 ++ x :: l2) ->
  dl_rep (moveToHead x (h, d)).1 (moveToHead x (h, d)).2 (x :: l1 ++ l2).
Proof.
  intros Hrep. assert (Hni : x ∉ l1 ++ l2).
  { destruct Hrep as (Hnd & _). rewrite <- Permutation_middle in Hnd.
    by apply NoDup_cons in Hnd as [? _]. }
  unfold moveToHead. cbn [snd]. case_decide as Hh.
  - simpl. replace l1 with (@nil A) in *; [done|].
    destruct Hrep as (_ & _ & _ & Hd & _). rewrite Hh in Hd.
    destruct l1 as [|y l1]; [done|]. simpl in Hd. set_solver.
  - pose proof (dl_unlink_linked _ _ _ _ _ Hrep) as Hu.
    destruct (unlink x (h, d)) as [h1 d1]. apply dl_rep_linkAtHead; [done| |done].
    destruct Hrep as (_ & Hv & _). eapply Forall_forall in Hv; [done|set_solver].
Qed.

Lemma dl_rep_replace h d l1 x l2 n :
  dl_rep h d (l1 ++ x :: l2) -> pc_valid n -> n ∉ l1 ++ x :: l2 ->
  dl_rep (replace x n (h, d)).1 (replace x n (h, d)).2 (l1 ++ n :: l2) /\
  getNext (replace x n (h, d)).1 x = None /\ getPrev (replace x n (h, d)).1 x = None.
Proof.
  intros Hrep Hn Hni. destruct (dl_rep_split _ _ _ _ _ Hrep) as [Hnx Hpx].
  pose proof (dl_unlink_linked _ _ _ _ _ Hrep) as Hu.
  destruct Hrep as (Hnd & Hv & Hl & Hh & Ht & Hs).
  pose proof Hnd as Hnd1. rewrite <- Permutation_middle in Hnd1.
  apply NoDup_cons in Hnd1 as [Hxni Hnd1].
  apply Forall_app in Hv as [Hv1 Hv2]. inversion_clear Hv2 as [|? ? Hvx Hv2'].
  assert (Hok1 : pc_ok (last l1)) by by apply valid_last.
  assert (Hok2 : pc_ok (head l2)) by by apply valid_head.
  assert (Hnx' : n <> x) by set_solver.
  assert (Hnd' : NoDup (l1 ++ n :: l2)).
  { rewrite <- Permutation_middle. constructor; [set_solver|done]. }
  unfold replace. rewrite Hnx, Hpx. split; [split_and!; simpl|].
  - done.
  - apply Forall_app. by split; [|constructor].
  - apply (linked_insert (unlink x (h, d)).1 _ l1 n l2); [done|by destruct Hu as (_ & _ & ? & _)|..];
      intros y Hy; (assert (Hyx : y <> x) by (intros ->; set_solver));
      unfold unlink; simpl; rewrite Hnx, Hpx;
      rewrite ?getNext_setNext, ?getPrev_setNext, ?getPrev_setPrev, ?getNext_setPrev,
        ?getNext_setNext, ?getPrev_setNext, ?getPrev_setPrev, ?getNext_setPrev,
        ?if_ptr_setPrev_next, ?if_ptr_setNext, ?if_ptr_setPrev, ?if_ptr_setNext_prev,
        ?if_ptr_setPrevFrom_next, ?if_ptr_setNextFrom, ?if_ptr_setPrevFrom,
        ?if_ptr_setNextFrom_prev, ?Hnx, ?Hpx by done;
      repeat case_decide; congruence.
  - rewrite Hh. destruct l1 as [|y l1]; simpl; [by rewrite decide_True|].
    rewrite decide_False; [done|]. intros [= ->]. set_solver.
  - rewrite Ht, !last_app_cons. destruct l2 as [|y l2]; [by rewrite decide_True|].
    change (last (x :: y :: l2)) with (last (y :: l2)).
    change (last (n :: y :: l2)) with (last (y :: l2)).
    rewrite decide_False; [done|]. intros E%last_Some_elem_of. set_solver.
  - rewrite Hs, !length_app. simpl. lia.
  - simpl. rewrite getNext_setNext, decide_True, getPrev_setNext, getPrev_setPrev,
      decide_True by done. done.
Qed.

(** *** Iteration *)

Lemma dl_visit_forward h d l1 l2 :
  dl_rep h d (l1 ++ l2) ->
  visit (length l2) h (mkIterator (head l2) FROM_HEAD) = (l2, mkIterator None FROM_HEAD).
Proof.
  revert l1. induction l2 as [|x l2 IH]; intros l1 Hrep; [done|].
  destruct (dl_rep_split _ _ _ _ _ Hrep) as [Hn _].
  simpl. unfold incr, goForward. simpl. rewrite Hn.
  rewrite (IH (l1 ++ [x])); [done|]. by rewrite <- app_assoc.
Qed.

Lemma dl_visit_backward h d l1 l2 :
  dl_rep h d (l1 ++ l2) ->
  visit (length l1) h (mkIterator (last l1) FROM_TAIL) = (reverse l1, mkIterator None FROM_TAIL).
Proof.
  revert l2. induction l1 as [|x l1 IH] using rev_ind; intros l2 Hrep; [done|].
  rewrite <- app_assoc in Hrep. destruct (dl_rep_split _ _ _ _ _ Hrep) as [_ Hp].
  rewrite length_app, last_snoc, Nat.add_comm, reverse_snoc. simpl.
  unfold incr, goForward. simpl. rewrite Hp. by rewrite (IH _ Hrep).
Qed.

End Representation.

(** ** Specification: the operations on a list *)

Section Refinement.

Context {A C : Type} `{Countable A} `{PC : PtrCompressor A C} `{!PtrCompressorLaws A C}.
Implicit Types (h : heap A C) (d : DList A) (l : list A).

Inductive dl_cmd : Type :=
| CLinkAtHead (x : A)
| CLinkAtTail (x : A)
| CInsertBefore (n x : A)
| CRemove (x : A)
| CReplace (o n : A)
| CMoveToHead (x : A).

Definition dl_exec (c : dl_cmd) (s : heap A C * DList A) : heap A C * DList A :=
  match c with
  | CLinkAtHead x => linkAtHead x s
  | CLinkAtTail x => linkAtTail x s
  | CInsertBefore n x => insertBefore n x s
  | CRemove x => remove x s
  | CReplace o n => replace o n s
  | CMoveToHead x => moveToHead x s
  end.

Fixpoint ins_before (n x : A) l : list A :=
  match l with
  | [] => []
  | y :: l' => if decide (y = n) then x :: y :: l' else y :: ins_before n x l'
  end.

Definition without (x : A) l : list A := filter (fun y => y <> x) l.

(** The effect of a command, for the callers the source allows: a node is
    linked when it is in no list, and moved, replaced or removed when it is in
    this one. *)
Definition dl_spec (c : dl_cmd) (l : list A) : option (list A) :=
  match c with
  | CLinkAtHead x => if decide (x ∈ l) then None else Some (x :: l)
  | CLinkAtTail x => if decide (x ∈ l) then None else Some (l ++ [x])
  | CInsertBefore n x =>
      if decide (n ∈ l /\ x ∉ l) then Some (ins_before n x l) else None
  | CRemove x => if decide (x ∈ l) then Some (without x l) else None
  | CReplace o n =>
      if decide (o ∈ l /\ n ∉ l)
      then Some ((fun y => if decide (y = o) then n else y) <$> l) else None
  | CMoveToHead x => if decide (x ∈ l) then Some (x :: without x l) else None
  end.

Definition cmd_valid (c : dl_cmd) : Prop :=
  match c with
  | CLinkAtHead x | CLinkAtTail x | CInsertBefore _ x | CReplace _ x => pc_valid x
  | CRemove _ | CMoveToHead _ => True
  end.

Fixpoint dl_run (cs : list dl_cmd) (s : heap A C * DList A) : heap A C * DList A :=
  match cs with [] => s | c :: cs' => dl_run cs' (dl_exec c s) end.

Fixpoint dl_spec_run (cs : list dl_cmd) (l : list A) : option (list A) :=
  match cs with
  | [] => Some l
  | c :: cs' => dl_spec c l ≫= dl_spec_run cs'
  end.

Lemma without_notin (x : A) l : x ∉ l -> without x l = l.
Proof.
  unfold without. induction l as [|y l IH]; intros Hx; [done|].
  rewrite filter_cons_True by set_solver. f_equal. apply IH. set_solver.
Qed.

Lemma without_split (x : A) l1 l2 :
  x ∉ l1 ++ l2 -> without x (l1 ++ x :: l2) = l1 ++ l2.
Proof.
  intros Hx. unfold without. rewrite filter_app, filter_cons_False by auto.
  rewrite <- filter_app. by apply without_notin.
Qed.

Lemma ins_before_split (n x : A) l1 l2 :
  n ∉ l1 -> ins_before n x (l1 ++ n :: l2) = l1 ++ x :: n :: l2.
Proof.
  induction l1 as [|y l1 IH]; simpl; intros Hn; [by rewrite decide_True|].
  rewrite decide_False by set_solver. f_equal. apply IH. set_solver.
Qed.

Lemma subst_notin (o n : A) l :
  o ∉ l -> (fun y => if decide (y = o) then n else y) <$> l = l.
Proof.
  induction l as [|y l IH]; simpl; intros Ho; [done|].
  rewrite decide_False by set_solver. f_equal. apply IH. set_solver.
Qed.

Lemma dl_exec_refines (c : dl_cmd) h d l l' :
  dl_rep h d l -> cmd_valid c -> dl_spec c l = Some l' ->
  dl_rep (dl_exec c (h, d)).1 (dl_exec c (h, d)).2 l'.
Proof.
  intros Hrep Hc Hs. pose proof Hrep as (Hnd & _).
  assert (Hsplit : forall x, x ∈ l -> exists l1 l2, l = l1 ++ x :: l2 /\ x ∉ l1 ++ l2).
  { intros x (l1 & l2 & ->)%list_elem_of_split. exists l1, l2. split; [done|].
    rewrite <- Permutation_middle in Hnd. by apply NoDup_cons in Hnd as [? _]. }
  destruct c; cbn [dl_exec dl_spec cmd_valid] in *; case_decide; simplify_eq.
  - by apply dl_rep_linkAtHead.
  - by apply dl_rep_linkAtTail.
  - destruct (Hsplit n) as (l1 & l2 & -> & Hn); [naive_solver|].
    rewrite ins_before_split by set_solver. apply dl_rep_insertBefore; naive_solver.
  - destruct (Hsplit x) as (l1 & l2 & -> & Hn); [done|].
    rewrite without_split by done. by apply dl_rep_remove.
  - destruct (Hsplit o) as (l1 & l2 & -> & Hn); [naive_solver|].
    rewrite fmap_app, fmap_cons, !subst_notin, decide_True by set_solver. apply dl_rep_replace; naive_solver.
  - destruct (Hsplit x) as (l1 & l2 & -> & Hn); [done|].
    rewrite without_split by done. by apply dl_rep_moveToHead.
Qed.

Lemma dl_run_refines (cs : list dl_cmd) h d l0 l :
  dl_rep h d l0 -> Forall cmd_valid cs -> dl_spec_run cs l0 = Some l ->
  dl_rep (dl_run cs (h, d)).1 (dl_run cs (h, d)).2 l.
Proof.
  revert h d l0. induction cs as [|c cs IH]; intros h d l0 Hrep Hv Hs; simpl in *.
  - by simplify_eq.
  - apply bind_Some in Hs as (l1 & Hc & Hs). inversion_clear Hv as [|? ? Hvc Hvs].
    pose proof (dl_exec_refines c h d l0 l1 Hrep Hvc Hc) as Hr.
    destruct (dl_exec c (h, d)) as [h1 d1]. by eapply IH.
Qed.

(** C17. The pointer structure refines the list of its nodes: from an empty
    list, any sequence of link, insert, remove, replace and move-to-head
    calls leaves head, tail, size and every next and prev pointer as the same
    sequence of operations on a plain list says. *)
Theorem dlist_refines_list (cs : list dl_cmd) (h : heap A C) (l : list A) :
  Forall cmd_valid cs -> dl_spec_run cs [] = Some l ->
  dl_rep (dl_run cs (h, dlist0)).1 (dl_run cs (h, dlist0)).2 l.
Proof. apply dl_run_refines, dl_rep_empty. Qed.

(** Iterating from the head visits exactly the nodes of the list in
    order, iterating from the tail visits them in reverse order, both loops
    end at the end iterator after as many steps as there are nodes, and saving
    and restoring the list gives the same list back. *)
Theorem dlist_iteration (h : heap A C) (d : DList A) (l : list A) :
  dl_rep h d l ->
  visit (length l) h (begin_ d) = (l, end_) /\
  visit (length l) h (rbegin d) = (reverse l, rend) /\
  restore (saveState d) = d.
Proof.
  intros Hrep. pose proof Hrep as (_ & Hv & _ & Hh & Ht & Hs).
  unfold begin_, rbegin. rewrite Hh, Ht. split_and!.
  - by apply (dl_visit_forward h d []).
  - apply (dl_visit_backward h d l []). by rewrite app_nil_r.
  - assert (Hhd : pc_ok (head_ d)) by (rewrite Hh; by apply valid_head).
    assert (Htl : pc_ok (tail_ d)) by (rewrite Ht; by apply valid_last).
    destruct d as [hd tl sz]. unfold restore, saveState; simpl in *.
    by rewrite !pc_restore_save, !pc_unCompress_compress.
Qed.

End Refinement.

Definition dl_demo : list (dl_cmd (A:=positive)) :=
  [CLinkAtHead 1; CLinkAtHead 2; CLinkAtTail 3; CInsertBefore 1 4; CMoveToHead 3;
   CReplace 4 5; CRemove 2]%positive.

Lemma dlist_refines_list_witness :
  dl_rep (C := Z) (dl_run dl_demo (∅, dlist0)).1 (dl_run dl_demo (∅, dlist0)).2
    [3; 5; 1]%positive.
Proof.
  apply (dlist_refines_list (C := Z) dl_demo ∅ [3; 5; 1]%positive).
  - repeat constructor.
  - reflexivity.
Defined.

Lemma dlist_iteration_witness :
  visit 3 (dl_run (C := Z) dl_demo (∅, dlist0)).1
    (rbegin (dl_run (C := Z) dl_demo (∅, dlist0)).2) = ([1; 5; 3]%positive, rend).
Proof.
  assert (Hr : dl_rep (C := Z) (dl_run dl_demo (∅, dlist0)).1
    (dl_run dl_demo (∅, dlist0)).2 [3; 5; 1]%positive).
  { apply (dl_run_refines (C := Z)) with (l0 := []); [apply dl_rep_empty| |reflexivity].
    repeat constructor. }
  exact (proj1 (proj2 (dlist_iteration _ _ _ Hr))).
Defined.
