(* ===== verification/MMLru.v ===== *)
(** * The LRU eviction container

    Models [MMLru::Container] (cachelib/allocator/MMLru.h) over [DList] and
    the reference words of [RefcountWithFlags].  The state is the container's
    members and the two parts of the nodes it writes: the hooks (linkage and
    update time) and the reference words (membership bit, tail flag, accessed
    flag).  Each operation is the body of its critical section; the container
    lock makes it atomic.  [recordAccess] reads the node outside the lock: the
    steps other threads take between that read and the critical section are an
    argument. *)

From S2P Require Import Double.
From S2P Require Import Prelude PtrCompressor.
From S2P Require Refcount.
From S2P Require DList.
From stdpp Require Import base tactics numbers gmap list.

#[local] Open Scope Z_scope.
#[local] Open Scope cachelib_scope.

(** ** Configuration *)

Record Config : Type := mkConfig {
  defaultLruRefreshTime : Z;
  lruRefreshTime : Z;
  lruRefreshRatio : double;
  updateOnWrite : bool;
  updateOnRead : bool;
  tryLockUpdate : bool;
  lruInsertionPointSpec : Z;
  mmReconfigureIntervalSecs : Z;
  useCombinedLockForIterators : bool
}.

(** The constructor all the others delegate to. *)
Definition makeConfig (time : Z) (ratio : double) (updateOnW updateOnR tryLockU : bool)
    (ipSpec mmReconfigureInterval : Z) (combinedLock : bool) : Config := {|
  defaultLruRefreshTime := time;
  lruRefreshTime := time;
  lruRefreshRatio := ratio;
  updateOnWrite := updateOnW;
  updateOnRead := updateOnR;
  tryLockUpdate := tryLockU;
  lruInsertionPointSpec := ipSpec;
  mmReconfigureIntervalSecs := mmReconfigureInterval;
  useCombinedLockForIterators := combinedLock
|}.

Record MMLruConfig : Type := mkMMLruConfig {
  ser_lruRefreshTime : Z;
  ser_lruRefreshRatio : double;
  ser_updateOnWrite : bool;
  ser_updateOnRead : bool;
  ser_tryLockUpdate : bool;
  ser_lruInsertionPointSpec : Z
}.

Definition configFromState (o : MMLruConfig) : Config :=
  makeConfig (ser_lruRefreshTime o) (ser_lruRefreshRatio o) (ser_updateOnWrite o)
    (ser_updateOnRead o) (ser_tryLockUpdate o) (u8 (ser_lruInsertionPointSpec o)) 0 false.

Inductive AccessMode : Type := kRead | kWrite.

Record MMLruObject : Type := mkMMLruObject {
  ser_config : MMLruConfig;
  ser_compressedInsertionPoint : Z;
  ser_tailSize : Z;
  ser_lru : DList.DListObject
}.

(** The part of [EvictionAgeStat] the LRU fills in (its warm queue). *)
Record EvictionAgeStat : Type := mkEvictionAgeStat {
  oldestElementAge : Z;
  projectedAge : Z
}.

(** [MMContainerStat]: the fields an LRU does not have are zero. *)
Record MMContainerStat : Type := mkMMContainerStat {
  stat_size : Z;
  stat_oldestTimeSec : Z;
  stat_lruRefreshTime : Z;
  stat_numHotAccesses : Z;
  stat_numColdAccesses : Z;
  stat_numWarmAccesses : Z;
  stat_numTailAccesses : Z
}.

Definition Time_max : Z := 2 ^ 32 - 1.
Definition kLruRefreshTimeCap : Z := 900.

Section MMLru.

Context {A C : Type} `{Countable A} `{PC : PtrCompressor A C}.

Record Container : Type := mkContainer {
  hooks : DList.heap A C;
  refs : gmap A Refcount.Value;
  lru_ : DList.DList A;
  insertionPoint_ : option A;
  tailSize_ : Z;
  nextReconfigureTime_ : Z;
  lruRefreshTime_ : Z;
  config_ : Config
}.

Definition set_lru (s : Container) (x : DList.heap A C * DList.DList A) : Container :=
  mkContainer x.1 (refs s) x.2 (insertionPoint_ s) (tailSize_ s)
    (nextReconfigureTime_ s) (lruRefreshTime_ s) (config_ s).
Definition set_refs (s : Container) (x : gmap A Refcount.Value) : Container :=
  mkContainer (hooks s) x (lru_ s) (insertionPoint_ s) (tailSize_ s)
    (nextReconfigureTime_ s) (lruRefreshTime_ s) (config_ s).
Definition set_insertionPoint (s : Container) (p : option A) : Container :=
  mkContainer (hooks s) (refs s) (lru_ s) p (tailSize_ s)
    (nextReconfigureTime_ s) (lruRefreshTime_ s) (config_ s).
Definition set_tailSize (s : Container) (n : Z) : Container :=
  mkContainer (hooks s) (refs s) (lru_ s) (insertionPoint_ s) n
    (nextReconfigureTime_ s) (lruRefreshTime_ s) (config_ s).
Definition set_nextReconfigureTime (s : Container) (t : Z) : Container :=
  mkContainer (hooks s) (refs s) (lru_ s) (insertionPoint_ s) (tailSize_ s)
    t (lruRefreshTime_ s) (config_ s).
Definition set_lruRefreshTime (s : Container) (t : Z) : Container :=
  mkContainer (hooks s) (refs s) (lru_ s) (insertionPoint_ s) (tailSize_ s)
    (nextReconfigureTime_ s) t (config_ s).
Definition set_config (s : Container) (c : Config) : Container :=
  mkContainer (hooks s) (refs s) (lru_ s) (insertionPoint_ s) (tailSize_ s)
    (nextReconfigureTime_ s) (lruRefreshTime_ s) c.

(** The reference word of a node; a new node's word is zero. *)
Definition ref (s : Container) (n : A) : Refcount.Value := default 0 (refs s !! n).

(** A list operation, and an operation on a node's reference word. *)
Definition on_lru (f : DList.heap A C * DList.DList A -> DList.heap A C * DList.DList A)
  : M Container unit := modify (fun s => set_lru s (f (hooks s, lru_ s))).
Definition on_ref {B} (n : A) (m : M Refcount.Value B) : M Container B :=
  fun s => let '(r, v) := m (ref s n) in (r, set_refs s (<[n := v]> (refs s))).

(** A [const] method of a node. *)
Definition with_ref {B} (n : A) (m : M Refcount.Value B) : M Container B :=
  fun s => (fst (m (ref s n)), s).
Definition isInMMContainer (n : A) : M Container bool :=
  with_ref n Refcount.isInMMContainer.

Definition getUpdateTime (n : A) : M Container Z :=
  gets (fun s => DList.getUpdateTime (hooks s) n).
Definition setUpdateTime (n : A) (t : Z) : M Container unit :=
  on_lru (fun x => (DList.setUpdateTime x.1 n t, x.2)).

Definition markTail (n : A) := on_ref n (Refcount.setFlag Refcount.kMMFlag0).
Definition unmarkTail (n : A) := on_ref n (Refcount.unSetFlag Refcount.kMMFlag0).
Definition isTail (n : A) := with_ref n (Refcount.isFlagSet Refcount.kMMFlag0).
Definition markAccessed (n : A) := on_ref n (Refcount.setFlag Refcount.kMMFlag1).
Definition unmarkAccessed (n : A) := on_ref n (Refcount.unSetFlag Refcount.kMMFlag1).
Definition isAccessed (n : A) := with_ref n (Refcount.isFlagSet Refcount.kMMFlag1).

(** [tailSize_++] and [tailSize_--] on a [size_t]: the count of nodes never
    reaches its upper bound; below zero it wraps around. *)
Definition incTail : M Container unit :=
  modify (fun s => set_tailSize s (tailSize_ s + 1)).
Definition decTail : M Container unit :=
  modify (fun s => set_tailSize s
    (if tailSize_ s =? 0 then 2 ^ 64 - 1 else tailSize_ s - 1)).

(** A node reached through a pointer that the code dereferences unchecked. *)
Definition deref (p : option A) : M Container A :=
  match p with Some n => ret n | None => throw UndefinedBehavior end.

Definition initialReconfigureTime (c : Config) (now : Z) : Z :=
  if mmReconfigureIntervalSecs c =? 0 then Time_max
  else u32 (u32 now + mmReconfigureIntervalSecs c).

(** [Container(Config c, PtrCompressor)], in a store of nodes. *)
Definition makeContainer (hk : DList.heap A C) (rf : gmap A Refcount.Value)
    (c : Config) (now : Z) : Container := {|
  hooks := hk;
  refs := rf;
  lru_ := DList.dlist0;
  insertionPoint_ := None;
  tailSize_ := 0;
  nextReconfigureTime_ := initialReconfigureTime c now;
  lruRefreshTime_ := lruRefreshTime c;
  config_ := c
|}.

(** [Container(serialization::MMLruObject, PtrCompressor)]. *)
Definition restoreContainer (hk : DList.heap A C) (rf : gmap A Refcount.Value)
    (o : MMLruObject) (now : Z) : Container :=
  let c := configFromState (ser_config o) in {|
  hooks := hk;
  refs := rf;
  lru_ := DList.restore (ser_lru o);
  insertionPoint_ := pc_unCompress (pc_restore (ser_compressedInsertionPoint o));
  tailSize_ := ser_tailSize o;
  nextReconfigureTime_ := initialReconfigureTime c now;
  lruRefreshTime_ := lruRefreshTime c;
  config_ := c
|}.

Definition saveState (s : Container) : MMLruObject := {|
  ser_config := {|
    ser_lruRefreshTime := lruRefreshTime_ s;
    ser_lruRefreshRatio := lruRefreshRatio (config_ s);
    ser_updateOnWrite := updateOnWrite (config_ s);
    ser_updateOnRead := updateOnRead (config_ s);
    ser_tryLockUpdate := tryLockUpdate (config_ s);
    ser_lruInsertionPointSpec := lruInsertionPointSpec (config_ s)
  |};
  ser_compressedInsertionPoint := pc_saveState (pc_compress (insertionPoint_ s));
  ser_tailSize := tailSize_ s;
  ser_lru := DList.saveState (lru_ s)
|}.

(** ** Eviction age and reconfiguration *)

(** The loop that walks [projectedLength] nodes from the tail. *)
Fixpoint walkBack (fuel : nat) (hk : DList.heap A C) (numSeen projectedLength : Z)
    (node : option A) : option A :=
  match fuel, node with
  | S fuel', Some n =>
      if numSeen <? projectedLength
      then walkBack fuel' hk (numSeen + 1) projectedLength (DList.getPrev hk n)
      else node
  | _, _ => node
  end.

Definition age (s : Container) (now : Z) (n : A) : Z :=
  u32 (u32 now - DList.getUpdateTime (hooks s) n).

Definition getEvictionAgeStatLocked (projectedLength now : Z) : M Container EvictionAgeStat :=
  gets (fun s =>
    let tail := DList.getTail (lru_ s) in
    let oldest := match tail with Some n => age s now n | None => 0 end in
    let node := walkBack (Z.to_nat (DList.size (lru_ s))) (hooks s) 0 projectedLength tail in
    mkEvictionAgeStat oldest
      (match node with Some n => age s now n | None => oldest end)).

Definition reconfigureLocked (now currTime : Z) : M Container unit :=
  let! s := get in
  if currTime <? nextReconfigureTime_ s then ret tt
  else
    do! modify (fun s => set_nextReconfigureTime s
                  (u32 (currTime + mmReconfigureIntervalSecs (config_ s)))) in
    let! stat := getEvictionAgeStatLocked 0 now in
    match u32_of_double (double_mul (double_of_u64 (oldestElementAge stat))
                           (lruRefreshRatio (config_ s))) with
    | None => throw UndefinedBehavior
    | Some x =>
        modify (fun s => set_lruRefreshTime s
          (Z.min (Z.max (defaultLruRefreshTime (config_ s)) x) kLruRefreshTimeCap))
    end.

(** ** The insertion point *)

(** [while (tailSize_ < expectedSize && curr != lru_.getHead())]: every round
    adds one to [tailSize_], so the difference bounds the rounds. *)
Fixpoint growTail (fuel : nat) (expectedSize : Z) (curr : option A)
  : M Container (option A) :=
  match fuel with
  | O => ret curr
  | S fuel' =>
      let! s := get in
      if (tailSize_ s <? expectedSize) &&
         negb (bool_decide (curr = DList.getHead (lru_ s)))
      then
        let! n := deref curr in
        let curr := DList.getPrev (hooks s) n in
        let! p := deref curr in
        do! markTail p in
        do! incTail in
        growTail fuel' expectedSize curr
      else ret curr
  end.

(** [while (tailSize_ > expectedSize && curr != lru_.getTail())]. *)
Fixpoint shrinkTail (fuel : nat) (expectedSize : Z) (curr : option A)
  : M Container (option A) :=
  match fuel with
  | O => ret curr
  | S fuel' =>
      let! s := get in
      if (expectedSize <? tailSize_ s) &&
         negb (bool_decide (curr = DList.getTail (lru_ s)))
      then
        let! n := deref curr in
        do! unmarkTail n in
        do! decTail in
        shrinkTail fuel' expectedSize (DList.getNext (hooks s) n)
      else ret curr
  end.

(** The first step of [updateLruInsertionPoint]: with no insertion point yet,
    it starts at the tail. *)
Definition initInsertionPoint : M Container unit :=
  let! s := get in
  match insertionPoint_ s with
  | Some _ => ret tt
  | None =>
      let tail := DList.getTail (lru_ s) in
      do! modify (fun s => set_tailSize (set_insertionPoint s tail) 0) in
      match tail with
      | Some t => do! markTail t in incTail
      | None => ret tt
      end
  end.

Definition updateLruInsertionPoint : M Container unit :=
  let! s := get in
  if lruInsertionPointSpec (config_ s) =? 0 then ret tt
  else
    do! initInsertionPoint in
    let! s := get in
    if DList.size (lru_ s) <=? 1 then ret tt
    else
      let expectedSize :=
        Z.shiftr (DList.size (lru_ s)) (lruInsertionPointSpec (config_ s)) in
      let! curr := growTail (Z.to_nat (expectedSize - tailSize_ s)) expectedSize
                     (insertionPoint_ s) in
      let! s := get in
      let! curr := shrinkTail (Z.to_nat (tailSize_ s - expectedSize)) expectedSize curr in
      modify (fun s => set_insertionPoint s curr).

Definition ensureNotInsertionPoint (node : A) : M Container unit :=
  let! s := get in
  if decide (insertionPoint_ s = Some node) then
    let prev := DList.getPrev (hooks s) node in
    do! modify (fun s => set_insertionPoint s prev) in
    match prev with
    | Some p => do! incTail in markTail p
    | None => ret tt
    end
  else ret tt.

(** ** Operations *)

(** [func], the critical section of [recordAccess]. *)
Definition recordAccess_locked (node : A) (now curr : Z) : M Container unit :=
  do! reconfigureLocked now curr in
  do! ensureNotInsertionPoint node in
  let! linked := isInMMContainer node in
  do! (if linked
       then do! on_lru (DList.moveToHead node) in setUpdateTime node curr
       else ret tt) in
  let! tail := isTail node in
  if tail
  then do! unmarkTail node in do! decTail in updateLruInsertionPoint
  else ret tt.

(** [gotLock]: whether [try_to_lock] succeeds; [others]: what other threads
    do between the unlocked reads and the critical section. *)
Definition recordAccess_env (gotLock : bool) (others : Container -> Container)
    (node : A) (mode : AccessMode) (now : Z) : M Container bool :=
  let! s := get in
  if match mode with
     | kWrite => negb (updateOnWrite (config_ s))
     | kRead => negb (updateOnRead (config_ s))
     end
  then ret false
  else
    let curr := u32 now in
    let! linked := isInMMContainer node in
    let! ut := getUpdateTime node in
    let! accessed := isAccessed node in
    if linked && ((u32 (ut + lruRefreshTime_ s) <=? curr) || negb accessed) then
      do! (if accessed then ret tt else markAccessed node) in
      do! modify others in
      if tryLockUpdate (config_ s) && negb gotLock then ret false
      else do! recordAccess_locked node now curr in ret true
    else ret false.

Definition recordAccess : A -> AccessMode -> Z -> M Container bool :=
  recordAccess_env true id.

Fixpoint clearTail (fuel : nat) (curr : option A) : M Container unit :=
  match fuel with
  | O => ret tt
  | S fuel' =>
      let! n := deref curr in
      do! unmarkTail n in
      do! decTail in
      let! s := get in
      clearTail fuel' (DList.getNext (hooks s) n)
  end.

Definition setConfig (newConfig : Config) (now : Z) : M Container unit :=
  do! modify (fun s => set_config s newConfig) in
  let! s := get in
  do! (if (lruInsertionPointSpec newConfig =? 0) &&
          bool_decide (insertionPoint_ s <> None)
       then do! clearTail (Z.to_nat (tailSize_ s)) (insertionPoint_ s) in
            modify (fun s => set_insertionPoint s None)
       else ret tt) in
  modify (fun s => set_nextReconfigureTime (set_lruRefreshTime s (lruRefreshTime newConfig))
                     (initialReconfigureTime newConfig now)).

Definition add (node : A) (now : Z) : M Container bool :=
  let! linked := isInMMContainer node in
  if linked then ret false
  else
    let! s := get in
    do! (match insertionPoint_ s with
         | Some p => if lruInsertionPointSpec (config_ s) =? 0
                     then on_lru (DList.linkAtHead node)
                     else on_lru (DList.insertBefore p node)
         | None => on_lru (DList.linkAtHead node)
         end) in
    do! on_ref node Refcount.markInMMContainer in
    do! setUpdateTime node (u32 now) in
    do! unmarkAccessed node in
    do! updateLruInsertionPoint in
    ret true.

Definition removeLocked (node : A) : M Container unit :=
  do! ensureNotInsertionPoint node in
  do! on_lru (DList.remove node) in
  do! unmarkAccessed node in
  do! (let! tail := isTail node in
       if tail then do! unmarkTail node in decTail else ret tt) in
  do! on_ref node Refcount.unmarkInMMContainer in
  updateLruInsertionPoint.

Definition remove (node : A) : M Container bool :=
  let! linked := isInMMContainer node in
  if linked then do! removeLocked node in ret true else ret false.

(** [remove(Iterator&)] returns the advanced iterator. *)
Definition removeIterator (it : DList.Iterator A) : M Container (DList.Iterator A) :=
  let! node := deref (DList.curr_ it) in
  let! s := get in
  do! removeLocked node in
  ret (DList.incr (hooks s) it).

Definition replace (oldNode newNode : A) : M Container bool :=
  let! oldLinked := isInMMContainer oldNode in
  let! newLinked := isInMMContainer newNode in
  if negb oldLinked || newLinked then ret false
  else
    let! updateTime := getUpdateTime oldNode in
    do! on_lru (DList.replace oldNode newNode) in
    do! on_ref oldNode Refcount.unmarkInMMContainer in
    do! on_ref newNode Refcount.markInMMContainer in
    do! setUpdateTime newNode updateTime in
    let! accessed := isAccessed oldNode in
    do! (if accessed then markAccessed newNode else unmarkAccessed newNode) in
    let! tail := isTail oldNode in
    do! (if tail then do! markTail newNode in unmarkTail oldNode
         else unmarkTail newNode) in
    do! modify (fun s => if decide (insertionPoint_ s = Some oldNode)
                         then set_insertionPoint s (Some newNode) else s) in
    ret true.

Definition getStats : M Container MMContainerStat :=
  gets (fun s => {|
    stat_size := DList.size (lru_ s);
    stat_oldestTimeSec :=
      match DList.getTail (lru_ s) with
      | Some n => DList.getUpdateTime (hooks s) n
      | None => 0
      end;
    stat_lruRefreshTime := lruRefreshTime_ s;
    stat_numHotAccesses := 0;
    stat_numColdAccesses := 0;
    stat_numWarmAccesses := 0;
    stat_numTailAccesses := 0
  |}).

Definition getEvictionIterator : M Container (DList.Iterator A) :=
  gets (fun s => DList.rbegin (lru_ s)).

End MMLru.
Arguments Container : clear implicits.
Arguments Container A C {_ _}.
