(* ===== verification/MMLruProofs.v ===== *)
(** * The LRU eviction container: correctness

    The invariant of [MMLru::Container], the lemmas on each operation, and the
    refinement to a list cut in two at the insertion point. *)

From S2P Require Import Double.
From S2P Require Import Prelude PtrCompressor.
From S2P Require Refcount.
From S2P Require DList.
From S2P Require Import MMLru.
From stdpp Require Import base tactics numbers gmap list.

#[local] Open Scope Z_scope.
#[local] Open Scope cachelib_scope.

(** ** Invariant *)

Section Invariant.

Context {A C : Type} `{Countable A} `{PC : PtrCompressor A C} `{!PtrCompressorLaws A C}.
Implicit Types (s : Container A C) (l pre suf : list A) (x n : A).

Definition linkedBit : Z := Refcount.adminBit Refcount.kLinked.
Definition tailBit : Z := Refcount.flagBit Refcount.kMMFlag0.
Definition accessedBit : Z := Refcount.flagBit Refcount.kMMFlag1.

Definition bit s x (i : Z) : bool := Z.testbit (ref s x) i.

(** [pre] is the part of the list before the insertion point, [suf] the part
    from it to the tail: the nodes that carry the tail flag are those of
    [suf], the nodes that carry the membership bit are those of the list. *)
Record mm_core s pre suf : Prop := {
  core_rep : DList.dl_rep (hooks s) (lru_ s) (pre ++ suf);
  core_linked : forall x, bit s x linkedBit = bool_decide (x ∈ pre ++ suf);
  core_tail : forall x, bit s x tailBit = bool_decide (x ∈ suf);
  core_size : tailSize_ s = Z.of_nat (length suf)
}.

(** What holds when the insertion point is about to be updated. *)
Definition mm_pre s pre suf : Prop :=
  mm_core s pre suf /\ insertionPoint_ s = head suf /\
  (lruInsertionPointSpec (config_ s) = 0 -> suf = []).

(** The invariant between operations: the insertion point is the head of the
    list only when the list has one node. *)
Definition mm_inv s pre suf : Prop :=
  mm_pre s pre suf /\ (pre = [] -> (length suf <= 1)%nat) /\
  0 <= lruInsertionPointSpec (config_ s) < 64.

(** The number of nodes from the insertion point on that the configuration
    asks for. *)
Definition tail_target (spec : Z) (n : nat) : nat :=
  if spec =? 0 then O
  else if decide (n = O) then O else Nat.max 1 (Z.to_nat (Z.shiftr (Z.of_nat n) spec)).

(** The members an operation on the insertion point leaves alone. *)
Record mm_frame s s' : Prop := {
  fr_hooks : hooks s' = hooks s;
  fr_lru : lru_ s' = lru_ s;
  fr_next : nextReconfigureTime_ s' = nextReconfigureTime_ s;
  fr_refresh : lruRefreshTime_ s' = lruRefreshTime_ s;
  fr_config : config_ s' = config_ s;
  fr_bits : forall x i, 0 <= i < 32 -> i <> tailBit -> bit s' x i = bit s x i
}.

Lemma mm_frame_refl s : mm_frame s s.
Proof. by split. Qed.

Lemma mm_frame_trans s1 s2 s3 : mm_frame s1 s2 -> mm_frame s2 s3 -> mm_frame s1 s3.
Proof. intros [] []. split; try congruence. intros. by rewrite fr_bits1, fr_bits0. Qed.

Create Rewrite HintDb mm.

(** *** Bits of reference words *)

Definition upd_bit s n (k : Z) (b : bool) : Container A C :=
  set_refs s (<[n := if b then Z.lor (ref s n) (Z.shiftl 1 k)
                     else Z.land (ref s n) (Refcount.lnot32 (Z.shiftl 1 k))]> (refs s)).

Lemma bit_upd s n k b x i :
  0 <= k < 32 -> 0 <= i < 32 ->
  bit (upd_bit s n k b) x i = if decide (x = n /\ i = k) then b else bit s x i.
Proof.
  intros Hk Hi. unfold bit, upd_bit, ref at 1; simpl.
  destruct (decide (x = n)) as [->|Hx].
  - rewrite lookup_insert_eq; simpl. destruct (decide (i = k)) as [->|Hne].
    + rewrite decide_True by done. destruct b.
      * rewrite Z.shiftl_1_l, Z.lor_spec, Z.pow2_bits_true by lia. apply orb_true_r.
      * rewrite Z.land_spec, Refcount.rc_lnot_bit, Z.eqb_refl by lia.
        by rewrite !andb_false_r.
    + rewrite decide_False by naive_solver. destruct b.
      * rewrite Z.shiftl_1_l, Z.lor_spec, Z.pow2_bits_false by lia. apply orb_false_r.
      * rewrite Z.land_spec, Refcount.rc_lnot_bit by lia.
        destruct (Z.ltb_spec i 32), (Z.eqb_spec i k); try lia. apply andb_true_r.
  - by rewrite lookup_insert_ne, decide_False by naive_solver.
Qed.

Lemma bit_upd_ne s n k b x i :
  0 <= k < 32 -> 0 <= i < 32 -> i <> k -> bit (upd_bit s n k b) x i = bit s x i.
Proof. intros. by rewrite bit_upd, decide_False by naive_solver. Qed.

Lemma mm_run_markTail s n : markTail n s = (Ok tt, upd_bit s n tailBit true).
Proof. done. Qed.
Lemma mm_run_unmarkTail s n : unmarkTail n s = (Ok tt, upd_bit s n tailBit false).
Proof. done. Qed.
Lemma mm_run_markAccessed s n : markAccessed n s = (Ok tt, upd_bit s n accessedBit true).
Proof. done. Qed.
Lemma mm_run_unmarkAccessed s n : unmarkAccessed n s = (Ok tt, upd_bit s n accessedBit false).
Proof. done. Qed.
Lemma mm_run_link s n :
  on_ref n Refcount.markInMMContainer s = (Ok tt, upd_bit s n linkedBit true).
Proof. done. Qed.
Lemma mm_run_unlink s n :
  on_ref n Refcount.unmarkInMMContainer s = (Ok tt, upd_bit s n linkedBit false).
Proof. done. Qed.
Lemma mm_run_isTail s n : isTail n s = (Ok (bit s n tailBit), s).
Proof.
  change (isTail n s) with (Ok (mask_test (ref s n) (Z.shiftl 1 tailBit)), s).
  by rewrite mask_test_bit by done.
Qed.
Lemma mm_run_isAccessed s n : isAccessed n s = (Ok (bit s n accessedBit), s).
Proof.
  change (isAccessed n s) with (Ok (mask_test (ref s n) (Z.shiftl 1 accessedBit)), s).
  by rewrite mask_test_bit by done.
Qed.
Lemma mm_run_isIn s n : isInMMContainer n s = (Ok (bit s n linkedBit), s).
Proof.
  change (isInMMContainer n s) with (Ok (mask_test (ref s n) (Z.shiftl 1 linkedBit)), s).
  by rewrite mask_test_bit by done.
Qed.

(** Run the first step of a sequence with a lemma that says what it returns. *)
Lemma mm_bind_run {S B D} (m : M S B) (k : B -> M S D) (s s' : S) (b : B) :
  m s = (Ok b, s') -> bind m k s = k b s'.
Proof. intros Hm. unfold bind. by rewrite Hm. Qed.

(** Writing another member leaves the bits alone. *)
Lemma bit_tailSize s t x i : bit (set_tailSize s t) x i = bit s x i.
Proof. done. Qed.
Lemma bit_insertionPoint s p x i : bit (set_insertionPoint s p) x i = bit s x i.
Proof. done. Qed.
Lemma bit_set_lru s d x i : bit (set_lru s d) x i = bit s x i.
Proof. done. Qed.
Lemma bit_refreshTime s t x i : bit (set_lruRefreshTime s t) x i = bit s x i.
Proof. done. Qed.
Lemma bit_reconfigureTime s t x i : bit (set_nextReconfigureTime s t) x i = bit s x i.
Proof. done. Qed.
Lemma bit_config s c x i : bit (set_config s c) x i = bit s x i.
Proof. done. Qed.
#[local] Hint Rewrite bit_tailSize bit_insertionPoint bit_set_lru bit_refreshTime
  bit_reconfigureTime bit_config : mm.
#[local] Hint Rewrite bit_upd using done : mm.

(** Decide a statement about bits by cases on the nodes and bit positions. *)
Ltac bits_by Hs :=
  intros; autorewrite with mm; rewrite ?Hs;
  repeat (case_decide || case_bool_decide); naive_solver (set_solver).

(** *** Moving the insertion point *)

Lemma mm_core_NoDup s pre suf : mm_core s pre suf -> NoDup (pre ++ suf).
Proof. by intros [[? _] _ _ _]. Qed.

(** One node more in the tail part. *)
Lemma mm_core_grow s pre p suf :
  mm_core s (pre ++ [p]) suf ->
  mm_core (set_tailSize (upd_bit s p tailBit true) (tailSize_ s + 1)) pre (p :: suf).
Proof.
  intros [Hr Hl Ht Hs]. rewrite <- app_assoc in Hr. split; simpl.
  - done.
  - bits_by Hl.
  - bits_by Ht.
  - lia.
Qed.

(** One node less. *)
Lemma mm_core_shrink s pre p suf :
  mm_core s pre (p :: suf) ->
  mm_core (set_tailSize (upd_bit s p tailBit false) (tailSize_ s - 1)) (pre ++ [p]) suf.
Proof.
  intros Hc. pose proof (mm_core_NoDup _ _ _ Hc) as (_ & _ & [Hni _]%NoDup_cons)%NoDup_app.
  destruct Hc as [Hr Hl Ht Hs]. split; simpl.
  - by rewrite <- app_assoc.
  - bits_by Hl.
  - bits_by Ht.
  - simpl in Hs. lia.
Qed.

Lemma mm_frame_tail s n b t : mm_frame s (set_tailSize (upd_bit s n tailBit b) t).
Proof. split; try done. bits_by I. Qed.

Lemma mm_growTail (fuel : nat) s pre suf (e : Z) :
  mm_core s pre suf -> suf <> [] -> e <= Z.of_nat (length (pre ++ suf)) ->
  fuel = Z.to_nat (e - tailSize_ s) ->
  exists s' pre' suf',
    growTail fuel e (head suf) s = (Ok (head suf'), s') /\
    mm_core s' pre' suf' /\ pre' ++ suf' = pre ++ suf /\ suf' <> [] /\
    Z.of_nat (length suf') = Z.max (Z.of_nat (length suf)) e /\ mm_frame s s'.
Proof.
  revert s pre suf. induction fuel as [|fuel IH]; intros s pre suf Hc Hne He Hf;
    pose proof (core_size _ _ _ Hc) as Hsz.
  - exists s, pre, suf. split_and!; try done; lia.
  - destruct suf as [|c suf]; [done|]. rewrite length_app in He.
    destruct pre as [|p pre _] using rev_ind; [simpl in Hsz, He; lia|].
    pose proof (core_rep _ _ _ Hc) as Hrep.
    destruct (DList.dl_rep_split _ _ _ _ _ Hrep) as [_ Hprev]. rewrite last_snoc in Hprev.
    pose proof (mm_core_NoDup _ _ _ Hc) as Hnd.
    pose proof (mm_core_grow _ _ _ _ Hc) as Hc'.
    destruct (IH _ _ _ Hc') as (s' & pre' & suf' & Hrun & Hc2 & Heq & Hne' & Hlen & Hfr);
      [done| rewrite length_app in *; simpl in *; lia | simpl; lia |].
    exists s', pre', suf'. split_and!; try done.
    + simpl. rewrite (mm_bind_run get _ s s s) by done.
      assert (Hhd : Some c <> DList.head_ (lru_ s)).
      { destruct Hrep as (_ & _ & _ & -> & _). apply NoDup_app in Hnd as (_ & Hd & _).
        intros Hh. apply (Hd c); [|left]. destruct pre; simpl in *; set_solver. }
      unfold DList.getHead. rewrite bool_decide_eq_false_2 by done.
      destruct (Z.ltb_spec (tailSize_ s) e); [|lia].
      unfold deref, bind, ret; simpl. by rewrite Hprev.
    + by rewrite Heq, <- app_assoc.
    + simpl in *. lia.
    + eapply mm_frame_trans; [apply mm_frame_tail|done].
Qed.

Lemma mm_shrinkTail (fuel : nat) s pre suf (e : Z) :
  mm_core s pre suf -> suf <> [] -> 0 <= e -> fuel = Z.to_nat (tailSize_ s - e) ->
  exists s' pre' suf',
    shrinkTail fuel e (head suf) s = (Ok (head suf'), s') /\
    mm_core s' pre' suf' /\ pre' ++ suf' = pre ++ suf /\ suf' <> [] /\
    Z.of_nat (length suf') = Z.min (Z.of_nat (length suf)) (Z.max 1 e) /\ mm_frame s s'.
Proof.
  revert s pre suf. induction fuel as [|fuel IH]; intros s pre suf Hc Hne He Hf;
    pose proof (core_size _ _ _ Hc) as Hsz.
  - exists s, pre, suf. destruct suf; [done|]. simpl in *.
    split_and!; try done; lia.
  - destruct suf as [|c suf]; [done|]. pose proof (core_rep _ _ _ Hc) as Hrep.
    destruct (DList.dl_rep_split _ _ _ _ _ Hrep) as [Hnext _].
    pose proof (mm_core_NoDup _ _ _ Hc) as Hnd. simpl in Hsz.
    destruct suf as [|c2 suf].
    + exists s, pre, [c]. split_and!; try done; [|simpl; lia].
      simpl. rewrite (mm_bind_run get _ s s s) by done.
      assert (Htl : Some c = DList.tail_ (lru_ s)).
      { destruct Hrep as (_ & _ & _ & _ & -> & _). by rewrite last_snoc. }
      unfold DList.getTail. by rewrite bool_decide_eq_true_2, andb_false_r.
    + pose proof (mm_core_shrink _ _ _ _ Hc) as Hc'. simpl in Hsz.
      destruct (IH _ _ _ Hc') as (s' & pre' & suf' & Hrun & Hc2 & Heq & Hne' & Hlen & Hfr);
        [done|done|simpl; lia|].
      exists s', pre', suf'. split_and!; try done.
      * simpl. rewrite (mm_bind_run get _ s s s) by done.
        assert (Htl : Some c <> DList.tail_ (lru_ s)).
        { destruct Hrep as (_ & _ & _ & _ & -> & _).
          intros Hc3. by apply (DList.last_not_inner pre (c2 :: suf) c). }
        unfold DList.getTail. rewrite bool_decide_eq_false_2 by done.
        destruct (Z.ltb_spec e (tailSize_ s)); [|lia].
        unfold deref, bind, ret, decTail, modify; simpl. rewrite Hnext.
        destruct (Z.eqb_spec (tailSize_ s) 0); [lia|]. done.
      * by rewrite Heq, <- app_assoc.
      * simpl in *. lia.
      * eapply mm_frame_trans; [apply mm_frame_tail|done].
Qed.

Lemma mm_initInsertionPoint s pre suf :
  mm_pre s pre suf -> lruInsertionPointSpec (config_ s) <> 0 ->
  exists s' pre' suf',
    initInsertionPoint s = (Ok tt, s') /\ mm_pre s' pre' suf' /\
    pre' ++ suf' = pre ++ suf /\ (pre ++ suf <> [] -> suf' <> []) /\ mm_frame s s'.
Proof.
  intros (Hc & Hip & Hz) Hspec. unfold initInsertionPoint, bind, get; simpl. rewrite Hip.
  destruct suf as [|c suf]; simpl; [|by exists s, pre, (c :: suf)].
  pose proof (core_size _ _ _ Hc) as Hsz. simpl in Hsz.
  pose proof (core_rep _ _ _ Hc) as Hr. rewrite app_nil_r in Hr.
  destruct Hr as (_ & _ & _ & _ & Htl & _). unfold DList.getTail. rewrite Htl.
  assert (Hs0 : set_tailSize (set_insertionPoint s None) 0 = s).
  { destruct s; simpl in *. by subst. }
  destruct pre as [|t pre _] using rev_ind.
  - exists s, [], []. simpl. unfold modify. by rewrite Hs0.
  - rewrite last_snoc. unfold markTail, incTail, modify; simpl.
    eexists _, pre, [t]. split; [reflexivity|]. split; [split; [|split]|split; [|split]].
    + destruct (mm_core_grow _ _ _ _ Hc) as [Hr Hl Ht Hs]. by split.
    + done.
    + done.
    + by rewrite <- app_assoc.
    + done.
    + split; try done. apply (fr_bits _ _ (mm_frame_tail s t true 0)).
Qed.

(** [updateLruInsertionPoint] puts the boundary where the configuration asks
    for it and changes nothing else. *)
Lemma mm_update s pre suf :
  mm_pre s pre suf -> 0 <= lruInsertionPointSpec (config_ s) < 64 ->
  exists s' pre' suf',
    updateLruInsertionPoint s = (Ok tt, s') /\ mm_inv s' pre' suf' /\
    pre' ++ suf' = pre ++ suf /\
    length suf' = tail_target (lruInsertionPointSpec (config_ s)) (length (pre ++ suf)) /\
    mm_frame s s'.
Proof.
  intros Hp Hspec. unfold updateLruInsertionPoint, tail_target.
  rewrite (mm_bind_run get _ s s s) by done.
  destruct (Z.eqb_spec (lruInsertionPointSpec (config_ s)) 0) as [E|E].
  { assert (suf = []) as -> by (by apply Hp). exists s, pre, [].
    split_and!; try done. split; [done|]. split; [simpl; lia|done]. }
  destruct (mm_initInsertionPoint _ _ _ Hp E)
    as (s1 & pre1 & suf1 & Hrun1 & (Hc1 & Hip1 & _) & Heq1 & Hne1 & Hfr1).
  rewrite (mm_bind_run _ _ _ _ _ Hrun1), (mm_bind_run get _ s1 s1 s1) by done.
  pose proof (core_rep _ _ _ Hc1) as Hr1. pose proof (core_size _ _ _ Hc1) as Hsz1.
  assert (Hsize : DList.size (lru_ s1) = Z.of_nat (length (pre1 ++ suf1))).
  { by destruct Hr1 as (_ & _ & _ & _ & _ & ?). }
  rewrite Hsize, (fr_config _ _ Hfr1), <- Heq1. set (spec := lruInsertionPointSpec (config_ s)) in *.
  destruct (Z.leb_spec (Z.of_nat (length (pre1 ++ suf1))) 1) as [Hle|Hgt].
  { exists s1, pre1, suf1. split_and!; try done.
    - split; [|split].
      + split_and!; try done. by rewrite (fr_config _ _ Hfr1).
      + intros ->. simpl in Hle. lia.
      + by rewrite (fr_config _ _ Hfr1).
    - rewrite length_app in *. case_decide as Hn; [lia|]. assert (suf1 <> []).
      { apply Hne1. rewrite <- Heq1. intros Hnil. apply (f_equal length) in Hnil.
        rewrite length_app in Hnil. simpl in Hnil. lia. }
      destruct suf1; [done|]. simpl in *.
      assert (Z.shiftr (Z.of_nat (length pre1 + S (length suf1))) spec <= 1).
      { rewrite Z.shiftr_div_pow2 by lia.
        apply Z.div_le_upper_bound; [lia|]. assert (0 < 2 ^ spec) by lia. nia. }
      lia. }
  set (n := Z.of_nat (length (pre1 ++ suf1))) in *. set (e := Z.shiftr n spec).
  assert (He : 0 <= e /\ 2 * e <= n).
  { unfold e. rewrite Z.shiftr_div_pow2 by lia. split; [apply Z.div_pos; lia|].
    assert (2 <= 2 ^ spec) by (apply (Z.pow_le_mono_r 2 1); lia).
    pose proof (Z.mul_div_le n (2 ^ spec)). nia. }
  assert (Hnil : suf1 <> []).
  { apply Hne1. rewrite <- Heq1. intros Hnil. unfold n in Hgt. by rewrite Hnil in Hgt. }
  rewrite Hip1.
  destruct (mm_growTail _ s1 pre1 suf1 e Hc1 Hnil ltac:(fold n; lia) eq_refl)
    as (s2 & pre2 & suf2 & Hrun2 & Hc2 & Heq2 & Hne2 & Hlen2 & Hfr2).
  rewrite (mm_bind_run _ _ _ _ _ Hrun2), (mm_bind_run get _ s2 s2 s2) by done.
  destruct (mm_shrinkTail _ s2 pre2 suf2 e Hc2 Hne2 (proj1 He) eq_refl)
    as (s3 & pre3 & suf3 & Hrun3 & Hc3 & Heq3 & Hne3 & Hlen3 & Hfr3).
  rewrite (mm_bind_run _ _ _ _ _ Hrun3).
  pose proof (mm_frame_trans _ _ _ Hfr1 (mm_frame_trans _ _ _ Hfr2 Hfr3)) as Hfr.
  assert (Hlen : Z.of_nat (length suf3) = Z.max 1 e).
  { destruct suf1; [done|]. simpl in *. lia. }
  assert (Hn : Z.of_nat (length (pre3 ++ suf3)) = n) by (by rewrite Heq3, Heq2).
  eexists _, pre3, suf3. split; [reflexivity|]. split_and!.
  - split; [|split].
    + split_and!; simpl; [by destruct Hc3|done|by rewrite (fr_config _ _ Hfr)].
    + intros ->. simpl in Hn. lia.
    + simpl. by rewrite (fr_config _ _ Hfr).
  - congruence.
  - case_decide as H0; [unfold n in Hgt; lia|]. fold n. fold e. lia.
  - by destruct Hfr.
Qed.
(** ** Specification: a list in two parts

    The abstract state is the list cut at the insertion point.  [rebalance]
    moves the cut to where the configuration wants it. *)

Definition rebalance (spec : Z) (p : list A * list A) : list A * list A :=
  let l := p.1 ++ p.2 in
  let k := (length l - tail_target spec (length l))%nat in
  (take k l, drop k l).

Definition a_add (spec : Z) x (p : list A * list A) : list A * list A :=
  rebalance spec (match p.2 with [] => (x :: p.1, []) | _ => (p.1 ++ [x], p.2) end).

Definition a_remove (spec : Z) x (p : list A * list A) : list A * list A :=
  rebalance spec (DList.without x p.1, DList.without x p.2).

Definition a_access (spec : Z) x (p : list A * list A) : list A * list A :=
  if decide (x ∈ p.2)
  then rebalance spec (x :: DList.without x p.1, DList.without x p.2)
  else (x :: DList.without x p.1, p.2).

Definition subst (o n : A) l : list A := (fun y => if decide (y = o) then n else y) <$> l.

Definition a_replace (o n : A) (p : list A * list A) : list A * list A :=
  (subst o n p.1, subst o n p.2).

Definition a_setConfig (spec : Z) (p : list A * list A) : list A * list A :=
  if spec =? 0 then (p.1 ++ p.2, []) else p.

Lemma rebalance_unique (spec : Z) pre suf pre' suf' :
  pre' ++ suf' = pre ++ suf -> length suf' = tail_target spec (length (pre ++ suf)) ->
  rebalance spec (pre, suf) = (pre', suf').
Proof.
  intros Heq Hlen. unfold rebalance; simpl. rewrite <- Heq in *.
  rewrite <- Hlen, length_app, Nat.add_sub. by rewrite take_app_length, drop_app_length.
Qed.

Lemma mm_update_rebalance s pre suf :
  mm_pre s pre suf -> 0 <= lruInsertionPointSpec (config_ s) < 64 ->
  exists s', updateLruInsertionPoint s = (Ok tt, s') /\
    (let p := rebalance (lruInsertionPointSpec (config_ s)) (pre, suf) in
     mm_inv s' p.1 p.2) /\ mm_frame s s'.
Proof.
  intros Hp Hspec. destruct (mm_update _ _ _ Hp Hspec) as (s' & pre' & suf' & ? & ? & Heq & Hlen & ?).
  exists s'. by rewrite (rebalance_unique _ _ _ _ _ Heq Hlen).
Qed.

Lemma without_elem x y l : (y ∈ DList.without x l) <-> (y <> x /\ y ∈ l).
Proof. unfold DList.without. by rewrite list_elem_of_filter. Qed.

Lemma without_app x l k : DList.without x (l ++ k) = DList.without x l ++ DList.without x k.
Proof. apply filter_app. Qed.

Lemma head_without x l : head l <> Some x -> head (DList.without x l) = head l.
Proof.
  destruct l as [|y l]; simpl; [done|]. intros Hne. unfold DList.without.
  rewrite filter_cons_True; [done|]. congruence.
Qed.

(** *** Leaving the insertion point *)

Lemma mm_ensure s pre suf n :
  mm_inv s pre suf ->
  exists s' pre' suf',
    ensureNotInsertionPoint n s = (Ok tt, s') /\ mm_core s' pre' suf' /\
    pre' ++ suf' = pre ++ suf /\ insertionPoint_ s' = head (DList.without n suf') /\
    mm_frame s s' /\ (n ∈ suf -> n ∈ suf') /\
    (n ∉ suf -> s' = s /\ pre' = pre /\ suf' = suf).
Proof.
  intros ((Hc & Hip & _) & Hone & _). unfold ensureNotInsertionPoint.
  rewrite (mm_bind_run get _ s s s) by done. rewrite Hip. case_decide as Hh.
  - destruct suf as [|c suf]; [done|]. injection Hh as ->.
    pose proof (mm_core_NoDup _ _ _ Hc) as Hnd.
    destruct (DList.dl_rep_split _ _ _ _ _ (core_rep _ _ _ Hc)) as [_ Hprev]. rewrite Hprev.
    destruct pre as [|p pre _] using rev_ind.
    + destruct suf; [|simpl in *; specialize (Hone eq_refl); lia].
      eexists _, [], [n]. split; [reflexivity|]. split_and!; try done.
      * by destruct Hc.
      * simpl. unfold DList.without. by rewrite filter_cons_False by auto.
      * intros Hn. exfalso. set_solver.
    + rewrite last_snoc. eexists _, pre, (p :: n :: suf). split; [reflexivity|].
      destruct (mm_core_grow _ _ _ _ Hc) as [Hr Hl Ht Hs]. split_and!.
      * by split.
      * by rewrite <- app_assoc.
      * simpl. unfold DList.without. rewrite filter_cons_True; [done|].
        apply NoDup_app in Hnd as (_ & Hd & _). intros ->. apply (Hd n); set_solver.
      * by destruct (mm_frame_tail s p true (tailSize_ s + 1)).
      * set_solver.
      * intros Hn. exfalso. set_solver.
  - exists s, pre, suf. split_and!; try done. by rewrite head_without.
Qed.

Lemma without_length n l :
  NoDup l -> n ∈ l -> Z.of_nat (length (DList.without n l)) = Z.of_nat (length l) - 1.
Proof.
  intros Hnd (l1 & l2 & ->)%list_elem_of_split.
  rewrite DList.without_split.
  - rewrite !length_app. simpl. lia.
  - rewrite <- Permutation_middle in Hnd. by apply NoDup_cons in Hnd as [? _].
Qed.

Lemma rebalance_app (spec : Z) pre suf pre' suf' :
  pre' ++ suf' = pre ++ suf -> rebalance spec (pre', suf') = rebalance spec (pre, suf).
Proof. intros Heq. unfold rebalance; simpl. by rewrite Heq. Qed.

(** Clearing the tail flag of [n] when it is set. *)
Definition untail n : M (Container A C) unit :=
  (let! tail := isTail n in if tail then do! unmarkTail n in decTail else ret tt)%cl.

Lemma mm_untail s n k :
  NoDup k -> bit s n tailBit = bool_decide (n ∈ k) -> tailSize_ s = Z.of_nat (length k) ->
  exists s', untail n s = (Ok tt, s') /\ mm_frame s s' /\
    insertionPoint_ s' = insertionPoint_ s /\
    (forall x, bit s' x tailBit = bit s x tailBit && bool_decide (x <> n)) /\
    tailSize_ s' = Z.of_nat (length (DList.without n k)).
Proof.
  intros Hnd Hb Hsz. unfold untail. rewrite (mm_bind_run _ _ _ _ _ (mm_run_isTail s n)), Hb.
  case_bool_decide as Hin.
  - assert (Hpos : tailSize_ s <> 0) by (destruct k; [set_solver|simpl in *; lia]).
    exists (set_tailSize (upd_bit s n tailBit false) (tailSize_ s - 1)). split_and!; try done.
    + rewrite (mm_bind_run _ _ _ _ _ (mm_run_unmarkTail s n)). unfold decTail, modify; simpl.
      by rewrite (proj2 (Z.eqb_neq _ _) Hpos).
    + apply mm_frame_tail.
    + intros x. rewrite bit_tailSize, bit_upd by done. repeat case_decide;
        case_bool_decide; rewrite ?andb_true_r, ?andb_false_r; naive_solver.
    + simpl. rewrite without_length by done. lia.
  - exists s. split_and!; try done.
    + intros x. case_bool_decide as Hx; rewrite ?andb_true_r; [done|].
      subst x. by rewrite Hb.
    + by rewrite DList.without_notin.
Qed.

Lemma mm_removeLocked s pre suf n :
  mm_inv s pre suf -> n ∈ pre ++ suf ->
  exists s', removeLocked n s = (Ok tt, s') /\
    (let p := a_remove (lruInsertionPointSpec (config_ s)) n (pre, suf) in
     mm_inv s' p.1 p.2) /\
    config_ s' = config_ s /\ bit s' n accessedBit = false /\
    (forall x, x <> n -> bit s' x accessedBit = bit s x accessedBit).
Proof.
  intros Hinv Hn. pose proof Hinv as ((_ & _ & Hz) & _ & Hspec).
  destruct (mm_ensure _ _ _ n Hinv) as (s1 & pre1 & suf1 & Hrun1 & Hc1 & Heq1 & Hip1 & Hfr1 & Hin1 & Hout1).
  pose proof (mm_core_NoDup _ _ _ Hc1) as (Hnd1 & Hdisj & Hnd2)%NoDup_app.
  destruct Hc1 as [Hr Hl Ht Hsz].
  set (s2 := upd_bit (set_lru s1 (DList.remove n (hooks s1, lru_ s1))) n accessedBit false).
  destruct (mm_untail s2 n suf1 Hnd2) as (s3 & Hrun3 & Hfr3 & Hip3 & Hb3 & Hsz3);
    [unfold s2; rewrite bit_upd_ne, bit_set_lru by done; apply Ht|done|].
  set (s4 := upd_bit s3 n linkedBit false).
  assert (Hcfg : config_ s4 = config_ s) by (by rewrite <- (fr_config _ _ Hfr1); apply Hfr3).
  assert (Hacc : forall x, bit s4 x accessedBit = bit s x accessedBit && bool_decide (x <> n)).
  { intros x. unfold s4. autorewrite with mm. rewrite (fr_bits _ _ Hfr3) by done.
    unfold s2. autorewrite with mm. rewrite (fr_bits _ _ Hfr1) by done.
    repeat case_decide; case_bool_decide; rewrite ?andb_true_r, ?andb_false_r; naive_solver. }
  assert (Hpre : mm_pre s4 (DList.without n pre1) (DList.without n suf1)).
  { split_and!; [split| |].
    - rewrite <- without_app. unfold s4; simpl. rewrite (fr_hooks _ _ Hfr3), (fr_lru _ _ Hfr3).
      apply (DList.dl_exec_refines (DList.CRemove n) _ _ _ _ Hr I). simpl.
      by rewrite decide_True by (by rewrite Heq1).
    - intros x. unfold s4. autorewrite with mm. rewrite (fr_bits _ _ Hfr3) by done.
      unfold s2. autorewrite with mm. rewrite Hl, <- without_app.
      pose proof (without_elem n x (pre1 ++ suf1)).
      repeat (case_decide || case_bool_decide); naive_solver.
    - intros x. unfold s4. autorewrite with mm. rewrite Hb3.
      unfold s2. autorewrite with mm. rewrite Ht.
      pose proof (without_elem n x suf1).
      repeat (case_decide || case_bool_decide); naive_solver.
    - done.
    - unfold s4; simpl. by rewrite Hip3.
    - rewrite Hcfg. intros Hsp. rewrite (Hz Hsp) in *.
      destruct Hout1 as (_ & _ & ->); [set_solver|done]. }
  destruct (mm_update_rebalance s4 _ _ Hpre) as (s5 & Hrun5 & Hinv5 & Hfr5); [by rewrite Hcfg|].
  exists s5. split_and!.
  - unfold removeLocked. rewrite (mm_bind_run _ _ _ _ _ Hrun1).
    rewrite (mm_bind_run (on_lru _) _ _ _ tt eq_refl).
    rewrite (mm_bind_run (unmarkAccessed n) _ _ s2 tt eq_refl).
    rewrite (mm_bind_run _ _ _ _ _ Hrun3).
    by rewrite (mm_bind_run _ _ _ _ _ (mm_run_unlink s3 n)).
  - rewrite Hcfg in Hinv5. unfold a_remove. cbn [fst snd].
    rewrite (rebalance_app _ (DList.without n pre1) (DList.without n suf1)); [done|].
    by rewrite <- !without_app, Heq1.
  - by rewrite (fr_config _ _ Hfr5).
  - rewrite (fr_bits _ _ Hfr5), Hacc by done. by rewrite bool_decide_eq_false_2, andb_false_r by auto.
  - intros x Hx. rewrite (fr_bits _ _ Hfr5), Hacc by done.
    by rewrite bool_decide_eq_true_2, andb_true_r.
Qed.

(** The writes of [add] before the insertion point is updated. *)
Definition added s n (now : Z) (d : DList.heap A C * DList.DList A) : Container A C :=
  upd_bit (set_lru (upd_bit (set_lru s d) n linkedBit true)
             (DList.setUpdateTime d.1 n now, d.2)) n accessedBit false.

Lemma mm_core_added s n now d pre suf pre' :
  mm_core s pre suf -> n ∉ pre ++ suf -> DList.dl_rep d.1 d.2 (pre' ++ suf) ->
  (forall x, x ∈ pre' <-> x = n \/ x ∈ pre) -> mm_core (added s n now d) pre' suf.
Proof.
  intros [Hr Hl Ht Hs] Hn Hd Hpre'. unfold added. split; simpl.
  - by apply DList.dl_rep_setUpdateTime.
  - intros x. rewrite bit_upd_ne, bit_set_lru, bit_upd, bit_set_lru, Hl by done.
    specialize (Hpre' x). repeat (case_decide || case_bool_decide); set_solver.
  - intros x. by rewrite bit_upd_ne, bit_set_lru, bit_upd_ne, bit_set_lru, Ht by done.
  - done.
Qed.

Lemma getUpdateTime_same (hk : DList.heap A C) n t :
  DList.getUpdateTime (DList.setUpdateTime hk n t) n = t.
Proof.
  unfold DList.getUpdateTime, DList.setUpdateTime. rewrite DList.hook_insert.
  by rewrite decide_True.
Qed.

Lemma mm_add s pre suf n now :
  mm_inv s pre suf -> pc_valid n -> n ∉ pre ++ suf ->
  exists s', add n now s = (Ok true, s') /\
    (let p := a_add (lruInsertionPointSpec (config_ s)) n (pre, suf) in
     mm_inv s' p.1 p.2) /\
    config_ s' = config_ s /\ DList.getUpdateTime (hooks s') n = u32 now /\
    bit s' n accessedBit = false /\
    (forall x, x <> n -> bit s' x accessedBit = bit s x accessedBit).
Proof.
  intros ((Hc & Hip & Hz) & Hone & Hspec) Hv Hn. pose proof Hc as [Hr Hl Ht Hs].
  set (spec := lruInsertionPointSpec (config_ s)) in *.
  set (d := match suf with
            | [] => DList.linkAtHead n (hooks s, lru_ s)
            | c :: _ => DList.insertBefore c n (hooks s, lru_ s)
            end).
  set (pre' := match suf with [] => n :: pre | _ => pre ++ [n] end).
  assert (Hd : DList.dl_rep d.1 d.2 (pre' ++ suf)).
  { unfold d, pre'. destruct suf as [|c suf]; rewrite ?app_nil_r in *.
    - by apply DList.dl_rep_linkAtHead.
    - rewrite <- app_assoc. by apply DList.dl_rep_insertBefore. }
  assert (Hcore : mm_core (added s n (u32 now) d) pre' suf).
  { apply (mm_core_added s n _ d pre); try done. intros x. unfold pre'.
    destruct suf; set_solver. }
  destruct (mm_update_rebalance (added s n (u32 now) d) pre' suf) as (s5 & Hrun & Hinv & Hfr).
  { by split_and!. }
  { done. }
  exists s5. split_and!.
  - unfold add. rewrite (mm_bind_run _ _ _ _ _ (mm_run_isIn s n)), Hl.
    rewrite bool_decide_eq_false_2 by done. rewrite (mm_bind_run get _ s s s) by done.
    rewrite (mm_bind_run _ _ s (set_lru s d) tt).
    2: { rewrite Hip. unfold d. destruct suf as [|c suf]; [done|]. simpl.
         case_cmp; [|done]. by specialize (Hz ltac:(done)). }
    rewrite (mm_bind_run _ _ _ _ _ (mm_run_link (set_lru s d) n)).
    rewrite (mm_bind_run (setUpdateTime n (u32 now)) _ _ _ tt eq_refl).
    rewrite (mm_bind_run _ _ _ _ _ (mm_run_unmarkAccessed _ n)).
    by rewrite (mm_bind_run _ _ _ _ _ Hrun).
  - unfold a_add. cbn [fst snd]. unfold pre' in Hinv. by destruct suf.
  - by rewrite (fr_config _ _ Hfr).
  - rewrite (fr_hooks _ _ Hfr). apply getUpdateTime_same.
  - rewrite (fr_bits _ _ Hfr) by done. unfold added. by rewrite bit_upd, decide_True by done.
  - intros x Hx. rewrite (fr_bits _ _ Hfr) by done. unfold added.
    rewrite bit_upd, decide_False by (done || naive_solver). by rewrite bit_set_lru, bit_upd_ne by done.
Qed.

(** *** Reconfiguration *)

(** The product of an age and the ratio stays in the range of [uint32_t]. *)
Definition ratio_ok (r : double) : Prop :=
  forall a, is_u32 a -> exists v : Z, u32_of_double (double_mul (double_of_u64 a) r) = Some v.

Lemma mm_oldest_u32 s (pl now : Z) :
  exists st, getEvictionAgeStatLocked pl now s = (Ok st, s) /\ is_u32 (oldestElementAge st).
Proof.
  eexists. split; [reflexivity|]. simpl. case_match; [apply u32_range|done].
Qed.

Lemma mm_reconfigure s (now curr : Z) :
  ratio_ok (lruRefreshRatio (config_ s)) ->
  exists t r, reconfigureLocked now curr s =
      (Ok tt, set_lruRefreshTime (set_nextReconfigureTime s t) r) /\
    (curr < nextReconfigureTime_ s /\ r = lruRefreshTime_ s \/
     nextReconfigureTime_ s <= curr /\
     Z.min (defaultLruRefreshTime (config_ s)) kLruRefreshTimeCap <= r <= kLruRefreshTimeCap).
Proof.
  intros Hr. unfold reconfigureLocked. rewrite (mm_bind_run get _ s s s) by done.
  destruct (Z.ltb_spec curr (nextReconfigureTime_ s)) as [Hlt|Hge].
  - exists (nextReconfigureTime_ s), (lruRefreshTime_ s). split; [by destruct s|]. by left.
  - rewrite (mm_bind_run (modify _) _ _ _ tt eq_refl).
    destruct (mm_oldest_u32 (set_nextReconfigureTime s
      (u32 (curr + mmReconfigureIntervalSecs (config_ s)))) 0 now) as (st & Hst & Hu).
    rewrite (mm_bind_run _ _ _ _ _ Hst). destruct (Hr _ Hu) as [x ->].
    eexists _, _. split; [reflexivity|]. right. simpl. lia.
Qed.

Lemma mm_inv_times s pre suf t r :
  mm_inv s pre suf -> mm_inv (set_lruRefreshTime (set_nextReconfigureTime s t) r) pre suf.
Proof.
  intros (([Hr Hl Ht Hs] & ? & ?) & ? & ?). split; [|done]. split; [by split|done].
Qed.

(** *** Promotion *)

Lemma mm_promote_tail s pre suf n (curr : Z) :
  mm_core s pre suf -> n ∈ suf -> insertionPoint_ s = head (DList.without n suf) ->
  0 <= lruInsertionPointSpec (config_ s) < 64 -> lruInsertionPointSpec (config_ s) <> 0 ->
  let d := DList.moveToHead n (hooks s, lru_ s) in
  let s1 := set_lru (set_lru s d) (DList.setUpdateTime d.1 n curr, d.2) in
  exists s', (do! unmarkTail n in do! decTail in updateLruInsertionPoint)%cl s1 = (Ok tt, s') /\
    (let p := rebalance (lruInsertionPointSpec (config_ s))
                (n :: DList.without n pre, DList.without n suf) in mm_inv s' p.1 p.2) /\
    mm_frame s1 s'.
Proof.
  intros Hc Hn Hip Hspec Hne d s1. pose proof (mm_core_NoDup _ _ _ Hc) as (_ & Hdisj & Hnd)%NoDup_app.
  destruct Hc as [Hr Hl Ht Hs].
  assert (Hpos : tailSize_ s1 <> 0) by (simpl; destruct suf; [set_solver|simpl in *; lia]).
  set (s2 := set_tailSize (upd_bit s1 n tailBit false) (tailSize_ s1 - 1)).
  assert (Hpre : mm_pre s2 (n :: DList.without n pre) (DList.without n suf)).
  { split_and!; [split| |done].
    - unfold s2; simpl. apply DList.dl_rep_setUpdateTime. rewrite <- without_app.
      apply (DList.dl_exec_refines (DList.CMoveToHead n) _ _ _ _ Hr I). simpl.
      by rewrite decide_True by set_solver.
    - intros x. unfold s2, s1. rewrite bit_tailSize, bit_upd_ne, !bit_set_lru, Hl by done.
      simpl. rewrite <- without_app. apply bool_decide_ext.
      rewrite elem_of_cons, without_elem, elem_of_app. destruct (decide (x = n)); naive_solver.
    - intros x. unfold s2, s1. rewrite bit_tailSize, bit_upd, !bit_set_lru, Ht by done.
      pose proof (without_elem n x suf). repeat (case_decide || case_bool_decide); naive_solver.
    - unfold s2; simpl. rewrite without_length by done. lia.
    - done. }
  destruct (mm_update_rebalance s2 _ _ Hpre Hspec) as (s3 & Hrun & Hinv & Hfr).
  exists s3. split_and!; [|done|].
  - rewrite (mm_bind_run _ _ _ _ _ (mm_run_unmarkTail s1 n)).
    rewrite (mm_bind_run decTail _ _ s2 tt); [done|]. unfold decTail, modify; simpl in *.
    by rewrite (proj2 (Z.eqb_neq _ _) Hpos).
  - eapply mm_frame_trans; [apply mm_frame_tail|done].
Qed.

Lemma mm_promote_front s pre suf n (curr : Z) :
  mm_inv s pre suf -> n ∈ pre -> n ∉ suf ->
  let d := DList.moveToHead n (hooks s, lru_ s) in
  mm_inv (set_lru (set_lru s d) (DList.setUpdateTime d.1 n curr, d.2))
    (n :: DList.without n pre) suf.
Proof.
  intros (([Hr Hl Ht Hs] & Hip & Hz) & Hone & Hspec) Hn Hns d. split; [|done].
  split_and!; [split| |]; try done.
  - simpl. apply DList.dl_rep_setUpdateTime.
    rewrite <- (DList.without_notin n suf) by done. rewrite <- without_app.
    apply (DList.dl_exec_refines (DList.CMoveToHead n) _ _ _ _ Hr I). simpl.
    by rewrite decide_True by set_solver.
  - intros x. rewrite !bit_set_lru, Hl. pose proof (without_elem n x pre).
    apply bool_decide_ext. rewrite !elem_of_app, elem_of_cons.
    destruct (decide (x = n)); naive_solver.
Qed.

Lemma mm_access_in s pre suf n (now curr : Z) :
  mm_inv s pre suf -> ratio_ok (lruRefreshRatio (config_ s)) -> n ∈ pre ++ suf ->
  exists s', recordAccess_locked n now curr s = (Ok tt, s') /\
    (let p := a_access (lruInsertionPointSpec (config_ s)) n (pre, suf) in
     mm_inv s' p.1 p.2) /\
    config_ s' = config_ s /\ DList.getUpdateTime (hooks s') n = curr /\
    (forall x, bit s' x accessedBit = bit s x accessedBit).
Proof.
  intros Hinv Hok Hn. destruct (mm_reconfigure s now curr Hok) as (t & r & Hrun0 & _).
  apply (mm_inv_times _ _ _ t r) in Hinv. unfold recordAccess_locked.
  rewrite (mm_bind_run _ _ _ _ _ Hrun0).
  set (s0 := set_lruRefreshTime (set_nextReconfigureTime s t) r) in *.
  change (config_ s) with (config_ s0). change (forall x, bit s x accessedBit) with
    (forall x, bit s0 x accessedBit).
  destruct (mm_ensure _ _ _ n Hinv)
    as (s1 & pre1 & suf1 & Hrun1 & Hc1 & Heq1 & Hip1 & Hfr1 & Hin1 & Hout1).
  pose proof Hc1 as [Hr Hl Ht Hs]. rewrite (mm_bind_run _ _ _ _ _ Hrun1).
  rewrite (mm_bind_run _ _ _ _ _ (mm_run_isIn s1 n)), Hl, bool_decide_eq_true_2 by (by rewrite Heq1).
  set (d := DList.moveToHead n (hooks s1, lru_ s1)).
  set (s2 := set_lru (set_lru s1 d) (DList.setUpdateTime d.1 n curr, d.2)).
  rewrite (mm_bind_run _ _ s1 s2 tt) by done.
  rewrite (mm_bind_run _ _ _ _ _ (mm_run_isTail s2 n)).
  change (bit s2 n tailBit) with (bit s1 n tailBit). rewrite Ht.
  unfold a_access. cbn [fst snd]. case_decide as Hs'.
  - rewrite bool_decide_eq_true_2 by auto.
    destruct (mm_promote_tail s1 pre1 suf1 n curr Hc1 (Hin1 Hs') Hip1)
      as (s3 & Hrun3 & Hinv3 & Hfr3).
    { rewrite (fr_config _ _ Hfr1). apply Hinv. }
    { rewrite (fr_config _ _ Hfr1). intros E. destruct Hinv as ((_ & _ & Hz) & _).
      rewrite (Hz E) in Hs'. set_solver. }
    exists s3. split_and!.
    + done.
    + rewrite (fr_config _ _ Hfr1) in Hinv3.
      rewrite (rebalance_app _ (n :: DList.without n pre1) (DList.without n suf1)); [done|].
      simpl. by rewrite <- !without_app, Heq1.
    + rewrite (fr_config _ _ Hfr3). apply (fr_config _ _ Hfr1).
    + rewrite (fr_hooks _ _ Hfr3). apply getUpdateTime_same.
    + intros x. rewrite (fr_bits _ _ Hfr3) by done. by apply (fr_bits _ _ Hfr1).
  - destruct (Hout1 Hs') as (-> & -> & ->). rewrite bool_decide_eq_false_2 by done.
    exists s2. split_and!; try done.
    + apply mm_promote_front; [done|set_solver|done].
    + apply getUpdateTime_same.
Qed.

(** A node that another thread removed before the critical section. *)
Lemma mm_access_out s pre suf n (now curr : Z) :
  mm_inv s pre suf -> ratio_ok (lruRefreshRatio (config_ s)) -> n ∉ pre ++ suf ->
  exists s', recordAccess_locked n now curr s = (Ok tt, s') /\ mm_inv s' pre suf.
Proof.
  intros Hinv Hok Hn. destruct (mm_reconfigure s now curr Hok) as (t & r & Hrun0 & _).
  apply (mm_inv_times _ _ _ t r) in Hinv. unfold recordAccess_locked.
  rewrite (mm_bind_run _ _ _ _ _ Hrun0).
  set (s0 := set_lruRefreshTime (set_nextReconfigureTime s t) r) in *.
  destruct (mm_ensure _ _ _ n Hinv)
    as (s1 & pre1 & suf1 & Hrun1 & Hc1 & Heq1 & Hip1 & Hfr1 & Hin1 & Hout1).
  destruct Hout1 as (-> & -> & ->); [set_solver|]. pose proof Hc1 as [Hr Hl Ht Hs].
  rewrite (mm_bind_run _ _ _ _ _ Hrun1).
  rewrite (mm_bind_run _ _ _ _ _ (mm_run_isIn s0 n)), Hl, bool_decide_eq_false_2 by done.
  rewrite (mm_bind_run (ret tt) _ s0 s0 tt) by done.
  rewrite (mm_bind_run _ _ _ _ _ (mm_run_isTail s0 n)), Ht, bool_decide_eq_false_2 by set_solver.
  by exists s0.
Qed.

(** *** Replacement *)

Lemma subst_elem o n x l :
  n ∉ l -> x ∈ subst o n l <-> (x = n /\ o ∈ l) \/ (x <> o /\ x ∈ l).
Proof.
  intros Hn. unfold subst. rewrite list_elem_of_fmap. split.
  - intros (y & -> & Hy). case_decide; subst; [by left|by right].
  - intros [[-> Ho]|[Hx Hxl]].
    + exists o. by rewrite decide_True.
    + exists x. by rewrite decide_False.
Qed.

Lemma subst_app o n l k : subst o n (l ++ k) = subst o n l ++ subst o n k.
Proof. apply fmap_app. Qed.

(** The state [replace] leaves. *)
Definition replaced s o n (ut : Z) : Container A C :=
  let d := DList.replace o n (hooks s, lru_ s) in
  let s1 := upd_bit (upd_bit (set_lru s d) o linkedBit false) n linkedBit true in
  let s2 := set_lru s1 (DList.setUpdateTime (hooks s1) n ut, lru_ s1) in
  let s3 := upd_bit s2 n accessedBit (bit s2 o accessedBit) in
  let s4 := if bit s3 o tailBit
            then upd_bit (upd_bit s3 n tailBit true) o tailBit false
            else upd_bit s3 n tailBit false in
  if decide (insertionPoint_ s4 = Some o) then set_insertionPoint s4 (Some n) else s4.

Lemma mm_run_replace s o n :
  replace o n s =
    if negb (bit s o linkedBit) || bit s n linkedBit then (Ok false, s)
    else (Ok true, replaced s o n (DList.getUpdateTime (hooks s) o)).
Proof.
  unfold replace. rewrite (mm_bind_run _ _ _ _ _ (mm_run_isIn s o)).
  rewrite (mm_bind_run _ _ _ _ _ (mm_run_isIn s n)).
  destruct (negb (bit s o linkedBit) || bit s n linkedBit); [done|].
  rewrite (mm_bind_run (getUpdateTime o) _ s s _ eq_refl).
  rewrite (mm_bind_run (on_lru _) _ _ _ tt eq_refl).
  rewrite (mm_bind_run _ _ _ _ _ (mm_run_unlink _ o)), (mm_bind_run _ _ _ _ _ (mm_run_link _ n)).
  rewrite (mm_bind_run (setUpdateTime n _) _ _ _ tt eq_refl).
  rewrite (mm_bind_run _ _ _ _ _ (mm_run_isAccessed _ o)).
  unfold replaced. set (s2 := set_lru _ _).
  rewrite (mm_bind_run _ _ s2 (upd_bit s2 n accessedBit (bit s2 o accessedBit)) tt)
    by (by destruct (bit s2 o accessedBit)).
  set (s3 := upd_bit s2 n accessedBit _).
  rewrite (mm_bind_run _ _ _ _ _ (mm_run_isTail s3 o)).
  destruct (bit s3 o tailBit); done.
Qed.

Lemma replaced_bits s pre suf o n ut x :
  mm_core s pre suf -> o ∈ pre ++ suf -> n ∉ pre ++ suf ->
  bit (replaced s o n ut) x linkedBit = bool_decide (x ∈ subst o n (pre ++ suf)) /\
  bit (replaced s o n ut) x tailBit = bool_decide (x ∈ subst o n suf) /\
  bit (replaced s o n ut) x accessedBit =
    bit s (if decide (x = n) then o else x) accessedBit.
Proof.
  intros [Hr Hl Ht Hs] Ho Hn. assert (Hne : o <> n) by (by intros ->).
  pose proof (subst_elem o n x (pre ++ suf) Hn) as E1.
  pose proof (subst_elem o n x suf ltac:(set_solver)) as E2.
  unfold replaced. cbv zeta. rewrite (bit_upd_ne _ n accessedBit _ o tailBit) by done.
  rewrite bit_set_lru, !bit_upd_ne, !bit_set_lru, Ht by done.
  assert (Hit : forall (P : Prop) `{!Decision P} s1 q y i,
    bit (if decide P then set_insertionPoint s1 q else s1) y i = bit s1 y i).
  { intros. by case_decide. }
  rewrite !Hit. split_and!.
  - case_bool_decide; rewrite !bit_upd_ne, bit_set_lru, !bit_upd, bit_set_lru, Hl by done;
    clear Hl Ht Hit Hr Hs E2; rewrite (bool_decide_ext _ _ E1); clear E1;
    repeat (case_decide || case_bool_decide); naive_solver.
  - case_bool_decide as Hos; autorewrite with mm; rewrite Ht;
    clear Hl Ht Hit Hr Hs E1; rewrite (bool_decide_ext _ _ E2); clear E2;
    repeat (case_decide || case_bool_decide); set_solver.
  - case_bool_decide; rewrite !bit_upd_ne, bit_upd, !bit_set_lru, !bit_upd_ne, !bit_set_lru by done;
    clear Hl Ht Hit Hr Hs E1 E2; repeat case_decide; naive_solver.
Qed.

Lemma replaced_fields s o n ut :
  let d := DList.replace o n (hooks s, lru_ s) in
  hooks (replaced s o n ut) = DList.setUpdateTime d.1 n ut /\
  lru_ (replaced s o n ut) = d.2 /\
  tailSize_ (replaced s o n ut) = tailSize_ s /\
  config_ (replaced s o n ut) = config_ s /\
  insertionPoint_ (replaced s o n ut) =
    (fun y => if decide (y = o) then n else y) <$> insertionPoint_ s.
Proof.
  intros d. unfold replaced. cbv zeta. set (b := bit _ o tailBit).
  split_and!; try (by destruct b; case_decide).
  destruct b; simpl; case_decide as Hi; simpl; rewrite ?Hi; simpl; rewrite ?decide_True by done;
    try done; destruct (insertionPoint_ s) as [q|]; try done; simpl;
    rewrite decide_False by congruence; done.
Qed.

Lemma mm_replace s pre suf o n :
  mm_inv s pre suf -> pc_valid n -> o ∈ pre ++ suf -> n ∉ pre ++ suf ->
  exists s', replace o n s = (Ok true, s') /\
    (let p := a_replace o n (pre, suf) in mm_inv s' p.1 p.2) /\
    config_ s' = config_ s /\
    DList.getUpdateTime (hooks s') n = DList.getUpdateTime (hooks s) o /\
    (forall x, bit s' x accessedBit = bit s (if decide (x = n) then o else x) accessedBit).
Proof.
  intros ((Hc & Hip & Hz) & Hone & Hspec) Hv Ho Hn. pose proof Hc as [Hr Hl Ht Hs].
  rewrite mm_run_replace, !Hl, bool_decide_eq_true_2, bool_decide_eq_false_2 by done. simpl.
  set (ut := DList.getUpdateTime (hooks s) o).
  destruct (replaced_fields s o n ut) as (Hh & Hd & Hts & Hcfg & Hip').
  eexists. split; [reflexivity|]. split_and!.
  - split; [split_and!; [split| |]|split].
    + rewrite Hh, Hd, <- subst_app. apply DList.dl_rep_setUpdateTime.
      apply (DList.dl_exec_refines (DList.CReplace o n) _ _ _ _ Hr Hv). simpl.
      by rewrite decide_True.
    + intros x. rewrite <- subst_app. by apply (replaced_bits _ pre suf).
    + intros x. by apply (replaced_bits _ pre suf).
    + rewrite Hts, Hs. unfold subst. by rewrite length_fmap.
    + rewrite Hip', Hip. by destruct suf.
    + rewrite Hcfg. intros E. by rewrite (Hz E).
    + intros E. unfold subst in *. simpl in E. apply fmap_nil_inv in E. rewrite length_fmap. auto.
    + by rewrite Hcfg.
  - done.
  - rewrite Hh. apply getUpdateTime_same.
  - intros x. by apply (replaced_bits _ pre suf).
Qed.

(** *** Reconfiguring by the user *)

Lemma mm_clearTail s pre suf :
  mm_core s pre suf ->
  exists s', clearTail (length suf) (head suf) s = (Ok tt, s') /\
    mm_core s' (pre ++ suf) [] /\ mm_frame s s' /\ insertionPoint_ s' = insertionPoint_ s.
Proof.
  revert s pre. induction suf as [|c suf IH]; intros s pre Hc.
  - exists s. split_and!; try done. by rewrite app_nil_r.
  - destruct (DList.dl_rep_split _ _ _ _ _ (core_rep _ _ _ Hc)) as [Hnext _].
    pose proof (core_size _ _ _ Hc) as Hsz. simpl in Hsz.
    destruct (IH _ _ (mm_core_shrink _ _ _ _ Hc)) as (s' & Hrun & Hc' & Hfr & Hip).
    exists s'. split_and!.
    + simpl. rewrite (mm_bind_run (ret c) _ s s c) by done.
      rewrite (mm_bind_run _ _ _ _ _ (mm_run_unmarkTail s c)).
      rewrite (mm_bind_run decTail _ _
        (set_tailSize (upd_bit s c tailBit false) (tailSize_ s - 1)) tt).
      * rewrite (mm_bind_run get _ _ _ _ eq_refl). simpl. by rewrite Hnext.
      * unfold decTail, modify; simpl. destruct (Z.eqb_spec (tailSize_ s) 0); [lia|done].
    + by rewrite <- app_assoc in Hc'.
    + eapply mm_frame_trans; [apply mm_frame_tail|done].
    + done.
Qed.

Lemma mm_setConfig s pre suf c now :
  mm_inv s pre suf -> 0 <= lruInsertionPointSpec c < 64 ->
  exists s', setConfig c now s = (Ok tt, s') /\
    (let p := a_setConfig (lruInsertionPointSpec c) (pre, suf) in mm_inv s' p.1 p.2) /\
    config_ s' = c /\ lruRefreshTime_ s' = lruRefreshTime c /\
    (forall x, bit s' x accessedBit = bit s x accessedBit).
Proof.
  intros ((Hc & Hip & Hz) & Hone & _) Hspec. unfold setConfig, a_setConfig.
  rewrite (mm_bind_run (modify _) _ _ (set_config s c) tt) by done.
  rewrite (mm_bind_run get _ _ _ _ eq_refl). simpl. rewrite Hip.
  assert (Hc1 : mm_core (set_config s c) pre suf) by (by destruct Hc).
  destruct (Z.eqb_spec (lruInsertionPointSpec c) 0) as [E|E]; simpl.
  - destruct suf as [|x suf].
    + eexists. split; [reflexivity|]. split_and!; try done. rewrite app_nil_r.
      split; [|simpl; split; [lia|done]]. split; [by destruct Hc|done].
    + rewrite bool_decide_eq_true_2 by done. rewrite (core_size _ _ _ Hc), Nat2Z.id.
      destruct (mm_clearTail _ _ _ Hc1) as (s' & Hrun & Hc' & Hfr & _).
      rewrite (mm_bind_run _ _ _ (set_insertionPoint s' None) tt).
      2: { by rewrite (mm_bind_run _ _ _ _ _ Hrun). }
      eexists. split; [reflexivity|]. split_and!; try done.
      * split; [|simpl; split; [lia|by rewrite (fr_config _ _ Hfr)]].
        split_and!; [by destruct Hc'|done|done].
      * simpl. by rewrite (fr_config _ _ Hfr).
      * intros y. by apply (fr_bits _ _ Hfr).
  - eexists. split; [reflexivity|]. split_and!; try done.
    split; [|done]. split; [by destruct Hc|done].
Qed.

(** *** Access *)

Definition updatesOn (c : Config) (mode : AccessMode) : bool :=
  match mode with kWrite => updateOnWrite c | kRead => updateOnRead c end.

(** The test [recordAccess] makes before it takes the lock. *)
Definition promotes s n (mode : AccessMode) (now : Z) : bool :=
  updatesOn (config_ s) mode &&
  (bit s n linkedBit &&
   ((u32 (DList.getUpdateTime (hooks s) n + lruRefreshTime_ s) <=? u32 now)
    || negb (bit s n accessedBit))).

Definition accessMarked s n : Container A C :=
  if bit s n accessedBit then s else upd_bit s n accessedBit true.

Lemma mm_run_recordAccess (gotLock : bool) others s n mode now :
  recordAccess_env gotLock others n mode now s =
    if promotes s n mode now then
      if tryLockUpdate (config_ s) && negb gotLock
      then (Ok false, others (accessMarked s n))
      else (do! recordAccess_locked n now (u32 now) in ret true)%cl (others (accessMarked s n))
    else (Ok false, s).
Proof.
  unfold recordAccess_env, promotes. rewrite (mm_bind_run get _ s s s) by done.
  assert (Hneg : match mode with
                 | kRead => negb (updateOnRead (config_ s))
                 | kWrite => negb (updateOnWrite (config_ s))
                 end = negb (updatesOn (config_ s) mode)) by (by destruct mode).
  rewrite Hneg. destruct (updatesOn (config_ s) mode); [|done].
  cbn [negb andb]. rewrite (mm_bind_run _ _ _ _ _ (mm_run_isIn s n)).
  rewrite (mm_bind_run (getUpdateTime n) _ s s _ eq_refl).
  rewrite (mm_bind_run _ _ _ _ _ (mm_run_isAccessed s n)).
  destruct (bit s n linkedBit && _); [|done].
  rewrite (mm_bind_run _ _ s (accessMarked s n) tt)
    by (unfold accessMarked; by destruct (bit s n accessedBit)).
  rewrite (mm_bind_run (modify others) _ _ _ tt eq_refl). by destruct (tryLockUpdate (config_ s) && negb gotLock).
Qed.

Lemma mm_inv_accessed s pre suf n b :
  mm_inv s pre suf -> mm_inv (upd_bit s n accessedBit b) pre suf.
Proof.
  intros (([Hr Hl Ht Hs] & ? & ?) & ? & ?). split; [|done]. split; [split|done]; try done.
  - intros x. by rewrite bit_upd_ne, Hl by done.
  - intros x. by rewrite bit_upd_ne, Ht by done.
Qed.

Lemma mm_inv_accessMarked s pre suf n :
  mm_inv s pre suf -> mm_inv (accessMarked s n) pre suf.
Proof. unfold accessMarked. intros. case_match; [done|by apply mm_inv_accessed]. Qed.

(** ** The transition system of an LRU *)

Inductive mm_op : Type :=
| OAdd (x : A) (now : Z)
| ORemove (x : A)
| OAccess (x : A) (mode : AccessMode) (now : Z)
| OReplace (o n : A)
| OSetConfig (c : Config) (now : Z).

Definition mm_exec (op : mm_op) : M (Container A C) bool :=
  match op with
  | OAdd x now => add x now
  | ORemove x => MMLru.remove x
  | OAccess x mode now => recordAccess x mode now
  | OReplace o n => replace o n
  | OSetConfig c now => (do! setConfig c now in ret true)%cl
  end.

Fixpoint mm_run (ops : list mm_op) : M (Container A C) (list bool) :=
  match ops with
  | [] => ret []
  | op :: ops' => (let! r := mm_exec op in let! rs := mm_run ops' in ret (r :: rs))%cl
  end.

Definition mm_op_ok (op : mm_op) : Prop :=
  match op with
  | OAdd x _ | OReplace _ x => pc_valid x
  | OSetConfig c _ => 0 <= lruInsertionPointSpec c < 64 /\ ratio_ok (lruRefreshRatio c)
  | ORemove _ | OAccess _ _ _ => True
  end.

(** A state is the insertion point spec and the list in its two parts. *)
Definition a_state : Type := Z * (list A * list A).
Definition a_nodes (a : a_state) : list A := a.2.1 ++ a.2.2.

Inductive a_step : a_state -> mm_op -> bool -> a_state -> Prop :=
| as_add spec p x now :
    x ∉ p.1 ++ p.2 -> a_step (spec, p) (OAdd x now) true (spec, a_add spec x p)
| as_add_again a x now : x ∈ a_nodes a -> a_step a (OAdd x now) false a
| as_remove spec p x :
    x ∈ p.1 ++ p.2 -> a_step (spec, p) (ORemove x) true (spec, a_remove spec x p)
| as_remove_absent a x : x ∉ a_nodes a -> a_step a (ORemove x) false a
| as_access spec p x mode now :
    x ∈ p.1 ++ p.2 -> a_step (spec, p) (OAccess x mode now) true (spec, a_access spec x p)
| as_access_skip a x mode now : a_step a (OAccess x mode now) false a
| as_replace spec p o n :
    o ∈ p.1 ++ p.2 -> n ∉ p.1 ++ p.2 ->
    a_step (spec, p) (OReplace o n) true (spec, a_replace o n p)
| as_replace_no a o n :
    (o ∉ a_nodes a) \/ n ∈ a_nodes a -> a_step a (OReplace o n) false a
| as_config spec p c now :
    a_step (spec, p) (OSetConfig c now) true
      (lruInsertionPointSpec c, a_setConfig (lruInsertionPointSpec c) p).

Inductive a_steps : a_state -> list mm_op -> list bool -> a_state -> Prop :=
| a_done a : a_steps a [] [] a
| a_more a op r a' ops rs a'' :
    a_step a op r a' -> a_steps a' ops rs a'' -> a_steps a (op :: ops) (r :: rs) a''.

(** The abstraction relation. *)
Definition mm_rel s (a : a_state) : Prop :=
  mm_inv s a.2.1 a.2.2 /\ a.1 = lruInsertionPointSpec (config_ s) /\
  ratio_ok (lruRefreshRatio (config_ s)).

Lemma mm_linked s pre suf n : mm_inv s pre suf -> bit s n linkedBit = bool_decide (n ∈ pre ++ suf).
Proof. intros ((Hc & _) & _). apply Hc. Qed.

Lemma mm_exec_simulates (op : mm_op) s (a : a_state) :
  mm_rel s a -> mm_op_ok op ->
  exists r s' a', mm_exec op s = (Ok r, s') /\ a_step a op r a' /\ mm_rel s' a'.
Proof.
  destruct a as [spec [pre suf]]. intros (Hinv & Hsp & Hok) Hop. simpl in Hinv, Hsp. subst spec.
  assert (Hl := fun n => mm_linked s pre suf n Hinv).
  destruct op as [x now|x|x mode now|o n|c now]; simpl in *.
  - destruct (decide (x ∈ pre ++ suf)) as [Hx|Hx].
    + exists false, s, (lruInsertionPointSpec (config_ s), (pre, suf)). split_and!; try done.
      * unfold add. rewrite (mm_bind_run _ _ _ _ _ (mm_run_isIn s x)), Hl.
        by rewrite bool_decide_eq_true_2.
      * by constructor.
    + destruct (mm_add s pre suf x now Hinv Hop Hx) as (s' & Hrun & Hinv' & Hcfg & _).
      eexists true, s', _. split_and!; [done|by constructor|]. split_and!; simpl; by rewrite ?Hcfg.
  - unfold MMLru.remove. rewrite (mm_bind_run _ _ _ _ _ (mm_run_isIn s x)), Hl. case_bool_decide as Hx.
    + destruct (mm_removeLocked s pre suf x Hinv Hx) as (s' & Hrun & Hinv' & Hcfg & _).
      rewrite (mm_bind_run _ _ _ _ _ Hrun).
      eexists true, s', _. split_and!; [done|by constructor|]. split_and!; simpl; by rewrite ?Hcfg.
    + eexists false, s, _. split_and!; [done|by constructor|done].
  - unfold recordAccess. rewrite mm_run_recordAccess, andb_false_r. unfold id.
    destruct (promotes s x mode now) eqn:Hp.
    + assert (Hx : x ∈ pre ++ suf).
      { unfold promotes in Hp. rewrite Hl in Hp. case_bool_decide; [done|].
        by rewrite andb_false_r in Hp. }
      destruct (mm_access_in (accessMarked s x) pre suf x now (u32 now)) as (s' & Hrun & Hinv' & Hcfg & _).
      { by apply mm_inv_accessMarked. }
      { unfold accessMarked. by case_match. }
      { done. }
      assert (Hc0 : config_ (accessMarked s x) = config_ s) by (unfold accessMarked; by case_match).
      rewrite (mm_bind_run _ _ _ _ _ Hrun). rewrite Hc0 in *.
      eexists true, s', _. split_and!; [done|by constructor|]. split_and!; simpl; by rewrite ?Hcfg.
    + eexists false, s, _. split_and!; [done|by constructor|done].
  - destruct (decide (o ∈ pre ++ suf /\ n ∉ pre ++ suf)) as [[Ho Hn]|Hno].
    + destruct (mm_replace s pre suf o n Hinv Hop Ho Hn) as (s' & Hrun & Hinv' & Hcfg & _).
      eexists true, s', _. split_and!; [done|by constructor|]. split_and!; simpl; by rewrite ?Hcfg.
    + rewrite mm_run_replace, !Hl.
      assert (negb (bool_decide (o ∈ pre ++ suf)) || bool_decide (n ∈ pre ++ suf) = true) as ->
        by (repeat case_bool_decide; naive_solver).
      exists false, s, (lruInsertionPointSpec (config_ s), (pre, suf)).
      split_and!; [done| |done]. constructor. unfold a_nodes; simpl.
      destruct (decide (o ∈ pre ++ suf)), (decide (n ∈ pre ++ suf)); naive_solver.
  - destruct (mm_setConfig s pre suf c now Hinv (proj1 Hop)) as (s' & Hrun & Hinv' & Hcfg & _).
    rewrite (mm_bind_run _ _ _ _ _ Hrun).
    eexists true, s', _. split_and!; [done|by constructor|]. split_and!; simpl; rewrite ?Hcfg; [done|done|apply Hop].
Qed.

Lemma mm_run_simulates (ops : list mm_op) s (a : a_state) :
  mm_rel s a -> Forall mm_op_ok ops ->
  exists rs s' a', mm_run ops s = (Ok rs, s') /\ a_steps a ops rs a' /\ mm_rel s' a'.
Proof.
  revert s a. induction ops as [|op ops IH]; intros s a Hrel Hops.
  - exists [], s, a. split_and!; [done|constructor|done].
  - inversion_clear Hops as [|? ? Hop Hops'].
    destruct (mm_exec_simulates op s a Hrel Hop) as (r & s1 & a1 & Hr & Hs & Hrel1).
    destruct (IH s1 a1 Hrel1 Hops') as (rs & s2 & a2 & Hr2 & Hs2 & Hrel2).
    exists (r :: rs), s2, a2. split_and!; [|by econstructor|done].
    simpl. by rewrite (mm_bind_run _ _ _ _ _ Hr), (mm_bind_run _ _ _ _ _ Hr2).
Qed.

End Invariant.
