(* ===== verification/MMLruSpec.v ===== *)
(** * The LRU eviction container: theorems

    What [MMLru::Container] promises its callers, from the refinement of
    [MMLruProofs]. *)

From S2P Require Import Double.
From S2P Require Import Prelude PtrCompressor.
From S2P Require Refcount.
From S2P Require DList.
From S2P Require Import MMLru MMLruProofs.
From stdpp Require Import base tactics numbers gmap list.

#[local] Open Scope Z_scope.
#[local] Open Scope cachelib_scope.

(** ** A zero refresh ratio never overflows the refresh time *)

Lemma digits2_shift (m d : positive) :
  digits2_pos (Pos.iter xO m d) = (digits2_pos m + d)%positive.
Proof.
  induction d as [|d IH] using Pos.peano_ind.
  - simpl. lia.
  - rewrite Pos.iter_succ. simpl. rewrite IH. lia.
Qed.

Lemma digits2_bound (m : positive) (k : Z) :
  0 <= k -> Zpos m < 2 ^ k -> Zpos (digits2_pos m) <= k.
Proof.
  revert k. induction m as [m IH|m IH|]; intros k Hk Hm; simpl.
  1,2: destruct (Z.eq_dec k 0) as [->|Hk0]; [simpl in Hm; lia|];
    replace k with (Z.succ (k - 1)) in Hm by lia; rewrite Z.pow_succ_r in Hm by lia;
    specialize (IH (k - 1) ltac:(lia) ltac:(lia)); lia.
  destruct (Z.eq_dec k 0) as [->|]; [simpl in Hm; lia|lia].
Qed.

Lemma shr_fexp_normal (m : positive) (e : Z) :
  fexp 53 1024 (Zpos (digits2_pos m) + e) = e ->
  shr_fexp 53 1024 (Zpos m) e loc_Exact = (Build_shr_record (Zpos m) false false, e).
Proof. intros He. unfold shr_fexp. simpl Zdigits2. rewrite He, Z.sub_diag. done. Qed.

Lemma double_of_u64_finite (a : Z) :
  0 < a < 2 ^ 53 -> exists m e, double_of_u64 a = S754_finite false m e.
Proof.
  intros Ha. destruct a as [|m|m]; try lia.
  assert (HD : Zpos (digits2_pos m) <= 53) by (apply digits2_bound; lia).
  unfold double_of_u64, binary_normalize, binary_round.
  set (D := digits2_pos m) in *.
  assert (HE : fexp 53 1024 (Zpos D + 0) = Zpos D - 53) by (unfold fexp, emin; lia).
  rewrite HE. unfold shl_align. rewrite Z.sub_0_r.
  assert (Hn : forall mz ez, fexp 53 1024 (Zpos (digits2_pos mz) + ez) = ez -> ez <= 0 ->
    exists m' e', binary_round_aux 53 1024 false (Zpos mz) ez loc_Exact = S754_finite false m' e').
  { intros mz ez Hz Hle. unfold binary_round_aux. rewrite shr_fexp_normal by done.
    simpl. rewrite shr_fexp_normal by done. simpl.
    exists mz, ez. destruct (Z.leb_spec ez (1024 - 53)); [done|lia]. }
  destruct (Zpos D - 53) as [|p|p] eqn:Ep; [| lia|].
  - apply Hn; [fold D; rewrite HE; lia|lia].
  - apply Hn; [|lia]. rewrite digits2_shift. fold D. unfold fexp, emin. lia.
Qed.

Lemma ratio_ok_zero (b : bool) : ratio_ok (S754_zero b).
Proof.
  intros a Ha. unfold is_u32 in Ha. exists 0. destruct (Z.eq_dec a 0) as [->|Hne]; [done|].
  destruct (double_of_u64_finite a) as (m & e & ->); [lia|]. done.
Qed.

Section Theorems.

Context {A C : Type} `{Countable A} `{PC : PtrCompressor A C} `{!PtrCompressorLaws A C}.
Implicit Types (s : Container A C) (l pre suf : list A) (x n : A).

Definition spec_of s : Z := lruInsertionPointSpec (config_ s).

(** A store in which no node is linked or marked. *)
Definition fresh_refs (rf : gmap A Refcount.Value) : Prop :=
  forall x, Z.testbit (default 0 (rf !! x)) linkedBit = false /\
            Z.testbit (default 0 (rf !! x)) tailBit = false.

Lemma mm_inv_make (hk : DList.heap A C) rf c now :
  fresh_refs rf -> 0 <= lruInsertionPointSpec c < 64 ->
  mm_inv (makeContainer hk rf c now) [] [].
Proof.
  intros Hf Hc. split; [|simpl; split; [lia|done]]. split_and!; [|done|done]. split.
  - apply DList.dl_rep_empty.
  - intros x. rewrite bool_decide_eq_false_2 by set_solver. apply Hf.
  - intros x. rewrite bool_decide_eq_false_2 by set_solver. apply Hf.
  - done.
Qed.

(** C8. The container implements an LRU with an insertion point: from an empty
    container, any sequence of add, remove, access, replace and setConfig
    calls returns without undefined behaviour, its results and its list are
    those of the transition system on a list cut in two, the insertion point
    is the first node of the second part, the nodes with the tail flag are
    exactly that part and [tailSize_] is its length, and the eviction iterator
    visits the list from its end to its front. *)
Theorem mmlru_refines_lru (hk : DList.heap A C) rf (c : Config) (now : Z) (ops : list mm_op) :
  fresh_refs rf -> 0 <= lruInsertionPointSpec c < 64 -> ratio_ok (lruRefreshRatio c) ->
  Forall mm_op_ok ops ->
  exists rs s' a',
    mm_run ops (makeContainer hk rf c now) = (Ok rs, s') /\
    a_steps (lruInsertionPointSpec c, ([], [])) ops rs a' /\
    mm_inv s' a'.2.1 a'.2.2 /\
    DList.visit (length (a_nodes a')) (hooks s') (DList.rbegin (lru_ s')) =
      (reverse (a_nodes a'), DList.rend).
Proof.
  intros Hf Hc Hr Hops.
  destruct (mm_run_simulates ops (makeContainer hk rf c now)
    (lruInsertionPointSpec c, ([], []))) as (rs & s' & a' & Hrun & Hsteps & Hrel); [|done|].
  { split_and!; [by apply mm_inv_make|done|done]. }
  exists rs, s', a'. split_and!; try done; [apply Hrel|].
  destruct Hrel as (((Hcore & _) & _) & _). pose proof (core_rep _ _ _ Hcore) as Hrep.
  pose proof Hrep as (_ & _ & _ & _ & Htl & _). unfold DList.rbegin, a_nodes. rewrite Htl.
  apply (DList.dl_visit_backward (hooks s') (lru_ s') _ []). by rewrite app_nil_r.
Qed.

Lemma access_front spec n pre suf :
  (a_access spec n (pre, suf)).1 ++ (a_access spec n (pre, suf)).2 =
    n :: DList.without n (pre ++ suf).
Proof.
  unfold a_access; simpl. rewrite without_app. case_decide as Hn; simpl.
  - by rewrite take_drop.
  - by rewrite (DList.without_notin n suf).
Qed.

Lemma access_promotes s pre suf n mode now :
  mm_inv s pre suf -> ratio_ok (lruRefreshRatio (config_ s)) ->
  promotes s n mode now = true ->
  exists s', recordAccess n mode now s = (Ok true, s') /\
    (let p := a_access (spec_of s) n (pre, suf) in mm_inv s' p.1 p.2) /\
    config_ s' = config_ s /\ DList.getUpdateTime (hooks s') n = u32 now /\
    bit s' n accessedBit = true.
Proof.
  intros Hinv Hr Hp. unfold recordAccess. rewrite mm_run_recordAccess, Hp, andb_false_r. unfold id.
  assert (Hn : n ∈ pre ++ suf).
  { unfold promotes in Hp. rewrite (mm_linked _ _ _ _ Hinv) in Hp. case_bool_decide; [done|].
    by rewrite andb_false_r in Hp. }
  assert (Hcfg : config_ (accessMarked s n) = config_ s) by (unfold accessMarked; by case_match).
  destruct (mm_access_in (accessMarked s n) pre suf n now (u32 now))
    as (s' & Hrun & Hinv' & Hc' & Ht' & Ha').
  { by apply mm_inv_accessMarked. } { by rewrite Hcfg. } { done. }
  exists s'. rewrite (mm_bind_run _ _ _ _ _ Hrun). rewrite Hcfg in *. split_and!; try done.
  rewrite Ha'. unfold accessMarked. destruct (bit s n accessedBit) eqn:E; [done|].
  by rewrite bit_upd, decide_True by done.
Qed.

(** An access is recorded exactly when the configuration promotes this kind
    of access, the node is in the container, and its refresh window has passed
    or it was never accessed: then the call returns true, the node is at the
    front of the list with the other nodes in their order behind it, its
    update time is now and it is marked accessed.  Otherwise it returns false
    and nothing changes. *)
Theorem mmlru_record_access s pre suf n (mode : AccessMode) (now : Z) :
  mm_inv s pre suf -> ratio_ok (lruRefreshRatio (config_ s)) ->
  if promotes s n mode now then
    exists s' pre' suf', recordAccess n mode now s = (Ok true, s') /\
      mm_inv s' pre' suf' /\ pre' ++ suf' = n :: DList.without n (pre ++ suf) /\
      DList.getUpdateTime (hooks s') n = u32 now /\ bit s' n accessedBit = true
  else recordAccess n mode now s = (Ok false, s).
Proof.
  intros Hinv Hr. destruct (promotes s n mode now) eqn:Hp.
  - destruct (access_promotes _ _ _ _ _ _ Hinv Hr Hp) as (s' & Hrun & Hinv' & _ & Ht & Ha).
    eexists s', _, _. split_and!; [done|exact Hinv'|apply access_front|done|done].
  - unfold recordAccess. by rewrite mm_run_recordAccess, Hp.
Qed.

(** Delayed promotion: after an access that promoted a node, the node is
    not promoted again before its refresh time has passed, whatever the kind
    of access. *)
Theorem mmlru_promoted_once_per_window s pre suf n (mode mode' : AccessMode) (now now' : Z) s' :
  mm_inv s pre suf -> ratio_ok (lruRefreshRatio (config_ s)) ->
  recordAccess n mode now s = (Ok true, s') ->
  u32 now + lruRefreshTime_ s' < 2 ^ 32 -> 0 <= lruRefreshTime_ s' ->
  u32 now' < u32 now + lruRefreshTime_ s' ->
  recordAccess n mode' now' s' = (Ok false, s').
Proof.
  intros Hinv Hr Hrun Hov Hpos Hlt. destruct (promotes s n mode now) eqn:Hp.
  - destruct (access_promotes _ _ _ _ _ _ Hinv Hr Hp) as (s1 & Hrun1 & _ & _ & Ht & Ha).
    rewrite Hrun in Hrun1. injection Hrun1 as <-. unfold recordAccess.
    rewrite mm_run_recordAccess. unfold promotes. rewrite Ht, Ha, orb_false_r.
    pose proof (u32_range now). unfold is_u32 in *. rewrite u32_small by (unfold is_u32; lia).
    destruct (Z.leb_spec (u32 now + lruRefreshTime_ s') (u32 now')); [lia|].
    by rewrite !andb_false_r.
  - revert Hrun. unfold recordAccess. by rewrite mm_run_recordAccess, Hp.
Qed.

Lemma tail_target_le spec (k : nat) :
  0 <= spec -> (1 <= k)%nat -> (tail_target spec k <= k)%nat.
Proof.
  intros Hs Hk. unfold tail_target. case_cmp; [lia|]. case_decide; [lia|].
  rewrite Z.shiftr_div_pow2 by done. assert (Z.of_nat k / 2 ^ spec <= Z.of_nat k); [|lia].
  assert (0 < 2 ^ spec) by lia. apply Z.div_le_upper_bound; nia.
Qed.

(** A new node goes to the insertion point: it is placed right before the
    [tailSize_] last nodes (at the front when there is no insertion point),
    unaccessed and with the current time, and afterwards the tail part has
    [size >> lruInsertionPointSpec] nodes (at least one, none without an
    insertion point).  Adding a node twice changes nothing. *)
Theorem mmlru_add_position s pre suf n (now : Z) :
  mm_inv s pre suf -> pc_valid n ->
  let l := pre ++ suf in
  if decide (n ∈ l) then add n now s = (Ok false, s)
  else exists s' pre' suf', add n now s = (Ok true, s') /\ mm_inv s' pre' suf' /\
    (let k := (length l - Z.to_nat (tailSize_ s))%nat in
     pre' ++ suf' = if tailSize_ s =? 0 then n :: l else take k l ++ n :: drop k l) /\
    tailSize_ s' = Z.of_nat (tail_target (spec_of s) (S (length l))) /\
    DList.getUpdateTime (hooks s') n = u32 now /\ bit s' n accessedBit = false.
Proof.
  intros Hinv Hv l. case_decide as Hn.
  - unfold add. rewrite (mm_bind_run _ _ _ _ _ (mm_run_isIn s n)), (mm_linked _ _ _ _ Hinv).
    by rewrite bool_decide_eq_true_2.
  - destruct (mm_add s pre suf n now Hinv Hv Hn) as (s' & Hrun & Hinv' & _ & Ht & Ha & _).
    eexists s', _, _. split_and!; [done|exact Hinv'| | |done|done].
    + pose proof Hinv as ((Hc & _) & _). rewrite (core_size _ _ _ Hc), Nat2Z.id.
      unfold l, a_add, rebalance; cbn [fst snd]. rewrite take_drop.
      rewrite length_app, Nat.add_sub, take_app_length, drop_app_length.
      destruct suf as [|c suf]; simpl; [by rewrite app_nil_r|].
      destruct (Z.eqb_spec (Z.of_nat (S (length suf))) 0); [lia|]. by rewrite <- app_assoc.
    + destruct Hinv' as ((Hc' & _) & _). rewrite (core_size _ _ _ Hc'). f_equal.
      unfold a_add, rebalance; cbn [fst snd]. fold (spec_of s). rewrite length_drop.
      assert (Hlen : (length (match suf with [] => (n :: pre, []) | _ => (pre ++ [n], suf) end).1
        + length (match suf with [] => (n :: pre, []) | _ => (pre ++ [n], suf) end).2 = S (length l))%nat).
      { unfold l. destruct suf; simpl; rewrite ?length_app; simpl; lia. }
      rewrite length_app, Hlen. assert (tail_target (spec_of s) (S (length l)) <= S (length l))%nat.
      { apply tail_target_le; [apply Hinv|lia]. }
      lia.
Qed.

(** The race in [recordAccess]: whatever the other threads do between the
    unlocked test and the critical section (adding, removing, promoting, this
    node included), the critical section leaves the container consistent: the
    node is promoted if it is still in the container, and otherwise the list
    is left as the other threads made it. *)
Theorem mmlru_access_race s n (mode : AccessMode) (now : Z) (gotLock : bool)
    (others : Container A C -> Container A C) pre2 suf2 :
  mm_inv (others (accessMarked s n)) pre2 suf2 ->
  ratio_ok (lruRefreshRatio (config_ (others (accessMarked s n)))) ->
  promotes s n mode now = true ->
  exists s', recordAccess_env gotLock others n mode now s =
      (Ok (negb (tryLockUpdate (config_ s)) || gotLock), s') /\
    if tryLockUpdate (config_ s) && negb gotLock then mm_inv s' pre2 suf2
    else if decide (n ∈ pre2 ++ suf2)
    then exists pre' suf', mm_inv s' pre' suf' /\
           pre' ++ suf' = n :: DList.without n (pre2 ++ suf2)
    else mm_inv s' pre2 suf2.
Proof.
  intros Hinv Hr Hp. rewrite mm_run_recordAccess, Hp.
  destruct (tryLockUpdate (config_ s) && negb gotLock) eqn:Hl.
  - eexists. split; [|done]. by destruct (tryLockUpdate (config_ s)), gotLock.
  - assert (Hres : negb (tryLockUpdate (config_ s)) || gotLock = true)
      by (by destruct (tryLockUpdate (config_ s)), gotLock).
    rewrite Hres. case_decide as Hn.
    + destruct (mm_access_in _ _ _ n now (u32 now) Hinv Hr Hn) as (s' & Hrun & Hinv' & _).
      exists s'. rewrite (mm_bind_run _ _ _ _ _ Hrun). split; [done|].
      eexists _, _. split; [exact Hinv'|]. apply access_front.
    + destruct (mm_access_out _ _ _ n now (u32 now) Hinv Hr Hn) as (s' & Hrun & Hinv').
      exists s'. by rewrite (mm_bind_run _ _ _ _ _ Hrun).
Qed.

(** Saving and restoring a container over the same nodes gives back the
    list, the insertion point and the tail size, and makes the same promotion
    decisions.  What is not saved: the refresh time in force becomes the default
    one, and periodic reconfiguration is off until the next [setConfig]. *)
Theorem mmlru_save_restore s pre suf (now : Z) :
  mm_inv s pre suf ->
  let s' := restoreContainer (hooks s) (refs s) (saveState s) now in
  mm_inv s' pre suf /\ lru_ s' = lru_ s /\ insertionPoint_ s' = insertionPoint_ s /\
  tailSize_ s' = tailSize_ s /\ lruRefreshTime_ s' = lruRefreshTime_ s /\
  defaultLruRefreshTime (config_ s') = lruRefreshTime_ s /\
  nextReconfigureTime_ s' = Time_max /\
  (forall n mode t, promotes s' n mode t = promotes s n mode t).
Proof.
  intros ((Hc & Hip & Hz) & Hone & Hspec) s'.
  pose proof (core_rep _ _ _ Hc) as (_ & Hv & _ & Hh & Ht & _).
  assert (Hl : lru_ s' = lru_ s).
  { simpl. assert (Hhd : pc_ok (DList.head_ (lru_ s))) by (rewrite Hh; by apply DList.valid_head).
    assert (Htl : pc_ok (DList.tail_ (lru_ s))) by (rewrite Ht; by apply DList.valid_last).
    destruct (lru_ s) as [hd tl sz]. unfold DList.restore, DList.saveState; simpl in *.
    by rewrite !pc_restore_save, !pc_unCompress_compress. }
  assert (Hi : insertionPoint_ s' = insertionPoint_ s).
  { simpl. assert (pc_ok (insertionPoint_ s)).
    { rewrite Hip. apply DList.valid_head. by apply Forall_app in Hv as [_ ?]. }
    by rewrite pc_restore_save, pc_unCompress_compress. }
  assert (Hu : lruInsertionPointSpec (config_ s') = lruInsertionPointSpec (config_ s)).
  { simpl. apply u8_small. unfold is_u8. lia. }
  split_and!; try done. split; [|by rewrite Hu]. split_and!.
  - destruct Hc as [Hr Hlk Htl Hs]. split; try done. by rewrite Hl.
  - by rewrite Hi.
  - by rewrite Hu.
Qed.

End Theorems.

(** ** A concrete container *)

Lemma mm_inv_after_add {A C} `{Countable A} `{PC : PtrCompressor A C} `{!PtrCompressorLaws A C}
    (s : Container A C) pre suf n now :
  mm_inv s pre suf -> pc_valid n -> n ∉ pre ++ suf ->
  forall pre' suf', a_add (spec_of s) n (pre, suf) = (pre', suf') ->
  mm_inv (state_of (add n now) s) pre' suf'.
Proof.
  intros Hinv Hv Hn pre' suf' Hp.
  destruct (mm_add s pre suf n now Hinv Hv Hn) as (s' & Hrun & Hinv' & _).
  unfold state_of. rewrite Hrun. unfold spec_of in Hp. by rewrite Hp in Hinv'.
Qed.

Definition demo_config : Config :=
  makeConfig 60 (S754_zero false) false true false 1 0 false.

Definition demo_container : Container positive Z :=
  state_of (add 3%positive 102) (state_of (add 2%positive 101)
    (state_of (add 1%positive 100) (makeContainer ∅ ∅ demo_config 50))).

Lemma demo_inv : mm_inv demo_container [2; 3]%positive [1]%positive.
Proof.
  unfold demo_container.
  apply (mm_inv_after_add _ [2]%positive [1]%positive); [|done|by compute_done|by vm_compute].
  apply (mm_inv_after_add _ []%positive [1]%positive); [|done|by compute_done|by vm_compute].
  apply (mm_inv_after_add _ [] []); [|done|by compute_done|by vm_compute].
  apply mm_inv_make; [done|simpl; lia].
Qed.

Lemma mmlru_refines_lru_witness :
  exists rs s' a',
    mm_run (C := Z) [OAdd 1 100; OAdd 2 101; OAdd 3 102; OAccess 1 kRead 110; ORemove 3;
            OReplace 2 4; OAdd 4 120]%positive
      (makeContainer ∅ ∅ demo_config 50) = (Ok rs, s') /\
    rs = [true; true; true; true; true; true; false] /\
    DList.visit (length (a_nodes a')) (hooks s') (DList.rbegin (lru_ s')) =
      (reverse (a_nodes a'), DList.rend).
Proof.
  destruct (mmlru_refines_lru (C := Z) ∅ ∅ demo_config 50
    [OAdd 1 100; OAdd 2 101; OAdd 3 102; OAccess 1 kRead 110; ORemove 3;
     OReplace 2 4; OAdd 4 120]%positive) as (rs & s' & a' & Hrun & _ & _ & Hv).
  - done.
  - simpl; lia.
  - apply ratio_ok_zero.
  - repeat constructor.
  - exists rs, s', a'. split; [exact Hrun|]. split; [|exact Hv].
    apply (f_equal fst) in Hrun. vm_compute in Hrun. by injection Hrun as <-.
Defined.

Lemma mmlru_record_access_witness :
  exists s' pre' suf', recordAccess 1%positive kRead 110 demo_container = (Ok true, s') /\
    mm_inv s' pre' suf' /\ pre' ++ suf' = [1; 2; 3]%positive /\
    DList.getUpdateTime (hooks s') 1%positive = 110 /\ bit s' 1%positive accessedBit = true.
Proof.
  exact (mmlru_record_access demo_container _ _ 1%positive kRead 110 demo_inv
    (ratio_ok_zero false)).
Defined.

Lemma mmlru_promoted_once_per_window_witness :
  let s' := state_of (recordAccess 1%positive kRead 110) demo_container in
  recordAccess 1%positive kRead 169 s' = (Ok false, s').
Proof.
  intros s'. apply (mmlru_promoted_once_per_window demo_container [2; 3]%positive [1]%positive
    1%positive kRead kRead 110 169 s').
  - apply demo_inv.
  - apply ratio_ok_zero.
  - by vm_compute.
  - by vm_compute.
  - by vm_compute.
  - by vm_compute.
Defined.

Lemma mmlru_add_position_witness :
  exists s' pre' suf', add 4%positive 103 demo_container = (Ok true, s') /\
    mm_inv s' pre' suf' /\ pre' ++ suf' = [2; 3; 4; 1]%positive /\ tailSize_ s' = 2 /\
    DList.getUpdateTime (hooks s') 4%positive = 103 /\ bit s' 4%positive accessedBit = false.
Proof.
  exact (mmlru_add_position demo_container _ _ 4%positive 103 demo_inv I).
Defined.

Lemma demo_removed_inv :
  mm_inv (state_of (MMLru.remove 1%positive) (accessMarked demo_container 1%positive))
    [2]%positive [3]%positive.
Proof.
  set (s := accessMarked demo_container 1%positive).
  assert (Hb : bit s 1%positive linkedBit = true) by (by vm_compute).
  assert (Ha : a_remove (lruInsertionPointSpec (config_ s)) 1%positive ([2; 3], [1])%positive
               = ([2], [3])%positive) by (by vm_compute).
  destruct (mm_removeLocked s _ _ 1%positive (mm_inv_accessMarked _ _ _ _ demo_inv))
    as (s' & Hrun & Hinv & _); [by compute_done|].
  rewrite Ha in Hinv. unfold state_of, MMLru.remove.
  rewrite (mm_bind_run _ _ _ _ _ (mm_run_isIn _ _)), Hb.
  by rewrite (mm_bind_run _ _ _ _ _ Hrun).
Qed.

Lemma mmlru_access_race_witness :
  exists s', recordAccess_env true (state_of (MMLru.remove 1%positive)) 1%positive kRead 110
      demo_container = (Ok true, s') /\ mm_inv s' [2]%positive [3]%positive.
Proof.
  refine (mmlru_access_race demo_container 1%positive kRead 110 true
    (state_of (MMLru.remove 1%positive)) [2]%positive [3]%positive demo_removed_inv _ _).
  - apply ratio_ok_zero.
  - by vm_compute.
Defined.

Lemma mmlru_save_restore_witness :
  lru_ (restoreContainer (hooks demo_container) (refs demo_container)
          (saveState demo_container) 500) = lru_ demo_container.
Proof. apply (mmlru_save_restore demo_container _ _ 500 demo_inv). Defined.
