(* ===== verification/SList.v ===== *)
(** * Intrusive singly-linked list

    Models [SListHook] and [SList] (cachelib/allocator/datastruct/SList.h).
    [heap] maps a node's address to the compressed pointer in its hook.  Each
    operation refines an operation on the list of the nodes from the head on;
    the free lists of the allocation classes are these lists. *)

From S2P Require Import Prelude PtrCompressor.

#[local] Open Scope Z_scope.

Abbreviation heap A C := (gmap A C).

Section SList.

Context {A C : Type} `{Countable A} `{PC : PtrCompressor A C}.
#[local] Abbreviation heap := (heap A C).

Record SList : Type := mkSList {
  size_ : Z;
  head_ : option A;
  tail_ : option A
}.

Definition slist0 : SList := mkSList 0 None None.

Record SListObject : Type := mkSListObject {
  compressedHead : Z;
  compressedTail : Z;
  obj_size : Z
}.

(** A hook that was never written holds the null pointer. *)
Definition getNext (h : heap) (n : A) : option A :=
  match h !! n with Some c => pc_unCompress c | None => None end.
Definition setNext (h : heap) (n : A) (p : option A) : heap := <[n := pc_compress p]> h.

Definition empty (d : SList) : bool := size_ d =? 0.
Definition size (d : SList) : Z := size_ d.
Definition getHead (d : SList) : option A := if empty d then None else head_ d.

Definition is_null (p : option A) : bool := match p with None => true | Some _ => false end.

Definition checkStateOrThrow (d : SList) : res unit :=
  if ((size_ d =? 0) && negb (is_null (head_ d))) || (is_null (head_ d) && negb (size_ d =? 0))
  then Throw InvalidArgument
  else if xorb (is_null (head_ d)) (is_null (tail_ d)) then Throw InvalidArgument
  else Ok tt.

Definition insert (node : A) (s : heap * SList) : heap * SList :=
  let '(h, d) := s in
  let h := setNext h node (head_ d) in
  let tail := match tail_ d with None => Some node | t => t end in
  (h, mkSList (size_ d + 1) (Some node) tail).

Definition pop (s : heap * SList) : res unit * (heap * SList) :=
  let '(h, d) := s in
  if empty d then (Throw LogicError, s)
  else
    match head_ d with
    | None => (Throw UndefinedBehavior, s)
    | Some node =>
        let head := getNext h node in
        let tail := if is_null head then None else tail_ d in
        let d := mkSList (size_ d - 1) head tail in
        match checkStateOrThrow d with
        | Throw e => (Throw e, (h, d))
        | Ok _ => (Ok tt, (setNext h node None, d))
        end
    end.

(** [splice(other)]: the nodes of [other] go to the front and [other] becomes
    empty. *)
Definition splice (other : SList) (s : heap * SList) : res SList * (heap * SList) :=
  let '(h, d) := s in
  if empty other then (Ok other, s)
  else
    match tail_ other with
    | None => (Throw UndefinedBehavior, s)
    | Some t =>
        let h := setNext h t (head_ d) in
        let tail := match tail_ d with None => tail_ other | x => x end in
        (Ok slist0, (h, mkSList (size_ d + size other) (head_ other) tail))
    end.

(** ** Iterator *)

Record Iterator : Type := mkIterator {
  curr_ : option A;
  prev_ : option A
}.

Definition begin_ (d : SList) : Iterator := mkIterator (head_ d) None.
Definition end_ : Iterator := mkIterator None None.
Definition goForward (h : heap) (c : A) : Iterator := mkIterator (getNext h c) (Some c).
Definition incr (h : heap) (it : Iterator) : Iterator :=
  match curr_ it with Some c => goForward h c | None => it end.

Definition remove (it : Iterator) (s : heap * SList) : res Iterator * (heap * SList) :=
  let '(h, d) := s in
  match curr_ it with
  | None => (Throw LogicError, s)
  | Some curr =>
      let next := getNext h curr in
      match prev_ it with
      | None =>
          match pop s with
          | (Throw e, s') => (Throw e, s')
          | (Ok _, s') => (Ok (mkIterator next None), s')
          end
      | Some p =>
          let h := setNext h p next in
          let tail := if decide (tail_ d = Some curr) then Some p else tail_ d in
          let d := mkSList (size_ d - 1) (head_ d) tail in
          match checkStateOrThrow d with
          | Throw e => (Throw e, (h, d))
          | Ok _ => (Ok (mkIterator next (Some p)), (setNext h curr None, d))
          end
      end
  end.

(** ** Saving and restoring *)

Definition saveState (d : SList) : SListObject := {|
  compressedHead := pc_saveState (pc_compress (head_ d));
  compressedTail := pc_saveState (pc_compress (tail_ d));
  obj_size := size_ d
|}.

(** The walk to the tail, for states saved without one. *)
Fixpoint walkToTail (fuel : nat) (h : heap) (n : A) : A :=
  match fuel, getNext h n with
  | S fuel', Some m => walkToTail fuel' h m
  | _, _ => n
  end.

Definition restore (h : heap) (o : SListObject) : res SList :=
  let head := pc_unCompress (pc_restore (compressedHead o)) in
  let tail :=
    if 0 <=? compressedTail o then pc_unCompress (pc_restore (compressedTail o))
    else match head with
         | Some n => Some (walkToTail (Z.to_nat (obj_size o)) h n)
         | None => None
         end in
  let d := mkSList (obj_size o) head tail in
  match checkStateOrThrow d with Ok _ => Ok d | Throw e => Throw e end.

End SList.
Arguments SList : clear implicits.
Arguments Iterator : clear implicits.

(** ** Representation *)

Section Representation.

Context {A C : Type} `{Countable A} `{PC : PtrCompressor A C} `{!PtrCompressorLaws A C}.
Implicit Types (h : heap A C) (d : SList A) (l : list A).

Fixpoint sl_linked h l : Prop :=
  match l with
  | [] => True
  | x :: l' => getNext h x = head l' /\ sl_linked h l'
  end.

Definition sl_rep h d l : Prop :=
  NoDup l /\ Forall pc_valid l /\ sl_linked h l /\
  head_ d = head l /\ tail_ d = last l /\ size_ d = Z.of_nat (length l).

Lemma sl_getNext_setNext h n p x :
  pc_ok p -> getNext (setNext h n p) x = if decide (x = n) then p else getNext h x.
Proof.
  intros Hp. unfold getNext, setNext. case_decide as E.
  - subst. rewrite lookup_insert_eq. by apply pc_unCompress_compress.
  - by rewrite lookup_insert_ne.
Qed.

Lemma sl_linked_ext h h' l :
  (forall x, x ∈ l -> getNext h' x = getNext h x) -> sl_linked h l -> sl_linked h' l.
Proof.
  induction l as [|x l IH]; simpl; [done|]. intros He [Hx Hl].
  rewrite He by set_solver. split; [done|]. apply IH; [|done]. set_solver.
Qed.

Lemma sl_ok_head l : Forall pc_valid l -> pc_ok (head l).
Proof. destruct l; [done|]. by intros [? _]%Forall_cons. Qed.

Lemma sl_ok_last l : Forall pc_valid l -> pc_ok (last l).
Proof.
  intros Hl. destruct (last l) as [x|] eqn:E; simpl; [|done].
  apply last_Some_elem_of in E. by eapply Forall_forall in Hl.
Qed.

Lemma sl_check_ok d l : head_ d = head l -> tail_ d = last l ->
  size_ d = Z.of_nat (length l) -> checkStateOrThrow d = Ok tt.
Proof.
  intros Hh Ht Hs. unfold checkStateOrThrow. rewrite Hh, Ht, Hs.
  destruct l as [|x l]; [done|]. simpl head. cbn [is_null negb].
  destruct (last (x :: l)) as [y|] eqn:E; [|by apply last_None in E].
  destruct (Z.eqb_spec (Z.of_nat (length (x :: l))) 0); [simpl in *; lia|done].
Qed.

Lemma sl_rep_empty h : sl_rep h slist0 [].
Proof. split_and!; try done. apply NoDup_nil_2. Qed.

Lemma sl_rep_getHead h d l : sl_rep h d l -> getHead d = head l.
Proof.
  intros (_ & _ & _ & Hh & _ & Hs). unfold getHead, empty. rewrite Hs, Hh. by destruct l.
Qed.

Lemma sl_rep_insert h d l x :
  sl_rep h d l -> pc_valid x -> x ∉ l ->
  sl_rep (insert x (h, d)).1 (insert x (h, d)).2 (x :: l).
Proof.
  intros (Hnd & Hv & Hl & Hh & Ht & Hs) Hx Hni. unfold insert; simpl.
  assert (Hok : pc_ok (head_ d)) by (rewrite Hh; by apply sl_ok_head).
  split_and!; simpl.
  - by apply NoDup_cons.
  - by apply Forall_cons.
  - rewrite sl_getNext_setNext, decide_True by done. split; [done|].
    eapply sl_linked_ext; [|done]. intros y Hy.
    rewrite sl_getNext_setNext, decide_False by (done || set_solver). done.
  - done.
  - rewrite Ht. destruct l as [|y l]; [done|]. change (last (x :: y :: l)) with (last (y :: l)).
    destruct (last (y :: l)) eqn:E; [done|by apply last_None in E].
  - lia.
Qed.

Lemma sl_rep_pop h d l :
  sl_rep h d l ->
  match l with
  | [] => pop (h, d) = (Throw LogicError, (h, d))
  | x :: l' => exists h' d', pop (h, d) = (Ok tt, (h', d')) /\ sl_rep h' d' l' /\
                 getNext h' x = None
  end.
Proof.
  intros (Hnd & Hv & Hl & Hh & Ht & Hs). unfold pop, empty. rewrite Hs.
  destruct l as [|x l]; [done|].
  destruct (Z.eqb_spec (Z.of_nat (length (x :: l))) 0); [simpl in *; lia|].
  simpl in Hh. rewrite Hh. destruct Hl as [Hnx Hl]. rewrite Hnx.
  apply NoDup_cons in Hnd as [Hni Hnd]. apply Forall_cons in Hv as [_ Hv].
  set (d' := mkSList _ _ _). assert (Hrep : head_ d' = head l /\ tail_ d' = last l /\
    size_ d' = Z.of_nat (length l)).
  { unfold d'; simpl. split; [done|]. split; [|simpl in *; lia].
    rewrite Ht. by destruct l. }
  rewrite (sl_check_ok d' l) by apply Hrep. eexists _, d'. split; [done|].
  split; [|by rewrite sl_getNext_setNext, decide_True by done].
  split_and!; try done; try apply Hrep.
  eapply sl_linked_ext; [|done]. intros y Hy.
  rewrite sl_getNext_setNext, decide_False by (done || set_solver). done.
Qed.

(** The front list keeps its links but the last, which leads to the second. *)
Lemma sl_linked_splice h h' l t k :
  NoDup ((l ++ [t]) ++ k) -> sl_linked h (l ++ [t]) -> sl_linked h k ->
  (forall x, getNext h' x = if decide (x = t) then head k else getNext h x) ->
  sl_linked h' ((l ++ [t]) ++ k).
Proof.
  intros Hnd Hl Hk He. revert Hnd Hl. induction l as [|x l IH]; simpl.
  - intros [Hni Hnd]%NoDup_cons _. rewrite He, decide_True by done. split; [done|].
    eapply sl_linked_ext; [|done]. intros y Hy. by rewrite He, decide_False by set_solver.
  - intros [Hni Hnd]%NoDup_cons [Hx Hl]. rewrite He, decide_False by set_solver.
    split; [rewrite Hx; by destruct l|]. by apply IH.
Qed.

Lemma sl_rep_splice h o d lo l :
  sl_rep h o lo -> sl_rep h d l -> NoDup (lo ++ l) ->
  exists h' d', splice o (h, d) = (Ok slist0, (h', d')) /\ sl_rep h' d' (lo ++ l).
Proof.
  intros Ho Hd Hnd. pose proof Ho as (_ & Hvo & Hlo & Hho & Hto & Hso).
  pose proof Hd as (_ & Hv & Hl & Hh & Ht & Hs). unfold splice, empty. rewrite Hso.
  destruct lo as [|t lo _] using rev_ind.
  { exists h, d. split; [|done]. simpl. destruct o as [z a b]; simpl in *. by subst. }
  destruct (Z.eqb_spec (Z.of_nat (length (lo ++ [t]))) 0) as [E|_].
  { rewrite length_app in E. simpl in E. lia. }
  rewrite Hto, last_snoc. eexists _, _. split; [reflexivity|].
  assert (Hok : pc_ok (head_ d)) by (rewrite Hh; by apply sl_ok_head).
  split_and!; simpl.
  - done.
  - by apply Forall_app.
  - eapply (sl_linked_splice h); [done|done|done|]. intros x.
    rewrite sl_getNext_setNext by done. by rewrite Hh.
  - rewrite Hho. by destruct lo.
  - rewrite Ht, (last_app (lo ++ [t])), last_snoc. by destruct (last l).
  - unfold size. rewrite Hs, Hso, !length_app. lia.
Qed.

Lemma sl_linked_remove h h' l1 p x l2 :
  NoDup ((l1 ++ [p]) ++ x :: l2) -> sl_linked h ((l1 ++ [p]) ++ x :: l2) ->
  (forall y, y <> x -> getNext h' y = if decide (y = p) then head l2 else getNext h y) ->
  sl_linked h' ((l1 ++ [p]) ++ l2).
Proof.
  intros Hnd Hl He. revert Hnd Hl. induction l1 as [|y l1 IH]; simpl.
  - intros [Hp [Hx Hnd]%NoDup_cons]%NoDup_cons (_ & _ & Hl).
    rewrite He by set_solver. rewrite decide_True by done. split; [done|].
    eapply sl_linked_ext; [|done]. intros z Hz.
    rewrite He by set_solver. by rewrite decide_False by set_solver.
  - intros [Hy Hnd]%NoDup_cons [Hn Hl]. rewrite He by set_solver.
    rewrite decide_False by set_solver. split; [rewrite Hn; by destruct l1|]. by apply IH.
Qed.

Lemma sl_linked_at h l1 x l2 : sl_linked h (l1 ++ x :: l2) -> getNext h x = head l2.
Proof. induction l1 as [|y l1 IH]; simpl; [by intros [? _]|]. intros [_ ?]. by apply IH. Qed.

(** The iterator at the position after [l1]. *)
Definition iter_at l1 l2 : Iterator A := mkIterator (head l2) (last l1).

Lemma sl_rep_remove h d l1 x l2 :
  sl_rep h d (l1 ++ x :: l2) ->
  exists h' d', remove (iter_at l1 (x :: l2)) (h, d) = (Ok (iter_at l1 l2), (h', d')) /\
    sl_rep h' d' (l1 ++ l2) /\ getNext h' x = None.
Proof.
  intros Hrep. pose proof Hrep as (Hnd & Hv & Hl & Hh & Ht & Hs).
  unfold remove, iter_at; cbn [curr_ prev_ head]. rewrite (sl_linked_at _ _ _ _ Hl).
  destruct l1 as [|p l1 _] using rev_ind; cbn [last app].
  { destruct (sl_rep_pop _ _ _ Hrep) as (h' & d' & Hpop & Hrep' & Hn). exists h', d'.
    by rewrite Hpop. }
  rewrite last_snoc. set (d' := mkSList _ _ _).
  assert (Hok : pc_ok (head l2)).
  { apply sl_ok_head. apply Forall_app in Hv as [_ Hv]. by apply Forall_cons in Hv as [_ ?]. }
  assert (Hpx : p <> x).
  { intros ->. apply NoDup_app in Hnd as (_ & Hd & _). apply (Hd x); set_solver. }
  assert (Htail : tail_ d' = last ((l1 ++ [p]) ++ l2)).
  { unfold d'; cbn [tail_]. rewrite Ht, !last_app.
    destruct l2 as [|y l2]; [cbn [last]; by rewrite decide_True|].
    change (last (x :: y :: l2)) with (last (y :: l2)).
    destruct (last (y :: l2)) as [z|] eqn:E; [|by apply last_None in E].
    rewrite decide_False; [done|]. intros [= ->]. apply last_Some_elem_of in E.
    apply NoDup_app in Hnd as (_ & _ & [Hni _]%NoDup_cons). set_solver. }
  assert (Hsize : size_ d' = Z.of_nat (length ((l1 ++ [p]) ++ l2))).
  { unfold d'; simpl. rewrite Hs, !length_app. simpl. lia. }
  assert (Hhead : head_ d' = head ((l1 ++ [p]) ++ l2)).
  { unfold d'; simpl. rewrite Hh. by destruct l1. }
  rewrite (sl_check_ok d' _ Hhead Htail Hsize). eexists _, d'. split; [done|].
  split; [|by rewrite sl_getNext_setNext, decide_True by done].
  split_and!; try done.
  - rewrite <- Permutation_middle in Hnd. by apply NoDup_cons in Hnd as [_ ?].
  - apply Forall_app in Hv as [? Hv]. apply Forall_cons in Hv as [_ ?]. by apply Forall_app.
  - eapply (sl_linked_remove h); [done|done|]. intros y Hy.
    rewrite sl_getNext_setNext, decide_False by done. by rewrite sl_getNext_setNext.
Qed.

End Representation.

(** ** Refinement *)

Section Refinement.

Context {A C : Type} `{Countable A} `{PC : PtrCompressor A C} `{!PtrCompressorLaws A C}.
Implicit Types (h : heap A C) (d : SList A) (l : list A).

(** The nodes a loop over the list visits. *)
Fixpoint sl_visit (fuel : nat) h (it : Iterator A) : list A :=
  match fuel, curr_ it with
  | O, _ | _, None => []
  | S fuel', Some c => c :: sl_visit fuel' h (incr h it)
  end.

Lemma sl_visit_all h l1 l2 :
  sl_linked h l2 -> sl_visit (length l2) h (iter_at l1 l2) = l2.
Proof.
  revert l1. induction l2 as [|x l2 IH]; intros l1; [done|]. intros [Hx Hl]. simpl. f_equal.
  unfold incr, goForward; simpl. rewrite Hx. specialize (IH (l1 ++ [x]) Hl).
  unfold iter_at in IH. by rewrite last_snoc in IH.
Qed.

Lemma sl_walk h x l (fuel : nat) :
  sl_linked h (x :: l) -> (length l <= fuel)%nat ->
  Some (walkToTail fuel h x) = last (x :: l).
Proof.
  revert x fuel. induction l as [|y l IH]; intros x fuel [Hx Hl] Hf.
  - destruct fuel; simpl; [done|]. by rewrite Hx.
  - destruct fuel as [|fuel]; simpl in Hf; [lia|]. simpl. rewrite Hx. simpl.
    apply (IH y fuel Hl). lia.
Qed.

(** The singly-linked list refines the list of its nodes: inserting adds a
    node in front, popping removes the first (and is refused on the empty
    list), splicing moves all nodes of another list to the front, removing at
    an iterator takes that node out and leaves the iterator on the next, and a
    loop over the list visits its nodes in order. *)
Theorem slist_refines_list h d l o lo x :
  sl_rep h d l -> sl_rep h o lo -> NoDup (lo ++ l) -> pc_valid x -> x ∉ l ->
  sl_rep (insert x (h, d)).1 (insert x (h, d)).2 (x :: l) /\
  getHead d = head l /\
  match l with
  | [] => pop (h, d) = (Throw LogicError, (h, d))
  | _ :: l' => exists h' d', pop (h, d) = (Ok tt, (h', d')) /\ sl_rep h' d' l'
  end /\
  (exists h' d', splice o (h, d) = (Ok slist0, (h', d')) /\ sl_rep h' d' (lo ++ l)) /\
  (forall l1 y l2, l = l1 ++ y :: l2 ->
     exists h' d', remove (iter_at l1 (y :: l2)) (h, d) = (Ok (iter_at l1 l2), (h', d')) /\
       sl_rep h' d' (l1 ++ l2)) /\
  sl_visit (length l) h (begin_ d) = l.
Proof.
  intros Hd Ho Hnd Hx Hni. split_and!.
  - by apply sl_rep_insert.
  - by eapply sl_rep_getHead.
  - pose proof (sl_rep_pop _ _ _ Hd) as Hp. destruct l as [|y l']; [done|].
    destruct Hp as (h' & d' & ? & ? & _). by eauto.
  - by apply sl_rep_splice.
  - intros l1 y l2 ->. destruct (sl_rep_remove _ _ _ _ _ Hd) as (h' & d' & ? & ? & _). by eauto.
  - destruct Hd as (_ & _ & Hl & Hh & _). unfold begin_. rewrite Hh.
    by apply (sl_visit_all h []).
Qed.

(** A list restored from its saved state is the list that was saved, also
    from a state written without a tail pointer. *)
Theorem slist_save_restore h d l (old : Z) :
  sl_rep h d l -> old < 0 -> 0 <= compressedTail (saveState d) ->
  restore h (saveState d) = Ok d /\
  restore h (mkSListObject (compressedHead (saveState d)) old (obj_size (saveState d))) = Ok d.
Proof.
  intros (Hnd & Hv & Hl & Hh & Ht & Hs) Hold Hct. unfold restore; simpl in *.
  assert (Hhd : pc_ok (head_ d)) by (rewrite Hh; by apply sl_ok_head).
  assert (Htl : pc_ok (tail_ d)) by (rewrite Ht; by apply sl_ok_last).
  rewrite !pc_restore_save, !pc_unCompress_compress by done.
  destruct (Z.leb_spec 0 (pc_saveState (pc_compress (tail_ d)))); [|lia].
  destruct (Z.leb_spec 0 old); [lia|].
  assert (Hw : match head_ d with
               | Some n => Some (walkToTail (Z.to_nat (size_ d)) h n) | None => None end = tail_ d).
  { rewrite Hh, Ht, Hs, Nat2Z.id. destruct l as [|x l]; [done|]. cbn [head].
    apply (sl_walk h x l); [done|simpl; lia]. }
  rewrite Hw, (sl_check_ok (mkSList (size_ d) (head_ d) (tail_ d)) l) by done.
  by destruct d.
Qed.

End Refinement.

(** ** Witnesses *)

Definition sl_demo : heap positive Z * SList positive :=
  insert 2%positive (insert 1%positive (∅, slist0)).

Lemma sl_demo_rep : sl_rep sl_demo.1 sl_demo.2 [2; 1]%positive.
Proof.
  apply (sl_rep_insert _ _ [1]%positive); [|done|by compute_done].
  apply (sl_rep_insert ∅ slist0 []); [apply sl_rep_empty|done|by compute_done].
Qed.

Lemma slist_refines_list_witness :
  getHead sl_demo.2 = Some 2%positive /\
  sl_visit 2 sl_demo.1 (begin_ sl_demo.2) = [2; 1]%positive.
Proof.
  destruct (slist_refines_list sl_demo.1 sl_demo.2 [2; 1]%positive slist0 [] 3%positive)
    as (_ & Hh & _ & _ & _ & Hv).
  - apply sl_demo_rep.
  - apply sl_rep_empty.
  - by compute_done.
  - done.
  - by compute_done.
  - by split.
Defined.

Lemma slist_save_restore_witness :
  restore sl_demo.1 (saveState sl_demo.2) = Ok sl_demo.2.
Proof.
  apply (slist_save_restore sl_demo.1 sl_demo.2 [2; 1]%positive (-1) sl_demo_rep).
  - lia.
  - by vm_compute.
Defined.
