(* ===== verification/Slab.v ===== *)
(** * Slabs, slab headers and slab release contexts

    Models cachelib/allocator/memory/Slab.h.  Addresses are integers, the null
    pointer is 0. *)

From S2P Require Import Prelude.

#[local] Open Scope Z_scope.

Definition kInvalidClassId : Z := -1.
Definition kInvalidPoolId : Z := -1.
Definition kNumSlabBits : Z := 22.
Definition kMinAllocPower : Z := 6.
Definition kMinAllocSize : Z := Z.shiftl 1 kMinAllocPower.
Definition kSize : Z := Z.shiftl 1 kNumSlabBits.

Definition memoryAtOffset (slab offset : Z) : Z := slab + offset.

Record AllocInfo : Type := mkAllocInfo {
  info_poolId : Z;
  info_classId : Z;
  info_allocSize : Z
}.

(** ** Header *)

Inductive SlabHeaderFlag : Type :=
| IS_MARKED_FOR_RELEASE | IS_ADVISED
| SH_FLAG_2 | SH_FLAG_3 | SH_FLAG_4 | SH_FLAG_5 | SH_FLAG_6 | SH_FLAG_7.

Definition slabFlagBit (f : SlabHeaderFlag) : Z :=
  match f with
  | IS_MARKED_FOR_RELEASE => 0 | IS_ADVISED => 1
  | SH_FLAG_2 => 2 | SH_FLAG_3 => 3 | SH_FLAG_4 => 4
  | SH_FLAG_5 => 5 | SH_FLAG_6 => 6 | SH_FLAG_7 => 7
  end.

Record SlabHeader : Type := mkSlabHeader {
  poolId : Z;
  classId : Z;
  flags : Z;
  allocSize : Z
}.

(** Three bytes and a 32-bit integer, packed. *)
Definition sizeof_SlabHeader : Z := 7.

(** [SlabHeader(PoolId)], and the header in memory that was never written. *)
Definition newSlabHeader (pid : Z) : SlabHeader := mkSlabHeader pid kInvalidClassId 0 0.
Definition zeroSlabHeader : SlabHeader := mkSlabHeader 0 0 0 0.

Definition resetAllocInfo (h : SlabHeader) : SlabHeader :=
  mkSlabHeader kInvalidPoolId kInvalidClassId (flags h) 0.

Definition sh_setFlag (f : SlabHeaderFlag) (h : SlabHeader) : SlabHeader :=
  mkSlabHeader (poolId h) (classId h)
    (Z.lor (flags h) (u8 (Z.shiftl 1 (slabFlagBit f)))) (allocSize h).
Definition sh_unSetFlag (f : SlabHeaderFlag) (h : SlabHeader) : SlabHeader :=
  mkSlabHeader (poolId h) (classId h)
    (Z.land (flags h) (u8 (255 - Z.shiftl 1 (slabFlagBit f)))) (allocSize h).
Definition sh_isFlagSet (f : SlabHeaderFlag) (h : SlabHeader) : bool :=
  mask_test (flags h) (Z.shiftl 1 (slabFlagBit f)).

Definition isAdvised (h : SlabHeader) : bool := sh_isFlagSet IS_ADVISED h.
Definition setAdvised (value : bool) (h : SlabHeader) : SlabHeader :=
  if value then sh_setFlag IS_ADVISED h else sh_unSetFlag IS_ADVISED h.
Definition isMarkedForRelease (h : SlabHeader) : bool :=
  sh_isFlagSet IS_MARKED_FOR_RELEASE h.
Definition setMarkedForRelease (value : bool) (h : SlabHeader) : SlabHeader :=
  if value then sh_setFlag IS_MARKED_FOR_RELEASE h
  else sh_unSetFlag IS_MARKED_FOR_RELEASE h.

(** ** Release *)

Inductive SlabReleaseMode : Type := kResize | kRebalance | kAdvise.

#[export] Instance SlabReleaseMode_eq_dec : EqDecision SlabReleaseMode.
Proof. solve_decision. Defined.

Record SlabReleaseContext : Type := mkSlabReleaseContext {
  slab_ : Z;
  pid_ : Z;
  victim_ : Z;
  activeAllocations_ : list Z;
  receiver_ : Z;
  mode_ : SlabReleaseMode;
  zeroOnRelease_ : bool
}.

(** The constructor with a mode, and the one with a receiver.  The flag
    [zeroOnRelease_] has no initializer; the pool sets it before it returns
    the context. *)
Definition releaseContext (slab pid cid : Z) (allocations : list Z) (m : SlabReleaseMode)
  : SlabReleaseContext :=
  mkSlabReleaseContext slab pid cid allocations kInvalidClassId m false.
Definition releaseContextTo (slab pid victim : Z) (allocations : list Z) (receiver : Z)
  : SlabReleaseContext :=
  mkSlabReleaseContext slab pid victim allocations receiver kRebalance false.

Definition isReleased (c : SlabReleaseContext) : bool :=
  match activeAllocations_ c with [] => true | _ => false end.
Definition hasValidReceiver (c : SlabReleaseContext) : bool :=
  negb (receiver_ c =? kInvalidClassId).
Definition setReceiver (r : Z) (c : SlabReleaseContext) : SlabReleaseContext :=
  mkSlabReleaseContext (slab_ c) (pid_ c) (victim_ c) (activeAllocations_ c) r (mode_ c)
    (zeroOnRelease_ c).
Definition setZeroOnRelease (z : bool) (c : SlabReleaseContext) : SlabReleaseContext :=
  mkSlabReleaseContext (slab_ c) (pid_ c) (victim_ c) (activeAllocations_ c) (receiver_ c)
    (mode_ c) z.

(** ** Lemmas *)

Lemma slab_kSize : kSize = 2 ^ 22.
Proof. done. Qed.

(** Setting and clearing a flag changes that flag and nothing else. *)
Lemma slab_set_flag (f g : SlabHeaderFlag) (h : SlabHeader) :
  sh_isFlagSet g (sh_setFlag f h) =
    if decide (slabFlagBit f = slabFlagBit g) then true else sh_isFlagSet g h.
Proof.
  unfold sh_isFlagSet. rewrite !mask_test_bit by (by destruct g). simpl.
  rewrite u8_small, Z.shiftl_1_l by (by destruct f). rewrite Z.lor_spec, Z.pow2_bits_eqb by (by destruct f).
  case_decide as Hfg.
  - rewrite Hfg, Z.eqb_refl. apply orb_true_r.
  - rewrite (proj2 (Z.eqb_neq _ _)) by done. apply orb_false_r.
Qed.

Lemma slab_unset_flag (f g : SlabHeaderFlag) (h : SlabHeader) :
  sh_isFlagSet g (sh_unSetFlag f h) =
    if decide (slabFlagBit f = slabFlagBit g) then false else sh_isFlagSet g h.
Proof.
  unfold sh_isFlagSet. rewrite !mask_test_bit by (by destruct g). simpl.
  rewrite Z.land_spec.
  destruct f, g; simpl; rewrite ?andb_true_r, ?andb_false_r; done.
Qed.
