(* ===== verification/CompressedPtr.v ===== *)
(** * Compressed pointers

    Models [CompressedPtr4B] and [CompressedPtr5B]
    (cachelib/allocator/memory/CompressedPtr.h): a pointer to an allocation is
    a slab index, an allocation index and, with several memory tiers, a tier
    id, packed in four or five bytes.  The class [CompressedPtrType] is the
    interface [SlabAllocator::compress] and [unCompress] are templates over. *)

From S2P Require Import Prelude.
From S2P Require Import Slab.

#[local] Open Scope Z_scope.

(** Both layouts give the low 16 bits to the allocation index. *)
Definition kNumAllocIdxBits : Z := kNumSlabBits - kMinAllocPower.
Definition kAllocIdxMask : Z := Z.shiftl 1 kNumAllocIdxBits - 1.

(** ** Four bytes *)

Record CompressedPtr4B : Type := mkPtr4B { ptr4 : Z }.

Definition kNull4 : Z := 2 ^ 32 - 1.
Definition nullPtr4B : CompressedPtr4B := mkPtr4B kNull4.
Definition kNumTierIdxOffset4 : Z := 31.
Definition kTierIdxMask4 : Z := Z.shiftl 1 kNumTierIdxOffset4.

Definition isNull4 (p : CompressedPtr4B) : bool := ptr4 p =? kNull4.
Definition numSlabIdxBits4 (isMultiTiered : bool) : Z :=
  kNumTierIdxOffset4 - kNumAllocIdxBits + (if isMultiTiered then 0 else 1).
Definition getMaxAddressableSize4 : Z := Z.shiftl 1 (numSlabIdxBits4 false + kNumSlabBits).

Definition compress4 (slabIdx allocIdx : Z) (isMultiTiered : bool) (tid : Z) : Z :=
  if negb isMultiTiered then u32 (u32 (Z.shiftl slabIdx kNumAllocIdxBits) + allocIdx)
  else u32 (u32 (Z.shiftl (u32 tid) kNumTierIdxOffset4) +
            u32 (Z.shiftl slabIdx kNumAllocIdxBits) + allocIdx).
Definition makePtr4B (slabIdx allocIdx : Z) (isMultiTiered : bool) (tid : Z) : CompressedPtr4B :=
  mkPtr4B (compress4 slabIdx allocIdx isMultiTiered tid).

Definition getSlabIdx4 (p : CompressedPtr4B) (isMultiTiered : bool) : Z :=
  let noTierIdPtr := if isMultiTiered then Z.ldiff (ptr4 p) kTierIdxMask4 else ptr4 p in
  u32 (Z.shiftr noTierIdPtr kNumAllocIdxBits).
Definition getAllocIdx4 (p : CompressedPtr4B) : Z := u32 (Z.land (ptr4 p) kAllocIdxMask).
Definition getTierId4 (p : CompressedPtr4B) (isMultiTiered : bool) : Z :=
  if isMultiTiered then u32 (Z.shiftr (ptr4 p) kNumTierIdxOffset4) else 0.
Definition setTierId4 (tid : Z) (p : CompressedPtr4B) : CompressedPtr4B :=
  mkPtr4B (u32 (ptr4 p + u32 (Z.shiftl (u32 tid) kNumTierIdxOffset4))).

Definition saveState4 (p : CompressedPtr4B) : Z := ptr4 p.
Definition restore4 (x : Z) : CompressedPtr4B := mkPtr4B (u32 x).

(** ** Five bytes *)

Record CompressedPtr5B : Type := mkPtr5B { ptr5 : Z; regionIdx_ : Z }.

Definition kNull5 : Z := 2 ^ 32 - 1.
Definition kRegionNull : Z := 2 ^ 8 - 1.
Definition nullPtr5B : CompressedPtr5B := mkPtr5B kNull5 kRegionNull.
Definition kIdxNumBits : Z := 32.
Definition kRegionNumBits : Z := 8.
Definition kNumTierIdxOffset5 : Z := kRegionNumBits - 2.
Definition kTierIdxMask5 : Z := Z.shiftl 1 kNumTierIdxOffset5.

Definition isNull5 (p : CompressedPtr5B) : bool :=
  (ptr5 p =? kNull5) && (regionIdx_ p =? kRegionNull).
Definition numSlabIdxBits5 (isMultiTiered : bool) : Z :=
  kNumTierIdxOffset5 + (kIdxNumBits - kNumAllocIdxBits) + (if isMultiTiered then 0 else 1).
Definition getMaxAddressableSize5 : Z := Z.shiftl 1 (numSlabIdxBits5 false + kNumSlabBits).

Definition compress5 (slabIdx allocIdx : Z) (isMultiTiered : bool) (tid : Z) : Z :=
  if negb isMultiTiered then u32 (u32 (Z.shiftl slabIdx kNumAllocIdxBits) + allocIdx)
  else u64 (u64 (Z.shiftl (u64 tid) (kNumTierIdxOffset5 + kIdxNumBits)) +
            u32 (Z.shiftl slabIdx kNumAllocIdxBits) + allocIdx).
Definition getRegionIdx (slabIdx : Z) (isMultiTiered : bool) (tid : Z) : Z :=
  let region := Z.shiftr slabIdx (kIdxNumBits - kNumAllocIdxBits) in
  if isMultiTiered
  then u8 (u8 (Z.shiftl tid kNumTierIdxOffset5) + u8 (Z.ldiff region kTierIdxMask5))
  else u8 region.
Definition makePtr5B (slabIdx allocIdx : Z) (isMultiTiered : bool) (tid : Z) : CompressedPtr5B :=
  mkPtr5B (u32 (compress5 slabIdx allocIdx isMultiTiered tid))
    (getRegionIdx slabIdx isMultiTiered tid).

Definition getSlabIdx5 (p : CompressedPtr5B) (isMultiTiered : bool) : Z :=
  let noTierIdPtr :=
    if isMultiTiered then Z.ldiff (regionIdx_ p) kTierIdxMask5 else regionIdx_ p in
  u32 (u32 (Z.shiftl noTierIdPtr (kIdxNumBits - kNumAllocIdxBits)) +
       Z.shiftr (ptr5 p) kNumAllocIdxBits).
Definition getAllocIdx5 (p : CompressedPtr5B) : Z := u32 (Z.land (ptr5 p) kAllocIdxMask).
Definition getTierId5 (p : CompressedPtr5B) (isMultiTiered : bool) : Z :=
  if isMultiTiered then Z.shiftr (regionIdx_ p) kNumTierIdxOffset5 else 0.
Definition setTierId5 (tid : Z) (p : CompressedPtr5B) : CompressedPtr5B :=
  mkPtr5B (ptr5 p) (u8 (regionIdx_ p + u32 (Z.shiftl (u32 tid) kNumTierIdxOffset5))).

Definition getRaw5 (p : CompressedPtr5B) : Z :=
  u64 (u64 (Z.shiftl (regionIdx_ p) kIdxNumBits) + ptr5 p).
Definition saveState5 (p : CompressedPtr5B) : Z := getRaw5 p.
Definition deserializePtr (x : Z) : Z := u32 x.
Definition deserializeRegion (x : Z) : Z := u8 (Z.shiftr x kIdxNumBits).
Definition restore5 (x : Z) : CompressedPtr5B :=
  mkPtr5B (deserializePtr x) (deserializeRegion x).

(** ** The interface of the slab allocator's templates *)

Class CompressedPtrType (P : Type) : Type := {
  cp_null : P;
  cp_isNull : P -> bool;
  cp_make : Z -> Z -> bool -> Z -> P;
  cp_getSlabIdx : P -> bool -> Z;
  cp_getAllocIdx : P -> Z;
  cp_getTierId : P -> bool -> Z;
  cp_setTierId : Z -> P -> P;
  cp_numSlabIdxBits : bool -> Z;
  cp_saveState : P -> Z;
  cp_restore : Z -> P
}.

#[export] Instance CompressedPtr4B_type : CompressedPtrType CompressedPtr4B := {
  cp_null := nullPtr4B;
  cp_isNull := isNull4;
  cp_make := makePtr4B;
  cp_getSlabIdx := getSlabIdx4;
  cp_getAllocIdx := getAllocIdx4;
  cp_getTierId := getTierId4;
  cp_setTierId := setTierId4;
  cp_numSlabIdxBits := numSlabIdxBits4;
  cp_saveState := saveState4;
  cp_restore := restore4
}.

#[export] Instance CompressedPtr5B_type : CompressedPtrType CompressedPtr5B := {
  cp_null := nullPtr5B;
  cp_isNull := isNull5;
  cp_make := makePtr5B;
  cp_getSlabIdx := getSlabIdx5;
  cp_getAllocIdx := getAllocIdx5;
  cp_getTierId := getTierId5;
  cp_setTierId := setTierId5;
  cp_numSlabIdxBits := numSlabIdxBits5;
  cp_saveState := saveState5;
  cp_restore := restore5
}.

(** The indices a pointer can hold: those the assertions of [compress] ask
    for. The last slab index is kept for the null pointer. *)
Definition cp_fits {P} `{CompressedPtrType P} (slabIdx allocIdx : Z) (multi : bool) (tid : Z)
  : Prop :=
  0 <= slabIdx < Z.shiftl 1 (cp_numSlabIdxBits multi) - 1 /\ 0 <= allocIdx <= kAllocIdxMask /\
  (if multi then 0 <= tid < 2 else tid = 0).

Class CompressedPtrLaws (P : Type) `{CompressedPtrType P} : Prop := {
  cp_isNull_null : cp_isNull cp_null = true;
  cp_isNull_make i a m t : cp_fits i a m t -> cp_isNull (cp_make i a m t) = false;
  cp_slabIdx_make i a m t : cp_fits i a m t -> cp_getSlabIdx (cp_make i a m t) m = i;
  cp_allocIdx_make i a m t : cp_fits i a m t -> cp_getAllocIdx (cp_make i a m t) = a;
  cp_tierId_make i a m t : cp_fits i a m t -> cp_getTierId (cp_make i a m t) m = t;
  cp_setTierId_make i a t : cp_fits i a true t ->
    cp_setTierId t (cp_make i a true 0) = cp_make i a true t;
  cp_restore_null : cp_restore (cp_saveState cp_null) = cp_null;
  cp_restore_make i a m t : cp_fits i a m t ->
    cp_restore (cp_saveState (cp_make i a m t)) = cp_make i a m t
}.

(** ** The two layouts satisfy it *)

Lemma cp_mask_mod (x : Z) : Z.land x kAllocIdxMask = x mod 2 ^ 16.
Proof. change kAllocIdxMask with (Z.ones 16). by rewrite Z.land_ones. Qed.

(** Clearing the top bit that is used. *)
Lemma cp_clear_top (x k : Z) : 0 <= k -> 0 <= x < 2 ^ (k + 1) -> Z.ldiff x (Z.shiftl 1 k) = x mod 2 ^ k.
Proof.
  intros Hk Hx. rewrite Z.shiftl_1_l. zbits.
  rewrite (testbit_above x (k + 1)) by lia. done.
Qed.

Lemma cp_clear_none (x k : Z) : 0 <= k -> 0 <= x < 2 ^ k -> Z.ldiff x (Z.shiftl 1 k) = x.
Proof.
  intros Hk Hx. rewrite Z.shiftl_1_l. zbits. subst. by rewrite (testbit_above x _ _ Hk Hx) by lia.
Qed.

(** [solve_fields]: products and remainders by the powers of two of a layout. *)
Ltac solve_fields := Z.div_mod_to_equations; lia.

Lemma compress4_value i a m t :
  cp_fits (P := CompressedPtr4B) i a m t -> compress4 i a m t = t * 2 ^ 31 + i * 2 ^ 16 + a.
Proof.
  intros (Hi & Ha & Ht). change kAllocIdxMask with 65535 in Ha. unfold compress4.
  unfold cp_numSlabIdxBits, CompressedPtr4B_type, numSlabIdxBits4 in Hi.
  rewrite !(Z.shiftl_mul_pow2 _ _ (ltac:(done) : 0 <= kNumAllocIdxBits)).
  rewrite !(Z.shiftl_mul_pow2 _ _ (ltac:(done) : 0 <= kNumTierIdxOffset4)).
  change (2 ^ kNumAllocIdxBits) with 65536. change (2 ^ kNumTierIdxOffset4) with 2147483648.
  unfold u32. destruct m; simpl in *.
  - change (1 ≪ (kNumTierIdxOffset4 - kNumAllocIdxBits + 0)) with 32768 in Hi. solve_fields.
  - change (1 ≪ (kNumTierIdxOffset4 - kNumAllocIdxBits + 1)) with 65536 in Hi. solve_fields.
Qed.

(** What [cp_fits] says of each layout. *)
Lemma cp_fits4 i a m t :
  cp_fits (P := CompressedPtr4B) i a m t ->
  0 <= i < (if m then 32767 else 65535) /\ 0 <= a < 65536 /\
  (m = true /\ 0 <= t < 2 \/ m = false /\ t = 0).
Proof.
  intros (Hi & Ha & Ht). change kAllocIdxMask with 65535 in Ha.
  destruct m; [change (cp_numSlabIdxBits true) with 15 in Hi; change (Z.shiftl 1 15) with 32768 in Hi
              |change (cp_numSlabIdxBits false) with 16 in Hi; change (Z.shiftl 1 16) with 65536 in Hi];
  naive_solver lia.
Qed.

#[export] Instance CompressedPtr4B_laws : CompressedPtrLaws CompressedPtr4B.
Proof.
  split; [done|..]; intros;
    try match goal with Hf : cp_fits _ _ _ _ |- _ =>
      pose proof (compress4_value _ _ _ _ Hf) as Hv;
      pose proof (cp_fits4 _ _ _ _ Hf) as (Hi & Ha & Ht) end;
    cbn [cp_isNull cp_make cp_getSlabIdx cp_getAllocIdx cp_getTierId cp_setTierId cp_restore
         cp_saveState CompressedPtr4B_type].
  - unfold isNull4, makePtr4B; simpl. rewrite Hv. apply Z.eqb_neq. unfold kNull4.
    destruct m; lia.
  - unfold getSlabIdx4, makePtr4B; simpl ptr4. rewrite Hv, Z.shiftr_div_pow2 by done.
    change (2 ^ kNumAllocIdxBits) with 65536. unfold u32. destruct m.
    + unfold kTierIdxMask4. rewrite cp_clear_top by (unfold kNumTierIdxOffset4; lia).
      change (2 ^ kNumTierIdxOffset4) with 2147483648. destruct Ht as [Ht|Ht]; solve_fields.
    + destruct Ht as [Ht|Ht]; solve_fields.
  - unfold getAllocIdx4, makePtr4B; simpl ptr4. rewrite Hv, cp_mask_mod. unfold u32.
    destruct m; solve_fields.
  - unfold getTierId4, makePtr4B; simpl ptr4. destruct Ht as [[-> Ht]|[-> ->]]; [|done].
    rewrite Hv, Z.shiftr_div_pow2 by done. change (2 ^ kNumTierIdxOffset4) with 2147483648.
    unfold u32. solve_fields.
  - unfold setTierId4, makePtr4B; simpl ptr4. f_equal. rewrite Hv.
    assert (Hf0 : cp_fits (P := CompressedPtr4B) i a true 0) by (destruct H as (? & ? & ?); done).
    rewrite (compress4_value _ _ _ _ Hf0). rewrite Z.shiftl_mul_pow2 by done.
    change (2 ^ kNumTierIdxOffset4) with 2147483648. unfold u32.
    destruct Ht as [[_ Ht]|[[=] _]]. solve_fields.
  - done.
  - unfold restore4, saveState4, makePtr4B; simpl. f_equal. apply u32_small. rewrite Hv.
    unfold is_u32. destruct m; lia.
Qed.

Lemma cp_fits5 i a m t :
  cp_fits (P := CompressedPtr5B) i a m t ->
  0 <= i < (if m then 4194303 else 8388607) /\ 0 <= a < 65536 /\
  (m = true /\ 0 <= t < 2 \/ m = false /\ t = 0).
Proof.
  intros (Hi & Ha & Ht). change kAllocIdxMask with 65535 in Ha.
  destruct m; [change (cp_numSlabIdxBits true) with 22 in Hi; change (Z.shiftl 1 22) with 4194304 in Hi
              |change (cp_numSlabIdxBits false) with 23 in Hi; change (Z.shiftl 1 23) with 8388608 in Hi];
  naive_solver lia.
Qed.

(** The two words of a five byte pointer. *)
Lemma make5_value i a m t :
  cp_fits (P := CompressedPtr5B) i a m t ->
  makePtr5B i a m t = mkPtr5B ((i mod 2 ^ 16) * 2 ^ 16 + a) (t * 64 + i / 2 ^ 16).
Proof.
  intros Hf. pose proof (cp_fits5 _ _ _ _ Hf) as (Hi & Ha & Ht). unfold makePtr5B. f_equal.
  - unfold compress5. rewrite !Z.shiftl_mul_pow2 by done.
    change (2 ^ kNumAllocIdxBits) with 65536.
    change (2 ^ (kNumTierIdxOffset5 + kIdxNumBits)) with 274877906944. unfold u32, u64.
    destruct Ht as [[-> Ht]|[-> ->]]; simpl; solve_fields.
  - unfold getRegionIdx. rewrite Z.shiftr_div_pow2 by done.
    change (2 ^ (kIdxNumBits - kNumAllocIdxBits)) with 65536. unfold u8.
    destruct Ht as [[-> Ht]|[-> ->]]; [|solve_fields].
    unfold kTierIdxMask5. rewrite cp_clear_none.
    + rewrite Z.shiftl_mul_pow2 by done. change (2 ^ kNumTierIdxOffset5) with 64. solve_fields.
    + done.
    + change (2 ^ kNumTierIdxOffset5) with 64. solve_fields.
Qed.

#[export] Instance CompressedPtr5B_laws : CompressedPtrLaws CompressedPtr5B.
Proof.
  split; [done|..]; intros;
    try match goal with Hf : cp_fits _ _ _ _ |- _ =>
      pose proof (make5_value _ _ _ _ Hf) as Hv;
      pose proof (cp_fits5 _ _ _ _ Hf) as (Hi & Ha & Ht) end;
    cbn [cp_isNull cp_make cp_getSlabIdx cp_getAllocIdx cp_getTierId cp_setTierId cp_restore
         cp_saveState CompressedPtr5B_type]; rewrite ?Hv; [..|done|].
  - unfold isNull5; simpl. apply andb_false_intro2, Z.eqb_neq. unfold kRegionNull.
    destruct m; solve_fields.
  - unfold getSlabIdx5; cbn [ptr5 regionIdx_]. rewrite Z.shiftr_div_pow2 by done.
    change (2 ^ kNumAllocIdxBits) with 65536. unfold u32. rewrite Z.shiftl_mul_pow2 by done.
    change (2 ^ (kIdxNumBits - kNumAllocIdxBits)) with 65536.
    destruct Ht as [[-> Ht]|[-> ->]]; [|solve_fields].
    unfold kTierIdxMask5. rewrite cp_clear_top; change (2 ^ (kNumTierIdxOffset5 + 1)) with 128.
    + change (2 ^ kNumTierIdxOffset5) with 64. solve_fields.
    + done.
    + solve_fields.
  - unfold getAllocIdx5; cbn [ptr5]. rewrite cp_mask_mod. unfold u32. destruct m; solve_fields.
  - unfold getTierId5; cbn [regionIdx_]. destruct Ht as [[-> Ht]|[-> ->]]; [|done].
    rewrite Z.shiftr_div_pow2 by done. change (2 ^ kNumTierIdxOffset5) with 64. solve_fields.
  - assert (Hf0 : cp_fits (P := CompressedPtr5B) i a true 0) by (destruct H as (? & ? & ?); done).
    rewrite (make5_value _ _ _ _ Hf0). unfold setTierId5; cbn [ptr5 regionIdx_]. f_equal.
    rewrite Z.shiftl_mul_pow2 by done. change (2 ^ kNumTierIdxOffset5) with 64. unfold u8, u32.
    destruct Ht as [[_ Ht]|[[=] _]]. solve_fields.
  - unfold restore5, saveState5, getRaw5, deserializePtr, deserializeRegion; cbn [ptr5 regionIdx_].
    rewrite Z.shiftl_mul_pow2, Z.shiftr_div_pow2 by done. change (2 ^ kIdxNumBits) with 4294967296.
    assert (0 <= t * 64 + i / 2 ^ 16 < 256) by (destruct m; solve_fields).
    assert (0 <= i mod 2 ^ 16 * 2 ^ 16 + a < 4294967296) by solve_fields.
    set (r := t * 64 + i / 2 ^ 16) in *. set (p := i mod 2 ^ 16 * 2 ^ 16 + a) in *.
    unfold u8, u32, u64. f_equal; solve_fields.
Qed.

(** A pointer made from the indices gives them back. *)
Definition lossless (P : Type) `{CompressedPtrType P} (i a : Z) (m : bool) (t : Z) : Prop :=
  let p := cp_make (P := P) i a m t in
  cp_isNull p = false /\ cp_getSlabIdx p m = i /\ cp_getAllocIdx p = a /\
  cp_getTierId p m = t /\ cp_restore (cp_saveState p) = p /\
  (m = true -> cp_setTierId t (cp_make i a true 0) = p).

Lemma cp_lossless {P : Type} `{CompressedPtrLaws P} (i a : Z) (m : bool) (t : Z) :
  cp_fits (P := P) i a m t -> lossless P i a m t.
Proof.
  intros Hf. unfold lossless. split_and!.
  - by apply cp_isNull_make.
  - by apply cp_slabIdx_make.
  - by apply cp_allocIdx_make.
  - by apply cp_tierId_make.
  - by apply cp_restore_make.
  - intros ->. by apply cp_setTierId_make.
Qed.

(** Both compressed pointer layouts are lossless: for every slab index,
    allocation index and tier that the type can hold, the fields read back are
    the ones written, the pointer is not the null pointer, the tier can be set
    afterwards, and saving and restoring gives the same pointer. *)
Theorem compressed_ptr_roundtrip (i a : Z) (m : bool) (t : Z) :
  (cp_fits (P := CompressedPtr4B) i a m t -> lossless CompressedPtr4B i a m t) /\
  (cp_fits (P := CompressedPtr5B) i a m t -> lossless CompressedPtr5B i a m t).
Proof. split; apply cp_lossless. Qed.

Lemma compressed_ptr_roundtrip_witness :
  lossless CompressedPtr4B 32766 65535 true 1 /\ lossless CompressedPtr5B 8388606 65535 false 0.
Proof.
  split.
  - apply (proj1 (compressed_ptr_roundtrip 32766 65535 true 1)). by vm_compute.
  - apply (proj2 (compressed_ptr_roundtrip 8388606 65535 false 0)). by vm_compute.
Defined.
