(* ===== verification/SlabAllocator.v ===== *)
(** * Slab allocator

    Models [SlabAllocator] (cachelib/allocator/memory/SlabAllocator.{h,cpp}):
    it divides one memory region into slab headers and slabs, hands slabs out,
    takes them back, advises them away and compresses pointers into them.

    Addresses are 64-bit integers, [nullptr] is 0.  [headers] is the content of
    the header array at the start of the region, by slab index;
    [sa_headers_below_slabs] shows that the array ends before the first slab.
    The results of [madvise] and of the random generator are arguments.  The
    background thread that touches pages is not modelled: it only reads. *)

From S2P Require Import Prelude.
From S2P Require Import Slab.
From S2P Require Import CompressedPtr.

#[local] Open Scope Z_scope.
#[local] Open Scope cachelib_scope.

Record SlabAllocator : Type := mkSlabAllocator {
  memoryPoolSize_ : list Z;
  freeSlabs_ : list Z;
  advisedSlabs_ : list Z;
  memoryStart_ : Z;
  memorySize_ : Z;
  slabMemoryStart_ : Z;
  nextSlabAllocation_ : Z;
  canAllocate_ : bool;
  ownsMemory_ : bool;
  pretendMadvise_ : bool;
  headers : gmap Z SlabHeader
}.

Definition set_memoryPoolSize (x : list Z) (s : SlabAllocator) : SlabAllocator :=
  mkSlabAllocator x (freeSlabs_ s) (advisedSlabs_ s) (memoryStart_ s) (memorySize_ s)
    (slabMemoryStart_ s) (nextSlabAllocation_ s) (canAllocate_ s) (ownsMemory_ s)
    (pretendMadvise_ s) (headers s).
Definition set_freeSlabs (x : list Z) (s : SlabAllocator) : SlabAllocator :=
  mkSlabAllocator (memoryPoolSize_ s) x (advisedSlabs_ s) (memoryStart_ s) (memorySize_ s)
    (slabMemoryStart_ s) (nextSlabAllocation_ s) (canAllocate_ s) (ownsMemory_ s)
    (pretendMadvise_ s) (headers s).
Definition set_advisedSlabs (x : list Z) (s : SlabAllocator) : SlabAllocator :=
  mkSlabAllocator (memoryPoolSize_ s) (freeSlabs_ s) x (memoryStart_ s) (memorySize_ s)
    (slabMemoryStart_ s) (nextSlabAllocation_ s) (canAllocate_ s) (ownsMemory_ s)
    (pretendMadvise_ s) (headers s).
Definition set_nextSlabAllocation (x : Z) (s : SlabAllocator) : SlabAllocator :=
  mkSlabAllocator (memoryPoolSize_ s) (freeSlabs_ s) (advisedSlabs_ s) (memoryStart_ s)
    (memorySize_ s) (slabMemoryStart_ s) x (canAllocate_ s) (ownsMemory_ s)
    (pretendMadvise_ s) (headers s).
Definition set_canAllocate (x : bool) (s : SlabAllocator) : SlabAllocator :=
  mkSlabAllocator (memoryPoolSize_ s) (freeSlabs_ s) (advisedSlabs_ s) (memoryStart_ s)
    (memorySize_ s) (slabMemoryStart_ s) (nextSlabAllocation_ s) x (ownsMemory_ s)
    (pretendMadvise_ s) (headers s).
Definition set_headers (x : gmap Z SlabHeader) (s : SlabAllocator) : SlabAllocator :=
  mkSlabAllocator (memoryPoolSize_ s) (freeSlabs_ s) (advisedSlabs_ s) (memoryStart_ s)
    (memorySize_ s) (slabMemoryStart_ s) (nextSlabAllocation_ s) (canAllocate_ s)
    (ownsMemory_ s) (pretendMadvise_ s) x.

(** ** Addresses and indices *)

Definition kMaxPoolId : Z := 127.
Definition kNullSlabIdx : Z := 2 ^ 32 - 1.
Definition kAddressMask : Z := (2 ^ 64 - 1) - Z.shiftl 1 kNumSlabBits + 1.
Definition getMinAllocSize : Z := Z.shiftl 1 kMinAllocPower.

Definition getSlabForMemory (memory : Z) : Z := Z.land memory kAddressMask.

Definition isValidSlab (s : SlabAllocator) (slab : Z) : bool :=
  (slabMemoryStart_ s <=? slab) && (slab <? nextSlabAllocation_ s) &&
  (getSlabForMemory slab =? slab).

Definition getSlabMemoryEnd (s : SlabAllocator) : Z := memoryStart_ s + memorySize_ s.
Definition allMemorySlabbed (s : SlabAllocator) : bool :=
  nextSlabAllocation_ s =? getSlabMemoryEnd s.
Definition isRestorable (s : SlabAllocator) : bool := negb (ownsMemory_ s).

Definition slabIdx (s : SlabAllocator) (slab : Z) : Z :=
  if slab =? 0 then kNullSlabIdx else u32 ((slab - slabMemoryStart_ s) / kSize).
Definition getSlabForIdx (s : SlabAllocator) (idx : Z) : Z :=
  if idx =? kNullSlabIdx then 0 else slabMemoryStart_ s + idx * kSize.

(** [getSlabHeader(unsigned int)]: the header in its slot; the pointer
    versions return the slot, [None] for [nullptr]. *)
Definition header (s : SlabAllocator) (idx : Z) : SlabHeader :=
  default zeroSlabHeader (headers s !! idx).
Definition set_header (idx : Z) (h : SlabHeader) (s : SlabAllocator) : SlabAllocator :=
  set_headers (<[idx := h]> (headers s)) s.
Definition getSlabHeader_slab (s : SlabAllocator) (slab : Z) : option Z :=
  if isValidSlab s slab then Some (slabIdx s slab) else None.
Definition getSlabHeader (s : SlabAllocator) (memory : Z) : option Z :=
  let slab := getSlabForMemory memory in
  if isValidSlab s slab then Some (u32 ((slab - slabMemoryStart_ s) / kSize)) else None.

Definition isMemoryInSlab (s : SlabAllocator) (ptr slab : Z) : bool :=
  if negb (isValidSlab s slab) then false else getSlabForMemory ptr =? slab.

(** ** Construction *)

Definition roundDownToSlabSize (size : Z) : Z := size - size mod kSize.
Definition numSlabs (memorySize : Z) : Z := u32 (memorySize / kSize).
Definition numSlabsForHeaders (memorySize : Z) : Z :=
  u32 ((sizeof_SlabHeader * numSlabs memorySize + kSize - 1) / kSize).
Definition getNumUsableSlabs_static (memorySize : Z) : Z :=
  u32 (numSlabs memorySize - numSlabsForHeaders memorySize).
Definition numSlabsReclaimable (s : SlabAllocator) : Z := Z.of_nat (length (advisedSlabs_ s)).
Definition getNumUsableAndAdvisedSlabs (s : SlabAllocator) : Z :=
  u32 ((getSlabMemoryEnd s - slabMemoryStart_ s) / kSize).
Definition getNumUsableSlabs (s : SlabAllocator) : Z :=
  u32 (getNumUsableAndAdvisedSlabs s - u32 (numSlabsReclaimable s)).
Definition allSlabsAllocated (s : SlabAllocator) : bool :=
  allMemorySlabbed s && match freeSlabs_ s with [] => true | _ => false end.

Definition computeSlabMemoryStart (memoryStart memorySize : Z) : res Z :=
  let numHeaderSlabs := numSlabsForHeaders memorySize in
  if numSlabs memorySize <=? numHeaderSlabs then Throw InvalidArgument
  else if (memoryStart =? 0) || negb (memoryStart mod kSize =? 0) then Throw InvalidArgument
  else Ok (memoryStart + numHeaderSlabs * kSize).

Definition checkState (s : SlabAllocator) : res unit :=
  if (memoryStart_ s =? 0) || (memorySize_ s <=? kSize) then Throw InvalidArgument
  else if (slabMemoryStart_ s =? 0) || (nextSlabAllocation_ s =? 0) then Throw InvalidArgument
  else if getSlabMemoryEnd s <? nextSlabAllocation_ s then Throw InvalidArgument
  else if forallb (isValidSlab s) (freeSlabs_ s) then Ok tt
  else Throw InvalidArgument.

Record Config : Type := mkConfig {
  excludeFromCoredump : bool;
  lockMemory : bool
}.

(** [excludeMemoryFromCoredump]: [madviseOk] is whether [madvise] succeeds. *)
Definition excludeMemoryFromCoredump (madviseOk : bool) : res unit :=
  if madviseOk then Ok tt else Throw RuntimeError.

Definition res_bind {A B} (m : res A) (k : A -> res B) : res B :=
  match m with Ok a => k a | Throw e => Throw e end.

Definition makeSlabAllocator (hdrs : gmap Z SlabHeader) (madviseOk : bool)
    (memoryStart memorySize : Z) (ownsMemory : bool) (config : Config) : res SlabAllocator :=
  let memorySize := roundDownToSlabSize memorySize in
  res_bind (computeSlabMemoryStart memoryStart memorySize) (fun slabMemoryStart =>
  let s := {|
    memoryPoolSize_ := replicate (Z.to_nat kMaxPoolId) 0;
    freeSlabs_ := [];
    advisedSlabs_ := [];
    memoryStart_ := memoryStart;
    memorySize_ := memorySize;
    slabMemoryStart_ := slabMemoryStart;
    nextSlabAllocation_ := slabMemoryStart;
    canAllocate_ := true;
    ownsMemory_ := ownsMemory;
    pretendMadvise_ := false;
    headers := hdrs |} in
  res_bind (checkState s) (fun _ =>
  res_bind (if excludeFromCoredump config then excludeMemoryFromCoredump madviseOk else Ok tt)
    (fun _ => Ok s))).

(** ** Handing slabs out and taking them back *)

(** [memoryPoolSize_[id] += delta] on an array of [size_t]. *)
Definition addPoolSize (id delta : Z) : M SlabAllocator unit :=
  let! s := get in
  match memoryPoolSize_ s !! Z.to_nat id with
  | Some n =>
      if id <? 0 then throw UndefinedBehavior
      else modify (set_memoryPoolSize (<[Z.to_nat id := u64 (n + delta)]> (memoryPoolSize_ s)))
  | None => throw UndefinedBehavior
  end.

Definition makeNewSlabImpl : M SlabAllocator Z :=
  let! s := get in
  if negb (canAllocate_ s) then ret 0
  else
    match last (freeSlabs_ s) with
    | Some slab => do! modify (set_freeSlabs (removelast (freeSlabs_ s))) in ret slab
    | None =>
        if allMemorySlabbed s then do! modify (set_canAllocate false) in ret 0
        else
          do! modify (set_nextSlabAllocation (nextSlabAllocation_ s + kSize)) in
          ret (nextSlabAllocation_ s)
    end.

Definition initializeHeader (slab id : Z) : M SlabAllocator unit :=
  let! s := get in
  match getSlabHeader_slab s slab with
  | None => throw UndefinedBehavior
  | Some i => modify (set_header i (newSlabHeader id))
  end.

Definition makeNewSlab (id : Z) : M SlabAllocator Z :=
  let! slab := makeNewSlabImpl in
  if slab =? 0 then ret 0
  else
    do! addPoolSize id kSize in
    do! initializeHeader slab id in
    ret slab.

Definition freeSlab (slab : Z) : M SlabAllocator unit :=
  let! s := get in
  match getSlabHeader_slab s slab with
  | None => throw RuntimeError
  | Some i =>
      do! addPoolSize (poolId (header s i)) (- kSize) in
      do! modify (fun s => set_freeSlabs (freeSlabs_ s ++ [slab]) s) in
      do! modify (set_canAllocate true) in
      modify (set_header i (resetAllocInfo (header s i)))
  end.

(** [madviseOk]: [madvise] returns 0. *)
Definition adviseSlab (madviseOk : bool) (slab : Z) : M SlabAllocator bool :=
  let! s := get in
  match getSlabHeader_slab s slab with
  | None => throw RuntimeError
  | Some i =>
      let h := setAdvised true (header s i) in
      do! modify (set_header i h) in
      if madviseOk || pretendMadvise_ s then
        do! modify (fun s => set_advisedSlabs (advisedSlabs_ s ++ [slab]) s) in
        do! modify (set_header i (resetAllocInfo h)) in
        ret true
      else
        do! modify (set_header i (setAdvised false h)) in
        ret false
  end.

Definition reclaimSlab (id : Z) : M SlabAllocator Z :=
  let! s := get in
  match advisedSlabs_ s with
  | [] => ret 0
  | slab :: rest =>
      do! modify (set_advisedSlabs rest) in
      do! addPoolSize id kSize in
      do! initializeHeader slab id in
      ret slab
  end.

(** ** Pointer compression *)

Section Compression.

Context {P : Type} `{CompressedPtrType P}.

Definition compress (s : SlabAllocator) (ptr : Z) (isMultiTiered : bool) : res P :=
  if ptr =? 0 then Ok cp_null
  else
    let slab := getSlabForMemory ptr in
    if negb (isValidSlab s slab) then Throw InvalidArgument
    else
      let slabIndex := u32 ((slab - slabMemoryStart_ s) / kSize) in
      let allocSize := allocSize (header s slabIndex) in
      if allocSize =? 0 then Throw UndefinedBehavior
      else
        let allocIdx := u32 (ptr - slab) / allocSize in
        Ok (cp_make slabIndex allocIdx isMultiTiered 0).

(** In the optimized build, which has no checks. *)
Definition unCompress (s : SlabAllocator) (ptr : P) (isMultiTiered : bool) : Z :=
  if cp_isNull ptr then 0
  else
    let slabIndex := cp_getSlabIdx ptr isMultiTiered in
    let allocIdx := cp_getAllocIdx ptr in
    let slab := slabMemoryStart_ s + slabIndex * kSize in
    let allocSize := allocSize (header s slabIndex) in
    let offset := u32 (allocSize * allocIdx) in
    memoryAtOffset slab offset.

End Compression.

Definition kMarkerBits : Z := 6.

Definition compressAlt (s : SlabAllocator) (ptr : Z) : CompressedPtr4B :=
  if ptr =? 0 then nullPtr4B
  else mkPtr4B (u32 (Z.shiftr (ptr - slabMemoryStart_ s) kMarkerBits)).

Definition unCompressAlt (s : SlabAllocator) (cPtr : CompressedPtr4B) : res Z :=
  if isNull4 cPtr then Ok 0
  else
    let markerOffset := u32 (Z.shiftl (ptr4 cPtr) kMarkerBits) in
    let markerPtr := slabMemoryStart_ s + markerOffset in
    match getSlabHeader s markerPtr with
    | None => Throw UndefinedBehavior
    | Some i =>
        let allocSize := allocSize (header s i) in
        if allocSize =? 0 then Throw UndefinedBehavior
        else
          let slab := getSlabForMemory markerPtr in
          let slabOffset := markerPtr - slab in
          let delta := slabOffset mod allocSize in
          let slabOffset := if delta =? 0 then slabOffset else slabOffset + (allocSize - delta) in
          Ok (memoryAtOffset slab slabOffset)
    end.

(** [offset]: what [folly::Random::rand64(0, validMaxOffset)] returns. *)
Definition validMaxOffset (s : SlabAllocator) : Z :=
  memorySize_ s - (slabMemoryStart_ s - memoryStart_ s).

Definition getRandomAlloc (s : SlabAllocator) (offset : Z) : Z * Z :=
  let memory := slabMemoryStart_ s + offset in
  let slab := getSlabForMemory memory in
  match getSlabHeader_slab s slab with
  | None => (0, 0)
  | Some i =>
      let allocSize := allocSize (header s i) in
      if allocSize =? 0 then (0, 0)
      else
        let maxAllocIdx := kSize / allocSize - 1 in
        let allocIdx := (memory - slab) / allocSize in
        let allocIdx := if maxAllocIdx <? allocIdx then maxAllocIdx else allocIdx in
        (allocSize, slab + allocSize * allocIdx)
  end.

(** ** Saving and restoring *)

Record SlabAllocatorObject : Type := mkSlabAllocatorObject {
  so_memorySize : Z;
  so_nextSlabIdx : Z;
  so_canAllocate : bool;
  so_memoryPoolSize : list (Z * Z);
  so_freeSlabIdxs : list Z;
  so_advisedSlabIdxs : list Z;
  so_slabSize : Z;
  so_minAllocSize : Z
}.

Definition saveState (s : SlabAllocator) : res SlabAllocatorObject :=
  if negb (isRestorable s) then Throw LogicError
  else Ok {|
    so_memorySize := memorySize_ s;
    so_nextSlabIdx := slabIdx s (nextSlabAllocation_ s);
    so_canAllocate := canAllocate_ s;
    so_memoryPoolSize := imap (fun i n => (Z.of_nat i, n)) (memoryPoolSize_ s);
    so_freeSlabIdxs := slabIdx s <$> freeSlabs_ s;
    so_advisedSlabIdxs := slabIdx s <$> advisedSlabs_ s;
    so_slabSize := kSize;
    so_minAllocSize := getMinAllocSize
  |}.

(** The loop over the saved pool sizes. *)
Fixpoint restorePoolSizes (l : list (Z * Z)) (sizes : list Z) : res (list Z) :=
  match l with
  | [] => Ok sizes
  | (id, n) :: l' =>
      if Z.of_nat (length sizes) <=? id then Throw InvalidArgument
      else if id <? 0 then Throw UndefinedBehavior
      else restorePoolSizes l' (<[Z.to_nat id := n]> sizes)
  end.

(** The body of the loop over the saved advised slabs. *)
Definition restoreAdvisedSlab (s : SlabAllocator) (idx : Z) : SlabAllocator :=
  set_advisedSlabs (advisedSlabs_ s ++ [getSlabForIdx s idx])
    (set_header idx (setAdvised true (header s idx)) s).

(** The constructor that restores; [hdrs] is the content of the header array
    in the region that is still mapped. *)
Definition restoreSlabAllocator (hdrs : gmap Z SlabHeader) (madviseOk : bool)
    (object : SlabAllocatorObject) (memoryStart memSize : Z) (config : Config)
  : res SlabAllocator :=
  res_bind (computeSlabMemoryStart memoryStart (so_memorySize object)) (fun slabMemoryStart =>
  let s := {|
    memoryPoolSize_ := replicate (Z.to_nat kMaxPoolId) 0;
    freeSlabs_ := [];
    advisedSlabs_ := [];
    memoryStart_ := memoryStart;
    memorySize_ := so_memorySize object;
    slabMemoryStart_ := slabMemoryStart;
    nextSlabAllocation_ := 0;
    canAllocate_ := so_canAllocate object;
    ownsMemory_ := false;
    pretendMadvise_ := false;
    headers := hdrs |} in
  let s := set_nextSlabAllocation (getSlabForIdx s (u32 (so_nextSlabIdx object))) s in
  if negb (kSize =? so_slabSize object) then Throw InvalidArgument
  else if negb (getMinAllocSize =? so_minAllocSize object) then Throw InvalidArgument
  else if negb (memorySize_ s =? roundDownToSlabSize memSize) then Throw InvalidArgument
  else
  res_bind (if excludeFromCoredump config then excludeMemoryFromCoredump madviseOk else Ok tt)
    (fun _ =>
  res_bind (restorePoolSizes (so_memoryPoolSize object) (memoryPoolSize_ s)) (fun sizes =>
  let s := set_memoryPoolSize sizes s in
  let s := set_freeSlabs (getSlabForIdx s <$> so_freeSlabIdxs object) s in
  let s := foldl restoreAdvisedSlab s (so_advisedSlabIdxs object) in
  res_bind (checkState s) (fun _ => Ok s)))).
