(* ===== verification/SlabAllocatorProofs.v ===== *)
(** * Slab allocator: correctness

    Layout of the region, ownership of slabs, pointer compression, and saving
    and restoring of the model of [SlabAllocator]. *)

From S2P Require Import Prelude PtrCompressor.
From S2P Require Import Slab CompressedPtr SlabAllocator.
From stdpp Require Import base tactics numbers gmap list.

#[local] Open Scope Z_scope.
#[local] Open Scope cachelib_scope.

(** ** Layout *)

Record sa_wf (s : SlabAllocator) : Prop := {
  wf_start : 0 < memoryStart_ s;
  wf_align : memoryStart_ s mod kSize = 0;
  wf_size_align : memorySize_ s mod kSize = 0;
  wf_size : kSize < memorySize_ s;
  wf_end : memoryStart_ s + memorySize_ s < 2 ^ 64;
  wf_count : memorySize_ s / kSize < 2 ^ 32;
  wf_slabstart : slabMemoryStart_ s =
    memoryStart_ s + numSlabsForHeaders (memorySize_ s) * kSize;
  wf_room : numSlabsForHeaders (memorySize_ s) < numSlabs (memorySize_ s);
  wf_next_align : nextSlabAllocation_ s mod kSize = 0;
  wf_next : slabMemoryStart_ s <= nextSlabAllocation_ s <= getSlabMemoryEnd s;
  wf_pools : length (memoryPoolSize_ s) = 127%nat
}.

Lemma sa_slabForMemory (p : Z) :
  0 <= p < 2 ^ 64 -> getSlabForMemory p = p - p mod kSize.
Proof.
  intros Hp. unfold getSlabForMemory.
  assert (Hm : p - p mod kSize = Z.shiftl (Z.shiftr p 22) 22).
  { rewrite Z.shiftl_mul_pow2, Z.shiftr_div_pow2 by lia. rewrite slab_kSize.
    pose proof (Z.div_mod p (2 ^ 22) ltac:(lia)). lia. }
  rewrite Hm. change kAddressMask with (Z.shiftl (Z.ones 42) 22). zbits.
  destruct (Z.ltb_spec i 22) as [Hlt|Hge].
  - rewrite !(Z.testbit_neg_r _ (i - 22)) by lia. apply andb_false_r.
  - rewrite testbit_ones, Z.shiftr_spec, Z.sub_add by lia. zbits_cases.
    + apply andb_true_r.
    + by rewrite (testbit_above p 64) by lia.
Qed.

Lemma sa_valid_iff s (slab : Z) :
  sa_wf s ->
  isValidSlab s slab = true <->
  slabMemoryStart_ s <= slab < nextSlabAllocation_ s /\ slab mod kSize = 0.
Proof.
  intros Hwf. pose proof Hwf as []. unfold isValidSlab.
  rewrite !andb_true_iff, Z.leb_le, Z.ltb_lt, Z.eqb_eq.
  assert (0 <= numSlabsForHeaders (memorySize_ s)) by apply u32_range.
  assert (0 < kSize) by done. unfold getSlabMemoryEnd in *.
  split; intros ((H1 & H2) & H3); rewrite sa_slabForMemory in * by nia; lia.
Qed.

(** The region counted in slabs. *)
Lemma sa_wf_units s :
  sa_wf s ->
  exists a b c, memoryStart_ s = kSize * a /\ memorySize_ s = kSize * b /\
    nextSlabAllocation_ s = kSize * c /\
    slabMemoryStart_ s = kSize * (a + numSlabsForHeaders (memorySize_ s)) /\
    0 < a /\ 0 <= numSlabsForHeaders (memorySize_ s) < b /\ b < 2 ^ 32 /\
    numSlabs (memorySize_ s) = b /\ memorySize_ s / kSize = b /\
    a + numSlabsForHeaders (memorySize_ s) <= c <= a + b.
Proof.
  intros []. exists (memoryStart_ s / kSize), (memorySize_ s / kSize), (nextSlabAllocation_ s / kSize).
  assert (Hk : kSize = 4194304) by done.
  assert (Hn : numSlabs (memorySize_ s) = memorySize_ s / kSize).
  { unfold numSlabs. apply u32_small. unfold is_u32. split; [apply Z.div_pos; lia|done]. }
  pose proof (Z.div_exact (memoryStart_ s) kSize ltac:(lia)) as [_ Ha].
  pose proof (Z.div_exact (memorySize_ s) kSize ltac:(lia)) as [_ Hb].
  pose proof (Z.div_exact (nextSlabAllocation_ s) kSize ltac:(lia)) as [_ Hc].
  specialize (Ha ltac:(done)). specialize (Hb ltac:(done)). specialize (Hc ltac:(done)).
  assert (0 <= numSlabsForHeaders (memorySize_ s)) by apply u32_range.
  unfold getSlabMemoryEnd in *. rewrite Hn in *. split_and!; try done; lia.
Qed.

(** The index of a valid slab, and the slab of the index. *)
Lemma sa_slabIdx s (slab : Z) :
  sa_wf s -> isValidSlab s slab = true ->
  slabIdx s slab = (slab - slabMemoryStart_ s) / kSize /\
  0 <= slabIdx s slab < getNumUsableSlabs_static (memorySize_ s) /\
  slab = slabMemoryStart_ s + slabIdx s slab * kSize /\
  slabIdx s slab = u32 ((slab - slabMemoryStart_ s) / kSize).
Proof.
  intros Hwf Hv. apply sa_valid_iff in Hv as [Hr Hal]; [|done].
  destruct (sa_wf_units s Hwf) as (a & b & c & Ha & Hb & Hc & Hs & Hpos & Hh & Hlt & Hn & Hdiv & Hle).
  pose proof (Z.div_exact slab kSize ltac:(done)) as [_ Hq]. specialize (Hq Hal).
  set (q := slab / kSize) in *. assert (Hk : kSize = 4194304) by done.
  assert (Hd : (slab - slabMemoryStart_ s) / kSize = q - (a + numSlabsForHeaders (memorySize_ s))).
  { rewrite Hs, Hq, <- Z.mul_sub_distr_l, Z.mul_comm. apply Z.div_mul. lia. }
  assert (Hi : slabIdx s slab = (slab - slabMemoryStart_ s) / kSize).
  { unfold slabIdx. destruct (Z.eqb_spec slab 0); [lia|]. apply u32_small. unfold is_u32. lia. }
  assert (Hu : getNumUsableSlabs_static (memorySize_ s) = b - numSlabsForHeaders (memorySize_ s)).
  { unfold getNumUsableSlabs_static. rewrite Hn. apply u32_small. unfold is_u32. lia. }
  rewrite Hu, Hi, Hd. split_and!; try lia. symmetry. apply u32_small. unfold is_u32. lia.
Qed.

Lemma sa_slabIdx_inj s (x y : Z) :
  sa_wf s -> isValidSlab s x = true -> isValidSlab s y = true ->
  slabIdx s x = slabIdx s y -> x = y.
Proof.
  intros Hwf Hx Hy He. apply sa_slabIdx in Hx as (_ & _ & Hx & _), Hy as (_ & _ & Hy & _); [|done..].
  rewrite Hx, Hy, He. done.
Qed.

(** ** Ownership of slabs

    [own] maps the slabs that are handed out to the pool that holds them.  At
    every moment the slabs carved so far are split among the owners, the free
    list and the advised list, and none of them is twice in it. *)

Record sa_inv (s : SlabAllocator) (own : gmap Z Z) : Prop := {
  inv_wf : sa_wf s;
  inv_part slab : isValidSlab s slab = true <->
    slab ∈ dom own \/ slab ∈ freeSlabs_ s ++ advisedSlabs_ s;
  inv_nodup : NoDup (freeSlabs_ s ++ advisedSlabs_ s);
  inv_disj slab : slab ∈ dom own -> slab ∉ freeSlabs_ s ++ advisedSlabs_ s;
  inv_own slab p : own !! slab = Some p ->
    0 <= p < kMaxPoolId /\ poolId (header s (slabIdx s slab)) = p;
  inv_can : canAllocate_ s = false -> freeSlabs_ s = [] /\ nextSlabAllocation_ s = getSlabMemoryEnd s
}.

Inductive sa_op : Type :=
| SMake (pool : Z)
| SFree (slab : Z)
| SAdvise (madviseOk : bool) (slab : Z)
| SReclaim (pool : Z)
| SWrite (slab cid fl size : Z).

(** [SWrite] is an owner writing the class, flags and allocation size in the
    header of its slab, as the allocation classes do. *)
Definition writeHeader (slab cid fl size : Z) : M SlabAllocator unit :=
  modify (fun s => let i := slabIdx s slab in
    set_header i (mkSlabHeader (poolId (header s i)) cid fl size) s).

Definition sa_exec (op : sa_op) : M SlabAllocator Z :=
  match op with
  | SMake pool => makeNewSlab pool
  | SFree slab => do! freeSlab slab in ret 0
  | SAdvise ok slab => let! b := adviseSlab ok slab in ret (if b then 1 else 0)
  | SReclaim pool => reclaimSlab pool
  | SWrite slab cid fl size => do! writeHeader slab cid fl size in ret 0
  end.

(** What a caller may do: name a pool, and give back or write slabs it owns. *)
Definition sa_may (op : sa_op) (own : gmap Z Z) : Prop :=
  match op with
  | SMake pool | SReclaim pool => 0 <= pool < kMaxPoolId
  | SFree slab | SAdvise _ slab | SWrite slab _ _ _ => slab ∈ dom own
  end.

Definition sa_owners (op : sa_op) (r : Z) (own : gmap Z Z) : gmap Z Z :=
  match op with
  | SMake pool | SReclaim pool => if r =? 0 then own else <[r := pool]> own
  | SFree slab => delete slab own
  | SAdvise _ slab => if r =? 0 then own else delete slab own
  | SWrite _ _ _ _ => own
  end.

(** The members that decide which slabs are valid. *)
Definition same_layout (s s' : SlabAllocator) : Prop :=
  memoryStart_ s' = memoryStart_ s /\ memorySize_ s' = memorySize_ s /\
  slabMemoryStart_ s' = slabMemoryStart_ s /\
  nextSlabAllocation_ s' = nextSlabAllocation_ s /\
  length (memoryPoolSize_ s') = length (memoryPoolSize_ s).

Lemma same_layout_wf s s' : same_layout s s' -> sa_wf s -> sa_wf s'.
Proof.
  intros (E1 & E2 & E3 & E4 & E5) []. split; unfold getSlabMemoryEnd in *;
    rewrite ?E1, ?E2, ?E3, ?E4, ?E5; done.
Qed.

Lemma same_layout_valid s s' x : same_layout s s' -> isValidSlab s' x = isValidSlab s x.
Proof. intros (E1 & E2 & E3 & E4 & E5). unfold isValidSlab. by rewrite E3, E4. Qed.

Lemma same_layout_idx s s' x : same_layout s s' -> slabIdx s' x = slabIdx s x.
Proof. intros (E1 & E2 & E3 & E4 & E5). unfold slabIdx. by rewrite E3. Qed.

Lemma header_set s i h j : header (set_header i h s) j = if decide (j = i) then h else header s j.
Proof.
  unfold header, set_header; simpl. case_decide as E.
  - subst. by rewrite lookup_insert_eq.
  - by rewrite lookup_insert_ne.
Qed.

Lemma sa_addPoolSize s id delta :
  sa_wf s -> 0 <= id < kMaxPoolId ->
  exists sizes, addPoolSize id delta s = (Ok tt, set_memoryPoolSize sizes s) /\
    length sizes = length (memoryPoolSize_ s).
Proof.
  intros [] Hid. unfold addPoolSize, bind, get; simpl. unfold kMaxPoolId in *.
  destruct (lookup_lt_is_Some_2 (memoryPoolSize_ s) (Z.to_nat id)) as [n Hn]; [lia|].
  rewrite Hn. destruct (Z.ltb_spec id 0); [lia|]. eexists. split; [reflexivity|].
  apply length_insert.
Qed.

Lemma sa_header_valid s slab :
  isValidSlab s slab = true -> getSlabHeader_slab s slab = Some (slabIdx s slab).
Proof. intros Hv. unfold getSlabHeader_slab. by rewrite Hv. Qed.

(** Handing the slab [x] that nobody owns to [pool]. *)
Lemma sa_hand_out s own x pool :
  sa_wf s -> isValidSlab s x = true -> 0 <= pool < kMaxPoolId -> own !! x = None ->
  (forall y, isValidSlab s y = true <->
     y = x \/ y ∈ dom own \/ y ∈ freeSlabs_ s ++ advisedSlabs_ s) ->
  NoDup (freeSlabs_ s ++ advisedSlabs_ s) -> x ∉ freeSlabs_ s ++ advisedSlabs_ s ->
  (forall y, y ∈ dom own -> y ∉ freeSlabs_ s ++ advisedSlabs_ s) ->
  (forall y p, own !! y = Some p ->
     0 <= p < kMaxPoolId /\ poolId (header s (slabIdx s y)) = p) ->
  (canAllocate_ s = false -> freeSlabs_ s = [] /\ nextSlabAllocation_ s = getSlabMemoryEnd s) ->
  exists s', (do! addPoolSize pool kSize in do! initializeHeader x pool in ret x)%cl s = (Ok x, s') /\
    sa_inv s' (<[x := pool]> own) /\ same_layout s s'.
Proof.
  intros Hwf Hx Hpool Hox Hpart Hnd Hxf Hdisj Hown Hcan.
  destruct (sa_addPoolSize s pool kSize Hwf Hpool) as (sizes & Hrun & Hlen).
  set (s1 := set_memoryPoolSize sizes s).
  set (s2 := set_header (slabIdx s x) (newSlabHeader pool) s1).
  assert (Hl : same_layout s s2) by done.
  exists s2. split_and!; [| |done].
  - unfold bind. rewrite Hrun. unfold initializeHeader, bind, get. fold s1.
    rewrite (sa_header_valid s1 x) by done. done.
  - split.
    + by apply (same_layout_wf s).
    + intros y. rewrite (same_layout_valid s) by done. rewrite Hpart. simpl. set_solver.
    + done.
    + intros y Hy. simpl. rewrite dom_insert_L in Hy. set_solver.
    + intros y p. rewrite (same_layout_idx s) by done. unfold s2. rewrite header_set.
      intros [[<- <-]|[Hne Hp]]%lookup_insert_Some.
      * by rewrite decide_True.
      * rewrite decide_False; [by apply Hown|]. intros He.
        assert (Hy : y ∈ dom own) by (by apply elem_of_dom_2 in Hp).
        assert (isValidSlab s y = true) by (apply Hpart; auto).
        by apply Hne, (sa_slabIdx_inj s).
    + done.
Qed.

Lemma sa_valid_pos s x : sa_wf s -> isValidSlab s x = true -> 0 < x.
Proof.
  intros Hwf Hv. apply sa_valid_iff in Hv as [Hr _]; [|done].
  destruct (sa_wf_units s Hwf) as (a & b & c & Ha & Hb & Hc & Hs & Hpos & Hh & _).
  assert (kSize = 4194304) by done. lia.
Qed.

Lemma sa_owned_valid s own x : sa_inv s own -> x ∈ dom own -> isValidSlab s x = true.
Proof. intros Hinv Hx. apply (inv_part _ _ Hinv). by left. Qed.

(** Carving the next slab. *)
Lemma sa_carve s :
  sa_wf s -> nextSlabAllocation_ s <> getSlabMemoryEnd s ->
  let s1 := set_nextSlabAllocation (nextSlabAllocation_ s + kSize) s in
  sa_wf s1 /\
  (forall y, isValidSlab s1 y = true <-> y = nextSlabAllocation_ s \/ isValidSlab s y = true).
Proof.
  intros Hwf Hne s1.
  destruct (sa_wf_units s Hwf) as (a & b & c & Ha & Hb & Hc & Hs & Hpos & Hh & Hlt & Hn & Hdiv & Hle).
  assert (Hk : kSize = 4194304) by done. unfold getSlabMemoryEnd in Hne.
  assert (Hwf1 : sa_wf s1).
  { destruct Hwf. split; try done; unfold s1, getSlabMemoryEnd in *; simpl.
    - rewrite Hc, Z.mul_comm, <- Z.mul_succ_l. apply Z.mod_mul. lia.
    - lia. }
  split; [done|]. intros y. rewrite !sa_valid_iff by done. unfold s1; simpl.
  split.
  - intros [Hr Hy]. destruct (decide (y = nextSlabAllocation_ s)); [by left|right].
    split; [|done]. apply Z.mod_divide in Hy as [q ->]; [|lia]. lia.
  - intros [->|[Hr Hy]]; split; try done; try lia. apply wf_next_align, Hwf.
Qed.

Lemma sa_make s own pool :
  sa_inv s own -> 0 <= pool < kMaxPoolId ->
  exists r s', makeNewSlab pool s = (Ok r, s') /\
    sa_inv s' (if r =? 0 then own else <[r := pool]> own) /\
    (r <> 0 -> own !! r = None /\ isValidSlab s' r = true) /\
    (r = 0 -> freeSlabs_ s = [] /\ nextSlabAllocation_ s = getSlabMemoryEnd s).
Proof.
  intros Hinv Hpool. pose proof Hinv as [Hwf Hpart Hnd Hdisj Hown Hcan].
  unfold makeNewSlab, makeNewSlabImpl.
  destruct (canAllocate_ s) eqn:Hca.
  2: { exists 0, s. split_and!; try done; [|by auto].
       unfold bind, get; simpl. by rewrite Hca. }
  destruct (last (freeSlabs_ s)) as [x|] eqn:Hlast.
  - pose proof (last_snoc_inv _ _ Hlast) as Hfree.
    set (s1 := set_freeSlabs (removelast (freeSlabs_ s)) s).
    assert (Hxf : x ∈ freeSlabs_ s ++ advisedSlabs_ s) by (rewrite Hfree; set_solver).
    assert (Hxv : isValidSlab s x = true) by (apply Hpart; by right).
    assert (Hox : own !! x = None).
    { apply not_elem_of_dom. intros Hx. by apply (Hdisj x). }
    assert (Hperm : freeSlabs_ s ++ advisedSlabs_ s ≡ₚ x :: freeSlabs_ s1 ++ advisedSlabs_ s1).
    { rewrite Hfree at 1. simpl. rewrite <- app_assoc. simpl.
      by rewrite <- Permutation_middle. }
    rewrite Hperm in Hnd. apply NoDup_cons in Hnd as [Hni Hnd].
    destruct (sa_hand_out s1 own x pool) as (s' & Hrun & Hinv' & Hl).
    { by apply (same_layout_wf s). } { done. } { done. } { done. }
    { intros y. rewrite (same_layout_valid s) by done. rewrite Hpart, Hperm. set_solver. }
    { done. } { done. }
    { intros y Hy Hyf. apply (Hdisj y Hy). rewrite Hperm. by right. }
    { done. } { simpl. by rewrite Hca. }
    pose proof (sa_valid_pos _ _ Hwf Hxv).
    exists x, s'. unfold bind, get, modify, ret; simpl. rewrite Hca; simpl. rewrite Hlast; simpl.
    destruct (Z.eqb_spec x 0) as [|Hx0]; [lia|]. fold s1.
    split_and!; [exact Hrun|done| |done]. intros _. split; [done|].
    by rewrite (same_layout_valid s1).
  - apply last_None in Hlast. destruct (allMemorySlabbed s) eqn:Hall.
    + exists 0, (set_canAllocate false s). split_and!.
      * unfold bind, get, modify, ret; simpl. rewrite Hca; simpl. by rewrite Hlast, Hall.
      * simpl. split; try done.
        -- by apply (same_layout_wf s).
        -- intros _. split; [done|]. by apply Z.eqb_eq in Hall.
      * done.
      * intros _. split; [done|]. by apply Z.eqb_eq in Hall.
    + pose proof Hall as Hne. apply Z.eqb_neq in Hne.
      destruct (sa_carve s Hwf Hne) as [Hwf1 Hv1].
      set (x := nextSlabAllocation_ s) in *.
      set (s1 := set_nextSlabAllocation (x + kSize) s) in *.
      assert (Hxv : isValidSlab s1 x = true) by (apply Hv1; by left).
      assert (Hxn : isValidSlab s x <> true).
      { rewrite sa_valid_iff by done. unfold x. lia. }
      assert (Hox : own !! x = None).
      { apply not_elem_of_dom. intros Hx. apply Hxn, Hpart. by left. }
      destruct (sa_hand_out s1 own x pool) as (s' & Hrun & Hinv' & Hl); try done.
      { intros y. rewrite Hv1, Hpart. done. }
      { intros Hx. apply Hxn, Hpart. by right. }
      { simpl. by rewrite Hca. }
      pose proof (sa_valid_pos _ _ Hwf1 Hxv).
      exists x, s'. unfold bind, get, modify, ret; simpl. rewrite Hca; simpl.
      rewrite Hlast; simpl. rewrite Hall; simpl.
      fold x. destruct (Z.eqb_spec x 0) as [|Hx0]; [lia|]. fold s1.
      split_and!; [exact Hrun|done| |lia]. intros _. split; [done|].
      by rewrite (same_layout_valid s1).
Qed.

(** Taking back a slab from its owner. *)
Lemma sa_take_back s own x s' :
  sa_inv s own -> x ∈ dom own -> same_layout s s' ->
  freeSlabs_ s' ++ advisedSlabs_ s' ≡ₚ x :: freeSlabs_ s ++ advisedSlabs_ s ->
  (forall j, j <> slabIdx s x -> header s' j = header s j) ->
  (canAllocate_ s' = false -> freeSlabs_ s' = [] /\ nextSlabAllocation_ s' = getSlabMemoryEnd s') ->
  sa_inv s' (delete x own).
Proof.
  intros [Hwf Hpart Hnd Hdisj Hown Hcan] Hx Hl Hperm Hh Hc.
  pose proof (Hdisj x Hx) as Hxf. split.
  - by apply (same_layout_wf s).
  - intros y. rewrite (same_layout_valid s) by done. rewrite Hpart, Hperm, dom_delete_L.
    destruct (decide (y = x)); set_solver.
  - rewrite Hperm. by apply NoDup_cons.
  - intros y. rewrite dom_delete_L, Hperm. intros [Hy Hne]%elem_of_difference.
    specialize (Hdisj y Hy). set_solver.
  - intros y p [Hne Hp]%lookup_delete_Some. rewrite (same_layout_idx s) by done.
    rewrite Hh; [by apply Hown|]. intros He. apply Hne.
    apply (sa_slabIdx_inj s); [done|apply Hpart; by left|apply Hpart; left|done].
    by apply elem_of_dom_2 in Hp.
  - done.
Qed.

Lemma sa_free s own x :
  sa_inv s own -> x ∈ dom own ->
  exists s', freeSlab x s = (Ok tt, s') /\ sa_inv s' (delete x own) /\
    freeSlabs_ s' = freeSlabs_ s ++ [x] /\ canAllocate_ s' = true.
Proof.
  intros Hinv Hx. pose proof (sa_owned_valid _ _ _ Hinv Hx) as Hv.
  pose proof Hx as [p Hp]%elem_of_dom. destruct (inv_own _ _ Hinv x p Hp) as [Hpr Hph].
  unfold freeSlab, bind at 1, get. rewrite (sa_header_valid s x Hv), Hph.
  destruct (sa_addPoolSize s p (- kSize) (inv_wf _ _ Hinv) Hpr) as (sizes & Hrun & Hlen).
  unfold bind at 1. rewrite Hrun. unfold bind, modify.
  eexists. split; [reflexivity|]. split_and!; [|done|done].
  apply (sa_take_back s); try done.
  - simpl. rewrite <- app_assoc. simpl. by rewrite <- Permutation_middle.
  - intros j Hj. rewrite header_set. by rewrite decide_False.
Qed.

Lemma sa_advise s own x (ok : bool) :
  sa_inv s own -> x ∈ dom own ->
  exists s', adviseSlab ok x s = (Ok (ok || pretendMadvise_ s), s') /\
    sa_inv s' (if ok || pretendMadvise_ s then delete x own else own) /\
    (if ok || pretendMadvise_ s
     then advisedSlabs_ s' = advisedSlabs_ s ++ [x] /\
          isAdvised (header s' (slabIdx s' x)) = true
     else advisedSlabs_ s' = advisedSlabs_ s).
Proof.
  intros Hinv Hx. pose proof (sa_owned_valid _ _ _ Hinv Hx) as Hv.
  unfold adviseSlab, bind at 1, get. rewrite (sa_header_valid s x Hv).
  unfold bind, modify, ret; simpl. destruct (ok || pretendMadvise_ s).
  - eexists. split; [reflexivity|]. split_and!.
    + apply (sa_take_back s); try done.
      * simpl. rewrite app_assoc. by rewrite <- Permutation_cons_append.
      * intros j Hj. rewrite header_set, decide_False by done. simpl.
        unfold header at 1; simpl. by rewrite lookup_insert_ne.
      * apply Hinv.
    + done.
    + rewrite header_set, decide_True by done. unfold isAdvised, resetAllocInfo. simpl.
      change (sh_isFlagSet IS_ADVISED (sh_setFlag IS_ADVISED (header s (slabIdx s x))) = true).
      by rewrite slab_set_flag, decide_True by done.
  - eexists. split; [reflexivity|]. split; [|done].
    destruct Hinv as [Hwf Hpart Hnd Hdisj Hown Hcan]. split; try done.
    + by apply (same_layout_wf s).
    + intros y p Hp. destruct (Hown y p Hp) as [Hpr Hph]. split; [done|].
      rewrite header_set. change (slabIdx _ y) with (slabIdx s y). case_decide as He.
      * simpl. by rewrite <- He.
      * unfold header; simpl. rewrite lookup_insert_ne by done. exact Hph.
Qed.

Lemma sa_reclaim s own pool :
  sa_inv s own -> 0 <= pool < kMaxPoolId ->
  exists r s', reclaimSlab pool s = (Ok r, s') /\
    sa_inv s' (if r =? 0 then own else <[r := pool]> own) /\
    (r <> 0 -> own !! r = None /\ head (advisedSlabs_ s) = Some r) /\
    (r = 0 -> advisedSlabs_ s = []).
Proof.
  intros Hinv Hpool. pose proof Hinv as [Hwf Hpart Hnd Hdisj Hown Hcan].
  unfold reclaimSlab, bind at 1, get. destruct (advisedSlabs_ s) as [|x rest] eqn:Hadv.
  { by exists 0, s. }
  set (s1 := set_advisedSlabs rest s).
  assert (Hxa : x ∈ freeSlabs_ s ++ x :: rest) by set_solver.
  assert (Hxv : isValidSlab s x = true) by (apply Hpart; by right).
  rewrite <- Permutation_middle in Hnd. apply NoDup_cons in Hnd as [Hni Hnd].
  assert (Hox : own !! x = None).
  { apply not_elem_of_dom. intros Hx. by apply (Hdisj x). }
  destruct (sa_hand_out s1 own x pool) as (s' & Hrun & Hinv' & Hl); try done.
  { by apply (same_layout_wf s). }
  { intros y. rewrite (same_layout_valid s) by done. rewrite Hpart. simpl. set_solver. }
  { intros y Hy Hyf. apply (Hdisj y Hy). simpl in Hyf. set_solver. }
  exists x, s'. pose proof (sa_valid_pos _ _ Hwf Hxv).
  destruct (Z.eqb_spec x 0); [lia|]. split_and!; [|done|done|lia].
  unfold bind at 1, modify. exact Hrun.
Qed.

Lemma sa_write s own x cid fl size :
  sa_inv s own -> x ∈ dom own ->
  exists s', writeHeader x cid fl size s = (Ok tt, s') /\ sa_inv s' own.
Proof.
  intros [Hwf Hpart Hnd Hdisj Hown Hcan] Hx. eexists. split; [reflexivity|]. split; try done.
  - by apply (same_layout_wf s).
  - intros y p Hp. destruct (Hown y p Hp) as [Hpr Hph]. split; [done|].
    rewrite header_set. change (slabIdx _ y) with (slabIdx s y).
    case_decide as He; [simpl; by rewrite <- He|done].
Qed.
