(* ===== verification/SlabAllocatorSpec.v ===== *)
(** * Slab allocator: theorems *)

From S2P Require Import Prelude PtrCompressor.
From S2P Require Import Slab CompressedPtr SlabAllocator SlabAllocatorProofs.
From stdpp Require Import base tactics numbers gmap list.

#[local] Open Scope Z_scope.
#[local] Open Scope cachelib_scope.

(** A memory region of the machine: it does not wrap around the address space,
    and it has fewer than [2^32] slabs (16 PiB). *)
Definition region_ok (start size : Z) : Prop :=
  0 <= start /\ 0 <= size /\ start + size < 2 ^ 64 /\ size / kSize < 2 ^ 32.

Lemma res_bind_Ok {A B} (m : res A) (k : A -> res B) b :
  res_bind m k = Ok b -> exists a, m = Ok a /\ k a = Ok b.
Proof. destruct m; [by eauto|done]. Qed.

Lemma sa_headers_below_slabs (size : Z) :
  0 <= size -> size / kSize < 2 ^ 32 ->
  sizeof_SlabHeader * numSlabs size <= numSlabsForHeaders size * kSize.
Proof.
  intros Hs Hc. unfold numSlabsForHeaders. assert (Hk : kSize = 4194304) by done.
  assert (Hn : 0 <= numSlabs size < 2 ^ 32) by apply u32_range. unfold sizeof_SlabHeader.
  set (n := numSlabs size) in *. rewrite u32_small; rewrite Hk.
  - Z.div_mod_to_equations; lia.
  - unfold is_u32. Z.div_mod_to_equations; lia.
Qed.

Lemma sa_make_wf hdrs ok start size own cfg s :
  region_ok start size ->
  makeSlabAllocator hdrs ok start size own cfg = Ok s ->
  sa_wf s /\ freeSlabs_ s = [] /\ advisedSlabs_ s = [] /\ canAllocate_ s = true /\
  nextSlabAllocation_ s = slabMemoryStart_ s /\ memoryStart_ s = start /\
  memorySize_ s = roundDownToSlabSize size.
Proof.
  intros (Hs0 & Hz0 & Hend & Hcnt) Hmk. unfold makeSlabAllocator in Hmk.
  apply res_bind_Ok in Hmk as (sm & Hsm & Hmk). apply res_bind_Ok in Hmk as ([] & Hck & Hmk).
  apply res_bind_Ok in Hmk as ([] & _ & Hmk). injection Hmk as <-.
  unfold computeSlabMemoryStart in Hsm. set (sz := roundDownToSlabSize size) in *.
  destruct (Z.leb_spec (numSlabs sz) (numSlabsForHeaders sz)) as [|Hroom]; [done|].
  destruct (Z.eqb_spec start 0) as [|Hst]; [done|].
  destruct (Z.eqb_spec (start mod kSize) 0) as [Hal|]; [|done]. injection Hsm as <-.
  unfold checkState in Hck; simpl in Hck.
  destruct (Z.eqb_spec start 0); [done|]. destruct (Z.leb_spec sz kSize) as [|Hsz]; [done|].
  assert (Hk : kSize = 4194304) by done.
  assert (Hszm : sz mod kSize = 0).
  { unfold sz, roundDownToSlabSize. rewrite Zminus_mod, Zmod_mod, Z.sub_diag. done. }
  assert (Hle : sz <= size).
  { unfold sz, roundDownToSlabSize. pose proof (Z.mod_pos_bound size kSize). lia. }
  assert (Hcs : sz / kSize < 2 ^ 32).
  { eapply Z.le_lt_trans; [|exact Hcnt]. apply Z.div_le_mono; lia. }
  assert (Hns : numSlabs sz = sz / kSize).
  { unfold numSlabs. apply u32_small. unfold is_u32. split; [apply Z.div_pos; lia|done]. }
  assert (Hh0 : 0 <= numSlabsForHeaders sz) by apply u32_range.
  split_and!; try done. split; simpl; try done; try lia.
  - rewrite Z.mod_add by lia. done.
  - unfold getSlabMemoryEnd; simpl. rewrite Hns in Hroom.
    pose proof (Z.div_exact sz kSize ltac:(lia)) as [_ Hd]. specialize (Hd Hszm). nia.
Qed.

(** Layout: in a constructed slab allocator the header of every slab lies
    before the first slab, every slab lies inside the region, and the number
    of usable slabs is what the region holds besides the headers. *)
Theorem slab_layout hdrs ok start size own cfg s (i : Z) :
  region_ok start size ->
  makeSlabAllocator hdrs ok start size own cfg = Ok s ->
  0 <= i < getNumUsableSlabs_static (memorySize_ s) ->
  start + sizeof_SlabHeader * (i + 1) <= slabMemoryStart_ s /\
  getSlabForIdx s i + kSize <= start + size /\
  slabMemoryStart_ s <= getSlabForIdx s i /\
  getSlabForMemory (getSlabForIdx s i) = getSlabForIdx s i /\
  0 < getNumUsableSlabs_static (memorySize_ s) /\
  getNumUsableAndAdvisedSlabs s = getNumUsableSlabs_static (memorySize_ s).
Proof.
  intros Hr Hmk Hi.
  destruct (sa_make_wf _ _ _ _ _ _ _ Hr Hmk) as (Hwf & _ & _ & _ & _ & Hst & Hms).
  destruct (sa_wf_units s Hwf) as (a & b & c & Ha & Hb & Hc & Hs & Hpos & Hh & Hlt & Hn & Hdiv & Hle).
  assert (Hk : kSize = 4194304) by done.
  assert (Hu : getNumUsableSlabs_static (memorySize_ s) = b - numSlabsForHeaders (memorySize_ s)).
  { unfold getNumUsableSlabs_static. rewrite Hn. apply u32_small. unfold is_u32. lia. }
  pose proof (sa_headers_below_slabs (memorySize_ s) ltac:(lia) ltac:(lia)) as Hhd.
  rewrite Hn in Hhd. unfold sizeof_SlabHeader in *.
  assert (Hrd : memorySize_ s <= size).
  { rewrite Hms. unfold roundDownToSlabSize. pose proof (Z.mod_pos_bound size kSize). lia. }
  assert (Hg : getSlabForIdx s i = slabMemoryStart_ s + i * kSize).
  { unfold getSlabForIdx, kNullSlabIdx. destruct (Z.eqb_spec i (2 ^ 32 - 1)); [lia|done]. }
  rewrite Hg. destruct Hr as (? & ? & ? & ?). rewrite Hst in *. split_and!; try lia.
  - rewrite sa_slabForMemory by lia. rewrite Z.mod_add by lia.
    rewrite Hs, Z.mul_comm, Z.mod_mul by lia. lia.
  - unfold getNumUsableAndAdvisedSlabs, getSlabMemoryEnd. rewrite Hu, Hs, Hst, Ha, Hb.
    replace (kSize * a + kSize * b - kSize * (a + numSlabsForHeaders (kSize * b)))
      with ((b - numSlabsForHeaders (kSize * b)) * kSize) by lia.
    rewrite Z.div_mul by lia. rewrite <- Hb. apply u32_small. unfold is_u32. lia.
Qed.

(** ** Ownership *)

(** An execution of the allocator: the callers' operations with their results. *)
Inductive sa_steps : SlabAllocator -> gmap Z Z -> SlabAllocator -> gmap Z Z -> Prop :=
| sa_stop s own : sa_steps s own s own
| sa_step s own op r s1 s' own' :
    sa_may op own -> sa_exec op s = (Ok r, s1) ->
    sa_steps s1 (sa_owners op r own) s' own' -> sa_steps s own s' own'.

(** What an operation promises about the slab it returns. *)
Definition sa_result (op : sa_op) (r : Z) (s : SlabAllocator) (own : gmap Z Z) : Prop :=
  match op with
  | SMake _ => if r =? 0 then freeSlabs_ s = [] /\ nextSlabAllocation_ s = getSlabMemoryEnd s
               else own !! r = None
  | SReclaim _ => if r =? 0 then advisedSlabs_ s = [] else own !! r = None
  | SAdvise ok _ => r = if ok || pretendMadvise_ s then 1 else 0
  | SFree _ | SWrite _ _ _ _ => r = 0
  end.

Lemma sa_exec_ok (op : sa_op) s own :
  sa_inv s own -> sa_may op own ->
  exists r s', sa_exec op s = (Ok r, s') /\ sa_inv s' (sa_owners op r own) /\
    sa_result op r s own.
Proof.
  intros Hinv Hmay. destruct op as [pool|x|ok x|pool|x cid fl size]; simpl in *.
  - destruct (sa_make s own pool Hinv Hmay) as (r & s' & Hrun & Hinv' & Hn & H0).
    exists r, s'. split_and!; try done. destruct (Z.eqb_spec r 0); naive_solver.
  - destruct (sa_free s own x Hinv Hmay) as (s' & Hrun & Hinv' & _).
    exists 0, s'. unfold bind. by rewrite Hrun.
  - destruct (sa_advise s own x ok Hinv Hmay) as (s' & Hrun & Hinv' & _).
    eexists _, s'. unfold bind. rewrite Hrun. split; [reflexivity|].
    by destruct (ok || pretendMadvise_ s).
  - destruct (sa_reclaim s own pool Hinv Hmay) as (r & s' & Hrun & Hinv' & Hn & H0).
    exists r, s'. split_and!; try done. destruct (Z.eqb_spec r 0); naive_solver.
  - destruct (sa_write s own x cid fl size Hinv Hmay) as (s' & Hrun & Hinv').
    exists 0, s'. unfold bind. by rewrite Hrun.
Qed.

Lemma sa_steps_inv s own s' own' : sa_steps s own s' own' -> sa_inv s own -> sa_inv s' own'.
Proof.
  induction 1 as [|s own op r s1 s' own' Hmay Hrun _ IH]; [done|]. intros Hinv. apply IH.
  destruct (sa_exec_ok op s own Hinv Hmay) as (r' & s1' & Hrun' & Hinv' & _).
  rewrite Hrun in Hrun'. by injection Hrun' as <- <-.
Qed.

Lemma sa_inv_init hdrs ok start size own cfg s :
  region_ok start size -> makeSlabAllocator hdrs ok start size own cfg = Ok s -> sa_inv s ∅.
Proof.
  intros Hr Hmk. destruct (sa_make_wf _ _ _ _ _ _ _ Hr Hmk) as (Hwf & Hf & Ha & Hc & Hn & _).
  split; rewrite ?Hf, ?Ha; try done.
  - intros y. rewrite sa_valid_iff by done. rewrite Hn. set_solver by lia.
  - apply NoDup_nil_2.
  - by rewrite Hc.
Qed.

(** C15. Slab ownership: whatever sequence of requests the callers make (taking
    slabs, giving back, advising away or writing the headers of slabs they
    own, reclaiming advised slabs), the carved slabs are at every moment split
    among the owners, the free list and the advised list without overlap; a
    slab that is handed out belongs to no one else; every request succeeds,
    and no slab is returned only when none is left. *)
Theorem slab_ownership hdrs ok start size own cfg s0 s own' (op : sa_op) :
  region_ok start size ->
  makeSlabAllocator hdrs ok start size own cfg = Ok s0 ->
  sa_steps s0 ∅ s own' -> sa_may op own' ->
  (forall slab, isValidSlab s slab = true <->
     slab ∈ dom own' \/ slab ∈ freeSlabs_ s ++ advisedSlabs_ s) /\
  NoDup (freeSlabs_ s ++ advisedSlabs_ s) /\
  (forall slab, slab ∈ dom own' -> slab ∉ freeSlabs_ s ++ advisedSlabs_ s) /\
  exists r s', sa_exec op s = (Ok r, s') /\ sa_result op r s own' /\
    sa_inv s' (sa_owners op r own').
Proof.
  intros Hr Hmk Hst Hmay.
  pose proof (sa_steps_inv _ _ _ _ Hst (sa_inv_init _ _ _ _ _ _ _ Hr Hmk)) as Hinv.
  destruct (sa_exec_ok op s own' Hinv Hmay) as (r & s' & Hrun & Hinv' & Hres).
  split_and!; [apply Hinv|apply Hinv|apply Hinv|by eauto].
Qed.

(** There are fewer than 2^32 slabs. *)
Lemma sa_slab_count s (l : list Z) :
  sa_wf s -> NoDup l -> (forall x, x ∈ l -> isValidSlab s x = true) -> Z.of_nat (length l) < 2 ^ 32.
Proof.
  intros Hwf Hnd Hval. set (f := fun x => Z.to_nat (slabIdx s x)).
  set (n := Z.to_nat (getNumUsableSlabs_static (memorySize_ s))).
  assert (Hle : (length (f <$> l) <= length (seq 0 n))%nat).
  { apply submseteq_length, NoDup_submseteq.
    - apply NoDup_fmap_2_strong; [|done]. intros x y Hx%Hval Hy%Hval He. unfold f in He.
      destruct (sa_slabIdx _ x Hwf Hx) as (_ & ? & _). destruct (sa_slabIdx _ y Hwf Hy) as (_ & ? & _).
      apply (sa_slabIdx_inj s); try done. lia.
    - intros k (x & -> & Hx%Hval)%list_elem_of_fmap.
      destruct (sa_slabIdx _ x Hwf Hx) as (_ & ? & _). apply elem_of_seq. unfold f, n. lia. }
  rewrite length_fmap, length_seq in Hle.
  assert (getNumUsableSlabs_static (memorySize_ s) < 2 ^ 32) by apply u32_range. lia.
Qed.

(** ** Pointer compression *)

(** [p] is the address of the [k]-th allocation of a slab that is cut into
    allocations of the size in its header. *)
Definition alloc_at (s : SlabAllocator) (slab k p : Z) : Prop :=
  let sz := allocSize (header s (slabIdx s slab)) in
  isValidSlab s slab = true /\ kMinAllocSize <= sz /\ 0 <= k /\ (k + 1) * sz <= kSize /\
  p = slab + k * sz.
Definition is_alloc (s : SlabAllocator) (p : Z) : Prop := exists slab k, alloc_at s slab k p.

Lemma sa_alloc_slab s slab k p :
  sa_wf s -> alloc_at s slab k p ->
  getSlabForMemory p = slab /\ 0 < slab <= p /\ p < slab + kSize /\ p < 2 ^ 64 /\ k < 65536.
Proof.
  intros Hwf (Hv & Hsz & Hk & Hend & ->). pose proof (sa_valid_pos _ _ Hwf Hv).
  pose proof Hv as [Hr Hal]%sa_valid_iff; [|done].
  set (sz := allocSize (header s (slabIdx s slab))) in *.
  change kMinAllocSize with 64 in Hsz. assert (HK : kSize = 4194304) by done.
  assert (Hend' : slab + kSize < 2 ^ 64).
  { destruct (sa_wf_units s Hwf) as (a & b & c & Ha & Hb & Hc & Hs & _ & _ & _ & _ & _ & Hle).
    destruct Hwf. apply Z.mod_divide in Hal as [q ->]; [|lia]. lia. }
  assert (0 <= k * sz < kSize) by nia. assert (k < 65536) by nia.
  split_and!; try lia. rewrite sa_slabForMemory by lia.
  assert (Hm : (slab + k * sz) mod kSize = k * sz).
  { rewrite Zplus_mod, Hal, Z.add_0_l, Zmod_mod. by apply Z.mod_small. }
  lia.
Qed.

Lemma sa_compress {P} `{CompressedPtrLaws P} s p (m : bool) :
  sa_wf s -> is_alloc s p ->
  getNumUsableSlabs_static (memorySize_ s) < Z.shiftl 1 (cp_numSlabIdxBits (P := P) m) ->
  exists c : P, compress s p m = Ok c /\ cp_isNull c = false /\ unCompress s c m = p /\
    cp_restore (cp_saveState c) = c.
Proof.
  intros Hwf (slab & k & Ha) Hfit. pose proof (sa_alloc_slab _ _ _ _ Hwf Ha) as (Hsl & Hr & Hr2 & _ & Hk16).
  pose proof Ha as (Hv & Hsz & Hk & Hend & Hp).
  destruct (sa_slabIdx s slab Hwf Hv) as (_ & Hi & Hslab & Hu).
  set (sz := allocSize (header s (slabIdx s slab))) in *. change kMinAllocSize with 64 in Hsz.
  assert (HK : kSize = 4194304) by done.
  assert (Hf : cp_fits (P := P) (slabIdx s slab) k m 0).
  { split_and!; try lia; [change kAllocIdxMask with 65535; lia|by destruct m]. }
  exists (cp_make (slabIdx s slab) k m 0). split_and!.
  - unfold compress. destruct (Z.eqb_spec p 0); [lia|]. rewrite Hsl, Hv; simpl.
    rewrite <- Hu. fold sz. destruct (Z.eqb_spec sz 0); [lia|].
    rewrite u32_small by (unfold is_u32; lia).
    replace (p - slab) with (k * sz) by lia. by rewrite Z.div_mul.
  - by apply cp_isNull_make.
  - unfold unCompress. rewrite cp_isNull_make, cp_slabIdx_make, cp_allocIdx_make by done. fold sz.
    unfold memoryAtOffset. rewrite u32_small by (unfold is_u32; nia). lia.
  - by apply cp_restore_make.
Qed.

(** Compressing the address of an allocation and uncompressing it gives the
    address back, with four byte pointers (up to 256 GiB of slabs) and five
    byte pointers, with and without tiers; the null pointer stays null; an
    address outside the carved slabs is refused. *)
Theorem slab_compress_roundtrip s (p : Z) (m : bool) :
  sa_wf s -> is_alloc s p ->
  (getNumUsableSlabs_static (memorySize_ s) < Z.shiftl 1 (numSlabIdxBits4 m) ->
   exists c : CompressedPtr4B, compress s p m = Ok c /\ unCompress s c m = p) /\
  (getNumUsableSlabs_static (memorySize_ s) < Z.shiftl 1 (numSlabIdxBits5 m) ->
   exists c : CompressedPtr5B, compress s p m = Ok c /\ unCompress s c m = p) /\
  unCompress s (nullPtr4B) m = 0 /\ unCompress s (nullPtr5B) m = 0 /\
  (forall q, q <> 0 -> isValidSlab s (getSlabForMemory q) = false ->
     compress (P := CompressedPtr4B) s q m = Throw InvalidArgument).
Proof.
  intros Hwf Ha. split_and!.
  - intros Hf. pose proof (sa_compress (P := CompressedPtr4B) s p m Hwf Ha) as Hc.
    destruct (Hc Hf) as (c & ? & ? & ? & ?). by exists c.
  - intros Hf. pose proof (sa_compress (P := CompressedPtr5B) s p m Hwf Ha) as Hc.
    destruct (Hc Hf) as (c & ? & ? & ? & ?). by exists c.
  - done.
  - done.
  - intros q Hq Hv. unfold compress. destruct (Z.eqb_spec q 0); [done|]. by rewrite Hv.
Qed.

(** The slab allocator implements the interface of the intrusive containers:
    a null pointer, or the address of an allocation, survives compression. *)
Definition allocator_compressor (P : Type) `{CompressedPtrType P} (s : SlabAllocator)
  : PtrCompressor Z P := {|
  pc_compress := fun p => match p with
    | None => cp_null
    | Some a => match compress s a false with Ok c => c | Throw _ => cp_null end
    end;
  pc_unCompress := fun c => if unCompress s c false =? 0 then None else Some (unCompress s c false);
  pc_saveState := cp_saveState;
  pc_restore := cp_restore;
  pc_valid := is_alloc s
|}.

Lemma allocator_compressor_laws {P} `{CompressedPtrLaws P} s :
  sa_wf s -> getNumUsableSlabs_static (memorySize_ s) < Z.shiftl 1 (cp_numSlabIdxBits (P := P) false) ->
  PtrCompressorLaws Z P (PC := allocator_compressor P s).
Proof.
  intros Hwf Hfit. split; intros [p|] Hok; simpl in *.
  - destruct (sa_compress (P := P) s p false Hwf Hok Hfit) as (c & -> & _ & -> & _).
    destruct Hok as (slab & k & Ha). apply sa_alloc_slab in Ha as (_ & Hr & _); [|done].
    destruct (Z.eqb_spec p 0); [lia|done].
  - unfold unCompress. by rewrite cp_isNull_null.
  - by destruct (sa_compress (P := P) s p false Hwf Hok Hfit) as (c & -> & _ & _ & ->).
  - apply cp_restore_null.
Qed.

(** The alternative compression, which keeps a 64-byte marker instead of an
    allocation index, gives the address back for the first 4 GiB of slab
    memory. *)
Theorem slab_compress_alt_roundtrip s (p : Z) :
  sa_wf s -> is_alloc s p -> p - slabMemoryStart_ s < 2 ^ 32 ->
  unCompressAlt s (compressAlt s p) = Ok p.
Proof.
  intros Hwf (slab & k & Ha) Hlt. pose proof (sa_alloc_slab _ _ _ _ Hwf Ha) as (Hsl & Hr & Hr2 & H64 & Hk16).
  pose proof Ha as (Hv & Hsz & Hk & Hend & Hp).
  destruct (sa_slabIdx s slab Hwf Hv) as (_ & Hi & Hslab & Hu).
  set (sz := allocSize (header s (slabIdx s slab))) in *. change kMinAllocSize with 64 in Hsz.
  assert (HK : kSize = 4194304) by done.
  set (st := slabMemoryStart_ s) in *. set (d := p - st) in *.
  assert (Hd : 0 <= d < 2 ^ 32) by (unfold d; nia).
  unfold compressAlt. destruct (Z.eqb_spec p 0) as [|_]; [lia|]. fold st. fold d.
  rewrite Z.shiftr_div_pow2 by done. change (2 ^ kMarkerBits) with 64.
  assert (Hq : 0 <= d / 64 < 2 ^ 26) by (Z.div_mod_to_equations; lia).
  rewrite u32_small by (unfold is_u32; lia).
  unfold unCompressAlt, isNull4; simpl. destruct (Z.eqb_spec (d / 64) kNull4) as [E|_].
  { unfold kNull4 in E. lia. }
  rewrite Z.shiftl_mul_pow2 by done. change (2 ^ kMarkerBits) with 64.
  rewrite u32_small by (unfold is_u32; lia). fold st.
  set (mk := st + d / 64 * 64). assert (Hst0 : 0 < st /\ st mod 64 = 0).
  { destruct (sa_wf_units s Hwf) as (a & b & c & _ & _ & _ & Hs & Hpos & Hh & _).
    fold st in Hs. split; [lia|]. rewrite Hs, HK. Z.div_mod_to_equations; lia. }
  assert (Hmk : slab <= mk <= p /\ p - mk < 64).
  { unfold mk, d. assert (slab mod 64 = 0); [|Z.div_mod_to_equations; lia].
    rewrite Hslab, HK. Z.div_mod_to_equations; lia. }
  assert (Hsm : getSlabForMemory mk = slab).
  { rewrite sa_slabForMemory by lia. apply sa_valid_iff in Hv as [_ Hal]; [|done].
    rewrite HK in *. Z.div_mod_to_equations; lia. }
  unfold getSlabHeader. rewrite Hsm, Hv. fold st. rewrite <- Hu. fold sz.
  destruct (Z.eqb_spec sz 0); [lia|]. unfold memoryAtOffset.
  (* the first allocation boundary at or after the marker is the allocation *)
  assert (Hm : mk - slab = k * sz - (p - mk)) by lia.
  destruct (Z.eq_dec mk p) as [->|Hne].
  - replace (p - slab) with (k * sz) by lia. rewrite Z.mod_mul by lia. simpl. f_equal. lia.
  - assert (Hmod : (mk - slab) mod sz = sz - (p - mk)).
    { symmetry. apply (Z.mod_unique _ _ (k - 1)); [left; lia|]. lia. }
    rewrite Hmod. destruct (Z.eqb_spec (sz - (p - mk)) 0); [lia|]. f_equal. lia.
Qed.

(** A random allocation is the start of an allocation in a carved slab, with
    that slab's allocation size, or nothing when the slab is not cut into
    allocations. *)
Theorem slab_random_alloc s (offset : Z) :
  sa_wf s -> 0 <= offset < validMaxOffset s ->
  (forall i, allocSize (header s i) = 0 \/ kMinAllocSize <= allocSize (header s i) <= kSize) ->
  let '(sz, p) := getRandomAlloc s offset in
  (sz = 0 /\ p = 0) \/
  (exists slab k, alloc_at s slab k p /\ sz = allocSize (header s (slabIdx s slab)) /\
     slab <= slabMemoryStart_ s + offset < slab + kSize).
Proof.
  intros Hwf Hoff Hsizes. unfold getRandomAlloc.
  set (memory := slabMemoryStart_ s + offset). set (slab := getSlabForMemory memory).
  unfold getSlabHeader_slab. destruct (isValidSlab s slab) eqn:Hv; [|by left].
  set (sz := allocSize (header s (slabIdx s slab))).
  destruct (Z.eqb_spec sz 0) as [|Hsz]; [by left|]. right.
  assert (HK : kSize = 4194304) by done.
  destruct (Hsizes (slabIdx s slab)) as [|Hr]; [done|]. fold sz in Hr.
  change kMinAllocSize with 64 in Hr.
  assert (Hmem : slab = memory - memory mod kSize).
  { unfold slab. apply sa_slabForMemory. unfold memory, validMaxOffset in *. destruct Hwf.
    assert (0 <= numSlabsForHeaders (memorySize_ s)) by apply u32_range. nia. }
  pose proof (Z.mod_pos_bound memory kSize ltac:(lia)) as Hmod.
  set (k0 := (memory - slab) / sz).
  set (k := if kSize / sz - 1 <? k0 then kSize / sz - 1 else k0).
  assert (Hk0 : 0 <= k0) by (unfold k0; apply Z.div_pos; lia).
  assert (Hmax : 1 <= kSize / sz) by (apply Z.div_le_lower_bound; lia).
  assert (Hk : 0 <= k <= kSize / sz - 1).
  { unfold k. destruct (Z.ltb_spec (kSize / sz - 1) k0); lia. }
  exists slab, k. split_and!; try lia. split_and!; try done; try lia; fold sz.
  - change kMinAllocSize with 64. lia.
  - pose proof (Z.mul_div_le kSize sz ltac:(lia)). nia.
Qed.

(** ** Saving and restoring *)

Lemma restorePoolSizes_all (l pre : list Z) (suf : list Z) :
  length suf = length l ->
  restorePoolSizes (imap (fun i n => (Z.of_nat (length pre + i), n)) l) (pre ++ suf) = Ok (pre ++ l).
Proof.
  revert pre suf. induction l as [|n l IH]; intros pre [|m suf] Hlen; try done.
  simpl. rewrite Nat.add_0_r, length_app; simpl in *.
  destruct (Z.leb_spec (Z.of_nat (length pre + S (length suf))) (Z.of_nat (length pre))); [lia|].
  destruct (Z.ltb_spec (Z.of_nat (length pre)) 0); [lia|].
  rewrite Nat2Z.id, insert_app_r_alt, Nat.sub_diag by done. simpl.
  specialize (IH (pre ++ [n]) suf ltac:(lia)). rewrite <- !app_assoc in IH. simpl in IH.
  rewrite <- IH. f_equal. apply imap_ext. intros i x _. simpl. rewrite length_app. simpl.
  do 2 f_equal. lia.
Qed.

Lemma getSlabForIdx_slabIdx s x :
  sa_wf s -> isValidSlab s x = true -> getSlabForIdx s (slabIdx s x) = x.
Proof.
  intros Hwf Hv. destruct (sa_slabIdx s x Hwf Hv) as (_ & Hi & Hx & _).
  unfold getSlabForIdx, kNullSlabIdx.
  assert (getNumUsableSlabs_static (memorySize_ s) <= 2 ^ 32 - 1).
  { pose proof (u32_range (numSlabs (memorySize_ s) - numSlabsForHeaders (memorySize_ s))) as Hu.
    unfold is_u32 in Hu. unfold getNumUsableSlabs_static. lia. }
  destruct (Z.eqb_spec (slabIdx s x) (2 ^ 32 - 1)); [lia|done].
Qed.

Lemma setAdvised_same h : isAdvised h = true -> setAdvised true h = h.
Proof.
  unfold isAdvised, setAdvised, sh_isFlagSet, sh_setFlag. destruct h as [p c f a]; simpl.
  rewrite mask_test_bit by done. intros Hb. f_equal. change (u8 (Z.shiftl 1 1)) with (2 ^ 1). zbits.
  subst. by rewrite Hb.
Qed.

(** The loop over the saved advised slabs. *)
Lemma restoreAdvised (l : list Z) s :
  (forall i, i ∈ l -> isAdvised (header s i) = true) ->
  let s' := foldl restoreAdvisedSlab s l in
  exists hdrs, s' = set_headers hdrs (set_advisedSlabs
                      (advisedSlabs_ s ++ (getSlabForIdx s <$> l)) s) /\
    (forall i, header s' i = header s i).
Proof.
  revert s. induction l as [|x l IH]; intros s Hl; simpl.
  - exists (headers s). rewrite app_nil_r. by destruct s.
  - set (s1 := restoreAdvisedSlab s x).
    assert (Hh : forall i, header s1 i = header s i).
    { intros i. change (header s1 i) with
        (header (set_header x (setAdvised true (header s x)) s) i).
      rewrite header_set. case_decide; [|done]. subst. apply setAdvised_same, Hl. set_solver. }
    destruct (IH s1) as (hdrs & He & Hv).
    { intros i Hi. rewrite Hh. apply Hl. by right. }
    exists hdrs. split; [|by intros; rewrite Hv].
    rewrite He. unfold s1, restoreAdvisedSlab, set_headers, set_advisedSlabs; simpl.
    by rewrite <- app_assoc.
Qed.

Lemma sa_compute_start s :
  sa_wf s -> computeSlabMemoryStart (memoryStart_ s) (memorySize_ s) = Ok (slabMemoryStart_ s).
Proof.
  intros []. unfold computeSlabMemoryStart.
  destruct (Z.leb_spec (numSlabs (memorySize_ s)) (numSlabsForHeaders (memorySize_ s))); [lia|].
  destruct (Z.eqb_spec (memoryStart_ s) 0); [lia|]. rewrite wf_align, Z.eqb_refl. simpl.
  by rewrite wf_slabstart.
Qed.

Lemma sa_exclude_ok (ok : bool) (cfg : Config) :
  excludeFromCoredump cfg = false \/ ok = true ->
  (if excludeFromCoredump cfg then excludeMemoryFromCoredump ok else Ok tt) = Ok tt.
Proof. by intros [->| ->]; [|destruct (excludeFromCoredump cfg)]. Qed.

Lemma sa_idx_map s (l : list Z) :
  sa_wf s -> (forall x, x ∈ l -> isValidSlab s x = true) ->
  getSlabForIdx s <$> (slabIdx s <$> l) = l.
Proof.
  intros Hwf Hl. induction l as [|x l IH]; [done|]. simpl. f_equal.
  - apply getSlabForIdx_slabIdx; [done|]. apply Hl. by left.
  - apply IH. intros y Hy. apply Hl. by right.
Qed.

(** The carving position survives as an index: there is a header slab, so the
    index of the end of the region is never the null index. *)
Lemma sa_next_idx s :
  sa_wf s ->
  u32 (slabIdx s (nextSlabAllocation_ s)) = slabIdx s (nextSlabAllocation_ s) /\
  getSlabForIdx s (slabIdx s (nextSlabAllocation_ s)) = nextSlabAllocation_ s.
Proof.
  intros Hwf.
  destruct (sa_wf_units s Hwf) as (a & b & c & Ha & Hb & Hc & Hs & Hpos & Hh & Hlt & Hn & Hdiv & Hle).
  assert (HK : kSize = 4194304) by done.
  unfold slabIdx. destruct (Z.eqb_spec (nextSlabAllocation_ s) 0); [lia|].
  set (q := c - (a + numSlabsForHeaders (memorySize_ s))).
  assert (Hd : (nextSlabAllocation_ s - slabMemoryStart_ s) / kSize = q).
  { rewrite Hs, Hc, <- Z.mul_sub_distr_l, Z.mul_comm. apply Z.div_mul. lia. }
  assert (1 <= numSlabsForHeaders (memorySize_ s)).
  { pose proof (sa_headers_below_slabs (memorySize_ s) ltac:(lia) ltac:(lia)) as Hhd.
    unfold sizeof_SlabHeader in Hhd. lia. }
  rewrite Hd, !(u32_small q) by (unfold is_u32; lia). split; [done|].
  unfold getSlabForIdx, kNullSlabIdx. destruct (Z.eqb_spec q (2 ^ 32 - 1)); lia.
Qed.

Lemma sa_checkState_ok s own hdrs : sa_inv s own -> checkState (set_headers hdrs s) = Ok tt.
Proof.
  intros Hinv. pose proof (inv_wf _ _ Hinv) as [].
  assert (0 <= numSlabsForHeaders (memorySize_ s)) by apply u32_range.
  assert (0 < kSize) by done. unfold checkState, getSlabMemoryEnd in *; simpl.
  destruct (Z.eqb_spec (memoryStart_ s) 0); [lia|]. destruct (Z.leb_spec (memorySize_ s) kSize); [lia|].
  destruct (Z.eqb_spec (slabMemoryStart_ s) 0); [nia|].
  destruct (Z.eqb_spec (nextSlabAllocation_ s) 0); [nia|]. simpl.
  destruct (Z.ltb_spec (memoryStart_ s + memorySize_ s) (nextSlabAllocation_ s)); [lia|].
  assert (Hf : forallb (isValidSlab (set_headers hdrs s)) (freeSlabs_ s) = true); [|by rewrite Hf].
  apply forallb_forall. intros x Hx. apply (inv_part _ _ Hinv). right.
  apply elem_of_app. left. by apply list_elem_of_In.
Qed.

(** Saving a slab allocator and restoring it over the same region gives
    back an allocator with the same lists, sizes, carving position and
    headers: restoring refuses nothing that was saved. *)
Theorem slab_save_restore s own (memSize : Z) (ok : bool) (cfg : Config) :
  sa_inv s own -> ownsMemory_ s = false -> pretendMadvise_ s = false ->
  (forall x, x ∈ advisedSlabs_ s -> isAdvised (header s (slabIdx s x)) = true) ->
  roundDownToSlabSize memSize = memorySize_ s ->
  excludeFromCoredump cfg = false \/ ok = true ->
  exists o hdrs, saveState s = Ok o /\
    restoreSlabAllocator (headers s) ok o (memoryStart_ s) memSize cfg =
      Ok (set_headers hdrs s) /\
    (forall i, header (set_headers hdrs s) i = header s i).
Proof.
  intros Hinv Hown Hpm Hadv Hsz Hcfg. pose proof Hinv as [Hwf Hpart _ _ _ _].
  destruct (sa_next_idx s Hwf) as [Hnx1 Hnx2].
  assert (Hfree := sa_idx_map s (freeSlabs_ s) Hwf ltac:(intros x Hx; apply Hpart; set_solver)).
  assert (Hadvm := sa_idx_map s (advisedSlabs_ s) Hwf ltac:(intros x Hx; apply Hpart; set_solver)).
  set (s1 := set_advisedSlabs [] s).
  destruct (restoreAdvised (slabIdx s <$> advisedSlabs_ s) s1) as (hdrs & Hfold & Hhdr).
  { intros i (x & -> & Hx)%list_elem_of_fmap. by apply Hadv. }
  assert (Hs1 : foldl restoreAdvisedSlab s1 (slabIdx s <$> advisedSlabs_ s) = set_headers hdrs s).
  { rewrite Hfold. simpl. change (getSlabForIdx s1) with (getSlabForIdx s). rewrite Hadvm.
    by destruct s. }
  rewrite Hs1 in Hhdr.
  unfold saveState, isRestorable. rewrite Hown; simpl negb.
  eexists _, hdrs. split; [reflexivity|]. split; [|done].
  unfold restoreSlabAllocator. cbn [so_memorySize so_nextSlabIdx so_canAllocate so_memoryPoolSize
    so_freeSlabIdxs so_advisedSlabIdxs so_slabSize so_minAllocSize].
  rewrite (sa_compute_start s Hwf). cbn [res_bind].
  rewrite !Z.eqb_refl. cbn [negb memorySize_ set_nextSlabAllocation memoryPoolSize_].
  rewrite Hsz, Z.eqb_refl, (sa_exclude_ok ok cfg Hcfg). cbn [negb res_bind].
  pose proof (restorePoolSizes_all (memoryPoolSize_ s) [] (replicate (Z.to_nat kMaxPoolId) 0)) as Hps.
  cbn [app length Nat.add] in Hps. rewrite Hps by (rewrite length_replicate; symmetry; apply Hwf).
  cbn [res_bind app]. match goal with |- context [foldl restoreAdvisedSlab ?x _] =>
    assert (Hx : x = s1) end.
  { unfold s1, set_freeSlabs, set_memoryPoolSize, set_nextSlabAllocation, set_advisedSlabs. simpl.
    rewrite Hnx1. f_equal; [exact Hfree|exact Hnx2|done|done]. }
  rewrite Hx, Hs1, (sa_checkState_ok s own) by done. done.
Qed.

(** ** Findings *)

(** A region of 8 GiB, carved into slabs of 64-byte allocations. *)
Definition demo_region : SlabAllocator := {|
  memoryPoolSize_ := replicate 127 0;
  freeSlabs_ := [];
  advisedSlabs_ := [];
  memoryStart_ := kSize;
  memorySize_ := 2048 * kSize;
  slabMemoryStart_ := 2 * kSize;
  nextSlabAllocation_ := 2049 * kSize;
  canAllocate_ := true;
  ownsMemory_ := false;
  pretendMadvise_ := false;
  headers := list_to_map ((fun i => (i, mkSlabHeader 0 0 0 64)) <$> [0; 1; 1024])
|}.

(** The alternative compression loses the high bits of a marker: it shifts a
    32-bit integer left, so an allocation past the first 4 GiB of slab memory
    comes back as an address in the first 4 GiB. *)
Example compress_alt_wraps :
  let p := 2 * kSize + 2 ^ 32 + 128 in
  is_alloc demo_region p /\
  unCompressAlt demo_region (compressAlt demo_region p) = Ok (2 * kSize + 128).
Proof.
  split; [|by vm_compute]. exists (2 * kSize + 2 ^ 32), 2. by vm_compute.
Qed.

(** Advising a slab away does not take its bytes off the pool's size and
    reclaiming it adds them, so a pool that gives one slab away and gets it
    back is counted with two. *)
Example advise_reclaim_counts_twice :
  let cfg := mkConfig false false in
  match makeSlabAllocator ∅ true kSize (4 * kSize) false cfg with
  | Ok s =>
      let '(r, s1) := (let! x := makeNewSlab 3 in
                       do! adviseSlab true x in reclaimSlab 3)%cl s in
      r = Ok (2 * kSize) /\ memoryPoolSize_ s1 !! 3%nat = Some (2 * kSize)
  | Throw _ => False
  end.
Proof. by vm_compute. Qed.

(** ** Witnesses *)

Lemma demo_region_wf : sa_wf demo_region.
Proof. by split. Qed.

Lemma demo_region_alloc : is_alloc demo_region (3 * kSize + 640).
Proof. exists (3 * kSize), 10. by vm_compute. Qed.

Definition demo_made : res SlabAllocator :=
  makeSlabAllocator ∅ true kSize (4 * kSize) false (mkConfig false false).
Definition demo_alloc : SlabAllocator :=
  match demo_made with Ok s => s | Throw _ => demo_region end.

Lemma slab_layout_witness :
  kSize + sizeof_SlabHeader * 3 <= slabMemoryStart_ demo_alloc /\
  getSlabForIdx demo_alloc 2 + kSize <= kSize + 4 * kSize.
Proof.
  destruct (slab_layout ∅ true kSize (4 * kSize) false (mkConfig false false) demo_alloc 2)
    as (H1 & H2 & _).
  - by vm_compute.
  - by vm_compute.
  - by vm_compute.
  - by split.
Defined.

(** One slab taken by pool 3. *)
Definition demo_taken : SlabAllocator := state_of (makeNewSlab 3) demo_alloc.

Lemma demo_taken_steps : sa_steps demo_alloc ∅ demo_taken {[ 2 * kSize := 3 ]}.
Proof.
  eapply (sa_step _ _ (SMake 3) (2 * kSize) demo_taken); [by vm_compute|by vm_compute|].
  apply sa_stop.
Qed.

Lemma slab_ownership_witness :
  exists r s', sa_exec (SFree (2 * kSize)) demo_taken = (Ok r, s') /\ r = 0 /\
    sa_inv s' ∅.
Proof.
  destruct (slab_ownership ∅ true kSize (4 * kSize) false (mkConfig false false) demo_alloc
    demo_taken {[ 2 * kSize := 3 ]} (SFree (2 * kSize))) as (_ & _ & _ & r & s' & Hr & Hres & Hinv).
  - by vm_compute.
  - by vm_compute.
  - exact demo_taken_steps.
  - by vm_compute.
  - exists r, s'. split; [exact Hr|]. split; [exact Hres|]. exact Hinv.
Defined.

Lemma slab_compress_roundtrip_witness :
  exists c : CompressedPtr4B, compress demo_region (3 * kSize + 640) false = Ok c /\
    unCompress demo_region c false = 3 * kSize + 640.
Proof.
  apply (slab_compress_roundtrip demo_region (3 * kSize + 640) false demo_region_wf
    demo_region_alloc). by vm_compute.
Defined.

Lemma slab_compress_alt_roundtrip_witness :
  unCompressAlt demo_region (compressAlt demo_region (3 * kSize + 640)) = Ok (3 * kSize + 640).
Proof.
  apply (slab_compress_alt_roundtrip demo_region (3 * kSize + 640) demo_region_wf
    demo_region_alloc). by vm_compute.
Defined.

Lemma demo_region_sizes (i : Z) :
  allocSize (header demo_region i) = 0 \/
  kMinAllocSize <= allocSize (header demo_region i) <= kSize.
Proof.
  unfold header. destruct (headers demo_region !! i) as [h|] eqn:E; [|by left].
  right. apply elem_of_list_to_map_2 in E.
  apply list_elem_of_fmap in E as (j & [= _ ->] & _). by vm_compute.
Qed.

Lemma slab_random_alloc_witness :
  let '(sz, p) := getRandomAlloc demo_region (kSize + 1000) in
  (sz = 0 /\ p = 0) \/
  (exists slab k, alloc_at demo_region slab k p /\
     sz = allocSize (header demo_region (slabIdx demo_region slab)) /\
     slab <= slabMemoryStart_ demo_region + (kSize + 1000) < slab + kSize).
Proof.
  apply (slab_random_alloc demo_region (kSize + 1000) demo_region_wf).
  - by vm_compute.
  - apply demo_region_sizes.
Defined.

Lemma slab_save_restore_witness :
  exists o hdrs, saveState demo_taken = Ok o /\
    restoreSlabAllocator (headers demo_taken) true o kSize (4 * kSize + 17) (mkConfig true false) =
      Ok (set_headers hdrs demo_taken) /\
    (forall i, header (set_headers hdrs demo_taken) i = header demo_taken i).
Proof.
  apply (slab_save_restore demo_taken {[ 2 * kSize := 3 ]} (4 * kSize + 17) true (mkConfig true false)).
  - apply (sa_steps_inv _ _ _ _ demo_taken_steps).
    by apply (sa_inv_init ∅ true kSize (4 * kSize) false (mkConfig false false)).
  - by vm_compute.
  - by vm_compute.
  - intros x Hx. vm_compute in Hx. by apply not_elem_of_nil in Hx.
  - by vm_compute.
  - by right.
Defined.
