(* ===== verification/AllocationClass.v ===== *)
(** * Allocation class

    Models [AllocationClass] (cachelib/allocator/memory/AllocationClass.{h,cpp}):
    the allocations of one size in one pool, carved from slabs, and the
    release of a slab.

    The state is the slab allocator, whose headers the class writes, and the
    members of the class.  A free list is the list of its nodes, as [SList]
    proves; every critical section is one atomic step.  [startSlabRelease]
    gives the lock up between its critical sections: what other threads do
    when the lock is free for the k-th time is [others k], and what
    [shouldAbortFn] answers then is [shouldAbort k].  The random choice of a
    slab is the argument [rnd]. *)

From S2P Require Import Prelude.
From S2P Require Import Slab.
From S2P Require SlabAllocator.

#[local] Open Scope Z_scope.
#[local] Open Scope cachelib_scope.

Record AllocationClass : Type := mkAllocationClass {
  classId_ : Z;
  poolId_ : Z;
  allocationSize_ : Z;
  currOffset_ : Z;
  currSlab_ : Z;
  allocatedSlabs_ : list Z;
  freeSlabs_ : list Z;
  freedAllocations_ : list Z;
  canAllocate_ : bool;
  activeReleases_ : Z;
  slabReleaseAllocMap_ : gmap Z (list bool)
}.

Definition set_curr (slab off : Z) (c : AllocationClass) : AllocationClass :=
  mkAllocationClass (classId_ c) (poolId_ c) (allocationSize_ c) off slab (allocatedSlabs_ c)
    (freeSlabs_ c) (freedAllocations_ c) (canAllocate_ c) (activeReleases_ c)
    (slabReleaseAllocMap_ c).
Definition set_allocatedSlabs (x : list Z) (c : AllocationClass) : AllocationClass :=
  mkAllocationClass (classId_ c) (poolId_ c) (allocationSize_ c) (currOffset_ c) (currSlab_ c) x
    (freeSlabs_ c) (freedAllocations_ c) (canAllocate_ c) (activeReleases_ c)
    (slabReleaseAllocMap_ c).
Definition set_freeSlabs (x : list Z) (c : AllocationClass) : AllocationClass :=
  mkAllocationClass (classId_ c) (poolId_ c) (allocationSize_ c) (currOffset_ c) (currSlab_ c)
    (allocatedSlabs_ c) x (freedAllocations_ c) (canAllocate_ c) (activeReleases_ c)
    (slabReleaseAllocMap_ c).
Definition set_freed (x : list Z) (c : AllocationClass) : AllocationClass :=
  mkAllocationClass (classId_ c) (poolId_ c) (allocationSize_ c) (currOffset_ c) (currSlab_ c)
    (allocatedSlabs_ c) (freeSlabs_ c) x (canAllocate_ c) (activeReleases_ c)
    (slabReleaseAllocMap_ c).
Definition set_canAllocate (x : bool) (c : AllocationClass) : AllocationClass :=
  mkAllocationClass (classId_ c) (poolId_ c) (allocationSize_ c) (currOffset_ c) (currSlab_ c)
    (allocatedSlabs_ c) (freeSlabs_ c) (freedAllocations_ c) x (activeReleases_ c)
    (slabReleaseAllocMap_ c).
Definition set_activeReleases (x : Z) (c : AllocationClass) : AllocationClass :=
  mkAllocationClass (classId_ c) (poolId_ c) (allocationSize_ c) (currOffset_ c) (currSlab_ c)
    (allocatedSlabs_ c) (freeSlabs_ c) (freedAllocations_ c) (canAllocate_ c) x
    (slabReleaseAllocMap_ c).
Definition set_relMap (x : gmap Z (list bool)) (c : AllocationClass) : AllocationClass :=
  mkAllocationClass (classId_ c) (poolId_ c) (allocationSize_ c) (currOffset_ c) (currSlab_ c)
    (allocatedSlabs_ c) (freeSlabs_ c) (freedAllocations_ c) (canAllocate_ c)
    (activeReleases_ c) x.

Record ACState : Type := mkACState {
  slabAlloc_ : SlabAllocator.SlabAllocator;
  self : AllocationClass
}.

Definition upd (f : AllocationClass -> AllocationClass) : M ACState unit :=
  modify (fun st => mkACState (slabAlloc_ st) (f (self st))).
Definition upd_header (i : Z) (f : SlabHeader -> SlabHeader) : M ACState unit :=
  modify (fun st => mkACState
    (SlabAllocator.set_header i (f (SlabAllocator.header (slabAlloc_ st) i)) (slabAlloc_ st))
    (self st)).

(** [header->classId = cid; header->allocSize = size]. *)
Definition sh_setClass (cid size : Z) (h : SlabHeader) : SlabHeader :=
  mkSlabHeader (poolId h) cid (flags h) size.

(** A packed [CompressedPtr5B]. *)
Definition sizeof_FreeAlloc : Z := 5.
Definition kFreeAllocsPruneLimit : Z := 4 * 1024.

Definition getAllocsPerSlab (c : AllocationClass) : Z := u32 (kSize / allocationSize_ c).
Definition isFull (c : AllocationClass) : bool := negb (canAllocate_ c).

(** ** Construction *)

Definition checkState (st : ACState) : res unit :=
  let c := self st in
  let hdr := SlabAllocator.getSlabHeader_slab (slabAlloc_ st) (currSlab_ c) in
  if classId_ c <? 0 then Throw InvalidArgument
  else if (allocationSize_ c <? sizeof_FreeAlloc) || (kSize <? allocationSize_ c)
  then Throw InvalidArgument
  else if negb (currSlab_ c =? 0) && bool_decide (hdr = None) then Throw InvalidArgument
  else if match hdr with
          | Some i => negb (classId (SlabAllocator.header (slabAlloc_ st) i) =? classId_ c)
          | None => false
          end then Throw InvalidArgument
  else if negb (currSlab_ c =? 0) && bool_decide (currSlab_ c ∉ allocatedSlabs_ c)
  then Throw InvalidArgument
  else Ok tt.

Definition makeAllocationClass (s : SlabAllocator.SlabAllocator) (cid pid allocSize : Z)
  : res AllocationClass :=
  let c := mkAllocationClass cid pid allocSize 0 0 [] [] [] true 0 ∅ in
  match checkState (mkACState s c) with Ok _ => Ok c | Throw e => Throw e end.

(** ** Allocating and freeing *)

Definition addSlabLocked (slab : Z) : M ACState unit :=
  do! upd (set_canAllocate true) in
  let! st := get in
  match SlabAllocator.getSlabHeader_slab (slabAlloc_ st) slab with
  | None => throw UndefinedBehavior
  | Some i =>
      do! upd_header i (sh_setClass (classId_ (self st)) (allocationSize_ (self st))) in
      upd (fun c => set_freeSlabs (freeSlabs_ c ++ [slab]) c)
  end.

Definition addSlab : Z -> M ACState unit := addSlabLocked.

Definition canAllocateFromCurrentSlabLocked (c : AllocationClass) : bool :=
  negb (currSlab_ c =? 0) && (u32 (currOffset_ c + allocationSize_ c) <=? kSize).

Definition allocateFromCurrentSlabLocked : M ACState Z :=
  let! st := get in
  let c := self st in
  do! upd (set_curr (currSlab_ c) (u32 (currOffset_ c + allocationSize_ c))) in
  ret (memoryAtOffset (currSlab_ c) (currOffset_ c)).

Definition setupCurrentSlabLocked : M ACState unit :=
  let! st := get in
  match last (freeSlabs_ (self st)) with
  | None => throw UndefinedBehavior
  | Some slab =>
      upd (fun c => set_allocatedSlabs (allocatedSlabs_ c ++ [slab])
             (set_curr slab 0 (set_freeSlabs (removelast (freeSlabs_ c)) c)))
  end.

Definition is_nil {A} (l : list A) : bool := match l with [] => true | _ => false end.

Definition allocateLocked : M ACState Z :=
  let! st := get in
  let c := self st in
  if is_nil (freedAllocations_ c) && is_nil (freeSlabs_ c) &&
     negb (canAllocateFromCurrentSlabLocked c)
  then do! upd (set_canAllocate false) in ret 0
  else
    match freedAllocations_ c with
    | p :: rest => do! upd (set_freed rest) in ret p
    | [] =>
        if canAllocateFromCurrentSlabLocked c then allocateFromCurrentSlabLocked
        else do! setupCurrentSlabLocked in allocateFromCurrentSlabLocked
    end.

Definition allocate : M ACState Z :=
  let! st := get in
  if negb (canAllocate_ (self st)) then ret 0 else allocateLocked.

Definition addSlabAndAllocate (slab : Z) : M ACState Z :=
  do! addSlabLocked slab in allocateLocked.

Definition getAllocForIdx (c : AllocationClass) (slab idx : Z) : res Z :=
  if getAllocsPerSlab c <=? idx then Throw InvalidArgument
  else Ok (memoryAtOffset slab (idx * allocationSize_ c)).

Definition getAllocIdx (c : AllocationClass) (slab alloc : Z) : Z :=
  (alloc - memoryAtOffset slab 0) / allocationSize_ c.

(** [allocState[idx] = true] on a vector; writing past its end is undefined. *)
Definition markFreed (slab idx : Z) (bs : list bool) : M ACState unit :=
  if decide (0 <= idx < Z.of_nat (length bs))
  then upd (fun c => set_relMap (<[slab := <[Z.to_nat idx := true]> bs]> (slabReleaseAllocMap_ c)) c)
  else throw UndefinedBehavior.

Definition free (memory : Z) : M ACState unit :=
  let! st := get in
  let c := self st in
  let slab := SlabAllocator.getSlabForMemory memory in
  match SlabAllocator.getSlabHeader (slabAlloc_ st) memory with
  | None => throw InvalidArgument
  | Some i =>
      let header := SlabAllocator.header (slabAlloc_ st) i in
      if negb (classId header =? classId_ c) then throw InvalidArgument
      else if isMarkedForRelease header then
        match slabReleaseAllocMap_ c !! slab with
        | None => throw RuntimeError
        | Some bs =>
            let idx := getAllocIdx c slab memory in
            match bs !! Z.to_nat idx with
            | None => throw UndefinedBehavior
            | Some true => throw InvalidArgument
            | Some false => markFreed slab idx bs
            end
        end
      else
        upd (fun c => set_canAllocate true (set_freed (memory :: freedAllocations_ c) c))
  end.

(** ** Releasing a slab *)

Definition getSlabForReleaseLocked (rnd : nat) (c : AllocationClass) : Z :=
  match freeSlabs_ c with
  | slab :: _ => slab
  | [] => default 0 (allocatedSlabs_ c !! rnd)
  end.

Definition createSlabReleaseAllocMapLocked (slab : Z) : M ACState unit :=
  let! st := get in
  let c := self st in
  match slabReleaseAllocMap_ c !! slab with
  | Some _ => throw RuntimeError
  | None =>
      upd (set_relMap (<[slab := replicate (Z.to_nat (getAllocsPerSlab c)) false]>
                         (slabReleaseAllocMap_ c)))
  end.

Definition getSlabReleaseAllocMapLocked (slab : Z) : M ACState (list bool) :=
  let! st := get in
  match slabReleaseAllocMap_ (self st) !! slab with
  | Some bs => ret bs
  | None => throw OutOfRange
  end.

(** The loop that marks the allocations of the current slab that were never
    carved. *)
Definition markFrom (i : Z) (bs : list bool) : list bool :=
  imap (fun j b => if i <=? Z.of_nat j then true else b) bs.

(** The first critical section: choose the slab and take it out of the class.
    A free slab is released at once. *)
Definition startSlabReleaseLocked (mode : SlabReleaseMode) (hint : Z) (rnd : nat)
  : M ACState (SlabReleaseContext + Z * Z) :=
  let! st := get in
  let c := self st in
  let hintSlab := SlabAllocator.getSlabForMemory hint in
  let slab := if hint =? 0 then getSlabForReleaseLocked rnd c else hintSlab in
  if slab =? 0 then throw InvalidArgument
  else
    match SlabAllocator.getSlabHeader_slab (slabAlloc_ st) slab with
    | None => throw InvalidArgument
    | Some i =>
        let header := SlabAllocator.header (slabAlloc_ st) i in
        if negb (classId header =? classId_ c) || negb (poolId header =? poolId_ c) ||
           isMarkedForRelease header
        then throw InvalidArgument
        else
          match find_index (Z.eqb slab) (freeSlabs_ c) with
          | Some k =>
              do! upd (set_freeSlabs (swap_remove k (freeSlabs_ c))) in
              do! upd_header i (sh_setClass kInvalidClassId 0) in
              ret (inl (releaseContext slab (poolId header) kInvalidClassId [] mode))
          | None =>
              do! upd_header i (setMarkedForRelease true) in
              do! createSlabReleaseAllocMapLocked slab in
              match find_index (Z.eqb slab) (allocatedSlabs_ c) with
              | None => throw RuntimeError
              | Some k =>
                  do! upd (set_allocatedSlabs (swap_remove k (allocatedSlabs_ c))) in
                  do! (if currSlab_ c =? slab then
                         let! bs := getSlabReleaseAllocMapLocked slab in
                         do! upd (fun c => set_relMap
                               (<[slab := markFrom (currOffset_ c / allocationSize_ c) bs]>
                                  (slabReleaseAllocMap_ c)) c) in
                         upd (set_curr 0 0)
                       else ret tt) in
                  ret (inr (slab, i))
              end
          end
    end.

(** The lists [pruneFreeAllocs] works on. *)
Record PruneLists : Type := mkPruneLists {
  freeAllocs : list Z;
  inSlab : list Z;
  notInSlab : list Z
}.

Fixpoint partitionLoop (s : SlabAllocator.SlabAllocator) (slab i : Z)
    (fa ins ns : list Z) : PruneLists :=
  match fa with
  | [] => mkPruneLists [] ins ns
  | alloc :: fa' =>
      if i <? kFreeAllocsPruneLimit then
        if SlabAllocator.isMemoryInSlab s alloc slab
        then partitionLoop s slab (i + 1) fa' (alloc :: ins) ns
        else partitionLoop s slab (i + 1) fa' ins (alloc :: ns)
      else mkPruneLists fa ins ns
  end.
Definition partitionFreeAllocs (s : SlabAllocator.SlabAllocator) (slab : Z) (l : PruneLists)
  : PruneLists := partitionLoop s slab 0 (freeAllocs l) (inSlab l) (notInSlab l).

(** Marking the allocations of [inSlab] as freed. *)
Fixpoint markInSlab (slab : Z) (ins : list Z) : M ACState unit :=
  match ins with
  | [] => ret tt
  | alloc :: ins' =>
      let! bs := getSlabReleaseAllocMapLocked slab in
      let! st := get in
      do! markFreed slab (getAllocIdx (self st) slab alloc) bs in
      markInSlab slab ins'
  end.

(** The critical section of a round. *)
Definition pruneRoundLocked (slab : Z) (l : PruneLists) : M ACState PruneLists :=
  do! (match notInSlab l with
       | [] => ret tt
       | ns => upd (fun c => set_canAllocate true (set_freed (ns ++ freedAllocations_ c) c))
       end) in
  do! getSlabReleaseAllocMapLocked slab in
  do! markInSlab slab (inSlab l) in
  ret (mkPruneLists (freeAllocs l) [] []).

(** The [do ... while (true)] loop; [k] numbers the times the lock was free so
    far, and is returned.  Every round but the last takes a node off
    [freeAllocs], which bounds the rounds. *)
Fixpoint pruneLoop (fuel : nat) (k : nat) (shouldAbort : nat -> bool)
    (others : nat -> ACState -> ACState) (slab : Z) (l : PruneLists)
  : M ACState (nat * bool * PruneLists) :=
  match fuel with
  | O => throw StillWaiting
  | S fuel' =>
      if shouldAbort k then ret (k, true, l)
      else
        do! modify (others k) in
        let! l := pruneRoundLocked slab l in
        match freeAllocs l with
        | [] => ret (S k, false, l)
        | _ :: _ =>
            let! st := get in
            pruneLoop fuel' (S k) shouldAbort others slab
              (partitionFreeAllocs (slabAlloc_ st) slab l)
        end
  end.

(** The allocations of the slab that are not marked. *)
Fixpoint activeFrom (size ptr : Z) (bs : list bool) : list Z :=
  match bs with
  | [] => []
  | freed :: bs' =>
      if freed then activeFrom size (ptr + size) bs' else ptr :: activeFrom size (ptr + size) bs'
  end.

Definition pruneFreeAllocs (shouldAbort : nat -> bool) (others : nat -> ACState -> ACState)
    (slab : Z) : M ACState (nat * bool * list Z) :=
  do! modify (others 0%nat) in
  let! st := get in
  do! upd (set_freed []) in
  let l := partitionFreeAllocs (slabAlloc_ st) slab
             (mkPruneLists (freedAllocations_ (self st)) [] []) in
  let! r := pruneLoop (S (length (freeAllocs l))) 1 shouldAbort others slab l in
  let '(k, aborted, l) := r in
  do! modify (others k) in
  if aborted then
    do! upd (fun c => set_freed
          (inSlab l ++ notInSlab l ++ freeAllocs l ++ freedAllocations_ c) c) in
    ret (S k, true, [])
  else
    let! bs := getSlabReleaseAllocMapLocked slab in
    let! st := get in
    ret (S k, false, activeFrom (allocationSize_ (self st)) (memoryAtOffset slab 0) bs).

Definition startSlabRelease (mode : SlabReleaseMode) (hint : Z) (rnd : nat)
    (shouldAbort : nat -> bool) (others : nat -> ACState -> ACState)
  : M ACState SlabReleaseContext :=
  let! st := get in
  if negb (hint =? 0) &&
     negb (SlabAllocator.isValidSlab (slabAlloc_ st) (SlabAllocator.getSlabForMemory hint))
  then throw InvalidArgument
  else
    let! r := startSlabReleaseLocked mode hint rnd in
    match r with
    | inl ctx => ret ctx
    | inr (slab, i) =>
        let! results := pruneFreeAllocs shouldAbort others slab in
        let '(k, aborted, activeAllocations) := results in
        do! modify (others k) in
        if aborted then
          do! upd_header i (setMarkedForRelease false) in
          do! upd (fun c => set_relMap (delete slab (slabReleaseAllocMap_ c)) c) in
          throw SlabReleaseAborted
        else
          match activeAllocations with
          | [] =>
              do! upd_header i (fun h => setMarkedForRelease false (sh_setClass kInvalidClassId 0 h)) in
              do! upd (fun c => set_relMap (delete slab (slabReleaseAllocMap_ c)) c) in
              let! st := get in
              ret (releaseContext slab (poolId (SlabAllocator.header (slabAlloc_ st) i))
                     (classId (SlabAllocator.header (slabAlloc_ st) i)) [] mode)
          | _ =>
              do! upd (fun c => set_activeReleases (activeReleases_ c + 1) c) in
              let! st := get in
              ret (releaseContext slab (poolId (SlabAllocator.header (slabAlloc_ st) i))
                     (classId (SlabAllocator.header (slabAlloc_ st) i)) activeAllocations mode)
          end
    end.

Definition allFreed (slab : Z) : M ACState bool :=
  let! st := get in
  match slabReleaseAllocMap_ (self st) !! slab with
  | None => throw RuntimeError
  | Some bs => ret (forallb id bs)
  end.

(** The busy-wait, with the steps of other threads between two polls. *)
Fixpoint waitUntilAllFreed (others : list (ACState -> ACState)) (slab : Z) : M ACState unit :=
  let! b := allFreed slab in
  if b then ret tt
  else
    match others with
    | [] => throw StillWaiting
    | o :: others' => do! modify o in waitUntilAllFreed others' slab
    end.

(** The free allocations of an aborted release, in the order the loop inserts
    them in front. *)
Fixpoint freedOf (c : AllocationClass) (slab idx : Z) (bs : list bool) (acc : list Z) : list Z :=
  match bs with
  | [] => acc
  | freed :: bs' =>
      freedOf c slab (idx + 1) bs'
        (if freed then memoryAtOffset slab (idx * allocationSize_ c) :: acc else acc)
  end.

Definition abortSlabRelease (context : SlabReleaseContext) : M ACState unit :=
  if isReleased context then throw InvalidArgument
  else
    let slab := slab_ context in
    let! st := get in
    let c := self st in
    let freed := match slabReleaseAllocMap_ c !! slab with
                 | Some bs => freedOf c slab 0 bs []
                 | None => []
                 end in
    do! upd (fun c => set_freed (freed ++ freedAllocations_ c) c) in
    do! (match freed with [] => ret tt | _ => upd (set_canAllocate true) end) in
    do! upd (fun c => set_relMap (delete slab (slabReleaseAllocMap_ c)) c) in
    do! upd (fun c => set_allocatedSlabs (allocatedSlabs_ c ++ [slab]) c) in
    match SlabAllocator.getSlabHeader_slab (slabAlloc_ st) slab with
    | None => throw UndefinedBehavior
    | Some i =>
        do! upd_header i (fun h => setMarkedForRelease false
              (sh_setClass (classId_ c) (allocationSize_ c) h)) in
        upd (fun c => set_activeReleases (activeReleases_ c - 1) c)
    end.

Definition completeSlabRelease (others : list (ACState -> ACState))
    (context : SlabReleaseContext) : M ACState unit :=
  if isReleased context then ret tt
  else
    let slab := slab_ context in
    let! st := get in
    match SlabAllocator.getSlabHeader_slab (slabAlloc_ st) slab with
    | None => throw RuntimeError
    | Some i =>
        let header := SlabAllocator.header (slabAlloc_ st) i in
        if negb (classId header =? classId_ (self st)) || negb (isMarkedForRelease header)
        then throw RuntimeError
        else
          do! waitUntilAllFreed others slab in
          do! upd (fun c => set_relMap (delete slab (slabReleaseAllocMap_ c)) c) in
          do! upd_header i (fun h => setMarkedForRelease false (sh_setClass kInvalidClassId 0 h)) in
          upd (fun c => set_activeReleases (activeReleases_ c - 1) c)
    end.

Definition checkSlabInRelease (ctx : SlabReleaseContext) (memory : Z) : M ACState unit :=
  let! st := get in
  match SlabAllocator.getSlabHeader (slabAlloc_ st) memory with
  | None => throw InvalidArgument
  | Some i =>
      let header := SlabAllocator.header (slabAlloc_ st) i in
      if negb (classId header =? classId_ (self st)) then throw InvalidArgument
      else if negb (isMarkedForRelease header) then throw InvalidArgument
      else if negb (SlabAllocator.getSlabForMemory memory =? slab_ ctx) then throw InvalidArgument
      else ret tt
  end.

Definition isAllocFreedLocked (memory : Z) : M ACState bool :=
  let! st := get in
  let slab := SlabAllocator.getSlabForMemory memory in
  match slabReleaseAllocMap_ (self st) !! slab with
  | None => throw RuntimeError
  | Some bs =>
      match bs !! Z.to_nat (getAllocIdx (self st) slab memory) with
      | Some b => ret b
      | None => throw UndefinedBehavior
      end
  end.

Definition isAllocFreed (ctx : SlabReleaseContext) (memory : Z) : M ACState bool :=
  do! checkSlabInRelease ctx memory in isAllocFreedLocked memory.

Definition processAllocForRelease (ctx : SlabReleaseContext) (memory : Z)
    (callback : Z -> M ACState unit) : M ACState unit :=
  do! checkSlabInRelease ctx memory in
  let! b := isAllocFreedLocked memory in
  if b then ret tt else callback memory.

(** ** Traversal, saving, statistics *)

Inductive SlabIterationStatus : Type :=
| kFinishedCurrentSlabAndContinue | kSkippedCurrentSlabAndContinue | kAbortIteration.

(** The addresses of the allocations of a slab. *)
Fixpoint allocsFrom (n : nat) (size ptr : Z) : list Z :=
  match n with O => [] | S n' => ptr :: allocsFrom n' size (ptr + size) end.

(** [callback] answers whether to go on; [gotLock]: whether [try_lock]
    succeeds.  The allocations visited are returned with the status. *)
Fixpoint traverse (callback : Z -> AllocInfo -> bool) (info : AllocInfo) (l : list Z)
  : list Z * SlabIterationStatus :=
  match l with
  | [] => ([], kFinishedCurrentSlabAndContinue)
  | p :: l' =>
      if callback p info
      then let '(seen, status) := traverse callback info l' in (p :: seen, status)
      else ([p], kAbortIteration)
  end.

Definition forEachAllocation (gotLock : bool) (slab : Z) (callback : Z -> AllocInfo -> bool)
    (st : ACState) : list Z * SlabIterationStatus :=
  if negb gotLock then ([], kSkippedCurrentSlabAndContinue)
  else
    match SlabAllocator.getSlabHeader_slab (slabAlloc_ st) slab with
    | None => ([], kSkippedCurrentSlabAndContinue)
    | Some i =>
        let h := SlabAllocator.header (slabAlloc_ st) i in
        if negb (classId h =? classId_ (self st)) || negb (poolId h =? poolId_ (self st)) ||
           isAdvised h || isMarkedForRelease h
        then ([], kSkippedCurrentSlabAndContinue)
        else traverse callback (mkAllocInfo (poolId h) (classId h) (allocSize h))
               (allocsFrom (Z.to_nat (getAllocsPerSlab (self st))) (allocationSize_ (self st)) slab)
    end.

Record AllocationClassObject : Type := mkAllocationClassObject {
  ao_classId : Z;
  ao_allocationSize : Z;
  ao_currSlabIdx : Z;
  ao_currOffset : Z;
  ao_allocatedSlabIdxs : list Z;
  ao_freeSlabIdxs : list Z;
  ao_freedAllocations : list Z;
  ao_canAllocate : bool
}.

(** The saved free list stands for the nodes it links in the slabs. *)
Definition saveState (st : ACState) : res AllocationClassObject :=
  let c := self st in
  if negb (SlabAllocator.isRestorable (slabAlloc_ st)) then Throw LogicError
  else if 0 <? activeReleases_ c then Throw LogicError
  else Ok {|
    ao_classId := classId_ c;
    ao_allocationSize := allocationSize_ c;
    ao_currSlabIdx := SlabAllocator.slabIdx (slabAlloc_ st) (currSlab_ c);
    ao_currOffset := currOffset_ c;
    ao_allocatedSlabIdxs := SlabAllocator.slabIdx (slabAlloc_ st) <$> allocatedSlabs_ c;
    ao_freeSlabIdxs := SlabAllocator.slabIdx (slabAlloc_ st) <$> freeSlabs_ c;
    ao_freedAllocations := freedAllocations_ c;
    ao_canAllocate := canAllocate_ c
  |}.

Definition restoreAllocationClass (s : SlabAllocator.SlabAllocator) (pid : Z)
    (o : AllocationClassObject) : res AllocationClass :=
  if negb (SlabAllocator.isRestorable s) then Throw LogicError
  else
    let c := {|
      classId_ := ao_classId o;
      poolId_ := pid;
      allocationSize_ := u32 (ao_allocationSize o);
      currOffset_ := u32 (ao_currOffset o);
      currSlab_ := SlabAllocator.getSlabForIdx s (ao_currSlabIdx o);
      allocatedSlabs_ := SlabAllocator.getSlabForIdx s <$> ao_allocatedSlabIdxs o;
      freeSlabs_ := SlabAllocator.getSlabForIdx s <$> ao_freeSlabIdxs o;
      freedAllocations_ := ao_freedAllocations o;
      canAllocate_ := ao_canAllocate o;
      activeReleases_ := 0;
      slabReleaseAllocMap_ := ∅ |} in
    match checkState (mkACState s c) with Ok _ => Ok c | Throw e => Throw e end.

Record ACStats : Type := mkACStats {
  acs_allocSize : Z;
  acs_allocsPerSlab : Z;
  acs_usedSlabs : Z;
  acs_freeSlabs : Z;
  acs_freeAllocs : Z;
  acs_activeAllocs : Z;
  acs_full : bool
}.

Definition getStats (c : AllocationClass) : ACStats :=
  let freeAllocsInCurrSlab :=
    if canAllocateFromCurrentSlabLocked c then (kSize - currOffset_ c) / allocationSize_ c else 0 in
  let perSlab := getAllocsPerSlab c in
  let nSlabsAllocated := Z.of_nat (length (allocatedSlabs_ c)) in
  let nFreedAllocs := Z.of_nat (length (freedAllocations_ c)) in
  mkACStats (allocationSize_ c) perSlab nSlabsAllocated (Z.of_nat (length (freeSlabs_ c)))
    nFreedAllocs (u64 (nSlabsAllocated * perSlab - nFreedAllocs - freeAllocsInCurrSlab))
    (isFull c).
