(* ===== verification/AllocationClassProofs.v ===== *)
(** * Allocation class: correctness

    The invariant of the allocation class and what each operation does to the
    set of live allocations. *)

From S2P Require Import Prelude.
From S2P Require Import Slab.
From S2P Require SlabAllocator.
From S2P Require SlabAllocatorProofs.
From S2P Require SlabAllocatorSpec.
From S2P Require Import AllocationClass.
From stdpp Require Import base tactics numbers gmap list.

#[local] Open Scope Z_scope.
#[local] Open Scope cachelib_scope.

Implicit Types (st : ACState) (c : AllocationClass) (x i p : Z).

(** ** Invariant *)

Definition addr c x i : Z := x + i * allocationSize_ c.
Definition hdr st x : SlabHeader :=
  SlabAllocator.header (slabAlloc_ st) (SlabAllocator.slabIdx (slabAlloc_ st) x).

(** The carved allocations: all of a slab in use or in release, up to the
    carving position in the current slab. *)
Definition slot c x i : Prop :=
  0 <= i < getAllocsPerSlab c /\
  (x ∈ allocatedSlabs_ c /\ (x = currSlab_ c -> i * allocationSize_ c < currOffset_ c) \/
   x ∈ dom (slabReleaseAllocMap_ c)).

(** The allocations of a slab in release that came back. *)
Definition marked c x i : Prop :=
  exists bs, slabReleaseAllocMap_ c !! x = Some bs /\ bs !! Z.to_nat i = Some true.

Definition slab_of c x : Prop :=
  x ∈ freeSlabs_ c ++ allocatedSlabs_ c \/ x ∈ dom (slabReleaseAllocMap_ c).

(** [live]: the allocations handed out; [off]: the free allocations a release
    has taken off the free list while it looks at them.  Every carved
    allocation is live, on the free list, in [off], or marked in the release
    of its slab, and only one of these. *)
Record ac_inv st (off : list Z) (live : gset Z) : Prop := {
  ai_wf : SlabAllocatorProofs.sa_wf (slabAlloc_ st);
  ai_size : kMinAllocSize <= allocationSize_ (self st) <= kSize;
  ai_slab x : slab_of (self st) x ->
    SlabAllocator.isValidSlab (slabAlloc_ st) x = true /\
    poolId (hdr st x) = poolId_ (self st) /\ classId (hdr st x) = classId_ (self st) /\
    allocSize (hdr st x) = allocationSize_ (self st) /\
    isMarkedForRelease (hdr st x) = bool_decide (x ∈ dom (slabReleaseAllocMap_ (self st)));
  ai_cid : 0 <= classId_ (self st);
  ai_owned x : SlabAllocator.isValidSlab (slabAlloc_ st) x = true ->
    poolId (hdr st x) = poolId_ (self st) -> classId (hdr st x) = classId_ (self st) ->
    slab_of (self st) x;
  ai_slabs_nodup : NoDup (freeSlabs_ (self st) ++ allocatedSlabs_ (self st));
  ai_rel_disj x : x ∈ dom (slabReleaseAllocMap_ (self st)) ->
    x ∉ freeSlabs_ (self st) ++ allocatedSlabs_ (self st);
  ai_rel_len x bs : slabReleaseAllocMap_ (self st) !! x = Some bs ->
    Z.of_nat (length bs) = getAllocsPerSlab (self st);
  ai_curr : currSlab_ (self st) = 0 \/
    (currSlab_ (self st) ∈ allocatedSlabs_ (self st) /\
     exists k, 0 <= k <= getAllocsPerSlab (self st) /\
       currOffset_ (self st) = k * allocationSize_ (self st));
  ai_off : is_u32 (currOffset_ (self st));
  ai_place p : p ∈ live \/ p ∈ freedAllocations_ (self st) ++ off ->
    exists x i, slot (self st) x i /\ ~ marked (self st) x i /\ p = addr (self st) x i;
  ai_cover x i : slot (self st) x i -> ~ marked (self st) x i ->
    addr (self st) x i ∈ live \/ addr (self st) x i ∈ freedAllocations_ (self st) ++ off;
  ai_nodup : NoDup (freedAllocations_ (self st) ++ off);
  ai_disj p : p ∈ live -> p ∉ freedAllocations_ (self st) ++ off;
  ai_can : canAllocate_ (self st) = false ->
    freedAllocations_ (self st) = [] /\ freeSlabs_ (self st) = [] /\
    canAllocateFromCurrentSlabLocked (self st) = false
}.

(** ** Addresses *)

Lemma ac_perSlab c :
  kMinAllocSize <= allocationSize_ c <= kSize ->
  getAllocsPerSlab c = kSize / allocationSize_ c /\ 1 <= getAllocsPerSlab c <= 65536 /\
  getAllocsPerSlab c * allocationSize_ c <= kSize /\
  kSize < (getAllocsPerSlab c + 1) * allocationSize_ c.
Proof.
  change kMinAllocSize with 64. assert (HK : kSize = 4194304) by done. intros Hs.
  assert (Hd : 1 <= kSize / allocationSize_ c <= 65536).
  { split; [apply Z.div_le_lower_bound; lia|].
    transitivity (kSize / 64); [|by vm_compute]. apply Z.div_le_compat_l; lia. }
  assert (He : getAllocsPerSlab c = kSize / allocationSize_ c).
  { unfold getAllocsPerSlab. apply u32_small. unfold is_u32. lia. }
  rewrite He. pose proof (Z.mul_div_le kSize (allocationSize_ c) ltac:(lia)).
  pose proof (Z.mul_succ_div_gt kSize (allocationSize_ c) ltac:(lia)). split_and!; lia.
Qed.

Lemma ac_addr st x i :
  SlabAllocatorProofs.sa_wf (slabAlloc_ st) ->
  kMinAllocSize <= allocationSize_ (self st) <= kSize ->
  SlabAllocator.isValidSlab (slabAlloc_ st) x = true -> 0 <= i < getAllocsPerSlab (self st) ->
  SlabAllocator.getSlabForMemory (addr (self st) x i) = x /\
  SlabAllocator.getSlabHeader (slabAlloc_ st) (addr (self st) x i) =
    Some (SlabAllocator.slabIdx (slabAlloc_ st) x) /\
  getAllocIdx (self st) x (addr (self st) x i) = i /\
  0 < x <= addr (self st) x i /\ addr (self st) x i + allocationSize_ (self st) <= x + kSize.
Proof.
  intros Hwf Hs Hv Hi. destruct (ac_perSlab _ Hs) as (_ & _ & Hm & _).
  change kMinAllocSize with 64 in Hs. assert (HK : kSize = 4194304) by done.
  pose proof (SlabAllocatorProofs.sa_valid_pos _ _ Hwf Hv) as Hpos.
  destruct (SlabAllocatorProofs.sa_slabIdx _ x Hwf Hv) as (_ & _ & _ & Hu).
  unfold addr. set (sz := allocationSize_ (self st)) in *.
  assert (Hi2 : 0 <= i * sz /\ i * sz + sz <= kSize) by nia.
  assert (Hg : SlabAllocator.getSlabForMemory (x + i * sz) = x).
  { pose proof Hv as [Hr Hal]%SlabAllocatorProofs.sa_valid_iff; [|done].
    destruct (SlabAllocatorProofs.sa_wf_units _ Hwf) as (a & b & d & Ha & Hb & Hd & _ & _ & _ & _ & _ & _ & Hle).
    pose proof (SlabAllocatorProofs.wf_end _ Hwf).
    apply Z.mod_divide in Hal as [q ->]; [|lia].
    rewrite SlabAllocatorProofs.sa_slabForMemory by lia.
    assert (Hmod : (q * kSize + i * sz) mod kSize = i * sz).
    { rewrite Z.add_comm, Z.mod_add by lia. apply Z.mod_small. lia. }
    lia. }
  split_and!; try lia.
  - unfold SlabAllocator.getSlabHeader. by rewrite Hg, Hv, <- Hu.
  - unfold getAllocIdx, memoryAtOffset. replace (x + i * sz - (x + 0)) with (i * sz) by lia.
    apply Z.div_mul. fold sz. lia.
Qed.

Lemma ac_slab_valid st off live x :
  ac_inv st off live -> slab_of (self st) x -> SlabAllocator.isValidSlab (slabAlloc_ st) x = true.
Proof. intros Hinv Hx. by apply (ai_slab _ _ _ Hinv). Qed.

Lemma slot_slab c x i : slot c x i -> slab_of c x.
Proof. intros (_ & [[Hx _]|Hx]); [left; set_solver|by right]. Qed.

(** Two carved allocations, or a carved one and the next one, with the same
    address are the same. *)
Lemma ac_addr_inj st off live x i y j :
  ac_inv st off live -> slab_of (self st) x -> slab_of (self st) y ->
  0 <= i < getAllocsPerSlab (self st) -> 0 <= j < getAllocsPerSlab (self st) ->
  addr (self st) x i = addr (self st) y j -> x = y /\ i = j.
Proof.
  intros Hinv Hx Hy Hi Hj He.
  destruct (ac_addr st x i (ai_wf _ _ _ Hinv) (ai_size _ _ _ Hinv)
    (ac_slab_valid _ _ _ _ Hinv Hx) Hi) as (Hgx & _ & Hix & _).
  destruct (ac_addr st y j (ai_wf _ _ _ Hinv) (ai_size _ _ _ Hinv)
    (ac_slab_valid _ _ _ _ Hinv Hy) Hj) as (Hgy & _ & Hjy & _).
  rewrite He in Hgx, Hix. assert (x = y) as -> by congruence. split; [done|]. congruence.
Qed.

(** Every address on the free list, off it or handed out is an allocation of a
    slab, so the compressed pointers of the free list can hold it. *)
Lemma ac_is_alloc st off live p :
  ac_inv st off live -> p ∈ live \/ p ∈ freedAllocations_ (self st) ++ off ->
  SlabAllocatorSpec.is_alloc (slabAlloc_ st) p.
Proof.
  intros Hinv Hp. destruct (ai_place _ _ _ Hinv p Hp) as (x & i & Hs & _ & ->).
  pose proof (slot_slab _ _ _ Hs) as Hx. destruct Hs as [Hi _].
  destruct (ai_slab _ _ _ Hinv x Hx) as (Hv & _ & _ & Hsz & _).
  destruct (ac_perSlab _ (ai_size _ _ _ Hinv)) as (_ & _ & Hm & _).
  pose proof (ai_size _ _ _ Hinv) as Hr. change kMinAllocSize with 64 in Hr.
  exists x, i. unfold SlabAllocatorSpec.alloc_at. fold (hdr st x). rewrite Hsz.
  split_and!; try done; [apply (ai_size _ _ _ Hinv)|lia|nia].
Qed.

(** What the class's own operations leave alone, and what a release of slab
    [x] relies on between its critical sections: the slab stays in release, its
    marks stay, and none of its allocations returns to the free list. *)
Definition same_class st st' : Prop :=
  allocationSize_ (self st') = allocationSize_ (self st) /\
  classId_ (self st') = classId_ (self st) /\ poolId_ (self st') = poolId_ (self st) /\
  SlabAllocator.slabMemoryStart_ (slabAlloc_ st') = SlabAllocator.slabMemoryStart_ (slabAlloc_ st).

Definition rely x st st' : Prop :=
  same_class st st' /\
  (x ∈ dom (slabReleaseAllocMap_ (self st)) ->
   x ∈ dom (slabReleaseAllocMap_ (self st')) /\
   (forall i, 0 <= i -> marked (self st) x i -> marked (self st') x i) /\
   forall p, p ∈ freedAllocations_ (self st') -> SlabAllocator.getSlabForMemory p = x ->
     p ∈ freedAllocations_ (self st)).

Lemma rely_refl x st : rely x st st.
Proof. done. Qed.

Lemma rely_trans x st st' st'' : rely x st st' -> rely x st' st'' -> rely x st st''.
Proof.
  intros ((A1 & A2 & A3 & A4) & B) ((A1' & A2' & A3' & A4') & B').
  split; [unfold same_class; split_and!; congruence|].
  intros Hx. destruct (B Hx) as (Hx' & D & C). destruct (B' Hx') as (Hx'' & D' & C'). auto.
Qed.

(** Moving allocations between the handed out ones, the free list and [off]. *)
Lemma ac_relist st off live fr can off' live' :
  ac_inv st off live ->
  (forall p, p ∈ live \/ p ∈ freedAllocations_ (self st) ++ off <-> p ∈ live' \/ p ∈ fr ++ off') ->
  NoDup (fr ++ off') -> (forall p, p ∈ live' -> p ∉ fr ++ off') ->
  (can = false -> fr = [] /\ freeSlabs_ (self st) = [] /\
     canAllocateFromCurrentSlabLocked (self st) = false) ->
  ac_inv (mkACState (slabAlloc_ st) (set_canAllocate can (set_freed fr (self st)))) off' live'.
Proof.
  intros [] Hiff Hnd Hdj Hcan. split; try done.
  - intros p Hp. by apply ai_place0, Hiff.
  - intros x i Hs Hm. by apply Hiff, ai_cover0.
Qed.

(** The current slab has room exactly when an allocation is left to carve. *)
Lemma ac_curr_room st off live k :
  ac_inv st off live -> 0 <= k <= getAllocsPerSlab (self st) ->
  currOffset_ (self st) = k * allocationSize_ (self st) ->
  u32 (currOffset_ (self st) + allocationSize_ (self st)) = (k + 1) * allocationSize_ (self st) /\
  ((k + 1) * allocationSize_ (self st) <= kSize <-> k < getAllocsPerSlab (self st)).
Proof.
  intros Hinv Hk Ho. destruct (ac_perSlab _ (ai_size _ _ _ Hinv)) as (_ & Hp & Hm & Hm').
  pose proof (ai_size _ _ _ Hinv) as Hs. change kMinAllocSize with 64 in Hs.
  assert (HK : kSize = 4194304) by done.
  split; [|nia]. rewrite Ho, u32_small; [lia|]. unfold is_u32. nia.
Qed.

(** Carving the next allocation of the current slab. *)
Lemma ac_carve st off live :
  ac_inv st off live -> canAllocateFromCurrentSlabLocked (self st) = true ->
  freedAllocations_ (self st) = [] ->
  exists r st', allocateFromCurrentSlabLocked st = (Ok r, st') /\ 0 < r /\ r ∉ live /\ r ∉ off /\
    ac_inv st' off ({[ r ]} ∪ live) /\ (forall x, rely x st st').
Proof.
  intros Hinv Hcan Hfr. unfold canAllocateFromCurrentSlabLocked in Hcan.
  apply andb_true_iff in Hcan as [Hc0%negb_true_iff%Z.eqb_neq Hle%Z.leb_le].
  destruct (ai_curr _ _ _ Hinv) as [|(Hin & k & Hk & Ho)]; [done|].
  destruct (ac_curr_room _ _ _ _ Hinv Hk Ho) as (Hu & Hiff). rewrite Hu in Hle.
  assert (Hlt : k < getAllocsPerSlab (self st)) by (by apply Hiff).
  set (x := currSlab_ (self st)) in *.
  pose proof (ai_size _ _ _ Hinv) as Hs. change kMinAllocSize with 64 in Hs.
  assert (Hsx : slab_of (self st) x) by (left; set_solver).
  assert (Hrd : x ∉ dom (slabReleaseAllocMap_ (self st))).
  { intros Hd. apply (ai_rel_disj _ _ _ Hinv) in Hd. set_solver. }
  destruct (ac_addr st x k (ai_wf _ _ _ Hinv) (ai_size _ _ _ Hinv)
    (ac_slab_valid _ _ _ _ Hinv Hsx) ltac:(lia)) as (_ & _ & _ & Hpos & _).
  assert (Hfresh : forall p, p ∈ live \/ p ∈ freedAllocations_ (self st) ++ off ->
    p <> addr (self st) x k).
  { intros p (y & j & Hsl & _ & ->)%(ai_place _ _ _ Hinv) He.
    destruct (ac_addr_inj _ _ _ y j x k Hinv (slot_slab _ _ _ Hsl) Hsx (proj1 Hsl) ltac:(lia) He)
      as [-> ->].
    destruct Hsl as (_ & [[_ Hc]|]); [|done]. specialize (Hc eq_refl). lia. }
  exists (addr (self st) x k). eexists. split.
  { unfold allocateFromCurrentSlabLocked, bind, get, upd, modify, ret. simpl.
    fold x. rewrite Hu. unfold memoryAtOffset. rewrite Ho. reflexivity. }
  split_and!; try lia.
  - intros Hp. by apply (Hfresh _ (or_introl Hp)).
  - intros Hp. apply (Hfresh (addr (self st) x k)); [|done]. right. set_solver.
  - destruct Hinv. split; simpl; try done.
    + right. split; [done|]. exists (k + 1). split; [simpl; unfold getAllocsPerSlab in *; simpl; lia|done].
    + assert (kSize = 4194304) by done. unfold is_u32. nia.
    + intros p Hp. destruct (decide (p = addr (self st) x k)) as [->|Hne].
      * exists x, k. split_and!; [|intros (bs & Hb & _); by apply elem_of_dom_2, Hrd in Hb|done].
        split; [change (getAllocsPerSlab _) with (getAllocsPerSlab (self st)); lia|]. left. split; [done|]. simpl. intros _. nia.
      * destruct (ai_place0 p) as (y & j & (Hj & Hsl) & Hm & ->); [set_solver|].
        exists y, j. split_and!; [|done..]. split; [done|]. destruct Hsl as [[? Hc]|]; [left|by right].
        split; [done|]. intros He. specialize (Hc He). simpl. nia.
    + intros y j (Hj & Hsl) Hm. change (addr _ y j) with (addr (self st) y j).
      destruct (decide (y = x /\ j = k)) as [[-> ->]|Hne]; [left; set_solver|].
      destruct (ai_cover0 y j) as [Hl|Hl]; [|done|left; set_solver|by right].
      split; [done|]. destruct Hsl as [[? Hc]|]; [left|by right]. simpl in Hc. split; [done|].
      intros ->. specialize (Hc eq_refl). assert (j <> k) by naive_solver. rewrite Ho. nia.
    + intros p [->%elem_of_singleton|Hp]%elem_of_union; [|by apply ai_disj0].
      intros Hp. by apply (Hfresh _ (or_intror Hp)).
    + intros Hcan. destruct (ai_can0 Hcan) as (? & ? & Hno).
      unfold canAllocateFromCurrentSlabLocked in Hno. fold x in Hno. rewrite Hu in Hno.
      apply andb_false_iff in Hno as [Hno%negb_false_iff%Z.eqb_eq|Hno%Z.leb_gt]; lia.
  - done.
Qed.

(** Taking the next free slab into use when the current one is used up. *)
Lemma ac_setup st off live :
  ac_inv st off live -> freeSlabs_ (self st) <> [] -> freedAllocations_ (self st) = [] ->
  canAllocateFromCurrentSlabLocked (self st) = false ->
  exists st', setupCurrentSlabLocked st = (Ok tt, st') /\ ac_inv st' off live /\
    freedAllocations_ (self st') = [] /\ canAllocateFromCurrentSlabLocked (self st') = true /\
    (forall x, rely x st st').
Proof.
  intros Hinv Hne Hfr Hno.
  destruct (last (freeSlabs_ (self st))) as [x|] eqn:Hl; [|by apply last_None in Hl].
  pose proof (last_snoc_inv _ _ Hl) as Hsp. set (rest := removelast (freeSlabs_ (self st))) in *.
  eexists. split.
  { unfold setupCurrentSlabLocked, bind, get, upd, modify. rewrite Hl. reflexivity. }
  assert (Hperm : forall y, y ∈ rest ++ (allocatedSlabs_ (self st) ++ [x]) <->
    y ∈ freeSlabs_ (self st) ++ allocatedSlabs_ (self st)).
  { intros y. rewrite Hsp. set_solver. }
  assert (Hof : forall y, slab_of (set_allocatedSlabs (allocatedSlabs_ (self st) ++ [x])
      (set_curr x 0 (set_freeSlabs rest (self st)))) y <-> slab_of (self st) y).
  { intros y. unfold slab_of; simpl. by rewrite Hperm. }
  assert (Hx : x ∈ freeSlabs_ (self st)) by (rewrite Hsp; set_solver).
  assert (Hxa : x ∉ allocatedSlabs_ (self st)).
  { pose proof (ai_slabs_nodup _ _ _ Hinv) as (_ & Hd & _)%NoDup_app. by apply Hd. }
  destruct (ac_perSlab _ (ai_size _ _ _ Hinv)) as (_ & Hp & _ & _).
  pose proof (ai_size _ _ _ Hinv) as Hs. change kMinAllocSize with 64 in Hs.
  assert (Hfull : currSlab_ (self st) <> 0 ->
    currOffset_ (self st) = getAllocsPerSlab (self st) * allocationSize_ (self st)).
  { intros Hc. destruct (ai_curr _ _ _ Hinv) as [|(_ & k & Hk & Ho)]; [done|].
    destruct (ac_curr_room _ _ _ _ Hinv Hk Ho) as (Hu & Hiff).
    unfold canAllocateFromCurrentSlabLocked in Hno. rewrite Hu in Hno.
    apply andb_false_iff in Hno as [Hno%negb_false_iff%Z.eqb_eq|Hno%Z.leb_gt]; [done|].
    replace (getAllocsPerSlab (self st)) with k by lia. done. }
  assert (Hpos : 0 < x).
  { apply (SlabAllocatorProofs.sa_valid_pos _ _ (ai_wf _ _ _ Hinv)), (ai_slab _ _ _ Hinv).
    left. set_solver. }
  split; [|split; [done|split; [|done]]].
  - destruct Hinv. split; simpl; try done.
    + intros y Hy. apply ai_slab0. by apply Hof.
    + intros y Hy1 Hy2 Hy3. apply Hof. by apply ai_owned0.
    + rewrite Hsp, <- app_assoc in ai_slabs_nodup0. fold rest.
      by rewrite (Permutation_app_comm (allocatedSlabs_ (self st))).
    + intros y Hy Hy'. by apply (ai_rel_disj0 y Hy), Hperm.
    + right. split; [set_solver|]. exists 0. change (getAllocsPerSlab _) with (getAllocsPerSlab (self st)). lia.
    + intros p Hp'. destruct (ai_place0 p Hp') as (y & j & (Hj & Hsl) & Hm & ->).
      exists y, j. split_and!; [|done..]. split; [done|]. destruct Hsl as [[? Hc]|]; [left|by right].
      simpl. split; [set_solver|]. intros ->. done.
    + intros y j (Hj & Hsl) Hm. change (addr _ y j) with (addr (self st) y j).
      change (getAllocsPerSlab _) with (getAllocsPerSlab (self st)) in Hj.
      apply ai_cover0; [|done]. split; [done|]. destruct Hsl as [[Hy Hc]|]; [left|by right]. simpl in *.
      assert (y <> x) by (intros ->; specialize (Hc eq_refl); nia).
      split; [set_solver|]. intros ->. destruct (decide (currSlab_ (self st) = 0)) as [E|E].
      * exfalso. assert (slab_of (self st) (currSlab_ (self st))) as Hv by (left; set_solver).
        apply ai_slab0 in Hv as [Hv _]. apply SlabAllocatorProofs.sa_valid_pos in Hv; [lia|done].
      * rewrite Hfull by done. nia.
    + intros Hc. destruct (ai_can0 Hc) as (_ & He & _). by rewrite He in Hx; set_solver.
  - unfold canAllocateFromCurrentSlabLocked; simpl. rewrite u32_small.
    + apply andb_true_iff. split; [apply negb_true_iff, Z.eqb_neq; lia|]. apply Z.leb_le. lia.
    + assert (kSize = 4194304) by done. unfold is_u32. lia.
Qed.

Lemma is_nil_spec {A} (l : list A) : is_nil l = true <-> l = [].
Proof. by destruct l. Qed.

(** [allocateLocked] hands out an allocation nobody holds, and returns null
    only when no allocation is left. *)
Lemma ac_allocateLocked st off live :
  ac_inv st off live ->
  exists r st', allocateLocked st = (Ok r, st') /\ (forall x, rely x st st') /\
    (r = 0 /\ ac_inv st' off live /\ freedAllocations_ (self st) = [] /\ freeSlabs_ (self st) = [] /\
       canAllocateFromCurrentSlabLocked (self st) = false \/
     0 < r /\ r ∉ live /\ r ∉ off /\ ac_inv st' off ({[ r ]} ∪ live)).
Proof.
  intros Hinv. unfold allocateLocked, bind at 1, get.
  destruct (freedAllocations_ (self st)) as [|p rest] eqn:Hfr.
  - destruct (canAllocateFromCurrentSlabLocked (self st)) eqn:Hcan.
    + rewrite andb_false_r. destruct (ac_carve _ _ _ Hinv Hcan Hfr)
        as (r & st' & Hrun & H1 & H2 & H3 & H4 & H5). rewrite Hrun. eauto 10.
    + destruct (freeSlabs_ (self st)) as [|f fs] eqn:Hfs; simpl.
      * do 2 eexists. split; [reflexivity|]. split; [done|].
        left. split_and!; try done.
        by apply (ac_relist st off live (freedAllocations_ (self st)) false); try apply Hinv.
      * destruct (ac_setup _ _ _ Hinv) as (st1 & Hrun & Hinv1 & Hfr1 & Hcan1 & Hr1);
          [by rewrite Hfs|done..|].
        destruct (ac_carve _ _ _ Hinv1 Hcan1 Hfr1) as (r & st2 & Hrun2 & H1 & H2 & H3 & H4 & H5).
        unfold bind. rewrite Hrun, Hrun2. exists r, st2. split; [done|].
        split; [intros x; by eapply rely_trans|]. by right.
  - simpl. do 2 eexists. split; [reflexivity|]. split.
    { intros x. split; [done|]. intros Hd. split; [done|]. split; [done|]. simpl. intros q Hq _. rewrite Hfr. set_solver. }
    right. pose proof (ai_nodup _ _ _ Hinv) as Hnd. rewrite Hfr in Hnd. simpl in Hnd.
    apply NoDup_cons in Hnd as [Hp Hnd].
    destruct (ai_place _ _ _ Hinv p) as (x & i & Hs & _ & Hpe); [rewrite Hfr; set_solver|].
    destruct (ac_addr st x i (ai_wf _ _ _ Hinv) (ai_size _ _ _ Hinv)
      (ac_slab_valid _ _ _ _ Hinv (slot_slab _ _ _ Hs)) (proj1 Hs)) as (_ & _ & _ & Hpos & _).
    assert (Hlive : p ∉ live).
    { intros Hl. apply (ai_disj _ _ _ Hinv p Hl). rewrite Hfr. set_solver. }
    split_and!; [lia|done|set_solver|].
    apply (ac_relist st off live rest (canAllocate_ (self st))); try done.
    + intros q. rewrite Hfr. set_solver.
    + intros q [->%elem_of_singleton|Hq]%elem_of_union; [done|].
      intros Hq'. apply (ai_disj _ _ _ Hinv q Hq). rewrite Hfr. set_solver.
    + intros Hc. destruct (ai_can _ _ _ Hinv Hc) as [He _]. by rewrite Hfr in He.
Qed.

Lemma ac_allocate st off live :
  ac_inv st off live ->
  exists r st', allocate st = (Ok r, st') /\ (forall x, rely x st st') /\
    (r = 0 /\ ac_inv st' off live /\ freedAllocations_ (self st) = [] /\ freeSlabs_ (self st) = [] /\
       canAllocateFromCurrentSlabLocked (self st) = false \/
     0 < r /\ r ∉ live /\ r ∉ off /\ ac_inv st' off ({[ r ]} ∪ live)).
Proof.
  intros Hinv. unfold allocate, bind, get. destruct (canAllocate_ (self st)) eqn:Hc; simpl.
  - by apply ac_allocateLocked.
  - exists 0, st. destruct (ai_can _ _ _ Hinv Hc) as (? & ? & ?). split; [done|]. split; [done|].
    by left.
Qed.

(** Writing the header of a slab. *)
Lemma hdr_write st x y h c' :
  SlabAllocatorProofs.sa_wf (slabAlloc_ st) ->
  SlabAllocator.isValidSlab (slabAlloc_ st) x = true ->
  SlabAllocator.isValidSlab (slabAlloc_ st) y = true ->
  hdr (mkACState (SlabAllocator.set_header (SlabAllocator.slabIdx (slabAlloc_ st) x) h
         (slabAlloc_ st)) c') y = if decide (y = x) then h else hdr st y.
Proof.
  intros Hwf Hx Hy. unfold hdr; simpl. rewrite SlabAllocatorProofs.header_set.
  change (SlabAllocator.slabIdx (SlabAllocator.set_header _ _ _) y)
    with (SlabAllocator.slabIdx (slabAlloc_ st) y).
  case_decide as E; case_decide as E'; try done; [|by subst].
  by apply SlabAllocatorProofs.sa_slabIdx_inj in E.
Qed.

Lemma header_write_wf s i h :
  SlabAllocatorProofs.sa_wf s -> SlabAllocatorProofs.sa_wf (SlabAllocator.set_header i h s).
Proof. intros []. by split. Qed.

Lemma marked_setMarked h b : isMarkedForRelease (setMarkedForRelease b h) = b.
Proof.
  unfold isMarkedForRelease, setMarkedForRelease, sh_isFlagSet. destruct b; cbn [flags sh_setFlag sh_unSetFlag];
    rewrite mask_test_bit by done.
  - rewrite Z.lor_spec. by rewrite orb_true_r.
  - rewrite Z.land_spec. by rewrite andb_false_r.
Qed.

(** A slab a class can take: valid, of the class's pool, not in release and
    not already in the class. *)
Definition can_add st x : Prop :=
  SlabAllocator.isValidSlab (slabAlloc_ st) x = true /\ poolId (hdr st x) = poolId_ (self st) /\
  isMarkedForRelease (hdr st x) = false /\ ~ slab_of (self st) x.

Lemma ac_addSlab st off live x :
  ac_inv st off live -> can_add st x ->
  exists st', addSlab x st = (Ok tt, st') /\ ac_inv st' off live /\ (forall y, rely y st st') /\
    freeSlabs_ (self st') = freeSlabs_ (self st) ++ [x].
Proof.
  intros Hinv (Hv & Hp & Hm & Hn). eexists. split.
  { unfold addSlab, addSlabLocked, bind, upd, upd_header, modify, get. cbn -[SlabAllocator.set_header].
    rewrite (SlabAllocatorProofs.sa_header_valid _ _ Hv). reflexivity. }
  cbn -[SlabAllocator.set_header]. split_and!; [|done..].
  assert (Hxr : x ∉ dom (slabReleaseAllocMap_ (self st))) by (intros ?; apply Hn; by right).
  assert (Hxl : x ∉ freeSlabs_ (self st) ++ allocatedSlabs_ (self st)) by (intros ?; apply Hn; by left).
  pose proof Hinv as []. split; cbn -[SlabAllocator.set_header]; try done.
  - by apply header_write_wf.
  - intros y Hy. assert (Hvy : SlabAllocator.isValidSlab (slabAlloc_ st) y = true).
    { destruct (decide (y = x)) as [->|]; [done|]. apply ai_slab0. unfold slab_of in *; simpl in *. set_solver. }
    split; [done|]. rewrite hdr_write by done. case_decide as E.
    + subst. split_and!; try done. rewrite bool_decide_false by done. exact Hm.
    + apply ai_slab0. unfold slab_of in *; simpl in *. set_solver.
  - intros y Hvy. rewrite hdr_write by done. unfold slab_of; simpl. case_decide as E.
    + subst. intros _ _. set_solver.
    + intros Hy1 Hy2. destruct (ai_owned0 y Hvy Hy1 Hy2); set_solver.
  - rewrite <- app_assoc. rewrite (Permutation_app_comm [x]), app_assoc.
    apply NoDup_app. split_and!; [done| |apply NoDup_singleton]. set_solver.
  - intros y Hy. pose proof (ai_rel_disj0 y Hy). set_solver.
Qed.

(** Marking an allocation of a slab in release. *)
Definition markAt x i bs c : AllocationClass :=
  set_relMap (<[x := <[Z.to_nat i := true]> bs]> (slabReleaseAllocMap_ c)) c.

Lemma marked_markAt c x i bs y j :
  slabReleaseAllocMap_ c !! x = Some bs -> 0 <= i < Z.of_nat (length bs) -> 0 <= j ->
  marked (markAt x i bs c) y j <-> (y = x /\ j = i) \/ marked c y j.
Proof.
  intros Hb Hi Hj. unfold marked; simpl. destruct (decide (y = x)) as [->|Hne].
  - rewrite lookup_insert_eq. split.
    + intros (? & [= <-] & Hl). destruct (decide (j = i)) as [->|]; [by left|].
      rewrite list_lookup_insert_ne in Hl by lia. right. eauto.
    + intros Hc. exists (<[Z.to_nat i:=true]> bs). split; [done|].
      destruct (decide (j = i)) as [->|]; [apply list_lookup_insert_eq; lia|].
      rewrite list_lookup_insert_ne by lia. destruct Hc as [[_ ->]|(? & ? & ?)]; [done|]. congruence.
  - rewrite lookup_insert_ne by done. split; [by right|]. intros [[-> _]|]; done.
Qed.

Lemma dom_markAt c x i bs :
  slabReleaseAllocMap_ c !! x = Some bs ->
  dom (slabReleaseAllocMap_ (markAt x i bs c)) = dom (slabReleaseAllocMap_ c).
Proof. intros Hb. simpl. apply dom_insert_lookup_L. eauto. Qed.

Lemma ac_mark st off live x i bs off' live' :
  ac_inv st off live -> slabReleaseAllocMap_ (self st) !! x = Some bs ->
  0 <= i < getAllocsPerSlab (self st) ->
  (forall q, q ∈ live' \/ q ∈ freedAllocations_ (self st) ++ off' <->
     q <> addr (self st) x i /\ (q ∈ live \/ q ∈ freedAllocations_ (self st) ++ off)) ->
  NoDup (freedAllocations_ (self st) ++ off') ->
  (forall q, q ∈ live' -> q ∉ freedAllocations_ (self st) ++ off') ->
  ac_inv (mkACState (slabAlloc_ st) (markAt x i bs (self st))) off' live'.
Proof.
  intros Hinv Hb Hi Hiff Hnd Hdj. pose proof (ai_rel_len _ _ _ Hinv x bs Hb) as Hlen.
  pose proof (dom_markAt (self st) x i bs Hb) as Hdom.
  assert (Hx : slab_of (self st) x) by (right; by eapply elem_of_dom_2).
  pose proof Hinv as []. split; cbn [slabAlloc_ self]; try done.
  - intros y Hy. unfold slab_of in Hy. rewrite Hdom in *. by apply ai_slab0.
  - intros y Hy1 Hy2 Hy3. unfold slab_of. rewrite Hdom. by apply ai_owned0.
  - intros y Hy. rewrite Hdom in Hy. by apply ai_rel_disj0.
  - intros y bs' Hy. cbn in Hy. change (getAllocsPerSlab _) with (getAllocsPerSlab (self st)).
    destruct (decide (y = x)) as [->|].
    + rewrite lookup_insert_eq in Hy. injection Hy as <-. by rewrite length_insert.
    + rewrite lookup_insert_ne in Hy by done. eauto.
  - intros q [Hne Hq]%Hiff. destruct (ai_place0 q Hq) as (y & j & Hs & Hm & ->).
    exists y, j. split_and!; [|rewrite marked_markAt by (try done; destruct Hs; lia); naive_solver|done].
    destruct Hs as [? Hs]. split; [done|]. by rewrite Hdom.
  - intros y j [Hj Hs] Hm. change (addr _ y j) with (addr (self st) y j).
    change (getAllocsPerSlab _) with (getAllocsPerSlab (self st)) in Hj.
    rewrite Hdom in Hs. rewrite marked_markAt in Hm by (try done; lia).
    assert (Hsl : slot (self st) y j) by (split; done).
    apply Hiff. split; [|apply ai_cover0; [done|tauto]].
    intros He. destruct (ac_addr_inj _ _ _ y j x i Hinv (slot_slab _ _ _ Hsl) Hx Hj Hi He). tauto.
Qed.

(** Freeing an allocation that is handed out succeeds and takes it back. *)
Lemma ac_free st off live p :
  ac_inv st off live -> p ∈ live ->
  exists st', free p st = (Ok tt, st') /\ ac_inv st' off (live ∖ {[ p ]}) /\ (forall x, rely x st st').
Proof.
  intros Hinv Hp. destruct (ai_place _ _ _ Hinv p (or_introl Hp)) as (x & i & Hs & Hm & Hpe).
  pose proof (slot_slab _ _ _ Hs) as Hx. pose proof (proj1 Hs) as Hi.
  destruct (ac_addr st x i (ai_wf _ _ _ Hinv) (ai_size _ _ _ Hinv) (ac_slab_valid _ _ _ _ Hinv Hx) Hi)
    as (Hg & Hh & Hidx & _). rewrite <- Hpe in Hg, Hh, Hidx.
  destruct (ai_slab _ _ _ Hinv x Hx) as (_ & _ & Hc & _ & Hmk).
  pose proof (ai_disj _ _ _ Hinv p Hp) as Hpf.
  unfold free, bind, get. rewrite Hh, Hg. fold (hdr st x). rewrite Hc, Z.eqb_refl, Hmk. cbn [negb].
  case_bool_decide as Hd.
  - destruct (slabReleaseAllocMap_ (self st) !! x) as [bs|] eqn:Hb; [|by apply not_elem_of_dom in Hb].
    pose proof (ai_rel_len _ _ _ Hinv x bs Hb) as Hlen. rewrite Hidx.
    destruct (lookup_lt_is_Some_2 bs (Z.to_nat i)) as [b Hbi]; [lia|]. rewrite Hbi.
    destruct b; [exfalso; apply Hm; by exists bs|]. unfold markFreed. rewrite decide_True by lia.
    eexists. split; [reflexivity|]. fold (markAt x i bs (self st)). split.
    + apply (ac_mark st off live); try done; rewrite <- ?Hpe.
      * intros q. destruct (decide (q = p)) as [->|]; set_solver.
      * apply Hinv.
      * intros q Hq. apply (ai_disj _ _ _ Hinv). set_solver.
    + intros y. split; [done|]. intros Hy. split.
      * change (y ∈ dom (slabReleaseAllocMap_ (markAt x i bs (self st)))). by rewrite (dom_markAt _ _ _ _ Hb).
      * split; [|done]. intros j Hj Hmj. apply marked_markAt; [done|lia|done|by right].
  - eexists. split; [reflexivity|]. split.
    + apply (ac_relist st off live (p :: freedAllocations_ (self st)) true); try done.
      * intros q. destruct (decide (q = p)) as [->|]; set_solver.
      * apply NoDup_cons. split; [done|apply Hinv].
      * intros q Hq. pose proof (ai_disj _ _ _ Hinv q ltac:(set_solver)). set_solver.
    + intros y. split; [done|]. intros Hy. split; [done|]. split; [done|]. simpl.
      intros q [->|Hq]%elem_of_cons He; [|done]. congruence.
Qed.

(** ** Releasing a slab *)

(** The class after slab [x], the [k]-th allocated slab, was taken out for
    release. *)
Definition takenOut x k bs cs co c : AllocationClass :=
  set_curr cs co (set_relMap (<[x := bs]> (slabReleaseAllocMap_ c))
    (set_allocatedSlabs (swap_remove k (allocatedSlabs_ c)) c)).

Lemma ac_take_out st off live x k bs cs co :
  ac_inv st off live -> allocatedSlabs_ (self st) !! k = Some x ->
  Z.of_nat (length bs) = getAllocsPerSlab (self st) ->
  (cs = 0 /\ (currSlab_ (self st) = x \/ currSlab_ (self st) = 0) \/
   cs = currSlab_ (self st) /\ cs <> x /\ co = currOffset_ (self st)) -> is_u32 co ->
  (forall i, 0 <= i < getAllocsPerSlab (self st) ->
     (bs !! Z.to_nat i = Some true <->
      x = currSlab_ (self st) /\ currOffset_ (self st) <= i * allocationSize_ (self st))) ->
  ac_inv (mkACState (SlabAllocator.set_header (SlabAllocator.slabIdx (slabAlloc_ st) x)
      (setMarkedForRelease true (hdr st x)) (slabAlloc_ st)) (takenOut x k bs cs co (self st)))
    off live.
Proof.
  intros Hinv Hk Hlen Hcs Hco Hbs.
  assert (Hxa : x ∈ allocatedSlabs_ (self st)) by (by eapply list_elem_of_lookup_2).
  assert (Hx : slab_of (self st) x) by (left; set_solver).
  pose proof (ac_slab_valid _ _ _ _ Hinv Hx) as Hv.
  assert (Hxr : x ∉ dom (slabReleaseAllocMap_ (self st))).
  { intros Hd. apply (ai_rel_disj _ _ _ Hinv) in Hd. set_solver. }
  set (c' := takenOut x k bs cs co (self st)).
  pose proof (swap_remove_elem k (allocatedSlabs_ (self st)) x) as Hel.
  set (al := swap_remove k (allocatedSlabs_ (self st))) in *.
  assert (Hel' : forall y, y ∈ allocatedSlabs_ (self st) <-> y = x \/ y ∈ al) by auto. clear Hel.
  assert (Hdom : forall y, y ∈ dom (slabReleaseAllocMap_ c') <->
    y = x \/ y ∈ dom (slabReleaseAllocMap_ (self st))) by (intros y; simpl; set_solver).
  assert (Hnd : NoDup (x :: freeSlabs_ (self st) ++ al)).
  { rewrite Permutation_middle. unfold al. rewrite (swap_remove_Permutation _ _ _ Hk). apply Hinv. }
  apply NoDup_cons in Hnd as [Hxn Hnd].
  assert (Hof : forall y, slab_of c' y <-> slab_of (self st) y).
  { intros y. unfold slab_of. rewrite Hdom. simpl. fold al. set_solver. }
  assert (Hcur0 : currSlab_ (self st) <> 0 -> currSlab_ (self st) ∈ allocatedSlabs_ (self st)).
  { destruct (ai_curr _ _ _ Hinv) as [|[? _]]; done. }
  assert (Hval0 : forall y, slab_of (self st) y -> y <> 0).
  { intros y Hy%(ac_slab_valid _ _ _ _ Hinv)%SlabAllocatorProofs.sa_valid_pos; [lia|apply Hinv]. }
  assert (Hmk : forall y i, 0 <= i < getAllocsPerSlab (self st) ->
    slot c' y i /\ ~ marked c' y i <-> slot (self st) y i /\ ~ marked (self st) y i).
  { intros y i Hi. unfold slot, marked. rewrite Hdom.
    change (getAllocsPerSlab c') with (getAllocsPerSlab (self st)). simpl.
    destruct (decide (y = x)) as [->|Hne].
    - rewrite lookup_insert_eq. specialize (Hbs i Hi). split.
      + intros [_ Hm]. split; [split; [done|]; left; split; [done|]; intros He|].
        * destruct (decide (currOffset_ (self st) <= i * allocationSize_ (self st))); [|lia].
          exfalso. apply Hm. exists bs. tauto.
        * intros (bs' & Hb & _). apply Hxr. by eapply elem_of_dom_2.
      + intros [[_ [[_ Hc]|]] _]; [|done]. split; [split; [done|right; by left]|].
        intros (? & [= <-] & [He Hle]%Hbs). specialize (Hc He). lia.
    - rewrite lookup_insert_ne by done.
      assert (Hy : y ∈ al <-> y ∈ allocatedSlabs_ (self st)) by set_solver.
      fold al. rewrite Hy. destruct Hcs as [[-> Hcs]|(-> & Hcs & ->)]; [|tauto].
      assert (y ∈ allocatedSlabs_ (self st) -> y <> 0 /\ y <> currSlab_ (self st)).
      { intros Hya. assert (slab_of (self st) y) as Hys%Hval0 by (left; set_solver). intuition congruence. }
      tauto. }
  pose proof Hinv as []. split; cbn [slabAlloc_ self]; try done.
  - by apply header_write_wf.
  - intros y Hy%Hof. destruct (ai_slab0 y Hy) as (Hvy & H1 & H2 & H3 & H4).
    split; [done|]. rewrite hdr_write by done. destruct (decide (y = x)) as [E|E]; [subst y|].
    + destruct (ai_slab0 x Hx) as (_ & ? & ? & ? & _). split_and!; try done.
      rewrite marked_setMarked, bool_decide_true; [done|]. apply Hdom. by left.
    + split_and!; try done. rewrite H4. apply bool_decide_ext. rewrite Hdom. tauto.
  - intros y Hvy. rewrite hdr_write by done. case_decide as E; [subst y|]; rewrite Hof; auto.
  - intros y Hy%Hdom. simpl. destruct Hy as [->|Hy]; [done|].
    specialize (ai_rel_disj0 y Hy). fold al. set_solver.
  - intros y bs' Hb. change (getAllocsPerSlab c') with (getAllocsPerSlab (self st)). simpl in Hb.
    destruct (decide (y = x)) as [->|]; [|rewrite lookup_insert_ne in Hb by done; eauto].
    rewrite lookup_insert_eq in Hb. by injection Hb as <-.
  - simpl. destruct Hcs as [[-> Hcs]|(-> & Hcs & ->)]; [by left|].
    destruct ai_curr0 as [|[Hc Hk']]; [by left|right]. split; [|done]. apply Hel' in Hc as [|]; [congruence|done].
  - intros p Hp. destruct (ai_place0 p Hp) as (y & i & Hs & Hm & ->). exists y, i.
    apply and_assoc. split; [|done]. apply Hmk; [apply Hs|done].
  - intros y i Hs Hm. destruct (proj1 (Hmk y i (proj1 Hs)) (conj Hs Hm)). by apply ai_cover0.
  - intros Hc. destruct (ai_can0 Hc) as (? & ? & Hn). split_and!; try done.
    destruct Hcs as [[-> Hcs]|(-> & Hcs & ->)]; done.
Qed.

(** A header that leaves the class: no class owns the slab. *)
Definition unclassed (h h' : SlabHeader) : Prop := poolId h' = poolId h /\ classId h' = kInvalidClassId.

(** A free slab leaves the class. *)
Lemma ac_drop_free st off live x k h :
  ac_inv st off live -> freeSlabs_ (self st) !! k = Some x -> unclassed (hdr st x) h ->
  let st' := mkACState (SlabAllocator.set_header (SlabAllocator.slabIdx (slabAlloc_ st) x) h
               (slabAlloc_ st)) (set_freeSlabs (swap_remove k (freeSlabs_ (self st))) (self st)) in
  ac_inv st' off live /\ ~ slab_of (self st') x /\ forall y, rely y st st'.
Proof.
  intros Hinv Hk (Hh1 & Hh2) st'.
  assert (Hel : forall y, y ∈ freeSlabs_ (self st) <-> y = x \/ y ∈ swap_remove k (freeSlabs_ (self st)))
    by (intros; by apply swap_remove_elem).
  set (fl := swap_remove k (freeSlabs_ (self st))) in *.
  assert (Hnd : NoDup (x :: fl ++ allocatedSlabs_ (self st))).
  { change (x :: fl ++ allocatedSlabs_ (self st)) with ((x :: fl) ++ allocatedSlabs_ (self st)).
    unfold fl. rewrite (swap_remove_Permutation _ _ _ Hk). apply Hinv. }
  apply NoDup_cons in Hnd as [Hxn Hnd].
  assert (Hx : slab_of (self st) x) by (left; set_solver).
  pose proof (ac_slab_valid _ _ _ _ Hinv Hx) as Hv.
  assert (Hxr : x ∉ dom (slabReleaseAllocMap_ (self st))).
  { intros Hd. apply (ai_rel_disj _ _ _ Hinv) in Hd. set_solver. }
  assert (Hof : forall y, slab_of (self st') y <-> y <> x /\ slab_of (self st) y).
  { intros y. unfold slab_of; simpl. fold fl. destruct (decide (y = x)) as [->|]; set_solver. }
  split; [|split; [rewrite Hof; tauto|done]].
  pose proof Hinv as []. split; cbn [slabAlloc_ self st']; try done.
  - by apply header_write_wf.
  - intros y [Hne Hy]%Hof. destruct (ai_slab0 y Hy) as (Hvy & H1). split; [done|].
    unfold st'. rewrite hdr_write by done. by rewrite decide_False by done.
  - intros y Hvy. unfold st'. rewrite hdr_write by done. case_decide as E.
    + intros _. change (classId_ (set_freeSlabs _ _)) with (classId_ (self st)). rewrite Hh2.
      unfold kInvalidClassId. lia.
    + intros. apply Hof. auto.
  - intros y Hy. simpl. fold fl. specialize (ai_rel_disj0 y Hy). set_solver.
  - intros Hc. destruct (ai_can0 Hc) as (_ & He & _). by rewrite He in Hk.
Qed.

(** A slab all of whose allocations came back leaves the class. *)
Lemma ac_drop_released st off live x bs h n :
  ac_inv st off live -> slabReleaseAllocMap_ (self st) !! x = Some bs ->
  (forall b, b ∈ bs -> b = true) -> unclassed (hdr st x) h ->
  let st' := mkACState (SlabAllocator.set_header (SlabAllocator.slabIdx (slabAlloc_ st) x) h
               (slabAlloc_ st))
               (set_activeReleases n (set_relMap (delete x (slabReleaseAllocMap_ (self st))) (self st))) in
  ac_inv st' off live /\ ~ slab_of (self st') x /\ forall y, y <> x -> rely y st st'.
Proof.
  intros Hinv Hb Hall (Hh1 & Hh2) st'.
  assert (Hxd : x ∈ dom (slabReleaseAllocMap_ (self st))) by (by eapply elem_of_dom_2).
  assert (Hx : slab_of (self st) x) by (by right).
  pose proof (ac_slab_valid _ _ _ _ Hinv Hx) as Hv.
  pose proof (ai_rel_disj _ _ _ Hinv x Hxd) as Hxl.
  assert (Hdom : forall y, y ∈ dom (slabReleaseAllocMap_ (self st')) <->
    y <> x /\ y ∈ dom (slabReleaseAllocMap_ (self st))) by (intros y; simpl; set_solver).
  assert (Hof : forall y, slab_of (self st') y <-> y <> x /\ slab_of (self st) y).
  { intros y. unfold slab_of. rewrite Hdom. simpl. destruct (decide (y = x)) as [->|]; tauto. }
  assert (Hmk : forall y i, 0 <= i < getAllocsPerSlab (self st) ->
    slot (self st') y i /\ ~ marked (self st') y i <-> slot (self st) y i /\ ~ marked (self st) y i).
  { intros y i Hi. unfold slot, marked. rewrite Hdom.
    change (getAllocsPerSlab (self st')) with (getAllocsPerSlab (self st)). simpl.
    destruct (decide (y = x)) as [->|Hne].
    - split; [set_solver|]. intros [_ Hm]. exfalso. apply Hm. exists bs. split; [done|].
      pose proof (ai_rel_len _ _ _ Hinv x bs Hb).
      destruct (lookup_lt_is_Some_2 bs (Z.to_nat i)) as [b Hbi]; [lia|].
      rewrite Hbi. f_equal. eapply Hall, list_elem_of_lookup_2, Hbi.
    - rewrite lookup_delete_ne by done. tauto. }
  split; [|split; [rewrite Hof; tauto|]].
  - pose proof Hinv as []. split; cbn [slabAlloc_ self st']; try done.
    + by apply header_write_wf.
    + intros y [Hne Hy]%Hof. destruct (ai_slab0 y Hy) as (Hvy & H1 & H2 & H3 & H4). split; [done|].
      unfold st'. rewrite hdr_write by done. rewrite decide_False by done. split_and!; try done.
      rewrite H4. apply bool_decide_ext. change (y ∈ dom (slabReleaseAllocMap_ (self st)) <->
        y ∈ dom (slabReleaseAllocMap_ (self st'))). rewrite Hdom. tauto.
    + intros y Hvy. unfold st'. rewrite hdr_write by done. case_decide as E.
      * intros _. change (classId_ (set_activeReleases _ _)) with (classId_ (self st)). rewrite Hh2.
        unfold kInvalidClassId. lia.
      * intros. apply Hof. auto.
    + intros y Hy. change (y ∈ dom (slabReleaseAllocMap_ (self st'))) in Hy.
      apply Hdom in Hy as [_ Hy]. by apply ai_rel_disj0.
    + intros y bs' Hy. simpl in Hy. apply lookup_delete_Some in Hy as [_ Hy]. by apply (ai_rel_len0 y).
    + intros p Hp. destruct (ai_place0 p Hp) as (y & i & Hs & Hm & ->). exists y, i.
      apply and_assoc. split; [|done]. apply (Hmk y i); [apply Hs|done].
    + intros y i Hs Hm. destruct (proj1 (Hmk y i (proj1 Hs)) (conj Hs Hm)). by apply ai_cover0.
  - intros y Hy. split; [done|]. intros Hd. split; [by apply Hdom|]. split; [|done].
    intros i Hi (bs' & Hb' & Hl). exists bs'. split; [|done]. simpl. by rewrite lookup_delete_ne.
Qed.

(** The slab a release picks. *)
Definition chosen (hint : Z) (rnd : nat) c : Z :=
  if hint =? 0 then getSlabForReleaseLocked rnd c else SlabAllocator.getSlabForMemory hint.

Lemma markFrom_lookup j bs n :
  markFrom j bs !! n = (fun b => if j <=? Z.of_nat n then true else b) <$> bs !! n.
Proof. unfold markFrom. by rewrite list_lookup_imap. Qed.

Lemma find_index_slab x l k : find_index (Z.eqb x) l = Some k -> l !! k = Some x.
Proof. intros (y & Hy & ->%Z.eqb_eq)%find_index_Some. done. Qed.

Lemma find_index_slab_None x l : find_index (Z.eqb x) l = None -> x ∉ l.
Proof. rewrite find_index_None. intros H Hx. specialize (H x Hx). lia. Qed.

(** The slab is not one the class can release: the call is refused and
    nothing changes. *)
Lemma ac_start_refused st off live mode hint rnd :
  ac_inv st off live -> chosen hint rnd (self st) ∉ freeSlabs_ (self st) ++ allocatedSlabs_ (self st) ->
  startSlabReleaseLocked mode hint rnd st = (Throw InvalidArgument, st).
Proof.
  intros Hinv Hn. unfold startSlabReleaseLocked, bind at 1, get. fold (chosen hint rnd (self st)).
  set (x := chosen hint rnd (self st)) in *. destruct (x =? 0) eqn:Hx0; [done|].
  unfold SlabAllocator.getSlabHeader_slab.
  destruct (SlabAllocator.isValidSlab (slabAlloc_ st) x) eqn:Hv; [|done]. fold (hdr st x).
  destruct (Z.eqb_spec (classId (hdr st x)) (classId_ (self st))) as [Hc|]; [|done].
  destruct (Z.eqb_spec (poolId (hdr st x)) (poolId_ (self st))) as [Hp|]; [|done].
  destruct (ai_owned _ _ _ Hinv x Hv Hp Hc) as [|Hd]; [done|].
  destruct (ai_slab _ _ _ Hinv x (or_intror Hd)) as (_ & _ & _ & _ & ->).
  by rewrite bool_decide_true by done.
Qed.

Lemma ac_start_guard st off live x :
  ac_inv st off live -> x ∈ freeSlabs_ (self st) ++ allocatedSlabs_ (self st) ->
  (x =? 0) = false /\
  SlabAllocator.getSlabHeader_slab (slabAlloc_ st) x = Some (SlabAllocator.slabIdx (slabAlloc_ st) x) /\
  negb (classId (hdr st x) =? classId_ (self st)) || negb (poolId (hdr st x) =? poolId_ (self st)) ||
    isMarkedForRelease (hdr st x) = false /\
  poolId (hdr st x) = poolId_ (self st) /\ slabReleaseAllocMap_ (self st) !! x = None.
Proof.
  intros Hinv Hx. destruct (ai_slab _ _ _ Hinv x (or_introl Hx)) as (Hv & Hp & Hc & _ & Hm).
  assert (Hr : x ∉ dom (slabReleaseAllocMap_ (self st))) by (intros Hd; by apply (ai_rel_disj _ _ _ Hinv) in Hd).
  pose proof (SlabAllocatorProofs.sa_valid_pos _ _ (ai_wf _ _ _ Hinv) Hv).
  split_and!; [lia|by apply SlabAllocatorProofs.sa_header_valid| |done|by apply not_elem_of_dom].
  rewrite Hc, Hp, !Z.eqb_refl, Hm. by rewrite bool_decide_false.
Qed.

(** The first critical section on a free slab. *)
Lemma ac_start_free st off live mode hint rnd :
  ac_inv st off live -> chosen hint rnd (self st) ∈ freeSlabs_ (self st) ->
  let x := chosen hint rnd (self st) in
  exists st', startSlabReleaseLocked mode hint rnd st =
      (Ok (inl (releaseContext x (poolId_ (self st)) kInvalidClassId [] mode)), st') /\
    ac_inv st' off live /\ ~ slab_of (self st') x /\ forall y, rely y st st'.
Proof.
  intros Hinv Hx x. destruct (ac_start_guard st off live x Hinv) as (H0 & Hh & Hg & Hp & _); [set_solver|].
  unfold startSlabReleaseLocked, bind at 1, get. fold (chosen hint rnd (self st)). fold x.
  rewrite H0, Hh. fold (hdr st x). rewrite Hg.
  destruct (find_index (Z.eqb x) (freeSlabs_ (self st))) as [k|] eqn:Hf;
    [|by apply find_index_slab_None in Hf].
  eexists. split; [unfold bind, upd, upd_header, modify, ret; simpl; rewrite Hp; reflexivity|].
  apply ac_drop_free; [done|by apply find_index_slab|done].
Qed.

(** The first critical section on a slab in use. *)
Lemma ac_start_used st off live mode hint rnd :
  ac_inv st off live -> chosen hint rnd (self st) ∈ allocatedSlabs_ (self st) ->
  let x := chosen hint rnd (self st) in
  exists st', startSlabReleaseLocked mode hint rnd st =
      (Ok (inr (x, SlabAllocator.slabIdx (slabAlloc_ st) x)), st') /\
    ac_inv st' off live /\ x ∈ dom (slabReleaseAllocMap_ (self st')) /\ same_class st st' /\
    freedAllocations_ (self st') = freedAllocations_ (self st) /\
    activeReleases_ (self st') = activeReleases_ (self st).
Proof.
  intros Hinv Hx x. destruct (ac_start_guard st off live x Hinv) as (H0 & Hh & Hg & Hp & Hr); [set_solver|].
  assert (Hxf : x ∉ freeSlabs_ (self st)).
  { pose proof (ai_slabs_nodup _ _ _ Hinv) as (_ & Hd & _)%NoDup_app. intros Hf. by apply (Hd x). }
  unfold startSlabReleaseLocked, bind at 1, get. fold (chosen hint rnd (self st)). fold x.
  rewrite H0, Hh. fold (hdr st x). rewrite Hg.
  rewrite (proj2 (find_index_None _ _)) by (intros y Hy; apply Z.eqb_neq; congruence).
  unfold bind at 1, upd_header, modify. unfold bind at 1, createSlabReleaseAllocMapLocked.
  unfold bind at 1, get. cbn [self]. rewrite Hr. unfold upd, modify. cbn [self slabAlloc_].
  destruct (find_index (Z.eqb x) (allocatedSlabs_ (self st))) as [k|] eqn:Hf;
    [|by apply find_index_slab_None in Hf].
  apply find_index_slab in Hf. fold (hdr st x).
  set (per := Z.to_nat (getAllocsPerSlab (self st))).
  destruct (ac_perSlab _ (ai_size _ _ _ Hinv)) as (_ & Hps & _).
  destruct (Z.eqb_spec (currSlab_ (self st)) x) as [Hc|Hc].
  - eexists. split.
    { unfold bind, getSlabReleaseAllocMapLocked, bind, get. cbn. rewrite lookup_insert_eq. cbn.
      rewrite insert_insert_eq. reflexivity. }
    cbn -[takenOut SlabAllocator.set_header]. split_and!; [|set_solver|done..].
    apply (ac_take_out st off live x k _ 0 0); try done.
    + unfold markFrom. rewrite length_imap, length_replicate. lia.
    + left. by split; [|left].
    + intros i Hi. rewrite markFrom_lookup, lookup_replicate_2 by lia. simpl.
      assert (Hx0 : x <> 0) by lia.
      destruct (ai_curr _ _ _ Hinv) as [|(_ & j & Hj & Ho)]; [congruence|].
      pose proof (ai_size _ _ _ Hinv) as Hs. change kMinAllocSize with 64 in Hs.
      rewrite Ho, Z.div_mul by lia. rewrite Z2Nat.id by lia.
      destruct (Z.leb_spec j i) as [Hl|Hl]; split; try done; nia.
  - eexists. split; [unfold bind, ret; reflexivity|].
    cbn -[takenOut SlabAllocator.set_header]. split_and!; [|set_solver|done..].
    apply (ac_take_out st off live x k _ (currSlab_ (self st)) (currOffset_ (self st))); try done.
    + rewrite length_replicate. lia.
    + by right.
    + apply Hinv.
    + intros i Hi. rewrite lookup_replicate_2 by lia. split; [done|]. intros [? _]. congruence.
Qed.

(** ** Pruning the free list *)

Lemma ac_off_perm st off off' live : off ≡ₚ off' -> ac_inv st off live -> ac_inv st off' live.
Proof.
  intros Hp Hinv.
  assert (Hr : ac_inv (mkACState (slabAlloc_ st) (set_canAllocate (canAllocate_ (self st))
    (set_freed (freedAllocations_ (self st)) (self st)))) off' live); [|by destruct st as [s []]].
  apply (ac_relist st off live); try done; rewrite <- ?Hp; try apply Hinv.
  - intros p. by rewrite Hp.
  - intros p. rewrite <- Hp. apply Hinv.
Qed.

Definition inSlabOf x p : Prop := SlabAllocator.getSlabForMemory p = x.

(** What holds between the critical sections of [pruneFreeAllocs]. *)
Record prune_inv x st (l : PruneLists) live : Prop := {
  pi_inv : ac_inv st (freeAllocs l ++ inSlab l ++ notInSlab l) live;
  pi_rel : x ∈ dom (slabReleaseAllocMap_ (self st));
  pi_in p : p ∈ inSlab l -> inSlabOf x p;
  pi_out p : p ∈ notInSlab l -> ~ inSlabOf x p;
  pi_freed p : p ∈ freedAllocations_ (self st) -> ~ inSlabOf x p
}.

Lemma partitionLoop_spec s x i fa ins ns l :
  SlabAllocator.isValidSlab s x = true -> partitionLoop s x i fa ins ns = l ->
  freeAllocs l ++ inSlab l ++ notInSlab l ≡ₚ fa ++ ins ++ ns /\
  (forall p, p ∈ inSlab l -> p ∈ ins \/ inSlabOf x p) /\
  (forall p, p ∈ notInSlab l -> p ∈ ns \/ ~ inSlabOf x p) /\
  (length (freeAllocs l) <= length fa)%nat /\
  (i < kFreeAllocsPruneLimit -> fa <> [] -> (length (freeAllocs l) < length fa)%nat).
Proof.
  intros Hv. revert i ins ns l. induction fa as [|p fa IH]; intros i ins ns l; cbn [partitionLoop].
  { intros <-. simpl. split_and!; auto; done. }
  destruct (Z.ltb_spec i kFreeAllocsPruneLimit) as [Hi|Hi]; [|intros <-; simpl; split_and!; auto; lia].
  destruct (SlabAllocator.isMemoryInSlab s p x) eqn:Hin; intros Hl; apply IH in Hl as (H1 & H2 & H3 & H4 & _);
    unfold SlabAllocator.isMemoryInSlab in Hin; rewrite Hv in Hin; simpl in Hin;
    [apply Z.eqb_eq in Hin|apply Z.eqb_neq in Hin]; split_and!; simpl; try lia; try done.
  - rewrite H1. simpl. by rewrite <- Permutation_middle.
  - intros q [[->|]%elem_of_cons|]%H2; auto.
  - rewrite H1. simpl. rewrite <- !Permutation_middle. done.
  - intros q [[->|]%elem_of_cons|]%H3; auto.
Qed.

Lemma prune_partition x st l live :
  prune_inv x st l live ->
  let l' := partitionFreeAllocs (slabAlloc_ st) x l in
  prune_inv x st l' live /\ (freeAllocs l <> [] -> (length (freeAllocs l') < length (freeAllocs l))%nat).
Proof.
  intros [Hinv Hr Hin Hout Hf] l'.
  destruct (partitionLoop_spec (slabAlloc_ st) x 0 (freeAllocs l) (inSlab l) (notInSlab l) l')
    as (H1 & H2 & H3 & _ & H5); [eapply ac_slab_valid; [done|by right]|done|].
  split; [|by apply H5]. split; try done.
  - eapply ac_off_perm; [|done]. by symmetry.
  - intros p [|]%H2; auto.
  - intros p [|]%H3; auto.
Qed.

(** Marking the free allocations found in the slab. *)
Lemma prune_mark x st fa ins live :
  ac_inv st (fa ++ ins) live -> x ∈ dom (slabReleaseAllocMap_ (self st)) ->
  (forall p, p ∈ ins -> inSlabOf x p) ->
  exists st', markInSlab x ins st = (Ok tt, st') /\ ac_inv st' fa live /\ same_class st st' /\
    dom (slabReleaseAllocMap_ (self st')) = dom (slabReleaseAllocMap_ (self st)) /\
    freedAllocations_ (self st') = freedAllocations_ (self st).
Proof.
  revert st. induction ins as [|p ins IH]; intros st Hinv Hr Hin.
  { exists st. rewrite app_nil_r in Hinv. done. }
  assert (Hpo : p ∈ freedAllocations_ (self st) ++ fa ++ p :: ins) by set_solver.
  destruct (ai_place _ _ _ Hinv p (or_intror Hpo)) as (y & i & Hs & Hm & Hpe).
  pose proof (slot_slab _ _ _ Hs) as Hy.
  destruct (ac_addr st y i (ai_wf _ _ _ Hinv) (ai_size _ _ _ Hinv) (ac_slab_valid _ _ _ _ Hinv Hy)
    (proj1 Hs)) as (Hg & _ & Hidx & _). rewrite <- Hpe in Hg, Hidx.
  assert (y = x) as -> by (rewrite <- Hg; apply Hin; set_solver).
  destruct (slabReleaseAllocMap_ (self st) !! x) as [bs|] eqn:Hb; [|by apply not_elem_of_dom in Hb].
  pose proof (ai_rel_len _ _ _ Hinv x bs Hb) as Hlen. destruct Hs as [Hi Hs].
  assert (Hstep : ac_inv (mkACState (slabAlloc_ st) (markAt x i bs (self st))) (fa ++ ins) live).
  { pose proof (ai_nodup _ _ _ Hinv) as Hnd.
    rewrite <- Permutation_middle, <- Permutation_middle in Hnd. apply NoDup_cons in Hnd as [Hp Hnd].
    apply (ac_mark st (fa ++ p :: ins) live); try done; rewrite <- ?Hpe.
    - intros q. assert (p ∉ live) by (intros Hl; by apply (ai_disj _ _ _ Hinv p Hl)).
      destruct (decide (q = p)) as [->|]; set_solver.
    - intros q Hq Hq'. apply (ai_disj _ _ _ Hinv q Hq). set_solver. }
  destruct (IH _ Hstep) as (st' & Hrun & Hinv' & Hc & Hd & Hf).
  { cbn [self]. by rewrite (dom_markAt _ _ _ _ Hb). }
  { intros q Hq. apply Hin. set_solver. }
  exists st'. split; [|rewrite Hd; cbn [self]; rewrite (dom_markAt _ _ _ _ Hb); done].
  cbn [markInSlab]. unfold bind at 1, getSlabReleaseAllocMapLocked, bind at 1, get. rewrite Hb. cbn [ret].
  unfold bind at 1, ret, bind at 1. rewrite Hidx. unfold markFreed. rewrite decide_True by lia.
  cbn. exact Hrun.
Qed.

(** A round puts the other slabs' allocations back and marks the slab's. *)
Lemma prune_round x st l live :
  prune_inv x st l live ->
  exists st', pruneRoundLocked x l st = (Ok (mkPruneLists (freeAllocs l) [] []), st') /\
    prune_inv x st' (mkPruneLists (freeAllocs l) [] []) live /\ same_class st st'.
Proof.
  intros [Hinv Hr Hin Hout Hf].
  set (st1 := if is_nil (notInSlab l) then st
    else mkACState (slabAlloc_ st) (set_canAllocate true
           (set_freed (notInSlab l ++ freedAllocations_ (self st)) (self st)))).
  assert (H1 : ac_inv st1 (freeAllocs l ++ inSlab l) live).
  { unfold st1. destruct (notInSlab l) as [|q ns] eqn:Hns; simpl is_nil; cbv iota.
    { by rewrite app_nil_r in Hinv. }
    assert (Hperm : (((q :: ns) ++ freedAllocations_ (self st)) ++ freeAllocs l ++ inSlab l) ≡ₚ
      freedAllocations_ (self st) ++ freeAllocs l ++ inSlab l ++ q :: ns) by solve_Permutation.
    apply (ac_relist st _ live _ true _ live Hinv); rewrite ?Hperm; try done; try apply Hinv.
    - intros p. by rewrite Hperm.
    - intros p Hp. rewrite Hperm. by apply Hinv. }
  assert (Hrel1 : slabReleaseAllocMap_ (self st1) = slabReleaseAllocMap_ (self st))
    by (unfold st1; by destruct (notInSlab l)).
  assert (Hf1 : forall p, p ∈ freedAllocations_ (self st1) -> ~ inSlabOf x p).
  { unfold st1. destruct (notInSlab l) as [|q ns]; [done|]. simpl.
    intros p Hp. rewrite app_comm_cons in Hp. apply elem_of_app in Hp as [|]; auto. }
  assert (Hc1 : same_class st st1) by (unfold st1; by destruct (notInSlab l)).
  destruct (prune_mark x st1 _ _ _ H1) as (st' & Hrun & Hinv' & Hc & Hd & Hfr);
    [by rewrite Hrel1|done|].
  exists st'. split_and!.
  - unfold pruneRoundLocked.
    assert (Hm : match notInSlab l with
      | [] => ret tt
      | ns => upd (fun c => set_canAllocate true (set_freed (ns ++ freedAllocations_ c) c))
      end st = (Ok tt, st1)) by (unfold st1; by destruct (notInSlab l)).
    unfold bind at 1. rewrite Hm. unfold bind at 1, getSlabReleaseAllocMapLocked, bind at 1, get.
    rewrite Hrel1. apply elem_of_dom in Hr as [bs Hb]. rewrite Hb. cbn [ret]. unfold ret at 1.
    unfold bind. rewrite Hrun. done.
  - split; cbn; rewrite ?app_nil_r, ?Hfr, ?Hd, ?Hrel1; try done.
    all: intros p Hp; by apply not_elem_of_nil in Hp.
  - destruct Hc1 as (? & ? & ? & ?), Hc as (? & ? & ? & ?). split_and!; congruence.
Qed.

(** ** Other threads

    [Φ k live]: what the other threads know of the allocations they hold when
    the lock is free for the [k]-th time. *)
Definition env_ok x (others : nat -> ACState -> ACState) (Φ : nat -> gset Z -> Prop) : Prop :=
  forall k st off live, ac_inv st off live -> Φ k live ->
    exists live', ac_inv (others k st) off live' /\ rely x st (others k st) /\ Φ (S k) live'.

Lemma prune_env x st l live others Φ k :
  env_ok x others Φ -> prune_inv x st l live -> Φ k live ->
  exists live', prune_inv x (others k st) l live' /\ same_class st (others k st) /\ Φ (S k) live'.
Proof.
  intros Henv [Hinv Hr Hin Hout Hf] HΦ.
  destruct (Henv k st _ live Hinv HΦ) as (live' & Hinv' & (Hc & Hrel) & HΦ').
  destruct (Hrel Hr) as (Hr' & _ & Hfr). exists live'. split; [|done].
  split; try done. intros p Hp Hx. by apply (Hf p); [apply Hfr|].
Qed.

Lemma same_class_trans st st' st'' : same_class st st' -> same_class st' st'' -> same_class st st''.
Proof. intros (? & ? & ? & ?) (? & ? & ? & ?). unfold same_class. split_and!; congruence. Qed.

(** The loop ends with every free allocation of the slab marked and all others
    back on the free list. *)
Lemma prune_loop x others Φ fuel :
  env_ok x others Φ -> forall st l live k,
  prune_inv x st l live -> Φ k live -> (length (freeAllocs l) < fuel)%nat ->
  exists k' st' live', pruneLoop fuel k (fun _ => false) others x l st =
      (Ok (k', false, mkPruneLists [] [] []), st') /\
    prune_inv x st' (mkPruneLists [] [] []) live' /\ same_class st st' /\ Φ k' live'.
Proof.
  intros Henv. induction fuel as [|fuel IH]; intros st l live k Hpi HΦ Hfuel; [lia|].
  destruct (prune_env _ _ _ _ _ _ _ Henv Hpi HΦ) as (live1 & Hpi1 & Hc1 & HΦ1).
  destruct (prune_round _ _ _ _ Hpi1) as (st2 & Hrun & Hpi2 & Hc2).
  pose proof (same_class_trans _ _ _ Hc1 Hc2) as Hc.
  cbn [pruneLoop]. unfold bind at 1, modify. unfold bind at 1. rewrite Hrun. cbn [freeAllocs].
  destruct (freeAllocs l) as [|p fa] eqn:Hfa; [exists (S k), st2, live1; by rewrite <- Hfa in * |].
  unfold bind, get. destruct (prune_partition _ _ _ _ Hpi2) as [Hpi3 Hlt].
  specialize (Hlt ltac:(done)). cbn [freeAllocs] in Hlt.
  destruct (IH _ _ _ _ Hpi3 HΦ1) as (k' & st' & live' & Hrun' & Hpi' & Hc' & HΦ'); [simpl in *; lia|].
  exists k', st', live'. split; [done|]. split; [done|]. split; [|done].
  by eapply same_class_trans.
Qed.

Lemma activeFrom_elem sz ptr bs p :
  p ∈ activeFrom sz ptr bs <-> exists n, bs !! n = Some false /\ p = ptr + Z.of_nat n * sz.
Proof.
  revert ptr. induction bs as [|b bs IH]; intros ptr; cbn [activeFrom].
  { split; [by intros ?%not_elem_of_nil|]. by intros (n & ? & _). }
  assert (Ht : p ∈ activeFrom sz (ptr + sz) bs <->
    exists n, (b :: bs) !! S n = Some false /\ p = ptr + Z.of_nat (S n) * sz).
  { rewrite IH. split; intros (n & Hn & ->); exists n; (split; [done|lia]). }
  destruct b.
  - rewrite Ht. split; [intros (n & ?); by exists (S n)|]. intros ([|n] & ? & ?); [done|by exists n].
  - rewrite elem_of_cons, Ht. split.
    + intros [->|(n & ?)]; [exists O; split; [done|lia]|by exists (S n)].
    + intros ([|n] & ? & ->); [left; lia|right; by exists n].
Qed.

Lemma activeFrom_NoDup sz ptr bs : 0 < sz -> NoDup (activeFrom sz ptr bs).
Proof.
  intros Hsz. revert ptr. induction bs as [|b bs IH]; intros ptr; cbn [activeFrom]; [constructor|].
  destruct b; [done|]. constructor; [|done]. rewrite activeFrom_elem. intros (n & _ & Hn). nia.
Qed.

(** The list [pruneFreeAllocs] returns is that of the slab's allocations still
    handed out. *)
Lemma ac_active st x bs live p :
  prune_inv x st (mkPruneLists [] [] []) live -> slabReleaseAllocMap_ (self st) !! x = Some bs ->
  p ∈ activeFrom (allocationSize_ (self st)) (memoryAtOffset x 0) bs <-> p ∈ live /\ inSlabOf x p.
Proof.
  intros [Hinv Hr _ _ Hf] Hb. cbn in Hinv. pose proof (ai_rel_len _ _ _ Hinv x bs Hb) as Hlen.
  assert (Hx : slab_of (self st) x) by (by right).
  pose proof (ac_slab_valid _ _ _ _ Hinv Hx) as Hv.
  rewrite activeFrom_elem. unfold memoryAtOffset. rewrite Z.add_0_r. split.
  - intros (n & Hn & ->). pose proof (lookup_lt_Some _ _ _ Hn).
    change (x + Z.of_nat n * allocationSize_ (self st)) with (addr (self st) x (Z.of_nat n)).
    destruct (ac_addr st x (Z.of_nat n) (ai_wf _ _ _ Hinv) (ai_size _ _ _ Hinv) Hv ltac:(lia))
      as (Hg & _). split; [|done].
    destruct (ai_cover _ _ _ Hinv x (Z.of_nat n)) as [|Hfr]; [| |done|].
    + split; [lia|by right].
    + intros (bs' & Hb' & Hl). rewrite Nat2Z.id in Hl. congruence.
    + exfalso. rewrite app_nil_r in Hfr. by apply (Hf _ Hfr).
  - intros [Hl Hin]. destruct (ai_place _ _ _ Hinv p (or_introl Hl)) as (y & i & Hs & Hm & ->).
    destruct (ac_addr st y i (ai_wf _ _ _ Hinv) (ai_size _ _ _ Hinv)
      (ac_slab_valid _ _ _ _ Hinv (slot_slab _ _ _ Hs)) (proj1 Hs)) as (Hg & _).
    unfold inSlabOf in Hin. assert (y = x) as -> by congruence. destruct Hs as [Hi _].
    exists (Z.to_nat i). split; [|by rewrite Z2Nat.id by lia].
    destruct (lookup_lt_is_Some_2 bs (Z.to_nat i)) as [[] Hbi]; [lia| |done].
    exfalso. apply Hm. by exists bs.
Qed.

(** Taking the free list offline and pruning it. *)
Lemma ac_prune x st live others Φ :
  ac_inv st [] live -> x ∈ dom (slabReleaseAllocMap_ (self st)) -> env_ok x others Φ -> Φ 0%nat live ->
  exists k st' live' active, pruneFreeAllocs (fun _ => false) others x st = (Ok (k, false, active), st') /\
    prune_inv x st' (mkPruneLists [] [] []) live' /\ same_class st st' /\ Φ k live' /\ NoDup active /\
    forall p, p ∈ active <-> p ∈ live' /\ inSlabOf x p.
Proof.
  intros Hinv Hr Henv HΦ.
  destruct (Henv 0%nat st [] live Hinv HΦ) as (live0 & Hinv0 & (Hc0 & Hrel) & HΦ0).
  destruct (Hrel Hr) as (Hr0 & _). set (st0 := others 0%nat st) in *.
  set (st1 := mkACState (slabAlloc_ st0) (set_freed [] (self st0))).
  assert (Hpi : prune_inv x st1 (mkPruneLists (freedAllocations_ (self st0)) [] []) live0).
  { rewrite <- (app_nil_r (freedAllocations_ (self st0))) in *. split; cbn; try done.
    - rewrite !app_nil_r. apply (ac_relist st0 [] live0 [] (canAllocate_ (self st0))); try done;
        rewrite ?app_nil_l; pose proof (ai_nodup _ _ _ Hinv0) as Hnd; rewrite app_nil_r in Hnd; try done.
      + intros p. by rewrite app_nil_r.
      + intros p Hp. pose proof (ai_disj _ _ _ Hinv0 p Hp) as Hd. by rewrite app_nil_r in Hd.
      + intros Hc. apply (ai_can _ _ _ Hinv0) in Hc. tauto.
    - intros p Hp. by apply not_elem_of_nil in Hp.
    - intros p Hp. by apply not_elem_of_nil in Hp.
    - intros p Hp. by apply not_elem_of_nil in Hp. }
  destruct (prune_partition _ _ _ _ Hpi) as [Hpi1 _].
  set (l := partitionFreeAllocs _ _ _) in Hpi1.
  destruct (prune_loop x others Φ (S (length (freeAllocs l))) Henv st1 l live0 1 Hpi1 HΦ0)
    as (k & st2 & live2 & Hrun & Hpi2 & Hc2 & HΦ2); [lia|].
  destruct (prune_env _ _ _ _ _ _ _ Henv Hpi2 HΦ2) as (live3 & Hpi3 & Hc3 & HΦ3).
  set (st3 := others k st2) in *.
  destruct (slabReleaseAllocMap_ (self st3) !! x) as [bs|] eqn:Hb;
    [|apply not_elem_of_dom in Hb; by destruct Hpi3].
  exists (S k), st3, live3, (activeFrom (allocationSize_ (self st3)) (memoryAtOffset x 0) bs).
  split_and!; try done.
  - unfold pruneFreeAllocs, bind, modify, get, upd, modify. fold st0. cbn [self slabAlloc_].
    change (partitionFreeAllocs (slabAlloc_ st0) x _) with l. fold st1. rewrite Hrun. fold st3.
    unfold getSlabReleaseAllocMapLocked, bind, get. by rewrite Hb.
  - eapply same_class_trans; [done|]. by eapply same_class_trans; [exact Hc2|].
  - apply activeFrom_NoDup. destruct Hpi3 as [[? Hsz] ]. change kMinAllocSize with 64 in Hsz. lia.
  - intros p. by apply ac_active.
Qed.
