(* ===== verification/AllocationClassSpec.v ===== *)
(** * Allocation class: what it promises

    The release of a slab under interference, the set of allocations handed
    out under every sequence of operations, and saving and restoring. *)

From S2P Require Import Prelude.
From S2P Require Import Slab.
From S2P Require SlabAllocator.
From S2P Require SlabAllocatorProofs.
From S2P Require SlabAllocatorSpec.
From S2P Require Import AllocationClass AllocationClassProofs.
From stdpp Require Import base tactics numbers gmap list.

#[local] Open Scope Z_scope.
#[local] Open Scope cachelib_scope.

Implicit Types (st : ACState) (c : AllocationClass) (x i p : Z).

(** ** Starting a release *)

Lemma ac_set_active st off live n :
  ac_inv st off live ->
  ac_inv (mkACState (slabAlloc_ st) (set_activeReleases n (self st))) off live.
Proof. intros []. by split. Qed.

Lemma same_class_idx st st' x :
  same_class st st' ->
  SlabAllocator.slabIdx (slabAlloc_ st') x = SlabAllocator.slabIdx (slabAlloc_ st) x.
Proof. intros (_ & _ & _ & E). unfold SlabAllocator.slabIdx. by rewrite E. Qed.

(** All marks of a slab set is the same as no allocation of it unmarked. *)
Lemma rel_all_marked st x bs :
  slabReleaseAllocMap_ (self st) !! x = Some bs ->
  (forall b, b ∈ bs -> b = true) <->
  (forall i, 0 <= i < Z.of_nat (length bs) -> marked (self st) x i).
Proof.
  intros Hb. split.
  - intros Hall i Hi. exists bs. split; [done|].
    destruct (lookup_lt_is_Some_2 bs (Z.to_nat i)) as [b Hbi]; [lia|].
    rewrite Hbi. f_equal. eapply Hall, list_elem_of_lookup_2, Hbi.
  - intros Hall b (n & Hn)%list_elem_of_lookup_1. pose proof (lookup_lt_Some _ _ _ Hn).
    destruct (Hall (Z.of_nat n)) as (bs' & Hb' & Hl); [lia|]. rewrite Nat2Z.id in Hl. congruence.
Qed.

(** An allocation of a slab in release is handed out or marked. *)
Lemma rel_held_or_marked st x live i :
  ac_inv st [] live -> x ∈ dom (slabReleaseAllocMap_ (self st)) ->
  (forall p, p ∈ freedAllocations_ (self st) -> ~ inSlabOf x p) ->
  0 <= i < getAllocsPerSlab (self st) ->
  inSlabOf x (addr (self st) x i) /\ (marked (self st) x i \/ addr (self st) x i ∈ live).
Proof.
  intros Hinv Hr Hf Hi.
  destruct (ac_addr st x i (ai_wf _ _ _ Hinv) (ai_size _ _ _ Hinv)
    (ac_slab_valid _ _ _ _ Hinv (or_intror Hr)) Hi) as (Hg & _). split; [done|].
  destruct (slabReleaseAllocMap_ (self st) !! x) as [bs|] eqn:Hb; [|by apply not_elem_of_dom in Hb].
  pose proof (ai_rel_len _ _ _ Hinv x bs Hb).
  destruct (lookup_lt_is_Some_2 bs (Z.to_nat i)) as [b Hbi]; [lia|].
  destruct b; [left; by exists bs|right].
  destruct (ai_cover _ _ _ Hinv x i) as [|Hfr]; [split; [done|by right]| |done|].
  - intros (bs' & Hb' & Hl). congruence.
  - rewrite app_nil_r in Hfr. by apply Hf in Hfr.
Qed.

(** What a caller of [startSlabRelease] gets for a slab in use. *)
Record release_started st x mode (ctx : SlabReleaseContext) st' live' : Prop := {
  rs_inv : ac_inv st' [] live';
  rs_class : same_class st st';
  rs_slab : slab_ ctx = x;
  rs_pool : pid_ ctx = poolId_ (self st);
  rs_mode : mode_ ctx = mode;
  rs_nodup : NoDup (activeAllocations_ ctx);
  rs_complete p : p ∈ live' -> inSlabOf x p -> p ∈ activeAllocations_ ctx;
  rs_sound p : p ∈ activeAllocations_ ctx -> exists i, p = addr (self st') x i /\
    0 <= i < getAllocsPerSlab (self st') /\ (p ∈ live' \/ marked (self st') x i);
  rs_released : isReleased ctx = true -> ~ slab_of (self st') x;
  rs_pending : isReleased ctx = false ->
    x ∈ dom (slabReleaseAllocMap_ (self st')) /\
    (forall p, p ∈ freedAllocations_ (self st') -> ~ inSlabOf x p)
}.

Lemma slab_of_live st off live p :
  ac_inv st off live -> p ∈ live -> slab_of (self st) (SlabAllocator.getSlabForMemory p).
Proof.
  intros Hinv Hp. destruct (ai_place _ _ _ Hinv p (or_introl Hp)) as (y & i & Hs & _ & ->).
  pose proof (slot_slab _ _ _ Hs) as Hy. destruct (ac_addr st y i (ai_wf _ _ _ Hinv)
    (ai_size _ _ _ Hinv) (ac_slab_valid _ _ _ _ Hinv Hy) (proj1 Hs)) as (-> & _). done.
Qed.

(** A live allocation of a slab is one of its places, and not marked. *)
Lemma ac_live_at st off live x p :
  ac_inv st off live -> p ∈ live -> inSlabOf x p ->
  exists i, 0 <= i < getAllocsPerSlab (self st) /\ p = addr (self st) x i /\ ~ marked (self st) x i.
Proof.
  intros Hinv Hp Hin. destruct (ai_place _ _ _ Hinv p (or_introl Hp)) as (y & i & Hs & Hm & ->).
  destruct (ac_addr st y i (ai_wf _ _ _ Hinv) (ai_size _ _ _ Hinv)
    (ac_slab_valid _ _ _ _ Hinv (slot_slab _ _ _ Hs)) (proj1 Hs)) as (Hg & _).
  unfold inSlabOf in Hin. assert (y = x) as -> by congruence. exists i. by destruct Hs.
Qed.

(** The last critical section when every allocation had come back. *)
Lemma ac_finish_empty st0 st live others Φ k x :
  prune_inv x st (mkPruneLists [] [] []) live -> env_ok x others Φ -> Φ k live ->
  same_class st0 st -> (forall p, ~ (p ∈ live /\ inSlabOf x p)) ->
  let i := SlabAllocator.slabIdx (slabAlloc_ st0) x in
  let h := setMarkedForRelease false
             (sh_setClass kInvalidClassId 0 (SlabAllocator.header (slabAlloc_ (others k st)) i)) in
  let st' := mkACState (SlabAllocator.set_header i h (slabAlloc_ (others k st)))
    (set_relMap (delete x (slabReleaseAllocMap_ (self (others k st)))) (self (others k st))) in
  exists live', ac_inv st' [] live' /\ Φ (S k) live' /\ ~ slab_of (self st') x /\ same_class st0 st' /\
    poolId (SlabAllocator.header (slabAlloc_ st') i) = poolId_ (self st0).
Proof.
  intros [Hinv Hr _ _ Hf] Henv HΦ Hc0 Hnone i h st'. cbn in Hinv.
  destruct (Henv k st [] live Hinv HΦ) as (live' & Hinv' & (Hc & Hrel) & HΦ').
  destruct (Hrel Hr) as (Hr' & Hmk & _). pose proof (same_class_trans _ _ _ Hc0 Hc) as Hc'.
  destruct (slabReleaseAllocMap_ (self (others k st)) !! x) as [bs|] eqn:Hb;
    [|by apply not_elem_of_dom in Hb].
  assert (Hi : i = SlabAllocator.slabIdx (slabAlloc_ (others k st)) x)
    by (symmetry; by apply same_class_idx).
  assert (Hper : getAllocsPerSlab (self (others k st)) = getAllocsPerSlab (self st)).
  { unfold getAllocsPerSlab. by destruct Hc as (-> & _). }
  assert (Hall : forall b, b ∈ bs -> b = true).
  { apply (rel_all_marked _ _ _ Hb). intros j Hj.
    rewrite (ai_rel_len _ _ _ Hinv' x bs Hb), Hper in Hj. apply Hmk; [lia|].
    destruct (rel_held_or_marked st x live j Hinv Hr Hf Hj) as [Hin [|Hl]]; [done|].
    exfalso. by apply (Hnone (addr (self st) x j)). }
  destruct (ac_drop_released (others k st) [] live' x bs h (activeReleases_ (self (others k st))) Hinv' Hb Hall)
    as (H1 & H2 & _); [unfold h; by rewrite Hi|].
  exists live'. rewrite <- Hi in H1, H2. split_and!; [exact H1|exact HΦ'|exact H2| |].
  - exact Hc'.
  - unfold st'. cbn [slabAlloc_]. rewrite SlabAllocatorProofs.header_set, decide_True by done.
    cbn [poolId h setMarkedForRelease sh_unSetFlag sh_setClass].
    destruct (ai_slab _ _ _ Hinv' x (or_intror Hr')) as (_ & Hp & _).
    unfold hdr in Hp. rewrite <- Hi in Hp. unfold h. cbn. rewrite Hp. apply Hc'.
Qed.

Lemma ac_finish_active st0 st live others Φ k x active mode :
  prune_inv x st (mkPruneLists [] [] []) live -> env_ok x others Φ -> Φ k live ->
  same_class st0 st -> active <> [] -> NoDup active ->
  (forall p, p ∈ active <-> p ∈ live /\ inSlabOf x p) ->
  let i := SlabAllocator.slabIdx (slabAlloc_ st0) x in
  let st1 := others k st in
  let st' := mkACState (slabAlloc_ st1) (set_activeReleases (activeReleases_ (self st1) + 1) (self st1)) in
  exists live', Φ (S k) live' /\ release_started st0 x mode
    (releaseContext x (poolId (SlabAllocator.header (slabAlloc_ st1) i))
       (classId (SlabAllocator.header (slabAlloc_ st1) i)) active mode) st' live'.
Proof.
  intros [Hinv Hr _ _ Hf] Henv HΦ Hc0 Hne Hnd Hiff i st1 st'. cbn in Hinv.
  destruct (Henv k st [] live Hinv HΦ) as (live' & Hinv' & (Hc & Hrel) & HΦ'). fold st1 in Hinv', Hc, Hrel.
  destruct (Hrel Hr) as (Hr' & Hmk & Hfr). pose proof (same_class_trans _ _ _ Hc0 Hc) as Hc'.
  assert (Hi : i = SlabAllocator.slabIdx (slabAlloc_ st1) x) by (symmetry; by apply same_class_idx).
  assert (Hf' : forall p, p ∈ freedAllocations_ (self st1) -> ~ inSlabOf x p).
  { intros p Hp Hin. by apply (Hf p (Hfr p Hp Hin)). }
  assert (Hrel0 : isReleased (releaseContext x 0 0 active mode) = false) by (by destruct active).
  assert (Hper : getAllocsPerSlab (self st1) = getAllocsPerSlab (self st)).
  { unfold getAllocsPerSlab. by destruct Hc as (-> & _). }
  assert (Haddr : forall j, addr (self st1) x j = addr (self st) x j).
  { intros j. unfold addr. by destruct Hc as (-> & _). }
  exists live'. split; [done|]. split; cbn [releaseContext slab_ pid_ mode_ activeAllocations_]; try done.
  - by apply ac_set_active.
  - destruct (ai_slab _ _ _ Hinv' x (or_intror Hr')) as (_ & Hp & _).
    unfold hdr in Hp. rewrite <- Hi in Hp. rewrite Hp. apply Hc'.
  - intros p Hp Hin. destruct (ac_live_at _ _ _ _ _ Hinv' Hp Hin) as (j & Hj & -> & Hm).
    rewrite Haddr, Hper in *. apply Hiff. split; [|done].
    destruct (rel_held_or_marked st x live j Hinv Hr Hf Hj) as [_ [Hm'|]]; [|done].
    exfalso. apply Hm, Hmk; [lia|done].
  - intros p [Hp Hin]%Hiff. destruct (ac_live_at _ _ _ _ _ Hinv Hp Hin) as (j & Hj & -> & _).
    rewrite <- Haddr. rewrite <- Hper in Hj. exists j. split; [done|]. split; [exact Hj|].
    destruct (rel_held_or_marked st1 x live' j Hinv' Hr' Hf' Hj) as [_ [|]]; auto.
  - unfold isReleased in *; cbn in *. by rewrite Hrel0.
Qed.

(** [startSlabRelease] of a slab in use, whatever the other threads do
    meanwhile. *)
Lemma ac_start_release st live mode hint rnd others Φ :
  ac_inv st [] live -> chosen hint rnd (self st) ∈ allocatedSlabs_ (self st) ->
  env_ok (chosen hint rnd (self st)) others Φ -> Φ 0%nat live ->
  exists ctx st' live' k,
    startSlabRelease mode hint rnd (fun _ => false) others st = (Ok ctx, st') /\ Φ k live' /\
    release_started st (chosen hint rnd (self st)) mode ctx st' live'.
Proof.
  intros Hinv Hx Henv HΦ.
  destruct (ac_start_used st [] live mode hint rnd Hinv Hx) as (st1 & Hrun1 & Hinv1 & Hr1 & Hc1 & _ & _).
  set (x := chosen hint rnd (self st)) in *.
  destruct (ac_prune x st1 live others Φ Hinv1 Hr1 Henv HΦ)
    as (k & st2 & live2 & active & Hrun2 & Hpi & Hc2 & HΦ2 & Hnd & Hiff).
  assert (Hg : negb (hint =? 0) && negb (SlabAllocator.isValidSlab (slabAlloc_ st)
    (SlabAllocator.getSlabForMemory hint)) = false).
  { destruct (hint =? 0) eqn:H0; [done|]. assert (SlabAllocator.getSlabForMemory hint = x) as ->.
    { unfold x, chosen. by rewrite H0. }
    rewrite (ac_slab_valid st [] live x); [done..|left; set_solver]. }
  unfold startSlabRelease, bind at 1, get. rewrite Hg. unfold bind at 1. rewrite Hrun1.
  unfold bind at 1. rewrite Hrun2. unfold bind at 1, modify.
  pose proof (same_class_trans _ _ _ Hc1 Hc2) as Hc. destruct active as [|a active].
  - destruct (ac_finish_empty st st2 live2 others Φ k x Hpi Henv HΦ2 Hc) as (live' & H1 & HΦ' & H2 & H3 & H4).
    { intros p Hp%Hiff. by apply not_elem_of_nil in Hp. }
    eexists _, _, live', (S k). split; [reflexivity|]. split; [done|]. cbn -[SlabAllocator.set_header setMarkedForRelease].
    split; try done.
    + intros p Hp Hin. exfalso. apply H2. apply (slab_of_live _ _ _ _ H1) in Hp. by rewrite Hin in Hp.
    + intros p Hp. by apply not_elem_of_nil in Hp.
  - destruct (ac_finish_active st st2 live2 others Φ k x (a :: active) mode Hpi Henv HΦ2 Hc)
      as (live' & HΦ' & H1); [done..|].
    eexists _, _, live', (S k). split; [reflexivity|]. split; [done|]. exact H1.
Qed.

(** ** Completing and aborting a release *)

(** A slab in release with none of its allocations on the free list. *)
Record in_release x st live : Prop := {
  ir_inv : ac_inv st [] live;
  ir_rel : x ∈ dom (slabReleaseAllocMap_ (self st));
  ir_freed p : p ∈ freedAllocations_ (self st) -> ~ inSlabOf x p
}.

Lemma ac_allFreed x st live :
  in_release x st live ->
  exists b, allFreed x st = (Ok b, st) /\ (b = true <-> forall p, p ∈ live -> ~ inSlabOf x p).
Proof.
  intros [Hinv Hr Hf]. unfold allFreed, bind, get.
  destruct (slabReleaseAllocMap_ (self st) !! x) as [bs|] eqn:Hb; [|by apply not_elem_of_dom in Hb].
  pose proof (ai_rel_len _ _ _ Hinv x bs Hb) as Hlen.
  exists (forallb id bs). split; [done|]. rewrite forallb_forall. split.
  - intros Hall p Hp Hin. destruct (ac_live_at _ _ _ _ _ Hinv Hp Hin) as (i & Hi & _ & Hm).
    apply Hm, (proj1 (rel_all_marked st x bs Hb)); [|lia].
    intros b Hbb. by apply Hall, list_elem_of_In.
  - intros Hno b Hb'%list_elem_of_In. apply (proj2 (rel_all_marked st x bs Hb)); [|done].
    intros i Hi. destruct (rel_held_or_marked st x live i Hinv Hr Hf ltac:(lia)) as [Hin [|Hl]]; [done|].
    by apply Hno in Hl.
Qed.

Lemma in_release_env x st live f Φ k :
  env_ok x f Φ -> in_release x st live -> Φ k live ->
  exists live', in_release x (f k st) live' /\ same_class st (f k st) /\ Φ (S k) live'.
Proof.
  intros Henv [Hinv Hr Hf] HΦ. destruct (Henv k st [] live Hinv HΦ) as (live' & Hi & (Hc & Hrel) & HΦ').
  destruct (Hrel Hr) as (Hr' & _ & Hfr). exists live'. split; [|done]. split; try done.
  intros p Hp Hin. by apply (Hf p (Hfr p Hp Hin)).
Qed.

(** The wait ends as soon as no allocation of the slab is held, and not
    before. *)
Lemma ac_wait x f Φ n : env_ok x f Φ -> forall k st live,
  in_release x st live -> Φ k live ->
  exists r st' live', waitUntilAllFreed (f <$> seq k n) x st = (r, st') /\
    in_release x st' live' /\ same_class st st' /\
    (r = Ok tt /\ (exists m, Φ m live') /\ (forall p, p ∈ live' -> ~ inSlabOf x p) \/
     r = Throw StillWaiting /\ Φ (k + n)%nat live' /\ ~ forall p, p ∈ live' -> ~ inSlabOf x p).
Proof.
  intros Henv. induction n as [|n IH]; intros k st live Hir HΦ; cbn [seq fmap list_fmap waitUntilAllFreed];
    destruct (ac_allFreed x st live Hir) as (b & Hrun & Hb); unfold bind at 1; rewrite Hrun.
  - destruct b.
    + exists (Ok tt), st, live. split_and!; try done. left. split; [done|]. split; [eauto|by apply Hb].
    + eexists _, st, live. split; [done|]. split_and!; try done. right. rewrite Nat.add_0_r.
      split_and!; try done. by rewrite <- Hb.
  - destruct b.
    + exists (Ok tt), st, live. split_and!; try done. left. split; [done|]. split; [eauto|by apply Hb].
    + destruct (in_release_env _ _ _ _ _ _ Henv Hir HΦ) as (live1 & Hir1 & Hc1 & HΦ1).
      destruct (IH (S k) _ _ Hir1 HΦ1) as (r & st' & live' & Hrun' & Hir' & Hc' & Hres).
      exists r, st', live'. split; [exact Hrun'|]. split; [done|].
      split; [by eapply same_class_trans|]. by rewrite Nat.add_succ_comm in Hres.
Qed.

Lemma ac_complete x f Φ n st live ctx :
  env_ok x f Φ -> in_release x st live -> Φ 0%nat live -> slab_ ctx = x -> isReleased ctx = false ->
  exists r st' live', completeSlabRelease (f <$> seq 0 n) ctx st = (r, st') /\
    (r = Ok tt /\ (exists m, Φ m live') /\ ac_inv st' [] live' /\ ~ slab_of (self st') x /\
       classId (hdr st' x) = kInvalidClassId /\ isMarkedForRelease (hdr st' x) = false /\
       same_class st st' \/
     r = Throw StillWaiting /\ in_release x st' live' /\ Φ n live' /\
       ~ forall p, p ∈ live' -> ~ inSlabOf x p).
Proof.
  intros Henv Hir HΦ <- Hnr. set (x := slab_ ctx) in *. pose proof Hir as [Hinv Hr Hf].
  destruct (ai_slab _ _ _ Hinv x (or_intror Hr)) as (Hv & _ & Hcl & _ & Hmk).
  destruct (ac_wait x f Φ n Henv 0 st live Hir HΦ) as (r & st1 & live1 & Hrun & Hir1 & Hc & Hres).
  unfold completeSlabRelease. rewrite Hnr. fold x. unfold bind at 1, get.
  rewrite (SlabAllocatorProofs.sa_header_valid _ _ Hv). fold (hdr st x).
  rewrite Hcl, Hmk, Z.eqb_refl, bool_decide_true by done. cbn [negb orb].
  unfold bind at 1. rewrite Hrun. pose proof Hir1 as [Hinv1 Hr1 Hf1].
  destruct Hres as [(-> & HΦm & Hno)|(-> & HΦn & Hheld)];
    [|exists (Throw StillWaiting), st1, live1; split; [done|]; right; by split_and!].
  destruct (slabReleaseAllocMap_ (self st1) !! x) as [bs|] eqn:Hb; [|by apply not_elem_of_dom in Hb].
  assert (Hall : forall b, b ∈ bs -> b = true).
  { apply (rel_all_marked _ _ _ Hb). intros j Hj. rewrite (ai_rel_len _ _ _ Hinv1 x bs Hb) in Hj.
    destruct (rel_held_or_marked st1 x live1 j Hinv1 Hr1 Hf1 Hj) as [Hin [|Hl]]; [done|].
    by apply Hno in Hl. }
  rewrite <- (same_class_idx _ _ x Hc). pose proof (ac_slab_valid _ _ _ _ Hinv1 (or_intror Hr1)) as Hv1.
  destruct (ac_drop_released st1 [] live1 x bs
    (setMarkedForRelease false (sh_setClass kInvalidClassId 0 (hdr st1 x))) (activeReleases_ (self st1) - 1)
    Hinv1 Hb Hall) as (H1 & H2 & _); [done|].
  eexists _, _, live1. split; [reflexivity|]. left. split; [done|]. split; [done|].
  split; [exact H1|]. split; [exact H2|].
  cbn -[SlabAllocator.set_header setMarkedForRelease].
  rewrite (hdr_write st1) by (try done; apply Hinv1). rewrite decide_True by done.
  split; [done|]. split; [apply marked_setMarked|exact Hc].
Qed.

Lemma freedOf_elem c x k bs acc p :
  p ∈ freedOf c x k bs acc <->
  p ∈ acc \/ exists n, bs !! n = Some true /\ p = addr c x (k + Z.of_nat n).
Proof.
  revert k acc. induction bs as [|b bs IH]; intros k acc; cbn [freedOf].
  { split; [by left|]. intros [|(n & ? & _)]; done. }
  rewrite IH. assert (Ht : (exists n, bs !! n = Some true /\ p = addr c x (k + 1 + Z.of_nat n)) <->
    exists n, (b :: bs) !! S n = Some true /\ p = addr c x (k + Z.of_nat (S n))).
  { split; intros (n & Hn & ->); exists n; (split; [done|f_equal; lia]). }
  rewrite Ht. destruct b; unfold memoryAtOffset.
  - rewrite elem_of_cons. split.
    + intros [[->|]|(n & ?)]; [right; exists O|by left|right; by exists (S n)].
      split; [done|]. by rewrite Z.add_0_r.
    + intros [|([|n] & ? & ->)]; [auto| |right; by exists n]. left. left. by rewrite Z.add_0_r.
  - split; [intros [|(n & ?)]; [by left|right; by exists (S n)]|].
    intros [|([|n] & ? & ?)]; [by left|done|right; by exists n].
Qed.

Lemma freedOf_NoDup c x k bs acc :
  0 < allocationSize_ c -> NoDup acc -> (forall j, k <= j -> addr c x j ∉ acc) ->
  NoDup (freedOf c x k bs acc).
Proof.
  intros Hs. revert k acc. induction bs as [|b bs IH]; intros k acc Hnd Hno; cbn [freedOf]; [done|].
  apply IH; destruct b; try done.
  - apply NoDup_cons. split; [apply (Hno k); lia|done].
  - intros j Hj [Heq|Hin]%elem_of_cons; [|by apply (Hno j); [lia|]].
    unfold addr, memoryAtOffset in Heq. nia.
  - intros j Hj. apply Hno. lia.
Qed.

(** The class after the slab [x] in release was put back. *)
Definition putBack x fr can n c : AllocationClass :=
  set_activeReleases n (set_allocatedSlabs (allocatedSlabs_ c ++ [x])
    (set_relMap (delete x (slabReleaseAllocMap_ c)) (set_canAllocate can (set_freed fr c)))).

Lemma ac_put_back st live x bs can n h :
  in_release x st live -> slabReleaseAllocMap_ (self st) !! x = Some bs ->
  let fr := freedOf (self st) x 0 bs [] in
  (can = false -> fr = [] /\ canAllocate_ (self st) = false) ->
  poolId h = poolId_ (self st) -> classId h = classId_ (self st) ->
  allocSize h = allocationSize_ (self st) -> isMarkedForRelease h = false ->
  ac_inv (mkACState (SlabAllocator.set_header (SlabAllocator.slabIdx (slabAlloc_ st) x) h (slabAlloc_ st))
            (putBack x (fr ++ freedAllocations_ (self st)) can n (self st))) [] live.
Proof.
  intros [Hinv Hr Hf] Hb fr Hcan Hh1 Hh2 Hh3 Hh4.
  set (c' := putBack _ _ _ _ _).
  assert (Hx : slab_of (self st) x) by (by right).
  pose proof (ac_slab_valid _ _ _ _ Hinv Hx) as Hv.
  pose proof (ai_rel_disj _ _ _ Hinv x Hr) as Hxl.
  pose proof (ai_rel_len _ _ _ Hinv x bs Hb) as Hlen.
  pose proof (ai_size _ _ _ Hinv) as Hs. change kMinAllocSize with 64 in Hs.
  assert (Hxc : x <> currSlab_ (self st)).
  { intros ->. destruct (ai_curr _ _ _ Hinv) as [H0|[Hc _]]; [|set_solver].
    apply SlabAllocatorProofs.sa_valid_pos in Hv; [lia|apply Hinv]. }
  assert (Hdom : forall y, y ∈ dom (slabReleaseAllocMap_ c') <->
    y <> x /\ y ∈ dom (slabReleaseAllocMap_ (self st))) by (intros y; simpl; set_solver).
  assert (Hof : forall y, slab_of c' y <-> slab_of (self st) y).
  { intros y. unfold slab_of. rewrite Hdom. simpl. destruct (decide (y = x)) as [->|]; set_solver. }
  assert (Hfr : forall p, p ∈ fr <-> exists i, 0 <= i < getAllocsPerSlab (self st) /\
    p = addr (self st) x i /\ marked (self st) x i).
  { intros p. unfold fr. rewrite freedOf_elem. split.
    - intros [?%not_elem_of_nil|(m & Hm & ->)]; [done|]. pose proof (lookup_lt_Some _ _ _ Hm).
      exists (Z.of_nat m). split_and!; [lia|lia|done|]. exists bs. by rewrite Nat2Z.id.
    - intros (i & Hi & -> & bs' & Hb' & Hl). right. exists (Z.to_nat i).
      split; [congruence|]. f_equal. lia. }
  assert (Hmk : forall y i, 0 <= i < getAllocsPerSlab (self st) ->
    slot c' y i /\ ~ marked c' y i <->
    slot (self st) y i /\ (y = x \/ ~ marked (self st) y i)).
  { intros y i Hi. unfold slot, marked. rewrite Hdom.
    change (getAllocsPerSlab c') with (getAllocsPerSlab (self st)). simpl.
    destruct (decide (y = x)) as [->|Hne].
    - rewrite lookup_delete_eq. split; [intros _; split; [split; [done|by right]|by left]|].
      intros _. split; [|by intros (? & ? & _)]. split; [done|]. left. split; [set_solver|done].
    - rewrite lookup_delete_ne by done. set_solver. }
  assert (Hdj : forall p, p ∈ fr -> p ∉ live /\ p ∉ freedAllocations_ (self st)).
  { intros p (i & Hi & -> & Hm)%Hfr.
    assert (Hno : ~ (addr (self st) x i ∈ live \/ addr (self st) x i ∈ freedAllocations_ (self st) ++ [])).
    { intros (y & j & Hsl & Hm' & He)%(ai_place _ _ _ Hinv).
      destruct (ac_addr_inj _ _ _ x i y j Hinv Hx (slot_slab _ _ _ Hsl) Hi (proj1 Hsl) He); by subst. }
    rewrite app_nil_r in Hno. tauto. }
  pose proof Hinv as []. rewrite app_nil_r in ai_nodup.
  split; cbn [slabAlloc_ self]; try done.
  - by apply header_write_wf.
  - intros y Hy%Hof. destruct (ai_slab y Hy) as (Hvy & H1 & H2 & H3 & H4).
    split; [done|]. rewrite hdr_write by done. destruct (decide (y = x)) as [E|E]; [subst y|].
    + split_and!; try done. rewrite Hh4. symmetry. apply bool_decide_false. rewrite Hdom. tauto.
    + split_and!; try done. rewrite H4. apply bool_decide_ext. rewrite Hdom. tauto.
  - intros y Hvy. rewrite hdr_write by done. case_decide as E; [subst y|]; rewrite Hof; auto.
  - cbn. rewrite app_assoc. apply NoDup_app. split_and!; [done| |apply NoDup_singleton]. set_solver.
  - intros y [Hne Hy]%Hdom. simpl. specialize (ai_rel_disj y Hy). set_solver.
  - intros y bs' Hy. simpl in Hy. apply lookup_delete_Some in Hy as [_ Hy]. by apply (ai_rel_len y).
  - simpl. destruct ai_curr as [|[Hc Hk]]; [by left|right]. split; [set_solver|done].
  - intros p Hp. cbn in Hp. rewrite app_nil_r, elem_of_app in Hp.
    assert (Hc : p ∈ fr \/ p ∈ live \/ p ∈ freedAllocations_ (self st) ++ []) by (rewrite app_nil_r; tauto).
    destruct Hc as [(i & Hi & -> & Hm)%Hfr|Hc].
    + exists x, i. apply and_assoc. split; [|done]. apply Hmk; [done|].
      split; [split; [done|by right]|by left].
    + destruct (ai_place p Hc) as (y & j & Hsl & Hm & ->). exists y, j.
      apply and_assoc. split; [|done]. apply Hmk; [apply Hsl|auto].
  - intros y i Hsl Hm. cbn. rewrite app_nil_r, elem_of_app. change (addr c' y i) with (addr (self st) y i).
    destruct (proj1 (Hmk y i (proj1 Hsl)) (conj Hsl Hm)) as [Hs0 Hm0].
    destruct (decide (addr (self st) y i ∈ fr)) as [|Hn]; [tauto|].
    destruct (ai_cover y i Hs0) as [|Hc]; [|by left|rewrite app_nil_r in Hc; tauto].
    intros Hmy. destruct Hm0 as [->|]; [|done]. apply Hn, Hfr. exists i. by split_and!; try apply Hs0.
  - cbn. rewrite app_nil_r. apply NoDup_app. split_and!; [|set_solver|done].
    apply freedOf_NoDup; [lia|constructor|]. intros j _. apply not_elem_of_nil.
  - intros p Hp. cbn. rewrite app_nil_r, elem_of_app. pose proof (ai_disj p Hp) as Hd.
    rewrite app_nil_r in Hd. intros [Hq|]; [|done]. by apply Hdj in Hq as [? _].
  - intros Hc. destruct (Hcan Hc) as [Hfe Hc0]. destruct (ai_can Hc0) as (H1 & H2 & H3).
    cbn. by rewrite Hfe, H1.
Qed.

(** Aborting a release puts the slab back and its free allocations on the free
    list; what is handed out stays handed out. *)
Lemma ac_abort x st live ctx :
  in_release x st live -> slab_ ctx = x -> isReleased ctx = false ->
  exists st', abortSlabRelease ctx st = (Ok tt, st') /\ ac_inv st' [] live /\
    x ∈ allocatedSlabs_ (self st') /\ same_class st st' /\
    (forall i, 0 <= i < getAllocsPerSlab (self st) -> marked (self st) x i ->
       addr (self st) x i ∈ freedAllocations_ (self st')).
Proof.
  intros Hir <- Hnr. set (x := slab_ ctx) in *. pose proof Hir as [Hinv Hr Hf].
  destruct (ai_slab _ _ _ Hinv x (or_intror Hr)) as (Hv & Hp & _).
  destruct (slabReleaseAllocMap_ (self st) !! x) as [bs|] eqn:Hb; [|by apply not_elem_of_dom in Hb].
  set (fr := freedOf (self st) x 0 bs []).
  set (can := if is_nil fr then canAllocate_ (self st) else true).
  set (h := setMarkedForRelease false (sh_setClass (classId_ (self st)) (allocationSize_ (self st)) (hdr st x))).
  eexists. split.
  { unfold abortSlabRelease. rewrite Hnr. fold x. unfold bind at 1, get. rewrite Hb. fold fr.
    rewrite (SlabAllocatorProofs.sa_header_valid _ _ Hv).
    assert (Hrun : forall st0, match fr with [] => ret tt | _ => upd (set_canAllocate true) end st0 =
      (Ok tt, mkACState (slabAlloc_ st0) (set_canAllocate (if is_nil fr then canAllocate_ (self st0) else true)
                (self st0)))) by (intros [s []]; by destruct fr).
    unfold bind at 1, upd at 1, modify. unfold bind at 1. rewrite Hrun. reflexivity. }
  split; [|split; [cbn; set_solver|split; [done|]]]; last first.
  { intros i Hi (bs' & Hb' & Hl). cbn. apply elem_of_app. left. unfold fr. apply freedOf_elem. right.
    exists (Z.to_nat i). split; [congruence|]. f_equal. lia. }
  apply (ac_put_back st live x bs can (activeReleases_ (self st) - 1) h Hir Hb); try done.
  - intros Hc. unfold can in Hc. fold fr. destruct fr; done.
  - apply marked_setMarked.
Qed.

(** ** Client threads

    The operations other threads perform between critical sections, and when
    they may. *)
Inductive client_op : Type :=
| CAllocate
| CFree (p : Z).

Definition run_client (op : client_op) st : ACState :=
  match op with
  | CAllocate => state_of allocate st
  | CFree p => state_of (free p) st
  end.

Definition run_clients (prog : list client_op) (k : nat) st : ACState :=
  match prog !! k with Some op => run_client op st | None => st end.

(** What the rest of the program still frees, it holds. *)
Definition holds (prog : list client_op) (k : nat) (live : gset Z) : Prop :=
  forall (j : nat) p, (k <= j)%nat -> prog !! j = Some (CFree p) -> p ∈ live.

Definition frees_once (prog : list client_op) : Prop :=
  forall (n m : nat) p, prog !! n = Some (CFree p) -> prog !! m = Some (CFree p) -> n = m.

(** Threads that allocate and free what they hold, once, are an environment a
    release can run in. *)
Lemma client_env x prog : frees_once prog -> env_ok x (run_clients prog) (holds prog).
Proof.
  intros Honce k st off live Hinv Hh. unfold run_clients. destruct (prog !! k) as [[|p]|] eqn:Hk.
  - destruct (ac_allocate st off live Hinv) as (r & st' & Hrun & Hrely & Hres).
    unfold run_client, state_of. rewrite Hrun. destruct Hres as [(_ & Hinv' & _)|(_ & _ & _ & Hinv')].
    + exists live. split_and!; try done. intros j q Hj. apply Hh. lia.
    + exists ({[ r ]} ∪ live). split_and!; try done. intros j q Hj Hq.
      apply elem_of_union_r, (Hh j); [lia|done].
  - destruct (ac_free st off live p Hinv) as (st' & Hrun & Hinv' & Hrely); [by apply (Hh k)|].
    unfold run_client, state_of. rewrite Hrun. exists (live ∖ {[ p ]}). split_and!; try done.
    intros j q Hj Hq. apply elem_of_difference. split; [apply (Hh j); [lia|done]|].
    intros ->%elem_of_singleton. pose proof (Honce k j p Hk Hq). lia.
  - exists live. split_and!; try done. intros j q Hj. apply Hh. lia.
Qed.
