(* ===== verification/AllocationClassClaims.v ===== *)
(** * Allocation class: theorems *)

From S2P Require Import Prelude Slab AllocationClass AllocationClassProofs AllocationClassSpec.
From S2P Require SlabAllocator SlabAllocatorProofs SlabAllocatorSpec.
From stdpp Require Import base tactics numbers gmap list.

#[local] Open Scope Z_scope.
#[local] Open Scope cachelib_scope.

(** ** Allocation class: theorems

    Every sequence of operations on a class, the release of a slab, errors,
    traversal, statistics, and saving and restoring. *)

Implicit Types (st : ACState) (c : AllocationClass) (x i p : Z).

(** ** Sequences of operations *)

(** The allocations handed out after one more was asked for. *)
Definition add_live (r : Z) (live : gset Z) : gset Z := if r =? 0 then live else {[ r ]} ∪ live.

Definition no_others (k : nat) st : ACState := st.

(** ** Releases that are not stopped

    A release that [shouldAbortFn] did not stop is one it would not have
    stopped. *)

Lemma pruneLoop_unstopped fuel k sa others slab l st k' l' st' :
  pruneLoop fuel k sa others slab l st = (Ok (k', false, l'), st') ->
  pruneLoop fuel k (fun _ => false) others slab l st = (Ok (k', false, l'), st').
Proof.
  revert k l st. induction fuel as [|fuel IH]; intros k l st; [done|]. cbn [pruneLoop].
  destruct (sa k); [done|]. unfold bind. destruct (modify (others k) st) as [[?|] st1]; [|done].
  destruct (pruneRoundLocked slab l st1) as [[l1|] st2]; [|done].
  destruct (freeAllocs l1); [done|]. destruct (get st2) as [[?|] st3]; [|done]. apply IH.
Qed.

Lemma pruneFreeAllocs_unstopped sa others slab st k bs st' :
  pruneFreeAllocs sa others slab st = (Ok (k, false, bs), st') ->
  pruneFreeAllocs (fun _ => false) others slab st = (Ok (k, false, bs), st').
Proof.
  unfold pruneFreeAllocs, bind. destruct (modify (others 0%nat) st) as [[?|] st1]; [|done].
  destruct (get st1) as [[s|] st2]; [|done]. destruct (upd (set_freed []) st2) as [[?|] st3]; [|done].
  destruct (pruneLoop _ 1 sa others slab _ st3) as [[[[k1 []] l1]|] st4] eqn:E; [|by rewrite (pruneLoop_unstopped _ _ _ _ _ _ _ _ _ _ E)|done].
  destruct (modify (others k1) st4) as [[?|] st5]; [|done]. by destruct (upd _ st5) as [[?|] st6].
Qed.

Lemma startSlabRelease_unstopped mode hint rnd sa others st ctx st' :
  startSlabRelease mode hint rnd sa others st = (Ok ctx, st') ->
  startSlabRelease mode hint rnd (fun _ => false) others st = (Ok ctx, st').
Proof.
  unfold startSlabRelease, bind. destruct (get st) as [[s|] st1]; [|done]. destruct (negb (hint =? 0) && _); [done|].
  destruct (startSlabReleaseLocked mode hint rnd st1) as [[[c|[slab i]]|] st2]; [done| |done].
  destruct (pruneFreeAllocs sa others slab st2) as [[[[k []] bs]|] st3] eqn:E;
    [|by rewrite (pruneFreeAllocs_unstopped _ _ _ _ _ _ _ E)|done].
  destruct (modify (others k) st3) as [[?|] st4]; [|done]. destruct (upd_header _ _ st4) as [[?|] st5]; [|done].
  by destruct (upd _ st5) as [[?|] st6].
Qed.

(** One call of a class's operation, with the allocations the callers hold.
    A slab that is added is one the class can take; what is freed is held; a
    context that is completed or aborted belongs to a release in progress. A
    release may be asked to stop at any time, and is a step when it was not:
    one that is stopped throws and loses its slab (see
    [aborted_release_loses_slab]). *)
Inductive ac_step : ACState -> gset Z -> ACState -> gset Z -> Prop :=
| step_allocate st live r st' :
    allocate st = (Ok r, st') -> ac_step st live st' (add_live r live)
| step_free st live p st' :
    p ∈ live -> free p st = (Ok tt, st') -> ac_step st live st' (live ∖ {[ p ]})
| step_addSlab st live x st' :
    can_add st x -> addSlab x st = (Ok tt, st') -> ac_step st live st' live
| step_addSlabAndAllocate st live x r st' :
    can_add st x -> addSlabAndAllocate x st = (Ok r, st') -> ac_step st live st' (add_live r live)
| step_release st live mode hint rnd shouldAbort ctx st' :
    startSlabRelease mode hint rnd shouldAbort no_others st = (Ok ctx, st') ->
    ac_step st live st' live
| step_complete st live ctx st' :
    in_release (slab_ ctx) st live -> completeSlabRelease [] ctx st = (Ok tt, st') ->
    ac_step st live st' live
| step_abort st live ctx st' :
    in_release (slab_ ctx) st live -> abortSlabRelease ctx st = (Ok tt, st') ->
    ac_step st live st' live.

Inductive ac_steps : ACState -> gset Z -> ACState -> gset Z -> Prop :=
| ac_refl st live : ac_steps st live st live
| ac_next st live st1 live1 st' live' :
    ac_step st live st1 live1 -> ac_steps st1 live1 st' live' -> ac_steps st live st' live'.

Lemma ac_add_alloc live r st' :
  (r = 0 /\ ac_inv st' [] live \/ 0 < r /\ ac_inv st' [] ({[ r ]} ∪ live)) ->
  ac_inv st' [] (add_live r live).
Proof.
  unfold add_live. intros [[-> ?]|[Hr ?]]; [done|]. by destruct (Z.eqb_spec r 0); [lia|].
Qed.

Lemma no_others_env x live : env_ok x no_others (fun _ l => l = live).
Proof. intros k st off l Hinv ->. exists live. done. Qed.

(** [startSlabRelease] from a consistent class: released at once, in release,
    or refused. *)
Lemma ac_start_any st live mode hint rnd ctx st' :
  ac_inv st [] live ->
  startSlabRelease mode hint rnd (fun _ => false) no_others st = (Ok ctx, st') ->
  ac_inv st' [] live /\ same_class st st'.
Proof.
  intros Hinv Hrun. set (x := chosen hint rnd (self st)).
  destruct (decide (x ∈ allocatedSlabs_ (self st))) as [Ha|Ha].
  { destruct (ac_start_release st live mode hint rnd no_others _ Hinv Ha (no_others_env x live) eq_refl)
      as (ctx' & st1 & live' & k & Hrun' & -> & Hrs).
    rewrite Hrun in Hrun'. injection Hrun' as <- <-. split; apply Hrs. }
  unfold startSlabRelease, bind, get in Hrun. destruct (negb (hint =? 0) && _); [done|].
  destruct (decide (x ∈ freeSlabs_ (self st))) as [Hf|Hf].
  - destruct (ac_start_free st [] live mode hint rnd Hinv Hf) as (st1 & Hs & Hinv1 & _ & Hrely).
    rewrite Hs in Hrun. injection Hrun as _ <-. split; [done|]. apply (Hrely 0).
  - rewrite (ac_start_refused st [] live) in Hrun; [done..|]. fold x. set_solver.
Qed.

Lemma ac_step_inv st live st' live' :
  ac_step st live st' live' -> ac_inv st [] live -> ac_inv st' [] live' /\ same_class st st'.
Proof.
  intros Hstep Hinv.
  destruct Hstep as [st live r st' Hr|st live p st' Hp Hr|st live x st' Hx Hr|st live x r st' Hx Hr
    |st live mode hint rnd sa ctx st' Hr|st live ctx st' Hir Hr|st live ctx st' Hir Hr].
  - destruct (ac_allocate st [] live Hinv) as (r' & st1 & Hrun & Hrely & Hres).
    rewrite Hrun in Hr. injection Hr as -> ->. split; [apply ac_add_alloc; tauto|apply (Hrely 0)].
  - destruct (ac_free st [] live p Hinv Hp) as (st1 & Hrun & Hinv1 & Hrely).
    rewrite Hrun in Hr. injection Hr as ->. split; [done|apply (Hrely 0)].
  - destruct (ac_addSlab st [] live x Hinv Hx) as (st1 & Hrun & Hinv1 & Hrely & _).
    rewrite Hrun in Hr. injection Hr as ->. split; [done|apply (Hrely 0)].
  - destruct (ac_addSlab st [] live x Hinv Hx) as (st1 & Hrun & Hinv1 & Hrely & _).
    destruct (ac_allocateLocked st1 [] live Hinv1) as (r' & st2 & Hrun2 & Hrely2 & Hres).
    unfold addSlabAndAllocate, bind in Hr. unfold addSlab in Hrun. rewrite Hrun, Hrun2 in Hr.
    injection Hr as -> ->. split; [apply ac_add_alloc; tauto|].
    apply (same_class_trans _ _ _ (proj1 (Hrely 0)) (proj1 (Hrely2 0))).
  - by eapply ac_start_any, startSlabRelease_unstopped.
  - destruct (isReleased ctx) eqn:Hnr.
    { unfold completeSlabRelease in Hr. rewrite Hnr in Hr. injection Hr as ->. split; [apply Hir|done]. }
    destruct (ac_complete (slab_ ctx) no_others (fun _ l => l = live) 0 st live ctx
      (no_others_env _ _) Hir eq_refl eq_refl Hnr) as (r & st1 & live1 & Hrun & Hres).
    cbn in Hrun. rewrite Hr in Hrun. injection Hrun as <- <-.
    by destruct Hres as [(_ & [m ->] & Hinv1 & _ & _ & _ & Hc)|(? & _)].
  - destruct (isReleased ctx) eqn:Hnr.
    { unfold abortSlabRelease in Hr. by rewrite Hnr in Hr. }
    destruct (ac_abort (slab_ ctx) st live ctx Hir eq_refl Hnr) as (st1 & Hrun & Hinv1 & _ & Hc & _).
    rewrite Hrun in Hr. by injection Hr as ->.
Qed.

Lemma ac_steps_inv st live st' live' :
  ac_steps st live st' live' -> ac_inv st [] live -> ac_inv st' [] live' /\ same_class st st'.
Proof.
  induction 1 as [|st live st1 live1 st' live' Hs _ IH]; [done|]. intros Hinv.
  destruct (ac_step_inv _ _ _ _ Hs Hinv) as [Hinv1 Hc1]. destruct (IH Hinv1) as [? Hc].
  split; [done|]. by eapply same_class_trans.
Qed.

(** A new class of a size the allocator supports, none of whose slabs exists
    yet. *)
Definition new_class (s : SlabAllocator.SlabAllocator) (cid pid size : Z) c : Prop :=
  SlabAllocatorProofs.sa_wf s /\ makeAllocationClass s cid pid size = Ok c /\ kMinAllocSize <= size /\
  forall x, SlabAllocator.isValidSlab s x = true ->
    ~ (poolId (SlabAllocator.header s (SlabAllocator.slabIdx s x)) = pid /\
       classId (SlabAllocator.header s (SlabAllocator.slabIdx s x)) = cid).

Lemma ac_init s cid pid size c : new_class s cid pid size c -> ac_inv (mkACState s c) [] ∅.
Proof.
  intros (Hwf & Hmk & Hsz & Hno). unfold makeAllocationClass, checkState in Hmk. cbn in Hmk.
  destruct (Z.ltb_spec cid 0); [done|]. destruct (Z.ltb_spec size sizeof_FreeAlloc); [done|].
  destruct (Z.ltb_spec kSize size); [done|]. cbn in Hmk.
  destruct (match SlabAllocator.getSlabHeader_slab s 0 with Some _ => _ | None => _ end); [done|].
  injection Hmk as <-. split; cbn; try done.
  - intros x [Hx|Hx]; set_solver.
  - intros x Hv Hp Hc. exfalso. by apply (Hno x Hv).
  - apply NoDup_nil_2.
  - by left.
  - intros p [?%not_elem_of_empty|?%not_elem_of_nil]; done.
  - intros x i (_ & [[Hx _]|Hx]); cbn in Hx; set_solver.
  - apply NoDup_nil_2.
Qed.

(** ** Allocations *)

(** Two places of the class do not overlap. *)
Lemma ac_apart st off live x i y j :
  ac_inv st off live -> slab_of (self st) x -> slab_of (self st) y ->
  0 <= i < getAllocsPerSlab (self st) -> 0 <= j < getAllocsPerSlab (self st) ->
  let p := addr (self st) x i in let q := addr (self st) y j in
  p <> q -> p + allocationSize_ (self st) <= q \/ q + allocationSize_ (self st) <= p.
Proof.
  intros Hinv Hx Hy Hi Hj p q Hne.
  pose proof (ac_slab_valid _ _ _ _ Hinv Hx) as Hvx. pose proof (ac_slab_valid _ _ _ _ Hinv Hy) as Hvy.
  destruct (ac_addr st x i (ai_wf _ _ _ Hinv) (ai_size _ _ _ Hinv) Hvx Hi) as (_ & _ & _ & Hp1 & Hp2).
  destruct (ac_addr st y j (ai_wf _ _ _ Hinv) (ai_size _ _ _ Hinv) Hvy Hj) as (_ & _ & _ & Hq1 & Hq2).
  fold p in Hp1, Hp2. fold q in Hq1, Hq2.
  apply SlabAllocatorProofs.sa_valid_iff in Hvx as [_ Hmx], Hvy as [_ Hmy]; [|apply Hinv..].
  apply Z.mod_divide in Hmx as [a Ha], Hmy as [b Hb]; [|done..]. assert (HK : kSize = 4194304) by done.
  pose proof (ai_size _ _ _ Hinv) as Hs. change kMinAllocSize with 64 in Hs.
  rewrite HK in *. destruct (Z.lt_trichotomy a b) as [Hlt|[He|Hlt]]; [lia| |lia].
  assert (x = y) as -> by lia. unfold p, q, addr in *. clear -Hs Hne.
  destruct (Z.lt_trichotomy i j) as [|[->|]]; [left; nia|done|right; nia].
Qed.

(** C13. The allocations the callers of an allocation class hold, after any
    sequence of its operations that return (allocating, freeing what is held,
    adding slabs, starting releases of slabs, completing and aborting them; the
    start of a release that its [shouldAbortFn] stops throws and is not among
    them), lie inside slabs of the class at multiples
    of the allocation size and do not overlap; each can be freed; the next
    allocation is none of them, and is null exactly when the free list, the
    free slabs and the current slab are used up. *)
Theorem class_live_allocations s cid pid size c st live :
  new_class s cid pid size c -> ac_steps (mkACState s c) ∅ st live ->
  (forall p, p ∈ live -> exists x k, slab_of (self st) x /\
     SlabAllocator.isValidSlab (slabAlloc_ st) x = true /\ poolId (hdr st x) = pid /\
     classId (hdr st x) = cid /\ allocSize (hdr st x) = size /\
     p = x + k * size /\ x <= p /\ p + size <= x + kSize) /\
  (forall p q, p ∈ live -> q ∈ live -> p <> q -> p + size <= q \/ q + size <= p) /\
  (forall p, p ∈ live -> exists st', free p st = (Ok tt, st')) /\
  exists r st', allocate st = (Ok r, st') /\ r ∉ live /\
    (r = 0 <-> freedAllocations_ (self st) = [] /\ freeSlabs_ (self st) = [] /\
       canAllocateFromCurrentSlabLocked (self st) = false).
Proof.
  intros Hnew Hsteps. pose proof (ac_init _ _ _ _ _ Hnew) as Hinv0.
  destruct (ac_steps_inv _ _ _ _ Hsteps Hinv0) as [Hinv (Hsz & Hcid & Hpid & _)].
  destruct Hnew as (_ & Hmk & _). unfold makeAllocationClass in Hmk.
  destruct (checkState _); [|done]. injection Hmk as <-. cbn in Hsz, Hcid, Hpid.
  assert (Hplace : forall p, p ∈ live -> exists x i, slab_of (self st) x /\
    0 <= i < getAllocsPerSlab (self st) /\ p = addr (self st) x i).
  { intros p Hp. destruct (ai_place _ _ _ Hinv p (or_introl Hp)) as (x & i & Hs & _ & ->).
    exists x, i. split_and!; [by eapply slot_slab|apply Hs|apply Hs|done]. }
  split; [|split; [|split]].
  - intros p Hp. destruct (Hplace p Hp) as (x & i & Hx & Hi & ->).
    destruct (ai_slab _ _ _ Hinv x Hx) as (Hv & H1 & H2 & H3 & _).
    destruct (ac_addr st x i (ai_wf _ _ _ Hinv) (ai_size _ _ _ Hinv) Hv Hi) as (_ & _ & _ & Hb & Hb').
    exists x, i. rewrite <- Hsz, <- Hcid, <- Hpid. split_and!; try done. lia.
  - intros p q Hp Hq Hne. destruct (Hplace p Hp) as (x & i & Hx & Hi & ->).
    destruct (Hplace q Hq) as (y & j & Hy & Hj & ->). rewrite <- Hsz. by apply (ac_apart st [] live).
  - intros p Hp. destruct (ac_free st [] live p Hinv Hp) as (st' & Hrun & _). eauto.
  - assert (H0 : 0 ∉ live).
    { intros (x & i & Hx & Hi & He)%Hplace. destruct (ac_addr st x i (ai_wf _ _ _ Hinv)
        (ai_size _ _ _ Hinv) (ac_slab_valid _ _ _ _ Hinv Hx) Hi) as (_ & _ & _ & Hb & _). lia. }
    destruct (ac_allocate st [] live Hinv) as (r & st' & Hrun & _ & Hres). exists r, st'.
    split; [done|]. destruct Hres as [(-> & _ & Hn)|(Hr & Hfresh & _ & Hinv')]; [done|].
    split; [done|]. split; [lia|]. intros (Hf & Hfs & Hcan). exfalso. revert Hrun.
    unfold allocate, bind, get. destruct (canAllocate_ (self st)); simpl; [|intros [= <- _]; lia].
    unfold allocateLocked, bind, get. rewrite Hf, Hfs, Hcan. simpl. intros [= <- _]. lia.
Qed.

(** ** Releases *)

(** C16. Starting the release of a slab in use, while other threads allocate
    and free: the call returns a context whose active allocations are, without
    repetition, allocations of the slab; every allocation of the slab that is
    still held is among them, and each of them is held or has been given back
    since.  With no active allocation the slab has left the class; otherwise
    it is in release and none of its allocations can be handed out again. *)
Theorem class_release_active st live mode hint rnd others Φ :
  ac_inv st [] live -> chosen hint rnd (self st) ∈ allocatedSlabs_ (self st) ->
  env_ok (chosen hint rnd (self st)) others Φ -> Φ 0%nat live ->
  exists ctx st' live' k,
    startSlabRelease mode hint rnd (fun _ => false) others st = (Ok ctx, st') /\ Φ k live' /\
    release_started st (chosen hint rnd (self st)) mode ctx st' live'.
Proof. apply ac_start_release. Qed.

(** C21. Completing a release waits while an allocation of the slab is held and
    returns when none is: then the slab belongs to no class, is not marked for
    release, and nothing in it is held.  If the other threads give everything
    back within their next [n] steps, the call returns. *)
Theorem class_release_completes x f Φ n st live ctx :
  env_ok x f Φ -> in_release x st live -> Φ 0%nat live -> slab_ ctx = x -> isReleased ctx = false ->
  exists r st' live', completeSlabRelease (f <$> seq 0 n) ctx st = (r, st') /\
    (r = Ok tt /\ ac_inv st' [] live' /\ ~ slab_of (self st') x /\
       classId (hdr st' x) = kInvalidClassId /\ isMarkedForRelease (hdr st' x) = false /\
       (forall p, p ∈ live' -> ~ inSlabOf x p) \/
     r = Throw StillWaiting /\ in_release x st' live' /\ ~ forall p, p ∈ live' -> ~ inSlabOf x p) /\
    ((forall l, Φ n l -> forall p, p ∈ l -> ~ inSlabOf x p) -> r = Ok tt).
Proof.
  intros Henv Hir HΦ Hs Hnr.
  destruct (ac_complete x f Φ n st live ctx Henv Hir HΦ Hs Hnr) as (r & st' & live' & Hrun & Hres).
  exists r, st', live'. split; [done|].
  destruct Hres as [(-> & _ & Hinv & Hno & H1 & H2 & _)|(-> & Hir' & HΦn & Hheld)].
  - split; [|done]. left. split_and!; try done. intros p Hp Hin.
    apply (slab_of_live _ _ _ _ Hinv) in Hp. by rewrite Hin in Hp.
  - split; [right; by split_and!|]. intros Hall. exfalso. by apply Hheld, Hall.
Qed.

(** Aborting a release puts the slab back: the class is consistent with
    the same allocations held, and what was given back during the release is
    on the free list. *)
Theorem class_release_abort x st live ctx :
  in_release x st live -> slab_ ctx = x -> isReleased ctx = false ->
  exists st', abortSlabRelease ctx st = (Ok tt, st') /\ ac_inv st' [] live /\
    x ∈ allocatedSlabs_ (self st') /\
    forall i, 0 <= i < getAllocsPerSlab (self st) -> marked (self st) x i ->
      addr (self st) x i ∈ freedAllocations_ (self st').
Proof.
  intros Hir Hs Hnr. destruct (ac_abort x st live ctx Hir Hs Hnr) as (st' & H1 & H2 & H3 & _ & H4). eauto 10.
Qed.

(** Calls a class refuses leave it as it was: freeing memory outside the
    slabs or of another class, freeing twice an allocation of a slab in
    release, releasing a slab that is not the class's or is already in
    release, and aborting a release that is over. *)
Theorem class_errors st off live :
  ac_inv st off live ->
  (forall p, SlabAllocator.getSlabHeader (slabAlloc_ st) p = None ->
     free p st = (Throw InvalidArgument, st)) /\
  (forall p h, SlabAllocator.getSlabHeader (slabAlloc_ st) p = Some h ->
     classId (SlabAllocator.header (slabAlloc_ st) h) <> classId_ (self st) ->
     free p st = (Throw InvalidArgument, st)) /\
  (forall x i, 0 <= i < getAllocsPerSlab (self st) -> marked (self st) x i ->
     free (addr (self st) x i) st = (Throw InvalidArgument, st)) /\
  (forall mode hint rnd shouldAbort others,
     chosen hint rnd (self st) ∉ freeSlabs_ (self st) ++ allocatedSlabs_ (self st) ->
     startSlabRelease mode hint rnd shouldAbort others st = (Throw InvalidArgument, st)) /\
  (forall ctx, isReleased ctx = true -> abortSlabRelease ctx st = (Throw InvalidArgument, st)).
Proof.
  intros Hinv. split_and!.
  - intros p Hp. unfold free, bind, get. by rewrite Hp.
  - intros p h Hp Hc. unfold free, bind, get. rewrite Hp. by rewrite (proj2 (Z.eqb_neq _ _) Hc).
  - intros x i Hi (bs & Hb & Hl).
    assert (Hd : x ∈ dom (slabReleaseAllocMap_ (self st))) by (by eapply elem_of_dom_2).
    destruct (ai_slab _ _ _ Hinv x (or_intror Hd)) as (Hv & _ & Hc & _ & Hm).
    destruct (ac_addr st x i (ai_wf _ _ _ Hinv) (ai_size _ _ _ Hinv) Hv Hi) as (Hg & Hh & Hidx & _).
    unfold free, bind, get. rewrite Hh, Hg. fold (hdr st x).
    by rewrite Hc, Z.eqb_refl, Hm, bool_decide_true, Hb, Hidx, Hl by done.
  - intros mode hint rnd sa others Hn. unfold startSlabRelease, bind, get.
    destruct (negb (hint =? 0) && _); [done|]. by rewrite (ac_start_refused st off live).
  - intros ctx Hr. unfold abortSlabRelease. by rewrite Hr.
Qed.

(** ** Witnesses *)

#[export] Instance slab_of_dec c x : Decision (slab_of c x).
Proof. unfold slab_of. apply _. Defined.

(** Two slabs of pool 3 and a class of two allocations per slab. *)
Definition demo_slabs : SlabAllocator.SlabAllocator :=
  state_of (do! SlabAllocator.makeNewSlab 3 in SlabAllocator.makeNewSlab 3) SlabAllocatorSpec.demo_alloc.
Definition demo_class : AllocationClass :=
  mkAllocationClass 0 3 (kSize / 2) 0 0 [] [] [] true 0 ∅.

Lemma demo_new_class : new_class demo_slabs 0 3 (kSize / 2) demo_class.
Proof.
  split; [split; by vm_compute|]. split; [by vm_compute|]. split; [by vm_compute|].
  intros x _. set (i := SlabAllocator.slabIdx demo_slabs x). unfold SlabAllocator.header.
  assert (He : SlabAllocator.headers demo_slabs =
    <[1 := mkSlabHeader 3 (-1) 0 0]> (<[0 := mkSlabHeader 3 (-1) 0 0]> ∅)) by (by vm_compute).
  rewrite He. destruct (decide (i = 1)) as [->|]; [by rewrite lookup_insert_eq; intros [_ ?]|].
  rewrite lookup_insert_ne by done. destruct (decide (i = 0)) as [->|]; [by rewrite lookup_insert_eq; intros [_ ?]|].
  rewrite lookup_insert_ne by done. rewrite lookup_empty. by intros [? _].
Qed.

(** Both slabs added, three allocations made and one given back. *)
Definition demo_run : M ACState unit :=
  do! addSlab (2 * kSize) in do! allocate in do! allocate in do! addSlab (3 * kSize) in
  do! allocate in free (2 * kSize).
Definition demo_st : ACState := state_of demo_run (mkACState demo_slabs demo_class).
Definition demo_live : gset Z := {[ 2 * kSize + kSize / 2; 3 * kSize ]}.

Lemma demo_can_add st x :
  bool_decide (SlabAllocator.isValidSlab (slabAlloc_ st) x = true /\
    poolId (hdr st x) = poolId_ (self st) /\ isMarkedForRelease (hdr st x) = false /\
    ~ slab_of (self st) x) = true -> can_add st x.
Proof. by intros H%bool_decide_eq_true. Qed.

Lemma demo_steps : ac_steps (mkACState demo_slabs demo_class) ∅ demo_st demo_live.
Proof.
  eapply ac_next; [eapply (step_addSlab _ _ (2 * kSize)); [apply demo_can_add; by vm_compute|by vm_compute]|].
  eapply ac_next; [eapply (step_allocate _ _ (2 * kSize)); by vm_compute|].
  eapply ac_next; [eapply (step_allocate _ _ (2 * kSize + kSize / 2)); by vm_compute|].
  eapply ac_next; [eapply (step_addSlab _ _ (3 * kSize)); [apply demo_can_add; by vm_compute|by vm_compute]|].
  eapply ac_next; [eapply (step_allocate _ _ (3 * kSize)); by vm_compute|].
  eapply ac_next; [eapply (step_free _ _ (2 * kSize)); [refine (bool_decide_eq_true_1 _ _); by vm_compute|by vm_compute]|].
  match goal with |- ac_steps ?a ?l ?b ?k => assert (l = k) as -> by (by vm_compute) end.
  apply ac_refl.
Qed.

Lemma demo_class_inv : ac_inv demo_st [] demo_live.
Proof. apply (ac_steps_inv _ _ _ _ demo_steps), (ac_init _ _ _ _ _ demo_new_class). Qed.

Lemma class_live_allocations_witness :
  exists r st', allocate demo_st = (Ok r, st') /\ r ∉ demo_live.
Proof.
  destruct (class_live_allocations demo_slabs 0 3 (kSize / 2) demo_class demo_st demo_live)
    as (_ & _ & _ & r & st' & Hrun & Hr & _).
  - exact demo_new_class.
  - exact demo_steps.
  - exists r, st'. by split.
Defined.

(** While the first slab is released, one thread takes the slab's free
    allocation off the free list and another gives its allocation back. *)
Definition demo_prog : list client_op := [CAllocate; CFree (2 * kSize + kSize / 2)].

Lemma demo_frees_once : frees_once demo_prog.
Proof. intros [|[|n]] [|[|m]] p; cbn; by rewrite ?lookup_nil. Qed.

Lemma demo_holds : holds demo_prog 0 demo_live.
Proof.
  intros [|[|j]] p _; cbn; try done. intros [= <-]. refine (bool_decide_eq_true_1 _ _). by vm_compute.
Qed.

Lemma class_release_active_witness :
  exists ctx st' live', startSlabRelease kResize (2 * kSize) 0 (fun _ => false) (run_clients demo_prog)
      demo_st = (Ok ctx, st') /\ release_started demo_st (2 * kSize) kResize ctx st' live'.
Proof.
  destruct (class_release_active demo_st demo_live kResize (2 * kSize) 0 (run_clients demo_prog)
    (holds demo_prog)) as (ctx & st' & live' & k & Hrun & _ & Hrs).
  - exact demo_class_inv.
  - refine (bool_decide_eq_true_1 _ _). by vm_compute.
  - apply client_env, demo_frees_once.
  - exact demo_holds.
  - exists ctx, st', live'. by split.
Defined.

(** The first slab in release. *)
Definition demo_started := startSlabRelease kResize (2 * kSize) 0 (fun _ => false) no_others demo_st.
Definition demo_ctx : SlabReleaseContext :=
  match fst demo_started with Ok ctx => ctx | Throw _ => releaseContext 0 0 0 [] kResize end.

Lemma demo_in_release : in_release (2 * kSize) (snd demo_started) demo_live.
Proof.
  destruct (ac_start_release demo_st demo_live kResize (2 * kSize) 0 no_others
    (fun _ l => l = demo_live) demo_class_inv) as (ctx & st' & live' & k & Hrun & -> & Hrs); [refine (bool_decide_eq_true_1 _ _); by vm_compute| |done|].
  { apply no_others_env. }
  assert (Hctx : demo_ctx = ctx) by (unfold demo_ctx, demo_started; by rewrite Hrun).
  assert (Hst : snd demo_started = st') by (unfold demo_started; by rewrite Hrun).
  rewrite Hst. destruct (rs_pending _ _ _ _ _ _ Hrs) as [H1 H2]; [rewrite <- Hctx; by vm_compute|].
  split; [apply Hrs|exact H1|exact H2].
Qed.

(** The thread that holds the other allocation of the slab gives it back. *)
Definition demo_return : list client_op := [CFree (2 * kSize + kSize / 2)].
Definition demo_held (k : nat) (l : gset Z) : Prop :=
  l = match k with O => demo_live | _ => demo_live ∖ {[ 2 * kSize + kSize / 2 ]} end.

Lemma demo_return_env x : env_ok x (run_clients demo_return) demo_held.
Proof.
  intros [|k] st off live Hinv ->.
  - destruct (ac_free st off demo_live (2 * kSize + kSize / 2) Hinv) as (st' & Hrun & Hinv' & Hr).
    { refine (bool_decide_eq_true_1 _ _). by vm_compute. }
    exists (demo_live ∖ {[ 2 * kSize + kSize / 2 ]}).
    unfold run_clients, run_client, state_of. cbn -[free]. rewrite Hrun. done.
  - exists (demo_live ∖ {[ 2 * kSize + kSize / 2 ]}). done.
Qed.

Lemma demo_held_1 p : p ∈ demo_live ∖ {[ 2 * kSize + kSize / 2 ]} -> p = 3 * kSize.
Proof. unfold demo_live. generalize (2 * kSize + kSize / 2), (3 * kSize). set_solver. Qed.

Lemma class_release_completes_witness :
  exists st', completeSlabRelease (run_clients demo_return <$> seq 0 1) demo_ctx (snd demo_started)
    = (Ok tt, st').
Proof.
  destruct (class_release_completes (2 * kSize) (run_clients demo_return) demo_held 1
    (snd demo_started) demo_live demo_ctx) as (r & st' & live' & Hrun & _ & Hok).
  - apply demo_return_env.
  - exact demo_in_release.
  - done.
  - by vm_compute.
  - by vm_compute.
  - exists st'. rewrite Hrun, Hok; [done|]. intros l -> p Hp.
    assert (p = 3 * kSize) as -> by (by apply demo_held_1). by vm_compute.
Defined.

Lemma class_release_abort_witness :
  exists st', abortSlabRelease demo_ctx (snd demo_started) = (Ok tt, st') /\ ac_inv st' [] demo_live.
Proof.
  destruct (class_release_abort (2 * kSize) (snd demo_started) demo_live demo_ctx)
    as (st' & Hrun & Hinv & _).
  - exact demo_in_release.
  - by vm_compute.
  - by vm_compute.
  - exists st'. by split.
Defined.

Lemma class_errors_witness :
  free (2 * kSize) (snd demo_started) = (Throw InvalidArgument, snd demo_started).
Proof.
  destruct (class_errors (snd demo_started) [] demo_live (ir_inv _ _ _ demo_in_release))
    as (_ & _ & H & _).
  assert (He : addr (self (snd demo_started)) (2 * kSize) 0 = 2 * kSize) by (by vm_compute).
  specialize (H (2 * kSize) 0). rewrite He in H. refine (H _ _).
  - split; [done|]. by vm_compute.
  - exists [true; false]. split; [|done]. vm_compute. reflexivity.
Defined.

(** ** Findings *)

(** A release that [shouldAbortFn] stops leaves the slab outside the class's
    list of slabs, with its header still of the class: releasing it again
    fails with an internal error and leaves it marked for release. *)
Example aborted_release_loses_slab :
  let '(r, st) := startSlabRelease kResize (2 * kSize) 0 (fun _ => true) no_others demo_st in
  let '(r', st') := startSlabRelease kResize (2 * kSize) 0 (fun _ => false) no_others st in
  r = Throw SlabReleaseAborted /\ allocatedSlabs_ (self st) = [3 * kSize] /\
  classId (hdr st (2 * kSize)) = 0 /\
  r' = Throw RuntimeError /\ isMarkedForRelease (hdr st' (2 * kSize)) = true.
Proof. by vm_compute. Qed.

(** The second slab used up as well. *)
Definition demo_full : ACState :=
  state_of (do! allocate in do! allocate in free (3 * kSize)) demo_st.

(** A thread that allocates while the free list is offline finds nothing and
    clears [canAllocate_]; the aborted release puts the free allocation back
    without setting it, and the class goes on refusing to allocate. *)
Example aborted_release_blocks_allocate :
  let others (k : nat) st := match k with 1%nat => state_of allocate st | _ => st end in
  let '(r, st) := startSlabRelease kResize (2 * kSize) 0 (fun _ => true) others demo_full in
  r = Throw SlabReleaseAborted /\ freedAllocations_ (self st) = [3 * kSize] /\
  canAllocate_ (self st) = false /\ fst (allocate st) = Ok 0.
Proof. by vm_compute. Qed.

(** ** Allocation class: traversal, statistics, persistence

    What [forEachAllocation] visits, that [getStats] counts the allocations
    handed out, and that a class comes back from its saved state. *)

(** ** Traversal *)

Lemma allocsFrom_elem n sz ptr p :
  p ∈ allocsFrom n sz ptr <-> exists j, (j < n)%nat /\ p = ptr + Z.of_nat j * sz.
Proof.
  revert ptr. induction n as [|n IH]; intros ptr; cbn [allocsFrom].
  { split; [by intros ?%not_elem_of_nil|]. intros (j & ? & _). lia. }
  rewrite elem_of_cons, IH. split.
  - intros [->|(j & Hj & ->)]; [exists O|exists (S j)]; (split; [lia|lia]).
  - intros ([|j] & Hj & ->); [left; lia|right; exists j; split; lia].
Qed.

Lemma allocsFrom_NoDup n sz ptr : 0 < sz -> NoDup (allocsFrom n sz ptr).
Proof.
  intros Hsz. revert ptr. induction n as [|n IH]; intros ptr; cbn [allocsFrom]; constructor; [|done].
  rewrite allocsFrom_elem. intros (j & _ & He). nia.
Qed.

(** The traversal goes on while the callback answers yes. *)
Lemma traverse_spec cb info l seen status :
  traverse cb info l = (seen, status) ->
  (status = kFinishedCurrentSlabAndContinue /\ seen = l /\ (forall p, p ∈ l -> cb p info = true)) \/
  (status = kAbortIteration /\ exists pre p rest, l = pre ++ p :: rest /\ seen = pre ++ [p] /\
     cb p info = false /\ forall q, q ∈ pre -> cb q info = true).
Proof.
  revert seen status. induction l as [|p l IH]; intros seen status; cbn [traverse].
  { intros [= <- <-]. left. split_and!; try done. by intros p ?%not_elem_of_nil. }
  destruct (cb p info) eqn:Hp.
  - destruct (traverse cb info l) as [seen' status'] eqn:Ht. intros [= <- <-].
    destruct (IH seen' status' eq_refl) as [(-> & -> & Hall)|(-> & pre & q & rest & -> & -> & Hq & Hall)].
    + left. split_and!; try done. intros q [->|]%elem_of_cons; auto.
    + right. split; [done|]. exists (p :: pre), q, rest. split_and!; try done.
      intros r [->|]%elem_of_cons; auto.
  - intros [= <- <-]. right. split; [done|]. exists [], p, l. split_and!; try done.
    by intros q ?%not_elem_of_nil.
Qed.

(** Traversing a slab in use that is neither advised nor in release
    visits, in address order and once each, the places of the slab, every
    allocation held in it among them, until the callback asks to stop; it
    tells the callback the pool, class and size of the slab.  A slab in
    release or of another class, or a failed [try_lock], is skipped. *)
Theorem class_for_each st off live x cb :
  ac_inv st off live ->
  (x ∈ allocatedSlabs_ (self st) -> isAdvised (hdr st x) = false ->
   let places := allocsFrom (Z.to_nat (getAllocsPerSlab (self st))) (allocationSize_ (self st)) x in
   let info := mkAllocInfo (poolId_ (self st)) (classId_ (self st)) (allocationSize_ (self st)) in
   NoDup places /\ (forall p, p ∈ live -> inSlabOf x p -> p ∈ places) /\
   exists seen status, forEachAllocation true x cb st = (seen, status) /\
     ((status = kFinishedCurrentSlabAndContinue /\ seen = places /\
         (forall p, p ∈ places -> cb p info = true)) \/
      (status = kAbortIteration /\ exists pre p rest, places = pre ++ p :: rest /\ seen = pre ++ [p] /\
         cb p info = false /\ forall q, q ∈ pre -> cb q info = true))) /\
  (x ∉ freeSlabs_ (self st) ++ allocatedSlabs_ (self st) ->
   forEachAllocation true x cb st = ([], kSkippedCurrentSlabAndContinue)) /\
  forEachAllocation false x cb st = ([], kSkippedCurrentSlabAndContinue).
Proof.
  intros Hinv. pose proof (ai_size _ _ _ Hinv) as Hs. change kMinAllocSize with 64 in Hs.
  split; [|split; [|done]].
  - intros Hx Hadv places info. assert (Hsl : slab_of (self st) x) by (left; set_solver).
    destruct (ai_slab _ _ _ Hinv x Hsl) as (Hv & Hp & Hc & Hz & Hm).
    split; [apply allocsFrom_NoDup; lia|]. split.
    + intros p Hl Hin. destruct (ac_live_at _ _ _ _ _ Hinv Hl Hin) as (i & Hi & -> & _).
      apply allocsFrom_elem. exists (Z.to_nat i). split; [lia|]. by rewrite Z2Nat.id by lia.
    + destruct (traverse cb info places) as [seen status] eqn:Ht. exists seen, status.
      split; [|by apply traverse_spec].
      unfold forEachAllocation. rewrite (SlabAllocatorProofs.sa_header_valid _ _ Hv). fold (hdr st x).
      rewrite Hp, Hc, Hadv, Hm, !Z.eqb_refl, Hz. cbn [negb orb].
      rewrite bool_decide_false; [done|]. intros Hd. apply (ai_rel_disj _ _ _ Hinv) in Hd. set_solver.
  - intros Hn. unfold forEachAllocation, SlabAllocator.getSlabHeader_slab. cbn [negb].
    destruct (SlabAllocator.isValidSlab (slabAlloc_ st) x) eqn:Hv; [|done]. fold (hdr st x).
    destruct (Z.eqb_spec (classId (hdr st x)) (classId_ (self st))) as [Hc|]; [|done].
    destruct (Z.eqb_spec (poolId (hdr st x)) (poolId_ (self st))) as [Hp|]; [|done].
    destruct (ai_owned _ _ _ Hinv x Hv Hp Hc) as [|Hd]; [done|].
    destruct (ai_slab _ _ _ Hinv x (or_intror Hd)) as (_ & _ & _ & _ & ->).
    rewrite bool_decide_true by done. by destruct (isAdvised (hdr st x)).
Qed.

(** ** Statistics *)

(** The allocations carved from a slab in use. *)
Definition carved c x : Z := if x =? currSlab_ c then currOffset_ c / allocationSize_ c else getAllocsPerSlab c.
Definition places c : list Z :=
  allocatedSlabs_ c ≫= fun x => allocsFrom (Z.to_nat (carved c x)) (allocationSize_ c) x.

Lemma allocsFrom_length n sz ptr : length (allocsFrom n sz ptr) = n.
Proof. revert ptr. induction n; intros ptr; cbn; auto. Qed.

Lemma bind_NoDup {A B} (f : A -> list B) (l : list A) :
  NoDup l -> (forall a, a ∈ l -> NoDup (f a)) ->
  (forall a a' b, a ∈ l -> a' ∈ l -> b ∈ f a -> b ∈ f a' -> a = a') -> NoDup (l ≫= f).
Proof.
  induction l as [|a l IH]; intros Hnd Hf Hinj; cbn; [constructor|].
  apply NoDup_cons in Hnd as [Hx Hnd]. apply NoDup_app. split_and!.
  - apply Hf. by left.
  - intros b Hb (a' & Hb' & Ha')%list_elem_of_bind.
    assert (a = a') as -> by (eapply Hinj; set_solver). done.
  - apply IH; [done|set_solver|]. intros a1 a2 b H1 H2. apply Hinj; set_solver.
Qed.

Lemma bind_length_sum {A B} (f : A -> list B) (l : list A) :
  Z.of_nat (length (l ≫= f)) = sumZ ((fun a => Z.of_nat (length (f a))) <$> l).
Proof. induction l as [|a l IH]; [done|]. cbn. rewrite length_app. unfold sumZ in IH. cbn in IH. lia. Qed.

(** A sum of a constant but for one index. *)
Lemma sumZ_but_one (l : list Z) (y d n : Z) :
  NoDup l ->
  sumZ ((fun a => if a =? y then d else n) <$> l) =
  Z.of_nat (length l) * n - (if decide (y ∈ l) then n - d else 0).
Proof.
  induction l as [|a l IH]; intros Hnd; [done|]. apply NoDup_cons in Hnd as [Ha Hnd].
  cbn [fmap list_fmap sumZ foldr length]. fold (sumZ ((fun a => if a =? y then d else n) <$> l)).
  rewrite IH by done. destruct (Z.eqb_spec a y) as [->|Hne].
  - rewrite decide_False by done. rewrite decide_True by set_solver. lia.
  - destruct (decide (y ∈ l)); destruct (decide (y ∈ a :: l)); try set_solver; lia.
Qed.

Lemma carved_range st off live x :
  ac_inv st off live -> x ∈ allocatedSlabs_ (self st) ->
  0 <= carved (self st) x <= getAllocsPerSlab (self st) /\
  (x = currSlab_ (self st) -> carved (self st) x * allocationSize_ (self st) = currOffset_ (self st)).
Proof.
  intros Hinv Hx. destruct (ac_perSlab _ (ai_size _ _ _ Hinv)) as (_ & Hp & _).
  pose proof (ai_size _ _ _ Hinv) as Hs. change kMinAllocSize with 64 in Hs.
  unfold carved. destruct (Z.eqb_spec x (currSlab_ (self st))) as [He|]; [|by split; [lia|]].
  destruct (ai_curr _ _ _ Hinv) as [H0|(_ & k & Hk & Ho)].
  - exfalso. assert (Hv : slab_of (self st) x) by (left; set_solver).
    apply (ac_slab_valid _ _ _ _ Hinv), SlabAllocatorProofs.sa_valid_pos in Hv; [lia|apply Hinv].
  - rewrite Ho, Z.div_mul by lia. done.
Qed.

(** With no release in progress the places are the allocations handed out and
    the free ones. *)
Lemma places_count st live :
  ac_inv st [] live -> slabReleaseAllocMap_ (self st) = ∅ ->
  Z.of_nat (size live) + Z.of_nat (length (freedAllocations_ (self st))) =
  Z.of_nat (length (places (self st))).
Proof.
  intros Hinv Hrel. pose proof (ai_size _ _ _ Hinv) as Hs. change kMinAllocSize with 64 in Hs.
  pose proof (ai_nodup _ _ _ Hinv) as Hnd. rewrite app_nil_r in Hnd.
  assert (Hslot : forall p, p ∈ places (self st) <-> exists x i, slot (self st) x i /\ p = addr (self st) x i).
  { intros p. unfold places. rewrite list_elem_of_bind. split.
    - intros (x & (j & Hj & ->)%allocsFrom_elem & Hx). exists x, (Z.of_nat j).
      destruct (carved_range _ _ _ _ Hinv Hx) as [Hr Hc]. split; [|done].
      split; [lia|]. left. split; [done|]. intros He. rewrite <- (Hc He). nia.
    - intros (x & i & (Hi & [[Hx Hc]|Hd]) & ->); [|by rewrite Hrel in Hd].
      destruct (carved_range _ _ _ _ Hinv Hx) as [Hr Hc']. exists x. split; [|done].
      apply allocsFrom_elem. exists (Z.to_nat i). split; [|by rewrite Z2Nat.id by lia].
      assert (i < carved (self st) x); [|lia].
      destruct (decide (x = currSlab_ (self st))) as [He|He].
      + specialize (Hc He). rewrite <- (Hc' He) in Hc. nia.
      + unfold carved. rewrite (proj2 (Z.eqb_neq _ _) He). lia. }
  assert (Hperm : elements live ++ freedAllocations_ (self st) ≡ₚ places (self st)).
  { apply NoDup_Permutation.
    - apply NoDup_app. split_and!; [apply NoDup_elements| |done].
      intros p Hp%elem_of_elements Hp'. apply (ai_disj _ _ _ Hinv p Hp). by rewrite app_nil_r.
    - apply bind_NoDup.
      + pose proof (ai_slabs_nodup _ _ _ Hinv) as (_ & _ & ?)%NoDup_app. done.
      + intros x _. apply allocsFrom_NoDup. lia.
      + intros x y p Hx Hy (j & Hj & ->)%allocsFrom_elem (j' & Hj' & He)%allocsFrom_elem.
        destruct (carved_range _ _ _ _ Hinv Hx) as [Hrx _]. destruct (carved_range _ _ _ _ Hinv Hy) as [Hry _].
        destruct (ac_addr_inj st [] live x (Z.of_nat j) y (Z.of_nat j') Hinv) as [? _];
          [left; set_solver|left; set_solver|lia|lia|exact He|done].
    - intros p. rewrite elem_of_app, elem_of_elements, Hslot. split.
      + intros Hp. destruct (ai_place _ _ _ Hinv p) as (x & i & H1 & _ & H2); [by rewrite app_nil_r|eauto].
      + intros (x & i & Hsl & ->). destruct (ai_cover _ _ _ Hinv x i Hsl) as [|Hc]; [|by left|].
        * intros (bs & Hb & _). by rewrite Hrel in Hb.
        * right. by rewrite app_nil_r in Hc. }
  apply Permutation_length in Hperm. rewrite length_app in Hperm. unfold size, set_size. simpl. lia.
Qed.

Lemma ac_slab_count st off live :
  ac_inv st off live -> Z.of_nat (length (allocatedSlabs_ (self st))) < 2 ^ 32.
Proof.
  intros Hinv. apply (SlabAllocatorSpec.sa_slab_count (slabAlloc_ st)); [apply Hinv| |].
  - pose proof (ai_slabs_nodup _ _ _ Hinv) as (_ & _ & ?)%NoDup_app. done.
  - intros x Hx. apply (ac_slab_valid _ _ _ _ Hinv). left. set_solver.
Qed.

Lemma ac_free_in_curr st off live :
  ac_inv st off live ->
  (if canAllocateFromCurrentSlabLocked (self st)
   then (kSize - currOffset_ (self st)) / allocationSize_ (self st) else 0) =
  if decide (currSlab_ (self st) ∈ allocatedSlabs_ (self st))
  then getAllocsPerSlab (self st) - currOffset_ (self st) / allocationSize_ (self st) else 0.
Proof.
  intros Hinv. pose proof (ai_size _ _ _ Hinv) as Hs. change kMinAllocSize with 64 in Hs.
  destruct (ac_perSlab _ (ai_size _ _ _ Hinv)) as (Hpe & _). unfold canAllocateFromCurrentSlabLocked.
  destruct (ai_curr _ _ _ Hinv) as [H0|(Hc & k & Hk & Ho)].
  - rewrite H0. cbn [negb Z.eqb andb]. destruct (decide (0 ∈ _)) as [Hin|]; [|done].
    assert (Hv : slab_of (self st) 0) by (left; set_solver).
    apply (ac_slab_valid _ _ _ _ Hinv), SlabAllocatorProofs.sa_valid_pos in Hv; [lia|apply Hinv].
  - rewrite decide_True by done. assert (Hv : slab_of (self st) (currSlab_ (self st))) by (left; set_solver).
    apply (ac_slab_valid _ _ _ _ Hinv), SlabAllocatorProofs.sa_valid_pos in Hv; [|apply Hinv].
    rewrite (proj2 (Z.eqb_neq _ _)) by lia. cbn [negb andb].
    destruct (ac_curr_room _ _ _ _ Hinv Hk Ho) as (Hu & Hiff). rewrite Hu, Ho, Z.div_mul by lia.
    destruct (Z.leb_spec ((k + 1) * allocationSize_ (self st)) kSize) as [Hl|Hl].
    + replace (kSize - k * allocationSize_ (self st)) with (kSize + - k * allocationSize_ (self st)) by lia.
      rewrite Z.div_add by lia. lia.
    + lia.
Qed.

(** With no release in progress, the statistics of a class count exactly
    the allocations handed out, and the class is reported full only when it
    has nothing left to hand out. *)
Theorem class_stats_active st live :
  ac_inv st [] live -> slabReleaseAllocMap_ (self st) = ∅ ->
  acs_activeAllocs (getStats (self st)) = Z.of_nat (size live) /\
  acs_freeAllocs (getStats (self st)) = Z.of_nat (length (freedAllocations_ (self st))) /\
  (acs_full (getStats (self st)) = true -> fst (allocate st) = Ok 0 /\
     freedAllocations_ (self st) = [] /\ freeSlabs_ (self st) = [] /\
     canAllocateFromCurrentSlabLocked (self st) = false).
Proof.
  intros Hinv Hrel. split; [|split; [done|]].
  - pose proof (places_count st live Hinv Hrel) as Hcount.
    unfold places in Hcount. rewrite bind_length_sum in Hcount.
    assert (Hsum : sumZ ((fun x => Z.of_nat (length (allocsFrom (Z.to_nat (carved (self st) x))
        (allocationSize_ (self st)) x))) <$> allocatedSlabs_ (self st)) =
      sumZ ((fun x => if x =? currSlab_ (self st) then currOffset_ (self st) / allocationSize_ (self st)
        else getAllocsPerSlab (self st)) <$> allocatedSlabs_ (self st))).
    { f_equal. apply list_fmap_ext. intros k x Hx%list_elem_of_lookup_2.
      rewrite allocsFrom_length. destruct (carved_range _ _ _ _ Hinv Hx). rewrite Z2Nat.id by lia. done. }
    rewrite Hsum, sumZ_but_one in Hcount
      by (pose proof (ai_slabs_nodup _ _ _ Hinv) as (_ & _ & ?)%NoDup_app; done).
    unfold getStats. cbn [acs_activeAllocs]. rewrite (ac_free_in_curr st [] live Hinv).
    destruct (ac_perSlab _ (ai_size _ _ _ Hinv)) as (_ & Hp & _). pose proof (ac_slab_count _ _ _ Hinv).
    rewrite u64_small; [lia|]. unfold is_u64. split; [lia|].
    assert (0 <= (if decide (currSlab_ (self st) ∈ allocatedSlabs_ (self st)) then
      getAllocsPerSlab (self st) - currOffset_ (self st) / allocationSize_ (self st) else 0)).
    { case_decide as Hc; [|done]. destruct (carved_range _ _ _ _ Hinv Hc) as [Hr _].
      unfold carved in Hr. rewrite Z.eqb_refl in Hr. lia. }
    nia.
  - unfold getStats, isFull. cbn. intros Hf%negb_true_iff.
    destruct (ai_can _ _ _ Hinv Hf) as (? & ? & ?). split_and!; try done.
    unfold allocate, bind, get. by rewrite Hf.
Qed.

(** ** Persistence *)

(** The constructor's checks hold of a consistent class. *)
Lemma ac_checkState st off live : ac_inv st off live -> checkState (mkACState (slabAlloc_ st) (self st)) = Ok tt.
Proof.
  intros []. unfold checkState. cbn [self slabAlloc_].
  change kMinAllocSize with 64 in ai_size. assert (HK : kSize = 4194304) by done. unfold sizeof_FreeAlloc.
  rewrite (proj2 (Z.ltb_ge _ _)) by lia. rewrite !(proj2 (Z.ltb_ge _ _)) by lia. cbn [orb].
  destruct ai_curr as [->|[Hc _]].
  - unfold SlabAllocator.getSlabHeader_slab.
    destruct (SlabAllocator.isValidSlab (slabAlloc_ st) 0) eqn:Hv; [|done].
    apply SlabAllocatorProofs.sa_valid_pos in Hv; [lia|done].
  - destruct (ai_slab (currSlab_ (self st))) as (Hv & _ & Hcl & _); [left; set_solver|].
    rewrite (SlabAllocatorProofs.sa_header_valid _ _ Hv). fold (hdr st (currSlab_ (self st))).
    rewrite Hcl, Z.eqb_refl. rewrite !bool_decide_false by (done || set_solver).
    by rewrite !andb_false_r.
Qed.

(** A class with no release in progress, on a slab allocator that does
    not own its memory, is saved and comes back the same; with a release in
    progress, or memory that does not outlive the process, saving is
    refused. *)
Theorem class_save_restore st off live :
  ac_inv st off live ->
  (SlabAllocator.isRestorable (slabAlloc_ st) = true -> slabReleaseAllocMap_ (self st) = ∅ ->
   activeReleases_ (self st) = 0 ->
   exists o, saveState st = Ok o /\
     restoreAllocationClass (slabAlloc_ st) (poolId_ (self st)) o = Ok (self st)) /\
  (SlabAllocator.isRestorable (slabAlloc_ st) = false \/ 0 < activeReleases_ (self st) ->
   saveState st = Throw LogicError).
Proof.
  intros Hinv. split.
  - intros Hres Hrel Hact. eexists. split.
    { unfold saveState. rewrite Hres. rewrite Hact. reflexivity. }
    destruct Hinv. pose proof ai_size as Hs. change kMinAllocSize with 64 in Hs.
    assert (HK : kSize = 4194304) by done.
    assert (Hval : forall x, x ∈ freeSlabs_ (self st) ++ allocatedSlabs_ (self st) ->
      SlabAllocator.isValidSlab (slabAlloc_ st) x = true) by (intros x Hx; apply ai_slab; by left).
    assert (Hcur : SlabAllocator.getSlabForIdx (slabAlloc_ st)
      (SlabAllocator.slabIdx (slabAlloc_ st) (currSlab_ (self st))) = currSlab_ (self st)).
    { destruct ai_curr as [->|[Hc _]]; [done|].
      apply SlabAllocatorSpec.getSlabForIdx_slabIdx; [done|]. apply Hval. set_solver. }
    unfold restoreAllocationClass. rewrite Hres. cbn [negb]. cbn [ao_classId ao_allocationSize
      ao_currSlabIdx ao_currOffset ao_allocatedSlabIdxs ao_freeSlabIdxs ao_freedAllocations ao_canAllocate].
    rewrite Hcur, !SlabAllocatorSpec.sa_idx_map, !u32_small by
      (first [done|intros x Hx; apply Hval; set_solver|unfold is_u32; lia]).
    assert (Heta : mkAllocationClass (classId_ (self st)) (poolId_ (self st)) (allocationSize_ (self st))
      (currOffset_ (self st)) (currSlab_ (self st)) (allocatedSlabs_ (self st)) (freeSlabs_ (self st))
      (freedAllocations_ (self st)) (canAllocate_ (self st)) 0 ∅ = self st).
    { rewrite <- Hrel, <- Hact. by destruct (self st). }
    rewrite Heta. rewrite (ac_checkState st off live); [done|]. by split.
  - unfold saveState. intros [->|Ha]; [done|].
    destruct (negb _); [done|]. by rewrite (proj2 (Z.ltb_lt _ _) Ha).
Qed.

(** ** Witnesses *)

Lemma class_for_each_witness :
  exists seen status, forEachAllocation true (2 * kSize) (fun _ _ => true) demo_st = (seen, status).
Proof.
  destruct (class_for_each demo_st [] demo_live (2 * kSize) (fun _ _ => true)) as ((_ & _ & seen & status & H & _) & _ & _).
  - exact demo_class_inv.
  - refine (bool_decide_eq_true_1 _ _). by vm_compute.
  - by vm_compute.
  - exists seen, status. exact H.
Defined.

Lemma class_stats_active_witness : acs_activeAllocs (getStats (self demo_st)) = Z.of_nat (size demo_live).
Proof.
  destruct (class_stats_active demo_st demo_live) as (H & _).
  - exact demo_class_inv.
  - by vm_compute.
  - exact H.
Defined.

Lemma class_save_restore_witness :
  exists o, saveState demo_st = Ok o /\
    restoreAllocationClass (slabAlloc_ demo_st) 3 o = Ok (self demo_st).
Proof.
  destruct (class_save_restore demo_st [] demo_live) as (H & _).
  - exact demo_class_inv.
  - refine (H _ _ _); by vm_compute.
Defined.
