(* ===== verification/MemoryPool.v ===== *)
(** * Memory pool

    Models [MemoryPool] (cachelib/allocator/memory/MemoryPool.{h,cpp}): the
    allocation classes of a pool, the slabs it has from the slab allocator,
    and its limits.

    The state is the slab allocator and the members of the pool.  Byte counts
    are [size_t] and wrap at 64 bits.  [allocate] lets other threads run
    between its two attempts: their effect is the argument [others].  A slab
    release passes on what the allocation class takes from its environment.
    The contents of the memory are not modelled: [zeroOnRelease] has no effect
    on the state. *)

From S2P Require Import Prelude.
From S2P Require Import Slab.
From S2P Require SlabAllocator.
From S2P Require AllocationClass.

#[local] Open Scope Z_scope.
#[local] Open Scope cachelib_scope.

Abbreviation AC := AllocationClass.AllocationClass.

Record MemoryPool : Type := mkMemoryPool {
  id_ : Z;
  maxSize_ : Z;
  currSlabAllocSize_ : Z;
  currAllocSize_ : Z;
  freeSlabs_ : list Z;
  acSizes_ : list Z;
  ac_ : list AC;
  curSlabsAdvised_ : Z;
  nSlabResize_ : Z;
  nSlabRebalance_ : Z;
  nSlabReleaseAborted_ : Z
}.

Definition set_maxSize (x : Z) (p : MemoryPool) : MemoryPool :=
  mkMemoryPool (id_ p) x (currSlabAllocSize_ p) (currAllocSize_ p) (freeSlabs_ p) (acSizes_ p)
    (ac_ p) (curSlabsAdvised_ p) (nSlabResize_ p) (nSlabRebalance_ p) (nSlabReleaseAborted_ p).
Definition set_currSlabAllocSize (x : Z) (p : MemoryPool) : MemoryPool :=
  mkMemoryPool (id_ p) (maxSize_ p) x (currAllocSize_ p) (freeSlabs_ p) (acSizes_ p)
    (ac_ p) (curSlabsAdvised_ p) (nSlabResize_ p) (nSlabRebalance_ p) (nSlabReleaseAborted_ p).
Definition set_currAllocSize (x : Z) (p : MemoryPool) : MemoryPool :=
  mkMemoryPool (id_ p) (maxSize_ p) (currSlabAllocSize_ p) x (freeSlabs_ p) (acSizes_ p)
    (ac_ p) (curSlabsAdvised_ p) (nSlabResize_ p) (nSlabRebalance_ p) (nSlabReleaseAborted_ p).
Definition set_freeSlabs (x : list Z) (p : MemoryPool) : MemoryPool :=
  mkMemoryPool (id_ p) (maxSize_ p) (currSlabAllocSize_ p) (currAllocSize_ p) x (acSizes_ p)
    (ac_ p) (curSlabsAdvised_ p) (nSlabResize_ p) (nSlabRebalance_ p) (nSlabReleaseAborted_ p).
Definition set_ac (x : list AC) (p : MemoryPool) : MemoryPool :=
  mkMemoryPool (id_ p) (maxSize_ p) (currSlabAllocSize_ p) (currAllocSize_ p) (freeSlabs_ p)
    (acSizes_ p) x (curSlabsAdvised_ p) (nSlabResize_ p) (nSlabRebalance_ p)
    (nSlabReleaseAborted_ p).
Definition set_curSlabsAdvised (x : Z) (p : MemoryPool) : MemoryPool :=
  mkMemoryPool (id_ p) (maxSize_ p) (currSlabAllocSize_ p) (currAllocSize_ p) (freeSlabs_ p)
    (acSizes_ p) (ac_ p) x (nSlabResize_ p) (nSlabRebalance_ p) (nSlabReleaseAborted_ p).
Definition set_counters (resize rebalance aborted : Z) (p : MemoryPool) : MemoryPool :=
  mkMemoryPool (id_ p) (maxSize_ p) (currSlabAllocSize_ p) (currAllocSize_ p) (freeSlabs_ p)
    (acSizes_ p) (ac_ p) (curSlabsAdvised_ p) resize rebalance aborted.

Record PoolState : Type := mkPoolState {
  slabAllocator_ : SlabAllocator.SlabAllocator;
  pool : MemoryPool
}.

Definition upd (f : MemoryPool -> MemoryPool) : M PoolState unit :=
  modify (fun st => mkPoolState (slabAllocator_ st) (f (pool st))).
Definition addSlabAllocSize (d : Z) : M PoolState unit :=
  upd (fun p => set_currSlabAllocSize (u64 (currSlabAllocSize_ p + d)) p).
Definition addAllocSize (d : Z) : M PoolState unit :=
  upd (fun p => set_currAllocSize (u64 (currAllocSize_ p + d)) p).

(** Calls into the slab allocator and into an allocation class. *)
Definition onSlabs {A} (m : M SlabAllocator.SlabAllocator A) : M PoolState A :=
  fun st => let '(r, s) := m (slabAllocator_ st) in (r, mkPoolState s (pool st)).
Definition onClass {A} (cid : Z) (m : M AllocationClass.ACState A) : M PoolState A :=
  fun st =>
    match ac_ (pool st) !! Z.to_nat cid with
    | None => (Throw UndefinedBehavior, st)
    | Some c =>
        let '(r, st') := m (AllocationClass.mkACState (slabAllocator_ st) c) in
        (r, mkPoolState (AllocationClass.slabAlloc_ st')
              (set_ac (<[Z.to_nat cid := AllocationClass.self st']> (ac_ (pool st))) (pool st)))
    end.

(** ** Sizes *)

Definition getPoolSize (p : MemoryPool) : Z := maxSize_ p.
Definition getPoolAdvisedSize (p : MemoryPool) : Z := u64 (curSlabsAdvised_ p * kSize).
Definition getPoolUsableSize (p : MemoryPool) : Z :=
  let advisedSize := getPoolAdvisedSize p in
  if maxSize_ p <=? advisedSize then 0 else maxSize_ p - advisedSize.
Definition getCurrentUsedSize (p : MemoryPool) : Z :=
  u64 (currSlabAllocSize_ p + Z.of_nat (length (freeSlabs_ p)) * kSize).
Definition overLimit (p : MemoryPool) : bool :=
  maxSize_ p <? u64 (getCurrentUsedSize p + getPoolAdvisedSize p).
Definition getUnAllocatedSlabMemory (p : MemoryPool) : Z :=
  let totalAllocSize := u64 (currSlabAllocSize_ p + getPoolAdvisedSize p) in
  if maxSize_ p <? totalAllocSize then 0 else maxSize_ p - totalAllocSize.
Definition getCurrentAllocSize (p : MemoryPool) : Z := currAllocSize_ p.
Definition allSlabsAllocated (p : MemoryPool) : bool :=
  maxSize_ p <? u64 (currSlabAllocSize_ p + getPoolAdvisedSize p + kSize).
Definition getNumSlabsAdvised (p : MemoryPool) : Z := curSlabsAdvised_ p.
Definition getNumClassId (p : MemoryPool) : Z := u32 (Z.of_nat (length (acSizes_ p))).
Definition resize (size : Z) : M PoolState unit := upd (set_maxSize size).

(** ** Construction *)

Fixpoint createClassesFrom (s : SlabAllocator.SlabAllocator) (pid cid : Z) (sizes : list Z)
  : res (list AC) :=
  match sizes with
  | [] => Ok []
  | size :: sizes' =>
      if (size <? kMinAllocSize) || (kSize <? size) then Throw InvalidArgument
      else
        match AllocationClass.makeAllocationClass s cid pid size with
        | Throw e => Throw e
        | Ok c =>
            match createClassesFrom s pid (cid + 1) sizes' with
            | Throw e => Throw e
            | Ok cs => Ok (c :: cs)
            end
        end
  end.
Definition createAllocationClasses (s : SlabAllocator.SlabAllocator) (pid : Z) (sizes : list Z)
  : res (list AC) := createClassesFrom s pid 0 sizes.

Fixpoint is_sorted (l : list Z) : bool :=
  match l with
  | a :: (b :: _) as l' => negb (b <? a) && is_sorted l'
  | _ => true
  end.
Fixpoint has_adjacent_equal (l : list Z) : bool :=
  match l with
  | a :: (b :: _) as l' => (a =? b) || has_adjacent_equal l'
  | _ => false
  end.

(** The loop over the sizes; [ac_] and [acSizes_] have the same length. *)
Definition sizesMatch (p : MemoryPool) : bool :=
  forallb (fun '(size, c) => (size =? AllocationClass.allocationSize_ c) &&
             negb (size <? kMinAllocSize) && negb (kSize <? size))
    (zip (acSizes_ p) (ac_ p)).

Definition checkState (s : SlabAllocator.SlabAllocator) (p : MemoryPool) : res unit :=
  if id_ p <? 0 then Throw InvalidArgument
  else if currSlabAllocSize_ p <? currAllocSize_ p then Throw InvalidArgument
  else if AllocationClass.is_nil (acSizes_ p) || AllocationClass.is_nil (ac_ p)
  then Throw InvalidArgument
  else if negb (length (acSizes_ p) =? length (ac_ p))%nat then Throw InvalidArgument
  else if negb (is_sorted (acSizes_ p)) then Throw InvalidArgument
  else if has_adjacent_equal (acSizes_ p) then Throw InvalidArgument
  else if negb (sizesMatch p) then Throw InvalidArgument
  else if negb (forallb (SlabAllocator.isValidSlab s) (freeSlabs_ p)) then Throw InvalidArgument
  else Ok tt.

(** [allocSizes] is the [std::set] of sizes, in increasing order. *)
Definition makeMemoryPool (id poolSize : Z) (s : SlabAllocator.SlabAllocator) (allocSizes : list Z)
  : res MemoryPool :=
  match createAllocationClasses s id allocSizes with
  | Throw e => Throw e
  | Ok cs =>
      let p := mkMemoryPool id poolSize 0 0 [] allocSizes cs 0 0 0 0 in
      match checkState s p with Throw e => Throw e | Ok _ => Ok p end
  end.

(** ** Allocation classes of a pool *)

(** [std::lower_bound] by bisection of [len] elements from [first]. *)
Fixpoint lower_bound_loop (fuel : nat) (l : list Z) (v : Z) (first len : nat) : nat :=
  match fuel, len with
  | S fuel', S _ =>
      let half := Nat.div len 2 in
      let middle := (first + half)%nat in
      if default 0 (l !! middle) <? v
      then lower_bound_loop fuel' l v (S middle) (len - half - 1)
      else lower_bound_loop fuel' l v first half
  | _, _ => first
  end.
Definition lower_bound (l : list Z) (v : Z) : nat :=
  lower_bound_loop (length l) l v 0 (length l).

Definition getAllocationClassId_size (p : MemoryPool) (size : Z) : res Z :=
  match last (acSizes_ p) with
  | None => Throw UndefinedBehavior
  | Some back =>
      if (back <? size) || (size =? 0) then Throw InvalidArgument
      else Ok (Z.of_nat (lower_bound (acSizes_ p) size))
  end.

Definition getAllocationClassId (st : PoolState) (memory : Z) : res Z :=
  match SlabAllocator.getSlabHeader (slabAllocator_ st) memory with
  | None => Throw InvalidArgument
  | Some i =>
      let header := SlabAllocator.header (slabAllocator_ st) i in
      if negb (poolId header =? id_ (pool st)) then Throw InvalidArgument
      else if classId header =? kInvalidClassId then Throw InvalidArgument
      else if (classId header <? 0) || (Z.of_nat (length (ac_ (pool st))) <=? classId header)
      then Throw RuntimeError
      else Ok (classId header)
  end.

(** [*ac_[classId]], an unchecked index. *)
Definition classAt (p : MemoryPool) (cid : Z) : res AC :=
  match ac_ p !! Z.to_nat cid with Some c => Ok c | None => Throw UndefinedBehavior end.

Definition getAllocationClassFor (p : MemoryPool) (cid : Z) : res AC :=
  if (0 <=? cid) && (cid <? Z.of_nat (length (ac_ p)))
  then classAt p cid else Throw InvalidArgument.

Definition lift {A} (r : res A) : M PoolState A := fun st => (r, st).

(** ** Allocating and freeing *)

Definition getSlabLocked : M PoolState Z :=
  let! st := get in
  if allSlabsAllocated (pool st) then ret 0
  else
    do! addSlabAllocSize kSize in
    match last (freeSlabs_ (pool st)) with
    | Some slab => do! upd (fun p => set_freeSlabs (removelast (freeSlabs_ p)) p) in ret slab
    | None =>
        let! slab := onSlabs (SlabAllocator.makeNewSlab (id_ (pool st))) in
        if slab =? 0 then do! addSlabAllocSize (- kSize) in ret 0 else ret slab
    end.

Definition allocate (others : PoolState -> PoolState) (size : Z) : M PoolState Z :=
  let! st := get in
  let! cid := lift (getAllocationClassId_size (pool st) size) in
  let! c := lift (classAt (pool st) cid) in
  let allocSize := AllocationClass.allocationSize_ c in
  let! alloc := onClass cid AllocationClass.allocate in
  if negb (alloc =? 0) then do! addAllocSize allocSize in ret alloc
  else
    let! st := get in
    if allSlabsAllocated (pool st) then ret 0
    else
      do! modify others in
      let! alloc := onClass cid AllocationClass.allocate in
      if negb (alloc =? 0) then do! addAllocSize allocSize in ret alloc
      else
        let! slab := getSlabLocked in
        if slab =? 0 then ret 0
        else
          let! alloc := onClass cid (AllocationClass.addSlabAndAllocate slab) in
          do! addAllocSize allocSize in
          ret alloc.

Definition allocateZeroedSlab (others : PoolState -> PoolState) : M PoolState Z :=
  allocate others kSize.

Definition free (alloc : Z) : M PoolState unit :=
  let! st := get in
  let! cid := lift (getAllocationClassId st alloc) in
  let! c := lift (classAt (pool st) cid) in
  do! onClass cid (AllocationClass.free alloc) in
  addAllocSize (- AllocationClass.allocationSize_ c).

(** ** Provisioning *)

(** The slabs taken so far, or the failure with those slabs. *)
Fixpoint takeSlabs (n : nat) (slabs : list Z) : M PoolState (bool * list Z) :=
  match n with
  | O => ret (true, slabs)
  | S n' =>
      let! slab := getSlabLocked in
      if slab =? 0 then ret (false, slabs) else takeSlabs n' (slabs ++ [slab])
  end.

Fixpoint freeAllSlabs (slabs : list Z) : M PoolState unit :=
  match slabs with
  | [] => ret tt
  | s :: slabs' =>
      do! onSlabs (SlabAllocator.freeSlab s) in
      do! addSlabAllocSize (- kSize) in
      freeAllSlabs slabs'
  end.

Fixpoint addSlabs (cid : Z) (n : nat) (slabs : list Z) : M PoolState (list Z) :=
  match n, slabs with
  | O, _ => ret slabs
  | S n', s :: slabs' => do! onClass cid (AllocationClass.addSlab s) in addSlabs cid n' slabs'
  | S _, [] => throw UndefinedBehavior
  end.

Fixpoint distribute (cid : Z) (dist : list Z) (slabs : list Z) : M PoolState unit :=
  match dist with
  | [] => ret tt
  | d :: dist' =>
      let! slabs := addSlabs cid (Z.to_nat d) slabs in
      distribute (cid + 1) dist' slabs
  end.

(** [std::accumulate] over the 32-bit counts. *)
Definition provision (slabsDistribution : list Z) : M PoolState bool :=
  let! st := get in
  if negb (length slabsDistribution =? length (ac_ (pool st)))%nat then throw InvalidArgument
  else
    let total := u32 (sumZ slabsDistribution) in
    let! r := takeSlabs (Z.to_nat total) [] in
    let '(ok, slabs) := r in
    if negb ok then do! freeAllSlabs slabs in ret false
    else do! distribute 0 slabsDistribution slabs in ret true.

(** ** Releasing slabs *)

(** [madviseOk]: whether the system call of [adviseSlab] succeeds. *)
Definition releaseSlab (madviseOk : bool) (mode : SlabReleaseMode) (slab : Z) (zeroOnRelease : bool)
    (receiverClassId : Z) : M PoolState unit :=
  let! st := get in
  match mode with
  | kResize =>
      do! onSlabs (SlabAllocator.freeSlab slab) in
      do! addSlabAllocSize (- kSize) in
      upd (fun p => set_counters (u32 (nSlabResize_ p + 1)) (nSlabRebalance_ p)
                      (nSlabReleaseAborted_ p) p)
  | kAdvise =>
      let! advised := onSlabs (SlabAllocator.adviseSlab madviseOk slab) in
      do! (if advised : bool
           then upd (fun p => set_curSlabsAdvised (u64 (curSlabsAdvised_ p + 1)) p)
           else upd (fun p => set_freeSlabs (freeSlabs_ p ++ [slab]) p)) in
      addSlabAllocSize (- kSize)
  | kRebalance =>
      do! (if negb (receiverClassId =? kInvalidClassId) then
             do! lift (getAllocationClassFor (pool st) receiverClassId) in
             onClass receiverClassId (AllocationClass.addSlab slab)
           else
             do! upd (fun p => set_freeSlabs (freeSlabs_ p ++ [slab]) p) in
             addSlabAllocSize (- kSize)) in
      upd (fun p => set_counters (nSlabResize_ p) (u32 (nSlabRebalance_ p + 1))
                      (nSlabReleaseAborted_ p) p)
  end.

Fixpoint reclaimLoop (n : nat) (numReclaimed : Z) : M PoolState Z :=
  match n with
  | O => ret numReclaimed
  | S n' =>
      let! st := get in
      let! slab := onSlabs (SlabAllocator.reclaimSlab (id_ (pool st))) in
      if slab =? 0 then ret numReclaimed
      else
        do! upd (fun p => set_curSlabsAdvised (u64 (curSlabsAdvised_ p - 1))
                            (set_freeSlabs (freeSlabs_ p ++ [slab]) p)) in
        reclaimLoop n' (u32 (numReclaimed + 1))
  end.
Definition reclaimSlabsAndGrow (numSlabs : Z) : M PoolState Z := reclaimLoop (Z.to_nat numSlabs) 0.

Definition releaseFromFreeSlabs : M PoolState SlabReleaseContext :=
  let! st := get in
  match last (freeSlabs_ (pool st)) with
  | None => throw InvalidArgument
  | Some slab =>
      do! upd (fun p => set_freeSlabs (removelast (freeSlabs_ p)) p) in
      ret (releaseContext slab (id_ (pool st)) kInvalidClassId [] kResize)
  end.

(** [rnd], [shouldAbort] and [others] go to the allocation class. *)
Definition startSlabRelease (madviseOk : bool) (victim receiver : Z) (mode : SlabReleaseMode)
    (hint : Z) (zeroOnRelease : bool) (rnd : nat) (shouldAbort : nat -> bool)
    (others : nat -> AllocationClass.ACState -> AllocationClass.ACState)
  : M PoolState SlabReleaseContext :=
  if negb (receiver =? kInvalidClassId) && negb (bool_decide (mode = kRebalance))
  then throw InvalidArgument
  else if (victim =? kInvalidClassId) && negb (bool_decide (mode = kResize))
  then throw InvalidArgument
  else
    let! context :=
      (if victim =? kInvalidClassId then releaseFromFreeSlabs
       else
         let! st := get in
         do! lift (getAllocationClassFor (pool st) victim) in
         onClass victim (AllocationClass.startSlabRelease mode hint rnd shouldAbort others)) in
    let context := setZeroOnRelease zeroOnRelease (setReceiver receiver context) in
    do! (if isReleased context
         then releaseSlab madviseOk (mode_ context) (slab_ context) zeroOnRelease receiver
         else ret tt) in
    ret context.

Definition abortSlabRelease (context : SlabReleaseContext) : M PoolState unit :=
  let! st := get in
  do! lift (getAllocationClassFor (pool st) (victim_ context)) in
  do! onClass (victim_ context) (AllocationClass.abortSlabRelease context) in
  upd (fun p => set_counters (nSlabResize_ p) (nSlabRebalance_ p) (u32 (nSlabReleaseAborted_ p + 1)) p).

Definition completeSlabRelease (madviseOk : bool)
    (others : list (AllocationClass.ACState -> AllocationClass.ACState))
    (context : SlabReleaseContext) : M PoolState unit :=
  if isReleased context then ret tt
  else if negb (receiver_ context =? kInvalidClassId) && negb (bool_decide (mode_ context = kRebalance))
  then throw InvalidArgument
  else
    let! st := get in
    do! lift (getAllocationClassFor (pool st) (victim_ context)) in
    do! onClass (victim_ context) (AllocationClass.completeSlabRelease others context) in
    releaseSlab madviseOk (mode_ context) (slab_ context) (zeroOnRelease_ context) (receiver_ context).

(** ** Traversal, saving, statistics *)

Definition forEachAllocation (gotLock : bool) (cid slab : Z) (callback : Z -> AllocInfo -> bool)
    (st : PoolState) : res (list Z * AllocationClass.SlabIterationStatus) :=
  match getAllocationClassFor (pool st) cid with
  | Throw e => Throw e
  | Ok c => Ok (AllocationClass.forEachAllocation gotLock slab callback
                  (AllocationClass.mkACState (slabAllocator_ st) c))
  end.

Record MemoryPoolObject : Type := mkMemoryPoolObject {
  po_id : Z;
  po_maxSize : Z;
  po_currSlabAllocSize : Z;
  po_currAllocSize : Z;
  po_freeSlabIdxs : list Z;
  po_acSizes : list Z;
  po_ac : list AllocationClass.AllocationClassObject;
  po_numSlabResize : Z;
  po_numSlabRebalance : Z;
  po_numSlabsAdvised : Z
}.

Fixpoint saveClasses (s : SlabAllocator.SlabAllocator) (cs : list AC)
  : res (list AllocationClass.AllocationClassObject) :=
  match cs with
  | [] => Ok []
  | c :: cs' =>
      match AllocationClass.saveState (AllocationClass.mkACState s c) with
      | Throw e => Throw e
      | Ok o => match saveClasses s cs' with Throw e => Throw e | Ok os => Ok (o :: os) end
      end
  end.

Definition saveState (st : PoolState) : res MemoryPoolObject :=
  let p := pool st in
  if negb (SlabAllocator.isRestorable (slabAllocator_ st)) then Throw LogicError
  else
    match saveClasses (slabAllocator_ st) (ac_ p) with
    | Throw e => Throw e
    | Ok os => Ok {|
        po_id := id_ p;
        po_maxSize := maxSize_ p;
        po_currSlabAllocSize := currSlabAllocSize_ p;
        po_currAllocSize := currAllocSize_ p;
        po_freeSlabIdxs := SlabAllocator.slabIdx (slabAllocator_ st) <$> freeSlabs_ p;
        po_acSizes := acSizes_ p;
        po_ac := os;
        po_numSlabResize := nSlabResize_ p;
        po_numSlabRebalance := nSlabRebalance_ p;
        po_numSlabsAdvised := curSlabsAdvised_ p |}
    end.

Definition createMcSizesFromSerialized (o : MemoryPoolObject) : list Z := u32 <$> po_acSizes o.

Fixpoint createMcFromSerialized (os : list AllocationClass.AllocationClassObject) (pid : Z)
    (s : SlabAllocator.SlabAllocator) : res (list AC) :=
  match os with
  | [] => Ok []
  | o :: os' =>
      match AllocationClass.restoreAllocationClass s pid o with
      | Throw e => Throw e
      | Ok c => match createMcFromSerialized os' pid s with Throw e => Throw e | Ok cs => Ok (c :: cs) end
      end
  end.

Definition restoreMemoryPool (s : SlabAllocator.SlabAllocator) (o : MemoryPoolObject) : res MemoryPool :=
  match createMcFromSerialized (po_ac o) (po_id o) s with
  | Throw e => Throw e
  | Ok cs =>
      if negb (SlabAllocator.isRestorable s) then Throw LogicError
      else
        let p := mkMemoryPool (po_id o) (po_maxSize o) (po_currSlabAllocSize o) (po_currAllocSize o)
                   (SlabAllocator.getSlabForIdx s <$> po_freeSlabIdxs o)
                   (createMcSizesFromSerialized o) cs (u64 (po_numSlabsAdvised o))
                   (u32 (po_numSlabResize o)) (u32 (po_numSlabRebalance o)) 0 in
        match checkState s p with Throw e => Throw e | Ok _ => Ok p end
  end.

Record MPStats : Type := mkMPStats {
  mps_classIds : list Z;
  mps_acStats : list (Z * AllocationClass.ACStats);
  mps_freeSlabs : Z;
  mps_slabsUnAllocated : Z;
  mps_numSlabResize : Z;
  mps_numSlabRebalance : Z;
  mps_numSlabAdvise : Z
}.

Definition getStats (p : MemoryPool) : MPStats :=
  let availableMemory := getUnAllocatedSlabMemory p in
  let slabsUnAllocated :=
    if 0 <? availableMemory
    then u64 (availableMemory / kSize - Z.of_nat (length (freeSlabs_ p))) else 0 in
  mkMPStats (AllocationClass.classId_ <$> ac_ p)
    ((fun c => (AllocationClass.classId_ c, AllocationClass.getStats c)) <$> ac_ p)
    (Z.of_nat (length (freeSlabs_ p))) slabsUnAllocated (nSlabResize_ p) (nSlabRebalance_ p)
    (curSlabsAdvised_ p).
