(* ===== verification/MemoryPoolLookup.v ===== *)
(** * Memory pool: the class of a size

    The bisection of [std::lower_bound] over the sorted sizes of a pool finds
    what a linear search finds. *)

From S2P Require Import Prelude.
From S2P Require Import Slab.
From S2P Require Import MemoryPool.
From Stdlib Require Import Sorting.Sorted.
From stdpp Require Import base tactics numbers gmap list.

#[local] Open Scope Z_scope.
#[local] Open Scope cachelib_scope.

(** The first size that is at least [v], one after the other. *)
Fixpoint first_fit (l : list Z) (v : Z) : option nat :=
  match l with
  | [] => None
  | a :: l' => if v <=? a then Some O else S <$> first_fit l' v
  end.

(** Position [p] splits [l] into sizes below [v] and sizes from [v] on. *)
Definition splits (l : list Z) (v : Z) (p : nat) : Prop :=
  (p <= length l)%nat /\
  (forall (i : nat) a, (i < p)%nat -> l !! i = Some a -> a < v) /\
  (forall (i : nat) a, (p <= i)%nat -> l !! i = Some a -> v <= a).

Lemma splits_unique l v p q : splits l v p -> splits l v q -> p = q.
Proof.
  intros (Hp & Hp1 & Hp2) (Hq & Hq1 & Hq2).
  destruct (Nat.lt_trichotomy p q) as [H|[|H]]; [exfalso|done|exfalso].
  - destruct (lookup_lt_is_Some_2 l p) as [a Ha]; [lia|].
    pose proof (Hq1 p a H Ha). pose proof (Hp2 p a ltac:(lia) Ha). lia.
  - destruct (lookup_lt_is_Some_2 l q) as [a Ha]; [lia|].
    pose proof (Hp1 q a H Ha). pose proof (Hq2 q a ltac:(lia) Ha). lia.
Qed.

Lemma sorted_lookup_le l (i j : nat) a b :
  StronglySorted Z.lt l -> l !! i = Some a -> l !! j = Some b -> (i <= j)%nat -> a <= b.
Proof.
  intros Hs. revert i j. induction Hs as [|x l Hs IH Hx]; intros [|i] [|j] Hi Hj Hij; try done; cbn in *.
  - injection Hi as ->. injection Hj as ->. done.
  - injection Hi as ->. rewrite Forall_forall in Hx. apply list_elem_of_lookup_2 in Hj.
    apply Hx in Hj. lia.
  - lia.
  - apply (IH i j); [done..|lia].
Qed.

Lemma first_fit_splits l v :
  StronglySorted Z.lt l -> splits l v (default (length l) (first_fit l v)).
Proof.
  induction 1 as [|a l Hs IH Ha]; cbn [first_fit].
  - split_and!; [cbn; lia|cbn; lia|]. intros i b _ Hb. by rewrite lookup_nil in Hb.
  - destruct (Z.leb_spec v a) as [Hv|Hv]; cbn.
    + split_and!; [lia|lia|]. intros [|i] b _ Hb; cbn in Hb; [congruence|].
      apply list_elem_of_lookup_2 in Hb. rewrite Forall_forall in Ha. apply Ha in Hb. lia.
    + replace (default (S (length l)) (S <$> first_fit l v)) with (S (default (length l) (first_fit l v)))
        by (by destruct (first_fit l v)).
      destruct IH as (H1 & H2 & H3). split_and!; [cbn; lia| |].
      * intros [|i] b Hi Hb; cbn in Hb; [injection Hb as <-; lia|]. apply (H2 i); [lia|done].
      * intros [|i] b Hi Hb; [lia|]. apply (H3 i); [lia|done].
Qed.

(** The bisection, with as many steps as the range is long, splits the list. *)
Lemma lower_bound_loop_splits fuel l v first len :
  StronglySorted Z.lt l -> (len <= fuel)%nat -> (first + len <= length l)%nat ->
  (forall (i : nat) a, (i < first)%nat -> l !! i = Some a -> a < v) ->
  (forall (i : nat) a, (first + len <= i)%nat -> l !! i = Some a -> v <= a) ->
  splits l v (lower_bound_loop fuel l v first len).
Proof.
  intros Hs. revert first len. induction fuel as [|fuel IH]; intros first len Hf Hlen Hlo Hhi.
  { assert (len = 0%nat) as -> by lia. rewrite Nat.add_0_r in *. by split_and!. }
  destruct len as [|n]; [rewrite Nat.add_0_r in *; by split_and!|]. cbn [lower_bound_loop].
  set (half := Nat.div (S n) 2). assert (Hh : (half < S n)%nat) by (apply Nat.div_lt; lia).
  destruct (lookup_lt_is_Some_2 l (first + half)) as [m Hm]; [lia|]. rewrite Hm. cbn [default from_option id].
  destruct (Z.ltb_spec m v) as [Hv|Hv]; apply IH; try lia; try done.
  - intros i a Hi Ha. destruct (decide (i < first)%nat); [by eapply Hlo|].
    pose proof (sorted_lookup_le l i (first + half) a m Hs Ha Hm). lia.
  - intros i a Hi. apply Hhi. lia.
  - intros i a Hi Ha. pose proof (sorted_lookup_le l (first + half) i m a Hs Hm Ha). lia.
Qed.

Lemma lower_bound_splits l v : StronglySorted Z.lt l -> splits l v (lower_bound l v).
Proof.
  intros Hs. apply lower_bound_loop_splits; try done; intros i a Hi Ha; [lia|].
  apply lookup_lt_Some in Ha. lia.
Qed.

Lemma last_sorted_fit l v back :
  last l = Some back -> v <= back -> StronglySorted Z.lt l -> is_Some (first_fit l v).
Proof.
  intros Hl Hv Hs. pose proof (first_fit_splits l v Hs) as (_ & H & _).
  destruct (first_fit l v); [done|]. exfalso. cbn in H. rewrite last_lookup in Hl.
  pose proof (lookup_lt_Some _ _ _ Hl) as Hlt. pose proof (H _ _ Hlt Hl). lia.
Qed.

(** The class of a size, and the errors. *)
Lemma class_of_size p size :
  StronglySorted Z.lt (acSizes_ p) -> acSizes_ p <> [] ->
  getAllocationClassId_size p size =
  if size =? 0 then Throw InvalidArgument
  else match first_fit (acSizes_ p) size with
       | Some i => Ok (Z.of_nat i)
       | None => Throw InvalidArgument
       end.
Proof.
  intros Hs Hne. unfold getAllocationClassId_size. set (l := acSizes_ p) in *.
  destruct (last l) as [back|] eqn:Hl; [|by apply last_None in Hl].
  destruct (size =? 0); [by rewrite orb_true_r|]. rewrite orb_false_r.
  pose proof (first_fit_splits l size Hs) as Hff.
  rewrite (splits_unique l size _ _ (lower_bound_splits l size Hs) Hff).
  destruct (Z.ltb_spec back size) as [Hb|Hb].
  - destruct (first_fit l size) as [i|] eqn:Hi; [|done]. exfalso. cbn in Hff.
    destruct Hff as (_ & _ & H). rewrite last_lookup in Hl.
    assert (i < length l)%nat.
    { clear -Hi. revert i Hi. induction l as [|a l IH]; intros i; cbn; [done|].
      destruct (size <=? a); [intros [= <-]; lia|]. destruct (first_fit l size) as [j|]; [|done].
      intros [= <-]. specialize (IH j eq_refl). lia. }
    pose proof (H (Nat.pred (length l)) back ltac:(lia) Hl). lia.
  - destruct (last_sorted_fit l size back Hl Hb Hs) as [i ->]. done.
Qed.
