(* ===== verification/MemoryPoolFrame.v ===== *)
(** * What the operations of an allocation class leave alone

    The slabs a class has and the headers its operations write: the facts a
    pool needs to run several classes on one slab allocator. *)

From S2P Require Import Prelude.
From S2P Require Import Slab.
From S2P Require SlabAllocator.
From S2P Require SlabAllocatorProofs.
From S2P Require Import AllocationClass AllocationClassProofs AllocationClassSpec AllocationClassClaims.
From stdpp Require Import base tactics numbers gmap list.

#[local] Open Scope Z_scope.
#[local] Open Scope cachelib_scope.

Implicit Types (st : ACState) (c : AllocationClass) (x y i p : Z).

(** ** Frames *)

(** The slab allocator is the same and the class has the same slabs. *)
Definition same_slabs st st' : Prop :=
  slabAlloc_ st' = slabAlloc_ st /\ forall y, slab_of (self st') y <-> slab_of (self st) y.

(** Only the header of slab [x] may change, and its pool does not. *)
Definition hdr_only x (s s' : SlabAllocator.SlabAllocator) : Prop :=
  (exists hm, s' = SlabAllocator.set_headers hm s) /\
  (forall j, j <> SlabAllocator.slabIdx s x -> SlabAllocator.header s' j = SlabAllocator.header s j) /\
  poolId (SlabAllocator.header s' (SlabAllocator.slabIdx s x)) =
  poolId (SlabAllocator.header s (SlabAllocator.slabIdx s x)).

Lemma same_slabs_refl st : same_slabs st st.
Proof. done. Qed.

Lemma same_slabs_trans st st' st'' : same_slabs st st' -> same_slabs st' st'' -> same_slabs st st''.
Proof. intros [A B] [A' B']. split; [congruence|]. intros y. by rewrite B', B. Qed.

Lemma hdr_only_refl x s : hdr_only x s s.
Proof. split; [exists (SlabAllocator.headers s); by destruct s|done]. Qed.

Lemma hdr_only_trans x s s' s'' : hdr_only x s s' -> hdr_only x s' s'' -> hdr_only x s s''.
Proof.
  intros ([hm ->] & A & B) ([hm' ->] & A' & B'). split; [by exists hm'|].
  change (SlabAllocator.slabIdx (SlabAllocator.set_headers hm s) x) with (SlabAllocator.slabIdx s x) in *.
  split; [|congruence]. intros j Hj. rewrite A' by done. by apply A.
Qed.

Lemma hdr_only_set x s h :
  poolId h = poolId (SlabAllocator.header s (SlabAllocator.slabIdx s x)) ->
  hdr_only x s (SlabAllocator.set_header (SlabAllocator.slabIdx s x) h s).
Proof.
  intros Hh. split; [by eexists|]. split.
  - intros j Hj. rewrite SlabAllocatorProofs.header_set. by rewrite decide_False.
  - rewrite SlabAllocatorProofs.header_set. by rewrite decide_True.
Qed.

(** ** Allocating and freeing *)

Lemma upd_frame (f : AllocationClass -> AllocationClass) st :
  (forall c y, slab_of (f c) y <-> slab_of c y) -> same_slabs st (state_of (upd f) st).
Proof. intros Hf. split; [done|]. apply Hf. Qed.

Lemma carve_frame st : same_slabs st (state_of allocateFromCurrentSlabLocked st).
Proof. done. Qed.

Lemma setup_frame st : same_slabs st (state_of setupCurrentSlabLocked st).
Proof.
  unfold setupCurrentSlabLocked, state_of, bind, get. destruct (last (freeSlabs_ (self st))) as [x|] eqn:Hl;
    [|done]. split; [done|]. intros y. unfold slab_of; simpl.
  rewrite (last_snoc_inv _ _ Hl) at 2. set_solver.
Qed.

Lemma allocateLocked_frame st : same_slabs st (state_of allocateLocked st).
Proof.
  unfold allocateLocked, state_of, bind, get. destruct (is_nil _ && _ && _); [done|].
  destruct (freedAllocations_ (self st)); [|done].
  destruct (canAllocateFromCurrentSlabLocked (self st)); [done|].
  pose proof (setup_frame st) as Hs. unfold state_of in Hs.
  destruct (setupCurrentSlabLocked st) as [[] st1]; [|done]. cbn in Hs.
  eapply same_slabs_trans; [done|]. apply carve_frame.
Qed.

Lemma allocate_frame st : same_slabs st (state_of allocate st).
Proof.
  unfold allocate, state_of, bind, get. destruct (negb _); [done|]. apply allocateLocked_frame.
Qed.

Lemma markFreed_frame x i bs st :
  slabReleaseAllocMap_ (self st) !! x = Some bs -> same_slabs st (state_of (markFreed x i bs) st).
Proof.
  intros Hb. unfold markFreed, state_of. case_decide; [|done]. split; [done|].
  intros y. unfold slab_of; simpl. by rewrite (dom_insert_lookup_L _ _ _ (mk_is_Some _ _ Hb)).
Qed.

Lemma free_frame p st : same_slabs st (state_of (free p) st).
Proof.
  unfold free, state_of, bind, get. destruct (SlabAllocator.getSlabHeader _ p); [|done].
  destruct (negb _); [done|]. destruct (isMarkedForRelease _); [|done].
  destruct (slabReleaseAllocMap_ (self st) !! _) as [bs|] eqn:Hb; [|done].
  destruct (bs !! _) as [[]|]; [done| |done]. by apply markFreed_frame.
Qed.

Lemma addSlab_frame x st :
  SlabAllocator.isValidSlab (slabAlloc_ st) x = true ->
  let st' := state_of (addSlab x) st in
  hdr_only x (slabAlloc_ st) (slabAlloc_ st') /\ forall y, slab_of (self st') y <-> y = x \/ slab_of (self st) y.
Proof.
  intros Hv. unfold addSlab, addSlabLocked, state_of, bind, upd, upd_header, modify, get.
  cbn -[SlabAllocator.set_header]. rewrite (SlabAllocatorProofs.sa_header_valid _ _ Hv).
  cbn -[SlabAllocator.set_header]. split; [by apply hdr_only_set|].
  intros y. unfold slab_of; simpl. set_solver.
Qed.

(** ** Releasing *)

Lemma markInSlab_frame x ins st : same_slabs st (state_of (markInSlab x ins) st).
Proof.
  revert st. induction ins as [|p ins IH]; intros st; [done|]. cbn [markInSlab].
  unfold state_of, bind, getSlabReleaseAllocMapLocked, bind, get.
  destruct (slabReleaseAllocMap_ (self st) !! x) as [bs|] eqn:Hb; [|done]. cbn [ret].
  unfold ret. pose proof (markFreed_frame x (getAllocIdx (self st) x p) bs st Hb) as Hm. unfold state_of in Hm.
  destruct (markFreed _ _ _ st) as [[] st1]; [|done]. eapply same_slabs_trans; [done|]. apply IH.
Qed.

Lemma pruneRound_frame x l st : same_slabs st (state_of (pruneRoundLocked x l) st).
Proof.
  unfold pruneRoundLocked, state_of, bind at 1.
  assert (Hs : forall st, exists st', match notInSlab l with
    | [] => ret tt
    | ns => upd (fun c => set_canAllocate true (set_freed (ns ++ freedAllocations_ c) c))
    end st = (Ok tt, st') /\ same_slabs st st').
  { intros s0. destruct (notInSlab l); eexists; (split; [reflexivity|done]). }
  destruct (Hs st) as (st1 & -> & H1). eapply same_slabs_trans; [done|].
  unfold bind at 1, getSlabReleaseAllocMapLocked, bind at 1, get.
  destruct (slabReleaseAllocMap_ (self st1) !! x); [|done]. cbn [ret]. unfold ret at 1, bind.
  pose proof (markInSlab_frame x (inSlab l) st1) as Hm. unfold state_of in Hm.
  by destruct (markInSlab x (inSlab l) st1) as [[] st2].
Qed.

Lemma pruneLoop_frame fuel k sa x l st : same_slabs st (state_of (pruneLoop fuel k sa no_others x l) st).
Proof.
  revert k l st. induction fuel as [|fuel IH]; intros k l st; [done|]. cbn [pruneLoop].
  destruct (sa k); [done|]. change (modify (no_others k)) with (modify (fun s : ACState => s)).
  unfold state_of, bind at 1, modify. unfold bind at 1.
  pose proof (pruneRound_frame x l st) as Hr. unfold state_of in Hr.
  destruct (pruneRoundLocked x l st) as [[l'|] st1]; [|done]. destruct (freeAllocs l'); [done|].
  eapply same_slabs_trans; [done|]. unfold bind, get. apply IH.
Qed.

Lemma pruneFreeAllocs_frame sa x st : same_slabs st (state_of (pruneFreeAllocs sa no_others x) st).
Proof.
  unfold pruneFreeAllocs. change (modify (no_others 0)) with (modify (fun s : ACState => s)).
  unfold state_of, bind at 1, modify. unfold bind at 1, get.
  unfold bind at 1, upd at 1, modify. unfold bind at 1.
  match goal with |- context [pruneLoop ?f ?k sa no_others x ?l ?s] =>
    pose proof (pruneLoop_frame f k sa x l s) as Hl; unfold state_of in Hl;
    destruct (pruneLoop f k sa no_others x l s) as [[[[k' ab] l']|] st1] end.
  - cbn in Hl. unfold bind, modify, no_others. destruct ab; [exact Hl|].
    unfold getSlabReleaseAllocMapLocked, bind, get.
    destruct (slabReleaseAllocMap_ (self st1) !! x); exact Hl.
  - exact Hl.
Qed.

Lemma swap_remove_same {A} k (l : list A) a :
  l !! k = Some a -> forall b, b ∈ l <-> b = a \/ b ∈ swap_remove k l.
Proof. intros Hk b. by apply swap_remove_elem. Qed.

(** The first critical section: a free slab leaves the class, a slab in use
    stays one of its slabs. *)
Lemma startLocked_frame mode hint rnd st r st' :
  startSlabReleaseLocked mode hint rnd st = (Ok r, st') ->
  let x := chosen hint rnd (self st) in
  hdr_only x (slabAlloc_ st) (slabAlloc_ st') /\
  match r with
  | inl ctx => slab_ ctx = x /\ activeAllocations_ ctx = [] /\ mode_ ctx = mode /\
      (NoDup (freeSlabs_ (self st) ++ allocatedSlabs_ (self st)) ->
       x ∉ dom (slabReleaseAllocMap_ (self st)) ->
       forall y, slab_of (self st) y <-> y = x \/ slab_of (self st') y)
  | inr (x', i) => x' = x /\ i = SlabAllocator.slabIdx (slabAlloc_ st) x /\
      forall y, slab_of (self st') y <-> slab_of (self st) y
  end.
Proof.
  unfold startSlabReleaseLocked, bind at 1, get. fold (chosen hint rnd (self st)).
  set (x := chosen hint rnd (self st)). intros Hrun. cbv zeta.
  destruct (x =? 0); [done|]. unfold SlabAllocator.getSlabHeader_slab in Hrun.
  destruct (SlabAllocator.isValidSlab (slabAlloc_ st) x); [|done].
  destruct (_ || _ || _); [done|].
  destruct (find_index (Z.eqb x) (freeSlabs_ (self st))) as [k|] eqn:Hf.
  - apply find_index_slab in Hf. cbn in Hrun. injection Hrun as <- <-.
    split; [by apply hdr_only_set|]. split_and!; try done. intros Hnd Hr y. unfold slab_of; cbn.
    pose proof (swap_remove_same _ _ _ Hf) as Hel. set_solver.
  - unfold bind at 1, upd_header, modify in Hrun. unfold bind at 1, createSlabReleaseAllocMapLocked in Hrun.
    unfold bind at 1, get in Hrun. cbn [self slabAlloc_] in Hrun.
    destruct (slabReleaseAllocMap_ (self st) !! x) eqn:Hb; [done|]. unfold upd, modify in Hrun.
    cbn [self slabAlloc_] in Hrun.
    destruct (find_index (Z.eqb x) (allocatedSlabs_ (self st))) as [k|] eqn:Ha; [|done].
    apply find_index_slab in Ha. pose proof (swap_remove_same _ _ _ Ha) as Hel.
    destruct (currSlab_ (self st) =? x).
    + unfold bind, getSlabReleaseAllocMapLocked, bind, get in Hrun. cbn in Hrun.
      rewrite lookup_insert_eq in Hrun. cbn in Hrun. injection Hrun as <- <-.
      split; [by apply hdr_only_set|]. split_and!; try done. intros y. unfold slab_of; cbn.
      rewrite insert_insert_eq, dom_insert_L. set_solver.
    + cbn in Hrun. injection Hrun as <- <-.
      split; [by apply hdr_only_set|]. split_and!; try done. intros y. unfold slab_of; cbn.
      rewrite dom_insert_L. set_solver.
Qed.

(** A whole [startSlabRelease] with no interference. *)
Lemma startRelease_frame mode hint rnd st live ctx st' :
  ac_inv st [] live ->
  startSlabRelease mode hint rnd (fun _ => false) no_others st = (Ok ctx, st') ->
  let x := chosen hint rnd (self st) in
  slab_ ctx = x /\ mode_ ctx = mode /\ hdr_only x (slabAlloc_ st) (slabAlloc_ st') /\
  x ∈ freeSlabs_ (self st) ++ allocatedSlabs_ (self st) /\
  forall y, slab_of (self st) y <-> slab_of (self st') y \/ (isReleased ctx = true /\ y = x).
Proof.
  intros Hinv Hrun x.
  assert (Hx : x ∈ freeSlabs_ (self st) ++ allocatedSlabs_ (self st)).
  { destruct (decide (x ∈ freeSlabs_ (self st) ++ allocatedSlabs_ (self st))) as [|Hn]; [done|].
    exfalso. unfold startSlabRelease, bind, get in Hrun. destruct (negb (hint =? 0) && _); [done|].
    by rewrite (ac_start_refused st [] live) in Hrun. }
  assert (Hr : x ∉ dom (slabReleaseAllocMap_ (self st))).
  { intros Hd. by apply (ai_rel_disj _ _ _ Hinv) in Hd. }
  unfold startSlabRelease, bind at 1, get in Hrun. destruct (negb (hint =? 0) && _); [done|].
  unfold bind at 1 in Hrun. destruct (startSlabReleaseLocked mode hint rnd st) as [[r|] st1] eqn:Hl; [|done].
  destruct (startLocked_frame _ _ _ _ _ _ Hl) as [Hh Hres]. fold x in Hh, Hres.
  destruct r as [ctx'|[x' i]].
  - injection Hrun as <- <-. destruct Hres as (Hs & Ha & Hm & Hiff).
    split_and!; try done. intros y. rewrite (Hiff (ai_slabs_nodup _ _ _ Hinv) Hr).
    unfold isReleased. rewrite Ha. tauto.
  - destruct Hres as (-> & -> & Hiff). unfold bind at 1 in Hrun.
    pose proof (pruneFreeAllocs_frame (fun _ => false) x st1) as Hp. unfold state_of in Hp.
    destruct (pruneFreeAllocs (fun _ => false) no_others x st1) as [[[[k ab] active]|] st2]; [|done].
    cbn in Hp. destruct Hp as [Hpa Hps]. unfold bind at 1, modify, no_others in Hrun.
    assert (Hidx : SlabAllocator.slabIdx (slabAlloc_ st) x = SlabAllocator.slabIdx (slabAlloc_ st2) x).
    { rewrite Hpa. by destruct Hh as ([hm ->] & _). }
    destruct ab; [done|]. destruct active as [|a active].
    + cbn in Hrun. injection Hrun as <- <-. cbn -[SlabAllocator.set_header]. split_and!; try done.
      * eapply hdr_only_trans; [done|]. rewrite <- Hpa, Hidx. by apply hdr_only_set.
      * intros y. assert (Hx2 : slab_of (self st2) x) by (apply Hps, Hiff; left; done).
        rewrite <- Hiff, <- Hps. unfold slab_of in *; cbn. rewrite dom_delete_L.
        destruct (decide (y = x)) as [->|]; set_solver.
    + cbn in Hrun. injection Hrun as <- <-. cbn. split_and!; try done.
      * by rewrite Hpa.
      * intros y. rewrite <- Hiff, <- Hps. split; [by left|]. intros [|[? _]]; done.
Qed.

(** A slab released at once belongs to no class. *)
Lemma startRelease_header mode hint rnd st live ctx st' :
  ac_inv st [] live ->
  startSlabRelease mode hint rnd (fun _ => false) no_others st = (Ok ctx, st') -> isReleased ctx = true ->
  let h := SlabAllocator.header (slabAlloc_ st') (SlabAllocator.slabIdx (slabAlloc_ st) (slab_ ctx)) in
  classId h = kInvalidClassId /\ isMarkedForRelease h = false.
Proof.
  intros Hinv Hrun Hrel. unfold startSlabRelease, bind at 1, get in Hrun.
  destruct (negb (hint =? 0) && _); [done|].
  unfold bind at 1 in Hrun. destruct (startSlabReleaseLocked mode hint rnd st) as [[r|] st1] eqn:Hl; [|done].
  destruct (startLocked_frame _ _ _ _ _ _ Hl) as [Hh Hres]. set (x := chosen hint rnd (self st)) in *.
  destruct r as [ctx'|[x' i]].
  - injection Hrun as <- <-. destruct Hres as (-> & _). cbv zeta. revert Hl.
    unfold startSlabReleaseLocked, bind at 1, get. fold (chosen hint rnd (self st)). fold x.
    destruct (x =? 0); [done|]. unfold SlabAllocator.getSlabHeader_slab.
    destruct (SlabAllocator.isValidSlab (slabAlloc_ st) x); [|done].
    destruct (_ || _ || _) eqn:Hm; [done|]. apply orb_false_iff in Hm as [_ Hm].
    destruct (find_index (Z.eqb x) (freeSlabs_ (self st))) as [k|].
    + cbn -[SlabAllocator.set_header]. intros Hr. unfold ret in Hr. injection Hr as _ <-. cbn [slabAlloc_].
      rewrite SlabAllocatorProofs.header_set. by rewrite decide_True.
    + unfold bind at 1, upd_header, modify, bind at 1, createSlabReleaseAllocMapLocked, bind at 1, get.
      cbn [self slabAlloc_]. destruct (slabReleaseAllocMap_ (self st) !! x); [done|]. unfold upd, modify.
      cbn [self slabAlloc_]. destruct (find_index (Z.eqb x) (allocatedSlabs_ (self st))); [|done].
      destruct (currSlab_ (self st) =? x); [|done].
      unfold bind, getSlabReleaseAllocMapLocked, bind, get. cbn. by rewrite lookup_insert_eq.
  - destruct Hres as (-> & -> & _). unfold bind at 1 in Hrun.
    pose proof (pruneFreeAllocs_frame (fun _ => false) x st1) as Hp. unfold state_of in Hp.
    destruct (pruneFreeAllocs (fun _ => false) no_others x st1) as [[[[k ab] active]|] st2]; [|done].
    unfold bind at 1, modify, no_others in Hrun. destruct ab; [done|]. destruct active as [|a active].
    + unfold upd_header, upd, bind, get, modify, ret in Hrun.
      cbn -[SlabAllocator.set_header setMarkedForRelease] in Hrun. injection Hrun as <- <-. clear.
      cbn -[SlabAllocator.set_header setMarkedForRelease]. rewrite SlabAllocatorProofs.header_set.
      rewrite decide_True by done. split; [done|apply (marked_setMarked _ false)].
    + cbn in Hrun. injection Hrun as <- <-. done.
Qed.

(** A context to complete names the class in the slab's header. *)
Lemma startRelease_victim mode hint rnd st ctx st' :
  startSlabRelease mode hint rnd (fun _ => false) no_others st = (Ok ctx, st') -> isReleased ctx = false ->
  victim_ ctx = classId (SlabAllocator.header (slabAlloc_ st') (SlabAllocator.slabIdx (slabAlloc_ st) (slab_ ctx))).
Proof.
  intros Hrun Hrel. unfold startSlabRelease, bind at 1, get in Hrun.
  destruct (negb (hint =? 0) && _); [done|].
  unfold bind at 1 in Hrun. destruct (startSlabReleaseLocked mode hint rnd st) as [[r|] st1] eqn:Hl; [|done].
  destruct (startLocked_frame _ _ _ _ _ _ Hl) as [Hh Hres]. set (x := chosen hint rnd (self st)) in *.
  destruct r as [ctx'|[x' i]].
  - injection Hrun as <- <-. destruct Hres as (_ & Ha & _). unfold isReleased in Hrel. by rewrite Ha in Hrel.
  - destruct Hres as (-> & -> & _). unfold bind at 1 in Hrun.
    destruct (pruneFreeAllocs (fun _ => false) no_others x st1) as [[[[k ab] active]|] st2]; [|done].
    unfold bind at 1, modify, no_others in Hrun. destruct ab; [done|].
    destruct active as [|a active]; cbn -[SlabAllocator.set_header] in Hrun; by injection Hrun as <- <-.
Qed.

(** The release of a slab of the class, with no interference: the slab leaves
    the class at once or is in release. *)
Lemma ac_start_class st live mode hint rnd :
  let x := chosen hint rnd (self st) in
  ac_inv st [] live -> x ∈ freeSlabs_ (self st) ++ allocatedSlabs_ (self st) ->
  exists ctx st', startSlabRelease mode hint rnd (fun _ => false) no_others st = (Ok ctx, st') /\
    ac_inv st' [] live /\ same_class st st' /\ slab_ ctx = x /\ mode_ ctx = mode /\
    hdr_only x (slabAlloc_ st) (slabAlloc_ st') /\
    (forall y, slab_of (self st) y <-> slab_of (self st') y \/ (isReleased ctx = true /\ y = x)) /\
    if isReleased ctx
    then ~ slab_of (self st') x /\
      let h := SlabAllocator.header (slabAlloc_ st') (SlabAllocator.slabIdx (slabAlloc_ st) x) in
      classId h = kInvalidClassId /\ isMarkedForRelease h = false
    else in_release x st' live /\ victim_ ctx = classId_ (self st).
Proof.
  intros x Hinv Hx.
  assert (Hok : exists ctx st', startSlabRelease mode hint rnd (fun _ => false) no_others st = (Ok ctx, st') /\
    (isReleased ctx = true -> ~ slab_of (self st') x) /\ (isReleased ctx = false -> in_release x st' live)).
  { destruct (decide (x ∈ allocatedSlabs_ (self st))) as [Ha|Ha].
    - destruct (ac_start_release st live mode hint rnd no_others _ Hinv Ha (no_others_env x live) eq_refl)
        as (ctx & st1 & live' & k & Hrun & -> & Hrs). exists ctx, st1. split; [done|]. split; [apply Hrs|].
      intros Hf. destruct (rs_pending _ _ _ _ _ _ Hrs Hf). by split; [apply Hrs|..].
    - assert (Hf : x ∈ freeSlabs_ (self st)) by set_solver.
      destruct (ac_start_free st [] live mode hint rnd Hinv Hf) as (st1 & Hs & Hinv1 & Hn & Hrely).
      exists (releaseContext x (poolId_ (self st)) kInvalidClassId [] mode), st1. split; [|by split].
      unfold startSlabRelease, bind at 1, get.
      destruct (negb (hint =? 0) && _) eqn:Hg; [exfalso|unfold bind; by rewrite Hs].
      apply andb_true_iff in Hg as [H0 Hv]. assert (He : SlabAllocator.getSlabForMemory hint = x).
      { unfold x, chosen. by destruct (hint =? 0). }
      rewrite He, (ac_slab_valid st [] live x) in Hv; [done..|by left]. }
  destruct Hok as (ctx & st' & Hrun & Hr1 & Hr2). exists ctx, st'. split; [done|].
  destruct (ac_start_any _ _ _ _ _ _ _ Hinv Hrun) as [Hinv' Hsc].
  destruct (startRelease_frame _ _ _ _ _ _ _ Hinv Hrun) as (H1 & H2 & H3 & _ & H4). fold x in H1, H3, H4.
  split_and!; try done. destruct (isReleased ctx) eqn:Hrel.
  - split; [by apply Hr1|]. pose proof (startRelease_header _ _ _ _ _ _ _ Hinv Hrun Hrel) as Hh. by rewrite H1 in Hh.
  - pose proof (Hr2 eq_refl) as Hir. split; [done|].
    rewrite (startRelease_victim _ _ _ _ _ _ Hrun Hrel), H1.
    destruct (ai_slab _ _ _ Hinv' x (or_intror (ir_rel _ _ _ Hir))) as (_ & _ & Hc & _). unfold hdr in Hc.
    rewrite (same_class_idx _ _ x Hsc) in Hc. rewrite Hc. apply Hsc.
Qed.

(** Completing with no interference: the slab leaves the class. *)
Lemma complete_frame st live ctx st' :
  in_release (slab_ ctx) st live -> isReleased ctx = false ->
  completeSlabRelease [] ctx st = (Ok tt, st') ->
  hdr_only (slab_ ctx) (slabAlloc_ st) (slabAlloc_ st') /\
  forall y, slab_of (self st) y <-> slab_of (self st') y \/ y = slab_ ctx.
Proof.
  intros [Hinv Hr Hf] Hnr Hrun. set (x := slab_ ctx) in *.
  pose proof (ac_slab_valid _ _ _ _ Hinv (or_intror Hr)) as Hv.
  unfold completeSlabRelease in Hrun. rewrite Hnr in Hrun. fold x in Hrun. unfold bind at 1, get in Hrun.
  rewrite (SlabAllocatorProofs.sa_header_valid _ _ Hv) in Hrun. destruct (_ || _); [done|].
  cbn [waitUntilAllFreed] in Hrun. unfold bind at 1, bind at 1, allFreed, bind at 1, get in Hrun.
  destruct (slabReleaseAllocMap_ (self st) !! x) as [bs|] eqn:Hb; [|done]. unfold ret at 1 in Hrun.
  destruct (forallb id bs); [|done]. cbn -[SlabAllocator.set_header] in Hrun. injection Hrun as <-.
  cbn -[SlabAllocator.set_header]. split; [by apply hdr_only_set|].
  intros y. unfold slab_of; cbn. rewrite dom_delete_L. destruct (decide (y = x)) as [->|]; set_solver.
Qed.

(** Aborting keeps the slabs. *)
Lemma abort_frame st live ctx st' :
  in_release (slab_ ctx) st live -> abortSlabRelease ctx st = (Ok tt, st') ->
  hdr_only (slab_ ctx) (slabAlloc_ st) (slabAlloc_ st') /\
  forall y, slab_of (self st') y <-> slab_of (self st) y.
Proof.
  intros [Hinv Hr Hf] Hrun. set (x := slab_ ctx) in *.
  pose proof (ac_slab_valid _ _ _ _ Hinv (or_intror Hr)) as Hv.
  unfold abortSlabRelease in Hrun. destruct (isReleased ctx); [done|]. fold x in Hrun.
  unfold bind at 1, get in Hrun. rewrite (SlabAllocatorProofs.sa_header_valid _ _ Hv) in Hrun.
  set (fr := match slabReleaseAllocMap_ (self st) !! x with Some bs => _ | None => _ end) in Hrun.
  unfold bind at 1, upd at 1, modify in Hrun. unfold bind at 1 in Hrun.
  assert (Hm : forall st0, exists can, match fr with [] => ret tt | _ => upd (set_canAllocate true) end st0 =
    (Ok tt, mkACState (slabAlloc_ st0) (set_canAllocate can (self st0)))).
  { intros [s []]. destruct fr; eexists; reflexivity. }
  match type of Hrun with context [match fr with [] => _ | _ :: _ => _ end ?s0] => destruct (Hm s0) as [can Hc] end.
  rewrite Hc in Hrun. cbn -[SlabAllocator.set_header] in Hrun. injection Hrun as <-.
  cbn -[SlabAllocator.set_header]. split; [by apply hdr_only_set|].
  intros y. unfold slab_of; cbn. rewrite dom_delete_L. destruct (decide (y = x)) as [->|]; set_solver.
Qed.

(** ** Other classes *)

(** A class is not affected by what happens to a slab it does not have, as
    long as the slab is not made one of its own. *)
Lemma ac_frame_other s s' c off live x :
  ac_inv (mkACState s c) off live -> SlabAllocatorProofs.sa_wf s' ->
  SlabAllocator.slabMemoryStart_ s' = SlabAllocator.slabMemoryStart_ s ->
  ~ slab_of c x ->
  (forall y, y <> x -> SlabAllocator.isValidSlab s' y = SlabAllocator.isValidSlab s y /\
     (SlabAllocator.isValidSlab s y = true ->
      SlabAllocator.header s' (SlabAllocator.slabIdx s y) = SlabAllocator.header s (SlabAllocator.slabIdx s y))) ->
  (SlabAllocator.isValidSlab s' x = true ->
     ~ (poolId (SlabAllocator.header s' (SlabAllocator.slabIdx s x)) = poolId_ c /\
        classId (SlabAllocator.header s' (SlabAllocator.slabIdx s x)) = classId_ c)) ->
  ac_inv (mkACState s' c) off live.
Proof.
  intros Hinv Hwf Hstart Hnx Hother Hx.
  assert (Hidx : forall y, SlabAllocator.slabIdx s' y = SlabAllocator.slabIdx s y).
  { intros y. unfold SlabAllocator.slabIdx. by rewrite Hstart. }
  destruct Hinv. split; cbn in *; try done.
  - intros y Hy. assert (y <> x) by (intros ->; done). destruct (Hother y) as [Hv Hh]; [done|].
    destruct (ai_slab y Hy) as (Hvy & H1). split; [congruence|].
    unfold hdr in *; cbn in *. rewrite Hidx, Hh by done. exact H1.
  - intros y Hv. unfold hdr; cbn. rewrite Hidx. destruct (decide (y = x)) as [->|Hne].
    + intros H1 H2. exfalso. by apply Hx.
    + destruct (Hother y Hne) as [Hv' Hh]. rewrite Hv' in Hv. rewrite Hh by done. by apply ai_owned.
Qed.

(** The slabs of a class as a list. *)
Definition slabs_list c : list Z := freeSlabs_ c ++ allocatedSlabs_ c ++ elements (dom (slabReleaseAllocMap_ c)).

Lemma slabs_list_elem c y : y ∈ slabs_list c <-> slab_of c y.
Proof. unfold slabs_list, slab_of. rewrite !elem_of_app, elem_of_elements. tauto. Qed.

Lemma slabs_list_NoDup st off live : ac_inv st off live -> NoDup (slabs_list (self st)).
Proof.
  intros Hinv. unfold slabs_list. rewrite app_assoc. apply NoDup_app.
  split_and!; [apply Hinv| |apply NoDup_elements].
  intros y Hy Hd%elem_of_elements. by apply (ai_rel_disj _ _ _ Hinv y Hd).
Qed.

(** ** The slab allocator *)

(** Only slab [x] may become valid or have its header changed. *)
Definition slab_frame x (s s' : SlabAllocator.SlabAllocator) : Prop :=
  SlabAllocator.slabMemoryStart_ s' = SlabAllocator.slabMemoryStart_ s /\
  (forall y, y <> x -> SlabAllocator.isValidSlab s' y = SlabAllocator.isValidSlab s y) /\
  (forall j, j <> SlabAllocator.slabIdx s x -> SlabAllocator.header s' j = SlabAllocator.header s j).

Lemma addPoolSize_frame pid d s r s' :
  SlabAllocator.addPoolSize pid d s = (Ok r, s') -> exists sizes, s' = SlabAllocator.set_memoryPoolSize sizes s.
Proof.
  unfold SlabAllocator.addPoolSize, bind, get. destruct (SlabAllocator.memoryPoolSize_ s !! _); [|done].
  destruct (pid <? 0); [done|]. unfold modify. intros [= _ <-]. eauto.
Qed.

(** Handing out a slab: its header is fresh. *)
Lemma hand_out_frame pid x s s0 r s' :
  SlabAllocator.slabMemoryStart_ s0 = SlabAllocator.slabMemoryStart_ s ->
  SlabAllocator.headers s0 = SlabAllocator.headers s ->
  (do! SlabAllocator.addPoolSize pid kSize in do! SlabAllocator.initializeHeader x pid in ret x)%cl s0 = (Ok r, s') ->
  (forall y, y <> x -> SlabAllocator.isValidSlab s0 y = SlabAllocator.isValidSlab s y) ->
  r = x /\ slab_frame x s s' /\
  SlabAllocator.header s' (SlabAllocator.slabIdx s x) = newSlabHeader pid.
Proof.
  intros Hst Hh Hrun Hv. unfold bind at 1 in Hrun.
  destruct (SlabAllocator.addPoolSize pid kSize s0) as [[u|] s1] eqn:Ha; [|done].
  destruct (addPoolSize_frame _ _ _ _ _ Ha) as [sizes ->].
  unfold bind, SlabAllocator.initializeHeader, bind, get in Hrun.
  destruct (SlabAllocator.getSlabHeader_slab _ x) as [i|] eqn:Hi; [|done].
  unfold SlabAllocator.getSlabHeader_slab in Hi. destruct (SlabAllocator.isValidSlab _ x); [|done].
  injection Hi as <-. cbn in Hrun. injection Hrun as <- <-.
  assert (Hidx : SlabAllocator.slabIdx (SlabAllocator.set_memoryPoolSize sizes s0) x = SlabAllocator.slabIdx s x).
  { unfold SlabAllocator.slabIdx. cbn. by rewrite Hst. }
  rewrite Hidx. split; [done|]. split; [split_and!|].
  - exact Hst.
  - intros y Hy. rewrite <- (Hv y Hy). done.
  - intros j Hj. unfold SlabAllocator.header. cbn. rewrite lookup_insert_ne by done. by rewrite Hh.
  - unfold SlabAllocator.header. cbn. by rewrite lookup_insert_eq.
Qed.

Lemma makeNewSlab_frame pid s own r s' :
  SlabAllocatorProofs.sa_inv s own -> SlabAllocator.makeNewSlab pid s = (Ok r, s') ->
  (r = 0 -> s' = s \/ s' = SlabAllocator.set_canAllocate false s) /\
  (r <> 0 -> slab_frame r s s' /\
     SlabAllocator.header s' (SlabAllocator.slabIdx s r) = newSlabHeader pid).
Proof.
  intros Hinv. unfold SlabAllocator.makeNewSlab, SlabAllocator.makeNewSlabImpl, bind at 1, bind at 1, get.
  destruct (SlabAllocator.canAllocate_ s); cbn [negb]; [|intros [= <- <-]; split; [by left|done]].
  destruct (last (SlabAllocator.freeSlabs_ s)) as [x|] eqn:Hl.
  - unfold bind at 1, modify, ret at 1. destruct (Z.eqb_spec x 0) as [->|Hx].
    { intros _. exfalso. apply last_snoc_inv in Hl.
      assert (Hv : SlabAllocator.isValidSlab s 0 = true).
      { apply (SlabAllocatorProofs.inv_part _ _ Hinv). right. rewrite Hl. set_solver. }
      apply SlabAllocatorProofs.sa_valid_pos in Hv; [lia|apply Hinv]. }
    intros Hrun. apply (hand_out_frame pid x s) in Hrun as (-> & Hf & Hh); try done.
  - destruct (SlabAllocator.allMemorySlabbed s) eqn:Hall.
    { unfold bind at 1, modify, ret at 1. cbn. intros [= <- <-]. split; [by right|done]. }
    unfold bind at 1, modify, ret at 1. set (x := SlabAllocator.nextSlabAllocation_ s).
    destruct (Z.eqb_spec x 0) as [|Hx].
    { intros _. exfalso. destruct (SlabAllocatorProofs.inv_wf _ _ Hinv). unfold x in *.
      assert (0 <= SlabAllocator.numSlabsForHeaders (SlabAllocator.memorySize_ s)) by apply u32_range.
      assert (kSize = 4194304) by done. nia. }
    intros Hrun. apply (hand_out_frame pid x s) in Hrun as (-> & Hf & Hh); try done.
    intros y Hy. destruct (SlabAllocatorProofs.sa_carve s (SlabAllocatorProofs.inv_wf _ _ Hinv)) as [_ Hv].
    { intros He. unfold SlabAllocator.allMemorySlabbed in Hall. rewrite He in Hall.
      rewrite Z.eqb_refl in Hall. done. }
    specialize (Hv y). fold x in Hv. apply eq_bool_prop_intro. rewrite !Is_true_true, Hv. tauto.
Qed.

Lemma reclaimSlab_frame pid s own r s' :
  SlabAllocatorProofs.sa_inv s own -> SlabAllocator.reclaimSlab pid s = (Ok r, s') ->
  (r = 0 -> s' = s) /\
  (r <> 0 -> slab_frame r s s' /\
     SlabAllocator.header s' (SlabAllocator.slabIdx s r) = newSlabHeader pid).
Proof.
  intros Hinv. unfold SlabAllocator.reclaimSlab, bind at 1, get.
  destruct (SlabAllocator.advisedSlabs_ s) as [|x rest] eqn:Ha; [intros [= <- <-]; done|].
  unfold bind at 1, modify. intros Hrun. apply (hand_out_frame pid x s) in Hrun as (-> & Hf & Hh); try done.
  split; [|done]. intros ->. exfalso.
  assert (Hv : SlabAllocator.isValidSlab s 0 = true).
  { apply (SlabAllocatorProofs.inv_part _ _ Hinv). right. rewrite Ha. set_solver. }
  apply SlabAllocatorProofs.sa_valid_pos in Hv; [lia|apply Hinv].
Qed.

Lemma header_write_frame x s s' h :
  SlabAllocator.slabMemoryStart_ s' = SlabAllocator.slabMemoryStart_ s ->
  (forall y, SlabAllocator.isValidSlab s' y = SlabAllocator.isValidSlab s y) ->
  SlabAllocator.headers s' = <[SlabAllocator.slabIdx s x := h]> (SlabAllocator.headers s) ->
  slab_frame x s s' /\ SlabAllocator.header s' (SlabAllocator.slabIdx s x) = h.
Proof.
  intros Hs Hv Hh. split; [split_and!; auto|].
  - intros j Hj. unfold SlabAllocator.header. rewrite Hh. by rewrite lookup_insert_ne.
  - unfold SlabAllocator.header. rewrite Hh. by rewrite lookup_insert_eq.
Qed.

Lemma freeSlab_frame x s s' :
  SlabAllocator.freeSlab x s = (Ok tt, s') ->
  slab_frame x s s' /\ poolId (SlabAllocator.header s' (SlabAllocator.slabIdx s x)) = kInvalidPoolId.
Proof.
  unfold SlabAllocator.freeSlab, bind at 1, get, SlabAllocator.getSlabHeader_slab.
  destruct (SlabAllocator.isValidSlab s x); [|done]. unfold bind at 1. intros Hrun.
  destruct (SlabAllocator.addPoolSize _ _ s) as [[u|] s1] eqn:Ha; [|done].
  destruct (addPoolSize_frame _ _ _ _ _ Ha) as [sizes ->]. cbn in Hrun. injection Hrun as <-.
  destruct (header_write_frame x s (SlabAllocator.set_header (SlabAllocator.slabIdx s x)
    (resetAllocInfo (SlabAllocator.header s (SlabAllocator.slabIdx s x)))
    (SlabAllocator.set_canAllocate true (SlabAllocator.set_freeSlabs (SlabAllocator.freeSlabs_ s ++ [x])
      (SlabAllocator.set_memoryPoolSize sizes s))))
    (resetAllocInfo (SlabAllocator.header s (SlabAllocator.slabIdx s x)))) as [H1 H2]; try done.
  split; [exact H1|]. cbn in H2. cbn. by rewrite H2.
Qed.

Lemma setAdvised_marked b h : isMarkedForRelease (setAdvised b h) = isMarkedForRelease h.
Proof.
  unfold isMarkedForRelease, setAdvised. destruct b; [rewrite slab_set_flag|rewrite slab_unset_flag];
    by rewrite decide_False by done.
Qed.

Lemma adviseSlab_frame ok x s b s' :
  SlabAllocator.adviseSlab ok x s = (Ok b, s') ->
  slab_frame x s s' /\
  (b = true -> poolId (SlabAllocator.header s' (SlabAllocator.slabIdx s x)) = kInvalidPoolId) /\
  (b = false -> let h := SlabAllocator.header s (SlabAllocator.slabIdx s x) in
     let h' := SlabAllocator.header s' (SlabAllocator.slabIdx s x) in
     poolId h' = poolId h /\ classId h' = classId h /\ isMarkedForRelease h' = isMarkedForRelease h).
Proof.
  unfold SlabAllocator.adviseSlab, bind at 1, get, SlabAllocator.getSlabHeader_slab.
  destruct (SlabAllocator.isValidSlab s x); [|done]. set (h := SlabAllocator.header s _).
  destruct (ok || SlabAllocator.pretendMadvise_ s); cbn -[SlabAllocator.set_header setAdvised];
    intros [= <- <-].
  - match goal with |- slab_frame x s ?s2 /\ _ =>
      destruct (header_write_frame x s s2 (resetAllocInfo (setAdvised true h))) as [H1 H2]; try done end.
    { cbn. by rewrite insert_insert_eq. }
    split; [exact H1|]. split; [|done]. intros _. by rewrite H2.
  - match goal with |- slab_frame x s ?s2 /\ _ =>
      destruct (header_write_frame x s s2 (setAdvised false (setAdvised true h))) as [H1 H2]; try done end.
    { cbn. by rewrite insert_insert_eq. }
    split; [exact H1|]. split; [done|]. intros _. cbv zeta. rewrite H2. split_and!; try done.
    by rewrite !setAdvised_marked.
Qed.
