(* ===== verification/MemoryPoolProofs.v ===== *)
(** * Memory pool: correctness

    The invariant of a pool, with its accounting, and what each operation does
    to it. *)

From S2P Require Import Prelude.
From S2P Require Import Slab.
From S2P Require SlabAllocator.
From S2P Require Import SlabAllocatorProofs.
From S2P Require SlabAllocatorSpec.
From S2P Require AllocationClass.
From S2P Require Import AllocationClassProofs AllocationClassSpec AllocationClassClaims.
From S2P Require Import MemoryPool MemoryPoolFrame.
From Stdlib Require Import Sorting.Sorted.
From stdpp Require Import base tactics numbers gmap list.

#[local] Open Scope Z_scope.
#[local] Open Scope cachelib_scope.

Abbreviation ACState := AllocationClass.ACState.
Abbreviation mkACState := AllocationClass.mkACState.
Abbreviation allocationSize_ := AllocationClass.allocationSize_.

Implicit Types (st : PoolState) (c : AC) (x y : Z).

(** ** Lists of classes *)

Definition pool_slabs (acs : list AC) : list Z := acs ≫= slabs_list.
Definition alloc_bytes (acs : list AC) (lives : list (gset Z)) : Z :=
  sumZ (zip_with (fun c (L : gset Z) => allocationSize_ c * Z.of_nat (size L)) acs lives).

Lemma pool_slabs_elem acs x : x ∈ pool_slabs acs <-> exists i c, acs !! i = Some c /\ slab_of c x.
Proof.
  unfold pool_slabs. rewrite list_elem_of_bind. split.
  - intros (c & Hx & (i & Hi)%list_elem_of_lookup_1). exists i, c. split; [done|]. by apply slabs_list_elem.
  - intros (i & c & Hi & Hx). exists c. split; [by apply slabs_list_elem|by eapply list_elem_of_lookup_2].
Qed.

(** Changing one class of the list. *)
Lemma pool_slabs_update acs (i : nat) c c' :
  acs !! i = Some c ->
  exists rest, pool_slabs acs ≡ₚ slabs_list c ++ rest /\ pool_slabs (<[i := c']> acs) ≡ₚ slabs_list c' ++ rest.
Proof.
  intros Hi. unfold pool_slabs.
  exists ((take i acs ≫= slabs_list) ++ (drop (S i) acs ≫= slabs_list)). split.
  - rewrite <- (take_drop_middle acs i c Hi) at 1. rewrite bind_app. cbn. by solve_Permutation.
  - rewrite insert_take_drop by (by eapply lookup_lt_Some). rewrite bind_app. cbn. by solve_Permutation.
Qed.

Lemma alloc_bytes_update acs lives (i : nat) c c' L L' :
  acs !! i = Some c -> lives !! i = Some L -> allocationSize_ c' = allocationSize_ c ->
  alloc_bytes (<[i := c']> acs) (<[i := L']> lives) =
  alloc_bytes acs lives + allocationSize_ c * (Z.of_nat (size L') - Z.of_nat (size L)).
Proof.
  unfold alloc_bytes, sumZ. revert i lives. induction acs as [|c0 acs IH]; intros i lives Hi HL Hs; [done|].
  destruct lives as [|L0 lives]; [done|]. destruct i as [|i]; simpl in *.
  - injection Hi as ->. injection HL as ->. rewrite Hs. lia.
  - rewrite (IH i lives) by done. lia.
Qed.

(** ** What a pool may do to the slab allocator *)

(** The slab allocator and its owners go from [s], [own] to [s'], [own'] by
    the doing of pool [id]: the slabs of the other pools keep their owners and
    their headers, and the slabs nobody owns have headers without a pool, if
    they had before. *)
Definition pool_eff (id : Z) (s : SlabAllocator.SlabAllocator) (own : gmap Z Z)
    (s' : SlabAllocator.SlabAllocator) (own' : gmap Z Z) : Prop :=
  SlabAllocator.slabMemoryStart_ s' = SlabAllocator.slabMemoryStart_ s /\
  (forall y j, j <> id -> own' !! y = Some j <-> own !! y = Some j) /\
  (forall y j, j <> id -> own !! y = Some j ->
     SlabAllocator.header s' (SlabAllocator.slabIdx s y) = SlabAllocator.header s (SlabAllocator.slabIdx s y)) /\
  (forall y, SlabAllocator.isValidSlab s' y = true -> own' !! y = None ->
     poolId (SlabAllocator.header s' (SlabAllocator.slabIdx s y)) = kInvalidPoolId \/
     SlabAllocator.isValidSlab s y = true /\ own !! y = None /\
     poolId (SlabAllocator.header s' (SlabAllocator.slabIdx s y)) =
     poolId (SlabAllocator.header s (SlabAllocator.slabIdx s y))).

Lemma pool_eff_refl id s own : pool_eff id s own s own.
Proof. split_and!; try done. intros y Hv Ho. right. done. Qed.

Lemma pool_eff_trans id s own s1 own1 s2 own2 :
  pool_eff id s own s1 own1 -> pool_eff id s1 own1 s2 own2 -> pool_eff id s own s2 own2.
Proof.
  intros (A1 & A2 & A3 & A4) (B1 & B2 & B3 & B4).
  assert (Hidx : forall y, SlabAllocator.slabIdx s1 y = SlabAllocator.slabIdx s y).
  { intros y. unfold SlabAllocator.slabIdx. by rewrite A1. }
  split_and!.
  - congruence.
  - intros y j Hj. by rewrite B2, A2.
  - intros y j Hj Ho. rewrite <- (A3 y j Hj Ho). pose proof (B3 y j Hj) as H. rewrite Hidx in H.
    apply H. by apply A2.
  - intros y Hv Ho. destruct (B4 y Hv Ho) as [H|(H1 & H2 & H3)]; rewrite Hidx in *; [by left|].
    destruct (A4 y H1 H2) as [H|(H4 & H5 & H6)]; [left; congruence|right; split_and!; congruence].
Qed.

(** The state of the slab allocator the pool started from, and the number of
    slabs of its free list the pool has released: [releaseSlab] takes each of
    them off [currSlabAllocSize_], which did not count it. *)
Class Base : Type := {
  base_sa : SlabAllocator.SlabAllocator;
  base_own : gmap Z Z;
  base_lost : nat
}.

Section base.
Context {base : Base}.

(** ** Invariant *)

(** [own] is the slab allocator's record of owners, [lives] the allocations
    held per class, [hold] the slabs on their way between the slab allocator,
    a class and the pool's free list.  The pool's slabs are split among its
    free list, [hold] and its classes; [currSlabAllocSize_] counts the last
    two, less [base_lost], and [currAllocSize_] the allocations held. *)
Record pool_inv st (own : gmap Z Z) (lives : list (gset Z)) (hold : list Z) : Prop := {
  pl_sa : sa_inv (slabAllocator_ st) own;
  pl_id : 0 <= id_ (pool st) < SlabAllocator.kMaxPoolId;
  pl_len : length lives = length (ac_ (pool st));
  pl_class (i : nat) c L : ac_ (pool st) !! i = Some c -> lives !! i = Some L ->
    ac_inv (mkACState (slabAllocator_ st) c) [] L /\
    AllocationClass.classId_ c = Z.of_nat i /\ AllocationClass.poolId_ c = id_ (pool st) /\
    acSizes_ (pool st) !! i = Some (allocationSize_ c);
  pl_own x : own !! x = Some (id_ (pool st)) <->
    x ∈ (freeSlabs_ (pool st) ++ hold) ++ pool_slabs (ac_ (pool st));
  pl_nodup : NoDup ((freeSlabs_ (pool st) ++ hold) ++ pool_slabs (ac_ (pool st)));
  pl_free x : x ∈ freeSlabs_ (pool st) ++ hold ->
    classId (SlabAllocator.header (slabAllocator_ st) (SlabAllocator.slabIdx (slabAllocator_ st) x)) =
      kInvalidClassId /\
    isMarkedForRelease (SlabAllocator.header (slabAllocator_ st)
      (SlabAllocator.slabIdx (slabAllocator_ st) x)) = false;
  pl_slabsize : currSlabAllocSize_ (pool st) =
    u64 (kSize * (Z.of_nat (length hold + length (pool_slabs (ac_ (pool st)))) - Z.of_nat base_lost));
  pl_allocsize : currAllocSize_ (pool st) = alloc_bytes (ac_ (pool st)) lives;
  pl_sizes : length (acSizes_ (pool st)) = length (ac_ (pool st)) /\
    ac_ (pool st) <> [] /\ StronglySorted Z.lt (acSizes_ (pool st));
  pl_eff : pool_eff (id_ (pool st)) base_sa base_own (slabAllocator_ st) own
}.

Lemma pool_owned_valid st own lives hold x :
  pool_inv st own lives hold -> own !! x = Some (id_ (pool st)) ->
  SlabAllocator.isValidSlab (slabAllocator_ st) x = true.
Proof. intros Hinv Hx. eapply sa_owned_valid; [apply Hinv|]. by eapply elem_of_dom_2. Qed.

(** The pool has fewer than 2^32 slabs. *)
Lemma pool_count st own lives hold :
  pool_inv st own lives hold ->
  Z.of_nat (length ((freeSlabs_ (pool st) ++ hold) ++ pool_slabs (ac_ (pool st)))) < 2 ^ 32.
Proof.
  intros Hinv. apply (SlabAllocatorSpec.sa_slab_count (slabAllocator_ st)).
  - apply (inv_wf _ _ (pl_sa _ _ _ _ Hinv)).
  - apply Hinv.
  - intros x Hx%(pl_own _ _ _ _ Hinv). by eapply pool_owned_valid.
Qed.

Lemma sumZ_const {A} (f : A -> Z) (n : Z) (l : list A) :
  (forall a, f a = n) -> sumZ (f <$> l) = n * Z.of_nat (length l).
Proof. intros Hf. unfold sumZ. induction l as [|a l IH]; [simpl; lia|].
  rewrite fmap_cons. cbn [foldr length]. rewrite IH, Hf. lia. Qed.

(** The allocations of a class fit in its slabs. *)
Lemma ac_live_bound s c L :
  ac_inv (mkACState s c) [] L ->
  allocationSize_ c * Z.of_nat (size L) <= kSize * Z.of_nat (length (slabs_list c)).
Proof.
  intros Hinv. destruct (ac_perSlab c (ai_size _ _ _ Hinv)) as (_ & Hp & Hm & _).
  pose proof (ai_size _ _ _ Hinv) as Hs. change kMinAllocSize with 64 in Hs. cbn [AllocationClass.self] in Hs.
  set (per := AllocationClass.getAllocsPerSlab c) in *.
  set (all := slabs_list c ≫= fun x => AllocationClass.allocsFrom (Z.to_nat per) (allocationSize_ c) x).
  assert (Hle : (size L <= length all)%nat).
  { change (length (elements L) <= length all)%nat. apply submseteq_length, NoDup_submseteq; [apply NoDup_elements|].
    intros p Hp'%elem_of_elements. destruct (ai_place _ _ _ Hinv p (or_introl Hp')) as (x & i & Hsl & _ & ->).
    apply list_elem_of_bind. exists x. split; [|apply slabs_list_elem; by eapply slot_slab].
    destruct Hsl as [Hi _]. cbn [AllocationClass.self] in *. fold per in Hi.
    apply allocsFrom_elem. exists (Z.to_nat i). split; [lia|]. unfold addr. by rewrite Z2Nat.id by lia. }
  assert (Hall : Z.of_nat (length all) = per * Z.of_nat (length (slabs_list c))).
  { unfold all. rewrite bind_length_sum. apply sumZ_const. intros x. rewrite allocsFrom_length. lia. }
  nia.
Qed.

Definition classes_ok (s : SlabAllocator.SlabAllocator) (acs : list AC) (lives : list (gset Z)) : Prop :=
  forall (i : nat) c L, acs !! i = Some c -> lives !! i = Some L -> ac_inv (mkACState s c) [] L.

Lemma alloc_bytes_bound s acs lives :
  length lives = length acs -> classes_ok s acs lives ->
  0 <= alloc_bytes acs lives <= kSize * Z.of_nat (length (pool_slabs acs)).
Proof.
  revert lives. induction acs as [|c acs IH]; intros [|L lives] Hlen Hc; try done. cbn in Hlen.
  pose proof (Hc O c L eq_refl eq_refl) as Ha. pose proof (ac_live_bound _ _ _ Ha).
  pose proof (ai_size _ _ _ Ha) as Hs. change kMinAllocSize with 64 in Hs. cbn in Hs.
  destruct (IH lives) as [H1 H2]; [lia|intros i c' L' Hi HL; by apply (Hc (S i))|].
  change (pool_slabs (c :: acs)) with (slabs_list c ++ pool_slabs acs).
  change (alloc_bytes (c :: acs) (L :: lives)) with
    (allocationSize_ c * Z.of_nat (size L) + alloc_bytes acs lives).
  rewrite length_app. nia.
Qed.

(** ** Class operations *)

Lemma hdr_only_slab_frame x s s' : hdr_only x s s' -> slab_frame x s s'.
Proof. intros ([hm ->] & A & _). by split_and!. Qed.

Lemma hdr_only_sa_inv x s s' own : hdr_only x s s' -> sa_inv s own -> sa_inv s' own.
Proof.
  intros ([hm ->] & A & B) [Hwf Hpart Hnd Hdisj Hown Hcan]. split; try done.
  - by apply (same_layout_wf s).
  - intros y p Hp. destruct (Hown y p Hp) as [Hr Hh]. split; [done|].
    change (SlabAllocator.slabIdx (SlabAllocator.set_headers hm s) y) with (SlabAllocator.slabIdx s y).
    destruct (decide (SlabAllocator.slabIdx s y = SlabAllocator.slabIdx s x)) as [E|Hne]; [|by rewrite A].
    by rewrite E, B, <- E.
Qed.

(** The classes other than the [i]-th do not notice what happens to a slab
    they do not have. *)
Lemma classes_frame s s' acs lives (i : nat) pid x :
  classes_ok s acs lives -> sa_wf s' -> slab_frame x s s' -> SlabAllocator.isValidSlab s' x = true ->
  (forall (j : nat) c, acs !! j = Some c -> j <> i -> ~ slab_of c x /\
     AllocationClass.poolId_ c = pid /\ AllocationClass.classId_ c = Z.of_nat j) ->
  (poolId (SlabAllocator.header s' (SlabAllocator.slabIdx s x)) = pid ->
   classId (SlabAllocator.header s' (SlabAllocator.slabIdx s x)) = Z.of_nat i \/
   classId (SlabAllocator.header s' (SlabAllocator.slabIdx s x)) = kInvalidClassId) ->
  forall (j : nat) c L, j <> i -> acs !! j = Some c -> lives !! j = Some L -> ac_inv (mkACState s' c) [] L.
Proof.
  intros Hok Hwf (Hst & Hv & Hh) Hvx Hno Hx j c L Hne Hj HL. destruct (Hno j c Hj Hne) as (Hn & Hp & Hc).
  pose proof (Hok j c L Hj HL) as Hinv. eapply (ac_frame_other s s' c [] L x); try done.
  - intros y Hy. split; [by apply Hv|]. intros Hvy. apply Hh. intros He.
    apply Hy. apply (sa_slabIdx_inj s'); [done|by rewrite Hv|done|].
    unfold SlabAllocator.slabIdx in *. by rewrite Hst.
  - intros _ [H1 H2]. rewrite Hp in H1. destruct (Hx H1) as [H3|H3]; rewrite H3, Hc in H2;
      [by apply Nat2Z.inj in H2|unfold kInvalidClassId in H2; lia].
Qed.

(** A slab of the [i]-th class or on its way is in no other class. *)
Lemma pool_not_other st own lives hold (i j : nat) c L cj Lj x :
  pool_inv st own lives hold -> ac_ (pool st) !! i = Some c -> lives !! i = Some L ->
  ac_ (pool st) !! j = Some cj -> lives !! j = Some Lj -> j <> i ->
  x ∈ slabs_list c ++ hold -> ~ slab_of cj x.
Proof.
  intros Hinv Hi HL Hj HLj Hne Hx Hxj.
  destruct (pl_class _ _ _ _ Hinv i c L Hi HL) as (Ha & Hci & _).
  destruct (pl_class _ _ _ _ Hinv j cj Lj Hj HLj) as (Haj & Hcj & _).
  destruct (ai_slab _ _ _ Haj x Hxj) as (_ & _ & H1 & _).
  apply elem_of_app in Hx as [Hx%slabs_list_elem|Hx].
  - destruct (ai_slab _ _ _ Ha x Hx) as (_ & _ & H2 & _). unfold hdr in *. cbn in *. apply Hne. lia.
  - destruct (pl_free _ _ _ _ Hinv x) as [H2 _]; [set_solver|]. unfold hdr in H1. cbn in H1.
    rewrite H2, Hcj in H1. unfold kInvalidClassId in H1. lia.
Qed.

Lemma pool_mem_valid st own lives hold (i : nat) c x :
  pool_inv st own lives hold -> ac_ (pool st) !! i = Some c -> x ∈ slabs_list c ++ hold ->
  own !! x = Some (id_ (pool st)) /\ SlabAllocator.isValidSlab (slabAllocator_ st) x = true.
Proof.
  intros Hinv Hi Hx. assert (Ho : own !! x = Some (id_ (pool st))).
  { apply (pl_own _ _ _ _ Hinv). apply elem_of_app in Hx as [Hx|Hx]; [|set_solver].
    apply elem_of_app. right. apply pool_slabs_elem. exists i, c. split; [done|]. by apply slabs_list_elem. }
  split; [done|]. by eapply pool_owned_valid.
Qed.

Lemma pool_others st own lives hold (i : nat) c L s' c' L' hold' x :
  pool_inv st own lives hold -> ac_ (pool st) !! i = Some c -> lives !! i = Some L ->
  ac_inv (mkACState s' c') [] L' -> AllocationClass.classId_ c' = AllocationClass.classId_ c ->
  slabs_list c' ++ hold' ≡ₚ slabs_list c ++ hold ->
  (s' = slabAllocator_ st /\ hold' = hold \/
   hdr_only x (slabAllocator_ st) s' /\ x ∈ slabs_list c ++ hold /\
   (forall y, y ∈ hold' -> y ∈ hold \/ y = x) /\
   (x ∈ hold' -> classId (SlabAllocator.header s' (SlabAllocator.slabIdx (slabAllocator_ st) x)) =
      kInvalidClassId /\
      isMarkedForRelease (SlabAllocator.header s' (SlabAllocator.slabIdx (slabAllocator_ st) x)) = false)) ->
  forall (j : nat) cj Lj, j <> i -> ac_ (pool st) !! j = Some cj -> lives !! j = Some Lj ->
    ac_inv (mkACState s' cj) [] Lj.
Proof.
  intros Hinv Hi HL Hinv' Hcid Hperm Hs j cj Lj Hne Hj HLj.
  pose proof (pl_class _ _ _ _ Hinv i c L Hi HL) as (Hac & Hci & Hpi & Hsi).
  destruct Hs as [[-> _]|(Hh & Hx & _ & Hxh)]; [by apply (pl_class _ _ _ _ Hinv j cj Lj)|].
  destruct (pool_mem_valid _ _ _ _ _ _ _ Hinv Hi Hx) as [Ho Hv].
  apply (classes_frame (slabAllocator_ st) s' (ac_ (pool st)) lives i (id_ (pool st)) x) with (j := j); try done.
  - intros k ck Lk Hk HLk. by apply (pl_class _ _ _ _ Hinv k ck Lk).
  - apply Hinv'.
  - by apply hdr_only_slab_frame.
  - by destruct Hh as ([hm ->] & _).
  - intros k ck Hk Hnk. destruct (lookup_lt_is_Some_2 lives k) as [Lk HLk].
    { rewrite (pl_len _ _ _ _ Hinv). by eapply lookup_lt_Some. }
    destruct (pl_class _ _ _ _ Hinv k ck Lk Hk HLk) as (_ & H1 & H2 & _). split_and!; try done.
    by apply (pool_not_other st own lives hold i k c L ck Lk).
  - intros _. destruct (decide (x ∈ hold')) as [Hin|Hin]; [right; by apply Hxh|left].
    assert (Hxc : slab_of c' x). { apply slabs_list_elem. rewrite <- Hperm in Hx. set_solver. }
    destruct (ai_slab _ _ _ Hinv' x Hxc) as (_ & _ & H1 & _). unfold hdr in H1. cbn in H1.
    replace (SlabAllocator.slabIdx s' x) with (SlabAllocator.slabIdx (slabAllocator_ st) x) in H1; [congruence|].
    by destruct Hh as ([hm ->] & _).
Qed.

(** The slabs outside the classes keep headers without a class. *)
Lemma pool_free_headers st own lives hold (i : nat) c L s' hold' x :
  pool_inv st own lives hold -> ac_ (pool st) !! i = Some c -> lives !! i = Some L ->
  (s' = slabAllocator_ st /\ hold' = hold \/
   hdr_only x (slabAllocator_ st) s' /\ x ∈ slabs_list c ++ hold /\
   (forall y, y ∈ hold' -> y ∈ hold \/ y = x) /\
   (x ∈ hold' -> classId (SlabAllocator.header s' (SlabAllocator.slabIdx (slabAllocator_ st) x)) =
      kInvalidClassId /\
      isMarkedForRelease (SlabAllocator.header s' (SlabAllocator.slabIdx (slabAllocator_ st) x)) = false)) ->
  forall y, y ∈ freeSlabs_ (pool st) ++ hold' ->
    classId (SlabAllocator.header s' (SlabAllocator.slabIdx s' y)) = kInvalidClassId /\
    isMarkedForRelease (SlabAllocator.header s' (SlabAllocator.slabIdx s' y)) = false.
Proof.
  intros Hinv Hi HL [[-> ->]|(Hh & Hx & Hsub & Hxh)] y Hy; [by apply (pl_free _ _ _ _ Hinv)|].
  assert (Hidx : forall z, SlabAllocator.slabIdx s' z = SlabAllocator.slabIdx (slabAllocator_ st) z)
    by (by destruct Hh as ([hm ->] & _)).
  rewrite Hidx. destruct (decide (y = x)) as [->|Hne].
  - apply Hxh. apply elem_of_app in Hy as [Hy|]; [|done]. exfalso.
    pose proof (pl_nodup _ _ _ _ Hinv) as Hnd. destruct (pool_slabs_update (ac_ (pool st)) i c c Hi) as (rest & Hp & _).
    rewrite Hp in Hnd. apply NoDup_app in Hnd as ((_ & Hd & _)%NoDup_app & Hd' & _). set_solver.
  - assert (Hy' : y ∈ freeSlabs_ (pool st) ++ hold) by (specialize (Hsub y); set_solver).
    destruct (pool_mem_valid _ _ _ _ _ _ _ Hinv Hi Hx) as [_ Hvx].
    assert (Hvy : SlabAllocator.isValidSlab (slabAllocator_ st) y = true).
    { eapply pool_owned_valid; [done|]. apply (pl_own _ _ _ _ Hinv). set_solver. }
    destruct Hh as (_ & A & _). rewrite A; [by apply (pl_free _ _ _ _ Hinv)|].
    intros He. apply Hne. eapply (sa_slabIdx_inj (slabAllocator_ st)); try done.
    apply (inv_wf _ _ (pl_sa _ _ _ _ Hinv)).
Qed.

(** Writing the header of a slab of the pool. *)
Lemma hdr_only_eff id x s s' own :
  sa_inv s own -> own !! x = Some id -> hdr_only x s s' -> pool_eff id s own s' own.
Proof.
  intros Hsa Ho ([hm ->] & A & B). split_and!; try done.
  - intros y j Hj Hy. apply A. intros He. apply Hj.
    assert (y = x); [|congruence].
    eapply (sa_slabIdx_inj s); [apply Hsa|eapply sa_owned_valid; [done|by eapply elem_of_dom_2]..|done].
  - intros y Hv Hy. right. split_and!; try done. f_equal. apply A. intros He.
    assert (y = x); [|congruence].
    eapply (sa_slabIdx_inj s); [apply Hsa|done|eapply sa_owned_valid; [done|by eapply elem_of_dom_2]|done].
Qed.

(** A slab that comes to the pool or leaves it. *)
Lemma slab_frame_eff id x s s' own own' :
  sa_inv s own -> sa_inv s' own' -> slab_frame x s s' -> SlabAllocator.isValidSlab s' x = true ->
  (forall y, y <> x -> own' !! y = own !! y) ->
  (own !! x = None \/ own !! x = Some id) ->
  (own' !! x = Some id \/
   own' !! x = None /\ poolId (SlabAllocator.header s' (SlabAllocator.slabIdx s x)) = kInvalidPoolId) ->
  pool_eff id s own s' own'.
Proof.
  intros Hsa Hsa' (Hst & Hv & Hhd) Hvx Hown Hx Hx'.
  assert (Hne : forall y, SlabAllocator.isValidSlab s' y = true -> y <> x ->
    SlabAllocator.slabIdx s y <> SlabAllocator.slabIdx s x).
  { intros y Hvy Hyx He. apply Hyx. apply (sa_slabIdx_inj s'); [apply Hsa'|done|done|].
    unfold SlabAllocator.slabIdx in *. by rewrite Hst. }
  split_and!; try done.
  - intros y j Hj. destruct (decide (y = x)) as [->|Hyx]; [|by rewrite Hown].
    split; intros Hy; exfalso; destruct Hx as [Hx|Hx], Hx' as [Hx'|[Hx' _]]; congruence.
  - intros y j Hj Hy. assert (Hyx : y <> x) by (intros ->; destruct Hx; congruence).
    apply Hhd, Hne; [|done]. rewrite Hv by done. eapply sa_owned_valid; [done|by eapply elem_of_dom_2].
  - intros y Hvy Hy. destruct (decide (y = x)) as [->|Hyx].
    + left. destruct Hx' as [Hx'|[_ Hx']]; [congruence|done].
    + right. rewrite Hv in Hvy by done. split_and!; [done|by rewrite <- Hown|]. f_equal. apply Hhd, Hne; [|done].
      by rewrite Hv.
Qed.

(** The pool after an operation on its [i]-th class that changes the number of
    allocations held by [d]. *)
Definition with_class (s : SlabAllocator.SlabAllocator) (i : nat) (c : AC) (bytes : Z) st : PoolState :=
  mkPoolState s (set_currAllocSize (u64 (currAllocSize_ (pool st) + bytes))
    (set_ac (<[i := c]> (ac_ (pool st))) (pool st))).

(** An operation on one class, which may write the header of one slab [x] of
    the class or of [hold] and move it between the two. *)
Lemma pool_class_step st own lives hold (i : nat) c L s' c' L' hold' x bytes :
  pool_inv st own lives hold -> ac_ (pool st) !! i = Some c -> lives !! i = Some L ->
  ac_inv (mkACState s' c') [] L' ->
  same_class (mkACState (slabAllocator_ st) c) (mkACState s' c') ->
  bytes = allocationSize_ c * (Z.of_nat (size L') - Z.of_nat (size L)) ->
  slabs_list c' ++ hold' ≡ₚ slabs_list c ++ hold ->
  (s' = slabAllocator_ st /\ hold' = hold \/
   hdr_only x (slabAllocator_ st) s' /\ x ∈ slabs_list c ++ hold /\
   (forall y, y ∈ hold' -> y ∈ hold \/ y = x) /\
   (x ∈ hold' -> classId (SlabAllocator.header s' (SlabAllocator.slabIdx (slabAllocator_ st) x)) =
      kInvalidClassId /\
      isMarkedForRelease (SlabAllocator.header s' (SlabAllocator.slabIdx (slabAllocator_ st) x)) = false)) ->
  pool_inv (with_class s' i c' bytes st) own (<[i := L']> lives) hold'.
Proof.
  intros Hinv Hi HL Hinv' (Hsz & Hcid & Hpid & Hst) Hbytes Hperm Hs. cbn in Hsz, Hcid, Hpid, Hst.
  pose proof (pl_class _ _ _ _ Hinv i c L Hi HL) as (Hac & Hci & Hpi & Hsi).
  destruct (pool_slabs_update (ac_ (pool st)) i c c' Hi) as (rest & Hp1 & Hp2).
  assert (Hpp : (freeSlabs_ (pool st) ++ hold') ++ pool_slabs (<[i:=c']> (ac_ (pool st))) ≡ₚ
    (freeSlabs_ (pool st) ++ hold) ++ pool_slabs (ac_ (pool st))).
  { rewrite Hp1, Hp2. transitivity (freeSlabs_ (pool st) ++ (slabs_list c' ++ hold') ++ rest);
      [by solve_Permutation|]. rewrite Hperm. by solve_Permutation. }
  pose proof (alloc_bytes_update (ac_ (pool st)) lives i c c' L L' Hi HL Hsz) as Hab.
  assert (Hcl : classes_ok s' (<[i:=c']> (ac_ (pool st))) (<[i:=L']> lives)).
  { intros j cj Lj Hj HLj. destruct (decide (j = i)) as [->|Hne].
    - rewrite list_lookup_insert_eq in Hj by (by eapply lookup_lt_Some).
      rewrite list_lookup_insert_eq in HLj by (by eapply lookup_lt_Some). congruence.
    - rewrite list_lookup_insert_ne in Hj by done. rewrite list_lookup_insert_ne in HLj by done.
      apply (pool_others st own lives hold i c L s' c' L' hold' x Hinv Hi HL Hinv' Hcid Hperm Hs j cj Lj Hne Hj HLj). }
  split; cbn [slabAllocator_ pool with_class set_currAllocSize set_ac id_ ac_ acSizes_ freeSlabs_
    currSlabAllocSize_ currAllocSize_].
  - destruct Hs as [[-> _]|[Hh _]]; [apply Hinv|eapply hdr_only_sa_inv; [done|apply Hinv]].
  - apply Hinv.
  - rewrite !length_insert. apply Hinv.
  - intros j cj Lj Hj HLj. split; [by apply (Hcl j)|]. destruct (decide (j = i)) as [->|Hne].
    + rewrite list_lookup_insert_eq in Hj by (by eapply lookup_lt_Some). injection Hj as <-.
      split_and!; congruence.
    + rewrite list_lookup_insert_ne in Hj by done. rewrite list_lookup_insert_ne in HLj by done. by apply (pl_class _ _ _ _ Hinv j cj Lj).
  - intros y. rewrite Hpp. apply Hinv.
  - rewrite Hpp. apply Hinv.
  - apply (pool_free_headers st own lives hold i c L s' hold' x Hinv Hi HL). tauto.
  - rewrite (pl_slabsize _ _ _ _ Hinv). do 4 f_equal. apply Permutation_length in Hpp.
    rewrite !length_app in Hpp. lia.
  - rewrite Hab, Hbytes, (pl_allocsize _ _ _ _ Hinv). apply u64_small. unfold is_u64. rewrite <- Hab.
    destruct (alloc_bytes_bound s' (<[i:=c']> (ac_ (pool st))) (<[i:=L']> lives)) as [H0 H1]; [|done|].
    + rewrite !length_insert. apply Hinv.
    + pose proof (pool_count _ _ _ _ Hinv) as Hc. apply Permutation_length in Hpp.
      rewrite length_app in Hpp. rewrite <- Hpp in Hc. assert (kSize = 4194304) by done. lia.
  - destruct (pl_sizes _ _ _ _ Hinv) as (H1 & H2 & H3). rewrite length_insert. split_and!; try done.
    intros He%(f_equal length). rewrite length_insert in He. by destruct (ac_ (pool st)).
  - destruct Hs as [[-> _]|(Hh & Hx & _)]; [apply Hinv|]. eapply pool_eff_trans; [apply Hinv|].
    eapply hdr_only_eff; [apply Hinv| |done]. by eapply pool_mem_valid.
Qed.

(** ** Running class operations in a pool *)

Lemma onClass_run {A} st (i : nat) c (m : M ACState A) r (st1 : ACState) :
  ac_ (pool st) !! i = Some c -> m (mkACState (slabAllocator_ st) c) = (r, st1) ->
  onClass (Z.of_nat i) m st =
  (r, mkPoolState (AllocationClass.slabAlloc_ st1)
        (set_ac (<[i := AllocationClass.self st1]> (ac_ (pool st))) (pool st))).
Proof. intros Hi Hm. unfold onClass. rewrite Nat2Z.id, Hi, Hm. done. Qed.

Lemma pool_bytes_u64 st own lives hold : pool_inv st own lives hold -> is_u64 (currAllocSize_ (pool st)).
Proof.
  intros Hinv. rewrite (pl_allocsize _ _ _ _ Hinv). unfold is_u64.
  destruct (alloc_bytes_bound (slabAllocator_ st) (ac_ (pool st)) lives) as [H0 H1].
  - apply Hinv.
  - intros i c L Hi HL. by apply (pl_class _ _ _ _ Hinv i c L).
  - pose proof (pool_count _ _ _ _ Hinv) as Hc. rewrite length_app in Hc.
    assert (kSize = 4194304) by done. lia.
Qed.

Lemma with_class_zero s' i c' st :
  is_u64 (currAllocSize_ (pool st)) ->
  mkPoolState s' (set_ac (<[i := c']> (ac_ (pool st))) (pool st)) = with_class s' i c' 0 st.
Proof.
  intros Hu. unfold with_class. rewrite Z.add_0_r, u64_small by done. by destruct (pool st).
Qed.

Lemma slabs_list_same (st0 st1 : ACState) off off' live live' :
  ac_inv st0 off live -> ac_inv st1 off' live' ->
  (forall y, slab_of (AllocationClass.self st1) y <-> slab_of (AllocationClass.self st0) y) ->
  slabs_list (AllocationClass.self st1) ≡ₚ slabs_list (AllocationClass.self st0).
Proof.
  intros H0 H1 Hiff. apply NoDup_Permutation; [by eapply slabs_list_NoDup..|].
  intros y. by rewrite !slabs_list_elem.
Qed.

(** An attempt to allocate from the [i]-th class. *)
Lemma pool_try_allocate st own lives hold (i : nat) c L :
  pool_inv st own lives hold -> ac_ (pool st) !! i = Some c -> lives !! i = Some L ->
  exists r s' c', onClass (Z.of_nat i) AllocationClass.allocate st =
      (Ok r, mkPoolState s' (set_ac (<[i := c']> (ac_ (pool st))) (pool st))) /\
    s' = slabAllocator_ st /\ allocationSize_ c' = allocationSize_ c /\
    (r = 0 /\ pool_inv (with_class s' i c' 0 st) own lives hold /\
       AllocationClass.freedAllocations_ c = [] /\ AllocationClass.freeSlabs_ c = [] /\
       AllocationClass.canAllocateFromCurrentSlabLocked c = false \/
     0 < r /\ r ∉ L /\
       pool_inv (with_class s' i c' (allocationSize_ c) st) own (<[i := {[ r ]} ∪ L]> lives) hold).
Proof.
  intros Hinv Hi HL. destruct (pl_class _ _ _ _ Hinv i c L Hi HL) as (Hac & _).
  destruct (ac_allocate _ [] L Hac) as (r & st1 & Hrun & Hrely & Hres).
  pose proof (allocate_frame (mkACState (slabAllocator_ st) c)) as [Hsa Hsl]. unfold state_of in Hsa, Hsl.
  rewrite Hrun in Hsa, Hsl. cbn in Hsa, Hsl. destruct (Hrely 0) as [Hc _].
  exists r, (AllocationClass.slabAlloc_ st1), (AllocationClass.self st1).
  split; [by apply (onClass_run _ _ c)|]. split; [done|]. split; [apply Hc|].
  assert (Heta : st1 = mkACState (AllocationClass.slabAlloc_ st1) (AllocationClass.self st1)) by (by destruct st1).
  rewrite Heta in Hc. destruct Hres as [(-> & Hinv1 & Hn)|(Hr & Hfresh & _ & Hinv1)]; [left|right].
  - split; [done|]. split; [|done].
    replace lives with (<[i:=L]> lives) by (by apply list_insert_id).
    eapply (pool_class_step st own lives hold i c L _ _ L hold 0 0); try done; [by rewrite <- Heta|lia| |by left].
    apply Permutation_app_tail. by apply (slabs_list_same (mkACState (slabAllocator_ st) c) st1 [] [] L L).
  - split_and!; try done.
    eapply (pool_class_step st own lives hold i c L _ _ ({[ r ]} ∪ L) hold 0); try done;
      [by rewrite <- Heta| | |by left].
    + rewrite size_union, size_singleton by set_solver. lia.
    + apply Permutation_app_tail.
      by apply (slabs_list_same (mkACState (slabAllocator_ st) c) st1 [] [] L ({[ r ]} ∪ L)).
Qed.

(** ** Taking a slab *)

(** The pool's limits, sizes and classes stay. *)
Definition same_pool st st' : Prop :=
  id_ (pool st') = id_ (pool st) /\ maxSize_ (pool st') = maxSize_ (pool st) /\
  acSizes_ (pool st') = acSizes_ (pool st) /\ ac_ (pool st') = ac_ (pool st) /\
  curSlabsAdvised_ (pool st') = curSlabsAdvised_ (pool st) /\
  currAllocSize_ (pool st') = currAllocSize_ (pool st).

Lemma pool_slabsize_u64 st own lives hold :
  pool_inv st own lives hold -> is_u64 (currSlabAllocSize_ (pool st)).
Proof. intros Hinv. rewrite (pl_slabsize _ _ _ _ Hinv). apply u64_range. Qed.

(** The count is exact when no slab of the free list was released. *)
Lemma pool_slabsize_exact st own lives hold :
  pool_inv st own lives hold -> base_lost = 0%nat ->
  currSlabAllocSize_ (pool st) = kSize * Z.of_nat (length hold + length (pool_slabs (ac_ (pool st)))) /\
  0 <= currSlabAllocSize_ (pool st) < 2 ^ 54.
Proof.
  intros Hinv Hl. rewrite (pl_slabsize _ _ _ _ Hinv), Hl. pose proof (pool_count _ _ _ _ Hinv) as Hc.
  rewrite !length_app in Hc. assert (kSize = 4194304) by done. rewrite u64_small by (unfold is_u64; lia). lia.
Qed.

(** One slab [x] outside the classes moves between the slab allocator, the
    free list and the slabs on their way. *)
Lemma pool_shift st own lives hold s' own' free' hold' x curr' :
  pool_inv st own lives hold -> sa_inv s' own' -> slab_frame x (slabAllocator_ st) s' ->
  SlabAllocator.isValidSlab s' x = true ->
  (forall y, y <> x -> own' !! y = own !! y) ->
  x ∉ pool_slabs (ac_ (pool st)) -> NoDup (free' ++ hold') ->
  (forall y, y <> x -> y ∈ free' ++ hold' <-> y ∈ freeSlabs_ (pool st) ++ hold) ->
  (own' !! x = Some (id_ (pool st)) <-> x ∈ free' ++ hold') ->
  (let h := SlabAllocator.header s' (SlabAllocator.slabIdx (slabAllocator_ st) x) in
   poolId h = id_ (pool st) -> classId h = kInvalidClassId /\ isMarkedForRelease h = false) ->
  curr' = u64 (kSize * (Z.of_nat (length hold' + length (pool_slabs (ac_ (pool st)))) - Z.of_nat base_lost)) ->
  (own !! x = None \/ own !! x = Some (id_ (pool st))) ->
  (own' !! x = Some (id_ (pool st)) \/ own' !! x = None /\
     poolId (SlabAllocator.header s' (SlabAllocator.slabIdx (slabAllocator_ st) x)) = kInvalidPoolId) ->
  pool_inv (mkPoolState s' (set_currSlabAllocSize curr' (set_freeSlabs free' (pool st)))) own' lives hold'.
Proof.
  intros Hinv Hsa Hfr Hxv Hown Hxn Hnd Hiff Hx Hh Hcurr Ho Ho'. cbv zeta in Hh.
  pose proof (slab_frame_eff _ _ _ _ _ _ (pl_sa _ _ _ _ Hinv) Hsa Hfr Hxv Hown Ho Ho') as Heff.
  destruct Hfr as (Hst & Hv & Hhd).
  assert (Hidx : forall z, SlabAllocator.slabIdx s' z = SlabAllocator.slabIdx (slabAllocator_ st) z).
  { intros z. unfold SlabAllocator.slabIdx. by rewrite Hst. }
  pose proof (inv_wf _ _ Hsa) as Hwf.
  assert (Hmem : forall y, y ∈ free' ++ hold' -> y ∉ pool_slabs (ac_ (pool st))).
  { intros y Hy Hp. destruct (decide (y = x)) as [->|Hne]; [done|]. apply Hiff in Hy; [|done].
    pose proof (pl_nodup _ _ _ _ Hinv) as (_ & Hd & _)%NoDup_app. by apply (Hd y). }
  split; cbn [slabAllocator_ pool id_ ac_ acSizes_ freeSlabs_ currSlabAllocSize_ currAllocSize_
    set_currSlabAllocSize set_freeSlabs]; try apply Hinv; try done.
  - intros j c L Hj HL. destruct (pl_class _ _ _ _ Hinv j c L Hj HL) as (Ha & H1).
    split; [|done]. assert (Hjl : j <> length (ac_ (pool st))) by (apply lookup_lt_Some in Hj; lia).
    apply (classes_frame (slabAllocator_ st) s' (ac_ (pool st)) lives
      (length (ac_ (pool st))) (id_ (pool st)) x) with (j := j); try done.
    + intros k ck Lk Hk HLk. by apply (pl_class _ _ _ _ Hinv k ck Lk).
    + intros k ck Hk Hnk. destruct (lookup_lt_is_Some_2 lives k) as [Lk HLk].
      { rewrite (pl_len _ _ _ _ Hinv). by eapply lookup_lt_Some. }
      destruct (pl_class _ _ _ _ Hinv k ck Lk Hk HLk) as (_ & H2 & H3 & _). split_and!; try done.
      intros Hsx. apply Hxn, pool_slabs_elem. eauto.
    + intros Hp. right. by apply Hh.
  - intros y. rewrite elem_of_app. destruct (decide (y = x)) as [->|Hne]; [rewrite Hx; tauto|].
    rewrite Hown, Hiff, <- elem_of_app by done. apply Hinv.
  - apply NoDup_app. split_and!; [done|done|].
    by pose proof (pl_nodup _ _ _ _ Hinv) as (_ & _ & ?)%NoDup_app.
  - intros y Hy. rewrite Hidx. destruct (decide (y = x)) as [->|Hne].
    { apply Hh. apply Hx in Hy. destruct (inv_own _ _ Hsa _ _ Hy) as [_ Hp]. by rewrite Hidx in Hp. }
    pose proof (proj1 (Hiff y Hne) Hy) as Hy'.
    rewrite Hhd; [by apply (pl_free _ _ _ _ Hinv)|]. intros He. apply Hne.
    apply (sa_slabIdx_inj s'); [done| |done|by rewrite !Hidx].
    rewrite Hv by done. eapply pool_owned_valid; [done|]. apply (pl_own _ _ _ _ Hinv). set_solver.
  - eapply pool_eff_trans; [apply Hinv|done].
Qed.

Lemma pool_hold_fresh st own lives x hold :
  pool_inv st own lives (x :: hold) ->
  x ∉ freeSlabs_ (pool st) ++ hold /\ x ∉ pool_slabs (ac_ (pool st)) /\
  NoDup (freeSlabs_ (pool st) ++ hold) /\ own !! x = Some (id_ (pool st)).
Proof.
  intros Hinv. pose proof (pl_nodup _ _ _ _ Hinv) as (H1 & H2 & _)%NoDup_app.
  assert (Hp : freeSlabs_ (pool st) ++ x :: hold ≡ₚ x :: (freeSlabs_ (pool st) ++ hold)) by by solve_Permutation.
  rewrite Hp in H1. apply NoDup_cons in H1 as [H1 H3]. split_and!; try done.
  - apply H2. set_solver.
  - apply (pl_own _ _ _ _ Hinv). set_solver.
Qed.

(** A slab nobody owned joins the slabs on their way. *)
Lemma pool_gain st own lives hold x s' :
  pool_inv st own lives hold -> own !! x = None ->
  sa_inv s' (<[x := id_ (pool st)]> own) -> slab_frame x (slabAllocator_ st) s' ->
  SlabAllocator.header s' (SlabAllocator.slabIdx (slabAllocator_ st) x) = newSlabHeader (id_ (pool st)) ->
  pool_inv (mkPoolState s' (set_currSlabAllocSize (u64 (currSlabAllocSize_ (pool st) + kSize)) (pool st)))
    (<[x := id_ (pool st)]> own) lives (x :: hold).
Proof.
  intros Hinv Hno Hsa Hf Hh. pose proof (pool_slabsize_u64 _ _ _ _ Hinv) as Hu.
  assert (Hxn : x ∉ (freeSlabs_ (pool st) ++ hold) ++ pool_slabs (ac_ (pool st))).
  { intros Hx%(pl_own _ _ _ _ Hinv). congruence. }
  assert (Hp : freeSlabs_ (pool st) ++ x :: hold ≡ₚ x :: (freeSlabs_ (pool st) ++ hold)) by by solve_Permutation.
  apply (pool_shift st own lives hold s' _ (freeSlabs_ (pool st)) (x :: hold) x); try done.
  - eapply sa_owned_valid; [done|]. rewrite dom_insert_L. set_solver.
  - intros y Hy. by rewrite lookup_insert_ne.
  - set_solver.
  - rewrite Hp. apply NoDup_cons. split; [set_solver|].
    by pose proof (pl_nodup _ _ _ _ Hinv) as (? & _)%NoDup_app.
  - set_solver.
  - rewrite lookup_insert_eq. set_solver.
  - cbv zeta. by rewrite Hh.
  - rewrite (pl_slabsize _ _ _ _ Hinv), u64_shift. cbn [length]. f_equal. lia.
  - by left.
  - left. apply lookup_insert_eq.
Qed.

(** The slab allocator found out that it has no slab left. *)
Lemma pool_sa_full st own lives hold :
  pool_inv st own lives hold ->
  sa_inv (SlabAllocator.set_canAllocate false (slabAllocator_ st)) own ->
  pool_inv (mkPoolState (SlabAllocator.set_canAllocate false (slabAllocator_ st)) (pool st)) own lives hold.
Proof.
  intros Hinv Hsa. split; cbn [slabAllocator_ pool]; try apply Hinv; try done.
  intros i c L Hi HL. destruct (pl_class _ _ _ _ Hinv i c L Hi HL) as (Ha & H1). split; [|done].
  destruct Ha. split; try done. apply (inv_wf _ _ Hsa).
Qed.

(** [getSlabLocked] gives a slab that is in no class, or none when the limit
    is reached or the slab allocator is exhausted. *)
Lemma pool_getSlab st own lives hold :
  pool_inv st own lives hold ->
  exists r st' own', getSlabLocked st = (Ok r, st') /\ same_pool st st' /\
    (r = 0 /\ pool_inv st' own lives hold /\ own' = own /\
       (allSlabsAllocated (pool st) = true \/
        freeSlabs_ (pool st) = [] /\ SlabAllocator.freeSlabs_ (slabAllocator_ st) = [] /\
        SlabAllocator.nextSlabAllocation_ (slabAllocator_ st) = SlabAllocator.getSlabMemoryEnd (slabAllocator_ st)) \/
     0 < r /\ allSlabsAllocated (pool st) = false /\ pool_inv st' own' lives (r :: hold) /\
       currSlabAllocSize_ (pool st') = u64 (currSlabAllocSize_ (pool st) + kSize)).
Proof.
  intros Hinv. unfold getSlabLocked, bind at 1, get. pose proof (pool_slabsize_u64 _ _ _ _ Hinv) as Hu.
  assert (HK : kSize = 4194304) by done.
  destruct (allSlabsAllocated (pool st)) eqn:Hall; [exists 0, st, own; split_and!; auto 10; done|].
  unfold bind at 1, addSlabAllocSize at 1, upd at 1, modify.
  destruct (last (freeSlabs_ (pool st))) as [x|] eqn:Hl.
  - pose proof (last_snoc_inv _ _ Hl) as Hsp. set (rest := removelast (freeSlabs_ (pool st))) in *.
    eexists x, _, own. split; [reflexivity|]. split; [done|]. right.
    assert (Ho : own !! x = Some (id_ (pool st))).
    { apply (pl_own _ _ _ _ Hinv). rewrite Hsp. set_solver. }
    pose proof (sa_valid_pos _ _ (inv_wf _ _ (pl_sa _ _ _ _ Hinv)) (pool_owned_valid _ _ _ _ _ Hinv Ho)).
    split_and!; [done|done| |done].
    assert (Hp : (rest ++ x :: hold) ++ pool_slabs (ac_ (pool st)) ≡ₚ
      (freeSlabs_ (pool st) ++ hold) ++ pool_slabs (ac_ (pool st))).
    { rewrite Hsp. by solve_Permutation. }
    pose proof Hinv as []. split; cbn; try done; fold rest.
    + intros y. rewrite Hp. apply Hinv.
    + by rewrite Hp.
    + intros y Hy. apply pl_free0. rewrite Hsp. set_solver.
    + rewrite pl_slabsize0, u64_shift. cbn [length]. f_equal. unfold pool_slabs in *. lia.
  - apply last_None in Hl.
    destruct (sa_make (slabAllocator_ st) own (id_ (pool st)) (pl_sa _ _ _ _ Hinv) (pl_id _ _ _ _ Hinv))
      as (r & s' & Hrun & Hsa & Hnew & H0).
    destruct (makeNewSlab_frame _ _ _ _ _ (pl_sa _ _ _ _ Hinv) Hrun) as [Hf0 Hf].
    unfold bind at 1, onSlabs. cbn [slabAllocator_ pool]. rewrite Hrun.
    destruct (Z.eqb_spec r 0) as [->|Hr].
    + eexists 0, _, own. split; [reflexivity|].
      assert (Hback : set_currSlabAllocSize (u64 (u64 (currSlabAllocSize_ (pool st) + kSize) + - kSize)) (pool st) = pool st).
      { rewrite u64_shift. replace (_ + _ + _) with (currSlabAllocSize_ (pool st)) by lia.
        rewrite u64_small by done. by destruct (pool st). }
      split; [done|]. left. destruct (H0 eq_refl) as [Hfr Hnx]. split; [done|]. split; [|by auto 10].
      change (pool_inv (mkPoolState s' (set_currSlabAllocSize
        (u64 (u64 (currSlabAllocSize_ (pool st) + kSize) + - kSize)) (pool st))) own lives hold).
      rewrite Hback. destruct (Hf0 eq_refl) as [->| ->]; [by destruct st|]. by apply pool_sa_full.
    + eexists r, _, (<[r := id_ (pool st)]> own). split; [reflexivity|]. split; [done|]. right.
      destruct (Hnew Hr) as [Hno Hv]. destruct (Hf Hr) as [Hfr Hh].
      assert (sa_wf s') as Hwf by apply (inv_wf _ _ Hsa).
      pose proof (sa_valid_pos _ _ Hwf Hv). split_and!; [done|done| |done].
      apply (pool_gain st own lives hold r s'); done.
Qed.

End base.
