(* ===== verification/MemoryPoolOps.v ===== *)
(** * Memory pool: its operations

    What allocating, freeing, resizing, and releasing and reclaiming slabs do
    to a consistent pool. *)

From S2P Require Import Prelude.
From S2P Require Import Slab.
From S2P Require SlabAllocator.
From S2P Require Import SlabAllocatorProofs.
From S2P Require AllocationClass.
From S2P Require Import AllocationClassProofs AllocationClassSpec AllocationClassClaims.
From S2P Require Import MemoryPool MemoryPoolLookup MemoryPoolFrame MemoryPoolProofs.
From Stdlib Require Import Sorting.Sorted.
From stdpp Require Import base tactics numbers gmap list.

#[local] Open Scope Z_scope.
#[local] Open Scope cachelib_scope.

Implicit Types (st : PoolState) (c : AC) (x y : Z).

Section base.
Context {base : Base}.

(** ** Fields the invariant does not mention *)

Lemma pool_inv_fields st st' own lives hold :
  pool_inv st own lives hold ->
  slabAllocator_ st' = slabAllocator_ st -> id_ (pool st') = id_ (pool st) ->
  freeSlabs_ (pool st') = freeSlabs_ (pool st) -> ac_ (pool st') = ac_ (pool st) ->
  acSizes_ (pool st') = acSizes_ (pool st) ->
  currSlabAllocSize_ (pool st') = currSlabAllocSize_ (pool st) ->
  currAllocSize_ (pool st') = currAllocSize_ (pool st) -> pool_inv st' own lives hold.
Proof.
  intros [] H1 H2 H3 H4 H5 H6 H7. by split; rewrite ?H1, ?H2, ?H3, ?H4, ?H5, ?H6, ?H7.
Qed.

(** ** Moving a slab into a class *)

Lemma pool_can_add st own lives x hold (i : nat) c L :
  pool_inv st own lives (x :: hold) -> ac_ (pool st) !! i = Some c -> lives !! i = Some L ->
  can_add (mkACState (slabAllocator_ st) c) x.
Proof.
  intros Hinv Hi HL. destruct (pool_hold_fresh _ _ _ _ _ Hinv) as (_ & Hn & _ & Ho).
  destruct (pl_class _ _ _ _ Hinv i c L Hi HL) as (_ & _ & Hp & _).
  destruct (pl_free _ _ _ _ Hinv x) as [Hc Hm]; [set_solver|].
  destruct (inv_own _ _ (pl_sa _ _ _ _ Hinv) x _ Ho) as [_ Hpo].
  split_and!; [by eapply pool_owned_valid|unfold hdr; cbn [AllocationClass.slabAlloc_ AllocationClass.self]; congruence|done|].
  intros Hs. apply Hn, pool_slabs_elem. eauto.
Qed.

Lemma perm_add (st0 st1 : ACState) off off' live live' x (hold : list Z) :
  ac_inv st0 off live -> ac_inv st1 off' live' ->
  (forall y, slab_of (AllocationClass.self st1) y <-> y = x \/ slab_of (AllocationClass.self st0) y) ->
  ~ slab_of (AllocationClass.self st0) x ->
  slabs_list (AllocationClass.self st1) ++ hold ≡ₚ slabs_list (AllocationClass.self st0) ++ x :: hold.
Proof.
  intros H0 H1 Hiff Hn. rewrite <- Permutation_middle. change (x :: slabs_list (AllocationClass.self st0) ++ hold) with
    ((x :: slabs_list (AllocationClass.self st0)) ++ hold). apply Permutation_app_tail.
  apply NoDup_Permutation; [by eapply slabs_list_NoDup| |].
  - apply NoDup_cons. split; [by rewrite slabs_list_elem|by eapply slabs_list_NoDup].
  - intros y. by rewrite elem_of_cons, !slabs_list_elem.
Qed.

Lemma ac_eta (st : ACState) : mkACState (AllocationClass.slabAlloc_ st) (AllocationClass.self st) = st.
Proof. by destruct st. Qed.

(** [addSlab] of a slab on its way. *)
Lemma pool_addSlab st own lives x hold (i : nat) c L :
  pool_inv st own lives (x :: hold) -> ac_ (pool st) !! i = Some c -> lives !! i = Some L ->
  exists (st1 : ACState), AllocationClass.addSlab x (mkACState (slabAllocator_ st) c) = (Ok tt, st1) /\
    onClass (Z.of_nat i) (AllocationClass.addSlab x) st =
      (Ok tt, with_class (AllocationClass.slabAlloc_ st1) i (AllocationClass.self st1) 0 st) /\
    pool_inv (with_class (AllocationClass.slabAlloc_ st1) i (AllocationClass.self st1) 0 st) own lives hold /\
    AllocationClass.freeSlabs_ (AllocationClass.self st1) <> [] /\
    same_class (mkACState (slabAllocator_ st) c) st1.
Proof.
  intros Hinv Hi HL. pose proof (pool_can_add _ _ _ _ _ _ _ _ Hinv Hi HL) as Hca.
  destruct (pl_class _ _ _ _ Hinv i c L Hi HL) as (Hac & _).
  destruct (ac_addSlab _ [] L x Hac Hca) as (st1 & Hrun & Hinv1 & Hrely & Hfs).
  destruct (addSlab_frame x _ (proj1 Hca)) as [Hh Hsl]. unfold state_of in Hh, Hsl. rewrite Hrun in Hh, Hsl.
  cbn [snd] in Hh, Hsl. exists st1. split; [done|]. split.
  { rewrite (onClass_run st i c _ _ _ Hi Hrun). f_equal. apply with_class_zero. by eapply pool_bytes_u64. }
  split; [|split; [rewrite Hfs; by intros [_ ?]%app_nil|apply (Hrely 0)]].
  destruct (Hrely 0) as [Hsc _].
  replace lives with (<[i:=L]> lives) by (by apply list_insert_id).
  apply (pool_class_step st own lives (x :: hold) i c L _ _ L hold x 0); rewrite ?ac_eta; try done.
  - lia.
  - apply (perm_add (mkACState (slabAllocator_ st) c) st1 [] [] L L x hold); try done. apply Hca.
  - right. split; [done|]. split; [set_solver|]. split; [set_solver|].
    intros Hx. exfalso. destruct (pool_hold_fresh _ _ _ _ _ Hinv) as (H & _). set_solver.
Qed.

(** [addSlabAndAllocate] hands out an allocation of the new slab. *)
Lemma pool_addSlabAndAllocate st own lives x hold (i : nat) c L :
  pool_inv st own lives (x :: hold) -> ac_ (pool st) !! i = Some c -> lives !! i = Some L ->
  exists r s' c', onClass (Z.of_nat i) (AllocationClass.addSlabAndAllocate x) st =
      (Ok r, mkPoolState s' (set_ac (<[i := c']> (ac_ (pool st))) (pool st))) /\
    0 < r /\ r ∉ L /\
    pool_inv (with_class s' i c' (allocationSize_ c) st) own (<[i := {[ r ]} ∪ L]> lives) hold.
Proof.
  intros Hinv Hi HL. destruct (pool_addSlab _ _ _ _ _ _ _ _ Hinv Hi HL)
    as (st1 & Hadd & _ & Hinv1 & Hfs & Hsc).
  set (pst1 := with_class _ _ _ _ _) in Hinv1.
  assert (Hi1 : ac_ (pool pst1) !! i = Some (AllocationClass.self st1)).
  { cbn. apply list_lookup_insert_eq. by eapply lookup_lt_Some. }
  destruct (pl_class _ _ _ _ Hinv1 i _ L Hi1 HL) as (Hac1 & _). cbn in Hac1. rewrite ac_eta in Hac1.
  destruct (ac_allocateLocked st1 [] L Hac1) as (r & st2 & Hrun & Hrely & Hres).
  pose proof (allocateLocked_frame st1) as [Hsa Hsl]. unfold state_of in Hsa, Hsl.
  rewrite Hrun in Hsa, Hsl. cbn in Hsa, Hsl.
  assert (Hrun2 : AllocationClass.addSlabAndAllocate x (mkACState (slabAllocator_ st) c) = (Ok r, st2)).
  { unfold AllocationClass.addSlab in Hadd. unfold AllocationClass.addSlabAndAllocate, bind. by rewrite Hadd. }
  exists r, (AllocationClass.slabAlloc_ st2), (AllocationClass.self st2).
  split; [by apply (onClass_run st i c)|]. destruct Hres as [(_ & _ & _ & Hnil & _)|(Hr & Hfresh & _ & Hinv2)].
  { done. }
  split; [done|]. split; [done|]. destruct Hsc as (Hsz & _). cbn in Hsz.
  destruct (Hrely 0) as [Hsc2 _].
  assert (Hstep : pool_inv (with_class (AllocationClass.slabAlloc_ st2) i (AllocationClass.self st2)
    (allocationSize_ c) pst1) own (<[i := {[ r ]} ∪ L]> lives) hold).
  { apply (pool_class_step pst1 own lives hold i (AllocationClass.self st1) L _ _ ({[ r ]} ∪ L) hold 0 _);
      unfold pst1; cbn [with_class slabAllocator_]; rewrite ?ac_eta; try done.
    - rewrite Hsz, size_union, size_singleton by set_solver. lia.
    - apply Permutation_app_tail. by apply (slabs_list_same st1 st2 [] [] L ({[ r ]} ∪ L)).
    - left. by rewrite Hsa. }
  eapply pool_inv_fields; [exact Hstep|..]; try done; cbn; unfold pst1; cbn.
  - by rewrite list_insert_insert_eq.
  - f_equal. rewrite Z.add_0_r, u64_small; [done|by eapply pool_bytes_u64].
Qed.

(** ** Allocating *)

Lemma pool_lives st own lives hold (i : nat) c :
  pool_inv st own lives hold -> ac_ (pool st) !! i = Some c -> exists L, lives !! i = Some L.
Proof.
  intros Hinv Hi. apply lookup_lt_is_Some_2. rewrite (pl_len _ _ _ _ Hinv). by eapply lookup_lt_Some.
Qed.

Lemma pool_sizes_ne st own lives hold : pool_inv st own lives hold -> acSizes_ (pool st) <> [].
Proof. intros Hinv He. destruct (pl_sizes _ _ _ _ Hinv) as (H & Hn & _). rewrite He in H. by destruct (ac_ (pool st)). Qed.

(** The class that serves a size. *)
Lemma pool_class_of_size st own lives hold size :
  pool_inv st own lives hold ->
  match first_fit (acSizes_ (pool st)) size with
  | Some i => exists c L, ac_ (pool st) !! i = Some c /\ lives !! i = Some L /\ size <= allocationSize_ c
  | None => True
  end.
Proof.
  intros Hinv. destruct (pl_sizes _ _ _ _ Hinv) as (Hlen & _ & Hs).
  destruct (first_fit (acSizes_ (pool st)) size) as [i|] eqn:Hi; [|done].
  pose proof (first_fit_splits _ size Hs) as (Hle & _ & Hge). rewrite Hi in *. cbn in *.
  assert (Hlt : (i < length (acSizes_ (pool st)))%nat).
  { clear -Hi. revert i Hi. induction (acSizes_ (pool st)) as [|a l IH]; intros i; cbn; [done|].
    destruct (size <=? a); [intros [= <-]; lia|]. destruct (first_fit l size) as [j|]; [|done].
    intros [= <-]. specialize (IH j eq_refl). lia. }
  destruct (lookup_lt_is_Some_2 (ac_ (pool st)) i) as [c Hc]; [lia|].
  destruct (pool_lives _ _ _ _ _ _ Hinv Hc) as [L HL]. exists c, L. split_and!; try done.
  destruct (pl_class _ _ _ _ Hinv i c L Hc HL) as (_ & _ & _ & Hsz). by apply (Hge i).
Qed.

(** The attempt with the pool's lock held, after the other threads ran. *)
Definition alloc_slow (cid allocSize : Z) : M PoolState Z :=
  let! alloc := onClass cid AllocationClass.allocate in
  if negb (alloc =? 0) then do! addAllocSize allocSize in ret alloc
  else
    let! slab := getSlabLocked in
    if slab =? 0 then ret 0
    else
      let! alloc := onClass cid (AllocationClass.addSlabAndAllocate slab) in
      do! addAllocSize allocSize in
      ret alloc.

(** What an attempt to allocate from the [i]-th class leaves. *)
Definition alloc_result st (lives : list (gset Z)) (i : nat) r st' lives' : Prop :=
  maxSize_ (pool st') = maxSize_ (pool st) /\ curSlabsAdvised_ (pool st') = curSlabsAdvised_ (pool st) /\
  (currSlabAllocSize_ (pool st') = currSlabAllocSize_ (pool st) \/
   allSlabsAllocated (pool st) = false /\
   currSlabAllocSize_ (pool st') = u64 (currSlabAllocSize_ (pool st) + kSize)) /\
  (r = 0 /\ lives' = lives /\ currSlabAllocSize_ (pool st') = currSlabAllocSize_ (pool st) \/
   0 < r /\ exists L : gset Z, lives !! i = Some L /\ r ∉ L /\ lives' = <[i := {[ r ]} ∪ L]> lives).

Lemma pool_alloc_slow st own lives (i : nat) c L :
  pool_inv st own lives [] -> ac_ (pool st) !! i = Some c -> lives !! i = Some L ->
  exists r st' own' lives', alloc_slow (Z.of_nat i) (allocationSize_ c) st = (Ok r, st') /\
    pool_inv st' own' lives' [] /\ alloc_result st lives i r st' lives'.
Proof.
  intros Hinv Hi HL. unfold alloc_slow, bind at 1.
  destruct (pool_try_allocate st own lives [] i c L Hinv Hi HL) as (r & s1 & c1 & -> & -> & Hsz & Hres).
  destruct Hres as [(-> & Hinv1 & _)|(Hr & Hfr & Hinv1)]; cbn [negb Z.eqb].
  2: { destruct (Z.eqb_spec r 0) as [|_]; [lia|]. cbn [negb]. eexists r, _, own, _.
       split; [reflexivity|]. split; [exact Hinv1|].
       split_and!; [done|done|by left|]. right. eauto. }
  rewrite with_class_zero by (by eapply pool_bytes_u64). set (st1 := with_class _ _ _ _ _) in *.
  unfold bind at 1. destruct (pool_getSlab st1 own lives [] Hinv1) as (x & st2 & own' & -> & Hsame & Hx).
  destruct Hsame as (S1 & S2 & S3 & S4 & S5 & S6).
  destruct Hx as [(-> & Hinv2 & -> & _)|(Hx & Hall & Hinv2 & Hcur)].
  - eexists 0, _, own, lives. split; [reflexivity|]. split; [done|].
    assert (Hc : currSlabAllocSize_ (pool st2) = currSlabAllocSize_ (pool st)).
    { rewrite (pl_slabsize _ _ _ _ Hinv2), S4, <- (pl_slabsize _ _ _ _ Hinv1). done. }
    split_and!; [done|done|by left|by left].
  - destruct (Z.eqb_spec x 0) as [|_]; [lia|].
    assert (Hi2 : ac_ (pool st2) !! i = Some c1).
    { rewrite S4. apply list_lookup_insert_eq. by eapply lookup_lt_Some. }
    destruct (pool_addSlabAndAllocate st2 own' lives x [] i c1 L Hinv2 Hi2 HL)
      as (r & s3 & c3 & Hrun & Hr & Hfr & Hinv3).
    unfold bind at 1. rewrite Hrun. rewrite <- Hsz. eexists r, _, own', _. split; [reflexivity|].
    split; [exact Hinv3|]. split_and!; [done|done|by right|]. right. eauto.
Qed.

(** What the other threads may do while the pool's lock is not held. *)
Definition pool_env (f : PoolState -> PoolState) (Φ Ψ : list (gset Z) -> Prop) : Prop :=
  forall st own lives, pool_inv st own lives [] -> Φ lives ->
  exists own' lives', pool_inv (f st) own' lives' [] /\ Ψ lives' /\
    acSizes_ (pool (f st)) = acSizes_ (pool st).

(** [allocate] of a size the pool serves: the first attempt or, after the
    other threads ran, the second. *)
Lemma pool_allocate st own lives f Φ Ψ size (i : nat) :
  pool_inv st own lives [] -> pool_env f Φ Ψ -> Φ lives -> size <> 0 ->
  first_fit (acSizes_ (pool st)) size = Some i ->
  exists r st' own' lives', allocate f size st = (Ok r, st') /\ pool_inv st' own' lives' [] /\
    (alloc_result st lives i r st' lives' \/
     exists st0 own1 lives1, pool_inv (f st0) own1 lives1 [] /\ Ψ lives1 /\
       alloc_result (f st0) lives1 i r st' lives').
Proof.
  intros Hinv Henv HΦ Hsize Hff. destruct (pl_sizes _ _ _ _ Hinv) as (_ & _ & Hs).
  pose proof (pool_class_of_size st own lives [] size Hinv) as Hc. rewrite Hff in Hc.
  destruct Hc as (c & L & Hi & HL & _). pose proof (pool_sizes_ne _ _ _ _ Hinv) as Hne.
  unfold allocate, bind at 1, get at 1, bind at 1, lift.
  rewrite (class_of_size _ size Hs Hne), Hff. destruct (Z.eqb_spec size 0) as [|_]; [done|].
  unfold bind at 1, classAt. rewrite Nat2Z.id, Hi. unfold bind at 1.
  destruct (pool_try_allocate st own lives [] i c L Hinv Hi HL) as (r & s1 & c1 & -> & -> & Hsz & Hres).
  destruct Hres as [(-> & Hinv1 & _)|(Hr & Hfr & Hinv1)]; cbn [negb Z.eqb].
  2: { destruct (Z.eqb_spec r 0) as [|_]; [lia|]. cbn [negb]. eexists r, _, own, _.
       split; [reflexivity|]. split; [exact Hinv1|]. left.
       split_and!; [done|done|by left|]. right. eauto. }
  rewrite with_class_zero by (by eapply pool_bytes_u64). set (st1 := with_class _ _ _ _ _) in *.
  unfold bind at 1, get. destruct (allSlabsAllocated (pool st1)).
  { eexists 0, _, own, lives. split; [reflexivity|]. split; [done|]. left.
    assert (currSlabAllocSize_ (pool st1) = currSlabAllocSize_ (pool st)) by done.
    split_and!; [done|done|by left|by left]. }
  unfold bind at 1, modify. destruct (Henv st1 own lives Hinv1 HΦ) as (own2 & lives2 & Hinv2 & HΨ & Hsz2).
  assert (Hlt : (i < length (ac_ (pool (f st1))))%nat).
  { destruct (pl_sizes _ _ _ _ Hinv2) as (H2 & _). destruct (pl_sizes _ _ _ _ Hinv1) as (H1 & _).
    rewrite <- H2, Hsz2, H1. cbn. rewrite length_insert. by eapply lookup_lt_Some. }
  destruct (lookup_lt_is_Some_2 _ _ Hlt) as [c2 Hi2]. destruct (pool_lives _ _ _ _ _ _ Hinv2 Hi2) as [L2 HL2].
  assert (Hsize2 : allocationSize_ c = allocationSize_ c2).
  { destruct (pl_class _ _ _ _ Hinv i c L Hi HL) as (_ & _ & _ & H1).
    destruct (pl_class _ _ _ _ Hinv2 i c2 L2 Hi2 HL2) as (_ & _ & _ & H2).
    rewrite Hsz2 in H2. cbn in H2. congruence. }
  destruct (pool_alloc_slow (f st1) own2 lives2 i c2 L2 Hinv2 Hi2 HL2) as (r & st' & own' & lives' & Hrun & Hinv' & Hres).
  exists r, st', own', lives'. split; [rewrite Hsize2; exact Hrun|]. split; [done|]. right. eauto 10.
Qed.

(** ** Freeing *)

(** An allocation that is held is found in its class. *)
Lemma pool_class_of_memory st own lives hold (i : nat) c L p :
  pool_inv st own lives hold -> ac_ (pool st) !! i = Some c -> lives !! i = Some L -> p ∈ L ->
  getAllocationClassId st p = Ok (Z.of_nat i).
Proof.
  intros Hinv Hi HL Hp. destruct (pl_class _ _ _ _ Hinv i c L Hi HL) as (Hac & Hci & Hpi & _).
  destruct (ai_place _ _ _ Hac p (or_introl Hp)) as (x & k & Hsl & _ & ->).
  pose proof (slot_slab _ _ _ Hsl) as Hx. destruct (ai_slab _ _ _ Hac x Hx) as (Hv & H1 & H2 & _).
  destruct (ac_addr _ x k (ai_wf _ _ _ Hac) (ai_size _ _ _ Hac) Hv (proj1 Hsl)) as (_ & Hh & _).
  unfold getAllocationClassId. cbn in Hh, H1, H2 |- *. rewrite Hh. unfold hdr in H1, H2. cbn in H1, H2.
  rewrite H1, H2, Hpi, Hci, Z.eqb_refl. cbn [negb].
  assert (i < length (ac_ (pool st)))%nat by (by eapply lookup_lt_Some).
  destruct (Z.eqb_spec (Z.of_nat i) kInvalidClassId) as [He|_]; [unfold kInvalidClassId in He; lia|].
  destruct (Z.ltb_spec (Z.of_nat i) 0); [lia|].
  destruct (Z.leb_spec (Z.of_nat (length (ac_ (pool st)))) (Z.of_nat i)); [lia|]. done.
Qed.

Lemma pool_free st own lives hold (i : nat) c L p :
  pool_inv st own lives hold -> ac_ (pool st) !! i = Some c -> lives !! i = Some L -> p ∈ L ->
  exists st', free p st = (Ok tt, st') /\ pool_inv st' own (<[i := L ∖ {[ p ]}]> lives) hold /\
    maxSize_ (pool st') = maxSize_ (pool st) /\ curSlabsAdvised_ (pool st') = curSlabsAdvised_ (pool st).
Proof.
  intros Hinv Hi HL Hp. destruct (pl_class _ _ _ _ Hinv i c L Hi HL) as (Hac & _).
  destruct (ac_free _ [] L p Hac Hp) as (st1 & Hrun & Hinv1 & Hrely).
  pose proof (free_frame p (mkACState (slabAllocator_ st) c)) as [Hsa Hsl]. unfold state_of in Hsa, Hsl.
  rewrite Hrun in Hsa, Hsl. cbn in Hsa, Hsl.
  unfold free, bind at 1, get, bind at 1, lift.
  rewrite (pool_class_of_memory _ _ _ _ _ _ _ _ Hinv Hi HL Hp). unfold bind at 1, classAt.
  rewrite Nat2Z.id, Hi. unfold bind at 1. rewrite (onClass_run st i c _ _ _ Hi Hrun).
  eexists. split; [reflexivity|]. split; [|done].
  apply (pool_class_step st own lives hold i c L (AllocationClass.slabAlloc_ st1) (AllocationClass.self st1)
    (L ∖ {[ p ]}) hold 0 _); rewrite ?ac_eta; try done.
  - apply (Hrely 0).
  - rewrite size_difference, size_singleton by set_solver.
    assert (1 <= size L)%nat.
    { destruct (size L) eqn:Hz; [|lia]. apply size_empty_inv in Hz. set_solver. }
    replace (Z.of_nat (size L - 1) - Z.of_nat (size L)) with (-1) by lia. lia.
  - apply Permutation_app_tail. by apply (slabs_list_same (mkACState (slabAllocator_ st) c) st1 [] [] L (L ∖ {[ p ]})).
  - left. by rewrite Hsa.
Qed.

(** ** Releasing *)

Lemma perm_drop (st0 st1 : ACState) off off' live live' x (hold : list Z) :
  ac_inv st0 off live -> ac_inv st1 off' live' ->
  (forall y, slab_of (AllocationClass.self st0) y <-> slab_of (AllocationClass.self st1) y \/ y = x) ->
  ~ slab_of (AllocationClass.self st1) x ->
  slabs_list (AllocationClass.self st1) ++ x :: hold ≡ₚ slabs_list (AllocationClass.self st0) ++ hold.
Proof.
  intros H0 H1 Hiff Hn. symmetry. eapply perm_add; try done. intros y. rewrite Hiff. tauto.
Qed.

(** A slab on its way leaves the pool. *)
Lemma pool_lose st own lives x hold s' :
  pool_inv st own lives (x :: hold) -> sa_inv s' (delete x own) -> slab_frame x (slabAllocator_ st) s' ->
  SlabAllocator.isValidSlab s' x = true ->
  poolId (SlabAllocator.header s' (SlabAllocator.slabIdx (slabAllocator_ st) x)) = kInvalidPoolId ->
  pool_inv (mkPoolState s' (set_currSlabAllocSize (u64 (currSlabAllocSize_ (pool st) + - kSize)) (pool st)))
    (delete x own) lives hold.
Proof.
  intros Hinv Hsa Hf Hv Hp. destruct (pool_hold_fresh _ _ _ _ _ Hinv) as (H1 & H2 & H3 & H4).
  apply (pool_shift st own lives (x :: hold) s' _ (freeSlabs_ (pool st)) hold x); try done.
  - intros y Hy. by rewrite lookup_delete_ne.
  - set_solver.
  - rewrite lookup_delete_eq. split; [done|]. set_solver.
  - cbv zeta. rewrite Hp. pose proof (pl_id _ _ _ _ Hinv). unfold kInvalidPoolId. lia.
  - rewrite (pl_slabsize _ _ _ _ Hinv), u64_shift. cbn [length]. f_equal. lia.
  - by right.
  - right. split; [apply lookup_delete_eq|done].
Qed.

(** A slab on its way goes to the pool's free list. *)
Lemma pool_park st own lives x hold s' :
  pool_inv st own lives (x :: hold) -> sa_inv s' own -> slab_frame x (slabAllocator_ st) s' ->
  SlabAllocator.isValidSlab s' x = true ->
  (let h := SlabAllocator.header (slabAllocator_ st) (SlabAllocator.slabIdx (slabAllocator_ st) x) in
   let h' := SlabAllocator.header s' (SlabAllocator.slabIdx (slabAllocator_ st) x) in
   classId h' = classId h /\ isMarkedForRelease h' = isMarkedForRelease h) ->
  pool_inv (mkPoolState s' (set_currSlabAllocSize (u64 (currSlabAllocSize_ (pool st) + - kSize))
    (set_freeSlabs (freeSlabs_ (pool st) ++ [x]) (pool st)))) own lives hold.
Proof.
  intros Hinv Hsa Hf Hv [Hc Hm]. destruct (pool_hold_fresh _ _ _ _ _ Hinv) as (H1 & H2 & H3 & H4).
  destruct (pl_free _ _ _ _ Hinv x) as [H5 H6]; [set_solver|].
  apply (pool_shift st own lives (x :: hold) s' _ (freeSlabs_ (pool st) ++ [x]) hold x); try done.
  - rewrite <- app_assoc. change ([x] ++ hold) with (x :: hold).
    by pose proof (pl_nodup _ _ _ _ Hinv) as (? & _)%NoDup_app.
  - set_solver.
  - split; [set_solver|done].
  - cbv zeta. by rewrite Hc, Hm.
  - rewrite (pl_slabsize _ _ _ _ Hinv), u64_shift. cbn [length]. f_equal. lia.
  - by right.
  - by left.
Qed.

(** Where [releaseSlab] puts a slab. *)
Definition released_to (madviseOk : bool) (mode : SlabReleaseMode) x (receiver : Z)
    st (own : gmap Z Z) st' (own' : gmap Z Z) : Prop :=
  match mode with
  | kResize => own' = delete x own /\ x ∈ SlabAllocator.freeSlabs_ (slabAllocator_ st')
  | kAdvise =>
      if madviseOk || SlabAllocator.pretendMadvise_ (slabAllocator_ st)
      then own' = delete x own /\ x ∈ SlabAllocator.advisedSlabs_ (slabAllocator_ st') /\
           curSlabsAdvised_ (pool st') = u64 (curSlabsAdvised_ (pool st) + 1)
      else own' = own /\ x ∈ freeSlabs_ (pool st')
  | kRebalance =>
      own' = own /\
      if receiver =? kInvalidClassId then x ∈ freeSlabs_ (pool st')
      else exists c, ac_ (pool st') !! Z.to_nat receiver = Some c /\ x ∈ AllocationClass.freeSlabs_ c
  end.

Definition valid_receiver (receiver : Z) st : Prop :=
  receiver = kInvalidClassId \/ 0 <= receiver < Z.of_nat (length (ac_ (pool st))).

Lemma pool_releaseSlab ok mode x z receiver st own lives hold :
  pool_inv st own lives (x :: hold) -> valid_receiver receiver st ->
  exists st' own', releaseSlab ok mode x z receiver st = (Ok tt, st') /\ pool_inv st' own' lives hold /\
    maxSize_ (pool st') = maxSize_ (pool st) /\ released_to ok mode x receiver st own st' own'.
Proof.
  intros Hinv Hrec. destruct (pool_hold_fresh _ _ _ _ _ Hinv) as (_ & _ & _ & Ho).
  assert (Hd : x ∈ dom own) by (by eapply elem_of_dom_2).
  pose proof (sa_owned_valid _ _ _ (pl_sa _ _ _ _ Hinv) Hd) as Hv.
  destruct mode; unfold releaseSlab, bind at 1, get.
  - destruct (sa_free _ _ _ (pl_sa _ _ _ _ Hinv) Hd) as (s' & Hrun & Hsa & Hfs & _).
    destruct (freeSlab_frame _ _ _ Hrun) as [Hf Hp]. unfold bind at 1, onSlabs. rewrite Hrun.
    eexists _, (delete x own). split; [reflexivity|].
    split; [|split; [done|split; [done|cbn; rewrite Hfs; set_solver]]].
    eapply pool_inv_fields; [apply (pool_lose _ _ _ _ _ s' Hinv Hsa Hf)|..]; try done.
    apply (inv_part _ _ Hsa). right. rewrite Hfs. set_solver.
  - unfold valid_receiver in Hrec. unfold bind at 1, onSlabs, lift, getAllocationClassFor, released_to. destruct (Z.eqb_spec receiver kInvalidClassId) as [->|Hne]; cbn [negb].
    + eexists _, own. split; [reflexivity|]. split; [|split; [done|split; [done|cbn; set_solver]]].
      eapply pool_inv_fields; [apply (pool_park _ _ _ _ _ (slabAllocator_ st) Hinv (pl_sa _ _ _ _ Hinv))|..]; try done.
    + destruct Hrec as [|Hrec]; [done|].
      destruct (lookup_lt_is_Some_2 (ac_ (pool st)) (Z.to_nat receiver)) as [c Hc]; [lia|].
      destruct (pool_lives _ _ _ _ _ _ Hinv Hc) as [L HL].
      destruct (pool_addSlab _ _ _ _ _ _ _ _ Hinv Hc HL) as (st1 & Hadd & Hrun & Hinv1 & _).
      destruct (ac_addSlab _ [] L x (proj1 (pl_class _ _ _ _ Hinv _ _ _ Hc HL))
        (pool_can_add _ _ _ _ _ _ _ _ Hinv Hc HL)) as (st2 & Hadd2 & _ & _ & Hfs).
      rewrite Hadd in Hadd2. injection Hadd2 as <-. rewrite Z2Nat.id in Hrun by lia.
      unfold bind at 1. destruct (Z.leb_spec 0 receiver); [|lia].
      destruct (Z.ltb_spec receiver (Z.of_nat (length (ac_ (pool st))))); [|lia]. cbn [andb].
      unfold classAt. rewrite Hc, Hrun. eexists _, own. split; [reflexivity|]. split; [|split; [done|split; [done|]]].
      * eapply pool_inv_fields; [exact Hinv1|..]; done.
      * exists (AllocationClass.self st1). rewrite Hfs. split; [|set_solver].
        apply list_lookup_insert_eq. by eapply lookup_lt_Some.
  - destruct (sa_advise _ _ _ ok (pl_sa _ _ _ _ Hinv) Hd) as (s' & Hrun & Hsa & Hres).
    destruct (adviseSlab_frame _ _ _ _ _ Hrun) as (Hf & Ht & Hfl). unfold bind at 1, onSlabs. rewrite Hrun.
    unfold released_to. destruct (ok || _).
    + destruct Hres as [Ha _]. eexists _, (delete x own). split; [reflexivity|].
      split; [|split; [done|split; [done|split; [cbn; rewrite Ha; set_solver|done]]]].
      eapply pool_inv_fields; [apply (pool_lose _ _ _ _ _ s' Hinv Hsa Hf)|..]; try done.
      * apply (inv_part _ _ Hsa). right. rewrite Ha. set_solver.
      * by apply Ht.
    + eexists _, own. split; [reflexivity|]. split; [|split; [done|split; [done|cbn; set_solver]]].
      eapply pool_inv_fields; [apply (pool_park _ _ _ _ _ s' Hinv Hsa Hf)|..]; try done.
      * by apply (sa_owned_valid _ own).
      * by destruct (Hfl eq_refl) as (_ & ? & ?).
Qed.

(** A slab of the [i]-th class leaves it and is on its way. *)
Lemma pool_class_leave st own lives hold (i : nat) c L (st1 : ACState) x :
  pool_inv st own lives hold -> ac_ (pool st) !! i = Some c -> lives !! i = Some L ->
  ac_inv st1 [] L -> same_class (mkACState (slabAllocator_ st) c) st1 ->
  hdr_only x (slabAllocator_ st) (AllocationClass.slabAlloc_ st1) ->
  (forall y, slab_of c y <-> slab_of (AllocationClass.self st1) y \/ y = x) ->
  ~ slab_of (AllocationClass.self st1) x ->
  (let h := SlabAllocator.header (AllocationClass.slabAlloc_ st1) (SlabAllocator.slabIdx (slabAllocator_ st) x) in
   classId h = kInvalidClassId /\ isMarkedForRelease h = false) ->
  pool_inv (with_class (AllocationClass.slabAlloc_ st1) i (AllocationClass.self st1) 0 st) own lives (x :: hold).
Proof.
  intros Hinv Hi HL Hinv1 Hsc Hh Hiff Hn Hhd. destruct (pl_class _ _ _ _ Hinv i c L Hi HL) as (Hac & _).
  replace lives with (<[i:=L]> lives) by (by apply list_insert_id).
  apply (pool_class_step st own lives hold i c L _ _ L (x :: hold) x 0); rewrite ?ac_eta; try done; [lia| |].
  - by apply (perm_drop (mkACState (slabAllocator_ st) c) st1 [] [] L L).
  - right. split; [done|]. assert (Hx : slab_of c x) by (apply Hiff; by right).
    split; [apply elem_of_app; left; by apply slabs_list_elem|]. split; [set_solver|]. by intros _.
Qed.

(** An operation that keeps the slabs of the [i]-th class and may write the
    header of one of them. *)
Lemma pool_class_keep st own lives hold (i : nat) c L (st1 : ACState) x :
  pool_inv st own lives hold -> ac_ (pool st) !! i = Some c -> lives !! i = Some L ->
  ac_inv st1 [] L -> same_class (mkACState (slabAllocator_ st) c) st1 ->
  hdr_only x (slabAllocator_ st) (AllocationClass.slabAlloc_ st1) ->
  (forall y, slab_of (AllocationClass.self st1) y <-> slab_of c y) -> slab_of c x ->
  pool_inv (with_class (AllocationClass.slabAlloc_ st1) i (AllocationClass.self st1) 0 st) own lives hold.
Proof.
  intros Hinv Hi HL Hinv1 Hsc Hh Hiff Hx. destruct (pl_class _ _ _ _ Hinv i c L Hi HL) as (Hac & _).
  replace lives with (<[i:=L]> lives) by (by apply list_insert_id).
  apply (pool_class_step st own lives hold i c L _ _ L hold x 0); rewrite ?ac_eta; try done; [lia| |].
  - apply Permutation_app_tail. by apply (slabs_list_same (mkACState (slabAllocator_ st) c) st1 [] [] L L).
  - right. split; [done|]. split; [apply elem_of_app; left; by apply slabs_list_elem|]. split; [tauto|].
    intros Hin. exfalso. pose proof (pl_nodup _ _ _ _ Hinv) as (_ & Hd & _)%NoDup_app.
    apply (Hd x); [set_solver|]. apply pool_slabs_elem. eauto.
Qed.

Lemma getAllocationClassFor_ok st (i : nat) c :
  ac_ (pool st) !! i = Some c -> getAllocationClassFor (pool st) (Z.of_nat i) = Ok c.
Proof.
  intros Hi. unfold getAllocationClassFor, classAt. pose proof (lookup_lt_Some _ _ _ Hi).
  destruct (Z.leb_spec 0 (Z.of_nat i)); [|lia].
  destruct (Z.ltb_spec (Z.of_nat i) (Z.of_nat (length (ac_ (pool st))))); [|lia].
  cbn [andb]. by rewrite Nat2Z.id, Hi.
Qed.

(** The state of the [i]-th class. *)
Definition class_state st c : ACState := mkACState (slabAllocator_ st) c.

(** The release of a slab from the [i]-th class. *)
Lemma pool_startSlabRelease ok receiver mode hint z rnd st own lives (i : nat) c L :
  pool_inv st own lives [] -> ac_ (pool st) !! i = Some c -> lives !! i = Some L ->
  valid_receiver receiver st -> (receiver <> kInvalidClassId -> mode = kRebalance) ->
  chosen hint rnd c ∈ AllocationClass.freeSlabs_ c ++ AllocationClass.allocatedSlabs_ c ->
  exists ctx st' own', startSlabRelease ok (Z.of_nat i) receiver mode hint z rnd (fun _ => false) no_others st =
      (Ok ctx, st') /\
    pool_inv st' own' lives [] /\ maxSize_ (pool st') = maxSize_ (pool st) /\
    slab_ ctx = chosen hint rnd c /\ receiver_ ctx = receiver /\ mode_ ctx = mode /\
    if isReleased ctx
    then exists st1, released_to ok mode (slab_ ctx) receiver st1 own st' own' /\
           slabAllocator_ st1 = AllocationClass.slabAlloc_
             (state_of (AllocationClass.startSlabRelease mode hint rnd (fun _ => false) no_others) (class_state st c))
    else own' = own /\ victim_ ctx = Z.of_nat i /\
      exists c', ac_ (pool st') !! i = Some c' /\ in_release (slab_ ctx) (class_state st' c') L.
Proof.
  intros Hinv Hi HL Hrec Hmode Hx. destruct (pl_class _ _ _ _ Hinv i c L Hi HL) as (Hac & Hci & _).
  destruct (ac_start_class (class_state st c) L mode hint rnd Hac Hx)
    as (ctx & st1 & Hrun & Hinv1 & Hsc & Hs & Hm & Hh & Hiff & Hres).
  cbn [class_state AllocationClass.self AllocationClass.slabAlloc_] in *.
  unfold startSlabRelease.
  destruct (negb (receiver =? kInvalidClassId) && negb (bool_decide (mode = kRebalance))) eqn:Hg1.
  { apply andb_true_iff in Hg1 as [H1 H2]. destruct (Z.eqb_spec receiver kInvalidClassId) as [|Hne]; [done|].
    by rewrite bool_decide_true in H2 by auto. }
  destruct (Z.eqb_spec (Z.of_nat i) kInvalidClassId) as [He|_]; [unfold kInvalidClassId in He; lia|]. cbn [andb].
  unfold bind at 1, bind at 1, get, bind at 1, lift. rewrite (getAllocationClassFor_ok st i c Hi).
  rewrite (onClass_run st i c _ _ _ Hi Hrun), with_class_zero by (by eapply pool_bytes_u64).
  set (pst1 := with_class _ _ _ _ _). unfold bind at 1.
  change (isReleased (setZeroOnRelease z (setReceiver receiver ctx))) with (isReleased ctx).
  cbn [setZeroOnRelease setReceiver mode_ slab_]. destruct (isReleased ctx) eqn:Hrel.
  - destruct Hres as (Hn & Hhd). rewrite <- Hs in *.
    assert (Hp : pool_inv pst1 own lives [slab_ ctx]).
    { apply (pool_class_leave st own lives [] i c L); try done. intros y. rewrite Hiff. tauto. }
    assert (Hrec1 : valid_receiver receiver pst1).
    { unfold valid_receiver in *. cbn. by rewrite length_insert. }
    rewrite Hm. destruct (pool_releaseSlab ok mode (slab_ ctx) z receiver pst1 own lives [] Hp Hrec1)
      as (st' & own' & -> & Hinv' & Hmx & Hto).
    eexists _, st', own'. split; [reflexivity|].
    change (isReleased (setZeroOnRelease z (setReceiver receiver ctx))) with (isReleased ctx). rewrite Hrel.
    cbn [slab_ receiver_ mode_ setZeroOnRelease setReceiver]. split_and!; try done. exists pst1. split; [done|]. unfold state_of. by rewrite Hrun.
  - destruct Hres as (Hir & Hvic). eexists _, pst1, own. split; [reflexivity|].
    change (isReleased (setZeroOnRelease z (setReceiver receiver ctx))) with (isReleased ctx). rewrite Hrel.
    cbn [slab_ receiver_ mode_ victim_ setZeroOnRelease setReceiver]. split_and!; try done.
    + apply (pool_class_keep st own lives [] i c L st1 (slab_ ctx)); try done; [by rewrite Hs| |].
      * intros y. rewrite Hiff. split; [by left|]. by intros [|[? _]].
      * rewrite Hs. apply Hiff. left. right. apply Hir.
    + congruence.
    + exists (AllocationClass.self st1). split; [apply list_lookup_insert_eq; by eapply lookup_lt_Some|].
      unfold class_state, pst1. cbn. by rewrite ac_eta, Hs.
Qed.

Lemma pool_completeSlabRelease ok ctx st own lives (i : nat) c L :
  pool_inv st own lives [] -> ac_ (pool st) !! i = Some c -> lives !! i = Some L ->
  isReleased ctx = false -> victim_ ctx = Z.of_nat i -> in_release (slab_ ctx) (class_state st c) L ->
  valid_receiver (receiver_ ctx) st -> (receiver_ ctx <> kInvalidClassId -> mode_ ctx = kRebalance) ->
  (forall p, p ∈ L -> ~ inSlabOf (slab_ ctx) p) ->
  exists st' own', completeSlabRelease ok [] ctx st = (Ok tt, st') /\ pool_inv st' own' lives [] /\
    maxSize_ (pool st') = maxSize_ (pool st) /\
    exists st1, released_to ok (mode_ ctx) (slab_ ctx) (receiver_ ctx) st1 own st' own'.
Proof.
  intros Hinv Hi HL Hrel Hvic Hir Hrec Hmode Hfree.
  destruct (ac_complete (slab_ ctx) no_others (fun _ l => l = L) 0 _ L ctx (no_others_env _ _) Hir eq_refl
    eq_refl Hrel) as (r & st1 & live1 & Hrun & Hres). cbn in Hrun.
  destruct Hres as [(-> & [m ->] & Hinv1 & Hn & Hc & Hmk & Hsc)|(_ & _ & -> & H)]; [|exfalso; by apply H].
  destruct (complete_frame _ _ _ _ Hir Hrel Hrun) as [Hh Hiff].
  unfold hdr in Hc, Hmk. rewrite (same_class_idx _ _ _ Hsc) in Hc, Hmk.
  cbn [class_state AllocationClass.self AllocationClass.slabAlloc_] in *.
  unfold completeSlabRelease. rewrite Hrel.
  destruct (negb (receiver_ ctx =? kInvalidClassId) && negb (bool_decide (mode_ ctx = kRebalance))) eqn:Hg1.
  { apply andb_true_iff in Hg1 as [H1 H2]. destruct (Z.eqb_spec (receiver_ ctx) kInvalidClassId) as [|Hne]; [done|].
    by rewrite bool_decide_true in H2 by auto. }
  unfold bind at 1, get, bind at 1, lift. rewrite Hvic, (getAllocationClassFor_ok st i c Hi). unfold bind at 1.
  rewrite (onClass_run st i c _ _ _ Hi Hrun), with_class_zero by (by eapply pool_bytes_u64).
  set (pst1 := with_class _ _ _ _ _).
  assert (Hp : pool_inv pst1 own lives [slab_ ctx]) by (by apply (pool_class_leave st own lives [] i c L)).
  assert (Hrec1 : valid_receiver (receiver_ ctx) pst1).
  { unfold valid_receiver in *. cbn. by rewrite length_insert. }
  destruct (pool_releaseSlab ok (mode_ ctx) (slab_ ctx) (zeroOnRelease_ ctx) (receiver_ ctx) pst1 own lives [] Hp Hrec1)
      as (st' & own' & -> & Hinv' & Hmx & Hto).
  exists st', own'. split_and!; try done. by exists pst1.
Qed.

Lemma pool_abortSlabRelease ctx st own lives (i : nat) c L :
  pool_inv st own lives [] -> ac_ (pool st) !! i = Some c -> lives !! i = Some L ->
  isReleased ctx = false -> victim_ ctx = Z.of_nat i -> in_release (slab_ ctx) (class_state st c) L ->
  exists st' c', abortSlabRelease ctx st = (Ok tt, st') /\ pool_inv st' own lives [] /\
    maxSize_ (pool st') = maxSize_ (pool st) /\ ac_ (pool st') !! i = Some c' /\
    slab_ ctx ∈ AllocationClass.allocatedSlabs_ c'.
Proof.
  intros Hinv Hi HL Hrel Hvic Hir.
  destruct (ac_abort (slab_ ctx) _ L ctx Hir eq_refl Hrel) as (st1 & Hrun & Hinv1 & Hin & Hsc & _).
  destruct (abort_frame _ _ _ _ Hir Hrun) as [Hh Hiff].
  cbn [class_state AllocationClass.self AllocationClass.slabAlloc_] in *.
  unfold abortSlabRelease, bind at 1, get, bind at 1, lift. rewrite Hvic, (getAllocationClassFor_ok st i c Hi).
  unfold bind at 1. rewrite (onClass_run st i c _ _ _ Hi Hrun), with_class_zero by (by eapply pool_bytes_u64).
  eexists _, (AllocationClass.self st1). split; [reflexivity|]. split_and!; try done.
  - eapply pool_inv_fields; [eapply (pool_class_keep st own lives [] i c L st1 (slab_ ctx)); try done|..]; try done.
    right. apply Hir.
  - cbn. apply list_lookup_insert_eq. by eapply lookup_lt_Some.
Qed.

(** ** Reclaiming and resizing *)

(** A slab nobody owned joins the pool's free list. *)
Lemma pool_reclaimed st own lives x s' :
  pool_inv st own lives [] -> own !! x = None ->
  sa_inv s' (<[x := id_ (pool st)]> own) -> slab_frame x (slabAllocator_ st) s' ->
  SlabAllocator.header s' (SlabAllocator.slabIdx (slabAllocator_ st) x) = newSlabHeader (id_ (pool st)) ->
  pool_inv (mkPoolState s' (set_freeSlabs (freeSlabs_ (pool st) ++ [x]) (pool st)))
    (<[x := id_ (pool st)]> own) lives [].
Proof.
  intros Hinv Hno Hsa Hf Hh. pose proof (pool_slabsize_u64 _ _ _ _ Hinv) as Hu.
  assert (Hxn : x ∉ (freeSlabs_ (pool st) ++ []) ++ pool_slabs (ac_ (pool st))).
  { intros Hx%(pl_own _ _ _ _ Hinv). congruence. }
  apply (pool_inv_fields (mkPoolState s' (set_currSlabAllocSize (currSlabAllocSize_ (pool st))
    (set_freeSlabs (freeSlabs_ (pool st) ++ [x]) (pool st))))); try done.
  apply (pool_shift st own lives [] s' _ (freeSlabs_ (pool st) ++ [x]) [] x); try done.
  - eapply sa_owned_valid; [done|]. rewrite dom_insert_L. set_solver.
  - intros y Hy. by rewrite lookup_insert_ne.
  - set_solver.
  - rewrite app_nil_r. apply NoDup_app. split_and!; [|set_solver|apply NoDup_singleton].
    pose proof (pl_nodup _ _ _ _ Hinv) as (H & _)%NoDup_app. by rewrite app_nil_r in H.
  - set_solver.
  - rewrite lookup_insert_eq. set_solver.
  - cbv zeta. by rewrite Hh.
  - apply Hinv.
  - by left.
  - left. apply lookup_insert_eq.
Qed.

(** [reclaimSlabsAndGrow] takes back as many advised slabs as it can. *)
Lemma pool_reclaimLoop n acc st own lives :
  pool_inv st own lives [] -> 0 <= acc -> acc + Z.of_nat n < 2 ^ 32 ->
  exists k st' own', reclaimLoop n acc st = (Ok (acc + Z.of_nat k), st') /\ pool_inv st' own' lives [] /\
    k = Nat.min n (length (SlabAllocator.advisedSlabs_ (slabAllocator_ st))) /\
    maxSize_ (pool st') = maxSize_ (pool st) /\
    length (freeSlabs_ (pool st')) = (length (freeSlabs_ (pool st)) + k)%nat.
Proof.
  revert acc st own. induction n as [|n IH]; intros acc st own Hinv Ha Hn; cbn [reclaimLoop].
  { exists O, st, own. rewrite Z.add_0_r. split_and!; try done; lia. }
  unfold bind at 1, get, bind at 1, onSlabs.
  destruct (sa_reclaim (slabAllocator_ st) own (id_ (pool st)) (pl_sa _ _ _ _ Hinv) (pl_id _ _ _ _ Hinv))
    as (r & s' & Hrun & Hsa & Hnew & H0). rewrite Hrun.
  destruct (reclaimSlab_frame _ _ _ _ _ (pl_sa _ _ _ _ Hinv) Hrun) as [Hf0 Hf].
  destruct (Z.eqb_spec r 0) as [->|Hr].
  { exists O, st, own. rewrite Z.add_0_r, (Hf0 eq_refl), (H0 eq_refl). split_and!; try done; by destruct st. }
  destruct (Hnew Hr) as [Hno Hhead]. destruct (Hf Hr) as [Hfr Hh]. unfold bind at 1, upd, modify.
  set (st1 := mkPoolState _ _).
  assert (Hinv1 : pool_inv st1 (<[r := id_ (pool st)]> own) lives []).
  { eapply pool_inv_fields; [apply (pool_reclaimed st own lives r s'); done|..]; done. }
  assert (Hadv : length (SlabAllocator.advisedSlabs_ (slabAllocator_ st)) =
    S (length (SlabAllocator.advisedSlabs_ s'))).
  { unfold SlabAllocator.reclaimSlab, bind at 1, get in Hrun.
    destruct (SlabAllocator.advisedSlabs_ (slabAllocator_ st)) as [|y rest]; [done|]. injection Hhead as <-.
    cbn [length]. f_equal. unfold bind at 1, modify in Hrun. unfold bind at 1 in Hrun.
    destruct (SlabAllocator.addPoolSize _ _ _) as [[u|] s1] eqn:Hap in Hrun; [|done].
    destruct (addPoolSize_frame _ _ _ _ _ Hap) as [sizes ->].
    unfold bind, SlabAllocator.initializeHeader, bind, get in Hrun.
    destruct (SlabAllocator.getSlabHeader_slab _ y); [|done]. cbn in Hrun. by injection Hrun as <-. }
  rewrite u32_small by (unfold is_u32; lia).
  destruct (IH (acc + 1) st1 _ Hinv1 ltac:(lia) ltac:(lia)) as (k & st' & own' & Hrun' & Hinv' & Hk & Hmx & Hlen).
  exists (S k), st', own'. split; [rewrite Hrun'; do 2 f_equal; lia|]. split; [done|].
  split; [rewrite Hadv; cbn in Hk; rewrite Hk; lia|]. split; [done|].
  rewrite Hlen. unfold st1. cbn. rewrite length_app. cbn. lia.
Qed.

Lemma pool_resize size st own lives hold :
  pool_inv st own lives hold ->
  exists st', MemoryPool.resize size st = (Ok tt, st') /\ pool_inv st' own lives hold /\ maxSize_ (pool st') = size.
Proof. intros Hinv. eexists. split; [reflexivity|]. split; [|done]. by eapply pool_inv_fields. Qed.

(** ** Provisioning *)

#[export] Instance pool_inv_proper st own lives : Proper ((≡ₚ) ==> iff) (pool_inv st own lives).
Proof.
  intros h h' Hp. assert (Hw : forall h h', h ≡ₚ h' -> pool_inv st own lives h -> pool_inv st own lives h').
  { clear h h' Hp. intros h h' Hp []. split; try done; try (by rewrite <- Hp).
    - intros x. rewrite <- Hp. apply pl_own.
    - intros x Hx. apply pl_free. by rewrite Hp. }
  split; apply Hw; by rewrite Hp.
Qed.

(** The slabs the pool takes, all [n] or the ones before it runs out. *)
Lemma pool_takeSlabs n slabs st own lives :
  pool_inv st own lives slabs ->
  exists ok slabs' st' own', takeSlabs n slabs st = (Ok (ok, slabs'), st') /\
    pool_inv st' own' lives slabs' /\ maxSize_ (pool st') = maxSize_ (pool st) /\
    ac_ (pool st') = ac_ (pool st) /\
    (ok = true -> length slabs' = (length slabs + n)%nat).
Proof.
  revert slabs st own. induction n as [|n IH]; intros slabs st own Hinv; cbn [takeSlabs].
  { exists true, slabs, st, own. split_and!; try done; lia. }
  unfold bind at 1. destruct (pool_getSlab st own lives slabs Hinv) as (x & st1 & own1 & -> & Hsame & Hx).
  destruct Hsame as (_ & S2 & _ & S4 & _).
  destruct Hx as [(-> & Hinv1 & -> & _)|(Hx & _ & Hinv1 & _)].
  { exists false, slabs, st1, own. by split_and!. }
  destruct (Z.eqb_spec x 0); [lia|]. rewrite (Permutation_cons_append slabs x) in Hinv1.
  destruct (IH _ _ _ Hinv1) as (ok & slabs' & st' & own' & Hrun & Hinv' & H1 & H2 & H3).
  exists ok, slabs', st', own'. split_and!; try done; [congruence..|].
  intros Hok. rewrite H3, length_app by done. cbn. lia.
Qed.

Lemma pool_freeAllSlabs slabs st own lives :
  pool_inv st own lives slabs ->
  exists st' own', freeAllSlabs slabs st = (Ok tt, st') /\ pool_inv st' own' lives [] /\
    maxSize_ (pool st') = maxSize_ (pool st) /\ ac_ (pool st') = ac_ (pool st).
Proof.
  revert st own. induction slabs as [|x slabs IH]; intros st own Hinv; cbn [freeAllSlabs].
  { exists st, own. by split_and!. }
  destruct (pool_hold_fresh _ _ _ _ _ Hinv) as (_ & _ & _ & Ho).
  destruct (sa_free _ _ _ (pl_sa _ _ _ _ Hinv) (elem_of_dom_2 _ _ _ Ho)) as (s' & Hrun & Hsa & Hfs & _).
  destruct (freeSlab_frame _ _ _ Hrun) as [Hf Hp]. unfold bind at 1, onSlabs. rewrite Hrun.
  unfold bind at 1, addSlabAllocSize, upd, modify. cbn [slabAllocator_ pool].
  assert (Hv : SlabAllocator.isValidSlab s' x = true) by (apply (inv_part _ _ Hsa); right; rewrite Hfs; set_solver).
  destruct (IH _ _ (pool_lose _ _ _ _ _ s' Hinv Hsa Hf Hv Hp)) as (st' & own' & H1 & H2 & H3 & H4).
  exists st', own'. by split_and!.
Qed.

(** The slabs of a class. *)
Definition class_slabs st (i : nat) : nat :=
  match ac_ (pool st) !! i with Some c => length (slabs_list c) | None => O end.

Lemma pool_addSlabs (i : nat) n slabs rest st own lives :
  pool_inv st own lives (slabs ++ rest) -> length slabs = n -> (i < length (ac_ (pool st)))%nat ->
  exists st', addSlabs (Z.of_nat i) n (slabs ++ rest) st = (Ok rest, st') /\ pool_inv st' own lives rest /\
    maxSize_ (pool st') = maxSize_ (pool st) /\ length (ac_ (pool st')) = length (ac_ (pool st)) /\
    forall j, class_slabs st' j = if decide (j = i) then (class_slabs st i + n)%nat else class_slabs st j.
Proof.
  revert slabs st. induction n as [|n IH]; intros slabs st Hinv Hlen Hi.
  { apply nil_length_inv in Hlen as ->. exists st. split_and!; try done. intros j. case_decide; [subst; lia|done]. }
  destruct slabs as [|x slabs]; [done|]. cbn [addSlabs app]. injection Hlen as Hlen.
  destruct (lookup_lt_is_Some_2 _ _ Hi) as [c Hc]. destruct (pool_lives _ _ _ _ _ _ Hinv Hc) as [L HL].
  destruct (pool_addSlab _ _ _ _ _ _ _ _ Hinv Hc HL) as (st1 & Hadd & Hrun & Hinv1 & _).
  unfold bind at 1. rewrite Hrun. set (pst1 := with_class _ _ _ _ _) in *.
  assert (Hl1 : length (ac_ (pool pst1)) = length (ac_ (pool st))) by (cbn; by rewrite length_insert).
  destruct (IH slabs pst1 Hinv1 Hlen ltac:(lia)) as (st' & H1 & H2 & H3 & H4 & H5).
  exists st'. split_and!; try done; [lia|].
  assert (Hi1 : ac_ (pool pst1) !! i = Some (AllocationClass.self st1)).
  { cbn. apply list_lookup_insert_eq. by eapply lookup_lt_Some. }
  destruct (pl_class _ _ _ _ Hinv1 i _ L Hi1 HL) as (Hac1 & _). cbn in Hac1. rewrite ac_eta in Hac1.
  pose proof (pool_can_add _ _ _ _ _ _ _ _ Hinv Hc HL) as Hca.
  destruct (addSlab_frame x _ (proj1 Hca)) as [_ Hsl]. unfold state_of in Hsl. rewrite Hadd in Hsl.
  pose proof (perm_add (mkACState (slabAllocator_ st) c) st1 [] [] L L x [] (proj1 (pl_class _ _ _ _ Hinv i c L Hc HL))
    Hac1 Hsl (proj2 (proj2 (proj2 Hca)))) as Hp%Permutation_length.
  rewrite !length_app in Hp. cbn in Hp.
  intros j. rewrite H5. unfold class_slabs. case_decide as E; [subst j|].
  - rewrite Hi1, Hc. lia.
  - cbn. by rewrite list_lookup_insert_ne.
Qed.

Lemma pool_distribute (k : nat) dist slabs st own lives :
  pool_inv st own lives slabs -> Forall (fun d => 0 <= d) dist -> Z.of_nat (length slabs) = sumZ dist ->
  (k + length dist <= length (ac_ (pool st)))%nat ->
  exists st', distribute (Z.of_nat k) dist slabs st = (Ok tt, st') /\ pool_inv st' own lives [] /\
    maxSize_ (pool st') = maxSize_ (pool st) /\
    forall (j : nat), class_slabs st' j =
      (class_slabs st j + Z.to_nat (default 0%Z (if decide (k <= j)%nat then dist !! (j - k)%nat else None)))%nat.
Proof.
  revert k slabs st. induction dist as [|d dist IH]; intros k slabs st Hinv Hd Hlen Hk; cbn [distribute].
  { assert (slabs = []) as -> by (by destruct slabs). exists st. split_and!; try done.
    intros j. case_decide; [rewrite lookup_nil|]; cbn; lia. }
  apply Forall_cons in Hd as [Hd0 Hd]. change (sumZ (d :: dist)) with (d + sumZ dist) in Hlen.
  assert (Hs0 : 0 <= sumZ dist).
  { clear -Hd. induction Hd as [|e l He _ IH]; [done|]. change (sumZ (e :: l)) with (e + sumZ l). lia. }
  cbn [length] in Hk. rewrite <- (take_drop (Z.to_nat d) slabs) in Hinv.
  destruct (pool_addSlabs k (Z.to_nat d) _ _ st own lives Hinv) as (st1 & H1 & H2 & H3 & H4 & H5);
    [rewrite length_take; lia|lia|].
  rewrite take_drop in H1. unfold bind at 1. rewrite H1. replace (Z.of_nat k + 1) with (Z.of_nat (S k)) by lia.
  destruct (IH (S k) _ st1 H2 Hd) as (st' & G1 & G2 & G3 & G4); [rewrite length_drop; lia|lia|].
  exists st'. split_and!; try done; [congruence|]. intros j. rewrite G4, H5.
  destruct (decide (j = k)) as [->|Hne].
  - rewrite (decide_True (P := (k <= k)%nat)) by lia. rewrite (decide_False (P := (S k <= k)%nat)) by lia.
    rewrite Nat.sub_diag. cbn. lia.
  - destruct (decide (S k <= j)%nat) as [Hle|Hle].
    + rewrite decide_True by lia. replace (j - k)%nat with (S (j - S k)) by lia. done.
    + by rewrite decide_False by lia.
Qed.

(** Provisioning gives each class its share, or leaves the classes alone. *)
Lemma pool_provision dist st own lives :
  pool_inv st own lives [] -> length dist = length (ac_ (pool st)) -> Forall (fun d => 0 <= d) dist ->
  sumZ dist < 2 ^ 32 ->
  exists b st' own', provision dist st = (Ok b, st') /\ pool_inv st' own' lives [] /\
    maxSize_ (pool st') = maxSize_ (pool st) /\
    forall (j : nat), class_slabs st' j =
      (class_slabs st j + if b then Z.to_nat (default 0%Z (dist !! j)) else 0)%nat.
Proof.
  intros Hinv Hlen Hd Hsum. unfold provision, bind at 1, get. rewrite Hlen, Nat.eqb_refl. cbn [negb].
  assert (Hs0 : 0 <= sumZ dist).
  { clear -Hd. induction Hd as [|e l He _ IH]; [done|]. change (sumZ (e :: l)) with (e + sumZ l). lia. }
  rewrite u32_small by done. unfold bind at 1.
  destruct (pool_takeSlabs (Z.to_nat (sumZ dist)) [] st own lives Hinv)
    as (ok & slabs & st1 & own1 & -> & Hinv1 & H1 & H2 & H3).
  destruct ok; cbn [negb]; unfold bind at 1.
  - destruct (pool_distribute 0 dist slabs st1 own1 lives Hinv1 Hd) as (st' & Hrun & G2 & G3 & G4);
      [rewrite H3 by done; cbn; lia|rewrite H2; lia|].
    change (Z.of_nat 0) with 0 in Hrun. rewrite Hrun. eexists true, st', own1. split; [reflexivity|]. split_and!; [done|congruence|].
    intros j. rewrite G4. unfold class_slabs. rewrite H2, decide_True, Nat.sub_0_r by lia. done.
  - destruct (pool_freeAllSlabs slabs st1 own1 lives Hinv1) as (st' & own' & -> & G2 & G3 & G4).
    eexists false, st', own'. split; [reflexivity|]. split_and!; [done|congruence|].
    intros j. unfold class_slabs. rewrite G4, H2. lia.
Qed.

End base.
