(* ===== verification/MemoryPoolSpec.v ===== *)
(** * Memory pool: theorems

    Every sequence of operations on a pool keeps its accounting exact and the
    allocations of its classes apart; the class chosen for a size; the limit
    of a pool; where released slabs go. *)

From S2P Require Import Prelude.
From S2P Require Import Slab.
From S2P Require SlabAllocator.
From S2P Require Import SlabAllocatorProofs.
From S2P Require SlabAllocatorSpec.
From S2P Require AllocationClass.
From S2P Require Import AllocationClassProofs AllocationClassSpec AllocationClassClaims.
From S2P Require Import MemoryPool MemoryPoolLookup MemoryPoolFrame MemoryPoolProofs MemoryPoolOps.
From Stdlib Require Import Sorting.Sorted.
From stdpp Require Import base tactics numbers gmap list.

#[local] Open Scope Z_scope.
#[local] Open Scope cachelib_scope.

Implicit Types (st : PoolState) (c : AC) (x y : Z) (lives : list (gset Z)).

(** ** New pools *)

Lemma sorted_sizes l :
  is_sorted l = true -> has_adjacent_equal l = false -> StronglySorted Z.lt l.
Proof.
  intros Hs Hn. apply Sorted_StronglySorted; [intros a b d; apply Z.lt_trans|].
  induction l as [|a [|b l] IH]; [constructor|by repeat constructor|].
  cbn [is_sorted has_adjacent_equal] in Hs, Hn. apply andb_true_iff in Hs as [Hab Hs].
  apply orb_false_iff in Hn as [Hne Hn]. constructor; [by apply IH|].
  constructor. destruct (Z.ltb_spec b a); [done|]. destruct (Z.eqb_spec a b); [done|]. lia.
Qed.

(** A pool made on a slab allocator none of whose slabs has its id yet. *)
Definition new_pool (id size : Z) (s : SlabAllocator.SlabAllocator) (own : gmap Z Z) (sizes : list Z)
    (p : MemoryPool) : Prop :=
  sa_inv s own /\ 0 <= id < SlabAllocator.kMaxPoolId /\
  (forall x, SlabAllocator.isValidSlab s x = true ->
     poolId (SlabAllocator.header s (SlabAllocator.slabIdx s x)) <> id) /\
  makeMemoryPool id size s sizes = Ok p.

Lemma createClasses_new s pid own cid sizes cs :
  sa_inv s own -> 0 <= cid ->
  (forall x, SlabAllocator.isValidSlab s x = true ->
     poolId (SlabAllocator.header s (SlabAllocator.slabIdx s x)) <> pid) ->
  createClassesFrom s pid cid sizes = Ok cs ->
  length cs = length sizes /\ pool_slabs cs = [] /\
  forall (i : nat) c, cs !! i = Some c -> ac_inv (mkACState s c) [] ∅ /\
    AllocationClass.classId_ c = cid + Z.of_nat i /\ AllocationClass.poolId_ c = pid /\
    sizes !! i = Some (allocationSize_ c).
Proof.
  intros Hsa Hcid Hno. revert cid cs Hcid. induction sizes as [|size sizes IH]; intros cid cs Hcid; cbn.
  { intros [= <-]. done. }
  destruct (Z.ltb_spec size kMinAllocSize); [done|]. destruct (Z.ltb_spec kSize size); [done|]. cbn.
  destruct (AllocationClass.makeAllocationClass s cid pid size) as [c|] eqn:Hmk; [|done].
  destruct (createClassesFrom s pid (cid + 1) sizes) as [cs'|] eqn:Hrec; [|done]. intros [= <-].
  destruct (IH (cid + 1) cs' ltac:(lia) Hrec) as (H1 & H2 & H3).
  assert (Hac : ac_inv (mkACState s c) [] ∅).
  { apply (ac_init s cid pid size). split_and!; [apply Hsa|done|done|].
    intros x Hv [Hp _]. by apply (Hno x Hv). }
  assert (Hc : c = AllocationClass.mkAllocationClass cid pid size 0 0 [] [] [] true 0 ∅).
  { unfold AllocationClass.makeAllocationClass in Hmk. destruct (AllocationClass.checkState _); congruence. }
  split_and!.
  - cbn. by rewrite H1.
  - change (pool_slabs (c :: cs')) with (slabs_list c ++ pool_slabs cs'). rewrite H2, Hc. done.
  - intros [|i] c'; cbn.
    + intros [= <-]. split; [done|]. rewrite Hc. cbn. split_and!; try done. lia.
    + intros Hi. destruct (H3 i c' Hi) as (G1 & G2 & G3 & G4). split_and!; try done. lia.
Qed.

Lemma alloc_bytes_empty acs n : alloc_bytes acs (replicate n ∅) = 0.
Proof.
  unfold alloc_bytes, sumZ. revert n. induction acs as [|c acs IH]; intros [|n]; cbn; try done.
  rewrite IH, size_empty. lia.
Qed.

Definition base_at (s : SlabAllocator.SlabAllocator) (own : gmap Z Z) (lost : nat) : Base :=
  {| base_sa := s; base_own := own; base_lost := lost |}.

Lemma pool_init id size s own sizes p :
  new_pool id size s own sizes p ->
  @pool_inv (base_at s own 0) (mkPoolState s p) own (replicate (length sizes) ∅) [] /\ acSizes_ p = sizes /\ id_ p = id /\
  maxSize_ p = size.
Proof.
  intros (Hsa & Hid & Hno & Hmk). unfold makeMemoryPool, createAllocationClasses in Hmk.
  destruct (createClassesFrom s id 0 sizes) as [cs|] eqn:Hcr; [|done].
  destruct (createClasses_new s id own 0 sizes cs Hsa ltac:(lia) Hno Hcr) as (H1 & H2 & H3).
  destruct (checkState s _) eqn:Hck; [|done]. injection Hmk as <-. split; [|done].
  unfold checkState in Hck. cbn [id_ currSlabAllocSize_ currAllocSize_ acSizes_ ac_] in Hck.
  destruct (id <? 0); [done|]. cbn [Z.ltb] in Hck.
  destruct (AllocationClass.is_nil sizes || AllocationClass.is_nil cs) eqn:Hnil; [done|].
  destruct (negb (length sizes =? length cs)%nat); [done|].
  destruct (is_sorted sizes) eqn:Hso; [|done]. destruct (has_adjacent_equal sizes) eqn:Hae; [done|].
  apply orb_false_iff in Hnil as [_ Hnil].
  split; cbn [slabAllocator_ pool id_ ac_ acSizes_ freeSlabs_ currSlabAllocSize_ currAllocSize_ app]; try done.
  - by rewrite length_replicate.
  - intros i c L Hi [-> _]%lookup_replicate. by apply H3.
  - intros x. rewrite H2. split; [|by intros ?%not_elem_of_nil]. intros Ho. exfalso.
    destruct (inv_own _ _ Hsa x _ Ho) as [_ Hp]. apply (Hno x); [|done].
    eapply sa_owned_valid; [done|]. by eapply elem_of_dom_2.
  - rewrite H2. apply NoDup_nil_2.
  - intros x ?%not_elem_of_nil. done.
  - rewrite H2. done.
  - by rewrite alloc_bytes_empty.
  - split_and!; [done|by destruct cs|by apply sorted_sizes].
  - apply pool_eff_refl.
Qed.

(** ** Sequences of operations *)

Lemma startSlabRelease_unstopped_pool ok victim receiver mode hint z rnd sa others st ctx st' :
  startSlabRelease ok victim receiver mode hint z rnd sa others st = (Ok ctx, st') ->
  startSlabRelease ok victim receiver mode hint z rnd (fun _ => false) others st = (Ok ctx, st').
Proof.
  unfold startSlabRelease. destruct (negb (receiver =? kInvalidClassId) && _); [done|].
  destruct ((victim =? kInvalidClassId) && _); [done|]. destruct (victim =? kInvalidClassId); [done|].
  unfold bind. destruct (get st) as [[s|] st1]; [|done]. destruct (lift _ st1) as [[c|] st2]; [|done].
  destruct (onClass victim (AllocationClass.startSlabRelease mode hint rnd sa others) st2) as [[c2|] st3] eqn:E; [|done].
  enough (onClass victim (AllocationClass.startSlabRelease mode hint rnd (fun _ => false) others) st2 = (Ok c2, st3)) as ->
    by done.
  revert E. unfold onClass. destruct (_ !! _) as [c0|]; [|done].
  destruct (AllocationClass.startSlabRelease mode hint rnd sa others _) as [[c3|] st4] eqn:E2; [|by intros [=]].
  by rewrite (startSlabRelease_unstopped _ _ _ _ _ _ _ _ E2).
Qed.

(** One call of an operation of the pool, with the allocations held per class.
    What is freed is held; a slab to release is one of its class's; a context
    to complete or abort belongs to a release in progress, and is completed
    when nothing in its slab is held. A release may be asked to stop at any
    time, and is a step when it was not. *)
Inductive pool_step : PoolState -> list (gset Z) -> PoolState -> list (gset Z) -> Prop :=
| ps_allocate st lives size (i : nat) L r st' :
    allocate (fun s => s) size st = (Ok r, st') -> size <> 0 ->
    first_fit (acSizes_ (pool st)) size = Some i -> lives !! i = Some L ->
    pool_step st lives st' (<[i := add_live r L]> lives)
| ps_free st lives (i : nat) L p st' :
    lives !! i = Some L -> p ∈ L -> free p st = (Ok tt, st') ->
    pool_step st lives st' (<[i := L ∖ {[ p ]}]> lives)
| ps_resize st lives size st' :
    MemoryPool.resize size st = (Ok tt, st') -> pool_step st lives st' lives
| ps_provision st lives dist b st' :
    length dist = length (ac_ (pool st)) -> Forall (fun d => 0 <= d) dist -> sumZ dist < 2 ^ 32 ->
    provision dist st = (Ok b, st') -> pool_step st lives st' lives
| ps_reclaim st lives (n : nat) k st' :
    Z.of_nat n < 2 ^ 32 -> reclaimSlabsAndGrow (Z.of_nat n) st = (Ok k, st') -> pool_step st lives st' lives
| ps_release st lives ok (i : nat) c receiver mode hint z rnd shouldAbort ctx st' :
    ac_ (pool st) !! i = Some c -> valid_receiver receiver st ->
    (receiver <> kInvalidClassId -> mode = kRebalance) ->
    chosen hint rnd c ∈ AllocationClass.freeSlabs_ c ++ AllocationClass.allocatedSlabs_ c ->
    startSlabRelease ok (Z.of_nat i) receiver mode hint z rnd shouldAbort no_others st = (Ok ctx, st') ->
    pool_step st lives st' lives
| ps_complete st lives ok (i : nat) c L ctx st' :
    ac_ (pool st) !! i = Some c -> lives !! i = Some L -> isReleased ctx = false ->
    victim_ ctx = Z.of_nat i -> in_release (slab_ ctx) (class_state st c) L ->
    valid_receiver (receiver_ ctx) st -> (receiver_ ctx <> kInvalidClassId -> mode_ ctx = kRebalance) ->
    (forall p, p ∈ L -> ~ inSlabOf (slab_ ctx) p) ->
    completeSlabRelease ok [] ctx st = (Ok tt, st') -> pool_step st lives st' lives
| ps_abort st lives (i : nat) c L ctx st' :
    ac_ (pool st) !! i = Some c -> lives !! i = Some L -> isReleased ctx = false ->
    victim_ ctx = Z.of_nat i -> in_release (slab_ ctx) (class_state st c) L ->
    abortSlabRelease ctx st = (Ok tt, st') -> pool_step st lives st' lives.

(** Any number of calls; the last numbers count the releases of slabs of the
    pool's free list, asked for without a victim. *)
Inductive pool_steps : PoolState -> list (gset Z) -> nat -> PoolState -> list (gset Z) -> nat -> Prop :=
| pool_refl st lives n : pool_steps st lives n st lives n
| pool_next st lives n st1 lives1 st' lives' n' :
    pool_step st lives st1 lives1 -> pool_steps st1 lives1 n st' lives' n' -> pool_steps st lives n st' lives' n'
| pool_next_free st lives n ok receiver mode hint z rnd shouldAbort others ctx st1 st' lives' n' :
    startSlabRelease ok kInvalidClassId receiver mode hint z rnd shouldAbort others st = (Ok ctx, st1) ->
    pool_steps st1 lives (S n) st' lives' n' -> pool_steps st lives n st' lives' n'.

Section base.
Context {base : Base}.

Lemma no_env : pool_env (fun s => s) (fun _ => True) (fun _ => True).
Proof. intros st own lives Hinv _. by exists own, lives. Qed.

Lemma alloc_result_lives st lives (i : nat) r st' lives' L :
  alloc_result st lives i r st' lives' -> lives !! i = Some L -> lives' = <[i := add_live r L]> lives.
Proof.
  intros (_ & _ & _ & [(-> & -> & _)|(Hr & L' & HL' & _ & ->)]) HL; unfold add_live.
  - symmetry. by apply list_insert_id.
  - destruct (Z.eqb_spec r 0); [lia|]. congruence.
Qed.

(** [allocate] with no other thread between its attempts. *)
Lemma pool_allocate_alone st own lives size (i : nat) r st' :
  pool_inv st own lives [] -> size <> 0 -> first_fit (acSizes_ (pool st)) size = Some i ->
  allocate (fun s => s) size st = (Ok r, st') ->
  exists own' L, lives !! i = Some L /\ pool_inv st' own' (<[i := add_live r L]> lives) [].
Proof.
  intros Hinv Hs Hff Hrun. pose proof (pool_class_of_size st own lives [] size Hinv) as Hc. rewrite Hff in Hc.
  destruct Hc as (c & L & Hi & HL & _).
  destruct (pool_allocate st own lives (fun s => s) (fun l => l = lives) (fun l => l = lives) size i Hinv)
    as (r' & st1 & own' & lives' & Hrun' & Hinv' & Hres); try done.
  { intros st0 own0 l Hinv0 ->. by exists own0, lives. }
  rewrite Hrun in Hrun'. injection Hrun' as <- <-. exists own', L. split; [done|].
  destruct Hres as [Hres|(st0 & own1 & l1 & _ & -> & Hres)];
    by rewrite <- (alloc_result_lives _ _ _ _ _ _ _ Hres HL).
Qed.

Lemma pool_step_inv st lives st' lives' own :
  pool_step st lives st' lives' -> pool_inv st own lives [] -> exists own', pool_inv st' own' lives' [].
Proof.
  intros Hstep Hinv. destruct Hstep as [st lives size i L r st' Hrun Hs Hff HL|st lives i L p st' HL Hp Hrun
    |st lives size st' Hrun|st lives dist b st' Hlen Hd Hsum Hrun|st lives n k st' Hn Hrun
    |st lives ok i c receiver mode hint z rnd sa ctx st' Hi Hrec Hmode Hx Hrun%startSlabRelease_unstopped_pool
    |st lives ok i c L ctx st' Hi HL Hrel Hvic Hir Hrec Hmode Hfree Hrun
    |st lives i c L ctx st' Hi HL Hrel Hvic Hir Hrun].
  - destruct (pool_allocate_alone _ _ _ _ _ _ _ Hinv Hs Hff Hrun) as (own' & L' & HL' & Hinv').
    exists own'. congruence.
  - destruct (lookup_lt_is_Some_2 (ac_ (pool st)) i) as [c Hi].
    { rewrite <- (pl_len _ _ _ _ Hinv). by eapply lookup_lt_Some. }
    destruct (pool_free _ _ _ _ _ _ _ _ Hinv Hi HL Hp) as (st1 & Hrun1 & Hinv1 & _). exists own. congruence.
  - destruct (pool_resize size _ _ _ _ Hinv) as (st1 & Hrun1 & Hinv1 & _). exists own. congruence.
  - destruct (pool_provision dist _ _ _ Hinv Hlen Hd Hsum) as (b' & st1 & own' & Hrun1 & Hinv1 & _).
    exists own'. congruence.
  - destruct (pool_reclaimLoop n 0 _ _ _ Hinv ltac:(lia) ltac:(lia)) as (k' & st1 & own' & Hrun1 & Hinv1 & _).
    unfold reclaimSlabsAndGrow in Hrun. rewrite Nat2Z.id in Hrun. exists own'. congruence.
  - destruct (pool_lives _ _ _ _ _ _ Hinv Hi) as [L HL].
    destruct (pool_startSlabRelease ok receiver mode hint z rnd _ _ _ _ _ _ Hinv Hi HL Hrec Hmode Hx)
      as (ctx' & st1 & own' & Hrun1 & Hinv1 & _). exists own'. congruence.
  - destruct (pool_completeSlabRelease ok _ _ _ _ _ _ _ Hinv Hi HL Hrel Hvic Hir Hrec Hmode Hfree)
      as (st1 & own' & Hrun1 & Hinv1 & _). exists own'. congruence.
  - destruct (pool_abortSlabRelease _ _ _ _ _ _ _ Hinv Hi HL Hrel Hvic Hir) as (st1 & c' & Hrun1 & Hinv1 & _).
    exists own. congruence.
Qed.

(** ** Theorems *)

(** Slabs of different classes do not overlap, nor do their allocations. *)
Lemma slabs_apart s x y :
  sa_wf s -> SlabAllocator.isValidSlab s x = true -> SlabAllocator.isValidSlab s y = true -> x <> y ->
  x + kSize <= y \/ y + kSize <= x.
Proof.
  intros Hwf Hx Hy Hne. apply sa_valid_iff in Hx as [_ Hmx], Hy as [_ Hmy]; [|done..].
  apply Z.mod_divide in Hmx as [a Ha], Hmy as [b Hb]; [|done..]. assert (HK : kSize = 4194304) by done.
  rewrite HK in *. destruct (Z.lt_trichotomy a b) as [Hlt|[He|Hlt]]; [lia| |lia]. subst. lia.
Qed.

Lemma pool_apart st own lives hold (i j : nat) c cj L Lj p q :
  pool_inv st own lives hold -> ac_ (pool st) !! i = Some c -> lives !! i = Some L ->
  ac_ (pool st) !! j = Some cj -> lives !! j = Some Lj -> p ∈ L -> q ∈ Lj -> (i, p) <> (j, q) ->
  p + allocationSize_ c <= q \/ q + allocationSize_ cj <= p.
Proof.
  intros Hinv Hi HL Hj HLj Hp Hq Hne.
  destruct (pl_class _ _ _ _ Hinv i c L Hi HL) as (Ha & _). destruct (pl_class _ _ _ _ Hinv j cj Lj Hj HLj) as (Hb & _).
  destruct (ai_place _ _ _ Ha p (or_introl Hp)) as (x & k & Hsx & _ & ->).
  destruct (ai_place _ _ _ Hb q (or_introl Hq)) as (y & l & Hsy & _ & ->).
  pose proof (slot_slab _ _ _ Hsx) as Hx. pose proof (slot_slab _ _ _ Hsy) as Hy.
  destruct (decide (i = j)) as [->|Hij].
  { assert (cj = c) as -> by congruence. apply (ac_apart _ _ _ x k y l Ha Hx Hy (proj1 Hsx) (proj1 Hsy)). congruence. }
  pose proof (ac_slab_valid _ _ _ _ Ha Hx) as Hvx. pose proof (ac_slab_valid _ _ _ _ Hb Hy) as Hvy.
  destruct (ac_addr _ x k (ai_wf _ _ _ Ha) (ai_size _ _ _ Ha) Hvx (proj1 Hsx)) as (_ & _ & _ & G1 & G2).
  destruct (ac_addr _ y l (ai_wf _ _ _ Hb) (ai_size _ _ _ Hb) Hvy (proj1 Hsy)) as (_ & _ & _ & G3 & G4).
  cbn [AllocationClass.self] in *.
  destruct (slabs_apart (slabAllocator_ st) x y (ai_wf _ _ _ Ha) Hvx Hvy); [|lia..].
  intros ->. apply (pool_not_other st own lives hold i j c L cj Lj y Hinv Hi HL Hj HLj); [done| |done].
  apply elem_of_app. left. by apply slabs_list_elem.
Qed.

End base.

(** A slab of the free list that is released is counted as if it had been a
    slab of a class. *)
Lemma pool_release_free s0 own0 n ok receiver mode hint z rnd sa others st own lives ctx st' :
  @pool_inv (base_at s0 own0 n) st own lives [] ->
  startSlabRelease ok kInvalidClassId receiver mode hint z rnd sa others st = (Ok ctx, st') ->
  exists own', @pool_inv (base_at s0 own0 (S n)) st' own' lives [].
Proof.
  intros Hinv. unfold startSlabRelease. destruct (Z.eqb_spec receiver kInvalidClassId) as [->|Hr]; cbn [negb andb].
  2: { destruct (bool_decide_reflect (mode = kRebalance)) as [->|]; done. }
  rewrite Z.eqb_refl. cbn [andb]. destruct (bool_decide (mode = kResize)); [|done]. cbn [negb].
  unfold bind at 1, releaseFromFreeSlabs, bind at 1, get.
  destruct (last (freeSlabs_ (pool st))) as [x|] eqn:Hl; [|done]. pose proof (last_snoc_inv _ _ Hl) as Hsp.
  unfold bind at 1, upd, modify, ret at 1. cbn [setZeroOnRelease setReceiver releaseContext isReleased activeAllocations_ mode_ slab_].
  set (rest := removelast (freeSlabs_ (pool st))) in *. set (st1 := mkPoolState _ _).
  assert (Hp : (rest ++ [x]) ++ pool_slabs (ac_ (pool st)) = (freeSlabs_ (pool st) ++ []) ++ pool_slabs (ac_ (pool st))).
  { by rewrite Hsp, app_nil_r. }
  assert (Hinv1 : @pool_inv (base_at s0 own0 (S n)) st1 own lives [x]).
  { unfold pool_slabs in *. destruct Hinv. split; cbn in *; fold rest; try done.
    - intros y. rewrite Hp. apply pl_own.
    - by rewrite Hp.
    - intros y Hy. apply pl_free. by rewrite Hsp, app_nil_r.
    - rewrite pl_slabsize. unfold pool_slabs. f_equal. lia. }
  destruct (pool_releaseSlab ok kResize x z kInvalidClassId st1 own lives [] Hinv1) as (st2 & own' & Hrun & Hinv2 & _).
  { by left. }
  unfold bind. rewrite Hrun. intros [= _ <-]. by exists own'.
Qed.

Lemma pool_steps_inv s0 own0 st lives n st' lives' n' own :
  pool_steps st lives n st' lives' n' -> @pool_inv (base_at s0 own0 n) st own lives [] ->
  exists own', @pool_inv (base_at s0 own0 n') st' own' lives' [].
Proof.
  intros Hsteps. revert own.
  induction Hsteps as [|st lives n st1 lives1 st' lives' n' Hs _ IH
    |st lives n ok receiver mode hint z rnd sa others ctx st1 st' lives' n' Hs _ IH]; intros own Hinv; [eauto|..].
  - destruct (pool_step_inv _ _ _ _ _ Hs Hinv) as [own1 Hinv1]. by eapply IH.
  - destruct (pool_release_free _ _ _ _ _ _ _ _ _ _ _ _ _ _ _ _ Hinv Hs) as [own1 Hinv1]. by eapply IH.
Qed.


(** C22. For a pool its constructor accepts, the class of a size is the first
    one whose allocation size is at least the size, and there is none exactly
    for the size 0 and the sizes above the largest class: the bisection finds
    what a linear search finds, in at most as many steps as there are
    classes. *)
Theorem pool_size_class s p size :
  checkState s p = Ok tt ->
  getAllocationClassId_size p size =
  (if size =? 0 then Throw InvalidArgument
   else match first_fit (acSizes_ p) size with
        | Some i => Ok (Z.of_nat i)
        | None => Throw InvalidArgument
        end) /\
  forall fuel, (length (acSizes_ p) <= fuel)%nat ->
    lower_bound_loop fuel (acSizes_ p) size 0 (length (acSizes_ p)) = lower_bound (acSizes_ p) size.
Proof.
  intros Hck. unfold checkState in Hck. destruct (id_ p <? 0); [done|].
  destruct (currSlabAllocSize_ p <? currAllocSize_ p); [done|].
  destruct (AllocationClass.is_nil (acSizes_ p) || _) eqn:Hnil; [done|].
  destruct (negb (length (acSizes_ p) =? length (ac_ p))%nat); [done|].
  destruct (is_sorted (acSizes_ p)) eqn:Hso; [|done]. destruct (has_adjacent_equal (acSizes_ p)) eqn:Hae; [done|].
  pose proof (sorted_sizes _ Hso Hae) as Hs. split.
  - apply class_of_size; [done|]. by destruct (acSizes_ p).
  - intros fuel Hf. eapply splits_unique; [|by apply lower_bound_splits].
    apply lower_bound_loop_splits; try done; intros i a Hi Ha; [lia|]. apply lookup_lt_Some in Ha. lia.
Qed.

(** Slab bytes of the classes and advised bytes, which the limit bounds. *)
Definition charged (p : MemoryPool) : Z := currSlabAllocSize_ p + curSlabsAdvised_ p * kSize.

Lemma alloc_result_charged {base : Base} st own lives (i : nat) r st' lives' :
  pool_inv st own lives [] -> alloc_result st lives i r st' lives' -> base_lost = 0%nat ->
  0 <= curSlabsAdvised_ (pool st) < 2 ^ 32 ->
  maxSize_ (pool st') = maxSize_ (pool st) /\
  charged (pool st') <= Z.max (charged (pool st)) (maxSize_ (pool st)).
Proof.
  intros Hinv (Hm & Ha & Hc & _) Hl Hadv. split; [done|]. unfold charged. rewrite Ha.
  destruct Hc as [->|[Hall ->]]; [lia|]. revert Hall. unfold allSlabsAllocated, getPoolAdvisedSize.
  destruct (pool_slabsize_exact _ _ _ _ Hinv Hl) as [_ Hu]. assert (kSize = 4194304) by done.
  rewrite (u64_small (currSlabAllocSize_ (pool st) + kSize)) by (unfold is_u64; lia).
  rewrite (u64_small (_ * _)) by (unfold is_u64; lia). rewrite u64_small by (unfold is_u64; lia).
  destruct (Z.ltb_spec (maxSize_ (pool st)) (currSlabAllocSize_ (pool st) + curSlabsAdvised_ (pool st) * kSize + kSize));
    [done|lia].
Qed.

(** C23. Allocating, while other threads may do anything that keeps the pool
    consistent between the two attempts: the call returns; what it returns is
    null, or an allocation of the smallest class that fits that nobody holds;
    and the pool never takes a slab beyond its limit, so the bytes charged to
    the pool do not pass the larger of the limit and what was charged
    before, unless it has released slabs of its free list, which makes its
    count of slab bytes wrong. *)
Theorem pool_allocate_limit {base : Base} st own lives f Φ Ψ size (i : nat) :
  pool_inv st own lives [] -> pool_env f Φ Ψ -> Φ lives -> size <> 0 ->
  first_fit (acSizes_ (pool st)) size = Some i ->
  exists r st' own' lives' st0 lives0,
    allocate f size st = (Ok r, st') /\ pool_inv st' own' lives' [] /\
    (st0 = st /\ lives0 = lives \/ (exists st1, st0 = f st1) /\ Ψ lives0) /\
    (r = 0 /\ lives' = lives0 \/
     0 < r /\ exists L : gset Z, lives0 !! i = Some L /\ r ∉ L /\ lives' = <[i := {[ r ]} ∪ L]> lives0) /\
    (base_lost = 0%nat -> 0 <= curSlabsAdvised_ (pool st0) < 2 ^ 32 ->
     maxSize_ (pool st') = maxSize_ (pool st0) /\
     charged (pool st') <= Z.max (charged (pool st0)) (maxSize_ (pool st0))).
Proof.
  intros Hinv Henv HΦ Hs Hff.
  destruct (pool_allocate st own lives f Φ Ψ size i Hinv Henv HΦ Hs Hff)
    as (r & st' & own' & lives' & Hrun & Hinv' & [Hres|(st1 & own1 & lives1 & Hinv1 & HΨ & Hres)]).
  - exists r, st', own', lives', st, lives. split; [done|]. split; [done|]. split; [by left|].
    split; [destruct Hres as (_ & _ & _ & [(-> & -> & _)|H]); [by left|by right]|].
    by eapply alloc_result_charged.
  - exists r, st', own', lives', (f st1), lives1. split; [done|]. split; [done|]. split; [right; eauto|].
    split; [destruct Hres as (_ & _ & _ & [(-> & -> & _)|H]); [by left|by right]|].
    by eapply alloc_result_charged.
Qed.

(** Releasing a slab of a class: the call returns a context for the slab;
    either the slab has left the class and is where the mode sends it (back to
    the slab allocator for a resize, advised away or on the pool's free list,
    in the receiving class or on the pool's free list for a rebalance), or it
    is in release.  When nothing of it is held any more, completing sends it
    there. *)
Theorem pool_release_slab {base : Base} ok receiver mode hint z rnd st own lives (i : nat) c L :
  pool_inv st own lives [] -> ac_ (pool st) !! i = Some c -> lives !! i = Some L ->
  valid_receiver receiver st -> (receiver <> kInvalidClassId -> mode = kRebalance) ->
  chosen hint rnd c ∈ AllocationClass.freeSlabs_ c ++ AllocationClass.allocatedSlabs_ c ->
  exists ctx st' own', startSlabRelease ok (Z.of_nat i) receiver mode hint z rnd (fun _ => false) no_others st =
      (Ok ctx, st') /\ pool_inv st' own' lives [] /\ slab_ ctx = chosen hint rnd c /\
    if isReleased ctx
    then exists st1, released_to ok mode (slab_ ctx) receiver st1 own st' own'
    else own' = own /\
      ((forall p, p ∈ L -> ~ inSlabOf (slab_ ctx) p) ->
       exists st2 own2, completeSlabRelease ok [] ctx st' = (Ok tt, st2) /\ pool_inv st2 own2 lives [] /\
         exists st1, released_to ok mode (slab_ ctx) receiver st1 own' st2 own2).
Proof.
  intros Hinv Hi HL Hrec Hmode Hx.
  destruct (pool_startSlabRelease ok receiver mode hint z rnd st own lives i c L Hinv Hi HL Hrec Hmode Hx)
    as (ctx & st' & own' & Hrun & Hinv' & _ & Hs & Hr & Hm & Hres).
  exists ctx, st', own'. split_and!; try done. destruct (isReleased ctx) eqn:Hrel.
  - destruct Hres as (st1 & Hto & _). eauto.
  - destruct Hres as (-> & Hvic & c' & Hi' & Hir). split; [done|]. intros Hfree. rewrite <- Hr in Hrec.
    assert (Hrec' : valid_receiver (receiver_ ctx) st').
    { unfold valid_receiver in *. rewrite <- (pl_len _ _ _ _ Hinv'), (pl_len _ _ _ _ Hinv). done. }
    rewrite <- Hm, <- Hr in Hmode.
    destruct (pool_completeSlabRelease ok ctx st' own lives i c' L Hinv' Hi' HL Hrel Hvic Hir Hrec' Hmode Hfree)
      as (st2 & own2 & G1 & G2 & _ & st1 & G3). exists st2, own2. split_and!; try done.
    exists st1. by rewrite <- Hm, <- Hr.
Qed.

(** ** Witnesses *)

(** A pool of two classes on a region with three slabs. *)
Definition demo_sizes : list Z := [kSize / 2; kSize].
Definition demo_made : res MemoryPool := makeMemoryPool 3 (2 * kSize) SlabAllocatorSpec.demo_alloc demo_sizes.
Definition demo_pool : MemoryPool :=
  match demo_made with Ok p => p | Throw _ => mkMemoryPool 0 0 0 0 [] [] [] 0 0 0 0 end.
Definition demo_pst : PoolState := mkPoolState SlabAllocatorSpec.demo_alloc demo_pool.

Lemma demo_new_pool : new_pool 3 (2 * kSize) SlabAllocatorSpec.demo_alloc ∅ demo_sizes demo_pool.
Proof.
  split_and!; [|done|done| |by vm_compute].
  - apply (SlabAllocatorSpec.sa_inv_init ∅ true kSize (4 * kSize) false (SlabAllocator.mkConfig false false));
      [by split_and!|by vm_compute].
  - intros x _. unfold SlabAllocator.header.
    assert (SlabAllocator.headers SlabAllocatorSpec.demo_alloc = ∅) as -> by (by vm_compute).
    by rewrite lookup_empty.
Qed.

Definition demo_used : PoolState :=
  state_of (do! allocate (fun s => s) 100 in allocate (fun s => s) kSize) demo_pst.
Definition demo_lives : list (gset Z) := [{[ 2 * kSize ]}; {[ 3 * kSize ]}].

Lemma demo_pool_steps : pool_steps demo_pst (replicate 2 ∅) 0 demo_used demo_lives 0.
Proof.
  eapply pool_next; [eapply (ps_allocate _ _ 100 0 ∅ (2 * kSize)); [by vm_compute|done|by vm_compute|done]|].
  eapply pool_next; [eapply (ps_allocate _ _ kSize 1 ∅ (3 * kSize)); [by vm_compute|done|by vm_compute|done]|].
  match goal with |- pool_steps ?a ?l _ ?b ?k _ => assert (l = k) as -> by (by vm_compute) end.
  apply pool_refl.
Qed.


Lemma pool_size_class_witness : getAllocationClassId_size demo_pool (kSize / 2 + 1) = Ok 1.
Proof.
  rewrite (proj1 (pool_size_class SlabAllocatorSpec.demo_alloc demo_pool (kSize / 2 + 1) ltac:(by vm_compute))).
  by vm_compute.
Defined.

Lemma demo_used_inv : exists own, @pool_inv (base_at SlabAllocatorSpec.demo_alloc ∅ 0) demo_used own demo_lives [].
Proof. eapply pool_steps_inv; [exact demo_pool_steps|]. exact (proj1 (pool_init _ _ _ _ _ _ demo_new_pool)). Qed.

Lemma pool_allocate_limit_witness :
  exists r st', allocate (fun s => s) 200 demo_used = (Ok r, st') /\ (r = 0 \/ 0 < r /\ r ∉ ({[ 2 * kSize ]} : gset Z)).
Proof.
  destruct demo_used_inv as [own Hinv].
  destruct (pool_allocate_limit (base := base_at SlabAllocatorSpec.demo_alloc ∅ 0) demo_used own demo_lives (fun s => s) (fun l => l = demo_lives)
    (fun l => l = demo_lives) 200 0)
    as (r & st' & own' & lives' & st0 & lives0 & Hrun & _ & Hl & Hr & _).
  - exact Hinv.
  - intros st own0 l Hinv0 ->. by exists own0, demo_lives.
  - done.
  - done.
  - by vm_compute.
  - exists r, st'. split; [exact Hrun|]. assert (lives0 = demo_lives) as -> by (destruct Hl as [[_ ->]|[_ ->]]; done).
    destruct Hr as [[-> _]|(Hr & L & HL & Hn & _)]; [by left|]. right. split; [done|].
    injection HL as <-. done.
Defined.

Lemma pool_release_slab_witness :
  exists ctx st', startSlabRelease true 1 kInvalidClassId kResize (3 * kSize) false 0 (fun _ => false) no_others
      demo_used = (Ok ctx, st') /\ slab_ ctx = 3 * kSize.
Proof.
  destruct demo_used_inv as [own Hinv].
  destruct (lookup_lt_is_Some_2 (ac_ (pool demo_used)) 1) as [c Hc]; [vm_compute; lia|].
  destruct (pool_release_slab (base := base_at SlabAllocatorSpec.demo_alloc ∅ 0) true kInvalidClassId kResize (3 * kSize) false 0 demo_used own demo_lives 1 c
    {[ 3 * kSize ]}) as (ctx & st' & own' & Hrun & _ & Hs & _).
  - exact Hinv.
  - exact Hc.
  - reflexivity.
  - left. reflexivity.
  - intros H. by destruct H.
  - refine (bool_decide_eq_true_1 _ _). revert Hc. vm_compute. by intros [= <-].
  - exists ctx, st'. split; [exact Hrun|]. rewrite Hs. by vm_compute.
Defined.

(** ** Findings *)

(** Releasing a slab of the pool's free list takes it off the slab bytes,
    which did not count it: the next slab is taken beyond the limit. *)
Example release_free_slab_underflows :
  let '(r, st) := (do! allocate (fun s => s) 100 in do! free (2 * kSize) in
                   do! startSlabRelease true 0 kInvalidClassId kRebalance (2 * kSize) false 0 (fun _ => false)
                         no_others in
                   startSlabRelease true kInvalidClassId kInvalidClassId kResize 0 false 0 (fun _ => false)
                         no_others) demo_pst in
  (match r with Ok _ => True | Throw _ => False end) /\
  freeSlabs_ (pool st) = [] /\ pool_slabs (ac_ (pool st)) = [] /\ currSlabAllocSize_ (pool st) = 2 ^ 64 - kSize.
Proof. by vm_compute. Qed.

(** A pool that is shrunk below the slabs of its free list reports a huge
    number of slabs it could still take. *)
Example stats_unallocated_underflows :
  let '(r, st) := (do! allocate (fun s => s) 100 in do! free (2 * kSize) in
                   do! startSlabRelease true 0 kInvalidClassId kRebalance (2 * kSize) false 0 (fun _ => false)
                         no_others in
                   MemoryPool.resize (kSize / 2)) demo_pst in
  r = Ok tt /\ mps_freeSlabs (getStats (pool st)) = 1 /\ mps_slabsUnAllocated (getStats (pool st)) = 2 ^ 64 - 1.
Proof. by vm_compute. Qed.
