(* ===== verification/Preserves.v ===== *)
(** * What operations leave alone, whatever the state

    A computation preserves a reflexive and transitive relation when it ends in
    a state related to the one it started in, also when it throws.  The
    operations of the slab allocator, the allocation class and the pool
    preserve the memory region; those of a pool preserve its id, its limit and
    its sizes. *)

From S2P Require Import Prelude.
From S2P Require Import Slab.
From S2P Require SlabAllocator.
From S2P Require AllocationClass.
From S2P Require MemoryPool.
From stdpp Require Import base tactics numbers gmap list.

#[local] Open Scope Z_scope.
#[local] Open Scope cachelib_scope.

Definition preserves {S A} (R : S -> S -> Prop) (m : M S A) : Prop := forall s, R s (state_of m s).

Create HintDb preserve.

Section preserves.
Context {S : Type} (R : S -> S -> Prop) `{!PreOrder R}.

Lemma preserves_ret {A} (a : A) : preserves R (ret a).
Proof. intros s. reflexivity. Qed.
Lemma preserves_throw {A} e : preserves R (throw e : M S A).
Proof. intros s. reflexivity. Qed.
Lemma preserves_get : preserves R get.
Proof. intros s. reflexivity. Qed.
Lemma preserves_modify f : (forall s, R s (f s)) -> preserves R (modify f).
Proof. intros Hf s. apply Hf. Qed.
Lemma preserves_bind {A B} (m : M S A) (k : A -> M S B) :
  preserves R m -> (forall a, preserves R (k a)) -> preserves R (bind m k).
Proof.
  intros Hm Hk s. specialize (Hm s). unfold state_of, bind in *. destruct (m s) as [[a|e] s']; [|done].
  etransitivity; [exact Hm|apply Hk].
Qed.
End preserves.

(** Follow the structure of a computation; leaves go to the hints. *)
Ltac preserve :=
  repeat (intros; cbv zeta;
    match goal with
    | |- preserves _ (bind _ _) => apply preserves_bind; [exact _|..]
    | |- preserves _ (ret _) => apply preserves_ret; exact _
    | |- preserves _ (throw _) => apply preserves_throw; exact _
    | |- preserves _ get => apply preserves_get; exact _
    | |- preserves _ (match ?x with _ => _ end) => destruct x
    | |- preserves _ _ => solve [eauto with preserve]
    end).

(** ** The memory region of the slab allocator *)

Definition same_region (s s' : SlabAllocator.SlabAllocator) : Prop :=
  SlabAllocator.memoryStart_ s' = SlabAllocator.memoryStart_ s /\
  SlabAllocator.memorySize_ s' = SlabAllocator.memorySize_ s /\
  SlabAllocator.slabMemoryStart_ s' = SlabAllocator.slabMemoryStart_ s /\
  SlabAllocator.ownsMemory_ s' = SlabAllocator.ownsMemory_ s.

#[export] Instance same_region_preorder : PreOrder same_region.
Proof. split; [done|]. intros a b c (? & ? & ? & ?) (? & ? & ? & ?). split_and!; congruence. Qed.

Lemma modify_region f : (forall s, same_region s (f s)) -> preserves same_region (modify f).
Proof. apply preserves_modify. Qed.

#[export] Hint Extern 2 (preserves same_region (modify _)) =>
  apply modify_region; intros; split_and!; reflexivity : preserve.

Lemma addPoolSize_region id d : preserves same_region (SlabAllocator.addPoolSize id d).
Proof. unfold SlabAllocator.addPoolSize. preserve. Qed.
Lemma initializeHeader_region x id : preserves same_region (SlabAllocator.initializeHeader x id).
Proof. unfold SlabAllocator.initializeHeader. preserve. Qed.
#[export] Hint Resolve addPoolSize_region initializeHeader_region : preserve.

Lemma makeNewSlab_region id : preserves same_region (SlabAllocator.makeNewSlab id).
Proof. unfold SlabAllocator.makeNewSlab, SlabAllocator.makeNewSlabImpl. preserve. Qed.
Lemma freeSlab_region x : preserves same_region (SlabAllocator.freeSlab x).
Proof. unfold SlabAllocator.freeSlab. preserve. Qed.
Lemma adviseSlab_region ok x : preserves same_region (SlabAllocator.adviseSlab ok x).
Proof. unfold SlabAllocator.adviseSlab. preserve. Qed.
Lemma reclaimSlab_region id : preserves same_region (SlabAllocator.reclaimSlab id).
Proof. unfold SlabAllocator.reclaimSlab. preserve. Qed.
#[export] Hint Resolve makeNewSlab_region freeSlab_region adviseSlab_region reclaimSlab_region : preserve.

(** ** Allocation classes *)

(** The region, and the constants of the class. *)
Definition class_frame (st st' : AllocationClass.ACState) : Prop :=
  same_region (AllocationClass.slabAlloc_ st) (AllocationClass.slabAlloc_ st') /\
  AllocationClass.allocationSize_ (AllocationClass.self st') =
  AllocationClass.allocationSize_ (AllocationClass.self st) /\
  AllocationClass.classId_ (AllocationClass.self st') = AllocationClass.classId_ (AllocationClass.self st) /\
  AllocationClass.poolId_ (AllocationClass.self st') = AllocationClass.poolId_ (AllocationClass.self st).

#[export] Instance class_frame_preorder : PreOrder class_frame.
Proof.
  split; [done|]. intros a b c (Hab & ? & ? & ?) (Hbc & ? & ? & ?). split_and!; try congruence.
  by etransitivity.
Qed.

Lemma upd_class f :
  (forall c, AllocationClass.allocationSize_ (f c) = AllocationClass.allocationSize_ c /\
     AllocationClass.classId_ (f c) = AllocationClass.classId_ c /\
     AllocationClass.poolId_ (f c) = AllocationClass.poolId_ c) ->
  preserves class_frame (AllocationClass.upd f).
Proof. intros Hf. apply preserves_modify. intros st. split; [done|apply Hf]. Qed.
#[export] Hint Extern 2 (preserves class_frame (AllocationClass.upd _)) =>
  apply upd_class; intros; split_and!; reflexivity : preserve.

Lemma upd_header_class i f : preserves class_frame (AllocationClass.upd_header i f).
Proof. unfold AllocationClass.upd_header. apply preserves_modify. intros st. by split. Qed.
Lemma markFreed_class x i bs : preserves class_frame (AllocationClass.markFreed x i bs).
Proof. unfold AllocationClass.markFreed. preserve. Qed.
Lemma createRelMap_class x : preserves class_frame (AllocationClass.createSlabReleaseAllocMapLocked x).
Proof. unfold AllocationClass.createSlabReleaseAllocMapLocked. preserve. Qed.
Lemma getRelMap_class x : preserves class_frame (AllocationClass.getSlabReleaseAllocMapLocked x).
Proof. unfold AllocationClass.getSlabReleaseAllocMapLocked. preserve. Qed.
Lemma allocateLocked_class : preserves class_frame AllocationClass.allocateLocked.
Proof.
  unfold AllocationClass.allocateLocked, AllocationClass.setupCurrentSlabLocked,
    AllocationClass.allocateFromCurrentSlabLocked. preserve.
Qed.
#[export] Hint Resolve upd_header_class markFreed_class createRelMap_class getRelMap_class
  allocateLocked_class : preserve.

Lemma allocate_class : preserves class_frame AllocationClass.allocate.
Proof. unfold AllocationClass.allocate. preserve. Qed.
Lemma addSlabLocked_class x : preserves class_frame (AllocationClass.addSlabLocked x).
Proof. unfold AllocationClass.addSlabLocked. preserve. Qed.
#[export] Hint Resolve allocate_class addSlabLocked_class : preserve.
Lemma addSlab_class x : preserves class_frame (AllocationClass.addSlab x).
Proof. apply addSlabLocked_class. Qed.
Lemma addSlabAndAllocate_class x : preserves class_frame (AllocationClass.addSlabAndAllocate x).
Proof. unfold AllocationClass.addSlabAndAllocate. preserve. Qed.
Lemma free_class p : preserves class_frame (AllocationClass.free p).
Proof. unfold AllocationClass.free. preserve. Qed.
Lemma abort_class ctx : preserves class_frame (AllocationClass.abortSlabRelease ctx).
Proof. unfold AllocationClass.abortSlabRelease. preserve. Qed.
#[export] Hint Resolve addSlab_class addSlabAndAllocate_class free_class abort_class : preserve.

(** Releases, when the other threads preserve the frame. *)
Definition quiet (f : AllocationClass.ACState -> AllocationClass.ACState) : Prop :=
  forall st, class_frame st (f st).

Lemma modify_quiet f : quiet f -> preserves class_frame (modify f).
Proof. apply preserves_modify. Qed.
#[export] Hint Resolve modify_quiet : preserve.

Lemma startLocked_class mode hint rnd : preserves class_frame (AllocationClass.startSlabReleaseLocked mode hint rnd).
Proof. unfold AllocationClass.startSlabReleaseLocked. preserve. Qed.
Lemma markInSlab_class x ins : preserves class_frame (AllocationClass.markInSlab x ins).
Proof. induction ins; cbn [AllocationClass.markInSlab]; preserve. Qed.
#[export] Hint Resolve startLocked_class markInSlab_class : preserve.
Lemma pruneRound_class x l : preserves class_frame (AllocationClass.pruneRoundLocked x l).
Proof. unfold AllocationClass.pruneRoundLocked. preserve. Qed.
#[export] Hint Resolve pruneRound_class : preserve.
Lemma pruneLoop_class fuel k sa others x l :
  (forall j, quiet (others j)) -> preserves class_frame (AllocationClass.pruneLoop fuel k sa others x l).
Proof.
  intros Hq. revert k l. induction fuel as [|fuel IH]; intros k l; cbn [AllocationClass.pruneLoop]; preserve.
Qed.
#[export] Hint Resolve pruneLoop_class : preserve.
Lemma startSlabRelease_class mode hint rnd sa others :
  (forall j, quiet (others j)) ->
  preserves class_frame (AllocationClass.startSlabRelease mode hint rnd sa others).
Proof. intros Hq. unfold AllocationClass.startSlabRelease, AllocationClass.pruneFreeAllocs. preserve. Qed.
Lemma wait_class others x : Forall quiet others -> preserves class_frame (AllocationClass.waitUntilAllFreed others x).
Proof.
  unfold AllocationClass.waitUntilAllFreed. induction 1; unfold AllocationClass.allFreed; preserve.
Qed.
#[export] Hint Resolve startSlabRelease_class wait_class : preserve.
Lemma complete_class others ctx :
  Forall quiet others -> preserves class_frame (AllocationClass.completeSlabRelease others ctx).
Proof. intros Hq. unfold AllocationClass.completeSlabRelease. preserve. Qed.
#[export] Hint Resolve complete_class : preserve.

(** ** Pools *)

Import MemoryPool.

(** The region, and the id, the limit and the sizes of the pool. *)
Definition pool_frame (st st' : PoolState) : Prop :=
  same_region (slabAllocator_ st) (slabAllocator_ st') /\
  id_ (pool st') = id_ (pool st) /\ maxSize_ (pool st') = maxSize_ (pool st) /\
  acSizes_ (pool st') = acSizes_ (pool st).

#[export] Instance pool_frame_preorder : PreOrder pool_frame.
Proof.
  split; [done|]. intros a b c (Hab & ? & ? & ?) (Hbc & ? & ? & ?). split_and!; try congruence.
  by etransitivity.
Qed.

Lemma upd_pool f :
  (forall p, id_ (f p) = id_ p /\ maxSize_ (f p) = maxSize_ p /\ acSizes_ (f p) = acSizes_ p) ->
  preserves pool_frame (upd f).
Proof. intros Hf. apply preserves_modify. intros st. split; [done|apply Hf]. Qed.
#[export] Hint Extern 2 (preserves pool_frame (upd _)) =>
  apply upd_pool; intros; split_and!; reflexivity : preserve.

Lemma addSlabAllocSize_pool d : preserves pool_frame (addSlabAllocSize d).
Proof. unfold addSlabAllocSize. preserve. Qed.
Lemma addAllocSize_pool d : preserves pool_frame (addAllocSize d).
Proof. unfold addAllocSize. preserve. Qed.
Lemma lift_pool {A} (r : res A) : preserves pool_frame (lift r).
Proof. intros st. by split. Qed.
Lemma onSlabs_pool {A} (m : M SlabAllocator.SlabAllocator A) :
  preserves same_region m -> preserves pool_frame (onSlabs m).
Proof.
  intros Hm st. specialize (Hm (slabAllocator_ st)). unfold state_of, onSlabs in *.
  destruct (m (slabAllocator_ st)) as [r s']. by split.
Qed.
Lemma onClass_pool {A} cid (m : M AllocationClass.ACState A) :
  preserves class_frame m -> preserves pool_frame (onClass cid m).
Proof.
  intros Hm st. unfold state_of, onClass. destruct (ac_ (pool st) !! Z.to_nat cid) as [c|]; [|by split].
  specialize (Hm (AllocationClass.mkACState (slabAllocator_ st) c)). unfold state_of in Hm.
  destruct (m _) as [r st']. split; [apply Hm|done].
Qed.
#[export] Hint Resolve addSlabAllocSize_pool addAllocSize_pool lift_pool onSlabs_pool onClass_pool : preserve.

Lemma getSlabLocked_pool : preserves pool_frame getSlabLocked.
Proof. unfold getSlabLocked. preserve. Qed.
#[export] Hint Resolve getSlabLocked_pool : preserve.

Lemma allocate_pool others size :
  (forall st, pool_frame st (others st)) -> preserves pool_frame (allocate others size).
Proof.
  intros Ho. assert (preserves pool_frame (modify others)) by (by apply preserves_modify).
  unfold allocate. preserve.
Qed.
Lemma free_pool p : preserves pool_frame (free p).
Proof. unfold free. preserve. Qed.
Lemma takeSlabs_pool n slabs : preserves pool_frame (takeSlabs n slabs).
Proof. revert slabs. induction n; intros slabs; cbn [takeSlabs]; preserve. Qed.
Lemma freeAllSlabs_pool slabs : preserves pool_frame (freeAllSlabs slabs).
Proof. induction slabs; cbn [freeAllSlabs]; preserve. Qed.
Lemma addSlabs_pool cid n slabs : preserves pool_frame (addSlabs cid n slabs).
Proof. revert slabs. induction n; intros slabs; cbn [addSlabs]; preserve. Qed.
#[export] Hint Resolve takeSlabs_pool freeAllSlabs_pool addSlabs_pool : preserve.
Lemma distribute_pool cid dist slabs : preserves pool_frame (distribute cid dist slabs).
Proof. revert cid slabs. induction dist; intros cid slabs; cbn [distribute]; preserve. Qed.
#[export] Hint Resolve distribute_pool : preserve.
Lemma provision_pool dist : preserves pool_frame (provision dist).
Proof. unfold provision. preserve. Qed.
Lemma releaseSlab_pool ok mode x z r : preserves pool_frame (releaseSlab ok mode x z r).
Proof. unfold releaseSlab. preserve. Qed.
Lemma reclaimLoop_pool n k : preserves pool_frame (reclaimLoop n k).
Proof. revert k. induction n; intros k; cbn [reclaimLoop]; preserve. Qed.
#[export] Hint Resolve releaseSlab_pool reclaimLoop_pool : preserve.
Lemma reclaim_pool n : preserves pool_frame (reclaimSlabsAndGrow n).
Proof. unfold reclaimSlabsAndGrow. preserve. Qed.
Lemma startSlabRelease_pool ok v r mode hint z rnd sa others :
  (forall j, quiet (others j)) -> preserves pool_frame (startSlabRelease ok v r mode hint z rnd sa others).
Proof. intros Hq. unfold startSlabRelease, releaseFromFreeSlabs. preserve. Qed.
Lemma abort_pool ctx : preserves pool_frame (abortSlabRelease ctx).
Proof. unfold abortSlabRelease. preserve. Qed.
Lemma complete_pool ok others ctx :
  Forall quiet others -> preserves pool_frame (completeSlabRelease ok others ctx).
Proof. intros Hq. unfold completeSlabRelease. preserve. Qed.
#[export] Hint Resolve allocate_pool free_pool provision_pool reclaim_pool startSlabRelease_pool
  abort_pool complete_pool : preserve.

Lemma same_region_slabs s s' :
  same_region s s' -> SlabAllocator.getNumUsableAndAdvisedSlabs s' = SlabAllocator.getNumUsableAndAdvisedSlabs s.
Proof.
  intros (H1 & H2 & H3 & _). unfold SlabAllocator.getNumUsableAndAdvisedSlabs, SlabAllocator.getSlabMemoryEnd.
  by rewrite H1, H2, H3.
Qed.
