(* ===== verification/MemoryPoolManager.v ===== *)
(** * Memory pool manager

    Models [MemoryPoolManager]
    (cachelib/allocator/memory/MemoryPoolManager.{h,cpp}): the pools of an
    allocator by id and by name, their sizes, and how many slabs each pool
    advises away or takes back.

    The state is the slab allocator and the members of the manager.  An entry
    of the array [pools_] is null until its pool is created; using a null or
    out-of-range entry is undefined behaviour.  Each operation that takes the
    manager's lock is atomic. *)

From S2P Require Import Prelude.
From S2P Require Import Slab.
From S2P Require SlabAllocator.
From S2P Require AllocationClass.
From S2P Require MemoryPool.
From stdpp Require Import base tactics numbers gmap list strings.

#[local] Open Scope Z_scope.
#[local] Open Scope cachelib_scope.

Definition kMaxPools : Z := 64.

Record MemoryPoolManager : Type := mkMemoryPoolManager {
  pools_ : list (option MemoryPool.MemoryPool);
  poolsByName_ : gmap string Z;
  nextPoolId_ : Z
}.

Record ManagerState : Type := mkManagerState {
  slabAlloc_ : SlabAllocator.SlabAllocator;
  mgr : MemoryPoolManager
}.

Definition makeMemoryPoolManager : MemoryPoolManager :=
  mkMemoryPoolManager (replicate (Z.to_nat kMaxPools) None) ∅ 0.

(** [*pools_[id]]. *)
Definition poolAt (g : MemoryPoolManager) (id : Z) : res MemoryPool.MemoryPool :=
  if id <? 0 then Throw UndefinedBehavior
  else match pools_ g !! Z.to_nat id with
       | Some (Some p) => Ok p
       | _ => Throw UndefinedBehavior
       end.

Definition set_pool (id : Z) (p : MemoryPool.MemoryPool) (g : MemoryPoolManager) : MemoryPoolManager :=
  mkMemoryPoolManager (<[Z.to_nat id := Some p]> (pools_ g)) (poolsByName_ g) (nextPoolId_ g).

Definition liftM {A} (r : res A) : M ManagerState A := fun st => (r, st).

(** A call into the pool [*pools_[id]]. *)
Definition onPool {A} (id : Z) (m : M MemoryPool.PoolState A) : M ManagerState A :=
  fun st =>
    match poolAt (mgr st) id with
    | Throw e => (Throw e, st)
    | Ok p =>
        let '(r, ps) := m (MemoryPool.mkPoolState (slabAlloc_ st) p) in
        (r, mkManagerState (MemoryPool.slabAllocator_ ps) (set_pool id (MemoryPool.pool ps) (mgr st)))
    end.

(** ** Pools by id and by name *)

(** Sums over the pools below [nextPoolId_]. *)
Fixpoint sumPools (f : MemoryPool.MemoryPool -> Z) (n : nat) (g : MemoryPoolManager) : res Z :=
  match n with
  | O => Ok 0
  | S n' =>
      match sumPools f n' g with
      | Throw e => Throw e
      | Ok sum => match poolAt g (Z.of_nat n') with
                  | Throw e => Throw e
                  | Ok p => Ok (u64 (sum + f p))
                  end
      end
  end.

Definition getNumSlabsAdvised (g : MemoryPoolManager) : res Z :=
  sumPools MemoryPool.getNumSlabsAdvised (Z.to_nat (nextPoolId_ g)) g.
Definition getAdvisedMemorySize (g : MemoryPoolManager) : res Z :=
  sumPools MemoryPool.getPoolAdvisedSize (Z.to_nat (nextPoolId_ g)) g.

Definition getRemainingSizeLocked (st : ManagerState) : res Z :=
  let totalSize := u64 (SlabAllocator.getNumUsableAndAdvisedSlabs (slabAlloc_ st) * kSize) in
  match sumPools MemoryPool.getPoolSize (Z.to_nat (nextPoolId_ (mgr st))) (mgr st) with
  | Throw e => Throw e
  | Ok sum => Ok (u64 (totalSize - sum))
  end.
Definition getBytesUnReserved (st : ManagerState) : res Z := getRemainingSizeLocked st.

Definition createNewPool (name : string) (poolSize : Z) (allocSizes : list Z) : M ManagerState Z :=
  let! st := get in
  let g := mgr st in
  match poolsByName_ g !! name with
  | Some _ => throw InvalidArgument
  | None =>
      if nextPoolId_ g =? kMaxPools then throw LogicError
      else
        let! remaining := liftM (getRemainingSizeLocked st) in
        if remaining <? poolSize then throw InvalidArgument
        else
          let id := nextPoolId_ g in
          let! p := liftM (MemoryPool.makeMemoryPool id poolSize (slabAlloc_ st) allocSizes) in
          do! modify (fun st => mkManagerState (slabAlloc_ st) (mkMemoryPoolManager
                (<[Z.to_nat id := Some p]> (pools_ (mgr st)))
                (<[name := id]> (poolsByName_ (mgr st))) (id + 1))) in
          ret id
  end.

Definition provisionPool (pid : Z) (slabsDistribution : list Z) : M ManagerState bool :=
  if kMaxPools <=? pid then throw InvalidArgument
  else onPool pid (MemoryPool.provision slabsDistribution).

(** The ids of the pools [getPoolByName] and [getPoolById] refer to. *)
Definition getPoolByName (g : MemoryPoolManager) (name : string) : res Z :=
  match poolsByName_ g !! name with
  | None => Throw InvalidArgument
  | Some id => match poolAt g id with Throw e => Throw e | Ok _ => Ok id end
  end.
Definition getPoolById (g : MemoryPoolManager) (id : Z) : res Z :=
  if (id <? nextPoolId_ g) && (0 <=? id)
  then match poolAt g id with Throw e => Throw e | Ok _ => Ok id end
  else Throw InvalidArgument.

(** The loop over the hash map takes its elements in the order of
    [map_to_list]. *)
Definition getPoolNameById (g : MemoryPoolManager) (id : Z) : res string :=
  match list_find (fun kv : string * Z => kv.2 = id) (map_to_list (poolsByName_ g)) with
  | Some (_, kv) => Ok kv.1
  | None => Throw InvalidArgument
  end.
Definition getPoolIds (g : MemoryPoolManager) : list Z :=
  Z.of_nat <$> seq 0 (Z.to_nat (nextPoolId_ g)).

(** ** Sizes of pools *)

Definition poolSize (id : Z) : M ManagerState Z :=
  let! st := get in
  match poolAt (mgr st) id with
  | Throw e => throw e
  | Ok p => ret (MemoryPool.getPoolSize p)
  end.

Definition resizePools (src dest bytes : Z) : M ManagerState bool :=
  let! st := get in
  do! liftM (getPoolById (mgr st) src) in
  do! liftM (getPoolById (mgr st) dest) in
  let! s := poolSize src in
  if s <? bytes then ret false
  else
    do! onPool src (MemoryPool.resize (s - bytes)) in
    let! d := poolSize dest in
    do! onPool dest (MemoryPool.resize (u64 (d + bytes))) in
    ret true.

Definition shrinkPool (pid bytes : Z) : M ManagerState bool :=
  let! st := get in
  do! liftM (getPoolById (mgr st) pid) in
  let! s := poolSize pid in
  if s <? bytes then ret false
  else do! onPool pid (MemoryPool.resize (s - bytes)) in ret true.

Definition growPool (pid bytes : Z) : M ManagerState bool :=
  let! st := get in
  do! liftM (getPoolById (mgr st) pid) in
  let! remaining := liftM (getRemainingSizeLocked st) in
  if remaining <? bytes then ret false
  else
    let! s := poolSize pid in
    do! onPool pid (MemoryPool.resize (u64 (s + bytes))) in ret true.

Fixpoint poolsOverLimit (g : MemoryPoolManager) (ids : list Z) : res (gset Z) :=
  match ids with
  | [] => Ok ∅
  | id :: ids' =>
      match getPoolById g id, poolAt g id with
      | Ok _, Ok p =>
          match poolsOverLimit g ids' with
          | Throw e => Throw e
          | Ok res => Ok (if MemoryPool.overLimit p then {[ id ]} ∪ res else res)
          end
      | Throw e, _ | _, Throw e => Throw e
      end
  end.
Definition getPoolsOverLimit (g : MemoryPoolManager) : res (gset Z) :=
  poolsOverLimit g (map_to_list (poolsByName_ g)).*2.

(** ** Slabs to advise away and to reclaim *)

(** [map[id]] of a map whose missing entries are 0. *)
Definition at_ (m : gmap Z Z) (id : Z) : Z := default 0 (m !! id).

(** The first loop of [getTargetSlabsToAdvise]. *)
Fixpoint targetsByShare (numSlabsToAdvise totalSlabsInUse : Z) (numSlabsInUse : gmap Z Z)
    (ids : list Z) (targets : gmap Z Z) (sum : Z) : gmap Z Z * Z :=
  match ids with
  | [] => (targets, sum)
  | id :: ids' =>
      let t := u64 (at_ numSlabsInUse id * numSlabsToAdvise) / totalSlabsInUse in
      targetsByShare numSlabsToAdvise totalSlabsInUse numSlabsInUse ids'
        (<[id := t]> targets) (u64 (sum + t))
  end.

(** The second loop. *)
Fixpoint targetsRemainder (numSlabsToAdvise totalSlabsInUse : Z) (numSlabsInUse : gmap Z Z)
    (ids : list Z) (targets : gmap Z Z) (sum : Z) : gmap Z Z * Z :=
  match ids with
  | [] => (targets, sum)
  | id :: ids' =>
      if sum <? numSlabsToAdvise then
        if u64 (at_ targets id * totalSlabsInUse) / numSlabsToAdvise <? at_ numSlabsInUse id
        then targetsRemainder numSlabsToAdvise totalSlabsInUse numSlabsInUse ids'
               (<[id := u64 (at_ targets id + 1)]> targets) (u64 (sum + 1))
        else targetsRemainder numSlabsToAdvise totalSlabsInUse numSlabsInUse ids' targets sum
      else (targets, sum)
  end.

Definition getTargetSlabsToAdvise (numSlabsToAdvise : Z) (poolIds : list Z) (totalSlabsInUse : Z)
    (numSlabsInUse : gmap Z Z) : gmap Z Z * Z :=
  let '(targets, sum) := targetsByShare numSlabsToAdvise totalSlabsInUse numSlabsInUse poolIds ∅ 0 in
  targetsRemainder numSlabsToAdvise totalSlabsInUse numSlabsInUse poolIds targets sum.

(** Usage of the pools: the slabs in use by pool, their sum, and the slabs
    advised away. *)
Fixpoint poolUsage (g : MemoryPoolManager) (ids : list Z) (inUse : gmap Z Z) (total advised : Z)
  : res (gmap Z Z * Z * Z) :=
  match ids with
  | [] => Ok (inUse, total, advised)
  | id :: ids' =>
      match poolAt g id with
      | Throw e => Throw e
      | Ok p =>
          let n := MemoryPool.getCurrentUsedSize p / kSize in
          poolUsage g ids' (<[id := n]> inUse) (u64 (total + n))
            (u64 (advised + MemoryPool.getNumSlabsAdvised p))
      end
  end.

(** The loops that hand out the difference: [more] tells a pool that is to
    advise (its target is above what it has) from one that is to reclaim. *)
Fixpoint shareDiff (more : bool) (g : MemoryPoolManager) (targets : gmap Z Z) (ids : list Z)
    (diff : Z) (acc : gmap Z Z) : res (gmap Z Z) :=
  match ids with
  | [] => Ok acc
  | id :: ids' =>
      if diff =? 0 then Ok acc
      else
        match poolAt g id with
        | Throw e => Throw e
        | Ok p =>
            let slabsToAdvise := at_ targets id in
            let currSlabsAdvised := MemoryPool.getNumSlabsAdvised p in
            if (if more then slabsToAdvise <=? currSlabsAdvised else currSlabsAdvised <=? slabsToAdvise)
            then shareDiff more g targets ids' diff acc
            else
              let n := Z.min (if more then slabsToAdvise - currSlabsAdvised
                              else currSlabsAdvised - slabsToAdvise) diff in
              shareDiff more g targets ids' (diff - n)
                (match acc !! id with Some _ => acc | None => <[id := n]> acc end)
        end
  end.

Record PoolAdviseReclaimData : Type := mkPoolAdviseReclaimData {
  poolAdviseReclaimMap : gmap Z Z;
  advise : bool
}.

Definition calcNumSlabsToAdviseReclaim (g : MemoryPoolManager) (numSlabsToAdvise : Z)
    (poolIds : list Z) : res PoolAdviseReclaimData :=
  match poolUsage g poolIds ∅ 0 0 with
  | Throw e => Throw e
  | Ok (numSlabsInUse, totalSlabsInUse, totalSlabsAdvised) =>
      if (totalSlabsInUse =? 0) || ((numSlabsToAdvise =? 0) && (totalSlabsAdvised =? 0))
      then Ok (mkPoolAdviseReclaimData ∅ false)
      else
        let '(targets, _) :=
          getTargetSlabsToAdvise numSlabsToAdvise poolIds totalSlabsInUse numSlabsInUse in
        let more := totalSlabsAdvised <? numSlabsToAdvise in
        let diff := if more then numSlabsToAdvise - totalSlabsAdvised
                    else totalSlabsAdvised - numSlabsToAdvise in
        match shareDiff more g targets poolIds diff ∅ with
        | Throw e => Throw e
        | Ok map => Ok (mkPoolAdviseReclaimData map more)
        end
  end.

(** ** Saving and restoring *)

Record MemoryPoolManagerObject : Type := mkMemoryPoolManagerObject {
  mo_pools : list MemoryPool.MemoryPoolObject;
  mo_poolsByName : gmap string Z;
  mo_nextPoolId : Z
}.

Fixpoint savePools (st : ManagerState) (ids : list Z) : res (list MemoryPool.MemoryPoolObject) :=
  match ids with
  | [] => Ok []
  | id :: ids' =>
      match poolAt (mgr st) id with
      | Throw e => Throw e
      | Ok p =>
          match MemoryPool.saveState (MemoryPool.mkPoolState (slabAlloc_ st) p) with
          | Throw e => Throw e
          | Ok o => match savePools st ids' with Throw e => Throw e | Ok os => Ok (o :: os) end
          end
      end
  end.

Definition saveState (st : ManagerState) : res MemoryPoolManagerObject :=
  if negb (SlabAllocator.isRestorable (slabAlloc_ st)) then Throw LogicError
  else
    match savePools st (getPoolIds (mgr st)) with
    | Throw e => Throw e
    | Ok os => Ok (mkMemoryPoolManagerObject os (poolsByName_ (mgr st)) (nextPoolId_ (mgr st)))
    end.

Fixpoint restorePools (s : SlabAllocator.SlabAllocator) (os : list MemoryPool.MemoryPoolObject)
  : res (list (option MemoryPool.MemoryPool)) :=
  match os with
  | [] => Ok []
  | o :: os' =>
      match MemoryPool.restoreMemoryPool s o with
      | Throw e => Throw e
      | Ok p => match restorePools s os' with Throw e => Throw e | Ok ps => Ok (Some p :: ps) end
      end
  end.

(** [nextPoolIdSet]: whether the saved object has the field [nextPoolId]. *)
Definition restoreMemoryPoolManager (s : SlabAllocator.SlabAllocator) (o : MemoryPoolManagerObject)
    (nextPoolIdSet : bool) : res MemoryPoolManager :=
  if negb (SlabAllocator.isRestorable s) then Throw LogicError
  else if negb nextPoolIdSet then Throw LogicError
  else if negb (Z.of_nat (length (mo_pools o)) =? u64 (mo_nextPoolId o)) then Throw LogicError
  else if kMaxPools <? Z.of_nat (length (mo_pools o)) then Throw UndefinedBehavior
  else
    match restorePools s (mo_pools o) with
    | Throw e => Throw e
    | Ok ps =>
        if negb (Z.of_nat (size (mo_poolsByName o)) =? u64 (mo_nextPoolId o)) then Throw LogicError
        else
          let g := mkMemoryPoolManager (ps ++ replicate (Z.to_nat kMaxPools - length ps) None)
                     (mo_poolsByName o) (mo_nextPoolId o) in
          match getNumSlabsAdvised g with
          | Throw e => Throw e
          | Ok slabsAdvised =>
              if negb (slabsAdvised =? SlabAllocator.numSlabsReclaimable s) then Throw LogicError
              else Ok g
          end
    end.
