(* ===== verification/MemoryPoolManagerSpec.v ===== *)
(** * Memory pool manager: correctness and theorems *)

From S2P Require Import Prelude Slab Preserves MemoryPoolManager.
From S2P Require SlabAllocator SlabAllocatorSpec MemoryPool.
From stdpp Require Import base tactics numbers gmap list strings.

#[local] Open Scope Z_scope.
#[local] Open Scope cachelib_scope.

(** ** Memory pool manager: correctness

    The pools by id and by name, the sum of their sizes, and the arithmetic of
    the slabs to advise away or reclaim. *)

Implicit Types (st : ManagerState) (g : MemoryPoolManager) (id : Z) (ids : list Z).

(** ** Targets *)

Section targets.
Context (N T : Z) (u : gmap Z Z) (HN : 0 <= N < 2 ^ 32) (HT : 0 < T < 2 ^ 32).

Definition share id : Z := at_ u id * N / T.
Definition part id : Z := (at_ u id * N) mod T.

Definition in_bounds ids : Prop := forall id, id ∈ ids -> 0 <= at_ u id <= T.

Lemma share_bounds id : 0 <= at_ u id <= T -> 0 <= share id <= N /\ 0 <= part id < T /\
  at_ u id * N = T * share id + part id.
Proof using HN HT.
  intros Hu. unfold share, part. pose proof (Z.mod_pos_bound (at_ u id * N) T ltac:(lia)).
  pose proof (Z.div_mod (at_ u id * N) T ltac:(lia)). split_and!; try lia.
  - apply Z.div_pos; nia.
  - apply Z.div_le_upper_bound; nia.
Qed.

(** The first loop writes the shares. *)
Lemma byShare_spec ids targets sum :
  in_bounds ids -> NoDup ids -> 0 <= sum -> sum + sumZ (share <$> ids) < 2 ^ 64 ->
  exists targets', targetsByShare N T u ids targets sum = (targets', sum + sumZ (share <$> ids)) /\
    forall id, at_ targets' id = if decide (id ∈ ids) then share id else at_ targets id.
Proof using HN HT.
  revert targets sum. induction ids as [|i ids IH]; intros targets sum Hb Hnd Hs Hlt; cbn [targetsByShare].
  { exists targets. cbn. rewrite Z.add_0_r. split; [done|]. intros id. by rewrite decide_False by set_solver. }
  apply NoDup_cons in Hnd as [Hni Hnd]. cbn [fmap list_fmap] in Hlt |- *.
  change (sumZ (share i :: _)) with (share i + sumZ (share <$> ids)) in Hlt |- *.
  destruct (share_bounds i) as (Hsi & _ & _); [apply Hb; set_solver|].
  assert (Hb' : in_bounds ids) by (intros id Hid; apply Hb; set_solver).
  assert (Hnn : 0 <= sumZ (share <$> ids)).
  { apply sumZ_nonneg. intros x (id & -> & Hid)%list_elem_of_fmap. by apply share_bounds, Hb'. }
  rewrite (u64_small (at_ u i * N)) by (destruct (Hb i ltac:(set_solver)); unfold is_u64; nia).
  fold (share i). rewrite u64_small by (unfold is_u64; lia).
  destruct (IH (<[i := share i]> targets) (sum + share i) Hb' Hnd ltac:(lia) ltac:(lia)) as (t' & Hrun & Ht).
  exists t'. split; [rewrite Hrun; f_equal; lia|]. intros id. rewrite Ht.
  destruct (decide (id ∈ ids)) as [Hin|Hin]; [by rewrite decide_True by set_solver|].
  unfold at_. destruct (decide (id = i)) as [->|Hne].
  - rewrite lookup_insert_eq, decide_True by set_solver. done.
  - rewrite lookup_insert_ne, decide_False by set_solver. done.
Qed.

(** The second loop raises shares that were rounded down, until the sum is
    [N]. *)
Lemma remainder_spec ids targets sum :
  in_bounds ids -> NoDup ids -> 0 <= sum <= N ->
  (forall id, id ∈ ids -> at_ targets id = share id) ->
  T * (N - sum) <= sumZ (part <$> ids) ->
  exists targets', targetsRemainder N T u ids targets sum = (targets', N) /\
    (forall id, id ∉ ids -> at_ targets' id = at_ targets id) /\
    (forall id, id ∈ ids -> at_ targets' id = share id \/ (at_ targets' id = share id + 1 /\ 0 < part id)) /\
    sumZ (at_ targets' <$> ids) = sumZ (at_ targets <$> ids) + (N - sum).
Proof using HN HT.
  revert targets sum. induction ids as [|i ids IH]; intros targets sum Hb Hnd Hs Ht Hp; cbn [targetsRemainder].
  { cbn in Hp. assert (sum = N) as -> by nia. exists targets. cbn. split_and!; try done; [set_solver|lia]. }
  apply NoDup_cons in Hnd as [Hni Hnd]. cbn [fmap list_fmap] in Hp |- *.
  change (sumZ (part i :: _)) with (part i + sumZ (part <$> ids)) in Hp.
  destruct (share_bounds i) as (Hsi & Hpi & Hdm); [apply Hb; set_solver|].
  assert (Hb' : in_bounds ids) by (intros id Hid; apply Hb; set_solver).
  destruct (Hb i ltac:(set_solver)) as [Hu0 Hu1].
  destruct (Z.ltb_spec sum N) as [Hlt|Hge].
  2: { assert (sum = N) as -> by lia. exists targets. split_and!; [done|done| |lia].
       intros id Hid. left. by apply Ht. }
  rewrite (Ht i) by set_solver. rewrite (u64_small (share i * T)) by (unfold is_u64; nia).
  assert (Hcmp : share i * T / N <? at_ u i = (0 <? part i)).
  { destruct (Z.ltb_spec 0 (part i)) as [Hpos|Hz].
    - apply Z.ltb_lt. apply Z.div_lt_upper_bound; nia.
    - apply Z.ltb_ge. apply Z.div_le_lower_bound; nia. }
  rewrite Hcmp. destruct (Z.ltb_spec 0 (part i)) as [Hpos|Hz].
  - rewrite (u64_small (sum + 1)), (u64_small (share i + 1)) by (unfold is_u64; lia).
    destruct (IH (<[i := share i + 1]> targets) (sum + 1) Hb' Hnd ltac:(lia)) as (t' & Hrun & H1 & H2 & H3).
    + intros id Hid. unfold at_. rewrite lookup_insert_ne by (intros ->; done). apply Ht. set_solver.
    + lia.
    + exists t'. split; [done|].
      assert (Hi : at_ t' i = share i + 1) by (rewrite H1 by done; unfold at_; by rewrite lookup_insert_eq).
      assert (Heq : sumZ (at_ (<[i:=share i + 1]> targets) <$> ids) = sumZ (at_ targets <$> ids)).
      { f_equal. apply list_fmap_ext. intros k id Hk. unfold at_. rewrite lookup_insert_ne; [done|].
        intros ->. by apply list_elem_of_lookup_2 in Hk. }
      split_and!.
      * intros id Hid. rewrite H1 by set_solver. unfold at_. by rewrite lookup_insert_ne by set_solver.
      * intros id [->|Hid]%elem_of_cons; [by right|by apply H2].
      * change (sumZ (at_ t' i :: _)) with (at_ t' i + sumZ (at_ t' <$> ids)).
        change (sumZ (share i :: ?l)) with (share i + sumZ l). rewrite H3, Heq, Hi. lia.
  - destruct (IH targets sum Hb' Hnd Hs) as (t' & Hrun & H1 & H2 & H3);
      [intros id Hid; apply Ht; set_solver|lia|].
    exists t'. split; [done|]. split_and!.
    + intros id Hid. apply H1. set_solver.
    + intros id [->|Hid]%elem_of_cons; [left; rewrite H1 by done; apply Ht; set_solver|by apply H2].
    + change (sumZ (at_ t' i :: _)) with (at_ t' i + sumZ (at_ t' <$> ids)).
      change (sumZ (share i :: ?l)) with (share i + sumZ l).
      rewrite H3, (H1 i), (Ht i) by set_solver. lia.
Qed.

Lemma shares_sum ids :
  in_bounds ids -> sumZ (at_ u <$> ids) * N = T * sumZ (share <$> ids) + sumZ (part <$> ids).
Proof using HN HT.
  induction ids as [|i ids IH]; intros Hb; cbn [fmap list_fmap]; [cbn; lia|].
  change (sumZ (at_ u i :: ?l)) with (at_ u i + sumZ l). change (sumZ (share i :: ?l)) with (share i + sumZ l).
  change (sumZ (part i :: ?l)) with (part i + sumZ l).
  destruct (share_bounds i) as (_ & _ & Hdm); [apply Hb; set_solver|].
  rewrite !Z.mul_add_distr_r, IH by (intros id Hid; apply Hb; set_solver). lia.
Qed.

(** The targets add up to [N] and each is the pool's share of [N], rounded. *)
Lemma targets_spec ids :
  NoDup ids -> (forall id, id ∈ ids -> 0 <= at_ u id) -> sumZ (at_ u <$> ids) = T ->
  exists targets, getTargetSlabsToAdvise N ids T u = (targets, N) /\ sumZ (at_ targets <$> ids) = N /\
    forall id, id ∈ ids -> T * at_ targets id - T < at_ u id * N < T * at_ targets id + T /\
      0 <= at_ targets id /\ (N <= T -> at_ targets id <= at_ u id).
Proof using HN HT.
  intros Hnd Hu Hsum.
  assert (Hb : in_bounds ids).
  { intros id Hid. split; [by apply Hu|]. rewrite <- Hsum. clear -Hid Hu.
    induction ids as [|i ids IH]; [by apply not_elem_of_nil in Hid|]. cbn [fmap list_fmap].
    change (sumZ (at_ u i :: ?l)) with (at_ u i + sumZ l).
    assert (0 <= sumZ (at_ u <$> ids)).
    { apply sumZ_nonneg. intros x (j & -> & Hj)%list_elem_of_fmap. apply Hu. set_solver. }
    pose proof (Hu i ltac:(set_solver)). apply elem_of_cons in Hid as [->|Hid]; [lia|].
    specialize (IH ltac:(intros; apply Hu; set_solver) Hid). lia. }
  pose proof (shares_sum ids Hb) as Hss. rewrite Hsum in Hss.
  assert (Hp0 : 0 <= sumZ (part <$> ids)).
  { apply sumZ_nonneg. intros x (j & -> & Hj)%list_elem_of_fmap. by apply share_bounds, Hb. }
  assert (Hs0 : 0 <= sumZ (share <$> ids)).
  { apply sumZ_nonneg. intros x (j & -> & Hj)%list_elem_of_fmap. by apply share_bounds, Hb. }
  unfold getTargetSlabsToAdvise.
  destruct (byShare_spec ids ∅ 0 Hb Hnd ltac:(lia) ltac:(nia)) as (t1 & -> & Ht1). rewrite Z.add_0_l.
  destruct (remainder_spec ids t1 (sumZ (share <$> ids)) Hb Hnd) as (t2 & Hrun & _ & H2 & H3).
  - nia.
  - intros id Hid. by rewrite Ht1, decide_True.
  - lia.
  - exists t2. split; [done|]. split.
    + rewrite H3. replace (sumZ (at_ t1 <$> ids)) with (sumZ (share <$> ids)); [lia|].
      f_equal. apply list_fmap_ext. intros k id Hk. rewrite Ht1, decide_True; [done|].
      by eapply list_elem_of_lookup_2.
    + intros id Hid. destruct (share_bounds id (Hb id Hid)) as (Hsi & Hpi & Hdm).
      destruct (Hb id Hid) as [Hu0 _]. destruct (H2 id Hid) as [->|[-> Hpos]]; split_and!; try nia.
Qed.

End targets.

(** ** Sharing out the difference *)

(** The slabs the pool [id] has advised away. *)
Definition advised_of g id : Z :=
  match poolAt g id with Ok p => MemoryPool.getNumSlabsAdvised p | Throw _ => 0 end.

(** By how much a pool is short of its target, in the direction asked for. *)
Definition lacking (more : bool) g (targets : gmap Z Z) id : Z :=
  Z.max 0 (if more then at_ targets id - advised_of g id else advised_of g id - at_ targets id).

Lemma shareDiff_spec more g targets ids diff acc :
  NoDup ids -> (forall id, id ∈ ids -> exists p, poolAt g id = Ok p) ->
  (forall id, id ∈ ids -> acc !! id = None) ->
  0 <= diff <= sumZ (lacking more g targets <$> ids) ->
  exists map, shareDiff more g targets ids diff acc = Ok map /\
    (forall id, id ∉ ids -> map !! id = acc !! id) /\
    (forall id, id ∈ ids -> 0 <= at_ map id <= lacking more g targets id) /\
    sumZ (at_ map <$> ids) = diff.
Proof.
  revert diff acc. induction ids as [|i ids IH]; intros diff acc Hnd Hex Hacc Hd; cbn [shareDiff].
  { cbn in Hd. exists acc. cbn. split_and!; try done; [set_solver|lia]. }
  apply NoDup_cons in Hnd as [Hni Hnd]. cbn [fmap list_fmap] in Hd |- *.
  change (sumZ (lacking more g targets i :: ?l)) with (lacking more g targets i + sumZ l) in Hd.
  assert (Hz : forall m : gmap Z Z, (forall id, id ∈ i :: ids -> m !! id = None) -> sumZ (at_ m <$> i :: ids) = 0).
  { intros m Hm. assert (at_ m <$> i :: ids = (fun _ => 0) <$> i :: ids) as ->.
    { apply list_fmap_ext. intros k id Hk. unfold at_. rewrite Hm; [done|]. by eapply list_elem_of_lookup_2. }
    generalize (i :: ids). intros l. induction l as [|a l IHl]; [done|]. cbn [fmap list_fmap].
    change (sumZ (0 :: ?k)) with (0 + sumZ k). rewrite IHl. done. }
  destruct (Z.eqb_spec diff 0) as [->|Hd0].
  { exists acc. split_and!; try done; [|by apply Hz]. intros id Hid. unfold at_. rewrite Hacc by done.
    unfold lacking. cbn. lia. }
  destruct (Hex i ltac:(set_solver)) as [p Hp]. rewrite Hp.
  assert (Hadv : MemoryPool.getNumSlabsAdvised p = advised_of g i) by (unfold advised_of; by rewrite Hp).
  rewrite Hadv. set (skip := if more then _ else _).
  assert (Hskip : skip = (lacking more g targets i =? 0)).
  { unfold skip, lacking. destruct more.
    - destruct (Z.leb_spec (at_ targets i) (advised_of g i)); symmetry; [apply Z.eqb_eq|apply Z.eqb_neq]; lia.
    - destruct (Z.leb_spec (advised_of g i) (at_ targets i)); symmetry; [apply Z.eqb_eq|apply Z.eqb_neq]; lia. }
  rewrite Hskip. clear skip Hskip. destruct (Z.eqb_spec (lacking more g targets i) 0) as [Hl|Hl].
  - destruct (IH diff acc Hnd) as (map & Hrun & H1 & H2 & H3);
      [intros; apply Hex; set_solver|intros; apply Hacc; set_solver|lia|].
    assert (Hi : at_ map i = 0) by (unfold at_; rewrite H1, Hacc by set_solver; done).
    exists map. split; [done|]. split_and!.
    + intros id Hid. apply H1. set_solver.
    + intros id [->|Hid]%elem_of_cons; [lia|by apply H2].
    + change (sumZ (at_ map i :: ?l)) with (at_ map i + sumZ l). lia.
  - set (n := Z.min _ diff). rewrite (Hacc i) by set_solver.
    assert (Hn : n = Z.min (lacking more g targets i) diff) by (unfold n, lacking in *; destruct more; lia).
    assert (Hpos : 0 <= lacking more g targets i) by (unfold lacking; lia).
    destruct (IH (diff - n) (<[i := n]> acc) Hnd) as (map & Hrun & H1 & H2 & H3).
    + intros. apply Hex. set_solver.
    + intros id Hid. rewrite lookup_insert_ne by (intros ->; done). apply Hacc. set_solver.
    + assert (0 <= sumZ (lacking more g targets <$> ids)).
      { apply sumZ_nonneg. intros x (j & -> & Hj)%list_elem_of_fmap. unfold lacking. lia. }
      lia.
    + assert (Hi : at_ map i = n) by (unfold at_; rewrite H1 by done; by rewrite lookup_insert_eq).
      exists map. split; [done|]. split_and!.
      * intros id Hid. rewrite H1 by set_solver. by rewrite lookup_insert_ne by set_solver.
      * intros id [->|Hid]%elem_of_cons; [lia|by apply H2].
      * change (sumZ (at_ map i :: ?l)) with (at_ map i + sumZ l). lia.
Qed.

(** ** Usage *)

Definition used_of g id : Z :=
  match poolAt g id with Ok p => MemoryPool.getCurrentUsedSize p / kSize | Throw _ => 0 end.

Lemma poolUsage_spec g ids inUse total advised :
  NoDup ids -> (forall id, id ∈ ids -> exists p, poolAt g id = Ok p) ->
  (forall id, id ∈ ids -> 0 <= used_of g id /\ 0 <= advised_of g id) -> 0 <= total -> 0 <= advised ->
  total + sumZ (used_of g <$> ids) < 2 ^ 64 -> advised + sumZ (advised_of g <$> ids) < 2 ^ 64 ->
  exists m, poolUsage g ids inUse total advised =
      Ok (m, total + sumZ (used_of g <$> ids), advised + sumZ (advised_of g <$> ids)) /\
    forall id, at_ m id = if decide (id ∈ ids) then used_of g id else at_ inUse id.
Proof.
  revert inUse total advised. induction ids as [|i ids IH]; intros inUse total advised Hnd Hex Hnn Ht Ha Hlt Hla;
    cbn [poolUsage].
  { exists inUse. cbn. rewrite !Z.add_0_r. split; [done|]. intros id. by rewrite decide_False by set_solver. }
  apply NoDup_cons in Hnd as [Hni Hnd]. cbn [fmap list_fmap] in Hlt, Hla |- *.
  change (sumZ (used_of g i :: ?l)) with (used_of g i + sumZ l) in Hlt |- *.
  change (sumZ (advised_of g i :: ?l)) with (advised_of g i + sumZ l) in Hla |- *.
  destruct (Hex i ltac:(set_solver)) as [p Hp]. rewrite Hp.
  assert (Hadv : MemoryPool.getNumSlabsAdvised p = advised_of g i) by (unfold advised_of; by rewrite Hp).
  assert (Huse : MemoryPool.getCurrentUsedSize p / kSize = used_of g i) by (unfold used_of; by rewrite Hp).
  rewrite Hadv, Huse. destruct (Hnn i ltac:(set_solver)) as [Hu0 Ha0].
  assert (Hs1 : 0 <= sumZ (used_of g <$> ids)).
  { apply sumZ_nonneg. intros x (j & -> & Hj)%list_elem_of_fmap. apply Hnn. set_solver. }
  assert (Hs2 : 0 <= sumZ (advised_of g <$> ids)).
  { apply sumZ_nonneg. intros x (j & -> & Hj)%list_elem_of_fmap. apply Hnn. set_solver. }
  rewrite !u64_small by (unfold is_u64; lia).
  destruct (IH (<[i := used_of g i]> inUse) (total + used_of g i) (advised + advised_of g i) Hnd) as (m & Hrun & Hm);
    try lia; [intros; apply Hex; set_solver|intros; apply Hnn; set_solver|].
  exists m. split; [rewrite Hrun; do 2 f_equal; [f_equal|]; lia|]. intros id. rewrite Hm.
  destruct (decide (id ∈ ids)) as [Hin|Hin]; [by rewrite decide_True by set_solver|].
  unfold at_. destruct (decide (id = i)) as [->|Hne].
  - rewrite lookup_insert_eq, decide_True by set_solver. done.
  - rewrite lookup_insert_ne, decide_False by set_solver. done.
Qed.

(** ** Memory pool manager: theorems

    Memory is never promised twice, names and ids of pools correspond, and the
    slabs to advise away or reclaim add up to what was asked for. *)

(** ** Invariant *)

Definition sizes g : list Z :=
  (fun id => match poolAt g id with Ok p => MemoryPool.maxSize_ p | Throw _ => 0 end) <$> getPoolIds g.
Definition total st : Z := SlabAllocator.getNumUsableAndAdvisedSlabs (slabAlloc_ st) * kSize.

Record mgr_inv st : Prop := {
  mg_len : length (pools_ (mgr st)) = Z.to_nat kMaxPools;
  mg_next : 0 <= nextPoolId_ (mgr st) <= kMaxPools;
  mg_pool id : 0 <= id < nextPoolId_ (mgr st) ->
    exists p, poolAt (mgr st) id = Ok p /\ MemoryPool.id_ p = id /\ 0 <= MemoryPool.maxSize_ p;
  mg_names name id : poolsByName_ (mgr st) !! name = Some id -> 0 <= id < nextPoolId_ (mgr st);
  mg_inj name name' id : poolsByName_ (mgr st) !! name = Some id ->
    poolsByName_ (mgr st) !! name' = Some id -> name = name';
  mg_named id : 0 <= id < nextPoolId_ (mgr st) -> exists name, poolsByName_ (mgr st) !! name = Some id;
  mg_sum : sumZ (sizes (mgr st)) <= total st
}.

Lemma total_bound st : 0 <= total st < 2 ^ 54.
Proof.
  unfold total, SlabAllocator.getNumUsableAndAdvisedSlabs. assert (kSize = 4194304) by done.
  match goal with |- context [u32 ?a] => pose proof (u32_range a) as Hr end. unfold is_u32 in Hr. lia.
Qed.

Lemma getPoolIds_elem g id : id ∈ getPoolIds g <-> 0 <= id < nextPoolId_ g.
Proof.
  unfold getPoolIds. rewrite list_elem_of_fmap. split.
  - intros (n & -> & Hn%elem_of_seq). lia.
  - intros Hid. exists (Z.to_nat id). split; [lia|]. apply elem_of_seq. lia.
Qed.

Lemma getPoolIds_lookup g (n : nat) :
  Z.of_nat n < nextPoolId_ g -> getPoolIds g !! n = Some (Z.of_nat n).
Proof. intros Hn. unfold getPoolIds. rewrite list_lookup_fmap, lookup_seq_lt by lia. done. Qed.

Lemma sumPools_ok (f : MemoryPool.MemoryPool -> Z) (n : nat) g :
  (forall id, 0 <= id < Z.of_nat n -> exists p, poolAt g id = Ok p /\ 0 <= f p) ->
  sumZ ((fun id => match poolAt g id with Ok p => f p | Throw _ => 0 end) <$> (Z.of_nat <$> seq 0 n)) < 2 ^ 64 ->
  sumPools f n g =
  Ok (sumZ ((fun id => match poolAt g id with Ok p => f p | Throw _ => 0 end) <$> (Z.of_nat <$> seq 0 n))).
Proof.
  induction n as [|n IH]; intros Hex Hlt; [done|]. cbn [sumPools].
  rewrite seq_S, !fmap_app, sumZ_app in Hlt |- *. cbn [fmap list_fmap Nat.add] in Hlt |- *.
  destruct (Hex (Z.of_nat n) ltac:(lia)) as (p & Hp & Hf). rewrite Hp in Hlt |- *.
  change (sumZ [f p]) with (f p + 0) in Hlt |- *. rewrite Z.add_0_r in Hlt |- *.
  rewrite IH; [|intros id Hid; apply Hex; lia|lia]. rewrite u64_small; [done|]. split; [|lia].
  apply Z.add_nonneg_nonneg; [|done]. apply sumZ_nonneg.
  intros x (id & -> & (k & -> & Hk%elem_of_seq)%list_elem_of_fmap)%list_elem_of_fmap.
  destruct (Hex (Z.of_nat k) ltac:(lia)) as (q & -> & ?). done.
Qed.

Lemma mgr_remaining st :
  mgr_inv st -> getRemainingSizeLocked st = Ok (total st - sumZ (sizes (mgr st))) /\ 0 <= sumZ (sizes (mgr st)).
Proof.
  intros Hinv. pose proof (total_bound st) as Ht. pose proof (mg_sum _ Hinv) as Hs.
  assert (H0 : 0 <= sumZ (sizes (mgr st))).
  { apply sumZ_nonneg. intros x (id & -> & Hid%getPoolIds_elem)%list_elem_of_fmap.
    destruct (mg_pool _ Hinv id Hid) as (p & -> & _ & ?). done. }
  split; [|done]. unfold getRemainingSizeLocked. fold (total st).
  rewrite (sumPools_ok MemoryPool.getPoolSize).
  - change (sumZ _) with (sumZ (sizes (mgr st))). rewrite (u64_small (total st)) by (unfold is_u64; lia). rewrite u64_small by (unfold is_u64; lia). done.
  - intros id Hid. destruct (mg_pool _ Hinv id) as (p & Hp & _ & ?); [lia|]. eauto.
  - change (sumZ (sizes (mgr st)) < 2 ^ 64). lia.
Qed.

(** ** Changing one pool *)

Lemma poolAt_set g id p id' :
  0 <= id < Z.of_nat (length (pools_ g)) -> 0 <= id' ->
  poolAt (set_pool id p g) id' = if decide (id' = id) then Ok p else poolAt g id'.
Proof.
  intros Hid Hid'. unfold poolAt. destruct (Z.ltb_spec id' 0); [lia|]. cbn [set_pool pools_].
  destruct (decide (id' = id)) as [->|Hne].
  - by rewrite list_lookup_insert_eq by lia.
  - by rewrite list_lookup_insert_ne by lia.
Qed.

Lemma sumZ_insert (l : list Z) (n : nat) a b : l !! n = Some a -> sumZ (<[n := b]> l) = sumZ l - a + b.
Proof.
  unfold sumZ. revert n. induction l as [|c l IH]; intros [|n] Hn; cbn in Hn |- *; try done.
  - injection Hn as ->. lia.
  - setoid_rewrite (IH n Hn). lia.
Qed.

Lemma sizes_set g id p q :
  0 <= id < nextPoolId_ g -> nextPoolId_ g <= Z.of_nat (length (pools_ g)) -> poolAt g id = Ok q ->
  sumZ (sizes (set_pool id p g)) = sumZ (sizes g) - MemoryPool.maxSize_ q + MemoryPool.maxSize_ p.
Proof.
  intros Hid Hlen Hq.
  assert (He : sizes (set_pool id p g) = <[Z.to_nat id := MemoryPool.maxSize_ p]> (sizes g)).
  { apply list_eq. intros n. unfold sizes. change (getPoolIds (set_pool id p g)) with (getPoolIds g).
    destruct (decide (Z.of_nat n < nextPoolId_ g)) as [Hn|Hn].
    - destruct (decide (n = Z.to_nat id)) as [->|Hne].
      + rewrite list_lookup_insert_eq by (rewrite length_fmap; unfold getPoolIds; rewrite length_fmap, length_seq; lia).
        rewrite list_lookup_fmap, getPoolIds_lookup by lia. cbn [fmap option_fmap option_map].
        rewrite poolAt_set by lia. by rewrite decide_True by lia.
      + rewrite list_lookup_insert_ne by done. rewrite !list_lookup_fmap, getPoolIds_lookup by lia.
        cbn [fmap option_fmap option_map]. rewrite poolAt_set by lia. by rewrite decide_False by lia.
    - rewrite !lookup_ge_None_2; [done|..]; rewrite ?length_insert, length_fmap; unfold getPoolIds;
        rewrite length_fmap, length_seq; lia. }
  rewrite He. apply sumZ_insert. unfold sizes. rewrite list_lookup_fmap, getPoolIds_lookup by lia.
  cbn [fmap option_fmap option_map]. rewrite Z2Nat.id by lia. by rewrite Hq.
Qed.

(** A change of one pool and of the slab allocator's lists of slabs keeps the
    invariant when the pool keeps its id and the sizes fit. *)
Lemma mgr_set st id p q s' :
  mgr_inv st -> 0 <= id < nextPoolId_ (mgr st) -> poolAt (mgr st) id = Ok q ->
  MemoryPool.id_ p = id -> 0 <= MemoryPool.maxSize_ p ->
  SlabAllocator.getNumUsableAndAdvisedSlabs s' = SlabAllocator.getNumUsableAndAdvisedSlabs (slabAlloc_ st) ->
  sumZ (sizes (mgr st)) - MemoryPool.maxSize_ q + MemoryPool.maxSize_ p <= total st ->
  mgr_inv (mkManagerState s' (set_pool id p (mgr st))).
Proof.
  intros Hinv Hid Hq Hp Hm Hs Hsum. pose proof (mg_len _ Hinv) as Hlen. pose proof (mg_next _ Hinv) as Hnx.
  unfold kMaxPools in *. split; cbn [slabAlloc_ mgr]; try apply Hinv.
  - cbn. by rewrite length_insert.
  - intros id' Hid'. cbn in Hid'. rewrite poolAt_set by (cbn in *; lia).
    destruct (decide (id' = id)) as [->|]; [eauto|by apply Hinv].
  - rewrite (sizes_set _ _ _ q) by (try done; cbn in *; lia). unfold total in *. cbn. by rewrite Hs.
Qed.

(** ** Operations *)

Lemma getPoolById_spec st id :
  mgr_inv st -> getPoolById (mgr st) id =
    if decide (0 <= id < nextPoolId_ (mgr st)) then Ok id else Throw InvalidArgument.
Proof.
  intros Hinv. unfold getPoolById. case_decide as Hid.
  - destruct (Z.ltb_spec id (nextPoolId_ (mgr st))); [|lia]. destruct (Z.leb_spec 0 id); [|lia]. cbn [andb].
    by destruct (mg_pool _ Hinv id Hid) as (p & -> & _).
  - destruct (Z.ltb_spec id (nextPoolId_ (mgr st))); [|done]. by destruct (Z.leb_spec 0 id); [lia|].
Qed.

Lemma getPoolById_inv st id id' :
  mgr_inv st -> getPoolById (mgr st) id = Ok id' -> 0 <= id < nextPoolId_ (mgr st).
Proof. intros Hinv. rewrite getPoolById_spec by done. by case_decide. Qed.

(** [onPool] with a resize. *)
Lemma mgr_resize_run st id p n :
  poolAt (mgr st) id = Ok p ->
  onPool id (MemoryPool.resize n) st =
  (Ok tt, mkManagerState (slabAlloc_ st) (set_pool id (MemoryPool.set_maxSize n p) (mgr st))).
Proof. intros Hp. unfold onPool. rewrite Hp. done. Qed.

Lemma mgr_poolSize st id p : poolAt (mgr st) id = Ok p -> poolSize id st = (Ok (MemoryPool.maxSize_ p), st).
Proof. intros Hp. unfold poolSize, bind, get. by rewrite Hp. Qed.

Lemma mgr_shrink st pid bytes r st' :
  mgr_inv st -> 0 <= bytes -> shrinkPool pid bytes st = (r, st') -> mgr_inv st'.
Proof.
  intros Hinv Hb. unfold shrinkPool, bind at 1, get, bind at 1, liftM.
  destruct (getPoolById (mgr st) pid) as [x|e] eqn:Hg; [|by intros [= <- <-]].
  pose proof (getPoolById_inv _ _ _ Hinv Hg) as Hid. destruct (mg_pool _ Hinv pid Hid) as (p & Hp & Hpi & Hpm).
  unfold bind at 1. rewrite (mgr_poolSize _ _ _ Hp). destruct (Z.ltb_spec (MemoryPool.maxSize_ p) bytes);
    [by intros [= <- <-]|]. unfold bind at 1. rewrite (mgr_resize_run _ _ _ _ Hp). intros [= <- <-].
  apply (mgr_set st pid _ p); try done; [cbn; lia|]. cbn. pose proof (mg_sum _ Hinv). lia.
Qed.

Lemma mgr_grow st pid bytes r st' :
  mgr_inv st -> 0 <= bytes -> growPool pid bytes st = (r, st') -> mgr_inv st'.
Proof.
  intros Hinv Hb. unfold growPool, bind at 1, get, bind at 1, liftM.
  destruct (getPoolById (mgr st) pid) as [x|e] eqn:Hg; [|by intros [= <- <-]].
  pose proof (getPoolById_inv _ _ _ Hinv Hg) as Hid. destruct (mg_pool _ Hinv pid Hid) as (p & Hp & Hpi & Hpm).
  destruct (mgr_remaining st Hinv) as [Hr Hs0]. unfold bind at 1. rewrite Hr.
  destruct (Z.ltb_spec (total st - sumZ (sizes (mgr st))) bytes); [by intros [= <- <-]|].
  unfold bind at 1. rewrite (mgr_poolSize _ _ _ Hp). unfold bind at 1. rewrite (mgr_resize_run _ _ _ _ Hp).
  intros [= <- <-].
  assert (Hle : MemoryPool.maxSize_ p <= sumZ (sizes (mgr st))).
  { pose proof (sizes_set (mgr st) pid (MemoryPool.set_maxSize 0 p) p Hid) as He. cbn in He.
    rewrite (mg_len _ Hinv) in He. pose proof (mg_next _ Hinv). unfold kMaxPools in *. specialize (He ltac:(lia) Hp).
    assert (0 <= sumZ (sizes (set_pool pid (MemoryPool.set_maxSize 0 p) (mgr st)))); [|lia].
    apply sumZ_nonneg. intros x0 (id & -> & Hi%getPoolIds_elem)%list_elem_of_fmap. cbn in Hi.
    rewrite poolAt_set by (rewrite ?(mg_len _ Hinv); unfold kMaxPools; lia).
    destruct (decide (id = pid)); [done|]. destruct (mg_pool _ Hinv id Hi) as (q & -> & _ & ?). done. }
  pose proof (total_bound st) as Ht. pose proof (mg_sum _ Hinv) as Hms.
  rewrite u64_small by (unfold is_u64; lia).
  apply (mgr_set st pid _ p); try done; cbn; lia.
Qed.

Lemma mgr_size_le st id p :
  mgr_inv st -> 0 <= id < nextPoolId_ (mgr st) -> poolAt (mgr st) id = Ok p ->
  MemoryPool.maxSize_ p <= sumZ (sizes (mgr st)).
Proof.
  intros Hinv Hid Hp. unfold sizes.
  assert (Hin : MemoryPool.maxSize_ p ∈ (fun id => match poolAt (mgr st) id with
    Ok p => MemoryPool.maxSize_ p | Throw _ => 0 end) <$> getPoolIds (mgr st)).
  { apply list_elem_of_fmap. exists id. rewrite Hp. split; [done|]. by apply getPoolIds_elem. }
  assert (Hnn : forall x, x ∈ (fun id => match poolAt (mgr st) id with
    Ok p => MemoryPool.maxSize_ p | Throw _ => 0 end) <$> getPoolIds (mgr st) -> 0 <= x).
  { intros x (i & -> & Hi%getPoolIds_elem)%list_elem_of_fmap.
    destruct (mg_pool _ Hinv i Hi) as (q & -> & _ & ?). done. }
  revert Hin Hnn. generalize (MemoryPool.maxSize_ p). intros z.
  generalize ((fun id => match poolAt (mgr st) id with
    Ok p => MemoryPool.maxSize_ p | Throw _ => 0 end) <$> getPoolIds (mgr st)). clear. intros l Hin Hnn.
  apply list_elem_of_split in Hin as (l1 & l2 & ->). rewrite sumZ_app.
  change (sumZ (z :: l2)) with (z + sumZ l2).
  assert (0 <= sumZ l1) by (apply sumZ_nonneg; intros; apply Hnn; set_solver).
  assert (0 <= sumZ l2) by (apply sumZ_nonneg; intros; apply Hnn; set_solver). lia.
Qed.

Lemma mgr_resizePools st src dest bytes r st' :
  mgr_inv st -> 0 <= bytes -> resizePools src dest bytes st = (r, st') ->
  mgr_inv st' /\ sumZ (sizes (mgr st')) = sumZ (sizes (mgr st)).
Proof.
  intros Hinv Hb. unfold resizePools, bind at 1, get, bind at 1, liftM.
  destruct (getPoolById (mgr st) src) as [x|e] eqn:Hg; [|by intros [= <- <-]]. unfold bind at 1.
  destruct (getPoolById (mgr st) dest) as [y|e] eqn:Hg2; [|by intros [= <- <-]].
  pose proof (getPoolById_inv _ _ _ Hinv Hg) as Hid. destruct (mg_pool _ Hinv src Hid) as (p & Hp & Hpi & Hpm).
  pose proof (getPoolById_inv _ _ _ Hinv Hg2) as Hid2.
  unfold bind at 1. rewrite (mgr_poolSize _ _ _ Hp). destruct (Z.ltb_spec (MemoryPool.maxSize_ p) bytes);
    [by intros [= <- <-]|]. unfold bind at 1. rewrite (mgr_resize_run _ _ _ _ Hp).
  set (st1 := mkManagerState _ _). pose proof (mg_sum _ Hinv) as Hms. pose proof (total_bound st) as Ht.
  assert (Hinv1 : mgr_inv st1) by (apply (mgr_set st src _ p); try done; cbn; lia).
  assert (Hlen : nextPoolId_ (mgr st) <= Z.of_nat (length (pools_ (mgr st)))).
  { rewrite (mg_len _ Hinv). pose proof (mg_next _ Hinv). unfold kMaxPools in *. lia. }
  assert (Hs1 : sumZ (sizes (mgr st1)) = sumZ (sizes (mgr st)) - bytes).
  { unfold st1. cbn [mgr]. rewrite (sizes_set _ _ _ p) by done. cbn. lia. }
  destruct (mg_pool _ Hinv1 dest Hid2) as (q & Hq & Hqi & Hqm).
  pose proof (mgr_size_le st1 dest q Hinv1 Hid2 Hq) as Hle.
  unfold bind at 1. rewrite (mgr_poolSize _ _ _ Hq). unfold bind at 1. rewrite (mgr_resize_run _ _ _ _ Hq).
  rewrite u64_small by (unfold is_u64; lia). intros [= <- <-]. split.
  - apply (mgr_set st1 dest _ q); try done; cbn; [lia|]. change (total st1) with (total st). cbn in Hs1. lia.
  - cbn [mgr]. rewrite (sizes_set _ _ _ q); try done; cbn; [cbn in Hs1; lia|rewrite length_insert; done].
Qed.

(** Adding a pool at the end. *)
Lemma poolAt_ext g g' id :
  pools_ g !! Z.to_nat id = pools_ g' !! Z.to_nat id -> poolAt g id = poolAt g' id.
Proof. intros H. unfold poolAt. by rewrite H. Qed.

Lemma sizes_create g p name :
  0 <= nextPoolId_ g < Z.of_nat (length (pools_ g)) ->
  sizes (mkMemoryPoolManager (<[Z.to_nat (nextPoolId_ g) := Some p]> (pools_ g))
    (<[name := nextPoolId_ g]> (poolsByName_ g)) (nextPoolId_ g + 1)) = sizes g ++ [MemoryPool.maxSize_ p].
Proof.
  intros Hn. unfold sizes, getPoolIds. cbn [nextPoolId_].
  replace (Z.to_nat (nextPoolId_ g + 1)) with (S (Z.to_nat (nextPoolId_ g))) by lia.
  rewrite seq_S, !fmap_app. f_equal.
  - apply list_fmap_ext. intros k id (n & -> & Hn2)%list_lookup_fmap_Some. apply lookup_seq in Hn2 as [-> Hlt].
    rewrite (poolAt_ext _ g); [done|]. cbn. rewrite list_lookup_insert_ne by lia. done.
  - cbn [fmap list_fmap Nat.add]. rewrite Z2Nat.id by lia. unfold poolAt.
    destruct (Z.ltb_spec (nextPoolId_ g) 0); [lia|]. cbn. by rewrite list_lookup_insert_eq by lia.
Qed.

Lemma makeMemoryPool_fields id size s allocSizes p :
  MemoryPool.makeMemoryPool id size s allocSizes = Ok p ->
  MemoryPool.id_ p = id /\ MemoryPool.maxSize_ p = size.
Proof.
  unfold MemoryPool.makeMemoryPool. destruct (MemoryPool.createAllocationClasses s id allocSizes); [|done].
  destruct (MemoryPool.checkState s _); [|done]. by intros [= <-].
Qed.

Lemma mgr_create st name size allocSizes r st' :
  mgr_inv st -> 0 <= size -> createNewPool name size allocSizes st = (r, st') ->
  match r with
  | Ok id => mgr_inv st' /\ id = nextPoolId_ (mgr st) /\ nextPoolId_ (mgr st') = id + 1 /\
      poolsByName_ (mgr st') = <[name := id]> (poolsByName_ (mgr st)) /\
      sizes (mgr st') = sizes (mgr st) ++ [size]
  | Throw _ => st' = st
  end.
Proof.
  intros Hinv Hsz. unfold createNewPool, bind at 1, get.
  destruct (poolsByName_ (mgr st) !! name) as [|] eqn:Hname; [by intros [= <- <-]|].
  destruct (Z.eqb_spec (nextPoolId_ (mgr st)) kMaxPools) as [|Hlt]; [by intros [= <- <-]|].
  destruct (mgr_remaining st Hinv) as [Hr Hs0]. unfold bind at 1, liftM. rewrite Hr.
  destruct (Z.ltb_spec (total st - sumZ (sizes (mgr st))) size); [by intros [= <- <-]|]. unfold bind at 1.
  destruct (MemoryPool.makeMemoryPool _ _ _ _) as [p|e] eqn:Hmk; [|by intros [= <- <-]].
  destruct (makeMemoryPool_fields _ _ _ _ _ Hmk) as [Hpi Hpm].
  unfold bind, modify. intros Hrun. injection Hrun as <- <-. cbn [mgr].
  pose proof (mg_next _ Hinv) as Hnx. pose proof (mg_len _ Hinv) as Hlen. unfold kMaxPools in *.
  pose proof (sizes_create (mgr st) p name ltac:(lia)) as Hsc. rewrite Hpm in Hsc.
  split_and!; [|done|done|done|done].
  split; cbn [mgr slabAlloc_].
  - cbn. by rewrite length_insert.
  - cbn. unfold kMaxPools. lia.
  - intros id Hid. cbn in Hid. destruct (decide (id = nextPoolId_ (mgr st))) as [->|Hne].
    + exists p. unfold poolAt. destruct (Z.ltb_spec (nextPoolId_ (mgr st)) 0); [lia|]. cbn.
      rewrite list_lookup_insert_eq by lia. split_and!; try done. lia.
    + rewrite (poolAt_ext _ (mgr st)) by (cbn; rewrite list_lookup_insert_ne by lia; done).
      apply Hinv. lia.
  - cbn. intros nm id Hnm. destruct (decide (nm = name)) as [->|].
    + rewrite lookup_insert_eq in Hnm. injection Hnm as <-. lia.
    + rewrite lookup_insert_ne in Hnm by done. pose proof (mg_names _ Hinv _ _ Hnm). lia.
  - cbn. intros n1 n2 id H1 H2. destruct (decide (n1 = name)) as [->|], (decide (n2 = name)) as [->|]; try done.
    + rewrite lookup_insert_eq in H1. injection H1 as <-. rewrite lookup_insert_ne in H2 by done.
      pose proof (mg_names _ Hinv _ _ H2). lia.
    + rewrite lookup_insert_eq in H2. injection H2 as <-. rewrite lookup_insert_ne in H1 by done.
      pose proof (mg_names _ Hinv _ _ H1). lia.
    + rewrite lookup_insert_ne in H1 by done. rewrite lookup_insert_ne in H2 by done. by eapply Hinv.
  - cbn. intros id Hid. destruct (decide (id = nextPoolId_ (mgr st))) as [->|Hne].
    + exists name. by rewrite lookup_insert_eq.
    + destruct (mg_named _ Hinv id ltac:(lia)) as [nm Hnm]. exists nm.
      rewrite lookup_insert_ne; [done|]. intros ->. congruence.
  - unfold total in *. cbn [slabAlloc_]. rewrite Hsc, sumZ_app. change (sumZ [size]) with (size + 0). lia.
Qed.

(** ** Sequences of operations *)

(** One call: creating a pool, moving memory between pools, taking it from or
    giving it to a pool, or an operation of a pool that preserves its id and
    limit, as allocating, freeing, provisioning, releasing and reclaiming slabs
    do (see [Preserves]); calls that throw are included. *)
Inductive mgr_step : ManagerState -> ManagerState -> Prop :=
| ms_create st name size allocSizes r st' :
    0 <= size -> createNewPool name size allocSizes st = (r, st') -> mgr_step st st'
| ms_resize st src dest bytes r st' :
    0 <= bytes -> resizePools src dest bytes st = (r, st') -> mgr_step st st'
| ms_shrink st pid bytes r st' :
    0 <= bytes -> shrinkPool pid bytes st = (r, st') -> mgr_step st st'
| ms_grow st pid bytes r st' :
    0 <= bytes -> growPool pid bytes st = (r, st') -> mgr_step st st'
| ms_pool st pid A (m : M MemoryPool.PoolState A) r st' :
    0 <= pid < nextPoolId_ (mgr st) -> preserves pool_frame m -> onPool pid m st = (r, st') -> mgr_step st st'.

Inductive mgr_steps : ManagerState -> ManagerState -> Prop :=
| mgr_refl st : mgr_steps st st
| mgr_next st st1 st' : mgr_step st st1 -> mgr_steps st1 st' -> mgr_steps st st'.

Lemma mgr_step_inv st st' : mgr_step st st' -> mgr_inv st -> mgr_inv st'.
Proof.
  intros Hstep Hinv. destruct Hstep as [st name size allocSizes r st' Hs Hrun|st src dest bytes r st' Hb Hrun
    |st pid bytes r st' Hb Hrun|st pid bytes r st' Hb Hrun|st pid A m r st' Hid Hk Hrun].
  - pose proof (mgr_create _ _ _ _ _ _ Hinv Hs Hrun) as Hc. destruct r; [apply Hc|by subst].
  - by eapply mgr_resizePools.
  - by eapply mgr_shrink.
  - by eapply mgr_grow.
  - destruct (mg_pool _ Hinv pid Hid) as (p & Hp & Hpi & Hpm). unfold onPool in Hrun. rewrite Hp in Hrun.
    specialize (Hk (MemoryPool.mkPoolState (slabAlloc_ st) p)). unfold state_of in Hk.
    destruct (m _) as [r' ps]. injection Hrun as _ <-. cbn in Hk. destruct Hk as (K3%same_region_slabs & K1 & K2 & _).
    pose proof (mg_sum _ Hinv). apply (mgr_set st pid _ p); try done; rewrite ?K1, ?K2; cbn; lia.
Qed.

Lemma mgr_steps_inv st st' : mgr_steps st st' -> mgr_inv st -> mgr_inv st'.
Proof. induction 1 as [|st st1 st' Hs _ IH]; [done|]. intros Hinv. by eapply IH, mgr_step_inv. Qed.

Lemma mgr_init s : mgr_inv (mkManagerState s makeMemoryPoolManager).
Proof.
  split; cbn [mgr makeMemoryPoolManager pools_ poolsByName_ nextPoolId_]; try done.
  - intros id Hid. lia.
  - intros id Hid. lia.
  - pose proof (total_bound (mkManagerState s makeMemoryPoolManager)) as Ht. change (0 <= total (mkManagerState s makeMemoryPoolManager)). lia.
Qed.

Lemma getPoolNameById_spec st id name :
  mgr_inv st -> poolsByName_ (mgr st) !! name = Some id -> getPoolNameById (mgr st) id = Ok name.
Proof.
  intros Hinv Hn. unfold getPoolNameById.
  destruct (list_find _ _) as [[k [nm i]]|] eqn:Hf.
  - apply list_find_Some in Hf as (Hl & He & _). cbn in He. subst i.
    apply list_elem_of_lookup_2, elem_of_map_to_list in Hl. cbn. f_equal. by eapply mg_inj.
  - apply list_find_None in Hf. rewrite Forall_forall in Hf.
    exfalso. apply (Hf (name, id)); [|done]. by apply elem_of_map_to_list.
Qed.

(** ** Theorems *)

(** C18. After any sequence of operations on the manager and its pools,
    refused ones included: the sizes of the pools add up to at most the memory
    of the slab allocator, and what is left unreserved is exactly the rest;
    the pools are those with ids below the next id, each has a name, and
    looking up a pool by its name and its name by its id are inverse; a refused
    creation changes nothing, and a created pool gets the next id and exactly
    the size asked for. *)
Theorem manager_no_overcommit s st :
  mgr_steps (mkManagerState s makeMemoryPoolManager) st ->
  let g := mgr st in
  sumZ (sizes g) <= total st /\
  getBytesUnReserved st = Ok (total st - sumZ (sizes g)) /\
  (forall id, 0 <= id < nextPoolId_ g -> getPoolById g id = Ok id /\
     exists name, getPoolNameById g id = Ok name /\ getPoolByName g name = Ok id) /\
  (forall id, ~ (0 <= id < nextPoolId_ g) -> getPoolById g id = Throw InvalidArgument) /\
  (forall name id, getPoolByName g name = Ok id -> getPoolNameById g id = Ok name) /\
  (forall name size allocSizes, 0 <= size ->
     match createNewPool name size allocSizes st with
     | (Ok id, st') => id = nextPoolId_ g /\ poolsByName_ g !! name = None /\
         getPoolByName (mgr st') name = Ok id /\ sizes (mgr st') = sizes g ++ [size] /\
         sumZ (sizes g) + size <= total st
     | (Throw _, st') => st' = st
     end).
Proof.
  intros Hsteps g. pose proof (mgr_steps_inv _ _ Hsteps (mgr_init s)) as Hinv.
  destruct (mgr_remaining st Hinv) as [Hr _]. split_and!.
  - apply Hinv.
  - exact Hr.
  - intros id Hid. split; [unfold g; rewrite getPoolById_spec by done; by rewrite decide_True|].
    destruct (mg_named _ Hinv id Hid) as [name Hn]. exists name. split; [by apply getPoolNameById_spec|].
    unfold getPoolByName, g. rewrite Hn. by destruct (mg_pool _ Hinv id Hid) as (p & -> & _).
  - intros id Hid. unfold g. rewrite getPoolById_spec by done. by rewrite decide_False.
  - intros name id. unfold getPoolByName. destruct (poolsByName_ g !! name) as [i|] eqn:Hn; [|done].
    destruct (poolAt g i); [|done]. intros [= <-]. by apply getPoolNameById_spec.
  - intros name size allocSizes Hs. destruct (createNewPool name size allocSizes st) as [r st'] eqn:Hrun.
    pose proof (mgr_create _ _ _ _ _ _ Hinv Hs Hrun) as Hc. destruct r as [id|]; [|done].
    destruct Hc as (Hinv' & -> & Hnx & Hnames & Hsz). split_and!; try done.
    + unfold createNewPool, bind at 1, get in Hrun. fold g in Hrun.
      by destruct (poolsByName_ g !! name).
    + unfold getPoolByName. rewrite Hnames, lookup_insert_eq.
      destruct (mg_pool _ Hinv' (nextPoolId_ (mgr st))) as (p & -> & _); [|done].
      pose proof (mg_next _ Hinv). lia.
    + pose proof (mg_sum _ Hinv') as Hsum. rewrite Hsz, sumZ_app in Hsum.
      change (sumZ [size]) with (size + 0) in Hsum. unfold g.
      assert (total st' = total st); [|lia]. unfold total. f_equal.
      unfold createNewPool, bind at 1, get in Hrun. fold g in Hrun. destruct (poolsByName_ g !! name); [done|].
      destruct (nextPoolId_ g =? kMaxPools); [done|]. unfold bind at 1, liftM in Hrun. rewrite Hr in Hrun.
      destruct (_ <? size); [done|]. unfold bind at 1 in Hrun.
      destruct (MemoryPool.makeMemoryPool _ _ _ _); [|done].
      apply (f_equal snd) in Hrun. cbn in Hrun. by subst st'.
Qed.

(** How many slabs each pool is to advise away or take back, for a total
    of [N] advised slabs.  The targets of the pools add up to [N] exactly, and
    each is the pool's share of [N] by the slabs it uses, rounded up or down;
    no target is above what the pool uses when [N] is not above what all of
    them use.  The numbers handed out add up to the difference between [N] and
    what is advised now, and bring no pool past its target.  Nothing is handed
    out when no slab is in use, or when none is advised and none is to be. *)
Theorem manager_advise_exact g N ids :
  let T := sumZ (used_of g <$> ids) in
  let adv := sumZ (advised_of g <$> ids) in
  NoDup ids -> (forall id, id ∈ ids -> exists p, poolAt g id = Ok p) ->
  (forall id, id ∈ ids -> 0 <= used_of g id /\ 0 <= advised_of g id) ->
  T < 2 ^ 32 -> adv < 2 ^ 32 -> 0 <= N < 2 ^ 32 ->
  exists data, calcNumSlabsToAdviseReclaim g N ids = Ok data /\
    (T = 0 \/ N = 0 /\ adv = 0 -> poolAdviseReclaimMap data = ∅) /\
    (T <> 0 -> exists targets : gmap Z Z,
       sumZ (at_ targets <$> ids) = N /\
       (forall id, id ∈ ids -> T * at_ targets id - T < used_of g id * N < T * at_ targets id + T /\
          (N <= T -> at_ targets id <= used_of g id)) /\
       advise data = (adv <? N) /\
       sumZ (at_ (poolAdviseReclaimMap data) <$> ids) = Z.abs (N - adv) /\
       (forall id, id ∉ ids -> poolAdviseReclaimMap data !! id = None) /\
       (forall id, id ∈ ids -> 0 <= at_ (poolAdviseReclaimMap data) id <=
          lacking (adv <? N) g targets id)).
Proof.
  intros T adv Hnd Hex Hnn HT Hadv HN.
  assert (HT0 : 0 <= T).
  { apply sumZ_nonneg. intros x (j & -> & Hj)%list_elem_of_fmap. by apply Hnn. }
  assert (Ha0 : 0 <= adv).
  { apply sumZ_nonneg. intros x (j & -> & Hj)%list_elem_of_fmap. by apply Hnn. }
  unfold calcNumSlabsToAdviseReclaim.
  destruct (poolUsage_spec g ids ∅ 0 0 Hnd Hex Hnn) as (u & -> & Hu); try lia. rewrite !Z.add_0_l.
  fold T adv. destruct (Z.eqb_spec T 0) as [HTz|HTz]; cbn [orb].
  { eexists. split; [reflexivity|]. split; [done|]. done. }
  assert (Hat : at_ u <$> ids = used_of g <$> ids).
  { apply list_fmap_ext. intros k id Hk. rewrite Hu, decide_True; [done|]. by eapply list_elem_of_lookup_2. }
  destruct (targets_spec N T u HN ltac:(lia) ids Hnd) as (targets & Hrun & Hsum & Htar).
  { intros id Hid. rewrite Hu, decide_True by done. by apply Hnn. }
  { by rewrite Hat. }
  assert (Htar' : forall id, id ∈ ids -> T * at_ targets id - T < used_of g id * N < T * at_ targets id + T /\
          (N <= T -> at_ targets id <= used_of g id)).
  { intros id Hid. destruct (Htar id Hid) as (H1 & _ & H2). rewrite Hu, decide_True in H1, H2 by done. by split. }
  assert (Hdiff : forall more : bool, (if more then N - adv else adv - N) <= sumZ (lacking more g targets <$> ids)).
  { intros more. rewrite <- Hsum. unfold adv. clear. induction ids as [|i ids IH]; [by destruct more|].
    cbn [fmap list_fmap]. change (sumZ (at_ targets i :: ?l)) with (at_ targets i + sumZ l).
    change (sumZ (advised_of g i :: ?l)) with (advised_of g i + sumZ l).
    change (sumZ (lacking more g targets i :: ?l)) with (lacking more g targets i + sumZ l).
    assert ((if more then at_ targets i - advised_of g i else advised_of g i - at_ targets i) <=
      lacking more g targets i) by (unfold lacking; lia). destruct more; lia. }
  destruct ((N =? 0) && (adv =? 0)) eqn:Hz.
  { apply andb_true_iff in Hz as [HN0%Z.eqb_eq Had0%Z.eqb_eq]. eexists. split; [reflexivity|]. split; [done|].
    intros _. exists targets. rewrite Had0, HN0. cbn [advise poolAdviseReclaimMap].
    split_and!; try done; [by rewrite <- HN0|by rewrite <- HN0| |].
    - clear. induction ids as [|i ids IH]; [done|]. cbn [fmap list_fmap].
      change (sumZ (at_ ∅ i :: ?l)) with (0 + sumZ l). rewrite IH. done.
    - intros id Hid. change (at_ ∅ id) with 0. unfold lacking. lia. }
  rewrite Hrun. destruct (shareDiff_spec (adv <? N) g targets ids
    (if adv <? N then N - adv else adv - N) ∅ Hnd Hex ltac:(done)) as (map & Hsh & H1 & H2 & H3).
  { split; [destruct (Z.ltb_spec adv N); lia|apply Hdiff]. }
  rewrite Hsh. eexists. split; [reflexivity|]. split.
  { intros [|[-> ->]]; [done|]. by rewrite Z.eqb_refl in Hz. }
  intros _. exists targets. split_and!; try done.
  cbn [poolAdviseReclaimMap]. rewrite H3. destruct (Z.ltb_spec adv N); lia.
Qed.

(** ** Witnesses *)

(** Two pools on a region with three slabs; the first uses two of them. *)
Definition demo_mgr0 : ManagerState := mkManagerState SlabAllocatorSpec.demo_alloc makeMemoryPoolManager.
Definition demo_create : M ManagerState Z :=
  do! createNewPool "a" (2 * kSize) [kSize] in createNewPool "b" kSize [kSize / 2; kSize].
Definition demo_alloc_in (pid : Z) : M ManagerState Z := onPool pid (MemoryPool.allocate (fun s => s) kSize).
Definition demo_mgr : ManagerState :=
  state_of (do! demo_create in do! demo_alloc_in 0 in do! demo_alloc_in 0 in demo_alloc_in 1) demo_mgr0.

Lemma demo_mgr_steps : mgr_steps demo_mgr0 demo_mgr.
Proof.
  assert (Hk : preserves pool_frame (MemoryPool.allocate (fun s => s) kSize)) by (apply allocate_pool; done).
  eapply mgr_next; [eapply (ms_create _ "a" (2 * kSize) [kSize]); [done|apply surjective_pairing]|].
  eapply mgr_next; [eapply (ms_create _ "b" kSize [kSize / 2; kSize]); [done|apply surjective_pairing]|].
  eapply mgr_next; [eapply (ms_pool _ 0); [by vm_compute|exact Hk|apply surjective_pairing]|].
  eapply mgr_next; [eapply (ms_pool _ 0); [by vm_compute|exact Hk|apply surjective_pairing]|].
  eapply mgr_next; [eapply (ms_pool _ 1); [by vm_compute|exact Hk|apply surjective_pairing]|].
  match goal with |- mgr_steps ?a ?b => assert (a = b) as -> by (by vm_compute) end. apply mgr_refl.
Qed.

Lemma manager_no_overcommit_witness :
  getBytesUnReserved demo_mgr = Ok 0 /\ getPoolById (mgr demo_mgr) 7 = Throw InvalidArgument.
Proof.
  destruct (manager_no_overcommit SlabAllocatorSpec.demo_alloc demo_mgr) as (_ & H1 & _ & H2 & _).
  - exact demo_mgr_steps.
  - split; [rewrite H1; by vm_compute|]. apply H2. vm_compute. by intros [_ ?].
Defined.

Lemma manager_advise_exact_witness :
  exists data, calcNumSlabsToAdviseReclaim (mgr demo_mgr) 2 [0; 1] = Ok data /\ advise data = true /\
    sumZ (at_ (poolAdviseReclaimMap data) <$> [0; 1]) = 2.
Proof.
  assert (Hin : forall id : Z, id ∈ [0; 1] -> id = 0 \/ id = 1) by set_solver.
  destruct (manager_advise_exact (mgr demo_mgr) 2 [0; 1]) as (data & Hrun & _ & H).
  - refine (bool_decide_eq_true_1 _ _). by vm_compute.
  - intros id [->| ->]%Hin; (eexists; vm_compute; reflexivity).
  - intros id [->| ->]%Hin; by vm_compute.
  - by vm_compute.
  - by vm_compute.
  - done.
  - destruct H as (targets & _ & _ & H3 & H4 & _); [by vm_compute|].
    exists data. split; [exact Hrun|]. split; [rewrite H3; by vm_compute|rewrite H4; by vm_compute].
Defined.

(** ** Findings *)

(** The check of [provisionPool] compares with the capacity of the array, not
    with the number of pools: the id of a pool that does not exist yet is
    dereferenced. *)
Example provision_unknown_pool :
  nextPoolId_ (mgr demo_mgr) = 2 /\ fst (provisionPool 2 [1] demo_mgr) = Throw UndefinedBehavior /\
  getPoolById (mgr demo_mgr) 2 = Throw InvalidArgument.
Proof. by vm_compute. Qed.
