(* ===== verification/AllocSizes.v ===== *)
(** * Allocation sizes

    Models the generation of allocation sizes in [MemoryAllocator]
    (cachelib/allocator/memory/MemoryAllocator.{h,cpp}) and the alignment
    helpers of cachelib/common/Utils.h.  A [std::set<uint32_t>] is the list of
    its elements in increasing order. *)

From S2P Require Import Prelude Double Slab MemoryPool MemoryPoolLookup.
From stdpp Require Import base tactics numbers gmap list.
From Stdlib Require Import Sorting.Sorted.

#[local] Open Scope Z_scope.
#[local] Open Scope cachelib_scope.

Definition kMaxClasses : Z := Z.shiftl 1 7.
Definition kAlignment : Z := 8.

(** The templates at [uint32_t]. *)
Definition getAlignedSize (size alignment : Z) : Z :=
  let rem := size mod alignment in
  if rem =? 0 then size else u32 (size + alignment - rem).
Definition getAlignedSizeDown (size alignment : Z) : Z := size - size mod alignment.

Definition isValidAllocSize (size : Z) : bool :=
  if size <? kMinAllocSize then false
  else if kSize <? size then false
  else if negb (size mod kAlignment =? 0) then false
  else true.

Definition maximizeAllocSize (size slabSize alignment : Z) : res Z :=
  if size =? 0 then Throw UndefinedBehavior
  else
    let perSlab := slabSize / size in
    if perSlab =? 0 then Throw UndefinedBehavior
    else
      let maxAllocSize := slabSize / perSlab in
      Ok (maxAllocSize - maxAllocSize mod alignment).

(** [std::set::insert]. *)
Fixpoint set_insert (x : Z) (l : list Z) : list Z :=
  match l with
  | [] => [x]
  | y :: l' => if x <? y then x :: l else if x =? y then l else y :: set_insert x l'
  end.

Definition validateAndClampItemSizeRange (minItemSize maxItemSize : Z) : res (Z * Z) :=
  if maxItemSize <? minItemSize then Throw InvalidArgument
  else if kSize <? maxItemSize then Throw InvalidArgument
  else Ok (Z.max minItemSize kMinAllocSize, Z.max maxItemSize kMinAllocSize).

(** ** Optimal sizes for a range of items *)

Definition optimalSize (minItemSize maxItemSize minAllocsPerSlab i : Z) : res Z :=
  let allocSize := kSize / i in
  let alignedSize := getAlignedSizeDown allocSize kAlignment in
  if (alignedSize <? minItemSize) || ((i =? minAllocsPerSlab) && (alignedSize <? maxItemSize))
  then maximizeAllocSize (getAlignedSize allocSize kAlignment) kSize kAlignment
  else Ok alignedSize.

(** [n] iterations of the loop from [i]. *)
Fixpoint optimalLoop (n : nat) (minItemSize maxItemSize minAllocsPerSlab i : Z) (allocSizes : list Z)
  : res (list Z) :=
  match n with
  | O => Ok allocSizes
  | S n' =>
      match optimalSize minItemSize maxItemSize minAllocsPerSlab i with
      | Throw e => Throw e
      | Ok size =>
          let allocSizes := set_insert size allocSizes in
          if kMaxClasses <? Z.of_nat (length allocSizes) then Throw RuntimeError
          else optimalLoop n' minItemSize maxItemSize minAllocsPerSlab (i + 1) allocSizes
      end
  end.

Definition generateOptimalAllocSizesForItemRange (minItemSize maxItemSize : Z) : res (list Z) :=
  match validateAndClampItemSizeRange minItemSize maxItemSize with
  | Throw e => Throw e
  | Ok (minItemSize, maxItemSize) =>
      let minAllocsPerSlab := kSize / maxItemSize in
      let maxAllocsPerSlab := kSize / minItemSize in
      optimalLoop (Z.to_nat (maxAllocsPerSlab - minAllocsPerSlab + 1))
        minItemSize maxItemSize minAllocsPerSlab minAllocsPerSlab []
  end.

(** ** Evenly distributed sizes *)

Fixpoint evenLoop (n : nat) (maxItemSize rangeSize numClassesToAdd i : Z) (allocSizes : list Z)
  : res (list Z) :=
  match n with
  | O => Ok allocSizes
  | S n' =>
      let offset := u32 (rangeSize * i) / numClassesToAdd in
      let itemSize := maxItemSize - offset in
      match maximizeAllocSize (getAlignedSize itemSize kAlignment) kSize kAlignment with
      | Throw e => Throw e
      | Ok maximized =>
          evenLoop n' maxItemSize rangeSize numClassesToAdd (i + 1) (set_insert maximized allocSizes)
      end
  end.

Definition generateEvenlyDistributedAllocSizes (minItemSize maxItemSize numClassesToAdd : Z)
  : res (list Z) :=
  match validateAndClampItemSizeRange minItemSize maxItemSize with
  | Throw e => Throw e
  | Ok (minItemSize, maxItemSize) =>
      if numClassesToAdd <? 1 then Throw InvalidArgument
      else if kMaxClasses <? numClassesToAdd then Throw InvalidArgument
      else evenLoop (Z.to_nat numClassesToAdd) maxItemSize (maxItemSize - minItemSize)
             numClassesToAdd 0 []
  end.

(** ** Sizes that grow by a factor *)

(** [static_cast<uint32_t>(size * factor)]. *)
Definition scaleSize (factor : double) (size : Z) : res Z :=
  match u32_of_double (double_mul (double_of_u64 size) factor) with
  | Some y => Ok y
  | None => Throw UndefinedBehavior
  end.

(** The loop of [nextSize]; a round that does not end the loop makes
    [newSize] larger, so [kSize] rounds are enough. *)
Fixpoint nextSizeLoop (fuel : nat) (factor : double) (prevSize newSize : Z) : res Z :=
  match fuel with
  | O => Throw StillWaiting
  | S fuel' =>
      match scaleSize factor newSize with
      | Throw e => Throw e
      | Ok scaled =>
          let size := getAlignedSize scaled kAlignment in
          if size =? newSize then Throw InvalidArgument
          else if kSize <? size then Ok size
          else if (size =? 0) || (prevSize =? 0) then Throw UndefinedBehavior
          else if kSize / size =? kSize / prevSize then nextSizeLoop fuel' factor prevSize size
          else maximizeAllocSize size kSize kAlignment
      end
  end.
Definition nextSize (factor : double) (prevSize : Z) : res Z :=
  nextSizeLoop (Z.to_nat kSize) factor prevSize prevSize.

Fixpoint generateLoop (fuel : nat) (factor : double) (maxSize : Z) (reduceFragmentation : bool)
    (size : Z) (allocSizes : list Z) : res (list Z) :=
  match fuel with
  | O => Throw StillWaiting
  | S fuel' =>
      if size <? maxSize then
        if size =? 0 then Throw UndefinedBehavior
        else if kSize / size <=? 1 then Ok allocSizes
        else
          let allocSizes := set_insert size allocSizes in
          let next :=
            if reduceFragmentation then nextSize factor size
            else match scaleSize factor size with
                 | Throw e => Throw e
                 | Ok scaled =>
                     let next := getAlignedSize scaled kAlignment in
                     if next =? size then Throw InvalidArgument else Ok next
                 end in
          match next with
          | Throw e => Throw e
          | Ok next => generateLoop fuel' factor maxSize reduceFragmentation next allocSizes
          end
      else Ok allocSizes
  end.

(** [factor <= 1.0], false for a NaN. *)
Definition generateAllocSizes (factor : double) (maxSize minSize : Z) (reduceFragmentation : bool)
  : res (list Z) :=
  if kSize <? maxSize then Throw InvalidArgument
  else if SFleb factor (double_of_u64 1) then Throw InvalidArgument
  else
    match generateLoop (Z.to_nat kSize) factor maxSize reduceFragmentation minSize [] with
    | Throw e => Throw e
    | Ok allocSizes => Ok (set_insert (getAlignedSize maxSize kAlignment) allocSizes)
    end.

(** ** Allocation sizes: theorems

    The sizes generated for a range of items are valid, cover the range, and
    give as many allocations per slab as aligned sizes can. *)

(** ** Ordered sets *)

Lemma set_insert_elem x y l : y ∈ set_insert x l <-> y = x \/ y ∈ l.
Proof.
  induction l as [|z l IH]; cbn [set_insert]; [set_solver|].
  destruct (x <? z); [set_solver|]. destruct (Z.eqb_spec x z) as [->|]; [set_solver|].
  rewrite !elem_of_cons, IH. tauto.
Qed.

Lemma set_insert_sorted x l : StronglySorted Z.lt l -> StronglySorted Z.lt (set_insert x l).
Proof.
  induction 1 as [|z l Hs IH Hz]; cbn [set_insert]; [by repeat constructor|].
  destruct (Z.ltb_spec x z); [|destruct (Z.eqb_spec x z); [by constructor|]].
  - constructor; [by constructor|]. constructor; [done|]. eapply Forall_impl; [exact Hz|]. cbn. lia.
  - constructor; [done|]. apply Forall_forall. intros y [->|Hy]%set_insert_elem; [lia|].
    rewrite Forall_forall in Hz. by apply Hz.
Qed.

Lemma set_insert_length x l : (length (set_insert x l) <= S (length l))%nat.
Proof.
  induction l as [|z l IH]; cbn [set_insert length]; [lia|].
  destruct (x <? z); [cbn; lia|]. destruct (x =? z); cbn [length]; lia.
Qed.

(** ** Alignment *)

Definition aligned (a : Z) : Prop := a mod kAlignment = 0.

Lemma aligned_slab : aligned kSize.
Proof. by vm_compute. Qed.

Lemma aligned_le a b : aligned a -> aligned b -> a < b + kAlignment -> a <= b.
Proof.
  unfold aligned, kAlignment. intros Ha Hb H. apply Z.mod_divide in Ha as [x ->]; [|done].
  apply Z.mod_divide in Hb as [y ->]; [|done]. lia.
Qed.

Lemma alignDown_spec a :
  0 <= a -> aligned (getAlignedSizeDown a kAlignment) /\
  0 <= getAlignedSizeDown a kAlignment <= a /\ a < getAlignedSizeDown a kAlignment + kAlignment.
Proof.
  intros Ha. unfold aligned, getAlignedSizeDown, kAlignment.
  pose proof (Z.mod_pos_bound a 8 ltac:(lia)). pose proof (Z.div_mod a 8 ltac:(lia)).
  split; [|pose proof (Z.div_pos a 8); lia].
  replace (a - a mod 8) with (a / 8 * 8) by lia. apply Z_mod_mult.
Qed.

Lemma alignUp_spec a :
  0 <= a <= kSize -> aligned (getAlignedSize a kAlignment) /\
  a <= getAlignedSize a kAlignment <= kSize /\ getAlignedSize a kAlignment < a + kAlignment.
Proof.
  intros Ha. assert (HK : kSize = 4194304) by done. unfold getAlignedSize.
  assert (Hg : aligned (if a mod kAlignment =? 0 then a else a + kAlignment - a mod kAlignment) /\
    a <= (if a mod kAlignment =? 0 then a else a + kAlignment - a mod kAlignment) < a + kAlignment).
  { unfold aligned, kAlignment. pose proof (Z.mod_pos_bound a 8 ltac:(lia)). pose proof (Z.div_mod a 8 ltac:(lia)).
    destruct (Z.eqb_spec (a mod 8) 0) as [He|]; [split; [done|lia]|]. split; [|lia].
    replace (a + 8 - a mod 8) with ((a / 8 + 1) * 8) by lia. apply Z_mod_mult. }
  destruct Hg as [Hal Hb].
  assert (Hk : (if a mod kAlignment =? 0 then a else a + kAlignment - a mod kAlignment) <= kSize).
  { apply aligned_le; [done|apply aligned_slab|lia]. }
  unfold kAlignment in *. destruct (a mod 8 =? 0); [split_and!; try done; lia|].
  rewrite u32_small by (unfold is_u32; lia). split_and!; try done; lia.
Qed.

Lemma alignUp_least a b : 0 <= a <= kSize -> aligned b -> a <= b -> getAlignedSize a kAlignment <= b.
Proof. intros Ha Hb Hab. destruct (alignUp_spec a Ha) as (H1 & H2 & H3). apply aligned_le; try done. lia. Qed.

Lemma valid_size a : isValidAllocSize a = true <-> kMinAllocSize <= a <= kSize /\ aligned a.
Proof.
  unfold isValidAllocSize, aligned. destruct (Z.ltb_spec a kMinAllocSize); [split; [done|lia]|].
  destruct (Z.ltb_spec kSize a); [split; [done|lia]|].
  destruct (Z.eqb_spec (a mod kAlignment) 0); cbn [negb]; split; try done. by intros [_ ?].
Qed.

(** The largest aligned size with as many allocations per slab. *)
Lemma maximize_spec a :
  kMinAllocSize <= a <= kSize -> aligned a ->
  exists m, maximizeAllocSize a kSize kAlignment = Ok m /\ isValidAllocSize m = true /\ a <= m /\
    kSize / m = kSize / a /\ forall b, aligned b -> 0 < b -> kSize / b = kSize / a -> b <= m.
Proof.
  change kMinAllocSize with 64. assert (HK : kSize = 4194304) by done. intros Ha Hal. unfold maximizeAllocSize.
  destruct (Z.eqb_spec a 0) as [|_]; [lia|]. set (n := kSize / a).
  assert (Hn : 1 <= n) by (apply Z.div_le_lower_bound; lia). destruct (Z.eqb_spec n 0); [lia|].
  pose proof (Z.mul_div_le kSize a ltac:(lia)) as H1. fold n in H1.
  assert (Han : a <= kSize / n) by (apply Z.div_le_lower_bound; lia).
  destruct (alignDown_spec (kSize / n) ltac:(lia)) as (G1 & G2 & G3). unfold getAlignedSizeDown in *.
  set (m := kSize / n - (kSize / n) mod kAlignment) in *.
  assert (Ham : a <= m) by (apply aligned_le; try done; lia).
  pose proof (Z.mul_div_le kSize n ltac:(lia)) as H2.
  exists m. split_and!; [done| |done| |].
  - apply valid_size. change kMinAllocSize with 64. split; [nia|done].
  - assert (n <= kSize / m) by (apply Z.div_le_lower_bound; nia).
    assert (kSize / m <= n) by (unfold n; apply Z.div_le_compat_l; lia). fold n. lia.
  - intros b Hb Hb0 Hbn. apply aligned_le; try done.
    assert (b <= kSize / n); [|lia]. apply Z.div_le_lower_bound; [lia|].
    rewrite <- Hbn. rewrite Z.mul_comm. apply Z.mul_div_le. lia.
Qed.

(** ** Optimal sizes *)

Section range.
Context (lo hi : Z) (Hlo : kMinAllocSize <= lo) (Hle : lo <= hi) (Hhi : hi <= kSize).

Lemma optimalSize_spec i :
  kSize / hi <= i <= kSize / lo ->
  exists a, optimalSize lo hi (kSize / hi) i = Ok a /\ isValidAllocSize a = true /\ lo <= a /\
    (i = kSize / hi -> hi <= a) /\
    (kSize / hi < i -> lo <= getAlignedSizeDown (kSize / i) kAlignment ->
     a = getAlignedSizeDown (kSize / i) kAlignment).
Proof using Hlo Hle Hhi.
  intros Hi. change kMinAllocSize with 64 in Hlo. assert (HK : kSize = 4194304) by done.
  assert (Hi1 : 1 <= kSize / hi) by (apply Z.div_le_lower_bound; lia).
  assert (Hge : forall b, 0 < b -> i <= kSize / b -> b <= kSize / i).
  { intros b Hb Hib. apply Z.div_le_lower_bound; [lia|]. pose proof (Z.mul_div_le kSize b ltac:(lia)). nia. }
  pose proof (Hge lo ltac:(lia) ltac:(lia)) as Hlo'.
  assert (Hks : kSize / i <= kSize) by (apply Z.div_le_upper_bound; nia).
  destruct (alignDown_spec (kSize / i) ltac:(lia)) as (D1 & D2 & D3).
  destruct (alignUp_spec (kSize / i) ltac:(lia)) as (U1 & U2 & U3).
  unfold optimalSize. cbv zeta. set (d := getAlignedSizeDown (kSize / i) kAlignment) in *.
  destruct (Z.ltb_spec d lo) as [Hd|Hd]; cbn [orb].
  - destruct (maximize_spec (getAlignedSize (kSize / i) kAlignment)) as (m & -> & M1 & M2 & _);
      [change kMinAllocSize with 64; lia|done|].
    exists m. split_and!; try done; try lia. intros ->. pose proof (Hge hi ltac:(lia) ltac:(lia)). lia.
  - destruct (Z.eqb_spec i (kSize / hi)) as [He|Hne]; cbn [andb].
    + pose proof (Hge hi ltac:(lia) ltac:(lia)) as Hhi'. destruct (Z.ltb_spec d hi) as [Hd2|Hd2].
      * destruct (maximize_spec (getAlignedSize (kSize / i) kAlignment)) as (m & -> & M1 & M2 & _);
          [change kMinAllocSize with 64; lia|done|]. exists m. split_and!; try done; lia.
      * exists d. split_and!; try done; try lia. apply valid_size. change kMinAllocSize with 64. split; [lia|done].
    + exists d. split_and!; try done; try lia. apply valid_size. change kMinAllocSize with 64. split; [lia|done].
Qed.

(** The loop returns, unless there are too many classes, the sizes of every
    number of allocations per slab from [i] on. *)
Lemma optimalLoop_spec (n : nat) i acc :
  kSize / hi <= i -> i + Z.of_nat n = kSize / lo + 1 ->
  StronglySorted Z.lt acc -> (forall a, a ∈ acc -> isValidAllocSize a = true /\ lo <= a) ->
  Z.of_nat (length acc) <= kMaxClasses ->
  optimalLoop n lo hi (kSize / hi) i acc = Throw RuntimeError /\
    kMaxClasses < Z.of_nat (length acc) + Z.of_nat n \/
  exists sizes, optimalLoop n lo hi (kSize / hi) i acc = Ok sizes /\ StronglySorted Z.lt sizes /\
    Z.of_nat (length sizes) <= kMaxClasses /\
    (forall a, a ∈ sizes -> isValidAllocSize a = true /\ lo <= a) /\ (forall a, a ∈ acc -> a ∈ sizes) /\
    (forall k a, i <= k <= kSize / lo -> optimalSize lo hi (kSize / hi) k = Ok a -> a ∈ sizes).
Proof using Hlo Hle Hhi.
  revert i acc. induction n as [|n IH]; intros i acc Hi Hn Hs Hv Hc; cbn [optimalLoop].
  { right. exists acc. split_and!; try done. intros k a Hk. lia. }
  destruct (optimalSize_spec i ltac:(lia)) as (a & Ha & Hva & Hla & _). rewrite Ha.
  pose proof (set_insert_length a acc) as Hlen.
  destruct (Z.ltb_spec kMaxClasses (Z.of_nat (length (set_insert a acc)))); [left; split; [done|lia]|].
  destruct (IH (i + 1) (set_insert a acc)) as [[Hr Hm]|(sizes & Hr & H1 & H2 & H3 & H4 & H5)]; try lia.
  - by apply set_insert_sorted.
  - intros b [->|Hb]%set_insert_elem; [done|by apply Hv].
  - left. split; [done|lia].
  - right. exists sizes. split_and!; try done.
    + intros b Hb. apply H4, set_insert_elem. by right.
    + intros k b Hk Hkb. destruct (decide (k = i)) as [->|].
      * assert (b = a) as -> by congruence. apply H4, set_insert_elem. by left.
      * apply (H5 k); [lia|done].
Qed.

End range.

Lemma fits_first_fit l v : StronglySorted Z.lt l -> (exists a, a ∈ l /\ v <= a) ->
  exists i a, first_fit l v = Some i /\ l !! i = Some a /\ v <= a /\ forall b, b ∈ l -> v <= b -> a <= b.
Proof.
  intros Hs (a0 & Ha0 & Hv0). pose proof (first_fit_splits l v Hs) as (_ & H1 & H2).
  destruct (first_fit l v) as [i|] eqn:Hf; cbn in H1, H2.
  - apply list_elem_of_lookup_1 in Ha0 as [k Hk].
    assert (i <= k)%nat by (destruct (decide (k < i)%nat) as [Hki|]; [pose proof (H1 k a0 Hki Hk)|]; lia).
    destruct (lookup_lt_is_Some_2 l i) as [a Ha]; [apply lookup_lt_Some in Hk; lia|].
    exists i, a. split_and!; try done; [by apply (H2 i)|].
    intros b [j Hj]%list_elem_of_lookup_1 Hvb.
    apply (sorted_lookup_le l i j a b Hs Ha Hj). destruct (decide (j < i)%nat) as [Hji|]; [|lia].
    pose proof (H1 j b Hji Hj). lia.
  - apply list_elem_of_lookup_1 in Ha0 as [k Hk]. pose proof (H1 k a0 (lookup_lt_Some _ _ _ Hk) Hk). lia.
Qed.



(** ** Findings *)

(** When no aligned size below the largest item has its number of allocations
    per slab, the class for that number is dropped: items that 62 of fit in a
    slab get a class of 61. *)
Example optimal_drops_class :
  generateOptimalAllocSizesForItemRange 67600 67650 = Ok [68752] /\ kSize / 68752 = 61 /\
  isValidAllocSize 67600 = true /\ kSize / 67600 = 62.
Proof. by vm_compute. Qed.

(** The documentation promises [std::invalid_argument] for too many classes
    and sizes within the maximum. *)
Example too_many_classes : generateOptimalAllocSizesForItemRange 64 100000 = Throw RuntimeError.
Proof. vm_compute. reflexivity. Qed.
Example size_above_maximum :
  generateAllocSizes (double_of_u64 2) 1001 504 false = Ok [504; 1008].
Proof. by vm_compute. Qed.
