(* ===== verification/MemoryAllocator.v ===== *)
(** * Memory allocator

    Models [MemoryAllocator]
    (cachelib/allocator/memory/MemoryAllocator.{h,cpp}): one slab allocator,
    the pools on it by id and by name, and the calls that find the pool of an
    allocation from the header of its slab.  The generation of allocation
    sizes is in [AllocSizes].

    The state is the configuration and the state of the pool manager, which
    holds the slab allocator.  A call into a pool acts on the slab allocator
    and that pool; what other threads do to these during the call is an
    argument, as for the pool. *)

From S2P Require Import Prelude.
From S2P Require Import Slab.
From S2P Require SlabAllocator.
From S2P Require AllocationClass.
From S2P Require MemoryPool.
From S2P Require MemoryPoolManager.
From S2P Require Import AllocSizes.
From stdpp Require Import base tactics numbers gmap list strings.

#[local] Open Scope Z_scope.
#[local] Open Scope cachelib_scope.

Record Config : Type := mkConfig {
  allocSizes : list Z;
  enableZeroedSlabAllocs : bool;
  disableFullCoredump : bool;
  lockMemory : bool
}.

Record MemoryAllocator : Type := mkMemoryAllocator {
  config_ : Config;
  manager_ : MemoryPoolManager.ManagerState
}.

(** The members [slabAllocator_] and [memoryPoolManager_]. *)
Definition slabAllocator_ (a : MemoryAllocator) : SlabAllocator.SlabAllocator :=
  MemoryPoolManager.slabAlloc_ (manager_ a).
Definition memoryPoolManager_ (a : MemoryAllocator) : MemoryPoolManager.MemoryPoolManager :=
  MemoryPoolManager.mgr (manager_ a).

Definition onManager {A} (m : M MemoryPoolManager.ManagerState A) : M MemoryAllocator A :=
  fun a => let '(r, g) := m (manager_ a) in (r, mkMemoryAllocator (config_ a) g).
Definition liftA {A} (r : res A) : M MemoryAllocator A := fun a => (r, a).

(** A call on [memoryPoolManager_.getPoolById(id)]. *)
Definition inPool {A} (id : Z) (m : M MemoryPool.PoolState A) : M MemoryAllocator A :=
  let! a := get in
  let! id := liftA (MemoryPoolManager.getPoolById (memoryPoolManager_ a) id) in
  onManager (MemoryPoolManager.onPool id m).

(** A call on [getPoolById(pid).getAllocationClass(cid)]. *)
Definition inClass {A} (pid cid : Z) (m : M AllocationClass.ACState A) : M MemoryAllocator A :=
  inPool pid (let! st := get in
              do! MemoryPool.lift (MemoryPool.getAllocationClassFor (MemoryPool.pool st) cid) in
              MemoryPool.onClass cid m).

(** ** Construction *)

Definition checkConfig (config : Config) : res unit :=
  if kMaxClasses <? Z.of_nat (length (allocSizes config)) then Throw InvalidArgument else Ok tt.

Definition slabConfig (config : Config) : SlabAllocator.Config :=
  SlabAllocator.mkConfig (disableFullCoredump config) (lockMemory config).

(** [ownsMemory] tells the constructor that maps its own region. *)
Definition makeMemoryAllocator (hdrs : gmap Z SlabHeader) (madviseOk : bool) (config : Config)
    (memoryStart memSize : Z) (ownsMemory : bool) : res MemoryAllocator :=
  match SlabAllocator.makeSlabAllocator hdrs madviseOk memoryStart memSize ownsMemory
          (slabConfig config) with
  | Throw e => Throw e
  | Ok s =>
      match checkConfig config with
      | Throw e => Throw e
      | Ok _ => Ok (mkMemoryAllocator config
                      (MemoryPoolManager.mkManagerState s MemoryPoolManager.makeMemoryPoolManager))
      end
  end.

(** ** Pools *)

Definition addPool (name : string) (size : Z) (sizes : list Z) (ensureProvisionable : bool)
  : M MemoryAllocator Z :=
  let! a := get in
  let poolAllocSizes := match sizes with [] => allocSizes (config_ a) | _ => sizes end in
  if kMaxClasses <? Z.of_nat (length poolAllocSizes) then throw InvalidArgument
  else if ensureProvisionable && (size <? u64 (kSize * Z.of_nat (length poolAllocSizes)))
  then throw InvalidArgument
  else onManager (MemoryPoolManager.createNewPool name size poolAllocSizes).

Definition provisionPool (pid : Z) (slabsDistribution : list Z) : M MemoryAllocator bool :=
  onManager (MemoryPoolManager.provisionPool pid slabsDistribution).
Definition shrinkPool (pid bytes : Z) : M MemoryAllocator bool :=
  onManager (MemoryPoolManager.shrinkPool pid bytes).
Definition growPool (pid bytes : Z) : M MemoryAllocator bool :=
  onManager (MemoryPoolManager.growPool pid bytes).
Definition resizePools (src dest bytes : Z) : M MemoryAllocator bool :=
  onManager (MemoryPoolManager.resizePools src dest bytes).
Definition reclaimSlabsAndGrow (id numSlabs : Z) : M MemoryAllocator Z :=
  inPool id (MemoryPool.reclaimSlabsAndGrow numSlabs).

(** [getPoolId] catches [std::invalid_argument]; it is [noexcept]. *)
Definition getPoolId (a : MemoryAllocator) (name : string) : res Z :=
  match MemoryPoolManager.getPoolByName (memoryPoolManager_ a) name with
  | Ok id =>
      match MemoryPoolManager.poolAt (memoryPoolManager_ a) id with
      | Ok p => Ok (MemoryPool.id_ p)
      | Throw e => Throw e
      end
  | Throw InvalidArgument => Ok kInvalidPoolId
  | Throw e => Throw e
  end.
Definition getPool (a : MemoryAllocator) (id : Z) : res MemoryPool.MemoryPool :=
  match MemoryPoolManager.getPoolById (memoryPoolManager_ a) id with
  | Throw e => Throw e
  | Ok id => MemoryPoolManager.poolAt (memoryPoolManager_ a) id
  end.
Definition getAllocationClassId (a : MemoryAllocator) (poolId size : Z) : res Z :=
  match getPool a poolId with
  | Throw e => Throw e
  | Ok p => MemoryPool.getAllocationClassId_size p size
  end.
Definition getAllocSize (a : MemoryAllocator) (pid cid : Z) : res Z :=
  match getPool a pid with
  | Throw e => Throw e
  | Ok p => match MemoryPool.getAllocationClassFor p cid with
            | Throw e => Throw e
            | Ok c => Ok (AllocationClass.allocationSize_ c)
            end
  end.
Definition allSlabsAllocated (a : MemoryAllocator) (pid : Z) : res bool :=
  match getPool a pid with
  | Throw e => Throw e
  | Ok p => Ok (MemoryPool.allSlabsAllocated p)
  end.
Definition getMemorySize (a : MemoryAllocator) : Z :=
  u64 (SlabAllocator.getNumUsableSlabs (slabAllocator_ a) * kSize).
Definition getMemorySizeInclAdvised (a : MemoryAllocator) : Z :=
  u64 (SlabAllocator.getNumUsableAndAdvisedSlabs (slabAllocator_ a) * kSize).
Definition getMemorySize_static (memorySize : Z) : Z :=
  u64 (SlabAllocator.getNumUsableSlabs_static memorySize * kSize).

(** ** Allocating and freeing *)

Definition allocate (others : MemoryPool.PoolState -> MemoryPool.PoolState) (id size : Z)
  : M MemoryAllocator Z := inPool id (MemoryPool.allocate others size).

Definition allocateZeroedSlab (others : MemoryPool.PoolState -> MemoryPool.PoolState) (id : Z)
  : M MemoryAllocator Z :=
  let! a := get in
  if negb (enableZeroedSlabAllocs (config_ a)) then throw LogicError
  else inPool id (MemoryPool.allocateZeroedSlab others).

(** The id of the pool [getMemoryPool] refers to. *)
Definition getMemoryPool (a : MemoryAllocator) (memory : Z) : res Z :=
  match SlabAllocator.getSlabHeader (slabAllocator_ a) memory with
  | None => Throw InvalidArgument
  | Some i =>
      MemoryPoolManager.getPoolById (memoryPoolManager_ a)
        (poolId (SlabAllocator.header (slabAllocator_ a) i))
  end.

Definition free (memory : Z) : M MemoryAllocator unit :=
  let! a := get in
  let! id := liftA (getMemoryPool a memory) in
  onManager (MemoryPoolManager.onPool id (MemoryPool.free memory)).

Definition getAllocInfo (a : MemoryAllocator) (memory : Z) : res AllocInfo :=
  match SlabAllocator.getSlabHeader (slabAllocator_ a) memory with
  | None => Throw InvalidArgument
  | Some i =>
      let header := SlabAllocator.header (slabAllocator_ a) i in
      Ok (mkAllocInfo (poolId header) (classId header) (allocSize header))
  end.

(** ** Releasing slabs *)

Definition startSlabRelease (madviseOk : bool) (pid victim receiver : Z) (mode : SlabReleaseMode)
    (hint : Z) (rnd : nat) (shouldAbort : nat -> bool)
    (others : nat -> AllocationClass.ACState -> AllocationClass.ACState)
  : M MemoryAllocator SlabReleaseContext :=
  let! a := get in
  inPool pid (MemoryPool.startSlabRelease madviseOk victim receiver mode hint
                (enableZeroedSlabAllocs (config_ a)) rnd shouldAbort others).

Definition isAllocFreed (ctx : SlabReleaseContext) (memory : Z) : M MemoryAllocator bool :=
  inClass (pid_ ctx) (victim_ ctx) (AllocationClass.isAllocFreed ctx memory).
Definition allAllocsFreed (ctx : SlabReleaseContext) : M MemoryAllocator bool :=
  inClass (pid_ ctx) (victim_ ctx) (AllocationClass.allFreed (slab_ ctx)).
Definition processAllocForRelease (ctx : SlabReleaseContext) (memory : Z)
    (callback : Z -> M AllocationClass.ACState unit) : M MemoryAllocator unit :=
  inClass (pid_ ctx) (victim_ ctx) (AllocationClass.processAllocForRelease ctx memory callback).

Definition completeSlabRelease (madviseOk : bool)
    (others : list (AllocationClass.ACState -> AllocationClass.ACState))
    (context : SlabReleaseContext) : M MemoryAllocator unit :=
  inPool (pid_ context) (MemoryPool.completeSlabRelease madviseOk others context).
Definition abortSlabRelease (context : SlabReleaseContext) : M MemoryAllocator unit :=
  inPool (pid_ context) (MemoryPool.abortSlabRelease context).

(** ** Traversal *)

(** The loop from index [idx] over [n] slabs; it returns the allocations
    visited and the number of slabs skipped.  [gotLock]: whether the lock of
    the class of a slab is free. *)
Fixpoint traverseSlabs (n : nat) (gotLock : Z -> bool) (callback : Z -> AllocInfo -> bool)
    (a : MemoryAllocator) (idx slabSkipped : Z) : res (list Z * Z) :=
  match n with
  | O => Ok ([], slabSkipped)
  | S n' =>
      let s := slabAllocator_ a in
      let slab := SlabAllocator.getSlabForIdx s idx in
      match SlabAllocator.getSlabHeader_slab s slab with
      | None => traverseSlabs n' gotLock callback a (idx + 1) slabSkipped
      | Some i =>
          let slabHdr := SlabAllocator.header s i in
          if (poolId slabHdr =? kInvalidPoolId) || (classId slabHdr =? kInvalidClassId) ||
             isAdvised slabHdr || isMarkedForRelease slabHdr
          then traverseSlabs n' gotLock callback a (idx + 1) (u64 (slabSkipped + 1))
          else
            match getPool a (poolId slabHdr) with
            | Throw e => Throw e
            | Ok p =>
                match MemoryPool.forEachAllocation (gotLock slab) (classId slabHdr) slab callback
                        (MemoryPool.mkPoolState s p) with
                | Throw e => Throw e
                | Ok (seen, AllocationClass.kAbortIteration) => Ok (seen, slabSkipped)
                | Ok (seen, status) =>
                    let slabSkipped :=
                      match status with
                      | AllocationClass.kSkippedCurrentSlabAndContinue => u64 (slabSkipped + 1)
                      | _ => slabSkipped
                      end in
                    match traverseSlabs n' gotLock callback a (idx + 1) slabSkipped with
                    | Throw e => Throw e
                    | Ok (more, skipped) => Ok (seen ++ more, skipped)
                    end
                end
            end
      end
  end.
Definition forEachAllocation (gotLock : Z -> bool) (callback : Z -> AllocInfo -> bool)
    (a : MemoryAllocator) : res (list Z * Z) :=
  traverseSlabs (Z.to_nat (SlabAllocator.getNumUsableSlabs (slabAllocator_ a))) gotLock callback a 0 0.

(** ** Saving and restoring *)

Record MemoryAllocatorObject : Type := mkMemoryAllocatorObject {
  mao_allocSizes : list Z;
  mao_enableZeroedSlabAllocs : bool;
  mao_lockMemory : bool;
  mao_slabAllocator : SlabAllocator.SlabAllocatorObject;
  mao_memoryPoolManager : MemoryPoolManager.MemoryPoolManagerObject
}.

Definition saveState (a : MemoryAllocator) : res MemoryAllocatorObject :=
  match SlabAllocator.saveState (slabAllocator_ a) with
  | Throw e => Throw e
  | Ok s =>
      match MemoryPoolManager.saveState (manager_ a) with
      | Throw e => Throw e
      | Ok g => Ok (mkMemoryAllocatorObject (allocSizes (config_ a)) (enableZeroedSlabAllocs (config_ a))
                      (lockMemory (config_ a)) s g)
      end
  end.

(** [std::set] of the saved sizes. *)
Definition set_of (l : list Z) : list Z := foldr set_insert [] l.

Definition restoreMemoryAllocator (hdrs : gmap Z SlabHeader) (madviseOk : bool)
    (object : MemoryAllocatorObject) (memoryStart memSize : Z) (disableCoredump nextPoolIdSet : bool)
  : res MemoryAllocator :=
  let config := mkConfig (set_of (mao_allocSizes object)) (mao_enableZeroedSlabAllocs object)
                  disableCoredump (mao_lockMemory object) in
  match SlabAllocator.restoreSlabAllocator hdrs madviseOk (mao_slabAllocator object) memoryStart memSize
          (slabConfig config) with
  | Throw e => Throw e
  | Ok s =>
      match MemoryPoolManager.restoreMemoryPoolManager s (mao_memoryPoolManager object) nextPoolIdSet with
      | Throw e => Throw e
      | Ok g =>
          match checkConfig config with
          | Throw e => Throw e
          | Ok _ => Ok (mkMemoryAllocator config (MemoryPoolManager.mkManagerState s g))
          end
      end
  end.
