(* ===== verification/MemoryAllocatorSpec.v ===== *)
(** * Memory allocator: invariant and theorems *)

From S2P Require Import Prelude Slab SlabAllocatorProofs AllocationClassProofs AllocationClassSpec AllocationClassClaims MemoryPool MemoryPoolLookup MemoryPoolFrame MemoryPoolProofs MemoryPoolOps MemoryPoolSpec Preserves MemoryPoolManager MemoryPoolManagerSpec.
From S2P Require SlabAllocator SlabAllocatorSpec AllocationClass MemoryAllocator.
From stdpp Require Import base tactics numbers gmap list strings.

#[local] Open Scope Z_scope.
#[local] Open Scope cachelib_scope.

(** ** Memory allocator: correctness

    Several pools on one slab allocator: what a pool does leaves the others as
    they are, and the invariant of the allocator. *)

Abbreviation SA := SlabAllocator.SlabAllocator.

Implicit Types (s : SA) (own : gmap Z Z) (id : Z) (p : MemoryPool).

(** ** A pool among others *)

(** Slabs nobody owns have headers without a pool. *)
Definition unowned_ok s own : Prop :=
  forall y, SlabAllocator.isValidSlab s y = true -> own !! y = None ->
    poolId (SlabAllocator.header s (SlabAllocator.slabIdx s y)) = kInvalidPoolId.

Lemma eff_idx id s own s' own' y :
  pool_eff id s own s' own' -> SlabAllocator.slabIdx s' y = SlabAllocator.slabIdx s y.
Proof. intros (Hst & _). unfold SlabAllocator.slabIdx. by rewrite Hst. Qed.

Lemma eff_unowned id s own s' own' :
  pool_eff id s own s' own' -> unowned_ok s own -> unowned_ok s' own'.
Proof.
  intros Heff Hu y Hv Ho. rewrite (eff_idx _ _ _ _ _ _ Heff).
  destruct Heff as (_ & _ & _ & H4). destruct (H4 y Hv Ho) as [|(H5 & H6 & H7)]; [done|].
  rewrite H7. by apply Hu.
Qed.

(** The headers of the slabs of pool [j], seen from [j]. *)
Lemma eff_header_of id s own s' own' j y :
  sa_inv s own -> sa_inv s' own' -> unowned_ok s' own' -> pool_eff id s own s' own' -> j <> id -> 0 <= j ->
  SlabAllocator.isValidSlab s' y = true ->
  poolId (SlabAllocator.header s' (SlabAllocator.slabIdx s' y)) = j ->
  own !! y = Some j /\ own' !! y = Some j /\ SlabAllocator.isValidSlab s y = true /\
  SlabAllocator.header s' (SlabAllocator.slabIdx s' y) = SlabAllocator.header s (SlabAllocator.slabIdx s y).
Proof.
  intros Hsa Hsa' Hu Heff Hj Hj0 Hv Hp. destruct (own' !! y) as [k|] eqn:Ho.
  - destruct (inv_own _ _ Hsa' y k Ho) as [_ Hk]. assert (k = j) as -> by congruence.
    assert (Hoj : own !! y = Some j) by (by apply Heff). split_and!; try done.
    + eapply sa_owned_valid; [done|]. by eapply elem_of_dom_2.
    + rewrite (eff_idx _ _ _ _ _ _ Heff). destruct Heff as (_ & _ & H3 & _). by apply (H3 y j).
  - rewrite (Hu y Hv Ho) in Hp. unfold kInvalidPoolId in Hp. lia.
Qed.

Lemma eff_keeps id s own s' own' j y :
  sa_inv s' own' -> pool_eff id s own s' own' -> j <> id -> own !! y = Some j ->
  own' !! y = Some j /\ SlabAllocator.isValidSlab s' y = true /\
  SlabAllocator.header s' (SlabAllocator.slabIdx s' y) = SlabAllocator.header s (SlabAllocator.slabIdx s y).
Proof.
  intros Hsa' Heff Hj Ho. assert (Ho' : own' !! y = Some j) by (by apply Heff). split_and!; [done| |].
  - eapply sa_owned_valid; [done|]. by eapply elem_of_dom_2.
  - rewrite (eff_idx _ _ _ _ _ _ Heff). destruct Heff as (_ & _ & H3 & _). by apply (H3 y j).
Qed.

(** A class of another pool keeps its invariant. *)
Lemma class_survives id s own s' own' c L :
  sa_inv s own -> sa_inv s' own' -> unowned_ok s' own' -> pool_eff id s own s' own' ->
  AllocationClass.poolId_ c <> id -> 0 <= AllocationClass.poolId_ c ->
  (forall y, slab_of c y -> own !! y = Some (AllocationClass.poolId_ c)) ->
  ac_inv (mkACState s c) [] L -> ac_inv (mkACState s' c) [] L.
Proof.
  intros Hsa Hsa' Hu Heff Hne H0 Hown Hinv. destruct Hinv. split; cbn in *; try done.
  - apply Hsa'.
  - intros y Hy. destruct (ai_slab y Hy) as (Hv & Hh).
    destruct (eff_keeps _ _ _ _ _ _ _ Hsa' Heff Hne (Hown y Hy)) as (_ & Hv' & He).
    split; [done|]. unfold hdr in *. cbn in *. by rewrite He.
  - intros y Hv Hp Hc. unfold hdr in *. cbn in *.
    destruct (eff_header_of id s own s' own' _ y Hsa Hsa' Hu Heff Hne H0 Hv Hp) as (_ & _ & Hv0 & He).
    rewrite He in Hp, Hc. by apply ai_owned.
Qed.

(** What pool [id] does keeps the invariant of another pool. *)
Lemma pool_survives {base : Base} id s own s' own' p l :
  pool_inv (mkPoolState s p) own l [] -> sa_inv s' own' -> unowned_ok s' own' ->
  pool_eff id s own s' own' -> id_ p <> id ->
  @pool_inv (base_at s' own' base_lost) (mkPoolState s' p) own' l [].
Proof.
  intros Hinv Hsa' Hu Heff Hne. destruct Hinv. cbn in *.
  split; cbn [slabAllocator_ pool app] in *; try done.
  - intros i c L Hi HL. destruct (pl_class i c L Hi HL) as (Ha & H1 & H2 & H3). split_and!; try done.
    eapply (class_survives id s own); try done; [by rewrite H2|rewrite H2; lia|].
    intros y Hy. rewrite H2. apply pl_own. apply elem_of_app. right. apply pool_slabs_elem. by exists i, c.
  - intros x. rewrite <- pl_own. by apply Heff.
  - intros x Hx. assert (Ho : own !! x = Some (id_ p)) by (apply pl_own; set_solver).
    destruct (eff_keeps _ _ _ _ _ _ _ Hsa' Heff Hne Ho) as (_ & _ & He). rewrite He. by apply pl_free.
  - apply pool_eff_refl.
Qed.

(** The same pool seen from where it is now. *)
Lemma pool_rebase {base : Base} s own p l :
  pool_inv (mkPoolState s p) own l [] -> @pool_inv (base_at s own base_lost) (mkPoolState s p) own l [].
Proof. intros []. split; cbn in *; try done. apply pool_eff_refl. Qed.

(** ** Invariant *)

(** The allocations held, per pool and class. *)
Abbreviation heap := (list (list (gset Z))).

(** The number of slabs of its free list each pool has released. *)
Class Lost : Type := lost_of : Z -> nat.

Section lost.
Context {F : Lost}.

Record al_inv (g : ManagerState) own (h : heap) : Prop := {
  al_mgr : mgr_inv g;
  al_sa : sa_inv (slabAlloc_ g) own;
  al_unowned : unowned_ok (slabAlloc_ g) own;
  al_len : Z.of_nat (length h) = nextPoolId_ (mgr g);
  al_owner x j : own !! x = Some j -> 0 <= j < nextPoolId_ (mgr g);
  al_fresh id : nextPoolId_ (mgr g) <= id -> lost_of id = 0%nat;
  al_pool id p l : 0 <= id < nextPoolId_ (mgr g) -> poolAt (mgr g) id = Ok p -> h !! Z.to_nat id = Some l ->
    @pool_inv (base_at (slabAlloc_ g) own (lost_of id)) (mkPoolState (slabAlloc_ g) p) own l []
}.

Lemma al_pool_at g own h id :
  al_inv g own h -> 0 <= id < nextPoolId_ (mgr g) ->
  exists p l, poolAt (mgr g) id = Ok p /\ h !! Z.to_nat id = Some l /\ id_ p = id /\ 0 <= maxSize_ p /\
    @pool_inv (base_at (slabAlloc_ g) own (lost_of id)) (mkPoolState (slabAlloc_ g) p) own l [].
Proof.
  intros Hinv Hid. destruct (mg_pool _ (al_mgr _ _ _ Hinv) id Hid) as (p & Hp & Hi & Hm).
  destruct (lookup_lt_is_Some_2 h (Z.to_nat id)) as [l Hl]; [pose proof (al_len _ _ _ Hinv); lia|].
  exists p, l. split_and!; try done. by apply (al_pool _ _ _ Hinv id).
Qed.

End lost.

(** One pool goes from its state to another that satisfies its invariant. *)
Lemma al_set (F F' : Lost) g own h id ps own' l' :
  @al_inv F g own h -> 0 <= id < nextPoolId_ (mgr g) -> id_ (pool ps) = id ->
  (forall j, j <> id -> F' j = F j) ->
  @pool_inv (base_at (slabAlloc_ g) own (F' id)) ps own' l' [] ->
  mgr_inv (mkManagerState (slabAllocator_ ps) (set_pool id (pool ps) (mgr g))) ->
  @al_inv F' (mkManagerState (slabAllocator_ ps) (set_pool id (pool ps) (mgr g))) own' (<[Z.to_nat id := l']> h).
Proof.
  intros Hinv Hid Hpi HF Hps Hm. pose proof (pl_eff _ _ _ _ Hps) as Heff. pose proof (pl_sa _ _ _ _ Hps) as Hsa.
  rewrite Hpi in Heff. cbn in Heff. pose proof (eff_unowned _ _ _ _ _ Heff (al_unowned _ _ _ Hinv)) as Hun.
  pose proof (al_len _ _ _ Hinv) as Hlen. pose proof (mg_len _ (al_mgr _ _ _ Hinv)) as Hpl.
  pose proof (mg_next _ (al_mgr _ _ _ Hinv)) as Hnx.
  split; cbn [slabAlloc_ mgr]; try done.
  - by rewrite length_insert.
  - intros x j Ho. cbn. destruct (decide (j = id)) as [->|Hne]; [done|]. eapply (al_owner _ _ _ Hinv x).
    by apply Heff.
  - intros j Hj. cbn in Hj. unfold lost_of. rewrite HF by lia. by apply (al_fresh _ _ _ Hinv).
  - intros j q l Hj Hq Hl. cbn in Hj. rewrite poolAt_set in Hq by (rewrite ?Hpl; lia).
    unfold lost_of. destruct (decide (j = id)) as [->|Hne].
    + injection Hq as <-. rewrite list_lookup_insert_eq in Hl by lia. injection Hl as <-.
      destruct ps. by apply (pool_rebase (base := base_at (slabAlloc_ g) own (F' id))).
    + rewrite list_lookup_insert_ne in Hl by lia. rewrite HF by done.
      eapply (pool_survives (base := base_at (slabAlloc_ g) own (F j)) id); try done.
      * by eapply (al_pool _ _ _ Hinv j).
      * destruct (mg_pool _ (al_mgr _ _ _ Hinv) j Hj) as (q' & Hq' & Hi & _). congruence.
Qed.

Section lost.
Context {F : Lost}.

(** A step of a pool, which keeps its id and limit. *)
Lemma al_pool_step g own h id p l ps l' :
  al_inv g own h -> 0 <= id < nextPoolId_ (mgr g) -> poolAt (mgr g) id = Ok p -> h !! Z.to_nat id = Some l ->
  pool_step (mkPoolState (slabAlloc_ g) p) l ps l' -> pool_frame (mkPoolState (slabAlloc_ g) p) ps ->
  exists own', al_inv (mkManagerState (slabAllocator_ ps) (set_pool id (pool ps) (mgr g))) own'
    (<[Z.to_nat id := l']> h).
Proof.
  intros Hinv Hid Hp Hl Hstep (Hr%same_region_slabs & Hpi & Hpm & _). cbn in Hr, Hpi, Hpm.
  destruct (al_pool_at _ _ _ _ Hinv Hid) as (p' & l0 & Hp' & Hl' & Hi & Hm & Hpool).
  assert (p' = p) as -> by congruence. assert (l0 = l) as -> by congruence. clear Hp' Hl'.
  destruct (pool_step_inv _ _ _ _ _ Hstep Hpool) as [own' Hinv']. exists own'. apply (al_set F F g own); try done.
  { congruence. }
  pose proof (mg_sum _ (al_mgr _ _ _ Hinv)).
  apply (mgr_set g id _ p); try done; [by apply Hinv|congruence|rewrite Hpm; lia|rewrite Hpm; lia].
Qed.

(** ** Limits of pools *)

(** Only limits of pools differ. *)
Definition only_limits (g g' : ManagerState) : Prop :=
  slabAlloc_ g' = slabAlloc_ g /\ nextPoolId_ (mgr g') = nextPoolId_ (mgr g) /\
  forall id p', poolAt (mgr g') id = Ok p' -> exists p n, poolAt (mgr g) id = Ok p /\ p' = set_maxSize n p.

#[export] Instance only_limits_preorder : PreOrder only_limits.
Proof.
  split.
  - intros g. split_and!; try done. intros id p Hp. exists p, (maxSize_ p). split; [done|]. by destruct p.
  - intros g1 g2 g3 (A1 & A2 & A3) (B1 & B2 & B3). split_and!; [congruence..|].
    intros id p3 H3. destruct (B3 id p3 H3) as (p2 & n & H2 & ->). destruct (A3 id p2 H2) as (p1 & k & H1 & ->).
    by exists p1, n.
Qed.

Lemma resize_limits id n : preserves only_limits (onPool id (MemoryPool.resize n)).
Proof.
  intros g. unfold state_of, onPool. destruct (poolAt (mgr g) id) as [p|] eqn:Hp; [|reflexivity].
  cbn. split_and!; try done. intros j q. cbn. unfold poolAt in *.
  destruct (Z.ltb_spec j 0); [done|]. destruct (Z.ltb_spec id 0); [done|]. cbn.
  destruct (decide (j = id)) as [->|Hne].
  - destruct (pools_ (mgr g) !! Z.to_nat id) as [[q'|]|] eqn:Hl; try done. injection Hp as ->.
    rewrite list_lookup_insert_eq by (by eapply lookup_lt_Some). intros [= <-]. by exists p, n.
  - rewrite list_lookup_insert_ne by lia. intros Hq. exists q, (maxSize_ q). split; [done|]. by destruct q.
Qed.

Lemma liftM_limits {A} (r : res A) : preserves only_limits (liftM r).
Proof. by intros g. Qed.

Lemma poolSize_limits id : preserves only_limits (poolSize id).
Proof. intros g. unfold poolSize, state_of, bind, get. by destruct (poolAt (mgr g) id). Qed.

#[local] Hint Resolve resize_limits liftM_limits poolSize_limits : preserve.

Lemma shrink_limits id n : preserves only_limits (shrinkPool id n).
Proof. unfold shrinkPool. preserve. Qed.
Lemma grow_limits id n : preserves only_limits (growPool id n).
Proof. unfold growPool. preserve. Qed.
Lemma resizePools_limits src dest n : preserves only_limits (resizePools src dest n).
Proof. unfold resizePools. preserve. Qed.

Lemma al_limits g g' own h : al_inv g own h -> only_limits g g' -> mgr_inv g' -> al_inv g' own h.
Proof.
  intros Hinv (H1 & H2 & H3) Hm. split; rewrite ?H1, ?H2; try apply Hinv; try done.
  intros id p' l Hid Hp Hl. destruct (H3 id p' Hp) as (p & n & Hp0 & ->).
  pose proof (al_pool _ _ _ Hinv id p l Hid Hp0 Hl) as Hpool.
  destruct (pool_resize n _ _ _ _ Hpool) as (ps & Hrun & Hps & _). by injection Hrun as <-.
Qed.

(** ** New pools *)

Lemma create_run name sz sizes g id g' :
  createNewPool name sz sizes g = (Ok id, g') ->
  exists p, makeMemoryPool id sz (slabAlloc_ g) sizes = Ok p /\ id = nextPoolId_ (mgr g) /\
    g' = mkManagerState (slabAlloc_ g) (mkMemoryPoolManager (<[Z.to_nat id := Some p]> (pools_ (mgr g)))
           (<[name := id]> (poolsByName_ (mgr g))) (id + 1)).
Proof.
  unfold createNewPool, bind at 1, get. destruct (poolsByName_ (mgr g) !! name); [done|].
  destruct (nextPoolId_ (mgr g) =? kMaxPools); [done|]. unfold bind at 1, liftM.
  destruct (getRemainingSizeLocked g) as [rem|]; [|done]. destruct (rem <? sz); [done|].
  unfold bind at 1. destruct (makeMemoryPool _ _ _ _) as [p|] eqn:Hp; [|done].
  unfold bind, modify. intros [= <- <-]. by exists p.
Qed.

Lemma al_create g own h name sz sizes id g' :
  al_inv g own h -> 0 <= sz -> createNewPool name sz sizes g = (Ok id, g') ->
  al_inv g' own (h ++ [replicate (length sizes) ∅]) /\ id = nextPoolId_ (mgr g).
Proof.
  intros Hinv Hsz Hrun. pose proof (mgr_create _ _ _ _ _ _ (al_mgr _ _ _ Hinv) Hsz Hrun) as (Hm' & Hid & Hn' & _).
  destruct (create_run _ _ _ _ _ _ Hrun) as (p & Hp & _ & ->). split; [|done].
  pose proof (mg_next _ (al_mgr _ _ _ Hinv)) as Hnx. pose proof (mg_next _ Hm') as Hnx'.
  pose proof (al_len _ _ _ Hinv) as Hlen. pose proof (mg_len _ (al_mgr _ _ _ Hinv)) as Hpl.
  unfold kMaxPools in *. cbn in Hnx'.
  assert (Hnew : new_pool id sz (slabAlloc_ g) own sizes p).
  { split_and!; [apply Hinv|lia|unfold SlabAllocator.kMaxPoolId; lia| |done].
    intros x Hv Hx. destruct (own !! x) as [j|] eqn:Ho.
    - destruct (inv_own _ _ (al_sa _ _ _ Hinv) x j Ho) as [_ Hj]. pose proof (al_owner _ _ _ Hinv x j Ho). lia.
    - rewrite (al_unowned _ _ _ Hinv x Hv Ho) in Hx. unfold kInvalidPoolId in Hx. lia. }
  split; cbn [slabAlloc_ mgr]; try apply Hinv; try done.
  - rewrite length_app. cbn. lia.
  - intros x j Ho. pose proof (al_owner _ _ _ Hinv x j Ho). cbn. lia.
  - intros j Hj. cbn in Hj. apply (al_fresh _ _ _ Hinv). lia.
  - intros j q l Hj Hq Hl. cbn in Hj. unfold poolAt in Hq. destruct (Z.ltb_spec j 0); [lia|]. cbn in Hq.
    destruct (decide (j = id)) as [->|Hne].
    + rewrite list_lookup_insert_eq in Hq by lia. injection Hq as <-.
      rewrite lookup_app_r in Hl by lia. replace (Z.to_nat id - length h)%nat with 0%nat in Hl by lia.
      injection Hl as <-. rewrite (al_fresh _ _ _ Hinv id) by lia. by apply (pool_init id sz).
    + rewrite list_lookup_insert_ne in Hq by lia. rewrite lookup_app_l in Hl by lia.
      apply (al_pool _ _ _ Hinv j q l); try done; [lia|]. unfold poolAt. by destruct (Z.ltb_spec j 0); [lia|].
Qed.

End lost.

Lemma al_init {F : Lost} s : F = (fun _ => 0%nat) -> sa_inv s ∅ -> SlabAllocator.nextSlabAllocation_ s = SlabAllocator.slabMemoryStart_ s ->
  al_inv (mkManagerState s makeMemoryPoolManager) ∅ [].
Proof.
  intros HF Hsa Hn. split; cbn [slabAlloc_ mgr]; try done; [apply mgr_init| |by rewrite HF].
  intros y Hv _. apply sa_valid_iff in Hv; [lia|apply Hsa].
Qed.

(** ** The pool of an allocation *)

(** The header of the slab of an allocation held names its pool and class. *)
Lemma held_header {base : Base} st own l (i : nat) c L q :
  pool_inv st own l [] -> ac_ (pool st) !! i = Some c -> l !! i = Some L -> q ∈ L ->
  exists k, SlabAllocator.getSlabHeader (slabAllocator_ st) q = Some k /\
    poolId (SlabAllocator.header (slabAllocator_ st) k) = id_ (pool st) /\
    classId (SlabAllocator.header (slabAllocator_ st) k) = Z.of_nat i /\
    allocSize (SlabAllocator.header (slabAllocator_ st) k) = allocationSize_ c.
Proof.
  intros Hinv Hi HL Hq. destruct (pl_class _ _ _ _ Hinv i c L Hi HL) as (Hac & Hci & Hpi & _).
  destruct (ai_place _ _ _ Hac q (or_introl Hq)) as (x & k & Hsl & _ & ->).
  pose proof (slot_slab _ _ _ Hsl) as Hx. destruct (ai_slab _ _ _ Hac x Hx) as (Hv & H1 & H2 & H3 & _).
  destruct (ac_addr _ x k (ai_wf _ _ _ Hac) (ai_size _ _ _ Hac) Hv (proj1 Hsl)) as (_ & Hh & _).
  unfold hdr in *. cbn in *. eexists. split; [exact Hh|]. split_and!; congruence.
Qed.

(** Allocations of different pools lie in different slabs. *)
Lemma pools_apart {b1 b2 : Base} s own p p' l l' (i j : nat) c cj L Lj q r :
  @pool_inv b1 (mkPoolState s p) own l [] -> @pool_inv b2 (mkPoolState s p') own l' [] -> id_ p <> id_ p' ->
  ac_ p !! i = Some c -> l !! i = Some L -> ac_ p' !! j = Some cj -> l' !! j = Some Lj -> q ∈ L -> r ∈ Lj ->
  q + allocationSize_ c <= r \/ r + allocationSize_ cj <= q.
Proof.
  intros Hp Hp' Hne Hi HL Hj HLj Hq Hr.
  destruct (pl_class _ _ _ _ Hp i c L Hi HL) as (Ha & _ & H1 & _).
  destruct (pl_class _ _ _ _ Hp' j cj Lj Hj HLj) as (Hb & _ & H2 & _). cbn in H1, H2.
  destruct (ai_place _ _ _ Ha q (or_introl Hq)) as (x & k & Hsx & _ & ->).
  destruct (ai_place _ _ _ Hb r (or_introl Hr)) as (y & m & Hsy & _ & ->).
  pose proof (slot_slab _ _ _ Hsx) as Hx. pose proof (slot_slab _ _ _ Hsy) as Hy.
  pose proof (ac_slab_valid _ _ _ _ Ha Hx) as Hvx. pose proof (ac_slab_valid _ _ _ _ Hb Hy) as Hvy.
  destruct (ac_addr _ x k (ai_wf _ _ _ Ha) (ai_size _ _ _ Ha) Hvx (proj1 Hsx)) as (_ & _ & _ & G1 & G2).
  destruct (ac_addr _ y m (ai_wf _ _ _ Hb) (ai_size _ _ _ Hb) Hvy (proj1 Hsy)) as (_ & _ & _ & G3 & G4).
  destruct (ai_slab _ _ _ Ha x Hx) as (_ & E1 & _). destruct (ai_slab _ _ _ Hb y Hy) as (_ & E2 & _).
  unfold hdr in *. cbn [AllocationClass.self AllocationClass.slabAlloc_ slabAllocator_] in *.
  destruct (slabs_apart s x y (ai_wf _ _ _ Ha) Hvx Hvy); [|lia..]. congruence.
Qed.

(** ** Memory allocator: theorems

    Any number of pools share one slab allocator: whatever the calls, the
    allocations of all of them stay apart, and freeing finds the pool and class
    an allocation came from. *)

Abbreviation MemoryAllocator := MemoryAllocator.MemoryAllocator.
Abbreviation manager_ := MemoryAllocator.manager_.
Abbreviation getPool := MemoryAllocator.getPool.

Implicit Types (a : MemoryAllocator) (h : heap).

(** The state a call into the pool [p] starts from. *)
Definition at_pool a p : PoolState := mkPoolState (slabAlloc_ (manager_ a)) p.

(** ** Sequences of operations *)

Definition sizes_of a (sizes : list Z) : list Z :=
  match sizes with [] => MemoryAllocator.allocSizes (MemoryAllocator.config_ a) | _ => sizes end.

(** One call of an operation of the allocator, with the allocations held per
    pool and class.  What is freed is held; a slab to release is one of its
    class's; a context to complete or abort belongs to a release in progress,
    and is completed when nothing in its slab is held. A release may be asked
    to stop at any time, and is a step when it was not. *)
Inductive al_step : MemoryAllocator -> heap -> MemoryAllocator -> heap -> Prop :=
| as_addPool a h name size sizes b id a' :
    0 <= size -> MemoryAllocator.addPool name size sizes b a = (Ok id, a') ->
    al_step a h a' (h ++ [replicate (length (sizes_of a sizes)) ∅])
| as_resize a h src dest bytes b a' :
    0 <= bytes -> MemoryAllocator.resizePools src dest bytes a = (Ok b, a') -> al_step a h a' h
| as_shrink a h id bytes b a' :
    0 <= bytes -> MemoryAllocator.shrinkPool id bytes a = (Ok b, a') -> al_step a h a' h
| as_grow a h id bytes b a' :
    0 <= bytes -> MemoryAllocator.growPool id bytes a = (Ok b, a') -> al_step a h a' h
| as_allocate a h id size p l (i : nat) L r a' :
    getPool a id = Ok p -> h !! Z.to_nat id = Some l -> l !! i = Some L ->
    size <> 0 -> first_fit (acSizes_ p) size = Some i ->
    MemoryAllocator.allocate (fun st => st) id size a = (Ok r, a') ->
    al_step a h a' (<[Z.to_nat id := <[i := add_live r L]> l]> h)
| as_free a h (n i : nat) l L q a' :
    h !! n = Some l -> l !! i = Some L -> q ∈ L -> MemoryAllocator.free q a = (Ok tt, a') ->
    al_step a h a' (<[n := <[i := L ∖ {[ q ]}]> l]> h)
| as_provision a h id p dist b a' :
    getPool a id = Ok p -> length dist = length (ac_ p) -> Forall (fun d => 0 <= d) dist ->
    sumZ dist < 2 ^ 32 -> MemoryAllocator.provisionPool id dist a = (Ok b, a') -> al_step a h a' h
| as_reclaim a h id (n : nat) k a' :
    Z.of_nat n < 2 ^ 32 -> MemoryAllocator.reclaimSlabsAndGrow id (Z.of_nat n) a = (Ok k, a') ->
    al_step a h a' h
| as_release a h ok id p (i : nat) c receiver mode hint rnd shouldAbort ctx a' :
    getPool a id = Ok p -> ac_ p !! i = Some c -> valid_receiver receiver (at_pool a p) ->
    (receiver <> kInvalidClassId -> mode = kRebalance) ->
    chosen hint rnd c ∈ AllocationClass.freeSlabs_ c ++ AllocationClass.allocatedSlabs_ c ->
    MemoryAllocator.startSlabRelease ok id (Z.of_nat i) receiver mode hint rnd shouldAbort no_others a =
      (Ok ctx, a') ->
    al_step a h a' h
| as_complete a h ok p l (i : nat) c L ctx a' :
    getPool a (pid_ ctx) = Ok p -> h !! Z.to_nat (pid_ ctx) = Some l ->
    ac_ p !! i = Some c -> l !! i = Some L -> isReleased ctx = false ->
    victim_ ctx = Z.of_nat i -> in_release (slab_ ctx) (class_state (at_pool a p) c) L ->
    valid_receiver (receiver_ ctx) (at_pool a p) -> (receiver_ ctx <> kInvalidClassId -> mode_ ctx = kRebalance) ->
    (forall q, q ∈ L -> ~ inSlabOf (slab_ ctx) q) ->
    MemoryAllocator.completeSlabRelease ok [] ctx a = (Ok tt, a') -> al_step a h a' h
| as_abort a h p l (i : nat) c L ctx a' :
    getPool a (pid_ ctx) = Ok p -> h !! Z.to_nat (pid_ ctx) = Some l ->
    ac_ p !! i = Some c -> l !! i = Some L -> isReleased ctx = false ->
    victim_ ctx = Z.of_nat i -> in_release (slab_ ctx) (class_state (at_pool a p) c) L ->
    MemoryAllocator.abortSlabRelease ctx a = (Ok tt, a') -> al_step a h a' h.

(** Any number of calls; [F] counts, per pool, the releases of slabs of its
    free list, asked for without a victim. *)
Definition count_release (id : Z) (F : Lost) : Lost := fun j => if decide (j = id) then S (F j) else F j.

Inductive al_steps : MemoryAllocator -> heap -> Lost -> MemoryAllocator -> heap -> Lost -> Prop :=
| al_refl a h F : al_steps a h F a h F
| al_next a h F a1 h1 a' h' F' : al_step a h a1 h1 -> al_steps a1 h1 F a' h' F' -> al_steps a h F a' h' F'
| al_next_free a h F ok id receiver mode hint rnd shouldAbort ctx a1 a' h' F' :
    MemoryAllocator.startSlabRelease ok id kInvalidClassId receiver mode hint rnd shouldAbort no_others a =
      (Ok ctx, a1) ->
    al_steps a1 h (count_release id F) a' h' F' -> al_steps a h F a' h' F'.

(** ** Calls into a pool *)

Lemma getPool_inv a id p :
  getPool a id = Ok p -> 0 <= id < nextPoolId_ (mgr (manager_ a)) /\ poolAt (mgr (manager_ a)) id = Ok p.
Proof.
  unfold MemoryAllocator.getPool, MemoryAllocator.memoryPoolManager_, getPoolById.
  destruct (Z.ltb_spec id (nextPoolId_ (mgr (manager_ a)))); [|done].
  destruct (Z.leb_spec 0 id); [|done]. cbn [andb].
  destruct (poolAt (mgr (manager_ a)) id) as [q|] eqn:Hq; [|done]. rewrite Hq. intros [= ->]. done.
Qed.

Section calls.
Context {F : Lost}.

Lemma getPool_at a own h id :
  al_inv (manager_ a) own h -> 0 <= id < nextPoolId_ (mgr (manager_ a)) ->
  getPool a id = poolAt (mgr (manager_ a)) id.
Proof.
  intros Hinv Hid. unfold MemoryAllocator.getPool, MemoryAllocator.memoryPoolManager_.
  rewrite getPoolById_spec by apply Hinv. by rewrite decide_True by done.
Qed.

Lemma inPool_run {A} a id (m : M PoolState A) r a' :
  MemoryAllocator.inPool id m a = (Ok r, a') ->
  exists p ps, getPool a id = Ok p /\ m (at_pool a p) = (Ok r, ps) /\
    a' = MemoryAllocator.mkMemoryAllocator (MemoryAllocator.config_ a)
           (mkManagerState (slabAllocator_ ps) (set_pool id (pool ps) (mgr (manager_ a)))).
Proof.
  unfold MemoryAllocator.inPool, bind, get, MemoryAllocator.liftA, MemoryAllocator.memoryPoolManager_.
  destruct (getPoolById (mgr (manager_ a)) id) as [id'|] eqn:Hid; [|done].
  assert (id' = id) as ->.
  { unfold getPoolById in Hid. destruct (_ && _); [|done]. destruct (poolAt _ id); congruence. }
  unfold MemoryAllocator.onManager, onPool. destruct (poolAt (mgr (manager_ a)) id) as [p|] eqn:Hp; [|done].
  destruct (m (mkPoolState (slabAlloc_ (manager_ a)) p)) as [r' ps] eqn:Hm. intros [= -> <-].
  exists p, ps. split_and!; try done. unfold MemoryAllocator.getPool, MemoryAllocator.memoryPoolManager_.
  by rewrite Hid.
Qed.

Lemma al_in_pool {A} a own h id (m : M PoolState A) r a' l l' :
  al_inv (manager_ a) own h -> MemoryAllocator.inPool id m a = (Ok r, a') -> preserves pool_frame m ->
  h !! Z.to_nat id = Some l ->
  (forall p ps, getPool a id = Ok p -> m (at_pool a p) = (Ok r, ps) -> pool_step (at_pool a p) l ps l') ->
  exists own', al_inv (manager_ a') own' (<[Z.to_nat id := l']> h).
Proof.
  intros Hinv Hrun Hk Hl Hst. destruct (inPool_run _ _ _ _ _ Hrun) as (p & ps & Hp & Hm & ->).
  destruct (getPool_inv _ _ _ Hp) as [Hid Hat].
  apply (al_pool_step (manager_ a) own h id p l ps l' Hinv Hid Hat Hl); [by apply Hst|].
  specialize (Hk (at_pool a p)). unfold state_of in Hk. by rewrite Hm in Hk.
Qed.

(** The same for calls that hand out and take back nothing. *)
Lemma al_in_pool_same {A} a own h id (m : M PoolState A) r a' :
  al_inv (manager_ a) own h -> MemoryAllocator.inPool id m a = (Ok r, a') -> preserves pool_frame m ->
  (forall p l ps, getPool a id = Ok p -> h !! Z.to_nat id = Some l -> m (at_pool a p) = (Ok r, ps) ->
     pool_step (at_pool a p) l ps l) ->
  exists own', al_inv (manager_ a') own' h.
Proof.
  intros Hinv Hrun Hk Hst. destruct (inPool_run _ _ _ _ _ Hrun) as (p & ps & Hp & _ & _).
  destruct (getPool_inv _ _ _ Hp) as [Hid _]. destruct (al_pool_at _ _ _ _ Hinv Hid) as (p' & l & _ & Hl & _).
  destruct (al_in_pool a own h id m r a' l l Hinv Hrun Hk Hl) as [own' H]; [eauto|].
  rewrite list_insert_id in H by done. by exists own'.
Qed.

(** An allocation held: its pool and class, and the header of its slab. *)
Lemma al_held a own h (n i : nat) l L q :
  al_inv (manager_ a) own h -> h !! n = Some l -> l !! i = Some L -> q ∈ L ->
  exists p c k, getPool a (Z.of_nat n) = Ok p /\ poolAt (mgr (manager_ a)) (Z.of_nat n) = Ok p /\
    id_ p = Z.of_nat n /\ ac_ p !! i = Some c /\
    @pool_inv (base_at (slabAlloc_ (manager_ a)) own (lost_of (Z.of_nat n))) (at_pool a p) own l [] /\
    SlabAllocator.getSlabHeader (slabAlloc_ (manager_ a)) q = Some k /\
    poolId (SlabAllocator.header (slabAlloc_ (manager_ a)) k) = Z.of_nat n /\
    classId (SlabAllocator.header (slabAlloc_ (manager_ a)) k) = Z.of_nat i /\
    allocSize (SlabAllocator.header (slabAlloc_ (manager_ a)) k) = allocationSize_ c.
Proof.
  intros Hinv Hn Hi Hq.
  assert (Hid : 0 <= Z.of_nat n < nextPoolId_ (mgr (manager_ a))).
  { rewrite <- (al_len _ _ _ Hinv). apply lookup_lt_Some in Hn. lia. }
  destruct (al_pool_at _ _ _ _ Hinv Hid) as (p & l' & Hp & Hl & Hpi & _ & Hpool).
  rewrite Nat2Z.id in Hl. assert (l' = l) as -> by congruence.
  destruct (lookup_lt_is_Some_2 (ac_ p) i) as [c Hc].
  { pose proof (pl_len _ _ _ _ Hpool) as Hlen. cbn in Hlen. rewrite <- Hlen. by eapply lookup_lt_Some. }
  destruct (held_header _ _ _ _ _ _ _ Hpool Hc Hi Hq) as (k & H1 & H2 & H3 & H4). cbn in H1, H2, H3, H4.
  exists p, c, k. rewrite (getPool_at a own h) by done. split_and!; try done. congruence.
Qed.

Lemma al_free a own h (n i : nat) l L q :
  al_inv (manager_ a) own h -> h !! n = Some l -> l !! i = Some L -> q ∈ L ->
  exists p ps, getPool a (Z.of_nat n) = Ok p /\ poolAt (mgr (manager_ a)) (Z.of_nat n) = Ok p /\
    free q (at_pool a p) = (Ok tt, ps) /\
    MemoryAllocator.free q a = (Ok tt, MemoryAllocator.mkMemoryAllocator (MemoryAllocator.config_ a)
      (mkManagerState (slabAllocator_ ps) (set_pool (Z.of_nat n) (pool ps) (mgr (manager_ a))))).
Proof.
  intros Hinv Hn Hi Hq. destruct (al_held _ _ _ _ _ _ _ _ Hinv Hn Hi Hq)
    as (p & c & k & Hp & Hat & Hpi & Hc & Hpool & H1 & H2 & _).
  destruct (pool_free _ _ _ _ _ _ _ _ Hpool Hc Hi Hq) as (ps & Hrun & _).
  exists p, ps. split_and!; try done.
  unfold MemoryAllocator.free, bind, get, MemoryAllocator.liftA, MemoryAllocator.getMemoryPool.
  unfold MemoryAllocator.slabAllocator_, MemoryAllocator.memoryPoolManager_. rewrite H1, H2.
  rewrite getPoolById_spec by apply Hinv. rewrite decide_True by (by apply (getPool_inv a _ p)).
  unfold MemoryAllocator.onManager, onPool. rewrite Hat. unfold at_pool in Hrun. by rewrite Hrun.
Qed.

(** ** The invariant holds throughout *)

Lemma no_others_quiet j : quiet (no_others j).
Proof. done. Qed.

Lemma al_onManager {A} a (m : M ManagerState A) r a' :
  MemoryAllocator.onManager m a = (Ok r, a') -> m (manager_ a) = (Ok r, manager_ a').
Proof. unfold MemoryAllocator.onManager. destruct (m (manager_ a)) as [r' g]. by intros [= -> <-]. Qed.

Lemma al_relimit {A} a own h (m : M ManagerState A) r a' :
  al_inv (manager_ a) own h -> preserves only_limits m -> mgr_inv (state_of m (manager_ a)) ->
  MemoryAllocator.onManager m a = (Ok r, a') -> al_inv (manager_ a') own h.
Proof.
  intros Hinv Hk Hm Hrun%al_onManager. specialize (Hk (manager_ a)). unfold state_of in *. rewrite Hrun in *.
  by eapply al_limits.
Qed.

Lemma al_step_inv a h a' h' own :
  al_step a h a' h' -> al_inv (manager_ a) own h -> exists own', al_inv (manager_ a') own' h'.
Proof.
  intros Hstep Hinv. pose proof (al_mgr _ _ _ Hinv) as Hm.
  destruct Hstep as [a h name size sizes b id a' Hs Hrun|a h src dest bytes b a' Hb Hrun|a h id bytes b a' Hb Hrun
    |a h id bytes b a' Hb Hrun|a h id size p l i L r a' Hp Hl Hi Hs Hff Hrun|a h n i l L q a' Hn Hi Hq Hrun
    |a h id p dist b a' Hp Hlen Hd Hsum Hrun|a h id n k a' Hn Hrun
    |a h ok id p i c receiver mode hint rnd sa ctx a' Hp Hi Hrec Hmode Hx Hrun
    |a h ok p l i c L ctx a' Hp Hl Hi HL Hrel Hvic Hir Hrec Hmode Hfree Hrun
    |a h p l i c L ctx a' Hp Hl Hi HL Hrel Hvic Hir Hrun].
  - unfold MemoryAllocator.addPool, bind, get in Hrun. fold (sizes_of a sizes) in Hrun.
    destruct (_ <? _); [done|]. destruct (b && _); [done|]. apply al_onManager in Hrun.
    exists own. by eapply al_create.
  - exists own. eapply al_relimit; [done|apply resizePools_limits| |exact Hrun].
    by eapply mgr_resizePools; [| |apply surjective_pairing].
  - exists own. eapply al_relimit; [done|apply shrink_limits| |exact Hrun].
    by eapply mgr_shrink; [| |apply surjective_pairing].
  - exists own. eapply al_relimit; [done|apply grow_limits| |exact Hrun].
    by eapply mgr_grow; [| |apply surjective_pairing].
  - eapply al_in_pool; [done|exact Hrun|by apply allocate_pool|done|].
    intros p' ps Hp' Hm'. assert (p' = p) as -> by congruence. by eapply ps_allocate.
  - destruct (al_free _ _ _ _ _ _ _ _ Hinv Hn Hi Hq) as (p & ps & Hp & Hat & Hrun1 & Hrun2).
    rewrite Hrun in Hrun2. injection Hrun2 as ->. destruct (getPool_inv _ _ _ Hp) as [Hid _].
    rewrite <- (Nat2Z.id n) in Hn.
    replace (<[n := <[i := L ∖ {[ q ]}]> l]> h) with (<[Z.to_nat (Z.of_nat n) := <[i := L ∖ {[ q ]}]> l]> h)
      by (by rewrite Nat2Z.id).
    apply (al_pool_step (manager_ a) own h (Z.of_nat n) p l ps); try done; [by eapply ps_free|].
    pose proof (free_pool q (at_pool a p)) as Hk. unfold state_of in Hk. by rewrite Hrun1 in Hk.
  - assert (Hrun' : MemoryAllocator.inPool id (provision dist) a = (Ok b, a')).
    { destruct (getPool_inv _ _ _ Hp) as [Hid Hat]. unfold MemoryAllocator.provisionPool, provisionPool in Hrun.
      destruct (kMaxPools <=? id); [done|].
      unfold MemoryAllocator.inPool, bind, get, MemoryAllocator.liftA, MemoryAllocator.memoryPoolManager_.
      rewrite getPoolById_spec by done. by rewrite decide_True. }
    eapply al_in_pool_same; [done|exact Hrun'|apply provision_pool|].
    intros p' l ps Hp' Hl Hm'. assert (p' = p) as -> by congruence. by eapply ps_provision.
  - eapply al_in_pool_same; [done|exact Hrun|apply reclaim_pool|].
    intros p' l ps Hp' Hl Hm'. by eapply ps_reclaim.
  - unfold MemoryAllocator.startSlabRelease, bind, get in Hrun.
    eapply al_in_pool_same; [done|exact Hrun|by apply startSlabRelease_pool|].
    intros p' l ps Hp' Hl Hm'. assert (p' = p) as -> by congruence. by eapply ps_release.
  - eapply al_in_pool_same; [done|exact Hrun|by apply complete_pool|].
    intros p' l' ps Hp' Hl' Hm'. assert (p' = p) as -> by congruence. assert (l' = l) as -> by congruence.
    by eapply ps_complete.
  - eapply al_in_pool_same; [done|exact Hrun|apply abort_pool|].
    intros p' l' ps Hp' Hl' Hm'. assert (p' = p) as -> by congruence. assert (l' = l) as -> by congruence.
    by eapply ps_abort.
Qed.

End calls.

Lemma al_release_free (F : Lost) a own h ok id receiver mode hint rnd sa ctx a' :
  al_inv (manager_ a) own h ->
  MemoryAllocator.startSlabRelease ok id kInvalidClassId receiver mode hint rnd sa no_others a = (Ok ctx, a') ->
  exists own', @al_inv (count_release id F) (manager_ a') own' h.
Proof.
  intros Hinv Hrun. unfold MemoryAllocator.startSlabRelease, bind at 1, get in Hrun.
  destruct (inPool_run _ _ _ _ _ Hrun) as (p & ps & Hp & Hm & ->). destruct (getPool_inv _ _ _ Hp) as [Hid Hat].
  destruct (al_pool_at _ _ _ _ Hinv Hid) as (p' & l & Hp' & Hl & Hi & Hmx & Hpool).
  assert (p' = p) as -> by congruence. clear Hp'.
  destruct (pool_release_free _ _ _ _ _ _ _ _ _ _ _ _ _ _ _ _ Hpool Hm) as [own' Hps]. exists own'.
  pose proof (startSlabRelease_pool ok kInvalidClassId receiver mode hint
    (MemoryAllocator.enableZeroedSlabAllocs (MemoryAllocator.config_ a)) rnd sa no_others no_others_quiet (at_pool a p)) as Hk.
  unfold state_of in Hk. rewrite Hm in Hk. destruct Hk as (Hr%same_region_slabs & Hpi & Hpm & _). cbn in Hr, Hpi, Hpm.
  rewrite <- (list_insert_id h (Z.to_nat id) l Hl).
  apply (al_set F (count_release id F) (manager_ a) own h id ps own' l Hinv Hid); [congruence| | |].
  - intros j Hj. unfold count_release. by rewrite decide_False.
  - unfold count_release. by rewrite decide_True.
  - pose proof (mg_sum _ (al_mgr _ _ _ Hinv)).
    apply (mgr_set (manager_ a) id _ p); try done; [by apply Hinv|congruence|rewrite Hpm; lia|rewrite Hpm; lia].
Qed.

Lemma al_steps_inv a h (F : Lost) a' h' (F' : Lost) own :
  al_steps a h F a' h' F' -> @al_inv F (manager_ a) own h -> exists own', @al_inv F' (manager_ a') own' h'.
Proof.
  intros Hsteps. revert own.
  induction Hsteps as [|a h F a1 h1 a' h' F' Hs _ IH|a h F ok id receiver mode hint rnd sa ctx a1 a' h' F' Hs _ IH];
    intros own Hinv; [eauto|..].
  - destruct (al_step_inv (F := F) _ _ _ _ _ Hs Hinv) as [own1 Hinv1]. by eapply IH.
  - destruct (al_release_free _ _ _ _ _ _ _ _ _ _ _ _ _ Hinv Hs) as [own1 Hinv1]. by eapply IH.
Qed.

(** ** Theorems *)

(** [q] is held from class [i], which is [c], of pool [n]. *)
Definition held a h (n i : nat) (c : AC) (q : Z) : Prop :=
  exists p l L, getPool a (Z.of_nat n) = Ok p /\ ac_ p !! i = Some c /\
    h !! n = Some l /\ l !! i = Some L /\ q ∈ L.

(** The slabs of a pool, in its free list and its classes. *)
Definition slabs_of p : list Z := freeSlabs_ p ++ pool_slabs (ac_ p).

Lemma al_held_apart {F : Lost} a own h n i c q n' i' c' q' :
  al_inv (manager_ a) own h -> held a h n i c q -> held a h n' i' c' q' -> (n, i, q) <> (n', i', q') ->
  q + allocationSize_ c <= q' \/ q' + allocationSize_ c' <= q.
Proof.
  intros Hinv (p & l & L & Hp & Hc & Hl & HL & Hq) (p' & l' & L' & Hp' & Hc' & Hl' & HL' & Hq') Hne.
  destruct (al_held _ _ _ _ _ _ _ _ Hinv Hl HL Hq) as (p0 & _ & _ & Hp0 & _ & Hid & _ & Hpool & _).
  destruct (al_held _ _ _ _ _ _ _ _ Hinv Hl' HL' Hq') as (p1 & _ & _ & Hp1 & _ & Hid' & _ & Hpool' & _).
  assert (p0 = p) as -> by congruence. assert (p1 = p') as -> by congruence.
  destruct (decide (n = n')) as [->|Hn].
  - assert (p' = p) as -> by congruence. assert (l' = l) as -> by congruence.
    eapply (pool_apart (at_pool a p) own l [] i i' c c' L L' q q' Hpool); try done. congruence.
  - eapply (pools_apart _ own p p' l l' i i' c c' L L'); try done. lia.
Qed.


(** ** Witness *)

(** Two pools on a region with three slabs, each with an allocation. *)
Definition demo_config : MemoryAllocator.Config := MemoryAllocator.mkConfig [kSize / 2; kSize] false false false.
Definition demo_ma0 : res MemoryAllocator :=
  MemoryAllocator.makeMemoryAllocator ∅ true demo_config kSize (4 * kSize) false.
Definition demo_ma : MemoryAllocator :=
  match demo_ma0 with Ok a => a | Throw _ => MemoryAllocator.mkMemoryAllocator demo_config
    (mkManagerState SlabAllocatorSpec.demo_alloc makeMemoryPoolManager) end.
Definition demo_ma_pools : MemoryAllocator :=
  state_of (do! MemoryAllocator.addPool "a" (2 * kSize) [] false in
            MemoryAllocator.addPool "b" kSize [kSize] true) demo_ma.
Definition demo_ma_used : MemoryAllocator :=
  state_of (do! MemoryAllocator.allocate (fun st => st) 0 100 in MemoryAllocator.allocate (fun st => st) 1 kSize)
    demo_ma_pools.
Definition demo_heap : heap := [[{[ 2 * kSize ]}; ∅]; [{[ 3 * kSize ]}]].
Definition demo_p (id : Z) (a : MemoryAllocator) : MemoryPool :=
  match getPool a id with Ok p => p | Throw _ => demo_pool end.

Lemma demo_ma_steps : al_steps demo_ma [] (fun _ => 0%nat) demo_ma_used demo_heap (fun _ => 0%nat).
Proof.
  eapply al_next; [eapply (as_addPool _ _ "a" (2 * kSize) [] false 0); [done|by vm_compute]|].
  eapply al_next; [eapply (as_addPool _ _ "b" kSize [kSize] true 1); [done|by vm_compute]|].
  eapply al_next; [eapply (as_allocate _ _ 0 100 (demo_p 0 demo_ma_pools) [∅; ∅] 0 ∅ (2 * kSize));
    by vm_compute|].
  eapply al_next; [eapply (as_allocate _ _ 1 kSize (demo_p 1 demo_ma_pools) [∅] 0 ∅ (3 * kSize));
    by vm_compute|].
  match goal with |- al_steps _ ?l _ _ ?k _ => assert (l = k) as -> by (by vm_compute) end. apply al_refl.
Qed.


(** ** Findings *)

(** The traversal goes over as many slabs as are usable, but an advised slab
    keeps its place among the others: after the slab at index 0 is advised
    away, the last slab, whose allocation is held, is not visited. *)
Example for_each_misses_slab :
  let all := fun (_ : Z) (_ : AllocInfo) => true in
  let '(r, a) := (do! MemoryAllocator.addPool "a" (3 * kSize) [kSize] false in
    do! MemoryAllocator.allocate (fun st => st) 0 kSize in do! MemoryAllocator.allocate (fun st => st) 0 kSize in
    do! MemoryAllocator.allocate (fun st => st) 0 kSize in do! MemoryAllocator.free (2 * kSize) in
    MemoryAllocator.startSlabRelease true 0 0 kInvalidClassId kAdvise (2 * kSize) 0 (fun _ => false) no_others)
    demo_ma in
  (match r with Ok ctx => isReleased ctx = true | Throw _ => False end) /\
  MemoryAllocator.getAllocInfo a (4 * kSize) = Ok (mkAllocInfo 0 0 kSize) /\
  MemoryAllocator.forEachAllocation (fun _ => true) all demo_ma = Ok ([], 0) /\
  MemoryAllocator.forEachAllocation (fun _ => true) all a = Ok ([3 * kSize], 1).
Proof. vm_compute. by split_and!. Qed.
