(* ===== verification/ChainedHashTable.v ===== *)
(** * Chained hash table

    Models [ChainedHashTable] (cachelib/allocator/ChainedHashTable.h): the
    intrusive hash table with chaining that finds items by key, its container
    interface, and its iterator.

    The hooks live in the nodes: [hooks] maps a node's address to the
    compressed pointer of its hook, and [accessible] has the nodes whose
    accessible flag is set.  The keys of nodes do not change while they are in
    use: [getKey] is a function of the address.  The hash function is the
    virtual [Hash::operator()].  A handle maker acts on the reference counts,
    whose state [R] the table never looks at; it returns a handle, a null
    handle, or throws.  Each operation runs under the lock of its bucket and is
    atomic.  The walk along a chain has as much fuel as there are written
    hooks, which is enough unless the chain is cyclic. *)

From S2P Require Import Prelude PtrCompressor Double.

#[local] Open Scope Z_scope.
#[local] Open Scope cachelib_scope.

(** ** Configuration *)

Definition kMaxBucketPower : Z := 32.
Definition kMaxLockPower : Z := 32.

Record Config : Type := mkConfig {
  bucketsPower_ : Z;
  locksPower_ : Z;
  pageSize_ : Z;
  hasherMagicId_ : Z
}.

(** [pageSize]: the size in bytes of the configured pages. *)
Definition makeConfig (bucketsPower locksPower pageSize magicId : Z) : res Config :=
  if (kMaxBucketPower <? bucketsPower) || (kMaxLockPower <? locksPower) || (bucketsPower <? locksPower)
  then Throw InvalidArgument
  else Ok (mkConfig bucketsPower locksPower pageSize magicId).

Definition getNumBuckets (c : Config) : Z := u64 (Z.shiftl 1 (bucketsPower_ c)).
Definition getNumLocks (c : Config) : Z := u64 (Z.shiftl 1 (locksPower_ c)).

(** [ceilLog2] is [static_cast<size_t>(ceil(log2(x)))] of the C library. *)
Definition sizeBucketsPowerAndLocksPower (ceilLog2 : double -> Z) (cacheEntries : Z) (c : Config) : res Config :=
  let loadFactor := S754_finite false 7205759403792794 (-52) in
  let bucketsPower := u32 (ceilLog2 (double_mul (double_of_u64 cacheEntries) loadFactor)) in
  if kMaxBucketPower <? bucketsPower then Throw InvalidArgument
  else
    let locksPower := if bucketsPower <=? 20 then bucketsPower / 2 + 1 else bucketsPower - 10 in
    Ok (mkConfig bucketsPower locksPower (pageSize_ c) (hasherMagicId_ c)).

(** [util::getAlignedSize] at [size_t]. *)
Definition getAlignedSize64 (size alignment : Z) : Z :=
  let rem := size mod alignment in
  if rem =? 0 then size else u64 (size + alignment - rem).

Record ChainedHashTableObject : Type := mkChainedHashTableObject {
  obj_bucketsPower : Z;
  obj_locksPower : Z;
  obj_numKeys : Z;
  obj_hasherMagicId : Z
}.

(** The handle maker used by default; [incRef] takes a reference to a node. *)
Definition kDefaultHandleMaker {A R : Type} (incRef : A -> R -> res unit * R) (t : option A) (r : R)
  : res (option A) * R :=
  match t with
  | None => (Ok None, r)
  | Some a =>
      match incRef a r with
      | (Ok _, r') => (Ok (Some a), r')
      | (Throw e, r') => (Throw e, r')
      end
  end.

Section ChainedHashTable.

Context {A C K R : Type} `{Countable A} `{PC : PtrCompressor A C} `{EqDecision K}.
Context (getKey : A -> K) (hasher : K -> Z).
Context (handleMaker : option A -> R -> res (option A) * R).
Context (releaseHandle : A -> R -> R).

(** ** The table *)

Record Impl : Type := mkImpl {
  numBuckets_ : Z;
  numBucketsMask_ : Z;
  hashTable_ : list C;
  restorable_ : bool
}.

Record Container : Type := mkContainer {
  config_ : Config;
  ht_ : Impl;
  numKeys_ : Z;
  numIterators_ : Z;
  hooks : gmap A C;
  accessible : gset A;
  refs : R
}.

Definition set_hooks (x : gmap A C) (t : Container) : Container :=
  mkContainer (config_ t) (ht_ t) (numKeys_ t) (numIterators_ t) x (accessible t) (refs t).
Definition set_table (x : list C) (t : Container) : Container :=
  mkContainer (config_ t) (mkImpl (numBuckets_ (ht_ t)) (numBucketsMask_ (ht_ t)) x (restorable_ (ht_ t)))
    (numKeys_ t) (numIterators_ t) (hooks t) (accessible t) (refs t).
Definition set_numKeys (x : Z) (t : Container) : Container :=
  mkContainer (config_ t) (ht_ t) x (numIterators_ t) (hooks t) (accessible t) (refs t).
Definition set_numIterators (x : Z) (t : Container) : Container :=
  mkContainer (config_ t) (ht_ t) (numKeys_ t) x (hooks t) (accessible t) (refs t).
Definition set_accessible (x : gset A) (t : Container) : Container :=
  mkContainer (config_ t) (ht_ t) (numKeys_ t) (numIterators_ t) (hooks t) x (refs t).
Definition set_refs (x : R) (t : Container) : Container :=
  mkContainer (config_ t) (ht_ t) (numKeys_ t) (numIterators_ t) (hooks t) (accessible t) x.

(** [Impl(numBuckets, memStart, compressor, hasher, resetMem)]; [mem] is the
    content of the memory given, or what [resetMem] and the constructor that
    allocates fill it with. *)
Definition makeImpl (numBuckets : Z) (mem : option (list C)) (restorable : bool) : res Impl :=
  if numBuckets =? 0 then Throw InvalidArgument
  else if negb (Z.land numBuckets (u64 (numBuckets - 1)) =? 0) then Throw InvalidArgument
  else Ok (mkImpl numBuckets (u64 (numBuckets - 1))
             (match mem with
              | Some m => m
              | None => replicate (Z.to_nat numBuckets) (pc_compress None)
              end) restorable).

(** The hook of a node; one that was never written is default-initialised. *)
Definition getHashNextCompressed (t : Container) (node : A) : C := default (pc_compress None) (hooks t !! node).
Definition getHashNext (t : Container) (node : A) : option A := pc_unCompress (getHashNextCompressed t node).
Definition setHashNextCompressed (node : A) (c : C) : M Container unit :=
  modify (fun t => set_hooks (<[node := c]> (hooks t)) t).
Definition setHashNext (node : A) (n : option A) : M Container unit :=
  setHashNextCompressed node (pc_compress n).

Definition getBucket (t : Container) (k : K) : Z := Z.land (hasher k) (numBucketsMask_ (ht_ t)).

(** [hashTable_[bucket]]. *)
Definition bucketHead (bucket : Z) : M Container C :=
  fun t => match hashTable_ (ht_ t) !! Z.to_nat bucket with
           | Some c => (Ok c, t)
           | None => (Throw UndefinedBehavior, t)
           end.
Definition setBucketHead (bucket : Z) (c : C) : M Container unit :=
  fun t => match hashTable_ (ht_ t) !! Z.to_nat bucket with
           | Some _ => (Ok tt, set_table (<[Z.to_nat bucket := c]> (hashTable_ (ht_ t))) t)
           | None => (Throw UndefinedBehavior, t)
           end.

(** The walk along a chain to the first node with the key: that node and the
    one before it. *)
Fixpoint walk (fuel : nat) (t : Container) (key : K) (curr prev : option A)
  : res (option A * option A) :=
  match curr with
  | None => Ok (None, prev)
  | Some c =>
      if decide (getKey c = key) then Ok (Some c, prev)
      else match fuel with
           | O => Throw StillWaiting
           | S fuel' => walk fuel' t key (getHashNext t c) (Some c)
           end
  end.
Definition walkBucket (key : K) (bucket : Z) : M Container (option A * option A) :=
  let! head := bucketHead bucket in
  fun t => (walk (base.size (hooks t)) t key (pc_unCompress head) None, t).

Definition findInBucket (key : K) (bucket : Z) : M Container (option A) :=
  let! r := walkBucket key bucket in ret r.1.
Definition findPrevInBucket (node : A) (bucket : Z) : M Container (option A) :=
  let! r := walkBucket (getKey node) bucket in ret r.2.

Definition insertInBucket (node : A) (bucket : Z) : M Container bool :=
  let! existing := findInBucket (getKey node) bucket in
  match existing with
  | Some _ => ret false
  | None =>
      let! head := bucketHead bucket in
      do! setBucketHead bucket (pc_compress (Some node)) in
      do! setHashNextCompressed node head in
      ret true
  end.

Definition insertOrReplaceInBucket (node : A) (bucket : Z) : M Container (option A) :=
  let! r := walkBucket (getKey node) bucket in
  match r with
  | (None, _) =>
      let! head := bucketHead bucket in
      do! setBucketHead bucket (pc_compress (Some node)) in
      do! setHashNextCompressed node head in
      ret None
  | (Some curr, prev) =>
      do! (match prev with
           | Some p => setHashNext p (Some node)
           | None => setBucketHead bucket (pc_compress (Some node))
           end) in
      let! t := get in
      do! setHashNext node (getHashNext t curr) in
      ret (Some curr)
  end.

Definition removeFromBucket (node : A) (bucket : Z) : M Container unit :=
  let! prev := findPrevInBucket node bucket in
  let! t := get in
  match prev with
  | Some p => setHashNext p (getHashNext t node)
  | None => setBucketHead bucket (getHashNextCompressed t node)
  end.

(** The nodes of a bucket in the order [forEachBucketElem] calls its function
    on them. *)
Fixpoint chainElems (fuel : nat) (t : Container) (curr : option A) : res (list A) :=
  match curr with
  | None => Ok []
  | Some c =>
      match fuel with
      | O => Throw StillWaiting
      | S fuel' =>
          match chainElems fuel' t (getHashNext t c) with
          | Throw e => Throw e
          | Ok l => Ok (c :: l)
          end
      end
  end.
Definition forEachBucketElem (bucket : Z) : M Container (list A) :=
  let! head := bucketHead bucket in
  fun t => (chainElems (base.size (hooks t)) t (pc_unCompress head), t).
Definition getBucketNumElems (bucket : Z) : M Container Z :=
  let! l := forEachBucketElem bucket in ret (u32 (Z.of_nat (length l))).

(** ** The container *)

Definition makeHandle (node : option A) : M Container (option A) :=
  fun t => let '(r, x) := handleMaker node (refs t) in (r, set_refs x t).

Definition isAccessible (node : A) (t : Container) : bool := bool_decide (node ∈ accessible t).
Definition markAccessible (node : A) : M Container unit :=
  modify (fun t => set_accessible ({[ node ]} ∪ accessible t) t).
Definition unmarkAccessible (node : A) : M Container unit :=
  modify (fun t => set_accessible (accessible t ∖ {[ node ]}) t).
Definition addNumKeys (d : Z) : M Container unit :=
  modify (fun t => set_numKeys (u64 (numKeys_ t + d)) t).

(** The constructors; [userMemory]: whether the memory is managed by the
    user. *)
Definition makeContainer (c : Config) (userMemory : bool) (hooks : gmap A C) (accessible : gset A) (refs : R)
  : res Container :=
  match makeImpl (getNumBuckets c) None userMemory with
  | Throw e => Throw e
  | Ok ht => Ok (mkContainer c ht 0 0 hooks accessible refs)
  end.

Definition insert (node : A) : M Container bool :=
  let! t := get in
  if isAccessible node t then ret false
  else
    let bucket := getBucket t (getKey node) in
    let! res := insertInBucket node bucket in
    if res : bool
    then do! markAccessible node in do! addNumKeys 1 in ret res
    else ret res.

Definition insertOrReplace (node : A) : M Container (option A) :=
  let! t := get in
  if isAccessible node t then makeHandle None
  else
    let bucket := getBucket t (getKey node) in
    let! oldNode := insertOrReplaceInBucket node bucket in
    fun t =>
      match makeHandle oldNode t with
      | (Throw e, t) =>
          match oldNode with
          | Some old => (do! insertOrReplaceInBucket old bucket in throw e) t
          | None => (Throw UndefinedBehavior, t)
          end
      | (Ok handle, t) =>
          (do! markAccessible node in
           do! (match oldNode with
                | Some old => unmarkAccessible old
                | None => addNumKeys 1
                end) in
           ret handle) t
      end.

Definition replaceIf (oldNode newNode : A) (predicate : A -> bool) : M Container bool :=
  let! t := get in
  let bucket := getBucket t (getKey newNode) in
  if isAccessible oldNode t && predicate oldNode then
    do! insertOrReplaceInBucket newNode bucket in
    do! unmarkAccessible oldNode in
    do! markAccessible newNode in
    ret true
  else ret false.

Definition replaceIfAccessible (oldNode newNode : A) : M Container bool :=
  replaceIf oldNode newNode (fun _ => true).

Definition remove (node : A) : M Container bool :=
  let! t := get in
  let bucket := getBucket t (getKey node) in
  if negb (isAccessible node t) then ret false
  else
    do! removeFromBucket node bucket in
    do! unmarkAccessible node in
    do! addNumKeys (-1) in
    ret true.

Definition removeIf (node : A) (predicate : A -> bool) : M Container (option A) :=
  let! t := get in
  let bucket := getBucket t (getKey node) in
  if isAccessible node t && predicate node then
    let! handle := makeHandle (Some node) in
    do! removeFromBucket node bucket in
    do! unmarkAccessible node in
    do! addNumKeys (-1) in
    ret handle
  else makeHandle None.

Definition find (key : K) : M Container (option A) :=
  let! t := get in
  let bucket := getBucket t key in
  let! node := findInBucket key bucket in
  makeHandle node.

(** ** Saving and restoring *)

Definition saveState (t : Container) : res ChainedHashTableObject :=
  if negb (restorable_ (ht_ t)) then Throw LogicError
  else if negb (numIterators_ t =? 0) then Throw LogicError
  else Ok (mkChainedHashTableObject (bucketsPower_ (config_ t)) (locksPower_ (config_ t)) (numKeys_ t)
             (hasherMagicId_ (config_ t))).

(** [mem] is the content of the buckets in the memory given, [nBytes] its size;
    [ptrSize] is [sizeof(CompressedPtrType)]. *)
Definition restoreContainer (ptrSize : Z) (object : ChainedHashTableObject) (config : Config) (mem : list C)
    (nBytes : Z) (hooks : gmap A C) (accessible : gset A) (refs : R) : res Container :=
  match makeImpl (getNumBuckets config) (Some mem) true with
  | Throw e => Throw e
  | Ok ht =>
      if negb (bucketsPower_ config =? u32 (obj_bucketsPower object)) then Throw InvalidArgument
      else if negb (nBytes =? getAlignedSize64 (u64 (numBuckets_ ht * ptrSize)) (pageSize_ config))
      then Throw InvalidArgument
      else if negb (obj_hasherMagicId object =? 0) &&
              negb (obj_hasherMagicId object =? hasherMagicId_ config)
      then Throw InvalidArgument
      else Ok (mkContainer config ht (obj_numKeys object) 0 hooks accessible refs)
  end.

(** ** Distribution of keys *)

Record DistributionStats : Type := mkDistributionStats {
  ds_numKeys : Z;
  ds_numBuckets : Z;
  itemDistribution : gmap Z Z
}.

Record StatsCache : Type := mkStatsCache {
  cachedStats_ : DistributionStats;
  canRecomputeDistributionStats_ : bool;
  cachedStatsUpdateTime_ : Z
}.

(** [numKeysDifference / cachedStats_.numKeys > 0.05]. *)
Definition significant (difference numKeys : Z) : bool :=
  SFltb (S754_finite false 7205759403792794 (-57))
    (SFdiv 53 1024 (double_of_u64 difference) (double_of_u64 numKeys)).

(** The loop over the buckets. *)
Fixpoint distribution (n : nat) (bucket : Z) (acc : gmap Z Z) : M Container (gmap Z Z) :=
  match n with
  | O => ret acc
  | S n' =>
      let! k := getBucketNumElems bucket in
      distribution n' (bucket + 1) (<[k := u64 (default 0 (acc !! k) + 1)]> acc)
  end.

(** [now]: the current time in seconds. *)
Definition getDistributionStats (now : Z) (t : Container) (s : StatsCache)
  : res DistributionStats * StatsCache :=
  let numKeys := numKeys_ t in
  let cached := ds_numKeys (cachedStats_ s) in
  let difference := if cached <? numKeys then numKeys - cached else cached - numKeys in
  let needToRecompute :=
    (10 * 60 <? now - cachedStatsUpdateTime_ s) || ((0 <? cached) && significant difference cached) in
  if negb needToRecompute || negb (canRecomputeDistributionStats_ s) then (Ok (cachedStats_ s), s)
  else
    match distribution (Z.to_nat (numBuckets_ (ht_ t))) 0 ∅ t with
    | (Throw e, _) => (Throw e, mkStatsCache (cachedStats_ s) false (cachedStatsUpdateTime_ s))
    | (Ok d, _) =>
        let stats := mkDistributionStats numKeys (numBuckets_ (ht_ t)) d in
        (Ok stats, mkStatsCache stats true now)
    end.

(** ** Iterator *)

Record Iterator : Type := mkIterator {
  currBucket_ : Z;
  curSor_ : Z;
  bucketElems_ : list A
}.

Definition releaseHandles (l : list A) : M Container unit :=
  modify (fun t => set_refs (foldr releaseHandle (refs t) l) t).

(** Handles to the nodes; one that can not be had is skipped. *)
Fixpoint makeHandles (l : list A) : M Container (list A) :=
  match l with
  | [] => ret []
  | e :: l' =>
      fun t =>
        match makeHandle (Some e) t with
        | (Ok (Some h), t) => (let! hs := makeHandles l' in ret (h :: hs)) t
        | (_, t) => makeHandles l' t
        end
  end.

Definition getBucketElems (bucket : Z) (handles : list A) : M Container (list A) :=
  do! releaseHandles handles in
  let! l := forEachBucketElem bucket in
  makeHandles l.

(** Buckets from [bucket] on, at most [n], to the first with a handle. *)
Fixpoint nextBucket (n : nat) (bucket : Z) (elems : list A) : M Container (Z * list A) :=
  match n with
  | O => ret (bucket, elems)
  | S n' =>
      let! t := get in
      if bucket <? getNumBuckets (config_ t) then
        let! elems := getBucketElems bucket elems in
        match elems with
        | [] => nextBucket n' (bucket + 1) []
        | _ => ret (bucket, elems)
        end
      else ret (bucket, elems)
  end.

Definition incr (it : Iterator) : M Container Iterator :=
  let curSor := u32 (curSor_ it + 1) in
  if curSor <? Z.of_nat (length (bucketElems_ it))
  then ret (mkIterator (currBucket_ it) curSor (bucketElems_ it))
  else
    let! t := get in
    let! r := nextBucket (Z.to_nat (getNumBuckets (config_ t))) (currBucket_ it + 1) (bucketElems_ it) in
    let '(bucket, elems) := r in
    if bucket <? getNumBuckets (config_ t)
    then ret (mkIterator bucket 0 elems)
    else do! releaseHandles elems in ret (mkIterator bucket 0 []).

(** [reset]; its loop is the one of [nextBucket] from bucket 0. *)
Definition reset (it : Iterator) : M Container Iterator :=
  let! t := get in
  let! r := nextBucket (Z.to_nat (getNumBuckets (config_ t))) 0 (bucketElems_ it) in
  ret (mkIterator r.1 0 r.2).

Definition begin_ : M Container Iterator :=
  do! modify (fun t => set_numIterators (u32 (numIterators_ t + 1)) t) in
  reset (mkIterator 0 0 []).
Definition end_ : M Container Iterator :=
  let! t := get in
  do! modify (fun t => set_numIterators (u32 (numIterators_ t + 1)) t) in
  ret (mkIterator (getNumBuckets (config_ t)) 0 []).
Definition destroyIterator (it : Iterator) : M Container unit :=
  do! modify (fun t => set_numIterators (u32 (numIterators_ t - 1)) t) in
  releaseHandles (bucketElems_ it).

Definition deref (it : Iterator) : res A :=
  if curSor_ it <? Z.of_nat (length (bucketElems_ it))
  then match bucketElems_ it !! Z.to_nat (curSor_ it) with
       | Some h => Ok h
       | None => Throw UndefinedBehavior
       end
  else Throw LogicError.

Definition iter_eq (a b : Iterator) : bool :=
  (currBucket_ a =? currBucket_ b) && (curSor_ a =? curSor_ b).

End ChainedHashTable.

Arguments Impl : clear implicits.
Arguments Container _ _ _ {_ _}.
Arguments Iterator : clear implicits.
