(* ===== verification/ChainedHashTableProofs.v ===== *)
(** * Chained hash table: correctness

    Chains of nodes, the shape of the table, and what the operations on a
    bucket do to it. *)

From S2P Require Import Prelude PtrCompressor ChainedHashTable.
From stdpp Require Import base tactics numbers gmap list.

#[local] Open Scope Z_scope.
#[local] Open Scope cachelib_scope.

Section ChainedHashTable.

Context {A C K R : Type} `{Countable A} `{PCL : PtrCompressorLaws A C} `{EqDecision K}.
Context (getKey : A -> K) (hasher : K -> Z) (hasher_range : forall k, is_u32 (hasher k)).

#[local] Abbreviation Container := (Container A C R).
Implicit Types (t : Container) (hk : gmap A C) (c : C) (l : list A) (a node : A) (bs : list (list A)) (i j : nat).

#[local] Abbreviation null := (pc_compress None).

(** ** Chains *)

Fixpoint chain hk c l : Prop :=
  match l with
  | [] => pc_unCompress c = None
  | a :: l' => pc_unCompress c = Some a /\ is_Some (hk !! a) /\ pc_valid a /\
               chain hk (default null (hk !! a)) l'
  end.

Lemma unCompress_null : pc_unCompress null = None.
Proof using PCL. by apply pc_unCompress_compress. Qed.

Lemma unCompress_valid a : pc_valid a -> pc_unCompress (pc_compress (Some a)) = Some a.
Proof using PCL. intros Ha. by apply pc_unCompress_compress. Qed.

Lemma chain_frame hk hk' c l :
  (forall a, a ∈ l -> hk' !! a = hk !! a) -> chain hk c l -> chain hk' c l.
Proof.
  revert c. induction l as [|a l IH]; intros c Hf; [done|]. cbn. intros (H1 & H2 & H3 & H4).
  rewrite Hf by set_solver. split_and!; try done. apply IH; [|done]. intros b Hb. apply Hf. set_solver.
Qed.

Lemma chain_head hk c l : chain hk c l -> pc_unCompress c = head l.
Proof. destruct l; cbn; tauto. Qed.

Lemma chain_elem hk c l a : chain hk c l -> a ∈ l -> is_Some (hk !! a) /\ pc_valid a.
Proof.
  revert c. induction l as [|b l IH]; intros c; [by intros _ ?%not_elem_of_nil|].
  intros (_ & H2 & H3 & H4) [->|Hin]%elem_of_cons; [done|by eapply IH].
Qed.

(** What follows a node on its chain. *)
Lemma chain_suffix hk c l1 a l2 : chain hk c (l1 ++ a :: l2) -> chain hk (default null (hk !! a)) l2.
Proof. revert c. induction l1 as [|b l1 IH]; intros c; [intros (_ & _ & _ & ?); done|intros (_ & _ & _ & ?); by eapply IH]. Qed.

(** The part of a chain up to a node [p], whose hook is replaced. *)
Lemma chain_splice hk hk' c l1 p l2 l2' c' :
  chain hk c (l1 ++ p :: l2) -> NoDup (l1 ++ [p]) -> hk' !! p = Some c' -> chain hk' c' l2' ->
  (forall a, a ∈ l1 -> hk' !! a = hk !! a) -> chain hk' c (l1 ++ p :: l2').
Proof.
  revert c. induction l1 as [|b l1 IH]; intros c Hc Hnd Hp Hc' Hf; cbn in Hc |- *.
  - destruct Hc as (H1 & _ & H3 & _). rewrite Hp. by split_and!.
  - destruct Hc as (H1 & H2 & H3 & H4). rewrite Hf by set_solver. split_and!; try done.
    cbn in Hnd. apply NoDup_cons in Hnd as [_ Hnd]. apply IH; try done. intros a Ha. apply Hf. set_solver.
Qed.

Lemma chain_length hk c l : chain hk c l -> NoDup l -> (length l <= base.size hk)%nat.
Proof.
  intros Hc Hnd. rewrite <- (size_dom (D := gset A) hk). rewrite <- (size_list_to_set (C := gset A)) by done.
  apply subseteq_size. intros a Ha%elem_of_list_to_set. apply elem_of_dom. by eapply chain_elem.
Qed.

(** The walk finds the first node with the key. *)
Definition split_at (key : K) l : option (list A * A * list A) :=
  match list_find (fun a => getKey a = key) l with
  | Some (n, a) => Some (take n l, a, drop (S n) l)
  | None => None
  end.

Lemma split_at_cons key a l :
  split_at key (a :: l) =
  if decide (getKey a = key) then Some ([], a, l)
  else match split_at key l with Some (l1, b, l2) => Some (a :: l1, b, l2) | None => None end.
Proof.
  unfold split_at. cbn [list_find]. case_decide; [done|].
  destruct (list_find _ l) as [[n b]|]; done.
Qed.

Lemma split_at_Some key l l1 a l2 :
  split_at key l = Some (l1, a, l2) -> l = l1 ++ a :: l2 /\ getKey a = key /\ forall b, b ∈ l1 -> getKey b <> key.
Proof.
  revert l1. induction l as [|b l IH]; intros l1; [done|]. rewrite split_at_cons. case_decide as Hk.
  { intros [= <- <- <-]. split_and!; try done. by intros ? ?%not_elem_of_nil. }
  destruct (split_at key l) as [[[m1 d] m2]|] eqn:Hs; [|done]. intros [= <- -> ->].
  destruct (IH m1 eq_refl) as (-> & H1 & H2). split_and!; try done.
  intros e [->|He]%elem_of_cons; [done|by apply H2].
Qed.

Lemma split_at_None key l : split_at key l = None -> forall a, a ∈ l -> getKey a <> key.
Proof.
  induction l as [|b l IH]; [by intros _ a ?%not_elem_of_nil|]. rewrite split_at_cons. case_decide; [done|].
  destruct (split_at key l) as [[[m1 d] m2]|]; [done|]. intros _ a [->|Ha]%elem_of_cons; [done|by apply IH].
Qed.

Lemma split_at_self l l1 a l2 :
  l = l1 ++ a :: l2 -> NoDup (getKey <$> l) -> split_at (getKey a) l = Some (l1, a, l2).
Proof.
  intros ->. induction l1 as [|b l1 IH]; intros Hnd; cbn [app]; rewrite split_at_cons.
  - by rewrite decide_True.
  - cbn [app] in Hnd. rewrite fmap_cons in Hnd. apply NoDup_cons in Hnd as [Hni Hnd].
    rewrite decide_False; [by rewrite IH|]. intros He. apply Hni. rewrite He. apply list_elem_of_fmap.
    exists a. split; [done|]. apply elem_of_app. right. apply elem_of_cons. by left.
Qed.

Lemma walk_spec fuel t key c l prev :
  chain (hooks t) c l -> (length l <= fuel)%nat ->
  walk getKey fuel t key (pc_unCompress c) prev =
  Ok match split_at key l with
     | Some (l1, a, _) => (Some a, match last l1 with Some p => Some p | None => prev end)
     | None => (None, match last l with Some p => Some p | None => prev end)
     end.
Proof.
  revert fuel c prev. induction l as [|a l IH]; intros fuel c prev; cbn [chain].
  { intros -> _. by destruct fuel. }
  intros (-> & H2 & H3 & H4) Hf. destruct fuel as [|fuel]; [cbn in Hf; lia|]. cbn [walk].
  rewrite split_at_cons. destruct (decide (getKey a = key)); [done|].
  unfold getHashNext, getHashNextCompressed. rewrite (IH fuel _ (Some a) H4) by (cbn in Hf; lia). f_equal.
  destruct (split_at key l) as [[[l1 b] l2]|].
  - f_equal. rewrite last_cons. by destruct (last l1).
  - f_equal. rewrite last_cons. by destruct (last l).
Qed.

Lemma elems_spec fuel t c l :
  chain (hooks t) c l -> (length l <= fuel)%nat -> chainElems fuel t (pc_unCompress c) = Ok l.
Proof.
  revert fuel c. induction l as [|a l IH]; intros fuel c; cbn [chain]; [intros -> _; by destruct fuel|].
  intros (-> & _ & _ & H4) Hf. destruct fuel as [|fuel]; [cbn in Hf; lia|]. cbn [chainElems].
  unfold getHashNext, getHashNextCompressed. by rewrite (IH fuel _ H4) by (cbn in Hf; lia).
Qed.

(** ** The shape of the table *)

(** The state with other buckets and hooks. *)
Definition with_chains t (table : list C) hk : Container := set_hooks hk (set_table table t).

Definition idx t (k : K) : nat := Z.to_nat (getBucket hasher t k).

(** [bs] are the nodes of each bucket, in the order of the chains. *)
Record ht_shape t bs : Prop := {
  sh_pow : exists p, 0 <= p <= 32 /\ numBuckets_ (ht_ t) = 2 ^ p;
  sh_mask : numBucketsMask_ (ht_ t) = numBuckets_ (ht_ t) - 1;
  sh_num : Z.of_nat (length bs) = numBuckets_ (ht_ t);
  sh_len : length (hashTable_ (ht_ t)) = length bs;
  sh_chain i c l : hashTable_ (ht_ t) !! i = Some c -> bs !! i = Some l -> chain (hooks t) c l;
  sh_idx i l a : bs !! i = Some l -> a ∈ l -> idx t (getKey a) = i;
  sh_keys i l : bs !! i = Some l -> NoDup (getKey <$> l)
}.

Lemma shape_bucket t bs k :
  ht_shape t bs -> exists c l, hashTable_ (ht_ t) !! idx t k = Some c /\ bs !! idx t k = Some l /\
    chain (hooks t) c l /\ Z.of_nat (idx t k) = getBucket hasher t k.
Proof using hasher_range.
  intros Hs. destruct (sh_pow _ _ Hs) as (p & Hp & Hn).
  assert (Hb : getBucket hasher t k = hasher k mod 2 ^ p).
  { unfold getBucket. rewrite (sh_mask _ _ Hs), Hn. replace (2 ^ p - 1) with (Z.ones p) by (rewrite Z.ones_equiv; lia).
    apply Z.land_ones. lia. }
  pose proof (Z.mod_pos_bound (hasher k) (2 ^ p) ltac:(lia)) as Hr. rewrite <- Hb in Hr.
  assert (Hlt : (idx t k < length bs)%nat) by (unfold idx; pose proof (sh_num _ _ Hs); lia).
  destruct (lookup_lt_is_Some_2 _ _ Hlt) as [l Hl].
  destruct (lookup_lt_is_Some_2 (hashTable_ (ht_ t)) (idx t k)) as [c Hc]; [by rewrite (sh_len _ _ Hs)|].
  exists c, l. split_and!; try done; [by eapply sh_chain|unfold idx; lia].
Qed.

Lemma shape_nodup t bs i l : ht_shape t bs -> bs !! i = Some l -> NoDup l.
Proof. intros Hs Hl. eapply NoDup_fmap_1, sh_keys; [exact Hs|exact Hl]. Qed.

(** Nodes of other buckets are other nodes. *)
Lemma shape_other t bs i j l l' a :
  ht_shape t bs -> bs !! i = Some l -> bs !! j = Some l' -> i <> j -> a ∈ l -> a ∉ l'.
Proof. intros Hs Hi Hj Hne Ha Ha'. apply Hne. rewrite <- (sh_idx _ _ Hs i l a Hi Ha). by eapply sh_idx. Qed.

Lemma shape_update t bs i l l' table hk c' :
  ht_shape t bs -> bs !! i = Some l -> length table = length (hashTable_ (ht_ t)) ->
  table !! i = Some c' -> (forall j, j <> i -> table !! j = hashTable_ (ht_ t) !! j) ->
  chain hk c' l' ->
  (forall j lj a, j <> i -> bs !! j = Some lj -> a ∈ lj -> hk !! a = hooks t !! a) ->
  (forall a, a ∈ l' -> idx t (getKey a) = i) -> NoDup (getKey <$> l') ->
  ht_shape (with_chains t table hk) (<[i := l']> bs).
Proof.
  intros Hs Hi Hlen Hc' Hother Hch Hfr Hidx Hk.
  assert (Hlt : (i < length bs)%nat) by (by eapply lookup_lt_Some).
  split; cbn; try apply Hs.
  - rewrite length_insert. apply Hs.
  - rewrite length_insert, Hlen. apply Hs.
  - intros j c lj Hj Hlj. destruct (decide (j = i)) as [->|Hne].
    + rewrite list_lookup_insert_eq in Hlj by done. by simplify_eq.
    + rewrite list_lookup_insert_ne in Hlj by done. rewrite Hother in Hj by done.
      eapply chain_frame; [|by eapply sh_chain]. intros a Ha. by eapply Hfr.
  - intros j lj a Hlj Ha. destruct (decide (j = i)) as [->|Hne].
    + rewrite list_lookup_insert_eq in Hlj by done. simplify_eq. by apply Hidx.
    + rewrite list_lookup_insert_ne in Hlj by done. by eapply (sh_idx _ _ Hs).
  - intros j lj Hlj. destruct (decide (j = i)) as [->|Hne].
    + rewrite list_lookup_insert_eq in Hlj by done. by simplify_eq.
    + rewrite list_lookup_insert_ne in Hlj by done. by eapply (sh_keys _ _ Hs).
Qed.

(** ** Operations on a bucket *)

Lemma walkBucket_spec t bs k l :
  ht_shape t bs -> bs !! idx t k = Some l ->
  walkBucket getKey k (getBucket hasher t k) t =
  (Ok match split_at k l with
      | Some (l1, a, _) => (Some a, last l1)
      | None => (None, last l)
      end, t).
Proof using hasher_range.
  intros Hs Hl. destruct (shape_bucket t bs k Hs) as (c & l' & Hc & Hl' & Hch & _). simplify_eq.
  unfold walkBucket, bind, bucketHead. fold (idx t k). rewrite Hc.
  rewrite (walk_spec _ t k c l None Hch).
  - destruct (split_at k l) as [[[l1 a] l2]|]; [by destruct (last l1)|by destruct (last l)].
  - eapply chain_length; [done|by eapply shape_nodup].
Qed.

(** A new node at the head of its bucket. *)
Lemma push_shape t bs node l c :
  ht_shape t bs -> bs !! idx t (getKey node) = Some l -> hashTable_ (ht_ t) !! idx t (getKey node) = Some c ->
  pc_valid node -> (forall j lj, bs !! j = Some lj -> node ∉ lj) -> split_at (getKey node) l = None ->
  ht_shape (with_chains t (<[idx t (getKey node) := pc_compress (Some node)]> (hashTable_ (ht_ t)))
              (<[node := c]> (hooks t))) (<[idx t (getKey node) := node :: l]> bs).
Proof using PCL hasher_range.
  intros Hs Hl Hc Hv Hno Hsp. eapply (shape_update t bs _ l _ _ _ (pc_compress (Some node)) Hs Hl).
  - by rewrite length_insert.
  - rewrite list_lookup_insert_eq; [done|]. by eapply lookup_lt_Some.
  - intros j Hj. by rewrite list_lookup_insert_ne.
  - cbn. rewrite unCompress_valid by done. rewrite lookup_insert_eq. split_and!; try done. cbn.
    eapply chain_frame; [|by eapply sh_chain]. intros a Ha. rewrite lookup_insert_ne; [done|].
    intros ->. by eapply Hno.
  - intros j lj a _ Hj Ha. rewrite lookup_insert_ne; [done|]. intros ->. by eapply Hno.
  - intros a [->|Ha]%elem_of_cons; [done|]. by eapply (sh_idx _ _ Hs).
  - rewrite fmap_cons. apply NoDup_cons. split; [|by eapply sh_keys].
    intros (b & Hb & Hin)%list_elem_of_fmap. by eapply (split_at_None _ l Hsp).
Qed.

Lemma insertInBucket_spec t bs node l :
  ht_shape t bs -> bs !! idx t (getKey node) = Some l -> pc_valid node ->
  (forall j lj, bs !! j = Some lj -> node ∉ lj) ->
  match split_at (getKey node) l with
  | Some _ => insertInBucket getKey node (getBucket hasher t (getKey node)) t = (Ok false, t)
  | None => exists table hk,
      insertInBucket getKey node (getBucket hasher t (getKey node)) t = (Ok true, with_chains t table hk) /\
      ht_shape (with_chains t table hk) (<[idx t (getKey node) := node :: l]> bs)
  end.
Proof using PCL hasher_range.
  intros Hs Hl Hv Hno. destruct (shape_bucket t bs (getKey node) Hs) as (c & l' & Hc & Hl' & Hch & Hb). simplify_eq.
  pose proof (walkBucket_spec t bs (getKey node) l Hs Hl) as Hw.
  unfold insertInBucket, findInBucket, bind. rewrite Hw.
  destruct (split_at (getKey node) l) as [[[l1 a] l2]|] eqn:Hsp; [done|]. cbn [fst ret].
  unfold ret, bucketHead, setBucketHead, setHashNextCompressed, modify. fold (idx t (getKey node)).
  rewrite Hc. cbn [fst]. rewrite Hc.
  exists (<[idx t (getKey node) := pc_compress (Some node)]> (hashTable_ (ht_ t))), (<[node := c]> (hooks t)).
  split; [done|]. by apply push_shape.
Qed.

(** A pointer that is read and written again. *)
Lemma chain_recompress hk c l : chain hk c l -> chain hk (pc_compress (pc_unCompress c)) l.
Proof using PCL.
  destruct l as [|a l]; cbn.
  - intros ->. apply unCompress_null.
  - intros (-> & H2 & H3 & H4). by rewrite unCompress_valid.
Qed.

(** The nodes [mid] in the place of a node of the bucket: [hk] is written at
    the node before it, or the head of the bucket is. *)
Lemma replace_shape t bs node l l1 l2 mid table hk c' :
  ht_shape t bs -> bs !! idx t (getKey node) = Some l ->
  (exists a, l = l1 ++ a :: l2 /\ getKey a = getKey node) ->
  chain hk c' (mid ++ l2) ->
  (forall a, a ∈ mid -> getKey a = getKey node) -> (length mid <= 1)%nat ->
  (forall a, a ∉ mid -> last l1 <> Some a -> hk !! a = hooks t !! a) ->
  (forall a j lj, a ∈ mid -> bs !! j = Some lj -> a ∈ lj -> j = idx t (getKey node)) ->
  (forall a, a ∈ mid -> a ∉ l1) ->
  match last l1 with
  | Some p => table = hashTable_ (ht_ t) /\ hk !! p = Some c'
  | None => table = <[idx t (getKey node) := c']> (hashTable_ (ht_ t))
  end ->
  ht_shape (with_chains t table hk) (<[idx t (getKey node) := l1 ++ mid ++ l2]> bs).
Proof using PCL hasher_range.
  intros Hs Hl (a & -> & Ha) Hch Hmid Hlen Hfr Hin Hni Htab. set (i := idx t (getKey node)) in *.
  destruct (shape_bucket t bs (getKey node) Hs) as (c & l' & Hc & Hl' & Hchl & _). fold i in Hc, Hl'. simplify_eq.
  pose proof (shape_nodup _ _ _ _ Hs Hl) as Hnd. pose proof (sh_keys _ _ Hs _ _ Hl) as Hkeys.
  assert (Hi : (i < length (hashTable_ (ht_ t)))%nat) by (by eapply lookup_lt_Some).
  assert (Hidx : forall b, b ∈ l1 ++ mid ++ l2 -> idx t (getKey b) = i).
  { intros b Hb. destruct (decide (b ∈ mid)) as [Hm|Hm]; [unfold i; by rewrite (Hmid b Hm)|].
    eapply (sh_idx _ _ Hs i); [exact Hl|]. set_solver. }
  assert (Hk' : NoDup (getKey <$> (l1 ++ mid ++ l2))).
  { rewrite !fmap_app in *. rewrite fmap_cons in Hkeys. destruct mid as [|m [|]]; cbn in Hlen |- *; [| |lia].
    - apply NoDup_app in Hkeys as (K1 & K2 & K3). apply NoDup_cons in K3 as [_ K3].
      apply NoDup_app. split_and!; try done. intros x Hx1 Hx2. apply (K2 x Hx1). set_solver.
    - rewrite (Hmid m) by set_solver. by rewrite <- Ha. }
  assert (Hother : forall j lj b, j <> i -> bs !! j = Some lj -> b ∈ lj -> hk !! b = hooks t !! b).
  { intros j lj b Hj Hlj Hb. apply Hfr.
    - intros Hm. apply Hj. by eapply Hin.
    - intros Hlast. apply (shape_other t bs j i lj _ b Hs Hlj Hl Hj Hb).
      apply elem_of_app. left. apply last_Some_elem_of. done. }
  destruct (last l1) as [p|] eqn:Hlast.
  - destruct Htab as [-> Hp]. apply last_Some in Hlast as [l0 ->]. rewrite <- !app_assoc in *. cbn [app] in *.
    eapply (shape_update t bs i _ _ _ _ c Hs Hl); try done.
    apply (chain_splice (hooks t) hk c l0 p (a :: l2) (mid ++ l2) c'); try done.
    + apply NoDup_app in Hnd as (N1 & N2 & N3). apply NoDup_app. split_and!; [done| |apply NoDup_singleton].
      intros x Hx ->%list_elem_of_singleton. apply (N2 p Hx). set_solver.
    + intros b Hb. apply Hfr; [intros Hm; apply (Hni b Hm); set_solver|].
      intros [= ->]. apply NoDup_app in Hnd as (_ & N2 & _). apply (N2 b Hb). set_solver.
  - apply last_None in Hlast as ->. cbn [app] in *. subst table.
    eapply (shape_update t bs i _ _ _ _ c' Hs Hl); try done.
    + by rewrite length_insert.
    + by rewrite list_lookup_insert_eq.
    + intros j Hj. by rewrite list_lookup_insert_ne.
Qed.

Lemma last_app_Some (l1 : list A) p : last l1 = Some p -> p ∈ l1.
Proof. apply last_Some_elem_of. Qed.

Lemma insertOrReplaceInBucket_spec t bs node l :
  ht_shape t bs -> bs !! idx t (getKey node) = Some l -> pc_valid node ->
  (forall j lj, bs !! j = Some lj -> node ∉ lj) ->
  exists table hk,
    match split_at (getKey node) l with
    | Some (l1, a, l2) =>
        insertOrReplaceInBucket getKey node (getBucket hasher t (getKey node)) t =
          (Ok (Some a), with_chains t table hk) /\
        ht_shape (with_chains t table hk) (<[idx t (getKey node) := l1 ++ node :: l2]> bs)
    | None =>
        insertOrReplaceInBucket getKey node (getBucket hasher t (getKey node)) t =
          (Ok None, with_chains t table hk) /\
        ht_shape (with_chains t table hk) (<[idx t (getKey node) := node :: l]> bs)
    end.
Proof using PCL hasher_range.
  intros Hs Hl Hv Hno. destruct (shape_bucket t bs (getKey node) Hs) as (c & l' & Hc & Hl' & Hch & Hb).
  simplify_eq. pose proof (walkBucket_spec t bs (getKey node) l Hs Hl) as Hw.
  unfold insertOrReplaceInBucket, bind. rewrite Hw. clear Hw.
  destruct (split_at (getKey node) l) as [[[l1 a] l2]|] eqn:Hsp.
  2: { unfold ret, bucketHead, setBucketHead, setHashNextCompressed, modify. fold (idx t (getKey node)).
       rewrite Hc. cbn [fst]. rewrite Hc.
       exists (<[idx t (getKey node) := pc_compress (Some node)]> (hashTable_ (ht_ t))), (<[node := c]> (hooks t)).
       split; [done|]. by apply push_shape. }
  destruct (split_at_Some _ _ _ _ _ Hsp) as (-> & Hka & Hl1). pose proof (chain_suffix _ _ _ _ _ Hch) as Hsuf.
  pose proof (shape_nodup _ _ _ _ Hs Hl) as Hnd.
  assert (Hnn : node ∉ l1 ++ a :: l2) by (by eapply Hno).
  set (next := pc_compress (getHashNext t a)).
  set (table := match last l1 with Some _ => hashTable_ (ht_ t)
    | None => <[idx t (getKey node) := pc_compress (Some node)]> (hashTable_ (ht_ t)) end).
  set (hk := <[node := next]> match last l1 with Some p => <[p := pc_compress (Some node)]> (hooks t)
    | None => hooks t end).
  assert (Hap : last l1 <> Some a).
  { intros Ha%last_app_Some. apply NoDup_app in Hnd as (_ & N2 & _). apply (N2 a Ha). set_solver. }
  exists table, hk. split.
  { unfold ret, setBucketHead, setHashNext, setHashNextCompressed, modify, get. fold (idx t (getKey node)).
    unfold table, hk, next. destruct (last l1) as [p|].
    - do 3 f_equal. unfold with_chains, set_hooks, getHashNext, getHashNextCompressed. cbn. destruct t as [? []]; cbn.
      rewrite (lookup_insert_ne _ p a); [done|congruence].
    - by rewrite Hc. }
  assert (Hframe : forall b, b ∉ [node] -> last l1 <> Some b -> hk !! b = hooks t !! b).
  { intros b Hbn Hbl. unfold hk. rewrite lookup_insert_ne by set_solver.
    destruct (last l1) as [p|]; [|done]. rewrite lookup_insert_ne; [done|congruence]. }
  apply (replace_shape t bs node (l1 ++ a :: l2) l1 l2 [node] table hk (pc_compress (Some node)) Hs Hl); try done.
  - by exists a.
  - cbn. rewrite unCompress_valid by done. 
    assert (Hkn : hk !! node = Some next) by (unfold hk; apply lookup_insert_eq). rewrite Hkn.
    split_and!; try done. cbn. unfold next, getHashNext. apply chain_recompress. eapply chain_frame; [|exact Hsuf]. intros b Hb'. apply Hframe.
    + intros ->%list_elem_of_singleton. set_solver.
    + intros Hlast%last_app_Some. apply NoDup_app in Hnd as (_ & N2 & _). apply (N2 b Hlast). set_solver.
  - by intros b ->%list_elem_of_singleton.
  - intros b j lj ->%list_elem_of_singleton Hj Hin. exfalso. by eapply Hno.
  - intros b ->%list_elem_of_singleton. set_solver.
  - unfold table, hk. destruct (last l1) as [p|] eqn:Hlast; [|done]. split; [done|].
    rewrite lookup_insert_ne, lookup_insert_eq; [done|]. intros ->. apply last_app_Some in Hlast. set_solver.
Qed.

Lemma removeFromBucket_spec t bs node l1 l2 :
  ht_shape t bs -> bs !! idx t (getKey node) = Some (l1 ++ node :: l2) ->
  exists table hk,
    removeFromBucket getKey node (getBucket hasher t (getKey node)) t = (Ok tt, with_chains t table hk) /\
    ht_shape (with_chains t table hk) (<[idx t (getKey node) := l1 ++ l2]> bs).
Proof using PCL hasher_range.
  intros Hs Hl. destruct (shape_bucket t bs (getKey node) Hs) as (c & l' & Hc & Hl' & Hch & Hb). simplify_eq.
  pose proof (walkBucket_spec t bs (getKey node) _ Hs Hl) as Hw.
  rewrite (split_at_self _ l1 node l2 eq_refl (sh_keys _ _ Hs _ _ Hl)) in Hw.
  unfold removeFromBucket, findPrevInBucket, bind. rewrite Hw. clear Hw. cbn [ret fst snd]. unfold ret, get.
  pose proof (chain_suffix _ _ _ _ _ Hch) as Hsuf. pose proof (shape_nodup _ _ _ _ Hs Hl) as Hnd.
  set (next := default null (hooks t !! node)) in *.
  set (table := match last l1 with Some _ => hashTable_ (ht_ t)
    | None => <[idx t (getKey node) := next]> (hashTable_ (ht_ t)) end).
  set (hk := match last l1 with Some p => <[p := pc_compress (pc_unCompress next)]> (hooks t)
    | None => hooks t end).
  exists table, hk. split.
  { unfold setBucketHead, setHashNext, setHashNextCompressed, modify. fold (idx t (getKey node)).
    unfold table, hk. destruct (last l1) as [p|]; [|by rewrite Hc; destruct t as [? []]].
    by destruct t as [? []]. }
  assert (Hframe : forall b, last l1 <> Some b -> hk !! b = hooks t !! b).
  { intros b Hbl. unfold hk. destruct (last l1) as [p|]; [|done]. rewrite lookup_insert_ne; [done|congruence]. }
  apply (replace_shape t bs node (l1 ++ node :: l2) l1 l2 [] table hk
    match last l1 with Some _ => pc_compress (pc_unCompress next) | None => next end Hs Hl); try done.
  - by exists node.
  - cbn. assert (chain hk next l2).
    { eapply chain_frame; [|exact Hsuf]. intros b Hb'. apply Hframe.
      intros Hlast%last_app_Some. apply NoDup_app in Hnd as (_ & N2 & _). apply (N2 b Hlast). set_solver. }
    destruct (last l1); [by apply chain_recompress|done].
  - by intros b ?%not_elem_of_nil.
  - cbn. lia.
  - intros b _. apply Hframe.
  - by intros b j lj ?%not_elem_of_nil.
  - by intros b ?%not_elem_of_nil.
  - unfold table, hk. destruct (last l1) as [p|]; [|done]. by rewrite lookup_insert_eq.
Qed.

End ChainedHashTable.
