(* ===== verification/ChainedHashTableSpec.v ===== *)
(** * Chained hash table: theorems

    The container is a finite map from keys to nodes; iteration visits every
    node once; saving and restoring. *)

From S2P Require Import Prelude PtrCompressor ChainedHashTable ChainedHashTableProofs.
From stdpp Require Import base tactics numbers gmap list.

#[local] Open Scope Z_scope.
#[local] Open Scope cachelib_scope.

Lemma concat_elem {B} (ls : list (list B)) x : x ∈ concat ls <-> exists (i : nat) l, ls !! i = Some l /\ x ∈ l.
Proof.
  rewrite list_elem_of_In, in_concat. split.
  - intros (l & Hl & Hx). apply list_elem_of_In, list_elem_of_lookup_1 in Hl as [i Hi]. exists i, l.
    by rewrite list_elem_of_In.
  - intros (i & l & Hl & Hx). exists l. rewrite <- !list_elem_of_In. split; [by eapply list_elem_of_lookup_2|done].
Qed.

Lemma concat_NoDup {B} (ls : list (list B)) :
  (forall (i : nat) l, ls !! i = Some l -> NoDup l) ->
  (forall (i j : nat) l l' x, ls !! i = Some l -> ls !! j = Some l' -> x ∈ l -> x ∈ l' -> i = j) ->
  NoDup (concat ls).
Proof.
  induction ls as [|l ls IH]; intros H1 H2; cbn; [constructor|]. apply NoDup_app. split_and!.
  - by apply (H1 O).
  - intros x Hx (i & l' & Hl & Hx')%concat_elem. by specialize (H2 O (S i) l l' x eq_refl Hl Hx Hx').
  - apply IH; [intros i; apply (H1 (S i))|]. intros i j l1 l2 x Hi Hj Hx Hx'.
    by specialize (H2 (S i) (S j) l1 l2 x Hi Hj Hx Hx') as [= ->].
Qed.

Section ChainedHashTable.

Context {A C K R : Type} `{Countable A} `{PCL : PtrCompressorLaws A C} `{Countable K}.
Context (getKey : A -> K) (hasher : K -> Z) (hasher_range : forall k, is_u32 (hasher k)).
Context (handleMaker : option A -> R -> res (option A) * R).

(** A handle to null can always be had. *)
Context (hm_null : forall r, handleMaker None r = (Ok None, r)).

#[local] Abbreviation Container := (Container A C R).
#[local] Abbreviation idx := (idx hasher).
#[local] Abbreviation split_at := (split_at getKey).
Implicit Types (t : Container) (m : gmap K A) (l : list A) (a node : A) (bs : list (list A)) (i j : nat).

(** ** The map a table represents *)

Definition bucket_has t bs k a : Prop := exists l, bs !! idx t k = Some l /\ a ∈ l.

Record ht_rep t bs m : Prop := {
  hr_shape : ht_shape getKey hasher t bs;
  hr_map k a : m !! k = Some a <-> getKey a = k /\ bucket_has t bs k a;
  hr_acc a : a ∈ accessible t <-> m !! getKey a = Some a;
  hr_num : numKeys_ t = u64 (Z.of_nat (base.size m))
}.

Lemma rep_lookup t bs m k l :
  ht_rep t bs m -> bs !! idx t k = Some l ->
  m !! k = match split_at k l with Some (_, a, _) => Some a | None => None end.
Proof.
  intros Hr Hl. destruct (split_at k l) as [[[l1 a] l2]|] eqn:Hs.
  - apply split_at_Some in Hs as (-> & Hk & _). apply (hr_map _ _ _ Hr). split; [done|].
    exists (l1 ++ a :: l2). split; [done|]. set_solver.
  - destruct (m !! k) as [a|] eqn:Hm; [|done]. apply (hr_map _ _ _ Hr) in Hm as (Hk & l' & Hl' & Ha).
    simplify_eq. by apply (split_at_None _ _ _ Hs a) in Ha.
Qed.

(** A node in a chain is the one of its key. *)
Lemma rep_elem t bs m j l a : ht_rep t bs m -> bs !! j = Some l -> a ∈ l -> m !! getKey a = Some a.
Proof.
  intros Hr Hl Ha. apply (hr_map _ _ _ Hr). split; [done|]. exists l.
  by rewrite (sh_idx _ _ _ _ (hr_shape _ _ _ Hr) j l a Hl Ha).
Qed.

Lemma rep_fresh t bs m node :
  ht_rep t bs m -> m !! getKey node <> Some node -> forall j l, bs !! j = Some l -> node ∉ l.
Proof. intros Hr Hn j l Hl Hin. apply Hn. by eapply rep_elem. Qed.

(** The bucket of [k] and the map change together. *)
Lemma rep_update t bs m t' k l l' m' :
  ht_rep t bs m -> bs !! idx t k = Some l -> ht_shape getKey hasher t' (<[idx t k := l']> bs) ->
  (forall k', idx t' k' = idx t k') ->
  (forall a, a ∈ l' <-> m' !! getKey a = Some a /\ idx t (getKey a) = idx t k) ->
  (forall k', k' <> k -> m' !! k' = m !! k') -> (forall a, m' !! k = Some a -> getKey a = k) ->
  (forall a, a ∈ accessible t' <-> m' !! getKey a = Some a) ->
  numKeys_ t' = u64 (Z.of_nat (base.size m')) ->
  ht_rep t' (<[idx t k := l']> bs) m'.
Proof.
  intros Hr Hl Hs Hi Hl' Hm Hk Hacc Hnum. split; try done. intros k' a.
  assert (Hlt : (idx t k < length bs)%nat) by (by eapply lookup_lt_Some).
  assert (Hkey : m' !! k' = Some a -> getKey a = k').
  { destruct (decide (k' = k)) as [->|Hne]; [apply Hk|]. rewrite Hm by done. intros Ha.
    by apply (hr_map _ _ _ Hr) in Ha as [? _]. }
  unfold bucket_has. rewrite Hi. destruct (decide (idx t k' = idx t k)) as [He|Hne].
  - rewrite He, list_lookup_insert_eq by done. split.
    + intros Ha. pose proof (Hkey Ha) as Hka. split; [done|]. exists l'. split; [done|]. apply Hl'.
      by rewrite Hka.
    + intros (Hka & ? & [= <-] & Ha). apply Hl' in Ha as [Ha _]. by rewrite Hka in Ha.
  - rewrite list_lookup_insert_ne by done. rewrite Hm by congruence. apply (hr_map _ _ _ Hr).
Qed.

(** ** The specification *)

(** The map and the state of the reference counts. *)
Definition absState : Type := gmap K A * R.

Inductive ht_op : Type :=
| HInsert (node : A)
| HInsertOrReplace (node : A)
| HReplaceIf (old new : A) (predicate : A -> bool)
| HRemove (node : A)
| HRemoveIf (node : A) (predicate : A -> bool)
| HFind (key : K).

Definition ht_result : Type := bool + option A.

Definition with_handle (s : absState) (n : option A) (m' : gmap K A) : res ht_result * absState :=
  match handleMaker n s.2 with
  | (Ok h, r) => (Ok (inr h), (m', r))
  | (Throw e, r) => (Throw e, (s.1, r))
  end.

Definition has (m : gmap K A) (node : A) : bool := bool_decide (m !! getKey node = Some node).

Definition abs_exec (op : ht_op) (s : absState) : res ht_result * absState :=
  let '(m, r) := s in
  match op with
  | HInsert node =>
      match m !! getKey node with
      | Some _ => (Ok (inl false), s)
      | None => (Ok (inl true), (<[getKey node := node]> m, r))
      end
  | HInsertOrReplace node =>
      if has m node then with_handle s None m
      else with_handle s (m !! getKey node) (<[getKey node := node]> m)
  | HReplaceIf old new predicate =>
      if has m old && predicate old then (Ok (inl true), (<[getKey new := new]> m, r))
      else (Ok (inl false), s)
  | HRemove node =>
      if has m node then (Ok (inl true), (delete (getKey node) m, r)) else (Ok (inl false), s)
  | HRemoveIf node predicate =>
      if has m node && predicate node then with_handle s (Some node) (delete (getKey node) m)
      else with_handle s None m
  | HFind key => with_handle s (m !! key) m
  end.

(** What the callers respect: nodes are allocations of the allocator; a node is
    replaced by one with the same key that is not in the table. *)
Definition op_ok (op : ht_op) (s : absState) : Prop :=
  match op with
  | HInsert node | HInsertOrReplace node => pc_valid node
  | HReplaceIf old new _ => pc_valid new /\ getKey new = getKey old /\ s.1 !! getKey new <> Some new
  | _ => True
  end.

Definition ht_exec (op : ht_op) : M Container ht_result :=
  match op with
  | HInsert node => let! b := ChainedHashTable.insert getKey hasher node in ret (inl b)
  | HInsertOrReplace node => let! h := ChainedHashTable.insertOrReplace getKey hasher handleMaker node in ret (inr h)
  | HReplaceIf old new p => let! b := ChainedHashTable.replaceIf getKey hasher old new p in ret (inl b)
  | HRemove node => let! b := ChainedHashTable.remove getKey hasher node in ret (inl b)
  | HRemoveIf node p => let! h := ChainedHashTable.removeIf getKey hasher handleMaker node p in ret (inr h)
  | HFind key => let! h := ChainedHashTable.find getKey hasher handleMaker key in ret (inr h)
  end.

(** One operation simulates its specification. *)
Definition simulates (op : ht_op) t m : Prop :=
  exists t' bs', ht_rep t' bs' (abs_exec op (m, refs t)).2.1 /\ refs t' = (abs_exec op (m, refs t)).2.2 /\
    config_ t' = config_ t /\ (numBuckets_ (ht_ t'), restorable_ (ht_ t')) = (numBuckets_ (ht_ t), restorable_ (ht_ t)) /\ numIterators_ t' = numIterators_ t /\
    ht_exec op t = ((abs_exec op (m, refs t)).1, t').

(** ** Simulation *)

Lemma shape_ext t t' bs :
  ht_ t' = ht_ t -> hooks t' = hooks t -> ht_shape getKey hasher t bs -> ht_shape getKey hasher t' bs.
Proof.
  intros Hh Hk [S1 S2 S3 S4 S5 S6 S7]. split; rewrite ?Hh, ?Hk; try done.
  intros j l a Hl Ha. rewrite <- (S6 j l a Hl Ha).
  unfold ChainedHashTableProofs.idx, getBucket. by rewrite Hh.
Qed.

Lemma rep_acc t bs m node : ht_rep t bs m -> isAccessible node t = has m node.
Proof. intros Hr. unfold isAccessible, has. apply bool_decide_ext, Hr. Qed.

Lemma rep_bucket t bs m k :
  ht_rep t bs m -> exists l, bs !! idx t k = Some l.
Proof. intros Hr. destruct (shape_bucket getKey hasher hasher_range t bs k (hr_shape _ _ _ Hr)) as (c & l & _ & Hl & _). eauto. Qed.

(** A new key. *)
Lemma rep_insert t bs m node l t' :
  ht_rep t bs m -> bs !! idx t (getKey node) = Some l -> m !! getKey node = None ->
  ht_shape getKey hasher t' (<[idx t (getKey node) := node :: l]> bs) -> (forall k, idx t' k = idx t k) ->
  accessible t' = {[ node ]} ∪ accessible t -> numKeys_ t' = u64 (numKeys_ t + 1) ->
  ht_rep t' (<[idx t (getKey node) := node :: l]> bs) (<[getKey node := node]> m).
Proof.
  intros Hr Hl Hm Hs Hi Hacc Hnum. apply (rep_update t bs m t' (getKey node) l); try done.
  - intros a. destruct (decide (getKey a = getKey node)) as [He|Hne].
    + rewrite He, lookup_insert_eq. split; [|set_solver]. intros [->|Ha]%elem_of_cons; [done|].
      exfalso. pose proof (rep_elem _ _ _ _ _ _ Hr Hl Ha). congruence.
    + rewrite lookup_insert_ne by done. rewrite elem_of_cons. split.
      * intros [->|Ha]; [done|]. split; [by eapply rep_elem|]. by eapply (sh_idx _ _ _ _ (hr_shape _ _ _ Hr)).
      * intros [Ha He]. right. apply (hr_map _ _ _ Hr) in Ha as (_ & l' & Hl' & Ha). congruence.
  - intros k Hk. by rewrite lookup_insert_ne.
  - intros a. rewrite lookup_insert_eq. by intros [= ->].
  - intros a. rewrite Hacc, elem_of_union, elem_of_singleton, (hr_acc _ _ _ Hr).
    destruct (decide (getKey a = getKey node)) as [He|Hne].
    + rewrite He, lookup_insert_eq, Hm. naive_solver.
    + rewrite lookup_insert_ne by done. naive_solver.
  - rewrite Hnum, (hr_num _ _ _ Hr), u64_shift, map_size_insert_None by done. f_equal. lia.
Qed.

(** A node in the place of another with its key. *)
Lemma rep_replace t bs m node l1 old l2 t' :
  ht_rep t bs m -> bs !! idx t (getKey node) = Some (l1 ++ old :: l2) -> getKey old = getKey node ->
  ht_shape getKey hasher t' (<[idx t (getKey node) := l1 ++ node :: l2]> bs) -> (forall k, idx t' k = idx t k) ->
  (forall a, a ∈ accessible t' <-> a = node \/ a ∈ accessible t /\ a <> old) -> numKeys_ t' = numKeys_ t ->
  ht_rep t' (<[idx t (getKey node) := l1 ++ node :: l2]> bs) (<[getKey node := node]> m).
Proof.
  intros Hr Hl Hk Hs Hi Hacc Hnum.
  assert (Hm : m !! getKey node = Some old) by (rewrite <- Hk; eapply rep_elem; [done..|set_solver]).
  assert (Hother : forall a, a ∈ l1 ++ l2 -> getKey a <> getKey node).
  { intros a Ha He. pose proof (sh_keys _ _ _ _ (hr_shape _ _ _ Hr) _ _ Hl) as Hnd.
    rewrite fmap_app, fmap_cons in Hnd. apply NoDup_app in Hnd as (_ & N2 & N3). apply NoDup_cons in N3 as [N3 _].
    apply elem_of_app in Ha as [Ha|Ha].
    - apply (N2 (getKey a)); [by apply list_elem_of_fmap_2|]. rewrite He, Hk. set_solver.
    - apply N3. rewrite Hk, <- He. by apply list_elem_of_fmap_2. }
  apply (rep_update t bs m t' (getKey node) (l1 ++ old :: l2)); try done.
  - intros a. destruct (decide (getKey a = getKey node)) as [He|Hne].
    + rewrite He, lookup_insert_eq. split; [|intros [[= <-] _]; set_solver].
      rewrite elem_of_app, elem_of_cons. intros [Ha|[->|Ha]]; [|done|]; exfalso; apply (Hother a); set_solver.
    + rewrite lookup_insert_ne by done. split.
      * intros Ha. assert (Ha' : a ∈ l1 ++ old :: l2) by set_solver.
        split; [by eapply rep_elem|]. by eapply (sh_idx _ _ _ _ (hr_shape _ _ _ Hr)).
      * intros [Ha He]. apply (hr_map _ _ _ Hr) in Ha as (_ & l' & Hl' & Ha). rewrite He in Hl'. simplify_eq.
        assert (a <> old) by congruence. set_solver.
  - intros k' Hk'. by rewrite lookup_insert_ne.
  - intros a. rewrite lookup_insert_eq. by intros [= ->].
  - intros a. rewrite Hacc, (hr_acc _ _ _ Hr). destruct (decide (getKey a = getKey node)) as [He|Hne].
    + rewrite He, lookup_insert_eq, Hm. naive_solver.
    + rewrite lookup_insert_ne by done. naive_solver.
  - rewrite Hnum, (hr_num _ _ _ Hr). rewrite map_size_insert_Some; [done|by eexists].
Qed.

(** A node taken out. *)
Lemma rep_delete t bs m node l1 l2 t' :
  ht_rep t bs m -> bs !! idx t (getKey node) = Some (l1 ++ node :: l2) ->
  ht_shape getKey hasher t' (<[idx t (getKey node) := l1 ++ l2]> bs) -> (forall k, idx t' k = idx t k) ->
  accessible t' = accessible t ∖ {[ node ]} -> numKeys_ t' = u64 (numKeys_ t + -1) ->
  ht_rep t' (<[idx t (getKey node) := l1 ++ l2]> bs) (delete (getKey node) m).
Proof.
  intros Hr Hl Hs Hi Hacc Hnum.
  assert (Hm : m !! getKey node = Some node) by (eapply rep_elem; [done..|set_solver]).
  pose proof (sh_keys _ _ _ _ (hr_shape _ _ _ Hr) _ _ Hl) as Hnd.
  apply NoDup_fmap_1 in Hnd. apply NoDup_app in Hnd as (_ & N2 & N3). apply NoDup_cons in N3 as [N3 _].
  apply (rep_update t bs m t' (getKey node) (l1 ++ node :: l2)); try done.
  - intros a. split.
    + intros Ha. assert (Ha' : a ∈ l1 ++ node :: l2) by set_solver.
      assert (Hne : a <> node) by (intros ->; specialize (N2 node); set_solver).
      pose proof (rep_elem _ _ _ _ _ _ Hr Hl Ha') as Hma.
      rewrite lookup_delete_ne by congruence. split; [done|]. by eapply (sh_idx _ _ _ _ (hr_shape _ _ _ Hr)).
    + intros [Ha He]. apply lookup_delete_Some in Ha as [Hne Ha].
      apply (hr_map _ _ _ Hr) in Ha as (_ & l' & Hl' & Ha). rewrite He in Hl'. simplify_eq.
      assert (a <> node) by congruence. set_solver.
  - intros k' Hk'. by rewrite lookup_delete_ne.
  - intros a. by rewrite lookup_delete_eq.
  - intros a. rewrite Hacc, elem_of_difference, elem_of_singleton, (hr_acc _ _ _ Hr), lookup_delete_Some.
    destruct (decide (getKey node = getKey a)) as [He|Hne]; [|naive_solver].
    rewrite <- He, Hm. naive_solver.
  - rewrite Hnum, (hr_num _ _ _ Hr), u64_shift. rewrite map_size_delete, Hm. f_equal.
    assert (base.size m <> 0%nat); [|cbn; lia]. intros Hz%map_size_empty_inv. by subst.
Qed.

Lemma has_true m node : has m node = true -> m !! getKey node = Some node.
Proof. unfold has. by rewrite bool_decide_eq_true. Qed.
Lemma has_false m node : has m node = false -> m !! getKey node <> Some node.
Proof. unfold has. by rewrite bool_decide_eq_false. Qed.

(** The state does not change, but for the reference counts. *)
Lemma rep_refs t bs m x : ht_rep t bs m -> ht_rep (set_refs x t) bs m.
Proof. intros [H1 H2 H3 H4]. split; try done. by apply (shape_ext t). Qed.

Lemma rep_split t bs m k : ht_rep t bs m -> exists l, bs !! idx t k = Some l /\
  m !! k = match split_at k l with Some (_, a, _) => Some a | None => None end.
Proof. intros Hr. destruct (rep_bucket _ _ _ k Hr) as [l Hl]. exists l. split; [done|]. by eapply rep_lookup. Qed.

(** The place of a node of the map. *)
Lemma rep_place t bs m node : ht_rep t bs m -> m !! getKey node = Some node ->
  exists l1 l2, bs !! idx t (getKey node) = Some (l1 ++ node :: l2).
Proof.
  intros Hr Hm. destruct (rep_split _ _ _ (getKey node) Hr) as (l & Hl & He). rewrite Hm in He.
  destruct (split_at (getKey node) l) as [[[l1 a] l2]|] eqn:Hs; [|done]. injection He as <-.
  apply split_at_Some in Hs as [-> _]. by exists l1, l2.
Qed.

#[local] Abbreviation insertInBucket_ok := (insertInBucket_spec getKey hasher hasher_range).
#[local] Abbreviation replaceInBucket_ok := (insertOrReplaceInBucket_spec getKey hasher hasher_range).
#[local] Abbreviation removeInBucket_ok := (removeFromBucket_spec getKey hasher hasher_range).

Lemma sim_insert t bs m node : ht_rep t bs m -> pc_valid node -> simulates (HInsert node) t m.
Proof.
  intros Hr Hv. unfold simulates. cbn [abs_exec ht_exec]. unfold bind, ChainedHashTable.insert, bind, get.
  rewrite (rep_acc _ _ _ node Hr). destruct (has m node) eqn:Hh.
  { rewrite (has_true _ _ Hh). by exists t, bs. }
  destruct (rep_split _ _ _ (getKey node) Hr) as (l & Hl & Hm).
  pose proof (insertInBucket_ok t bs node l (hr_shape _ _ _ Hr) Hl Hv (rep_fresh _ _ _ _ Hr (has_false _ _ Hh))) as Hb.
  destruct (split_at (getKey node) l) as [[[l1 a] l2]|] eqn:Hs; rewrite Hm.
  { rewrite Hb. by exists t, bs. }
  destruct Hb as (table & hk & -> & Hshape). cbn.
  eexists _, _. split_and!; [|..|reflexivity]; [|done..].
  apply (rep_insert t bs m node l); try done. by apply (shape_ext (with_chains t table hk)).
Qed.

Lemma sim_remove t bs m node : ht_rep t bs m -> simulates (HRemove node) t m.
Proof.
  intros Hr. unfold simulates. cbn [abs_exec ht_exec]. unfold bind, ChainedHashTable.remove, bind, get.
  rewrite (rep_acc _ _ _ node Hr). destruct (has m node) eqn:Hh; [|by exists t, bs]. cbn [negb].
  destruct (rep_place _ _ _ _ Hr (has_true _ _ Hh)) as (l1 & l2 & Hl).
  destruct (removeInBucket_ok t bs node l1 l2 (hr_shape _ _ _ Hr) Hl) as (table & hk & -> & Hshape). cbn.
  eexists _, _. split_and!; [|..|reflexivity]; [|done..].
  apply (rep_delete t bs m node l1 l2); try done. by apply (shape_ext (with_chains t table hk)).
Qed.

Lemma sim_find t bs m k : ht_rep t bs m -> simulates (HFind k) t m.
Proof.
  intros Hr. unfold simulates. cbn [abs_exec ht_exec].
  destruct (rep_split _ _ _ k Hr) as (l & Hl & Hm).
  pose proof (walkBucket_spec getKey hasher hasher_range t bs k l (hr_shape _ _ _ Hr) Hl) as Hw.
  assert (Hf : findInBucket getKey k (getBucket hasher t k) t = (Ok (m !! k), t)).
  { unfold findInBucket, bind. rewrite Hw, Hm. by destruct (split_at k l) as [[[l1 a] l2]|]. }
  unfold bind, ChainedHashTable.find, bind, get. rewrite Hf. unfold makeHandle, with_handle. cbn [snd fst].
  destruct (handleMaker (m !! k) (refs t)) as [[h|e] r]; cbn;
    (eexists _, bs; split_and!; [|..|reflexivity]; [by apply rep_refs|done..]).
Qed.

Lemma sim_removeIf t bs m node p : ht_rep t bs m -> simulates (HRemoveIf node p) t m.
Proof.
  intros Hr. unfold simulates. cbn [abs_exec ht_exec]. unfold bind, ChainedHashTable.removeIf, bind, get.
  rewrite (rep_acc _ _ _ node Hr). destruct (has m node && p node) eqn:Hh.
  - apply andb_true_iff in Hh as [Hh _]. unfold makeHandle, with_handle. cbn [snd fst].
    destruct (handleMaker (Some node) (refs t)) as [[h|e] r]; cbn.
    2: { eexists _, bs. split_and!; [|..|reflexivity]; [by apply rep_refs|done..]. }
    pose proof (rep_refs t bs m r Hr) as Hr'.
    destruct (rep_place _ _ _ _ Hr' (has_true _ _ Hh)) as (l1 & l2 & Hl).
    destruct (removeInBucket_ok (set_refs r t) bs node l1 l2 (hr_shape _ _ _ Hr') Hl) as (table & hk & Hrun & Hshape).
    unfold getBucket in Hrun |- *. cbn in Hrun |- *. rewrite Hrun. cbn.
    eexists _, _. split_and!; [|..|reflexivity]; [|done..].
    apply (rep_delete (set_refs r t) bs m node l1 l2); try done.
    by apply (shape_ext (with_chains (set_refs r t) table hk)).
  - unfold makeHandle, with_handle. cbn [snd fst]. rewrite hm_null. eexists _, bs.
    split_and!; [|..|reflexivity]; [by apply (rep_refs t bs m (refs t))|done..].
Qed.

Lemma sim_replaceIf t bs m old new p :
  ht_rep t bs m -> pc_valid new -> getKey new = getKey old -> m !! getKey new <> Some new ->
  simulates (HReplaceIf old new p) t m.
Proof.
  intros Hr Hv Hk Hn. unfold simulates. cbn [abs_exec ht_exec]. unfold bind, ChainedHashTable.replaceIf, bind, get.
  rewrite (rep_acc _ _ _ old Hr). destruct (has m old && p old) eqn:Hh; [|by exists t, bs].
  apply andb_true_iff in Hh as [Hh _]. destruct (rep_place _ _ _ _ Hr (has_true _ _ Hh)) as (l1 & l2 & Hl).
  rewrite <- Hk in Hl.
  destruct (replaceInBucket_ok t bs new _ (hr_shape _ _ _ Hr) Hl Hv (rep_fresh _ _ _ _ Hr Hn)) as (table & hk & Hb).
  assert (Hsp : split_at (getKey new) (l1 ++ old :: l2) = Some (l1, old, l2)).
  { rewrite Hk. apply (split_at_self getKey); [done|]. by eapply (sh_keys _ _ _ _ (hr_shape _ _ _ Hr)). }
  rewrite Hsp in Hb.
  destruct Hb as [-> Hshape]. cbn. eexists _, _. split_and!; [|..|reflexivity]; [|done..].
  apply (rep_replace t bs m new l1 old l2); try done; [by apply (shape_ext (with_chains t table hk))|].
  intros a. cbn. set_solver.
Qed.

(** When the handle to the replaced node can not be made, the node is put back
    where it was. *)
Lemma put_back t bs m node l1 a l2 t1 :
  ht_rep t bs m -> bs !! idx t (getKey node) = Some (l1 ++ a :: l2) -> getKey a = getKey node -> a <> node ->
  ht_shape getKey hasher t1 (<[idx t (getKey node) := l1 ++ node :: l2]> bs) -> (forall k, idx t1 k = idx t k) ->
  getBucket hasher t1 (getKey a) = getBucket hasher t (getKey node) ->
  accessible t1 = accessible t -> numKeys_ t1 = numKeys_ t ->
  exists table hk, ChainedHashTable.insertOrReplaceInBucket getKey a (getBucket hasher t (getKey node)) t1 =
    (Ok (Some node), with_chains t1 table hk) /\ ht_rep (with_chains t1 table hk) bs m.
Proof.
  intros Hr Hl Hk Hne Hs Hi Hb Hacc Hnum. rewrite <- Hb.
  assert (Hlt : (idx t (getKey node) < length bs)%nat) by (by eapply lookup_lt_Some).
  assert (Hl1 : <[idx t (getKey node) := l1 ++ node :: l2]> bs !! idx t1 (getKey a) = Some (l1 ++ node :: l2)).
  { rewrite Hi, Hk. by apply list_lookup_insert_eq. }
  pose proof (shape_nodup getKey hasher t bs _ _ (hr_shape _ _ _ Hr) Hl) as Hnd.
  destruct (replaceInBucket_ok t1 _ a _ Hs Hl1) as (table & hk & Hrun).
  - destruct (shape_bucket getKey hasher hasher_range t bs (getKey node) (hr_shape _ _ _ Hr)) as (c & l & _ & Hl' & Hch & _).
    simplify_eq. eapply (chain_elem (hooks t) c); [exact Hch|]. set_solver.
  - intros j lj Hj Hin. destruct (decide (j = idx t (getKey node))) as [->|Hj'].
    + rewrite list_lookup_insert_eq in Hj by done. injection Hj as <-.
      apply NoDup_app in Hnd as (_ & N2 & N3). apply NoDup_cons in N3 as [N3 _].
      apply elem_of_app in Hin as [Hin|[Hin|Hin]%elem_of_cons]; [|done|done]. apply (N2 a Hin). set_solver.
    + rewrite list_lookup_insert_ne in Hj by done.
      apply (shape_other getKey hasher t bs j (idx t (getKey node)) lj (l1 ++ a :: l2) a (hr_shape _ _ _ Hr)); try done.
      set_solver.
  - assert (Hsp : split_at (getKey a) (l1 ++ node :: l2) = Some (l1, node, l2)).
    { rewrite Hk. apply (split_at_self getKey); [done|]. eapply (sh_keys _ _ _ _ Hs). exact Hl1. }
    rewrite Hsp in Hrun.
    destruct Hrun as [Hrun Hshape]. exists table, hk. split; [exact Hrun|].
    rewrite Hi, Hk, list_insert_insert_eq, list_insert_id in Hshape by done.
    split; [done| |cbn; rewrite Hacc; apply Hr|cbn; rewrite Hnum; apply Hr].
    intros k b. unfold bucket_has.
    replace (idx (with_chains t1 table hk) k) with (idx t k) by (by rewrite <- Hi). apply Hr.
Qed.

Lemma sim_insertOrReplace t bs m node :
  ht_rep t bs m -> pc_valid node -> simulates (HInsertOrReplace node) t m.
Proof.
  intros Hr Hv. unfold simulates. cbn [abs_exec ht_exec]. unfold bind, ChainedHashTable.insertOrReplace, bind, get.
  rewrite (rep_acc _ _ _ node Hr). destruct (has m node) eqn:Hh.
  { unfold makeHandle, with_handle. cbn [snd fst]. rewrite hm_null. eexists _, bs.
    split_and!; [|..|reflexivity]; [by apply (rep_refs t bs m (refs t))|done..]. }
  destruct (rep_split _ _ _ (getKey node) Hr) as (l & Hl & Hm).
  destruct (replaceInBucket_ok t bs node l (hr_shape _ _ _ Hr) Hl Hv (rep_fresh _ _ _ _ Hr (has_false _ _ Hh)))
    as (table & hk & Hb).
  destruct (split_at (getKey node) l) as [[[l1 a] l2]|] eqn:Hs; rewrite Hm; destruct Hb as [-> Hshape];
    unfold makeHandle, with_handle; cbn [snd fst refs with_chains set_hooks set_table].
  2: { rewrite hm_null. cbn. eexists _, _. split_and!; [|..|reflexivity]; [|done..].
       apply (rep_insert t bs m node l); try done. by apply (shape_ext (with_chains t table hk)). }
  apply split_at_Some in Hs as (-> & Hka & _).
  assert (Hne : a <> node) by (intros ->; by apply (has_false _ _ Hh)).
  destruct (handleMaker (Some a) (refs t)) as [[h|e] r] eqn:Hhm.
  - cbn. eexists _, _. split_and!; [|..|reflexivity]; [|done..].
    apply (rep_replace t bs m node l1 a l2); try done; [by apply (shape_ext (with_chains t table hk))|].
    intros b. cbn. set_solver.
  - destruct (put_back t bs m node l1 a l2 (set_refs r (with_chains t table hk)) Hr Hl Hka Hne) as (tb & hk' & Hrun & Hrep);
      try done; [by apply (shape_ext (with_chains t table hk))|unfold getBucket; by rewrite Hka|].
    rewrite Hrun. cbn. eexists _, bs. split_and!; [|..|reflexivity]; [exact Hrep|done..].
Qed.

(** ** Runs *)

Fixpoint ht_run (ops : list ht_op) t : list (res ht_result) * Container :=
  match ops with
  | [] => ([], t)
  | op :: ops' => let '(r, t1) := ht_exec op t in let '(rs, t2) := ht_run ops' t1 in (r :: rs, t2)
  end.
Fixpoint abs_run (ops : list ht_op) (s : absState) : list (res ht_result) * absState :=
  match ops with
  | [] => ([], s)
  | op :: ops' => let '(r, s1) := abs_exec op s in let '(rs, s2) := abs_run ops' s1 in (r :: rs, s2)
  end.
Fixpoint ops_ok (ops : list ht_op) (s : absState) : Prop :=
  match ops with
  | [] => True
  | op :: ops' => op_ok op s /\ ops_ok ops' (abs_exec op s).2
  end.

Lemma sim_exec op t bs m : ht_rep t bs m -> op_ok op (m, refs t) -> simulates op t m.
Proof.
  intros Hr Hok. destruct op; cbn in Hok.
  - by eapply sim_insert.
  - by eapply sim_insertOrReplace.
  - destruct Hok as (? & ? & ?). by eapply sim_replaceIf.
  - by eapply sim_remove.
  - by eapply sim_removeIf.
  - by eapply sim_find.
Qed.

Lemma sim_run ops t bs m :
  ht_rep t bs m -> ops_ok ops (m, refs t) ->
  exists t' bs' m', ht_run ops t = ((abs_run ops (m, refs t)).1, t') /\
    (abs_run ops (m, refs t)).2 = (m', refs t') /\ ht_rep t' bs' m' /\
    config_ t' = config_ t /\ (numBuckets_ (ht_ t'), restorable_ (ht_ t')) = (numBuckets_ (ht_ t), restorable_ (ht_ t)) /\ numIterators_ t' = numIterators_ t.
Proof.
  revert t bs m. induction ops as [|op ops IH]; intros t bs m Hr Hok; [by exists t, bs, m|].
  destruct Hok as [Hop Hok]. destruct (sim_exec op t bs m Hr Hop) as (t1 & bs1 & Hr1 & He & E1 & E2 & E3 & Hrun).
  cbn [ht_run abs_run]. rewrite Hrun. destruct (abs_exec op (m, refs t)) as [r [m1 r1]] eqn:Ha. cbn [fst snd] in *. subst r1.
  destruct (IH t1 bs1 m1 Hr1 Hok) as (t' & bs' & m' & G1 & G2 & G3 & G4 & G5 & G6).
  rewrite G1. destruct (abs_run ops (m1, refs t1)) as [rs s2]. cbn [fst snd] in *. subst s2.
  exists t', bs', m'. split_and!; congruence || done.
Qed.

(** ** A new table *)

Lemma ht_init c um (hk : gmap A C) (r : R) t :
  0 <= bucketsPower_ c <= kMaxBucketPower -> makeContainer c um hk ∅ r = Ok t ->
  ht_rep t (replicate (Z.to_nat (getNumBuckets c)) []) ∅ /\ refs t = r /\ config_ t = c /\
  getNumBuckets c = 2 ^ bucketsPower_ c /\ restorable_ (ht_ t) = um /\ numIterators_ t = 0.
Proof.
  unfold kMaxBucketPower. intros Hp Hmk.
  assert (Hpow : 0 < 2 ^ bucketsPower_ c <= 2 ^ 32).
  { split; [apply Z.pow_pos_nonneg; lia|apply Z.pow_le_mono_r; lia]. }
  assert (Hn : getNumBuckets c = 2 ^ bucketsPower_ c).
  { unfold getNumBuckets. rewrite Z.shiftl_1_l. apply u64_small. unfold is_u64. lia. }
  unfold makeContainer, makeImpl in Hmk. rewrite Hn in Hmk. destruct (2 ^ bucketsPower_ c =? 0); [done|].
  destruct (negb _); [done|]. injection Hmk as <-. rewrite Hn. split_and!; try done. split; cbn; try done.
  - split; cbn; try done.
    + by exists (bucketsPower_ c).
    + apply u64_small. unfold is_u64. lia.
    + rewrite length_replicate. lia.
    + by rewrite !length_replicate.
    + intros j c' l [-> _]%lookup_replicate [-> _]%lookup_replicate. cbn. apply unCompress_null.
    + intros j l a [-> _]%lookup_replicate. by intros ?%not_elem_of_nil.
    + intros j l [-> _]%lookup_replicate. apply NoDup_nil_2.
  - intros k a. rewrite lookup_empty. split; [done|]. intros (_ & l & [-> _]%lookup_replicate & Ha).
    by apply not_elem_of_nil in Ha.
Qed.

(** ** Iteration *)

Context (releaseHandle : A -> R -> R).

(** Every handle can be made. *)
Definition hm_total : Prop := forall a r, exists r', handleMaker (Some a) r = (Ok (Some a), r').

#[local] Abbreviation getBucketElems := (getBucketElems handleMaker releaseHandle).
#[local] Abbreviation nextBucket := (nextBucket handleMaker releaseHandle).
#[local] Abbreviation incr := (incr handleMaker releaseHandle).

(** The loop of a client: [for (auto it = begin(); it != end(); ++it)]. *)
Fixpoint iterate (fuel : nat) (it e : Iterator A) : M Container (list A) :=
  if iter_eq it e then ret []
  else
    match fuel with
    | O => throw StillWaiting
    | S fuel' =>
        match deref it with
        | Throw x => throw x
        | Ok a =>
            let! it' := incr it in
            let! l := iterate fuel' it' e in
            ret (a :: l)
        end
    end.
Definition iterateAll (fuel : nat) : M Container (list A) :=
  let! it := begin_ handleMaker releaseHandle in let! e := end_ in iterate fuel it e.

Lemma makeHandles_spec l t :
  hm_total -> exists x, makeHandles handleMaker l t = (Ok l, set_refs x t).
Proof.
  intros Hhm. revert t. induction l as [|a l IH]; intros t; cbn [makeHandles].
  { exists (refs t). by destruct t. }
  unfold makeHandle. destruct (Hhm a (refs t)) as [r' ->]. destruct (IH (set_refs r' t)) as [x Hx].
  exists x. unfold bind. by rewrite Hx.
Qed.

Lemma rep_bucket_nat t bs m (b : nat) l :
  ht_rep t bs m -> bs !! b = Some l -> forEachBucketElem (Z.of_nat b) t = (Ok l, t).
Proof.
  intros Hr Hl. destruct (lookup_lt_is_Some_2 (hashTable_ (ht_ t)) b) as [c Hc].
  { rewrite (sh_len _ _ _ _ (hr_shape _ _ _ Hr)). by eapply lookup_lt_Some. }
  pose proof (sh_chain _ _ _ _ (hr_shape _ _ _ Hr) b c l Hc Hl) as Hch.
  unfold forEachBucketElem, bind, bucketHead. rewrite Nat2Z.id, Hc. rewrite (elems_spec _ t c l Hch); [done|].
  eapply chain_length; [done|]. eapply (shape_nodup getKey hasher); [apply Hr|done].
Qed.

Lemma getBucketElems_ok t bs m (b : nat) l elems :
  hm_total -> ht_rep t bs m -> bs !! b = Some l ->
  exists x, getBucketElems (Z.of_nat b) elems t = (Ok l, set_refs x t).
Proof.
  intros Hhm Hr Hl. unfold ChainedHashTable.getBucketElems, bind, releaseHandles, modify.
  set (x := foldr releaseHandle (refs t) elems).
  rewrite (rep_bucket_nat _ bs m b l (rep_refs t bs m x Hr) Hl).
  destruct (makeHandles_spec l (set_refs x t) Hhm) as [y ->]. by exists y.
Qed.

Lemma nextBucket_ok n t bs m (b : nat) elems :
  hm_total -> ht_rep t bs m -> getNumBuckets (config_ t) = Z.of_nat (length bs) ->
  (b <= length bs)%nat -> (length bs - b <= n)%nat ->
  exists x (b' : nat) e, nextBucket n (Z.of_nat b) elems t = (Ok (Z.of_nat b', e), set_refs x t) /\
    ((b' < length bs)%nat /\ bs !! b' = Some e /\ e <> [] /\ concat (drop b bs) = e ++ concat (drop (S b') bs) \/
     b' = length bs /\ concat (drop b bs) = [] /\ (e = [] \/ e = elems)).
Proof.
  intros Hhm. revert t b elems. induction n as [|n IH]; intros t b elems Hr Hn Hb Hf; cbn [ChainedHashTable.nextBucket].
  { exists (refs t), b, elems. split; [by destruct t|]. right. assert (b = length bs) as -> by lia.
    split_and!; try done; [by rewrite drop_all|by right]. }
  unfold bind, get. rewrite Hn. destruct (Z.ltb_spec (Z.of_nat b) (Z.of_nat (length bs))) as [Hlt|Hge].
  2: { exists (refs t), b, elems. split; [by destruct t|]. right. assert (b = length bs) as -> by lia.
       split_and!; try done; [by rewrite drop_all|by right]. }
  destruct (lookup_lt_is_Some_2 bs b) as [l Hl]; [lia|].
  destruct (getBucketElems_ok t bs m b l elems Hhm Hr Hl) as [x Hx]. rewrite Hx.
  assert (Hdrop : concat (drop b bs) = l ++ concat (drop (S b) bs)) by (by rewrite (drop_S _ _ _ Hl)).
  destruct l as [|a l].
  - destruct (IH (set_refs x t) (S b) [] (rep_refs _ _ _ _ Hr) Hn ltac:(lia) ltac:(lia)) as (y & b' & e & Hrun & Hres).
    replace (Z.of_nat b + 1) with (Z.of_nat (S b)) by lia. rewrite Hrun. exists y, b', e. split; [done|].
    rewrite Hdrop. cbn [app]. destruct Hres as [?|(? & ? & ?)]; [by left|right; split_and!; try done; left; tauto].
  - exists x, b, (a :: l). split; [done|]. left. split_and!; [lia|done..].
Qed.

(** The iterator at a position of a bucket, or at the end. *)
Definition iter_at (n : nat) bs (it : Iterator A) (rest : list A) : Prop :=
  (exists (b cur : nat) e, it = mkIterator (Z.of_nat b) (Z.of_nat cur) e /\ bs !! b = Some e /\
     (cur < length e)%nat /\ Z.of_nat (length e) < 2 ^ 32 /\ rest = drop cur e ++ concat (drop (S b) bs)) \/
  (exists e, it = mkIterator (Z.of_nat n) 0 e) /\ rest = [].

Lemma incr_ok t bs m it a rest :
  hm_total -> ht_rep t bs m -> getNumBuckets (config_ t) = Z.of_nat (length bs) ->
  (forall i l, bs !! i = Some l -> Z.of_nat (length l) < 2 ^ 32) ->
  iter_at (length bs) bs it (a :: rest) ->
  deref it = Ok a /\ exists x it', incr it t = (Ok it', set_refs x t) /\ iter_at (length bs) bs it' rest.
Proof.
  intros Hhm Hr Hn Hlen [(b & cur & e & -> & He & Hcur & Hsmall & Hrest)|[_ ?]]; [|done].
  destruct (lookup_lt_is_Some_2 e cur Hcur) as [a' Ha']. rewrite (drop_S _ _ _ Ha') in Hrest.
  cbn [app] in Hrest. injection Hrest as <- ->.
  assert (Hb : (b < length bs)%nat) by (by eapply lookup_lt_Some). split.
  { unfold deref. cbn. destruct (Z.ltb_spec (Z.of_nat cur) (Z.of_nat (length e))); [|lia].
    by rewrite Nat2Z.id, Ha'. }
  unfold ChainedHashTable.incr. cbn [curSor_ bucketElems_ currBucket_].
  rewrite (u32_small (Z.of_nat cur + 1)) by (unfold is_u32; lia).
  destruct (Z.ltb_spec (Z.of_nat cur + 1) (Z.of_nat (length e))) as [Hlt|Hge].
  - exists (refs t), (mkIterator (Z.of_nat b) (Z.of_nat (S cur)) e). split.
    + unfold ret. replace (Z.of_nat (S cur)) with (Z.of_nat cur + 1) by lia. by destruct t.
    + left. exists b, (S cur), e. split_and!; try done. lia.
  - rewrite (drop_ge e (S cur)) by lia. cbn [app]. unfold bind, get. rewrite Hn, Nat2Z.id.
    replace (Z.of_nat b + 1) with (Z.of_nat (S b)) by lia.
    destruct (nextBucket_ok (length bs) t bs m (S b) e Hhm Hr Hn ltac:(lia) ltac:(lia)) as (x & b' & e' & -> & Hres).
    destruct Hres as [(Hb' & He' & Hne & Hd)|(-> & Hd & _)].
    + destruct (Z.ltb_spec (Z.of_nat b') (Z.of_nat (length bs))); [|lia].
      exists x, (mkIterator (Z.of_nat b') 0 e'). split; [done|]. left. exists b', 0%nat, e'.
      split_and!; try done; [destruct e'; [done|cbn; lia]|by eapply Hlen].
    + rewrite Z.ltb_irrefl. eexists _, (mkIterator (Z.of_nat (length bs)) 0 []). split; [done|].
      right. split; [by exists []|done].
Qed.

Lemma iterate_ok fuel t bs m it rest :
  hm_total -> ht_rep t bs m -> getNumBuckets (config_ t) = Z.of_nat (length bs) ->
  (forall i l, bs !! i = Some l -> Z.of_nat (length l) < 2 ^ 32) ->
  iter_at (length bs) bs it rest -> (length rest <= fuel)%nat ->
  exists x, iterate fuel it (mkIterator (getNumBuckets (config_ t)) 0 []) t = (Ok rest, set_refs x t).
Proof.
  intros Hhm. revert t it rest. induction fuel as [|fuel IH]; intros t it rest Hr Hn Hlen Hat Hf.
  - destruct rest; [|cbn in Hf; lia]. destruct Hat as [(b & cur & e & -> & He & Hcur & _ & Hrest)|[(e & ->) _]].
    + destruct (lookup_lt_is_Some_2 e cur Hcur) as [a' Ha']. by rewrite (drop_S _ _ _ Ha') in Hrest.
    + exists (refs t). cbn [iterate]. unfold iter_eq. rewrite Hn. cbn. rewrite Z.eqb_refl. by destruct t.
  - cbn [iterate]. destruct rest as [|a rest].
    + destruct Hat as [(b & cur & e & -> & He & Hcur & _ & Hrest)|[(e & ->) _]].
      * destruct (lookup_lt_is_Some_2 e cur Hcur) as [a' Ha']. by rewrite (drop_S _ _ _ Ha') in Hrest.
      * exists (refs t). unfold iter_eq. rewrite Hn. cbn. rewrite Z.eqb_refl. by destruct t.
    + destruct (incr_ok t bs m it a rest Hhm Hr Hn Hlen Hat) as (Hd & x & it' & Hi & Hat').
      assert (iter_eq it (mkIterator (getNumBuckets (config_ t)) 0 []) = false) as ->.
      { destruct Hat as [(b & cur & e & -> & He & _)|[_ ?]]; [|done]. unfold iter_eq. cbn. rewrite Hn.
        apply lookup_lt_Some in He. by destruct (Z.eqb_spec (Z.of_nat b) (Z.of_nat (length bs))); [lia|]. }
      rewrite Hd. unfold bind. rewrite Hi.
      destruct (IH (set_refs x t) it' rest (rep_refs _ _ _ _ Hr) Hn Hlen Hat' ltac:(cbn in Hf; lia)) as [y Hy].
      cbn in Hy |- *. rewrite Hy. by exists y.
Qed.

(** The nodes of all buckets are those of the map. *)
Lemma rep_nodes t bs m :
  ht_rep t bs m -> NoDup (concat bs) /\ (forall a, a ∈ concat bs <-> m !! getKey a = Some a) /\
  length (concat bs) = base.size m.
Proof.
  intros Hr.
  assert (Hin : forall a, a ∈ concat bs <-> m !! getKey a = Some a).
  { intros a. rewrite concat_elem. split.
    - intros (j & l & Hj & Ha). by eapply rep_elem.
    - intros (_ & l & Hl & Ha)%(hr_map _ _ _ Hr). by exists (idx t (getKey a)), l. }
  assert (Hnd : NoDup (concat bs)).
  { apply concat_NoDup.
    - intros j l Hl. by eapply (shape_nodup getKey hasher), Hl; apply Hr.
    - intros j j' l l' a Hl Hl' Ha Ha'. destruct (decide (j = j')) as [|Hne]; [done|]. exfalso.
      eapply (shape_other getKey hasher t bs j j' l l' a); try done; apply Hr. }
  split_and!; try done.
  assert (Hk : NoDup (getKey <$> concat bs)).
  { apply NoDup_fmap_2_strong; [|done]. intros a b Ha%Hin Hb%Hin He. congruence. }
  assert (Hd : list_to_set (getKey <$> concat bs) = dom m).
  { apply set_eq. intros k. rewrite elem_of_list_to_set, list_elem_of_fmap, elem_of_dom. split.
    - intros (a & -> & Ha%Hin). by exists a.
    - intros [a Ha]. pose proof Ha as (Hka & _)%(hr_map _ _ _ Hr). exists a. split; [done|]. apply Hin. congruence. }
  rewrite <- (size_dom (D := gset K) m), <- Hd, size_list_to_set by done. by rewrite length_fmap.
Qed.

Lemma bucket_small t bs m j l :
  ht_rep t bs m -> Z.of_nat (base.size m) < 2 ^ 32 -> bs !! j = Some l -> Z.of_nat (length l) < 2 ^ 32.
Proof.
  intros Hr Hm Hl. destruct (rep_nodes _ _ _ Hr) as (_ & _ & Hlen).
  assert (length l <= length (concat bs))%nat; [|lia]. clear -Hl. revert j Hl.
  induction bs as [|l0 bs IH]; intros [|j] Hl; cbn in Hl |- *; try done; rewrite length_app.
  - injection Hl as ->. lia.
  - specialize (IH _ Hl). lia.
Qed.

Lemma iterateAll_ok t bs m :
  hm_total -> ht_rep t bs m -> getNumBuckets (config_ t) = Z.of_nat (length bs) ->
  Z.of_nat (base.size m) < 2 ^ 32 ->
  exists l t', iterateAll (base.size m) t = (Ok l, t') /\ NoDup l /\ (forall a, a ∈ l <-> m !! getKey a = Some a) /\
    ht_rep t' bs m.
Proof.
  intros Hhm Hr Hn Hm. destruct (rep_nodes _ _ _ Hr) as (Hnd & Hin & Hlen).
  unfold iterateAll, bind, begin_, reset, bind, modify, get. cbn [bucketElems_].
  set (t1 := set_numIterators _ t).
  assert (Hr1 : ht_rep t1 bs m) by (destruct Hr; split; try done; by apply (shape_ext t)).
  assert (Hn1 : getNumBuckets (config_ t1) = Z.of_nat (length bs)) by done. rewrite Hn1, Nat2Z.id.
  destruct (nextBucket_ok (length bs) t1 bs m 0 [] Hhm Hr1 Hn1 ltac:(lia) ltac:(lia)) as (x & b' & e & Hrun & Hres).
  change (Z.of_nat 0) with 0 in Hrun. rewrite Hrun. clear Hrun. unfold ret at 1. cbn [fst snd].
  unfold end_, bind, get, modify, ret. set (t2 := set_numIterators _ (set_refs x t1)).
  assert (Hr2 : ht_rep t2 bs m) by (pose proof (rep_refs _ _ _ x Hr1) as []; split; try done; by apply (shape_ext (set_refs x t1))).
  assert (Hat : iter_at (length bs) bs (mkIterator (Z.of_nat b') 0 e) (concat bs)).
  { change (concat bs) with (concat (drop 0 bs)). destruct Hres as [(Hb & He & Hne & ->)|(-> & -> & _)].
    - left. exists b', 0%nat, e. split_and!; try done; [destruct e; [done|cbn; lia]|by eapply bucket_small].
    - right. split; [by exists e|done]. }
  destruct (iterate_ok (base.size m) t2 bs m (mkIterator (Z.of_nat b') 0 e) (concat bs) Hhm Hr2 Hn1) as [y Hy]; try done.
  - intros j l. by apply (bucket_small t bs m).
  - by rewrite Hlen.
  - exists (concat bs), (set_refs y t2). split; [exact Hy|]. split_and!; try done. by apply rep_refs.
Qed.

(** ** Theorems *)

(** C2. The hash table is a finite map from keys to nodes.  Whatever sequence of
    operations (inserting, inserting or replacing, replacing when a predicate
    holds, removing, removing when a predicate holds, finding), starting from a
    new table, every result is the one the map gives, also when a handle to a
    replaced node can not be made and the old node is put back; the reference
    counts are those the handles of the map take; the number of keys is the
    size of the map; and the nodes marked accessible are those of the map.  All
    walks along the chains end. *)
Theorem ht_refines_map c um (hk : gmap A C) (r : R) t ops :
  0 <= bucketsPower_ c <= kMaxBucketPower -> makeContainer c um hk ∅ r = Ok t -> ops_ok ops (∅, r) ->
  let '(rs, t') := ht_run ops t in
  let '(rs', (m, r')) := abs_run ops (∅, r) in
  rs = rs' /\ refs t' = r' /\ numKeys_ t' = u64 (Z.of_nat (base.size m)) /\
  forall a, a ∈ accessible t' <-> m !! getKey a = Some a.
Proof.
  intros Hp Hmk Hok. destruct (ht_init _ _ _ _ _ Hp Hmk) as (Hr & <- & _).
  destruct (sim_run ops t _ ∅ Hr Hok) as (t' & bs' & m' & -> & Ha & Hr' & _).
  destruct (abs_run ops (∅, refs t)) as [rs' [m r']]. cbn in Ha |- *. injection Ha as -> ->.
  split_and!; [done|done|apply Hr'|apply Hr'].
Qed.

(** C25. Iterating over the table after any sequence of operations, when every
    handle can be made: the loop ends after as many steps as there are keys,
    and has visited every node of the map exactly once. *)
Theorem ht_iterates c um (hk : gmap A C) (r : R) t ops :
  0 <= bucketsPower_ c <= kMaxBucketPower -> makeContainer c um hk ∅ r = Ok t -> ops_ok ops (∅, r) -> hm_total ->
  let m := (abs_run ops (∅, r)).2.1 in
  Z.of_nat (base.size m) < 2 ^ 32 ->
  exists l t', iterateAll (base.size m) (ht_run ops t).2 = (Ok l, t') /\ NoDup l /\
    forall a, a ∈ l <-> m !! getKey a = Some a.
Proof.
  intros Hp Hmk Hok Hhm m Hm. destruct (ht_init _ _ _ _ _ Hp Hmk) as (Hr & <- & Hcfg & Hn & _).
  destruct (sim_run ops t _ ∅ Hr Hok) as (t' & bs' & m' & -> & Ha & Hr' & Hc & Hb & _).
  unfold m in *. clear m. rewrite Ha in *. cbn [fst snd] in *.
  assert (Hlen : getNumBuckets (config_ t') = Z.of_nat (length bs')).
  { rewrite Hc, Hcfg, (sh_num _ _ _ _ (hr_shape _ _ _ Hr')). injection Hb as -> _.
    rewrite <- (sh_num _ _ _ _ (hr_shape _ _ _ Hr)), length_replicate, Hn. lia. }
  destruct (iterateAll_ok t' bs' m' Hhm Hr' Hlen Hm) as (l & t'' & Hrun & Hnd & Hin & _). eauto.
Qed.

End ChainedHashTable.

(** ** Witnesses *)

(** Nodes whose key is their address divided by ten, two buckets, and at most
    two references to a node. *)
Definition demo_key (a : positive) : Z := Zpos a / 10.
Definition demo_incRef (a : positive) (r : gmap positive Z) : res unit * gmap positive Z :=
  let n := default 0 (r !! a) in
  if n =? 2 then (Throw RefcountOverflow, r) else (Ok tt, <[a := n + 1]> r).
Definition demo_hm : option positive -> gmap positive Z -> res (option positive) * gmap positive Z :=
  kDefaultHandleMaker demo_incRef.
Definition demo_cfg : Config := mkConfig 1 1 4096 2.
Definition demo_table : ChainedHashTable.Container positive Z (gmap positive Z) :=
  match makeContainer demo_cfg true ∅ ∅ ∅ with
  | Ok t => t
  | Throw _ => mkContainer demo_cfg (mkImpl 0 0 [] true) 0 0 ∅ ∅ ∅
  end.
Definition demo_ops : list ht_op :=
  [HInsert 11%positive; HInsert 12%positive; HInsertOrReplace 13%positive; HInsert 31%positive; HFind 1; HFind 1;
   HInsertOrReplace 14%positive; HRemove 31%positive; HFind 3].

Lemma ht_refines_map_witness :
  (ht_run demo_key u32 demo_hm demo_ops demo_table).1 =
  [Ok (inl true); Ok (inl false); Ok (inr (Some 11%positive)); Ok (inl true); Ok (inr (Some 13%positive));
   Ok (inr (Some 13%positive)); Throw RefcountOverflow; Ok (inl true); Ok (inr None)].
Proof.
  assert (Hk : forall k, is_u32 (u32 k)) by apply u32_range.
  assert (Hm : forall r, demo_hm None r = (Ok None, r)) by reflexivity.
  pose proof (ht_refines_map demo_key u32 Hk demo_hm Hm demo_cfg true ∅ ∅ demo_table demo_ops) as H.
  specialize (H ltac:(by vm_compute) ltac:(by vm_compute)).
  assert (Hok : ops_ok demo_key demo_hm demo_ops (∅, ∅)) by (repeat split; by vm_compute).
  specialize (H Hok). destruct (ht_run demo_key u32 demo_hm demo_ops demo_table) as [rs t'].
  destruct (abs_run demo_key demo_hm demo_ops (∅, ∅)) as [rs' [m r']] eqn:Ha.
  destruct H as [-> _]. apply (f_equal fst) in Ha. cbn [fst] in Ha |- *. rewrite <- Ha. by vm_compute.
Defined.

Lemma ht_iterates_witness :
  exists l t', iterateAll (fun (n : option positive) (r : unit) => (Ok n, r)) (fun _ r => r) 2
    (ht_run demo_key u32 (fun n r => (Ok n, r)) [HInsert 11; HInsert 31]%positive
       (mkContainer demo_cfg (mkImpl 2 1 [0; 0] true) 0 0 ∅ ∅ tt)).2 = (Ok l, t') /\ NoDup l /\ 31%positive ∈ l.
Proof.
  assert (Hk : forall k, is_u32 (u32 k)) by apply u32_range.
  destruct (ht_iterates demo_key u32 Hk (fun (n : option positive) (r : unit) => (Ok n, r)) ltac:(done) (fun _ r => r)
    demo_cfg true ∅ tt (mkContainer demo_cfg (mkImpl 2 1 [0; 0] true) 0 0 ∅ ∅ tt) [HInsert 11; HInsert 31]%positive)
    as (l & t' & Hrun & Hnd & Hin).
  - by vm_compute.
  - by vm_compute.
  - by vm_compute.
  - intros a r. by exists r.
  - by vm_compute.
  - exists l, t'. split; [exact Hrun|]. split; [exact Hnd|]. apply Hin. by vm_compute.
Defined.
