(* ===== verification/Bytes.v ===== *)
(** * Byte buffers

    A buffer is a list of 8-bit integers. [load], [store] and [memmove] are
    the accesses the C++ code makes through a pointer into a buffer, with the
    byte offset from the start of the buffer in place of the pointer; an
    access outside the buffer is undefined behaviour. Multi-byte fields are
    little-endian, as on the machines the flash format is written on.

    Also here: the bit helpers of [src/cachelib/common/Utils.h] and the
    word-at-a-time comparison of [src/cachelib/common/BytesEqual.h]. *)

From S2P Require Import Prelude.
From stdpp Require Import base tactics numbers list list_numbers.

#[local] Open Scope Z_scope.
#[local] Open Scope cachelib_scope.

Notation bytes := (list Z).

Definition zlen {A} (l : list A) : Z := Z.of_nat (length l).

(** Every element is a byte. *)
Definition is_bytes (l : bytes) : Prop := Forall is_u8 l.

(** ** Accesses *)

Definition in_bounds (d : bytes) (off n : Z) : bool :=
  (0 <=? off) && (0 <=? n) && (off + n <=? zlen d).

Definition peek (d : bytes) (off n : Z) : bytes :=
  take (Z.to_nat n) (drop (Z.to_nat off) d).

Definition poke (d : bytes) (off : Z) (b : bytes) : bytes :=
  take (Z.to_nat off) d ++ b ++ drop (Z.to_nat (off + zlen b)) d.

Definition load (d : bytes) (off n : Z) : res bytes :=
  if in_bounds d off n then Ok (peek d off n) else Throw UndefinedBehavior.

Definition store (d : bytes) (off : Z) (b : bytes) : res bytes :=
  if in_bounds d off (zlen b) then Ok (poke d off b) else Throw UndefinedBehavior.

Definition rbind {A B} (r : res A) (k : A -> res B) : res B :=
  match r with Ok a => k a | Throw e => Throw e end.

Notation "'let?' x := m 'in' k" := (rbind m (fun x => k))
  (at level 10, x name, m at level 100, k at level 200)
  : cachelib_scope.

(** [std::memmove(data + dst, data + src, n)] inside one buffer. *)
Definition memmove (d : bytes) (dst src n : Z) : res bytes :=
  let? b := load d src n in store d dst b.

(** A fallible access lifted into the state monad. *)
Definition lift {S A} (r : res A) : M S A := fun s => (r, s).

(** ** Little-endian integers *)

Definition le32 (x : Z) : bytes := Z_to_little_endian 4 8 x.
Definition le64 (x : Z) : bytes := Z_to_little_endian 8 8 x.
#[global] Arguments le32 : simpl never.
#[global] Arguments le64 : simpl never.
Definition le_to_Z (b : bytes) : Z := little_endian_to_Z 8 b.

Definition load32 (d : bytes) (off : Z) : res Z :=
  let? b := load d off 4 in Ok (le_to_Z b).
Definition load64 (d : bytes) (off : Z) : res Z :=
  let? b := load d off 8 in Ok (le_to_Z b).
Definition store32 (d : bytes) (off x : Z) : res bytes := store d off (le32 x).

(** ** Bits of a byte array ([Utils.h]) *)

Definition byteIndex (bitIdx : Z) : Z := Z.shiftr bitIdx 3.
Definition bitMask (bitIdx : Z) : Z := u8 (Z.shiftl 1 (Z.land bitIdx 7)).

(** [ptr[byteIndex(bitIdx)] |= bitMask(bitIdx)]; [ptr] is at [base] in [d]. *)
Definition bitSet (d : bytes) (base bitIdx : Z) : res bytes :=
  let? b := load d (base + byteIndex bitIdx) 1 in
  store d (base + byteIndex bitIdx) ((fun x => Z.lor x (bitMask bitIdx)) <$> b).

Definition bitGet (d : bytes) (base bitIdx : Z) : res bool :=
  let? b := load d (base + byteIndex bitIdx) 1 in
  Ok (mask_test (le_to_Z b) (bitMask bitIdx)).

(** ** [bytesEqual] ([BytesEqual.h])

    [a] and [b] are the bytes from the two pointers on; advancing a pointer
    drops bytes. *)

(** [eq<T>] for an unsigned [T] of [n] bytes: both are copied into an integer. *)
Definition eq_word (n : nat) (a b : bytes) : bool :=
  le_to_Z (take n a) =? le_to_Z (take n b).

Definition memcmp_eq (a b : bytes) (len : nat) : bool :=
  bool_decide (take len a = take len b).

(** [while (len >= 8 && eq<uint64_t>(a, b))]: the first fuel argument bounds
    the number of iterations, [len / 8] suffice. *)
Fixpoint eq_loop8 (fuel : nat) (a b : bytes) (len : nat) : bytes * bytes * nat :=
  match fuel with
  | O => (a, b, len)
  | S fuel =>
      if (8 <=? len)%nat && eq_word 8 a b
      then eq_loop8 fuel (drop 8 a) (drop 8 b) (len - 8)
      else (a, b, len)
  end.

(** [if (len >= n && eq<T>(a, b)) { a += n; b += n; len -= n; }] *)
Definition eq_step (n : nat) (s : bytes * bytes * nat) : bytes * bytes * nat :=
  let '(a, b, len) := s in
  if (n <=? len)%nat && eq_word n a b then (drop n a, drop n b, (len - n)%nat) else s.

Definition bytesEqual (a b : bytes) (len : nat) : bool :=
  if (1024 <=? len)%nat then memcmp_eq a b len else
  let s := eq_loop8 (len / 8) a b len in
  if (8 <=? snd s)%nat then false else
  let s := eq_step 4 s in
  if (4 <=? snd s)%nat then false else
  let '(a, b, len) := eq_step 2 s in
  ((len =? 1)%nat && eq_word 1 a b) || (len =? 0)%nat.

(** ** Lemmas *)

Lemma zlen_app {A} (l k : list A) : zlen (l ++ k) = zlen l + zlen k.
Proof. unfold zlen. rewrite length_app. lia. Qed.

Lemma zlen_cons {A} (x : A) (l : list A) : zlen (x :: l) = 1 + zlen l.
Proof. unfold zlen. simpl. lia. Qed.

Lemma zlen_nil {A} : zlen (@nil A) = 0.
Proof. done. Qed.

Lemma zlen_nonneg {A} (l : list A) : 0 <= zlen l.
Proof. unfold zlen. lia. Qed.

Lemma zlen_le32 (x : Z) : zlen (le32 x) = 4.
Proof. apply length_Z_to_little_endian. lia. Qed.

Lemma zlen_le64 (x : Z) : zlen (le64 x) = 8.
Proof. apply length_Z_to_little_endian. lia. Qed.

Lemma zlen_replicate {A} (n : nat) (x : A) : zlen (replicate n x) = Z.of_nat n.
Proof. unfold zlen. by rewrite length_replicate. Qed.

Create Rewrite HintDb zlen.
#[export] Hint Rewrite @zlen_app @zlen_cons @zlen_nil zlen_le32 zlen_le64
  @zlen_replicate : zlen.

(** [zl]: linear arithmetic over lengths. *)
Ltac zlen_pos :=
  repeat match goal with
  | |- context [zlen ?l] =>
      lazymatch goal with
      | _ : 0 <= zlen l |- _ => fail
      | _ => pose proof (zlen_nonneg l)
      end
  | _ : context [zlen ?l] |- _ =>
      lazymatch goal with
      | _ : 0 <= zlen l |- _ => fail
      | _ => pose proof (zlen_nonneg l)
      end
  end.
Ltac zl := autorewrite with zlen in *; zlen_pos; lia.

Lemma le_to_Z_le32 (x : Z) : is_u32 x -> le_to_Z (le32 x) = x.
Proof.
  intros H. unfold le_to_Z, le32.
  rewrite little_endian_to_Z_to_little_endian by lia. by apply Z.mod_small.
Qed.

Lemma le_to_Z_le64 (x : Z) : is_u64 x -> le_to_Z (le64 x) = x.
Proof.
  intros H. unfold le_to_Z, le64.
  rewrite little_endian_to_Z_to_little_endian by lia. by apply Z.mod_small.
Qed.

Lemma le32_bytes (x : Z) : is_bytes (le32 x).
Proof. apply Z_to_little_endian_bound; lia. Qed.

Lemma le64_bytes (x : Z) : is_bytes (le64 x).
Proof. apply Z_to_little_endian_bound; lia. Qed.

Lemma le32_le_to_Z (b : bytes) : is_bytes b -> zlen b = 4 -> le32 (le_to_Z b) = b.
Proof. intros Hb Hl. apply Z_to_little_endian_to_Z; [unfold zlen in Hl; lia|lia|done]. Qed.

Lemma le64_le_to_Z (b : bytes) : is_bytes b -> zlen b = 8 -> le64 (le_to_Z b) = b.
Proof. intros Hb Hl. apply Z_to_little_endian_to_Z; [unfold zlen in Hl; lia|lia|done]. Qed.

Lemma le_to_Z_inj (a b : bytes) :
  is_bytes a -> is_bytes b -> length a = length b -> le_to_Z a = le_to_Z b -> a = b.
Proof.
  intros Ha Hb Hl H.
  rewrite <- (Z_to_little_endian_to_Z (zlen a) 8 a), <- (Z_to_little_endian_to_Z (zlen a) 8 b);
    unfold zlen; try done; try lia.
  by f_equal.
Qed.

Lemma le_to_Z_u32 (b : bytes) : is_bytes b -> zlen b = 4 -> is_u32 (le_to_Z b).
Proof.
  intros Hb Hl. pose proof (little_endian_to_Z_bound 8 b ltac:(lia) Hb) as H.
  unfold zlen in Hl. by rewrite Hl in H.
Qed.

Lemma le_to_Z_u64 (b : bytes) : is_bytes b -> zlen b = 8 -> is_u64 (le_to_Z b).
Proof.
  intros Hb Hl. pose proof (little_endian_to_Z_bound 8 b ltac:(lia) Hb) as H.
  unfold zlen in Hl. by rewrite Hl in H.
Qed.

(** Accesses described by a split of the buffer. *)

Lemma in_bounds_true (d : bytes) (off n : Z) :
  in_bounds d off n = true <-> 0 <= off /\ 0 <= n /\ off + n <= zlen d.
Proof. unfold in_bounds. rewrite !andb_true_iff, !Z.leb_le. lia. Qed.

Lemma peek_app (a b c : bytes) (off n : Z) :
  off = zlen a -> n = zlen b -> peek (a ++ b ++ c) off n = b.
Proof.
  intros -> ->. unfold peek, zlen. rewrite !Nat2Z.id, drop_app_length. apply take_app_length.
Qed.

Lemma load_app (a b c : bytes) (off n : Z) :
  off = zlen a -> n = zlen b -> load (a ++ b ++ c) off n = Ok b.
Proof.
  intros -> ->. unfold load. rewrite (proj2 (in_bounds_true _ _ _)) by zl.
  f_equal. by apply peek_app.
Qed.

Lemma load_app0 (b c : bytes) (n : Z) : n = zlen b -> load (b ++ c) 0 n = Ok b.
Proof. intros ->. by apply (load_app []). Qed.

Lemma load_app_end (a b : bytes) (off n : Z) :
  off = zlen a -> n = zlen b -> load (a ++ b) off n = Ok b.
Proof. intros -> ->. rewrite <- (app_nil_r b) at 1. by apply load_app. Qed.

Lemma load_whole (b : bytes) : load b 0 (zlen b) = Ok b.
Proof. rewrite <- (app_nil_r b) at 1. by apply (load_app []). Qed.

Lemma poke_app (a b b' c : bytes) (off : Z) :
  off = zlen a -> zlen b' = zlen b -> poke (a ++ b ++ c) off b' = a ++ b' ++ c.
Proof.
  intros -> Hb. unfold poke. rewrite Hb. unfold zlen in *.
  rewrite Nat2Z.id, take_app_length. f_equal. f_equal.
  rewrite (app_assoc a b c), <- Nat2Z.inj_add, Nat2Z.id, <- length_app.
  apply drop_app_length.
Qed.

Lemma store_app (a b b' c : bytes) (off : Z) :
  off = zlen a -> zlen b' = zlen b -> store (a ++ b ++ c) off b' = Ok (a ++ b' ++ c).
Proof.
  intros -> Hb. unfold store. rewrite (proj2 (in_bounds_true _ _ _)) by zl.
  f_equal. by apply poke_app.
Qed.

Lemma zlen_peek (d : bytes) (off n : Z) :
  0 <= off -> 0 <= n -> off + n <= zlen d -> zlen (peek d off n) = n.
Proof. intros. unfold peek, zlen in *. rewrite length_take, length_drop. lia. Qed.

(** Every in-range access has such a split. *)
Lemma bytes_split (d : bytes) (off n : Z) :
  0 <= off -> 0 <= n -> off + n <= zlen d ->
  exists a b c, d = a ++ b ++ c /\ off = zlen a /\ n = zlen b.
Proof.
  intros Ho Hn H. exists (take (Z.to_nat off) d), (peek d off n),
    (drop (Z.to_nat n) (drop (Z.to_nat off) d)).
  unfold peek. rewrite take_drop, take_drop. unfold zlen in *.
  rewrite !length_take, length_drop. split_and!; [done|lia|lia].
Qed.

Lemma store_total (d : bytes) (off : Z) (b : bytes) :
  0 <= off -> off + zlen b <= zlen d -> exists d', store d off b = Ok d' /\ zlen d' = zlen d.
Proof.
  intros Ho H. destruct (bytes_split d off (zlen b)) as (x & y & z & -> & -> & Hy); [zl..|].
  exists (x ++ b ++ z). split; [|zl]. apply store_app; [done|lia].
Qed.

Lemma store_zlen (d d' : bytes) (off : Z) (b : bytes) :
  store d off b = Ok d' -> zlen d' = zlen d.
Proof.
  unfold store. destruct (in_bounds _ _ _) eqn:E; [|done]. intros [= <-].
  apply in_bounds_true in E as (H1 & H2 & H3).
  destruct (bytes_split d off (zlen b)) as (x & y & z & -> & -> & Hy); [zl..|].
  rewrite (poke_app x y) by zl. zl.
Qed.

Lemma is_bytes_app (a b : bytes) : is_bytes (a ++ b) <-> is_bytes a /\ is_bytes b.
Proof. apply Forall_app. Qed.

(** Copying within a buffer: the destination range ends before the source
    range does, as in a compaction towards the front. *)
Lemma memmove_front (a gap b c : bytes) (dst src n : Z) :
  dst = zlen a -> src = zlen a + zlen gap -> n = zlen b ->
  exists junk, memmove (a ++ gap ++ b ++ c) dst src n = Ok (a ++ b ++ junk ++ c) /\
               zlen junk = zlen gap.
Proof.
  intros -> -> ->. unfold memmove.
  rewrite (app_assoc a gap), (load_app (a ++ gap) b c) by zl. simpl.
  rewrite <- (app_assoc a gap).
  exists (drop (length b) (gap ++ b)).
  assert (Hs : gap ++ b ++ c = take (length b) (gap ++ b) ++ drop (length b) (gap ++ b) ++ c).
  { by rewrite (app_assoc gap), (app_assoc (take _ _)), take_drop. }
  rewrite Hs, (store_app a (take (length b) (gap ++ b))).
  - split; [done|]. unfold zlen. rewrite length_drop, length_app. lia.
  - done.
  - unfold zlen. rewrite length_take, length_app. lia.
Qed.

(** ** Bits: the [k]-th bit of a buffer *)

Definition bit_at (d : bytes) (k : Z) : bool :=
  Z.testbit (default 0 (d !! Z.to_nat (k / 8))) (k mod 8).

Lemma byteIndex_eq (i : Z) : byteIndex i = i / 8.
Proof. unfold byteIndex. by rewrite Z.shiftr_div_pow2 by lia. Qed.

Lemma bitMask_eq (i : Z) : bitMask i = 2 ^ (i mod 8).
Proof.
  unfold bitMask, u8. change 7 with (Z.ones 3).
  rewrite Z.land_ones, Z.shiftl_1_l by lia. change (2 ^ 3) with 8.
  pose proof (Z.mod_pos_bound i 8 ltac:(lia)) as Hi.
  apply Z.mod_small. split; [apply Z.pow_nonneg; lia|]. apply Z.pow_lt_mono_r; lia.
Qed.

Lemma lookup_split (a c : bytes) (b : Z) : (a ++ b :: c) !! length a = Some b.
Proof. by rewrite lookup_app_r, Nat.sub_diag by lia. Qed.

Lemma byte_split (d : bytes) (off : Z) :
  0 <= off < zlen d -> exists a b c, d = a ++ [b] ++ c /\ off = zlen a.
Proof.
  intros H. destruct (bytes_split d off 1) as (a & b & c & -> & -> & Hb); [lia..|].
  destruct b as [|b [|]]; [done| |unfold zlen in Hb; simpl in Hb; lia]. by exists a, b, c.
Qed.

Lemma bit_div (base i : Z) : (8 * base + i) / 8 = base + i / 8.
Proof. rewrite Z.add_comm, Z.mul_comm, Z.div_add by lia. lia. Qed.

Lemma bit_mod (base i : Z) : (8 * base + i) mod 8 = i mod 8.
Proof. rewrite Z.add_comm, Z.mul_comm. apply Z.mod_add. lia. Qed.

Lemma bitGet_spec (d : bytes) (base i : Z) :
  0 <= base -> 0 <= i -> base + i / 8 < zlen d ->
  bitGet d base i = Ok (bit_at d (8 * base + i)).
Proof.
  intros Hb Hi H. unfold bitGet, bit_at. rewrite byteIndex_eq, bitMask_eq, bit_div, bit_mod.
  assert (0 <= i / 8) by (apply Z.div_pos; lia).
  destruct (byte_split d (base + i / 8)) as (x & y & z & -> & ->); [lia|].
  rewrite load_app by done. simpl. unfold zlen. rewrite Nat2Z.id. simpl. rewrite lookup_split. simpl.
  unfold le_to_Z. simpl. rewrite Z.shiftl_0_l, Z.lor_0_r, <- Z.shiftl_1_l. f_equal.
  apply mask_test_bit. apply Z.mod_pos_bound. lia.
Qed.

Lemma lor_u8_bit (y j : Z) : is_u8 y -> 0 <= j < 8 -> is_u8 (Z.lor y (2 ^ j)).
Proof.
  intros Hy Hj. unfold is_u8.
  replace (Z.lor y (2 ^ j)) with (Z.lor y (2 ^ j) mod 2 ^ 8); [apply Z.mod_pos_bound; lia|].
  apply Z.bits_inj'. intros i Hi. rewrite testbit_mod_pow2 by lia.
  destruct (Z.ltb_spec i 8); [done|]. rewrite Z.lor_spec, (testbit_above y 8 i) by (done || lia).
  rewrite Z.pow2_bits_eqb by lia. destruct (Z.eqb_spec j i); [lia|done].
Qed.

Lemma bitSet_spec (d : bytes) (base i : Z) :
  0 <= base -> 0 <= i -> base + i / 8 < zlen d ->
  exists d', bitSet d base i = Ok d' /\ zlen d' = zlen d /\
  (is_bytes d -> is_bytes d') /\
  forall k, 0 <= k -> bit_at d' k = bit_at d k || (k =? 8 * base + i).
Proof.
  intros Hb Hi H. unfold bitSet. rewrite byteIndex_eq, bitMask_eq.
  assert (Hi8 : 0 <= i / 8) by (apply Z.div_pos; lia).
  pose proof (Z.mod_pos_bound i 8 ltac:(lia)) as Hm.
  destruct (byte_split d (base + i / 8)) as (x & y & z & -> & Ho); [lia|].
  rewrite load_app by done. cbn [rbind fmap list_fmap]. rewrite (store_app x [y]) by done.
  eexists. split_and!; [done|zl| |].
  - rewrite !is_bytes_app. intros (? & Hy & ?). split_and!; [done| |done].
    apply Forall_singleton, lor_u8_bit; [|done]. by apply Forall_inv in Hy.
  - intros k Hk. unfold bit_at.
    destruct (decide (k / 8 = base + i / 8)) as [He|He].
    + rewrite He, Ho. unfold zlen. rewrite Nat2Z.id. simpl. rewrite !lookup_split. simpl.
      rewrite Z.lor_spec, Z.pow2_bits_eqb by lia. f_equal.
      apply Bool.eq_iff_eq_true. rewrite !Z.eqb_eq.
      pose proof (Z.div_mod k 8 ltac:(lia)). pose proof (Z.div_mod i 8 ltac:(lia)). lia.
    + assert (k =? 8 * base + i = false) as ->.
      { apply Z.eqb_neq. intros ->. by rewrite bit_div in He. }
      rewrite orb_false_r. f_equal. f_equal.
      assert (Hn : Z.to_nat (k / 8) <> length x).
      { intros Hx. apply He. unfold zlen in Ho.
        assert (0 <= k / 8) by (apply Z.div_pos; lia). lia. }
      destruct (decide (Z.to_nat (k / 8) < length x)%nat) as [Hl|Hl].
      * by rewrite !(lookup_app_l x) by done.
      * rewrite !(lookup_app_r x) by lia.
        destruct (Z.to_nat (k / 8) - length x)%nat eqn:E; [lia|]. done.
Qed.

Lemma bit_at_zero (n : nat) (k : Z) : bit_at (replicate n 0) k = false.
Proof.
  unfold bit_at. destruct (replicate n 0 !! Z.to_nat (k / 8)) eqn:E; simpl; [|apply Z.bits_0].
  apply lookup_replicate in E as [-> _]. apply Z.bits_0.
Qed.

Lemma bit_at_app_l (a b : bytes) (k : Z) :
  0 <= k < 8 * zlen a -> bit_at (a ++ b) k = bit_at a k.
Proof.
  intros Hk. unfold bit_at. rewrite lookup_app_l; [done|].
  assert (k / 8 < zlen a) by (apply Z.div_lt_upper_bound; lia).
  unfold zlen in *. pose proof (Z.div_pos k 8). lia.
Qed.

Lemma bit_at_app_r (a b : bytes) (k : Z) :
  8 * zlen a <= k -> bit_at (a ++ b) k = bit_at b (k - 8 * zlen a).
Proof.
  intros Hk. unfold bit_at.
  replace (k - 8 * zlen a) with (k + (- zlen a) * 8) by lia.
  rewrite Z.div_add, Z.mod_add by lia. f_equal. f_equal.
  assert (zlen a <= k / 8) by (apply Z.div_le_lower_bound; lia).
  unfold zlen in *. rewrite lookup_app_r by lia. f_equal. lia.
Qed.

(** Zeroing the bytes [y] of [x ++ y ++ z]. *)
Lemma bit_at_zeroed (x y z : bytes) (k : Z) :
  0 <= k ->
  bit_at (x ++ replicate (length y) 0 ++ z) k =
  bit_at (x ++ y ++ z) k &&
  negb ((8 * zlen x <=? k) && (k <? 8 * (zlen x + zlen y))).
Proof.
  intros Hk. destruct (Z.leb_spec (8 * zlen x) k); simpl.
  2: { by rewrite !(bit_at_app_l x) by lia; rewrite andb_true_r. }
  rewrite !(bit_at_app_r x) by done.
  destruct (Z.ltb_spec k (8 * (zlen x + zlen y))); simpl.
  - rewrite andb_false_r, bit_at_app_l by (unfold zlen in *; rewrite length_replicate; lia).
    apply bit_at_zero.
  - rewrite andb_true_r. rewrite !bit_at_app_r by (unfold zlen in *; rewrite ?length_replicate; lia).
    unfold zlen. by rewrite length_replicate.
Qed.

Lemma is_bytes_zeros (n : nat) : is_bytes (replicate n 0).
Proof. apply Forall_replicate. unfold is_u8. lia. Qed.

(** ** [bytesEqual] decides equality *)

Lemma eq_word_spec (n : nat) (a b : bytes) :
  is_bytes a -> is_bytes b -> (n <= length a)%nat -> (n <= length b)%nat ->
  eq_word n a b = bool_decide (take n a = take n b).
Proof.
  intros Ha Hb Hla Hlb. unfold eq_word. apply Bool.eq_iff_eq_true.
  rewrite Z.eqb_eq, bool_decide_eq_true. split; [|by intros ->].
  apply le_to_Z_inj; [by apply Forall_take..|]. rewrite !length_take. lia.
Qed.

(** What the comparison steps keep: the answer for the bytes that are left. *)
Definition same_prefix (s : bytes * bytes * nat) : bool :=
  let '(a, b, len) := s in bool_decide (take len a = take len b).

Definition prefix_ok (s : bytes * bytes * nat) : Prop :=
  let '(a, b, len) := s in
  is_bytes a /\ is_bytes b /\ (len <= length a)%nat /\ (len <= length b)%nat.

Lemma take_split_eq (n len : nat) (a b : bytes) :
  (n <= len)%nat ->
  bool_decide (take len a = take len b) =
  bool_decide (take n a = take n b) &&
  bool_decide (take (len - n) (drop n a) = take (len - n) (drop n b)).
Proof.
  intros Hn. apply Bool.eq_iff_eq_true. rewrite andb_true_iff, !bool_decide_eq_true.
  assert (Hs : forall l : bytes, take len l = take n l ++ take (len - n) (drop n l)).
  { intros l. rewrite take_drop_commute. replace (n + (len - n))%nat with len by lia.
    rewrite <- (take_drop n (take len l)) at 1. rewrite take_take. f_equal. f_equal. lia. }
  split.
  - intros H. split.
    + apply (f_equal (take n)) in H. rewrite !take_take in H.
      by replace (n `min` len)%nat with n in H by lia.
    + apply (f_equal (drop n)) in H. rewrite <- !skipn_firstn_comm. done.
  - intros [H1 H2]. by rewrite !Hs, H1, H2.
Qed.

Lemma eq_loop8_spec (fuel : nat) (a b : bytes) (len : nat) :
  prefix_ok (a, b, len) -> (len < 8 * fuel + 8)%nat ->
  let s := eq_loop8 fuel a b len in
  prefix_ok s /\ same_prefix s = same_prefix (a, b, len) /\
  ((8 <= snd s)%nat -> same_prefix s = false).
Proof.
  revert a b len. induction fuel as [|fuel IH]; intros a b len (Ha & Hb & Hla & Hlb) Hf; cbn [eq_loop8].
  - split; [done|split; [done|simpl; lia]].
  - destruct (Nat.leb_spec 8 len) as [H8|H8]; cbn [andb]; [|split; [done|split; [done|simpl; lia]]].
    rewrite eq_word_spec by (done || lia).
    case_bool_decide as He.
    + destruct (IH (drop 8 a) (drop 8 b) (len - 8)%nat) as (I1 & I2 & I3).
      { unfold is_bytes. split_and!; [by apply Forall_drop..| |]; rewrite length_drop; lia. }
      { lia. }
      split; [done|split; [|done]]. rewrite I2. simpl.
      rewrite (take_split_eq 8 len) by lia. by rewrite (bool_decide_eq_true_2 _ He).
    + split; [done|split; [done|]]. intros _. simpl.
      rewrite (take_split_eq 8 len) by lia. by rewrite (bool_decide_eq_false_2 _ He).
Qed.

Lemma eq_step_spec (n : nat) (s : bytes * bytes * nat) :
  prefix_ok s -> (snd s < 2 * n)%nat ->
  prefix_ok (eq_step n s) /\ same_prefix (eq_step n s) = same_prefix s /\
  ((n <= snd (eq_step n s))%nat -> same_prefix s = false).
Proof.
  destruct s as [[a b] len]. intros (Ha & Hb & Hla & Hlb) Hf. simpl in Hf. cbn [eq_step].
  destruct (Nat.leb_spec n len) as [H8|H8]; cbn [andb]; [|split; [done|split; [done|simpl; lia]]].
  rewrite eq_word_spec by (done || lia).
  case_bool_decide as He; simpl.
  - split; [|split; [|lia]].
    + unfold is_bytes. split_and!; [by apply Forall_drop..| |]; rewrite length_drop; lia.
    + rewrite (take_split_eq n len) by lia. by rewrite (bool_decide_eq_true_2 _ He).
  - split; [done|split; [done|]]. intros _.
    rewrite (take_split_eq n len) by lia. by rewrite (bool_decide_eq_false_2 _ He).
Qed.

Lemma bytesEqual_eq (a b : bytes) (len : nat) :
  is_bytes a -> is_bytes b -> (len <= length a)%nat -> (len <= length b)%nat ->
  bytesEqual a b len = bool_decide (take len a = take len b).
Proof.
  intros Ha Hb Hla Hlb. unfold bytesEqual. case_match; [done|].
  destruct (eq_loop8_spec (len / 8) a b len) as (P1 & E1 & F1); [done| |].
  { pose proof (Nat.div_mod_eq len 8). pose proof (Nat.mod_upper_bound len 8). lia. }
  change (bool_decide _) with (same_prefix (a, b, len)). rewrite <- E1.
  set (s1 := eq_loop8 (len / 8) a b len) in *. clearbody s1.
  destruct (Nat.leb_spec 8 (snd s1)) as [H8|H8]; [by rewrite F1|].
  destruct (eq_step_spec 4 s1) as (P2 & E2 & F2); [done|lia|].
  destruct (Nat.leb_spec 4 (snd (eq_step 4 s1))) as [H4|H4]; [by rewrite F2|].
  rewrite <- E2. destruct (eq_step_spec 2 (eq_step 4 s1)) as (P3 & E3 & F3); [done|lia|].
  rewrite <- E3. destruct (eq_step 2 (eq_step 4 s1)) as [[a' b'] l'] eqn:Es.
  destruct P3 as (Ha' & Hb' & Hl1 & Hl2). simpl in F3.
  destruct l' as [|[|l']]; cbn [Nat.eqb andb].
  - by rewrite orb_true_r.
  - rewrite eq_word_spec by done. by rewrite orb_false_r.
  - by rewrite E3, F3 by lia.
Qed.

(** The word-at-a-time comparison is byte equality: on buffers of at
    least [len] bytes [bytesEqual] returns true exactly when the first [len]
    bytes are the same, for every length (the 1024-byte switch to [memcmp],
    the 8-byte loop and the 4-, 2- and 1-byte tails included). *)
Theorem bytesEqual_decides (a b : bytes) (len : nat) :
  is_bytes a -> is_bytes b -> (len <= length a)%nat -> (len <= length b)%nat ->
  bytesEqual a b len = bool_decide (take len a = take len b).
Proof. apply bytesEqual_eq. Qed.

Lemma bytesEqual_decides_witness :
  bytesEqual [1; 2; 3; 4; 5; 6; 7; 8; 9; 10; 11] [1; 2; 3; 4; 5; 6; 7; 8; 9; 10; 12] 11
  = bool_decide (take 11 [1; 2; 3; 4; 5; 6; 7; 8; 9; 10; 11]
                 = take 11 [1; 2; 3; 4; 5; 6; 7; 8; 9; 10; 12]).
Proof.
  apply (bytesEqual_decides [1; 2; 3; 4; 5; 6; 7; 8; 9; 10; 11]
                            [1; 2; 3; 4; 5; 6; 7; 8; 9; 10; 12] 11);
    [repeat (apply Forall_cons; split; [unfold is_u8; lia|]); by apply Forall_nil..|simpl; lia|simpl; lia].
Defined.
