(* ===== verification/BloomFilter.v ===== *)
(** * Bloom filters

    [src/cachelib/common/BloomFilter.{h,cpp}]: an array of [numFilters_] small
    filters, each of [numHashes * hashTableBitSize_] bits. The folly hash
    functions the filter mixes its keys with are parameters ([hashInt],
    [combineHashes]), as is the thrift encoding of the persisted
    configuration. A record writer is the list of the records written. *)

From S2P Require Import Prelude Bytes.
From stdpp Require Import base tactics numbers list.

#[local] Open Scope Z_scope.
#[local] Open Scope cachelib_scope.

(** Signed thrift integers and their conversions. *)
Definition s32 (x : Z) : Z := (x + 2 ^ 31) mod 2 ^ 32 - 2 ^ 31.
Definition s64 (x : Z) : Z := (x + 2 ^ 63) mod 2 ^ 64 - 2 ^ 63.

Record BloomFilter : Type := mkBloomFilter {
  numFilters_ : Z;
  hashTableBitSize_ : Z;
  filterByteSize_ : Z;
  seeds_ : list Z;
  bits_ : option bytes
}.

Record BloomFilterPersistentData : Type := mkBloomFilterPersistentData {
  bd_numFilters : Z;
  bd_hashTableBitSize : Z;
  bd_filterByteSize : Z;
  bd_fragmentSize : Z;
  bd_seeds : list Z
}.

Definition set_bits (b : bytes) (bf : BloomFilter) : BloomFilter :=
  mkBloomFilter (numFilters_ bf) (hashTableBitSize_ bf) (filterByteSize_ bf)
    (seeds_ bf) (Some b).

Definition set_seeds (s : list Z) (bf : BloomFilter) : BloomFilter :=
  mkBloomFilter (numFilters_ bf) (hashTableBitSize_ bf) (filterByteSize_ bf)
    s (bits_ bf).

(** [((bits + 7) & ~7) >> 3] on 64 bits. *)
Definition bitsToBytes (bits : Z) : Z :=
  Z.shiftr (Z.land (u64 (bits + 7)) (Z.lxor 7 (Z.ones 64))) 3.

Definition kPersistFragmentSize : Z := 1024 * 1024.

Definition numHashes (bf : BloomFilter) : Z := zlen (seeds_ bf).
Definition numBitsPerFilter (bf : BloomFilter) : Z := u64 (filterByteSize_ bf * 8).
Definition getByteSize (bf : BloomFilter) : Z := u64 (numFilters_ bf * filterByteSize_ bf).

(** The offset of [bits_.get() + idx * filterByteSize_] in [bits_]. *)
Definition getFilterBytes (bf : BloomFilter) (idx : Z) : Z := u64 (idx * filterByteSize_ bf).

(** [BloomFilter() = default]. *)
Definition emptyBloomFilter : BloomFilter := mkBloomFilter 0 0 0 [] None.

(** The state a move leaves behind, and the moved-to filter. *)
Definition moveFrom (other : BloomFilter) : BloomFilter * BloomFilter :=
  (other, mkBloomFilter (numFilters_ other) (hashTableBitSize_ other)
            (filterByteSize_ other) [] None).

(** [bits_] dereferenced: a null pointer is undefined behaviour. *)
Definition deref_bits (bf : BloomFilter) : res bytes :=
  match bits_ bf with Some b => Ok b | None => Throw UndefinedBehavior end.

Class FollyHash : Type := {
  hashInt : Z -> Z;
  combineHashes : Z -> Z -> Z
}.

(** The thrift serializer of the configuration record. *)
Class BloomProto : Type := {
  encodeBloom : BloomFilterPersistentData -> bytes;
  decodeBloom : bytes -> res BloomFilterPersistentData
}.

Class BloomProtoLaws `{BloomProto} : Prop := {
  decode_encodeBloom bd : decodeBloom (encodeBloom bd) = Ok bd
}.

Section Ops.
Context `{FollyHash}.

(** The constructor with parameters. *)
Definition makeFilters (numFilters numHashes hashTableBitSize : Z) : res BloomFilter :=
  if (numFilters =? 0) || (numHashes =? 0) || (hashTableBitSize =? 0)
  then Throw InvalidArgument
  else
    let fbs := bitsToBytes (u64 (numHashes * hashTableBitSize)) in
    Ok (mkBloomFilter numFilters hashTableBitSize fbs
          (hashInt <$> (Z.of_nat <$> seq 0 (Z.to_nat numHashes)))
          (Some (replicate (Z.to_nat (u64 (numFilters * fbs))) 0))).

Definition bitNum (bf : BloomFilter) (key seed : Z) : Z :=
  combineHashes key seed mod hashTableBitSize_ bf.

(** The loop of [set] over the seeds left, on the bits. *)
Fixpoint set_loop (bf : BloomFilter) (idx key : Z) (seeds : list Z) (firstBit : Z)
    (b : bytes) : res bytes :=
  match seeds with
  | [] => Ok b
  | seed :: seeds =>
      let? b := bitSet b (getFilterBytes bf idx) (u64 (firstBit + bitNum bf key seed)) in
      set_loop bf idx key seeds (u64 (firstBit + hashTableBitSize_ bf)) b
  end.

Definition set (idx key : Z) : M BloomFilter unit := fun bf =>
  match seeds_ bf with
  | [] => (Ok tt, bf)
  | _ => match (let? b := deref_bits bf in set_loop bf idx key (seeds_ bf) 0 b) with
         | Ok b => (Ok tt, set_bits b bf)
         | Throw e => (Throw e, bf)
         end
  end.

Fixpoint couldExist_loop (bf : BloomFilter) (idx key : Z) (seeds : list Z)
    (firstBit : Z) : res bool :=
  match seeds with
  | [] => Ok true
  | seed :: seeds =>
      let? b := deref_bits bf in
      let? t := bitGet b (getFilterBytes bf idx) (u64 (firstBit + bitNum bf key seed)) in
      if t then couldExist_loop bf idx key seeds (u64 (firstBit + hashTableBitSize_ bf))
      else Ok false
  end.

Definition couldExist (bf : BloomFilter) (idx key : Z) : res bool :=
  couldExist_loop bf idx key (seeds_ bf) 0.

Definition zeros (n : Z) : bytes := replicate (Z.to_nat n) 0.

Definition clear (idx : Z) : M BloomFilter unit := fun bf =>
  match bits_ bf with
  | None => (Ok tt, bf)
  | Some b => match store b (getFilterBytes bf idx) (zeros (filterByteSize_ bf)) with
              | Ok b => (Ok tt, set_bits b bf)
              | Throw e => (Throw e, bf)
              end
  end.

Definition reset : M BloomFilter unit := fun bf =>
  match bits_ bf with
  | None => (Ok tt, bf)
  | Some b => match store b 0 (zeros (getByteSize bf)) with
              | Ok b => (Ok tt, set_bits b bf)
              | Throw e => (Throw e, bf)
              end
  end.

(** ** Persistence *)

(** [while (off < size) { write min(size - off, fragmentSize) bytes; }] over
    the bytes [b] left: [fuel] iterations are enough for [fuel] bytes. *)
Fixpoint write_fragments (fuel : nat) (b : bytes) (fragmentSize : Z) : list bytes :=
  match fuel with
  | O => []
  | S fuel =>
      if decide (b = []) then []
      else let n := Z.to_nat (Z.min (zlen b) fragmentSize) in
           take n b :: write_fragments fuel (drop n b) fragmentSize
  end.

Definition serializeBits (bf : BloomFilter) (fragmentSize : Z) : res (list bytes) :=
  let bitsSize := getByteSize bf in
  let? b := (if bitsSize =? 0 then Ok [] else let? b := deref_bits bf in load b 0 bitsSize) in
  let initSize := bitsToBytes (numFilters_ bf) in
  Ok (write_fragments (Z.to_nat bitsSize) b fragmentSize ++
      write_fragments (Z.to_nat initSize) (zeros initSize) fragmentSize).

(** Records are consumed from the front of the reader; the bits copied before
    an error stay copied. *)
Fixpoint read_bits (off size : Z) (rr : list bytes) : M bytes (list bytes) :=
  if size <=? off then ret rr else
  match rr with
  | [] => throw InvalidArgument
  | r :: rr =>
      fun b => match store b off r with
               | Ok b => read_bits (off + zlen r) size rr b
               | Throw e => (Throw e, b)
               end
  end.

Fixpoint skip_init (off size : Z) (rr : list bytes) : res (list bytes) :=
  if size <=? off then Ok rr else
  match rr with
  | [] => Throw InvalidArgument
  | r :: rr => skip_init (off + zlen r) size rr
  end.

Definition deserializeBits (rr : list bytes) : M BloomFilter (list bytes) := fun bf =>
  let bitsSize := getByteSize bf in
  let initSize := bitsToBytes (numFilters_ bf) in
  if bitsSize =? 0 then (skip_init 0 initSize rr, bf) else
  match deref_bits bf with
  | Throw e => (Throw e, bf)
  | Ok b =>
      match read_bits 0 bitsSize rr b with
      | (Ok rr, b) => (skip_init 0 initSize rr, set_bits b bf)
      | (Throw e, b) => (Throw e, set_bits b bf)
      end
  end.

Context `{BloomProto}.

(** The records [persist] appends to the writer. *)
Definition persist (bf : BloomFilter) : res (list bytes) :=
  let bd := mkBloomFilterPersistentData (s32 (numFilters_ bf))
              (s64 (hashTableBitSize_ bf)) (s64 (filterByteSize_ bf))
              (s32 kPersistFragmentSize) (s64 <$> seeds_ bf) in
  let? rs := serializeBits bf kPersistFragmentSize in
  Ok (encodeBloom bd :: rs).

(** [seeds_[i] = bd.seeds()[i]] for every [i]; past the end of [seeds_] the
    write is out of bounds. *)
Definition copy_seeds (src dst : list Z) : res (list Z) :=
  if (length src <=? length dst)%nat
  then Ok ((u64 <$> src) ++ drop (length src) dst) else Throw UndefinedBehavior.

Definition recover (rr : list bytes) : M BloomFilter (list bytes) := fun bf =>
  match rr with
  | [] => (Throw LogicError, bf)
  | r :: rr =>
      match decodeBloom r with
      | Throw e => (Throw e, bf)
      | Ok bd =>
          if negb (numFilters_ bf =? u32 (bd_numFilters bd)) ||
             negb (hashTableBitSize_ bf =? u64 (bd_hashTableBitSize bd)) ||
             negb (filterByteSize_ bf =? u64 (bd_filterByteSize bd)) ||
             negb (u32 (bd_fragmentSize bd) =? kPersistFragmentSize)
          then (Throw InvalidArgument, bf)
          else match copy_seeds (bd_seeds bd) (seeds_ bf) with
               | Throw e => (Throw e, bf)
               | Ok s =>
                   deserializeBits rr (set_seeds s bf)
               end
      end
  end.
End Ops.
