(* ===== verification/BloomFilterSpec.v ===== *)
(** * Bloom filters: representation and theorems *)

From S2P Require Import Prelude Bytes BloomFilter.
From stdpp Require Import base tactics numbers list.

#[local] Open Scope Z_scope.

(** ** Bloom filters: the bits against the keys

    [bf_repr bf m] relates the bit array to the list [m idx] of the keys set
    in filter [idx] since it was last cleared: a bit of filter [idx] is set
    exactly when one of those keys hashes to it. *)

Lemma bitsToBytes_eq (n : Z) : 0 <= n -> n + 7 < 2 ^ 64 -> bitsToBytes n = (n + 7) / 8.
Proof.
  intros Hn H. unfold bitsToBytes. rewrite u64_small by (unfold is_u64; lia).
  rewrite Z.shiftr_div_pow2 by lia. apply Z.bits_inj'. intros i Hi.
  change (2 ^ 3) with 8. change 8 with (2 ^ 3).
  rewrite !testbit_div_pow2, Z.land_spec, Z.lxor_spec by lia.
  change 7 with (Z.ones 3) at 2. rewrite !testbit_ones by lia.
  destruct (Z.ltb_spec (i + 3) 3); [lia|]. simpl.
  destruct (Z.ltb_spec (i + 3) 64); simpl; [apply andb_true_r|].
  rewrite andb_false_r. symmetry. apply (testbit_above _ 64); lia.
Qed.

Lemma bitsToBytes_covers (n : Z) :
  0 <= n -> n + 7 < 2 ^ 64 -> 0 <= bitsToBytes n /\ n <= 8 * bitsToBytes n < n + 8.
Proof.
  intros Hn H. rewrite bitsToBytes_eq by done.
  pose proof (Z.div_mod (n + 7) 8 ltac:(lia)).
  pose proof (Z.mod_pos_bound (n + 7) 8 ltac:(lia)). lia.
Qed.

Section Proofs.
Context `{FollyHash}.

(** ** Well-formed filters *)

Record bf_wf (bf : BloomFilter) (b : bytes) : Prop := {
  wf_bits : bits_ bf = Some b;
  wf_bytes : is_bytes b;
  wf_num : 0 < numFilters_ bf;
  wf_table : 0 < hashTableBitSize_ bf;
  wf_seeds : seeds_ bf <> [];
  wf_fit : numHashes bf * hashTableBitSize_ bf <= 8 * filterByteSize_ bf;
  wf_fit64 : 8 * filterByteSize_ bf < 2 ^ 64;
  wf_size : numFilters_ bf * filterByteSize_ bf < 2 ^ 64;
  wf_len : zlen b = numFilters_ bf * filterByteSize_ bf
}.

(** The bits of a filter a key hashes to, one per seed. *)
Fixpoint positions_from (bf : BloomFilter) (key : Z) (seeds : list Z) (firstBit : Z)
    : list Z :=
  match seeds with
  | [] => []
  | seed :: seeds =>
      (firstBit + bitNum bf key seed)
      :: positions_from bf key seeds (firstBit + hashTableBitSize_ bf)
  end.

Definition positions (bf : BloomFilter) (key : Z) : list Z :=
  positions_from bf key (seeds_ bf) 0.

(** The first bit of filter [idx]. *)
Definition base_bit (bf : BloomFilter) (idx : Z) : Z := 8 * (idx * filterByteSize_ bf).

Lemma positions_from_range (bf : BloomFilter) (key : Z) (seeds : list Z) (firstBit p : Z) :
  0 < hashTableBitSize_ bf -> 0 <= firstBit ->
  p ∈ positions_from bf key seeds firstBit ->
  0 <= p < firstBit + zlen seeds * hashTableBitSize_ bf.
Proof.
  intros Ht. revert firstBit. induction seeds as [|s seeds IH]; intros fb Hf; simpl.
  - by intros Hp%elem_of_nil.
  - rewrite zlen_cons. pose proof (zlen_nonneg seeds).
    intros [->|Hp]%elem_of_cons.
    + pose proof (Z.mod_pos_bound (combineHashes key s) (hashTableBitSize_ bf) Ht).
      unfold bitNum. nia.
    + specialize (IH (fb + hashTableBitSize_ bf) ltac:(lia) Hp). nia.
Qed.

Lemma positions_range (bf : BloomFilter) (b : bytes) (key p : Z) :
  bf_wf bf b -> p ∈ positions bf key -> 0 <= p < 8 * filterByteSize_ bf.
Proof.
  intros W Hp. apply positions_from_range in Hp; [|apply (wf_table _ _ W)|lia].
  pose proof (wf_fit _ _ W). unfold numHashes in *. lia.
Qed.

Lemma filter_base (bf : BloomFilter) (b : bytes) (idx : Z) :
  bf_wf bf b -> 0 <= idx < numFilters_ bf ->
  getFilterBytes bf idx = idx * filterByteSize_ bf /\
  0 <= idx * filterByteSize_ bf /\
  idx * filterByteSize_ bf + filterByteSize_ bf <= zlen b.
Proof.
  intros [Wb Wy Wn Wt Ws Wf W6 Wz Wl] Hi.
  assert (0 <= filterByteSize_ bf) by (pose proof (zlen_nonneg (seeds_ bf)); unfold numHashes in *; nia).
  rewrite Wl. unfold getFilterBytes. rewrite u64_small; [nia|]. unfold is_u64. nia.
Qed.

(** ** [set] and [couldExist] *)

Lemma set_loop_spec (bf : BloomFilter) (idx key : Z) (seeds : list Z) (fb : Z) (b : bytes) :
  0 < hashTableBitSize_ bf -> 0 <= fb ->
  fb + zlen seeds * hashTableBitSize_ bf < 2 ^ 64 ->
  0 <= getFilterBytes bf idx ->
  8 * getFilterBytes bf idx + fb + zlen seeds * hashTableBitSize_ bf <= 8 * zlen b ->
  exists b', set_loop bf idx key seeds fb b = Ok b' /\ zlen b' = zlen b /\
    (is_bytes b -> is_bytes b') /\
    forall k, 0 <= k -> bit_at b' k =
      bit_at b k || bool_decide (k - 8 * getFilterBytes bf idx ∈ positions_from bf key seeds fb).
Proof.
  intros Ht. revert fb b. induction seeds as [|s seeds IH]; intros fb b Hf H64 Hg Hl; simpl.
  - exists b. split_and!; [done..|]. intros k Hk.
    by rewrite orb_false_r.
  - rewrite zlen_cons in *. pose proof (zlen_nonneg seeds).
    pose proof (Z.mod_pos_bound (combineHashes key s) (hashTableBitSize_ bf) Ht) as Hm.
    fold (bitNum bf key s) in Hm. set (n := bitNum bf key s) in *.
    assert (Hfb : fb + hashTableBitSize_ bf <= fb + (1 + zlen seeds) * hashTableBitSize_ bf) by nia.
    rewrite (u64_small (fb + n)) by (unfold is_u64; lia).
    destruct (bitSet_spec b (getFilterBytes bf idx) (fb + n)) as (b1 & -> & L1 & B1 & G1); [lia..| |].
    { assert ((fb + n) / 8 < zlen b - getFilterBytes bf idx); [|lia].
      apply Z.div_lt_upper_bound; lia. }
    simpl. destruct (decide (seeds = [])) as [->|Hne].
    + simpl. exists b1. split_and!; [done..|]. intros k Hk. rewrite G1 by done. f_equal.
      apply Bool.eq_iff_eq_true. rewrite Z.eqb_eq, bool_decide_eq_true, list_elem_of_singleton. lia.
    + assert (1 <= zlen seeds) by (destruct seeds; [done|rewrite zlen_cons; zl]).
      rewrite (u64_small (fb + hashTableBitSize_ bf)) by (unfold is_u64; nia).
      destruct (IH (fb + hashTableBitSize_ bf) b1) as (b2 & -> & L2 & B2 & G2); [lia|nia|lia|nia|].
      exists b2. split_and!; [done|lia|tauto|]. intros k Hk. rewrite G2, G1 by done.
      rewrite <- orb_assoc. f_equal. apply Bool.eq_iff_eq_true.
      rewrite orb_true_iff, Z.eqb_eq, !bool_decide_eq_true, elem_of_cons. split; intros [?|?]; auto; left; lia.
Qed.

Lemma couldExist_loop_spec (bf : BloomFilter) (idx key : Z) (seeds : list Z) (fb : Z) (b : bytes) :
  bits_ bf = Some b -> 0 < hashTableBitSize_ bf -> 0 <= fb ->
  fb + zlen seeds * hashTableBitSize_ bf < 2 ^ 64 ->
  0 <= getFilterBytes bf idx ->
  8 * getFilterBytes bf idx + fb + zlen seeds * hashTableBitSize_ bf <= 8 * zlen b ->
  couldExist_loop bf idx key seeds fb =
  Ok (forallb (fun p => bit_at b (8 * getFilterBytes bf idx + p))
        (positions_from bf key seeds fb)).
Proof.
  intros Hb Ht. revert fb. induction seeds as [|s seeds IH]; intros fb Hf H64 Hg Hl; simpl; [done|].
  rewrite zlen_cons in *. pose proof (zlen_nonneg seeds).
  pose proof (Z.mod_pos_bound (combineHashes key s) (hashTableBitSize_ bf) Ht) as Hm.
  fold (bitNum bf key s) in Hm. set (n := bitNum bf key s) in *.
  assert (Hfb : fb + hashTableBitSize_ bf <= fb + (1 + zlen seeds) * hashTableBitSize_ bf) by nia.
  rewrite (u64_small (fb + n)) by (unfold is_u64; lia).
  unfold deref_bits. rewrite Hb. simpl. rewrite bitGet_spec; [|lia..|].
  2: { assert ((fb + n) / 8 < zlen b - getFilterBytes bf idx); [|lia].
       apply Z.div_lt_upper_bound; lia. }
  simpl. destruct (bit_at b _); simpl; [|done].
  destruct (decide (seeds = [])) as [->|Hne]; [done|].
  assert (1 <= zlen seeds) by (destruct seeds; [done|rewrite zlen_cons; zl]).
  rewrite (u64_small (fb + hashTableBitSize_ bf)) by (unfold is_u64; nia).
  apply IH; [lia|nia|lia|nia].
Qed.

Lemma set_spec (bf : BloomFilter) (b : bytes) (idx key : Z) :
  bf_wf bf b -> 0 <= idx < numFilters_ bf ->
  exists b', set idx key bf = (Ok tt, set_bits b' bf) /\ bf_wf (set_bits b' bf) b' /\
    forall k, 0 <= k -> bit_at b' k =
      bit_at b k || bool_decide (k - base_bit bf idx ∈ positions bf key).
Proof.
  intros W Hi. destruct (filter_base _ _ _ W Hi) as (Hg & Hg0 & Hg1).
  destruct W as [Wb Wy Wn Wt Ws Wf W6 Wz Wl]. unfold numHashes in *.
  destruct (set_loop_spec bf idx key (seeds_ bf) 0 b) as (b' & E & L & B & G); [lia..|].
  exists b'. split; [|split].
  - unfold set. destruct (seeds_ bf) eqn:Es; [done|]. rewrite <- Es in *.
    unfold deref_bits. rewrite Wb. simpl. by rewrite E.
  - constructor; simpl; unfold numHashes; simpl; try done; try lia. by apply B.
  - intros k Hk. rewrite G by done. unfold base_bit. by rewrite Hg.
Qed.

Lemma couldExist_spec (bf : BloomFilter) (b : bytes) (idx key : Z) :
  bf_wf bf b -> 0 <= idx < numFilters_ bf ->
  couldExist bf idx key =
  Ok (forallb (fun p => bit_at b (base_bit bf idx + p)) (positions bf key)).
Proof.
  intros W Hi. destruct (filter_base _ _ _ W Hi) as (Hg & Hg0 & Hg1).
  destruct W as [Wb Wy Wn Wt Ws Wf W6 Wz Wl]. unfold numHashes in *.
  unfold couldExist. rewrite (couldExist_loop_spec bf idx key (seeds_ bf) 0 b); [|done || lia..].
  unfold base_bit. by rewrite Hg.
Qed.

(** ** [clear] and [reset] *)

Lemma store_zeros (b : bytes) (off n : Z) :
  0 <= off -> 0 <= n -> off + n <= zlen b ->
  exists b', store b off (zeros n) = Ok b' /\ zlen b' = zlen b /\
    (is_bytes b -> is_bytes b') /\
    forall k, 0 <= k -> bit_at b' k = bit_at b k && negb ((8 * off <=? k) && (k <? 8 * (off + n))).
Proof.
  intros Ho Hn Hl. destruct (bytes_split b off n) as (x & y & z & -> & -> & Hy); [lia..|].
  exists (x ++ replicate (length y) 0 ++ z). unfold zeros.
  replace (Z.to_nat n) with (length y) by (unfold zlen in *; lia).
  split_and!.
  - apply store_app; [done|]. unfold zlen. by rewrite length_replicate.
  - unfold zlen. rewrite !length_app, length_replicate. done.
  - rewrite !is_bytes_app. intros (? & ? & ?). split_and!; [done|apply is_bytes_zeros|done].
  - intros k Hk. rewrite Hy. by apply bit_at_zeroed.
Qed.

Lemma clear_spec (bf : BloomFilter) (b : bytes) (idx : Z) :
  bf_wf bf b -> 0 <= idx < numFilters_ bf ->
  exists b', clear idx bf = (Ok tt, set_bits b' bf) /\ bf_wf (set_bits b' bf) b' /\
    forall k, 0 <= k -> bit_at b' k =
      bit_at b k && negb ((base_bit bf idx <=? k) && (k <? base_bit bf idx + 8 * filterByteSize_ bf)).
Proof.
  intros W Hi. destruct (filter_base _ _ _ W Hi) as (Hg & Hg0 & Hg1).
  destruct W as [Wb Wy Wn Wt Ws Wf W6 Wz Wl].
  assert (0 <= filterByteSize_ bf) by (pose proof (zlen_nonneg (seeds_ bf)); unfold numHashes in *; nia).
  destruct (store_zeros b (idx * filterByteSize_ bf) (filterByteSize_ bf)) as (b' & E & L & B & G); [lia..|].
  exists b'. split; [|split].
  - unfold clear. by rewrite Wb, Hg, E.
  - constructor; simpl; unfold numHashes; simpl; try done; try lia. by apply B.
  - intros k Hk. rewrite G by done. unfold base_bit.
    by replace (8 * (idx * filterByteSize_ bf) + 8 * filterByteSize_ bf)
      with (8 * (idx * filterByteSize_ bf + filterByteSize_ bf)) by lia.
Qed.

Lemma reset_spec (bf : BloomFilter) (b : bytes) :
  bf_wf bf b ->
  exists b', reset bf = (Ok tt, set_bits b' bf) /\ bf_wf (set_bits b' bf) b' /\
    forall k, 0 <= k < 8 * zlen b -> bit_at b' k = false.
Proof.
  intros [Wb Wy Wn Wt Ws Wf W6 Wz Wl].
  assert (Hs : getByteSize bf = zlen b).
  { unfold getByteSize. rewrite u64_small; [done|]. rewrite <- Wl. unfold is_u64. zl. }
  destruct (store_zeros b 0 (zlen b)) as (b' & E & L & B & G); [zl..|].
  exists b'. split; [|split].
  - unfold reset. by rewrite Wb, Hs, E.
  - constructor; simpl; unfold numHashes; simpl; try done; try lia. by apply B.
  - intros k Hk. rewrite G by lia. destruct (Z.leb_spec (8 * 0) k); [|lia].
    destruct (Z.ltb_spec k (8 * (0 + zlen b))); [|lia]. apply andb_false_r.
Qed.

(** ** The abstraction: the keys of each filter *)

Definition covered (bf : BloomFilter) (ks : list Z) (p : Z) : bool :=
  existsb (fun k => bool_decide (p ∈ positions bf k)) ks.

Definition bf_repr (bf : BloomFilter) (m : Z -> list Z) : Prop :=
  exists b, bf_wf bf b /\
  forall idx p, 0 <= idx < numFilters_ bf -> 0 <= p < 8 * filterByteSize_ bf ->
  bit_at b (base_bit bf idx + p) = covered bf (m idx) p.

Lemma positions_set_bits (b : bytes) (bf : BloomFilter) (key : Z) :
  positions (set_bits b bf) key = positions bf key.
Proof.
  unfold positions. simpl. generalize 0 as fb.
  induction (seeds_ bf) as [|s seeds IH]; intros fb; simpl; [done|]. by rewrite IH.
Qed.

Lemma covered_set_bits (b : bytes) (bf : BloomFilter) (ks : list Z) (p : Z) :
  covered (set_bits b bf) ks p = covered bf ks p.
Proof.
  unfold covered. induction ks as [|k ks IH]; cbn [existsb]; [done|].
  by rewrite IH, positions_set_bits.
Qed.

(** One filter's keys replaced. *)
Definition upd (m : Z -> list Z) (idx : Z) (ks : list Z) : Z -> list Z :=
  fun i => if i =? idx then ks else m i.

(** A bit index of filter [i] lies in filter [idx]'s range only when the
    filters are the same. *)
Lemma base_bit_apart (bf : BloomFilter) (i idx p : Z) :
  0 <= p < 8 * filterByteSize_ bf ->
  base_bit bf idx <= base_bit bf i + p < base_bit bf idx + 8 * filterByteSize_ bf <-> i = idx.
Proof. unfold base_bit. intros Hp. split; [|intros ->; lia]. intros ?. nia. Qed.

Lemma base_bit_nonneg (bf : BloomFilter) (b : bytes) (i : Z) :
  bf_wf bf b -> 0 <= i < numFilters_ bf -> 0 <= base_bit bf i.
Proof. intros W Hi. destruct (filter_base _ _ _ W Hi) as (_ & ? & _). unfold base_bit. lia. Qed.

Lemma set_repr (bf : BloomFilter) (m : Z -> list Z) (idx key : Z) :
  bf_repr bf m -> 0 <= idx < numFilters_ bf ->
  exists b', set idx key bf = (Ok tt, set_bits b' bf) /\
             bf_repr (set_bits b' bf) (upd m idx (key :: m idx)).
Proof.
  intros (b & W & R) Hi. destruct (set_spec bf b idx key W Hi) as (b' & E & W' & G).
  exists b'. split; [done|]. exists b'. split; [done|]. intros i p Hi' Hp. simpl in *.
  change (base_bit (set_bits b' bf) i) with (base_bit bf i).
  rewrite covered_set_bits.
  pose proof (base_bit_nonneg _ _ i W Hi'). rewrite G, (R i p) by (done || lia).
  unfold upd. destruct (Z.eqb_spec i idx) as [->|Hne].
  - replace (base_bit bf idx + p - base_bit bf idx) with p by lia. unfold covered.
    cbn [existsb]. apply orb_comm.
  - rewrite bool_decide_eq_false_2; [by rewrite orb_false_r|]. intros Hin.
    apply (positions_range _ _ _ _ W) in Hin. apply Hne, (base_bit_apart bf i idx p); [done|lia].
Qed.

Lemma clear_repr (bf : BloomFilter) (m : Z -> list Z) (idx : Z) :
  bf_repr bf m -> 0 <= idx < numFilters_ bf ->
  exists b', clear idx bf = (Ok tt, set_bits b' bf) /\
             bf_repr (set_bits b' bf) (upd m idx []).
Proof.
  intros (b & W & R) Hi. destruct (clear_spec bf b idx W Hi) as (b' & E & W' & G).
  exists b'. split; [done|]. exists b'. split; [done|]. intros i p Hi' Hp. simpl in *.
  change (base_bit (set_bits b' bf) i) with (base_bit bf i).
  rewrite covered_set_bits.
  pose proof (base_bit_nonneg _ _ i W Hi'). rewrite G, (R i p) by (done || lia).
  pose proof (base_bit_apart bf i idx p Hp) as Ha.
  unfold upd. destruct (Z.eqb_spec i idx) as [->|Hne].
  - destruct (Z.leb_spec (base_bit bf idx) (base_bit bf idx + p)); [|lia].
    destruct (Z.ltb_spec (base_bit bf idx + p) (base_bit bf idx + 8 * filterByteSize_ bf)); [|lia].
    apply andb_false_r.
  - destruct (Z.leb_spec (base_bit bf idx) (base_bit bf i + p)); simpl; [|apply andb_true_r].
    destruct (Z.ltb_spec (base_bit bf i + p) (base_bit bf idx + 8 * filterByteSize_ bf)); simpl;
      [|apply andb_true_r]. exfalso. apply Hne, Ha. lia.
Qed.

Lemma reset_repr (bf : BloomFilter) (m : Z -> list Z) :
  bf_repr bf m ->
  exists b', reset bf = (Ok tt, set_bits b' bf) /\ bf_repr (set_bits b' bf) (fun _ => []).
Proof.
  intros (b & W & R). destruct (reset_spec bf b W) as (b' & E & W' & G).
  exists b'. split; [done|]. exists b'. split; [done|]. intros i p Hi Hp. simpl in *.
  destruct (filter_base _ _ _ W Hi) as (_ & Hg0 & Hg1).
  change (base_bit (set_bits b' bf) i) with (base_bit bf i). unfold base_bit.
  rewrite G by lia. done.
Qed.

Lemma couldExist_repr (bf : BloomFilter) (m : Z -> list Z) (idx key : Z) :
  bf_repr bf m -> 0 <= idx < numFilters_ bf ->
  couldExist bf idx key = Ok (forallb (covered bf (m idx)) (positions bf key)).
Proof.
  intros (b & W & R) Hi. rewrite (couldExist_spec bf b) by done. f_equal.
  apply Bool.eq_iff_eq_true. rewrite !forallb_forall.
  split; intros Hp p Hin; specialize (Hp p Hin); apply list_elem_of_In in Hin;
    pose proof (positions_range _ _ _ _ W Hin) as Hr.
  - by rewrite <- R.
  - by rewrite R.
Qed.

(** A key set in a filter is never ruled out by it. *)
Lemma couldExist_set_key (bf : BloomFilter) (m : Z -> list Z) (idx key : Z) :
  bf_repr bf m -> 0 <= idx < numFilters_ bf -> key ∈ m idx -> couldExist bf idx key = Ok true.
Proof.
  intros R Hi Hk. rewrite (couldExist_repr bf m) by done. f_equal. apply forallb_forall.
  intros p Hp%list_elem_of_In. apply existsb_exists. exists key.
  split; [by apply list_elem_of_In|by apply bool_decide_eq_true].
Qed.

(** A cleared filter rules every key out. *)
Lemma couldExist_cleared (bf : BloomFilter) (m : Z -> list Z) (idx key : Z) :
  bf_repr bf m -> 0 <= idx < numFilters_ bf -> m idx = [] -> couldExist bf idx key = Ok false.
Proof.
  intros R Hi Hk. rewrite (couldExist_repr bf m), Hk by done.
  destruct R as (b & W & _). unfold positions. destruct (seeds_ bf) eqn:E; [|done].
  by destruct (wf_seeds _ _ W).
Qed.
End Proofs.

(** ** Bloom filters: what they promise

    Sequences of operations on a constructed filter are followed by the keys
    of each filter since it was last cleared; persisting a filter and
    recovering it into one built with the same parameters restores it. *)

Section Spec.
Context `{FollyHash}.

(** ** Construction *)

Lemma makeFilters_repr (nf nh ht : Z) :
  0 < nf -> 0 < nh -> 0 < ht -> nh * ht + 8 < 2 ^ 64 ->
  nf * bitsToBytes (nh * ht) < 2 ^ 64 ->
  exists bf, makeFilters nf nh ht = Ok bf /\ bf_repr bf (fun _ => []) /\
    numFilters_ bf = nf /\ hashTableBitSize_ bf = ht /\ length (seeds_ bf) = Z.to_nat nh.
Proof.
  intros Hf Hh Ht H64 Hsz. unfold makeFilters.
  destruct (Z.eqb_spec nf 0); [lia|]. destruct (Z.eqb_spec nh 0); [lia|].
  destruct (Z.eqb_spec ht 0); [lia|]. simpl.
  assert (Hp : 0 < nh * ht) by nia.
  rewrite (u64_small (nh * ht)) by (unfold is_u64; lia).
  destruct (bitsToBytes_covers (nh * ht)) as (Hb0 & Hb1 & Hb2); [lia..|].
  set (fbs := bitsToBytes (nh * ht)) in *.
  rewrite (u64_small (nf * fbs)) by (unfold is_u64; nia).
  eexists. split; [done|]. split_and!; [|done|done|].
  2: { simpl. by rewrite !length_map, length_seq. }
  eexists. split.
  - constructor; simpl; try done; try lia.
    + apply is_bytes_zeros.
    + destruct (Z.to_nat nh) eqn:E; [lia|]. done.
    + unfold numHashes, zlen. simpl. rewrite !length_map, length_seq. lia.
    + unfold zlen. rewrite length_replicate. nia.
  - intros idx p _ _. simpl. apply bit_at_zero.
Qed.

(** ** Runs *)

Inductive bf_op : Type :=
| OpSet (idx key : Z)
| OpClear (idx : Z)
| OpReset.

Definition run_op (op : bf_op) : M BloomFilter unit :=
  match op with
  | OpSet idx key => set idx key
  | OpClear idx => clear idx
  | OpReset => reset
  end.

Fixpoint run_ops (ops : list bf_op) : M BloomFilter unit :=
  match ops with
  | [] => ret tt
  | op :: ops => bind (run_op op) (fun _ => run_ops ops)
  end.

(** The keys of each filter after an operation. *)
Definition keys_op (m : Z -> list Z) (op : bf_op) : Z -> list Z :=
  match op with
  | OpSet idx key => upd m idx (key :: m idx)
  | OpClear idx => upd m idx []
  | OpReset => fun _ => []
  end.

Definition keys_after (ops : list bf_op) : Z -> list Z :=
  foldl keys_op (fun _ => []) ops.

Definition op_in_range (nf : Z) (op : bf_op) : Prop :=
  match op with
  | OpSet idx _ | OpClear idx => 0 <= idx < nf
  | OpReset => True
  end.

Lemma run_op_repr (op : bf_op) (bf : BloomFilter) (m : Z -> list Z) :
  bf_repr bf m -> op_in_range (numFilters_ bf) op ->
  exists b', run_op op bf = (Ok tt, set_bits b' bf) /\ bf_repr (set_bits b' bf) (keys_op m op).
Proof.
  intros R Hr. destruct op; simpl in *; [by apply set_repr|by apply clear_repr|by eapply reset_repr].
Qed.

Lemma run_ops_repr (ops : list bf_op) (bf : BloomFilter) (m : Z -> list Z) :
  bf_repr bf m -> Forall (op_in_range (numFilters_ bf)) ops ->
  exists bf', run_ops ops bf = (Ok tt, bf') /\ numFilters_ bf' = numFilters_ bf /\
    bf_repr bf' (foldl keys_op m ops).
Proof.
  revert bf m. induction ops as [|op ops IH]; intros bf m R Hr; simpl.
  - by exists bf.
  - apply Forall_cons in Hr as [Ho Hr].
    destruct (run_op_repr op bf m R Ho) as (b' & E & R').
    destruct (IH (set_bits b' bf) (keys_op m op) R') as (bf' & E' & N & R''); [done|].
    exists bf'. split_and!; [|done..]. unfold bind. by rewrite E.
Qed.

(** C26. On a filter array built by the constructor (no overflow of its size
    computations), any sequence of [set], [clear] and [reset] at filters in
    range succeeds, and afterwards a key that was set in a filter since it was
    last cleared is never ruled out there; for a filter that has such keys,
    [couldExist idx key] answers exactly whether each bit the key hashes to is
    hashed to by one of them, whatever was done to the other filters. *)
Theorem bloom_no_false_negatives (nf nh ht : Z) (ops : list bf_op) (idx key : Z) :
  0 < nf -> 0 < nh -> 0 < ht -> nh * ht + 8 < 2 ^ 64 ->
  nf * bitsToBytes (nh * ht) < 2 ^ 64 ->
  Forall (op_in_range nf) ops -> 0 <= idx < nf ->
  exists bf bf', makeFilters nf nh ht = Ok bf /\ run_ops ops bf = (Ok tt, bf') /\
    (key ∈ keys_after ops idx -> couldExist bf' idx key = Ok true) /\
    (keys_after ops idx <> [] ->
     couldExist bf' idx key = Ok (forallb (covered bf' (keys_after ops idx)) (positions bf' key))).
Proof.
  intros Hf Hh Ht H64 Hsz Hops Hi.
  destruct (makeFilters_repr nf nh ht) as (bf & E & R & N & _); [done..|].
  rewrite <- N in Hops, Hi.
  destruct (run_ops_repr ops bf (fun _ => []) R Hops) as (bf' & E' & N' & R').
  exists bf, bf'. rewrite <- N' in Hi. split_and!; [done..| |].
  - by apply (couldExist_set_key bf' (keys_after ops)).
  - intros _. by apply couldExist_repr.
Qed.

(** ** Persistence *)

Lemma write_fragments_cons (fuel : nat) (b : bytes) (fs : Z) :
  b <> [] -> 1 <= fs ->
  exists f r, write_fragments (S fuel) b fs = f :: write_fragments fuel r fs /\
              b = f ++ r /\ f <> [].
Proof.
  intros Hb Hf. cbn [write_fragments]. rewrite decide_False by done.
  set (n := Z.to_nat (Z.min (zlen b) fs)). exists (take n b), (drop n b).
  split_and!; [done|by rewrite take_drop|]. intros Hn%(f_equal length).
  rewrite length_take in Hn. simpl in Hn. destruct b; [done|]. simpl in *.
  unfold n, zlen in *. simpl in *. lia.
Qed.

Lemma read_fragments (fuel : nat) (b x y : bytes) (fs : Z) (rest : list bytes) :
  1 <= fs -> (length b <= fuel)%nat -> length y = length b ->
  read_bits (zlen x) (zlen x + zlen b) (write_fragments fuel b fs ++ rest) (x ++ y)
  = (Ok rest, x ++ b).
Proof.
  intros Hf. revert b x y. induction fuel as [|fuel IH]; intros b x y Hl Hy.
  - destruct b; simpl in Hl; [|lia]. destruct y; [|done]. simpl.
    destruct rest; simpl; by rewrite (proj2 (Z.leb_le _ _)) by zl.
  - destruct (decide (b = [])) as [->|Hne].
    { destruct y; [|done]. simpl.
      destruct rest; simpl; by rewrite (proj2 (Z.leb_le _ _)) by zl. }
    destruct (write_fragments_cons fuel b fs Hne Hf) as (f & r & -> & -> & Hfn).
    assert (0 < zlen f) by (destruct f; [done|rewrite zlen_cons; zl]).
    simpl. rewrite (proj2 (Z.leb_gt _ _)) by zl.
    rewrite length_app in Hl, Hy.
    assert (Hs : y = take (length f) y ++ drop (length f) y) by by rewrite take_drop.
    rewrite Hs, (store_app x (take (length f) y) f (drop (length f) y)).
    2: done.
    2: { unfold zlen. rewrite length_take. lia. }
    rewrite (app_assoc x f r), (app_assoc x f), zlen_app.
    replace (zlen x + (zlen f + zlen r)) with (zlen (x ++ f) + zlen r) by zl.
    replace (zlen x + zlen f) with (zlen (x ++ f)) by zl.
    apply IH; [destruct f; [done|simpl in *; lia]|rewrite length_drop; lia].
Qed.

Lemma skip_fragments (fuel : nat) (b : bytes) (fs off : Z) (rest : list bytes) :
  1 <= fs -> (length b <= fuel)%nat ->
  skip_init off (off + zlen b) (write_fragments fuel b fs ++ rest) = Ok rest.
Proof.
  intros Hf. revert b off. induction fuel as [|fuel IH]; intros b off Hl.
  - destruct b; simpl in Hl; [|lia]. destruct rest; simpl; by rewrite (proj2 (Z.leb_le _ _)) by zl.
  - destruct (decide (b = [])) as [->|Hne].
    { simpl. destruct rest; simpl; by rewrite (proj2 (Z.leb_le _ _)) by zl. }
    destruct (write_fragments_cons fuel b fs Hne Hf) as (f & r & -> & -> & Hfn).
    assert (0 < zlen f) by (destruct f; [done|rewrite zlen_cons; zl]).
    simpl. rewrite (proj2 (Z.leb_gt _ _)) by zl. rewrite length_app in Hl.
    replace (off + zlen (f ++ r)) with ((off + zlen f) + zlen r) by zl.
    apply IH. destruct f; [done|simpl in *; lia].
Qed.

Lemma u32_s32 (x : Z) : is_u32 x -> u32 (s32 x) = x.
Proof.
  intros Hx. unfold u32, s32. rewrite Zminus_mod_idemp_l.
  replace (x + 2 ^ 31 - 2 ^ 31) with x by lia. by apply Z.mod_small.
Qed.

Lemma u64_s64 (x : Z) : is_u64 x -> u64 (s64 x) = x.
Proof.
  intros Hx. unfold u64, s64. rewrite Zminus_mod_idemp_l.
  replace (x + 2 ^ 63 - 2 ^ 63) with x by lia. by apply Z.mod_small.
Qed.

Lemma copy_seeds_all (src dst : list Z) :
  Forall is_u64 src -> length dst = length src -> copy_seeds (s64 <$> src) dst = Ok src.
Proof.
  intros Hs Hl. unfold copy_seeds. rewrite length_fmap.
  rewrite (proj2 (Nat.leb_le _ _)) by lia. rewrite drop_ge, app_nil_r by lia. f_equal.
  clear Hl. induction Hs as [|x l Hx Hs IH]; [done|]. rewrite !fmap_cons, u64_s64 by done. by rewrite IH.
Qed.

Context `{BloomProto} `{!BloomProtoLaws}.

Lemma persist_recover_run (bf bf0 : BloomFilter) (b b0 : bytes) (rest : list bytes) :
  bf_wf bf b -> bf_wf bf0 b0 ->
  is_u32 (numFilters_ bf) -> is_u64 (hashTableBitSize_ bf) -> Forall is_u64 (seeds_ bf) ->
  numFilters_ bf0 = numFilters_ bf -> hashTableBitSize_ bf0 = hashTableBitSize_ bf ->
  filterByteSize_ bf0 = filterByteSize_ bf -> length (seeds_ bf0) = length (seeds_ bf) ->
  exists rs, persist bf = Ok rs /\ recover (rs ++ rest) bf0 = (Ok rest, bf).
Proof.
  intros W W0 Hn Hh Hs En Eh Ef El. pose proof (wf_len _ _ W) as Wl.
  pose proof (wf_len _ _ W0) as Wl0. rewrite En, Ef, <- Wl in Wl0.
  assert (Hz : getByteSize bf = zlen b).
  { unfold getByteSize. rewrite <- Wl. apply u64_small. pose proof (wf_size _ _ W). unfold is_u64. zl. }
  assert (Hf : 0 < filterByteSize_ bf).
  { pose proof (wf_fit _ _ W). pose proof (wf_table _ _ W). pose proof (wf_seeds _ _ W).
    unfold numHashes in *. destruct (seeds_ bf); [done|]. rewrite zlen_cons in *. zlen_pos. nia. }
  assert (Hp : 0 < zlen b) by (pose proof (wf_num _ _ W); nia).
  assert (Hi : is_u64 (filterByteSize_ bf)) by (pose proof (wf_fit64 _ _ W); unfold is_u64; lia).
  unfold persist, serializeBits. rewrite Hz. destruct (Z.eqb_spec (zlen b) 0); [lia|].
  unfold deref_bits. rewrite (wf_bits _ _ W). simpl.
  rewrite load_whole. simpl. eexists. split; [done|]. simpl.
  rewrite decode_encodeBloom. simpl. rewrite En, Eh, Ef, u32_s32, !u64_s64, !Z.eqb_refl by done.
  change (u32 (s32 kPersistFragmentSize) =? kPersistFragmentSize) with true. simpl.
  rewrite copy_seeds_all by done. unfold deserializeBits. simpl.
  change (getByteSize (set_seeds (seeds_ bf) bf0)) with (getByteSize bf0).
  replace (getByteSize bf0) with (zlen b) by (unfold getByteSize in *; rewrite En, Ef; done).
  destruct (Z.eqb_spec (zlen b) 0); [lia|]. unfold deref_bits. simpl. rewrite (wf_bits _ _ W0), En.
  rewrite <- app_assoc.
  rewrite (read_fragments (Z.to_nat (zlen b)) b [] b0 kPersistFragmentSize); [|done|unfold zlen; lia|unfold zlen in *; lia].
  destruct (bitsToBytes_covers (numFilters_ bf)) as (Hb0 & _); [unfold is_u32 in Hn; lia..|].
  assert (Hzz : zlen (zeros (bitsToBytes (numFilters_ bf))) = bitsToBytes (numFilters_ bf)).
  { unfold zeros, zlen. rewrite length_replicate. lia. }
  pose proof (skip_fragments (Z.to_nat (bitsToBytes (numFilters_ bf)))
    (zeros (bitsToBytes (numFilters_ bf))) kPersistFragmentSize 0 rest) as Hsk.
  rewrite Z.add_0_l, Hzz in Hsk. rewrite Hsk; [|done|unfold zlen in Hzz; lia].
  f_equal. unfold set_bits, set_seeds. simpl. rewrite En, Eh, Ef, <- (wf_bits _ _ W). by destruct bf.
Qed.

(** What [persist] writes for a well-formed filter array, followed by any
    further records, [recover] reads back into an array built with the same
    parameters: it succeeds, leaves exactly the further records in the reader
    and ends in the persisted state, bits and seeds included. *)
Theorem bloom_persist_recover (bf bf0 : BloomFilter) (b b0 : bytes) (rest : list bytes) :
  bf_wf bf b -> bf_wf bf0 b0 ->
  is_u32 (numFilters_ bf) -> is_u64 (hashTableBitSize_ bf) -> Forall is_u64 (seeds_ bf) ->
  numFilters_ bf0 = numFilters_ bf -> hashTableBitSize_ bf0 = hashTableBitSize_ bf ->
  filterByteSize_ bf0 = filterByteSize_ bf -> length (seeds_ bf0) = length (seeds_ bf) ->
  exists rs, persist bf = Ok rs /\ recover (rs ++ rest) bf0 = (Ok rest, bf).
Proof. apply persist_recover_run. Qed.
End Spec.

(** A concrete hash pair, to evaluate the definitions with. *)
#[local] Instance toyHash : FollyHash := {|
  hashInt x := u64 (x * 11400714819323198485 + 1);
  combineHashes a b := u64 (a * 3 + b)
|}.

Definition bloom_keys_ex : list bf_op := [OpSet 0 5; OpSet 1 9; OpClear 1; OpSet 1 7].

Lemma bloom_no_false_negatives_witness :
  exists bf bf', makeFilters 2 3 16 = Ok bf /\ run_ops bloom_keys_ex bf = (Ok tt, bf') /\
    couldExist bf' 1 7 = Ok true /\
    couldExist bf' 1 7 = Ok (forallb (covered bf' (keys_after bloom_keys_ex 1)) (positions bf' 7)).
Proof.
  destruct (bloom_no_false_negatives 2 3 16 bloom_keys_ex 1 7) as (bf & bf' & E & R & H1 & H2);
    [lia|lia|lia|lia|reflexivity| |lia|].
  { repeat (apply Forall_cons; split; [simpl; lia|]). by apply Forall_nil. }
  exists bf, bf'. split_and!; [done..|apply H1; vm_compute; by left|by apply H2].
Defined.

(** A thrift stand-in: the fields in order, each as one list element. *)
#[local] Instance toyProto : BloomProto := {|
  encodeBloom bd := bd_numFilters bd :: bd_hashTableBitSize bd :: bd_filterByteSize bd
                    :: bd_fragmentSize bd :: bd_seeds bd;
  decodeBloom r := match r with
                   | a :: b :: c :: d :: l => Ok (mkBloomFilterPersistentData a b c d l)
                   | _ => Throw RuntimeError
                   end
|}.

#[local] Instance toyProtoLaws : BloomProtoLaws.
Proof. constructor. by intros []. Qed.

Definition bloom_a : BloomFilter := mkBloomFilter 2 12 3 [7; 2 ^ 64 - 1] (Some [1; 2; 3; 4; 5; 6]).
Definition bloom_b : BloomFilter := mkBloomFilter 2 12 3 [0; 0] (Some [0; 0; 0; 0; 0; 0]).

Lemma bloom_a_wf : bf_wf bloom_a [1; 2; 3; 4; 5; 6] /\ bf_wf bloom_b [0; 0; 0; 0; 0; 0].
Proof.
  split; constructor; try done; repeat (apply Forall_cons; split; [unfold is_u8; lia|]); done.
Qed.

Lemma bloom_persist_recover_witness :
  exists rs, persist bloom_a = Ok rs /\ recover (rs ++ [[9]]) bloom_b = (Ok [[9]], bloom_a).
Proof.
  apply (bloom_persist_recover bloom_a bloom_b [1; 2; 3; 4; 5; 6] [0; 0; 0; 0; 0; 0] [[9]]);
    try apply bloom_a_wf; try reflexivity; try (unfold is_u32, is_u64; simpl; lia).
  repeat (apply Forall_cons; split; [unfold is_u64; lia|]). by apply Forall_nil.
Defined.
