(* ===== verification/BucketStorage.v ===== *)
(** * The FIFO allocator inside a bucket

    [src/cachelib/navy/bighash/BucketStorage.{h,cpp}]. The storage is a byte
    array of slots laid out one after the other, each a 4-byte size followed
    by that many bytes. A pointer into [data_] is its offset; the views an
    [Allocation] carries are an offset with a size, or null. *)

From S2P Require Import Prelude Bytes.
From stdpp Require Import base tactics numbers list.

#[local] Open Scope Z_scope.
#[local] Open Scope cachelib_scope.

(** ** Views ([src/cachelib/navy/common/Buffer.h]) *)

Record BufferView : Type := mkView { v_size : Z; v_data : option Z }.

Definition nullView : BufferView := mkView 0 None.
Definition isNull (v : BufferView) : bool :=
  match v_data v with None => true | Some _ => false end.

(** [view.data() - data_]: the subtraction needs a pointer into [data_]. *)
Definition view_offset (v : BufferView) : res Z :=
  match v_data v with Some o => Ok o | None => Throw UndefinedBehavior end.

(** The bytes a view shows. *)
Definition view_bytes (d : bytes) (v : BufferView) : res bytes :=
  let? o := view_offset v in load d o (v_size v).

Module BucketStorage.

Record Allocation : Type := mkAllocation { view : BufferView; position : Z }.
Definition noAllocation : Allocation := mkAllocation nullView 0.
Definition done (a : Allocation) : bool := isNull (view a).

Record t : Type := mk {
  capacity : Z;
  numAllocations : Z;
  endOffset_ : Z;
  data_ : bytes
}.

Definition set_data (d : bytes) (s : t) : t := mk (capacity s) (numAllocations s) (endOffset_ s) d.
Definition set_num (n : Z) (s : t) : t := mk (capacity s) n (endOffset_ s) (data_ s).
Definition set_end (e : Z) (s : t) : t := mk (capacity s) (numAllocations s) e (data_ s).

Definition kAllocationOverhead : Z := 4.
Definition slotSize (size : Z) : Z := u32 (kAllocationOverhead + size).

Definition remainingCapacity (s : t) : Z := u32 (capacity s - endOffset_ s).

Definition canAllocate (s : t) (size : Z) : bool :=
  endOffset_ s + slotSize size <=? capacity s.

Definition allocate (size : Z) : M t Allocation :=
  let! s := get in
  if negb (canAllocate s size) then ret noAllocation else
  let! d := lift (store32 (data_ s) (endOffset_ s) size) in
  do! modify (set_data d) in
  do! modify (set_end (u32 (endOffset_ s + slotSize size))) in
  do! modify (set_num (u32 (numAllocations s + 1))) in
  let! n := gets numAllocations in
  ret (mkAllocation (mkView size (Some (endOffset_ s + kAllocationOverhead))) (u32 (n - 1))).

(** The loop of [remove] over the allocations left; it carries [srcOffset]
    and [dstOffset]. *)
Fixpoint remove_loop (allocs : list Allocation) (srcOffset dstOffset : Z) : M t (Z * Z) :=
  match allocs with
  | [] => ret (srcOffset, dstOffset)
  | alloc :: allocs =>
      let! o := lift (view_offset (view alloc)) in
      let allocOffset := u32 o in
      let removedOffset := u32 (allocOffset - kAllocationOverhead) in
      let! dst' :=
        (if srcOffset =? removedOffset then ret dstOffset
         else
           let len := u32 (removedOffset - srcOffset) in
           do! (if dstOffset =? srcOffset then ret tt
                else let! s := get in
                     let! d := lift (memmove (data_ s) dstOffset srcOffset len) in
                     modify (set_data d)) in
           ret (u32 (dstOffset + len))) in
      let srcOffset := u32 (allocOffset + v_size (view alloc)) in
      do! modify (fun s => set_num (u32 (numAllocations s - 1)) s) in
      remove_loop allocs srcOffset dst'
  end.

Definition removeAll (allocs : list Allocation) : M t unit :=
  match allocs with
  | [] => ret tt
  | _ =>
      let! sd := remove_loop allocs 0 0 in
      let! s := get in
      let '(srcOffset, dstOffset) := sd in
      let! dst' :=
        (if srcOffset =? endOffset_ s then ret dstOffset
         else
           let len := u32 (endOffset_ s - srcOffset) in
           let! d := lift (memmove (data_ s) dstOffset srcOffset len) in
           do! modify (set_data d) in
           ret (u32 (dstOffset + len))) in
      modify (set_end dst')
  end.

Definition remove (alloc : Allocation) : M t unit := removeAll [alloc].

Definition removeUntil (alloc : Allocation) : M t unit :=
  if done alloc then ret tt else
  let! o := lift (view_offset (view alloc)) in
  let offset := u32 (o + v_size (view alloc)) in
  let! s := get in
  if endOffset_ s <? offset then ret tt else
  let! d := lift (memmove (data_ s) 0 offset (u32 (endOffset_ s - offset))) in
  do! modify (set_data d) in
  do! modify (fun s => set_end (u32 (endOffset_ s - offset)) s) in
  modify (fun s => set_num (u32 (numAllocations s - (position alloc + 1))) s).

(** [{MutableBufferView{slot->size, slot->data}, position}] of the slot at an
    offset. *)
Definition slotAt (s : t) (off pos : Z) : res Allocation :=
  let? size := load32 (data_ s) off in
  Ok (mkAllocation (mkView size (Some (off + kAllocationOverhead))) pos).

Definition getFirst (s : t) : res Allocation :=
  if endOffset_ s =? 0 then Ok noAllocation else slotAt s 0 0.

Definition getNext (s : t) (alloc : Allocation) : res Allocation :=
  if done alloc then Ok noAllocation else
  let? o := view_offset (view alloc) in
  let next := o + v_size (view alloc) in
  if endOffset_ s <=? next then Ok noAllocation
  else slotAt s next (u32 (position alloc + 1)).

Definition getOffset (alloc : Allocation) : res Z :=
  let? o := view_offset (view alloc) in Ok (u32 o).

(** [while (!itr.done()) { ... itr = getNext(itr); }] with a body that does
    not change the storage: the body either goes on with a new accumulator
    or leaves the loop with a result. The loop ends with the accumulator when
    the iterator is done. [fuel] counts iterations; the offset grows by at
    least 4 in each, so [length data_] of them reach the end. *)
Fixpoint walk {A R} (fuel : nat) (s : t) (body : Allocation -> A -> res (A + R))
    (itr : Allocation) (acc : A) : res (A + R) :=
  if done itr then Ok (inl acc) else
  match fuel with
  | O => Throw StillWaiting
  | S fuel =>
      let? r := body itr acc in
      match r with
      | inr x => Ok (inr x)
      | inl acc => let? itr := getNext s itr in walk fuel s body itr acc
      end
  end.

Definition walkFuel (s : t) : nat := S (length (data_ s)).

(** The loop from the first allocation on. *)
Definition forEach {A R} (s : t) (body : Allocation -> A -> res (A + R)) (acc : A)
    : res (A + R) :=
  let? itr := getFirst s in walk (walkFuel s) s body itr acc.

End BucketStorage.

(** ** The FIFO allocator inside a bucket: layout

    [repr s es] says that the byte array holds exactly the slots of the
    payloads [es], in order from its start. Each operation is characterised
    by what it does to [es]. *)

Import BucketStorage.

#[local] Open Scope Z_scope.

(** ** The layout *)

Definition slot (e : bytes) : bytes := le32 (zlen e) ++ e.
Definition layout (es : list bytes) : bytes := concat (slot <$> es).

Lemma layout_app (xs ys : list bytes) : layout (xs ++ ys) = layout xs ++ layout ys.
Proof. unfold layout. by rewrite fmap_app, concat_app. Qed.

Lemma layout_cons (e : bytes) (es : list bytes) : layout (e :: es) = slot e ++ layout es.
Proof. done. Qed.

Lemma layout_nil : layout [] = [].
Proof. done. Qed.

Lemma slot_eq (e : bytes) : slot e = le32 (zlen e) ++ e.
Proof. done. Qed.

Lemma zlen_slot (e : bytes) : zlen (slot e) = 4 + zlen e.
Proof. unfold slot. zl. Qed.

#[global] Opaque layout slot le32 le64.

#[export] Hint Rewrite layout_app layout_cons layout_nil zlen_slot : zlen.

Lemma layout_empty (es : list bytes) : zlen (layout es) = 0 -> es = [].
Proof. destruct es; [done|]. intros. zl. Qed.

Record repr (s : t) (es : list bytes) : Prop := {
  repr_data : exists free, data_ s = layout es ++ free;
  repr_cap : capacity s = zlen (data_ s);
  repr_cap32 : capacity s < 2 ^ 32;
  repr_end : endOffset_ s = zlen (layout es);
  repr_num : numAllocations s = zlen es
}.

(** The allocation of a payload that follows the slots of [es1]. *)
Definition alloc_of (es1 : list bytes) (e : bytes) : Allocation :=
  mkAllocation (mkView (zlen e) (Some (zlen (layout es1) + 4))) (zlen es1).

(** The iterator between [es1] and [es2]. *)
Definition cursor (es1 es2 : list bytes) : Allocation :=
  match es2 with [] => noAllocation | e :: _ => alloc_of es1 e end.

Lemma zlen_layout_ge (es : list bytes) : 4 * zlen es <= zlen (layout es).
Proof. induction es as [|e es IH]; [done|]. zl. Qed.

Lemma repr_bounds (s : t) (es : list bytes) :
  repr s es -> zlen (layout es) <= capacity s < 2 ^ 32 /\ 4 * zlen es <= capacity s.
Proof.
  intros [[fr Hd] Hc H32 He Hn]. rewrite Hd in Hc. pose proof (zlen_layout_ge es). zl.
Qed.

Lemma remaining_repr (s : t) (es : list bytes) :
  repr s es -> remainingCapacity s = capacity s - zlen (layout es).
Proof.
  intros R. pose proof (repr_bounds s es R). destruct R. unfold remainingCapacity.
  rewrite repr_end0. apply u32_small. unfold is_u32. zl.
Qed.

(** ** Iteration *)

Lemma slotAt_repr (s : t) (es1 : list bytes) (e : bytes) (es2 : list bytes) (pos : Z) :
  repr s (es1 ++ e :: es2) -> pos = zlen es1 ->
  slotAt s (zlen (layout es1)) pos = Ok (alloc_of es1 e).
Proof.
  intros R ->. pose proof (repr_bounds _ _ R) as Hb. destruct R as [[fr Hd] Hc H32 He Hn].
  unfold slotAt, load32. rewrite Hd, layout_app, layout_cons. rewrite slot_eq.
  rewrite <- !app_assoc, load_app by zl. simpl. rewrite le_to_Z_le32; [done|]. unfold is_u32. zl.
Qed.

Lemma getFirst_repr (s : t) (es : list bytes) : repr s es -> getFirst s = Ok (cursor [] es).
Proof.
  intros R. unfold getFirst. rewrite (repr_end _ _ R). destruct es as [|e es]; [done|].
  destruct (Z.eqb_spec (zlen (layout (e :: es))) 0); [zl|]. by apply (slotAt_repr s [] e es 0).
Qed.

Lemma getNext_repr (s : t) (es1 : list bytes) (e : bytes) (es2 : list bytes) :
  repr s (es1 ++ e :: es2) ->
  getNext s (cursor es1 (e :: es2)) = Ok (cursor (es1 ++ [e]) es2).
Proof.
  intros R. pose proof (repr_bounds _ _ R) as Hb. unfold getNext. simpl.
  rewrite (repr_end _ _ R). destruct es2 as [|e2 es2]; simpl.
  - by rewrite (proj2 (Z.leb_le _ _)) by zl.
  - rewrite (proj2 (Z.leb_gt _ _)) by zl.
    replace (zlen (layout es1) + 4 + zlen e) with (zlen (layout (es1 ++ [e]))) by zl.
    apply (slotAt_repr s (es1 ++ [e]) e2 es2).
    + by rewrite <- app_assoc.
    + rewrite u32_small; [zl|]. unfold is_u32. zl.
Qed.

(** The same loop over the list of payloads. *)
Fixpoint walk_list {A R} (body : Allocation -> A -> res (A + R)) (es1 es2 : list bytes)
    (acc : A) : res (A + R) :=
  match es2 with
  | [] => Ok (inl acc)
  | e :: es2 =>
      rbind (body (alloc_of es1 e) acc) (fun r =>
      match r with
      | inr x => Ok (inr x)
      | inl acc => walk_list body (es1 ++ [e]) es2 acc
      end)
  end.

Lemma walk_repr {A R} (fuel : nat) (s : t) (body : Allocation -> A -> res (A + R))
    (es1 es2 : list bytes) (acc : A) :
  repr s (es1 ++ es2) -> (length es2 <= fuel)%nat ->
  walk fuel s body (cursor es1 es2) acc = walk_list body es1 es2 acc.
Proof.
  revert es1 es2 acc. induction fuel as [|fuel IH]; intros es1 [|e es2] acc Hr Hf;
    simpl in Hf; try lia; [done..|].
  cbn [walk cursor]. change (done (alloc_of es1 e)) with false. cbn [walk_list].
  destruct (body (alloc_of es1 e) acc) as [[acc'|x]|err]; simpl; [|done..].
  change (alloc_of es1 e) with (cursor es1 (e :: es2)).
  rewrite getNext_repr by done. simpl. apply IH; [|lia]. by rewrite <- app_assoc.
Qed.

Lemma forEach_repr {A R} (s : t) (body : Allocation -> A -> res (A + R))
    (es : list bytes) (acc : A) :
  repr s es -> forEach s body acc = walk_list body [] es acc.
Proof.
  intros Hr. unfold forEach. rewrite (getFirst_repr s es) by done. cbn [rbind].
  apply walk_repr; [done|]. pose proof (repr_bounds _ _ Hr) as Hb.
  rewrite (repr_cap _ _ Hr) in Hb. unfold walkFuel, zlen in *. lia.
Qed.

(** Whatever the bytes are, the iteration ends. *)
Lemma walk_ends {A R} (fuel : nat) (s : t) (body : Allocation -> A -> res (A + R))
    (itr : Allocation) (acc : A) (o : Z) :
  is_bytes (data_ s) -> (forall a c, body a c <> Throw StillWaiting) ->
  v_data (view itr) = Some o -> 4 <= o <= zlen (data_ s) -> 0 <= v_size (view itr) ->
  zlen (data_ s) < Z.of_nat fuel + o -> walk fuel s body itr acc <> Throw StillWaiting.
Proof.
  intros Hd Hb. revert itr acc o. induction fuel as [|fuel IH]; intros itr acc o Hv Ho Hs Hf; [lia|].
  cbn [walk]. destruct (done itr) eqn:Ed; [done|].
  destruct (body itr acc) as [[acc'|x]|err] eqn:Eb; simpl; [|done|].
  2: { intros [= ->]. by apply (Hb itr acc). }
  unfold getNext. rewrite Ed. unfold view_offset. rewrite Hv. simpl.
  case_match; simpl. { destruct fuel; done. }
  unfold slotAt, load32, load. destruct (in_bounds _ _ 4) eqn:Ei; simpl; [|done].
  apply in_bounds_true in Ei. apply (IH _ _ (o + v_size (view itr) + kAllocationOverhead));
    simpl; unfold kAllocationOverhead; [done|lia| |lia].
  assert (is_bytes (peek (data_ s) (o + v_size (view itr)) 4)) as Hp.
  { apply Forall_take, Forall_drop, Hd. }
  pose proof (little_endian_to_Z_bound 8 _ ltac:(lia) Hp). unfold le_to_Z. lia.
Qed.

Lemma forEach_ends {A R} (s : t) (body : Allocation -> A -> res (A + R)) (acc : A) :
  is_bytes (data_ s) -> (forall a c, body a c <> Throw StillWaiting) ->
  forEach s body acc <> Throw StillWaiting.
Proof.
  intros Hd Hb. unfold forEach, getFirst. case_match; cbn [rbind].
  - done.
  - unfold slotAt, load32, load. destruct (in_bounds _ _ 4) eqn:Ei; cbn [rbind]; [|done].
    apply in_bounds_true in Ei. apply (walk_ends _ _ _ _ _ 4); simpl; try done.
    + lia.
    + assert (is_bytes (peek (data_ s) 0 4)) as Hp by (apply Forall_take, Forall_drop, Hd).
      pose proof (little_endian_to_Z_bound 8 _ ltac:(lia) Hp). unfold le_to_Z. lia.
    + unfold walkFuel, zlen. lia.
Qed.

(** ** Views of payloads *)

Lemma view_bytes_repr (s : t) (es1 : list bytes) (e : bytes) (es2 : list bytes) :
  repr s (es1 ++ e :: es2) -> view_bytes (data_ s) (view (alloc_of es1 e)) = Ok e.
Proof.
  intros R. destruct R as [[fr Hd] Hc H32 He Hn]. unfold view_bytes. simpl.
  rewrite Hd, layout_app, layout_cons. rewrite slot_eq.
  rewrite <- !app_assoc, (app_assoc (layout es1)). apply load_app; zl.
Qed.

(** Overwriting a payload with bytes of the same length. *)
Lemma store_payload (s : t) (es1 : list bytes) (e e' : bytes) (es2 : list bytes) :
  repr s (es1 ++ e :: es2) -> zlen e' = zlen e ->
  exists d, store (data_ s) (zlen (layout es1) + 4) e' = Ok d /\
            repr (set_data d s) (es1 ++ e' :: es2).
Proof.
  intros R Hl. destruct R as [[fr Hd] Hc H32 He Hn].
  rewrite Hd, layout_app, layout_cons in *. rewrite slot_eq in *.
  rewrite <- !app_assoc, (app_assoc (layout es1)) in *.
  rewrite (store_app _ e) by zl. eexists. split; [done|]. constructor; simpl.
  - exists fr. rewrite layout_app, layout_cons. rewrite slot_eq. by rewrite Hl, <- !app_assoc.
  - rewrite Hc. zl.
  - lia.
  - rewrite He. zl.
  - rewrite Hn. zl.
Qed.

(** ** [allocate] *)

Lemma allocate_full (s : t) (es : list bytes) (size : Z) :
  repr s es -> 0 <= size < 2 ^ 32 - 4 -> capacity s < zlen (layout es) + 4 + size ->
  allocate size s = (Ok noAllocation, s).
Proof.
  intros R Hs Hc. unfold allocate. mstep. unfold canAllocate, slotSize, kAllocationOverhead.
  rewrite u32_small by (unfold is_u32; lia). rewrite (repr_end _ _ R).
  by rewrite (proj2 (Z.leb_gt _ _)) by lia.
Qed.

Lemma allocate_repr (s : t) (es : list bytes) (size : Z) :
  repr s es -> 0 <= size < 2 ^ 32 - 4 -> zlen (layout es) + 4 + size <= capacity s ->
  exists e s', zlen e = size /\ allocate size s = (Ok (alloc_of es e), s') /\
               repr s' (es ++ [e]) /\ capacity s' = capacity s.
Proof.
  intros R Hs Hc. pose proof (repr_bounds _ _ R) as Hb. destruct R as [[fr Hd] Hcap H32 He Hn].
  rewrite Hd in Hcap.
  destruct (bytes_split fr 0 4) as (x & y & fr' & -> & Hx & Hy); [zl..|].
  assert (x = []) as -> by (destruct x; [done|zl]). simpl in *. clear Hx.
  destruct (bytes_split fr' 0 size) as (x & e & fr & -> & Hx & He'); [zl..|].
  assert (x = []) as -> by (destruct x; [done|zl]). simpl in *. clear Hx.
  exists e. unfold allocate. mstep. unfold canAllocate, slotSize, kAllocationOverhead.
  rewrite (u32_small (4 + size)) by (unfold is_u32; lia). rewrite He.
  rewrite (proj2 (Z.leb_le _ _)) by lia. simpl. rewrite Hd. unfold store32, lift.
  rewrite (store_app (layout es) y) by zl. simpl.
  unfold set_data, set_end, set_num. simpl. rewrite ?He, ?Hn.
  eexists. split_and!; [done|f_equal; f_equal| |done].
  - unfold alloc_of. f_equal; [by rewrite He'|].
    rewrite !u32_small; [lia|unfold is_u32; zl|].
    rewrite u32_small by (unfold is_u32; zl). unfold is_u32; zl.
  - constructor; simpl.
    + exists fr. rewrite layout_app, layout_cons. rewrite slot_eq. by rewrite He', <- !app_assoc.
    + rewrite Hcap. zl.
    + lia.
    + rewrite u32_small by (unfold is_u32; zl). zl.
    + rewrite u32_small by (unfold is_u32; zl). zl.
Qed.

(** ** [removeUntil] *)

Lemma removeUntil_repr (s : t) (es1 : list bytes) (e : bytes) (es2 : list bytes) :
  repr s (es1 ++ e :: es2) ->
  exists s', removeUntil (alloc_of es1 e) s = (Ok tt, s') /\ repr s' es2 /\
             capacity s' = capacity s.
Proof.
  intros R. pose proof (repr_bounds _ _ R) as Hb. destruct R as [[fr Hd] Hcap H32 He Hn].
  unfold removeUntil. mstep. unfold lift. simpl.
  replace (zlen (layout es1) + 4 + zlen e) with (zlen (layout (es1 ++ [e]))) by zl.
  rewrite u32_small by (unfold is_u32; zl). rewrite He.
  rewrite (proj2 (Z.ltb_ge _ _)) by zl. simpl.
  rewrite u32_small by (unfold is_u32; zl).
  destruct (memmove_front [] (layout (es1 ++ [e])) (layout es2) fr 0
    (zlen (layout (es1 ++ [e]))) (zlen (layout es2))) as (junk & Hm & Hj); [done..|].
  replace (zlen (layout (es1 ++ e :: es2)) - zlen (layout (es1 ++ [e])))
    with (zlen (layout es2)) by zl.
  replace (data_ s) with ([] ++ layout (es1 ++ [e]) ++ layout es2 ++ fr).
  2: { rewrite Hd, !layout_app, !layout_cons, layout_nil, app_nil_l, app_nil_r. by rewrite <- !app_assoc. }
  rewrite Hm. simpl. unfold set_data, set_end, set_num. simpl. rewrite ?He, ?Hn.
  eexists. split; [done|]. split; [|done]. constructor; simpl.
  - by eexists.
  - rewrite Hcap, Hd. zl.
  - lia.
  - rewrite u32_small by (unfold is_u32; zl). zl.
  - rewrite u32_small by (unfold is_u32; zl). zl.
Qed.

(** ** [remove]

    The payloads with a mark: [true] for the ones to remove. *)

Definition kept (ms : list (bool * bytes)) : list bytes :=
  snd <$> filter (fun m => fst m = false) ms.

Fixpoint allocs_of (pre : list bytes) (ms : list (bool * bytes)) : list Allocation :=
  match ms with
  | [] => []
  | (rm, e) :: ms =>
      (if rm : bool then [alloc_of pre e] else []) ++ allocs_of (pre ++ [e]) ms
  end.

Lemma kept_true (e : bytes) (ms : list (bool * bytes)) : kept ((true, e) :: ms) = kept ms.
Proof. done. Qed.

Lemma kept_false (e : bytes) (ms : list (bool * bytes)) : kept ((false, e) :: ms) = e :: kept ms.
Proof. done. Qed.

(** The state between two steps of the compaction: [ks] are the payloads
    already moved to the front, [gap] the bytes given up so far, [run] the
    payloads after them not moved yet and [rest] the ones not looked at. *)
Definition compacting (s : t) (ks : list bytes) (gap : bytes) (run rest : list bytes)
    (free : bytes) : Prop :=
  data_ s = layout ks ++ gap ++ layout (run ++ rest) ++ free /\
  capacity s = zlen (data_ s) /\ capacity s < 2 ^ 32 /\
  endOffset_ s = zlen (layout ks) + zlen gap + zlen (layout (run ++ rest)) /\
  numAllocations s = zlen (ks ++ run ++ rest).

Lemma compacting_bounds (s : t) (ks : list bytes) (gap : bytes) (run rest : list bytes)
    (free : bytes) :
  compacting s ks gap run rest free ->
  zlen (layout ks) + zlen gap + zlen (layout (run ++ rest)) <= capacity s < 2 ^ 32 /\
  4 * zlen (ks ++ run ++ rest) <= zlen (layout ks) + zlen (layout (run ++ rest)).
Proof.
  intros (Hd & Hc & H32 & He & Hn). rewrite Hd in Hc.
  pose proof (zlen_layout_ge ks). pose proof (zlen_layout_ge (run ++ rest)). zl.
Qed.

Lemma move_run (s : t) (ks : list bytes) (gap : bytes) (run rest : list bytes) (free : bytes) :
  compacting s ks gap run rest free ->
  exists d gap', memmove (data_ s) (zlen (layout ks)) (zlen (layout ks) + zlen gap)
                   (zlen (layout run)) = Ok d /\
    zlen gap' = zlen gap /\ zlen d = zlen (data_ s) /\
    d = layout (ks ++ run) ++ gap' ++ layout rest ++ free.
Proof.
  intros (Hd & Hc & H32 & He & Hn).
  destruct (memmove_front (layout ks) gap (layout run) (layout rest ++ free)
    (zlen (layout ks)) (zlen (layout ks) + zlen gap) (zlen (layout run)))
    as (gap' & Hm & Hg); [done..|].
  exists (layout ks ++ layout run ++ gap' ++ layout rest ++ free), gap'.
  rewrite Hd, layout_app, <- app_assoc, Hm. split_and!; [done|done|zl|].
  by rewrite layout_app, <- app_assoc.
Qed.

(** One step of the loop: the run before a removed payload moves to the
    front, if it is not there already, and the payload joins the gap. *)
Lemma remove_step (s : t) (ks : list bytes) (gap : bytes) (run : list bytes) (e : bytes)
    (rest : list bytes) (free : bytes) (pre : list bytes) (allocs : list Allocation) :
  compacting s ks gap run (e :: rest) free ->
  zlen (layout pre) = zlen (layout ks) + zlen gap + zlen (layout run) ->
  exists s' gap', compacting s' (ks ++ run) gap' [] rest free /\ capacity s' = capacity s /\
    zlen gap' = zlen gap + zlen (slot e) /\
    remove_loop (alloc_of pre e :: allocs) (zlen (layout ks) + zlen gap) (zlen (layout ks)) s
    = remove_loop allocs (zlen (layout (ks ++ run)) + zlen gap') (zlen (layout (ks ++ run))) s'.
Proof.
  intros C Hp. pose proof (compacting_bounds _ _ _ _ _ _ C) as Hb.
  destruct (move_run _ _ _ _ _ _ C) as (d & gap1 & Hm & Hg1 & Hdl & Hd').
  destruct C as (Hd & Hc & H32 & He & Hn).
  assert (Hoff : u32 (zlen (layout pre) + 4) = zlen (layout pre) + 4) by (apply u32_small; unfold is_u32; zl).
  cbn [remove_loop]. mstep. unfold lift. simpl. rewrite Hoff. unfold kAllocationOverhead.
  replace (zlen (layout pre) + 4 - 4) with (zlen (layout pre)) by lia.
  rewrite (u32_small (zlen (layout pre))) by (unfold is_u32; zl).
  rewrite (u32_small (zlen (layout pre) + 4 + zlen e)) by (unfold is_u32; zl).
  destruct (Z.eqb_spec (zlen (layout ks) + zlen gap) (zlen (layout pre))) as [Hr|Hr].
  - assert (run = []) as -> by (apply layout_empty; lia).
    eexists _, (gap ++ slot e). split; [|split; [|split; [|]]].
    4: { rewrite app_nil_r. f_equal. zl. }
    + unfold compacting, set_num. simpl. rewrite Hd, Hn. simpl. rewrite layout_cons, app_nil_r, <- !app_assoc.
      split_and!; [done|rewrite Hc, Hd; zl|done|rewrite He; zl|]. rewrite u32_small by (unfold is_u32; zl). zl.
    + done.
    + zl.
  - replace (zlen (layout pre) - (zlen (layout ks) + zlen gap)) with (zlen (layout run)) by lia.
    rewrite (u32_small (zlen (layout run))) by (unfold is_u32; zl).
    rewrite (u32_small (zlen (layout ks) + zlen (layout run))) by (unfold is_u32; zl).
    assert (Hcmp : forall s1, data_ s1 = d -> capacity s1 = capacity s -> endOffset_ s1 = endOffset_ s ->
      numAllocations s1 = u32 (numAllocations s - 1) ->
      compacting s1 (ks ++ run) (gap1 ++ slot e) [] rest free).
    { intros s1 E1 E2 E3 E4. unfold compacting. rewrite E1, E2, E3, E4, Hd', Hn. simpl.
      rewrite layout_cons, <- !app_assoc. split_and!; [done| |done|rewrite He; zl|].
      - rewrite Hd' in Hdl. rewrite layout_cons, <- !app_assoc in Hdl. rewrite Hdl. done.
      - rewrite u32_small by (unfold is_u32; zl). zl. }
    destruct (Z.eqb_spec (zlen (layout ks)) (zlen (layout ks) + zlen gap)) as [Hz|Hz].
    + assert (gap = []) as -> by (destruct gap; [done|zl]).
      assert (gap1 = []) as -> by (destruct gap1; [done|zl]).
      eexists _, ([] ++ slot e).
      split; [|split; [|split; [|]]]; [| | |simpl; f_equal; zl]; [|done|zl].
      apply Hcmp; simpl; [|done..]. rewrite Hd', Hd. simpl. rewrite !layout_app. by rewrite <- !app_assoc.
    + simpl. rewrite Hm. simpl. eexists _, (gap1 ++ slot e).
      split; [|split; [|split; [|]]]; [| | |f_equal; zl]; [|done|zl].
      by apply Hcmp.
Qed.

Lemma remove_loop_repr (ms : list (bool * bytes)) (s : t) (ks : list bytes) (gap : bytes)
    (run : list bytes) (free : bytes) (pre : list bytes) :
  compacting s ks gap run (ms.*2) free ->
  zlen (layout pre) = zlen (layout ks) + zlen gap + zlen (layout run) ->
  exists s' ks' gap' run',
    remove_loop (allocs_of pre ms) (zlen (layout ks) + zlen gap) (zlen (layout ks)) s
    = (Ok (zlen (layout ks') + zlen gap', zlen (layout ks')), s') /\
    compacting s' ks' gap' run' [] free /\ ks' ++ run' = ks ++ run ++ kept ms /\
    capacity s' = capacity s.
Proof.
  revert s ks gap run pre. induction ms as [|[[] e] ms IH]; intros s ks gap run pre C Hp; cbn [allocs_of app].
  - exists s, ks, gap, run. split_and!; [done|done|by rewrite app_nil_r|done].
  - destruct (remove_step s ks gap run e (ms.*2) free pre (allocs_of (pre ++ [e]) ms) C Hp)
      as (s1 & gap1 & C1 & Hc1 & Hg1 & ->).
    destruct (IH s1 (ks ++ run) gap1 [] (pre ++ [e]) C1) as (s' & ks' & gap' & run' & E & C' & Hk & Hc').
    { zl. }
    exists s', ks', gap', run'. split_and!; [done|done| |by rewrite Hc', Hc1].
    rewrite Hk, kept_true. simpl. by rewrite <- app_assoc.
  - destruct (IH s ks gap (run ++ [e]) (pre ++ [e])) as (s' & ks' & gap' & run' & E & C' & Hk & Hc').
    { unfold compacting in *. by rewrite <- (app_assoc run). }
    { zl. }
    exists s', ks', gap', run'. split_and!; [done|done| |done].
    rewrite Hk, kept_false. by rewrite <- (app_assoc run).
Qed.

Lemma removeAll_repr (s : t) (ms : list (bool * bytes)) :
  repr s (ms.*2) ->
  exists s', removeAll (allocs_of [] ms) s = (Ok tt, s') /\ repr s' (kept ms) /\
             capacity s' = capacity s.
Proof.
  intros R. assert (C : exists free, compacting s [] [] [] (ms.*2) free).
  { destruct R as [[fr Hd] Hc H32 He Hn]. exists fr. unfold compacting. simpl. by rewrite Hd, <- Hc in *. }
  destruct C as (free & C).
  destruct (remove_loop_repr ms s [] [] [] free [] C) as (s1 & ks & gap & run & E & C1 & Hk & Hcap1);
    [done|]. simpl in Hk.
  pose proof (compacting_bounds _ _ _ _ _ _ C1) as Hb. rewrite app_nil_r in Hb.
  destruct (move_run _ _ _ _ _ _ C1) as (d & gap1 & Hm & Hg1 & Hdl & Hd').
  destruct C1 as (Hd & Hc & H32 & He & Hn). rewrite app_nil_r in Hd, He, Hn.
  destruct (allocs_of [] ms) as [|a al] eqn:Ea.
  - simpl. exists s. split; [done|]. split; [|done].
    assert (Hn' : kept ms = ms.*2); [|by rewrite Hn'].
    clear -Ea. revert Ea. generalize (@nil bytes) as pre. induction ms as [|[[] e] ms IH]; intros pre Ea; [done..|].
    rewrite kept_false. simpl. f_equal. by apply (IH (pre ++ [e])).
  - cbn [removeAll]. unfold bind, ret, get, modify. rewrite layout_nil in E. change (zlen ([] : bytes) + zlen ([] : bytes)) with 0 in E.
    change (zlen ([] : bytes)) with 0 in E. rewrite E. rewrite He.
    destruct (Z.eqb_spec (zlen (layout ks) + zlen gap) (zlen (layout ks) + zlen gap + zlen (layout run))) as [Hz|Hz].
    + assert (run = []) as -> by (apply layout_empty; lia). rewrite app_nil_r in *.
      eexists. split; [done|]. split; [|done]. constructor; simpl; try done.
      * exists (gap ++ free). by rewrite Hd, Hk.
      * by rewrite Hk.
      * by rewrite Hn, Hk.
    + replace (zlen (layout ks) + zlen gap + zlen (layout run) - (zlen (layout ks) + zlen gap))
        with (zlen (layout run)) by lia.
      rewrite (u32_small (zlen (layout run))) by (unfold is_u32; zl). unfold lift. rewrite Hm. simpl.
      rewrite u32_small by (unfold is_u32; zl).
      eexists. split; [done|]. split; [|done]. constructor; simpl; try done.
      * exists (gap1 ++ free). by rewrite Hd', Hk.
      * by rewrite Hdl.
      * rewrite <- Hk. zl.
      * by rewrite Hn, Hk.
Qed.

(** Removing one allocation. *)
Lemma remove_repr (s : t) (es1 : list bytes) (e : bytes) (es2 : list bytes) :
  repr s (es1 ++ e :: es2) ->
  exists s', remove (alloc_of es1 e) s = (Ok tt, s') /\ repr s' (es1 ++ es2) /\
             capacity s' = capacity s.
Proof.
  intros R.
  set (ms := ((fun x => (false, x)) <$> es1) ++ (true, e) :: ((fun x => (false, x)) <$> es2)).
  assert (Hf : forall l : list bytes, kept ((fun x => (false, x)) <$> l) = l).
  { induction l as [|x l IH]; [done|]. rewrite fmap_cons, kept_false. by rewrite IH. }
  assert (Hs : ms.*2 = es1 ++ e :: es2).
  { assert (Hi : forall l : list bytes, ((fun x => (false, x)) <$> l).*2 = l).
    { induction l as [|x l IH]; [done|]. by rewrite !fmap_cons, IH. }
    unfold ms. by rewrite fmap_app, fmap_cons, !Hi. }
  assert (Hk : kept ms = es1 ++ es2).
  { unfold ms, kept. rewrite filter_app, fmap_app. fold (kept ((fun x => (false, x)) <$> es1)).
    rewrite Hf. f_equal. apply (Hf es2). }
  assert (Ha : allocs_of [] ms = [alloc_of es1 e]).
  { unfold ms. assert (Hl : forall l pre, allocs_of pre ((fun x => (false, x)) <$> l) = []).
    { induction l as [|x l IH]; intros pre; [done|]. apply IH. }
    assert (Hg : forall l pre, allocs_of pre (((fun x => (false, x)) <$> l) ++ (true, e) :: ((fun x => (false, x)) <$> es2))
      = [alloc_of (pre ++ l) e]).
    { induction l as [|x l IH]; intros pre; simpl.
      - by rewrite Hl, app_nil_r.
      - rewrite IH. by rewrite <- app_assoc. }
    apply (Hg es1 []). }
  rewrite <- Hs in R. destruct (removeAll_repr s ms R) as (s' & E & R' & Hc).
  exists s'. rewrite Hk in R'. rewrite Ha in E. done.
Qed.

(** ** Compaction *)

(** The payloads the iterators show, in order. *)
Definition payloads (s : t) : res (list bytes + unit) :=
  forEach s (fun itr acc =>
    rbind (view_bytes (data_ s) (view itr)) (fun b => Ok (inl (acc ++ [b])))) [].

Lemma payloads_walk (s : t) (es1 es2 acc : list bytes) :
  repr s (es1 ++ es2) ->
  walk_list (R := unit) (fun itr acc =>
    rbind (view_bytes (data_ s) (view itr)) (fun b => Ok (inl (acc ++ [b])))) es1 es2 acc
  = Ok (inl (acc ++ es2)).
Proof.
  revert es1 acc. induction es2 as [|e es2 IH]; intros es1 acc Hr; cbn [walk_list].
  - by rewrite app_nil_r.
  - rewrite (view_bytes_repr s es1 e es2) by done. cbn [rbind].
    rewrite IH by by rewrite <- app_assoc. by rewrite <- app_assoc.
Qed.

Lemma payloads_repr (s : t) (es : list bytes) : repr s es -> payloads s = Ok (inl es).
Proof. intros Hr. unfold payloads. rewrite (forEach_repr _ _ es) by done. by apply payloads_walk. Qed.

Lemma kept_bytes (ms : list (bool * bytes)) :
  zlen (layout (ms.*2)) = zlen (layout (kept ms)) + zlen (layout (snd <$> filter (fun m => fst m = true) ms)).
Proof.
  induction ms as [|[[] e] ms IH]; [done| |]; rewrite fmap_cons, filter_cons.
  - rewrite kept_true, decide_True by done. rewrite fmap_cons, !layout_cons, !zlen_app. cbn [snd]. lia.
  - rewrite kept_false, decide_False by done. rewrite !layout_cons, !zlen_app. cbn [snd]. lia.
Qed.

(** Compaction. Removing any set of allocations, given in storage order,
    from a storage that holds the payloads of a marked list leaves exactly the
    unmarked payloads, byte for byte and in their order, for the iterators to
    find, and gives back precisely the slots of the removed ones. *)
Theorem storage_remove_compacts (s : t) (ms : list (bool * bytes)) :
  repr s (ms.*2) ->
  exists s', removeAll (allocs_of [] ms) s = (Ok tt, s') /\
    payloads s' = Ok (inl (kept ms)) /\ numAllocations s' = zlen (kept ms) /\
    remainingCapacity s' = remainingCapacity s +
      zlen (layout (snd <$> filter (fun m => fst m = true) ms)).
Proof.
  intros Hr. destruct (removeAll_repr s ms Hr) as (s' & E & Hr' & Hc). exists s'.
  split_and!; [done|by apply payloads_repr|apply (repr_num _ _ Hr')|].
  rewrite (remaining_repr _ _ Hr), (remaining_repr _ _ Hr'), Hc, kept_bytes. lia.
Qed.

Definition storage_ex : t := mk 32 3 17 (layout [[1; 2]; [3]; [4; 5]] ++ replicate 15 0).

Lemma storage_remove_compacts_witness :
  exists s', removeAll (allocs_of [] [(false, [1; 2]); (true, [3]); (false, [4; 5])]) storage_ex = (Ok tt, s') /\
    payloads s' = Ok (inl [[1; 2]; [4; 5]]) /\ numAllocations s' = 2 /\
    remainingCapacity s' = remainingCapacity storage_ex +
      zlen (layout (snd <$> filter (fun m => fst m = true) [(false, [1; 2]); (true, [3]); (false, [4; 5])])).
Proof.
  apply (storage_remove_compacts storage_ex [(false, [1; 2]); (true, [3]); (false, [4; 5])]).
  constructor; try reflexivity. by eexists.
Defined.
