(* ===== verification/Bucket.v ===== *)
(** * A bucket of BigHash

    [src/cachelib/navy/bighash/Bucket.{h,cpp}]: the entries of one bucket in
    a [BucketStorage], found by key, inserted with FIFO eviction and removed.
    A bucket is also [bucketSize] bytes on the device; [ofBytes]/[toBytes] are
    the packed layout the code reaches by [reinterpret_cast].

    Callbacks: [checkExpired] is an optional predicate on a value; the
    optional [destructorCb] changes a state [W] of the caller's. *)

From S2P Require Import Prelude Bytes BucketStorage.
From stdpp Require Import base tactics numbers list.

#[local] Open Scope Z_scope.
#[local] Open Scope cachelib_scope.

(** [HashedKey] ([src/cachelib/common/Hash.h]). *)
Record HashedKey : Type := mkHK { key : bytes; keyHash : Z }.

#[export] Instance HashedKey_eq_dec : EqDecision HashedKey.
Proof. solve_decision. Defined.

Inductive DestructorEvent : Type := Recycled | Removed | PutFailed.

(** [navy::checksum], which is folly's crc32 from 0. *)
Class Crc32 : Type := crc32 : bytes -> Z.

(** ** [details::BucketEntry]: an entry at an offset of the storage *)
Module BucketEntry.

Definition kSize : Z := 16.

Definition computeSize (keySize valueSize : Z) : Z := u32 (kSize + keySize + valueSize).

(** What the constructor writes: the two sizes, the hash, the key, the value. *)
Definition entryBytes (hk : HashedKey) (value : bytes) : bytes :=
  le32 (u32 (zlen (key hk))) ++ le32 (u32 (zlen value)) ++ le64 (keyHash hk)
  ++ key hk ++ value.

(** [BucketEntry::create] at a view of the storage. *)
Definition create (d : bytes) (storage : BufferView) (hk : HashedKey) (value : bytes)
    : res bytes :=
  let? o := view_offset storage in store d o (entryBytes hk value).

Definition keySize_ (d : bytes) (o : Z) : res Z := load32 d o.
Definition valueSize_ (d : bytes) (o : Z) : res Z := load32 d (o + 4).
Definition entryKeyHash (d : bytes) (o : Z) : res Z := load64 d (o + 8).

Definition entryKey (d : bytes) (o : Z) : res BufferView :=
  let? ks := keySize_ d o in Ok (mkView ks (Some (o + kSize))).

Definition entryValue (d : bytes) (o : Z) : res BufferView :=
  let? ks := keySize_ d o in
  let? vs := valueSize_ d o in
  Ok (mkView vs (Some (o + kSize + ks))).

(** [hashedKey()], with the key's bytes read. *)
Definition hashedKey (d : bytes) (o : Z) : res HashedKey :=
  let? kv := entryKey d o in
  let? k := view_bytes d kv in
  let? h := entryKeyHash d o in
  Ok (mkHK k h).

(** [hk == hashedKey()]: hashes, then sizes, then bytes. *)
Definition keyEqualsTo (d : bytes) (o : Z) (hk : HashedKey) : res bool :=
  let? h := entryKeyHash d o in
  if negb (keyHash hk =? h) then Ok false else
  let? ks := keySize_ d o in
  if negb (zlen (key hk) =? ks) then Ok false else
  let? k := load d (o + kSize) ks in
  Ok (bytesEqual (key hk) k (length (key hk))).

End BucketEntry.

Module Bucket.
Import BucketEntry.

Record t : Type := mk {
  checksum_ : Z;
  generationTime_ : Z;
  storage_ : BucketStorage.t
}.

Definition kHeaderSize : Z := 24.

Definition set_storage (s : BucketStorage.t) (b : t) : t :=
  mk (checksum_ b) (generationTime_ b) s.
Definition setChecksum (c : Z) (b : t) : t := mk c (generationTime_ b) (storage_ b).

Definition size (b : t) : Z := BucketStorage.numAllocations (storage_ b).
Definition remainingBytes (b : t) : Z := BucketStorage.remainingCapacity (storage_ b).

(** ** The packed layout *)

Definition toBytes (b : t) : bytes :=
  le32 (checksum_ b) ++ le64 (generationTime_ b) ++
  le32 (BucketStorage.capacity (storage_ b)) ++
  le32 (BucketStorage.numAllocations (storage_ b)) ++
  le32 (BucketStorage.endOffset_ (storage_ b)) ++ BucketStorage.data_ (storage_ b).

(** The buffer reinterpreted as a [Bucket]: the fields read in place. *)
Definition ofBytes (v : bytes) : res t :=
  let? c := load32 v 0 in
  let? g := load64 v 4 in
  let? cap := load32 v 12 in
  let? n := load32 v 16 in
  let? e := load32 v 20 in
  let? d := load v kHeaderSize (zlen v - kHeaderSize) in
  Ok (mk c g (BucketStorage.mk cap n e d)).

Definition computeChecksum `{Crc32} (v : bytes) : res Z :=
  let? d := load v 4 (zlen v - 4) in Ok (crc32 d).

(** Placement [new] of a bucket: the header fields are set, the bytes after
    them are left as they are. *)
Definition initNew (v : bytes) (generationTime : Z) : res t :=
  let? d := load v kHeaderSize (zlen v - kHeaderSize) in
  Ok (mk 0 generationTime (BucketStorage.mk (u32 (zlen v - kHeaderSize)) 0 0 d)).

(** ** Lookups *)

Definition data (b : t) : bytes := BucketStorage.data_ (storage_ b).

(** [getIteratorEntry(itr)]: the entry's offset. *)
Definition getIteratorEntry (itr : BucketStorage.Allocation) : res Z :=
  view_offset (BucketStorage.view itr).

Definition find (b : t) (hk : HashedKey) : res BufferView :=
  let? r := BucketStorage.forEach (storage_ b) (fun itr _ =>
    let? o := getIteratorEntry itr in
    let? e := keyEqualsTo (data b) o hk in
    if e then let? v := entryValue (data b) o in Ok (inr v) else Ok (inl tt)) tt in
  match r with inr v => Ok v | inl _ => Ok nullView end.

(** Iterators. *)
Definition getFirst (b : t) : res BucketStorage.Allocation := BucketStorage.getFirst (storage_ b).
Definition getNext (b : t) (itr : BucketStorage.Allocation) : res BucketStorage.Allocation :=
  BucketStorage.getNext (storage_ b) itr.
Definition iterKeyHash (b : t) (itr : BucketStorage.Allocation) : res Z :=
  let? o := getIteratorEntry itr in entryKeyHash (data b) o.

(** A [std::string] built from a [char] pointer: the bytes up to the first zero. A pointer
    with no zero after it in the buffer is read past its end. *)
Fixpoint cstring (d : bytes) : res bytes :=
  match d with
  | [] => Throw UndefinedBehavior
  | x :: d => if x =? 0 then Ok [] else let? r := cstring d in Ok (x :: r)
  end.

(** [randOffset] is the random number drawn below [capacity]. *)
Definition getRandomAlloc (b : t) (randOffset : Z) : res (bytes * BufferView) :=
  let? r := BucketStorage.forEach (storage_ b) (fun itr _ =>
    let? offset := BucketStorage.getOffset itr in
    if randOffset <? offset + v_size (BucketStorage.view itr) then
      let? o := getIteratorEntry itr in
      let? kv := entryKey (data b) o in
      let? ko := view_offset kv in
      let? k := cstring (drop (Z.to_nat ko) (data b)) in
      let? v := entryValue (data b) o in
      Ok (inr (k, v))
    else Ok (inl tt)) tt in
  match r with inr x => Ok x | inl _ => Ok ([], nullView) end.

(** ** Updates *)
Section Updates.
Context {W : Type}.

Definition DestructorCallback : Type := option (HashedKey -> bytes -> DestructorEvent -> W -> W).
Definition ExpiredCheck : Type := option (bytes -> bool).

Context (checkExpired : ExpiredCheck) (destructorCb : DestructorCallback).

Definition onStorage {A} (m : M BucketStorage.t A) : M (t * W) A := fun bw =>
  let '(r, s) := m (storage_ (fst bw)) in (r, (set_storage s (fst bw), snd bw)).

(** [if (destructorCb) destructorCb(entry->hashedKey(), entry->value(), ev)]. *)
Definition callDestructor (d : bytes) (o : Z) (ev : DestructorEvent) (w : W) : res W :=
  match destructorCb with
  | None => Ok w
  | Some cb =>
      let? hk := hashedKey d o in
      let? vv := entryValue d o in
      let? v := view_bytes d vv in
      Ok (cb hk v ev w)
  end.

(** The loop of [removeExpired] with the allocations to remove, the number
    of evictions and the callback's state. *)
Definition expiredBody (check : bytes -> bool) (d : bytes) (itr : BucketStorage.Allocation)
    (acc : list BucketStorage.Allocation * Z * W)
    : res (list BucketStorage.Allocation * Z * W + unit) :=
  let '(removed, evictions, w) := acc in
  let? o := getIteratorEntry itr in
  let? vv := entryValue d o in
  let? v := view_bytes d vv in
  if negb (check v) then Ok (inl acc) else
  let? w := callDestructor d o Recycled w in
  Ok (inl (removed ++ [itr], u32 (evictions + 1), w)).

Definition removeExpired : M (t * W) Z :=
  match checkExpired with
  | None => ret 0
  | Some check =>
      let! bw := get in
      let! r := lift (BucketStorage.forEach (storage_ (fst bw))
                  (expiredBody check (data (fst bw))) ([], 0, snd bw)) in
      match r with
      | inr _ => throw UndefinedBehavior
      | inl (removed, evictions, w) =>
          do! modify (fun bw => (fst bw, w)) in
          do! onStorage (BucketStorage.removeAll removed) in
          ret evictions
      end
  end.

(** The eviction loop of [makeSpace]; it leaves with the last allocation to
    evict. *)
Definition evictBody (d : bytes) (requiredSize : Z) (itr : BucketStorage.Allocation)
    (acc : Z * Z * W) : res (Z * Z * W + BucketStorage.Allocation * Z * W) :=
  let '(evictions, curFreeSpace, w) := acc in
  let evictions := u32 (evictions + 1) in
  let? o := getIteratorEntry itr in
  let? w := callDestructor d o Recycled w in
  let curFreeSpace :=
    u32 (curFreeSpace + BucketStorage.slotSize (v_size (BucketStorage.view itr))) in
  if requiredSize <=? curFreeSpace then Ok (inr (itr, evictions, w))
  else Ok (inl (evictions, curFreeSpace, w)).

(** [(evictions, evictionExpired)]. Running off the end of the storage breaks
    the [XDCHECK] of the loop and dereferences a null iterator. *)
Definition makeSpace (size : Z) : M (t * W) (Z * Z) :=
  let requiredSize := BucketStorage.slotSize size in
  let! free := gets (fun bw => remainingBytes (fst bw)) in
  if requiredSize <=? free then ret (0, 0) else
  let! evictionExpired := removeExpired in
  let! curFreeSpace := gets (fun bw => remainingBytes (fst bw)) in
  if (0 <? evictionExpired) && (requiredSize <=? curFreeSpace)
  then ret (evictionExpired, evictionExpired) else
  let! bw := get in
  let! r := lift (BucketStorage.forEach (storage_ (fst bw))
              (evictBody (data (fst bw)) requiredSize)
              (evictionExpired, curFreeSpace, snd bw)) in
  match r with
  | inl _ => throw UndefinedBehavior
  | inr (itr, evictions, w) =>
      do! modify (fun bw => (fst bw, w)) in
      do! onStorage (BucketStorage.removeUntil itr) in
      ret (evictions, evictionExpired)
  end.

Definition insert (hk : HashedKey) (value : bytes) : M (t * W) (Z * Z) :=
  let size := computeSize (u32 (zlen (key hk))) (u32 (zlen value)) in
  let! r := makeSpace size in
  let! alloc := onStorage (BucketStorage.allocate size) in
  let! bw := get in
  let! d := lift (create (data (fst bw)) (BucketStorage.view alloc) hk value) in
  do! onStorage (modify (BucketStorage.set_data d)) in
  ret r.

Definition remove (hk : HashedKey) : M (t * W) Z :=
  let! bw := get in
  let d := data (fst bw) in
  let! r := lift (BucketStorage.forEach (storage_ (fst bw)) (fun itr _ =>
    let? o := getIteratorEntry itr in
    let? e := keyEqualsTo d o hk in
    Ok (if e : bool then inr itr else inl tt)) tt) in
  match r with
  | inl _ => ret 0
  | inr itr =>
      let! o := lift (getIteratorEntry itr) in
      let! w := lift (callDestructor d o Removed (snd bw)) in
      do! modify (fun bw => (fst bw, w)) in
      do! onStorage (BucketStorage.remove itr) in
      ret 1
  end.
End Updates.
End Bucket.
