(* ===== verification/BucketSpec.v ===== *)
(** * A bucket of BigHash: correctness *)

From S2P Require Import Prelude Bytes BucketStorage Bucket.
From stdpp Require Import base tactics numbers list.


(** ** A bucket of BigHash: entries

    [bk_repr b es] says that a bucket holds exactly the entries [es], oldest
    first. Lookup, insertion with eviction and removal are characterised on
    that list. *)

Import Bucket BucketEntry.

#[local] Open Scope Z_scope.

Notation entry := (HashedKey * bytes)%type.

Definition enc (e : entry) : bytes := entryBytes (fst e) (snd e).

Record entry_ok (e : entry) : Prop := {
  ok_key : is_bytes (key (fst e));
  ok_value : is_bytes (snd e);
  ok_hash : is_u64 (keyHash (fst e))
}.

Record bk_repr (b : t) (es : list entry) : Prop := {
  bk_storage : repr (storage_ b) (enc <$> es);
  bk_entries : Forall entry_ok es
}.

(** The bytes of storage an entry takes. *)
Definition esize (e : entry) : Z := 20 + zlen (key (fst e)) + zlen (snd e).
Definition used (es : list entry) : Z := sumZ (esize <$> es).

Lemma zlen_enc (e : entry) : zlen (enc e) = 16 + zlen (key (fst e)) + zlen (snd e).
Proof. unfold enc, entryBytes. zl. Qed.

Lemma used_layout (es : list entry) : zlen (layout (enc <$> es)) = used es.
Proof.
  unfold used. induction es as [|e es IH]; [done|]. rewrite !fmap_cons. simpl.
  rewrite layout_cons, zlen_app, IH, zlen_slot, zlen_enc. unfold esize. lia.
Qed.

Lemma used_app (xs ys : list entry) : used (xs ++ ys) = used xs + used ys.
Proof. unfold used. by rewrite fmap_app, sumZ_app. Qed.

Lemma used_cons (e : entry) (es : list entry) : used (e :: es) = esize e + used es.
Proof. done. Qed.

Lemma esize_pos (e : entry) : 20 <= esize e.
Proof. unfold esize. zl. Qed.

Lemma used_nonneg (es : list entry) : 0 <= used es.
Proof. rewrite <- used_layout. apply zlen_nonneg. Qed.

(** ** Reading an entry *)

Section Entry.
Context (a c : bytes) (hk : HashedKey) (v : bytes).
Context (Hk32 : zlen (key hk) < 2 ^ 32) (Hv32 : zlen v < 2 ^ 32).
Context (Hok : entry_ok (hk, v)).

Notation d := (a ++ entryBytes hk v ++ c).
Notation o := (zlen a).

Lemma entry_keySize : keySize_ d o = Ok (zlen (key hk)).
Proof using Hk32.
  unfold keySize_, load32, entryBytes. rewrite <- !app_assoc, load_app by zl. simpl.
  rewrite !u32_small, le_to_Z_le32 by (unfold is_u32; zl). done.
Qed.

Lemma entry_valueSize : valueSize_ d o = Ok (zlen v).
Proof using Hv32.
  unfold valueSize_, load32, entryBytes. rewrite <- !app_assoc, (app_assoc a), load_app by zl. simpl.
  rewrite !u32_small, le_to_Z_le32 by (unfold is_u32; zl). done.
Qed.

Lemma entry_hash : entryKeyHash d o = Ok (keyHash hk).
Proof using Hok.
  unfold entryKeyHash, load64, entryBytes.
  rewrite <- !app_assoc, (app_assoc a), (app_assoc (a ++ _)), load_app by zl. simpl.
  by rewrite le_to_Z_le64 by apply Hok.
Qed.

Lemma entry_keyBytes (n : Z) : n = zlen (key hk) -> load d (o + kSize) n = Ok (key hk).
Proof.
  intros ->. unfold entryBytes, kSize.
  rewrite <- !app_assoc, (app_assoc a), (app_assoc (a ++ _)), (app_assoc ((a ++ _) ++ _)).
  apply load_app; zl.
Qed.

Lemma entry_value :
  entryValue d o = Ok (mkView (zlen v) (Some (o + kSize + zlen (key hk)))).
Proof using Hk32 Hv32. unfold entryValue. by rewrite entry_keySize, entry_valueSize. Qed.

Lemma entry_valueBytes :
  view_bytes d (mkView (zlen v) (Some (o + kSize + zlen (key hk)))) = Ok v.
Proof.
  unfold view_bytes, entryBytes, kSize. simpl.
  rewrite <- !app_assoc, (app_assoc a), (app_assoc (a ++ _)), (app_assoc ((a ++ _) ++ _)),
    (app_assoc (((a ++ _) ++ _) ++ _)).
  apply load_app; zl.
Qed.

Lemma entry_hashedKey : hashedKey d o = Ok hk.
Proof using Hk32 Hok.
  unfold hashedKey, entryKey. rewrite entry_keySize. simpl. unfold view_bytes. simpl.
  rewrite entry_keyBytes by done. simpl. rewrite entry_hash. simpl. by destruct hk.
Qed.

Lemma entry_keyEqualsTo (hk' : HashedKey) :
  is_bytes (key hk') -> keyEqualsTo d o hk' = Ok (bool_decide (hk' = hk)).
Proof using Hk32 Hok.
  intros Hb. unfold keyEqualsTo. rewrite entry_hash. simpl.
  destruct (Z.eqb_spec (keyHash hk') (keyHash hk)) as [Hh|Hh]; simpl.
  2: { rewrite bool_decide_eq_false_2; [done|]. by intros ->. }
  rewrite entry_keySize. simpl.
  destruct (Z.eqb_spec (zlen (key hk')) (zlen (key hk))) as [Hl|Hl]; simpl.
  2: { rewrite bool_decide_eq_false_2; [done|]. by intros ->. }
  rewrite entry_keyBytes by done. simpl. unfold zlen in Hl.
  rewrite bytesEqual_eq by (try apply Hok; done || lia). f_equal.
  rewrite firstn_all, take_ge by lia. apply bool_decide_ext.
  destruct hk as [k h], hk' as [k' h']; simpl in *. split; [intros ->; by subst|by intros [= -> ->]].
Qed.
End Entry.

(** The entry behind an iterator. *)
Lemma bk_split (b : t) (es1 : list entry) (e : entry) (es2 : list entry) :
  bk_repr b (es1 ++ e :: es2) ->
  exists x y, data b = x ++ enc e ++ y /\
    getIteratorEntry (alloc_of (enc <$> es1) (enc e)) = Ok (zlen x) /\
    entry_ok e /\ zlen (key (fst e)) < 2 ^ 32 /\ zlen (snd e) < 2 ^ 32.
Proof.
  intros [R Ho]. pose proof (repr_bounds _ _ R) as Hb. destruct R as [[fr Hd] Hc H32 He Hn].
  rewrite fmap_app, fmap_cons in Hd, Hb. rewrite layout_app, layout_cons, slot_eq in Hd.
  exists (layout (enc <$> es1) ++ le32 (zlen (enc e))), (layout (enc <$> es2) ++ fr).
  unfold data. rewrite Hd, <- !app_assoc.
  apply Forall_app in Ho as [_ [Ho _]%Forall_cons].
  autorewrite with zlen in Hb. rewrite zlen_enc in Hb.
  split_and!; [done| |done|zl|zl]. unfold getIteratorEntry, view_offset. simpl. f_equal. zl.
Qed.

(** ** [find] *)

Fixpoint lookup_key (hk : HashedKey) (es : list entry) : option bytes :=
  match es with
  | [] => None
  | e :: es => if bool_decide (hk = fst e) then Some (snd e) else lookup_key hk es
  end.

Lemma lookup_key_None (hk : HashedKey) (es : list entry) : lookup_key hk es = None <-> hk ∉ es.*1.
Proof.
  induction es as [|e es IH]; simpl.
  - split; [intros _; apply not_elem_of_nil|done].
  - rewrite not_elem_of_cons. case_bool_decide; [naive_solver|]. rewrite IH. naive_solver.
Qed.

Lemma lookup_key_app (hk : HashedKey) (xs ys : list entry) :
  lookup_key hk (xs ++ ys) = match lookup_key hk xs with Some v => Some v | None => lookup_key hk ys end.
Proof. induction xs as [|e xs IH]; simpl; [done|]. by case_bool_decide. Qed.

Lemma lookup_key_split (hk : HashedKey) (es : list entry) (v : bytes) :
  lookup_key hk es = Some v ->
  exists es1 es2, es = es1 ++ (hk, v) :: es2 /\ lookup_key hk es1 = None.
Proof.
  induction es as [|[hk' v'] es IH]; simpl; [done|]. case_bool_decide as Hh; simpl in *.
  - subst. intros [= ->]. by exists [], es.
  - intros (es1 & es2 & -> & Hn)%IH. exists ((hk', v') :: es1), es2. split; [done|].
    simpl. by rewrite bool_decide_eq_false_2.
Qed.

(** The loop that looks for a key stops at its first entry. *)
Lemma forEach_key {R} (b : t) (es : list entry) (hk : HashedKey)
    (body : BucketStorage.Allocation -> unit -> res (unit + R)) :
  bk_repr b es -> is_bytes (key hk) ->
  (forall xs e ys, es = xs ++ e :: ys -> hk <> fst e ->
     body (alloc_of (enc <$> xs) (enc e)) tt = Ok (inl tt)) ->
  match lookup_key hk es with
  | None => BucketStorage.forEach (storage_ b) body tt = Ok (inl tt)
  | Some v => exists es1 es2, es = es1 ++ (hk, v) :: es2 /\ lookup_key hk es1 = None /\
      forall x, body (alloc_of (enc <$> es1) (enc (hk, v))) tt = Ok (inr x) ->
                BucketStorage.forEach (storage_ b) body tt = Ok (inr x)
  end.
Proof.
  intros Hr Hb Hs.
  assert (Hw : forall xs ys zs, es = xs ++ ys ++ zs -> lookup_key hk ys = None ->
    walk_list body (enc <$> xs) (enc <$> (ys ++ zs)) tt =
    walk_list body (enc <$> (xs ++ ys)) (enc <$> zs) tt).
  { intros xs ys. revert xs. induction ys as [|e ys IH]; intros xs zs He Ha; [by rewrite app_nil_r|].
    simpl in Ha. case_bool_decide as Hne; [done|].
    cbn [app]. rewrite fmap_cons. cbn [walk_list]. rewrite (Hs xs e (ys ++ zs)) by done. simpl.
    replace ((enc <$> xs) ++ [enc e]) with (enc <$> (xs ++ [e])) by by rewrite fmap_app.
    rewrite IH; [by rewrite <- app_assoc|by rewrite <- app_assoc|done]. }
  destruct (lookup_key hk es) as [v|] eqn:Ea.
  - destruct (lookup_key_split _ _ _ Ea) as (es1 & es2 & He & Hn). exists es1, es2.
    split_and!; [done..|]. intros x Hx. rewrite (forEach_repr _ _ _ _ (bk_storage _ _ Hr)).
    change (walk_list body (enc <$> []) (enc <$> es) tt = Ok (inr x)).
    rewrite He, (Hw [] es1 ((hk, v) :: es2)) by done. simpl. by rewrite Hx.
  - rewrite (forEach_repr _ _ _ _ (bk_storage _ _ Hr)).
    change (walk_list body (enc <$> []) (enc <$> es) tt = Ok (inl tt)).
    rewrite <- (app_nil_r es), (Hw [] es []); [done| |done]. by rewrite app_nil_r.
Qed.

Lemma find_repr (b : t) (es : list entry) (hk : HashedKey) :
  bk_repr b es -> is_bytes (key hk) ->
  match lookup_key hk es with
  | None => find b hk = Ok nullView
  | Some v => exists vw, find b hk = Ok vw /\ isNull vw = false /\ view_bytes (data b) vw = Ok v
  end.
Proof.
  intros Hr Hb. unfold find.
  match goal with |- context [BucketStorage.forEach _ ?body tt] =>
    pose proof (forEach_key b es hk body Hr Hb) as Hf end.
  assert (Hmiss : forall xs e ys, es = xs ++ e :: ys -> hk <> fst e ->
    (let? o := getIteratorEntry (alloc_of (enc <$> xs) (enc e)) in
     let? eq := keyEqualsTo (data b) o hk in
     if eq then let? v := entryValue (data b) o in Ok (inr v) else Ok (inl tt))%cl
    = Ok (inl tt) :> res (unit + BufferView)).
  { intros xs [hk' v] ys -> Hne. destruct (bk_split _ _ _ _ Hr) as (x & y & Hd & Hi & Hok & H1 & H2).
    rewrite Hi, Hd. unfold enc. cbn [rbind fst snd]. rewrite entry_keyEqualsTo by done. simpl.
    by rewrite bool_decide_eq_false_2. }
  specialize (Hf Hmiss). destruct (lookup_key hk es) as [v|].
  - destruct Hf as (es1 & es2 & -> & _ & Hf).
    destruct (bk_split _ _ _ _ Hr) as (x & y & Hd & Hi & Hok & H1 & H2). simpl in H1, H2.
    exists (mkView (zlen v) (Some (zlen x + kSize + zlen (key hk)))).
    rewrite (Hf (mkView (zlen v) (Some (zlen x + kSize + zlen (key hk))))).
    + simpl. split_and!; [done..|]. rewrite Hd. by apply entry_valueBytes.
    + rewrite Hi, Hd. unfold enc. cbn [rbind fst snd]. rewrite entry_keyEqualsTo by done. simpl.
      rewrite bool_decide_eq_true_2 by done. by rewrite entry_value.
  - by rewrite Hf.
Qed.

Section Updates.
Context {W : Type} (checkExpired : ExpiredCheck) (destructorCb : DestructorCallback (W := W)).

(** The callback's effect on the caller's state. *)
Definition notify (ev : DestructorEvent) (w : W) (e : entry) : W :=
  match destructorCb with None => w | Some cb => cb (fst e) (snd e) ev w end.

Lemma callDestructor_entry (x y : bytes) (e : entry) (ev : DestructorEvent) (w : W) :
  entry_ok e -> zlen (key (fst e)) < 2 ^ 32 -> zlen (snd e) < 2 ^ 32 ->
  callDestructor destructorCb (x ++ enc e ++ y) (zlen x) ev w = Ok (notify ev w e).
Proof.
  intros Hok H1 H2. unfold callDestructor, notify. destruct destructorCb as [cb|]; [|done].
  destruct e as [hk v]. unfold enc. simpl in *. rewrite entry_hashedKey by done. simpl.
  rewrite entry_value by done. simpl. by rewrite entry_valueBytes.
Qed.

Lemma set_storage_same (b : t) : set_storage (storage_ b) b = b.
Proof. by destruct b. Qed.

Lemma bk_repr_storage (b : t) (s : BucketStorage.t) (es : list entry) :
  repr s (enc <$> es) -> Forall entry_ok es -> bk_repr (set_storage s b) es.
Proof. by constructor. Qed.

Lemma bk_repr_used (b : t) (es : list entry) :
  bk_repr b es ->
  remainingBytes b = BucketStorage.capacity (storage_ b) - used es /\
  used es <= BucketStorage.capacity (storage_ b) < 2 ^ 32 /\
  4 * zlen es <= BucketStorage.capacity (storage_ b).
Proof.
  intros [R _]. pose proof (repr_bounds _ _ R) as Hb. rewrite used_layout in Hb.
  unfold remainingBytes. rewrite (remaining_repr _ _ R), used_layout.
  unfold zlen in *. rewrite length_fmap in Hb. split_and!; [done|lia..].
Qed.

(** ** [remove] *)

Lemma bucket_remove_repr (b : t) (es : list entry) (hk : HashedKey) (w : W) :
  bk_repr b es -> is_bytes (key hk) ->
  match lookup_key hk es with
  | None => remove destructorCb hk (b, w) = (Ok 0, (b, w))
  | Some v => exists es1 es2 s', es = es1 ++ (hk, v) :: es2 /\ lookup_key hk es1 = None /\
      remove destructorCb hk (b, w) = (Ok 1, (set_storage s' b, notify Removed w (hk, v))) /\
      bk_repr (set_storage s' b) (es1 ++ es2) /\
      BucketStorage.capacity s' = BucketStorage.capacity (storage_ b)
  end.
Proof.
  intros Hr Hb. unfold remove. unfold bind, get, lift. cbn [fst snd].
  match goal with |- context [BucketStorage.forEach _ ?body tt] =>
    pose proof (forEach_key b es hk body Hr Hb) as Hf end.
  assert (Hmiss : forall xs e ys, es = xs ++ e :: ys -> hk <> fst e ->
    (let? o := getIteratorEntry (alloc_of (enc <$> xs) (enc e)) in
     let? eq := keyEqualsTo (data b) o hk in
     Ok (if eq : bool then inr (alloc_of (enc <$> xs) (enc e)) else inl tt))%cl
    = Ok (inl tt) :> res (unit + BucketStorage.Allocation)).
  { intros xs [hk' v] ys -> Hne. destruct (bk_split _ _ _ _ Hr) as (x & y & Hd & Hi & Hok & H1 & H2).
    rewrite Hi, Hd. unfold enc at 1. cbn [rbind fst snd]. rewrite entry_keyEqualsTo by done. simpl.
    by rewrite bool_decide_eq_false_2. }
  specialize (Hf Hmiss). destruct (lookup_key hk es) as [v|].
  - destruct Hf as (es1 & es2 & He & Hn & Hf). subst es.
    destruct (bk_split _ _ _ _ Hr) as (x & y & Hd & Hi & Hok & H1 & H2). simpl in H1, H2.
    pose proof (bk_storage _ _ Hr) as Hst. rewrite fmap_app, fmap_cons in Hst.
    destruct (remove_repr _ _ _ _ Hst) as (s' & Es & Rs & Hc).
    exists es1, es2, s'. split_and!; [done..| | |done].
    + rewrite (Hf (alloc_of (enc <$> es1) (enc (hk, v)))).
      * cbn [rbind]. rewrite Hi, Hd, callDestructor_entry by done.
        unfold modify, onStorage. cbn [fst snd]. rewrite Es. done.
      * rewrite Hi, Hd. unfold enc at 1. cbn [rbind fst snd]. rewrite entry_keyEqualsTo by done. simpl.
        by rewrite bool_decide_eq_true_2.
    + apply bk_repr_storage; [by rewrite fmap_app|].
      pose proof (bk_entries _ _ Hr) as Hen. apply Forall_app in Hen as [? [_ ?]%Forall_cons].
      by apply Forall_app.
  - rewrite Hf. done.
Qed.

(** ** [removeExpired] *)

(** What the expiry check finds in a list of entries. *)
Definition is_expired (e : entry) : bool :=
  match checkExpired with None => false | Some check => check (snd e) end.
Definition expired (es : list entry) : list entry := filter is_expired es.
Definition unexpired (es : list entry) : list entry := filter (fun e => negb (is_expired e)) es.
Definition marks (es : list entry) : list (bool * bytes) := (fun e => (is_expired e, enc e)) <$> es.

Lemma marks_snd (es : list entry) : (marks es).*2 = enc <$> es.
Proof. unfold marks. rewrite <- list_fmap_compose. done. Qed.

Lemma marks_cons (e : entry) (es : list entry) : marks (e :: es) = (is_expired e, enc e) :: marks es.
Proof. done. Qed.

Lemma expired_cons (e : entry) (es : list entry) :
  expired (e :: es) = if is_expired e then e :: expired es else expired es.
Proof. unfold expired. rewrite filter_cons. by destruct (is_expired e). Qed.

Lemma fresh_cons (e : entry) (es : list entry) :
  unexpired (e :: es) = if is_expired e then unexpired es else e :: unexpired es.
Proof. unfold unexpired. rewrite filter_cons. by destruct (is_expired e). Qed.

Lemma fresh_Forall (P : entry -> Prop) (es : list entry) : Forall P es -> Forall P (unexpired es).
Proof.
  induction 1 as [|e es He Hes IH]; [by apply Forall_nil|].
  rewrite fresh_cons. destruct (is_expired e); [done|]. by apply Forall_cons.
Qed.

Lemma marks_kept (es : list entry) : kept (marks es) = enc <$> unexpired es.
Proof.
  induction es as [|e es IH]; [done|]. rewrite marks_cons, fresh_cons.
  destruct (is_expired e); [by rewrite kept_true|by rewrite kept_false, IH].
Qed.

Lemma expired_walk (check : bytes -> bool) (b : t) (es1 es2 : list entry)
    (rm : list BucketStorage.Allocation) (n : Z) (w : W) :
  checkExpired = Some check -> bk_repr b (es1 ++ es2) -> 0 <= n -> n + zlen es2 < 2 ^ 32 ->
  walk_list (expiredBody destructorCb check (data b)) (enc <$> es1) (enc <$> es2) (rm, n, w)
  = Ok (inl (rm ++ allocs_of (enc <$> es1) (marks es2), n + zlen (expired es2),
             foldl (notify Recycled) w (expired es2))).
Proof.
  intros Hc. revert es1 rm n w. induction es2 as [|e es2 IH]; intros es1 rm n w Hr Hn Hl.
  { simpl. rewrite app_nil_r. change (zlen (expired [])) with 0. by rewrite Z.add_0_r. }
  destruct (bk_split _ _ _ _ Hr) as (x & y & Hd & Hi & Hok & H1 & H2).
  rewrite (cons_middle e es1 es2), app_assoc in Hr. specialize (IH (es1 ++ [e])).
  assert (Hcb := callDestructor_entry x y e Recycled w Hok H1 H2). rewrite <- Hd in Hcb.
  assert (Hv : entryValue (data b) (zlen x)
    = Ok (mkView (zlen (snd e)) (Some (zlen x + kSize + zlen (key (fst e)))))).
  { rewrite Hd. by apply entry_value. }
  assert (Hvb : view_bytes (data b) (mkView (zlen (snd e)) (Some (zlen x + kSize + zlen (key (fst e)))))
    = Ok (snd e)).
  { rewrite Hd. by apply entry_valueBytes. }
  rewrite fmap_cons. cbn [walk_list]. unfold expiredBody at 1. rewrite Hi. cbn [rbind].
  rewrite Hv. cbn [rbind]. rewrite Hvb. cbn [rbind].
  replace ((enc <$> es1) ++ [enc e]) with (enc <$> (es1 ++ [e])) by by rewrite fmap_app.
  rewrite zlen_cons in Hl. pose proof (zlen_nonneg es2).
  rewrite marks_cons, expired_cons. cbn [allocs_of].
  replace ((enc <$> es1) ++ [enc e]) with (enc <$> (es1 ++ [e])) by by rewrite fmap_app.
  unfold is_expired in *. rewrite Hc in *. destruct (check (snd e)); cbn [negb].
  - rewrite Hcb. cbn [rbind]. rewrite u32_small by (unfold is_u32; lia).
    rewrite IH by (done || lia). rewrite zlen_cons, <- app_assoc. do 4 f_equal. lia.
  - cbn [rbind]. by rewrite IH by (done || lia).
Qed.

Lemma removeExpired_repr (b : t) (es : list entry) (w : W) :
  bk_repr b es ->
  exists s', removeExpired checkExpired destructorCb (b, w) =
    (Ok (zlen (expired es)), (set_storage s' b, foldl (notify Recycled) w (expired es))) /\
    bk_repr (set_storage s' b) (unexpired es) /\
    BucketStorage.capacity s' = BucketStorage.capacity (storage_ b).
Proof.
  intros Hr. destruct (bk_repr_used _ _ Hr) as (_ & Hu & Hl).
  destruct (checkExpired) as [check|] eqn:Hc.
  - pose proof (bk_storage _ _ Hr) as Hst.
    pose proof (expired_walk check b [] es [] 0 w Hc Hr ltac:(lia) ltac:(lia)) as Hw.
    rewrite <- marks_snd in Hst. destruct (removeAll_repr _ _ Hst) as (s' & Es & Rs & Hcap).
    exists s'. unfold removeExpired, bind, get, lift. cbn [fst snd].
    rewrite marks_snd in Hst. rewrite (forEach_repr _ _ _ _ Hst).
    change (@nil bytes) with (enc <$> ([] : list entry)). rewrite Hw. cbn [app].
    unfold modify, onStorage, ret. cbn [fst snd]. change (enc <$> []) with (@nil bytes). rewrite Es.
    split_and!; [done| |done]. apply bk_repr_storage; [by rewrite marks_kept in Rs|].
    by apply fresh_Forall, Hr.
  - assert (He : expired es = [] /\ unexpired es = es).
    { clear -Hc. induction es as [|e es [IH1 IH2]]; [done|]. rewrite expired_cons, fresh_cons, IH1, IH2.
      unfold is_expired. by rewrite Hc. }
    destruct He as [-> ->]. exists (storage_ b). by rewrite set_storage_same.
Qed.

(** ** [makeSpace] *)

(** The shortest non-empty prefix whose removal frees enough, and the rest. *)
Fixpoint evict (required free : Z) (es : list entry) : list entry * list entry :=
  match es with
  | [] => ([], [])
  | e :: es =>
      if required <=? free + esize e then ([e], es)
      else let '(ev, rest) := evict required (free + esize e) es in (e :: ev, rest)
  end.

Lemma slotSize_entry (e : entry) :
  esize e < 2 ^ 32 -> BucketStorage.slotSize (zlen (enc e)) = esize e.
Proof.
  intros H. unfold BucketStorage.slotSize, BucketStorage.kAllocationOverhead. rewrite zlen_enc.
  unfold esize in *. rewrite u32_small; [lia|]. unfold is_u32. zl.
Qed.

Lemma evict_walk (b : t) (required free n : Z) (es1 es2 : list entry) (w : W) :
  bk_repr b (es1 ++ es2) -> 0 <= free < required -> required <= free + used es2 < 2 ^ 32 ->
  0 <= n -> n + zlen es2 < 2 ^ 32 ->
  exists front last rest,
    evict required free es2 = (front ++ [last], rest) /\ es2 = front ++ last :: rest /\
    free + used front < required <= free + used front + esize last /\
    walk_list (evictBody destructorCb (data b) required) (enc <$> es1) (enc <$> es2) (n, free, w)
    = Ok (inr (alloc_of (enc <$> (es1 ++ front)) (enc last), n + zlen (front ++ [last]),
               foldl (notify Recycled) w (front ++ [last]))).
Proof.
  revert es1 free n w. induction es2 as [|e es2 IH]; intros es1 free n w Hr Hf Hu Hn Hl.
  { unfold used in Hu. simpl in Hu. lia. }
  destruct (bk_split _ _ _ _ Hr) as (x & y & Hd & Hi & Hok & H1 & H2).
  rewrite (cons_middle e es1 es2), app_assoc in Hr.
  assert (Hcb := callDestructor_entry x y e Recycled w Hok H1 H2). rewrite <- Hd in Hcb.
  rewrite used_cons in Hu. pose proof (used_nonneg es2). pose proof (esize_pos e).
  rewrite zlen_cons in Hl. pose proof (zlen_nonneg es2).
  rewrite fmap_cons. cbn [walk_list evict]. unfold evictBody at 1. rewrite Hi. cbn [rbind].
  rewrite Hcb. cbn [rbind BucketStorage.view alloc_of v_size].
  rewrite slotSize_entry by lia. rewrite !u32_small by (unfold is_u32; lia).
  destruct (Z.leb_spec required (free + esize e)) as [Hle|Hlt]; cbn [rbind].
  - exists [], e, es2. split_and!; [done..| | |].
    + unfold used. simpl. lia.
    + unfold used. simpl. lia.
    + by rewrite app_nil_r.
  - replace ((enc <$> es1) ++ [enc e]) with (enc <$> (es1 ++ [e])) by by rewrite fmap_app.
    destruct (IH (es1 ++ [e]) (free + esize e) (n + 1) (notify Recycled w e))
      as (front & last & rest & -> & -> & Hm & ->); [done|lia..|].
    exists (e :: front), last, rest. rewrite used_cons. split_and!; [done|done|lia|lia|].
    rewrite <- app_assoc. cbn [app foldl]. rewrite zlen_cons. do 3 f_equal. f_equal. lia.
Qed.

(** What [makeSpace] does to the entries: nothing when there is room, the
    expired entries go when that is enough, and otherwise the oldest of the
    others go too. *)
Definition make_space (cap required : Z) (es : list entry)
    : list entry * list entry * list entry :=
  if required <=? cap - used es then ([], [], es)
  else if bool_decide (expired es <> []) && (required <=? cap - used (unexpired es))
  then (expired es, [], unexpired es)
  else let '(ev, rest) := evict required (cap - used (unexpired es)) (unexpired es) in
       (expired es, ev, rest).

Lemma used_fresh (es : list entry) : used es = used (unexpired es) + used (expired es).
Proof.
  induction es as [|e es IH]; [done|]. rewrite fresh_cons, expired_cons, used_cons.
  destruct (is_expired e); rewrite used_cons; lia.
Qed.

Lemma makeSpace_repr (b : t) (es : list entry) (size : Z) (w : W) :
  bk_repr b es -> 0 <= size -> 4 + size <= BucketStorage.capacity (storage_ b) ->
  let cap := BucketStorage.capacity (storage_ b) in
  let '(ex, ev, rest) := make_space cap (4 + size) es in
  exists s', makeSpace checkExpired destructorCb size (b, w) =
    (Ok (zlen ex + zlen ev, zlen ex),
     (set_storage s' b, foldl (notify Recycled) w (ex ++ ev))) /\
    bk_repr (set_storage s' b) rest /\ BucketStorage.capacity s' = cap /\
    used rest + 4 + size <= cap.
Proof.
  intros Hr Hs Hc cap. destruct (bk_repr_used _ _ Hr) as (Hrem & Hu & Hl). fold cap in Hrem, Hu, Hl, Hc.
  unfold make_space, makeSpace, bind, gets. cbn [fst].
  unfold BucketStorage.slotSize, BucketStorage.kAllocationOverhead.
  rewrite (u32_small (4 + size)) by (unfold is_u32; lia). rewrite Hrem.
  destruct (Z.leb_spec (4 + size) (cap - used es)) as [Hfit|Hno].
  { exists (storage_ b). rewrite set_storage_same. split_and!; [done|done|done|lia]. }
  destruct (removeExpired_repr b es w Hr) as (s1 & -> & Hr1 & Hcap1). fold cap in Hcap1.
  destruct (bk_repr_used _ _ Hr1) as (Hrem1 & Hu1 & Hl1). cbn [storage_ set_storage] in Hrem1, Hu1, Hl1.
  rewrite Hcap1 in Hrem1, Hu1, Hl1. cbn [fst]. rewrite Hrem1.
  replace (0 <? zlen (expired es)) with (bool_decide (expired es <> [])).
  2: { destruct (expired es) as [|e l]; [done|]. rewrite bool_decide_eq_true_2 by done.
       symmetry. apply Z.ltb_lt. rewrite zlen_cons. zl. }
  destruct (bool_decide (expired es <> []) && (4 + size <=? cap - used (unexpired es))) eqn:Hb.
  { apply andb_true_iff in Hb as [_ Hb%Z.leb_le]. exists s1.
    split_and!; [|done|done|lia]. unfold ret. by rewrite app_nil_r, Z.add_0_r. }
  assert (Hlt : cap - used (unexpired es) < 4 + size).
  { apply andb_false_iff in Hb as [Hb|Hb%Z.leb_gt]; [|done].
    apply bool_decide_eq_false in Hb. pose proof (used_fresh es) as Hf.
    destruct (expired es); [|by destruct Hb]. unfold used in *. simpl in *. lia. }
  unfold get, lift. cbn [fst snd].
  destruct (evict_walk (set_storage s1 b) (4 + size) (cap - used (unexpired es)) (zlen (expired es))
    [] (unexpired es) (foldl (notify Recycled) w (expired es)))
    as (front & last & rest & -> & Hsp & Hm & Hw); [done|lia|lia|zl| |].
  { assert (zlen (expired es) + zlen (unexpired es) = zlen es); [|lia].
    clear. induction es as [|e es IH]; [done|].
    rewrite expired_cons, fresh_cons, zlen_cons. destruct (is_expired e); rewrite zlen_cons; lia. }
  rewrite (forEach_repr _ _ _ _ (bk_storage _ _ Hr1)).
  change (@nil bytes) with (enc <$> ([] : list entry)). rewrite Hw. cbn [app].
  pose proof (bk_storage _ _ Hr1) as Hst. rewrite Hsp, fmap_app, fmap_cons in Hst.
  destruct (removeUntil_repr _ _ _ _ Hst) as (s2 & Es & Rs & Hcap2).
  cbn [storage_ set_storage] in Es, Hcap2.
  exists s2. unfold modify, onStorage, ret. cbn [fst snd storage_ set_storage]. rewrite Es.
  split_and!.
  - do 2 f_equal. by rewrite <- foldl_app.
  - apply bk_repr_storage; [done|]. pose proof (bk_entries _ _ Hr1) as Hen.
    rewrite Hsp in Hen. by apply Forall_app in Hen as [_ [_ ?]%Forall_cons].
  - congruence.
  - pose proof (f_equal used Hsp) as Hus. rewrite used_app, used_cons in Hus. lia.
Qed.

(** ** [insert] *)

Lemma bucket_insert_repr (b : t) (es : list entry) (hk : HashedKey) (v : bytes) (w : W) :
  bk_repr b es -> entry_ok (hk, v) -> esize (hk, v) <= BucketStorage.capacity (storage_ b) ->
  let cap := BucketStorage.capacity (storage_ b) in
  let '(ex, ev, rest) := make_space cap (esize (hk, v)) es in
  exists s', insert checkExpired destructorCb hk v (b, w) =
    (Ok (zlen ex + zlen ev, zlen ex),
     (set_storage s' b, foldl (notify Recycled) w (ex ++ ev))) /\
    bk_repr (set_storage s' b) (rest ++ [(hk, v)]) /\ BucketStorage.capacity s' = cap.
Proof.
  intros Hr Hok Hc cap. destruct (bk_repr_used _ _ Hr) as (_ & Hu & _). fold cap in Hc, Hu.
  set (size := 16 + zlen (key hk) + zlen v).
  assert (Hsz : esize (hk, v) = 4 + size) by (unfold esize, size; simpl; lia).
  rewrite Hsz. pose proof (zlen_nonneg (key hk)). pose proof (zlen_nonneg v).
  pose proof (makeSpace_repr b es size w Hr ltac:(unfold size; lia) ltac:(lia)) as Hms.
  fold cap in Hms. cbn zeta in Hms. destruct (make_space cap (4 + size) es) as [[ex ev] rest].
  destruct Hms as (s1 & E1 & R1 & Hcap1 & Hfit).
  unfold insert. replace (computeSize (u32 (zlen (key hk))) (u32 (zlen v))) with size.
  2: { unfold computeSize, kSize. rewrite (u32_small (zlen (key hk))), (u32_small (zlen v)), u32_small;
         [done|unfold is_u32; lia..]. }
  unfold bind. rewrite E1. unfold onStorage. cbn [fst snd storage_ set_storage].
  destruct (allocate_repr s1 (enc <$> rest) size) as (e & s2 & He & -> & R2 & Hcap2).
  { apply (bk_storage _ _ R1). }
  { unfold size in *. lia. }
  { rewrite used_layout, Hcap1. lia. }
  unfold get, lift, data. cbn [fst snd storage_ set_storage]. unfold create, view_offset.
  cbn [BucketStorage.view alloc_of v_data rbind].
  destruct (store_payload s2 (enc <$> rest) e (enc (hk, v)) []) as (d & Hd & R3).
  { done. }
  { rewrite zlen_enc, He. unfold size. simpl. lia. }
  change (entryBytes hk v) with (enc (hk, v)). rewrite Hd.
  eexists. split_and!; [done| |].
  - apply bk_repr_storage; [by rewrite fmap_app|]. apply Forall_app. split; [apply (bk_entries _ _ R1)|].
    by apply Forall_singleton.
  - simpl. congruence.
Qed.
End Updates.

(** ** A bucket of BigHash: on-device layout and replacement

    The packed layout of a bucket and what replacing a key does to the
    entries of a bucket. *)

Import Bucket BucketEntry.

#[local] Open Scope Z_scope.

(** ** The layout *)

Record bk_fields (b : t) : Prop := {
  fld_checksum : is_u32 (checksum_ b);
  fld_gen : is_u64 (generationTime_ b);
  fld_cap : is_u32 (BucketStorage.capacity (storage_ b));
  fld_num : is_u32 (BucketStorage.numAllocations (storage_ b));
  fld_end : is_u32 (BucketStorage.endOffset_ (storage_ b))
}.

Lemma zlen_toBytes (b : t) : zlen (toBytes b) = 24 + zlen (data b).
Proof. unfold toBytes, data. zl. Qed.

Lemma ofBytes_toBytes (b : t) : bk_fields b -> ofBytes (toBytes b) = Ok b.
Proof.
  intros [H1 H2 H3 H4 H5]. unfold ofBytes. rewrite zlen_toBytes. unfold toBytes, load32, load64, kHeaderSize, data.
  set (x1 := le32 (checksum_ b)). set (x2 := le64 (generationTime_ b)).
  set (x3 := le32 (BucketStorage.capacity (storage_ b))).
  set (x4 := le32 (BucketStorage.numAllocations (storage_ b))).
  set (x5 := le32 (BucketStorage.endOffset_ (storage_ b))). set (x6 := BucketStorage.data_ (storage_ b)).
  assert (L1 : zlen x1 = 4 /\ zlen x2 = 8 /\ zlen x3 = 4 /\ zlen x4 = 4 /\ zlen x5 = 4).
  { unfold x1, x2, x3, x4, x5. by rewrite !zlen_le32, zlen_le64. }
  destruct L1 as (L1 & L2 & L3 & L4 & L5).
  rewrite (load_app0 x1) by done. cbn [rbind].
  rewrite (load_app x1 x2) by done. cbn [rbind].
  rewrite (app_assoc x1), (load_app (x1 ++ x2) x3) by zl. cbn [rbind].
  rewrite (app_assoc (x1 ++ x2)), (load_app _ x4) by zl. cbn [rbind].
  rewrite (app_assoc ((x1 ++ x2) ++ x3)), (load_app _ x5) by zl. cbn [rbind].
  rewrite (app_assoc (((x1 ++ x2) ++ x3) ++ x4)), (load_app_end _ x6) by zl. cbn [rbind].
  unfold x1, x2, x3, x4, x5, x6. rewrite !le_to_Z_le32, le_to_Z_le64 by done. by destruct b as [? ? []].
Qed.

Lemma bk_repr_fields (b : t) (es : list entry) :
  bk_repr b es -> is_u32 (checksum_ b) -> is_u64 (generationTime_ b) -> bk_fields b.
Proof.
  intros Hr Hc Hg. destruct (bk_repr_used _ _ Hr) as (_ & Hu & Hl).
  destruct Hr as [[_ Hcap H32 He Hn] _]. rewrite used_layout in He.
  unfold zlen in Hn. rewrite length_fmap in Hn. fold (zlen es) in Hn.
  pose proof (used_nonneg es). pose proof (zlen_nonneg es).
  constructor; try done; unfold is_u32; lia.
Qed.

Lemma ofBytes_total (v : bytes) : 24 <= zlen v -> exists b, ofBytes v = Ok b.
Proof.
  intros Hv. unfold ofBytes, load32, load64, load, kHeaderSize.
  rewrite !(proj2 (in_bounds_true _ _ _)) by lia. by eexists.
Qed.

(** A new bucket is empty. *)
Lemma initNew_repr (v : bytes) (g : Z) :
  24 <= zlen v < 2 ^ 32 ->
  exists b, initNew v g = Ok b /\ bk_repr b [] /\ generationTime_ b = g /\ checksum_ b = 0 /\
            BucketStorage.capacity (storage_ b) = zlen v - 24.
Proof.
  intros Hv. unfold initNew, kHeaderSize, load.
  rewrite (proj2 (in_bounds_true _ _ _)) by lia. cbn [rbind].
  rewrite u32_small by (unfold is_u32; lia).
  eexists. split; [done|]. split_and!; [|done..]. split; [|by apply Forall_nil].
  constructor; simpl; try done; try lia; [by eexists|]. symmetry. apply zlen_peek; lia.
Qed.

(** ** Replacing a key *)

Section Put.
Context {W : Type} (checkExpired : ExpiredCheck) (destructorCb : DestructorCallback (W := W)).

(** [removed = bucket->remove(hk, cb); bucket->insert(hk, value, ...)] *)
Definition put (hk : HashedKey) (v : bytes) : M (t * W) (Z * (Z * Z)) :=
  bind (remove destructorCb hk) (fun removed =>
  bind (insert checkExpired destructorCb hk v) (fun r => ret (removed, r))).

(** The entries without a key. *)
Definition without (hk : HashedKey) (es : list entry) : list entry :=
  filter (fun e => fst e <> hk) es.

Lemma without_fresh (hk : HashedKey) (es : list entry) : lookup_key hk es = None -> without hk es = es.
Proof.
  induction es as [|e es IH]; simpl; [done|]. case_bool_decide as Hb; [done|]. intros Ha.
  unfold without. rewrite filter_cons, decide_True by congruence. f_equal. by apply IH.
Qed.

Lemma without_key_split (hk : HashedKey) (es1 es2 : list entry) (v : bytes) :
  NoDup (es1 ++ (hk, v) :: es2).*1 -> without hk (es1 ++ (hk, v) :: es2) = es1 ++ es2.
Proof.
  rewrite fmap_app, fmap_cons. intros (_ & Hd & [Hn _]%NoDup_cons)%NoDup_app.
  unfold without. rewrite filter_app, filter_cons, decide_False by naive_solver.
  f_equal; apply without_fresh, lookup_key_None; [|done]. intros Hin. apply (Hd hk Hin). by left.
Qed.

(** What a put leaves: the entries other than the key's that neither expired
    nor were evicted, then the new one. *)
Definition put_parts (cap : Z) (hk : HashedKey) (v : bytes) (es : list entry)
    : list entry * list entry * list entry :=
  make_space checkExpired cap (esize (hk, v)) (without hk es).

Definition removed_entry (hk : HashedKey) (es : list entry) : list entry :=
  match lookup_key hk es with Some v => [(hk, v)] | None => [] end.

Lemma put_repr (b : t) (es : list entry) (hk : HashedKey) (v : bytes) (w : W) :
  bk_repr b es -> NoDup es.*1 -> entry_ok (hk, v) ->
  esize (hk, v) <= BucketStorage.capacity (storage_ b) ->
  let cap := BucketStorage.capacity (storage_ b) in
  let '(ex, ev, rest) := put_parts cap hk v es in
  exists s', put hk v (b, w) =
    (Ok (zlen (removed_entry hk es), (zlen ex + zlen ev, zlen ex)),
     (set_storage s' b,
      foldl (notify destructorCb Recycled)
        (foldl (notify destructorCb Removed) w (removed_entry hk es)) (ex ++ ev))) /\
    bk_repr (set_storage s' b) (rest ++ [(hk, v)]) /\ BucketStorage.capacity s' = cap.
Proof.
  intros Hr Hnd Hok Hc cap. unfold put, put_parts, removed_entry, bind.
  pose proof (bucket_remove_repr destructorCb b es hk w Hr (ok_key _ Hok)) as Hrm.
  destruct (lookup_key hk es) as [v'|] eqn:Ea.
  - destruct Hrm as (es1 & es2 & s1 & -> & Hn & -> & Hr1 & Hcap1). cbn [foldl].
    rewrite without_key_split by done.
    pose proof (bucket_insert_repr checkExpired destructorCb (set_storage s1 b) (es1 ++ es2) hk v
      (notify destructorCb Removed w (hk, v')) Hr1 Hok) as Hi. simpl in Hi. rewrite Hcap1 in Hi.
    fold cap in Hi. specialize (Hi Hc). destruct (make_space _ _ _ _) as [[ex ev] rest].
    destruct Hi as (s' & -> & Hr' & Hcap'). by exists s'.
  - rewrite Hrm, without_fresh by done.
    pose proof (bucket_insert_repr checkExpired destructorCb b es hk v w Hr Hok Hc) as Hi.
    fold cap in Hi. cbn zeta in Hi. destruct (make_space _ _ _ _) as [[ex ev] rest].
    destruct Hi as (s' & -> & Hr' & Hcap'). by exists s'.
Qed.
End Put.

(** ** What a put keeps *)

Lemma lookup_key_In (hk : HashedKey) (es : list entry) (v : bytes) :
  lookup_key hk es = Some v -> (hk, v) ∈ es.
Proof.
  intros (es1 & es2 & -> & _)%lookup_key_split. apply elem_of_app. right. by left.
Qed.

(** A key of a list of entries, after part of the list is gone. *)
Lemma lookup_key_gone (hk : HashedKey) (es gone rest : list entry) :
  NoDup es.*1 -> gone ++ rest ≡ₚ es ->
  lookup_key hk rest = lookup_key hk es \/
  exists v, lookup_key hk es = Some v /\ lookup_key hk rest = None /\ (hk, v) ∈ gone.
Proof.
  intros Hnd Hp. assert (Huniq : forall v, lookup_key hk es = Some v <-> (hk, v) ∈ es).
  { intros v. split; [apply lookup_key_In|]. intros Hin. destruct (lookup_key hk es) as [v'|] eqn:E.
    - apply lookup_key_In in E. f_equal. clear -Hnd Hin E.
      induction es as [|e es IH]; [by apply not_elem_of_nil in Hin|].
      rewrite fmap_cons in Hnd. apply NoDup_cons in Hnd as [Hn Hnd].
      apply elem_of_cons in Hin as [<-|Hin]; apply elem_of_cons in E as [He|E]; simpl in *.
      + congruence.
      + destruct Hn. apply list_elem_of_fmap. by exists (hk, v').
      + destruct Hn. subst e. apply list_elem_of_fmap. by exists (hk, v).
      + by apply IH.
    - apply lookup_key_None in E. destruct E. apply list_elem_of_fmap. by exists (hk, v). }
  destruct (lookup_key hk es) as [v|] eqn:E.
  - pose proof (proj1 (Huniq v) eq_refl) as Hin. rewrite <- Hp in Hin.
    apply elem_of_app in Hin as [Hg|Hr].
    + right. exists v. split_and!; [done| |done]. apply lookup_key_None.
      intros Hin. rewrite <- Hp, fmap_app in Hnd. apply NoDup_app in Hnd as (_ & Hd & _).
      apply (Hd hk); [|done]. apply list_elem_of_fmap. by exists (hk, v).
    + left. destruct (lookup_key hk rest) as [v'|] eqn:E'.
      * apply lookup_key_In in E'. symmetry. apply Huniq. rewrite <- Hp. apply elem_of_app. by right.
      * apply lookup_key_None in E'. destruct E'. apply list_elem_of_fmap. by exists (hk, v).
  - left. apply lookup_key_None. intros Hin. apply lookup_key_None in E. apply E.
    rewrite <- Hp, fmap_app. apply elem_of_app. by right.
Qed.

Section Kept.
Context (checkExpired : ExpiredCheck).

Lemma evict_app (required free : Z) (es ev rest : list entry) :
  evict required free es = (ev, rest) -> es = ev ++ rest.
Proof.
  revert free ev rest. induction es as [|e es IH]; intros free ev rest; simpl.
  { by intros [= <- <-]. }
  destruct (required <=? free + esize e); [by intros [= <- <-]|].
  destruct (evict required (free + esize e) es) as [ev' rest'] eqn:E. intros [= <- <-].
  simpl. f_equal. by apply (IH (free + esize e)).
Qed.

Lemma fresh_perm (es : list entry) : expired checkExpired es ++ unexpired checkExpired es ≡ₚ es.
Proof.
  induction es as [|e es IH]; [done|]. rewrite expired_cons, fresh_cons.
  destruct (is_expired checkExpired e); [simpl; by rewrite IH|].
  rewrite <- Permutation_middle. by rewrite IH.
Qed.

(** The entries of a bucket are the ones given up and the ones kept. *)
Lemma make_space_perm (cap required : Z) (es ex ev rest : list entry) :
  make_space checkExpired cap required es = (ex, ev, rest) -> (ex ++ ev) ++ rest ≡ₚ es.
Proof.
  unfold make_space. case_match; [by intros [= <- <- <-]|].
  case_match; [intros [= <- <- <-]; rewrite app_nil_r; apply fresh_perm|].
  destruct (evict _ _ _) as [ev' rest'] eqn:E. intros [= <- <- <-].
  rewrite <- app_assoc, <- (evict_app _ _ _ _ _ E). apply fresh_perm.
Qed.

Lemma without_perm (hk : HashedKey) (es : list entry) :
  NoDup es.*1 -> removed_entry hk es ++ without hk es ≡ₚ es.
Proof.
  intros Hnd. unfold removed_entry. destruct (lookup_key hk es) as [v|] eqn:E.
  - destruct (lookup_key_split _ _ _ E) as (es1 & es2 & -> & _).
    rewrite without_key_split by done. simpl. by rewrite Permutation_middle.
  - by rewrite without_fresh.
Qed.

Lemma put_parts_perm (cap : Z) (hk : HashedKey) (v : bytes) (es ex ev rest : list entry) :
  NoDup es.*1 -> put_parts checkExpired cap hk v es = (ex, ev, rest) ->
  (removed_entry hk es ++ (ex ++ ev)) ++ rest ≡ₚ es /\ hk ∉ rest.*1.
Proof.
  intros Hnd E. apply make_space_perm in E. split.
  - rewrite <- app_assoc, E. by apply without_perm.
  - intros Hin. assert (hk ∈ (without hk es).*1) as (e & -> & Hw)%list_elem_of_fmap.
    { rewrite <- E, fmap_app. apply elem_of_app. by right. }
    apply list_elem_of_filter in Hw as [Hne _]. done.
Qed.

Lemma put_parts_ok (cap : Z) (hk : HashedKey) (v : bytes) (es ex ev rest : list entry) :
  NoDup es.*1 -> put_parts checkExpired cap hk v es = (ex, ev, rest) ->
  NoDup (rest ++ [(hk, v)]).*1 /\ (forall e, e ∈ rest -> e ∈ es) /\
  zlen (removed_entry hk es) + (zlen ex + zlen ev) + zlen rest = zlen es.
Proof.
  intros Hnd E. destruct (put_parts_perm _ _ _ _ _ _ _ Hnd E) as [Hp Hn]. split_and!.
  - rewrite fmap_app. apply NoDup_app. split_and!.
    + rewrite <- Hp, fmap_app in Hnd. by apply NoDup_app in Hnd as (_ & _ & ?).
    + intros x Hx ->%list_elem_of_singleton. done.
    + apply NoDup_singleton.
  - intros e He. rewrite <- Hp. apply elem_of_app. by right.
  - apply Permutation_length in Hp. rewrite !length_app in Hp. unfold zlen. lia.
Qed.
End Kept.

Lemma put_inv {W} (ce : ExpiredCheck) (cb : DestructorCallback (W := W)) (hk : HashedKey) (v : bytes)
    (b b' : t) (w w' : W) (n : Z) (r : Z * Z) :
  put ce cb hk v (b, w) = (Ok (n, r), (b', w')) ->
  exists b1 w1, remove cb hk (b, w) = (Ok n, (b1, w1)) /\
                insert ce cb hk v (b1, w1) = (Ok r, (b', w')).
Proof.
  unfold put, bind, ret. destruct (remove cb hk (b, w)) as [[n0|e] [b1 w1]]; [|done].
  destruct (insert ce cb hk v (b1, w1)) as [[r0|e] [b2 w2]] eqn:E; [|done].
  intros [= <- <- <- <-]. by exists b1, w1.
Qed.

(** ** Eviction *)

Lemma evict_spec (required free : Z) (es ev rest : list entry) :
  evict required free es = (ev, rest) -> free < required -> required <= free + used es ->
  exists front last, ev = front ++ [last] /\ free + used front < required <= free + used ev.
Proof.
  revert free ev rest. induction es as [|e es IH]; intros free ev rest; simpl.
  { unfold used. simpl. lia. }
  rewrite used_cons. destruct (Z.leb_spec required (free + esize e)).
  - intros [= <- <-] Hf Hu. exists [], e. unfold used. simpl. split; [done|lia].
  - destruct (evict required (free + esize e) es) as [ev' rest'] eqn:E. intros [= <- <-] Hf Hu.
    destruct (IH _ _ _ E) as (front & last & -> & Hm); [lia..|].
    exists (e :: front), last. split; [done|]. simpl. rewrite !used_cons. lia.
Qed.

(** FIFO eviction. Inserting an entry that fits an empty bucket always
    succeeds and appends it; nothing is given up when there is room;
    otherwise exactly the expired entries go and, only if that is not enough,
    the oldest of the others: they are a prefix of the insertion order, and
    one fewer would not have made room. The counts returned are the numbers
    of entries given up and of expired ones, and the callback gets each
    entry given up once, in order. *)
Theorem bucket_insert_fifo {W : Type} (ce : ExpiredCheck) (cb : DestructorCallback (W := W))
    (b : t) (es : list entry) (hk : HashedKey) (v : bytes) (w : W) :
  bk_repr b es -> entry_ok (hk, v) -> esize (hk, v) <= BucketStorage.capacity (storage_ b) ->
  exists s' ex ev rest,
    insert ce cb hk v (b, w) =
      (Ok (zlen ex + zlen ev, zlen ex),
       (set_storage s' b, foldl (notify cb Recycled) w (ex ++ ev))) /\
    bk_repr (set_storage s' b) (rest ++ [(hk, v)]) /\
    ((esize (hk, v) <= remainingBytes b /\ ex = [] /\ ev = [] /\ rest = es) \/
     (remainingBytes b < esize (hk, v) /\ ex = expired ce es /\ unexpired ce es = ev ++ rest /\
      forall front last, ev = front ++ [last] ->
        BucketStorage.capacity (storage_ b) < used (last :: rest) + esize (hk, v))).
Proof.
  intros Hr Hok Hc. destruct (bk_repr_used _ _ Hr) as (Hrem & Hu & _).
  pose proof (bucket_insert_repr ce cb b es hk v w Hr Hok Hc) as Hi. cbn zeta in Hi.
  set (cap := BucketStorage.capacity (storage_ b)) in *. unfold make_space in Hi.
  destruct (Z.leb_spec (esize (hk, v)) (cap - used es)) as [Hfit|Hno].
  { destruct Hi as (s' & E & R & _). exists s', [], [], es. split_and!; [done|done|].
    left. rewrite Hrem. by split_and!. }
  pose proof (used_fresh ce es) as Huf.
  destruct (bool_decide (expired ce es <> []) && (esize (hk, v) <=? cap - used (unexpired ce es))) eqn:Hb.
  { destruct Hi as (s' & E & R & _). exists s', (expired ce es), [], (unexpired ce es).
    split_and!; [done|done|]. right. rewrite Hrem. split_and!; [lia|done|done|].
    intros front last Hx%(f_equal length). rewrite length_app in Hx. simpl in Hx. lia. }
  assert (Hlt : cap - used (unexpired ce es) < esize (hk, v)).
  { apply andb_false_iff in Hb as [Hb|Hb%Z.leb_gt]; [|done].
    apply bool_decide_eq_false in Hb. destruct (expired ce es); [|by destruct Hb].
    change (used []) with 0 in Huf. lia. }
  destruct (evict (esize (hk, v)) (cap - used (unexpired ce es)) (unexpired ce es)) as [ev rest] eqn:Ee.
  destruct Hi as (s' & E & R & _). exists s', (expired ce es), ev, rest.
  split_and!; [done|done|]. right. rewrite Hrem. pose proof (evict_app _ _ _ _ _ Ee) as Happ.
  split_and!; [lia|done|done|]. intros front last ->.
  destruct (evict_spec _ _ _ _ _ Ee) as (f' & l' & Heq & Hm); [lia|lia|].
  apply app_inj_2 in Heq as [<- [= <-]]; [|done].
  pose proof (f_equal used Happ) as Hus. rewrite !used_app in Hus. rewrite !used_app in Hm.
  rewrite used_cons. change (used [last]) with (esize last + 0) in *. lia.
Qed.

Definition bucket_ex : t := mk 0 7 (BucketStorage.mk 64 0 0 (replicate 64 0)).
Definition bucket_key : HashedKey := mkHK [1] 5.

Lemma bucket_insert_fifo_witness :
  exists s' ex ev rest,
    insert None (Some (fun _ v _ l => l ++ [v])) bucket_key [9; 9] (bucket_ex, []) =
      (Ok (zlen ex + zlen ev, zlen ex),
       (set_storage s' bucket_ex,
        foldl (notify (Some (fun _ v _ l => l ++ [v])) Recycled) [] (ex ++ ev))) /\
    bk_repr (set_storage s' bucket_ex) (rest ++ [(bucket_key, [9; 9])]) /\
    ((esize (bucket_key, [9; 9]) <= remainingBytes bucket_ex /\ ex = [] /\ ev = [] /\ rest = []) \/
     (remainingBytes bucket_ex < esize (bucket_key, [9; 9]) /\ ex = expired None [] /\
      unexpired None [] = ev ++ rest /\
      forall front last, ev = front ++ [last] ->
        BucketStorage.capacity (storage_ bucket_ex) < used (last :: rest) + esize (bucket_key, [9; 9]))).
Proof.
  apply (bucket_insert_fifo None (Some (fun _ v _ l => l ++ [v])) bucket_ex [] bucket_key [9; 9] []).
  - split; [|by apply Forall_nil]. constructor; try reflexivity. by eexists.
  - constructor; [|..|unfold is_u64; simpl; lia];
      repeat (apply Forall_cons; split; [unfold is_u8; lia|]); by apply Forall_nil.
  - vm_compute. discriminate.
Defined.
