(* ===== verification/Device.v ===== *)
(** * Block devices

    [src/cachelib/navy/common/Device.{h,cpp}]: [Device] splits reads and
    writes into transfers of at most [maxIOSize_] and [maxWriteSize_] bytes,
    encrypts what it writes and decrypts what it reads when it has an
    encryptor, and counts transfers and errors. The transfers themselves
    ([readImpl], [writeImpl]) are virtual: a class with its laws here,
    with [MemoryDevice] as an instance. The clients of a device see the class
    [NavyDevice] and its laws, which [Device] implements. *)

From S2P Require Import Prelude Bytes.
From stdpp Require Import base tactics numbers list.

#[local] Open Scope Z_scope.
#[local] Open Scope cachelib_scope.

(** ** What clients see *)

Class NavyDevice (D : Type) : Type := {
  ioAlignedSize : D -> Z -> Z;
  devWrite : Z -> bytes -> M D bool;
  devRead : Z -> Z -> M D (option bytes);
  devFlush : M D unit
}.

(** [holds d off bs]: the device stores the bytes [bs] at offset [off].
    Transfers may fail; a failed write leaves its range unspecified. *)
Class NavyDeviceLaws (D : Type) `{NavyDevice D} : Type := {
  holds : D -> Z -> bytes -> Prop;
  canTransfer : D -> Z -> Z -> Prop;
  read_holds d off bs :
    holds d off bs -> canTransfer d off (zlen bs) ->
    exists r d', devRead off (zlen bs) d = (Ok r, d') /\ (r = Some bs \/ r = None) /\
      (forall o c, holds d o c -> holds d' o c) /\
      (forall o n, canTransfer d o n -> canTransfer d' o n) /\
      (forall n, ioAlignedSize d' n = ioAlignedSize d n);
  write_holds d off bs :
    canTransfer d off (zlen bs) ->
    exists ok d', devWrite off bs d = (Ok ok, d') /\ (ok = true -> holds d' off bs) /\
      (forall o c, holds d o c -> o + zlen c <= off \/ off + zlen bs <= o -> holds d' o c) /\
      (forall o n, canTransfer d o n -> canTransfer d' o n) /\
      (forall n, ioAlignedSize d' n = ioAlignedSize d n)
}.

(** ** The transfers *)

Class DeviceImpl (I : Type) : Type := {
  writeImpl : Z -> bytes -> M I bool;
  readImpl : Z -> Z -> M I (option bytes);
  flushImpl : M I unit
}.

Class DeviceImplLaws (I : Type) `{DeviceImpl I} : Type := {
  stores : I -> Z -> bytes -> Prop;
  implSize : I -> Z;
  stores_nil i off : 0 <= off -> off <= implSize i -> stores i off [];
  stores_app i off a b :
    stores i off (a ++ b) <-> stores i off a /\ stores i (off + zlen a) b;
  read_stores i off bs :
    stores i off bs -> exists r i', readImpl off (zlen bs) i = (Ok r, i') /\
      (r = Some bs \/ r = None) /\ implSize i' = implSize i /\
      (forall o c, stores i o c -> stores i' o c);
  write_stores i off bs :
    0 <= off -> off + zlen bs <= implSize i ->
    exists ok i', writeImpl off bs i = (Ok ok, i') /\ (ok = true -> stores i' off bs) /\
      implSize i' = implSize i /\
      (forall o c, stores i o c -> o + zlen c <= off \/ off + zlen bs <= o -> stores i' o c)
}.

(** [DeviceEncryptor]: encryption in place, so of unchanged size. *)
Record Encryptor : Type := mkEncryptor {
  encryptionBlockSize : Z;
  encrypt : bytes -> Z -> option bytes;
  decrypt : bytes -> Z -> option bytes
}.

Record encryptor_laws (e : Encryptor) : Prop := {
  enc_block : 0 < encryptionBlockSize e;
  enc_dec v salt c : encrypt e v salt = Some c -> decrypt e c salt = Some v;
  enc_len v salt c : encrypt e v salt = Some c -> zlen c = zlen v
}.

(** ** [Device] *)

Section Device.
Context {I : Type} `{DeviceImpl I}.

Record Device : Type := mkDevice {
  size_ : Z;
  ioAlignmentSize_ : Z;
  maxIOSize_ : Z;
  maxWriteSize_ : Z;
  encryptor_ : option Encryptor;
  bytesWritten_ : Z;
  bytesRead_ : Z;
  writeIOErrors_ : Z;
  readIOErrors_ : Z;
  encryptionErrors_ : Z;
  decryptionErrors_ : Z;
  impl_ : I
}.

Definition set_impl (i : I) (d : Device) : Device :=
  mkDevice (size_ d) (ioAlignmentSize_ d) (maxIOSize_ d) (maxWriteSize_ d) (encryptor_ d)
    (bytesWritten_ d) (bytesRead_ d) (writeIOErrors_ d) (readIOErrors_ d)
    (encryptionErrors_ d) (decryptionErrors_ d) i.

(** Additions to the counters: bytes written and read, then the write, read,
    encryption and decryption errors. *)
Definition count (bw br we re ee de : Z) (d : Device) : Device :=
  mkDevice (size_ d) (ioAlignmentSize_ d) (maxIOSize_ d) (maxWriteSize_ d) (encryptor_ d)
    (u64 (bytesWritten_ d + bw)) (u64 (bytesRead_ d + br)) (u64 (writeIOErrors_ d + we))
    (u64 (readIOErrors_ d + re)) (u64 (encryptionErrors_ d + ee))
    (u64 (decryptionErrors_ d + de)) (impl_ d).

(** The constructor. *)
Definition newDevice (size : Z) (encryptor : option Encryptor)
    (ioAlignSize maxIOSize maxWriteSize : Z) (i : I) : res Device :=
  if ioAlignSize =? 0 then Throw InvalidArgument
  else if match encryptor with
          | Some e => negb (encryptionBlockSize e =? ioAlignSize)
          | None => false
          end then Throw InvalidArgument
  else if negb (maxWriteSize mod ioAlignSize =? 0) then Throw InvalidArgument
  else if negb (maxIOSize mod ioAlignSize =? 0) then Throw InvalidArgument
  else Ok (mkDevice size ioAlignSize maxIOSize maxWriteSize encryptor 0 0 0 0 0 0 i).

(** [powTwoAlign] ([src/cachelib/navy/common/Utils.h]) on 64 bits. *)
Definition powTwoAlign (size boundary : Z) : Z :=
  Z.land (u64 (size + (boundary - 1))) (Z.lxor (boundary - 1) (Z.ones 64)).

Definition getIOAlignedSize (d : Device) (size : Z) : Z := powTwoAlign size (ioAlignmentSize_ d).

Definition onImpl {A} (m : M I A) : M Device A := fun d =>
  let '(r, i) := m (impl_ d) in (r, set_impl i d).

(** The loop of [writeInternal] over the bytes left; [fuel] transfers are
    enough for [fuel] bytes, since a transfer takes at least one. The size
    given to [writeImpl] and [readImpl] is cut to 32 bits. *)
Fixpoint write_loop (fuel : nat) (offset : Z) (data : bytes) (maxWriteSize : Z) : M Device bool :=
  match data with
  | [] => ret true
  | _ =>
      match fuel with
      | O => throw StillWaiting
      | S fuel =>
          let writeSize := Z.min maxWriteSize (zlen data) in
          let! result := onImpl (writeImpl offset (take (Z.to_nat (u32 writeSize)) data)) in
          if result : bool then
            do! modify (count writeSize 0 0 0 0 0) in
            write_loop fuel (u64 (offset + writeSize)) (drop (Z.to_nat writeSize) data) maxWriteSize
          else ret false
      end
  end.

Definition writeInternal (offset : Z) (data : bytes) : M Device bool :=
  let! d := get in
  let maxWriteSize := if maxWriteSize_ d =? 0 then zlen data else maxWriteSize_ d in
  let! result := write_loop (length data) offset data maxWriteSize in
  do! (if result : bool then ret tt else modify (count 0 0 1 0 0 0)) in
  ret result.

(** [write(offset, Buffer, placeHandle)]; the placement handle is a hint to
    the device. *)
Definition write (offset : Z) (buffer : bytes) : M Device bool :=
  let! d := get in
  match encryptor_ d with
  | None => writeInternal offset buffer
  | Some e =>
      do! Prelude.guard (negb (offset mod encryptionBlockSize e =? 0)) Aborted in
      match encrypt e buffer offset with
      | None => do! modify (count 0 0 0 0 1 0) in ret false
      | Some c => writeInternal offset c
      end
  end.

(** [write(offset, BufferView, placeHandle)]: with an encryptor the view is
    copied to the front of an IO buffer first; the bytes after it are whatever
    the allocation holds ([fill]). *)
Definition writeView (fill : bytes) (offset : Z) (view : bytes) : M Device bool :=
  let! d := get in
  match encryptor_ d with
  | None => writeInternal offset view
  | Some _ =>
      let n := getIOAlignedSize d (zlen view) in
      write offset (view ++ take (Z.to_nat (n - zlen view)) fill)
  end.

(** The loop of [readInternal]: the bytes read so far are in [acc]. *)
Fixpoint read_loop (fuel : nat) (curOffset remaining maxReadSize : Z) (acc : bytes)
    : M Device (option bytes) :=
  if remaining <=? 0 then ret (Some acc) else
  match fuel with
  | O => throw StillWaiting
  | S fuel =>
      let readSize := Z.min maxReadSize remaining in
      let! r := onImpl (readImpl curOffset (u32 readSize)) in
      match r with
      | None => do! modify (count 0 0 0 1 0 0) in ret None
      | Some b =>
          do! modify (count 0 readSize 0 0 0 0) in
          read_loop fuel (u64 (curOffset + readSize)) (remaining - readSize) maxReadSize (acc ++ b)
      end
  end.

Definition readInternal (offset size : Z) : M Device (option bytes) :=
  let! d := get in
  let maxReadSize := if maxIOSize_ d =? 0 then size else maxIOSize_ d in
  let! r := read_loop (Z.to_nat size) offset size maxReadSize [] in
  match r with
  | None => ret None
  | Some value =>
      match encryptor_ d with
      | None => ret (Some value)
      | Some e =>
          do! Prelude.guard (negb (offset mod encryptionBlockSize e =? 0)) Aborted in
          match decrypt e value offset with
          | None => do! modify (count 0 0 0 0 0 1) in ret None
          | Some v => ret (Some v)
          end
      end
  end.

(** [read(offset, size, value)]. *)
Definition read (offset size : Z) : M Device (option bytes) := readInternal offset (u32 size).

(** [Buffer read(offset, size)]: the aligned range around it is read and the
    buffer trimmed. *)
Definition readBuffer (offset size : Z) : M Device (option bytes) :=
  let! d := get in
  let mask := ioAlignmentSize_ d - 1 in
  let readOffset := Z.land offset (Z.lxor mask (Z.ones 64)) in
  let readPrefixSize := Z.land offset mask in
  let readSize := getIOAlignedSize d (readPrefixSize + size) in
  let! r := readInternal readOffset (u32 readSize) in
  match r with
  | None => ret None
  | Some b => ret (Some (take (Z.to_nat size) (drop (Z.to_nat readPrefixSize) b)))
  end.

Definition flush : M Device unit := onImpl flushImpl.
End Device.
Arguments Device : clear implicits.

#[export] Instance Device_NavyDevice {I} `{DeviceImpl I} : NavyDevice (Device I) := {|
  ioAlignedSize := getIOAlignedSize;
  devWrite := write;
  devRead := read;
  devFlush := flush
|}.

(** ** [MemoryDevice] *)

Record MemoryDevice : Type := mkMemoryDevice { buffer_ : bytes }.

(** The constructor zeroes the buffer, chunk by chunk, one chunk per thread. *)
Definition newMemoryDevice (size : Z) (encryptor : option Encryptor) (ioAlignSize : Z)
    (numInitThreads : Z) : res (Device MemoryDevice) :=
  let numThreads := Z.max 1 numInitThreads in
  let chunkSize := size / numThreads in
  newDevice size encryptor ioAlignSize 0 0
    (mkMemoryDevice
       (if size <? numThreads then replicate (Z.to_nat size) 0
        else concat (replicate (Z.to_nat (numThreads - 1)) (replicate (Z.to_nat chunkSize) 0))
             ++ replicate (Z.to_nat (size - chunkSize * (numThreads - 1))) 0)).

#[export] Instance MemoryDevice_impl : DeviceImpl MemoryDevice := {|
  writeImpl off v := fun m => match store (buffer_ m) off v with
                              | Ok b => (Ok true, mkMemoryDevice b)
                              | Throw e => (Throw e, m)
                              end;
  readImpl off size := fun m => match load (buffer_ m) off size with
                                | Ok v => (Ok (Some v), m)
                                | Throw e => (Throw e, m)
                                end;
  flushImpl := ret tt
|}.

(** ** Block devices: [Device] implements its interface

    Over any transfers that satisfy [DeviceImplLaws], the splitting,
    encrypting [Device] satisfies the laws its clients rely on; the memory
    device satisfies the laws of the transfers. *)

(** ** The memory device *)

Definition mem_stores (m : MemoryDevice) (off : Z) (bs : bytes) : Prop :=
  0 <= off /\ off + zlen bs <= zlen (buffer_ m) /\ peek (buffer_ m) off (zlen bs) = bs.

Lemma peek_plus (d : bytes) (off n m : Z) :
  0 <= off -> 0 <= n -> 0 <= m -> peek d off (n + m) = peek d off n ++ peek d (off + n) m.
Proof.
  intros Ho Hn Hm. unfold peek. rewrite !Z2Nat.inj_add, <- drop_drop by lia.
  rewrite <- (take_drop (Z.to_nat n) (take (Z.to_nat n + Z.to_nat m) (drop (Z.to_nat off) d))).
  rewrite take_take, Nat.min_l by lia. f_equal.
  rewrite <- take_drop_commute. done.
Qed.

Lemma mem_stores_app (m : MemoryDevice) (off : Z) (a b : bytes) :
  mem_stores m off (a ++ b) <-> mem_stores m off a /\ mem_stores m (off + zlen a) b.
Proof.
  unfold mem_stores. rewrite zlen_app. pose proof (zlen_nonneg a). pose proof (zlen_nonneg b).
  split.
  - intros (Ho & Hl & Hp). rewrite peek_plus in Hp by lia.
    apply app_inj_1 in Hp as [Ha Hb]; [split_and!; done || lia|].
    pose proof (zlen_peek (buffer_ m) off (zlen a)) as Hz. unfold zlen in *. lia.
  - intros ((Ho & Hl & Ha) & (Ho' & Hl' & Hb)). rewrite peek_plus by lia. rewrite Ha, Hb.
    split_and!; done || lia.
Qed.

Lemma mem_write_frame (d : bytes) (off : Z) (v : bytes) (o n : Z) :
  0 <= off -> off + zlen v <= zlen d -> 0 <= o -> 0 <= n -> o + n <= zlen d ->
  o + n <= off \/ off + zlen v <= o -> peek (poke d off v) o n = peek d o n.
Proof.
  intros H1 H2 H3 H4 H5 Hd.
  destruct (bytes_split d off (zlen v)) as (x & y & z & -> & -> & Hy); [zl..|].
  rewrite (poke_app x y) by zl. unfold peek.
  destruct Hd as [Hd|Hd].
  - rewrite !(drop_app_le x) by (unfold zlen in *; lia).
    rewrite !take_app_le by (rewrite length_drop; unfold zlen in *; lia). done.
  - rewrite !(drop_app_ge x) by (unfold zlen in *; lia).
    rewrite !drop_app_ge by (unfold zlen in *; lia).
    replace (length v) with (length y) by (unfold zlen in *; lia). done.
Qed.

#[export, refine] Instance MemoryDevice_laws : DeviceImplLaws MemoryDevice := {|
  stores := mem_stores;
  implSize m := zlen (buffer_ m)
|}.
Proof.
  - intros m off H1 H2. unfold mem_stores. change (zlen ([] : bytes)) with 0. split_and!; done || lia.
  - apply mem_stores_app.
  - intros m off bs (Ho & Hl & Hp). simpl. unfold load.
    rewrite (proj2 (in_bounds_true _ _ _)) by (pose proof (zlen_nonneg bs); lia).
    rewrite Hp. exists (Some bs), m. split_and!; auto.
  - intros m off bs Ho Hl. simpl. unfold store.
    rewrite (proj2 (in_bounds_true _ _ _)) by (pose proof (zlen_nonneg bs); lia).
    exists true, (mkMemoryDevice (poke (buffer_ m) off bs)).
    assert (Hz : zlen (poke (buffer_ m) off bs) = zlen (buffer_ m)).
    { apply (store_zlen _ _ off bs). unfold store.
      by rewrite (proj2 (in_bounds_true _ _ _)) by (pose proof (zlen_nonneg bs); lia). }
    split_and!; [done| |done|].
    + intros _. unfold mem_stores. simpl. rewrite Hz. split_and!; [done|done|].
      destruct (bytes_split (buffer_ m) off (zlen bs)) as (x & y & z & -> & -> & Hy); [zl..|].
      rewrite (poke_app x y) by zl. by apply peek_app.
    + intros o c (Ho' & Hl' & Hp') Hd. unfold mem_stores. simpl. rewrite Hz.
      split_and!; [done|done|]. rewrite mem_write_frame; try done. apply zlen_nonneg.
Defined.

(** ** The loops *)

Section Loops.
Context {I : Type} `{DeviceImplLaws I}.
Notation Dev := (Device I).

(** The fields that transfers leave alone. *)
Definition same_config (d d' : Dev) : Prop :=
  size_ d' = size_ d /\ ioAlignmentSize_ d' = ioAlignmentSize_ d /\ maxIOSize_ d' = maxIOSize_ d /\
  maxWriteSize_ d' = maxWriteSize_ d /\ encryptor_ d' = encryptor_ d /\
  implSize (impl_ d') = implSize (impl_ d).

Lemma same_config_trans (d1 d2 d3 : Dev) :
  same_config d1 d2 -> same_config d2 d3 -> same_config d1 d3.
Proof. unfold same_config. intros (?&?&?&?&?&?) (?&?&?&?&?&?). split_and!; congruence. Qed.

(** A transfer of the device itself failed. *)
Definition read_fault : Prop := exists o n (i i' : I), readImpl o n i = (Ok None, i').
Definition write_fault : Prop := exists o v (i i' : I), writeImpl o v i = (Ok false, i').

Lemma write_loop_spec (fuel : nat) (off : Z) (data : bytes) (maxW : Z) (d : Dev) :
  (length data <= fuel)%nat -> (data <> [] -> 1 <= maxW) ->
  0 <= off -> off + zlen data <= implSize (impl_ d) -> off + zlen data < 2 ^ 64 -> zlen data < 2 ^ 32 ->
  exists ok d', write_loop fuel off data maxW d = (Ok ok, d') /\ same_config d d' /\
    (if ok then stores (impl_ d') off data else write_fault) /\
    (forall o c, stores (impl_ d) o c -> o + zlen c <= off \/ off + zlen data <= o ->
                 stores (impl_ d') o c).
Proof.
  revert off data d. induction fuel as [|fuel IH]; intros off data d Hl Hm Ho Hs H64 H32;
    (destruct data as [|x data'] eqn:Ed;
     [exists true, d; split_and!; try done; apply stores_nil; [done|zl]|rewrite <- Ed in *]).
  { rewrite Ed in Hl. simpl in Hl. lia. }
  assert (Hne : data <> []) by by rewrite Ed. specialize (Hm Hne).
  assert (Hp : 0 < zlen data) by (rewrite Ed, zlen_cons; zl).
  set (n := Z.min maxW (zlen data)).
  assert (Hcut : data = take (Z.to_nat n) data ++ drop (Z.to_nat n) data) by by rewrite take_drop.
  set (a := take (Z.to_nat n) data) in *. set (b := drop (Z.to_nat n) data) in *.
  assert (Ha : zlen a = n) by (unfold a, zlen; rewrite length_take; unfold n, zlen in *; lia).
  assert (Hb : zlen b = zlen data - n) by (rewrite Hcut at 1; zl).
  destruct (write_stores (impl_ d) off a) as (ok & i' & Ew & Hw & Hsz & Hfr); [done|lia|].
  assert (Estep : write_loop (S fuel) off data maxW d =
    if ok then write_loop fuel (off + n) b maxW (count n 0 0 0 0 0 (set_impl i' d))
    else (Ok false, set_impl i' d)).
  { rewrite Ed. cbn [write_loop]. rewrite <- Ed. fold n. rewrite (u32_small n) by (unfold is_u32; lia). fold a. fold b. unfold bind, onImpl, modify, ret.
    rewrite Ew. destruct ok; [|done]. by rewrite u64_small by (unfold is_u64; lia). }
  rewrite Estep. destruct ok.
  - destruct (IH (off + n) b (count n 0 0 0 0 0 (set_impl i' d))) as (ok & d' & E & Hc & Hst & Hf).
    { unfold b. rewrite length_drop. unfold n, zlen in *. lia. }
    { done. } { lia. } { simpl. rewrite Hsz. lia. } { lia. } { lia. }
    exists ok, d'. split_and!; [done| | |].
    + eapply same_config_trans; [|exact Hc]. unfold same_config. simpl. by rewrite Hsz.
    + destruct ok; [|done]. rewrite Hcut, stores_app, Ha. split; [|done].
      apply Hf; [simpl; by apply Hw|]. left. lia.
    + intros o c Hoc Hd. apply Hf; [simpl; apply Hfr; [done|]|]; lia.
  - exists false, (set_impl i' d). split_and!; [done| |by exists off, a, (impl_ d), i'|].
    + unfold same_config. simpl. by rewrite Hsz.
    + intros o c Hoc Hd. simpl. apply Hfr; [done|]. lia.
Qed.

Lemma read_loop_spec (fuel : nat) (off : Z) (bs : bytes) (maxR : Z) (acc : bytes) (d : Dev) :
  (length bs <= fuel)%nat -> (bs <> [] -> 1 <= maxR) -> 0 <= off -> off + zlen bs < 2 ^ 64 -> zlen bs < 2 ^ 32 ->
  stores (impl_ d) off bs ->
  exists r d', read_loop fuel off (zlen bs) maxR acc d = (Ok r, d') /\ same_config d d' /\
    (r = Some (acc ++ bs) \/ r = None /\ read_fault) /\
    (forall o c, stores (impl_ d) o c -> stores (impl_ d') o c).
Proof.
  revert off bs acc d. induction fuel as [|fuel IH]; intros off bs acc d Hl Hm Ho H64 H32 Hs;
    (destruct (decide (bs = [])) as [->|Hne];
     [exists (Some acc), d; split_and!; try done; left; by rewrite app_nil_r|]).
  { destruct bs; simpl in Hl; [done|lia]. }
  specialize (Hm Hne). assert (Hp : 0 < zlen bs) by (destruct bs; [done|rewrite zlen_cons; zl]).
  set (n := Z.min maxR (zlen bs)).
  assert (Hcut : bs = take (Z.to_nat n) bs ++ drop (Z.to_nat n) bs) by by rewrite take_drop.
  set (a := take (Z.to_nat n) bs) in *. set (b := drop (Z.to_nat n) bs) in *.
  assert (Ha : zlen a = n) by (unfold a, zlen; rewrite length_take; unfold n, zlen in *; lia).
  assert (Hb : zlen bs - n = zlen b) by (rewrite Hcut at 1; zl).
  rewrite Hcut, stores_app, Ha in Hs. destruct Hs as [Hsa Hsb].
  destruct (read_stores (impl_ d) off a Hsa) as (r & i' & Er & Hr & Hsz & Hfr). rewrite Ha in Er.
  cbn [read_loop]. rewrite (proj2 (Z.leb_gt _ _)) by lia. fold n. unfold bind, onImpl, modify, ret.
  rewrite (u32_small n) by (unfold is_u32; lia). rewrite Er. destruct r as [a'|].
  - assert (a' = a) as -> by (destruct Hr as [[= ->]|]; done).
    rewrite u64_small by (unfold is_u64; lia). rewrite Hb.
    destruct (IH (off + n) b (acc ++ a) (count 0 n 0 0 0 0 (set_impl i' d))) as (r & d' & E & Hc & Hst & Hf).
    { unfold b. rewrite length_drop. unfold n, zlen in *. lia. }
    { done. } { lia. } { lia. } { lia. } { simpl. by apply Hfr. }
    exists r, d'. split_and!; [done| | |].
    + eapply same_config_trans; [|exact Hc]. unfold same_config. simpl. by rewrite Hsz.
    + by rewrite Hcut, app_assoc.
    + intros o c Hoc. apply Hf. simpl. by apply Hfr.
  - eexists _, _. split; [done|]. split_and!; [|right; split; [done|by exists off, n, (impl_ d), i']|].
    + unfold same_config. simpl. by rewrite Hsz.
    + intros o c Hoc. simpl. by apply Hfr.
Qed.

(** ** The client's view *)

(** With an encryptor the device stores ciphertext that decrypts, under the
    offset as the salt, to what the client wrote. *)
Definition dev_holds (d : Dev) (off : Z) (bs : bytes) : Prop :=
  match encryptor_ d with
  | None => stores (impl_ d) off bs
  | Some e => exists c, stores (impl_ d) off c /\ decrypt e c off = Some bs /\ zlen c = zlen bs
  end.

Definition dev_canTransfer (d : Dev) (off n : Z) : Prop :=
  0 <= off /\ off + n <= implSize (impl_ d) /\ off + n < 2 ^ 64 /\ n < 2 ^ 32 /\
  0 <= maxIOSize_ d /\ 0 <= maxWriteSize_ d /\
  match encryptor_ d with
  | None => True
  | Some e => encryptor_laws e /\ off mod encryptionBlockSize e = 0
  end.

Lemma dev_holds_same (d d' : Dev) (o : Z) (c : bytes) :
  encryptor_ d' = encryptor_ d ->
  (forall b, zlen b = zlen c -> stores (impl_ d) o b -> stores (impl_ d') o b) ->
  dev_holds d o c -> dev_holds d' o c.
Proof.
  intros He Hs. unfold dev_holds. rewrite He. destruct (encryptor_ d) as [e|].
  - intros (b & Hb & Hd & Hl). exists b. split_and!; [by apply Hs|done|done].
  - by apply Hs.
Qed.

Lemma canTransfer_same (d d' : Dev) (o n : Z) :
  same_config d d' -> dev_canTransfer d o n -> dev_canTransfer d' o n.
Proof. intros (?&?&E1&E2&E3&E4). unfold dev_canTransfer. by rewrite E1, E2, E3, E4. Qed.

Lemma writeInternal_spec (off : Z) (data : bytes) (d : Dev) :
  0 <= off -> off + zlen data <= implSize (impl_ d) -> off + zlen data < 2 ^ 64 ->
  zlen data < 2 ^ 32 -> 0 <= maxWriteSize_ d ->
  exists ok d', writeInternal off data d = (Ok ok, d') /\ same_config d d' /\
    (if ok then stores (impl_ d') off data else write_fault) /\
    (forall o c, stores (impl_ d) o c -> o + zlen c <= off \/ off + zlen data <= o ->
                 stores (impl_ d') o c).
Proof.
  intros Ho Hs H64 H32 Hm. unfold writeInternal, bind, get, ret.
  set (m := if maxWriteSize_ d =? 0 then zlen data else maxWriteSize_ d).
  destruct (write_loop_spec (length data) off data m d) as (ok & d' & -> & Hc & Hst & Hf); try done.
  { intros Hne. unfold m. destruct (Z.eqb_spec (maxWriteSize_ d) 0); [|lia].
    destruct data; [done|rewrite zlen_cons; zl]. }
  destruct ok; [by exists true, d'|]. eexists _, _. split; [done|].
  split_and!; [|done|done]. eapply same_config_trans; [exact Hc|]. by unfold same_config.
Qed.

Lemma readInternal_spec (off : Z) (bs : bytes) (d : Dev) :
  dev_holds d off bs -> dev_canTransfer d off (zlen bs) ->
  exists r d', readInternal off (zlen bs) d = (Ok r, d') /\ same_config d d' /\
    (r = Some bs \/ r = None /\ read_fault) /\
    (forall o c, stores (impl_ d) o c -> stores (impl_ d') o c).
Proof.
  intros Hh (Ho & Hs & H64 & H32 & Hm & _ & He).
  assert (Hraw : exists c, stores (impl_ d) off c /\ zlen c = zlen bs /\
    match encryptor_ d with None => c = bs | Some e => decrypt e c off = Some bs end).
  { unfold dev_holds in Hh. destruct (encryptor_ d); [naive_solver|by exists bs]. }
  destruct Hraw as (c & Hst & Hl & Hdec).
  unfold readInternal, bind, get, ret. rewrite <- Hl in *.
  destruct (read_loop_spec (Z.to_nat (zlen c)) off c
    (if maxIOSize_ d =? 0 then zlen c else maxIOSize_ d) [] d)
    as (r & d' & -> & Hc & Hr & Hf); try done.
  { unfold zlen. lia. }
  { intros Hne. destruct (Z.eqb_spec (maxIOSize_ d) 0); [|lia].
    destruct c; [done|rewrite zlen_cons; zl]. }
  destruct r as [value|]; [|exists None, d'; split_and!; [done|done| |done]; right; split; [done|by destruct Hr as [[=]|[_ ?]]]].
  assert (value = c) as -> by (destruct Hr as [[= ->]|[[=] _]]; done).
  destruct (encryptor_ d) as [e|].
  - destruct He as [_ He]. rewrite He, Z.eqb_refl. cbn [negb]. unfold Prelude.guard, ret. rewrite Hdec.
    exists (Some bs), d'. split_and!; auto.
  - subst c. exists (Some bs), d'. split_and!; auto.
Qed.

Lemma dev_read_spec (off : Z) (bs : bytes) (d : Dev) :
  dev_holds d off bs -> dev_canTransfer d off (zlen bs) ->
  exists r d', read off (zlen bs) d = (Ok r, d') /\ same_config d d' /\
    (r = Some bs \/ r = None /\ read_fault) /\
    (forall o c, stores (impl_ d) o c -> stores (impl_ d') o c).
Proof.
  intros Hh Ht. unfold read. rewrite u32_small; [by apply readInternal_spec|].
  destruct Ht as (_ & _ & _ & H32 & _). pose proof (zlen_nonneg bs). unfold is_u32. lia.
Qed.

Lemma dev_write_spec (off : Z) (bs : bytes) (d : Dev) :
  dev_canTransfer d off (zlen bs) ->
  exists ok d', write off bs d = (Ok ok, d') /\ same_config d d' /\
    (if ok then dev_holds d' off bs
     else write_fault \/ exists e, encryptor_ d = Some e /\ encrypt e bs off = None) /\
    (forall o c, dev_holds d o c -> o + zlen c <= off \/ off + zlen bs <= o -> dev_holds d' o c).
Proof.
  intros (Ho & Hs & H64 & H32 & Hm & Hw & He). unfold write, bind, get.
  assert (Hgo : forall c, zlen c = zlen bs ->
    match encryptor_ d with None => c = bs | Some e => decrypt e c off = Some bs end ->
    exists ok d', writeInternal off c d = (Ok ok, d') /\ same_config d d' /\
    (if ok then dev_holds d' off bs
     else write_fault \/ exists e, encryptor_ d = Some e /\ encrypt e bs off = None) /\
    (forall o c, dev_holds d o c -> o + zlen c <= off \/ off + zlen bs <= o -> dev_holds d' o c)).
  { intros c Hl Hc. destruct (writeInternal_spec off c d) as (ok & d' & E & Hcf & Hst & Hf); [lia..|].
    exists ok, d'. split_and!; [done|done| |].
    - destruct ok; [|by left]. destruct Hcf as (_&_&_&_&E3&_).
      unfold dev_holds. rewrite E3. destruct (encryptor_ d) as [e|]; [|by subst c].
      by exists c.
    - intros o c' Hh Hd. apply (dev_holds_same d); [apply Hcf| |done].
      intros b Hb Hst'. apply Hf; [done|]. lia. }
  destruct (encryptor_ d) as [e|] eqn:Ee; [|by apply Hgo].
  destruct He as [He1 He]. rewrite He, Z.eqb_refl. cbn [negb]. unfold Prelude.guard, ret.
  destruct (encrypt e bs off) as [c|] eqn:Ec.
  - apply Hgo; [by apply (enc_len _ He1 _ off)|by apply (enc_dec _ He1)].
  - eexists _, _. split; [done|].
    split_and!; [by unfold same_config|right; by exists e|].
    intros o c Hh _. apply (dev_holds_same d); try done.
Qed.

#[export, refine] Instance Device_laws : NavyDeviceLaws Dev := {|
  holds := dev_holds;
  canTransfer := dev_canTransfer
|}.
Proof.
  - intros d off bs Hh Ht. destruct (dev_read_spec off bs d Hh Ht) as (r & d' & E & Hc & Hr & Hf).
    exists r, d'. split_and!; [done|destruct Hr as [?|[? _]]; auto| | |].
    + intros o c Hoc. apply (dev_holds_same d); [apply Hc|auto|done].
    + intros o n. by apply canTransfer_same.
    + intros n. simpl. unfold getIOAlignedSize. destruct Hc as (_&->&_). done.
  - intros d off bs Ht. destruct (dev_write_spec off bs d Ht) as (ok & d' & E & Hc & Hr & Hf).
    exists ok, d'. split_and!; [done|by intros ->|done| |].
    + intros o n. by apply canTransfer_same.
    + intros n. simpl. unfold getIOAlignedSize. destruct Hc as (_&->&_). done.
Defined.

(** Writes of other ranges, whatever their outcome. *)
Fixpoint write_all (ws : list (Z * bytes)) : M Dev unit :=
  match ws with
  | [] => ret tt
  | (o, v) :: ws => let! _ := write o v in write_all ws
  end.

Lemma write_all_keeps (ws : list (Z * bytes)) (off : Z) (bs : bytes) (d : Dev) :
  Forall (fun '(o, v) => dev_canTransfer d o (zlen v) /\
                         (off + zlen bs <= o \/ o + zlen v <= off)) ws ->
  dev_holds d off bs ->
  exists d', write_all ws d = (Ok tt, d') /\ same_config d d' /\ dev_holds d' off bs.
Proof.
  revert d. induction ws as [|[o v] ws IH]; intros d Hw Hh.
  { exists d. by unfold same_config. }
  apply Forall_cons in Hw as [[Ht Hd] Hw].
  destruct (dev_write_spec o v d Ht) as (ok & d1 & E & Hc & _ & Hf). cbn [write_all].
  unfold bind. rewrite E. destruct (IH d1) as (d' & E' & Hc' & Hh').
  - eapply Forall_impl; [exact Hw|]. intros [o' v'] [? ?]. split; [by apply (canTransfer_same d)|done].
  - by apply Hf.
  - exists d'. split_and!; [done|by apply (same_config_trans d d1)|done].
Qed.

(** C27. What was written is read back. A write of less than 2^32 bytes inside
    the device terminates, and reports failure only if a transfer failed or the encryptor refused;
    if it succeeded then, after any later such writes elsewhere, failed ones
    included, reading the range gives exactly the bytes written, through
    encryption and through transfers of any size, or reports a failed
    transfer. *)
Theorem device_read_after_writes (d : Dev) (off : Z) (bs : bytes) (ws : list (Z * bytes)) :
  dev_canTransfer d off (zlen bs) ->
  Forall (fun '(o, v) => dev_canTransfer d o (zlen v) /\
                         (off + zlen bs <= o \/ o + zlen v <= off)) ws ->
  exists ok d1, write off bs d = (Ok ok, d1) /\
    if ok then exists d2 r d3, write_all ws d1 = (Ok tt, d2) /\ read off (zlen bs) d2 = (Ok r, d3) /\
                 (r = Some bs \/ r = None /\ read_fault)
    else write_fault \/ exists e, encryptor_ d = Some e /\ encrypt e bs off = None.
Proof.
  intros Ht Hw. destruct (dev_write_spec off bs d Ht) as (ok & d1 & E & Hc & Hok & _).
  exists ok, d1. split; [done|]. destruct ok; [|done].
  destruct (write_all_keeps ws off bs d1) as (d2 & E2 & Hc2 & Hh2); [|done|].
  { eapply Forall_impl; [exact Hw|]. intros [o v] [? ?]. split; [by apply (canTransfer_same d)|done]. }
  destruct (dev_read_spec off bs d2 Hh2) as (r & d3 & E3 & _ & Hr & _).
  { apply (canTransfer_same d1); [done|]. by apply (canTransfer_same d). }
  by exists d2, r, d3.
Qed.
End Loops.

(** A memory device has no failed transfers, so with a cipher that always
    encrypts, here addition of the offset in transfers of at most 3 bytes,
    the bytes come back. *)
Definition toyEncryptor : Encryptor :=
  mkEncryptor 1 (fun v salt => Some (map (fun b => b + salt) v))
    (fun v salt => Some (map (fun b => b - salt) v)).

Definition toyDevice : Device MemoryDevice :=
  mkDevice 16 1 2 3 (Some toyEncryptor) 0 0 0 0 0 0 (mkMemoryDevice (replicate 16 0)).

Lemma toy_laws : encryptor_laws toyEncryptor.
Proof.
  constructor; [done|..]; intros v salt c [= <-]; cbn [encrypt decrypt toyEncryptor].
  - f_equal. rewrite map_map. rewrite <- (map_id v) at 2. apply map_ext. lia.
  - unfold zlen. by rewrite length_map.
Qed.

Lemma device_read_after_writes_witness :
  exists d1 d2 d3, write 4 [1; 2; 3; 4; 5; 6; 7] toyDevice = (Ok true, d1) /\
    write_all [(0, [9; 9]); (11, [8; 8; 8; 8])] d1 = (Ok tt, d2) /\
    read 4 7 d2 = (Ok (Some [1; 2; 3; 4; 5; 6; 7]), d3).
Proof.
  destruct (device_read_after_writes toyDevice 4 [1; 2; 3; 4; 5; 6; 7]
              [(0, [9; 9]); (11, [8; 8; 8; 8])]) as (ok & d1 & E & Hok).
  - repeat split; try apply toy_laws; first [by vm_compute | left; by vm_compute | right; by vm_compute].
  - repeat (apply Forall_cons; split; [repeat split; try apply toy_laws; first [by vm_compute | left; by vm_compute | right; by vm_compute]|]). done.
  - assert (Ht : fst (write 4 [1; 2; 3; 4; 5; 6; 7] toyDevice) = Ok true) by (vm_compute; done).
    rewrite E in Ht. injection Ht as ->. destruct Hok as (d2 & r & d3 & E2 & E3 & [-> | [_ (o & n & i & i' & F)]]).
    + exists d1, d2, d3. by split_and!.
    + cbn in F. by destruct (load (buffer_ i) o n).
Defined.

(** ** Findings *)

(** Without a maximum write size, a write of 2^32 bytes reaches [writeImpl]
    with size 0, and reports success without having written anything. *)
Lemma write_truncates (off : Z) (data : bytes) (d : Device MemoryDevice) :
  zlen data = 2 ^ 32 -> 0 <= off <= zlen (buffer_ (impl_ d)) ->
  encryptor_ d = None -> maxWriteSize_ d = 0 ->
  exists d', write off data d = (Ok true, d') /\ impl_ d' = impl_ d.
Proof.
  intros Hz Ho He Hm. unfold write, bind, get. rewrite He. unfold writeInternal, bind, get. rewrite Hm. cbn [Z.eqb].
  assert (Hl : exists n, length data = S n /\ data <> []).
  { destruct data; [done|]. by eexists. }
  destruct Hl as (n & Hl & Hne). rewrite Hl.
  assert (Estep : write_loop (S n) off data (zlen data) =
    let! result := onImpl (writeImpl off (take (Z.to_nat (u32 (Z.min (zlen data) (zlen data)))) data)) in
    if result : bool then
      do! modify (count (Z.min (zlen data) (zlen data)) 0 0 0 0 0) in
      write_loop n (u64 (off + Z.min (zlen data) (zlen data))) (drop (Z.to_nat (Z.min (zlen data) (zlen data))) data)
        (zlen data)
    else ret false) by (by destruct data).
  rewrite Estep. clear Estep.
  rewrite Hz, Z.min_id. change (u32 (2 ^ 32)) with 0. change (Z.to_nat 0) with 0%nat. rewrite take_0.
  unfold bind, onImpl, modify, ret. cbn [writeImpl MemoryDevice_impl]. unfold store.
  rewrite (proj2 (in_bounds_true _ _ _)) by (change (zlen ([] : bytes)) with 0; lia).
  rewrite (drop_ge data) by (unfold zlen in Hz; lia).
  destruct n; cbn [write_loop]; unfold ret; eexists; (split; [done|]); cbn [impl_ count set_impl];
    destruct (impl_ d) as [b]; cbn; unfold poke; change (zlen ([] : bytes)) with 0; rewrite Z.add_0_r; cbn [app]; by rewrite take_drop.
Qed.
