(* ===== verification/BigHash.v ===== *)
(** * BigHash: the small-item engine of Navy

    [src/cachelib/navy/bighash/BigHash.{h,cpp}]: an on-device hash table of
    buckets with an optional bloom filter per bucket and a checker of the
    buckets that had device errors. The operations run one at a time here:
    the code holds a bucket's lock over each read-modify-write of it.

    Parameters: the device (an instance of [NavyDevice]), folly's crc32 and
    hash mixing, SpookyHash over a key ([hashBuffer]), the thrift encodings,
    the expiry predicate. [destructorCalls] is the sequence of the calls of
    the user's destructor callback. *)

From S2P Require Import Prelude Bytes BloomFilter BucketStorage Bucket Device.
From stdpp Require Import base tactics numbers list.

#[local] Open Scope Z_scope.
#[local] Open Scope cachelib_scope.

Inductive Status : Type :=
| StatusOk | NotFound | Rejected | Retry | DeviceError | BadState | ChecksumError.

#[export] Instance Status_eq_dec : EqDecision Status.
Proof. solve_decision. Defined.

(** ** [ValidBucketChecker] *)
Module ValidBucketChecker.

Record t : Type := mk {
  numBuckets_ : Z;
  numBucketsPerBit_ : Z;
  numBytes_ : Z;
  bits_ : bytes;
  numDisabledBuckets_ : Z
}.

Record State : Type := mkState {
  st_numBuckets : Z;
  st_numBucketsPerBit : Z;
  st_numDisabledBuckets : Z;
  st_bytes : list Z
}.

Definition getBytes (numBuckets numBucketsPerBit : Z) : Z :=
  let numBits := u32 (numBuckets + numBucketsPerBit - 1) / numBucketsPerBit in
  u32 (numBits + 7) / 8.

Definition make (numBuckets numBucketsPerBit : Z) : t :=
  let n := getBytes numBuckets numBucketsPerBit in
  mk numBuckets numBucketsPerBit n (replicate (Z.to_nat n) 0) 0.

(** Signed bytes of the thrift list. *)
Definition s8 (x : Z) : Z := (x + 2 ^ 7) mod 2 ^ 8 - 2 ^ 7.

Definition persist (c : t) : State :=
  mkState (s32 (numBuckets_ c)) (s32 (numBucketsPerBit_ c)) (s32 (u64 (numDisabledBuckets_ c)))
    (s8 <$> take (Z.to_nat (numBytes_ c)) (bits_ c)).

(** [(false, c)] when the state does not fit the checker. *)
Definition recover (st : State) (c : t) : bool * t :=
  if negb (u32 (st_numBuckets st) =? numBuckets_ c) ||
     negb (u32 (st_numBucketsPerBit st) =? numBucketsPerBit_ c) ||
     negb (zlen (st_bytes st) =? numBytes_ c)
  then (false, c)
  else (true, mk (numBuckets_ c) (numBucketsPerBit_ c) (numBytes_ c)
                (u8 <$> st_bytes st) (u64 (st_numDisabledBuckets st))).

Definition numDisabledBuckets (c : t) : Z := u32 (numDisabledBuckets_ c).

Definition isBucketValid (c : t) (idx : Z) : res bool :=
  let numBits := idx / numBucketsPerBit_ c in
  let? b := bitGet (bits_ c) (numBits / 8) (numBits mod 8) in
  Ok (negb b).

Definition disableBucket (c : t) (idx : Z) : res t :=
  let numBits := idx / numBucketsPerBit_ c in
  let? bits := bitSet (bits_ c) (numBits / 8) (numBits mod 8) in
  Ok (mk (numBuckets_ c) (numBucketsPerBit_ c) (numBytes_ c) bits (numDisabledBuckets_ c)).

End ValidBucketChecker.

(** ** Counters *)

Inductive Counter : Type :=
| lookupCount_ | bfProbeCount_ | bfRejectCount_ | itemCount_ | insertCount_
| succInsertCount_ | succLookupCount_ | removeCount_ | succRemoveCount_
| evictionCount_ | evictionExpiredCount_ | logicalWrittenCount_
| physicalWrittenCount_ | ioErrorCount_ | bfFalsePositiveCount_ | bfRebuildCount_
| checksumErrorCount_ | usedSizeBytes_ | disabledBucketLookup_
| disabledBucketInsert_ | disabledBucketRemove_.

#[export] Instance Counter_eq_dec : EqDecision Counter.
Proof. solve_decision. Defined.

(** The counters [reset] sets to 0. *)
Definition resetCounters : list Counter :=
  [itemCount_; insertCount_; succInsertCount_; lookupCount_; succLookupCount_;
   removeCount_; succRemoveCount_; evictionCount_; evictionExpiredCount_;
   logicalWrittenCount_; physicalWrittenCount_; ioErrorCount_; bfFalsePositiveCount_;
   bfProbeCount_; checksumErrorCount_; usedSizeBytes_].

Record BigHashPersistentData : Type := mkBigHashPersistentData {
  pd_version : Z;
  pd_generationTime : Z;
  pd_itemCount : Z;
  pd_bucketSize : Z;
  pd_cacheBaseOffset : Z;
  pd_numBuckets : Z;
  pd_usedSizeBytes : Z;
  pd_validBucketCheckerState : ValidBucketChecker.State
}.

Class BigHashProto : Type := {
  encodeBigHash : BigHashPersistentData -> bytes;
  decodeBigHash : bytes -> res BigHashPersistentData
}.

Class BigHashProtoLaws `{BigHashProto} : Prop := {
  decode_encodeBigHash pd : decodeBigHash (encodeBigHash pd) = Ok pd
}.

(** [SpookyHashV2::Hash64] of a key with seed 0. *)
Class KeyHasher : Type := hashBuffer : bytes -> Z.

Definition makeHK `{KeyHasher} (k : bytes) : HashedKey := mkHK k (hashBuffer k).

Definition kBigHashValidBucketCheckerBucketsPerBit : Z := 100.
Definition kFormatVersion : Z := 10.

(** ** State and configuration *)

Section BigHash.
Context {D : Type} `{NavyDevice D} `{FollyHash} `{Crc32} `{KeyHasher}.

Record BigHash : Type := mkBigHash {
  bucketSize_ : Z;
  cacheBaseOffset_ : Z;
  numBuckets_ : Z;
  bloomFilter_ : option BloomFilter;
  validBucketChecker_ : ValidBucketChecker.t;
  generationTime_ : Z;
  device_ : D;
  counters : Counter -> Z;
  destructorCalls : list (HashedKey * bytes * DestructorEvent)
}.

Definition set_bloom (bf : option BloomFilter) (s : BigHash) : BigHash :=
  mkBigHash (bucketSize_ s) (cacheBaseOffset_ s) (numBuckets_ s) bf
    (validBucketChecker_ s) (generationTime_ s) (device_ s) (counters s) (destructorCalls s).
Definition set_checker (c : ValidBucketChecker.t) (s : BigHash) : BigHash :=
  mkBigHash (bucketSize_ s) (cacheBaseOffset_ s) (numBuckets_ s) (bloomFilter_ s) c
    (generationTime_ s) (device_ s) (counters s) (destructorCalls s).
Definition set_gen (g : Z) (s : BigHash) : BigHash :=
  mkBigHash (bucketSize_ s) (cacheBaseOffset_ s) (numBuckets_ s) (bloomFilter_ s)
    (validBucketChecker_ s) g (device_ s) (counters s) (destructorCalls s).
Definition set_device (d : D) (s : BigHash) : BigHash :=
  mkBigHash (bucketSize_ s) (cacheBaseOffset_ s) (numBuckets_ s) (bloomFilter_ s)
    (validBucketChecker_ s) (generationTime_ s) d (counters s) (destructorCalls s).
Definition set_counters (c : Counter -> Z) (s : BigHash) : BigHash :=
  mkBigHash (bucketSize_ s) (cacheBaseOffset_ s) (numBuckets_ s) (bloomFilter_ s)
    (validBucketChecker_ s) (generationTime_ s) (device_ s) c (destructorCalls s).
Definition log_destructor (l : list (HashedKey * bytes * DestructorEvent)) (s : BigHash) : BigHash :=
  mkBigHash (bucketSize_ s) (cacheBaseOffset_ s) (numBuckets_ s) (bloomFilter_ s)
    (validBucketChecker_ s) (generationTime_ s) (device_ s) (counters s) (destructorCalls s ++ l).

Definition set_counter (c : Counter) (n : Z) : M BigHash unit :=
  modify (fun s => set_counters (fun c' => if decide (c' = c) then n else counters s c') s).
(** [c.add(n)], [c.sub(n)], [c.inc()], [c.dec()]. *)
Definition add (c : Counter) (n : Z) : M BigHash unit :=
  modify (fun s => set_counters
    (fun c' => if decide (c' = c) then u64 (counters s c + n) else counters s c') s).
Definition sub (c : Counter) (n : Z) : M BigHash unit := add c (- n).
Definition inc (c : Counter) : M BigHash unit := add c 1.
Definition dec (c : Counter) : M BigHash unit := sub c 1.

Record Config : Type := mkConfig {
  cfg_bucketSize : Z;
  cfg_cacheBaseOffset : Z;
  cfg_cacheSize : Z;
  cfg_device : option D;
  cfg_bloomFilter : option BloomFilter
}.

Definition isPowTwo (v : Z) : bool := negb (v =? 0) && (Z.land v (v - 1) =? 0).

Definition cfg_numBuckets (c : Config) : Z := cfg_cacheSize c / cfg_bucketSize c.

Definition validate (c : Config) : res unit :=
  if cfg_cacheSize c <? cfg_bucketSize c then Throw InvalidArgument
  else if negb (isPowTwo (cfg_bucketSize c)) then Throw InvalidArgument
  else if u64 (Z.shiftl (cfg_bucketSize c) 32) <? cfg_cacheSize c then Throw InvalidArgument
  else if negb (cfg_cacheBaseOffset c mod cfg_bucketSize c =? 0) ||
          negb (cfg_cacheSize c mod cfg_bucketSize c =? 0) then Throw InvalidArgument
  else match cfg_device c with
       | None => Throw InvalidArgument
       | Some _ =>
           match cfg_bloomFilter c with
           | Some bf => if negb (numFilters_ bf =? cfg_numBuckets c)
                        then Throw InvalidArgument else Ok tt
           | None => Ok tt
           end
       end.

(** ** Buckets on the device *)

Definition getSize (s : BigHash) : Z := u64 (bucketSize_ s * numBuckets_ s).

Definition getMaxItemSize (s : BigHash) : Z :=
  u64 (bucketSize_ s - Bucket.kHeaderSize - BucketStorage.slotSize BucketEntry.kSize).

Definition estimateWriteSize (s : BigHash) : Z := bucketSize_ s.

Definition getBucketId (s : BigHash) (hk : HashedKey) : Z := u32 (keyHash hk mod numBuckets_ s).

Definition getBucketOffset (s : BigHash) (bid : Z) : Z :=
  u64 (cacheBaseOffset_ s + bucketSize_ s * bid).

Definition onDevice {A} (m : M D A) : M BigHash A := fun s =>
  let '(r, d) := m (device_ s) in (r, set_device d s).

Definition disableBucket (bid : Z) : M BigHash unit :=
  let! s := get in
  let! c := lift (ValidBucketChecker.disableBucket (validBucketChecker_ s) bid) in
  modify (set_checker c).

(** A buffer read from the device as a bucket: a bucket of another
    generation, or one whose checksum is off, is initialised anew. *)
Definition openBucket (generation : Z) (v : bytes) : res Bucket.t :=
  let? b := Bucket.ofBytes v in
  if negb (u64 generation =? Bucket.generationTime_ b) then Bucket.initNew v (u64 generation) else
  let? c := Bucket.computeChecksum v in
  if negb (c =? Bucket.checksum_ b) then Bucket.initNew v (u64 generation)
  else Ok b.

(** [None] for the null buffer. *)
Definition readBucket (bid : Z) : M BigHash (option Bucket.t) :=
  let! s := get in
  let n := ioAlignedSize (device_ s) (bucketSize_ s) in
  let! r := onDevice (devRead (getBucketOffset s bid) (u32 n)) in
  match r with
  | None => do! disableBucket bid in ret None
  | Some v => let! b := lift (openBucket (generationTime_ s) v) in ret (Some b)
  end.

Definition writeBucket (bid : Z) (b : Bucket.t) : M BigHash bool :=
  let! s := get in
  let! c := lift (Bucket.computeChecksum (Bucket.toBytes b)) in
  let b := Bucket.setChecksum c b in
  let! ok := onDevice (devWrite (getBucketOffset s bid) (Bucket.toBytes b)) in
  do! (if ok : bool then ret tt else disableBucket bid) in
  ret ok.

(** ** The bloom filter *)

Definition onBloom (m : M BloomFilter unit) : M BigHash unit := fun s =>
  match bloomFilter_ s with
  | None => (Ok tt, s)
  | Some bf => let '(r, bf) := m bf in (r, set_bloom (Some bf) s)
  end.

Definition bfSet (bid keyHash : Z) : M BigHash unit := onBloom (set bid keyHash).
Definition bfClear (bid : Z) : M BigHash unit := onBloom (clear bid).

Definition bfReject (bid keyHash : Z) : M BigHash bool :=
  let! s := get in
  match bloomFilter_ s with
  | None => ret false
  | Some bf =>
      do! inc bfProbeCount_ in
      let! e := lift (couldExist bf bid keyHash) in
      if negb e then do! inc bfRejectCount_ in ret true else ret false
  end.

(** One iteration of [bfRebuild] over the bucket's items. *)
Definition rebuildBody (b : Bucket.t) (bid : Z) (itr : BucketStorage.Allocation)
    (bf : BloomFilter) : res (BloomFilter + unit) :=
  let? h := Bucket.iterKeyHash b itr in
  match set bid h bf with
  | (Ok _, bf) => Ok (inl bf)
  | (Throw e, _) => Throw e
  end.

Definition bfRebuild (bid : Z) (b : Bucket.t) : M BigHash unit :=
  let! s := get in
  match bloomFilter_ s with
  | None => ret tt
  | Some _ =>
      do! inc bfRebuildCount_ in
      do! onBloom (clear bid) in
      onBloom (fun bf =>
        match BucketStorage.forEach (Bucket.storage_ b) (rebuildBody b bid) bf with
        | Ok (inl bf) => (Ok tt, bf)
        | Ok (inr _) => (Throw UndefinedBehavior, bf)
        | Throw e => (Throw e, bf)
        end)
  end.

(** ** Operations *)

Definition isBucketValid (bid : Z) : M BigHash bool :=
  let! s := get in lift (ValidBucketChecker.isBucketValid (validBucketChecker_ s) bid).

(** A bucket operation with the state of its callback. *)
Definition runBucket {W A} (m : M (Bucket.t * W) A) (b : Bucket.t) (w : W)
    : M BigHash (A * Bucket.t * W) :=
  let '(r, (b', w')) := m (b, w) in
  lift (let? a := r in Ok (a, b', w')).

(** The items a bucket gives up, copied for the callback after the lock. *)
Notation removedItem := (bytes * bytes * DestructorEvent)%type.

Definition collectCb (hk : HashedKey) (v : bytes) (ev : DestructorEvent)
    (l : list removedItem) : list removedItem := l ++ [(key hk, v, ev)].

Context (checkExpired_ : Bucket.ExpiredCheck).

Definition insert (hk : HashedKey) (value : bytes) : M BigHash Status :=
  let! s := get in
  let bid := getBucketId s hk in
  do! inc insertCount_ in
  let! valid := isBucketValid bid in
  if negb valid then do! inc disabledBucketInsert_ in ret Rejected else
  let! rb := readBucket bid in
  match rb with
  | None => do! inc ioErrorCount_ in ret DeviceError
  | Some bucket =>
      let oldRemainingBytes := Bucket.remainingBytes bucket in
      let! x := runBucket (Bucket.remove (Some collectCb) hk) bucket [] in
      let '(removed, bucket, items) := x in
      let! y := runBucket (Bucket.insert checkExpired_ (Some collectCb) hk value) bucket items in
      let '((evicted, evictExpired), bucket, items) := y in
      let newRemainingBytes := Bucket.remainingBytes bucket in
      do! (if u32 (removed + evicted) =? 0 then bfSet bid (keyHash hk)
           else bfRebuild bid bucket) in
      let! res := writeBucket bid bucket in
      if negb res then
        do! bfClear bid in
        do! inc ioErrorCount_ in
        ret DeviceError
      else
        do! modify (log_destructor
              ((fun it => (makeHK (fst (fst it)), snd (fst it), snd it)) <$> items)) in
        do! (if oldRemainingBytes <? newRemainingBytes
             then sub usedSizeBytes_ (u32 (newRemainingBytes - oldRemainingBytes))
             else add usedSizeBytes_ (u32 (oldRemainingBytes - newRemainingBytes))) in
        do! add itemCount_ 1 in
        do! sub itemCount_ (u32 (evicted + removed)) in
        do! add evictionCount_ evicted in
        do! add evictionExpiredCount_ evictExpired in
        do! add logicalWrittenCount_ (zlen (key hk) + zlen value) in
        do! add physicalWrittenCount_ (bucketSize_ s) in
        do! inc succInsertCount_ in
        ret StatusOk
  end.

Definition bh_couldExist (hk : HashedKey) : M BigHash bool :=
  let! s := get in
  let! r := bfReject (getBucketId s hk) (keyHash hk) in
  let canExist := negb r in
  do! (if canExist then ret tt else inc lookupCount_) in
  ret canExist.

(** The status, the value and [lastAccessTimeSecs]. *)
Definition lookup (hk : HashedKey) : M BigHash (Status * option bytes * Z) :=
  let! s := get in
  let bid := getBucketId s hk in
  do! inc lookupCount_ in
  let! valid := isBucketValid bid in
  if negb valid then do! inc disabledBucketLookup_ in ret (NotFound, None, 0) else
  let! rej := bfReject bid (keyHash hk) in
  if rej : bool then ret (NotFound, None, 0) else
  let! rb := readBucket bid in
  match rb with
  | None => do! inc ioErrorCount_ in ret (DeviceError, None, 0)
  | Some bucket =>
      let! valueView := lift (Bucket.find bucket hk) in
      if isNull valueView then do! inc bfFalsePositiveCount_ in ret (NotFound, None, 0) else
      let! value := lift (view_bytes (Bucket.data bucket) valueView) in
      do! inc succLookupCount_ in
      ret (StatusOk, Some value, 0)
  end.

(** The callback of [remove] keeps a copy of the value. *)
Definition valueCb (hk : HashedKey) (v : bytes) (ev : DestructorEvent) (w : option bytes)
    : option bytes := Some v.

Definition remove (hk : HashedKey) : M BigHash Status :=
  let! s := get in
  let bid := getBucketId s hk in
  do! inc removeCount_ in
  let! valid := isBucketValid bid in
  if negb valid then do! inc disabledBucketRemove_ in ret NotFound else
  let! rej := bfReject bid (keyHash hk) in
  if rej : bool then ret NotFound else
  let! rb := readBucket bid in
  match rb with
  | None => do! inc ioErrorCount_ in ret DeviceError
  | Some bucket =>
      let oldRemainingBytes := Bucket.remainingBytes bucket in
      let! x := runBucket (Bucket.remove (Some valueCb) hk) bucket None in
      let '(n, bucket, valueCopy) := x in
      if n =? 0 then do! inc bfFalsePositiveCount_ in ret NotFound else
      let newRemainingBytes := Bucket.remainingBytes bucket in
      do! bfRebuild bid bucket in
      let! res := writeBucket bid bucket in
      if negb res then
        do! bfClear bid in
        do! inc ioErrorCount_ in
        ret DeviceError
      else
        do! (match valueCopy with
             | Some v => modify (log_destructor [(hk, v, Removed)])
             | None => ret tt
             end) in
        do! sub usedSizeBytes_ (u32 (newRemainingBytes - oldRemainingBytes)) in
        do! dec itemCount_ in
        do! add physicalWrittenCount_ (bucketSize_ s) in
        do! inc succRemoveCount_ in
        ret StatusOk
  end.

(** [rb] and [ro] are the random bucket and the random offset in it. *)
Definition getRandomAlloc (rb ro : Z) : M BigHash (Status * bytes * option bytes) :=
  let! r := readBucket rb in
  match r with
  | None => do! inc ioErrorCount_ in ret (NotFound, [], None)
  | Some bucket =>
      let! x := lift (Bucket.getRandomAlloc bucket ro) in
      let '(k, valueView) := x in
      if bool_decide (k = []) || isNull valueView then ret (NotFound, [], None) else
      let! v := lift (view_bytes (Bucket.data bucket) valueView) in
      ret (StatusOk, k, Some v)
  end.

Definition flush : M BigHash unit := onDevice devFlush.

(** [now] is the steady clock. *)
Definition reset (now : Z) : M BigHash unit :=
  do! modify (set_gen now) in
  do! onBloom BloomFilter.reset in
  do! modify (fun s => set_checker
        (ValidBucketChecker.make (u32 (numBuckets_ s)) kBigHashValidBucketCheckerBucketsPerBit) s) in
  fold_right (fun c k => do! set_counter c 0 in k) (ret tt) resetCounters.

(** The constructors: validate, then build and reset. *)
Definition newBigHash (c : Config) (now : Z) : res BigHash :=
  let? _ := validate c in
  match cfg_device c with
  | None => Throw UndefinedBehavior
  | Some d =>
      let s := mkBigHash (cfg_bucketSize c) (cfg_cacheBaseOffset c) (cfg_numBuckets c)
                 (cfg_bloomFilter c) (ValidBucketChecker.make 0 1) 0 d (fun _ => 0) [] in
      match reset now s with
      | (Ok _, s) => Ok s
      | (Throw e, _) => Throw e
      end
  end.

(** ** Persistence *)
Context `{BloomProto} `{BigHashProto}.

Definition persist (s : BigHash) : res (list bytes) :=
  let pd := mkBigHashPersistentData (s32 kFormatVersion) (s64 (generationTime_ s))
              (s64 (counters s itemCount_)) (s64 (bucketSize_ s)) (s64 (cacheBaseOffset_ s))
              (s64 (numBuckets_ s)) (s64 (counters s usedSizeBytes_))
              (ValidBucketChecker.persist (validBucketChecker_ s)) in
  let? bl := match bloomFilter_ s with None => Ok [] | Some bf => BloomFilter.persist bf end in
  Ok (encodeBigHash pd :: bl).

(** The body of the [try] block. *)
Definition recoverBody (rr : list bytes) : M BigHash unit :=
  match rr with
  | [] => throw LogicError
  | r :: rr =>
      let! pd := lift (decodeBigHash r) in
      let! s := get in
      do! Prelude.guard (negb (pd_version pd =? kFormatVersion)) LogicError in
      do! Prelude.guard (negb ((u64 (pd_bucketSize pd) =? bucketSize_ s) &&
                               (u64 (pd_cacheBaseOffset pd) =? cacheBaseOffset_ s) &&
                               (u64 (pd_numBuckets pd) =? numBuckets_ s))) LogicError in
      do! modify (set_gen (pd_generationTime pd)) in
      do! set_counter itemCount_ (u64 (pd_itemCount pd)) in
      do! set_counter usedSizeBytes_ (u64 (pd_usedSizeBytes pd)) in
      do! onBloom (bind (BloomFilter.recover rr) (fun _ => ret tt)) in
      let! s := get in
      let '(ok, c) := ValidBucketChecker.recover (pd_validBucketCheckerState pd)
                        (validBucketChecker_ s) in
      do! modify (set_checker c) in
      Prelude.guard (negb ok) LogicError
  end.

(** What [catch (const std::exception&)] does not catch. *)
Definition uncaught (e : exn) : bool :=
  match e with UndefinedBehavior | StillWaiting | Aborted => true | _ => false end.

(** Any exception resets the cache. *)
Definition recover (now : Z) (rr : list bytes) : M BigHash bool := fun s =>
  match recoverBody rr s with
  | (Ok _, s) => (Ok true, s)
  | (Throw e, s) =>
      if uncaught e then (Throw e, s) else bind (reset now) (fun _ => ret false) s
  end.
End BigHash.
Arguments BigHash : clear implicits.
