(* ===== verification/BigHashProofs.v ===== *)
(** * BigHash: the invariant

    [bh_inv s m] relates a BigHash to the entries [m bid] of each bucket that
    is not disabled: what the device holds for the bucket opens to a bucket
    with exactly those entries, under distinct keys of that bucket, and no
    entry's hash is ruled out by the bloom filter. *)

From S2P Require Import Prelude Bytes BloomFilter BloomFilterSpec BucketStorage.
From S2P Require Import Bucket BucketSpec Device BigHash.
From stdpp Require Import base tactics numbers list.

#[local] Open Scope Z_scope.

Class Crc32Laws `{Crc32} : Prop := crc32_range b : is_u32 (crc32 b).

(** ** The checker of valid buckets *)

Record checker_ok (c : ValidBucketChecker.t) (n : Z) : Prop := {
  ck_per : ValidBucketChecker.numBucketsPerBit_ c = kBigHashValidBucketCheckerBucketsPerBit;
  ck_bits : forall bid, 0 <= bid < n -> bid / 100 / 8 < zlen (ValidBucketChecker.bits_ c);
  ck_bytes : is_bytes (ValidBucketChecker.bits_ c);
  ck_len : zlen (ValidBucketChecker.bits_ c) = ValidBucketChecker.numBytes_ c;
  ck_num : ValidBucketChecker.numBuckets_ c = n;
  ck_numBytes : ValidBucketChecker.numBytes_ c = ValidBucketChecker.getBytes n 100
}.

Definition is_valid (c : ValidBucketChecker.t) (bid : Z) : Prop :=
  ValidBucketChecker.isBucketValid c bid = Ok true.

Lemma checker_bit (n : Z) : 0 <= n -> 8 * (n / 8) + n mod 8 = n.
Proof. intros. pose proof (Z.div_mod n 8). lia. Qed.

Lemma isBucketValid_spec (c : ValidBucketChecker.t) (n bid : Z) :
  checker_ok c n -> 0 <= bid < n ->
  ValidBucketChecker.isBucketValid c bid
  = Ok (negb (bit_at (ValidBucketChecker.bits_ c) (bid / 100))).
Proof.
  intros [Hp Hb _ _ _ _] Hbid. unfold ValidBucketChecker.isBucketValid. rewrite Hp.
  unfold kBigHashValidBucketCheckerBucketsPerBit.
  assert (0 <= bid / 100) by (apply Z.div_pos; lia).
  assert (0 <= bid / 100 / 8) by (apply Z.div_pos; lia).
  pose proof (Z.mod_pos_bound (bid / 100) 8 ltac:(lia)) as Hm.
  rewrite bitGet_spec by (try rewrite (Z.div_small ((bid / 100) mod 8)); try (specialize (Hb bid)); lia).
  cbn [rbind]. by rewrite checker_bit.
Qed.

Lemma isBucketValid_total (c : ValidBucketChecker.t) (n bid : Z) :
  checker_ok c n -> 0 <= bid < n ->
  (is_valid c bid /\ ValidBucketChecker.isBucketValid c bid = Ok true) \/
  (~ is_valid c bid /\ ValidBucketChecker.isBucketValid c bid = Ok false).
Proof.
  intros Hc Hb. unfold is_valid. rewrite (isBucketValid_spec c n bid) by done.
  destruct (bit_at _ _); simpl; [right|left]; split; done.
Qed.

Lemma disableBucket_spec (c : ValidBucketChecker.t) (n bid : Z) :
  checker_ok c n -> 0 <= bid < n ->
  exists c', ValidBucketChecker.disableBucket c bid = Ok c' /\ checker_ok c' n /\
    ~ is_valid c' bid /\
    forall b, 0 <= b < n -> is_valid c' b <-> is_valid c b /\ b / 100 <> bid / 100.
Proof.
  intros Hc Hbid. pose proof Hc as [Hp Hb Hby Hle Hnu Hnb]. unfold ValidBucketChecker.disableBucket. rewrite Hp.
  unfold kBigHashValidBucketCheckerBucketsPerBit.
  assert (H0 : 0 <= bid / 100) by (apply Z.div_pos; lia).
  assert (0 <= bid / 100 / 8) by (apply Z.div_pos; lia).
  pose proof (Z.mod_pos_bound (bid / 100) 8 ltac:(lia)) as Hm.
  destruct (bitSet_spec (ValidBucketChecker.bits_ c) (bid / 100 / 8) ((bid / 100) mod 8))
    as (d & -> & Hl & Hdb & Hg); [lia..| |].
  { rewrite (Z.div_small ((bid / 100) mod 8)) by lia. specialize (Hb bid). lia. }
  cbn [rbind]. eexists. split; [done|].
  assert (Hc' : checker_ok (ValidBucketChecker.mk (ValidBucketChecker.numBuckets_ c) 100
    (ValidBucketChecker.numBytes_ c) d (ValidBucketChecker.numDisabledBuckets_ c)) n).
  { constructor; simpl; [done| |by apply Hdb|by rewrite Hl|done|done]. intros b Hb'. rewrite Hl. by apply Hb. }
  assert (Hiff : forall b, 0 <= b < n -> is_valid (ValidBucketChecker.mk (ValidBucketChecker.numBuckets_ c) 100
    (ValidBucketChecker.numBytes_ c) d (ValidBucketChecker.numDisabledBuckets_ c)) b
    <-> is_valid c b /\ b / 100 <> bid / 100).
  { intros b Hb'. unfold is_valid. rewrite (isBucketValid_spec _ n b Hc'), (isBucketValid_spec c n b Hc) by done.
    simpl. rewrite Hg by (apply Z.div_pos; lia). rewrite checker_bit by done.
    destruct (Z.eqb_spec (b / 100) (bid / 100)); destruct (bit_at _ _); simpl; naive_solver. }
  split_and!; [done| |done]. rewrite Hiff by done. naive_solver.
Qed.

Lemma make_checker_ok (n : Z) :
  0 <= n -> n + 99 < 2 ^ 32 ->
  checker_ok (ValidBucketChecker.make n kBigHashValidBucketCheckerBucketsPerBit) n /\
  forall b, 0 <= b < n ->
    is_valid (ValidBucketChecker.make n kBigHashValidBucketCheckerBucketsPerBit) b.
Proof.
  intros Hn H32.
  assert (Hc : checker_ok (ValidBucketChecker.make n kBigHashValidBucketCheckerBucketsPerBit) n).
  { assert (Hgb : 0 <= ValidBucketChecker.getBytes n kBigHashValidBucketCheckerBucketsPerBit).
    { apply Z.div_pos; [|lia]. apply Z.mod_pos_bound. lia. }
    constructor; simpl; [done| |apply is_bytes_zeros|unfold zlen; rewrite length_replicate; lia|done|done].
    intros bid Hb. unfold zlen. rewrite length_replicate.
    unfold ValidBucketChecker.getBytes, kBigHashValidBucketCheckerBucketsPerBit.
    rewrite (u32_small (n + 100 - 1)) by (unfold is_u32; lia).
    assert (bid / 100 < (n + 100 - 1) / 100).
    { apply Z.div_lt_upper_bound; [lia|].
      pose proof (Z.div_mod (n + 100 - 1) 100 ltac:(lia)).
      pose proof (Z.mod_pos_bound (n + 100 - 1) 100 ltac:(lia)). lia. }
    assert (0 <= bid / 100) by (apply Z.div_pos; lia).
    assert ((n + 100 - 1) / 100 <= 2 ^ 26) by (apply Z.div_le_upper_bound; lia).
    rewrite u32_small by (unfold is_u32; lia).
    assert (bid / 100 / 8 < ((n + 100 - 1) / 100 + 7) / 8); [|lia].
    apply Z.div_lt_upper_bound; [lia|].
    pose proof (Z.div_mod ((n + 100 - 1) / 100 + 7) 8 ltac:(lia)).
    pose proof (Z.mod_pos_bound ((n + 100 - 1) / 100 + 7) 8 ltac:(lia)). lia. }
  split; [done|]. intros b Hb. unfold is_valid. rewrite (isBucketValid_spec _ n b Hc Hb).
  simpl. by rewrite bit_at_zero.
Qed.

(** ** Opening a bucket *)

Section Open.
Context `{Crc32} `{!Crc32Laws}.

Lemma computeChecksum_tail (b : Bucket.t) (c : Z) :
  Bucket.computeChecksum (Bucket.toBytes (Bucket.setChecksum c b))
  = Bucket.computeChecksum (Bucket.toBytes b).
Proof.
  unfold Bucket.computeChecksum. rewrite !zlen_toBytes. unfold Bucket.toBytes.
  rewrite !(load_app_end (le32 _)) by (unfold Bucket.data; zl). done.
Qed.

Lemma computeChecksum_total (v : bytes) :
  4 <= zlen v -> exists c, Bucket.computeChecksum v = Ok c /\ is_u32 c.
Proof.
  intros Hv. unfold Bucket.computeChecksum, load. rewrite (proj2 (in_bounds_true _ _ _)) by lia.
  eexists. split; [done|]. apply crc32_range.
Qed.

(** What [writeBucket] stores opens to the bucket it stored. *)
Lemma openBucket_written (g : Z) (b : Bucket.t) (c : Z) :
  Bucket.computeChecksum (Bucket.toBytes b) = Ok c ->
  bk_fields (Bucket.setChecksum c b) -> Bucket.generationTime_ b = u64 g ->
  openBucket g (Bucket.toBytes (Bucket.setChecksum c b)) = Ok (Bucket.setChecksum c b).
Proof.
  intros Hc Hf Hg. unfold openBucket. rewrite ofBytes_toBytes by done. cbn [rbind].
  cbn [Bucket.generationTime_ Bucket.setChecksum]. rewrite Hg, Z.eqb_refl. cbn [negb].
  rewrite computeChecksum_tail, Hc. cbn [rbind Bucket.checksum_]. by rewrite Z.eqb_refl.
Qed.

(** A buffer of another generation, or with a wrong checksum. *)
Definition stale (g : Z) (v : bytes) : Prop :=
  forall b, Bucket.ofBytes v = Ok b ->
  Bucket.generationTime_ b <> u64 g \/ Bucket.computeChecksum v <> Ok (Bucket.checksum_ b).

Lemma openBucket_stale (g : Z) (v : bytes) :
  24 <= zlen v < 2 ^ 32 -> stale g v ->
  exists b, openBucket g v = Ok b /\ bk_repr b [] /\ Bucket.generationTime_ b = u64 g /\
            BucketStorage.capacity (Bucket.storage_ b) = zlen v - 24.
Proof.
  intros Hv Hs. destruct (initNew_repr v (u64 g) Hv) as (b & Hb & Hr & Hg & _ & Hc).
  exists b. split_and!; try done. unfold openBucket.
  destruct (ofBytes_total v) as (b0 & Hb0); [lia|]. rewrite Hb0. cbn [rbind].
  destruct (computeChecksum_total v) as (c & Hck & _); [lia|].
  destruct (Z.eqb_spec (u64 g) (Bucket.generationTime_ b0)) as [He|He]; cbn [negb]; [|done].
  rewrite Hck. cbn [rbind]. destruct (Z.eqb_spec c (Bucket.checksum_ b0)) as [Hcs|Hcs]; cbn [negb]; [|done].
  exfalso. destruct (Hs b0 Hb0) as [Hx|Hx]; [by rewrite He in Hx|]. apply Hx. by rewrite Hck, Hcs.
Qed.
End Open.

(** ** The invariant *)

Section Inv.
Context {D : Type} `{NavyDeviceLaws D} `{FollyHash} `{Crc32} `{!Crc32Laws} `{KeyHasher}.
Notation BH := (BigHash D).

(** A bucket in memory with the entries [es] of bucket [bid]. *)
Record bucket_ok (bs num gen bid : Z) (b : Bucket.t) (es : list entry) : Prop := {
  bo_repr : bk_repr b es;
  bo_gen : Bucket.generationTime_ b = u64 gen;
  bo_cap : BucketStorage.capacity (Bucket.storage_ b) = bs - 24;
  bo_nodup : NoDup es.*1;
  bo_home : Forall (fun e => keyHash (fst e) mod num = bid) es
}.

Definition bloom_ok (bf : option BloomFilter) (num : Z) (km : Z -> list Z) : Prop :=
  match bf with None => True | Some f => numFilters_ f = num /\ bf_repr f km end.

(** The configuration and the device, apart from what the buckets hold. *)
Record env_ok (bs base num : Z) (c : ValidBucketChecker.t) (dev : D) : Prop := {
  en_num : 0 < num /\ num + 99 < 2 ^ 32;
  en_bs : 24 <= bs < 2 ^ 32;
  en_base : 0 <= base /\ base + bs * num < 2 ^ 64;
  en_align : ioAlignedSize dev bs = bs;
  en_transfer : forall bid, 0 <= bid < num -> canTransfer dev (base + bs * bid) bs;
  en_checker : checker_ok c num
}.

Definition on_device (bs base num gen : Z) (dev : D) (bid : Z) (es : list entry) : Prop :=
  exists v b, holds dev (base + bs * bid) v /\ zlen v = bs /\ openBucket gen v = Ok b /\
              bucket_ok bs num gen bid b es.

Record parts_inv (bs base num gen : Z) (bf : option BloomFilter) (c : ValidBucketChecker.t)
    (dev : D) (m : Z -> list entry) : Prop := {
  pi_env : env_ok bs base num c dev;
  pi_bloom : exists km, bloom_ok bf num km /\
    forall bid e, 0 <= bid < num -> is_valid c bid -> e ∈ m bid -> keyHash (fst e) ∈ km bid;
  pi_buckets : forall bid, 0 <= bid < num -> is_valid c bid ->
    on_device bs base num gen dev bid (m bid)
}.

Definition bh_inv (s : BH) (m : Z -> list entry) : Prop :=
  parts_inv (bucketSize_ s) (cacheBaseOffset_ s) (numBuckets_ s) (generationTime_ s)
    (bloomFilter_ s) (validBucketChecker_ s) (device_ s) m.

Definition bh_env (s : BH) : Prop :=
  env_ok (bucketSize_ s) (cacheBaseOffset_ s) (numBuckets_ s) (validBucketChecker_ s) (device_ s).

(** The fields no operation changes. *)
Definition same_core (s s' : BH) : Prop :=
  bucketSize_ s' = bucketSize_ s /\ cacheBaseOffset_ s' = cacheBaseOffset_ s /\
  numBuckets_ s' = numBuckets_ s /\ generationTime_ s' = generationTime_ s.

Definition valid (s : BH) (bid : Z) : Prop := is_valid (validBucketChecker_ s) bid.

Lemma bucket_offset (s : BH) (bid : Z) :
  bh_env s -> 0 <= bid < numBuckets_ s ->
  getBucketOffset s bid = cacheBaseOffset_ s + bucketSize_ s * bid.
Proof.
  intros [[? ?] ? [? ?] ? ? ?] Hb. unfold getBucketOffset. apply u64_small. unfold is_u64. nia.
Qed.

Lemma getBucketId_eq (s : BH) (hk : HashedKey) :
  bh_env s -> getBucketId s hk = keyHash hk mod numBuckets_ s /\
  0 <= getBucketId s hk < numBuckets_ s.
Proof.
  intros [[? ?] ? ? ? ? ?]. unfold getBucketId.
  pose proof (Z.mod_pos_bound (keyHash hk) (numBuckets_ s) ltac:(lia)).
  rewrite u32_small by (unfold is_u32; lia). done.
Qed.

(** ** Disabling *)

Lemma disable_run (s : BH) (bid : Z) :
  bh_env s -> 0 <= bid < numBuckets_ s ->
  exists c, disableBucket bid s = (Ok tt, set_checker c s) /\ bh_env (set_checker c s) /\
    ~ is_valid c bid /\ forall b, 0 <= b < numBuckets_ s -> is_valid c b -> valid s b /\ b <> bid.
Proof.
  intros He Hb. destruct (disableBucket_spec _ _ _ (en_checker _ _ _ _ _ He) Hb) as (c & Hc & Hok & Hn & Hv).
  exists c. split_and!; [|destruct He; by constructor|done|].
  - unfold disableBucket, bind, get, lift. by rewrite Hc.
  - intros b Hb' Hvb. apply Hv in Hvb as [? Hne]; [|done]. split; [done|]. by intros ->.
Qed.

(** ** Reading a bucket *)

Lemma readBucket_run (s : BH) (m : Z -> list entry) (bid : Z) :
  bh_inv s m -> 0 <= bid < numBuckets_ s -> valid s bid ->
  exists r s', readBucket bid s = (Ok r, s') /\ bh_inv s' m /\ same_core s s' /\
    bloomFilter_ s' = bloomFilter_ s /\ destructorCalls s' = destructorCalls s /\
    counters s' = counters s /\
    match r with
    | None => ~ valid s' bid /\ forall b, 0 <= b < numBuckets_ s -> valid s' b -> valid s b /\ b <> bid
    | Some b => validBucketChecker_ s' = validBucketChecker_ s /\
                bucket_ok (bucketSize_ s) (numBuckets_ s) (generationTime_ s) bid b (m bid)
    end.
Proof.
  intros Hi Hb Hv. pose proof (pi_env _ _ _ _ _ _ _ _ Hi) as He. fold (bh_env s) in He.
  destruct (pi_buckets _ _ _ _ _ _ _ _ Hi bid Hb Hv) as (v & b & Hh & Hl & Ho & Hbo).
  unfold readBucket, bind, get, onDevice. rewrite (en_align _ _ _ _ _ He).
  rewrite u32_small by (pose proof (en_bs _ _ _ _ _ He); unfold is_u32; lia).
  rewrite bucket_offset by done.
  destruct (read_holds (device_ s) _ v Hh) as (r & d' & Hrd & Hr & Hhold & Htr & Hal).
  { rewrite Hl. by apply (en_transfer _ _ _ _ _ He). }
  rewrite Hl in Hrd. rewrite Hrd.
  assert (Hi' : bh_inv (set_device d' s) m).
  { destruct Hi as [[? ? ? Ha Ht ?] Hbl Hbk]. constructor; simpl.
    - constructor; simpl; auto. by rewrite Hal.
    - done.
    - intros bid' Hb' Hv'. destruct (Hbk bid' Hb' Hv') as (v' & b' & ? & ? & ? & ?).
      exists v', b'. split_and!; auto. }
  destruct r as [v'|].
  - assert (v' = v) as -> by (destruct Hr as [[= ->]|]; done).
    unfold lift. cbn. rewrite Ho. exists (Some b), (set_device d' s).
    by split_and!; try done; unfold same_core.
  - destruct (disable_run (set_device d' s) bid) as (c & Hc & Hec & Hnv & Hvb).
    { apply (pi_env _ _ _ _ _ _ _ _ Hi'). } { done. }
    rewrite Hc. exists None, (set_checker c (set_device d' s)). unfold ret.
    split_and!; try done.
    destruct Hi' as [? (km & Hbl & Hkm) Hbk]. constructor; simpl.
    + done.
    + exists km. split; [done|]. intros bid' e Hb' Hv' Hin. apply (Hkm bid' e); auto. by apply Hvb.
    + intros bid' Hb' Hv'. apply Hbk; [done|]. by apply Hvb.
Qed.

(** ** The bloom filter *)

Lemma bfSet_run (s : BH) (km : Z -> list Z) (bid h : Z) :
  bloom_ok (bloomFilter_ s) (numBuckets_ s) km -> 0 <= bid < numBuckets_ s ->
  exists bf, bfSet bid h s = (Ok tt, set_bloom bf s) /\
    bloom_ok bf (numBuckets_ s) (upd km bid (h :: km bid)).
Proof.
  intros Hb Hi. unfold bfSet, onBloom. destruct (bloomFilter_ s) as [f|] eqn:Ef.
  - destruct Hb as [Hn Hr]. destruct (set_repr f km bid h Hr) as (b' & -> & Hr'); [lia|].
    by exists (Some (set_bits b' f)).
  - exists None. split; [|done]. unfold set_bloom. rewrite <- Ef. by destruct s.
Qed.

Lemma bfClear_run (s : BH) (km : Z -> list Z) (bid : Z) :
  bloom_ok (bloomFilter_ s) (numBuckets_ s) km -> 0 <= bid < numBuckets_ s ->
  exists bf, bfClear bid s = (Ok tt, set_bloom bf s) /\
    bloom_ok bf (numBuckets_ s) (upd km bid []).
Proof.
  intros Hb Hi. unfold bfClear, onBloom. destruct (bloomFilter_ s) as [f|] eqn:Ef.
  - destruct Hb as [Hn Hr]. destruct (clear_repr f km bid Hr) as (b' & -> & Hr'); [lia|].
    by exists (Some (set_bits b' f)).
  - exists None. split; [|done]. unfold set_bloom. rewrite <- Ef. by destruct s.
Qed.

Lemma rebuild_walk (b : Bucket.t) (bid : Z) (es1 es2 : list entry) (f : BloomFilter)
    (km : Z -> list Z) :
  bk_repr b (es1 ++ es2) -> bf_repr f km -> 0 <= bid < numFilters_ f ->
  exists f' km', walk_list (rebuildBody b bid) (enc <$> es1) (enc <$> es2) f = Ok (inl f') /\
    numFilters_ f' = numFilters_ f /\ bf_repr f' km' /\
    (forall i, i <> bid -> km' i = km i) /\
    (forall h, h ∈ km' bid <-> h ∈ km bid \/ h ∈ (fun e => keyHash (fst e)) <$> es2).
Proof.
  revert es1 f km. induction es2 as [|e es2 IH]; intros es1 f km Hr Hf Hb.
  { exists f, km. split_and!; [done..|]. intros h. rewrite elem_of_nil. tauto. }
  destruct (bk_split _ _ _ _ Hr) as (x & y & Hd & Hi & Hok & Hk1 & Hv1).
  destruct (set_repr f km bid (keyHash (fst e)) Hf Hb) as (b' & Hset & Hr').
  destruct (IH (es1 ++ [e]) (set_bits b' f) (upd km bid (keyHash (fst e) :: km bid)))
    as (f' & km' & Hw & Hn & Hf' & Ho & Hk); [by rewrite <- app_assoc|done|done|].
  exists f', km'. rewrite fmap_cons. cbn [walk_list]. unfold rebuildBody at 1, Bucket.iterKeyHash.
  rewrite Hi. cbn [rbind]. rewrite Hd. unfold enc at 1. rewrite entry_hash by (by destruct e). cbn [rbind].
  rewrite Hset. cbn [rbind]. replace ((enc <$> es1) ++ [enc e]) with (enc <$> (es1 ++ [e])) by by rewrite fmap_app.
  split_and!; [done|done|done| |].
  - intros i Hne. rewrite Ho by done. unfold upd. by destruct (Z.eqb_spec i bid).
  - intros h. rewrite Hk. unfold upd. rewrite Z.eqb_refl, fmap_cons, !elem_of_cons. tauto.
Qed.

Lemma bfRebuild_run (s : BH) (km : Z -> list Z) (bid : Z) (b : Bucket.t) (es : list entry) :
  bloom_ok (bloomFilter_ s) (numBuckets_ s) km -> 0 <= bid < numBuckets_ s -> bk_repr b es ->
  exists s' km', bfRebuild bid b s = (Ok tt, s') /\ same_core s s' /\
    device_ s' = device_ s /\ validBucketChecker_ s' = validBucketChecker_ s /\
    destructorCalls s' = destructorCalls s /\
    bloom_ok (bloomFilter_ s') (numBuckets_ s) km' /\
    (forall i, i <> bid -> km' i = km i) /\
    (forall e, bloomFilter_ s <> None -> e ∈ es -> keyHash (fst e) ∈ km' bid).
Proof.
  intros Hb Hi Hr. unfold bfRebuild, bind, get. destruct (bloomFilter_ s) as [f|] eqn:Ef.
  2: { exists s, km. rewrite Ef. by split_and!. }
  destruct Hb as [Hn Hf]. destruct (clear_repr f km bid Hf) as (b1 & Hc & Hf1); [lia|].
  destruct (rebuild_walk b bid [] es (set_bits b1 f) (upd km bid [])) as (f' & km' & Hw & Hn' & Hf' & Ho & Hk);
    [done|done|simpl; lia|].
  unfold inc, add, modify, onBloom. cbn [bloomFilter_ set_counters]. rewrite Ef, Hc.
  cbn [bloomFilter_ set_bloom]. rewrite (forEach_repr _ _ _ _ (bk_storage _ _ Hr)).
  change (@nil bytes) with (enc <$> ([] : list entry)). rewrite Hw.
  eexists _, km'. split; [done|]. split_and!; try done.
  - simpl. split; [|done]. rewrite Hn'. done.
  - intros i Hne. rewrite Ho by done. unfold upd. by destruct (Z.eqb_spec i bid).
  - intros e _ He. apply Hk. right. apply list_elem_of_fmap. by exists e.
Qed.

Lemma bfReject_total (s : BH) (bid h : Z) (m : Z -> list entry) :
  bh_inv s m -> 0 <= bid < numBuckets_ s -> exists r c, bfReject bid h s = (Ok r, set_counters c s).
Proof.
  intros Hi Hb. destruct (pi_bloom _ _ _ _ _ _ _ _ Hi) as (km & Hbl & _).
  unfold bfReject, bind, get. destruct (bloomFilter_ s) as [f|] eqn:Ef.
  2: { exists false, (counters s). by destruct s. }
  destruct Hbl as [Hn Hf]. unfold inc, add, modify, lift.
  destruct (decide (h ∈ km bid)) as [Hin|Hout].
  - rewrite (couldExist_set_key f km bid h) by (done || lia). cbn. by eexists _, _.
  - rewrite (couldExist_repr f km bid h) by (done || lia). destruct (forallb _ _); cbn; by eexists _, _.
Qed.

Lemma bfReject_run (s : BH) (m : Z -> list entry) (bid h : Z) :
  bh_inv s m -> 0 <= bid < numBuckets_ s -> valid s bid ->
  exists r c, bfReject bid h s = (Ok r, set_counters c s) /\
    (r = true -> forall e, e ∈ m bid -> keyHash (fst e) <> h).
Proof.
  intros Hi Hb Hv. destruct (pi_bloom _ _ _ _ _ _ _ _ Hi) as (km & Hbl & Hk).
  unfold bfReject, bind, get. destruct (bloomFilter_ s) as [f|] eqn:Ef.
  2: { exists false, (counters s). split; [by destruct s|done]. }
  destruct Hbl as [Hn Hf]. unfold inc, add, modify, lift.
  destruct (decide (h ∈ km bid)) as [Hin|Hout].
  - rewrite (couldExist_set_key f km bid h) by (done || lia). cbn. by eexists _, _.
  - rewrite (couldExist_repr f km bid h) by (done || lia).
    assert (Hno : forall e, e ∈ m bid -> keyHash (fst e) <> h).
    { intros e He <-. apply Hout. by apply (Hk bid e). }
    destruct (forallb _ _); cbn; by eexists _, _.
Qed.

(** ** Writing a bucket *)

Definition updm (m : Z -> list entry) (bid : Z) (es : list entry) : Z -> list entry :=
  fun i => if i =? bid then es else m i.

Lemma updm_eq (m : Z -> list entry) (bid : Z) (es : list entry) : updm m bid es bid = es.
Proof. unfold updm. by rewrite Z.eqb_refl. Qed.

Lemma updm_ne (m : Z -> list entry) (bid i : Z) (es : list entry) :
  i <> bid -> updm m bid es i = m i.
Proof. intros. unfold updm. by destruct (Z.eqb_spec i bid). Qed.

Lemma written_on_device (s : BH) (dev : D) (bid : Z) (b : Bucket.t) (es : list entry) (c : Z) :
  bh_env s -> bucket_ok (bucketSize_ s) (numBuckets_ s) (generationTime_ s) bid b es ->
  Bucket.computeChecksum (Bucket.toBytes b) = Ok c -> is_u32 c ->
  holds dev (cacheBaseOffset_ s + bucketSize_ s * bid) (Bucket.toBytes (Bucket.setChecksum c b)) ->
  on_device (bucketSize_ s) (cacheBaseOffset_ s) (numBuckets_ s) (generationTime_ s) dev bid es.
Proof.
  intros He [Hr Hg Hc Hnd Hh] Hck Hc32 Hhold.
  assert (Hr' : bk_repr (Bucket.setChecksum c b) es) by (destruct Hr; by constructor).
  exists (Bucket.toBytes (Bucket.setChecksum c b)), (Bucket.setChecksum c b). split_and!; [done| | |].
  - rewrite zlen_toBytes. unfold Bucket.data. simpl.
    pose proof (repr_cap _ _ (bk_storage _ _ Hr)) as Hcap. lia.
  - apply openBucket_written; [done| |done].
    apply (bk_repr_fields _ es); [done|done|]. simpl. rewrite Hg. apply Z.mod_pos_bound. lia.
  - by constructor.
Qed.

Lemma writeBucket_run (s : BH) (m : Z -> list entry) (bid : Z) (b : Bucket.t) (es : list entry)
    (km : Z -> list Z) :
  bh_env s -> 0 <= bid < numBuckets_ s -> valid s bid ->
  bucket_ok (bucketSize_ s) (numBuckets_ s) (generationTime_ s) bid b es ->
  bloom_ok (bloomFilter_ s) (numBuckets_ s) km ->
  (forall i e, 0 <= i < numBuckets_ s -> valid s i -> e ∈ updm m bid es i ->
     bloomFilter_ s <> None -> keyHash (fst e) ∈ km i) ->
  (forall i, i <> bid -> 0 <= i < numBuckets_ s -> valid s i ->
     on_device (bucketSize_ s) (cacheBaseOffset_ s) (numBuckets_ s) (generationTime_ s)
       (device_ s) i (m i)) ->
  exists ok s', writeBucket bid b s = (Ok ok, s') /\
    bh_inv s' (if ok : bool then updm m bid es else m) /\ same_core s s' /\
    destructorCalls s' = destructorCalls s /\
    if ok then validBucketChecker_ s' = validBucketChecker_ s
    else ~ valid s' bid /\ forall i, 0 <= i < numBuckets_ s -> valid s' i -> valid s i /\ i <> bid.
Proof.
  intros He Hb Hv Hbo Hbl Hkm Hoth.
  destruct (computeChecksum_total (Bucket.toBytes b)) as (c & Hck & Hc32).
  { rewrite zlen_toBytes. zl. }
  assert (Hlen : zlen (Bucket.toBytes (Bucket.setChecksum c b)) = bucketSize_ s).
  { rewrite zlen_toBytes. unfold Bucket.data. simpl.
    pose proof (repr_cap _ _ (bk_storage _ _ (bo_repr _ _ _ _ _ _ Hbo))) as Hcap.
    pose proof (bo_cap _ _ _ _ _ _ Hbo). lia. }
  unfold writeBucket, bind, get, lift, onDevice. rewrite Hck, bucket_offset by done.
  destruct (write_holds (device_ s) (cacheBaseOffset_ s + bucketSize_ s * bid)
    (Bucket.toBytes (Bucket.setChecksum c b))) as (ok & d' & -> & Hok & Hfr & Htr & Hal).
  { rewrite Hlen. by apply (en_transfer _ _ _ _ _ He). }
  rewrite Hlen in Hfr.
  assert (He' : bh_env (set_device d' s)).
  { destruct He as [? ? ? Ha Ht ?]. constructor; simpl; auto. by rewrite Hal. }
  assert (Hoth' : forall i, i <> bid -> 0 <= i < numBuckets_ s -> valid s i ->
    on_device (bucketSize_ s) (cacheBaseOffset_ s) (numBuckets_ s) (generationTime_ s) d' i (m i)).
  { intros i Hne Hir Hvi. destruct (Hoth i Hne Hir Hvi) as (v & b0 & Hh & Hl & Ho & Hbo').
    exists v, b0. split_and!; [|done..]. apply Hfr; [done|]. rewrite Hl.
    pose proof (en_bs _ _ _ _ _ He). nia. }
  assert (Hblm : forall m' : Z -> list entry, (forall i e, 0 <= i < numBuckets_ s -> valid s i -> e ∈ m' i ->
    bloomFilter_ s <> None -> keyHash (fst e) ∈ km i) ->
    exists km1, bloom_ok (bloomFilter_ s) (numBuckets_ s) km1 /\ forall i e, 0 <= i < numBuckets_ s ->
      valid s i -> e ∈ m' i -> keyHash (fst e) ∈ km1 i).
  { intros m' Hm'. destruct (bloomFilter_ s) eqn:Ef.
    - exists km. split; [done|]. intros. by apply (Hm' i e).
    - exists (fun i => (fun e => keyHash (fst e)) <$> m' i). split; [done|].
      intros i e _ _ He0. apply list_elem_of_fmap. by exists e. }
  destruct ok.
  - exists true, (set_device d' s). unfold ret. split_and!; try done. constructor; simpl.
    + apply He'.
    + by apply Hblm.
    + intros i Hir Hvi. destruct (decide (i = bid)) as [->|Hne].
      * rewrite updm_eq. apply (written_on_device s d' bid b es c); auto.
      * rewrite updm_ne by done. by apply Hoth'.
  - destruct (disable_run (set_device d' s) bid He' Hb) as (ck & -> & Hec & Hnv & Hvb).
    exists false, (set_checker ck (set_device d' s)). unfold ret. split_and!; try done.
    destruct (Hblm (updm m bid es) Hkm) as (km' & Hbl' & Hkm'). constructor; simpl.
    + apply Hec.
    + exists km'. split; [done|]. intros i e Hir Hvi Hin. destruct (Hvb i Hir Hvi) as [Hvi' Hne].
      apply Hkm'; [done|done|]. by rewrite updm_ne.
    + intros i Hir Hvi. destruct (Hvb i Hir Hvi) as [Hvi' Hne]. by apply Hoth'.
Qed.
End Inv.
