(* ===== verification/BigHashSpec.v ===== *)
(** * BigHash: the operations and what they promise *)

From S2P Require Import Prelude Bytes BloomFilter BloomFilterSpec BucketStorage Bucket BucketSpec Device BigHash BigHashProofs.
From stdpp Require Import base tactics numbers list.

#[local] Open Scope Z_scope.

(** ** BigHash: the operations on the invariant

    Each operation is total on a state that satisfies [bh_inv] and is
    characterised by what it does to the entries of the key's bucket. *)

Section Ops.
Context {D : Type} `{NavyDeviceLaws D} `{FollyHash} `{Crc32} `{!Crc32Laws} `{KeyHasher}.
Notation BH := (BigHash D).

(** A counter update only changes the counters. *)
Lemma bind_add {A} (c : Counter) (n : Z) (k : unit -> M BH A) (s : BH) :
  bind (add c n) k s = k tt (set_counters
    (fun c' => if decide (c' = c) then u64 (counters s c + n) else counters s c') s).
Proof. done. Qed.

Lemma bind_get {A} (k : BH -> M BH A) (s : BH) : bind get k s = k s s.
Proof. done. Qed.

Lemma bind_ok {A B} (m : M BH A) (k : A -> M BH B) (s s' : BH) (a : A) :
  m s = (Ok a, s') -> bind m k s = k a s'.
Proof. intros E. unfold bind. by rewrite E. Qed.

Lemma inv_counters (s : BH) (m : Z -> list entry) (c : Counter -> Z) :
  bh_inv s m -> bh_inv (set_counters c s) m.
Proof. done. Qed.

Lemma inv_env (s : BH) (m : Z -> list entry) : bh_inv s m -> bh_env s.
Proof. intros Hi. apply (pi_env _ _ _ _ _ _ _ _ Hi). Qed.

Lemma isBucketValid_run (s : BH) (bid : Z) :
  bh_env s -> 0 <= bid < numBuckets_ s ->
  (valid s bid /\ isBucketValid bid s = (Ok true, s)) \/
  (~ valid s bid /\ isBucketValid bid s = (Ok false, s)).
Proof.
  intros He Hb. unfold isBucketValid, bind, get, lift, valid.
  destruct (isBucketValid_total _ _ _ (en_checker _ _ _ _ _ He) Hb) as [[? ->]|[? ->]]; auto.
Qed.

Lemma runBucket_ok {W A} (op : M (Bucket.t * W) A) (b b' : Bucket.t) (w w' : W) (a : A) (s : BH) :
  op (b, w) = (Ok a, (b', w')) -> runBucket op b w s = (Ok (a, b', w'), s).
Proof. intros E. unfold runBucket. by rewrite E. Qed.

(** A state reached by an operation: what never changes, and buckets are only
    ever disabled. *)
Definition steps_to (s s' : BH) : Prop :=
  same_core s s' /\ forall i, 0 <= i < numBuckets_ s -> valid s' i -> valid s i.

Lemma steps_refl (s : BH) : steps_to s s.
Proof. by split. Qed.

Lemma steps_same (s s' : BH) :
  same_core s s' -> validBucketChecker_ s' = validBucketChecker_ s -> steps_to s s'.
Proof. intros Hc Hv. split; [done|]. unfold valid. by rewrite Hv. Qed.

(** ** [lookup] *)

(** The answer for a key, from the entries of its bucket. *)
Definition answer (es : list entry) (hk : HashedKey) : Status * option bytes :=
  match lookup_key hk es with Some v => (StatusOk, Some v) | None => (NotFound, None) end.

Lemma find_answer (b : Bucket.t) (es : list entry) (hk : HashedKey) :
  bk_repr b es -> is_bytes (key hk) ->
  match answer es hk with
  | (_, Some v) => exists vw, Bucket.find b hk = Ok vw /\ isNull vw = false /\
                              view_bytes (Bucket.data b) vw = Ok v
  | (_, None) => Bucket.find b hk = Ok nullView
  end.
Proof.
  intros Hr Hk. pose proof (find_repr b es hk Hr Hk) as Hf. unfold answer.
  by destruct (lookup_key hk es).
Qed.

Lemma reject_answer (es : list entry) (hk : HashedKey) :
  (forall e, e ∈ es -> keyHash (fst e) <> keyHash hk) -> answer es hk = (NotFound, None).
Proof.
  intros Hn. unfold answer. rewrite (proj2 (lookup_key_None hk es)); [done|].
  intros (e & -> & Hin)%list_elem_of_fmap. by apply (Hn e).
Qed.

Lemma lookup_run (s : BH) (m : Z -> list entry) (hk : HashedKey) :
  bh_inv s m -> is_bytes (key hk) ->
  exists st v s', BigHash.lookup hk s = (Ok (st, v, 0), s') /\ bh_inv s' m /\ steps_to s s' /\
    destructorCalls s' = destructorCalls s /\
    ((valid s' (getBucketId s hk) /\ (st, v) = answer (m (getBucketId s hk)) hk) \/
     (~ valid s' (getBucketId s hk) /\ v = None /\
      (~ valid s (getBucketId s hk) /\ st = NotFound \/
       valid s (getBucketId s hk) /\ st = DeviceError))).
Proof.
  intros Hi Hk. destruct (getBucketId_eq s hk (inv_env _ _ Hi)) as [_ Hb].
  set (bid := getBucketId s hk) in *. unfold BigHash.lookup. rewrite bind_get.
  unfold inc. rewrite bind_add. set (s1 := set_counters _ s).
  assert (Hi1 : bh_inv s1 m) by done.
  destruct (isBucketValid_run s1 bid (inv_env _ _ Hi1) Hb) as [[Hv Ev]|[Hv Ev]];
    fold bid; rewrite (bind_ok _ _ _ _ _ Ev); cbn [negb].
  2: { rewrite bind_add. eexists _, _, _. split; [done|].
       split; [done|]. split; [by apply steps_same|]. split; [done|]. right. by auto. }
  destruct (bfReject_run s1 m bid (keyHash hk) Hi1 Hb Hv) as (r & c & Er & Hr).
  rewrite (bind_ok _ _ _ _ _ Er). destruct r.
  { eexists _, _, _. split; [done|]. split; [done|]. split; [by apply steps_same|]. split; [done|].
    left. split; [done|]. by rewrite reject_answer by auto. }
  set (s2 := set_counters c s1). assert (Hi2 : bh_inv s2 m) by done.
  destruct (readBucket_run s2 m bid Hi2 Hb Hv) as (rb & s3 & E3 & Hi3 & Hc3 & _ & Hd3 & _ & Hm3).
  rewrite (bind_ok _ _ _ _ _ E3). destruct rb as [b|].
  2: { rewrite bind_add. eexists _, _, _. split; [done|]. split; [done|].
       destruct Hm3 as [Hnv Hmono]. split; [|split; [done|right; auto]].
       split; [done|]. intros i Hir Hvi. by apply Hmono. }
  destruct Hm3 as [Hck Hbo].
  assert (Hv3 : valid s3 bid) by (unfold valid; by rewrite Hck).
  pose proof (find_answer b (m bid) hk (bo_repr _ _ _ _ _ _ Hbo) Hk) as Hf.
  destruct (answer (m bid) hk) as [st [v|]] eqn:Ea.
  - destruct Hf as (vw & Hf & Hnn & Hvb). unfold lift at 1.
    rewrite (bind_ok _ _ s3 s3 vw) by by rewrite Hf. rewrite Hnn. unfold lift.
    rewrite (bind_ok _ _ s3 s3 v) by by rewrite Hvb. rewrite bind_add.
    assert (st = StatusOk) as -> by (unfold answer in Ea; destruct (lookup_key hk (m bid)); congruence).
    eexists _, _, _. split; [done|]. split; [done|]. split; [by apply steps_same|]. split; [done|]. by left.
  - unfold lift at 1. rewrite (bind_ok _ _ s3 s3 nullView) by by rewrite Hf. cbn [isNull nullView v_data].
    rewrite bind_add.
    assert (st = NotFound) as -> by (unfold answer in Ea; destruct (lookup_key hk (m bid)); congruence).
    eexists _, _, _. split; [done|]. split; [done|]. split; [by apply steps_same|]. split; [done|]. by left.
Qed.

(** ** Committing a changed bucket *)

Lemma same_core_trans (s1 s2 s3 : BH) : same_core s1 s2 -> same_core s2 s3 -> same_core s1 s3.
Proof. intros (?&?&?&?) (?&?&?&?). unfold same_core. split_and!; congruence. Qed.

Lemma bind_modify {A} (f : BH -> BH) (k : unit -> M BH A) (s : BH) :
  bind (modify f) k s = k tt (f s).
Proof. done. Qed.

(** From a state [s3] of the invariant, [s4] has the bloom filter of the new
    bucket contents; writing the bucket completes the change or disables the
    bucket. *)
Lemma commit_bucket (s3 s4 : BH) (m : Z -> list entry) (bid : Z) (b : Bucket.t)
    (es : list entry) (km : Z -> list Z) :
  bh_inv s3 m -> 0 <= bid < numBuckets_ s3 -> valid s3 bid ->
  same_core s3 s4 -> device_ s4 = device_ s3 ->
  validBucketChecker_ s4 = validBucketChecker_ s3 -> destructorCalls s4 = destructorCalls s3 ->
  bucket_ok (bucketSize_ s3) (numBuckets_ s3) (generationTime_ s3) bid b es ->
  bloom_ok (bloomFilter_ s4) (numBuckets_ s3) km ->
  (forall i e, 0 <= i < numBuckets_ s3 -> valid s3 i -> e ∈ updm m bid es i ->
     bloomFilter_ s4 <> None -> keyHash (fst e) ∈ km i) ->
  exists ok s', writeBucket bid b s4 = (Ok ok, s') /\
    bh_inv s' (if ok : bool then updm m bid es else m) /\ same_core s3 s' /\
    destructorCalls s' = destructorCalls s3 /\
    (ok = true -> validBucketChecker_ s' = validBucketChecker_ s3) /\
    (ok = false -> ~ valid s' bid /\
       forall i, 0 <= i < numBuckets_ s3 -> valid s' i -> valid s3 i /\ i <> bid).
Proof.
  intros Hi Hb Hv Hc Hd Hck Hdc Hbo Hbl Hk. pose proof (inv_env _ _ Hi) as He.
  destruct (writeBucket_run s4 m bid b es km) as (ok & s' & E & Hi' & Hc' & Hd' & Hx).
  - destruct Hc as (E1&E2&E3&E4). unfold bh_env. by rewrite E1, E2, E3, Hd, Hck.
  - destruct Hc as (_&_&->&_). done.
  - unfold valid. by rewrite Hck.
  - destruct Hc as (->&_&->&->). done.
  - destruct Hc as (_&_&->&_). done.
  - destruct Hc as (_&_&->&_). intros i e Hir Hvi. apply Hk; [done|]. unfold valid in Hvi. by rewrite Hck in Hvi.
  - destruct Hc as (->&->&->&->). rewrite Hd. intros i _ Hir Hvi.
    apply (pi_buckets _ _ _ _ _ _ _ _ Hi); [done|]. unfold valid in Hvi. by rewrite Hck in Hvi.
  - exists ok, s'. split_and!; [done|done|by eapply same_core_trans|by rewrite Hd'| |].
    + intros ->. by rewrite Hx.
    + intros ->. destruct Hx as [Hnv Hm]. split; [done|]. intros i Hir Hvi.
      destruct (Hm i) as [Hvi' Hne]; [by destruct Hc as (_&_&->&_)|done|].
      split; [|done]. unfold valid in *. by rewrite Hck in Hvi'.
Qed.

(** Clearing the filter of a disabled bucket keeps the invariant. *)
Lemma bfClear_inv (s : BH) (m : Z -> list entry) (bid : Z) :
  bh_inv s m -> 0 <= bid < numBuckets_ s -> ~ valid s bid ->
  exists s', bfClear bid s = (Ok tt, s') /\ bh_inv s' m /\ same_core s s' /\
    validBucketChecker_ s' = validBucketChecker_ s /\ destructorCalls s' = destructorCalls s.
Proof.
  intros Hi Hb Hnv. pose proof Hi as [He (km & Hbl & Hk) Hbk].
  destruct (bfClear_run s km bid Hbl Hb) as (bf & E & Hbl').
  exists (set_bloom bf s). split_and!; try done. constructor; simpl; [done| |done].
  exists (upd km bid []). split; [done|]. intros i e Hir Hvi Hin. unfold upd.
  destruct (Z.eqb_spec i bid) as [->|Hne]; [done|]. by apply (Hk i e).
Qed.

(** The error path after a failed write. *)
Lemma commit_failed (s s5 : BH) (m : Z -> list entry) (bid : Z) :
  bh_inv s5 m -> 0 <= bid < numBuckets_ s -> same_core s s5 -> ~ valid s5 bid ->
  (forall i, 0 <= i < numBuckets_ s -> valid s5 i -> valid s i) ->
  exists s', bind (bfClear bid) (fun _ => bind (add ioErrorCount_ 1) (fun _ => ret DeviceError)) s5
             = (Ok DeviceError, s') /\
    steps_to s s' /\ ~ valid s' bid /\ bh_inv s' m /\ destructorCalls s' = destructorCalls s5.
Proof.
  intros Hi Hb Hc Hnv Hm. destruct (bfClear_inv s5 m bid Hi) as (s6 & E6 & Hi6 & Hc6 & Hck6 & Hd6); [|done|].
  { destruct Hc as (_&_&->&_). done. }
  rewrite (bind_ok _ _ _ _ _ E6), bind_add. eexists. split; [done|].
  split_and!; [|unfold valid; simpl; by rewrite Hck6|done|done].
  split; [by eapply same_core_trans|]. intros i Hir. unfold valid. simpl. rewrite Hck6. by apply Hm.
Qed.

(** ** [insert] *)

Section Insert.
Context (checkExpired_ : Bucket.ExpiredCheck).

Definition item_of (ev : DestructorEvent) (e : entry) : bytes * bytes * DestructorEvent :=
  (key (fst e), snd e, ev).

(** The destructor call for an entry: the key is hashed again. *)
Definition call_of (ev : DestructorEvent) (e : entry) : HashedKey * bytes * DestructorEvent :=
  (makeHK (key (fst e)), snd e, ev).

Lemma collect_foldl (ev : DestructorEvent) (l : list (bytes * bytes * DestructorEvent))
    (es : list entry) :
  foldl (notify (Some collectCb) ev) l es = l ++ (item_of ev <$> es).
Proof.
  revert l. induction es as [|e es IH]; intros l; simpl; [by rewrite app_nil_r|].
  rewrite IH. unfold collectCb. by rewrite <- app_assoc.
Qed.

(** The destructor calls of a successful insert, in order. *)
Definition insert_calls (hk : HashedKey) (es gone : list entry)
    : list (HashedKey * bytes * DestructorEvent) :=
  (call_of Removed <$> removed_entry hk es) ++ (call_of Recycled <$> gone).

(** The bloom filter after the bucket has changed in memory. *)
Lemma insert_bloom (s : BH) (m : Z -> list entry) (bid : Z) (b : Bucket.t) (hk : HashedKey)
    (v : bytes) (es ex ev rest : list entry) :
  bh_inv s m -> 0 <= bid < numBuckets_ s -> valid s bid ->
  NoDup (m bid).*1 -> zlen (m bid) < 2 ^ 32 ->
  put_parts checkExpired_ (bucketSize_ s - 24) hk v (m bid) = (ex, ev, rest) ->
  bk_repr b (rest ++ [(hk, v)]) ->
  exists s' km, (if u32 (zlen (removed_entry hk (m bid)) + (zlen ex + zlen ev)) =? 0
                 then bfSet bid (keyHash hk) else bfRebuild bid b) s = (Ok tt, s') /\
    same_core s s' /\ device_ s' = device_ s /\
    validBucketChecker_ s' = validBucketChecker_ s /\ destructorCalls s' = destructorCalls s /\
    bloom_ok (bloomFilter_ s') (numBuckets_ s) km /\
    forall i e, 0 <= i < numBuckets_ s -> valid s i -> e ∈ updm m bid (rest ++ [(hk, v)]) i ->
      bloomFilter_ s' <> None -> keyHash (fst e) ∈ km i.
Proof.
  intros Hi Hb Hv Hnd Hl Hp Hr. destruct (pi_bloom _ _ _ _ _ _ _ _ Hi) as (km & Hbl & Hk).
  destruct (put_parts_ok _ _ _ _ _ _ _ _ Hnd Hp) as (_ & Hin & Hlen).
  rewrite u32_small by (unfold is_u32; zlen_pos; lia).
  destruct (Z.eqb_spec (zlen (removed_entry hk (m bid)) + (zlen ex + zlen ev)) 0) as [Hz|Hz].
  - destruct (bfSet_run s km bid (keyHash hk) Hbl Hb) as (bf & E & Hbl').
    exists (set_bloom bf s), (upd km bid (keyHash hk :: km bid)). split_and!; try done.
    intros i e Hir Hvi. unfold updm, upd. destruct (Z.eqb_spec i bid) as [->|Hne]; [|by intros; apply Hk].
    intros [He| ->%list_elem_of_singleton]%elem_of_app _; [|by left].
    right. apply (Hk bid e); auto.
  - destruct (bfRebuild_run s km bid b _ Hbl Hb Hr) as (s' & km' & E & Hc & Hd & Hck & Hdc & Hbl' & Ho & Hk').
    exists s', km'. split_and!; try done.
    intros i e Hir Hvi. unfold updm. destruct (Z.eqb_spec i bid) as [->|Hne].
    + intros He Hbf. apply Hk'; [|done]. intros Hno. apply Hbf.
      unfold bfRebuild, bind, get, ret in E. rewrite Hno in E. injection E as <-. done.
    + intros He _. rewrite Ho by done. by apply (Hk i e).
Qed.

Lemma insert_run (s : BH) (m : Z -> list entry) (hk : HashedKey) (v : bytes)
    (ex ev rest : list entry) :
  bh_inv s m -> entry_ok (hk, v) -> esize (hk, v) <= bucketSize_ s - 24 ->
  put_parts checkExpired_ (bucketSize_ s - 24) hk v (m (getBucketId s hk)) = (ex, ev, rest) ->
  exists st s', BigHash.insert checkExpired_ hk v s = (Ok st, s') /\ steps_to s s' /\
    ((st = StatusOk /\ valid s' (getBucketId s hk) /\
      bh_inv s' (updm m (getBucketId s hk) (rest ++ [(hk, v)])) /\
      validBucketChecker_ s' = validBucketChecker_ s /\
      destructorCalls s' = destructorCalls s ++ insert_calls hk (m (getBucketId s hk)) (ex ++ ev)) \/
     ((st = Rejected \/ st = DeviceError) /\ ~ valid s' (getBucketId s hk) /\ bh_inv s' m /\
      destructorCalls s' = destructorCalls s)).
Proof.
  intros Hi Hok Hsz Hp. destruct (getBucketId_eq s hk (inv_env _ _ Hi)) as [Hbid Hb].
  set (bid := getBucketId s hk) in *. unfold BigHash.insert. rewrite bind_get. fold bid.
  unfold inc. rewrite bind_add. set (s1 := set_counters _ s).
  assert (Hi1 : bh_inv s1 m) by done.
  destruct (isBucketValid_run s1 bid (inv_env _ _ Hi1) Hb) as [[Hv Ev]|[Hv Ev]];
    rewrite (bind_ok _ _ _ _ _ Ev); cbn [negb].
  2: { rewrite bind_add. eexists _, _. split; [done|]. split; [by apply steps_same|].
       right. split; [by left|]. done. }
  destruct (readBucket_run s1 m bid Hi1 Hb Hv) as (rb & s3 & E3 & Hi3 & Hc3 & Hbl3 & Hd3 & _ & Hm3).
  rewrite (bind_ok _ _ _ _ _ E3). destruct rb as [b|].
  2: { rewrite bind_add. destruct Hm3 as [Hnv Hmono]. eexists _, _. split; [done|].
       split; [split; [done|]; intros i Hir Hvi; by apply Hmono|].
       right. split; [by right|]. done. }
  destruct Hm3 as [Hck Hbo].
  assert (Hv3 : valid s3 bid) by (unfold valid; by rewrite Hck).
  assert (Hb3 : 0 <= bid < numBuckets_ s3) by (destruct Hc3 as (_&_&->&_); done).
  destruct Hbo as [Hbr Hg Hcap Hnd Hhome]. change (bucketSize_ s1) with (bucketSize_ s) in *.
  pose proof (put_repr checkExpired_ (Some collectCb) b (m bid) hk v [] Hbr Hnd Hok) as Hput.
  cbn zeta in Hput. rewrite Hcap in Hput. specialize (Hput Hsz). rewrite Hp in Hput.
  destruct Hput as (st' & Eput & Hbr' & Hcap'). rewrite !collect_foldl in Eput. cbn [app] in Eput.
  destruct (put_inv _ _ _ _ _ _ _ _ _ _ Eput) as (b1 & w1 & Erm & Eins).
  rewrite (bind_ok _ _ _ _ _ (runBucket_ok _ _ _ _ _ _ s3 Erm)).
  rewrite (bind_ok _ _ _ _ _ (runBucket_ok _ _ _ _ _ _ s3 Eins)).
  set (b2 := Bucket.set_storage st' b) in *.
  destruct (put_parts_ok _ _ _ _ _ _ _ _ Hnd Hp) as (Hnd2 & Hin2 & _).
  assert (Hl : zlen (m bid) < 2 ^ 32).
  { destruct (bk_repr_used _ _ Hbr) as (_ & ? & ?). zlen_pos. lia. }
  assert (Hp3 : put_parts checkExpired_ (bucketSize_ s3 - 24) hk v (m bid) = (ex, ev, rest)).
  { destruct Hc3 as (->&_). exact Hp. }
  destruct (insert_bloom s3 m bid b2 hk v [] ex ev rest Hi3 Hb3 Hv3 Hnd Hl Hp3 Hbr')
    as (s4 & km & E4 & Hc4 & Hdev4 & Hck4 & Hd4 & Hbl4 & Hk4).
  rewrite (bind_ok _ _ _ _ _ E4).
  destruct (commit_bucket s3 s4 m bid b2 (rest ++ [(hk, v)]) km) as
    (ok & s5 & E5 & Hi5 & Hc5 & Hd5 & Hck5 & Hfail); auto.
  { destruct Hc3 as (-> & _ & -> & ->). constructor; [done|done|simpl; lia|done|].
    apply Forall_app. split; [|apply Forall_singleton; symmetry; exact Hbid].
    apply Forall_forall. intros e He. by apply (proj1 (Forall_forall _ _) Hhome), Hin2. }
  rewrite (bind_ok _ _ _ _ _ E5).
  assert (Hcore : same_core s s5) by (eapply same_core_trans; [exact Hc3|exact Hc5]).
  destruct ok; cbn [negb].
  - unfold sub, dec. rewrite (bind_modify (log_destructor _)).
    assert (Hif : forall (c : bool) x y k s0, exists c', bind (if c then add usedSizeBytes_ x else add usedSizeBytes_ y) k s0
      = (k tt (set_counters c' s0) : res Status * BH)) by (intros [] x y k s0; by eexists).
    match goal with |- context [bind (if ?c then add usedSizeBytes_ ?x else add usedSizeBytes_ ?y) ?k ?s0] =>
      destruct (Hif c x y k s0) as (c' & ->) end.
    rewrite !bind_add. eexists _, _. split; [done|].
    split; [split; [done|]; intros i _; unfold valid; simpl; by rewrite Hck5, Hck|].
    left. split; [done|]. split; [unfold valid; simpl; by rewrite Hck5, Hck|]. split; [exact Hi5|].
    split; [simpl; by rewrite Hck5, Hck|].
    simpl. rewrite Hd5, Hd3. f_equal. unfold insert_calls. by rewrite fmap_app, <- !list_fmap_compose.
  - destruct (Hfail eq_refl) as [Hnv Hmono].
    destruct (commit_failed s s5 m bid Hi5 Hb Hcore Hnv) as (s6 & -> & Hs6 & Hnv6 & Hi6 & Hd6).
    { intros i Hir Hvi. apply Hmono in Hvi as [Hvi _]; [by unfold valid in Hvi; rewrite Hck in Hvi|].
      destruct Hc3 as (_&_&->&_). done. }
    exists DeviceError, s6. split; [done|]. split; [done|].
    right. split_and!; [by right|done|done|by rewrite Hd6, Hd5, Hd3].
Qed.
End Insert.

(** ** [remove] *)

(** The bloom filter after a removal in memory. *)
Lemma remove_bloom (s : BH) (m : Z -> list entry) (bid : Z) (b : Bucket.t) (es : list entry) :
  bh_inv s m -> 0 <= bid < numBuckets_ s -> bk_repr b es ->
  exists s' km, bfRebuild bid b s = (Ok tt, s') /\
    same_core s s' /\ device_ s' = device_ s /\
    validBucketChecker_ s' = validBucketChecker_ s /\ destructorCalls s' = destructorCalls s /\
    bloom_ok (bloomFilter_ s') (numBuckets_ s) km /\
    forall i e, 0 <= i < numBuckets_ s -> valid s i -> e ∈ updm m bid es i ->
      bloomFilter_ s' <> None -> keyHash (fst e) ∈ km i.
Proof.
  intros Hi Hb Hr. destruct (pi_bloom _ _ _ _ _ _ _ _ Hi) as (km & Hbl & Hk).
  destruct (bfRebuild_run s km bid b _ Hbl Hb Hr) as (s' & km' & E & Hc & Hd & Hck & Hdc & Hbl' & Ho & Hk').
  exists s', km'. split_and!; try done.
  intros i e Hir Hvi. unfold updm. destruct (Z.eqb_spec i bid) as [->|Hne].
  - intros He Hbf. apply Hk'; [|done]. intros Hno. apply Hbf.
    unfold bfRebuild, bind, get, ret in E. rewrite Hno in E. injection E as <-. done.
  - intros He _. rewrite Ho by done. by apply (Hk i e).
Qed.

Lemma remove_run (s : BH) (m : Z -> list entry) (hk : HashedKey) :
  bh_inv s m -> is_bytes (key hk) ->
  exists st s', BigHash.remove hk s = (Ok st, s') /\ steps_to s s' /\
    ((st = StatusOk /\ valid s' (getBucketId s hk) /\ exists v,
      lookup_key hk (m (getBucketId s hk)) = Some v /\
      bh_inv s' (updm m (getBucketId s hk) (without hk (m (getBucketId s hk)))) /\
      destructorCalls s' = destructorCalls s ++ [(hk, v, Removed)]) \/
     (st = NotFound /\ valid s' (getBucketId s hk) /\
      lookup_key hk (m (getBucketId s hk)) = None /\ bh_inv s' m /\
      destructorCalls s' = destructorCalls s) \/
     ((st = NotFound \/ st = DeviceError) /\ ~ valid s' (getBucketId s hk) /\ bh_inv s' m /\
      destructorCalls s' = destructorCalls s)).
Proof.
  intros Hi Hk. destruct (getBucketId_eq s hk (inv_env _ _ Hi)) as [Hbid Hb].
  set (bid := getBucketId s hk) in *. unfold BigHash.remove. rewrite bind_get. fold bid.
  unfold inc. rewrite bind_add. set (s1 := set_counters _ s).
  assert (Hi1 : bh_inv s1 m) by done.
  destruct (isBucketValid_run s1 bid (inv_env _ _ Hi1) Hb) as [[Hv Ev]|[Hv Ev]];
    rewrite (bind_ok _ _ _ _ _ Ev); cbn [negb].
  2: { rewrite bind_add. eexists _, _. split; [done|]. split; [by apply steps_same|].
       right. right. split; [by left|]. done. }
  destruct (bfReject_run s1 m bid (keyHash hk) Hi1 Hb Hv) as (r & c & Er & Hr).
  rewrite (bind_ok _ _ _ _ _ Er). destruct r.
  { eexists _, _. split; [done|]. split; [by apply steps_same|]. right. left.
    split; [done|]. split; [done|]. split; [|done].
    pose proof (reject_answer (m bid) hk (Hr eq_refl)) as Ha. unfold answer in Ha.
    by destruct (lookup_key hk (m bid)). }
  set (s2 := set_counters c s1). assert (Hi2 : bh_inv s2 m) by done.
  destruct (readBucket_run s2 m bid Hi2 Hb Hv) as (rb & s3 & E3 & Hi3 & Hc3 & Hbl3 & Hd3 & _ & Hm3).
  rewrite (bind_ok _ _ _ _ _ E3). destruct rb as [b|].
  2: { rewrite bind_add. destruct Hm3 as [Hnv Hmono]. eexists _, _. split; [done|].
       split; [split; [done|]; intros i Hir Hvi; by apply Hmono|].
       right. right. split; [by right|]. done. }
  destruct Hm3 as [Hck Hbo].
  assert (Hv3 : valid s3 bid) by (unfold valid; by rewrite Hck).
  assert (Hb3 : 0 <= bid < numBuckets_ s3) by (destruct Hc3 as (_&_&->&_); done).
  destruct Hbo as [Hbr Hg Hcap Hnd Hhome].
  pose proof (bucket_remove_repr (Some valueCb) b (m bid) hk None Hbr Hk) as Hrm.
  destruct (lookup_key hk (m bid)) as [v|] eqn:Elk.
  2: { rewrite (bind_ok _ _ _ _ _ (runBucket_ok _ _ _ _ _ _ s3 Hrm)). cbn [Z.eqb]. rewrite bind_add.
       eexists _, _. split; [done|].
       split; [split; [done|]; intros i _; unfold valid; simpl; by rewrite Hck|].
       right. left. done. }
  destruct Hrm as (es1 & es2 & st' & Hes & Hn & Erm & Hbr' & Hcap').
  rewrite (bind_ok _ _ _ _ _ (runBucket_ok _ _ _ _ _ _ s3 Erm)). cbn [Z.eqb].
  assert (Hw : without hk (m bid) = es1 ++ es2).
  { rewrite Hes. apply without_key_split. by rewrite <- Hes. }
  set (b2 := Bucket.set_storage st' b) in *.
  destruct (remove_bloom s3 m bid b2 (es1 ++ es2) Hi3 Hb3 Hbr')
    as (s4 & km & E4 & Hc4 & Hdev4 & Hck4 & Hd4 & Hbl4 & Hk4).
  rewrite (bind_ok _ _ _ _ _ E4).
  destruct (commit_bucket s3 s4 m bid b2 (es1 ++ es2) km) as
    (ok & s5 & E5 & Hi5 & Hc5 & Hd5 & Hck5 & Hfail); auto.
  { destruct Hc3 as (-> & _ & -> & ->). rewrite Hes in Hnd, Hhome. constructor; [done|done|by transitivity (BucketStorage.capacity (Bucket.storage_ b))| |].
    - rewrite fmap_app in *. rewrite fmap_cons in Hnd. apply NoDup_app in Hnd as (H1' & H2' & H3').
      apply NoDup_cons in H3' as [_ H3']. apply NoDup_app. split_and!; [done| |done].
      intros x Hx Hx'. apply (H2' x Hx). by right.
    - apply Forall_app in Hhome as [? [_ ?]%Forall_cons]. by apply Forall_app. }
  rewrite (bind_ok _ _ _ _ _ E5).
  assert (Hcore : same_core s s5) by (eapply same_core_trans; [exact Hc3|exact Hc5]).
  destruct ok; cbn [negb].
  - cbn [notify valueCb fst snd]. rewrite bind_modify. unfold sub, dec, sub. rewrite !bind_add.
    eexists _, _. split; [done|].
    split; [split; [done|]; intros i _; unfold valid; simpl; by rewrite Hck5, Hck|].
    left. split; [done|]. split; [unfold valid; simpl; by rewrite Hck5, Hck|].
    exists v. split; [done|]. rewrite Hw. split; [exact Hi5|]. simpl. by rewrite Hd5, Hd3.
  - destruct (Hfail eq_refl) as [Hnv Hmono].
    destruct (commit_failed s s5 m bid Hi5 Hb Hcore Hnv) as (s6 & -> & Hs6 & Hnv6 & Hi6 & Hd6).
    { intros i Hir Hvi. apply Hmono in Hvi as [Hvi _]; [by unfold valid in Hvi; rewrite Hck in Hvi|].
      destruct Hc3 as (_&_&->&_). done. }
    exists DeviceError, s6. split; [done|]. split; [done|].
    right. right. split_and!; [by right|done|done|by rewrite Hd6, Hd5, Hd3].
Qed.
End Ops.

(** ** BigHash: what it promises

    From a constructed (or recovered) BigHash over any device that satisfies
    its interface: lookups return the last value inserted or nothing, an
    insert is visible to the next lookup, entries disappear only by eviction,
    expiry or removal and the destructor callback sees each, and a bucket
    with a device error is taken out of service without touching the others. *)

Section Spec.
Context {D : Type} `{NavyDeviceLaws D} `{FollyHash} `{Crc32} `{!Crc32Laws} `{KeyHasher}.
Notation BH := (BigHash D).

(** ** Construction *)

Lemma resetCounters_run (cs : list Counter) (s : BH) :
  exists c, fold_right (fun c k => bind (set_counter c 0) (fun _ => k)) (ret tt) cs s
            = (Ok tt, set_counters c s).
Proof.
  revert s. induction cs as [|c cs IH]; intros s; simpl.
  - exists (counters s). by destruct s.
  - unfold set_counter at 1. rewrite bind_modify. destruct (IH (set_counters
      (fun c' => if decide (c' = c) then 0 else counters s c') s)) as (c' & ->). by exists c'.
Qed.

(** Everything on the device belongs to another generation or is corrupt. *)
Definition all_stale (bs base num gen : Z) (dev : D) : Prop :=
  forall bid, 0 <= bid < num ->
  exists v, holds dev (base + bs * bid) v /\ zlen v = bs /\ stale gen v.

(** What the engine needs of its configuration and device. *)
Record setup_ok (bs base num : Z) (bf : option BloomFilter) (dev : D) : Prop := {
  su_num : 0 < num /\ num + 99 < 2 ^ 32;
  su_bs : 24 <= bs < 2 ^ 32;
  su_base : 0 <= base /\ base + bs * num < 2 ^ 64;
  su_align : ioAlignedSize dev bs = bs;
  su_transfer : forall bid, 0 <= bid < num -> canTransfer dev (base + bs * bid) bs;
  su_bloom : exists km, bloom_ok bf num km
}.

Lemma bf_reset_run (s : BH) (km : Z -> list Z) :
  bloom_ok (bloomFilter_ s) (numBuckets_ s) km ->
  exists bf, onBloom BloomFilter.reset s = (Ok tt, set_bloom bf s) /\
             bloom_ok bf (numBuckets_ s) (fun _ => []).
Proof.
  intros Hb. unfold onBloom. destruct (bloomFilter_ s) as [f|] eqn:Ef.
  - destruct Hb as [Hn Hr]. destruct (reset_repr f km Hr) as (b' & -> & Hr').
    by exists (Some (set_bits b' f)).
  - exists None. split; [|done]. unfold set_bloom. rewrite <- Ef. by destruct s.
Qed.

Lemma reset_run (s : BH) (now : Z) :
  setup_ok (bucketSize_ s) (cacheBaseOffset_ s) (numBuckets_ s) (bloomFilter_ s) (device_ s) ->
  all_stale (bucketSize_ s) (cacheBaseOffset_ s) (numBuckets_ s) now (device_ s) ->
  exists s', reset now s = (Ok tt, s') /\ bh_inv s' (fun _ => []) /\
    bucketSize_ s' = bucketSize_ s /\ numBuckets_ s' = numBuckets_ s /\
    (forall i, 0 <= i < numBuckets_ s -> valid s' i) /\ destructorCalls s' = destructorCalls s.
Proof.
  intros [Hn Hbs Hba Hal Htr (km & Hbl)] Hst.
  unfold reset. rewrite bind_modify.
  destruct (bf_reset_run (set_gen now s) km Hbl) as (bf & Eb & Hbl').
  rewrite (bind_ok _ _ _ _ _ Eb), bind_modify.
  destruct (resetCounters_run resetCounters
    (set_checker (ValidBucketChecker.make (u32 (numBuckets_ s)) kBigHashValidBucketCheckerBucketsPerBit)
       (set_bloom bf (set_gen now s)))) as (c & Ec).
  cbn beta. change (numBuckets_ (set_bloom bf (set_gen now s))) with (numBuckets_ s).
  rewrite Ec. eexists. split; [done|].
  destruct (make_checker_ok (numBuckets_ s)) as [Hck Hval]; [lia..|].
  rewrite u32_small by (unfold is_u32; lia).
  split; [|by split_and!]. constructor; simpl.
  - by constructor.
  - exists (fun _ => []). split; [done|]. intros bid e _ _ Hin. by apply not_elem_of_nil in Hin.
  - intros bid Hb _. destruct (Hst bid Hb) as (v & Hh & Hl & Hs).
    destruct (openBucket_stale now v) as (b & Ho & Hr & Hg & Hc); [lia|done|].
    exists v, b. split_and!; try done. constructor; try done; [lia|apply NoDup_nil_2].
Qed.

(** ** Runs *)

Inductive bh_op : Type :=
| OInsert (hk : HashedKey) (v : bytes)
| OLookup (hk : HashedKey)
| ORemove (hk : HashedKey).

(** An operation's status and the value a lookup returns. *)
Notation bh_res := (Status * option bytes)%type.

Context (checkExpired_ : Bucket.ExpiredCheck).

Definition run_bh_op (op : bh_op) : M BH bh_res :=
  match op with
  | OInsert hk v => bind (BigHash.insert checkExpired_ hk v) (fun st => ret (st, None))
  | OLookup hk => bind (BigHash.lookup hk) (fun r => ret (fst (fst r), snd (fst r)))
  | ORemove hk => bind (BigHash.remove hk) (fun st => ret (st, None))
  end.

Fixpoint run_bh (ops : list bh_op) : M BH (list bh_res) :=
  match ops with
  | [] => ret []
  | op :: ops => bind (run_bh_op op) (fun r => bind (run_bh ops) (fun rs => ret (r :: rs)))
  end.

(** Keys are byte strings with 64-bit hashes and items fit a bucket
    ([getMaxItemSize]). *)
Definition op_ok (bs : Z) (op : bh_op) : Prop :=
  match op with
  | OInsert hk v => entry_ok (hk, v) /\ zlen (key hk) + zlen v <= bs - 44
  | OLookup hk | ORemove hk => is_bytes (key hk)
  end.

(** The reference: the last value successfully inserted under each key. *)
Definition note (L : HashedKey -> option bytes) (op : bh_op) (r : bh_res)
    : HashedKey -> option bytes :=
  match op, fst r with
  | OInsert hk v, StatusOk => fun k => if decide (k = hk) then Some v else L k
  | ORemove hk, StatusOk => fun k => if decide (k = hk) then None else L k
  | _, _ => L
  end.

(** Every lookup that succeeds in a history returns the reference's value. *)
Fixpoint history_ok (L : HashedKey -> option bytes) (ops : list bh_op) (rs : list bh_res) : Prop :=
  match ops, rs with
  | [], [] => True
  | op :: ops, r :: rs =>
      match op with
      | OLookup hk => fst r = StatusOk -> exists v, snd r = Some v /\ L hk = Some v
      | _ => True
      end /\ history_ok (note L op r) ops rs
  | _, _ => False
  end.

(** The buckets hold nothing but last values. *)
Definition agrees (num : Z) (m : Z -> list entry) (L : HashedKey -> option bytes) : Prop :=
  forall i e, 0 <= i < num -> e ∈ m i -> keyHash (fst e) mod num = i /\ L (fst e) = Some (snd e).

(** An entry of another bucket, or another entry of the bucket, has another
    key. *)
Lemma agrees_insert (num bid : Z) (m : Z -> list entry) (L : HashedKey -> option bytes)
    (hk : HashedKey) (v : bytes) (rest : list entry) :
  agrees num m L -> 0 <= bid < num -> bid = keyHash hk mod num ->
  (forall e, e ∈ rest -> e ∈ m bid) -> hk ∉ rest.*1 ->
  agrees num (updm m bid (rest ++ [(hk, v)])) (fun k => if decide (k = hk) then Some v else L k).
Proof.
  intros Ha Hb Hh Hin Hn i e Hi. unfold updm. destruct (Z.eqb_spec i bid) as [->|Hne].
  - intros [He| ->%list_elem_of_singleton]%elem_of_app.
    + destruct (Ha bid e Hi (Hin e He)) as [? ?]. split; [done|].
      rewrite decide_False; [done|]. intros <-. apply Hn. apply list_elem_of_fmap. by exists e.
    + simpl. by rewrite decide_True.
  - intros He. destruct (Ha i e Hi He) as [Hm Hl]. split; [done|].
    rewrite decide_False; [done|]. intros Heq. apply Hne. by rewrite <- Hm, Heq.
Qed.

Lemma agrees_remove (num bid : Z) (m : Z -> list entry) (L : HashedKey -> option bytes)
    (hk : HashedKey) :
  agrees num m L -> 0 <= bid < num -> bid = keyHash hk mod num ->
  agrees num (updm m bid (without hk (m bid))) (fun k => if decide (k = hk) then None else L k).
Proof.
  intros Ha Hb Hh i e Hi. unfold updm. destruct (Z.eqb_spec i bid) as [->|Hne].
  - intros [Hne He]%list_elem_of_filter. destruct (Ha bid e Hi He) as [? ?]. split; [done|].
    by rewrite decide_False.
  - intros He. destruct (Ha i e Hi He) as [Hm Hl]. split; [done|].
    rewrite decide_False; [done|]. intros Heq. apply Hne. by rewrite <- Hm, Heq.
Qed.

Lemma inv_nodup (s : BH) (m : Z -> list entry) (bid : Z) :
  bh_inv s m -> 0 <= bid < numBuckets_ s -> valid s bid -> NoDup (m bid).*1.
Proof.
  intros Hi Hb Hv. destruct (pi_buckets _ _ _ _ _ _ _ _ Hi bid Hb Hv) as (v & b & _ & _ & _ & Ho).
  apply (bo_nodup _ _ _ _ _ _ Ho).
Qed.

Lemma run_bh_op_ok (s : BH) (m : Z -> list entry) (L : HashedKey -> option bytes) (op : bh_op) :
  bh_inv s m -> agrees (numBuckets_ s) m L -> op_ok (bucketSize_ s) op ->
  exists r s' m', run_bh_op op s = (Ok r, s') /\ bh_inv s' m' /\ steps_to s s' /\
    agrees (numBuckets_ s) m' (note L op r) /\
    match op with
    | OLookup hk => fst r = StatusOk -> exists v, snd r = Some v /\ L hk = Some v
    | _ => True
    end.
Proof.
  intros Hi Ha Hok. destruct op as [hk v|hk|hk]; simpl in *.
  - destruct Hok as [Hen Hsz].
    destruct (getBucketId_eq s hk (inv_env _ _ Hi)) as [Hbid Hb]. set (bid := getBucketId s hk) in *.
    destruct (put_parts checkExpired_ (bucketSize_ s - 24) hk v (m bid)) as [[ex ev] rest] eqn:Ep.
    destruct (insert_run checkExpired_ s m hk v ex ev rest Hi Hen) as (st & s' & E & Hst & Hcase);
      [unfold esize; simpl; lia|done|].
    rewrite (bind_ok _ _ _ _ _ E). destruct Hcase as [(-> & Hv & Hi' & Hck & _)|(Hst' & _ & Hi' & _)].
    + eexists _, s', _. split; [done|]. split; [exact Hi'|]. split; [done|]. split; [|done]. simpl.
      assert (Hnd : NoDup (m bid).*1).
      { apply (inv_nodup s); try done. unfold valid in *. by rewrite <- Hck. }
      destruct (put_parts_perm _ _ _ _ _ _ _ _ Hnd Ep) as [_ Hn].
      destruct (put_parts_ok _ _ _ _ _ _ _ _ Hnd Ep) as (_ & Hin & _).
      by apply agrees_insert.
    + eexists _, s', m. split; [done|]. split; [done|]. split; [done|]. split; [|done].
      by destruct Hst' as [-> | ->].
  - destruct (lookup_run s m hk Hi Hok) as (st & v & s' & E & Hi' & Hst & _ & Hcase).
    rewrite (bind_ok _ _ _ _ _ E). eexists _, s', m. split; [done|]. split; [done|]. split; [done|].
    split; [done|]. simpl. intros ->.
    destruct (getBucketId_eq s hk (inv_env _ _ Hi)) as [Hbid Hb].
    destruct Hcase as [[_ Hans]|(_ & _ & [[_ [=]]|[_ [=]]])]. unfold answer in Hans.
    destruct (lookup_key hk (m (getBucketId s hk))) as [v'|] eqn:El; [|done]. injection Hans as ->.
    exists v'. split; [done|]. apply lookup_key_In in El. by apply (Ha _ _ Hb) in El as [_ ?].
  - destruct (remove_run s m hk Hi Hok) as (st & s' & E & Hst & Hcase).
    rewrite (bind_ok _ _ _ _ _ E). destruct (getBucketId_eq s hk (inv_env _ _ Hi)) as [Hbid Hb].
    destruct Hcase as [(-> & _ & v & _ & Hi' & _)|[(-> & _ & _ & Hi' & _)|(Hst' & _ & Hi' & _)]].
    + eexists _, s', _. split; [done|]. split; [exact Hi'|]. split; [done|]. split; [|done].
      by apply agrees_remove.
    + by exists (NotFound, None), s', m.
    + eexists _, s', m. split; [done|]. split; [done|]. split; [done|]. split; [|done].
      by destruct Hst' as [-> | ->].
Qed.

Lemma run_bh_ok (ops : list bh_op) (s : BH) (m : Z -> list entry) (L : HashedKey -> option bytes) :
  bh_inv s m -> agrees (numBuckets_ s) m L -> Forall (op_ok (bucketSize_ s)) ops ->
  exists rs s', run_bh ops s = (Ok rs, s') /\ history_ok L ops rs.
Proof.
  revert s m L. induction ops as [|op ops IH]; intros s m L Hi Ha Hok.
  { by exists [], s. }
  apply Forall_cons in Hok as [Hop Hok].
  destruct (run_bh_op_ok s m L op Hi Ha Hop) as (r & s1 & m1 & E & Hi1 & Hst & Ha1 & Hr).
  destruct Hst as [(Hbs & _ & Hnum & _) _].
  destruct (IH s1 m1 (note L op r)) as (rs & s' & E' & Hh); [done|by rewrite Hnum| |].
  { by rewrite Hbs. }
  exists (r :: rs), s'. split; [|done]. cbn [run_bh].
  rewrite (bind_ok _ _ _ _ _ E), (bind_ok _ _ _ _ _ E'). done.
Qed.
End Spec.
