(* ===== verification/BigHashClaims.v ===== *)
(** * BigHash: theorems

    A concrete engine, the properties of the engine over any device, and
    restarts. *)

From S2P Require Import Prelude Bytes BloomFilter BloomFilterSpec BucketStorage Bucket BucketSpec Device BigHash BigHashProofs BigHashSpec.
From stdpp Require Import base tactics numbers list.

#[local] Open Scope Z_scope.
#[local] Open Scope cachelib_scope.

(** ** BigHash: a concrete engine

    Two buckets of 128 bytes on a memory device, with a bloom filter and
    small stand-ins for the hash functions, to evaluate the model with. *)

#[export] Instance demoHash : FollyHash := {|
  hashInt x := u64 (x * 11400714819323198485 + 1);
  combineHashes a b := u64 (a * 3 + b)
|}.
#[export] Instance demoCrc : Crc32 := fun b => u32 (foldl (fun a x => a * 31 + x) 7 b).
#[export] Instance demoCrcLaws : Crc32Laws.
Proof. intros b. apply u32_range. Qed.
#[export] Instance demoKeyHasher : KeyHasher := fun b => u64 (foldl (fun a x => a * 257 + x) 1 b).

Definition demoDevice : Device MemoryDevice :=
  mkDevice 256 1 0 0 None 0 0 0 0 0 0 (mkMemoryDevice (replicate 256 0)).

Definition demoBloom : option BloomFilter :=
  match makeFilters 2 2 16 with Ok bf => Some bf | Throw _ => None end.

Definition demoConfig : Config (D := Device MemoryDevice) :=
  mkConfig 128 0 256 (Some demoDevice) demoBloom.

Lemma demo_setup : setup_ok 128 0 2 demoBloom demoDevice.
Proof.
  constructor; try lia.
  - vm_compute. done.
  - intros bid Hb. change (dev_canTransfer demoDevice (0 + 128 * bid) 128). unfold dev_canTransfer.
    change (implSize (impl_ demoDevice)) with 256. cbn. lia.
  - exists (fun _ => []). unfold demoBloom.
    destruct (makeFilters_repr 2 2 16) as (bf & E & Hr & Hn & _); [lia..|vm_compute; done|].
    rewrite E. done.
Qed.

Lemma demo_stale : all_stale 128 0 2 1 demoDevice.
Proof.
  intros bid Hb. exists (replicate 128 0). split_and!; [|done|].
  - assert (bid = 0 \/ bid = 1) as [-> | ->] by lia;
      (split_and!; [lia|vm_compute; done|vm_compute; done]).
  - intros b E. left. vm_compute in E. injection E as <-. vm_compute. done.
Qed.

(** The engine after its constructor. *)
Definition demoEngine : BigHash (Device MemoryDevice) :=
  match newBigHash demoConfig 1 with
  | Ok s => s
  | Throw _ => mkBigHash 0 0 0 None (ValidBucketChecker.make 0 1) 0 demoDevice (fun _ => 0) []
  end.

Lemma demo_new :
  newBigHash demoConfig 1 = Ok demoEngine /\ bh_inv demoEngine (fun _ => []) /\
  bucketSize_ demoEngine = 128 /\ numBuckets_ demoEngine = 2.
Proof.
  unfold demoEngine, newBigHash.
  replace (validate demoConfig) with (Ok tt : res unit) by (vm_compute; done).
  cbn [rbind cfg_device demoConfig].
  match goal with |- context [reset 1 ?s0] => destruct (reset_run s0 1 demo_setup demo_stale) as
    (s & -> & Hi & Hb & Hn & _ & Hc) end.
  done.
Qed.

Definition demo_hk (k : bytes) : HashedKey := makeHK k.

Lemma demo_hk_ok (k : bytes) : is_bytes k -> forall v, is_bytes v -> entry_ok (demo_hk k, v).
Proof. intros Hk v Hv. constructor; [done|done|]. apply Z.mod_pos_bound. lia. Qed.

Lemma small_bytes (l : bytes) : forallb (fun x => (0 <=? x) && (x <? 256)) l = true -> is_bytes l.
Proof.
  rewrite forallb_forall. intros Hf. apply Forall_forall. intros x Hx%list_elem_of_In.
  specialize (Hf x Hx). apply andb_true_iff in Hf as [H1%Z.leb_le H2%Z.ltb_lt]. unfold is_u8. lia.
Qed.

Definition demo_ops : list bh_op :=
  [OInsert (demo_hk [1; 2]) [10; 11; 12]; OLookup (demo_hk [1; 2]);
   OInsert (demo_hk [1; 2]) [20]; OInsert (demo_hk [3]) (replicate 60 7);
   OLookup (demo_hk [1; 2]); ORemove (demo_hk [1; 2]); OLookup (demo_hk [1; 2])].

Lemma demo_ops_ok : Forall (op_ok 128) demo_ops.
Proof.
  repeat (apply Forall_cons; split); try apply Forall_nil; try done; simpl;
    try (split; [apply demo_hk_ok; by apply small_bytes|vm_compute; done]); by apply small_bytes.
Qed.

(** The run itself, evaluated. *)
Example demo_run :
  result_of (run_bh None demo_ops) demoEngine
  = Ok [(StatusOk, None); (StatusOk, Some [10; 11; 12]); (StatusOk, None); (StatusOk, None);
        (StatusOk, Some [20]); (StatusOk, None); (NotFound, None)].
Proof. vm_compute. reflexivity. Qed.

(** ** Behaviours worth knowing *)

(** Disabling a bucket never moves the counter of disabled buckets: it stays
    at the value recovered, 0 for a new cache. *)
Lemma disabled_counter_stays (c c' : ValidBucketChecker.t) (idx : Z) :
  ValidBucketChecker.disableBucket c idx = Ok c' ->
  ValidBucketChecker.numDisabledBuckets c' = ValidBucketChecker.numDisabledBuckets c.
Proof.
  unfold ValidBucketChecker.disableBucket. destruct (bitSet _ _ _); [|done].
  cbn [rbind]. intros [= <-]. done.
Qed.

(** A configuration of exactly 2^32 buckets is valid, but the checker is built
    for 0 of them and has no byte to look at. *)
Example full_range_has_no_checker :
  validate (mkConfig (D := Device MemoryDevice) 4096 0 (2 ^ 44) (Some demoDevice) None) = Ok tt /\
  ValidBucketChecker.isBucketValid
    (ValidBucketChecker.make (u32 (2 ^ 44 / 4096)) kBigHashValidBucketCheckerBucketsPerBit) 0
  = Throw UndefinedBehavior.
Proof. vm_compute. split; reflexivity. Qed.

(** A random sample of the bucket with the one key [1; 2] returns a key that
    runs on into the value. *)
Example random_key_runs_on :
  result_of (let! _ := BigHash.insert None (demo_hk [1; 2]) [10; 11; 0] in
             BigHash.getRandomAlloc (getBucketId demoEngine (demo_hk [1; 2])) 0) demoEngine
  = Ok (StatusOk, [1; 2; 10; 11], Some [10; 11; 0]).
Proof. vm_compute. reflexivity. Qed.

(** Clearing a filter makes it say that no key exists. *)
Example cleared_filter_rejects :
  match makeFilters 1 2 16 with
  | Ok bf => (let! _ := BloomFilter.set 0 5 in let! _ := BloomFilter.clear 0 in
              let! bf := get in lift (couldExist bf 0 5)) bf
  | Throw e => (Throw e, emptyBloomFilter)
  end.1 = Ok false.
Proof. vm_compute. reflexivity. Qed.

(** ** BigHash: theorems

    The properties of the engine over any device of the interface, with a
    two-bucket engine on a memory device as the concrete instance. *)

Section Claims.
Context {D : Type} `{NavyDeviceLaws D} `{FollyHash} `{Crc32} `{!Crc32Laws} `{KeyHasher}.
Notation BH := (BigHash D).
Context (checkExpired_ : Bucket.ExpiredCheck).

(** What the constructor leaves, when the device holds nothing of the new
    generation. *)
Lemma newBigHash_run (cfg : Config (D := D)) (d : D) (now : Z) :
  validate cfg = Ok tt -> cfg_device cfg = Some d ->
  setup_ok (cfg_bucketSize cfg) (cfg_cacheBaseOffset cfg) (cfg_numBuckets cfg) (cfg_bloomFilter cfg) d ->
  all_stale (cfg_bucketSize cfg) (cfg_cacheBaseOffset cfg) (cfg_numBuckets cfg) now d ->
  exists s, newBigHash cfg now = Ok s /\ bh_inv s (fun _ => []) /\
    bucketSize_ s = cfg_bucketSize cfg /\ numBuckets_ s = cfg_numBuckets cfg /\
    destructorCalls s = [].
Proof.
  intros Hv Hd Hs Hst. unfold newBigHash. rewrite Hv, Hd. cbn [rbind].
  match goal with |- context [reset now ?s0] => destruct (reset_run s0 now Hs Hst) as
    (s & -> & Hi & Hb & Hn & _ & Hc) end.
  by exists s.
Qed.

(** C4. No stale reads. On a BigHash built by its constructor over a device
    that holds no bucket of the new generation, any sequence of inserts,
    lookups and removes of items that fit a bucket runs to the end whatever
    transfers fail, and every lookup that succeeds returns the value of the
    last successful insert of its key, never an older value, another key's
    value or a removed one. *)
Theorem bighash_no_stale_reads (cfg : Config (D := D)) (d : D) (now : Z) (ops : list bh_op) :
  validate cfg = Ok tt -> cfg_device cfg = Some d ->
  setup_ok (cfg_bucketSize cfg) (cfg_cacheBaseOffset cfg) (cfg_numBuckets cfg) (cfg_bloomFilter cfg) d ->
  all_stale (cfg_bucketSize cfg) (cfg_cacheBaseOffset cfg) (cfg_numBuckets cfg) now d ->
  Forall (op_ok (cfg_bucketSize cfg)) ops ->
  exists s rs s', newBigHash cfg now = Ok s /\ run_bh checkExpired_ ops s = (Ok rs, s') /\
    history_ok (fun _ => None) ops rs.
Proof.
  intros Hv Hd Hs Hst Hops.
  destruct (newBigHash_run cfg d now Hv Hd Hs Hst) as (s & E & Hi & Hb & _ & _).
  destruct (run_bh_ok checkExpired_ ops s (fun _ => []) (fun _ => None) Hi) as (rs & s' & E' & Hh).
  { intros i e _ He. by apply not_elem_of_nil in He. }
  { by rewrite Hb. }
  by exists s, rs, s'.
Qed.

(** C28. Read your writes. When an insert of an item that fits a bucket
    succeeds, the next lookup of the key returns exactly the inserted value,
    unless the device fails to read the bucket: no bloom filter, checksum or
    eviction loses an item that was just written. *)
Theorem bighash_read_your_write (s s1 : BH) (m : Z -> list entry) (hk : HashedKey) (v : bytes) :
  bh_inv s m -> entry_ok (hk, v) -> zlen (key hk) + zlen v <= bucketSize_ s - 44 ->
  BigHash.insert checkExpired_ hk v s = (Ok StatusOk, s1) ->
  exists st r s2, BigHash.lookup hk s1 = (Ok (st, r, 0), s2) /\
    ((st = StatusOk /\ r = Some v) \/ (st = DeviceError /\ r = None)).
Proof.
  intros Hi Hen Hsz E.
  destruct (put_parts checkExpired_ (bucketSize_ s - 24) hk v (m (getBucketId s hk)))
    as [[ex ev] rest] eqn:Ep.
  destruct (insert_run checkExpired_ s m hk v ex ev rest Hi Hen) as (st & s' & E' & Hst & Hcase);
    [unfold esize; simpl; lia|done|].
  rewrite E in E'. injection E' as <- <-.
  destruct Hcase as [(_ & Hv & Hi1 & Hck & _)|([?|?] & _)]; [|done..].
  destruct (getBucketId_eq s hk (inv_env _ _ Hi)) as [Hbid Hb].
  assert (Hid : getBucketId s1 hk = getBucketId s hk).
  { unfold getBucketId. by destruct Hst as [(_ & _ & -> & _) _]. }
  destruct (lookup_run s1 _ hk Hi1 (ok_key _ Hen)) as (st & r & s2 & E2 & _ & _ & _ & Hans).
  rewrite Hid, updm_eq in Hans. exists st, r, s2. split; [done|].
  destruct Hans as [[_ Hans]|(_ & -> & [[Hnv _]|[_ ->]])]; [|done|by right].
  assert (Hnd : NoDup (m (getBucketId s hk)).*1).
  { apply (inv_nodup s); try done. unfold valid in *. by rewrite <- Hck. }
  destruct (put_parts_perm _ _ _ _ _ _ _ _ Hnd Ep) as [_ Hn].
  unfold answer in Hans. rewrite lookup_key_app, (proj2 (lookup_key_None hk rest) Hn) in Hans.
  simpl in Hans. rewrite bool_decide_eq_true_2 in Hans by done. left. by injection Hans as -> ->.
Qed.

(** C29. What an insert does to the other keys of buckets that are in service
    after it. Whatever an insert of an item that fits a bucket returns, each
    of them has the same answer as before, or the insert succeeded and the
    key's entry was expired or evicted, and then the destructor callback was
    called on it with the Recycled event. After an insert that does not
    succeed no key of a bucket still in service, the inserted one included,
    has another answer than before (a bucket whose transfer failed is out of
    service). *)
Theorem bighash_insert_keeps_or_reports (s : BH) (m : Z -> list entry) (hk : HashedKey) (v : bytes) :
  bh_inv s m -> entry_ok (hk, v) -> zlen (key hk) + zlen v <= bucketSize_ s - 44 ->
  exists st s' m' calls, BigHash.insert checkExpired_ hk v s = (Ok st, s') /\ bh_inv s' m' /\
    destructorCalls s' = destructorCalls s ++ calls /\
    (forall hk', hk' <> hk -> valid s' (getBucketId s hk') ->
       answer (m' (getBucketId s hk')) hk' = answer (m (getBucketId s hk')) hk' \/
       st = StatusOk /\ exists v', answer (m (getBucketId s hk')) hk' = (StatusOk, Some v') /\
         (makeHK (key hk'), v', Recycled) ∈ calls) /\
    (st <> StatusOk -> forall hk', valid s' (getBucketId s hk') ->
       answer (m' (getBucketId s hk')) hk' = answer (m (getBucketId s hk')) hk').
Proof.
  intros Hi Hen Hsz. destruct (getBucketId_eq s hk (inv_env _ _ Hi)) as [_ Hb].
  set (bid := getBucketId s hk) in *.
  destruct (put_parts checkExpired_ (bucketSize_ s - 24) hk v (m bid)) as [[ex ev] rest] eqn:Ep.
  destruct (insert_run checkExpired_ s m hk v ex ev rest Hi Hen) as (st & s' & E & Hst & Hcase);
    [unfold esize; simpl; lia|done|]. fold bid in Hcase.
  destruct Hcase as [(-> & Hv & Hi1 & Hck & Hcalls)|(Hbad & _ & Hi1 & Hcalls)].
  2: { exists st, s', m, []. rewrite app_nil_r. split_and!; auto. }
  exists StatusOk, s', (updm m bid (rest ++ [(hk, v)])), (insert_calls hk (m bid) (ex ++ ev)).
  split_and!; [done..| |done]. intros hk' Hne _. unfold updm.
  destruct (Z.eqb_spec (getBucketId s hk') bid) as [Heq|]; [|by left]. rewrite Heq.
  assert (Hnd : NoDup (m bid).*1).
  { apply (inv_nodup s); try done. unfold valid in *. by rewrite <- Hck. }
  destruct (put_parts_perm _ _ _ _ _ _ _ _ Hnd Ep) as [Hp _].
  unfold answer. rewrite lookup_key_app. simpl. rewrite bool_decide_eq_false_2 by done.
  destruct (lookup_key_gone hk' (m bid) _ rest Hnd Hp) as [->|(v' & -> & -> & Hg)].
  - left. by destruct (lookup_key hk' (m bid)).
  - right. split; [done|]. exists v'. split; [done|]. apply elem_of_app. right.
    apply list_elem_of_fmap. exists (hk', v'). split; [done|].
    apply elem_of_app in Hg as [Hg|]; [|done]. unfold removed_entry in Hg.
    destruct (lookup_key hk (m bid)); [|by apply not_elem_of_nil in Hg].
    apply list_elem_of_singleton in Hg. congruence.
Qed.
End Claims.

Lemma bighash_no_stale_reads_witness :
  exists s rs s', newBigHash demoConfig 1 = Ok s /\ run_bh None demo_ops s = (Ok rs, s') /\
    history_ok (fun _ => None) demo_ops rs.
Proof.
  apply (bighash_no_stale_reads None demoConfig demoDevice 1 demo_ops).
  - vm_compute. reflexivity.
  - reflexivity.
  - exact demo_setup.
  - exact demo_stale.
  - exact demo_ops_ok.
Defined.

Definition demo_key : HashedKey := demo_hk [1; 2].
Definition demo_value : bytes := [10; 11; 12].

Lemma demo_entry : entry_ok (demo_key, demo_value).
Proof. apply demo_hk_ok; by apply small_bytes. Qed.

Lemma bighash_read_your_write_witness :
  exists st r s2,
    BigHash.lookup demo_key (state_of (BigHash.insert None demo_key demo_value) demoEngine)
    = (Ok (st, r, 0), s2) /\
    ((st = StatusOk /\ r = Some demo_value) \/ (st = DeviceError /\ r = None)).
Proof.
  apply (bighash_read_your_write None demoEngine _ (fun _ => []) demo_key demo_value).
  - apply demo_new.
  - exact demo_entry.
  - vm_compute. discriminate.
  - assert (E : result_of (BigHash.insert None demo_key demo_value) demoEngine = Ok StatusOk)
      by (vm_compute; reflexivity).
    unfold result_of, state_of in *. rewrite <- E. apply surjective_pairing.
Defined.

(** The engine with one entry. *)
Definition demoFilled : BigHash (Device MemoryDevice) :=
  state_of (BigHash.insert None demo_key demo_value) demoEngine.
Definition demoContents : Z -> list entry :=
  updm (fun _ => []) (getBucketId demoEngine demo_key) [(demo_key, demo_value)].

Lemma demo_filled : bh_inv demoFilled demoContents.
Proof.
  destruct (insert_run None demoEngine (fun _ => []) demo_key demo_value [] [] []) as (st & s' & E & _ & Hc).
  - apply demo_new.
  - exact demo_entry.
  - vm_compute. discriminate.
  - vm_compute. reflexivity.
  - assert (Hok : result_of (BigHash.insert None demo_key demo_value) demoEngine = Ok StatusOk)
      by (vm_compute; reflexivity).
    unfold demoFilled, state_of. unfold result_of in Hok. rewrite E in Hok |- *.
    destruct Hc as [(_ & _ & Hi & _)|([-> | ->] & _)]; [exact Hi|discriminate..].
Qed.

(** A second item for the same bucket pushes the first one out. *)
Definition demo_large : bytes := replicate 60 7.

Lemma demo_large_entry : entry_ok (demo_hk [3; 4], demo_large).
Proof. apply demo_hk_ok; by apply small_bytes. Qed.

Lemma bighash_insert_keeps_or_reports_witness :
  exists st s' calls, BigHash.insert None (demo_hk [3; 4]) demo_large demoFilled = (Ok st, s') /\
    destructorCalls s' = destructorCalls demoFilled ++ calls /\
    (valid s' (getBucketId demoFilled demo_key) -> exists m', bh_inv s' m' /\
     (answer (m' (getBucketId demoFilled demo_key)) demo_key = (StatusOk, Some demo_value) \/
      (demo_key, demo_value, Recycled) ∈ calls)).
Proof.
  destruct (bighash_insert_keeps_or_reports None demoFilled demoContents (demo_hk [3; 4]) demo_large)
    as (st & s' & m' & calls & E & Hi & Hc & Hk & _).
  - exact demo_filled.
  - exact demo_large_entry.
  - vm_compute. discriminate.
  - exists st, s', calls. split; [exact E|]. split; [exact Hc|]. intros Hv. exists m'. split; [exact Hi|].
    assert (Ha : answer (demoContents (getBucketId demoFilled demo_key)) demo_key = (StatusOk, Some demo_value))
      by (vm_compute; reflexivity).
    destruct (Hk demo_key ltac:(discriminate) Hv) as [Hs|(_ & v' & Hv' & Hin)].
    + left. rewrite Hs. exact Ha.
    + right. rewrite Ha in Hv'. injection Hv' as <-. exact Hin.
Defined.

(** ** BigHash: restarts

    What [persist] writes, [recover] reads back into an engine built with the
    same configuration over the same device: the recovered engine serves the
    same entries. *)

Lemma s64_id (x : Z) : - 2 ^ 63 <= x < 2 ^ 63 -> s64 x = x.
Proof. intros Hx. unfold s64. rewrite Z.mod_small by lia. lia. Qed.

Lemma u8_s8 (x : Z) : is_u8 x -> u8 (ValidBucketChecker.s8 x) = x.
Proof.
  intros Hx. unfold u8, ValidBucketChecker.s8. rewrite Zminus_mod_idemp_l.
  replace (x + 2 ^ 7 - 2 ^ 7) with x by lia. by apply Z.mod_small.
Qed.

(** The checker restores the disabled buckets. *)
Lemma checker_recover (c c0 : ValidBucketChecker.t) (n : Z) :
  checker_ok c n -> checker_ok c0 n -> is_u32 n ->
  exists c', ValidBucketChecker.recover (ValidBucketChecker.persist c) c0 = (true, c') /\
    checker_ok c' n /\ ValidBucketChecker.bits_ c' = ValidBucketChecker.bits_ c.
Proof.
  intros [Hp Hb Hby Hle Hnu Hnb] [Hp0 Hb0 Hby0 Hle0 Hnu0 Hnb0] Hn.
  unfold ValidBucketChecker.recover, ValidBucketChecker.persist. simpl.
  rewrite !u32_s32 by (rewrite ?Hnu, ?Hp; done || (unfold is_u32, kBigHashValidBucketCheckerBucketsPerBit; lia)).
  rewrite Hnu, Hnu0, Hp, Hp0, !Z.eqb_refl.
  assert (Ht : take (Z.to_nat (ValidBucketChecker.numBytes_ c)) (ValidBucketChecker.bits_ c)
    = ValidBucketChecker.bits_ c) by (apply take_ge; unfold zlen in Hle; lia).
  assert (Hu : (u8 <$> (ValidBucketChecker.s8 <$> ValidBucketChecker.bits_ c)) = ValidBucketChecker.bits_ c).
  { clear -Hby. induction Hby as [|x l Hx Hl IH]; [done|]. rewrite !fmap_cons, u8_s8 by done. by rewrite IH. }
  rewrite Ht. unfold zlen at 1. rewrite length_fmap. fold (zlen (ValidBucketChecker.bits_ c)).
  rewrite Hle, Hnb, Hnb0, Z.eqb_refl. cbn [negb orb]. eexists. split; [done|].
  split; [|exact Hu]. constructor; simpl; rewrite ?Hu; try done. congruence.
Qed.

Section Recovery.
Context {D : Type} `{NavyDeviceLaws D} `{FollyHash} `{Crc32} `{!Crc32Laws} `{KeyHasher}.
Context `{BloomProto} `{!BloomProtoLaws} `{BigHashProto} `{!BigHashProtoLaws}.
Notation BH := (BigHash D).

(** Two optional filters built with the same parameters, of the widths their
    types have. *)
Definition same_filters (bf bf0 : option BloomFilter) : Prop :=
  match bf, bf0 with
  | None, None => True
  | Some f, Some f0 =>
      (exists b0, bf_wf f0 b0) /\ is_u64 (hashTableBitSize_ f) /\ Forall is_u64 (seeds_ f) /\
      numFilters_ f0 = numFilters_ f /\ hashTableBitSize_ f0 = hashTableBitSize_ f /\
      filterByteSize_ f0 = filterByteSize_ f /\ length (seeds_ f0) = length (seeds_ f)
  | _, _ => False
  end.

(** The filter is read back. *)
Lemma bloom_recover_run (s : BH) (bf0 : option BloomFilter) (km : Z -> list Z) :
  bloom_ok (bloomFilter_ s) (numBuckets_ s) km -> is_u32 (numBuckets_ s) ->
  same_filters (bloomFilter_ s) bf0 ->
  exists rs, match bloomFilter_ s with None => Ok [] | Some bf => BloomFilter.persist bf end = Ok rs /\
    forall s1 : BH, bloomFilter_ s1 = bf0 ->
    onBloom (bind (BloomFilter.recover rs) (fun _ => ret tt)) s1
    = (Ok tt, set_bloom (bloomFilter_ s) s1).
Proof.
  intros Hb Hn Hsf. unfold same_filters in Hsf.
  destruct (bloomFilter_ s) as [f|], bf0 as [f0|]; try done.
  - destruct Hb as [Hnf (b & Hw & _)]. destruct Hsf as ((b0 & Hw0) & Hh & Hse & E1 & E2 & E3 & E4).
    destruct (persist_recover_run f f0 b b0 [] Hw Hw0) as (rs & Ep & Er); try done.
    { by rewrite Hnf. }
    exists rs. split; [done|]. intros s1 E0. unfold onBloom. rewrite E0. unfold bind.
    rewrite app_nil_r in Er. by rewrite Er.
  - exists []. split; [done|]. intros s1 E0. unfold onBloom. rewrite E0. unfold set_bloom.
    rewrite <- E0. by destruct s1.
Qed.

(** The [try] block of [recover] on what [persist] wrote. *)
Lemma recoverBody_run (s s0 : BH) (rs : list bytes) (c' : ValidBucketChecker.t) (pd : bytes) :
  bucketSize_ s0 = bucketSize_ s -> cacheBaseOffset_ s0 = cacheBaseOffset_ s ->
  numBuckets_ s0 = numBuckets_ s ->
  is_u64 (bucketSize_ s) -> is_u64 (cacheBaseOffset_ s) -> is_u64 (numBuckets_ s) ->
  (forall s1 : BH, bloomFilter_ s1 = bloomFilter_ s0 ->
     onBloom (bind (BloomFilter.recover rs) (fun _ => ret tt)) s1
     = (Ok tt, set_bloom (bloomFilter_ s) s1)) ->
  ValidBucketChecker.recover (ValidBucketChecker.persist (validBucketChecker_ s))
    (validBucketChecker_ s0) = (true, c') ->
  decodeBigHash pd = Ok (mkBigHashPersistentData (s32 kFormatVersion) (s64 (generationTime_ s))
    (s64 (counters s itemCount_)) (s64 (bucketSize_ s)) (s64 (cacheBaseOffset_ s))
    (s64 (numBuckets_ s)) (s64 (counters s usedSizeBytes_))
    (ValidBucketChecker.persist (validBucketChecker_ s))) ->
  exists s', recoverBody (pd :: rs) s0 = (Ok tt, s') /\
    bucketSize_ s' = bucketSize_ s /\ cacheBaseOffset_ s' = cacheBaseOffset_ s /\
    numBuckets_ s' = numBuckets_ s /\ generationTime_ s' = s64 (generationTime_ s) /\
    bloomFilter_ s' = bloomFilter_ s /\ validBucketChecker_ s' = c' /\ device_ s' = device_ s0 /\
    counters s' itemCount_ = u64 (s64 (counters s itemCount_)) /\
    counters s' usedSizeBytes_ = u64 (s64 (counters s usedSizeBytes_)).
Proof.
  intros E1 E2 E3 W1 W2 W3 Hbf Hc Hd. unfold recoverBody.
  rewrite (bind_ok _ _ s0 s0 _ (f_equal (fun r => (r, s0)) Hd)), bind_get.
  cbn [pd_version pd_bucketSize pd_cacheBaseOffset pd_numBuckets
    pd_generationTime pd_itemCount pd_usedSizeBytes pd_validBucketCheckerState].
  rewrite (bind_ok _ _ s0 s0 tt) by done.
  rewrite (bind_ok _ _ s0 s0 tt).
  2: { by rewrite !u64_s64, E1, E2, E3, !Z.eqb_refl. }
  rewrite bind_modify. unfold set_counter. rewrite !bind_modify.
  erewrite bind_ok by (apply Hbf; reflexivity). rewrite bind_get. cbn [validBucketChecker_ set_bloom set_counters set_gen].
  rewrite Hc, bind_modify. eexists. split; [done|]. by split_and!.
Qed.

(** C30. Warm restart. The records [persist] writes for a BigHash recover, in
    an engine built with the same configuration over the same device, to a
    BigHash that satisfies the invariant with the same entries in every
    bucket, the same buckets disabled and the same item and size counts. *)
Theorem bighash_warm_restart (s s0 : BH) (m : Z -> list entry) (now : Z) :
  bh_inv s m -> - 2 ^ 63 <= generationTime_ s < 2 ^ 63 ->
  is_u64 (counters s itemCount_) -> is_u64 (counters s usedSizeBytes_) ->
  same_core s (set_gen (generationTime_ s) s0) -> device_ s0 = device_ s ->
  checker_ok (validBucketChecker_ s0) (numBuckets_ s0) ->
  same_filters (bloomFilter_ s) (bloomFilter_ s0) ->
  exists rs s', persist s = Ok rs /\ recover now rs s0 = (Ok true, s') /\ bh_inv s' m /\
    (forall i, 0 <= i < numBuckets_ s -> valid s' i <-> valid s i) /\
    counters s' itemCount_ = counters s itemCount_ /\
    counters s' usedSizeBytes_ = counters s usedSizeBytes_.
Proof.
  intros Hi Hg Hic Hus (Hbs & Hba & Hnu & _) Hd Hck0 Hsf. simpl in Hbs, Hba, Hnu.
  pose proof (inv_env _ _ Hi) as [Hnum Hbsz Hbase Hal Htr Hck].
  destruct Hi as [_ (km & Hbl & Hk) Hbk].
  set (n := numBuckets_ s) in *.
  assert (Hn32 : is_u32 n) by (unfold is_u32; lia).
  assert (H64 : is_u64 (bucketSize_ s) /\ is_u64 (cacheBaseOffset_ s) /\ is_u64 n) by (unfold is_u64; nia).
  destruct H64 as (H641 & H642 & H643). rewrite Hnu in Hck0.
  destruct (checker_recover _ _ n Hck Hck0 Hn32) as (c' & Ec & Hckc & Hbits).
  destruct (bloom_recover_run s (bloomFilter_ s0) km Hbl Hn32 Hsf) as (rs & Ep & Er).
  unfold persist. rewrite Ep. cbn [rbind]. eexists. 
  edestruct (recoverBody_run s s0 rs c') as (s' & E & F1 & F2 & F3 & F4 & F5 & F6 & F7 & F8 & F9); try done.
  { apply decode_encodeBigHash. }
  exists s'. split; [done|]. unfold recover. rewrite E. split; [done|].
  rewrite u64_s64 in F8, F9 by done. rewrite s64_id in F4 by done.
  assert (Hval : forall i, 0 <= i < n -> valid s' i <-> valid s i).
  { intros i Hir. unfold valid, is_valid. rewrite F6, (isBucketValid_spec c' n i), (isBucketValid_spec _ n i), Hbits; done. }
  split_and!; [|done..]. unfold bh_inv. rewrite F1, F2, F3, F4, F5, F7, Hd. constructor.
  - constructor; try done. by rewrite F6.
  - exists km. split; [done|]. intros bid e Hb Hv. apply Hk; [done|]. by apply Hval.
  - intros bid Hb Hv. apply Hbk; [done|]. by apply Hval.
Qed.
End Recovery.

(** Stand-ins for the thrift encodings: the fields in order. *)
#[local] Instance demoBloomProto : BloomProto := BloomFilterSpec.toyProto.
#[local] Instance demoBloomProtoLaws : BloomProtoLaws := BloomFilterSpec.toyProtoLaws.

#[local] Instance demoBigHashProto : BigHashProto := {|
  encodeBigHash pd :=
    let c := pd_validBucketCheckerState pd in
    pd_version pd :: pd_generationTime pd :: pd_itemCount pd :: pd_bucketSize pd
    :: pd_cacheBaseOffset pd :: pd_numBuckets pd :: pd_usedSizeBytes pd
    :: ValidBucketChecker.st_numBuckets c :: ValidBucketChecker.st_numBucketsPerBit c
    :: ValidBucketChecker.st_numDisabledBuckets c :: ValidBucketChecker.st_bytes c;
  decodeBigHash r :=
    match r with
    | a :: b :: c :: d :: e :: f :: g :: h :: i :: j :: l =>
        Ok (mkBigHashPersistentData a b c d e f g (ValidBucketChecker.mkState h i j l))
    | _ => Throw RuntimeError
    end
|}.

#[local] Instance demoBigHashProtoLaws : BigHashProtoLaws.
Proof. constructor. intros [? ? ? ? ? ? ? []]. reflexivity. Qed.

(** An engine built over what the other one left on the device. *)
Definition demoRestarted : BigHash (Device MemoryDevice) :=
  match newBigHash (mkConfig 128 0 256 (Some (device_ demoFilled)) demoBloom) 2 with
  | Ok s => s
  | Throw _ => demoEngine
  end.

Lemma demo_filters : same_filters (bloomFilter_ demoFilled) (bloomFilter_ demoRestarted).
Proof.
  destruct demo_new as (_ & [_ (km & Hbl & _) _] & _).
  assert (Hr : bloomFilter_ demoRestarted = bloomFilter_ demoEngine) by (vm_compute; reflexivity).
  assert (Hs : exists bf bf0, bloomFilter_ demoFilled = Some bf /\ bloomFilter_ demoEngine = Some bf0 /\
    is_u64 (hashTableBitSize_ bf) /\ forallb (fun x => (0 <=? x) && (x <? 2 ^ 64)) (seeds_ bf) = true /\
    numFilters_ bf0 = numFilters_ bf /\ hashTableBitSize_ bf0 = hashTableBitSize_ bf /\
    filterByteSize_ bf0 = filterByteSize_ bf /\ length (seeds_ bf0) = length (seeds_ bf)).
  { eexists _, _. split; [vm_compute; reflexivity|]. split; [vm_compute; reflexivity|].
    vm_compute. split; [split; [discriminate|reflexivity]|done]. }
  destruct Hs as (bf & bf0 & E & E0 & Hh & Hs & Hrest). rewrite Hr, E, E0. rewrite E0 in Hbl.
  destruct Hbl as [_ (b & Hw & _)].
  split; [by exists b|]. split; [exact Hh|]. split; [|exact Hrest].
  apply Forall_forall. intros x Hx%list_elem_of_In. rewrite forallb_forall in Hs.
  specialize (Hs x Hx). apply andb_true_iff in Hs as [H1%Z.leb_le H2%Z.ltb_lt]. unfold is_u64. lia.
Qed.

Lemma bighash_warm_restart_witness :
  exists rs s', persist demoFilled = Ok rs /\ recover 2 rs demoRestarted = (Ok true, s') /\
    bh_inv s' demoContents /\
    (forall i, 0 <= i < numBuckets_ demoFilled -> valid s' i <-> valid demoFilled i) /\
    counters s' itemCount_ = counters demoFilled itemCount_ /\
    counters s' usedSizeBytes_ = counters demoFilled usedSizeBytes_.
Proof.
  apply (bighash_warm_restart demoFilled demoRestarted demoContents 2).
  - exact demo_filled.
  - vm_compute. split; [discriminate|reflexivity].
  - vm_compute. split; [discriminate|reflexivity].
  - vm_compute. split; [discriminate|reflexivity].
  - vm_compute. repeat split.
  - vm_compute. reflexivity.
  - assert (E : validBucketChecker_ demoRestarted = validBucketChecker_ demoEngine /\
                numBuckets_ demoRestarted = numBuckets_ demoEngine) by (vm_compute; split; reflexivity).
    destruct E as [-> ->]. apply (en_checker _ _ _ _ _ (inv_env _ _ (proj1 (proj2 demo_new)))).
  - exact demo_filters.
Defined.
