(* ===== verification/CountMinSketch.v ===== *)
(** * Count-min sketch

    [src/cachelib/common/CountMinSketch.h]: approximate counts per key in a
    table with a row per hash function. [bits] is the width of the counters
    (8, 16 or 32). The constructor from error and probability, which computes
    the width and depth in floating point, is left out; so is the decay by a
    floating-point factor. *)

From S2P Require Import Prelude BloomFilter.
From stdpp Require Import base tactics numbers list.

#[local] Open Scope Z_scope.
#[local] Open Scope cachelib_scope.

Section CountMinSketch.
Context (bits : Z) `{FollyHash}.

Record CountMinSketch : Type := mkCMS {
  width_ : Z;
  depth_ : Z;
  saturated : Z;
  table_ : list Z
}.

Definition set_table (t : list Z) (s : CountMinSketch) : CountMinSketch :=
  mkCMS (width_ s) (depth_ s) (saturated s) t.
Definition set_saturated (n : Z) (s : CountMinSketch) : CountMinSketch :=
  mkCMS (width_ s) (depth_ s) n (table_ s).

(** The default constructor. *)
Definition emptySketch : CountMinSketch := mkCMS 0 0 0 [].

Definition getMaxCount : Z := 2 ^ bits - 1.
Definition getByteSize (s : CountMinSketch) : Z := u32 (width_ s * depth_ s) * (bits / 8).
Definition getSaturatedCounts (s : CountMinSketch) : Z := saturated s.

(** [table_[i]]; outside the table it is undefined. *)
Definition cell (i : Z) : M CountMinSketch Z := fun s =>
  match table_ s !! Z.to_nat i with
  | Some x => (Ok x, s)
  | None => (Throw UndefinedBehavior, s)
  end.
Definition setCell (i x : Z) : M CountMinSketch unit :=
  let! _ := cell i in modify (fun s => set_table (<[Z.to_nat i := x]> (table_ s)) s).

(** The product [width_ * depth_] is one of 32 bits. *)
Fixpoint reset_loop (n : nat) (i : Z) : M CountMinSketch unit :=
  match n with
  | O => ret tt
  | S n => do! setCell i 0 in reset_loop n (i + 1)
  end.
Definition reset : M CountMinSketch unit :=
  let! s := get in
  let tableSize := u32 (width_ s * depth_ s) in
  reset_loop (Z.to_nat tableSize) 0.

(** The memory of the table is zeroed by its allocation and again by
    [reset]. *)
Definition makeSketch (width depth : Z) : res CountMinSketch :=
  if width =? 0 then Throw InvalidArgument
  else if depth =? 0 then Throw InvalidArgument
  else
    let s := mkCMS width depth 0 (replicate (Z.to_nat (u32 (width * depth))) 0) in
    match reset s with
    | (Ok _, s) => Ok s
    | (Throw e, _) => Throw e
    end.

(** The moved-to and the moved-from sketch; [saturated] starts at 0 again. *)
Definition moveSketch (other : CountMinSketch) : CountMinSketch * CountMinSketch :=
  (mkCMS (width_ other) (depth_ other) 0 (table_ other),
   mkCMS 0 0 (saturated other) []).

Definition getIndex (hashNum key : Z) : M CountMinSketch Z :=
  let! s := get in
  do! Prelude.guard (width_ s =? 0) UndefinedBehavior in
  let rowIndex := combineHashes (hashInt hashNum) key mod width_ s in
  ret (u64 (u32 (hashNum * width_ s) + rowIndex)).

(** The loops run over the rows from [hashNum] on; [n] rows are left. *)
Fixpoint increment_loop (n : nat) (hashNum key : Z) : M CountMinSketch unit :=
  match n with
  | O => ret tt
  | S n =>
      let! index := getIndex hashNum key in
      let! x := cell index in
      do! (if x <? getMaxCount then
             do! setCell index (x + 1) in
             if x + 1 =? getMaxCount
             then modify (fun s => set_saturated (u64 (saturated s + 1)) s)
             else ret tt
           else ret tt) in
      increment_loop n (hashNum + 1) key
  end.
Definition increment (key : Z) : M CountMinSketch unit :=
  let! s := get in increment_loop (Z.to_nat (depth_ s)) 0 key.

Fixpoint count_loop (n : nat) (hashNum key count : Z) : M CountMinSketch Z :=
  match n with
  | O => ret count
  | S n =>
      let! index := getIndex hashNum key in
      let! x := cell index in
      count_loop n (hashNum + 1) key (Z.min count x)
  end.
Definition getCount (key : Z) : M CountMinSketch Z :=
  let! s := get in
  let! count := count_loop (Z.to_nat (depth_ s)) 0 key getMaxCount in
  ret (count * (if depth_ s =? 0 then 0 else 1)).

Fixpoint resetCount_loop (n : nat) (hashNum key count : Z) : M CountMinSketch unit :=
  match n with
  | O => ret tt
  | S n =>
      let! index := getIndex hashNum key in
      let! x := cell index in
      do! setCell index ((x - count) mod 2 ^ bits) in
      resetCount_loop n (hashNum + 1) key count
  end.
Definition resetCount (key : Z) : M CountMinSketch unit :=
  let! s := get in
  let! count := getCount key in
  resetCount_loop (Z.to_nat (depth_ s)) 0 key count.

(** ** Specification

    [h] lists the keys counted since the last reset. A cell holds the number
    of them that fall into it, up to the capacity of a counter. *)

Definition column (s : CountMinSketch) (r key : Z) : Z :=
  combineHashes (hashInt r) key mod width_ s.
Definition hits (s : CountMinSketch) (r c : Z) (h : list Z) : Z :=
  Z.of_nat (length (filter (fun k => column s r k = c) h)).
Definition capped (n : Z) : Z := Z.min getMaxCount n.

Record cms_wf (s : CountMinSketch) : Prop := {
  wf_width : 0 < width_ s;
  wf_depth : 0 < depth_ s;
  wf_size : width_ s * depth_ s < 2 ^ 32;
  wf_table : Z.of_nat (length (table_ s)) = width_ s * depth_ s
}.

(** [f r c] is the content of row [r], column [c]. *)
Definition holds_cells (s : CountMinSketch) (f : Z -> Z -> Z) : Prop :=
  forall r c, 0 <= r < depth_ s -> 0 <= c < width_ s ->
    table_ s !! Z.to_nat (r * width_ s + c) = Some (f r c).

Definition cms_repr (s : CountMinSketch) (h : list Z) : Prop :=
  cms_wf s /\ holds_cells s (fun r c => capped (hits s r c h)).

Definition same_shape (s s' : CountMinSketch) : Prop :=
  width_ s' = width_ s /\ depth_ s' = depth_ s.

Lemma column_range (s : CountMinSketch) (r key : Z) : cms_wf s -> 0 <= column s r key < width_ s.
Proof. intros Hw. apply Z.mod_pos_bound, Hw. Qed.

Lemma cell_inj (w r c r' c' : Z) :
  0 <= c < w -> 0 <= c' < w -> r * w + c = r' * w + c' -> r = r' /\ c = c'.
Proof. intros. assert (r = r') by nia. subst. lia. Qed.

(** The index of a row fits the table. *)
Lemma getIndex_run (s : CountMinSketch) (r key : Z) :
  cms_wf s -> 0 <= r < depth_ s ->
  getIndex r key s = (Ok (r * width_ s + column s r key), s) /\
  0 <= r * width_ s + column s r key < width_ s * depth_ s.
Proof.
  intros Hw Hr. pose proof (column_range s r key Hw) as Hc. destruct Hw as [Hw Hd Hs _].
  assert (Hb : 0 <= r * width_ s + column s r key < width_ s * depth_ s) by nia.
  split; [|done]. unfold getIndex, bind, get, Prelude.guard, ret.
  rewrite (proj2 (Z.eqb_neq _ _)) by lia. fold (column s r key).
  rewrite u32_small by (unfold is_u32; nia). rewrite u64_small by (unfold is_u64; lia). done.
Qed.

Lemma cell_run (s : CountMinSketch) (f : Z -> Z -> Z) (r c : Z) :
  holds_cells s f -> 0 <= r < depth_ s -> 0 <= c < width_ s ->
  cell (r * width_ s + c) s = (Ok (f r c), s).
Proof. intros Hf Hr Hc. unfold cell. by rewrite (Hf r c Hr Hc). Qed.

Definition upd_cell (f : Z -> Z -> Z) (r c x : Z) : Z -> Z -> Z :=
  fun r' c' => if bool_decide (r' = r /\ c' = c) then x else f r' c'.

Lemma setCell_run (s : CountMinSketch) (f : Z -> Z -> Z) (r c x : Z) :
  cms_wf s -> holds_cells s f -> 0 <= r < depth_ s -> 0 <= c < width_ s ->
  exists s', setCell (r * width_ s + c) x s = (Ok tt, s') /\ cms_wf s' /\ same_shape s s' /\
    saturated s' = saturated s /\ holds_cells s' (upd_cell f r c x).
Proof.
  intros Hw Hf Hr Hc. unfold setCell, bind. rewrite (cell_run s f r c Hf Hr Hc).
  eexists. split; [done|]. destruct Hw as [Hw Hd Hs Ht]. split_and!; [|done|done|].
  - constructor; simpl; try done. by rewrite length_insert.
  - intros r' c' Hr' Hc'. simpl in *. unfold upd_cell. case_bool_decide as Hb.
    + destruct Hb as [-> ->]. apply list_lookup_insert_eq. nia.
    + rewrite list_lookup_insert_ne; [by apply Hf|]. intros E%Z2Nat.inj; [|nia..].
      apply Hb. destruct (cell_inj (width_ s) r c r' c'); [lia..|]. lia.
Qed.

Lemma hits_shape (s s' : CountMinSketch) (r c : Z) (h : list Z) :
  same_shape s s' -> hits s' r c h = hits s r c h.
Proof. intros [E _]. unfold hits, column. by rewrite E. Qed.

Lemma hits_cons (s : CountMinSketch) (r c k : Z) (h : list Z) :
  hits s r c (k :: h) = hits s r c h + (if bool_decide (column s r k = c) then 1 else 0).
Proof.
  unfold hits. rewrite filter_cons. case_bool_decide; case_decide; try done; simpl; lia.
Qed.

Lemma hits_nonneg (s : CountMinSketch) (r c : Z) (h : list Z) : 0 <= hits s r c h.
Proof. unfold hits. lia. Qed.

(** ** Increments *)

(** Rows before [r] have counted [k], the others not yet. *)
Definition half_done (s : CountMinSketch) (h : list Z) (k r0 : Z) : Z -> Z -> Z :=
  fun r c => capped (hits s r c (if bool_decide (r < r0) then k :: h else h)).

Lemma holds_cells_ext (s : CountMinSketch) (f g : Z -> Z -> Z) :
  (forall r c, 0 <= r < depth_ s -> 0 <= c < width_ s -> f r c = g r c) ->
  holds_cells s f -> holds_cells s g.
Proof. intros He Hf r c Hr Hc. rewrite <- He by done. by apply Hf. Qed.

Lemma increment_row (s : CountMinSketch) (h : list Z) (k r : Z) (n : nat) :
  cms_wf s -> 0 <= r < depth_ s -> holds_cells s (half_done s h k r) ->
  exists s', increment_loop (S n) r k s = increment_loop n (r + 1) k s' /\
    cms_wf s' /\ same_shape s s' /\ holds_cells s' (half_done s h k (r + 1)).
Proof.
  intros Hw Hr Hf. destruct (getIndex_run s r k Hw Hr) as [Ei _].
  pose proof (column_range s r k Hw) as Hc. cbn [increment_loop]. unfold bind at 1. rewrite Ei.
  unfold bind at 1. rewrite (cell_run s _ r _ Hf Hr Hc).
  assert (Hx : half_done s h k r r (column s r k) = capped (hits s r (column s r k) h)).
  { unfold half_done. by rewrite bool_decide_eq_false_2 by lia. }
  rewrite Hx. set (x := capped _) in *.
  assert (Hnew : forall s', same_shape s s' ->
    holds_cells s' (upd_cell (half_done s h k r) r (column s r k)
                      (capped (hits s r (column s r k) (k :: h)))) ->
    holds_cells s' (half_done s h k (r + 1))).
  { intros s' [Es Ed]. apply holds_cells_ext. intros r' c' Hr' Hc'. unfold upd_cell, half_done.
    case_bool_decide as Hb; [destruct Hb as [-> ->]; by rewrite bool_decide_eq_true_2 by lia|].
    destruct (Z.lt_trichotomy r' r) as [|[->|]].
    - by rewrite !bool_decide_eq_true_2 by lia.
    - rewrite bool_decide_eq_false_2, bool_decide_eq_true_2 by lia. rewrite hits_cons.
      rewrite (bool_decide_eq_false_2 (column s r k = c')) by naive_solver. f_equal. lia.
    - by rewrite !bool_decide_eq_false_2 by lia. }
  destruct (Z.ltb_spec x getMaxCount) as [Hlt|Hge].
  - assert (Hx1 : x + 1 = capped (hits s r (column s r k) (k :: h))).
    { rewrite hits_cons, bool_decide_eq_true_2 by done. unfold x, capped in *. lia. }
    rewrite Hx1. destruct (setCell_run s _ r _ (capped (hits s r (column s r k) (k :: h))) Hw Hf Hr Hc)
      as (s1 & E1 & W1 & S1 & _ & F1).
    unfold bind. rewrite E1. destruct (_ =? _); unfold modify, ret.
    + eexists. split; [done|]. split_and!; [|done|].
      * destruct W1. by constructor.
      * by apply (Hnew s1 S1).
    + exists s1. split_and!; auto.
  - exists s. split; [done|]. split_and!; [done|done|]. apply Hnew; [done|].
    eapply holds_cells_ext; [|exact Hf]. intros r' c' Hr' Hc'. unfold upd_cell.
    case_bool_decide as Hb; [|done]. destruct Hb as [-> ->]. rewrite Hx, hits_cons.
    rewrite bool_decide_eq_true_2 by done. unfold x, capped in *. lia.
Qed.

Lemma increment_rows (n : nat) (s : CountMinSketch) (h : list Z) (k r : Z) :
  cms_wf s -> 0 <= r -> r + Z.of_nat n = depth_ s -> holds_cells s (half_done s h k r) ->
  exists s', increment_loop n r k s = (Ok tt, s') /\ cms_wf s' /\ same_shape s s' /\
    holds_cells s' (half_done s h k (depth_ s)).
Proof.
  revert s r. induction n as [|n IH]; intros s r Hw Hr Hn Hf.
  { exists s. replace (depth_ s) with r by lia. by split_and!. }
  destruct (increment_row s h k r n Hw) as (s1 & E1 & W1 & [Sw Sd] & F1); [lia|done|].
  assert (Hh : forall r0, half_done s1 h k r0 = half_done s h k r0).
  { intros r0. unfold half_done, hits, column. by rewrite Sw. }
  destruct (IH s1 (r + 1) W1) as (s2 & E2 & W2 & [Sw2 Sd2] & F2); [lia|lia|by rewrite Hh|].
  exists s2. rewrite E1, E2. rewrite Hh, Sd in F2. split_and!; try done. split; congruence.
Qed.

Lemma increment_repr (s : CountMinSketch) (h : list Z) (k : Z) :
  cms_repr s h -> exists s', increment k s = (Ok tt, s') /\ cms_repr s' (k :: h) /\ same_shape s s'.
Proof.
  intros [Hw Hf]. unfold increment, bind, get.
  destruct (increment_rows (Z.to_nat (depth_ s)) s h k 0 Hw) as (s' & E & W & Sh & F).
  - lia.
  - pose proof (wf_depth _ Hw). lia.
  - eapply holds_cells_ext; [|exact Hf]. intros r c Hr Hc. unfold half_done.
    by rewrite bool_decide_eq_false_2 by lia.
  - exists s'. split_and!; [done|split; [done|]|done]. eapply holds_cells_ext; [|exact F]. intros r c Hr Hc.
    rewrite (hits_shape s s' r c _ Sh). unfold half_done. destruct Sh as [_ Sd].
    by rewrite bool_decide_eq_true_2 by lia.
Qed.

(** ** Counts *)

(** The least of the cells of a key in [n] rows from row [r] on. *)
Fixpoint least (f : Z -> Z) (n : nat) (r acc : Z) : Z :=
  match n with O => acc | S n => least f n (r + 1) (Z.min acc (f r)) end.

Lemma count_rows (n : nat) (s : CountMinSketch) (f : Z -> Z -> Z) (k r acc : Z) :
  cms_wf s -> holds_cells s f -> 0 <= r -> r + Z.of_nat n = depth_ s ->
  count_loop n r k acc s = (Ok (least (fun r => f r (column s r k)) n r acc), s).
Proof.
  revert r acc. induction n as [|n IH]; intros r acc Hw Hf Hr Hn; [done|].
  destruct (getIndex_run s r k Hw) as [Ei _]; [lia|]. cbn [count_loop]. unfold bind at 1. rewrite Ei.
  unfold bind at 1. rewrite (cell_run s f r) by (try apply column_range; done || lia).
  by rewrite IH by (done || lia).
Qed.

Lemma least_le (f : Z -> Z) (n : nat) (r acc : Z) :
  least f n r acc <= acc /\ forall i, r <= i < r + Z.of_nat n -> least f n r acc <= f i.
Proof.
  revert r acc. induction n as [|n IH]; intros r acc; cbn [least]; [split; [lia|intros; lia]|].
  destruct (IH (r + 1) (Z.min acc (f r))) as [H1 H2]. split; [lia|]. intros i Hi.
  destruct (decide (i = r)) as [->|]; [lia|]. apply H2. lia.
Qed.

Lemma least_ge (f : Z -> Z) (n : nat) (r acc b : Z) :
  b <= acc -> (forall i, r <= i < r + Z.of_nat n -> b <= f i) -> b <= least f n r acc.
Proof.
  revert r acc. induction n as [|n IH]; intros r acc Ha Hf; cbn [least]; [done|].
  apply IH; [specialize (Hf r); lia|]. intros i Hi. apply Hf. lia.
Qed.

Lemma getCount_run (s : CountMinSketch) (f : Z -> Z -> Z) (k : Z) :
  cms_wf s -> holds_cells s f ->
  getCount k s = (Ok (least (fun r => f r (column s r k)) (Z.to_nat (depth_ s)) 0 getMaxCount), s).
Proof.
  intros Hw Hf. pose proof (wf_depth _ Hw). unfold getCount, bind, get.
  rewrite (count_rows _ s f) by (done || lia). unfold ret.
  rewrite (proj2 (Z.eqb_neq _ _)) by lia. by rewrite Z.mul_1_r.
Qed.

(** ** Resets *)

Lemma reset_loop_run (n : nat) (i : nat) (s : CountMinSketch) :
  (i + n)%nat = length (table_ s) ->
  reset_loop n (Z.of_nat i) s = (Ok tt, set_table (take i (table_ s) ++ replicate n 0) s).
Proof.
  revert i s. induction n as [|n IH]; intros i s Hn.
  { simpl. rewrite app_nil_r, take_ge by lia. by destruct s. }
  cbn [reset_loop]. unfold setCell, cell, bind at 1 2. rewrite Nat2Z.id.
  destruct (lookup_lt_is_Some_2 (table_ s) i) as [x Hx]; [lia|]. rewrite Hx. unfold modify.
  replace (Z.of_nat i + 1) with (Z.of_nat (S i)) by lia.
  rewrite IH by (simpl; rewrite length_insert; lia). unfold set_table. simpl.
  do 2 f_equal. assert (Hi : (i < length (table_ s))%nat) by lia.
  rewrite (take_S_r _ i 0) by (by apply list_lookup_insert_eq).
  rewrite take_insert_ge by lia. by rewrite <- (assoc_L (++)).
Qed.

Lemma cms_reset_repr (s : CountMinSketch) :
  0 <= bits -> cms_wf s -> exists s', reset s = (Ok tt, s') /\ cms_repr s' [] /\ same_shape s s'.
Proof.
  intros Hbits Hw. pose proof Hw as [Hwd Hd Hs Ht]. unfold reset, bind, get.
  rewrite u32_small by (unfold is_u32; nia). pose proof (Nat2Z.id 0) as H0. simpl in H0.
  rewrite (reset_loop_run _ 0 s) by lia. eexists. split; [done|].
  split_and!; [split|done].
  - constructor; simpl; try done. rewrite length_replicate. lia.
  - intros r c Hr Hc. simpl in *. rewrite lookup_replicate_2 by nia.
    unfold hits, capped, getMaxCount. simpl. f_equal.
    pose proof (Z.pow_pos_nonneg 2 bits). lia.
Qed.

Lemma makeSketch_repr (w d : Z) :
  0 <= bits -> 0 < w -> 0 < d -> w * d < 2 ^ 32 ->
  exists s, makeSketch w d = Ok s /\ cms_repr s [] /\ width_ s = w /\ depth_ s = d.
Proof.
  intros Hbits Hw Hd Hs. unfold makeSketch. rewrite !(proj2 (Z.eqb_neq _ _)) by lia.
  rewrite u32_small by (unfold is_u32; nia).
  destruct (cms_reset_repr (mkCMS w d 0 (replicate (Z.to_nat (w * d)) 0))) as (s & -> & Hr & Hsh).
  - done.
  - constructor; simpl; try done. rewrite length_replicate. lia.
  - exists s. by destruct Hsh.
Qed.

(** Subtracting [count] from the cells of [k] in rows before [r0]. *)
Definition lowered (s : CountMinSketch) (f : Z -> Z -> Z) (k count r0 : Z) : Z -> Z -> Z :=
  fun r c => if bool_decide (r < r0 /\ c = column s r k) then f r c - count else f r c.

Lemma resetCount_rows (n : nat) (s : CountMinSketch) (f : Z -> Z -> Z) (k count r : Z) :
  cms_wf s -> 0 <= r -> r + Z.of_nat n = depth_ s -> holds_cells s (lowered s f k count r) ->
  (forall r, 0 <= r < depth_ s -> 0 <= count <= f r (column s r k) /\ f r (column s r k) <= getMaxCount) ->
  exists s', resetCount_loop n r k count s = (Ok tt, s') /\ cms_wf s' /\ same_shape s s' /\
    holds_cells s' (lowered s f k count (depth_ s)).
Proof.
  revert s r. induction n as [|n IH]; intros s r Hw Hr Hn Hf Hc.
  { exists s. replace (depth_ s) with r by lia. by split_and!. }
  destruct (getIndex_run s r k Hw) as [Ei _]; [lia|]. pose proof (column_range s r k Hw) as Hcol.
  cbn [resetCount_loop]. unfold bind at 1. rewrite Ei. unfold bind at 1.
  assert (Hrr : 0 <= r < depth_ s) by lia. rewrite (cell_run s _ r _ Hf Hrr Hcol).
  assert (Hx : lowered s f k count r r (column s r k) = f r (column s r k)).
  { unfold lowered. by rewrite bool_decide_eq_false_2 by lia. }
  rewrite Hx. specialize (Hc r Hrr) as Hcr. unfold getMaxCount in Hcr.
  rewrite Z.mod_small by lia.
  destruct (setCell_run s _ r _ (f r (column s r k) - count) Hw Hf Hrr Hcol)
    as (s1 & E1 & W1 & [Sw Sd] & _ & F1).
  unfold bind. rewrite E1.
  assert (Hl : forall r0, lowered s1 f k count r0 = lowered s f k count r0).
  { intros r0. unfold lowered, column. by rewrite Sw. }
  destruct (IH s1 (r + 1) W1) as (s2 & E2 & W2 & [Sw2 Sd2] & F2); [lia|lia| | |].
  - rewrite Hl. eapply holds_cells_ext; [|exact F1]. intros r' c' Hr' Hc'.
    unfold upd_cell, lowered. case_bool_decide as Hb.
    + destruct Hb as [-> ->]. by rewrite bool_decide_eq_true_2 by lia.
    + rewrite (bool_decide_ext (r' < r /\ c' = column s r' k) (r' < r + 1 /\ c' = column s r' k)); [done|].
      split; intros [? ->]; [lia|]. split; [|done]. destruct (decide (r' = r)) as [->|]; [|lia].
      by destruct Hb.
  - intros r' Hr'. unfold column in *. rewrite Sw. rewrite Sd in Hr'. by apply Hc.
  - exists s2. rewrite Hl, Sd in F2. split_and!; try done. split; congruence.
Qed.

Lemma least_attained (f : Z -> Z) (n : nat) (r acc : Z) :
  least f n r acc = acc \/ exists i, r <= i < r + Z.of_nat n /\ least f n r acc = f i.
Proof.
  revert r acc. induction n as [|n IH]; intros r acc; cbn [least]; [by left|].
  destruct (IH (r + 1) (Z.min acc (f r))) as [E|(i & Hi & E)].
  - destruct (Z.le_ge_cases acc (f r)); [left; lia|right; exists r; split; lia].
  - right. exists i. split; [lia|done].
Qed.

Lemma resetCount_run (s : CountMinSketch) (f : Z -> Z -> Z) (k : Z) :
  cms_wf s -> holds_cells s f -> (forall r c, 0 <= f r c <= getMaxCount) ->
  exists s', resetCount k s = (Ok tt, s') /\ getCount k s' = (Ok 0, s') /\
    forall j, exists n n', getCount j s = (Ok n, s) /\ getCount j s' = (Ok n', s') /\ 0 <= n' <= n.
Proof.
  intros Hw Hf Hrange. pose proof (wf_depth _ Hw) as Hd.
  set (N := Z.to_nat (depth_ s)). set (count := least (fun r => f r (column s r k)) N 0 getMaxCount).
  assert (Hcount : forall r, 0 <= r < depth_ s -> 0 <= count <= f r (column s r k)).
  { intros r Hr. split; [apply least_ge; [specialize (Hrange 0 0); lia|intros; apply Hrange]|].
    apply (least_le (fun r => f r (column s r k)) N 0 getMaxCount). lia. }
  destruct (resetCount_rows N s f k count 0 Hw) as (s' & E & W & [Sw Sd] & F); [lia|lia| | |].
  { eapply holds_cells_ext; [|exact Hf]. intros r c Hr _. unfold lowered.
    by rewrite bool_decide_eq_false_2 by lia. }
  { intros r Hr. split; [by apply Hcount|apply Hrange]. }
  set (g := lowered s f k count (depth_ s)) in *.
  assert (Hg : forall r c, 0 <= r < depth_ s -> 0 <= g r c <= f r c).
  { intros r c Hr. unfold g, lowered. specialize (Hcount r Hr). specialize (Hrange r c).
    case_bool_decide as Hb; [destruct Hb as [_ ->]|]; lia. }
  assert (Hget : forall j, getCount j s' =
    (Ok (least (fun r => g r (column s r j)) N 0 getMaxCount), s')).
  { intros j. rewrite (getCount_run s' g j W F). unfold column. by rewrite Sw, Sd. }
  exists s'. split_and!.
  - unfold resetCount, bind, get. by rewrite (getCount_run s f k Hw Hf).
  - rewrite Hget. do 2 f_equal. apply Z.le_antisymm.
    + assert (Hrow : exists r, 0 <= r < depth_ s /\ f r (column s r k) = count).
      { destruct (least_attained (fun r => f r (column s r k)) N 0 getMaxCount) as [Ea|(r & Hr & Ea)].
        - exists 0. split; [lia|]. specialize (Hcount 0). specialize (Hrange 0 (column s 0 k)).
          fold count in Ea. lia.
        - exists r. split; [lia|done]. }
      destruct Hrow as (r & Hr & Hfr).
      destruct (least_le (fun r => g r (column s r k)) N 0 getMaxCount) as [_ Hle].
      specialize (Hle r). assert (g r (column s r k) = 0); [|lia].
      unfold g, lowered. rewrite bool_decide_eq_true_2 by lia. lia.
    + apply least_ge; [specialize (Hrange 0 0); lia|]. intros r Hr. apply Hg. lia.
  - intros j. eexists _, _. rewrite (getCount_run s f j Hw Hf), Hget. split_and!; [done|done| |].
    + apply least_ge; [specialize (Hrange 0 0); lia|]. intros r Hr. apply Hg. lia.
    + apply least_ge; [apply least_le|]. intros r Hr.
      destruct (least_le (fun r => g r (column s r j)) N 0 getMaxCount) as [_ Hle].
      specialize (Hle r Hr). specialize (Hg r (column s r j)). fold N. lia.
Qed.

(** ** Sequences of updates *)

Inductive cms_op : Type := OpIncrement (key : Z) | OpReset.

Definition run_cms_op (op : cms_op) : M CountMinSketch unit :=
  match op with OpIncrement k => increment k | OpReset => reset end.
Fixpoint run_cms (ops : list cms_op) : M CountMinSketch unit :=
  match ops with [] => ret tt | op :: ops => do! run_cms_op op in run_cms ops end.
(** The keys counted since the last reset. *)
Definition counted (ops : list cms_op) : list Z :=
  foldl (fun h op => match op with OpIncrement k => k :: h | OpReset => [] end) [] ops.

Lemma run_cms_repr (ops : list cms_op) (s : CountMinSketch) (h : list Z) :
  0 <= bits -> cms_repr s h ->
  exists s', run_cms ops s = (Ok tt, s') /\ same_shape s s' /\
    cms_repr s' (foldl (fun h op => match op with OpIncrement k => k :: h | OpReset => [] end) h ops).
Proof.
  intros Hb. revert s h. induction ops as [|op ops IH]; intros s h Hr; [by exists s|].
  assert (Hop : exists s', run_cms_op op s = (Ok tt, s') /\ same_shape s s' /\
    cms_repr s' match op with OpIncrement k => k :: h | OpReset => [] end).
  { destruct op as [k|].
    - destruct (increment_repr s h k Hr) as (s' & ? & ? & ?). by exists s'.
    - destruct (cms_reset_repr s Hb (proj1 Hr)) as (s' & ? & ? & ?). by exists s'. }
  destruct Hop as (s1 & E1 & [Sw Sd] & R1). destruct (IH s1 _ R1) as (s2 & E2 & [Sw2 Sd2] & R2).
  exists s2. cbn [run_cms]. unfold bind. rewrite E1, E2. split_and!; [done|split; congruence|done].
Qed.

Definition occurrences (k : Z) (h : list Z) : Z := Z.of_nat (length (filter (fun x => x = k) h)).

Lemma occurrences_hits (s : CountMinSketch) (r k : Z) (h : list Z) :
  occurrences k h <= hits s r (column s r k) h.
Proof.
  induction h as [|x h IH]; [done|]. rewrite hits_cons. unfold occurrences in *. rewrite filter_cons.
  case_decide as Hx; [subst; rewrite bool_decide_eq_true_2 by done|case_bool_decide]; simpl; lia.
Qed.

(** C31. The sketch never undercounts. On a sketch of any width and depth
    whose table has fewer than 2^32 cells, after any sequence of increments
    and resets, the count of a key is at least the number of its increments
    since the last reset, up to the capacity of a counter, and in every row at
    most the number of increments that fall into its cell, so it is exact where some row has no
    collision. Resetting the count of a key makes it 0 and raises no other
    count. *)
Theorem sketch_never_undercounts (w d : Z) (ops : list cms_op) (k : Z) :
  0 <= bits -> 0 < w -> 0 < d -> w * d < 2 ^ 32 ->
  exists s s' n, makeSketch w d = Ok s /\ run_cms ops s = (Ok tt, s') /\ getCount k s' = (Ok n, s') /\
    Z.min getMaxCount (occurrences k (counted ops)) <= n <= getMaxCount /\
    (forall r, 0 <= r < d -> n <= hits s r (column s r k) (counted ops)) /\
    exists s'', resetCount k s' = (Ok tt, s'') /\ getCount k s'' = (Ok 0, s'') /\
      forall j, exists m m', getCount j s' = (Ok m, s') /\ getCount j s'' = (Ok m', s'') /\ 0 <= m' <= m.
Proof.
  intros Hb Hw Hd Hs. destruct (makeSketch_repr w d Hb Hw Hd Hs) as (s & Es & Rs & Ew & Ed).
  destruct (run_cms_repr ops s [] Hb Rs) as (s' & E & [Sw Sd] & [W F]). fold (counted ops) in F.
  assert (Hmax : 0 <= getMaxCount).
  { unfold getMaxCount. pose proof (Z.pow_pos_nonneg 2 bits). lia. }
  pose proof (getCount_run s' _ k W F) as Eg. eexists s, s', _. do 3 (split; [eassumption|]).
  assert (Hcol : forall r, column s r k = column s' r k) by (intros r; unfold column; by rewrite Sw).
  split_and!.
  - apply least_ge; [lia|]. intros r Hr. pose proof (occurrences_hits s' r k (counted ops)).
    unfold capped. lia.
  - apply least_le.
  - intros r Hr. rewrite Hcol, <- (hits_shape s s') by done.
    destruct (least_le (fun r => capped (hits s' r (column s' r k) (counted ops)))
      (Z.to_nat (depth_ s')) 0 getMaxCount) as [_ Hle]. specialize (Hle r).
    unfold capped in *. lia.
  - apply (resetCount_run s' _ k W F). intros r c. pose proof (hits_nonneg s' r c (counted ops)).
    unfold capped. lia.
Qed.
End CountMinSketch.

(** ** A concrete sketch *)

#[local] Instance sketchHash : FollyHash := {|
  hashInt x := x; combineHashes a b := b + a * 7 |}.

Lemma sketch_never_undercounts_witness :
  exists s s' n, makeSketch 5 2 = Ok s /\
    run_cms 8 [OpIncrement 3; OpIncrement 8; OpIncrement 3; OpIncrement 4] s = (Ok tt, s') /\
    getCount 8 3 s' = (Ok n, s') /\ 2 <= n <= 255.
Proof.
  destruct (sketch_never_undercounts 8 5 2 [OpIncrement 3; OpIncrement 8; OpIncrement 3; OpIncrement 4] 3)
    as (s & s' & n & H1 & H2 & H3 & H4 & _); [lia..|].
  exists s, s', n. split_and!; [exact H1|exact H2|exact H3| |]; vm_compute in H4 |- *; tauto.
Defined.

(** Resetting the count of one key can take increments of another: with one
    cell, key 1 was counted twice and its count becomes 0. *)
Example reset_count_undercounts :
  match makeSketch 1 1 with
  | Ok s => result_of (do! increment 8 1 in do! increment 8 1 in do! resetCount 8 2 in getCount 8 1) s
  | Throw e => Throw e
  end = Ok 0.
Proof. vm_compute. reflexivity. Qed.

(** The number of saturated cells outlives a reset of all counts. *)
Example saturated_after_reset :
  match makeSketch 1 1 with
  | Ok s => (fun s => (getSaturatedCounts s, table_ s))
              (state_of (do! increment 1 1 in reset) s)
  | Throw e => (0, [])
  end = (1, [0]).
Proof. vm_compute. reflexivity. Qed.

(** A table whose number of cells does not fit 32 bits is too small for its
    indices. *)
Example sketch_size_wraps :
  match makeSketch (2 ^ 31) 2 with
  | Ok s => (table_ s, result_of (increment 8 1) s)
  | Throw e => ([], Throw e)
  end = ([], Throw UndefinedBehavior).
Proof. vm_compute. reflexivity. Qed.
