(* ===== verification/NvmCache.v ===== *)
(** * The NVM cache and the structures its threads share *)

From S2P Require Import Prelude Bytes BigHash.
From stdpp Require Import base tactics numbers list gmap.

#[local] Open Scope Z_scope.
#[local] Open Scope cachelib_scope.

(** ** Bookkeeping of the NVM cache

    [src/cachelib/allocator/nvmcache/{TombStones,InFlightPuts,ReqContexts}.h]:
    the deletes, puts and queued requests that are under way, per shard. Each
    operation is one critical section. Keys are byte strings; the hash maps
    are finite maps. *)

Notation nkey := (list Z).

(** ** [TombStones]: counts of the deletes under way *)
Module TombStones.

Notation t := (gmap nkey Z).

(** [Some key] for a guard that holds a tombstone, [None] for an empty one. *)
Notation Guard := (option nkey).

Definition add (key : nkey) : M t Guard :=
  let! keys := get in
  let count := default 0 (keys !! key) in
  do! modify (fun keys => <[key := u64 (count + 1)]> keys) in
  ret (Some key).

Definition isPresent (keys : t) (key : nkey) : bool := bool_decide (is_Some (keys !! key)).

Definition remove (key : nkey) : M t unit :=
  let! keys := get in
  match keys !! key with
  | None => throw RuntimeError
  | Some count =>
      if count =? 0 then throw RuntimeError
      else if count - 1 =? 0 then modify (delete key)
      else modify (<[key := count - 1]>)
  end.

(** The destructor of a guard. *)
Definition destroyGuard (g : Guard) : M t unit :=
  match g with Some key => remove key | None => ret tt end.

(** *** The tombstones of a set of guards *)

Definition live (gs : list nkey) (key : nkey) : Z :=
  Z.of_nat (length (filter (fun k => k = key) gs)).

(** The counts are those of the guards alive. *)
Definition counts (keys : t) (gs : list nkey) : Prop :=
  forall key, keys !! key = if live gs key =? 0 then None else Some (live gs key).

Lemma live_cons (g : nkey) (gs : list nkey) (key : nkey) :
  live (g :: gs) key = live gs key + (if bool_decide (g = key) then 1 else 0).
Proof. unfold live. rewrite filter_cons. case_decide; case_bool_decide; simpl; lia || done. Qed.

Lemma live_perm (gs gs' : list nkey) (key : nkey) : gs ≡ₚ gs' -> live gs key = live gs' key.
Proof. intros Hp. unfold live. by rewrite Hp. Qed.

Lemma live_nonneg (gs : list nkey) (key : nkey) : 0 <= live gs key.
Proof. unfold live. lia. Qed.

Lemma live_In (gs : list nkey) (key : nkey) : 0 < live gs key <-> key ∈ gs.
Proof.
  induction gs as [|g gs IH].
  - unfold live. simpl. split; [lia|]. by intros ?%not_elem_of_nil.
  - rewrite live_cons, elem_of_cons. pose proof (live_nonneg gs key).
    case_bool_decide as Hg; [split; [by left|lia]|]. rewrite Z.add_0_r, IH. naive_solver.
Qed.

Lemma add_counts (keys : t) (gs : list nkey) (key : nkey) :
  counts keys gs -> zlen gs + 1 < 2 ^ 64 ->
  exists keys', add key keys = (Ok (Some key), keys') /\ counts keys' (key :: gs).
Proof.
  intros Hc Hn. unfold add, bind, get, modify, ret. eexists. split; [done|].
  assert (Hd : default 0 (keys !! key) = live gs key).
  { rewrite Hc. destruct (Z.eqb_spec (live gs key) 0); [by rewrite e|done]. }
  assert (Hl : 0 <= live gs key <= zlen gs).
  { unfold live, zlen. pose proof (length_filter (fun k => k = key) gs). lia. }
  rewrite Hd, u64_small by (unfold is_u64; lia). intros k. rewrite live_cons.
  destruct (decide (key = k)) as [->|Hne].
  - rewrite lookup_insert_eq, bool_decide_eq_true_2 by done.
    by rewrite (proj2 (Z.eqb_neq _ _)) by lia.
  - rewrite lookup_insert_ne, bool_decide_eq_false_2, Z.add_0_r by done. apply Hc.
Qed.

Lemma remove_counts (keys : t) (gs : list nkey) (key : nkey) :
  counts keys (key :: gs) -> exists keys', remove key keys = (Ok tt, keys') /\ counts keys' gs.
Proof.
  intros Hc. pose proof (live_nonneg gs key) as Hl. specialize (Hc key) as Hk.
  rewrite live_cons, bool_decide_eq_true_2, (proj2 (Z.eqb_neq _ _)) in Hk by (done || lia).
  unfold remove, bind, get. rewrite Hk, (proj2 (Z.eqb_neq _ _)) by lia.
  rewrite Z.add_simpl_r. destruct (Z.eqb_spec (live gs key) 0) as [E|E];
    (eexists; split; [done|]); intros k; destruct (decide (key = k)) as [->|Hne].
  - by rewrite lookup_delete_eq, E.
  - rewrite lookup_delete_ne by done. specialize (Hc k).
    by rewrite live_cons, bool_decide_eq_false_2, Z.add_0_r in Hc by done.
  - rewrite lookup_insert_eq. by rewrite (proj2 (Z.eqb_neq _ _)) by done.
  - rewrite lookup_insert_ne by done. specialize (Hc k).
    by rewrite live_cons, bool_decide_eq_false_2, Z.add_0_r in Hc by done.
Qed.
End TombStones.

(** ** [InFlightPuts]: the puts under way and whether they are still valid *)
Module InFlightPuts.

Notation t := (gmap nkey bool).

Inductive PutTokenError : Type := TRY_LOCK_FAIL | TOKEN_EXISTS | CALLBACK_FAILED.

(** [Some key] for a valid token. *)
Notation PutToken := (option nkey).

Section Client.
Context {C : Type}.

(** The client's function runs on the client's state while the lock is held.
    [owns_lock] is the outcome of the attempt to take the lock. *)
Definition onClient {A} (fn : M C A) : M (t * C) A := fun s =>
  let '(r, c) := fn (snd s) in (r, (fst s, c)).
Definition onKeys (f : t -> t) : M (t * C) unit := modify (fun s => (f (fst s), snd s)).

Definition tryAcquireToken (owns_lock : bool) (key : nkey) (fn : M C bool)
    : M (t * C) (PutToken + PutTokenError) :=
  if negb owns_lock then ret (inr TRY_LOCK_FAIL) else
  let! s := get in
  match fst s !! key with
  | Some _ => ret (inr TOKEN_EXISTS)
  | None =>
      do! onKeys (<[key := true]>) in
      let! fnRet := onClient fn in
      if fnRet : bool then ret (inl (Some key))
      else do! onKeys (delete key) in ret (inr CALLBACK_FAILED)
  end.

Definition invalidateToken (key : nkey) : M (t * C) unit :=
  onKeys (fun keys => match keys !! key with Some _ => <[key := false]> keys | None => keys end).

Definition executeIfValid (key : nkey) (fn : M C unit) : M (t * C) bool :=
  let! s := get in
  if bool_decide (fst s !! key = Some true) then
    do! onClient fn in
    do! onKeys (delete key) in
    ret true
  else ret false.

(** [PutToken::executeIfValid]: the token and whether [fn] was executed. *)
Definition tokenExecute (tok : PutToken) (fn : M C unit) : M (t * C) (PutToken * bool) :=
  match tok with
  | None => ret (None, false)
  | Some key =>
      let! ok := executeIfValid key fn in
      ret (if ok : bool then None else tok, ok)
  end.

Definition removeToken (key : nkey) : M (t * C) unit := onKeys (delete key).

(** The destructor of a token. *)
Definition destroyToken (tok : PutToken) : M (t * C) unit :=
  match tok with Some key => removeToken key | None => ret tt end.
End Client.
End InFlightPuts.

(** ** [ContextMap]: the requests queued in Navy, by the address of their context *)
Module ContextMap.

Definition createContext {T} (addr : Z) (ctx : T) : M (gmap Z T) unit :=
  let! map_ := get in
  match map_ !! addr with
  | Some _ => throw InvalidArgument
  | None => modify (<[addr := ctx]>)
  end.

Definition hasContexts {T} (map_ : gmap Z T) : bool := negb (bool_decide (map_ = ∅)).

(** Returns the destroyed context, whose members are destroyed after it has
    left the map. *)
Definition destroyContext {T} (addr : Z) : M (gmap Z T) T :=
  let! map_ := get in
  match map_ !! addr with
  | None => throw InvalidArgument
  | Some ctx => do! modify (delete addr) in ret ctx
  end.
End ContextMap.

(** ** The NVM cache: puts, removes and finds of a shard

    [src/cachelib/allocator/nvmcache/NvmCache.h]: what [put], [remove] and
    the path of [find] that misses without a lookup do to the state of a
    shard, as sequences of atomic steps (the critical sections of the code)
    that any number of threads interleave. [putStep], [remStep] and [findStep]
    are the handlers, a step at a time; [step] is the interleaving of them
    with Navy.

    Navy appears as its asynchronous interface: queued jobs run in order for
    each key, each calls its callback when it has run, items may be evicted at
    any time, and [couldExist] is true for a key that is stored. An item's
    value is tagged with the put that stored it. Statistics, events, the item
    destructors and the fill of DRAM after a lookup are left out. *)

(** ** Navy *)

Record NavyVal : Type := mkNavyVal { nv_put : Z; nv_bytes : bytes }.

Inductive Job : Type :=
| JInsert (key : nkey) (addr : Z) (val : bytes)
| JRemove (key : nkey) (addr : Z).

Definition job_key (j : Job) : nkey :=
  match j with JInsert k _ _ => k | JRemove k _ => k end.
(** The address of the job's context. *)
Definition job_addr (j : Job) : Z :=
  match j with JInsert _ a _ => a | JRemove _ a => a end.

Record Navy : Type := mkNavy {
  content : gmap nkey NavyVal;
  queue : list Job;
  completing : list (Job * Status)
}.

Definition enqueue (j : Job) : M Navy unit :=
  modify (fun n => mkNavy (content n) (queue n ++ [j]) (completing n)).

(** [accept] is whether Navy admits the item. *)
Definition insertAsync (accept : bool) (key : nkey) (addr : Z) (val : bytes) : M Navy Status :=
  if accept then do! enqueue (JInsert key addr val) in ret StatusOk else ret Rejected.
Definition removeAsync (key : nkey) (addr : Z) : M Navy unit := enqueue (JRemove key addr).

(** A delete that counts as done. *)
Definition removed_status (st : Status) : bool :=
  match st with StatusOk | NotFound | ChecksumError => true | _ => false end.

(** What a job may do to the stored items. *)
Definition job_effect (j : Job) (st : Status) (c c' : gmap nkey NavyVal) : Prop :=
  match j with
  | JInsert k a v =>
      if decide (st = StatusOk) then c' = <[k := mkNavyVal a v]> c
      else c' = c \/ c' = delete k c
  | JRemove k _ =>
      if removed_status st then c' = delete k c else c' = c \/ c' = delete k c
  end.

(** ** The shard *)

Record Shard : Type := mkShard {
  tombstones_ : TombStones.t;
  inflightPuts_ : InFlightPuts.t;
  putContexts_ : gmap Z nkey;
  delContexts_ : gmap Z TombStones.Guard;
  navyEnabled_ : bool;
  navyCache_ : Navy
}.

Definition onTombstones {A} (m : M TombStones.t A) : M Shard A := fun s =>
  let '(r, t) := m (tombstones_ s) in
  (r, mkShard t (inflightPuts_ s) (putContexts_ s) (delContexts_ s) (navyEnabled_ s) (navyCache_ s)).
Definition onPutContexts {A} (m : M (gmap Z nkey) A) : M Shard A := fun s =>
  let '(r, c) := m (putContexts_ s) in
  (r, mkShard (tombstones_ s) (inflightPuts_ s) c (delContexts_ s) (navyEnabled_ s) (navyCache_ s)).
Definition onDelContexts {A} (m : M (gmap Z TombStones.Guard) A) : M Shard A := fun s =>
  let '(r, c) := m (delContexts_ s) in
  (r, mkShard (tombstones_ s) (inflightPuts_ s) (putContexts_ s) c (navyEnabled_ s) (navyCache_ s)).
Definition onNavy {A} (m : M Navy A) : M Shard A := fun s =>
  let '(r, n) := m (navyCache_ s) in
  (r, mkShard (tombstones_ s) (inflightPuts_ s) (putContexts_ s) (delContexts_ s) (navyEnabled_ s) n).
(** A critical section of [InFlightPuts], whose client code uses Navy and
    the caller's locals. *)
Definition onPuts {L A} (m : M (InFlightPuts.t * (Navy * L)) A) (l : L) : M Shard (A * L) := fun s =>
  let '(r, (p, (n, l))) := m (inflightPuts_ s, (navyCache_ s, l)) in
  (match r with Ok a => Ok (a, l) | Throw e => Throw e end,
   mkShard (tombstones_ s) p (putContexts_ s) (delContexts_ s) (navyEnabled_ s) n).

(** [Config::disableNvmCacheOnBadState] and its default. *)
Record NvmConfig : Type := mkNvmConfig { disableNvmCacheOnBadState : bool }.
Definition defaultConfig : NvmConfig := mkNvmConfig true.
Existing Class NvmConfig.

Definition disableNavy (config_ : NvmConfig) : M Shard unit :=
  modify (fun s =>
    if navyEnabled_ s && disableNvmCacheOnBadState config_
    then mkShard (tombstones_ s) (inflightPuts_ s) (putContexts_ s) (delContexts_ s) false (navyCache_ s)
    else s).

Definition hasTombStone (s : Shard) (key : nkey) : bool := TombStones.isPresent (tombstones_ s) key.

(** ** [put] *)

(** What [put] looks at of an item; [nvmItem] is the outcome of
    [makeNvmItem]. *)
Record Item : Type := mkItem {
  isNvmClean : bool;
  isNvmEvicted : bool;
  isChainedItem : bool;
  isExpired : bool;
  nvmItem : option bytes
}.

Definition markNvmClean (i : Item) : Item :=
  mkItem true (isNvmEvicted i) (isChainedItem i) (isExpired i) (nvmItem i).
Definition unmarkNvmEvicted (i : Item) : Item :=
  mkItem (isNvmClean i) false (isChainedItem i) (isExpired i) (nvmItem i).

Inductive PutOutcome : Type :=
| PutEnqueued | PutRejected | PutAborted | PutSkipped | PutThrew (e : exn).

Inductive PutPC : Type :=
| PutStart | PutTomb | PutMake | PutExec (val : bytes)
| PutCleanup (o : PutOutcome) | PutExit (o : PutOutcome) | PutDone (o : PutOutcome).

Record PutProc : Type := mkPut {
  p_key : nkey;
  p_item : Item;
  p_token : InFlightPuts.PutToken;
  p_pc : PutPC
}.

Definition put_at (pc : PutPC) (p : PutProc) : PutProc := mkPut (p_key p) (p_item p) (p_token p) pc.

(** The function [put] passes to [executeIfValid]: the locals are the item and
    whether the cleanup guard was dismissed. *)
Definition insertFn (accept : bool) (key : nkey) (addr : Z) (val : bytes) : M (Navy * (Item * bool)) unit :=
  fun s =>
  let '(r, n) := insertAsync accept key addr val (fst s) in
  match r with
  | Ok st => if decide (st = StatusOk)
             then (Ok tt, (n, (unmarkNvmEvicted (markNvmClean (fst (snd s))), true)))
             else (Ok tt, (n, snd s))
  | Throw e => (Throw e, (n, snd s))
  end.

(** One step of [put] by the thread with context address [addr]. The last
    steps are the destructors of the cleanup guard and of the token. *)
Definition putStep (addr : Z) (accept : bool) (p : PutProc) : M Shard PutProc :=
  let i := p_item p in
  match p_pc p with
  | PutStart =>
      if isNvmClean i && negb (isNvmEvicted i) then ret (put_at (PutExit (PutThrew RuntimeError)) p)
      else if isChainedItem i then ret (put_at (PutExit (PutThrew InvalidArgument)) p)
      else
        let! s := get in
        if negb (navyEnabled_ s) then ret (put_at (PutExit PutSkipped) p)
        else if isExpired i then ret (put_at (PutExit PutSkipped) p)
        else ret (put_at PutTomb p)
  | PutTomb =>
      let! s := get in
      if hasTombStone s (p_key p) then ret (put_at (PutExit PutAborted) p)
      else ret (put_at PutMake p)
  | PutMake =>
      match nvmItem i with
      | None => ret (put_at (PutExit PutAborted) p)
      | Some val =>
          do! onPutContexts (ContextMap.createContext addr (p_key p)) in
          ret (put_at (PutExec val) p)
      end
  | PutExec val =>
      let! x := onPuts (InFlightPuts.tokenExecute (p_token p) (insertFn accept (p_key p) addr val))
                  (i, false) in
      let '((token, executed), (item, dismissed)) := x in
      let o := if dismissed then PutEnqueued else if executed then PutRejected else PutAborted in
      ret (mkPut (p_key p) item token (if dismissed then PutExit o else PutCleanup o))
  | PutCleanup o =>
      do! onPutContexts (ContextMap.destroyContext addr) in
      ret (put_at (PutExit o) p)
  | PutExit o =>
      let! _ := onPuts (InFlightPuts.destroyToken (p_token p)) tt in
      ret (mkPut (p_key p) i None (PutDone o))
  | PutDone _ => throw StillWaiting
  end.

(** ** [remove] *)

Inductive RemPC : Type :=
| RemCreate | RemStart | RemInvalidate | RemHasContexts | RemCouldExist | RemContext
| RemEnqueue | RemQueued | RemDropTomb (skipped : bool) | RemDone (skipped : bool).

(** [r_older] is for the proofs: the threads that had started when the token
    was invalidated. *)
Record RemProc : Type := mkRem {
  r_key : nkey;
  r_guard : TombStones.Guard;
  r_pc : RemPC;
  r_older : gset Z
}.

Definition rem_at (pc : RemPC) (r : RemProc) : RemProc := mkRem (r_key r) (r_guard r) pc (r_older r).

(** [createDeleteTombStone], then [remove]. [could] is what [couldExist] says,
    [older] the threads that have started. *)
Definition remStep (addr : Z) (could : bool) (older : gset Z) (r : RemProc) : M Shard RemProc :=
  match r_pc r with
  | RemCreate =>
      let! g := onTombstones (TombStones.add (r_key r)) in
      ret (mkRem (r_key r) g RemStart (r_older r))
  | RemStart =>
      let! s := get in
      if negb (navyEnabled_ s) then ret (rem_at (RemDropTomb false) r)
      else ret (rem_at RemInvalidate r)
  | RemInvalidate =>
      let! _ := onPuts (InFlightPuts.invalidateToken (r_key r)) tt in
      ret (mkRem (r_key r) (r_guard r) RemHasContexts older)
  | RemHasContexts =>
      let! s := get in
      if ContextMap.hasContexts (putContexts_ s) then ret (rem_at RemContext r)
      else ret (rem_at RemCouldExist r)
  | RemCouldExist =>
      if could then ret (rem_at RemContext r) else ret (rem_at (RemDropTomb true) r)
  | RemContext =>
      do! onDelContexts (ContextMap.createContext addr (r_guard r)) in
      ret (mkRem (r_key r) None RemEnqueue (r_older r))
  | RemEnqueue =>
      do! onNavy (removeAsync (r_key r) addr) in
      ret (rem_at RemQueued r)
  | RemDropTomb b =>
      do! onTombstones (TombStones.destroyGuard (r_guard r)) in
      ret (mkRem (r_key r) None (RemDone b) (r_older r))
  | RemQueued | RemDone _ => throw StillWaiting
  end.

(** ** [find] up to the lookup *)

(** [FindReturned]: the NVM cache is disabled or the item is in DRAM.
    [FindWait]: a lookup is under way. *)
Inductive FindPC : Type :=
| FindStart | FindInvalidate | FindCheck (again : bool) | FindHasContexts (again : bool)
| FindCouldExist (again : bool) | FindReturned | FindFastMiss | FindWait.

Record FindProc : Type := mkFind { f_key : nkey; f_pc : FindPC; f_older : gset Z }.

Definition find_at (pc : FindPC) (f : FindProc) : FindProc := mkFind (f_key f) pc (f_older f).
(** [checkShared] found nothing; it runs again under the exclusive lock. *)
Definition find_next (again : bool) (f : FindProc) : FindProc :=
  find_at (if again then FindWait else FindCheck true) f.

(** [inRam] and [filling] are what the DRAM cache and the fill map say. *)
Definition findStep (could inRam filling : bool) (older : gset Z) (f : FindProc) : M Shard FindProc :=
  match f_pc f with
  | FindStart =>
      let! s := get in
      if negb (navyEnabled_ s) then ret (find_at FindReturned f) else ret (find_at FindInvalidate f)
  | FindInvalidate =>
      let! _ := onPuts (InFlightPuts.invalidateToken (f_key f)) tt in
      ret (mkFind (f_key f) (FindCheck false) older)
  | FindCheck again =>
      if inRam then ret (find_at FindReturned f)
      else if filling then ret (find_next again f)
      else ret (find_at (FindHasContexts again) f)
  | FindHasContexts again =>
      let! s := get in
      if ContextMap.hasContexts (putContexts_ s) then ret (find_next again f)
      else ret (find_at (FindCouldExist again) f)
  | FindCouldExist again =>
      if could then ret (find_next again f) else ret (find_at FindFastMiss f)
  | FindReturned | FindFastMiss | FindWait => throw StillWaiting
  end.

(** ** Callbacks *)

(** The callback of [insertAsync]; an insert that failed also runs the item's
    destructor. *)
Definition insertCallback (config_ : NvmConfig) (addr : Z) (st : Status) : M Shard unit :=
  do! (if decide (st = BadState) then disableNavy config_ else ret tt) in
  do! onPutContexts (ContextMap.destroyContext addr) in
  ret tt.

(** The callback of [removeAsync]. *)
Definition removeCallback (config_ : NvmConfig) (addr : Z) (st : Status) : M Shard unit :=
  let! g := onDelContexts (ContextMap.destroyContext addr) in
  do! onTombstones (TombStones.destroyGuard g) in
  if removed_status st then ret tt else disableNavy config_.

Definition callback (config_ : NvmConfig) (j : Job) (st : Status) : M Shard unit :=
  match j with
  | JInsert _ a _ => insertCallback config_ a st
  | JRemove _ a => removeCallback config_ a st
  end.

(** ** Interleavings *)

Inductive Proc : Type := ProcPut (p : PutProc) | ProcRem (r : RemProc) | ProcFind (f : FindProc).

Record World : Type := mkWorld { shard : Shard; procs : gmap Z Proc }.

Definition navy (w : World) : Navy := navyCache_ (shard w).

Definition set_navy (n : Navy) (w : World) : World :=
  mkWorld (snd (onNavy (modify (fun _ => n)) (shard w))) (procs w).

Definition no_shard : Shard := mkShard ∅ ∅ ∅ ∅ true (mkNavy ∅ [] []).

(** A thread whose delete has been processed is done. *)
Definition finish (j : Job) (ps : gmap Z Proc) : gmap Z Proc :=
  match j with
  | JInsert _ _ _ => ps
  | JRemove _ a => alter (fun p => match p with ProcRem r => ProcRem (rem_at (RemDone false) r) | _ => p end) a ps
  end.

Section interleavings.
Context {config_ : NvmConfig}.

(** The interleavings, in any configuration. The function a token is acquired
    with may succeed or throw: in the second case the exception leaves
    [tryAcquireToken] and the key stays in the map of puts in flight. *)
Inductive step : World -> World -> Prop :=
| step_acquire w tid key item owns_lock fnRet tok s' :
    procs w !! tid = None ->
    onPuts (InFlightPuts.tryAcquireToken owns_lock key (ret fnRet)) tt (shard w) = (Ok (inl tok, tt), s') ->
    step w (mkWorld s' (<[tid := ProcPut (mkPut key item tok PutStart)]> (procs w)))
| step_acquire_throws w key owns_lock e e' s' :
    onPuts (InFlightPuts.tryAcquireToken owns_lock key (throw e)) tt (shard w) = (Throw e', s') ->
    step w (mkWorld s' (procs w))
| step_no_token w tid key item :
    procs w !! tid = None ->
    step w (mkWorld (shard w) (<[tid := ProcPut (mkPut key item None PutStart)]> (procs w)))
| step_put w tid accept p p' s' :
    procs w !! tid = Some (ProcPut p) -> putStep tid accept p (shard w) = (Ok p', s') ->
    step w (mkWorld s' (<[tid := ProcPut p']> (procs w)))
| step_new_rem w tid key :
    procs w !! tid = None ->
    step w (mkWorld (shard w) (<[tid := ProcRem (mkRem key None RemCreate ∅)]> (procs w)))
| step_rem w tid could r r' s' :
    procs w !! tid = Some (ProcRem r) -> (is_Some (content (navy w) !! r_key r) -> could = true) ->
    remStep tid could (dom (procs w)) r (shard w) = (Ok r', s') ->
    step w (mkWorld s' (<[tid := ProcRem r']> (procs w)))
| step_new_find w tid key :
    procs w !! tid = None ->
    step w (mkWorld (shard w) (<[tid := ProcFind (mkFind key FindStart ∅)]> (procs w)))
| step_find w tid could inRam filling f f' s' :
    procs w !! tid = Some (ProcFind f) -> (is_Some (content (navy w) !! f_key f) -> could = true) ->
    findStep could inRam filling (dom (procs w)) f (shard w) = (Ok f', s') ->
    step w (mkWorld s' (<[tid := ProcFind f']> (procs w)))
| step_exec w q1 j q2 st c' :
    queue (navy w) = q1 ++ j :: q2 -> (forall j', j' ∈ q1 -> job_key j' <> job_key j) ->
    job_effect j st (content (navy w)) c' ->
    step w (set_navy (mkNavy c' (q1 ++ q2) (completing (navy w) ++ [(j, st)])) w)
| step_callback w c1 j st c2 s' :
    completing (navy w) = c1 ++ (j, st) :: c2 ->
    callback config_ j st (shard (set_navy (mkNavy (content (navy w)) (queue (navy w)) (c1 ++ c2)) w)) = (Ok tt, s') ->
    step w (mkWorld s' (finish j (procs w)))
| step_evict w key :
    step w (set_navy (mkNavy (delete key (content (navy w))) (queue (navy w)) (completing (navy w))) w)
| step_disable w : step w (mkWorld (snd (disableNavy config_ (shard w))) (procs w)).

Definition initial : World := mkWorld no_shard ∅.

Definition reachable : World -> Prop := rtc step initial.
End interleavings.
