(* ===== verification/NvmCacheProofs.v ===== *)
(** * The NVM cache: the invariant of a shard

    What holds in every interleaving: who holds a token, which jobs are
    queued and by whom, and how far a delete or a find that has invalidated
    the token of its key has got rid of the puts that are older than it. *)

From S2P Require Import Prelude Bytes BigHash NvmCache.
From stdpp Require Import base tactics numbers list gmap.

#[local] Open Scope Z_scope.

(** ** Predicates *)

Definition inflight (w : World) : InFlightPuts.t := inflightPuts_ (shard w).
Definition all_jobs (w : World) : list Job := queue (navy w) ++ (completing (navy w)).*1.

Definition holds_token (w : World) (tid : Z) (k : nkey) : Prop :=
  exists p, procs w !! tid = Some (ProcPut p) /\ p_token p = Some k.

(** The tokens of [k] held by the threads of [O] are invalid. *)
Definition dead (O : gset Z) (k : nkey) (w : World) : Prop :=
  forall p, p ∈ O -> holds_token w p k -> inflight w !! k = Some false.

(** None of [O] has an insert of [k] in these jobs. *)
Definition none_of (O : gset Z) (k : nkey) (q : list Job) : Prop :=
  forall p v, p ∈ O -> JInsert k p v ∉ q.

(** What is stored under [k], now and after the jobs queued, is not from [O]. *)
Definition cleared (O : gset Z) (k : nkey) (w : World) : Prop :=
  none_of O k (queue (navy w)) /\
  forall nv, content (navy w) !! k = Some nv -> nv_put nv ∉ O.

(** The delete of [tid] is queued after every insert of [k] by [O], or has
    run. *)
Definition deleting (O : gset Z) (k : nkey) (tid : Z) (w : World) : Prop :=
  (exists q1 q2, queue (navy w) = q1 ++ JRemove k tid :: q2 /\ none_of O k q2) \/
  (exists st, (JRemove k tid, st) ∈ completing (navy w) /\ (removed_status st = true -> cleared O k w)).

Definition enabled (w : World) : bool := navyEnabled_ (shard w).

Ltac run_shard :=
  unfold bind, ret, throw, get, modify, onPutContexts, onDelContexts, onTombstones, onPuts, onNavy,
    InFlightPuts.onKeys, InFlightPuts.onClient in *; simpl in *.

Section proofs.
Context {config_ : NvmConfig}.

Definition rem_ok (w : World) (tid : Z) (r : RemProc) : Prop :=
  let O := r_older r in
  let k := r_key r in
  match r_pc r with
  | RemCreate | RemStart | RemInvalidate => True
  | RemHasContexts | RemContext | RemEnqueue => dead O k w
  | RemCouldExist => dead O k w /\ none_of O k (queue (navy w))
  | RemQueued => dead O k w /\ deleting O k tid w
  | RemDropTomb b | RemDone b =>
      (b = false /\ (disableNvmCacheOnBadState config_ = true -> enabled w = false)) \/ (dead O k w /\ cleared O k w)
  end.

Definition find_ok (w : World) (f : FindProc) : Prop :=
  let O := f_older f in
  let k := f_key f in
  match f_pc f with
  | FindStart | FindInvalidate | FindReturned | FindWait => True
  | FindCheck _ | FindHasContexts _ => dead O k w
  | FindCouldExist _ => dead O k w /\ none_of O k (queue (navy w))
  | FindFastMiss => dead O k w /\ cleared O k w
  end.

(** The put has been queued. *)
Definition enq (p : PutProc) : Prop :=
  p_pc p = PutExit PutEnqueued \/ p_pc p = PutDone PutEnqueued.

(** When a put that is not queued has its context. *)
Definition put_ctx (ctxs : gmap Z nkey) (tid : Z) (p : PutProc) : Prop :=
  match p_pc p with
  | PutStart | PutTomb | PutMake => ctxs !! tid = None
  | PutExec _ => is_Some (ctxs !! tid)
  | PutCleanup o => is_Some (ctxs !! tid) /\ o <> PutEnqueued
  | PutExit _ | PutDone _ => enq p \/ ctxs !! tid = None
  end.

Definition proc_ok (w : World) (tid : Z) (pr : Proc) : Prop :=
  match pr with
  | ProcPut p => (p_token p = None \/ p_token p = Some (p_key p)) /\
                 put_ctx (putContexts_ (shard w)) tid p
  | ProcRem r => r_older r ⊆ dom (procs w) /\ rem_ok w tid r
  | ProcFind f => f_older f ⊆ dom (procs w) /\ find_ok w f
  end.

Definition job_owner (w : World) (j : Job) : Prop :=
  match j with
  | JInsert k a v => exists p, procs w !! a = Some (ProcPut p) /\ p_key p = k /\ p_token p = None /\
      enq p /\ is_Some (putContexts_ (shard w) !! a)
  | JRemove k a => exists r, procs w !! a = Some (ProcRem r) /\ r_key r = k /\ r_pc r = RemQueued
  end.

Record inv (w : World) : Prop := {
  inv_token_in tid k : holds_token w tid k -> is_Some (inflight w !! k);
  inv_token_unique t1 t2 k : holds_token w t1 k -> holds_token w t2 k -> t1 = t2;
  inv_jobs : NoDup (job_addr <$> all_jobs w);
  inv_owner j : j ∈ all_jobs w -> job_owner w j;
  inv_ctx tid : procs w !! tid = None -> putContexts_ (shard w) !! tid = None;
  inv_proc tid pr : procs w !! tid = Some pr -> proc_ok w tid pr
}.

(** ** How a step by thread [a] changes what others rely on *)

Record evolves (a : Z) (w w' : World) : Prop := {
  ev_dom : dom (procs w) ⊆ dom (procs w');
  ev_ctx tid : tid <> a -> putContexts_ (shard w') !! tid = putContexts_ (shard w) !! tid;
  ev_off : enabled w = false -> enabled w' = false;
  ev_dead O k : O ⊆ dom (procs w) -> dead O k w -> dead O k w';
  ev_none O k : O ⊆ dom (procs w) -> dead O k w ->
    none_of O k (queue (navy w)) -> none_of O k (queue (navy w'));
  ev_cleared O k : O ⊆ dom (procs w) -> dead O k w -> cleared O k w -> cleared O k w';
  ev_deleting O k tid : O ⊆ dom (procs w) -> tid <> a -> dead O k w ->
    deleting O k tid w -> deleting O k tid w'
}.

Lemma proc_ok_evolves (a : Z) (w w' : World) (tid : Z) (pr : Proc) :
  evolves a w w' -> tid <> a -> proc_ok w tid pr -> proc_ok w' tid pr.
Proof.
  intros [Hdom Hctx Hoff Hdead Hnone Hcl Hdel] Hne. destruct pr as [p|r|f]; simpl.
  - unfold put_ctx. by rewrite (Hctx tid Hne).
  - intros [HO Hr]. split; [set_solver|]. unfold rem_ok in *.
    destruct (r_pc r); try done; try (by apply Hdead).
    + destruct Hr. split; [by apply Hdead|by apply Hnone].
    + destruct Hr. split; [by apply Hdead|by apply Hdel].
    + destruct Hr as [[? ?]|[? ?]]; [left; auto|right; auto].
    + destruct Hr as [[? ?]|[? ?]]; [left; auto|right; auto].
  - intros [HO Hf]. split; [set_solver|]. unfold find_ok in *.
    destruct (f_pc f); try done; try (by apply Hdead); destruct Hf; auto.
Qed.

Lemma none_of_app (O : gset Z) (k : nkey) (q1 q2 : list Job) :
  none_of O k (q1 ++ q2) <-> none_of O k q1 /\ none_of O k q2.
Proof.
  unfold none_of. split.
  - intros Hx. split; intros p v Hp Hin; apply (Hx p v Hp), elem_of_app; auto.
  - intros [H1 H2] p v Hp [Hin|Hin]%elem_of_app; [by apply (H1 p v)|by apply (H2 p v)].
Qed.

Lemma none_of_cons (O : gset Z) (k : nkey) (j : Job) (q : list Job) :
  none_of O k (j :: q) <-> (forall p v, p ∈ O -> j <> JInsert k p v) /\ none_of O k q.
Proof.
  unfold none_of. split.
  - intros Hx. split; intros p v Hp Hin; apply (Hx p v Hp), elem_of_cons; auto.
  - intros [H1 H2] p v Hp [Hin|Hin]%elem_of_cons; [by apply (H1 p v)|by apply (H2 p v)].
Qed.

(** A step that leaves Navy alone and takes no token away from others. *)
Lemma evolves_same_navy (a : Z) (w w' : World) :
  navy w' = navy w -> dom (procs w) ⊆ dom (procs w') ->
  (forall tid, tid <> a -> putContexts_ (shard w') !! tid = putContexts_ (shard w) !! tid) ->
  (enabled w = false -> enabled w' = false) ->
  (forall O k, O ⊆ dom (procs w) -> dead O k w -> dead O k w') -> evolves a w w'.
Proof.
  intros Hn Hdom Hctx Hoff Hdead.
  assert (Hcl : forall O k, cleared O k w' <-> cleared O k w) by (intros; unfold cleared; by rewrite Hn).
  constructor; try done.
  - intros O k _ _. by rewrite Hn.
  - intros O k _ _. by apply Hcl.
  - intros O k tid _ _ _. unfold deleting. rewrite Hn. by setoid_rewrite Hcl.
Qed.

(** A step that adds a job which is not an insert by an older put. *)
Lemma evolves_enqueue (a : Z) (w w' : World) (j : Job) :
  navy w' = mkNavy (content (navy w)) (queue (navy w) ++ [j]) (completing (navy w)) ->
  dom (procs w) ⊆ dom (procs w') ->
  (forall tid, tid <> a -> putContexts_ (shard w') !! tid = putContexts_ (shard w) !! tid) ->
  (enabled w = false -> enabled w' = false) ->
  (forall O k, O ⊆ dom (procs w) -> dead O k w -> dead O k w' /\
     forall p v, p ∈ O -> j <> JInsert k p v) -> evolves a w w'.
Proof.
  intros Hn Hdom Hctx Hoff Hd.
  assert (Hone : forall O k, O ⊆ dom (procs w) -> dead O k w -> none_of O k [j]).
  { intros O k HO Hdd. apply none_of_cons. split; [by apply (Hd O k)|].
    intros ? ? _. apply not_elem_of_nil. }
  assert (Hcl : forall O k, O ⊆ dom (procs w) -> dead O k w -> cleared O k w -> cleared O k w').
  { intros O k HO Hdd [H1 H2]. split; rewrite Hn; simpl; [|done]. apply none_of_app. auto. }
  constructor; try done.
  - intros O k HO Hdd. by apply Hd.
  - intros O k HO Hdd H1. rewrite Hn. simpl. apply none_of_app. auto.
  - intros O k tid HO _ Hdd [(q1 & q2 & E & H1)|(st & Hin & H1)].
    + left. exists q1, (q2 ++ [j]). rewrite Hn. simpl. rewrite E, <- app_assoc. split; [done|].
      apply none_of_app. auto.
    + right. exists st. split; [by rewrite Hn|auto].
Qed.

(** ** Building the invariant after a step *)

Lemma inv_step (a : Z) (w w' : World) (pr : Proc) :
  inv w -> procs w' = <[a := pr]> (procs w) -> evolves a w w' ->
  (forall tid k, holds_token w' tid k -> is_Some (inflight w' !! k)) ->
  (forall t1 t2 k, holds_token w' t1 k -> holds_token w' t2 k -> t1 = t2) ->
  NoDup (job_addr <$> all_jobs w') -> (forall j, j ∈ all_jobs w' -> job_owner w' j) ->
  proc_ok w' a pr -> inv w'.
Proof.
  intros Hi Hp Hev H1 H2 H3 H4 H5. constructor; try done;
    intros tid; rewrite Hp; (destruct (decide (tid = a)) as [->|Hne];
    [rewrite lookup_insert_eq by done|]).
  - done.
  - rewrite lookup_insert_ne, (ev_ctx _ _ _ Hev) by done. apply Hi.
  - by intros pr' [= <-].
  - intros pr'. rewrite lookup_insert_ne by done. intros Hl.
    eapply proc_ok_evolves; [exact Hev|done|]. by apply (inv_proc w Hi).
Qed.

(** Tokens after a step of [a]: those of the others are unchanged. *)
Lemma holds_token_other (a : Z) (w w' : World) (pr : Proc) (tid : Z) (k : nkey) :
  procs w' = <[a := pr]> (procs w) -> tid <> a -> holds_token w' tid k <-> holds_token w tid k.
Proof. intros Hp Hne. unfold holds_token. by rewrite Hp, lookup_insert_ne by done. Qed.

Lemma job_owner_other (a : Z) (w w' : World) (pr : Proc) (j : Job) :
  procs w' = <[a := pr]> (procs w) -> job_addr j <> a ->
  putContexts_ (shard w') !! job_addr j = putContexts_ (shard w) !! job_addr j ->
  job_owner w j -> job_owner w' j.
Proof.
  intros Hp Hne Hc. destruct j; simpl in *; rewrite Hp, lookup_insert_ne by done; [by rewrite Hc|done].
Qed.

(** When the thread that steps has no token before and after, or keeps its
    token, and the map of tokens is unchanged. *)
Lemma tokens_kept (a : Z) (w w' : World) (pr : Proc) :
  inv w -> procs w' = <[a := pr]> (procs w) -> inflight w' = inflight w ->
  (forall k, holds_token w' a k -> holds_token w a k) ->
  (forall tid k, holds_token w' tid k -> is_Some (inflight w' !! k)) /\
  (forall t1 t2 k, holds_token w' t1 k -> holds_token w' t2 k -> t1 = t2) /\
  (forall O k, O ⊆ dom (procs w) -> dead O k w -> dead O k w').
Proof.
  intros Hi Hp Hin Ha.
  assert (Hall : forall tid k, holds_token w' tid k -> holds_token w tid k).
  { intros tid k. destruct (decide (tid = a)) as [->|Hne]; [apply Ha|].
    by apply (holds_token_other a w w' pr). }
  split_and!.
  - intros tid k Ht. rewrite Hin. by eapply (inv_token_in w Hi), Hall.
  - intros t1 t2 k H1 H2. eapply (inv_token_unique w Hi); by apply Hall.
  - intros O k _ Hd p Hp' Ht. rewrite Hin. by apply (Hd p); [|apply Hall].
Qed.

(** When the token of [k0], held by the stepping thread alone, goes. *)
Lemma tokens_dropped (a : Z) (w w' : World) (pr : Proc) (k0 : nkey) :
  inv w -> procs w' = <[a := pr]> (procs w) -> holds_token w a k0 ->
  inflight w' = delete k0 (inflight w) -> (forall k, ~ holds_token w' a k) ->
  (forall tid k, holds_token w' tid k -> is_Some (inflight w' !! k)) /\
  (forall t1 t2 k, holds_token w' t1 k -> holds_token w' t2 k -> t1 = t2) /\
  (forall O k, O ⊆ dom (procs w) -> dead O k w -> dead O k w').
Proof.
  intros Hi Hp Hown Hin Ha.
  assert (Hall : forall tid k, holds_token w' tid k -> holds_token w tid k /\ k <> k0).
  { intros tid k Ht. destruct (decide (tid = a)) as [->|Hne]; [by apply Ha in Ht|].
    apply (holds_token_other a w w' pr) in Ht; [|done..]. split; [done|]. intros ->.
    by apply Hne, (inv_token_unique w Hi _ _ k0). }
  split_and!.
  - intros tid k Ht. destruct (Hall _ _ Ht) as [Ht' Hk]. rewrite Hin, lookup_delete_ne by done.
    by eapply (inv_token_in w Hi).
  - intros t1 t2 k H1 H2. eapply (inv_token_unique w Hi); by apply Hall.
  - intros O k _ Hd p Hp' Ht. destruct (Hall _ _ Ht) as [Ht' Hk].
    rewrite Hin, lookup_delete_ne by done. by apply (Hd p).
Qed.

(** ** The steps of [put] *)

(** What a step of a put does to tokens and Navy: nothing, it gives up its
    token, or it queues its insert on a valid token. *)
Definition put_effect (tid : Z) (p p' : PutProc) (s s' : Shard) : Prop :=
  (inflightPuts_ s' = inflightPuts_ s /\ navyCache_ s' = navyCache_ s /\ p_token p' = p_token p) \/
  exists k0, p_token p = Some k0 /\ p_token p' = None /\
    inflightPuts_ s' = delete k0 (inflightPuts_ s) /\
    (navyCache_ s' = navyCache_ s \/
     exists v, inflightPuts_ s !! k0 = Some true /\ p_pc p = PutExec v /\ enq p' /\
       putContexts_ s' = putContexts_ s /\
       navyCache_ s' = mkNavy (content (navyCache_ s))
                         (queue (navyCache_ s) ++ [JInsert (p_key p) tid v])
                         (completing (navyCache_ s))).

Lemma execute_cases (tid : Z) (accept : bool) (tok : InFlightPuts.PutToken) (k : nkey) (v : bytes)
    (i : Item) (s s' : Shard) x :
  onPuts (InFlightPuts.tokenExecute tok (insertFn accept k tid v)) (i, false) s = (Ok x, s') ->
  (s' = s /\ x = (tok, false, (i, false))) \/
  exists k0, tok = Some k0 /\ inflightPuts_ s !! k0 = Some true /\
    s' = mkShard (tombstones_ s) (delete k0 (inflightPuts_ s)) (putContexts_ s) (delContexts_ s)
           (navyEnabled_ s)
           (if accept then mkNavy (content (navyCache_ s)) (queue (navyCache_ s) ++ [JInsert k tid v])
                             (completing (navyCache_ s))
            else navyCache_ s) /\
    fst x = (None, true) /\ snd (snd x) = accept.
Proof.
  destruct s as [ts pu pc dc en na]. unfold InFlightPuts.tokenExecute. destruct tok as [k0|].
  - unfold InFlightPuts.executeIfValid. run_shard. case_bool_decide as Hv.
    + unfold insertFn, insertAsync, enqueue. run_shard. intros Hr. right. exists k0.
      destruct accept; simpl in Hr; by injection Hr as <- <-.
    + intros [= <- <-]. by left.
  - run_shard. intros [= <- <-]. by left.
Qed.

Lemma putStep_inv (tid : Z) (accept : bool) (p p' : PutProc) (s s' : Shard) :
  putStep tid accept p s = (Ok p', s') ->
  p_key p' = p_key p /\ navyEnabled_ s' = navyEnabled_ s /\
  (forall t, t <> tid -> putContexts_ s' !! t = putContexts_ s !! t) /\
  (enq p -> enq p' /\ putContexts_ s' = putContexts_ s) /\
  (put_ctx (putContexts_ s) tid p -> put_ctx (putContexts_ s') tid p') /\
  put_effect tid p p' s s'.
Proof.
  destruct p as [k i tok pc]. unfold putStep, put_effect, put_ctx, enq. cbn [p_pc p_item p_key p_token].
  destruct pc as [| | |v|o|o|o]; cbn [put_at p_pc p_item p_key p_token].
  - run_shard. repeat case_match; intros [= <- <-]; simpl; naive_solver.
  - run_shard. case_match; intros [= <- <-]; simpl; naive_solver.
  - destruct (nvmItem i) as [v|]; [|intros [= <- <-]; simpl; naive_solver].
    unfold ContextMap.createContext. run_shard. destruct (putContexts_ s !! tid) eqn:E; [done|].
    intros [= <- <-]. simpl. split_and!; try done; [|naive_solver| |by left].
    + intros t Ht. by rewrite lookup_insert_ne.
    + intros _. by rewrite lookup_insert_eq.
  - unfold bind at 1. destruct (onPuts _ _ s) as [[x|e] s1] eqn:E; [|done].
    apply execute_cases in E. destruct x as [[tk ex] [it dis]]. unfold ret. intros [= <- <-]. simpl.
    destruct E as [[-> [= -> -> -> ->]]|(k0 & -> & Hv & -> & [= -> ->] & Hdis)].
    + split_and!; try done; [naive_solver|by left].
    + simpl in Hdis. subst dis. split_and!; try done; [naive_solver| |].
      * intros Hs. destruct accept; [by left; left|done].
      * right. exists k0. split_and!; try done. simpl. destruct accept; [|by left].
        right. exists v. split_and!; try done. by left.
  - unfold ContextMap.destroyContext. run_shard. destruct (putContexts_ s !! tid) eqn:E; [|done].
    intros [= <- <-]. simpl. split_and!; try done; [|naive_solver| |by left].
    + intros t Ht. by rewrite lookup_delete_ne.
    + intros [_ Ho]. right. by rewrite lookup_delete_eq.
  - destruct tok as [k0|]; unfold InFlightPuts.destroyToken, InFlightPuts.removeToken; run_shard;
      intros [= <- <-]; simpl; split_and!; try done; try naive_solver.
  - done.
Qed.

(** A job of a thread that is not queued does not exist. *)
Lemma no_job_of (w : World) (tid : Z) (p : PutProc) (j : Job) :
  inv w -> procs w !! tid = Some (ProcPut p) -> ~ enq p -> j ∈ all_jobs w -> job_addr j <> tid.
Proof.
  intros Hi Hp Hne Hj Ha. pose proof (inv_owner w Hi j Hj) as Ho. destruct j; simpl in *; subst.
  - destruct Ho as (p' & E & _ & _ & Henq & _). rewrite Hp in E. by simplify_eq.
  - destruct Ho as (r & E & _). by rewrite Hp in E.
Qed.

Lemma dom_insert_sub (a : Z) (pr : Proc) (ps : gmap Z Proc) : dom ps ⊆ dom (<[a := pr]> ps).
Proof. rewrite dom_insert. set_solver. Qed.

Lemma all_jobs_enqueue (w w' : World) (j : Job) :
  navy w' = mkNavy (content (navy w)) (queue (navy w) ++ [j]) (completing (navy w)) ->
  all_jobs w' ≡ₚ j :: all_jobs w.
Proof. intros Hn. unfold all_jobs. rewrite Hn. simpl. rewrite <- app_assoc. simpl. by rewrite <- Permutation_middle. Qed.

Lemma inv_put (w : World) (tid : Z) (accept : bool) (p p' : PutProc) (s' : Shard) :
  inv w -> procs w !! tid = Some (ProcPut p) -> putStep tid accept p (shard w) = (Ok p', s') ->
  inv (mkWorld s' (<[tid := ProcPut p']> (procs w))).
Proof.
  intros Hi Hp E. destruct (putStep_inv _ _ _ _ _ _ E) as (Hk & Hen & Hctx & Henq & Hpc & Heff).
  destruct (inv_proc w Hi tid _ Hp) as [Htok Hput]. specialize (Hpc Hput).
  set (w' := mkWorld s' (<[tid := ProcPut p']> (procs w))).
  assert (Hps : procs w' = <[tid := ProcPut p']> (procs w)) by done.
  assert (Hoff : enabled w = false -> enabled w' = false) by (unfold enabled; simpl; by rewrite Hen).
  assert (Hme' : forall k, holds_token w' tid k -> p_token p' = Some k).
  { intros k (q & Hq & Hqt). rewrite Hps, lookup_insert_eq in Hq. by simplify_eq. }
  assert (Hme : forall k, p_token p = Some k -> holds_token w tid k) by (intros k Hkk; by exists p).
  assert (Howner : forall j, j ∈ all_jobs w -> job_owner w' j).
  { intros j Hj. pose proof (inv_owner w Hi j Hj) as Ho.
    destruct (decide (job_addr j = tid)) as [Ha|Ha];
      [|by eapply job_owner_other; [done|done|by apply Hctx|]].
    destruct j as [kj aj vj|kj aj]; simpl in *; subst aj.
    - destruct Ho as (q & Hq & Hqk & Hqt & Hqe & Hqc). rewrite Hp in Hq. simplify_eq.
      destruct (Henq Hqe) as [He' Hcc]. exists p'. rewrite lookup_insert_eq, Hcc. split_and!; try done.
      destruct Heff as [(_ & _ & ->)|(k0 & Hx & _)]; [done|congruence].
    - destruct Ho as (r & Hr & _). by rewrite Hp in Hr. }
  destruct Heff as [(E1 & E2 & E3)|(k0 & E1 & E2 & E3 & Hn)].
  - destruct (tokens_kept tid w w' _ Hi Hps E1) as (T1 & T2 & T3).
    { intros k Hx. apply Hme. rewrite <- E3. by apply Hme'. }
    assert (Hj : all_jobs w' = all_jobs w) by (unfold all_jobs, navy; simpl; by rewrite E2).
    apply (inv_step tid w w' _ Hi Hps); try done.
    + apply evolves_same_navy; try done. apply dom_insert_sub.
    + rewrite Hj. apply Hi.
    + by rewrite Hj.
    + split; [by rewrite E3, Hk|done].
  - destruct (tokens_dropped tid w w' _ k0 Hi Hps (Hme k0 E1) E3) as (T1 & T2 & T3).
    { intros k Hx%Hme'. congruence. }
    assert (Hok' : proc_ok w' tid (ProcPut p')) by (split; [by left|done]).
    destruct Hn as [Hn|(v & Hv & Hpc0 & Henq' & Hcc & Hn)].
    + assert (Hj : all_jobs w' = all_jobs w) by (unfold all_jobs, navy; simpl; by rewrite Hn).
      apply (inv_step tid w w' _ Hi Hps); try done.
      * apply evolves_same_navy; try done. apply dom_insert_sub.
      * rewrite Hj. apply Hi.
      * by rewrite Hj.
    + assert (Hk0 : k0 = p_key p) by naive_solver.
      assert (Hnenq : ~ enq p) by (unfold enq; rewrite Hpc0; naive_solver).
      pose proof (all_jobs_enqueue w w' _ Hn) as Hj.
      apply (inv_step tid w w' _ Hi Hps); try done.
      * eapply evolves_enqueue; try done; [apply dom_insert_sub|].
        intros O k HO Hd. split; [by apply T3|]. intros q v' Hq [= Hq1 <- _].
        assert (Hdd : inflight w !! k = Some false) by (apply (Hd tid Hq), Hme; congruence).
        unfold inflight in Hdd. congruence.
      * rewrite Hj. apply NoDup_cons. split; [|apply Hi]. simpl.
        intros (j & Hja & Hjin)%list_elem_of_fmap. by eapply (no_job_of w tid p j Hi Hp).
      * intros j. rewrite Hj, elem_of_cons. intros [->|Hin]; [|by apply Howner].
        exists p'. rewrite Hps, lookup_insert_eq. simpl. rewrite Hcc. split_and!; try done.
        unfold put_ctx in Hput. by rewrite Hpc0 in Hput.
Qed.

(** ** New threads *)

Lemma inv_new (w : World) (tid : Z) (pr : Proc) :
  inv w -> procs w !! tid = None ->
  match pr with
  | ProcPut p => p_token p = None /\ p_pc p = PutStart
  | ProcRem r => r_older r = ∅ /\ r_pc r = RemCreate
  | ProcFind f => f_older f = ∅ /\ f_pc f = FindStart
  end ->
  inv (mkWorld (shard w) (<[tid := pr]> (procs w))).
Proof.
  intros Hi Hf Hpr. set (w' := mkWorld (shard w) (<[tid := pr]> (procs w))).
  assert (Hps : procs w' = <[tid := pr]> (procs w)) by done.
  destruct (tokens_kept tid w w' pr Hi Hps) as (T1 & T2 & T3); [done| |].
  { intros k (q & Hq & Ht). rewrite Hps, lookup_insert_eq in Hq. injection Hq as ->.
    destruct Hpr. congruence. }
  apply (inv_step tid w w' pr Hi Hps); try done.
  - apply evolves_same_navy; try done. apply dom_insert_sub.
  - apply Hi.
  - intros j Hj. eapply job_owner_other; [exact Hps| |done|by apply (inv_owner w Hi)].
    intros Ha. pose proof (inv_owner w Hi j Hj) as Ho. destruct j; simpl in *; subst;
      destruct Ho as (? & Ho & _); congruence.
  - destruct pr as [p|r|f]; destruct Hpr as [E1 E2].
    + split; [by left|]. unfold put_ctx. rewrite E2. by apply (inv_ctx w Hi).
    + split; [rewrite E1; set_solver|]. unfold rem_ok. by rewrite E2.
    + split; [rewrite E1; set_solver|]. unfold find_ok. by rewrite E2.
Qed.

Lemma inv_acquire (w : World) (tid : Z) (key : nkey) (item : Item) (owns fnRet : bool) tok (s' : Shard) :
  inv w -> procs w !! tid = None ->
  onPuts (InFlightPuts.tryAcquireToken owns key (ret fnRet)) tt (shard w) = (Ok (inl tok, tt), s') ->
  inv (mkWorld s' (<[tid := ProcPut (mkPut key item tok PutStart)]> (procs w))).
Proof.
  intros Hi Hf. unfold InFlightPuts.tryAcquireToken. run_shard. destruct owns; [|done]. simpl.
  destruct (inflightPuts_ (shard w) !! key) eqn:Hk; [done|]. destruct fnRet; simpl; [|done].
  intros [= <- <-].
  match goal with |- inv ?x => set (w' := x) end.
  set (pr := ProcPut (mkPut key item (Some key) PutStart)) in *.
  assert (Hps : procs w' = <[tid := pr]> (procs w)) by done.
  assert (Hno : forall t, ~ holds_token w t key).
  { intros t Ht%(inv_token_in w Hi). unfold inflight in Ht. rewrite Hk in Ht. by destruct Ht. }
  assert (Hme : forall k, holds_token w' tid k -> k = key).
  { intros k (q & Hq & Hqt). rewrite Hps, lookup_insert_eq in Hq. injection Hq as <-. simpl in Hqt. congruence. }
  assert (Hoth : forall t k, holds_token w' t k -> t = tid /\ k = key \/
                   t <> tid /\ holds_token w t k /\ k <> key).
  { intros t k Ht. destruct (decide (t = tid)) as [->|Hne]; [left; auto|right].
    apply (holds_token_other tid w w' pr) in Ht; [|done..]. split_and!; [done|done|].
    intros ->. by apply (Hno t). }
  apply (inv_step tid w w' pr Hi Hps).
  - apply evolves_same_navy; try done; [apply dom_insert_sub|].
    intros O k HO Hd p Hp Ht. destruct (Hoth _ _ Ht) as [[-> _]|(_ & Ht' & Hne)].
    + apply HO, elem_of_dom in Hp. rewrite Hf in Hp. by destruct Hp.
    + unfold inflight. simpl. rewrite lookup_insert_ne by done. by apply (Hd p).
  - intros t k Ht. unfold inflight. simpl. destruct (Hoth _ _ Ht) as [[_ ->]|(_ & Ht' & Hne)].
    + rewrite lookup_insert_eq. eauto.
    + rewrite lookup_insert_ne by done. by eapply (inv_token_in w Hi).
  - intros t1 t2 k H1 H2.
    destruct (Hoth _ _ H1) as [[-> ->]|(_ & Ht1 & Hk1)], (Hoth _ _ H2) as [[-> ?]|(_ & Ht2 & Hk2)]; try done.
    by eapply (inv_token_unique w Hi).
  - apply Hi.
  - intros j Hj. eapply job_owner_other; [exact Hps| |done|by apply (inv_owner w Hi)].
    intros Ha. pose proof (inv_owner w Hi j Hj) as Ho. destruct j; simpl in *; subst;
      destruct Ho as (? & Ho & _); congruence.
  - split; [by right|]. unfold put_ctx. simpl. by apply (inv_ctx w Hi).
Qed.

(** ** The steps of [remove] and [find] *)

Definition is_put (pr : Proc) : Prop := match pr with ProcPut _ => True | _ => False end.
Definition is_queued (pr : Proc) : Prop := match pr with ProcRem r => r_pc r = RemQueued | _ => False end.

Definition invalidate (k : nkey) (t : InFlightPuts.t) : InFlightPuts.t :=
  match t !! k with Some _ => <[k := false]> t | None => t end.

Lemma invalidate_same (k : nkey) (t : InFlightPuts.t) : is_Some (t !! k) -> invalidate k t !! k = Some false.
Proof. unfold invalidate. intros [b ->]. by rewrite lookup_insert_eq. Qed.

Lemma invalidate_other (k k' : nkey) (t : InFlightPuts.t) : k <> k' -> invalidate k t !! k' = t !! k'.
Proof. intros. unfold invalidate. destruct (t !! k); [by rewrite lookup_insert_ne|done]. Qed.

Lemma no_job_other (w : World) (a : Z) (pr : Proc) (j : Job) :
  inv w -> procs w !! a = Some pr -> ~ is_put pr -> ~ is_queued pr -> j ∈ all_jobs w -> job_addr j <> a.
Proof.
  intros Hi Hp Hput Hq Hj Ha. pose proof (inv_owner w Hi j Hj) as Ho. destruct j; simpl in *; subst.
  - destruct Ho as (p & E & _). rewrite Hp in E. injection E as ->. by apply Hput.
  - destruct Ho as (r & E & _ & Hpc). rewrite Hp in E. injection E as ->. by apply Hq.
Qed.

(** The tokens when a thread that is no put steps, leaving them or
    invalidating the one of [k0]. *)
Lemma tokens_stable (a : Z) (w w' : World) (pr : Proc) (k0 : nkey) :
  inv w -> procs w' = <[a := pr]> (procs w) -> ~ is_put pr ->
  inflight w' = inflight w \/ inflight w' = invalidate k0 (inflight w) ->
  (forall tid k, holds_token w' tid k -> is_Some (inflight w' !! k)) /\
  (forall t1 t2 k, holds_token w' t1 k -> holds_token w' t2 k -> t1 = t2) /\
  (forall O k, O ⊆ dom (procs w) -> dead O k w -> dead O k w') /\
  (inflight w' = invalidate k0 (inflight w) -> forall O, dead O k0 w').
Proof.
  intros Hi Hp Hput Hin.
  assert (Hall : forall tid k, holds_token w' tid k -> holds_token w tid k).
  { intros tid k. destruct (decide (tid = a)) as [->|Hne]; [|by apply (holds_token_other a w w' pr)].
    intros (q & Hq & _). rewrite Hp, lookup_insert_eq in Hq. injection Hq as ->. done. }
  assert (Hval : forall k, is_Some (inflight w !! k) ->
    inflight w' !! k = inflight w !! k \/ inflight w' !! k = Some false).
  { intros k Hk. destruct Hin as [->| ->]; [by left|]. destruct (decide (k0 = k)) as [->|].
    - right. by apply invalidate_same.
    - left. by apply invalidate_other. }
  split_and!.
  - intros tid k Ht%Hall%(inv_token_in w Hi). destruct (Hval k Ht) as [->| ->]; eauto.
  - intros t1 t2 k H1 H2. eapply (inv_token_unique w Hi); by apply Hall.
  - intros O k _ Hd p Hp' Ht%Hall. pose proof (Hd p Hp' Ht) as Hf.
    destruct (Hval k) as [->| ->]; eauto.
  - intros E O p _ Ht%Hall%(inv_token_in w Hi). rewrite E. by apply invalidate_same.
Qed.

Lemma inv_quiet (a : Z) (w : World) (s' : Shard) (pr pr' : Proc) (k0 : nkey) :
  inv w -> procs w !! a = Some pr -> ~ is_put pr -> ~ is_put pr' -> ~ is_queued pr ->
  navyCache_ s' = navyCache_ (shard w) -> putContexts_ s' = putContexts_ (shard w) ->
  navyEnabled_ s' = navyEnabled_ (shard w) ->
  inflightPuts_ s' = inflight w \/ inflightPuts_ s' = invalidate k0 (inflight w) ->
  (evolves a w (mkWorld s' (<[a := pr']> (procs w))) ->
   (inflightPuts_ s' = invalidate k0 (inflight w) -> forall O, dead O k0 (mkWorld s' (<[a := pr']> (procs w)))) ->
   proc_ok (mkWorld s' (<[a := pr']> (procs w))) a pr') ->
  inv (mkWorld s' (<[a := pr']> (procs w))).
Proof.
  intros Hi Ha Hput Hput' Hq Hn Hc He Hin Hok. set (w' := mkWorld s' (<[a := pr']> (procs w))) in *.
  assert (Hps : procs w' = <[a := pr']> (procs w)) by done.
  destruct (tokens_stable a w w' pr' k0 Hi Hps Hput' Hin) as (T1 & T2 & T3 & T4).
  assert (Hev : evolves a w w').
  { apply evolves_same_navy; try done; [apply dom_insert_sub| |].
    - intros t _. simpl. by rewrite Hc.
    - unfold enabled. simpl. by rewrite He. }
  assert (Hj : all_jobs w' = all_jobs w) by (unfold all_jobs, navy; simpl; by rewrite Hn).
  apply (inv_step a w w' pr' Hi Hps Hev); try done.
  - rewrite Hj. apply Hi.
  - intros j. rewrite Hj. intros Hin'. eapply job_owner_other; [exact Hps| | |by apply (inv_owner w Hi)].
    + by eapply (no_job_other w a pr).
    + simpl. by rewrite Hc.
  - by apply Hok.
Qed.

(** No context, no queued insert. *)
Lemma no_contexts (w : World) (O : gset Z) (k : nkey) :
  inv w -> ContextMap.hasContexts (putContexts_ (shard w)) = false -> none_of O k (queue (navy w)).
Proof.
  intros Hi Hc p v _ Hin. unfold ContextMap.hasContexts in Hc.
  apply negb_false_iff, bool_decide_eq_true in Hc.
  destruct (inv_owner w Hi (JInsert k p v)) as (q & _ & _ & _ & _ & Hctx).
  { apply elem_of_app. by left. }
  rewrite Hc, lookup_empty in Hctx. by destruct Hctx.
Qed.

Lemma not_stored (w : World) (O : gset Z) (k : nkey) (could : bool) :
  (is_Some (content (navy w) !! k) -> could = true) -> could = false ->
  none_of O k (queue (navy w)) -> cleared O k w.
Proof. intros Hc -> Hn. split; [done|]. intros nv E. rewrite E in Hc. by discriminate Hc. Qed.

Ltac quiet Hi Hp k :=
  eapply (inv_quiet _ _ _ _ _ k Hi Hp);
    [intros []|intros []|solve [intros [] | simpl; congruence]|reflexivity|reflexivity|reflexivity
    |first [by left | by right]|].

Lemma inv_find (w : World) (tid : Z) (could inRam filling : bool) (f f' : FindProc) (s' : Shard) :
  inv w -> procs w !! tid = Some (ProcFind f) -> (is_Some (content (navy w) !! f_key f) -> could = true) ->
  findStep could inRam filling (dom (procs w)) f (shard w) = (Ok f', s') ->
  inv (mkWorld s' (<[tid := ProcFind f']> (procs w))).
Proof.
  intros Hi Hp Hcould E. destruct (inv_proc w Hi tid _ Hp) as [HO Hok]. unfold find_ok in Hok.
  assert (Hdo : forall w', dom (procs w) ⊆ dom (procs w') -> f_older f ⊆ dom (procs w')) by set_solver.
  unfold findStep in E. destruct (f_pc f) eqn:Hpc.
  - unfold bind, get, ret in E. destruct (navyEnabled_ (shard w)); injection E as <- <-;
      (quiet Hi Hp (f_key f);
       intros Hev _; split; [apply Hdo, Hev|done]).
  - unfold InFlightPuts.invalidateToken in E. run_shard. injection E as <- <-.
    quiet Hi Hp (f_key f).
    intros Hev Hd. split; [apply Hev|]. by apply Hd.
  - assert (Hstep : forall pc, match pc with FindCheck _ | FindHasContexts _ | FindReturned | FindWait => True
                               | _ => False end ->
      inv (mkWorld (shard w) (<[tid := ProcFind (find_at pc f)]> (procs w)))).
    { intros pc Hpc'. quiet Hi Hp (f_key f).
      intros Hev _. split; [apply Hdo, Hev|]. unfold find_ok. destruct pc; try done; by apply Hev. }
    unfold find_next in E. unfold ret in E. destruct inRam; [|destruct filling]; injection E as <- <-;
      apply Hstep; try done. by destruct again.
  - unfold bind, get, ret in E. destruct (ContextMap.hasContexts _) eqn:Hc; injection E as <- <-;
      (quiet Hi Hp (f_key f);
       intros Hev _; split; [apply Hdo, Hev|]; unfold find_ok).
    + unfold find_next. destruct again; simpl; [done|by apply Hev].
    + simpl. split; [by apply Hev|]. eapply (no_contexts w) in Hc; [|done]. exact Hc.
  - destruct Hok as [Hd Hn]. unfold ret in E. destruct could eqn:Ec; injection E as <- <-;
      (quiet Hi Hp (f_key f);
       intros Hev _; split; [apply Hdo, Hev|]; unfold find_ok).
    + unfold find_next. destruct again; simpl; [done|by apply Hev].
    + simpl. split; [by apply Hev|]. apply Hev; try done. by eapply not_stored.
  - done.
  - done.
  - done.
Qed.

Lemma inv_rem_enqueue (w : World) (tid : Z) (r : RemProc) :
  inv w -> procs w !! tid = Some (ProcRem r) -> r_pc r = RemEnqueue ->
  inv (mkWorld (snd (onNavy (removeAsync (r_key r) tid) (shard w)))
               (<[tid := ProcRem (rem_at RemQueued r)]> (procs w))).
Proof.
  intros Hi Hp Hpc. destruct (inv_proc w Hi tid _ Hp) as [HO Hok]. unfold rem_ok in Hok.
  rewrite Hpc in Hok. match goal with |- inv ?x => set (w' := x) end.
  set (pr := ProcRem (rem_at RemQueued r)) in *.
  assert (Hps : procs w' = <[tid := pr]> (procs w)) by done.
  destruct (tokens_stable tid w w' pr (r_key r) Hi Hps) as (T1 & T2 & T3 & _); [by intros []|by left|].
  assert (Hn : navy w' = mkNavy (content (navy w)) (queue (navy w) ++ [JRemove (r_key r) tid])
                 (completing (navy w))) by done.
  assert (Hnone : forall j, j ∈ all_jobs w -> job_addr j <> tid).
  { intros j Hj. eapply (no_job_other w tid _ j Hi Hp); [by intros []|simpl; congruence|done]. }
  apply (inv_step tid w w' pr Hi Hps); try done.
  - apply (evolves_enqueue tid w w' _ Hn); try done; [apply dom_insert_sub|].
    intros O k HO' Hd. split; [by apply T3|done].
  - rewrite (all_jobs_enqueue w w' _ Hn). apply NoDup_cons. split; [|apply Hi].
    intros (j & Hja & Hjin)%list_elem_of_fmap. by apply (Hnone j).
  - intros j. rewrite (all_jobs_enqueue w w' _ Hn), elem_of_cons. intros [->|Hin].
    + exists (rem_at RemQueued r). by rewrite Hps, lookup_insert_eq.
    + eapply job_owner_other; [exact Hps|by apply Hnone|done|by apply (inv_owner w Hi)].
  - split; [etrans; [exact HO|apply dom_insert_sub]|]. unfold rem_ok. simpl. split; [by apply T3|].
    left. exists (queue (navy w)), []. split; [done|]. intros ? ? _. apply not_elem_of_nil.
Qed.

Lemma inv_rem (w : World) (tid : Z) (could : bool) (r r' : RemProc) (s' : Shard) :
  inv w -> procs w !! tid = Some (ProcRem r) -> (is_Some (content (navy w) !! r_key r) -> could = true) ->
  remStep tid could (dom (procs w)) r (shard w) = (Ok r', s') ->
  inv (mkWorld s' (<[tid := ProcRem r']> (procs w))).
Proof.
  intros Hi Hp Hcould E. destruct (inv_proc w Hi tid _ Hp) as [HO Hok]. unfold rem_ok in Hok.
  assert (Hdo : forall w', dom (procs w) ⊆ dom (procs w') -> r_older r ⊆ dom (procs w')) by set_solver.
  unfold remStep in E. destruct (r_pc r) eqn:Hpc.
  - run_shard. injection E as <- <-. quiet Hi Hp (r_key r). intros Hev _. split; [apply Hdo, Hev|done].
  - unfold bind, get, ret in E. destruct (navyEnabled_ (shard w)) eqn:He; injection E as <- <-;
      (quiet Hi Hp (r_key r); intros Hev _; split; [apply Hdo, Hev|]; unfold rem_ok; simpl); [done|].
    left. by split.
  - unfold InFlightPuts.invalidateToken in E. run_shard. injection E as <- <-.
    quiet Hi Hp (r_key r). intros Hev Hd. split; [apply Hev|]. by apply Hd.
  - unfold bind, get, ret in E. destruct (ContextMap.hasContexts _) eqn:Hc; injection E as <- <-;
      (quiet Hi Hp (r_key r); intros Hev _; split; [apply Hdo, Hev|]; unfold rem_ok; simpl).
    + by apply Hev.
    + split; [by apply Hev|]. eapply (no_contexts w) in Hc; [|done]. exact Hc.
  - destruct Hok as [Hd Hn]. unfold ret in E. destruct could eqn:Ec; injection E as <- <-;
      (quiet Hi Hp (r_key r); intros Hev _; split; [apply Hdo, Hev|]; unfold rem_ok; simpl).
    + by apply Hev.
    + right. split; [by apply Hev|]. apply Hev; try done. by eapply not_stored.
  - unfold ContextMap.createContext in E. run_shard.
    destruct (delContexts_ (shard w) !! tid); [done|]. injection E as <- <-.
    quiet Hi Hp (r_key r). intros Hev _. split; [apply Hdo, Hev|]. by apply Hev.
  - unfold bind, ret in E. injection E as <- <-. by apply inv_rem_enqueue.
  - done.
  - unfold bind in E.
    destruct (onTombstones (TombStones.destroyGuard (r_guard r)) (shard w)) as [[u|e] s1] eqn:Et; [|done].
    injection E as <- <-. unfold onTombstones in Et.
    destruct (TombStones.destroyGuard (r_guard r) (tombstones_ (shard w))) as [x t]. injection Et as -> <-.
    quiet Hi Hp (r_key r). intros Hev _. split; [apply Hdo, Hev|]. unfold rem_ok. simpl.
    destruct Hok as [[-> He]|[Hd Hc]]; [left; by split|right]. split; by apply Hev.
  - done.
Qed.

(** ** Navy *)

Lemma cut_cases {A} (q1 q2 p1 p2 : list A) (x y : A) :
  q1 ++ x :: q2 = p1 ++ y :: p2 ->
  (exists l, q1 = p1 ++ y :: l /\ p2 = l ++ x :: q2) \/ (q1 = p1 /\ x = y /\ q2 = p2) \/
  (exists l, p1 = q1 ++ x :: l /\ q2 = l ++ y :: p2).
Proof.
  revert p1. induction q1 as [|a q1 IH]; intros [|b p1] E; simpl in E; injection E as -> E.
  - right. left. by subst.
  - right. right. exists p1. by subst.
  - left. exists q1. by subst.
  - destruct (IH _ E) as [(l & -> & ->)|[(-> & -> & ->)|(l & -> & ->)]].
    + left. by exists l.
    + right. by left.
    + right. right. by exists l.
Qed.

Lemma none_of_sub (O : gset Z) (k : nkey) (q q' : list Job) : q' ⊆ q -> none_of O k q -> none_of O k q'.
Proof. intros Hs Hn p v Hp Hin. by apply (Hn p v Hp), Hs. Qed.

(** The effect of a job on what a cleared key holds. *)
Lemma effect_cleared (O : gset Z) (k : nkey) (j : Job) (st : Status) (c c' : gmap nkey NavyVal) :
  job_effect j st c c' -> (forall p v, p ∈ O -> j <> JInsert k p v) ->
  (forall nv, c !! k = Some nv -> nv_put nv ∉ O) -> forall nv, c' !! k = Some nv -> nv_put nv ∉ O.
Proof.
  intros He Hj Hc nv.
  assert (Hdel : forall k', c' = delete k' c -> c' !! k = Some nv -> nv_put nv ∉ O).
  { intros k' ->. destruct (decide (k' = k)) as [->|]; [by rewrite lookup_delete_eq|].
    rewrite lookup_delete_ne by done. apply Hc. }
  destruct j as [k' a v|k' a]; simpl in He.
  - destruct (decide (st = StatusOk)); [|destruct He as [->|]; eauto]. subst c'.
    destruct (decide (k' = k)) as [->|]; [|rewrite lookup_insert_ne by done; apply Hc].
    rewrite lookup_insert_eq. intros [= <-]. simpl. intros Ha. by apply (Hj a v Ha).
  - destruct (removed_status st); [|destruct He as [->|]]; eauto.
Qed.

Lemma inv_exec (w : World) (q1 q2 : list Job) (j : Job) (st : Status) c' :
  inv w -> queue (navy w) = q1 ++ j :: q2 -> (forall j', j' ∈ q1 -> job_key j' <> job_key j) ->
  job_effect j st (content (navy w)) c' ->
  inv (set_navy (mkNavy c' (q1 ++ q2) (completing (navy w) ++ [(j, st)])) w).
Proof.
  intros Hi Hq Hfirst He. match goal with |- inv ?x => set (w' := x) end.
  assert (Hj : all_jobs w' ≡ₚ all_jobs w).
  { unfold all_jobs. rewrite Hq. simpl. rewrite fmap_app, <- !app_assoc. simpl. solve_Permutation. }
  assert (Hsub : q1 ++ q2 ⊆ queue (navy w)) by (rewrite Hq; set_solver).
  assert (Hcl : forall O k, cleared O k w -> cleared O k w').
  { intros O k [H1 H2]. split; [by eapply none_of_sub|]. eapply effect_cleared; [exact He| |exact H2].
    rewrite Hq in H1. apply none_of_app in H1 as [_ [H1 _]%none_of_cons]. done. }
  assert (Hev : forall a, (forall O k tid, tid <> a -> deleting O k tid w -> deleting O k tid w') -> evolves a w w').
  { intros a Hdel. constructor; try done; [|intros; by apply Hcl|intros; by apply Hdel].
    intros O k _ _ Hn. by eapply none_of_sub. }
  assert (Hdel : forall O k tid, deleting O k tid w -> deleting O k tid w').
  { intros O k tid [(p1 & p2 & E & Hn)|(st' & Hin & Hc)].
    2: { right. exists st'. split; [apply elem_of_app; by left|auto]. }
    rewrite Hq in E. destruct (cut_cases _ _ _ _ _ _ E) as [(l & -> & ->)|[(-> & -> & ->)|(l & -> & ->)]].
    - left. exists p1, (l ++ q2). split; [simpl; by rewrite <- app_assoc|].
      apply none_of_app in Hn as [Hn1 [_ Hn2]%none_of_cons]. by apply none_of_app.
    - right. exists st. split; [apply elem_of_app; right; by apply list_elem_of_singleton|].
      intros Hst. simpl in He. rewrite Hst in He. split.
      + apply none_of_app. split; [|done]. intros p v _ Hin. by apply (Hfirst _ Hin).
      + simpl. rewrite He. by rewrite lookup_delete_eq.
    - left. exists (q1 ++ l), p2. split; [simpl; by rewrite <- app_assoc|done]. }
  constructor.
  - apply Hi.
  - apply Hi.
  - rewrite Hj. apply Hi.
  - intros j'. rewrite Hj. apply (inv_owner w Hi).
  - apply Hi.
  - intros tid pr Hl. apply (proc_ok_evolves (tid + 1) w w'); [|lia|by apply (inv_proc w Hi)].
    apply Hev. eauto.
Qed.

(** ** Callbacks *)

Lemma alter_some {A} (f : A -> A) (m : gmap Z A) (i : Z) (x : A) :
  m !! i = Some x -> alter f i m = <[i := f x]> m.
Proof.
  intros Hx. apply map_eq. intros k. destruct (decide (k = i)) as [->|Hne].
  - by rewrite lookup_alter_eq, Hx, lookup_insert_eq.
  - by rewrite lookup_alter_ne, lookup_insert_ne.
Qed.

(** A job whose callback runs leaves the list of jobs; no other job has its
    address. *)
Lemma callback_jobs (w : World) (c1 c2 : list (Job * Status)) (j : Job) (st : Status) :
  inv w -> completing (navy w) = c1 ++ (j, st) :: c2 ->
  all_jobs w ≡ₚ j :: queue (navy w) ++ (c1 ++ c2).*1 /\
  (forall j', j' ∈ queue (navy w) ++ (c1 ++ c2).*1 -> job_addr j' <> job_addr j).
Proof.
  intros Hi Hc.
  assert (Hp : all_jobs w ≡ₚ j :: queue (navy w) ++ (c1 ++ c2).*1).
  { unfold all_jobs. rewrite Hc, !fmap_app. simpl. solve_Permutation. }
  split; [done|]. intros j' Hin Ha. pose proof (inv_jobs w Hi) as Hnd. rewrite Hp in Hnd.
  apply NoDup_cons in Hnd as [Hnot _]. apply Hnot. rewrite <- Ha. by apply list_elem_of_fmap_2.
Qed.

(** Parts of the invariant that hold after any callback of thread [a]. *)
Lemma inv_after_callback (w w' : World) (c1 c2 : list (Job * Status)) (j : Job) (st : Status) (pr : Proc) :
  inv w -> completing (navy w) = c1 ++ (j, st) :: c2 ->
  navy w' = mkNavy (content (navy w)) (queue (navy w)) (c1 ++ c2) ->
  procs w' = <[job_addr j := pr]> (procs w) -> inflight w' = inflight w ->
  (forall t, t <> job_addr j -> putContexts_ (shard w') !! t = putContexts_ (shard w) !! t) ->
  (enabled w = false -> enabled w' = false) ->
  (forall k, holds_token w' (job_addr j) k -> holds_token w (job_addr j) k) ->
  (evolves (job_addr j) w w' -> proc_ok w' (job_addr j) pr) -> inv w'.
Proof.
  intros Hi Hc Hn Hps Hin Hctx Hoff Htok Hok. destruct (callback_jobs w c1 c2 j st Hi Hc) as [Hp Hne].
  destruct (tokens_kept _ w w' pr Hi Hps Hin Htok) as (T1 & T2 & T3).
  assert (Hcl : forall O k, cleared O k w -> cleared O k w') by (unfold cleared; rewrite Hn; naive_solver).
  assert (Hj : all_jobs w' = queue (navy w) ++ (c1 ++ c2).*1) by (unfold all_jobs; by rewrite Hn).
  assert (Hev : evolves (job_addr j) w w').
  { constructor; try done.
    - rewrite Hps. apply dom_insert_sub.
    - intros O k _ _. by rewrite Hn.
    - intros O k _ _. apply Hcl.
    - intros O k tid _ Htid _ [(q1 & q2 & E & H1)|(st' & H1 & H2)].
      + left. exists q1, q2. by rewrite Hn.
      + right. exists st'. rewrite Hn. simpl. split; [|auto]. rewrite Hc in H1.
        apply elem_of_app in H1 as [H1|[H1|H1]%elem_of_cons]; [set_solver| |set_solver].
        injection H1 as <- <-. by destruct Htid. }
  apply (inv_step (job_addr j) w w' pr Hi Hps Hev); try done; [..|by apply Hok].
  - rewrite Hj. pose proof (inv_jobs w Hi) as Hnd. rewrite Hp in Hnd. by apply NoDup_cons in Hnd as [_ ?].
  - intros j'. rewrite Hj. intros Hin'. eapply job_owner_other; [exact Hps|by apply Hne|by apply Hctx, Hne|].
    apply (inv_owner w Hi). rewrite Hp. by apply elem_of_cons; right.
Qed.

Lemma inv_insert_callback (w : World) c1 c2 (k : nkey) (a : Z) (v : bytes) (st : Status) (s' : Shard) :
  inv w -> completing (navy w) = c1 ++ (JInsert k a v, st) :: c2 ->
  insertCallback config_ a st (shard (set_navy (mkNavy (content (navy w)) (queue (navy w)) (c1 ++ c2)) w)) = (Ok tt, s') ->
  inv (mkWorld s' (procs w)).
Proof.
  intros Hi Hc E. destruct (inv_owner w Hi (JInsert k a v)) as (p & Hp & Hk & Ht & He & _).
  { apply elem_of_app. right. rewrite Hc, fmap_app. apply elem_of_app. right. by apply elem_of_cons; left. }
  assert (Hs : inflightPuts_ s' = inflight w /\ putContexts_ s' = delete a (putContexts_ (shard w)) /\
    navyCache_ s' = mkNavy (content (navy w)) (queue (navy w)) (c1 ++ c2) /\
    (enabled w = false -> navyEnabled_ s' = false)).
  { unfold insertCallback, ContextMap.destroyContext in E. unfold inflight, enabled.
    destruct (decide (st = BadState)); run_shard; destruct (navyEnabled_ (shard w)) eqn:En,
      (disableNvmCacheOnBadState config_); simpl in E;
      destruct (putContexts_ (shard w) !! a); try done; by injection E as <-. }
  destruct Hs as (E1 & E2 & E3 & E4).
  apply (inv_after_callback w _ c1 c2 (JInsert k a v) st (ProcPut p) Hi Hc); try done; simpl.
  - by rewrite insert_id.
  - intros t Hta. by rewrite E2, lookup_delete_ne.
  - intros _. split; [by left|]. unfold put_ctx. destruct He as [He|He]; rewrite He; left; [by left|by right].
Qed.

Lemma inv_remove_callback (w : World) c1 c2 (k : nkey) (a : Z) (st : Status) (s' : Shard) :
  inv w -> completing (navy w) = c1 ++ (JRemove k a, st) :: c2 ->
  removeCallback config_ a st (shard (set_navy (mkNavy (content (navy w)) (queue (navy w)) (c1 ++ c2)) w)) = (Ok tt, s') ->
  inv (mkWorld s' (finish (JRemove k a) (procs w))).
Proof.
  intros Hi Hc E. destruct (inv_owner w Hi (JRemove k a)) as (r & Hp & Hk & Hpc).
  { apply elem_of_app. right. rewrite Hc, fmap_app. apply elem_of_app. right. by apply elem_of_cons; left. }
  destruct (callback_jobs w c1 c2 _ st Hi Hc) as [_ Hne].
  assert (Hs : inflightPuts_ s' = inflight w /\ putContexts_ s' = putContexts_ (shard w) /\
    navyCache_ s' = mkNavy (content (navy w)) (queue (navy w)) (c1 ++ c2) /\
    navyEnabled_ s' = if removed_status st || negb (disableNvmCacheOnBadState config_) then enabled w else false).
  { unfold removeCallback, ContextMap.destroyContext, disableNavy in E. unfold inflight, enabled.
    run_shard. destruct (delContexts_ (shard w) !! a) as [g|]; [|done]. simpl in E.
    destruct (TombStones.destroyGuard g (tombstones_ (shard w))) as [[u|e] t]; [|done].
    destruct (removed_status st), (navyEnabled_ (shard w)) eqn:En, (disableNvmCacheOnBadState config_);
      unfold modify, ret in E; simpl in E; by injection E as <-. }
  destruct Hs as (E1 & E2 & E3 & E4). destruct (inv_proc w Hi a _ Hp) as [HO Hok].
  unfold rem_ok in Hok. rewrite Hpc in Hok. destruct Hok as [Hd Hdel].
  eapply (inv_after_callback w _ c1 c2 (JRemove k a) st _ Hi Hc); try done; simpl.
  - by rewrite (alter_some _ _ _ _ Hp).
  - intros t Hta. by rewrite E2.
  - unfold enabled. simpl. rewrite E4. by destruct (_ || _).
  - intros k' (q & Hq & _). simpl in Hq. by rewrite (alter_some _ _ _ _ Hp), lookup_insert_eq in Hq.
  - intros Hev. split; [etrans; [exact HO|apply Hev]|]. unfold rem_ok. simpl.
    destruct (removed_status st) eqn:Hst; [right|left; split; [done|]; intros Hcf; unfold enabled; simpl; by rewrite E4, Hcf].
    split; [by apply Hev|]. apply Hev; try done.
    destruct Hdel as [(q1 & q2 & Eq & _)|(st' & Hin & Hcl)].
    + exfalso. apply (Hne (JRemove k a)); [|done]. rewrite Eq, Hk. set_solver.
    + apply Hcl. rewrite Hc in Hin.
      apply elem_of_app in Hin as [Hin|[Hin|Hin]%elem_of_cons]; [|congruence|];
        (exfalso; apply (Hne (JRemove (r_key r) a)); [|done]; apply elem_of_app; right;
         apply list_elem_of_fmap; exists (JRemove (r_key r) a, st'); split; [done|set_solver]).
Qed.

(** ** All steps *)

Lemma inv_evict (w : World) (key : nkey) :
  inv w -> inv (set_navy (mkNavy (delete key (content (navy w))) (queue (navy w)) (completing (navy w))) w).
Proof.
  intros Hi. match goal with |- inv ?x => set (w' := x) end.
  assert (Hcl : forall O k, cleared O k w -> cleared O k w').
  { intros O k [H1 H2]. split; [done|]. simpl. intros nv. destruct (decide (key = k)) as [->|].
    - by rewrite lookup_delete_eq.
    - rewrite lookup_delete_ne by done. apply H2. }
  assert (Hev : forall a, evolves a w w').
  { intros a. constructor; try done; [intros; by apply Hcl|].
    intros O k tid _ _ _ [?|(st & ? & ?)]; [by left|right; exists st; auto]. }
  constructor; try apply Hi. intros tid pr Hl.
  apply (proc_ok_evolves (tid + 1) w w'); [done|lia|by apply (inv_proc w Hi)].
Qed.

Lemma inv_disable (w : World) : inv w -> inv (mkWorld (snd (disableNavy config_ (shard w))) (procs w)).
Proof.
  intros Hi. unfold disableNavy, modify. cbn [snd].
  destruct (_ && _); [|by destruct w].
  match goal with |- inv ?x => set (w' := x) end.
  constructor; try apply Hi. intros tid pr Hl.
  apply (proc_ok_evolves (tid + 1) w w'); [|lia|by apply (inv_proc w Hi)].
  by apply evolves_same_navy.
Qed.

Lemma inv_acquire_throws (w : World) (key : nkey) (owns : bool) (e e' : exn) (s' : Shard) :
  inv w -> onPuts (InFlightPuts.tryAcquireToken owns key (throw e)) tt (shard w) = (Throw e', s') ->
  inv (mkWorld s' (procs w)).
Proof.
  intros Hi. unfold InFlightPuts.tryAcquireToken. run_shard. destruct owns; [|done]. simpl.
  destruct (inflightPuts_ (shard w) !! key) eqn:Hk; [done|]. simpl. intros [= <- <-].
  match goal with |- inv ?x => set (w' := x) end.
  assert (Hne : forall t k, holds_token w t k -> k <> key).
  { intros t k Ht%(inv_token_in w Hi) ->. unfold inflight in Ht. rewrite Hk in Ht. by destruct Ht. }
  constructor; try apply Hi.
  - intros t k Ht. unfold inflight. simpl. rewrite lookup_insert_ne by (symmetry; by eapply Hne).
    by eapply (inv_token_in w Hi).
  - intros t pr Hl. apply (proc_ok_evolves (t + 1) w w'); [|lia|by apply (inv_proc w Hi)].
    apply evolves_same_navy; try done. intros O k _ Hd p Hp Ht. unfold inflight. simpl.
    rewrite lookup_insert_ne by (symmetry; by eapply Hne). by apply (Hd p).
Qed.

Lemma inv_one_step (w w' : World) : inv w -> step w w' -> inv w'.
Proof.
  intros Hi Hs. destruct Hs as [w tid key item o f tok s' H1 H2|w key o e e' s' H1|w tid key item H1|w tid acc p p' s' H1 H2|w tid key H1
    |w tid could r r' s' H1 H2 H3|w tid key H1|w tid could ir fi f f' s' H1 H2 H3
    |w q1 j q2 st c' H1 H2 H3|w c1 j st c2 s' H1 H2|w key|w].
  - by eapply inv_acquire.
  - by eapply inv_acquire_throws.
  - by apply inv_new.
  - by eapply inv_put.
  - by apply inv_new.
  - by eapply inv_rem.
  - by apply inv_new.
  - by eapply inv_find.
  - by eapply inv_exec.
  - destruct j as [k a v|k a]; [by eapply inv_insert_callback|by eapply inv_remove_callback].
  - by apply inv_evict.
  - by apply inv_disable.
Qed.

Lemma inv_initial : inv initial.
Proof.
  constructor; try done.
  - intros tid k (p & Hp & _). done.
  - intros t1 t2 k (p & Hp & _). done.
  - apply NoDup_nil_2.
  - intros j Hj. by apply not_elem_of_nil in Hj.
Qed.

Lemma inv_reachable (w : World) : reachable w -> inv w.
Proof.
  revert w. unfold reachable. apply (rtc_ind_r inv initial); [apply inv_initial|].
  intros w1 w2 _ Hs IH. by eapply inv_one_step.
Qed.
End proofs.
