(* ===== verification/NvmCacheSpec.v ===== *)
(** * The NVM cache: theorems *)

From S2P Require Import Prelude Bytes BigHash NvmCache NvmCacheProofs.
From stdpp Require Import base tactics numbers list gmap.

#[local] Open Scope Z_scope.

(** ** The NVM cache: theorems

    Deletes win against older puts and fast misses are right, in every
    interleaving of the threads of a shard with Navy. Interleavings can be
    evaluated with [sched]. *)

(** ** Interleavings that evaluate

    They run in the default configuration, where a job that fails disables
    the NVM cache. *)

#[local] Existing Instance defaultConfig.

Inductive Event : Type :=
| EvAcquire (tid : Z) (key : nkey) (item : Item)
| EvPut (tid : Z) (accept : bool)
| EvNewRem (tid : Z) (key : nkey)
| EvRem (tid : Z)
| EvNewFind (tid : Z) (key : nkey)
| EvFind (tid : Z)
| EvExec (n : nat)
| EvCallback (n : nat).

Definition stored (w : World) (k : nkey) : bool := bool_decide (is_Some (content (navy w) !! k)).

(** Jobs succeed here, and [couldExist] is exact. *)
Definition effect_of (j : Job) (c : gmap nkey NavyVal) : gmap nkey NavyVal :=
  match j with JInsert k a v => <[k := mkNavyVal a v]> c | JRemove k _ => delete k c end.

Definition sched (e : Event) (w : World) : option World :=
  match e with
  | EvAcquire tid key item =>
      match procs w !! tid, onPuts (InFlightPuts.tryAcquireToken true key (ret true)) tt (shard w) with
      | None, (Ok (inl tok, tt), s') =>
          Some (mkWorld s' (<[tid := ProcPut (mkPut key item tok PutStart)]> (procs w)))
      | _, _ => None
      end
  | EvPut tid accept =>
      match procs w !! tid with
      | Some (ProcPut p) =>
          match putStep tid accept p (shard w) with
          | (Ok p', s') => Some (mkWorld s' (<[tid := ProcPut p']> (procs w)))
          | _ => None
          end
      | _ => None
      end
  | EvNewRem tid key =>
      match procs w !! tid with
      | None => Some (mkWorld (shard w) (<[tid := ProcRem (mkRem key None RemCreate ∅)]> (procs w)))
      | _ => None
      end
  | EvRem tid =>
      match procs w !! tid with
      | Some (ProcRem r) =>
          match remStep tid (stored w (r_key r)) (dom (procs w)) r (shard w) with
          | (Ok r', s') => Some (mkWorld s' (<[tid := ProcRem r']> (procs w)))
          | _ => None
          end
      | _ => None
      end
  | EvNewFind tid key =>
      match procs w !! tid with
      | None => Some (mkWorld (shard w) (<[tid := ProcFind (mkFind key FindStart ∅)]> (procs w)))
      | _ => None
      end
  | EvFind tid =>
      match procs w !! tid with
      | Some (ProcFind f) =>
          match findStep (stored w (f_key f)) false false (dom (procs w)) f (shard w) with
          | (Ok f', s') => Some (mkWorld s' (<[tid := ProcFind f']> (procs w)))
          | _ => None
          end
      | _ => None
      end
  | EvExec n =>
      match queue (navy w) !! n with
      | Some j =>
          if forallb (fun j' => negb (bool_decide (job_key j' = job_key j))) (take n (queue (navy w)))
          then Some (set_navy (mkNavy (effect_of j (content (navy w)))
                                 (take n (queue (navy w)) ++ drop (S n) (queue (navy w)))
                                 (completing (navy w) ++ [(j, StatusOk)])) w)
          else None
      | None => None
      end
  | EvCallback n =>
      match completing (navy w) !! n with
      | Some (j, st) =>
          match callback defaultConfig j st (shard (set_navy (mkNavy (content (navy w)) (queue (navy w))
                  (take n (completing (navy w)) ++ drop (S n) (completing (navy w)))) w)) with
          | (Ok tt, s') => Some (mkWorld s' (finish j (procs w)))
          | _ => None
          end
      | None => None
      end
  end.

Fixpoint run_sched (es : list Event) (w : World) : option World :=
  match es with
  | [] => Some w
  | e :: es => match sched e w with Some w' => run_sched es w' | None => None end
  end.

Lemma sched_step (e : Event) (w w' : World) : sched e w = Some w' -> step w w'.
Proof.
  destruct e as [tid key item|tid acc|tid key|tid|tid key|tid|n|n]; simpl.
  - destruct (procs w !! tid) eqn:E1; [done|].
    destruct (onPuts _ tt (shard w)) as [[[[tok|] []]|] s'] eqn:E2; try done.
    intros [= <-]. by eapply (step_acquire _ _ _ _ true true).
  - destruct (procs w !! tid) as [[p| |]|] eqn:E1; try done.
    destruct (putStep tid acc p (shard w)) as [[p'|] s'] eqn:E2; [|done].
    intros [= <-]. by eapply step_put.
  - destruct (procs w !! tid) eqn:E1; [done|]. intros [= <-]. by apply step_new_rem.
  - destruct (procs w !! tid) as [[|r|]|] eqn:E1; try done.
    destruct (remStep _ _ _ r (shard w)) as [[p'|] s'] eqn:E2; [|done].
    intros [= <-]. eapply step_rem; [done| |exact E2]. intros Hs. by apply bool_decide_eq_true_2.
  - destruct (procs w !! tid) eqn:E1; [done|]. intros [= <-]. by apply step_new_find.
  - destruct (procs w !! tid) as [[| |f]|] eqn:E1; try done.
    destruct (findStep _ _ _ _ f (shard w)) as [[p'|] s'] eqn:E2; [|done].
    intros [= <-]. eapply step_find; [done| |exact E2]. intros Hs. by apply bool_decide_eq_true_2.
  - destruct (queue (navy w) !! n) as [j|] eqn:E1; [|done].
    destruct (forallb _ _) eqn:E2; [|done]. intros [= <-]. eapply step_exec.
    + symmetry. by apply take_drop_middle.
    + intros j' Hin. rewrite forallb_forall in E2. apply list_elem_of_In in Hin.
      specialize (E2 j' Hin). by apply negb_true_iff, bool_decide_eq_false in E2.
    + by destruct j.
  - destruct (completing (navy w) !! n) as [[j st]|] eqn:E1; [|done].
    match goal with |- context [callback defaultConfig j st ?s] => destruct (callback defaultConfig j st s) as [[[]|] s'] eqn:E2 end;
      [|done].
    intros [= <-]. eapply step_callback; [|exact E2]. symmetry. by apply take_drop_middle.
Qed.

Lemma run_sched_steps (es : list Event) (w w' : World) : run_sched es w = Some w' -> rtc step w w'.
Proof.
  revert w. induction es as [|e es IH]; intros w; simpl; [by intros [= ->]|].
  destruct (sched e w) as [w1|] eqn:E; [|done]. intros Hr. eapply rtc_l; [by eapply sched_step|by apply IH].
Qed.

(** ** What a thread that has invalidated its token keeps *)

Section theorems.
Context {config_ : NvmConfig}.

Definition past_invalidation (pr : Proc) : Prop :=
  match pr with
  | ProcPut _ => False
  | ProcRem r => match r_pc r with RemCreate | RemStart | RemInvalidate => False | _ => True end
  | ProcFind f => match f_pc f with FindStart | FindInvalidate => False | _ => True end
  end.

Definition proc_key (pr : Proc) : nkey :=
  match pr with ProcPut p => p_key p | ProcRem r => r_key r | ProcFind f => f_key f end.
Definition proc_older (pr : Proc) : gset Z :=
  match pr with ProcPut p => ∅ | ProcRem r => r_older r | ProcFind f => f_older f end.
Definition same_kind (pr pr' : Proc) : Prop :=
  match pr, pr' with ProcRem _, ProcRem _ | ProcFind _, ProcFind _ => True | _, _ => False end.

(** [pr'] continues [pr]. *)
Definition continues (pr pr' : Proc) : Prop :=
  same_kind pr pr' /\ past_invalidation pr' /\ proc_key pr' = proc_key pr /\ proc_older pr' = proc_older pr.

Lemma remStep_continues (tid : Z) (could : bool) (O : gset Z) (r r' : RemProc) (s s' : Shard) :
  past_invalidation (ProcRem r) -> remStep tid could O r s = (Ok r', s') ->
  continues (ProcRem r) (ProcRem r').
Proof.
  unfold remStep, continues, past_invalidation, proc_key, proc_older. destruct r as [k g pc O'].
  cbn [r_pc r_key r_older r_guard]. intros Hp. destruct pc; try done; unfold bind, get, ret, rem_at.
  - destruct (ContextMap.hasContexts _); by intros [= <- _].
  - destruct could; by intros [= <- _].
  - destruct (onDelContexts _ s) as [[]]; [by intros [= <- _]|done].
  - destruct (onNavy _ s) as [[]]; [by intros [= <- _]|done].
  - destruct (onTombstones _ s) as [[]]; [by intros [= <- _]|done].
Qed.

Lemma findStep_continues (could a b : bool) (O : gset Z) (f f' : FindProc) (s s' : Shard) :
  past_invalidation (ProcFind f) -> findStep could a b O f s = (Ok f', s') ->
  continues (ProcFind f) (ProcFind f').
Proof.
  unfold findStep, continues, past_invalidation, proc_key, proc_older, find_next. destruct f as [k pc O'].
  cbn [f_pc f_key f_older]. intros Hp. destruct pc as [| |[]|[]|[]| | |]; try done; unfold bind, get, ret, find_at.
  all: repeat case_match; try done; by intros [= <- _].
Qed.

Lemma step_continues (w w' : World) (tid : Z) (pr : Proc) :
  inv w -> step w w' -> procs w !! tid = Some pr -> past_invalidation pr ->
  exists pr', procs w' !! tid = Some pr' /\ continues pr pr'.
Proof.
  intros Hi Hs Hp Hpast.
  assert (Hsame : forall ps a x, ps = <[a := x]> (procs w) -> a <> tid ->
    exists pr', ps !! tid = Some pr' /\ continues pr pr').
  { intros ps a x -> Hne. exists pr. rewrite lookup_insert_ne by done. split; [done|].
    by destruct pr. }
  assert (Hid : exists pr', procs w !! tid = Some pr' /\ continues pr pr').
  { exists pr. split; [done|]. by destruct pr. }
  destruct Hs as [w t key item o f tok s' H1 H2|w key o e e' s' H1|w t key item H1|w t acc p p' s' H1 H2|w t key H1
    |w t could r r' s' H1 H2 H3|w t key H1|w t could ir fi f f' s' H1 H2 H3
    |w q1 j q2 st c' H1 H2 H3|w c1 j st c2 s' H1 H2|w key|w]; simpl; try done.
  - eapply Hsame; [done|]. congruence.
  - eapply Hsame; [done|]. congruence.
  - eapply Hsame; [done|]. intros ->. rewrite Hp in H1. by simplify_eq.
  - eapply Hsame; [done|]. congruence.
  - destruct (decide (t = tid)) as [->|Hne]; [|by eapply Hsame]. rewrite Hp in H1. simplify_eq.
    exists (ProcRem r'). rewrite lookup_insert_eq. split; [done|]. by eapply remStep_continues.
  - eapply Hsame; [done|]. congruence.
  - destruct (decide (t = tid)) as [->|Hne]; [|by eapply Hsame]. rewrite Hp in H1. simplify_eq.
    exists (ProcFind f'). rewrite lookup_insert_eq. split; [done|]. by eapply findStep_continues.
  - destruct j as [k a v|k a]; simpl; [done|]. destruct (decide (a = tid)) as [->|Hne].
    + rewrite lookup_alter_eq, Hp. simpl. eexists. split; [done|]. by destruct pr.
    + rewrite lookup_alter_ne by done. by exists pr; destruct pr.
Qed.

Lemma steps_continue (w w' : World) (tid : Z) (pr : Proc) :
  inv w -> rtc step w w' -> procs w !! tid = Some pr -> past_invalidation pr ->
  inv w' /\ exists pr', procs w' !! tid = Some pr' /\ continues pr pr'.
Proof.
  intros Hi Hs. revert pr Hi. induction Hs as [w|w w1 w2 Hs Hr IH]; intros pr Hi Hp Hpast.
  { split; [done|]. exists pr. split; [done|]. by destruct pr. }
  destruct (step_continues w w1 tid pr Hi Hs Hp Hpast) as (pr1 & Hp1 & C1).
  destruct (IH pr1) as (Hi2 & pr2 & Hp2 & C2); [by eapply inv_one_step|done|apply C1|].
  split; [done|]. exists pr2. split; [done|]. destruct C1 as (K1 & _ & E1 & O1), C2 as (K2 & P2 & E2 & O2).
  split_and!; [|done|congruence|congruence]. by destruct pr, pr1, pr2.
Qed.

(** A thread that is done stays as it is. *)
Definition is_done (pr : Proc) : Prop :=
  match pr with
  | ProcPut _ => False
  | ProcRem r => match r_pc r with RemDone _ => True | _ => False end
  | ProcFind f => match f_pc f with FindFastMiss => True | _ => False end
  end.

Lemma done_stays (w w' : World) (tid : Z) (pr : Proc) :
  inv w -> rtc step w w' -> procs w !! tid = Some pr -> is_done pr ->
  inv w' /\ procs w' !! tid = Some pr.
Proof.
  intros Hi Hs. induction Hs as [w|w w1 w2 Hs Hr IH]; intros Hp Hd; [done|].
  assert (Hi1 : inv w1) by by eapply inv_one_step. apply IH; [done| |done]. clear IH Hr Hi1.
  assert (Hne : forall a x, a <> tid -> <[a := x]> (procs w) !! tid = Some pr).
  { intros a x Ha. by rewrite lookup_insert_ne. }
  destruct Hs as [w t key item o f tok s' H1 H2|w key o e e' s' H1|w t key item H1|w t acc p p' s' H1 H2|w t key H1
    |w t could r r' s' H1 H2 H3|w t key H1|w t could ir fi f f' s' H1 H2 H3
    |w q1 j q2 st c' H1 H2 H3|w c1 j st c2 s' H1 H2|w key|w]; simpl; try done; try (apply Hne; congruence).
  - apply Hne. intros ->. rewrite Hp in H1. by injection H1 as ->.
  - apply Hne. intros ->. rewrite Hp in H1. injection H1 as ->. simpl in Hd.
    unfold remStep in H3. by destruct (r_pc r).
  - apply Hne. intros ->. rewrite Hp in H1. injection H1 as ->. simpl in Hd.
    unfold findStep in H3. by destruct (f_pc f).
  - destruct j as [k a v|k a]; simpl; [done|]. destruct (decide (a = tid)) as [->|Ha].
    + destruct (inv_owner w Hi (JRemove k tid)) as (r & Hr & _ & Hpc).
      { apply elem_of_app. right. rewrite H1, fmap_app. apply elem_of_app. right. by apply elem_of_cons; left. }
      rewrite Hp in Hr. injection Hr as ->. simpl in Hd. by rewrite Hpc in Hd.
    + by rewrite lookup_alter_ne.
Qed.

(** The value of put [p] is stored under [k] or queued to be. *)
Definition written_by (w : World) (k : nkey) (p : Z) : Prop :=
  (exists nv, content (navy w) !! k = Some nv /\ nv_put nv = p) \/
  exists v, JInsert k p v ∈ queue (navy w).

Lemma cleared_not_written (w : World) (O : gset Z) (k : nkey) (p : Z) :
  cleared O k w -> p ∈ O -> ~ written_by w k p.
Proof.
  intros [Hn Hc] Hp [(nv & E & <-)|(v & Hin)]; [by apply (Hc nv E)|by apply (Hn p v Hp)].
Qed.

(** C7. Deletes win. Take a delete and a put of any keys under way in any
    reachable state of a shard, the put's token acquired before the delete
    invalidates the token of its key. However the two and any other threads
    go on, once the delete has finished (its job has run, or it was skipped
    because no put was queued and the key could not exist) the put's value is not
    stored under the delete's key and not queued to be, and never will be,
    unless the NVM cache has been disabled. The configuration is one in which
    a failed delete disables it ([disableNvmCacheOnBadState], the default);
    without that a failed delete leaves the older value in place. *)
Theorem nvm_delete_wins (w0 w2 w3 : World) (tid p : Z) (r r1 r2 : RemProc) (q : PutProc)
    (could b : bool) (s1 : Shard) :
  reachable w0 -> procs w0 !! tid = Some (ProcRem r) -> r_pc r = RemInvalidate ->
  procs w0 !! p = Some (ProcPut q) ->
  remStep tid could (dom (procs w0)) r (shard w0) = (Ok r1, s1) ->
  (is_Some (content (navy w0) !! r_key r) -> could = true) ->
  rtc step (mkWorld s1 (<[tid := ProcRem r1]> (procs w0))) w2 ->
  procs w2 !! tid = Some (ProcRem r2) -> r_pc r2 = RemDone b ->
  rtc step w2 w3 -> disableNvmCacheOnBadState config_ = true -> enabled w3 = true ->
  ~ written_by w3 (r_key r) p.
Proof.
  intros Hw0%inv_reachable Hr Hpc Hq Hs1 Hcould H12 Hr2 Hpc2 H23 Hcf Hen.
  assert (Hi1 : inv (mkWorld s1 (<[tid := ProcRem r1]> (procs w0)))) by by eapply inv_rem.
  assert (Hr1 : r1 = mkRem (r_key r) (r_guard r) RemHasContexts (dom (procs w0))).
  { unfold remStep in Hs1. rewrite Hpc in Hs1. unfold bind, ret, InFlightPuts.invalidateToken in Hs1.
    run_shard. by injection Hs1. }
  destruct (steps_continue _ w2 tid (ProcRem r1) Hi1 H12) as (Hi2 & pr2 & Hp2 & C).
  { simpl. by rewrite lookup_insert_eq. }
  { by rewrite Hr1. }
  rewrite Hr2 in Hp2. injection Hp2 as <-. destruct C as (_ & _ & Ek & EO). simpl in Ek, EO.
  rewrite Hr1 in Ek, EO. simpl in Ek, EO.
  destruct (done_stays w2 w3 tid (ProcRem r2) Hi2 H23 Hr2) as [Hi3 Hp3]; [simpl; by rewrite Hpc2|].
  destruct (inv_proc w3 Hi3 tid _ Hp3) as [_ Hok]. unfold rem_ok in Hok. rewrite Hpc2, Ek, EO in Hok.
  destruct Hok as [[_ Hoff]|[_ Hc]]; [by rewrite Hoff in Hen|]. apply (cleared_not_written _ _ _ _ Hc).
  apply elem_of_dom. by rewrite Hq.
Qed.

(** Fast misses are right. When [find] reports a miss without a lookup in
    Navy, no put whose token was acquired before [find] invalidated the token
    of its key has its value stored under the key or queued to be, then or
    ever after: the miss can be ordered after the deletion or eviction of
    every older put. *)
Theorem nvm_fast_miss_right (w0 w2 w3 : World) (tid p : Z) (f f1 f2 : FindProc) (q : PutProc)
    (could inRam filling : bool) (s1 : Shard) :
  reachable w0 -> procs w0 !! tid = Some (ProcFind f) -> f_pc f = FindInvalidate ->
  procs w0 !! p = Some (ProcPut q) ->
  findStep could inRam filling (dom (procs w0)) f (shard w0) = (Ok f1, s1) ->
  (is_Some (content (navy w0) !! f_key f) -> could = true) ->
  rtc step (mkWorld s1 (<[tid := ProcFind f1]> (procs w0))) w2 ->
  procs w2 !! tid = Some (ProcFind f2) -> f_pc f2 = FindFastMiss ->
  rtc step w2 w3 -> ~ written_by w3 (f_key f) p.
Proof.
  intros Hw0%inv_reachable Hr Hpc Hq Hs1 Hcould H12 Hr2 Hpc2 H23.
  assert (Hi1 : inv (mkWorld s1 (<[tid := ProcFind f1]> (procs w0)))) by by eapply inv_find.
  assert (Hr1 : f1 = mkFind (f_key f) (FindCheck false) (dom (procs w0))).
  { unfold findStep in Hs1. rewrite Hpc in Hs1. unfold bind, ret, InFlightPuts.invalidateToken in Hs1.
    run_shard. by injection Hs1. }
  destruct (steps_continue _ w2 tid (ProcFind f1) Hi1 H12) as (Hi2 & pr2 & Hp2 & C).
  { simpl. by rewrite lookup_insert_eq. }
  { by rewrite Hr1. }
  rewrite Hr2 in Hp2. injection Hp2 as <-. destruct C as (_ & _ & Ek & EO). simpl in Ek, EO.
  rewrite Hr1 in Ek, EO. simpl in Ek, EO.
  destruct (done_stays w2 w3 tid (ProcFind f2) Hi2 H23 Hr2) as [Hi3 Hp3]; [simpl; by rewrite Hpc2|].
  destruct (inv_proc w3 Hi3 tid _ Hp3) as [_ Hok]. unfold find_ok in Hok. rewrite Hpc2, Ek, EO in Hok.
  destruct Hok as [_ Hc]. apply (cleared_not_written _ _ _ _ Hc).
  apply elem_of_dom. by rewrite Hq.
Qed.

End theorems.

(** ** Interleavings evaluated *)

Definition nvm_item : Item := mkItem false false false false (Some [42]).

(** Put 1 of the key is queued, put 2 has acquired its token, delete 3 is
    about to invalidate it. *)
Definition nvm_before : list Event :=
  [EvAcquire 1 [7] nvm_item; EvPut 1 true; EvPut 1 true; EvPut 1 true; EvPut 1 true; EvPut 1 true;
   EvAcquire 2 [7] nvm_item; EvPut 2 true; EvPut 2 true; EvPut 2 true;
   EvNewRem 3 [7]; EvRem 3; EvRem 3].
(** Put 2 is aborted; the insert and the delete run. *)
Definition nvm_after : list Event :=
  [EvPut 2 true; EvPut 2 true; EvPut 2 true; EvRem 3; EvRem 3; EvRem 3;
   EvExec 0; EvCallback 0; EvExec 0; EvCallback 0].

Definition nvm_w0 : World := default initial (run_sched nvm_before initial).
Definition nvm_w1 : World := default initial (sched (EvRem 3) nvm_w0).
Definition nvm_w2 : World := default initial (run_sched nvm_after nvm_w1).

Lemma nvm_run0 : run_sched nvm_before initial = Some nvm_w0.
Proof. vm_compute. reflexivity. Qed.
Lemma nvm_run2 : run_sched nvm_after nvm_w1 = Some nvm_w2.
Proof. vm_compute. reflexivity. Qed.

Definition rem_of (w : World) (tid : Z) : RemProc :=
  match procs w !! tid with Some (ProcRem r) => r | _ => mkRem [] None RemCreate ∅ end.
Definition put_of (w : World) (tid : Z) : PutProc :=
  match procs w !! tid with Some (ProcPut p) => p | _ => mkPut [] nvm_item None PutStart end.

Lemma nvm_delete_wins_witness :
  enabled nvm_w2 = true /\ ~ written_by nvm_w2 [7] 1 /\ ~ written_by nvm_w2 [7] 2.
Proof.
  split; [vm_compute; reflexivity|]. split.
  - apply (nvm_delete_wins nvm_w0 nvm_w2 nvm_w2 3 1 (rem_of nvm_w0 3) (rem_of nvm_w1 3) (rem_of nvm_w2 3)
             (put_of nvm_w0 1) true false (shard nvm_w1)); try (vm_compute; reflexivity).
    + apply (run_sched_steps nvm_before), nvm_run0.
    + apply (run_sched_steps nvm_after), nvm_run2.
  - apply (nvm_delete_wins nvm_w0 nvm_w2 nvm_w2 3 2 (rem_of nvm_w0 3) (rem_of nvm_w1 3) (rem_of nvm_w2 3)
             (put_of nvm_w0 2) true false (shard nvm_w1)); try (vm_compute; reflexivity).
    + apply (run_sched_steps nvm_before), nvm_run0.
    + apply (run_sched_steps nvm_after), nvm_run2.
Defined.

(** A find misses while put 1 is on its way; the put is aborted. *)
Definition miss_before : list Event :=
  [EvAcquire 1 [7] nvm_item; EvPut 1 true; EvPut 1 true; EvNewFind 2 [7]; EvFind 2].
Definition miss_check : list Event := [EvFind 2; EvFind 2; EvFind 2].
Definition miss_after : list Event := [EvPut 1 true; EvPut 1 true; EvPut 1 true; EvPut 1 true].

Definition miss_w0 : World := default initial (run_sched miss_before initial).
Definition miss_w1 : World := default initial (sched (EvFind 2) miss_w0).
Definition miss_w2 : World := default initial (run_sched miss_check miss_w1).
Definition miss_w3 : World := default initial (run_sched miss_after miss_w2).

Definition find_of (w : World) (tid : Z) : FindProc :=
  match procs w !! tid with Some (ProcFind f) => f | _ => mkFind [] FindStart ∅ end.

Lemma miss_run0 : run_sched miss_before initial = Some miss_w0.
Proof. vm_compute. reflexivity. Qed.
Lemma miss_run2 : run_sched miss_check miss_w1 = Some miss_w2.
Proof. vm_compute. reflexivity. Qed.
Lemma miss_run3 : run_sched miss_after miss_w2 = Some miss_w3.
Proof. vm_compute. reflexivity. Qed.

Lemma nvm_fast_miss_right_witness :
  p_pc (put_of miss_w3 1) = PutDone PutAborted /\ ~ written_by miss_w3 [7] 1.
Proof.
  split; [vm_compute; reflexivity|].
  apply (nvm_fast_miss_right miss_w0 miss_w2 miss_w3 2 1 (find_of miss_w0 2) (find_of miss_w1 2)
           (find_of miss_w2 2) (put_of miss_w0 1) true false false (shard miss_w1));
    try (vm_compute; reflexivity).
  - apply (run_sched_steps miss_before), miss_run0.
  - apply (run_sched_steps miss_check), miss_run2.
  - apply (run_sched_steps miss_after), miss_run3.
Defined.

(** ** The NVM cache: no step throws

    The tombstones are exactly those of the deletes under way, contexts exist
    when they are destroyed and not when they are created; so the exceptions
    of [TombStones] and [ContextMap] are never thrown. *)

Section exceptions.
Context {config_ : NvmConfig}.

(** The tombstone a thread is responsible for. *)
Definition guard_key (pr : Proc) : option nkey :=
  match pr with
  | ProcRem r => match r_pc r with RemCreate | RemDone _ => None | _ => Some (r_key r) end
  | _ => None
  end.

Definition guards (ps : gmap Z Proc) : list nkey := omap guard_key (map_to_list ps).*2.

(** Where that tombstone is: with the thread, or in the context of its job. *)
Definition rem_shape (ctxs : gmap Z TombStones.Guard) (tid : Z) (r : RemProc) : Prop :=
  match r_pc r with
  | RemCreate | RemDone _ => r_guard r = None /\ ctxs !! tid = None
  | RemEnqueue | RemQueued => r_guard r = None /\ ctxs !! tid = Some (Some (r_key r))
  | _ => r_guard r = Some (r_key r) /\ ctxs !! tid = None
  end.

Definition del_ctx (ctxs : gmap Z TombStones.Guard) (tid : Z) (pr : option Proc) : Prop :=
  match pr with Some (ProcRem r) => rem_shape ctxs tid r | _ => ctxs !! tid = None end.

Lemma del_ctx_other (ctxs ctxs' : gmap Z TombStones.Guard) (tid : Z) (pr : option Proc) :
  ctxs' !! tid = ctxs !! tid -> del_ctx ctxs tid pr -> del_ctx ctxs' tid pr.
Proof. intros E. destruct pr as [[p|r|f]|]; simpl; unfold rem_shape; by rewrite E. Qed.

Record tinv (w : World) : Prop := {
  t_counts : TombStones.counts (tombstones_ (shard w)) (guards (procs w));
  t_ctx tid : del_ctx (delContexts_ (shard w)) tid (procs w !! tid)
}.

Definition opt_list {A} (o : option A) : list A := match o with Some x => [x] | None => [] end.

Lemma guards_insert (ps : gmap Z Proc) (a : Z) (pr : Proc) :
  ps !! a = None -> guards (<[a := pr]> ps) ≡ₚ opt_list (guard_key pr) ++ guards ps.
Proof.
  intros Ha. unfold guards. rewrite (map_to_list_insert ps a pr Ha). simpl.
  by destruct (guard_key pr).
Qed.

Lemma guards_step (ps : gmap Z Proc) (a : Z) (pr pr' : Proc) :
  ps !! a = Some pr -> exists gs, guards ps ≡ₚ opt_list (guard_key pr) ++ gs /\
    guards (<[a := pr']> ps) ≡ₚ opt_list (guard_key pr') ++ gs.
Proof.
  intros Ha. exists (guards (delete a ps)). split.
  - rewrite <- (insert_delete_id ps a pr Ha) at 1. apply guards_insert, lookup_delete_eq.
  - rewrite <- (insert_delete_eq ps a pr'). apply guards_insert, lookup_delete_eq.
Qed.

Lemma counts_perm (keys : TombStones.t) (gs gs' : list nkey) :
  gs ≡ₚ gs' -> TombStones.counts keys gs -> TombStones.counts keys gs'.
Proof. intros Hp Hc k. rewrite (Hc k). by rewrite (TombStones.live_perm gs gs' k Hp). Qed.

Lemma guards_length (ps : gmap Z Proc) : (length (guards ps) <= size ps)%nat.
Proof.
  unfold guards. rewrite <- length_map_to_list, <- (length_fmap snd).
  generalize (map_to_list ps).*2. intros l. induction l as [|x l IH]; simpl; [lia|].
  unfold omap in IH. destruct (guard_key x); simpl; lia.
Qed.

(** A step that changes neither the tombstones of threads nor the contexts
    of deletes. *)
Lemma tinv_same (w w' : World) (a : Z) (pr : Proc) :
  tinv w -> tombstones_ (shard w') = tombstones_ (shard w) ->
  delContexts_ (shard w') = delContexts_ (shard w) -> procs w' = <[a := pr]> (procs w) ->
  match procs w !! a with Some old => guard_key pr = guard_key old | None => guard_key pr = None end ->
  del_ctx (delContexts_ (shard w)) a (Some pr) -> tinv w'.
Proof.
  intros [Hc Hx] Ht Hd Hp Hg Hctx. constructor.
  - rewrite Ht, Hp. eapply counts_perm; [|exact Hc]. destruct (procs w !! a) as [old|] eqn:E.
    + destruct (guards_step (procs w) a old pr E) as (gs & -> & ->). by rewrite Hg.
    + by rewrite (guards_insert _ _ _ E), Hg.
  - intros tid. rewrite Hd, Hp. destruct (decide (tid = a)) as [->|Hne].
    + by rewrite lookup_insert_eq.
    + rewrite lookup_insert_ne by done. apply Hx.
Qed.

(** ** Deletes *)

Lemma add_guard (w : World) (a : Z) (r : RemProc) :
  tinv w -> procs w !! a = Some (ProcRem r) -> guard_key (ProcRem r) = None ->
  Z.of_nat (size (procs w)) + 1 < 2 ^ 64 ->
  exists t', TombStones.add (r_key r) (tombstones_ (shard w)) = (Ok (Some (r_key r)), t') /\
    TombStones.counts t' (r_key r :: guards (procs w)).
Proof.
  intros Ht Hp Hg Hs. apply TombStones.add_counts; [apply Ht|].
  pose proof (guards_length (procs w)). unfold zlen. lia.
Qed.

Lemma drop_guard (w : World) (a : Z) (pr pr' : Proc) (k : nkey) :
  tinv w -> procs w !! a = Some pr -> guard_key pr = Some k -> guard_key pr' = None ->
  exists t', TombStones.destroyGuard (Some k) (tombstones_ (shard w)) = (Ok tt, t') /\
    TombStones.counts t' (guards (<[a := pr']> (procs w))).
Proof.
  intros Ht Hp Hg Hg'. destruct (guards_step (procs w) a pr pr' Hp) as (gs & E1 & E2).
  rewrite Hg in E1. rewrite Hg' in E2. simpl in E1, E2.
  destruct (TombStones.remove_counts (tombstones_ (shard w)) gs k) as (t' & E & Hc).
  { eapply counts_perm; [exact E1|apply Ht]. }
  exists t'. split; [done|]. by eapply counts_perm; [symmetry; exact E2|].
Qed.

(** A delete's step runs unless it waits for its job or is done. *)
Lemma remStep_total (w : World) (tid : Z) (could : bool) (r : RemProc) :
  tinv w -> procs w !! tid = Some (ProcRem r) -> Z.of_nat (size (procs w)) + 1 < 2 ^ 64 ->
  match r_pc r with RemQueued | RemDone _ => False | _ => True end ->
  exists r' s', remStep tid could (dom (procs w)) r (shard w) = (Ok r', s') /\
    tinv (mkWorld s' (<[tid := ProcRem r']> (procs w))).
Proof.
  intros Ht Hp Hs Hpc. pose proof (t_ctx w Ht tid) as Hx. rewrite Hp in Hx. simpl in Hx.
  unfold rem_shape in Hx. destruct r as [k g pc O]. cbn [r_pc r_key r_guard] in *.
  assert (Hquiet : forall g' pc' O' s', tombstones_ s' = tombstones_ (shard w) ->
    delContexts_ s' = delContexts_ (shard w) ->
    guard_key (ProcRem (mkRem k g' pc' O')) = guard_key (ProcRem (mkRem k g pc O)) ->
    rem_shape (delContexts_ (shard w)) tid (mkRem k g' pc' O') ->
    tinv (mkWorld s' (<[tid := ProcRem (mkRem k g' pc' O')]> (procs w)))).
  { intros g' pc' O' s' E1 E2 E3 E4. eapply tinv_same; [exact Ht|done..| |done]. by rewrite Hp. }
  unfold remStep. destruct pc; try done; cbn [r_pc r_key r_guard r_older].
  - destruct (add_guard w tid _ Ht Hp) as (t' & E & Hc); [done|done|]. simpl in E.
    unfold bind, ret, onTombstones. rewrite E. eexists _, _. split; [done|]. constructor.
    + simpl. destruct (guards_step (procs w) tid _ (ProcRem (mkRem k (Some k) RemStart O)) Hp)
        as (gs & E1 & E2). eapply counts_perm; [|exact Hc]. rewrite E1, E2. done.
    + intros t. simpl. destruct (decide (t = tid)) as [->|Hne].
      * rewrite lookup_insert_eq. simpl. unfold rem_shape. simpl. by destruct Hx.
      * rewrite lookup_insert_ne by done. apply (t_ctx w Ht).
  - run_shard. destruct (navyEnabled_ (shard w)); eexists _, _; (split; [done|]); by apply Hquiet.
  - run_shard. eexists _, _. split; [done|]. by apply Hquiet.
  - run_shard. destruct (ContextMap.hasContexts _); eexists _, _; (split; [done|]); by apply Hquiet.
  - destruct could; eexists _, _; (split; [done|]); by apply Hquiet.
  - destruct Hx as [-> Hx]. unfold ContextMap.createContext. run_shard. rewrite Hx. eexists _, _.
    split; [done|]. constructor.
    + simpl. destruct (guards_step (procs w) tid _ (ProcRem (mkRem k None RemEnqueue O)) Hp)
        as (gs & E1 & E2). eapply counts_perm; [|apply Ht]. rewrite E1, E2. done.
    + intros t. simpl. destruct (decide (t = tid)) as [->|Hne].
      * rewrite lookup_insert_eq. simpl. unfold rem_shape. simpl. by rewrite lookup_insert_eq.
      * rewrite lookup_insert_ne by done. eapply del_ctx_other; [|apply (t_ctx w Ht)].
        by rewrite lookup_insert_ne.
  - eexists _, _. split; [done|]. by apply Hquiet.
  - destruct Hx as [-> Hx].
    destruct (drop_guard w tid _ (ProcRem (mkRem k None (RemDone skipped) O)) k Ht Hp) as (t' & E & Hc);
      [done|done|]. unfold bind, ret, onTombstones. rewrite E. eexists _, _. split; [done|].
    constructor; [done|].
    intros t. simpl. destruct (decide (t = tid)) as [->|Hne].
    + by rewrite lookup_insert_eq.
    + rewrite lookup_insert_ne by done. apply (t_ctx w Ht).
Qed.

(** ** Callbacks *)

Lemma callback_total (w : World) c1 c2 (j : Job) (st : Status) :
  inv w -> tinv w -> completing (navy w) = c1 ++ (j, st) :: c2 ->
  exists s', callback config_ j st (shard (set_navy (mkNavy (content (navy w)) (queue (navy w)) (c1 ++ c2)) w)) = (Ok tt, s') /\
    tinv (mkWorld s' (finish j (procs w))).
Proof.
  intros Hi Ht Hc. assert (Hin : j ∈ all_jobs w).
  { apply elem_of_app. right. rewrite Hc, fmap_app. apply elem_of_app. right. by apply elem_of_cons; left. }
  pose proof (inv_owner w Hi j Hin) as Ho. destruct j as [k a v|k a]; simpl in Ho |- *.
  - destruct Ho as (p & _ & _ & _ & _ & [x Hx]). unfold insertCallback, ContextMap.destroyContext, disableNavy.
    destruct (decide (st = BadState)); run_shard;
      destruct (navyEnabled_ (shard w)), (disableNvmCacheOnBadState config_); simpl; rewrite Hx;
      eexists; (split; [done|]); destruct Ht; by constructor.
  - destruct Ho as (r & Hp & Hk & Hpc). pose proof (t_ctx w Ht a) as Hx. rewrite Hp in Hx.
    simpl in Hx. unfold rem_shape in Hx. rewrite Hpc in Hx. destruct Hx as [Hg Hx].
    destruct (drop_guard w a _ (ProcRem (rem_at (RemDone false) r)) (r_key r) Ht Hp) as (t' & E & Hcn);
      [simpl; by rewrite Hpc|done|].
    unfold removeCallback, ContextMap.destroyContext, disableNavy, bind, onDelContexts, onTombstones, get, modify, ret.
    cbn [delContexts_ set_navy shard onNavy]. unfold onNavy, modify. cbn [snd delContexts_ tombstones_].
    rewrite Hx. cbn [delContexts_ tombstones_]. rewrite E.
    assert (Hend : forall s', tombstones_ s' = t' -> delContexts_ s' = delete a (delContexts_ (shard w)) ->
      tinv (mkWorld s' (alter (fun p => match p with ProcRem r => ProcRem (rem_at (RemDone false) r) | _ => p end)
                          a (procs w)))).
    { intros s' E1 E2. rewrite (alter_some _ _ _ _ Hp). constructor; simpl; [by rewrite E1|].
      intros t. rewrite E2. destruct (decide (t = a)) as [->|Hne].
      - rewrite lookup_insert_eq. simpl. unfold rem_shape. simpl. by rewrite lookup_delete_eq.
      - rewrite lookup_insert_ne by done. eapply del_ctx_other; [|apply (t_ctx w Ht)].
        by rewrite lookup_delete_ne. }
    cbn [navyEnabled_]. destruct (removed_status st), (navyEnabled_ (shard w)), (disableNvmCacheOnBadState config_); cbn [andb];
      eexists; (split; [done|]); by apply Hend.
Qed.

(** ** All steps *)

Definition runnable_put (p : PutProc) : bool :=
  match p_pc p with PutDone _ => false | _ => true end.

Lemma putStep_moves (tid : Z) (accept : bool) (p : PutProc) (s s' : Shard) :
  putStep tid accept p s = (Ok p, s') -> False.
Proof.
  intros E. apply (f_equal fst) in E. destruct p as [k i tok pc].
  unfold putStep in E. cbn [p_pc p_item p_key p_token] in E.
  destruct pc; unfold bind, get, ret, put_at in E; repeat case_match; simplify_eq/=.
Qed.

Lemma remStep_moves (tid : Z) (could : bool) (O : gset Z) (r : RemProc) (s s' : Shard) :
  remStep tid could O r s = (Ok r, s') -> False.
Proof.
  intros E. apply (f_equal fst) in E. destruct r as [k g pc O'].
  unfold remStep in E. cbn [r_pc r_key r_guard r_older] in E.
  destruct pc; unfold bind, get, ret, rem_at in E; repeat case_match; simplify_eq/=.
Qed.

Lemma findStep_total (could a b : bool) (O : gset Z) (f : FindProc) (s : Shard) :
  match f_pc f with FindReturned | FindFastMiss | FindWait => false | _ => true end = true ->
  exists f' s', findStep could a b O f s = (Ok f', s') /\ f' <> f.
Proof.
  destruct f as [k pc O']. unfold findStep. cbn [f_pc f_key f_older]. intros Hr.
  destruct pc as [| |[]|[]|[]| | |]; try done; unfold bind, get, ret, find_next, find_at; simpl;
    repeat case_match; eexists _, _; (split; [reflexivity|]); intros [=].
Qed.

Lemma putStep_frame (tid : Z) (accept : bool) (p p' : PutProc) (s s' : Shard) :
  putStep tid accept p s = (Ok p', s') -> tombstones_ s' = tombstones_ s /\ delContexts_ s' = delContexts_ s.
Proof.
  unfold putStep. destruct (p_pc p); unfold bind, get, ret, onPutContexts, onPuts, throw;
    repeat case_match; by intros; simplify_eq/=.
Qed.

Lemma findStep_frame (could a b : bool) (O : gset Z) (f f' : FindProc) (s s' : Shard) :
  findStep could a b O f s = (Ok f', s') -> tombstones_ s' = tombstones_ s /\ delContexts_ s' = delContexts_ s.
Proof.
  unfold findStep. destruct (f_pc f); unfold bind, get, ret, onPuts, throw;
    repeat case_match; by intros; simplify_eq/=.
Qed.

(** Steps run and change the thread. *)
Lemma putStep_total (tid : Z) (p : PutProc) (s : Shard) e s' :
  put_ctx (putContexts_ s) tid p -> runnable_put p = true ->
  putStep tid true p s = (Throw e, s') -> False.
Proof.
  unfold put_ctx, runnable_put, putStep. destruct (p_pc p) eqn:Hpc; intros Hc Hr; try done.
  - run_shard. by repeat case_match.
  - run_shard. by repeat case_match.
  - destruct (nvmItem (p_item p)); [|done]. unfold ContextMap.createContext. run_shard. by rewrite Hc.
  - unfold bind, onPuts. destruct (p_token p) as [k0|]; [|done].
    unfold InFlightPuts.tokenExecute, InFlightPuts.executeIfValid. run_shard.
    by case_bool_decide.
  - destruct Hc as [[x Hc] _]. unfold ContextMap.destroyContext. run_shard. by rewrite Hc.
  - destruct (p_token p); by run_shard.
Qed.

Lemma tinv_one_step (w w' : World) :
  inv w -> tinv w -> Z.of_nat (size (procs w)) + 1 < 2 ^ 64 -> step w w' -> tinv w'.
Proof.
  intros Hi Ht Hsz Hs. destruct Hs as [w tid key item o f tok s' H1 H2|w key o e e' s' H1|w tid key item H1|w tid acc p p' s' H1 H2|w tid key H1
    |w tid could r r' s' H1 H2 H3|w tid key H1|w tid could ir fi f f' s' H1 H2 H3
    |w q1 j q2 st c' H1 H2 H3|w c1 j st c2 s' H1 H2|w key|w].
  - unfold onPuts in H2. destruct (InFlightPuts.tryAcquireToken _ _ _ _) as [x [y [z u]]].
    destruct x; simplify_eq. eapply (tinv_same w _ tid); try done; [by rewrite H1|].
    pose proof (t_ctx w Ht tid) as Hx. by rewrite H1 in Hx.
  - unfold onPuts in H1. destruct (InFlightPuts.tryAcquireToken _ _ _ _) as [x [y [z u]]].
    destruct x; simplify_eq. destruct Ht. by constructor.
  - eapply (tinv_same w _ tid); try done; [by rewrite H1|].
    pose proof (t_ctx w Ht tid) as Hx. by rewrite H1 in Hx.
  - destruct (putStep_frame _ _ _ _ _ _ H2) as [E1 E2].
    eapply (tinv_same w _ tid); try done; [by rewrite H1|].
    pose proof (t_ctx w Ht tid) as Hx. by rewrite H1 in Hx.
  - eapply (tinv_same w _ tid); try done; [by rewrite H1|].
    pose proof (t_ctx w Ht tid) as Hx. rewrite H1 in Hx. by split.
  - destruct (remStep_total w tid could r Ht H1 Hsz) as (r1 & s1 & E & Ht1).
    + unfold remStep in H3. by destruct (r_pc r).
    + rewrite H3 in E. by injection E as -> ->.
  - eapply (tinv_same w _ tid); try done; [by rewrite H1|].
    pose proof (t_ctx w Ht tid) as Hx. by rewrite H1 in Hx.
  - destruct (findStep_frame _ _ _ _ _ _ _ _ H3) as [E1 E2].
    eapply (tinv_same w _ tid); try done; [by rewrite H1|].
    pose proof (t_ctx w Ht tid) as Hx. by rewrite H1 in Hx.
  - destruct Ht. by constructor.
  - destruct (callback_total w c1 c2 j st Hi Ht H1) as (s1 & E & Ht1). rewrite H2 in E. by injection E as ->.
  - destruct Ht. by constructor.
  - unfold disableNavy, modify. cbn [snd]. destruct (_ && _); destruct Ht; by constructor.
Qed.

Lemma size_grows (w w' : World) : step w w' -> (size (procs w) <= size (procs w'))%nat.
Proof.
  assert (Hins : forall a (x : Proc) (ps : gmap Z Proc), (size ps <= size (<[a := x]> ps))%nat).
  { intros a x ps. rewrite map_size_insert. destruct (ps !! a); simpl; lia. }
  intros Hs. destruct Hs as [| | | | | | | | |w c1 j st c2 s' H1 H2| |]; simpl; try apply Hins; try done.
  destruct j as [|k a]; simpl; [done|]. destruct (procs w !! a) as [x|] eqn:E.
  - rewrite (alter_some _ _ _ _ E). apply Hins.
  - assert (Hd : size (dom (alter (fun p => match p with ProcRem r => ProcRem (rem_at (RemDone false) r) | _ => p end)
                             a (procs w))) = size (dom (procs w))) by by rewrite dom_alter_L.
    rewrite !size_dom in Hd. rewrite Hd. lia.
Qed.

Lemma tinv_reachable (w : World) :
  reachable w -> Z.of_nat (size (procs w)) + 1 < 2 ^ 64 -> inv w /\ tinv w.
Proof.
  revert w. unfold reachable.
  apply (rtc_ind_r (fun w => Z.of_nat (size (procs w)) + 1 < 2 ^ 64 -> inv w /\ tinv w) initial).
  - intros _. split; [apply inv_initial|]. constructor; [|done].
    intros k. simpl. unfold guards. by rewrite map_to_list_empty.
  - intros w1 w2 _ Hs IH Hsz. pose proof (size_grows w1 w2 Hs).
    destruct IH as [Hi Ht]; [lia|]. split; [by eapply inv_one_step|].
    eapply tinv_one_step; [exact Hi|exact Ht|lia|done].
Qed.

Lemma guards_elem (ps : gmap Z Proc) (k : nkey) :
  k ∈ guards ps <-> exists tid pr, ps !! tid = Some pr /\ guard_key pr = Some k.
Proof.
  unfold guards. rewrite list_elem_of_omap. split.
  - intros (pr & Hin & Hg). apply list_elem_of_fmap in Hin as ([tid pr'] & -> & Hin).
    apply elem_of_map_to_list in Hin. eauto.
  - intros (tid & pr & Hl & Hg). exists pr. split; [|done]. apply list_elem_of_fmap.
    exists (tid, pr). split; [done|]. by apply elem_of_map_to_list.
Qed.

(** A thread that can be scheduled: not done and not waiting for Navy. *)
Definition runnable (pr : Proc) : bool :=
  match pr with
  | ProcPut p => match p_pc p with PutDone _ => false | _ => true end
  | ProcRem r => match r_pc r with RemQueued | RemDone _ => false | _ => true end
  | ProcFind f => match f_pc f with FindReturned | FindFastMiss | FindWait => false | _ => true end
  end.

(** The exceptions [put] throws on its arguments: an item that is clean in NVM
    and was not evicted from it, and a chained item. *)
Definition put_refuses (i : Item) : option exn :=
  if isNvmClean i && negb (isNvmEvicted i) then Some RuntimeError
  else if isChainedItem i then Some InvalidArgument
  else None.

(** A put that throws has an item it refuses. *)
Definition threw_ok (pr : Proc) : Prop :=
  match pr with
  | ProcPut p =>
      match p_pc p with
      | PutCleanup (PutThrew e) | PutExit (PutThrew e) | PutDone (PutThrew e) => put_refuses (p_item p) = Some e
      | _ => True
      end
  | _ => True
  end.

Lemma putStep_threw (tid : Z) (accept : bool) (p p' : PutProc) (s s' : Shard) :
  threw_ok (ProcPut p) -> putStep tid accept p s = (Ok p', s') -> threw_ok (ProcPut p').
Proof.
  intros Hok E. apply (f_equal fst) in E. destruct p as [k i tok pc]. unfold threw_ok, put_refuses in *.
  unfold putStep in E. cbn [p_pc p_item p_key p_token] in *.
  destruct pc; unfold bind, get, ret, put_at in E; repeat case_match; simplify_eq/=; congruence.
Qed.

Lemma step_threw (w w' : World) (tid : Z) (pr' : Proc) :
  (forall t pr, procs w !! t = Some pr -> threw_ok pr) -> step w w' ->
  procs w' !! tid = Some pr' -> threw_ok pr'.
Proof.
  intros Hok Hs. assert (Hins : forall a x, threw_ok x -> <[a := x]> (procs w) !! tid = Some pr' -> threw_ok pr').
  { intros a x Hx. destruct (decide (a = tid)) as [->|Hne].
    - rewrite lookup_insert_eq. by intros [= <-].
    - rewrite lookup_insert_ne by done. apply Hok. }
  destruct Hs as [w t key item o f tok s' H1 H2|w key o e e' s' H1|w t key item H1|w t acc p p' s' H1 H2|w t key H1
    |w t could r r' s' H1 H2 H3|w t key H1|w t could ir fi f f' s' H1 H2 H3
    |w q1 j q2 st c' H1 H2 H3|w c1 j st c2 s' H1 H2|w key|w]; simpl; try by apply Hins; try by apply Hok.
  - by apply Hok.
  - apply Hins. eapply putStep_threw; [|exact H2]. by eapply (Hok t).
  - by apply Hok.
  - destruct j as [k a v|k a]; simpl; [by apply Hok|]. rewrite lookup_alter_Some.
    intros [(-> & [p|r|f] & H3 & ->)|[_ H3]]; try done; by eapply (Hok _ _ H3).
  - by apply Hok.
  - by apply Hok.
Qed.

Lemma reachable_threw (w : World) : reachable w -> forall t pr, procs w !! t = Some pr -> threw_ok pr.
Proof.
  revert w. apply (rtc_ind_r (fun w => forall t pr, procs w !! t = Some pr -> threw_ok pr) initial); [done|].
  intros w1 w2 _ Hs IH t pr. by apply (step_threw w1 w2 t pr IH Hs).
Qed.

(** C35. The exceptions of the bookkeeping are never thrown. In every
    reachable state of a shard, in any configuration, with fewer than 2^64
    threads and with token callbacks that may throw, every thread that can be
    scheduled can take its next step and every finished job its callback:
    destroying a tombstone or a context and creating one never finds the maps
    in the wrong state. The only exceptions a put ends with are those on its
    arguments: runtime_error for an item that is clean in NVM and not evicted
    from it, invalid_argument for a chained item. A key has a tombstone
    exactly while a delete of it is between creating its tombstone and the
    end of its job. *)
Theorem nvm_no_exceptions (w : World) (tid : Z) (pr : Proc) :
  reachable w -> Z.of_nat (size (procs w)) + 1 < 2 ^ 64 -> procs w !! tid = Some pr ->
  (runnable pr = true -> exists w', step w w' /\ procs w' !! tid <> Some pr) /\
  (forall c1 j st c2, completing (navy w) = c1 ++ (j, st) :: c2 ->
     exists s', step w (mkWorld s' (finish j (procs w)))) /\
  (forall p e, pr = ProcPut p -> p_pc p = PutExit (PutThrew e) \/ p_pc p = PutDone (PutThrew e) ->
     put_refuses (p_item p) = Some e) /\
  (forall k, hasTombStone (shard w) k = true <->
     exists t pr', procs w !! t = Some pr' /\ guard_key pr' = Some k).
Proof.
  intros Hr Hsz Hp. destruct (tinv_reachable w Hr Hsz) as [Hi Ht]. split_and!.
  - intros Hrun. destruct pr as [p|r|f].
    + destruct (inv_proc w Hi tid _ Hp) as [_ Hctx].
      destruct (putStep tid true p (shard w)) as [[p'|e] s'] eqn:E.
      * exists (mkWorld s' (<[tid := ProcPut p']> (procs w))). split; [by eapply step_put|].
        simpl. rewrite lookup_insert_eq. intros [= ->]. by apply putStep_moves in E.
      * by destruct (putStep_total tid p (shard w) e s' Hctx Hrun E).
    + destruct (remStep_total w tid true r Ht Hp Hsz) as (r' & s' & E & _).
      { simpl in Hrun. by destruct (r_pc r). }
      exists (mkWorld s' (<[tid := ProcRem r']> (procs w))). split; [by eapply step_rem|].
      simpl. rewrite lookup_insert_eq. intros [= ->]. by apply remStep_moves in E.
    + destruct (findStep_total true true true (dom (procs w)) f (shard w)) as (f' & s' & E & Hm).
      { done. }
      exists (mkWorld s' (<[tid := ProcFind f']> (procs w))). split; [by eapply step_find|].
      simpl. rewrite lookup_insert_eq. intros [= ->]. done.
  - intros c1 j st c2 Hc. destruct (callback_total w c1 c2 j st Hi Ht Hc) as (s' & E & _).
    exists s'. by eapply step_callback.
  - intros p e -> Hpc. pose proof (reachable_threw w Hr _ _ Hp) as Hok. simpl in Hok.
    by destruct Hpc as [Hpc|Hpc]; rewrite Hpc in Hok.
  - intros k. unfold hasTombStone, TombStones.isPresent. rewrite bool_decide_eq_true.
    rewrite (t_counts w Ht k), <- guards_elem, <- TombStones.live_In.
    pose proof (TombStones.live_nonneg (guards (procs w)) k).
    destruct (Z.eqb_spec (TombStones.live (guards (procs w)) k) 0) as [->|].
    + split; [intros [x [=]]|lia].
    + split; [lia|eauto].
Qed.

End exceptions.

(** A delete is about to invalidate its token, a put of an item that is clean
    in NVM is about to return with its exception. *)
Definition clean_item : Item := mkItem true false false false (Some [42]).
Definition throwing : list Event := nvm_before ++ [EvAcquire 4 [8] clean_item; EvPut 4 true].
Definition throwing_w : World := default initial (run_sched throwing initial).

Lemma throwing_run : run_sched throwing initial = Some throwing_w.
Proof. vm_compute. reflexivity. Qed.

Lemma nvm_no_exceptions_witness :
  (exists w', step throwing_w w' /\ procs w' !! 3 <> Some (ProcRem (rem_of throwing_w 3))) /\
  p_pc (put_of throwing_w 4) = PutExit (PutThrew RuntimeError) /\
  put_refuses (p_item (put_of throwing_w 4)) = Some RuntimeError /\
  (hasTombStone (shard throwing_w) [7] = true <->
   exists t pr', procs throwing_w !! t = Some pr' /\ guard_key pr' = Some [7]).
Proof.
  destruct (nvm_no_exceptions throwing_w 3 (ProcRem (rem_of throwing_w 3))) as (H1 & _ & _ & H3).
  { apply (run_sched_steps throwing), throwing_run. }
  { vm_compute. reflexivity. }
  { vm_compute. reflexivity. }
  destruct (nvm_no_exceptions throwing_w 4 (ProcPut (put_of throwing_w 4))) as (_ & _ & H2 & _).
  { apply (run_sched_steps throwing), throwing_run. }
  { vm_compute. reflexivity. }
  { vm_compute. reflexivity. }
  split_and!; [apply H1; vm_compute; reflexivity|vm_compute; reflexivity| |apply H3].
  eapply H2; [done|]. left. vm_compute. reflexivity.
Defined.

(** A callback that throws while a token is being acquired leaves its key
    behind: no token for the key can be acquired any more. *)
Example throwing_callback_leaks_token :
  result_of (InFlightPuts.tryAcquireToken true [7] (ret true))
    (state_of (InFlightPuts.tryAcquireToken true [7] (throw RuntimeError)) (∅, tt))
  = Ok (inr InFlightPuts.TOKEN_EXISTS).
Proof. vm_compute. reflexivity. Qed.
