(* ===== verification/FurcHash.v ===== *)
(** * Consistent hashing

    [src/cachelib/common/FurcHash.cpp] and [MurmurHash.h]: the two Murmur
    hashes, and [furcHash], which picks one of [nPart] parts for a key by
    walking down a tree of pseudo-random bits, so that few keys move when the
    number of parts changes. *)

From S2P Require Import Prelude Bytes.
From stdpp Require Import base tactics numbers list.

#[local] Open Scope Z_scope.
#[local] Open Scope cachelib_scope.

(** ** Murmur hashes *)

Definition m64 : Z := 0xc6a4a7935bd1e995.
Definition kMurmur2Seed : Z := 4193360111.

(** [h ^= h >> r]. *)
Definition xorshift (r h : Z) : Z := Z.lxor h (Z.shiftr h r).

(** The words of 8 bytes, then the rest. *)
Fixpoint murmur64_loop (fuel : nat) (data : bytes) (h : Z) : Z * bytes :=
  match fuel with
  | O => (h, data)
  | S fuel =>
      let k := le_to_Z (take 8 data) in
      let k := u64 (xorshift 47 (u64 (k * m64)) * m64) in
      murmur64_loop fuel (drop 8 data) (u64 (Z.lxor h k * m64))
  end.

(** The cases of the switch fall through to the ones below; the first byte is
    followed by the multiplication. *)
Fixpoint murmur_tail (i : Z) (data : bytes) (h : Z) : Z :=
  match data with
  | [] => h
  | b :: data => Z.lxor (murmur_tail (i + 1) data h) (Z.shiftl b (8 * i))
  end.

Definition murmurHash64A (key : bytes) (len seed : Z) : Z :=
  let h := Z.lxor seed (u64 (len * m64)) in
  let '(h, data2) := murmur64_loop (Z.to_nat (len / 8)) key h in
  let rest := take (Z.to_nat (Z.land len 7)) data2 in
  let h := match rest with [] => h | _ => u64 (murmur_tail 0 rest h * m64) end in
  xorshift 47 (u64 (xorshift 47 h * m64)).

Definition murmurRehash64A (key : Z) : Z :=
  let h := Z.lxor kMurmur2Seed (u64 (8 * m64)) in
  let key := u64 (xorshift 47 (u64 (key * m64)) * m64) in
  let h := u64 (Z.lxor h key * m64) in
  xorshift 47 (u64 (xorshift 47 h * m64)).

Definition m32 : Z := 0x5bd1e995.

Fixpoint murmur32_loop (fuel : nat) (data : bytes) (h : Z) : Z * bytes :=
  match fuel with
  | O => (h, data)
  | S fuel =>
      let k := le_to_Z (take 4 data) in
      let k := u32 (xorshift 24 (u32 (k * m32)) * m32) in
      murmur32_loop fuel (drop 4 data) (Z.lxor (u32 (h * m32)) k)
  end.

Definition murmurHash2 (key : bytes) (len seed : Z) : Z :=
  let h := Z.lxor seed len in
  let '(h, data) := murmur32_loop (Z.to_nat (len / 4)) key h in
  let rest := take (Z.to_nat (len mod 4)) data in
  let h := match rest with [] => h | _ => u32 (murmur_tail 0 rest h * m32) end in
  xorshift 15 (u32 (xorshift 13 h * m32)).

(** ** [furcHash] *)

Definition kMaxTries : nat := 32.
Definition kFurcShift : Z := 23.
Definition kHashCacheSize : Z := 300.

(** The initialised front of [hashCache], up to [hashIdx]. *)
Record FurcHashState : Type := mkFurc { hashIdx : Z; hashCache : list Z }.

(** The loop that extends the cache. *)
Fixpoint extend (n : nat) : M FurcHashState unit :=
  match n with
  | O => ret tt
  | S n =>
      let! s := get in
      match last (hashCache s) with
      | None => throw UndefinedBehavior
      | Some h =>
          do! Prelude.guard (negb (zlen (hashCache s) <? kHashCacheSize)) UndefinedBehavior in
          do! modify (fun s => mkFurc (hashIdx s) (hashCache s ++ [murmurRehash64A h])) in
          extend n
      end
  end.

Definition getbit (choice : Z) : M FurcHashState bool :=
  let newHashIdx := Z.shiftr choice 6 in
  let! s := get in
  do! (if hashIdx s <? newHashIdx then
         do! extend (Z.to_nat (newHashIdx - hashIdx s)) in
         modify (fun s => mkFurc newHashIdx (hashCache s))
       else ret tt) in
  let! s := get in
  match hashCache s !! Z.to_nat newHashIdx with
  | Some h => ret (Z.testbit h (Z.land choice 63))
  | None => throw UndefinedBehavior
  end.

(** [for (bitNum = 0; nPart > (1ul << bitNum); bitNum++)]. *)
Fixpoint count_bits (fuel : nat) (nPart bitNum : Z) : Z :=
  match fuel with
  | O => bitNum
  | S fuel => if Z.shiftl 1 bitNum <? nPart then count_bits fuel nPart (bitNum + 1) else bitNum
  end.

(** The [while] loop: [None] when [bitNum] reaches 0. *)
Fixpoint find_one (bitNum : nat) (choice : Z) : M FurcHashState (option (nat * Z)) :=
  let! b := getbit choice in
  if b : bool then ret (Some (bitNum, choice)) else
  match bitNum with
  | O => throw UndefinedBehavior
  | S O => ret None
  | S n => find_one n (Z.of_nat n)
  end.

(** The [for] loop that gathers [n] bits. *)
Fixpoint gather (n : nat) (choice result : Z) : M FurcHashState (Z * Z) :=
  match n with
  | O => ret (choice, result)
  | S n =>
      let! b := getbit choice in
      gather n (u32 (choice + kFurcShift)) (u32 (Z.lor (Z.shiftl result 1) (if b : bool then 1 else 0)))
  end.

Fixpoint furc_tries (tries : nat) (nPart : Z) (bitNum : nat) (choice : Z) : M FurcHashState Z :=
  match tries with
  | O => ret 0
  | S tries =>
      let! x := find_one bitNum choice in
      match x with
      | None => ret 0
      | Some (bitNum, choice) =>
          let! y := gather (bitNum - 1) (u32 (choice + kFurcShift)) 1 in
          let '(choice, result) := y in
          if result <? nPart then ret result else furc_tries tries nPart bitNum choice
      end
  end.

Definition furcHash (key : bytes) (nPart : Z) : res Z :=
  if nPart <=? 1 then Ok 0 else
  let state := mkFurc 0 [murmurHash64A key (zlen key) kMurmur2Seed] in
  let bitNum := count_bits 33 nPart 0 in
  fst (furc_tries kMaxTries nPart (Z.to_nat bitNum) bitNum state).

(** ** The stream of bits

    Bit [i] of a key: what [getbit] computes, without its cache. *)

Definition stream_hash (h : Z) (n : nat) : Z := Nat.iter n murmurRehash64A h.
Definition stream (h : Z) (i : Z) : bool := Z.testbit (stream_hash h (Z.to_nat (i / 64))) (i mod 64).

Definition cached (h : Z) (s : FurcHashState) : Prop :=
  0 <= hashIdx s /\ hashCache s = stream_hash h <$> seq 0 (Z.to_nat (hashIdx s) + 1).

Lemma cached_last (h : Z) (n : nat) :
  last (stream_hash h <$> seq 0 (n + 1)) = Some (stream_hash h n).
Proof. rewrite seq_app, fmap_app. simpl. by rewrite last_snoc. Qed.

Lemma extend_run (h : Z) (k n : nat) (idx : Z) :
  Z.of_nat (n + k) < kHashCacheSize ->
  extend k (mkFurc idx (stream_hash h <$> seq 0 (n + 1)))
  = (Ok tt, mkFurc idx (stream_hash h <$> seq 0 (n + k + 1))).
Proof.
  revert n. induction k as [|k IH]; intros n Hk; [by rewrite Nat.add_0_r|].
  cbn [extend]. unfold bind at 1. unfold get. cbn [hashCache]. rewrite cached_last.
  unfold bind, Prelude.guard, modify, ret, kHashCacheSize in *. unfold zlen.
  rewrite length_fmap, length_seq. rewrite (proj2 (Z.ltb_lt _ _)) by lia. cbn [negb].
  cbn [hashIdx hashCache].
  replace ((stream_hash h <$> seq 0 (n + 1)) ++ [murmurRehash64A (stream_hash h n)])
    with (stream_hash h <$> seq 0 (S n + 1)).
  - rewrite IH by lia. do 3 f_equal. do 2 f_equal. lia.
  - replace (S n + 1)%nat with (n + 1 + 1)%nat by lia. rewrite (seq_app (n + 1) 1), fmap_app.
    replace (0 + (n + 1))%nat with (S n) by lia. done.
Qed.

Lemma getbit_run (h choice : Z) (s : FurcHashState) :
  cached h s -> 0 <= choice < 64 * kHashCacheSize ->
  exists s', getbit choice s = (Ok (stream h choice), s') /\ cached h s'.
Proof.
  intros [Hi Hc] Hch. destruct s as [idx cache]. simpl in *. subst cache.
  unfold getbit. rewrite Z.shiftr_div_pow2 by lia. change (2 ^ 6) with 64.
  assert (Hq : 0 <= choice / 64 < kHashCacheSize).
  { split; [apply Z.div_pos; lia|]. apply Z.div_lt_upper_bound; lia. }
  assert (Hend : forall idx', choice / 64 <= idx' -> 
    (stream_hash h <$> seq 0 (Z.to_nat idx' + 1)) !! Z.to_nat (choice / 64) =
    Some (stream_hash h (Z.to_nat (choice / 64)))).
  { intros idx' Hle. rewrite list_lookup_fmap, lookup_seq_lt by lia. done. }
  assert (Hland : Z.land choice 63 = choice mod 64) by (apply (Z.land_ones choice 6); lia).
  unfold bind, get. cbn [hashIdx]. destruct (Z.ltb_spec idx (choice / 64)) as [Hlt|Hge].
  - rewrite (extend_run h _ (Z.to_nat idx)) by lia. unfold modify. cbn [hashCache].
    replace (Z.to_nat idx + Z.to_nat (choice / 64 - idx))%nat with (Z.to_nat (choice / 64)) by lia.
    rewrite Hend by lia. unfold ret. rewrite Hland. eexists. split; [done|]. split; simpl; [lia|done].
  - unfold ret. cbn [hashCache]. rewrite Hend by lia. rewrite Hland.
    eexists. split; [done|]. by split.
Qed.

(** ** The walk over the bits

    The loops of [furcHash] on the bits of the stream; [None] where the code
    runs out of tries. *)

Section walk.
  Context (bit : Z -> bool).

Fixpoint wfind (bitNum : nat) (choice : Z) : option (nat * Z) :=
  if bit choice then Some (bitNum, choice) else
  match bitNum with
  | O => None
  | S n => match n with O => None | S _ => wfind n (Z.of_nat n) end
  end.

Fixpoint wgather (n : nat) (choice result : Z) : Z :=
  match n with
  | O => result
  | S n => wgather n (choice + kFurcShift) (2 * result + Z.b2z (bit choice))
  end.

Fixpoint walk (tries : nat) (nPart : Z) (bitNum : nat) (choice : Z) : option Z :=
  match tries with
  | O => None
  | S tries =>
      match wfind bitNum choice with
      | None => Some 0
      | Some (bitNum, choice) =>
          let result := wgather (bitNum - 1) (choice + kFurcShift) 1 in
          if result <? nPart then Some result
          else walk tries nPart bitNum (choice + kFurcShift * Z.of_nat bitNum)
      end
  end.

Lemma wfind_shape (b : nat) (c : Z) (b' : nat) (c' : Z) :
  (1 <= b)%nat -> wfind b c = Some (b', c') ->
  (1 <= b' <= b)%nat /\ (b' = b /\ c' = c \/ c' = Z.of_nat b').
Proof.
  revert c. induction b as [|b IH]; intros c Hb; [lia|]. cbn [wfind].
  destruct (bit c); [intros [= <- <-]; by split; [lia|left]|].
  destruct b as [|b]; [done|]. intros H. apply IH in H; [|lia].
  destruct H as [? [[-> ->]| ->]]; (split; [lia|by right]).
Qed.

(** Each bit gathered doubles the range of the result. *)
Lemma wgather_range (n : nat) (c r : Z) :
  r * 2 ^ Z.of_nat n <= wgather n c r < (r + 1) * 2 ^ Z.of_nat n.
Proof.
  revert c r. induction n as [|n IH]; intros c r; cbn [wgather]; [simpl; lia|].
  specialize (IH (c + kFurcShift) (2 * r + Z.b2z (bit c))).
  rewrite Nat2Z.inj_succ, Z.pow_succ_r by lia.
  assert (0 < 2 ^ Z.of_nat n) by (apply Z.pow_pos_nonneg; lia).
  destruct (bit c); cbn [Z.b2z] in *; nia.
Qed.

Lemma walk_range (tries : nat) (nPart : Z) (b : nat) (c r : Z) :
  1 < nPart -> walk tries nPart b c = Some r -> 0 <= r < nPart.
Proof.
  intros Hn. revert b c. induction tries as [|t IH]; intros b c; [done|]. cbn [walk].
  destruct (wfind b c) as [[b' c']|]; [|intros [= <-]; lia].
  destruct (Z.ltb_spec (wgather (b' - 1) (c' + kFurcShift) 1) nPart) as [Hlt|]; [|apply IH].
  intros [= <-]. pose proof (wgather_range (b' - 1) (c' + kFurcShift) 1).
  assert (0 < 2 ^ Z.of_nat (b' - 1)) by (apply Z.pow_pos_nonneg; lia). lia.
Qed.

(** One more part, same depth: the walks agree until one of them reaches the
    new part. *)
Lemma walk_same_depth (tries : nat) (n : Z) (b : nat) (c : Z) :
  walk tries (n + 1) b c = walk tries n b c \/ walk tries (n + 1) b c = Some n.
Proof.
  revert b c. induction tries as [|t IH]; intros b c; [by left|]. cbn [walk].
  destruct (wfind b c) as [[b' c']|]; [|by left].
  set (r := wgather _ _ _). destruct (Z.ltb_spec r n), (Z.ltb_spec r (n + 1)); try lia;
    [by left|right; f_equal; lia|apply IH].
Qed.

(** With [2 ^ b] parts the first try at depth [b] is accepted. *)
Lemma walk_full_depth (tries : nat) (b : nat) (c n : Z) :
  (1 <= b)%nat -> 2 ^ Z.of_nat b <= n ->
  walk (S tries) n b c = match wfind b c with
                         | None => Some 0
                         | Some (b', c') => Some (wgather (b' - 1) (c' + kFurcShift) 1)
                         end.
Proof.
  intros Hb Hn. cbn [walk]. destruct (wfind b c) as [[b' c']|] eqn:E; [|done].
  apply wfind_shape in E as [Hb' _]; [|done].
  pose proof (wgather_range (b' - 1) (c' + kFurcShift) 1) as [_ Hr].
  rewrite (proj2 (Z.ltb_lt _ _)); [done|]. eapply Z.lt_le_trans; [exact Hr|].
  etrans; [|exact Hn]. change ((1 + 1) * 2 ^ Z.of_nat (b' - 1)) with (2 * 2 ^ Z.of_nat (b' - 1)).
  rewrite <- Z.pow_succ_r by lia. apply Z.pow_le_mono_r; lia.
Qed.

(** One level deeper: the new level either yields the new part, or runs out
    of tries, or hands over to the old walk. *)
Lemma walk_one_deeper (tries : nat) (b : nat) (c : Z) :
  (1 <= b)%nat ->
  let n := 2 ^ Z.of_nat b in
  walk tries (n + 1) (S b) c = None \/ walk tries (n + 1) (S b) c = Some n \/
  walk tries (n + 1) (S b) c = walk 1 n b (Z.of_nat b).
Proof.
  intros Hb n. revert c. induction tries as [|t IH]; intros c; [by left|].
  destruct (bit c) eqn:Eb.
  - cbn [walk wfind]. rewrite Eb. set (r := wgather _ _ _).
    destruct (Z.ltb_spec r (n + 1)) as [Hr|_]; [|apply IH].
    right. left. f_equal. pose proof (wgather_range (S b - 1) (c + kFurcShift) 1) as [Hl _].
    fold r in Hl. replace (S b - 1)%nat with b in Hl by lia. fold n in Hl. lia.
  - right. right. rewrite (walk_full_depth 0 b _ n) by (done || reflexivity).
    rewrite <- (walk_full_depth t b (Z.of_nat b) (n + 1)) by (done || lia).
    cbn [walk wfind]. rewrite Eb. destruct b as [|b]; [lia|]. done.
Qed.
End walk.

Definition depth (nPart : Z) : nat := Z.to_nat (count_bits 33 nPart 0).

Definition furc_walk (key : bytes) (nPart : Z) : option Z :=
  walk (stream (murmurHash64A key (zlen key) kMurmur2Seed)) kMaxTries nPart (depth nPart)
    (Z.of_nat (depth nPart)).

(** ** The code follows the walk *)

Lemma find_one_run (h : Z) (b : nat) (c : Z) (s : FurcHashState) :
  cached h s -> (1 <= b)%nat -> 0 <= c < 64 * kHashCacheSize -> Z.of_nat b < 64 * kHashCacheSize ->
  exists s', find_one b c s = (Ok (wfind (stream h) b c), s') /\ cached h s'.
Proof.
  revert c s. induction b as [|b IH]; intros c s Hs Hb Hc Hb2; [lia|].
  destruct (getbit_run h c s Hs Hc) as (s1 & E1 & Hs1).
  cbn [find_one wfind]. unfold bind. rewrite E1. destruct (stream h c); [by eexists|].
  destruct b as [|b]; [by eexists|]. apply IH; auto; lia.
Qed.

Lemma gather_run (h : Z) (n : nat) (c r : Z) (s : FurcHashState) :
  cached h s -> 0 <= c -> c + kFurcShift * Z.of_nat n < 64 * kHashCacheSize ->
  0 <= r -> (r + 1) * 2 ^ Z.of_nat n <= 2 ^ 32 ->
  exists s', gather n c r s = (Ok (c + kFurcShift * Z.of_nat n, wgather (stream h) n c r), s') /\
    cached h s'.
Proof.
  revert c r s. induction n as [|n IH]; intros c r s Hs Hc Hn Hr Hr2.
  - exists s. cbn [gather wgather]. unfold ret. split; [|done]. do 3 f_equal. lia.
  - rewrite Nat2Z.inj_succ in Hn, Hr2. rewrite Z.pow_succ_r in Hr2 by lia.
    unfold kFurcShift, kHashCacheSize in *.
    assert (0 < 2 ^ Z.of_nat n) by (apply Z.pow_pos_nonneg; lia).
    destruct (getbit_run h c s Hs) as (s1 & E1 & Hs1); [unfold kHashCacheSize; lia|].
    cbn [gather wgather]. unfold bind at 1. rewrite E1. unfold kFurcShift in *.
    assert (Hlor : Z.lor (Z.shiftl r 1) (if stream h c then 1 else 0)
                   = 2 * r + Z.b2z (stream h c)).
    { rewrite Z.shiftl_mul_pow2 by lia. change (2 ^ 1) with 2. rewrite (Z.mul_comm r).
      destruct (stream h c); cbn [Z.b2z]; [|by rewrite Z.lor_0_r; lia].
      destruct r; try lia; reflexivity. }
    rewrite Hlor. rewrite !u32_small by (unfold is_u32 in *; destruct (stream h c); cbn [Z.b2z]; nia).
    destruct (IH (c + 23) (2 * r + Z.b2z (stream h c)) s1) as (s2 & E2 & Hs2); auto;
      try (destruct (stream h c); cbn [Z.b2z]; nia).
    exists s2. split; [|done]. rewrite E2. do 3 f_equal. lia.
Qed.

Lemma furc_tries_run (h : Z) (tries : nat) (nPart c : Z) (b : nat) (B : Z) (s : FurcHashState) :
  cached h s -> (1 <= b)%nat -> Z.of_nat b <= B -> B <= 26 ->
  0 <= c -> c + kFurcShift * B * Z.of_nat tries <= B + kFurcShift * B * Z.of_nat kMaxTries ->
  (tries <= kMaxTries)%nat ->
  exists s', furc_tries tries nPart b c s
             = (Ok (default 0 (walk (stream h) tries nPart b c)), s').
Proof.
  unfold kFurcShift, kMaxTries. revert c b s.
  induction tries as [|t IH]; intros c b s Hs Hb HbB HB Hc Hmax Ht; [by exists s|].
  destruct (find_one_run h b c s) as (s1 & E1 & Hs1); auto; try (unfold kHashCacheSize; nia).
  cbn [furc_tries walk]. unfold bind. rewrite E1.
  destruct (wfind (stream h) b c) as [[b' c']|] eqn:Ef; [|by eexists].
  apply wfind_shape in Ef as [Hb' Hc']; [|done].
  assert (Hc2 : 0 <= c' /\ c' + 23 * B * Z.of_nat (S t) <= B + 23 * B * 32).
  { destruct Hc' as [[-> ->]| ->]; nia. }
  rewrite u32_small by (unfold is_u32, kFurcShift; nia).
  assert (H2 : 2 * 2 ^ Z.of_nat (b' - 1) <= 2 ^ 32).
  { rewrite <- Z.pow_succ_r by lia. apply Z.pow_le_mono_r; lia. }
  destruct (gather_run h (b' - 1) (c' + kFurcShift) 1 s1) as (s2 & E2 & Hs2);
    auto; try (unfold kFurcShift, kHashCacheSize; nia).
  rewrite E2. destruct (_ <? nPart); [by eexists|].
  replace (c' + kFurcShift + kFurcShift * Z.of_nat (b' - 1))
    with (c' + kFurcShift * Z.of_nat b') by (unfold kFurcShift; nia).
  apply IH; auto; unfold kFurcShift; nia.
Qed.

(** The depth is the least one at which there are as many leaves as parts. *)
Lemma count_bits_spec (fuel : nat) (nPart i : Z) :
  0 <= i -> 2 ^ i < 2 * nPart -> nPart <= 2 ^ (i + Z.of_nat fuel) ->
  i <= count_bits fuel nPart i /\
  nPart <= 2 ^ count_bits fuel nPart i /\ 2 ^ count_bits fuel nPart i < 2 * nPart.
Proof.
  revert i. induction fuel as [|f IH]; intros i Hi Hlo Hup; cbn [count_bits].
  - rewrite Z.add_0_r in Hup. lia.
  - rewrite Z.shiftl_1_l. destruct (Z.ltb_spec (2 ^ i) nPart) as [Hlt|Hge]; [|lia].
    destruct (IH (i + 1)) as (H1 & H2 & H3); try lia.
    + rewrite Z.pow_add_r by lia. lia.
    + etrans; [exact Hup|]. apply Z.pow_le_mono_r; lia.
Qed.

Lemma depth_spec (nPart : Z) :
  1 <= nPart <= 2 ^ 32 -> nPart <= 2 ^ Z.of_nat (depth nPart) < 2 * nPart.
Proof.
  intros Hn. unfold depth.
  destruct (count_bits_spec 33 nPart 0) as (H1 & H2 & H3); try lia.
  rewrite Z2Nat.id by lia. lia.
Qed.

Lemma depth_unique (nPart : Z) (b : nat) :
  1 <= nPart <= 2 ^ 32 -> nPart <= 2 ^ Z.of_nat b < 2 * nPart -> depth nPart = b.
Proof.
  intros Hn [Hb1 Hb2]. destruct (depth_spec nPart Hn) as [Hd1 Hd2].
  assert (~ (depth nPart < b)%nat).
  { intros Hlt. assert (2 ^ Z.of_nat (S (depth nPart)) <= 2 ^ Z.of_nat b)
      by (apply Z.pow_le_mono_r; lia).
    rewrite Nat2Z.inj_succ, Z.pow_succ_r in * by lia. lia. }
  assert (~ (b < depth nPart)%nat).
  { intros Hlt. assert (2 ^ Z.of_nat (S b) <= 2 ^ Z.of_nat (depth nPart))
      by (apply Z.pow_le_mono_r; lia).
    rewrite Nat2Z.inj_succ, Z.pow_succ_r in * by lia. lia. }
  lia.
Qed.

Lemma depth_bounds (nPart : Z) :
  1 < nPart <= 2 ^ 26 -> (1 <= depth nPart <= 26)%nat.
Proof.
  intros Hn. destruct (depth_spec nPart) as [H1 H2]; [lia|].
  split; apply Nat.nlt_ge; intros Hlt.
  - replace (depth nPart) with 0%nat in H1 by lia. simpl in H1. lia.
  - assert (2 ^ 27 <= 2 ^ Z.of_nat (depth nPart)) by (apply Z.pow_le_mono_r; lia). lia.
Qed.

Lemma furcHash_run (key : bytes) (nPart : Z) :
  1 < nPart <= 2 ^ 26 -> furcHash key nPart = Ok (default 0 (furc_walk key nPart)).
Proof.
  intros Hn. unfold furcHash, furc_walk. rewrite (proj2 (Z.leb_gt _ _)) by lia.
  set (h := murmurHash64A _ _ _). pose proof (depth_bounds nPart Hn) as Hd.
  fold (depth nPart).
  assert (Ed : count_bits 33 nPart 0 = Z.of_nat (depth nPart)).
  { unfold depth in *. lia. }
  rewrite Ed.
  destruct (furc_tries_run h kMaxTries nPart (Z.of_nat (depth nPart)) (depth nPart)
              (Z.of_nat (depth nPart)) (mkFurc 0 [h])) as [s' E]; try lia; [done|].
  by rewrite E.
Qed.

(** ** Properties *)

(** [furcHash] always returns, and a legal part: for every key and every
    number of parts up to [2 ^ 26] (eight times the documented limit), no index
    outside the 300 cached hashes is read or written and the result is below
    [nPart] (0 when there is no part or a single one). *)
Lemma furc_in_range (key : bytes) (nPart : Z) :
  0 <= nPart <= 2 ^ 26 ->
  exists r, furcHash key nPart = Ok r /\ 0 <= r < Z.max 1 nPart.
Proof.
  intros Hn. destruct (Z.le_gt_cases nPart 1) as [Hle|Hgt].
  - exists 0. unfold furcHash. rewrite (proj2 (Z.leb_le _ _)) by lia. split; [done|lia].
  - rewrite furcHash_run by lia. eexists. split; [done|].
    destruct (furc_walk key nPart) as [r|] eqn:E; simpl; [|lia].
    apply walk_range in E; lia.
Qed.

(** C32. The hash is consistent: adding one part moves a key only to the new
    part, every other key stays where it was. The one exception is a key whose
    walk runs out of its 32 tries, which goes to part 0. *)
Theorem furc_consistent (key : bytes) (n : Z) :
  1 <= n < 2 ^ 26 -> furc_walk key (n + 1) <> None ->
  furcHash key (n + 1) = furcHash key n \/ furcHash key (n + 1) = Ok n.
Proof.
  intros Hn Hw. rewrite (furcHash_run key (n + 1)) by lia.
  destruct (decide (n = 1)) as [->|Hn1].
  { destruct (furc_walk key (1 + 1)) as [r|] eqn:E; [|done].
    apply walk_range in E; [|lia]. assert (r = 0 \/ r = 1) as [-> | ->] by lia; [by left|by right]. }
  rewrite furcHash_run by lia. unfold furc_walk in *. set (bit := stream _) in *.
  pose proof (depth_spec n ltac:(lia)) as Hd. pose proof (depth_bounds n ltac:(lia)) as Hb.
  set (b := depth n) in *. destruct (decide (n = 2 ^ Z.of_nat b)) as [E|Hne].
  - assert (E2 : depth (n + 1) = S b).
    { apply depth_unique; [lia|]. rewrite Nat2Z.inj_succ, Z.pow_succ_r by lia. lia. }
    rewrite E2 in *. destruct (walk_one_deeper bit kMaxTries b (Z.of_nat (S b))) as [H|[H|H]];
      [lia|..]; rewrite <- E in H; [by rewrite H in Hw|by rewrite H; right|].
    left. rewrite H. change kMaxTries with (S 31).
    by rewrite !(walk_full_depth bit _ b (Z.of_nat b) n) by lia.
  - assert (E2 : depth (n + 1) = b) by (apply depth_unique; lia).
    rewrite E2 in *. destruct (walk_same_depth bit kMaxTries n b (Z.of_nat b)) as [H|H];
      rewrite H; [by left|by right].
Qed.

Lemma furc_consistent_witness :
  furcHash [97; 98; 99] 1024 = furcHash [97; 98; 99] 1023 \/ furcHash [97; 98; 99] 1024 = Ok 1023.
Proof. apply (furc_consistent [97; 98; 99] 1023); [lia|]. vm_compute. discriminate. Defined.
