(* ===== verification/CCacheBucket.v ===== *)
(** * Buckets of the compact cache

    [src/cachelib/compact_cache/CCacheFixedLruBucket.h]: a bucket is an array
    of [kEntriesPerBucket] packed entries kept in LRU order, most recently
    inserted or promoted first; a slot whose key is empty ends the list. The
    key and value types, their emptiness test and the capacity are template
    arguments, here the fields of the class [Descriptor]. *)

From S2P Require Import Prelude Bytes.
From stdpp Require Import base tactics numbers list.

#[local] Open Scope Z_scope.

(** The template arguments ([CCacheDescriptor.h], [FixedLruBucket]): keys are
    compared by [==], hashed by their bytes; [zeroKey] and [zeroValue] are
    what zeroed memory reads as. *)
Class Descriptor : Type := {
  Key : Type;
  Value : Type;
  Key_eq_dec :: EqDecision Key;
  isEmpty : Key -> bool;
  keyBytes : Key -> bytes;
  zeroKey : Key;
  zeroValue : Value;
  kHasValues : bool;
  sizeofValue : Z;
  kEntriesPerBucket : nat
}.

(** What the bucket relies on: zeroed memory is an empty slot, [NoValue] has
    one value, and a bucket has a slot. *)
Class DescriptorOk (D : Descriptor) : Prop := {
  zero_isEmpty : isEmpty zeroKey = true;
  no_value : kHasValues = false -> forall v w : Value, v = w;
  entries_pos : (1 <= kEntriesPerBucket)%nat
}.

Record Entry `{Descriptor} : Type := mkEntry { e_key : Key; e_val : Value }.
Arguments mkEntry {_} _ _.

Notation Bucket := (list Entry).

Module FixedLruBucket.
Section operations.
  Context `{D : Descriptor}.

(** [memmove] of [n] entries from index [src] to index [dst]. *)
Definition memmove (b : Bucket) (dst src n : nat) : Bucket :=
  take dst b ++ take n (drop src b) ++ drop (dst + n) b.

Definition zeroEntry : Entry := mkEntry zeroKey zeroValue.

(** A freshly allocated bucket: zeroed memory. *)
Definition zeroBucket : Bucket := replicate kEntriesPerBucket zeroEntry.

(** A handle is the index [pos_] of an entry of the bucket; the default
    handle has [-1]. [entryAt] is [operator bool] and the entry referred to. *)
Definition entryAt (b : Bucket) (pos : Z) : option Entry :=
  if (0 <=? pos) && (pos <? Z.of_nat kEntriesPerBucket) then
    match b !! Z.to_nat pos with
    | Some e => if isEmpty (e_key e) then None else Some e
    | None => None
    end
  else None.

Definition isBucketTail (b : Bucket) (pos : Z) : bool :=
  bool_decide (is_Some (entryAt b pos)) && (pos =? Z.of_nat kEntriesPerBucket - 1).

Definition nEntriesCapacity (b : Bucket) : Z := Z.of_nat kEntriesPerBucket.

(** [insert] with the entry its [evictionCb] is called on. *)
Definition insert (b : Bucket) (key : Key) (val : Value) : Bucket * option Entry :=
  let evicted :=
    match b !! (kEntriesPerBucket - 1)%nat with
    | Some e => if isEmpty (e_key e) then None else Some e
    | None => None
    end in
  let b := memmove b 1 0 (kEntriesPerBucket - 1) in
  let b := alter (fun e => mkEntry key (e_val e)) 0%nat b in
  let b := if kHasValues then alter (fun e => mkEntry (e_key e) val) 0%nat b else b in
  (b, evicted).

(** [promote]: the bucket and the new position of the handle. *)
Definition promote (b : Bucket) (pos : nat) : Bucket * nat :=
  if (pos =? 0)%nat then (b, pos) else
  match b !! pos with
  | Some winner => (<[0%nat := winner]> (memmove b 1 0 pos), 0%nat)
  | None => (b, pos)
  end.

Definition needs_promote (pos : nat) : bool := (kEntriesPerBucket / 4 <? pos)%nat.

Definition del (b : Bucket) (pos : nat) : Bucket :=
  <[(kEntriesPerBucket - 1)%nat := zeroEntry]>
    (memmove b pos (pos + 1) (kEntriesPerBucket - pos - 1)).

Definition updateVal (b : Bucket) (pos : nat) (val : Value) : Bucket :=
  if kHasValues then alter (fun e => mkEntry (e_key e) val) pos b else b.

(** [bucketFind] of [CCache.h]: the handle of the first entry with the key. *)
Fixpoint find_loop (fuel : nat) (b : Bucket) (key : Key) (pos : nat) : option nat :=
  match fuel with
  | O => None
  | S fuel =>
      match entryAt b (Z.of_nat pos) with
      | None => None
      | Some e => if bool_decide (e_key e = key) then Some pos else find_loop fuel b key (S pos)
      end
  end.
Definition bucketFind (b : Bucket) (key : Key) : option nat :=
  find_loop (S kEntriesPerBucket) b key 0.
End operations.

(** ** What a bucket holds *)

Section refinement.
  Context `{D : Descriptor} {Dok : DescriptorOk D}.

(** [b] holds the entries [l], in LRU order. *)
Definition holds (l : list Entry) (b : Bucket) : Prop :=
  b = l ++ replicate (kEntriesPerBucket - length l) zeroEntry /\
  (length l <= kEntriesPerBucket)%nat /\
  Forall (fun e => isEmpty (e_key e) = false) l /\
  NoDup (e_key <$> l).

Definition key_index (k : Key) (l : list Entry) : option nat :=
  find_index (fun e => bool_decide (e_key e = k)) l.

Lemma holds_zero : holds [] zeroBucket.
Proof.
  split; [|split; [|split]]; [|simpl; lia|done|apply NoDup_nil_2].
  simpl. by rewrite Nat.sub_0_r.
Qed.

Lemma holds_entryAt (l : list Entry) (b : Bucket) (pos : nat) :
  holds l b -> entryAt b (Z.of_nat pos) = l !! pos.
Proof.
  intros (-> & Hlen & Hne & _). unfold entryAt. rewrite Nat2Z.id.
  destruct (decide (pos < length l)%nat) as [Hlt|Hge].
  - rewrite (proj2 (Z.leb_le _ _)), (proj2 (Z.ltb_lt _ _)) by lia. simpl.
    rewrite lookup_app_l by done. destruct (lookup_lt_is_Some_2 l pos Hlt) as [e He].
    rewrite He. rewrite Forall_lookup in Hne. by rewrite (Hne _ _ He).
  - rewrite (lookup_ge_None_2 l) by lia. destruct (_ && _); [|done].
    rewrite lookup_app_r by lia. destruct (replicate _ _ !! _) as [e|] eqn:E; [|done].
    apply lookup_replicate in E as [-> _]. simpl. by rewrite zero_isEmpty.
Qed.

Lemma find_loop_spec (l : list Entry) (b : Bucket) (k : Key) (fuel pos : nat) :
  holds l b -> (length l <= pos + fuel)%nat ->
  find_loop fuel b k pos = (fun i => pos + i)%nat <$> key_index k (drop pos l).
Proof.
  intros Hb. unfold key_index. revert pos. induction fuel as [|fuel IH]; intros pos Hf; simpl.
  - by rewrite drop_ge by lia.
  - rewrite (holds_entryAt l) by done. destruct (l !! pos) as [e|] eqn:E.
    + rewrite (drop_S l e pos E). simpl.
      case_bool_decide; [cbn; f_equal; lia|].
      rewrite IH by lia. destruct (find_index _ _) as [i|]; simpl; [|done]. f_equal. lia.
    + apply lookup_ge_None in E. by rewrite drop_ge.
Qed.

Lemma bucketFind_spec (l : list Entry) (b : Bucket) (k : Key) :
  holds l b -> bucketFind b k = key_index k l.
Proof.
  intros Hb. pose proof Hb as (_ & Hlen & _). unfold bucketFind.
  rewrite (find_loop_spec l) by (done || lia). rewrite drop_0.
  by destruct (key_index k l).
Qed.

(** The operations as operations on the list. *)

Lemma holds_length (l : list Entry) (b : Bucket) :
  holds l b -> length b = kEntriesPerBucket.
Proof. intros (-> & Hlen & _). rewrite length_app, length_replicate. lia. Qed.

Lemma key_index_Some (k : Key) (l : list Entry) (i : nat) :
  key_index k l = Some i -> exists e, l !! i = Some e /\ e_key e = k.
Proof.
  intros H. apply find_index_Some in H as (e & He & Hk).
  exists e. by rewrite bool_decide_eq_true in Hk.
Qed.

Lemma key_index_None (k : Key) (l : list Entry) :
  key_index k l = None <-> k ∉ e_key <$> l.
Proof.
  unfold key_index. rewrite find_index_None. rewrite list_elem_of_fmap. split.
  - intros H (e & -> & He). specialize (H e He). by rewrite bool_decide_eq_false in H.
  - intros H e He. apply bool_decide_eq_false. intros <-. eauto.
Qed.

Lemma memmove_down (x : Entry) (b : Bucket) (n : nat) :
  memmove (x :: b) 1 0 n = x :: take n (x :: b) ++ drop n b.
Proof. reflexivity. Qed.

Lemma set_front (x : Entry) (b : Bucket) (k : Key) (v : Value) :
  (if kHasValues then alter (fun e => mkEntry (e_key e) v) 0%nat
       (alter (fun e => mkEntry k (e_val e)) 0%nat (x :: b))
     else alter (fun e => mkEntry k (e_val e)) 0%nat (x :: b))
  = mkEntry k v :: b.
Proof. destruct kHasValues eqn:E; simpl; [done|]. by rewrite (no_value E (e_val x) v). Qed.

Lemma insert_spec (l : list Entry) (b : Bucket) (k : Key) (v : Value) :
  holds l b -> isEmpty k = false -> k ∉ e_key <$> l ->
  exists b', insert b k v = (b', l !! (kEntriesPerBucket - 1)%nat) /\
    holds (take kEntriesPerBucket (mkEntry k v :: l)) b'.
Proof.
  intros Hb Hk Hnew. pose proof (holds_length l b Hb) as Hlb.
  pose proof (holds_entryAt l b (kEntriesPerBucket - 1) Hb) as Hev. pose proof entries_pos as Hpos.
  unfold insert. unfold entryAt in Hev. rewrite Nat2Z.id in Hev.
  rewrite (proj2 (Z.leb_le _ _)), (proj2 (Z.ltb_lt _ _)) in Hev by lia. simpl in Hev.
  rewrite Hev. destruct Hb as (-> & Hlen & Hne & Hnd).
  destruct kEntriesPerBucket as [|n] eqn:EK; [lia|]. simpl. rewrite Nat.sub_0_r.
  destruct (l ++ replicate (S n - length l) zeroEntry) as [|x b] eqn:Eb; [done|].
  rewrite memmove_down, set_front. eexists. split; [done|].
  rewrite (drop_ge b) by (simpl in Hlb; lia). rewrite app_nil_r, <- Eb.
  assert (Hlt : (length (take n l) <= n)%nat) by (rewrite length_take; lia).
  unfold holds. rewrite EK. split; [|split; [simpl; lia|split]].
  - cbn [app length]. f_equal. rewrite take_app, take_replicate, length_take. do 2 f_equal. lia.
  - constructor; [done|by apply Forall_take].
  - cbn [fmap list_fmap e_key]. rewrite fmap_take. constructor;
      [|rewrite <- (take_drop n) in Hnd; by apply NoDup_app in Hnd as [? _]].
    intros Hin. apply Hnew. rewrite <- (take_drop n). by apply elem_of_app; left.
Qed.

Lemma holds_split (l : list Entry) (b : Bucket) (pos : nat) (e : Entry) :
  holds l b -> l !! pos = Some e ->
  b !! pos = Some e /\ take pos b ++ drop (S pos) b = delete pos l ++ drop (length l) b /\
  (pos < length l <= kEntriesPerBucket)%nat.
Proof.
  intros (-> & Hlen & _) He. pose proof (lookup_lt_Some _ _ _ He) as Hlt.
  split; [by rewrite lookup_app_l|]. split; [|lia].
  rewrite take_app_le, drop_app_le by lia. rewrite delete_take_drop, drop_app_length.
  by rewrite app_assoc.
Qed.

Lemma holds_reorder (l l' : list Entry) (b : Bucket) :
  holds l b -> l' ≡ₚ l -> holds l' (l' ++ drop (length l) b).
Proof.
  intros (-> & Hlen & Hne & Hnd) Hp. rewrite drop_app_length.
  pose proof (Permutation_length Hp) as HL. split; [by rewrite HL|].
  split; [by rewrite HL|]. split; [by rewrite Hp|]. by rewrite Hp.
Qed.

Lemma promote_spec (l : list Entry) (b : Bucket) (pos : nat) (e : Entry) :
  holds l b -> l !! pos = Some e ->
  exists b', promote b pos = (b', 0%nat) /\ holds (e :: delete pos l) b'.
Proof.
  intros Hb He. destruct (holds_split l b pos e Hb He) as (Hbe & Hsp & Hlt).
  unfold promote. destruct (Nat.eqb_spec pos 0) as [->|Hne].
  - exists b. split; [done|]. destruct l as [|x l]; [done|]. by injection He as ->.
  - rewrite Hbe. eexists. split; [done|]. pose proof (holds_length l b Hb) as Hlb.
    destruct b as [|x b]; [simpl in Hlb; lia|]. rewrite memmove_down.
    change (<[0%nat:=e]> (x :: take pos (x :: b) ++ drop pos b))
      with (e :: (take pos (x :: b) ++ drop (S pos) (x :: b))).
    rewrite Hsp. apply (holds_reorder l (e :: delete pos l) (x :: b)); [done|].
    by rewrite <- (delete_Permutation l pos e).
Qed.

Lemma del_spec (l : list Entry) (b : Bucket) (pos : nat) (e : Entry) :
  holds l b -> l !! pos = Some e -> holds (delete pos l) (del b pos).
Proof.
  intros Hb He. destruct (holds_split l b pos e Hb He) as (Hbe & Hsp & Hlt).
  pose proof (holds_length l b Hb) as Hlb. destruct Hb as (-> & Hlen & Hne & Hnd).
  set (b := l ++ _) in *. 
  assert (Hr : drop (length l) b = replicate (kEntriesPerBucket - length l) zeroEntry)
    by apply drop_app_length.
  rewrite Hr in Hsp. unfold del, memmove. replace (pos + 1)%nat with (S pos) by lia.
  rewrite (take_ge (drop (S pos) b)) by (rewrite length_drop; lia).
  rewrite app_assoc, Hsp. clear Hbe Hsp.
  assert (Hd : length (delete pos l) = (length l - 1)%nat)
    by (apply length_delete; eauto).
  rewrite insert_app_r_alt by (rewrite length_app, length_replicate; lia).
  replace (kEntriesPerBucket - 1 - length (delete pos l ++ replicate (kEntriesPerBucket - length l) zeroEntry))%nat
    with 0%nat by (rewrite length_app, length_replicate; lia).
  destruct (drop (pos + (kEntriesPerBucket - pos - 1)) b) as [|x [|y r]] eqn:Er;
    [apply (f_equal length) in Er; rewrite length_drop in Er; simpl in Er; lia| |
     apply (f_equal length) in Er; rewrite length_drop in Er; simpl in Er; lia].
  split; [|split; [lia|split]].
  - simpl. rewrite Hd, <- app_assoc. f_equal. 
    change [zeroEntry] with (replicate 1 zeroEntry). rewrite <- replicate_add. f_equal. lia.
  - by apply Forall_delete.
  - rewrite (delete_Permutation l pos e He) in Hnd. by apply NoDup_cons in Hnd as [_ ?].
Qed.

Lemma updateVal_spec (l : list Entry) (b : Bucket) (pos : nat) (e : Entry) (v : Value) :
  holds l b -> l !! pos = Some e -> holds (<[pos := mkEntry (e_key e) v]> l) (updateVal b pos v).
Proof.
  intros (-> & Hlen & Hne & Hnd) He. pose proof (lookup_lt_Some _ _ _ He) as Hlt.
  assert (E : updateVal (l ++ replicate (kEntriesPerBucket - length l) zeroEntry) pos v
              = <[pos := mkEntry (e_key e) v]> l ++ replicate (kEntriesPerBucket - length l) zeroEntry).
  { unfold updateVal. destruct kHasValues eqn:Ek.
    - rewrite <- insert_app_l by done. apply list_eq. intros i.
      destruct (decide (i = pos)) as [->|].
      + rewrite list_lookup_alter_eq, list_lookup_insert_eq, lookup_app_l, He by
          (rewrite ?length_app; lia). done.
      + by rewrite list_lookup_alter_ne, list_lookup_insert_ne.
    - rewrite list_insert_id; [done|]. rewrite He. f_equal. destruct e. simpl. f_equal.
      by apply no_value. }
  rewrite E. split; [by rewrite length_insert|]. split; [by rewrite length_insert|].
  rewrite Forall_lookup in Hne. split.
  - apply Forall_insert; [by apply Forall_lookup|]. simpl. by eapply Hne.
  - rewrite list_fmap_insert. simpl. rewrite list_insert_id; [done|].
    by rewrite list_lookup_fmap, He.
Qed.
End refinement.
End FixedLruBucket.
