(* ===== verification/CCache.v ===== *)
(** * The compact cache

    [src/cachelib/compact_cache/CCache.h] over buckets of fixed-size values,
    with the chunk bookkeeping of [src/cachelib/allocator/CCacheAllocator.cpp].
    The table is a list of chunks of [bucketsPerChunk_] buckets; a key lives in
    the chunk [furcHash] names, at the bucket [MurmurHash2] names.

    The user's callbacks are logged: [EvRemove] and [EvReplace] are the calls
    of [removeCb_] and [replaceCb_], [EvStat] an incremented counter. A timed
    lock is a boolean: whether it was acquired. *)

From S2P Require Import Prelude Bytes FurcHash CCacheBucket.
From stdpp Require Import base tactics numbers list.

#[local] Open Scope Z_scope.
#[local] Open Scope cachelib_scope.

Inductive RemoveContext : Type := kEviction | kNormal.

Inductive CCStat : Type :=
| st_set | st_setErr | st_setMiss | st_setHit
| st_del | st_delErr | st_delMiss | st_delHit
| st_get | st_getErr | st_getMiss | st_getHit
| st_evictions | st_tailHits | st_lockTimeout | st_promoteTimeout
| st_purgeSuccess | st_purgeErr.

Inductive CCEvent `{Descriptor} : Type :=
| EvRemove (k : Key) (v : Value) (c : RemoveContext)
| EvReplace (k : Key) (old new : Value)
| EvStat (st : CCStat).

Inductive BucketReturn : Type := BR_ERROR | BR_NOTFOUND | BR_FOUND | BR_PROMOTE.
Inductive CCacheReturn : Type := CC_TIMEOUT | CC_ERROR | CC_NOTFOUND | CC_FOUND.
Inductive Operation : Type := READ | WRITE.
Inductive RehashOperation : Type := COPY | DELETE.
Inductive PurgeFilterResult : Type := SKIP | PURGE | ABORT.

(** The callbacks and constants fixed at construction. *)
Class CConfig `{Descriptor} : Type := {
  removeCb_ : bool;
  replaceCb_ : bool;
  validCb_ : option (Key -> bool);
  allowPromotions_ : bool;
  bucketsPerChunk_ : Z;
  getChunkSize : Z
}.

Record CCache `{Descriptor} : Type := mkCC {
  chunks : list (list Bucket);
  numChunks_ : Z;
  pendingNumChunks_ : Z;
  cc_log : list CCEvent
}.
Arguments mkCC {_} _ _ _ _.

(** A bucket of the table: its chunk and its index there. *)
Notation Loc := (Z * Z)%type.

Module CCache.
Import FixedLruBucket.
Section operations.
  Context `{D : Descriptor} {C : CConfig}.

(** ** One bucket *)

Notation B := (M (Bucket * list CCEvent)).

Definition log_event (e : CCEvent) : B unit := modify (fun '(b, l) => (b, l ++ [e])).
Definition getBucket : B Bucket := gets fst.
Definition setBucket (b : Bucket) : B unit := modify (fun '(_, l) => (b, l)).

Definition callRemoveCb (k : Key) (v : Value) (c : RemoveContext) : B unit :=
  if removeCb_ then log_event (EvRemove k v c) else ret tt.

Definition isValid (k : Key) : bool :=
  match validCb_ with Some f => f k | None => true end.

Definition onEntryEvicted (e : Entry) : B unit :=
  do! log_event (EvStat st_evictions) in
  callRemoveCb (e_key e) (e_val e) (if isValid (e_key e) then kEviction else kNormal).

Definition bucketSet (key : Key) (val : option Value) (size : Z)
    : B (BucketReturn * option Value) :=
  if (kHasValues && bool_decide (val = None)) ||
     (negb (size =? 0) && negb (size =? sizeofValue)) then ret (BR_ERROR, None) else
  let v := default zeroValue val in
  let! b := getBucket in
  match bucketFind b key with
  | None =>
      let '(b', evicted) := insert b key v in
      do! (match evicted with Some e => onEntryEvicted e | None => ret tt end) in
      do! setBucket b' in
      ret (BR_NOTFOUND, None)
  | Some pos =>
      match entryAt b (Z.of_nat pos) with
      | None => throw UndefinedBehavior
      | Some e =>
          do! (if replaceCb_ then log_event (EvReplace key (e_val e) v) else ret tt) in
          do! setBucket (updateVal b pos v) in
          ret (BR_FOUND, None)
      end
  end.

Definition bucketDel (key : Key) (wantVal : bool) : B (BucketReturn * option Value) :=
  let! b := getBucket in
  match bucketFind b key with
  | None => ret (BR_NOTFOUND, None)
  | Some pos =>
      match entryAt b (Z.of_nat pos) with
      | None => throw UndefinedBehavior
      | Some e =>
          do! callRemoveCb key (e_val e) kNormal in
          do! setBucket (del b pos) in
          ret (BR_FOUND, if kHasValues && wantVal then Some (e_val e) else None)
      end
  end.

Definition bucketGet (key : Key) (wantVal shouldPromote : bool)
    : B (BucketReturn * option Value) :=
  let! b := getBucket in
  match bucketFind b key with
  | None => ret (BR_NOTFOUND, None)
  | Some pos =>
      match entryAt b (Z.of_nat pos) with
      | None => throw UndefinedBehavior
      | Some e =>
          do! (if isBucketTail b (Z.of_nat pos) then log_event (EvStat st_tailHits) else ret tt) in
          ret (if shouldPromote && needs_promote pos then BR_PROMOTE else BR_FOUND,
               if kHasValues && wantVal then Some (e_val e) else None)
      end
  end.

Definition bucketPromote (key : Key) : B BucketReturn :=
  let! b := getBucket in
  match bucketFind b key with
  | None => ret BR_NOTFOUND
  | Some pos =>
      do! (if needs_promote pos then setBucket (fst (promote b pos)) else ret tt) in
      ret BR_FOUND
  end.

(** The request handlers [callBucketFn] is given. *)
Inductive BucketFn : Type :=
| FnSet (val : option Value) (size : Z)
| FnDel (wantVal : bool)
| FnGet (wantVal shouldPromote : bool).

Definition fn_op (f : BucketFn) : Operation :=
  match f with FnGet _ _ => READ | _ => WRITE end.

Definition runFn (f : BucketFn) (key : Key) : B (BucketReturn * option Value) :=
  match f with
  | FnSet val size => bucketSet key val size
  | FnDel wantVal => bucketDel key wantVal
  | FnGet wantVal shouldPromote => bucketGet key wantVal shouldPromote
  end.

(** ** The table *)

Definition lift_res {S A} (r : res A) : M S A :=
  match r with Ok a => ret a | Throw e => throw e end.

(** [allocator_.getChunk]: the chunk's index stands for its address. *)
Definition getChunk (n : Z) : M CCache Z :=
  let! s := get in
  do! Prelude.guard (zlen (chunks s) <=? n) InvalidArgument in
  ret n.

(** Run [f] on a bucket in place, under its lock. *)
Definition onBucket {A} (loc : Loc) (f : B A) : M CCache A :=
  fun s =>
    match chunks s !! Z.to_nat loc.1 with
    | Some chunk =>
        match chunk !! Z.to_nat loc.2 with
        | Some b =>
            let '(r, (b', l')) := f (b, cc_log s) in
            (r, mkCC (<[Z.to_nat loc.1 := <[Z.to_nat loc.2 := b']> chunk]> (chunks s))
                     (numChunks_ s) (pendingNumChunks_ s) l')
        | None => (Throw UndefinedBehavior, s)
        end
    | None => (Throw UndefinedBehavior, s)
    end.

Definition tableFindChunk (numChunks : Z) (key : Key) : M CCache Z :=
  let! chunkIndex := lift_res (furcHash (keyBytes key) (u32 numChunks)) in
  getChunk chunkIndex.

(** [hv % bucketsPerChunk_]. *)
Definition bucketIndex (key : Key) : M CCache Z :=
  let hv := murmurHash2 (keyBytes key) (zlen (keyBytes key)) kMurmur2Seed in
  do! Prelude.guard (bucketsPerChunk_ =? 0) UndefinedBehavior in
  ret (hv mod bucketsPerChunk_).

Definition tableFindBucket (key : Key) : M CCache Loc :=
  let! s := get in
  let! chunk := tableFindChunk (numChunks_ s) key in
  let! i := bucketIndex key in
  ret (chunk, i).

Definition tableFindDblWriteBucket (key : Key) : M CCache (option Loc) :=
  let! s := get in
  if pendingNumChunks_ s =? 0 then ret None else
  let! chunk := tableFindChunk (numChunks_ s) key in
  let! chunkNew := tableFindChunk (pendingNumChunks_ s) key in
  if chunk =? chunkNew then ret None else
  let! i := bucketIndex key in
  ret (Some (chunkNew, i)).

Definition log_stat (st : CCStat) : M CCache unit :=
  modify (fun s => mkCC (chunks s) (numChunks_ s) (pendingNumChunks_ s) (cc_log s ++ [EvStat st])).

(** ** Requests

    [callBucketFn] in the parts between which other threads run: find the
    bucket, run the handler under its lock, promote under a second lock,
    find the second bucket, run the handler there. [Z] results are the code's
    [-2] (timeout), [-1], [0], [1]. *)

Definition toInt (br : BucketReturn) : Z :=
  match br with BR_ERROR => -1 | BR_NOTFOUND => 0 | BR_FOUND => 1 | BR_PROMOTE => 2 end.

Definition handlerStep (key : Key) (f : BucketFn) (loc : Loc)
    : M CCache (BucketReturn * option Value) :=
  onBucket loc (runFn f key).

Definition promoteStep (key : Key) (locked : bool) (loc : Loc) : M CCache unit :=
  if locked then let! _ := onBucket loc (bucketPromote key) in ret tt
  else log_stat st_promoteTimeout.

Definition dblStep (key : Key) (f : BucketFn) (dbl : option Loc) (rv : BucketReturn)
    : M CCache BucketReturn :=
  match dbl with
  | None => ret rv
  | Some loc =>
      let! r := onBucket loc (runFn f key) in
      ret (match r.1 with BR_ERROR => BR_ERROR | _ => rv end)
  end.

Definition callBucketFn (key : Key) (f : BucketFn) (locked promoteLocked : bool)
    : M CCache (Z * option Value) :=
  let! s := get in
  if numChunks_ s =? 0 then ret (-1, None) else
  let! loc := tableFindBucket key in
  if negb locked then do! log_stat st_lockTimeout in ret (-2, None) else
  let! r := handlerStep key f loc in
  let! rv := match r.1 with
             | BR_PROMOTE =>
                 do! (if allowPromotions_ then promoteStep key promoteLocked loc else ret tt) in
                 ret BR_FOUND
             | rv => ret rv
             end in
  let! dbl := match fn_op f with
              | WRITE => tableFindDblWriteBucket key
              | READ => ret None
              end in
  let! rv := dblStep key f dbl rv in
  ret (toInt rv, r.2).

(** [UPDATE_STATS_AND_RETURN]. *)
Definition update_stats (st err miss hit : CCStat) (r : Z * option Value)
    : M CCache (CCacheReturn * option Value) :=
  do! log_stat st in
  if r.1 =? -2 then ret (CC_TIMEOUT, r.2) else
  if r.1 =? -1 then do! log_stat err in ret (CC_ERROR, r.2) else
  if r.1 =? 0 then do! log_stat miss in ret (CC_NOTFOUND, r.2) else
  if r.1 =? 1 then do! log_stat hit in ret (CC_FOUND, r.2) else
  ret (CC_ERROR, r.2).

Definition set (key : Key) (val : option Value) (size : Z) (locked : bool) :=
  let! r := callBucketFn key (FnSet val size) locked true in
  update_stats st_set st_setErr st_setMiss st_setHit r.

Definition cc_del (key : Key) (wantVal locked : bool) :=
  let! r := callBucketFn key (FnDel wantVal) locked true in
  update_stats st_del st_delErr st_delMiss st_delHit r.

Definition cc_get (key : Key) (wantVal shouldPromote locked promoteLocked : bool) :=
  let! r := callBucketFn key (FnGet wantVal shouldPromote) locked promoteLocked in
  update_stats st_get st_getErr st_getMiss st_getHit r.

Definition exists_ (key : Key) (locked : bool) :=
  let! r := callBucketFn key (FnGet false false) locked true in
  update_stats st_get st_getErr st_getMiss st_getHit r.

(** ** Walks over the table *)

Fixpoint forBuckets (cb : B bool) (n i : Z) (cnt : nat) : M CCache bool :=
  match cnt with
  | O => ret true
  | S cnt =>
      let! ok := onBucket (n, i) cb in
      if ok : bool then forBuckets cb n (i + 1) cnt else ret false
  end.

Fixpoint forChunks (cb : B bool) (n : Z) (cnt : nat) : M CCache bool :=
  match cnt with
  | O => ret true
  | S cnt =>
      let! n := getChunk n in
      let! ok := forBuckets cb n 0 (Z.to_nat bucketsPerChunk_) in
      if ok : bool then forChunks cb (n + 1) cnt else ret false
  end.

Definition forEachBucket (cb : B bool) : M CCache bool :=
  let! s := get in forChunks cb 0 (Z.to_nat (numChunks_ s)).

Fixpoint purge_loop (fuel : nat) (shouldPurge : Key -> option Value -> PurgeFilterResult)
    (pos : nat) : B bool :=
  match fuel with
  | O => throw StillWaiting
  | S fuel =>
      let! b := getBucket in
      match entryAt b (Z.of_nat pos) with
      | None => ret true
      | Some e =>
          match shouldPurge (e_key e) (if kHasValues then Some (e_val e) else None) with
          | ABORT => ret false
          | SKIP => purge_loop fuel shouldPurge (S pos)
          | PURGE =>
              do! callRemoveCb (e_key e) (e_val e) kNormal in
              do! setBucket (del b pos) in
              purge_loop fuel shouldPurge pos
          end
      end
  end.

Definition purge (shouldPurge : Key -> option Value -> PurgeFilterResult) : M CCache bool :=
  let! rv := forEachBucket (purge_loop (S kEntriesPerBucket) shouldPurge 0) in
  do! log_stat (if rv : bool then st_purgeSuccess else st_purgeErr) in
  ret rv.

(** ** Resizing *)

Definition peekEntry (loc : Loc) (pos : nat) : M CCache (option Entry) :=
  onBucket loc (let! b := getBucket in ret (entryAt b (Z.of_nat pos))).

Definition max_move (oldNumChunks newNumChunks capacity : Z) : Z :=
  Z.min (Z.max (u64 (newNumChunks * capacity) / oldNumChunks) 1) capacity.

(** One iteration of the loop of [tableRehash] over the entries of a bucket:
    [None] when the handle has become invalid. *)
Definition rehashEntry (op : RehashOperation) (oldNumChunks newNumChunks : Z) (loc : Loc)
    (pos : nat) (moved : Z) : M CCache (option (nat * Z)) :=
  let! oe := peekEntry loc pos in
  match oe with
  | None => ret None
  | Some e =>
      let valid_entry := isValid (e_key e) in
      let! new_chunk := tableFindChunk newNumChunks (e_key e) in
      if new_chunk =? loc.1 then ret (Some (S pos, moved)) else
      match op with
      | COPY =>
          if valid_entry && (moved <? max_move oldNumChunks newNumChunks (Z.of_nat kEntriesPerBucket))
          then
            do! onBucket (new_chunk, loc.2)
                  (bucketSet (e_key e) (if kHasValues then Some (e_val e) else None) 0) in
            ret (Some (S pos, moved + 1))
          else
            do! onBucket loc (callRemoveCb (e_key e) (e_val e)
                                (if valid_entry then kEviction else kNormal)) in
            ret (Some (S pos, moved))
      | DELETE =>
          do! onBucket loc (let! b := getBucket in setBucket (del b pos)) in
          ret (Some (pos, moved))
      end
  end.

Fixpoint rehashBucket (fuel : nat) (op : RehashOperation) (oldNumChunks newNumChunks : Z)
    (loc : Loc) (pos : nat) (moved : Z) : M CCache unit :=
  match fuel with
  | O => throw StillWaiting
  | S fuel =>
      let! r := rehashEntry op oldNumChunks newNumChunks loc pos moved in
      match r with
      | None => ret tt
      | Some (pos, moved) => rehashBucket fuel op oldNumChunks newNumChunks loc pos moved
      end
  end.

Fixpoint rehashBuckets (op : RehashOperation) (oldNumChunks newNumChunks n i : Z) (cnt : nat)
    : M CCache unit :=
  match cnt with
  | O => ret tt
  | S cnt =>
      do! rehashBucket (S kEntriesPerBucket) op oldNumChunks newNumChunks (n, i) 0 0 in
      rehashBuckets op oldNumChunks newNumChunks n (i + 1) cnt
  end.

Fixpoint rehashChunks (op : RehashOperation) (oldNumChunks newNumChunks n : Z) (cnt : nat)
    : M CCache unit :=
  match cnt with
  | O => ret tt
  | S cnt =>
      let! n := getChunk n in
      do! rehashBuckets op oldNumChunks newNumChunks n 0 (Z.to_nat bucketsPerChunk_) in
      rehashChunks op oldNumChunks newNumChunks (n + 1) cnt
  end.

Definition tableRehash (oldNumChunks newNumChunks : Z) (op : RehashOperation) : M CCache unit :=
  rehashChunks op oldNumChunks newNumChunks 0 (Z.to_nat oldNumChunks).

(** [CCacheAllocator::resize]; [avail] is how many slabs the memory allocator
    can still give to the pool. *)
Definition zeroChunk : list Bucket := replicate (Z.to_nat bucketsPerChunk_) zeroBucket.

Definition allocatorResize (configuredSize : Z) (avail : nat) : M CCache Z :=
  let numNewChunks := configuredSize / getChunkSize in
  do! modify (fun s =>
    let cs := chunks s in
    let cs := if numNewChunks <? zlen cs then take (Z.to_nat numNewChunks) cs
              else cs ++ replicate (Nat.min (Z.to_nat (numNewChunks - zlen cs)) avail) zeroChunk in
    mkCC cs (numChunks_ s) (pendingNumChunks_ s) (cc_log s)) in
  gets (fun s => zlen (chunks s)).

Definition setNumChunks (n : Z) : M CCache unit :=
  modify (fun s => mkCC (chunks s) n (pendingNumChunks_ s) (cc_log s)).
Definition setPending (n : Z) : M CCache unit :=
  modify (fun s => mkCC (chunks s) (numChunks_ s) n (cc_log s)).

(** [resize], run with no request in between ([switchCohorts] then returns at
    once); [CCacheResize] interleaves its parts with requests. The size of the
    pool is read by [resize] itself and again by each call of the allocator's
    [resize]: [sz], [szGrow] and [szFree] are what these reads return. *)
Definition resize (sz szGrow szFree : Z) (avail : nat) : M CCache unit :=
  let! s := get in
  let oldNumChunks := numChunks_ s in
  let numChunksWanted := sz / getChunkSize in
  if oldNumChunks =? numChunksWanted then ret tt else
  let! newNumChunks := (if oldNumChunks <? numChunksWanted
                        then allocatorResize szGrow avail
                        else ret numChunksWanted) in
  if (oldNumChunks <? numChunksWanted) && negb (newNumChunks =? numChunksWanted)
     && (newNumChunks =? oldNumChunks) then ret tt else
  do! (if (0 <? newNumChunks) && (0 <? oldNumChunks) then
         do! setPending newNumChunks in
         do! tableRehash oldNumChunks newNumChunks COPY in
         do! setNumChunks newNumChunks in
         do! setPending 0 in
         tableRehash oldNumChunks newNumChunks DELETE
       else setNumChunks newNumChunks) in
  if newNumChunks <? oldNumChunks then
    let! _ := allocatorResize szFree avail in ret tt
  else ret tt.

(** The constructor, over chunks the allocator holds. *)
Definition create (cs : list (list Bucket)) : CCache := mkCC cs (zlen cs) 0 [].

End operations.
End CCache.
