(* ===== verification/CCacheResize.v ===== *)
(** * Requests on a compact cache while it is resized

    [CompactCache::resize] of [src/cachelib/compact_cache/CCache.h] runs beside
    the requests: it announces the new number of chunks, copies the entries
    that move, switches the readers, and deletes the old copies, with a switch
    of cohorts after each of the first three. Here its parts and the parts of
    [callBucketFn] are the actions of a transition system; an action is
    what the code does under one lock or in one access to an atomic.

    The code does not serialize the writes of a key, and switches the readers
    whatever requests are in progress; what the theorems ask of a schedule is
    [disciplined].

    [w_latest] and [rq_seen] are ghost state: the last value written for each
    key, and the values a key has had since a request on it began. *)

From S2P Require Import Prelude Bytes FurcHash CCacheBucket CCache.
From stdpp Require Import base tactics numbers list.

#[local] Open Scope Z_scope.
#[local] Open Scope cachelib_scope.

Import CCache.

(** Where a request is in [callBucketFn]. *)
Inductive Pc `{Descriptor} : Type :=
| PcStart
| PcPicked (loc : Loc)
| PcPromote (loc : Loc) (out : option Value)
| PcHandled (rv : BucketReturn) (out : option Value)
| PcDbl (dbl : option Loc) (rv : BucketReturn) (out : option Value)
| PcDone (code : Z) (out : option Value).

Record Req `{Descriptor} : Type := mkReq {
  rq_key : Key;
  rq_fn : BucketFn;
  rq_epoch : nat;
  rq_pc : Pc;
  rq_seen : list (option Value)
}.
Arguments mkReq {_} _ _ _ _ _.

(** Where [resize] is. Cohorts are numbered by [w_epoch]; the phases
    [Announced], [Switched] and [Stopped] wait for the previous cohort. *)
Inductive Phase : Type :=
| Idle
| Announced (old new : Z)
| Copying (old new n i : Z) (pos : nat) (moved : Z)
| Switched (old new : Z)
| Stopped (old new : Z)
| Deleting (old new n i : Z).

Record World `{Descriptor} : Type := mkWorld {
  w_cc : CCache;
  w_reqs : list Req;
  w_epoch : nat;
  w_phase : Phase;
  w_latest : Key -> option Value;
  w_crash : option exn
}.
Arguments mkWorld {_} _ _ _ _ _ _.

Inductive Action `{Descriptor} : Type :=
| AStart (key : Key) (f : BucketFn)
| APick (r : nat)
| AHandle (r : nat) (locked : bool)
| APromote (r : nat) (locked : bool)
| APickDbl (r : nat)
| ADbl (r : nat)
| AAnnounce (size : Z) (avail : nat)
| ADrained
| ACopy
| ASwitch
| ADelete.

Section system.
  Context `{D : Descriptor} {C : CConfig}.

Definition set_pc (pc : Pc) (q : Req) : Req :=
  mkReq (rq_key q) (rq_fn q) (rq_epoch q) pc (rq_seen q).

Definition done (q : Req) : bool := match rq_pc q with PcDone _ _ => true | _ => false end.
Definition is_write (q : Req) : bool :=
  match fn_op (rq_fn q) with WRITE => true | READ => false end.
Definition writing (k : Key) (w : World) : bool :=
  existsb (fun q => is_write q && negb (done q) && bool_decide (rq_key q = k)) (w_reqs w).

(** What a handler makes the value of its key. *)
Definition fn_effect (f : BucketFn) : option (option Value) :=
  match f with
  | FnSet val size =>
      if (kHasValues && bool_decide (val = None)) ||
         (negb (size =? 0) && negb (size =? sizeofValue)) then None
      else Some (Some (default zeroValue val))
  | FnDel _ => Some None
  | FnGet _ _ => None
  end.

(** The lock of the bucket being copied is held throughout. *)
Definition held (w : World) (loc : Loc) : bool :=
  match w_phase w with
  | Copying old _ n i _ _ => (n <? old) && (loc.1 =? n) && (loc.2 =? i)
  | _ => false
  end.

(** Run a part of the code, then update the rest of the world. *)
Definition via {A} (m : M CCache A) (w : World) (k : A -> World -> World) : World :=
  match m (w_cc w) with
  | (Ok a, cc) => k a (mkWorld cc (w_reqs w) (w_epoch w) (w_phase w) (w_latest w) (w_crash w))
  | (Throw e, cc) => mkWorld cc (w_reqs w) (w_epoch w) (w_phase w) (w_latest w) (Some e)
  end.

Definition set_req (r : nat) (pc : Pc) (w : World) : World :=
  mkWorld (w_cc w) (alter (set_pc pc) r (w_reqs w)) (w_epoch w) (w_phase w) (w_latest w) (w_crash w).

Definition set_phase (p : Phase) (bump : bool) (w : World) : World :=
  mkWorld (w_cc w) (w_reqs w) (if bump then S (w_epoch w) else w_epoch w) p (w_latest w) (w_crash w).

(** Ghost: key [k] now has value [o]; the requests on it notice. *)
Definition notice (k : Key) (o : option Value) (q : Req) : Req :=
  if bool_decide (rq_key q = k) && negb (done q)
  then mkReq (rq_key q) (rq_fn q) (rq_epoch q) (rq_pc q) (o :: rq_seen q) else q.

Definition set_latest (k : Key) (o : option Value) (lat : Key -> option Value) : Key -> option Value :=
  fun k' => if bool_decide (k' = k) then o else lat k'.

Definition publish (k : Key) (o : option Value) (w : World) : World :=
  mkWorld (w_cc w) (notice k o <$> w_reqs w) (w_epoch w) (w_phase w)
    (set_latest k o (w_latest w)) (w_crash w).

Definition publish_fn (k : Key) (f : BucketFn) (w : World) : World :=
  match fn_effect f with Some o => publish k o w | None => w end.

Definition next_bucket (n i : Z) : Z * Z :=
  if i + 1 <? bucketsPerChunk_ then (n, i + 1) else (n + 1, 0).

Definition drained (w : World) : bool :=
  forallb (fun q => done q || (rq_epoch q =? w_epoch w)%nat) (w_reqs w).

(** Whether the chunk of a key changes. *)
Definition moves (old new : Z) (k : Key) : bool :=
  match furcHash (keyBytes k) old, furcHash (keyBytes k) new with
  | Ok a, Ok b => negb (a =? b)
  | _, _ => true
  end.

(** No write to a key that moves is in progress. *)
Definition quiet (old new : Z) (w : World) : bool :=
  forallb (fun q => done q || negb (is_write q) || negb (moves old new (rq_key q))) (w_reqs w).

(** The part of [callBucketFn] after the handler. *)
Definition after_handler (f : BucketFn) (loc : Loc) (r : BucketReturn * option Value) : Pc :=
  match fn_op f, r.1 with
  | READ, BR_PROMOTE => if allowPromotions_ then PcPromote loc r.2 else PcDone 1 r.2
  | READ, rv => PcDone (toInt rv) r.2
  | WRITE, rv => PcHandled rv r.2
  end.

Definition act_start (key : Key) (f : BucketFn) (w : World) : option World :=
  let q pc := mkReq key f (w_epoch w) pc [w_latest w key] in
  let pc := if numChunks_ (w_cc w) =? 0 then PcDone (-1) None else PcStart in
  Some (mkWorld (w_cc w) (w_reqs w ++ [q pc]) (w_epoch w) (w_phase w) (w_latest w) (w_crash w)).

Definition act_request (a : Action) (r : nat) (q : Req) (w : World) : option World :=
  let k := rq_key q in
  let f := rq_fn q in
  match a, rq_pc q with
  | APick _, PcStart =>
      Some (via (tableFindBucket k) w (fun loc => set_req r (PcPicked loc)))
  | AHandle _ locked, PcPicked loc =>
      if negb locked then
        Some (via (log_stat st_lockTimeout) w (fun _ => set_req r (PcDone (-2) None)))
      else if held w loc then None
      else Some (via (handlerStep k f loc) w
                   (fun x w => set_req r (after_handler f loc x) (publish_fn k f w)))
  | APromote _ locked, PcPromote loc out =>
      if locked && held w loc then None
      else Some (via (promoteStep k locked loc) w (fun _ => set_req r (PcDone 1 out)))
  | APickDbl _, PcHandled rv out =>
      Some (via (tableFindDblWriteBucket k) w (fun dbl => set_req r (PcDbl dbl rv out)))
  | ADbl _, PcDbl dbl rv out =>
      if match dbl with Some loc => held w loc | None => false end then None
      else Some (via (dblStep k f dbl rv) w (fun rv => set_req r (PcDone (toInt rv) out)))
  | _, _ => None
  end.

(** The parts of [resize], between sizes of 1 and 2^26 chunks: from or to no
    chunk at all nothing is copied. *)
Definition act_resize (a : Action) (w : World) : option World :=
  match a, w_phase w with
  | AAnnounce size avail, Idle =>
      let old := numChunks_ (w_cc w) in
      let wanted := size / getChunkSize in
      if (wanted =? old) || (wanted <=? 0) || (old <=? 0) || (2 ^ 26 <? wanted) then None
      else Some (via (let! new := (if old <? wanted then allocatorResize size avail
                                   else ret wanted) in
                      do! (if new =? old then ret tt else setPending new) in ret new) w
                   (fun new w => if new =? old then w else set_phase (Announced old new) true w))
  | ADrained, Announced old new =>
      if drained w then Some (set_phase (Copying old new 0 0 0 0) false w) else None
  | ACopy, Copying old new n i pos moved =>
      if old <=? n then None else
      Some (via (rehashEntry COPY old new (n, i) pos moved) w
              (fun x => match x with
                        | Some (pos, moved) => set_phase (Copying old new n i pos moved) false
                        | None => let '(n, i) := next_bucket n i in
                                  set_phase (Copying old new n i 0 0) false
                        end))
  | ASwitch, Copying old new n i _ _ =>
      if n <? old then None
      else Some (via (setNumChunks new) w (fun _ => set_phase (Switched old new) true))
  | ADrained, Switched old new =>
      if drained w then Some (via (setPending 0) w (fun _ => set_phase (Stopped old new) true))
      else None
  | ADrained, Stopped old new =>
      if drained w then Some (set_phase (Deleting old new 0 0) false w) else None
  | ADelete, Deleting old new n i =>
      if n <? old then
        Some (via (rehashBucket (S kEntriesPerBucket) DELETE old new (n, i) 0 0) w
                (fun _ => let '(n, i) := next_bucket n i in
                          set_phase (Deleting old new n i) false))
      else
        Some (via (if new <? old then let! _ := allocatorResize (new * getChunkSize) 0 in ret tt
                   else ret tt) w (fun _ => set_phase Idle false))
  | _, _ => None
  end.

Definition act (a : Action) (w : World) : option World :=
  match w_crash w with Some _ => None | None =>
  match a with
  | AStart key f => act_start key f w
  | APick r | AHandle r _ | APromote r _ | APickDbl r | ADbl r =>
      match w_reqs w !! r with
      | Some q => act_request a r q w
      | None => None
      end
  | _ => act_resize a w
  end end.

Fixpoint run (l : list Action) (w : World) : option World :=
  match l with
  | [] => Some w
  | a :: l => match act a w with Some w => run l w | None => None end
  end.

(** What callers and schedules must keep to, which the code does not check: a
    key is not the empty key; a write of a key starts when no other write of
    the key is in progress; no write of a key that moves is in progress when
    the readers are switched. *)
Definition disciplined (a : Action) (w : World) : bool :=
  match a, w_phase w with
  | AStart key f, _ =>
      negb (isEmpty key) && (match fn_op f with WRITE => negb (writing key w) | READ => true end)
  | ASwitch, Copying old new _ _ _ _ => quiet old new w
  | _, _ => true
  end.

Fixpoint disciplined_run (l : list Action) (w : World) : bool :=
  match l with
  | [] => true
  | a :: l => disciplined a w && match act a w with Some w => disciplined_run l w | None => true end
  end.

Definition init (n : Z) : World :=
  mkWorld (create (replicate (Z.to_nat n) zeroChunk)) [] 0 Idle (fun _ => None) None.

End system.
