(* ===== verification/CCacheProofs.v ===== *)
(** * Compact cache: a concrete cache, the invariant of its buckets *)

From S2P Require Import Prelude Bytes FurcHash CCacheBucket CCache CCacheResize.
From stdpp Require Import base tactics numbers list.

#[local] Open Scope Z_scope.
#[local] Open Scope cachelib_scope.

(** ** Runs of the compact cache

    A compact cache of 64-bit keys and values, two entries to a bucket, and
    what it does on concrete schedules. *)

Import CCache.

Definition demoD : Descriptor := {|
  Key := Z; Value := Z; isEmpty k := k =? 0; keyBytes := le64;
  zeroKey := 0; zeroValue := 0; kHasValues := true; sizeofValue := 8; kEntriesPerBucket := 2 |}.

#[export] Instance demoD_ok : DescriptorOk demoD.
Proof. split; [done|done|simpl; lia]. Qed.

Definition demoC : @CConfig demoD := {|
  removeCb_ := true; replaceCb_ := true; validCb_ := None; allowPromotions_ := true;
  bucketsPerChunk_ := 1; getChunkSize := 64 |}.

Definition dSet (k v : Z) : @Action demoD := @AStart demoD k (FnSet (Some (v : @Value demoD)) 0).
Definition dGet (k : Z) : @Action demoD := @AStart demoD k (FnGet true false).
Definition dRun (l : list (@Action demoD)) : option (@World demoD) :=
  @run demoD demoC l (@init demoD demoC 1).
Definition dDisciplined (l : list (@Action demoD)) : bool :=
  @disciplined_run demoD demoC l (@init demoD demoC 1).
Definition dOut (w : option (@World demoD)) : option (list (@Pc demoD)) :=
  (fun w => @rq_pc demoD <$> w_reqs w) <$> w.

(** Key 1 is in chunk 0 of one chunk and in chunk 1 of two. *)
Definition dSet10 : list (@Action demoD) := [dSet 1 10; APick 0; AHandle 0 true; APickDbl 0; ADbl 0].
Definition dGrow : list (@Action demoD) := [AAnnounce 128 1; ADrained; ACopy; ACopy].
Definition dRead (r : nat) : list (@Action demoD) := [dGet 1; APick r; AHandle r true].

(** Writing 20 while the cache grows, with the write finished before the
    readers are switched: the read returns it. *)
Example write_before_switch :
  dOut (dRun (dSet10 ++ dGrow ++ [dSet 1 20; APick 1; AHandle 1 true; APickDbl 1; ADbl 1;
                                       ASwitch] ++ dRead 2))
  = Some [PcDone 0 None; PcDone 1 None; PcDone 1 (Some (20 : @Value demoD))].
Proof. vm_compute. reflexivity. Qed.

(** The readers are switched between the two halves of the write:
    [tableFindDblWriteBucket] then sees the new [numChunks_], finds no second
    bucket, and the write is lost. It has returned "found", and the read that
    starts afterwards gets the value written before. *)
Example write_lost_at_switch :
  dOut (dRun (dSet10 ++ dGrow ++ [dSet 1 20; APick 1; AHandle 1 true; ASwitch;
                                        APickDbl 1; ADbl 1] ++ dRead 2))
  = Some [PcDone 0 None; PcDone 1 None; PcDone 1 (Some (10 : @Value demoD))].
Proof. vm_compute. reflexivity. Qed.

(** The same for a deletion: the key is back after it was deleted. *)
Example delete_lost_at_switch :
  dOut (dRun (dSet10 ++ dGrow ++ [@AStart demoD 1 (FnDel false); APick 1; AHandle 1 true;
                                        ASwitch; APickDbl 1; ADbl 1] ++ dRead 2))
  = Some [PcDone 0 None; PcDone 1 None; PcDone 1 (Some (10 : @Value demoD))].
Proof. vm_compute. reflexivity. Qed.

(** Two writes of a key at once, each to the old chunk and then to the new one,
    in opposite orders: the read after the switch returns the value that was
    overwritten in the old chunk, where the reads before it found 30. *)
Definition dTwoWrites : list (@Action demoD) :=
  dSet10 ++ dGrow ++ [dSet 1 20; dSet 1 30; APick 1; AHandle 1 true; APickDbl 1; APick 2; AHandle 2 true;
                      APickDbl 2; ADbl 2; ADbl 1] ++ dRead 3 ++ [ASwitch] ++ dRead 4.
Example two_writes_swap :
  dDisciplined dTwoWrites = false /\
  dOut (dRun dTwoWrites)
  = Some [PcDone 0 None; PcDone 1 None; PcDone 1 None; PcDone 1 (Some (30 : @Value demoD));
          PcDone 1 (Some (20 : @Value demoD))].
Proof. vm_compute. split; reflexivity. Qed.

(** The size of the pool is lowered again while the cache shrinks from four
    chunks to two: the allocator keeps one chunk, the cache goes on with two,
    and a request throws. *)
Definition dChunks (n : nat) : @CCache demoD := @create demoD (replicate n (@zeroChunk demoD demoC)).
Definition dShrunk (szFree : Z) : @CCache demoD :=
  state_of (@resize demoD demoC 128 128 szFree 0) (dChunks 4).

Example size_reread_throws :
  (fst (@cc_get demoD demoC 1 true false true true (dShrunk 128)),
   fst (@cc_get demoD demoC 1 true false true true (dShrunk 64)))
  = (Ok (CC_NOTFOUND, None), Throw InvalidArgument).
Proof. vm_compute. reflexivity. Qed.

(** ** What the operations of the compact cache do to its contents

    The entries of a bucket as a list, the entries of the table by location,
    and for each part of the code an upper bound of the entries it leaves: a
    cache may always forget, so what matters is which entries can be there. *)

Import FixedLruBucket CCache.

Section contents.
  Context `{D : Descriptor} {Dok : DescriptorOk D} {C : CConfig}.

(** The entries of a bucket: up to the first empty slot. *)
Fixpoint live (b : Bucket) : list Entry :=
  match b with
  | [] => []
  | e :: b => if isEmpty (e_key e) then [] else e :: live b
  end.

Lemma holds_live (l : list Entry) (b : Bucket) : holds l b -> live b = l.
Proof.
  intros (-> & _ & Hne & _). generalize (kEntriesPerBucket - length l)%nat. intros n.
  induction Hne as [|e l He _ IH]; simpl; [|by rewrite He, IH].
  destruct n; simpl; [done|]. by rewrite zero_isEmpty.
Qed.

(** A list after a handler on key [k] left it with value [o] ([None]: nothing
    was written). *)
Definition bounded (eff : option (option Value)) (k : Key) (l l' : list Entry) : Prop :=
  forall e, e ∈ l' ->
    match eff with
    | None => e ∈ l
    | Some o => e ∈ l /\ e_key e <> k \/ e_key e = k /\ o = Some (e_val e)
    end.

(** What a handler returns. *)
Definition returns (f : BucketFn) (k : Key) (l : list Entry) (r : BucketReturn * option Value)
    : Prop :=
  match f with
  | FnGet want _ =>
      r = (BR_NOTFOUND, None) \/
      (r.1 = BR_FOUND \/ r.1 = BR_PROMOTE) /\
      exists v, mkEntry k v ∈ l /\ r.2 = if kHasValues && want then Some v else None
  | _ => r.1 <> BR_PROMOTE
  end.

(** Bucket computations from [b] end well in a bucket that holds some list. *)
Definition bruns {A} (m : M (Bucket * list CCEvent) A) (l : list Entry)
    (Q : A -> list Entry -> Prop) : Prop :=
  forall b lg, holds l b ->
  exists a b' l' lg', m (b, lg) = (Ok a, (b', lg')) /\ holds l' b' /\ Q a l'.

Lemma found_entry (l : list Entry) (b : Bucket) (k : Key) (pos : nat) :
  holds l b -> bucketFind b k = Some pos ->
  exists v, l !! pos = Some (mkEntry k v) /\ entryAt b (Z.of_nat pos) = Some (mkEntry k v).
Proof.
  intros Hb Hf. rewrite (bucketFind_spec l) in Hf by done.
  apply key_index_Some in Hf as ([k' v] & He & <-). exists v.
  split; [done|]. by rewrite (holds_entryAt l).
Qed.

Lemma onEntryEvicted_run (e : Entry) (b : Bucket) (lg : list CCEvent) :
  exists lg', onEntryEvicted e (b, lg) = (Ok tt, (b, lg')).
Proof.
  unfold onEntryEvicted, callRemoveCb, log_event, bind, modify, ret.
  destruct removeCb_; eauto.
Qed.

Lemma keys_unique (l : list Entry) (i j : nat) (e e' : Entry) :
  NoDup (e_key <$> l) -> l !! i = Some e -> l !! j = Some e' -> e_key e = e_key e' -> i = j.
Proof.
  intros Hnd Hi Hj He. eapply (NoDup_lookup (e_key <$> l)); [done|..];
    rewrite list_lookup_fmap; [by rewrite Hi|]. by rewrite Hj, He.
Qed.

Lemma bucketSet_runs (k : Key) (val : option Value) (size : Z) (l : list Entry) :
  isEmpty k = false ->
  bruns (bucketSet k val size) l (fun r l' =>
    r.1 <> BR_PROMOTE /\ bounded (fn_effect (FnSet val size)) k l l').
Proof.
  intros Hk b lg Hb. unfold bucketSet. simpl fn_effect.
  destruct (_ || _).
  { exists (BR_ERROR, None), b, l, lg. split; [done|]. split; [done|]. split; [done|]. by intros e. }
  unfold bind at 1. unfold getBucket, gets. cbn [fst].
  set (v := default zeroValue val). destruct (bucketFind b k) as [pos|] eqn:Hf.
  - destruct (found_entry l b k pos Hb Hf) as (w & He & ->).
    assert (Hlog : exists lg', (if replaceCb_ then log_event (EvReplace k w v) else ret tt) (b, lg)
                   = (Ok tt, (b, lg'))).
    { unfold log_event, modify, ret. destruct replaceCb_; eauto. }
    destruct Hlog as [lg' Hlog]. unfold bind. cbn [e_val]. rewrite Hlog.
    unfold setBucket, modify, ret. eexists _, _, _, _. split; [done|].
    split; [by apply (updateVal_spec l b pos _ v Hb He)|]. split; [done|].
    intros e [i Hi]%list_elem_of_lookup. cbn [e_key] in *.
    destruct Hb as (_ & _ & _ & Hnd). pose proof (lookup_lt_Some _ _ _ He) as Hlt.
    destruct (decide (i = pos)) as [->|Hne].
    + rewrite list_lookup_insert_eq in Hi by done. injection Hi as <-. by right.
    + rewrite list_lookup_insert_ne in Hi by done. left. split; [by eapply list_elem_of_lookup_2|].
      intros Hke. apply Hne. by eapply (keys_unique l i pos e (mkEntry k w)).
  - rewrite (bucketFind_spec l) in Hf by done. apply key_index_None in Hf.
    destruct (insert_spec l b k v Hb Hk Hf) as (b' & E & Hb'). rewrite E.
    assert (Hlog : exists lg', (match l !! (kEntriesPerBucket - 1)%nat with
                                | Some e => onEntryEvicted e | None => ret tt end) (b, lg)
                               = (Ok tt, (b, lg'))).
    { destruct (l !! _); [apply onEntryEvicted_run|by eexists]. }
    destruct Hlog as [lg' Hlog]. unfold bind. rewrite Hlog. unfold setBucket, modify, ret.
    eexists _, _, _, _. split; [done|]. split; [exact Hb'|]. split; [done|].
    intros e He. assert (Hin : e ∈ mkEntry k v :: l).
    { rewrite <- (take_drop kEntriesPerBucket). apply elem_of_app. by left. }
    apply elem_of_cons in Hin as [->|Hin]; [by right|]. left. split; [done|].
    intros <-. apply Hf, list_elem_of_fmap. eauto.
Qed.

Lemma bucketDel_runs (k : Key) (want : bool) (l : list Entry) :
  bruns (bucketDel k want) l (fun r l' => r.1 <> BR_PROMOTE /\ bounded (Some None) k l l').
Proof.
  intros b lg Hb. unfold bucketDel, bind at 1, getBucket, gets. cbn [fst].
  destruct (bucketFind b k) as [pos|] eqn:Hf.
  - destruct (found_entry l b k pos Hb Hf) as (w & He & ->).
    assert (Hlog : exists lg', callRemoveCb k w kNormal (b, lg) = (Ok tt, (b, lg'))).
    { unfold callRemoveCb, log_event, modify, ret. destruct removeCb_; eauto. }
    destruct Hlog as [lg' Hlog]. unfold bind. cbn [e_val]. rewrite Hlog.
    unfold setBucket, modify, ret. eexists _, _, _, _. split; [done|].
    split; [by apply (del_spec l b pos _ Hb He)|]. split; [done|].
    intros e Hin. left. destruct Hb as (_ & _ & _ & Hnd).
    pose proof (delete_Permutation l pos _ He) as Hp. rewrite Hp in Hnd.
    apply NoDup_cons in Hnd as [Hn _]. split; [rewrite Hp; by right|].
    intros <-. apply Hn, list_elem_of_fmap. by exists e.
  - eexists _, _, _, _. split; [done|]. split; [done|]. split; [done|].
    intros e He. left. split; [done|]. intros <-.
    rewrite (bucketFind_spec l) in Hf by done. apply key_index_None in Hf.
    apply Hf, list_elem_of_fmap. eauto.
Qed.

Lemma bucketGet_runs (k : Key) (want sp : bool) (l : list Entry) :
  bruns (bucketGet k want sp) l (fun r l' => returns (FnGet want sp) k l r /\ bounded None k l l').
Proof.
  intros b lg Hb. unfold bucketGet, bind at 1, getBucket, gets. cbn [fst].
  destruct (bucketFind b k) as [pos|] eqn:Hf.
  - destruct (found_entry l b k pos Hb Hf) as (w & He & ->).
    assert (Hlog : exists lg', (if isBucketTail b (Z.of_nat pos) then log_event (EvStat st_tailHits)
                                else ret tt) (b, lg) = (Ok tt, (b, lg'))).
    { unfold log_event, modify, ret. destruct (isBucketTail _ _); eauto. }
    destruct Hlog as [lg' Hlog]. unfold bind. rewrite Hlog. unfold ret.
    eexists _, _, _, _. split; [done|]. split; [exact Hb|]. split; [|by intros e].
    right. split; [destruct (sp && _); auto|]. exists w. split; [|done].
    by eapply list_elem_of_lookup_2.
  - eexists _, _, _, _. split; [done|]. split; [done|]. split; [by left|by intros e].
Qed.

Lemma bucketPromote_runs (k : Key) (l : list Entry) :
  bruns (bucketPromote k) l (fun _ l' => bounded None k l l').
Proof.
  intros b lg Hb. unfold bucketPromote, bind at 1, getBucket, gets. cbn [fst].
  destruct (bucketFind b k) as [pos|] eqn:Hf.
  - destruct (found_entry l b k pos Hb Hf) as (w & He & _).
    destruct (promote_spec l b pos _ Hb He) as (b' & E & Hb'). rewrite E.
    unfold bind, setBucket, modify, ret. destruct (needs_promote pos);
      (eexists _, _, _, _; split; [done|]; split; [done|]).
    + intros e Hin. by rewrite (delete_Permutation l pos _ He).
    + by intros e.
  - eexists _, _, _, _. split; [done|]. split; [done|]. by intros e.
Qed.

Lemma runFn_runs (f : BucketFn) (k : Key) (l : list Entry) :
  isEmpty k = false ->
  bruns (runFn f k) l (fun r l' => returns f k l r /\ bounded (fn_effect f) k l l').
Proof.
  intros Hk. destruct f as [val size|want|want sp]; simpl;
    [by apply bucketSet_runs|apply bucketDel_runs|apply bucketGet_runs].
Qed.

(** ** The table *)

Definition table_ok (s : CCache) : Prop :=
  forall n chunk, chunks s !! n = Some chunk ->
  length chunk = Z.to_nat bucketsPerChunk_ /\
  forall i b, chunk !! i = Some b -> exists l, holds l b.

Definition inside (s : CCache) (loc : Loc) : Prop :=
  0 <= loc.1 < zlen (chunks s) /\ 0 <= loc.2 < bucketsPerChunk_.

(** The entries at a location; none outside the table. *)
Definition content (s : CCache) (loc : Loc) : list Entry :=
  if (0 <=? loc.1) && (0 <=? loc.2) then
    match chunks s !! Z.to_nat loc.1 with
    | Some chunk =>
        match chunk !! Z.to_nat loc.2 with Some b => live b | None => [] end
    | None => []
    end
  else [].

Lemma inside_bucket (s : CCache) (loc : Loc) :
  table_ok s -> inside s loc ->
  exists chunk b, chunks s !! Z.to_nat loc.1 = Some chunk /\
    chunk !! Z.to_nat loc.2 = Some b /\ holds (content s loc) b.
Proof.
  intros Hok [H1 H2]. unfold zlen in H1.
  destruct (lookup_lt_is_Some_2 (chunks s) (Z.to_nat loc.1)) as [chunk Ec]; [lia|].
  destruct (Hok _ _ Ec) as [Hlen Hb].
  destruct (lookup_lt_is_Some_2 chunk (Z.to_nat loc.2)) as [b Eb]; [lia|].
  exists chunk, b. split; [done|]. split; [done|]. unfold content.
  rewrite !(proj2 (Z.leb_le _ _)) by lia. simpl. rewrite Ec, Eb.
  destruct (Hb _ _ Eb) as [l Hl]. by rewrite (holds_live l b Hl).
Qed.

(** Everything but the buckets is as before. *)
Definition same_shape (s s' : CCache) : Prop :=
  numChunks_ s' = numChunks_ s /\ pendingNumChunks_ s' = pendingNumChunks_ s /\
  length (chunks s') = length (chunks s).

Lemma onBucket_run {A} (f : M (Bucket * list CCEvent) A) (s : CCache) (loc : Loc)
    (Q : A -> list Entry -> Prop) :
  table_ok s -> inside s loc -> bruns f (content s loc) Q ->
  exists a s', onBucket loc f s = (Ok a, s') /\ table_ok s' /\ same_shape s s' /\
    Q a (content s' loc) /\ forall loc', loc' <> loc -> content s' loc' = content s loc'.
Proof.
  intros Hok Hin Hf. destruct (inside_bucket s loc Hok Hin) as (chunk & b & Ec & Eb & Hb).
  destruct (Hf b (cc_log s) Hb) as (a & b' & l' & lg' & E & Hb' & HQ).
  unfold onBucket. rewrite Ec, Eb, E. eexists _, _. split; [done|].
  pose proof (lookup_lt_Some _ _ _ Ec) as Hlc. pose proof (lookup_lt_Some _ _ _ Eb) as Hlb.
  destruct Hin as [H1 H2]. destruct (Hok _ _ Ec) as [Hlen Hbs].
  split; [|split; [|split]].
  - intros n ch Hn. simpl in Hn. destruct (decide (n = Z.to_nat loc.1)) as [->|Hne].
    + rewrite list_lookup_insert_eq in Hn by done. injection Hn as <-.
      rewrite length_insert. split; [done|]. intros i x Hx.
      destruct (decide (i = Z.to_nat loc.2)) as [->|].
      * rewrite list_lookup_insert_eq in Hx by done. injection Hx as <-. eauto.
      * rewrite list_lookup_insert_ne in Hx by done. eauto.
    + rewrite list_lookup_insert_ne in Hn by done. by apply (Hok n).
  - split; [done|]. split; [done|]. simpl. by rewrite length_insert.
  - unfold content at 1. rewrite !(proj2 (Z.leb_le _ _)) by lia. simpl.
    rewrite list_lookup_insert_eq by done. rewrite list_lookup_insert_eq by done.
    by rewrite (holds_live l' b' Hb').
  - intros loc' Hne. unfold content. destruct (Z.leb_spec 0 loc'.1) as [Hp1|]; [|done].
    destruct (Z.leb_spec 0 loc'.2) as [Hp2|]; [|done]. simpl.
    destruct (decide (Z.to_nat loc'.1 = Z.to_nat loc.1)) as [E1|E1].
    + rewrite E1, list_lookup_insert_eq, Ec by done. rewrite list_lookup_insert_ne; [done|].
      intros E2. apply Hne. destruct loc, loc'. simpl in *. f_equal; lia.
    + by rewrite list_lookup_insert_ne.
Qed.

(** Between two tables, at most key [k] of location [loc] got a new value, all
    other entries were there before. *)
Definition evolve (loc : Loc) (eff : option (option Value)) (k : Key) (s s' : CCache) : Prop :=
  table_ok s' /\ same_shape s s' /\
  forall loc' e, e ∈ content s' loc' ->
    match eff with
    | None => e ∈ content s loc'
    | Some o => e ∈ content s loc' /\ ~ (loc' = loc /\ e_key e = k) \/
                loc' = loc /\ e_key e = k /\ o = Some (e_val e)
    end.

Lemma onBucket_evolve {A} (f : M (Bucket * list CCEvent) A) (s : CCache) (loc : Loc)
    (eff : option (option Value)) (k : Key) (R : A -> Prop) :
  table_ok s -> inside s loc ->
  bruns f (content s loc) (fun a l' => R a /\ bounded eff k (content s loc) l') ->
  exists a s', onBucket loc f s = (Ok a, s') /\ evolve loc eff k s s' /\ R a.
Proof.
  intros Hok Hin Hf. destruct (onBucket_run f s loc _ Hok Hin Hf) as (a & s' & E & Hok' & Hsh & [HR Hb] & Ho).
  exists a, s'. split; [done|]. split; [|done]. split; [done|]. split; [done|].
  intros loc' e He. destruct (decide (loc' = loc)) as [->|Hne].
  - specialize (Hb e He). destruct eff as [o|]; [|done]. naive_solver.
  - rewrite Ho in He by done. destruct eff; [|done]. left. split; [done|]. by intros [? _].
Qed.

(** ** Locations *)

Definition chunkOf (n : Z) (k : Key) : Z :=
  match furcHash (keyBytes k) n with Ok r => r | Throw _ => 0 end.
Definition bucketOf (k : Key) : Z :=
  murmurHash2 (keyBytes k) (zlen (keyBytes k)) kMurmur2Seed mod bucketsPerChunk_.
Definition locOf (n : Z) (k : Key) : Loc := (chunkOf n k, bucketOf k).

(** What construction guarantees: a bucket fits in a chunk. *)
Class CConfigOk : Prop := {
  buckets_pos : 0 < bucketsPerChunk_;
  chunkSize_pos : 0 < getChunkSize
}.
Context {Cok : CConfigOk}.

Lemma chunkOf_range (n : Z) (k : Key) : 1 <= n <= 2 ^ 26 -> 0 <= chunkOf n k < n.
Proof.
  intros Hn. unfold chunkOf. destruct (furc_in_range (keyBytes k) n) as (r & -> & Hr); lia.
Qed.

Lemma locOf_inside (s : CCache) (n : Z) (k : Key) :
  1 <= n <= 2 ^ 26 -> n <= zlen (chunks s) -> inside s (locOf n k).
Proof.
  intros Hn Hs. pose proof (chunkOf_range n k Hn). pose proof buckets_pos as Hb.
  split; simpl; [lia|]. apply Z.mod_pos_bound. lia.
Qed.

Lemma tableFindChunk_run (n : Z) (k : Key) (s : CCache) :
  1 <= n <= 2 ^ 26 -> n <= zlen (chunks s) -> tableFindChunk n k s = (Ok (chunkOf n k), s).
Proof.
  intros Hn Hs. unfold tableFindChunk, lift_res, bind.
  rewrite u32_small by (unfold is_u32; lia).
  pose proof (chunkOf_range n k Hn) as Hr. unfold chunkOf in *.
  destruct (furc_in_range (keyBytes k) n) as (r & E & _); [lia|]. rewrite E in *.
  unfold ret, getChunk, bind, get, Prelude.guard.
  by rewrite (proj2 (Z.leb_gt _ _)) by lia.
Qed.

Lemma bucketIndex_run (k : Key) (s : CCache) : bucketIndex k s = (Ok (bucketOf k), s).
Proof.
  unfold bucketIndex, bind, Prelude.guard. pose proof buckets_pos.
  by rewrite (proj2 (Z.eqb_neq _ _)) by lia.
Qed.

Lemma tableFindBucket_run (k : Key) (s : CCache) :
  1 <= numChunks_ s <= 2 ^ 26 -> numChunks_ s <= zlen (chunks s) ->
  tableFindBucket k s = (Ok (locOf (numChunks_ s) k), s).
Proof.
  intros Hn Hs. unfold tableFindBucket, bind, get. rewrite tableFindChunk_run by done.
  by rewrite bucketIndex_run.
Qed.

Definition dblOf (s : CCache) (k : Key) : option Loc :=
  if pendingNumChunks_ s =? 0 then None else
  if chunkOf (numChunks_ s) k =? chunkOf (pendingNumChunks_ s) k then None
  else Some (locOf (pendingNumChunks_ s) k).

Lemma tableFindDblWriteBucket_run (k : Key) (s : CCache) :
  1 <= numChunks_ s <= 2 ^ 26 -> numChunks_ s <= zlen (chunks s) ->
  0 <= pendingNumChunks_ s <= 2 ^ 26 -> pendingNumChunks_ s <= zlen (chunks s) ->
  tableFindDblWriteBucket k s = (Ok (dblOf s k), s).
Proof.
  intros. unfold tableFindDblWriteBucket, dblOf, bind, get.
  destruct (Z.eqb_spec (pendingNumChunks_ s) 0); [done|].
  rewrite !tableFindChunk_run by lia. destruct (_ =? _); [done|]. by rewrite bucketIndex_run.
Qed.

(** ** Rehashing *)

Lemma same_shape_trans (s1 s2 s3 : CCache) :
  same_shape s1 s2 -> same_shape s2 s3 -> same_shape s1 s3.
Proof. unfold same_shape. intros (?&?&?) (?&?&?). repeat split; congruence. Qed.

Lemma same_shape_zlen (s s' : CCache) : same_shape s s' -> zlen (chunks s') = zlen (chunks s).
Proof. unfold zlen. by intros (_ & _ & ->). Qed.

Lemma inside_same (s s' : CCache) (loc : Loc) : same_shape s s' -> inside s loc -> inside s' loc.
Proof. unfold inside. intros H. by rewrite (same_shape_zlen _ _ H). Qed.

Lemma peekEntry_run (s : CCache) (loc : Loc) (pos : nat) :
  table_ok s -> inside s loc ->
  exists s', peekEntry loc pos s = (Ok (content s loc !! pos), s') /\ table_ok s' /\
    same_shape s s' /\ forall loc', content s' loc' = content s loc'.
Proof.
  intros Hok Hin.
  destruct (onBucket_run (let! b := getBucket in ret (entryAt b (Z.of_nat pos))) s loc
    (fun a l' => a = content s loc !! pos /\ l' = content s loc) Hok Hin)
    as (a & s' & E & Hok' & Hsh & [-> Hc] & Ho).
  { intros b lg Hb. eexists _, _, _, _. split; [done|]. split; [done|].
    split; [|done]. by apply holds_entryAt. }
  exists s'. split; [done|]. split; [done|]. split; [done|]. intros loc'.
  destruct (decide (loc' = loc)) as [->|]; auto.
Qed.

Lemma content_nonempty (s : CCache) (loc : Loc) (e : Entry) :
  table_ok s -> inside s loc -> e ∈ content s loc -> isEmpty (e_key e) = false.
Proof.
  intros Hok Hin He. destruct (inside_bucket s loc Hok Hin) as (? & ? & _ & _ & (_ & _ & Hne & _)).
  rewrite Forall_forall in Hne. by apply Hne.
Qed.

Lemma copied_value (v : Value) :
  fn_effect (FnSet (if kHasValues then Some v else None) 0) = Some (Some v).
Proof.
  unfold fn_effect. simpl. rewrite orb_false_r. destruct kHasValues eqn:E; simpl; [done|].
  by rewrite (no_value E zeroValue v).
Qed.

Lemma evolve_after_read (loc : Loc) (eff : option (option Value)) (k : Key) (s s1 s' : CCache) :
  same_shape s s1 -> (forall loc', content s1 loc' = content s loc') ->
  evolve loc eff k s1 s' -> evolve loc eff k s s'.
Proof.
  intros Hsh Hc (Hok & Hsh' & He). split; [done|]. split; [by eapply same_shape_trans|].
  intros loc' e Hin. specialize (He loc' e Hin). by rewrite !Hc in He.
Qed.

(** An entry is copied to the chunk it moves to, or nothing new appears. *)
Lemma rehashEntry_copy (old new : Z) (loc : Loc) (pos : nat) (moved : Z) (s : CCache) :
  table_ok s -> inside s loc -> 1 <= new <= 2 ^ 26 -> new <= zlen (chunks s) ->
  exists r s', rehashEntry COPY old new loc pos moved s = (Ok r, s') /\
    ((forall k, evolve loc None k s s') \/
     exists e, e ∈ content s loc /\ chunkOf new (e_key e) <> loc.1 /\
       evolve (chunkOf new (e_key e), loc.2) (Some (Some (e_val e))) (e_key e) s s').
Proof.
  intros Hok Hin Hn Hz. destruct (peekEntry_run s loc pos Hok Hin) as (s1 & E1 & Hok1 & Hsh1 & Hc1).
  unfold rehashEntry, bind at 1. rewrite E1.
  assert (Hsame : forall k, evolve loc None k s s1).
  { intros k. split; [done|]. split; [done|]. intros loc' e. by rewrite Hc1. }
  destruct (content s loc !! pos) as [e|] eqn:Ee; [|eexists _, _; split; [done|by left]].
  apply list_elem_of_lookup_2 in Ee as He.
  unfold bind at 1. rewrite tableFindChunk_run by (done || by rewrite (same_shape_zlen s s1)).
  destruct (Z.eqb_spec (chunkOf new (e_key e)) loc.1) as [|Hne]; [eexists _, _; split; [done|by left]|].
  assert (Hin1 : inside s1 loc) by (by eapply inside_same).
  destruct (isValid _ && _).
  - destruct (onBucket_evolve (bucketSet (e_key e) (if kHasValues then Some (e_val e) else None) 0) s1
      (chunkOf new (e_key e), loc.2) (Some (Some (e_val e))) (e_key e)
      (fun r => r.1 <> BR_PROMOTE)) as (a & s2 & E2 & Hev & _); [done|..].
    + destruct Hin as [_ H2]. pose proof (chunkOf_range new (e_key e) Hn) as Hr.
      split; simpl; [|done]. rewrite (same_shape_zlen s s1 Hsh1). lia.
    + rewrite <- copied_value. apply bucketSet_runs. by eapply (content_nonempty s loc).
    + unfold bind. rewrite E2. eexists _, _. split; [done|]. right. exists e.
      split; [done|]. split; [done|]. by eapply evolve_after_read.
  - destruct (onBucket_evolve (callRemoveCb (e_key e) (e_val e)
      (if isValid (e_key e) then kEviction else kNormal)) s1 loc None (e_key e) (fun _ => True))
      as (a & s2 & E2 & Hev & _); [done|done|..].
    + intros b lg Hb. unfold callRemoveCb, log_event, modify, ret.
      destruct removeCb_; (eexists _, _, _, _; split; [done|]; split; [done|]; split; [done|];
        by intros x).
    + unfold bind. rewrite E2. eexists _, _. split; [done|]. left. intros k.
      by apply (evolve_after_read loc None k s s1 s2).
Qed.

(** The deleting pass leaves a bucket only the entries that belong there. *)
Lemma rehashBucket_delete (fuel : nat) (old new : Z) (loc : Loc) (pos : nat) (s : CCache) :
  table_ok s -> inside s loc -> 1 <= new <= 2 ^ 26 -> new <= zlen (chunks s) ->
  (pos <= length (content s loc) < pos + fuel)%nat ->
  (forall i e, (i < pos)%nat -> content s loc !! i = Some e -> chunkOf new (e_key e) = loc.1) ->
  exists s', rehashBucket fuel DELETE old new loc pos 0 s = (Ok tt, s') /\
    (forall k, evolve loc None k s s') /\
    forall e, e ∈ content s' loc -> chunkOf new (e_key e) = loc.1.
Proof.
  revert pos s. induction fuel as [|fuel IH]; intros pos s Hok Hin Hn Hz Hf Hdone; [lia|].
  destruct (peekEntry_run s loc pos Hok Hin) as (s1 & E1 & Hok1 & Hsh1 & Hc1).
  assert (Hin1 : inside s1 loc) by (by eapply inside_same).
  cbn [rehashBucket]. unfold rehashEntry. unfold bind at 1 2. rewrite E1.
  destruct (content s loc !! pos) as [e|] eqn:Ee.
  - pose proof (lookup_lt_Some _ _ _ Ee) as Hlt.
    unfold bind at 1. rewrite tableFindChunk_run by (done || by rewrite (same_shape_zlen s s1)).
    destruct (Z.eqb_spec (chunkOf new (e_key e)) loc.1) as [Heq|Hne].
    + cbn [ret]. destruct (IH (S pos) s1) as (s' & E' & Hev & Hall); auto.
      * by rewrite (same_shape_zlen s s1).
      * rewrite Hc1. lia.
      * intros i x Hi. rewrite Hc1. intros Hx. destruct (decide (i = pos)) as [->|]; [congruence|].
        apply (Hdone i); [lia|done].
      * exists s'. split; [done|]. split; [|done]. intros k. by eapply evolve_after_read.
    + destruct (onBucket_run (let! b := getBucket in setBucket (del b pos)) s1 loc
        (fun _ l' => l' = delete pos (content s loc)) Hok1 Hin1)
        as ([] & s2 & E2 & Hok2 & Hsh2 & Hc2 & Ho2).
      { intros b lg Hb. rewrite Hc1 in Hb. eexists _, _, _, _. split; [done|].
        split; [|done]. by eapply del_spec. }
      unfold bind at 1. rewrite E2. cbn [ret].
      assert (Hdel : forall k, evolve loc None k s s2).
      { intros k. split; [done|]. split; [by eapply same_shape_trans|]. intros loc' x Hx.
        destruct (decide (loc' = loc)) as [->|Hl]; [|by rewrite Ho2, Hc1 in Hx].
        rewrite Hc2 in Hx. rewrite (delete_Permutation _ _ _ Ee). by right. }
      assert (Hin2 : inside s2 loc) by (by eapply inside_same).
      destruct (IH pos s2) as (s' & E' & Hev & Hall); auto.
      * by rewrite (same_shape_zlen s1 s2), (same_shape_zlen s s1).
      * rewrite Hc2, length_delete by eauto. lia.
      * intros i x Hi. rewrite Hc2, list_lookup_delete_lt by done. by apply Hdone.
      * exists s'. split; [done|]. split; [|done]. intros k.
        destruct (Hdel k) as (_ & Hs2 & Hi2), (Hev k) as (Hok' & Hs' & Hi').
        split; [done|]. split; [by eapply same_shape_trans|]. intros loc' x Hx. by apply Hi2, Hi'.
  - cbn [ret]. exists s1. split; [done|]. split.
    + intros k. split; [done|]. split; [done|]. intros loc' e. by rewrite Hc1.
    + intros e He. rewrite Hc1 in He. apply list_elem_of_lookup in He as [i Hi].
      apply (Hdone i); [|done]. apply lookup_ge_None in Ee. apply lookup_lt_Some in Hi. lia.
Qed.

Lemma content_length (s : CCache) (loc : Loc) :
  table_ok s -> inside s loc -> (length (content s loc) <= kEntriesPerBucket)%nat.
Proof.
  intros Hok Hin. destruct (inside_bucket s loc Hok Hin) as (? & ? & _ & _ & (_ & Hl & _)). done.
Qed.

(** ** The allocator *)

Lemma zeroChunk_lookup (i : nat) (b : Bucket) :
  zeroChunk !! i = Some b -> b = zeroBucket.
Proof. unfold zeroChunk. intros H. by apply lookup_replicate in H as [-> _]. Qed.

Lemma live_zero : live zeroBucket = [].
Proof. apply holds_live, holds_zero. Qed.

Lemma allocatorResize_run (size : Z) (avail : nat) (s : CCache) :
  table_ok s ->
  exists s', allocatorResize size avail s = (Ok (zlen (chunks s')), s') /\ table_ok s' /\
    numChunks_ s' = numChunks_ s /\ pendingNumChunks_ s' = pendingNumChunks_ s /\
    (forall loc e, e ∈ content s' loc -> e ∈ content s loc) /\
    zlen (chunks s') = (if size / getChunkSize <? zlen (chunks s) then Z.max 0 (size / getChunkSize)
                        else Z.min (size / getChunkSize) (zlen (chunks s) + Z.of_nat avail)).
Proof.
  intros Hok. unfold allocatorResize, bind, modify, gets. set (want := size / getChunkSize).
  eexists. split; [reflexivity|]. cbn [chunks numChunks_ pendingNumChunks_].
  destruct (Z.ltb_spec want (zlen (chunks s))) as [Hlt|Hge]; (split; [|split; [done|split; [done|split]]]).
  - intros n c Hc. simpl in Hc. apply lookup_take_Some in Hc as [Hc _]. by apply (Hok n).
  - intros loc e. unfold content. simpl. destruct (_ && _); [|done].
    destruct (take _ _ !! _) as [c|] eqn:E; [|by intros ?%not_elem_of_nil].
    apply lookup_take_Some in E as [-> _]. done.
  - unfold zlen in *. rewrite length_take. lia.
  - intros n c Hc. simpl in Hc. apply lookup_app_Some in Hc as [Hc|[_ Hc]]; [by apply (Hok n)|].
    apply lookup_replicate in Hc as [-> _]. split; [apply length_replicate|].
    intros i b Hb. rewrite (zeroChunk_lookup i b Hb). exists []. apply holds_zero.
  - intros loc e. unfold content. simpl. destruct (_ && _); [|done].
    destruct ((chunks s ++ _) !! _) as [c|] eqn:E; [|by intros ?%not_elem_of_nil].
    apply lookup_app_Some in E as [->|[Hge' Hc]]; [done|].
    apply lookup_replicate in Hc as [-> _].
    destruct (zeroChunk !! _) as [b|] eqn:Eb; [|by intros ?%not_elem_of_nil].
    rewrite (zeroChunk_lookup _ b Eb), live_zero. by intros ?%not_elem_of_nil.
  - unfold zlen in *. rewrite length_app, length_replicate. lia.
Qed.
End contents.
