(* ===== verification/CCacheResizeInv.v ===== *)
(** * The invariant of a compact cache under resizing

    Where entries can be in each phase of [resize], that the entries readers
    can reach are the latest, and what each request in progress relies on.
    The file proves that the elementary changes of the table keep it. *)

From S2P Require Import Prelude Bytes FurcHash CCacheBucket CCache CCacheResize CCacheProofs.
From stdpp Require Import base tactics numbers list.

#[local] Open Scope Z_scope.

Import FixedLruBucket CCache.

Section invariant.
  Context `{D : Descriptor} {Dok : DescriptorOk D} {C : CConfig} {Cok : CConfigOk}.

Definition legal (n : Z) : Prop := 1 <= n <= 2 ^ 26.

(** The number of chunks that is being announced. *)
Definition upcoming (p : Phase) : option Z :=
  match p with
  | Announced _ new | Copying _ new _ _ _ _ => Some new
  | _ => None
  end.

Definition sizes (s : CCache) (old new : Z) : Prop :=
  legal old /\ legal new /\ zlen (chunks s) = Z.max old new.

Definition phase_ok (s : CCache) (p : Phase) : Prop :=
  match p with
  | Idle => legal (numChunks_ s) /\ pendingNumChunks_ s = 0 /\ zlen (chunks s) = numChunks_ s
  | Announced old new =>
      sizes s old new /\ numChunks_ s = old /\ pendingNumChunks_ s = new
  | Copying old new n i _ _ =>
      (sizes s old new /\ numChunks_ s = old /\ pendingNumChunks_ s = new) /\
      0 <= n /\ 0 <= i < bucketsPerChunk_
  | Switched old new => sizes s old new /\ numChunks_ s = new /\ pendingNumChunks_ s = new
  | Stopped old new => sizes s old new /\ numChunks_ s = new /\ pendingNumChunks_ s = 0
  | Deleting old new n i =>
      (sizes s old new /\ numChunks_ s = new /\ pendingNumChunks_ s = 0) /\
      0 <= n /\ 0 <= i < bucketsPerChunk_
  end.

(** A location the deleting pass has not reached. *)
Definition ahead (n i : Z) (loc : Loc) : Prop := n < loc.1 \/ n = loc.1 /\ i <= loc.2.

Definition place_ok (s : CCache) (p : Phase) (loc : Loc) (k : Key) : Prop :=
  match p with
  | Idle => loc = locOf (numChunks_ s) k
  | Announced old new | Copying old new _ _ _ _ | Switched old new | Stopped old new =>
      loc = locOf old k \/ loc = locOf new k
  | Deleting old new n i => loc = locOf new k \/ loc = locOf old k /\ ahead n i loc
  end.

Definition placed (s : CCache) (p : Phase) : Prop :=
  forall loc e, e ∈ content s loc -> place_ok s p loc (e_key e).

(** What readers can find is the latest value. *)
Definition fresh (s : CCache) (lat : Key -> option Value) : Prop :=
  forall e, e ∈ content s (locOf (numChunks_ s) (e_key e)) -> lat (e_key e) = Some (e_val e).

(** A write between its two updates. *)
Definition split_write (q : Req) : Prop :=
  is_write q = true /\ fn_effect (rq_fn q) <> None /\
  match rq_pc q with PcHandled _ _ | PcDbl _ _ _ => True | _ => False end.

(** What readers will find, but for the keys of such writes. *)
Definition fresh_new (s : CCache) (p : Phase) (lat : Key -> option Value) (reqs : list Req) : Prop :=
  forall new e, upcoming p = Some new -> e ∈ content s (locOf new (e_key e)) ->
  (forall i q, reqs !! i = Some q -> split_write q -> rq_key q <> e_key e) ->
  lat (e_key e) = Some (e_val e).

Definition serial (reqs : list Req) : Prop :=
  forall i j q q', i <> j -> reqs !! i = Some q -> reqs !! j = Some q' ->
  is_write q = true -> done q = false -> is_write q' = true -> done q' = false ->
  rq_key q <> rq_key q'.

(** A value the key had during the request, as [get] returns it. *)
Definition found (q : Req) (want : bool) (out : option Value) : Prop :=
  exists v, Some v ∈ rq_seen q /\ out = if kHasValues && want then Some v else None.

(** A reader is at the current location, or, before it is waited for, at the
    previous one. *)
Definition read_loc (s : CCache) (p : Phase) (ep : nat) (q : Req) (loc : Loc) : Prop :=
  loc = locOf (numChunks_ s) (rq_key q) \/
  exists old new, p = Switched old new /\ (rq_epoch q < ep)%nat /\ loc = locOf old (rq_key q) /\
    loc <> locOf (numChunks_ s) (rq_key q) /\
    forall e, e ∈ content s loc -> e_key e = rq_key q -> Some (e_val e) ∈ rq_seen q.

Definition dbl_ok (s : CCache) (p : Phase) (ep : nat) (q : Req) (dbl : option Loc) : Prop :=
  match upcoming p with
  | None => dbl = None
  | Some new =>
      chunkOf (numChunks_ s) (rq_key q) = chunkOf new (rq_key q) /\ dbl = None \/
      chunkOf (numChunks_ s) (rq_key q) <> chunkOf new (rq_key q) /\
      (dbl = Some (locOf new (rq_key q)) \/
       dbl = None /\ (exists old, p = Announced old new) /\ (rq_epoch q < ep)%nat /\
       forall e, e ∈ content s (locOf new (rq_key q)) -> e_key e <> rq_key q)
  end.

Definition effect_done (lat : Key -> option Value) (q : Req) : Prop :=
  forall o, fn_effect (rq_fn q) = Some o -> lat (rq_key q) = o.

Definition pc_ok (s : CCache) (p : Phase) (ep : nat) (lat : Key -> option Value) (q : Req) : Prop :=
  match rq_fn q with
  | FnGet want _ =>
      match rq_pc q with
      | PcStart => True
      | PcPicked loc => read_loc s p ep q loc
      | PcPromote loc out => read_loc s p ep q loc /\ found q want out
      | PcHandled _ _ | PcDbl _ _ _ => False
      | PcDone code out => code = 1 -> found q want out
      end
  | _ =>
      match rq_pc q with
      | PcStart | PcDone _ _ => True
      | PcPicked loc => loc = locOf (numChunks_ s) (rq_key q)
      | PcPromote _ _ => False
      | PcHandled _ _ => effect_done lat q
      | PcDbl dbl _ _ => effect_done lat q /\ dbl_ok s p ep q dbl
      end
  end.

Definition rq_ok (s : CCache) (p : Phase) (ep : nat) (lat : Key -> option Value) (q : Req) : Prop :=
  isEmpty (rq_key q) = false /\ (rq_epoch q <= ep)%nat /\
  (done q = false -> lat (rq_key q) ∈ rq_seen q) /\ pc_ok s p ep lat q.

Record Inv (s : CCache) (p : Phase) (ep : nat) (lat : Key -> option Value) (reqs : list Req)
    : Prop := mkInv {
  inv_table : table_ok s;
  inv_phase : phase_ok s p;
  inv_placed : placed s p;
  inv_fresh : fresh s lat;
  inv_new : fresh_new s p lat reqs;
  inv_serial : serial reqs;
  inv_reqs : forall i q, reqs !! i = Some q -> rq_ok s p ep lat q
}.

(** ** Facts of the phases *)

Lemma phase_legal (s : CCache) (p : Phase) :
  phase_ok s p -> legal (numChunks_ s) /\ numChunks_ s <= zlen (chunks s) /\
    0 <= pendingNumChunks_ s <= 2 ^ 26 /\ pendingNumChunks_ s <= zlen (chunks s).
Proof. destruct p; simpl; unfold sizes, legal; intros; lia. Qed.

Lemma phase_upcoming (s : CCache) (p : Phase) (new : Z) :
  phase_ok s p -> upcoming p = Some new ->
  legal new /\ pendingNumChunks_ s = new /\ new <= zlen (chunks s).
Proof. destruct p; simpl; unfold sizes, legal; intros H [= <-]; lia. Qed.

Lemma phase_same (s s' : CCache) (p : Phase) : same_shape s s' -> phase_ok s p -> phase_ok s' p.
Proof.
  intros Hs. pose proof (same_shape_zlen s s' Hs) as Hz. destruct Hs as (Hn & Hp & _).
  destruct p; simpl; unfold sizes; by rewrite ?Hn, ?Hp, ?Hz.
Qed.

Lemma locOf_chunk (n m : Z) (k : Key) : locOf n k = locOf m k <-> chunkOf n k = chunkOf m k.
Proof. unfold locOf. split; [by intros [= ?]|by intros ->]. Qed.

Lemma place_current (s : CCache) (p : Phase) (k : Key) :
  phase_ok s p -> place_ok s p (locOf (numChunks_ s) k) k.
Proof.
  destruct p as [|old new|old new n i pos mv|old new|old new|old new n i]; simpl; intros H.
  - done.
  - destruct H as (_ & -> & _). by left.
  - destruct H as ((_ & -> & _) & _). by left.
  - destruct H as (_ & -> & _). by right.
  - destruct H as (_ & -> & _). by right.
  - destruct H as ((_ & -> & _) & _). by left.
Qed.

Lemma place_same (s s' : CCache) (p : Phase) (loc : Loc) (k : Key) :
  numChunks_ s' = numChunks_ s -> place_ok s p loc k -> place_ok s' p loc k.
Proof. intros Hn. destruct p; simpl; by rewrite ?Hn. Qed.

(** Fewer entries. *)
Lemma rq_ok_less (s s' : CCache) (p : Phase) (ep : nat) (lat : Key -> option Value) (q : Req) :
  numChunks_ s' = numChunks_ s -> (forall loc e, e ∈ content s' loc -> e ∈ content s loc) ->
  rq_ok s p ep lat q -> rq_ok s' p ep lat q.
Proof.
  intros Hn Hc (Hk & He & Hl & Hpc). split; [done|]. split; [done|]. split; [done|].
  assert (Hr : forall loc, read_loc s p ep q loc -> read_loc s' p ep q loc).
  { unfold read_loc. rewrite Hn. intros loc [?|(old & new & ? & ? & ? & ? & Hx)]; [by left|].
    right. exists old, new. repeat (split; [done|]). intros e Hin. by apply Hx, Hc. }
  assert (Hd : forall dbl, dbl_ok s p ep q dbl -> dbl_ok s' p ep q dbl).
  { unfold dbl_ok. rewrite Hn. intros dbl. destruct (upcoming p) as [new|]; [|done].
    intros [?|(? & [?|(? & ? & ? & Hx)])]; [by left|by right; auto|].
    right. split; [done|]. right. repeat (split; [done|]). intros e Hin. by apply Hx, Hc. }
  unfold pc_ok in *. destruct (rq_fn q), (rq_pc q); rewrite ?Hn; naive_solver.
Qed.

Lemma Inv_less (s s' : CCache) (p : Phase) (ep : nat) (lat : Key -> option Value) (reqs : list Req) :
  table_ok s' -> same_shape s s' -> (forall loc e, e ∈ content s' loc -> e ∈ content s loc) ->
  Inv s p ep lat reqs -> Inv s' p ep lat reqs.
Proof.
  intros Hok Hs Hc HI. pose proof Hs as (Hn & _ & _). destruct HI. split; auto.
  - by eapply phase_same.
  - intros loc e He. by apply (place_same s s'), inv_placed0, Hc.
  - intros e He. apply inv_fresh0, Hc. by rewrite <- Hn.
  - intros new e Hu He. apply (inv_new0 new); auto.
  - intros i q Hq. apply (rq_ok_less s s'); eauto.
Qed.

(** ** A request goes on *)

Lemma alter_split (r : nat) (pc : Pc) (reqs : list Req) (q : Req) (j : nat) (x : Req) :
  reqs !! r = Some q -> alter (set_pc pc) r reqs !! j = Some x ->
  j = r /\ x = set_pc pc q \/ j <> r /\ reqs !! j = Some x.
Proof.
  intros Hq Hx. destruct (decide (j = r)) as [->|Hne].
  - rewrite list_lookup_alter_eq, Hq in Hx. injection Hx as <-. by left.
  - rewrite list_lookup_alter_ne in Hx by done. by right.
Qed.

Lemma serial_alter (r : nat) (pc : Pc) (reqs : list Req) (q : Req) :
  reqs !! r = Some q -> done q = false -> serial reqs -> serial (alter (set_pc pc) r reqs).
Proof.
  intros Hq Hd Hs i j x y Hij Hx Hy.
  apply (alter_split r pc reqs q) in Hx, Hy; [|done|done].
  destruct Hx as [[-> ->]|[Hxr Hx]], Hy as [[-> ->]|[Hyr Hy]]; intros; try done.
  - change (rq_key (set_pc pc q)) with (rq_key q). by apply (Hs r j).
  - change (rq_key (set_pc pc q)) with (rq_key q). by apply (Hs i r).
  - by apply (Hs i j).
Qed.

Lemma Inv_set_pc (s : CCache) (p : Phase) (ep : nat) (lat : Key -> option Value) (reqs : list Req)
    (r : nat) (q : Req) (pc : Pc) :
  Inv s p ep lat reqs -> reqs !! r = Some q -> done q = false ->
  (split_write (set_pc pc q) \/ ~ split_write q \/
     forall new e, upcoming p = Some new -> e ∈ content s (locOf new (e_key e)) ->
       e_key e = rq_key q -> lat (e_key e) = Some (e_val e)) ->
  rq_ok s p ep lat (set_pc pc q) ->
  Inv s p ep lat (alter (set_pc pc) r reqs).
Proof.
  intros HI Hq Hd Hsp Hok. destruct HI. split; auto.
  - intros new e Hu He Hno.
    assert (Hcase : (split_write q -> rq_key q <> e_key e) \/ lat (e_key e) = Some (e_val e)).
    { destruct Hsp as [Hs|[Hs|Hs]]; [left; intros _|by left|].
      - apply (Hno r (set_pc pc q)); [|done]. by rewrite list_lookup_alter_eq, Hq.
      - destruct (decide (rq_key q = e_key e)); [right|by left]. by eapply Hs. }
    destruct Hcase as [Hcase|]; [|done]. apply (inv_new0 new); auto. intros j x Hx Hs.
    destruct (decide (j = r)) as [->|Hne]; [rewrite Hq in Hx; injection Hx as <-; auto|].
    apply (Hno j x); [|done]. by rewrite list_lookup_alter_ne.
  - by eapply serial_alter.
  - intros j x Hx. apply (alter_split r pc reqs q) in Hx as [[-> ->]|[_ Hx]]; eauto.
Qed.

(** ** A write updates the current location *)

Lemma evolve_other (loc : Loc) (k : Key) (o : option Value) (s s' : CCache) (loc' : Loc) (e : Entry) :
  evolve loc (Some o) k s s' -> e ∈ content s' loc' ->
  (e ∈ content s loc' /\ ~ (loc' = loc /\ e_key e = k)) \/
  (loc' = loc /\ e_key e = k /\ o = Some (e_val e)).
Proof. intros (_ & _ & H). apply H. Qed.

Lemma set_latest_eq (k : Key) (o : option Value) (lat : Key -> option Value) :
  set_latest k o lat k = o.
Proof. unfold set_latest. by rewrite bool_decide_eq_true_2. Qed.

Lemma set_latest_ne (k k' : Key) (o : option Value) (lat : Key -> option Value) :
  k' <> k -> set_latest k o lat k' = lat k'.
Proof. intros. unfold set_latest. by rewrite bool_decide_eq_false_2. Qed.

Lemma notice_fields (k : Key) (o : option Value) (q : Req) :
  rq_key (notice k o q) = rq_key q /\ rq_fn (notice k o q) = rq_fn q /\
  rq_epoch (notice k o q) = rq_epoch q /\ rq_pc (notice k o q) = rq_pc q.
Proof. unfold notice. by destruct (_ && _). Qed.

Lemma notice_seen (k : Key) (o : option Value) (q : Req) (x : option Value) :
  x ∈ rq_seen q -> x ∈ rq_seen (notice k o q).
Proof. unfold notice. destruct (_ && _); [|done]. intros. simpl. by right. Qed.

Lemma notice_latest (k : Key) (o : option Value) (q : Req) (lat : Key -> option Value) :
  done q = false -> lat (rq_key q) ∈ rq_seen q ->
  set_latest k o lat (rq_key q) ∈ rq_seen (notice k o q).
Proof.
  intros Hd Hl. unfold notice, set_latest. rewrite Hd. case_bool_decide; [|done]. simpl. by left.
Qed.

(** The other requests, when [k] gets value [o] at its current location. *)
Lemma rq_ok_notice (s s' : CCache) (p : Phase) (ep : nat) (lat : Key -> option Value) (q : Req)
    (k : Key) (o : option Value) :
  evolve (locOf (numChunks_ s) k) (Some o) k s s' ->
  (is_write q = true -> done q = false -> rq_key q <> k) ->
  rq_ok s p ep lat q -> rq_ok s' p ep (set_latest k o lat) (notice k o q).
Proof.
  intros Hev Hne (Hk & He & Hl & Hpc). pose proof Hev as (_ & (Hn & _) & _).
  destruct (notice_fields k o q) as (Ek & Ef & Ee & Ep).
  assert (Ed : done (notice k o q) = done q) by (unfold done; by rewrite Ep).
  split; [by rewrite Ek|]. split; [by rewrite Ee|].
  split; [rewrite Ed, Ek; intros Hd; by apply notice_latest; auto|].
  assert (Hfound : forall want out, found q want out -> found (notice k o q) want out).
  { intros want out (v & Hv & ->). exists v. split; [by apply notice_seen|done]. }
  assert (Hr : forall loc, read_loc s p ep q loc -> read_loc s' p ep (notice k o q) loc).
  { unfold read_loc. rewrite Hn, Ek, Ee. intros loc [?|(old & new & ? & ? & ? & Hl' & Hx)]; [by left|].
    right. exists old, new. repeat (split; [done|]). intros e Hin Hke.
    destruct (evolve_other _ _ _ _ _ _ _ Hev Hin) as [[Hin' _]|(-> & Hkk & _)].
    - by apply notice_seen, Hx.
    - exfalso. apply Hl'. congruence. }
  assert (Hd : forall dbl, rq_key q <> k -> dbl_ok s p ep q dbl -> dbl_ok s' p ep (notice k o q) dbl).
  { unfold dbl_ok. rewrite Hn, Ek, Ee. intros dbl Hkk. destruct (upcoming p) as [new|]; [|done].
    intros [?|(? & [?|(? & ? & ? & Hx)])]; [by left|by right; auto|].
    right. split; [done|]. right. repeat (split; [done|]). intros e Hin Hke.
    destruct (evolve_other _ _ _ _ _ _ _ Hev Hin) as [[Hin' _]|(_ & Hk' & _)]; [by apply (Hx e)|].
    congruence. }
  unfold pc_ok in *. rewrite Ef, Ep, ?Ek, ?Hn. unfold effect_done in *. rewrite Ef, Ek.
  unfold is_write, done in Hne.
  destruct (rq_fn q) as [val sz|w|w sp], (rq_pc q); simpl in *; try done; auto;
    try (rewrite (set_latest_ne k) by auto); intuition auto.
Qed.

Lemma Inv_write_current (s s' : CCache) (p : Phase) (ep : nat) (lat : Key -> option Value)
    (reqs : list Req) (r : nat) (q : Req) (loc : Loc) (o : option Value) (rv : BucketReturn)
    (out : option Value) :
  Inv s p ep lat reqs -> reqs !! r = Some q -> is_write q = true ->
  rq_pc q = PcPicked loc -> fn_effect (rq_fn q) = Some o ->
  evolve (locOf (numChunks_ s) (rq_key q)) (Some o) (rq_key q) s s' ->
  Inv s' p ep (set_latest (rq_key q) o lat)
    (alter (set_pc (PcHandled rv out)) r (notice (rq_key q) o <$> reqs)).
Proof.
  intros HI Hq Hw Hpc Hf Hev. pose proof Hev as (Hok & Hsh & _). pose proof Hsh as (Hn & _ & _).
  assert (Hd : done q = false) by (unfold done; by rewrite Hpc).
  destruct HI. pose proof (phase_same s s' p Hsh inv_phase0) as Hph.
  set (k := rq_key q) in *.
  assert (Hq' : (notice k o <$> reqs) !! r = Some (notice k o q)) by (by rewrite list_lookup_fmap, Hq).
  destruct (notice_fields k o q) as (Ek & Ef & Ee & Ep).
  assert (Hsplit : split_write (set_pc (PcHandled rv out) (notice k o q))).
  { split; [|split; [|done]]; simpl.
    - unfold is_write in *. simpl. by rewrite Ef.
    - by rewrite Ef, Hf. }
  split; auto.
  - intros l e He. destruct (evolve_other _ _ _ _ _ _ _ Hev He) as [[Hin _]|(-> & <- & _)].
    + by apply (place_same s s'), inv_placed0.
    + rewrite <- Hn. by apply place_current.
  - intros e He. rewrite Hn in He. destruct (evolve_other _ _ _ _ _ _ _ Hev He) as [[Hin Hx]|(_ & Hk & Ho)].
    + rewrite set_latest_ne; [by apply inv_fresh0|]. intros Hk. apply Hx. by rewrite Hk.
    + rewrite Hk, set_latest_eq. by rewrite <- Ho.
  - intros new e Hu He Hno.
    assert (Hke : e_key e <> k).
    { intros Hk. apply (Hno r (set_pc (PcHandled rv out) (notice k o q))); [|done|].
      - by rewrite list_lookup_alter_eq, Hq'.
      - simpl. by rewrite Ek. }
    rewrite set_latest_ne by done.
    destruct (evolve_other _ _ _ _ _ _ _ Hev He) as [[Hin _]|(_ & ? & _)]; [|done].
    apply (inv_new0 new); auto. intros j x Hx Hs. destruct (decide (j = r)) as [->|Hj].
    + rewrite Hq in Hx. injection Hx as <-. by intros ?.
    + destruct (notice_fields k o x) as (Ek' & Ef' & _ & Ep').
      rewrite <- Ek'. apply (Hno j).
      * by rewrite list_lookup_alter_ne, list_lookup_fmap, Hx.
      * unfold split_write, is_write in *. by rewrite Ef', Ep'.
  - apply serial_alter with (notice k o q); [done| |].
    + unfold done in *. by rewrite Ep.
    + intros i j x y Hij Hx Hy. rewrite list_lookup_fmap in Hx, Hy.
      destruct (reqs !! i) as [x0|] eqn:Ex, (reqs !! j) as [y0|] eqn:Ey; try done.
      injection Hx as <-. injection Hy as <-.
      destruct (notice_fields k o x0) as (-> & Ef1 & _ & Ep1), (notice_fields k o y0) as (-> & Ef2 & _ & Ep2).
      unfold is_write, done in *. rewrite Ef1, Ep1, Ef2, Ep2. by apply (inv_serial0 i j).
  - intros j x Hx. apply (alter_split r _ _ (notice k o q)) in Hx as [[-> ->]|[Hj Hx]]; [..|done].
    + destruct (inv_reqs0 r q Hq) as (H1 & H2 & H3 & _).
      split; [simpl; by rewrite Ek|]. split; [simpl; by rewrite Ee|]. split.
      * simpl. rewrite Ek. intros _. apply notice_latest; auto.
      * unfold pc_ok. simpl. rewrite Ef. unfold is_write in Hw.
        assert (effect_done (set_latest k o lat) (set_pc (PcHandled rv out) (notice k o q))).
        { intros o'. simpl. rewrite Ef, Ek, Hf. intros [= <-]. apply set_latest_eq. }
        by destruct (rq_fn q).
    + rewrite list_lookup_fmap in Hx. destruct (reqs !! j) as [y|] eqn:Ey; [|done].
      injection Hx as <-. apply (rq_ok_notice s s'); eauto.
Qed.

(** ** An update at the location the key moves to *)

(** No write is past choosing its locations without having seen the new one. *)
Definition aware (reqs : list Req) (p : Phase) (ep : nat) (k : Key) : Prop :=
  (exists old, p = Announced old (default 0 (upcoming p))) ->
  forall i q, reqs !! i = Some q -> is_write q = true -> rq_key q = k ->
    done q = true \/ match rq_pc q with PcDbl None _ _ => rq_epoch q = ep | _ => True end.

Lemma Inv_write_new (s s' : CCache) (p : Phase) (ep : nat) (lat : Key -> option Value)
    (reqs : list Req) (k : Key) (v : option Value) (new : Z) :
  Inv s p ep lat reqs -> upcoming p = Some new ->
  chunkOf (numChunks_ s) k <> chunkOf new k -> lat k = v ->
  evolve (locOf new k) (Some v) k s s' -> aware reqs p ep k ->
  Inv s' p ep lat reqs.
Proof.
  intros HI Hu Hmv Hlat Hev Haw. pose proof Hev as (Hok & Hsh & _). pose proof Hsh as (Hn & _ & _).
  destruct HI. split; auto.
  - by eapply phase_same.
  - intros l e He. destruct (evolve_other _ _ _ _ _ _ _ Hev He) as [[Hin _]|(-> & <- & _)].
    + by apply (place_same s s'), inv_placed0.
    + destruct p; simpl in *; try done; injection Hu as ->; by right.
  - intros e He. rewrite Hn in He. destruct (evolve_other _ _ _ _ _ _ _ Hev He) as [[Hin _]|(Hl & Hk & _)].
    + by apply inv_fresh0.
    + exfalso. rewrite Hk in Hl. by apply locOf_chunk in Hl.
  - intros new' e Hu' He Hno. rewrite Hu in Hu'. injection Hu' as <-.
    destruct (evolve_other _ _ _ _ _ _ _ Hev He) as [[Hin _]|(_ & Hk & Ho)].
    + by apply (inv_new0 new).
    + by rewrite Hk, Hlat.
  - intros j q Hq. destruct (inv_reqs0 j q Hq) as (H1 & H2 & H3 & Hpc).
    split; [done|]. split; [done|]. split; [done|].
    assert (Hr : forall loc, read_loc s p ep q loc -> read_loc s' p ep q loc).
    { unfold read_loc. rewrite Hn. intros loc [?|(o1 & n1 & -> & _)]; [by left|done]. }
    assert (Hd : forall dbl rv out, is_write q = true -> rq_pc q = PcDbl dbl rv out ->
              dbl_ok s p ep q dbl -> dbl_ok s' p ep q dbl).
    { unfold dbl_ok. rewrite Hn, Hu. intros dbl rv out Hw Epc.
      intros [?|(? & [?|(-> & [old Ha] & Hlt & Hx)])]; [by left|by right; auto|].
      right. split; [done|]. right. split; [done|]. split; [by exists old|]. split; [done|].
      intros e Hin Hke.
      destruct (evolve_other _ _ _ _ _ _ _ Hev Hin) as [[Hin' _]|(_ & Hk & _)]; [by apply (Hx e)|].
      destruct (Haw ltac:(exists old; by rewrite Hu) j q Hq Hw ltac:(congruence)) as [Hdn|Hep].
      - unfold done in Hdn. by rewrite Epc in Hdn.
      - rewrite Epc in Hep. lia. }
    unfold pc_ok, is_write in *.
    destruct (rq_fn q), (rq_pc q) eqn:Epc; simpl in *; rewrite ?Hn; try done; intuition eauto.
Qed.
End invariant.
