(* ===== verification/CCacheResizeSpec.v ===== *)
(** * A compact cache never serves stale values while it is resized

    Every action of [CCacheResize] keeps the invariant of [CCacheResizeInv],
    provided the schedule is [disciplined] ([CCacheProofs] shows what happens
    otherwise). *)

From S2P Require Import Prelude Bytes FurcHash CCacheBucket CCache CCacheResize.
From S2P Require Import CCacheProofs CCacheResizeInv.
From stdpp Require Import base tactics numbers list.

#[local] Open Scope Z_scope.
#[local] Open Scope cachelib_scope.

Import FixedLruBucket CCache.

Section preservation.
  Context `{D : Descriptor} {Dok : DescriptorOk D} {C : CConfig} {Cok : CConfigOk}.

Definition inv (w : World) : Prop :=
  w_crash w = None /\ Inv (w_cc w) (w_phase w) (w_epoch w) (w_latest w) (w_reqs w).

(** ** Requests *)

Lemma step_start (w w' : World) (k : Key) (f : BucketFn) :
  inv w -> disciplined (AStart k f) w = true -> act_start k f w = Some w' -> inv w'.
Proof.
  intros [Hc HI] [Hk%negb_true_iff Hser]%andb_true_iff. unfold act_start. intros [= <-]. split; [done|]. cbn.
  set (q := mkReq _ _ _ _ _). destruct HI. split; auto.
  - intros new e Hu He Hno. apply (inv_new new e Hu He). intros i x Hx.
    apply (Hno i). by apply lookup_app_l_Some.
  - intros i j x y Hij Hx Hy Hwx Hdx Hwy Hdy.
    assert (Hnew : is_write q = true -> forall i z, w_reqs w !! i = Some z -> is_write z = true ->
              done z = false -> rq_key z <> k).
    { intros Hwq i0 z Hz Hwz Hdz <-. unfold is_write in Hwq. cbn in Hwq.
      destruct (fn_op f); [done|]. apply negb_true_iff, not_true_iff_false in Hser. apply Hser.
      apply existsb_exists. exists z. split; [by eapply list_elem_of_In, list_elem_of_lookup_2|].
      rewrite Hwz, Hdz. cbn. by apply bool_decide_eq_true. }
    apply lookup_snoc_Some in Hx as [[_ Hx]|[-> <-]], Hy as [[_ Hy]|[-> <-]]; [|..|lia].
    + by apply (inv_serial i j).
    + by apply (Hnew Hwy i).
    + intros Heq. by eapply (Hnew Hwx j).
  - intros i x Hx. apply lookup_snoc_Some in Hx as [[_ Hx]|[_ <-]]; [eauto|].
    split; [done|]. split; [done|]. split; [intros _; cbn; by left|].
    unfold pc_ok, q. cbn. by destruct f, (numChunks_ (w_cc w) =? 0).
Qed.

(** A part of a request that leaves at most the entries there were. *)
Lemma step_less {A} (m : M CCache A) (w : World) (r : nat) (q : Req) (pc : A -> Pc) (a : A) (s' : CCache) :
  inv w -> w_reqs w !! r = Some q -> done q = false ->
  m (w_cc w) = (Ok a, s') -> table_ok s' -> same_shape (w_cc w) s' ->
  (forall loc e, e ∈ content s' loc -> e ∈ content (w_cc w) loc) ->
  (split_write (set_pc (pc a) q) \/ ~ split_write q) ->
  rq_ok (w_cc w) (w_phase w) (w_epoch w) (w_latest w) (set_pc (pc a) q) ->
  inv (via m w (fun a => set_req r (pc a))).
Proof.
  intros [Hc HI] Hq Hd Hm Hok Hsh Hless Hsp Hrq. unfold via. rewrite Hm. split; [done|]. cbn.
  apply (Inv_set_pc s' _ _ _ _ r q); [by eapply Inv_less|done|done|naive_solver|].
  apply (rq_ok_less (w_cc w)); [apply Hsh|done|done].
Qed.

Lemma rq_ok_set (s : CCache) (p : Phase) (ep : nat) (lat : Key -> option Value) (q : Req) (pc : Pc) :
  rq_ok s p ep lat q -> done q = false -> pc_ok s p ep lat (set_pc pc q) ->
  rq_ok s p ep lat (set_pc pc q).
Proof. intros (H1 & H2 & H3 & _) Hd Hpc. split; [done|]. split; [done|]. split; [by intros _; apply H3|done]. Qed.

Lemma same_refl (s : CCache) : same_shape s s.
Proof. by repeat split. Qed.

Lemma log_stat_run (st : CCStat) (s : CCache) :
  exists s', log_stat st s = (Ok tt, s') /\ (table_ok s -> table_ok s') /\ same_shape s s' /\
    forall loc, content s' loc = content s loc.
Proof.
  eexists. split; [reflexivity|]. split; [intros H; exact H|]. split; [by repeat split|].
  intros loc. reflexivity.
Qed.

Lemma step_pick (w : World) (r : nat) (q : Req) :
  inv w -> w_reqs w !! r = Some q -> rq_pc q = PcStart ->
  inv (via (tableFindBucket (rq_key q)) w (fun loc => set_req r (PcPicked loc))).
Proof.
  intros Hi Hq Hpc. pose proof Hi as [_ HI]. pose proof (inv_reqs _ _ _ _ _ HI r q Hq) as Hrq.
  destruct (phase_legal _ _ (inv_phase _ _ _ _ _ HI)) as (Hl & Hz & _).
  assert (Hd : done q = false) by (unfold done; by rewrite Hpc).
  eapply (step_less _ w r q); [done|done|done|by apply tableFindBucket_run|apply HI|apply same_refl|done|..].
  - right. intros (_ & _ & Hs). by rewrite Hpc in Hs.
  - apply rq_ok_set; [done|done|]. unfold pc_ok. cbn. destruct (rq_fn q); [done|done|by left].
Qed.

(** Where a picked location is. *)
Lemma picked_inside (w : World) (q : Req) (loc : Loc) :
  inv w -> read_loc (w_cc w) (w_phase w) (w_epoch w) q loc -> inside (w_cc w) loc.
Proof.
  intros [_ HI] Hr. pose proof (inv_phase _ _ _ _ _ HI) as Hph.
  destruct (phase_legal _ _ Hph) as (Hl & Hz & _).
  destruct Hr as [->|(old & new & E & _ & -> & _)]; [by apply locOf_inside|].
  rewrite E in Hph. destruct Hph as ((Ho & _ & Hmax) & _). apply locOf_inside; [done|lia].
Qed.

(** A reader finds a value its key has had since the read began. *)
Lemma read_found (w : World) (r : nat) (q : Req) (loc : Loc) (v : Value) :
  inv w -> w_reqs w !! r = Some q -> done q = false ->
  read_loc (w_cc w) (w_phase w) (w_epoch w) q loc ->
  mkEntry (rq_key q) v ∈ content (w_cc w) loc -> Some v ∈ rq_seen q.
Proof.
  intros [_ HI] Hq Hd Hr Hin. destruct Hr as [->|(old & new & _ & _ & _ & _ & Hx)].
  - pose proof (inv_fresh _ _ _ _ _ HI (mkEntry (rq_key q) v) Hin) as Hf. cbn in Hf.
    destruct (inv_reqs _ _ _ _ _ HI r q Hq) as (_ & _ & Hl & _). rewrite <- Hf. by apply Hl.
  - by apply (Hx (mkEntry (rq_key q) v)).
Qed.

Lemma fn_effect_read (f : BucketFn) : fn_op f = READ -> fn_effect f = None.
Proof. by destruct f. Qed.

Lemma handler_run (w : World) (q : Req) (loc : Loc) :
  inv w -> isEmpty (rq_key q) = false -> inside (w_cc w) loc ->
  exists x s', handlerStep (rq_key q) (rq_fn q) loc (w_cc w) = (Ok x, s') /\
    evolve loc (fn_effect (rq_fn q)) (rq_key q) (w_cc w) s' /\
    returns (rq_fn q) (rq_key q) (content (w_cc w) loc) x.
Proof.
  intros [_ HI] Hk Hin. apply onBucket_evolve; [apply HI|done|]. by apply runFn_runs.
Qed.

Lemma step_handle_read (w : World) (r : nat) (q : Req) (loc : Loc) :
  inv w -> w_reqs w !! r = Some q -> rq_pc q = PcPicked loc -> is_write q = false ->
  inv (via (handlerStep (rq_key q) (rq_fn q) loc) w
         (fun x => set_req r (after_handler (rq_fn q) loc x))).
Proof.
  intros Hi Hq Hpc Hw. pose proof Hi as [_ HI]. pose proof (inv_reqs _ _ _ _ _ HI r q Hq) as Hrq.
  assert (Hd : done q = false) by (unfold done; by rewrite Hpc).
  destruct Hrq as (Hk & He & Hl & Hpok) eqn:Erq. clear Erq.
  unfold is_write in Hw. unfold pc_ok in Hpok. rewrite Hpc in Hpok.
  destruct (rq_fn q) as [val sz|wv|want sp] eqn:Ef; [done|done|].
  destruct (handler_run w q loc Hi Hk) as (x & s' & E & Hev & Hret).
  { by eapply picked_inside. }
  rewrite Ef in E, Hev, Hret. cbn [fn_effect] in Hev. destruct Hev as (Hok & Hsh & Hless).
  eapply (step_less _ w r q); [done|done|done|exact E|done|done|done|..].
  - right. intros (_ & _ & Hs). by rewrite Hpc in Hs.
  - apply rq_ok_set; [by split; [|split; [|split]]; unfold pc_ok; rewrite ?Ef, ?Hpc|done|].
    assert (Hfound : forall v, mkEntry (rq_key q) v ∈ content (w_cc w) loc ->
              found q want (if kHasValues && want then Some v else None)).
    { intros v Hv. exists v. split; [by eapply read_found|done]. }
    unfold pc_ok. cbn [rq_fn set_pc rq_pc]. rewrite Ef. unfold after_handler. cbn [fn_op].
    destruct x as [rv out]. unfold returns in Hret. cbn [fst snd] in Hret |- *.
    destruct Hret as [[= -> ->]|([-> | ->] & v & Hv & ->)]; cbn [fst snd]; [done|..].
    + intros _. by apply Hfound.
    + destruct allowPromotions_; [split; [done|by apply Hfound]|]. intros _. by apply Hfound.
Qed.

Lemma after_write (f : BucketFn) (loc : Loc) (x : BucketReturn * option Value) :
  fn_op f = WRITE -> after_handler f loc x = PcHandled x.1 x.2.
Proof. unfold after_handler. by intros ->. Qed.

Lemma write_fn (q : Req) : is_write q = true -> fn_op (rq_fn q) = WRITE.
Proof. unfold is_write. by destruct (fn_op (rq_fn q)). Qed.

(** What [pc_ok] says of a write. *)
Lemma write_pc (s : CCache) (p : Phase) (ep : nat) (lat : Key -> option Value) (q : Req) :
  is_write q = true ->
  pc_ok s p ep lat q <->
  match rq_pc q with
  | PcStart | PcDone _ _ => True
  | PcPicked loc => loc = locOf (numChunks_ s) (rq_key q)
  | PcPromote _ _ => False
  | PcHandled _ _ => effect_done lat q
  | PcDbl dbl _ _ => effect_done lat q /\ dbl_ok s p ep q dbl
  end.
Proof. unfold is_write, pc_ok. by destruct (rq_fn q). Qed.

Lemma step_handle_write (w : World) (r : nat) (q : Req) (loc : Loc) :
  inv w -> w_reqs w !! r = Some q -> rq_pc q = PcPicked loc -> is_write q = true ->
  inv (via (handlerStep (rq_key q) (rq_fn q) loc) w
         (fun x w => set_req r (after_handler (rq_fn q) loc x) (publish_fn (rq_key q) (rq_fn q) w))).
Proof.
  intros Hi Hq Hpc Hw. pose proof Hi as [Hc HI]. pose proof (inv_reqs _ _ _ _ _ HI r q Hq) as Hrq.
  assert (Hd : done q = false) by (unfold done; by rewrite Hpc).
  pose proof Hrq as (Hk & _ & _ & Hpok). apply write_pc in Hpok; [|done]. rewrite Hpc in Hpok. subst loc.
  destruct (phase_legal _ _ (inv_phase _ _ _ _ _ HI)) as (Hlg & Hz & _).
  destruct (handler_run w q (locOf (numChunks_ (w_cc w)) (rq_key q)) Hi Hk)
    as (x & s' & E & Hev & Hret); [by apply locOf_inside|].
  unfold publish_fn. destruct (fn_effect (rq_fn q)) as [o|] eqn:Eo.
  - unfold via. rewrite E. split; [done|]. cbn. rewrite (after_write _ _ _ (write_fn q Hw)).
    by apply (Inv_write_current (w_cc w) s' _ _ _ _ r q (locOf (numChunks_ (w_cc w)) (rq_key q)) o).
  - destruct Hev as (Hok & Hsh & Hless).
    eapply (step_less _ w r q _ x s'); [done|done|done|exact E|done|done|done|..].
    + right. by intros (_ & Hs & _).
    + apply rq_ok_set; [done|done|]. rewrite (after_write _ _ _ (write_fn q Hw)).
      apply write_pc; [done|]. cbn. intros o. cbn. by rewrite Eo.
Qed.

Lemma step_timeout (w : World) (r : nat) (q : Req) (loc : Loc) :
  inv w -> w_reqs w !! r = Some q -> rq_pc q = PcPicked loc ->
  inv (via (log_stat st_lockTimeout) w (fun _ => set_req r (PcDone (-2) None))).
Proof.
  intros Hi Hq Hpc. pose proof Hi as [_ HI]. pose proof (inv_reqs _ _ _ _ _ HI r q Hq) as Hrq.
  assert (Hd : done q = false) by (unfold done; by rewrite Hpc).
  destruct (log_stat_run st_lockTimeout (w_cc w)) as (s' & E & Hok & Hsh & Hc).
  eapply (step_less _ w r q _ tt s'); [done|done|done|exact E|apply Hok, HI|done| |..].
  - intros loc' e. by rewrite Hc.
  - right. intros (_ & _ & Hs). by rewrite Hpc in Hs.
  - apply rq_ok_set; [done|done|]. unfold pc_ok. cbn. by destruct (rq_fn q).
Qed.

Lemma step_promote (w : World) (r : nat) (q : Req) (locked : bool) (loc : Loc) (out : option Value) :
  inv w -> w_reqs w !! r = Some q -> rq_pc q = PcPromote loc out ->
  inv (via (promoteStep (rq_key q) locked loc) w (fun _ => set_req r (PcDone 1 out))).
Proof.
  intros Hi Hq Hpc. pose proof Hi as [_ HI]. pose proof (inv_reqs _ _ _ _ _ HI r q Hq) as Hrq.
  assert (Hd : done q = false) by (unfold done; by rewrite Hpc).
  pose proof Hrq as (_ & _ & _ & Hpok). unfold pc_ok in Hpok. rewrite Hpc in Hpok.
  destruct (rq_fn q) as [| |want sp] eqn:Ef; [done|done|]. destruct Hpok as [Hloc Hfound].
  assert (Hrun : exists s', promoteStep (rq_key q) locked loc (w_cc w) = (Ok tt, s') /\
            table_ok s' /\ same_shape (w_cc w) s' /\
            forall loc e, e ∈ content s' loc -> e ∈ content (w_cc w) loc).
  { unfold promoteStep. destruct locked.
    - destruct (onBucket_evolve (bucketPromote (rq_key q)) (w_cc w) loc None (rq_key q) (fun _ => True))
        as (x & s' & E & (Hok & Hsh & Hless) & _); [apply HI|by eapply picked_inside| |].
      + intros b lg Hb. destruct (bucketPromote_runs (rq_key q) _ b lg Hb) as (a & b' & l' & lg' & ? & ? & ?).
        by exists a, b', l', lg'.
      + exists s'. unfold bind. by rewrite E.
    - destruct (log_stat_run st_promoteTimeout (w_cc w)) as (s' & E & Hok & Hsh & Hc).
      exists s'. split; [done|]. split; [apply Hok, HI|]. split; [done|]. intros l e. by rewrite Hc. }
  destruct Hrun as (s' & E & Hok & Hsh & Hless).
  eapply (step_less _ w r q _ tt s'); [done|done|done|exact E|done|done|done|..].
  - right. intros (_ & _ & Hs). by rewrite Hpc in Hs.
  - apply rq_ok_set; [done|done|]. unfold pc_ok. cbn. rewrite Ef. by intros _.
Qed.

(** The second location a write finds is the one it has to update. *)
Lemma dblOf_ok (s : CCache) (p : Phase) (ep : nat) (q : Req) :
  phase_ok s p -> dbl_ok s p ep q (dblOf s (rq_key q)).
Proof.
  intros Hph. unfold dbl_ok, dblOf. destruct (upcoming p) as [new|] eqn:Hu.
  - destruct (phase_upcoming s p new Hph Hu) as (Hl & -> & _). unfold legal in Hl.
    rewrite (proj2 (Z.eqb_neq new 0)) by lia. destruct (Z.eqb_spec (chunkOf (numChunks_ s) (rq_key q))
      (chunkOf new (rq_key q))); [by left|right]. split; [done|by left].
  - destruct p; try done; simpl in Hph.
    + by destruct Hph as (_ & -> & _).
    + destruct Hph as (_ & -> & ->). rewrite Z.eqb_refl. by destruct (_ =? 0).
    + by destruct Hph as (_ & _ & ->).
    + by destruct Hph as ((_ & _ & ->) & _).
Qed.

Lemma step_pickdbl (w : World) (r : nat) (q : Req) (rv : BucketReturn) (out : option Value) :
  inv w -> w_reqs w !! r = Some q -> rq_pc q = PcHandled rv out ->
  inv (via (tableFindDblWriteBucket (rq_key q)) w (fun dbl => set_req r (PcDbl dbl rv out))).
Proof.
  intros Hi Hq Hpc. pose proof Hi as [_ HI]. pose proof (inv_reqs _ _ _ _ _ HI r q Hq) as Hrq.
  assert (Hd : done q = false) by (unfold done; by rewrite Hpc).
  pose proof Hrq as (_ & _ & _ & Hpok).
  assert (Hw : is_write q = true).
  { unfold pc_ok, is_write in *. rewrite Hpc in Hpok. by destruct (rq_fn q). }
  apply write_pc in Hpok; [|done]. rewrite Hpc in Hpok.
  pose proof (inv_phase _ _ _ _ _ HI) as Hph.
  destruct (phase_legal _ _ Hph) as (Hl & Hz & Hp & Hpz).
  eapply (step_less _ w r q); [done|done|done|by apply tableFindDblWriteBucket_run|apply HI|apply same_refl|done|..].
  - destruct (fn_effect (rq_fn q)) eqn:Eo; [left|right].
    + split; [done|]. split; [cbn; by rewrite Eo|done].
    + by intros (_ & Hs & _).
  - apply rq_ok_set; [done|done|]. apply write_pc; [done|]. cbn. split; [done|]. by apply (dblOf_ok _ _ _ q).
Qed.

Lemma step_dbl (w : World) (r : nat) (q : Req) (dbl : option Loc) (rv : BucketReturn) (out : option Value) :
  inv w -> w_reqs w !! r = Some q -> rq_pc q = PcDbl dbl rv out ->
  inv (via (dblStep (rq_key q) (rq_fn q) dbl rv) w (fun rv => set_req r (PcDone (toInt rv) out))).
Proof.
  intros Hi Hq Hpc. pose proof Hi as [Hc HI]. pose proof (inv_reqs _ _ _ _ _ HI r q Hq) as Hrq.
  assert (Hd : done q = false) by (unfold done; by rewrite Hpc).
  pose proof Hrq as (Hk & _ & _ & Hpok).
  assert (Hw : is_write q = true).
  { unfold pc_ok, is_write in *. rewrite Hpc in Hpok. by destruct (rq_fn q). }
  apply write_pc in Hpok; [|done]. rewrite Hpc in Hpok. destruct Hpok as [Heff Hdbl].
  assert (Hdone : forall s p ep lat rv, rq_ok s p ep lat q -> rq_ok s p ep lat (set_pc (PcDone (toInt rv) out) q)).
  { intros. apply rq_ok_set; [done|done|]. by apply write_pc. }
  pose proof (inv_phase _ _ _ _ _ HI) as Hph. unfold dbl_ok in Hdbl.
  destruct dbl as [loc|]; unfold dblStep.
  - destruct (upcoming (w_phase w)) as [new|] eqn:Hu; [|done].
    destruct Hdbl as [[_ ?]|(Hmv & [[= ->]|[? _]])]; [done| |done].
    destruct (phase_upcoming _ _ new Hph Hu) as (Hl & _ & Hz).
    destruct (handler_run w q (locOf new (rq_key q)) Hi Hk) as (x & s' & E & Hev & _);
      [by apply locOf_inside|].
    unfold handlerStep in E. unfold via, bind. rewrite E. split; [done|]. cbn.
    destruct (fn_effect (rq_fn q)) as [o|] eqn:Eo.
    + assert (HI' : Inv s' (w_phase w) (w_epoch w) (w_latest w) (w_reqs w)).
      { apply (Inv_write_new (w_cc w) s' _ _ _ _ (rq_key q) o new); auto.
        intros _ j y Hy Hwy Hky. destruct (decide (j = r)) as [->|Hne].
        - rewrite Hq in Hy. injection Hy as <-. rewrite Hpc. by right.
        - destruct (done y) eqn:Hdy; [by left|].
          exfalso. by apply (inv_serial _ _ _ _ _ HI j r y q). }
      apply (Inv_set_pc s' _ _ _ _ r q); [done|done|done| |apply Hdone; by apply (inv_reqs _ _ _ _ _ HI' r)].
      right. right. intros new' e Hu' He Hke. rewrite Hu in Hu'. injection Hu' as <-.
      destruct (evolve_other _ _ _ _ _ _ _ Hev He) as [[_ Hx]|(_ & _ & Ho)].
      * exfalso. apply Hx. by rewrite Hke.
      * rewrite Hke, <- Ho. by apply Heff.
    + destruct Hev as (Hok & Hsh & Hless).
      apply (Inv_set_pc s' _ _ _ _ r q); [by eapply Inv_less|done|done| |].
      * right. left. by intros (_ & Hs & _).
      * apply Hdone. apply (rq_ok_less (w_cc w)); [apply Hsh|done|done].
  - unfold via, ret. split; [done|]. cbn.
    apply (Inv_set_pc _ _ _ _ _ r q); [done|done|done| |by apply Hdone].
    right. right. intros new e Hu He Hke. rewrite Hu in Hdbl.
    destruct Hdbl as [[Heq _]|(_ & [?|(_ & _ & _ & Hno)])]; [|done|].
    + apply (inv_fresh _ _ _ _ _ HI). rewrite Hke in *. by rewrite (proj2 (locOf_chunk _ _ _) Heq).
    + exfalso. rewrite Hke in He. by apply (Hno e).
Qed.

(** ** The phases of [resize] *)

Lemma rq_ok_map (s s' : CCache) (p p' : Phase) (ep ep' : nat) (lat : Key -> option Value) (q : Req) :
  (ep <= ep')%nat ->
  (forall loc, done q = false -> read_loc s p ep q loc -> read_loc s' p' ep' q loc) ->
  (is_write q = true -> done q = false ->
     locOf (numChunks_ s') (rq_key q) = locOf (numChunks_ s) (rq_key q)) ->
  (forall dbl, is_write q = true -> done q = false -> dbl_ok s p ep q dbl -> dbl_ok s' p' ep' q dbl) ->
  rq_ok s p ep lat q -> rq_ok s' p' ep' lat q.
Proof.
  intros Hep Hr Hw Hd (H1 & H2 & H3 & Hpc). split; [done|]. split; [lia|]. split; [done|].
  unfold pc_ok, is_write, done in *.
  destruct (rq_fn q), (rq_pc q); cbn in *; try done; rewrite ?Hw by done; intuition auto.
Qed.

(** Outside [Switched], a reader is at the current location. *)
Lemma read_loc_now (s s' : CCache) (p p' : Phase) (ep ep' : nat) (q : Req) (loc : Loc) :
  (forall old new, p = Switched old new -> rq_epoch q = ep) ->
  numChunks_ s' = numChunks_ s -> read_loc s p ep q loc -> read_loc s' p' ep' q loc.
Proof.
  intros Hp Hn [->|(old & new & -> & Hlt & _)]; [left; by rewrite Hn|].
  specialize (Hp old new eq_refl). lia.
Qed.

Lemma drained_epoch (w : World) (i : nat) (q : Req) :
  drained w = true -> w_reqs w !! i = Some q -> done q = false -> rq_epoch q = w_epoch w.
Proof.
  unfold drained. intros H Hq Hd. rewrite forallb_forall in H.
  specialize (H q). rewrite Hd in H. apply Nat.eqb_eq, H.
  by eapply list_elem_of_In, list_elem_of_lookup_2.
Qed.

Lemma Inv_announce (s s' : CCache) (ep : nat) (lat : Key -> option Value) (reqs : list Req) (new : Z) :
  Inv s Idle ep lat reqs -> table_ok s' ->
  (forall loc e, e ∈ content s' loc -> e ∈ content s loc) ->
  numChunks_ s' = numChunks_ s -> pendingNumChunks_ s' = new ->
  sizes s' (numChunks_ s) new ->
  Inv s' (Announced (numChunks_ s) new) (S ep) lat reqs.
Proof.
  intros HI Hok Hc Hn Hp Hsz. destruct HI. split; auto.
  - by split.
  - intros loc e He. left. apply (inv_placed loc e), Hc, He.
  - intros e He. apply inv_fresh, Hc. by rewrite <- Hn.
  - intros nw e [= <-] He _. apply inv_fresh. apply Hc in He.
    pose proof (inv_placed _ e He) as Hpl. cbn in Hpl. by rewrite <- Hpl.
  - intros i q Hq. apply (rq_ok_map s s' Idle _ ep); [lia|..|by apply (inv_reqs i)].
    + intros loc _. by apply read_loc_now.
    + by rewrite Hn.
    + intros dbl _ _ Hd. cbn in Hd. subst dbl. unfold dbl_ok. cbn. rewrite Hn.
      destruct (decide (chunkOf (numChunks_ s) (rq_key q) = chunkOf new (rq_key q))) as [|Hne];
        [by left|right]. split; [done|]. right.
      split; [done|]. split; [by eexists|].
      destruct (inv_reqs i q Hq) as (_ & He & _). split; [lia|].
      intros e Hin Hke. apply Hne, locOf_chunk. apply Hc in Hin.
      pose proof (inv_placed _ e Hin) as Hpl. cbn in Hpl. by rewrite Hpl, Hke.
Qed.

Lemma step_copying (w : World) (old new : Z) :
  inv w -> w_phase w = Announced old new -> drained w = true ->
  inv (set_phase (Copying old new 0 0 0 0) false w).
Proof.
  intros [Hc HI] Hp Hdr. split; [done|]. cbn. rewrite Hp in HI. destruct HI. split; auto.
  - split; [done|]. pose proof buckets_pos. lia.
  - intros i q Hq. apply (rq_ok_map (w_cc w) _ (Announced old new) _ (w_epoch w)); [lia|..|eauto].
    + intros loc _. by apply read_loc_now.
    + done.
    + intros dbl _ Hd. unfold dbl_ok. cbn.
      intros [?|(? & [?|(_ & _ & Hlt & _)])]; [by left|by right; auto|].
      rewrite (drained_epoch w i q) in Hlt by done. lia.
Qed.

Lemma Inv_copying (s : CCache) (old new n i n' i' : Z) (a a' : nat) (b b' : Z) (ep : nat)
    (lat : Key -> option Value) (reqs : list Req) :
  Inv s (Copying old new n i a b) ep lat reqs -> 0 <= n' -> 0 <= i' < bucketsPerChunk_ ->
  Inv s (Copying old new n' i' a' b') ep lat reqs.
Proof.
  intros [H1 H2 H3 H4 H5 H6 H7] Hn Hi. split; auto.
  - destruct H2 as [? _]. by split.
  - intros j q Hq. apply (rq_ok_map s s (Copying old new n i a b) _ ep); [lia|..|eauto]; [|done|].
    + intros loc _. by apply read_loc_now.
    + intros dbl _ _. unfold dbl_ok. cbn.
      intros [?|(? & [?|(_ & [? ?] & _)])]; [by left|by right; auto|done].
Qed.

Lemma next_bucket_range (n i : Z) :
  0 <= n -> 0 <= i < bucketsPerChunk_ ->
  0 <= (next_bucket n i).1 /\ 0 <= (next_bucket n i).2 < bucketsPerChunk_.
Proof.
  intros Hn Hi. unfold next_bucket. destruct (Z.ltb_spec (i + 1) bucketsPerChunk_); cbn; lia.
Qed.

Lemma step_copy (w : World) (old new n i : Z) (pos : nat) (moved : Z) :
  inv w -> w_phase w = Copying old new n i pos moved -> n < old ->
  inv (via (rehashEntry COPY old new (n, i) pos moved) w
         (fun x => match x with
                   | Some (pos, moved) => set_phase (Copying old new n i pos moved) false
                   | None => let '(n, i) := next_bucket n i in
                             set_phase (Copying old new n i 0 0) false
                   end)).
Proof.
  intros [Hc HI] Hp Hlt. rewrite Hp in HI.
  pose proof (inv_phase _ _ _ _ _ HI) as (((Hlo & Hln & Hmax) & Hnum & Hpend) & Hn & Hi).
  destruct (rehashEntry_copy old new (n, i) pos moved (w_cc w)) as (x & s' & E & Hev);
    [apply HI|by split; cbn; lia|done|lia|].
  assert (HI' : Inv s' (Copying old new n i pos moved) (w_epoch w) (w_latest w) (w_reqs w)).
  { destruct Hev as [Hev|(e & He & Hne & Hev)].
    - destruct (Hev zeroKey) as (Hok & Hsh & Hless). by eapply Inv_less.
    - pose proof (inv_placed _ _ _ _ _ HI _ _ He) as [Hpl|Hpl]; unfold locOf in Hpl; injection Hpl as E1 E2;
        [|cbn in Hne; congruence].
      apply (Inv_write_new (w_cc w) s' _ _ _ _ (e_key e) (Some (e_val e)) new); auto.
      + rewrite Hnum. cbn in Hne. congruence.
      + apply (inv_fresh _ _ _ _ _ HI). rewrite Hnum. unfold locOf. by rewrite <- E1, <- E2.
      + unfold locOf. cbn in Hev. by rewrite <- E2.
      + by intros [? ?]. }
  unfold via. rewrite E. destruct x as [[pos' moved']|].
  - split; [done|]. cbn. by eapply Inv_copying.
  - pose proof (next_bucket_range n i Hn Hi) as [? ?]. destruct (next_bucket n i) as [n' i'].
    split; [done|]. cbn in *. by eapply Inv_copying.
Qed.

Lemma quiet_spec (w : World) (old new : Z) (i : nat) (q : Req) :
  legal old -> legal new -> quiet old new w = true -> w_reqs w !! i = Some q ->
  is_write q = true -> done q = false -> chunkOf old (rq_key q) = chunkOf new (rq_key q).
Proof.
  intros Hlo Hln Hqt Hq Hw Hd. unfold quiet in Hqt. rewrite forallb_forall in Hqt.
  specialize (Hqt q ltac:(by eapply list_elem_of_In, list_elem_of_lookup_2)).
  rewrite Hd, Hw in Hqt. cbn in Hqt. apply negb_true_iff in Hqt. unfold moves, chunkOf in *.
  unfold legal in *.
  destruct (furc_in_range (keyBytes (rq_key q)) old) as (x & Ex & _); [lia|].
  destruct (furc_in_range (keyBytes (rq_key q)) new) as (y & Ey & _); [lia|].
  rewrite Ex, Ey in *. apply negb_false_iff, Z.eqb_eq in Hqt. done.
Qed.

Lemma step_switch (w : World) (old new n i : Z) (pos : nat) (moved : Z) :
  inv w -> w_phase w = Copying old new n i pos moved -> quiet old new w = true ->
  inv (via (setNumChunks new) w (fun _ => set_phase (Switched old new) true)).
Proof.
  intros [Hc HI] Hp Hqt. rewrite Hp in HI. unfold via, setNumChunks, modify. split; [done|]. cbn.
  pose proof (inv_phase _ _ _ _ _ HI) as ((Hsz & Hnum & Hpend) & _). pose proof Hsz as (Hlo & Hln & _).
  destruct HI. set (s' := mkCC _ _ _ _).
  assert (Hcont : forall loc, content s' loc = content (w_cc w) loc) by done.
  split; auto.
  - split; [done|]. by split; [|cbn; rewrite Hpend].
  - intros e He. rewrite Hcont in He. change (numChunks_ s') with new in He.
    destruct (decide (chunkOf old (e_key e) = chunkOf new (e_key e))) as [Heq|Hne].
    + apply inv_fresh. by rewrite Hnum, (proj2 (locOf_chunk old new _) Heq).
    + apply (inv_new new e eq_refl He). intros j q Hq (Hw & _ & Hsp) Hk. apply Hne. rewrite <- Hk.
      apply (quiet_spec w old new j q); auto. unfold done. by destruct (rq_pc q).
  - done.
  - intros j q Hq. pose proof (inv_reqs j q Hq) as Hrq.
    apply (rq_ok_map (w_cc w) s' (Copying old new n i pos moved) _ (w_epoch w)); [lia|..|done].
    + intros loc Hd [->|(? & ? & ? & _)]; [|done].
      destruct (decide (locOf old (rq_key q) = locOf new (rq_key q))) as [Heq|Hne].
      * left. by rewrite Hnum.
      * right. exists old, new. rewrite Hnum. destruct Hrq as (_ & Hle & Hl & _).
        split; [done|]. split; [lia|]. split; [done|]. split; [done|].
        intros e He Hke. rewrite Hcont, <- Hke, <- Hnum in He.
        rewrite <- (inv_fresh e He), Hke. by apply Hl.
    + intros Hw Hd. rewrite Hnum. apply locOf_chunk. symmetry. by eapply (quiet_spec w).
    + intros dbl Hw Hd. unfold dbl_ok. cbn. rewrite Hnum.
      pose proof (quiet_spec w old new j q Hlo Hln Hqt Hq Hw Hd).
      by intros [[_ ?]|[? _]].
Qed.

Lemma step_stop (w : World) (old new : Z) :
  inv w -> w_phase w = Switched old new -> drained w = true ->
  inv (via (setPending 0) w (fun _ => set_phase (Stopped old new) true)).
Proof.
  intros [Hc HI] Hp Hdr. rewrite Hp in HI. unfold via, setPending, modify. split; [done|]. cbn.
  destruct HI. destruct inv_phase as (Hsz & Hnum & _). set (s' := mkCC _ _ _ _).
  split; auto; [split; [exact Hsz|by split]|].
  intros j q Hq. apply (rq_ok_map (w_cc w) s' (Switched old new) _ (w_epoch w)); [lia|..|eauto]; try done.
  intros loc Hd. apply read_loc_now; [|done]. intros ? ? _. by eapply drained_epoch.
Qed.

Lemma bucketOf_range (k : Key) : 0 <= bucketOf k < bucketsPerChunk_.
Proof. pose proof buckets_pos. apply Z.mod_pos_bound. lia. Qed.

Lemma step_deleting (w : World) (old new : Z) :
  inv w -> w_phase w = Stopped old new ->
  inv (set_phase (Deleting old new 0 0) false w).
Proof.
  intros [Hc HI] Hp. rewrite Hp in HI. split; [done|]. cbn. destruct HI.
  pose proof inv_phase as ((Hlo & _) & _). split; auto.
  - split; [done|]. pose proof buckets_pos. lia.
  - intros loc e He. destruct (inv_placed loc e He) as [->|]; [right|by left].
    split; [done|]. unfold ahead. cbn. pose proof (chunkOf_range old (e_key e) Hlo).
    pose proof (bucketOf_range (e_key e)). lia.
  - intros j q Hq. apply (rq_ok_map (w_cc w) _ (Stopped old new) _ (w_epoch w)); [lia|..|eauto]; try done.
    intros loc Hd. by apply read_loc_now.
Qed.

(** The next bucket is the first one not before this one. *)
Lemma ahead_next (n i : Z) (loc : Loc) :
  0 <= loc.2 < bucketsPerChunk_ -> ahead n i loc -> loc <> (n, i) ->
  ahead (next_bucket n i).1 (next_bucket n i).2 loc.
Proof.
  intros Hl Ha Hne. unfold ahead, next_bucket in *. destruct loc as [a b]. cbn in *.
  assert (~ (a = n /\ b = i)) by (intros [-> ->]; done).
  destruct (Z.ltb_spec (i + 1) bucketsPerChunk_); cbn; lia.
Qed.

Lemma step_delete (w : World) (old new n i : Z) :
  inv w -> w_phase w = Deleting old new n i -> n < old ->
  inv (via (rehashBucket (S kEntriesPerBucket) DELETE old new (n, i) 0 0) w
         (fun _ => let '(n, i) := next_bucket n i in set_phase (Deleting old new n i) false)).
Proof.
  intros [Hc HI] Hp Hlt. rewrite Hp in HI.
  pose proof (inv_phase _ _ _ _ _ HI) as ((Hsz & Hnum & Hpend) & Hn & Hi).
  pose proof Hsz as (Hlo & Hln & Hmax).
  assert (Hin : inside (w_cc w) (n, i)) by (split; cbn; lia).
  pose proof (content_length _ _ (inv_table _ _ _ _ _ HI) Hin) as Hlen.
  destruct (rehashBucket_delete (S kEntriesPerBucket) old new (n, i) 0 (w_cc w)) as (s' & E & Hev & Hall);
    [apply HI|done|done|lia|lia|lia|].
  destruct (Hev zeroKey) as (Hok & Hsh & Hless). pose proof (Inv_less _ s' _ _ _ _ Hok Hsh Hless HI) as HI'.
  unfold via. rewrite E. pose proof (next_bucket_range n i Hn Hi) as Hnx.
  pose proof (ahead_next n i) as Hah. destruct (next_bucket n i) as [n' i'].
  split; [done|]. cbn in *. destruct HI'. split; auto.
  - by split; [apply inv_phase|].
  - intros loc e He. destruct (inv_placed loc e He) as [->|[Hold Ha]]; [by left|].
    destruct (decide (loc = (n, i))) as [->|Hne].
    + left. unfold locOf in *. injection Hold as _ ->. by rewrite (Hall e He).
    + right. split; [done|]. apply Hah; [rewrite Hold; apply bucketOf_range|done|done].
  - intros j q Hq. apply (rq_ok_map s' s' (Deleting old new n i) _ (w_epoch w)); [lia|..|eauto]; try done.
    intros loc Hd. by apply read_loc_now.
Qed.

Lemma step_finish (w : World) (old new n i : Z) :
  inv w -> w_phase w = Deleting old new n i -> old <= n ->
  inv (via (if new <? old then let! _ := allocatorResize (new * getChunkSize) 0 in ret tt
            else ret tt) w (fun _ => set_phase Idle false)).
Proof.
  intros [Hc HI] Hp Hle. rewrite Hp in HI.
  pose proof (inv_phase _ _ _ _ _ HI) as ((Hsz & Hnum & Hpend) & Hn & Hi).
  pose proof Hsz as (Hlo & Hln & Hmax). unfold legal in Hlo, Hln.
  assert (Hrun : exists s', (if new <? old then let! _ := allocatorResize (new * getChunkSize) 0 in ret tt
              else ret tt) (w_cc w) = (Ok tt, s') /\ table_ok s' /\
            numChunks_ s' = new /\ pendingNumChunks_ s' = 0 /\ zlen (chunks s') = new /\
            forall loc e, e ∈ content s' loc -> e ∈ content (w_cc w) loc).
  { destruct (Z.ltb_spec new old) as [Hlt|Hge].
    - destruct (allocatorResize_run (new * getChunkSize) 0 (w_cc w)) as (s' & E & Hok & Hn' & Hp' & Hl' & Hz');
        [apply HI|]. pose proof chunkSize_pos as Hcs. rewrite Z.div_mul in Hz' by lia.
      rewrite (proj2 (Z.ltb_lt new (zlen (chunks (w_cc w))))) in Hz' by lia.
      exists s'. unfold bind, ret. rewrite E. split; [done|].
      split; [exact Hok|]. split; [congruence|]. split; [congruence|]. split; [lia|exact Hl'].
    - exists (w_cc w). split; [done|]. split; [apply HI|].
      split; [done|]. split; [done|]. split; [lia|done]. }
  destruct Hrun as (s' & E & Hok & Hn' & Hp' & Hz' & Hless). unfold via. rewrite E.
  split; [done|]. cbn. destruct HI. split; auto.
  - split; [by rewrite Hn'|]. split; [done|]. by rewrite Hn'.
  - intros loc e He. cbn. rewrite Hn'. destruct (inv_placed loc e (Hless _ _ He)) as [|[-> Ha]]; [done|].
    pose proof (chunkOf_range old (e_key e) ltac:(lia)) as Hr. unfold ahead in Ha. cbn in Ha. lia.
  - intros e He. apply inv_fresh, Hless. by rewrite Hnum, <- Hn'.
  - done.
  - intros j q Hq. apply (rq_ok_map (w_cc w) s' (Deleting old new n i) _ (w_epoch w)); [lia|..|eauto].
    + intros loc Hd. apply read_loc_now; [done|by rewrite Hn', Hnum].
    + intros _ _. by rewrite Hn', Hnum.
    + done.
Qed.

Lemma step_announce (w w' : World) (size : Z) (avail : nat) :
  inv w -> w_phase w = Idle -> act_resize (AAnnounce size avail) w = Some w' -> inv w'.
Proof.
  intros [Hc HI] Hp. rewrite Hp in HI. unfold act_resize. rewrite Hp.
  set (old := numChunks_ (w_cc w)). set (wanted := size / getChunkSize).
  destruct (Z.eqb_spec wanted old) as [|Hne]; [done|].
  destruct (Z.leb_spec wanted 0) as [|Hw0]; [done|].
  destruct (Z.leb_spec old 0) as [|Ho0]; [done|].
  destruct (Z.ltb_spec (2 ^ 26) wanted) as [|Hwb]; [done|]. cbn [orb]. intros [= <-].
  pose proof (inv_phase _ _ _ _ _ HI) as (Hl & Hpend & Hz). fold old in Hl, Hz. unfold legal in Hl.
  assert (Hrun : exists new s1, (if old <? wanted then allocatorResize size avail else ret wanted) (w_cc w)
            = (Ok new, s1) /\ table_ok s1 /\ numChunks_ s1 = old /\ pendingNumChunks_ s1 = 0 /\
            (forall loc e, e ∈ content s1 loc -> e ∈ content (w_cc w) loc) /\
            legal new /\ zlen (chunks s1) = Z.max old new).
  { destruct (Z.ltb_spec old wanted) as [Hlt|Hge].
    - destruct (allocatorResize_run size avail (w_cc w)) as (s1 & E & Hok & Hn' & Hp' & Hl' & Hz');
        [apply HI|]. fold wanted in Hz'. rewrite (proj2 (Z.ltb_ge wanted _)) in Hz' by lia.
      exists (zlen (chunks s1)), s1. split; [done|]. unfold legal.
      split; [done|]. split; [done|]. split; [congruence|]. split; [done|]. lia.
    - exists wanted, (w_cc w). unfold legal. split; [done|]. split; [apply HI|].
      split; [done|]. split; [done|]. split; [done|]. lia. }
  destruct Hrun as (new & s1 & E & Hok & Hn' & Hp' & Hless & Hln & Hz').
  unfold via, bind. rewrite E. destruct (Z.eqb_spec new old) as [->|Hnew]; cbn.
  - rewrite Z.eqb_refl. split; [done|]. cbn. rewrite Hp. apply (Inv_less (w_cc w)); auto.
    split; [done|]. split; [congruence|]. unfold zlen in *. lia.
  - rewrite (proj2 (Z.eqb_neq new old) Hnew). split; [done|]. cbn.
    apply (Inv_announce (w_cc w)); auto. split; [done|]. by split.
Qed.

Lemma act_inv (a : Action) (w w' : World) :
  inv w -> disciplined a w = true -> act a w = Some w' -> inv w'.
Proof.
  intros Hi Hd. unfold act. destruct (w_crash w) eqn:Hcr; [by destruct Hi; congruence|].
  assert (Hreq : forall r, match w_reqs w !! r with Some q => act_request a r q w | None => None end = Some w' ->
            inv w').
  { intros r. destruct (w_reqs w !! r) as [q|] eqn:Hq; [|done]. unfold act_request.
    destruct a; try done; destruct (rq_pc q) as [|loc|loc out|rv out|dbl rv out|] eqn:Hpc; try done.
    - intros [= <-]. by apply (step_pick w r q).
    - destruct locked; cbn [negb].
      + destruct (held w loc); [done|]. intros [= <-]. destruct (is_write q) eqn:Hw.
        * by apply step_handle_write.
        * assert (Ho : fn_op (rq_fn q) = READ) by (unfold is_write in Hw; by destruct (fn_op (rq_fn q))).
          unfold publish_fn. rewrite (fn_effect_read _ Ho). by apply (step_handle_read w r q loc).
      + intros [= <-]. by apply (step_timeout w r q loc).
    - destruct (_ && _); [done|]. intros [= <-]. by apply (step_promote w r q).
    - intros [= <-]. by apply (step_pickdbl w r q).
    - destruct (match dbl with Some _ => _ | None => _ end); [done|]. intros [= <-]. by apply (step_dbl w r q). }
  destruct a; try apply Hreq; [by apply step_start|..].
  - intros H. destruct (w_phase w) eqn:Hp; try (unfold act_resize in H; by rewrite Hp in H).
    by eapply step_announce.
  - unfold act_resize. destruct (w_phase w) as [|old new| |old new|old new|] eqn:Hp; try done;
      destruct (drained w) eqn:Hdr; try done; intros [= <-].
    + by apply step_copying.
    + by apply step_stop.
    + by apply step_deleting.
  - unfold act_resize. destruct (w_phase w) as [| |old new n i pos moved| | |] eqn:Hp; try done.
    destruct (Z.leb_spec old n); [done|]. intros [= <-]. by apply step_copy.
  - unfold act_resize. destruct (w_phase w) as [| |old new n i pos moved| | |] eqn:Hp; try done.
    destruct (n <? old); [done|]. unfold disciplined in Hd. rewrite Hp in Hd.
    intros [= <-]. by eapply step_switch.
  - unfold act_resize. destruct (w_phase w) as [| | | | |old new n i] eqn:Hp; try done.
    destruct (Z.ltb_spec n old); intros [= <-]; [by apply step_delete|by eapply step_finish].
Qed.

Lemma run_inv (l : list Action) (w w' : World) :
  inv w -> disciplined_run l w = true -> run l w = Some w' -> inv w'.
Proof.
  revert w. induction l as [|a l IH]; intros w Hi; cbn; [by intros _ [= <-]|].
  intros [Hd Hds]%andb_true_iff. destruct (act a w) as [w1|] eqn:E; [|done].
  apply IH; [by eapply act_inv|done].
Qed.

Lemma content_init (n : Z) (loc : Loc) : content (w_cc (init n)) loc = [].
Proof.
  unfold content, init. cbn. destruct (_ && _); [|done].
  destruct (replicate _ _ !! _) as [c|] eqn:Ec; [|done]. apply lookup_replicate in Ec as [-> _].
  destruct (zeroChunk !! _) as [b|] eqn:Eb; [|done].
  rewrite (zeroChunk_lookup _ b Eb). apply live_zero.
Qed.

Lemma init_inv (n : Z) : 1 <= n <= 2 ^ 26 -> inv (init n).
Proof.
  intros Hn. split; [done|]. split.
  - intros i c Hc. cbn in Hc. apply lookup_replicate in Hc as [-> _].
    split; [apply length_replicate|]. intros j b Hb. rewrite (zeroChunk_lookup j b Hb).
    exists []. apply holds_zero.
  - cbn. unfold zlen. rewrite length_replicate. unfold legal. lia.
  - intros loc e. rewrite content_init. by intros ?%not_elem_of_nil.
  - intros e. rewrite content_init. by intros ?%not_elem_of_nil.
  - intros new e. done.
  - intros i j x y _ Hx. done.
  - intros i q Hq. done.
Qed.

End preservation.

#[export] Instance demoC_ok : @CConfigOk demoD demoC.
Proof. split; cbn; lia. Qed.

(** A write and a read across a growth from one chunk to two. *)
Definition dTrace : list (@Action demoD) :=
  dSet10 ++ dGrow ++ [dSet 1 20; APick 1; AHandle 1 true; APickDbl 1; ADbl 1; ASwitch] ++ dRead 2.

