(* ===== verification/CCacheLru.v ===== *)
(** * Compact cache: LRU order of buckets, purging *)

From S2P Require Import Prelude Bytes CCacheBucket CCache CCacheProofs.
From stdpp Require Import base tactics numbers list.

#[local] Open Scope Z_scope.
#[local] Open Scope cachelib_scope.

(** ** A bucket of the compact cache is an LRU list

    The bucket operations of [src/cachelib/compact_cache/CCache.h] over
    [FixedLruBucket], against a list of entries of bounded length: a new key
    goes to the front and pushes the last entry out, an old key keeps its
    place, a promotion moves to the front. *)

Import FixedLruBucket CCache.

Section lru.
  Context `{D : Descriptor} {Dok : DescriptorOk D} {C : CConfig}.

(** ** Specification *)

Inductive BucketOp : Type :=
| OpSet (k : Key) (v : Value)
| OpDel (k : Key)
| OpGet (k : Key) (shouldPromote : bool)
| OpPromote (k : Key).

Definition op_key (op : BucketOp) : Key :=
  match op with OpSet k _ | OpDel k | OpGet k _ | OpPromote k => k end.

Definition removed (k : Key) (v : Value) (c : RemoveContext) : list CCEvent :=
  if removeCb_ then [EvRemove k v c] else [].

Definition evicted (e : Entry) : list CCEvent :=
  EvStat st_evictions :: removed (e_key e) (e_val e) (if isValid (e_key e) then kEviction else kNormal).

(** The new list, the result, the callbacks made. *)
Definition lru_spec (op : BucketOp) (l : list Entry)
    : list Entry * (BucketReturn * option Value) * list CCEvent :=
  match op, key_index (op_key op) l with
  | OpSet k v, Some i =>
      (<[i := mkEntry k v]> l, (BR_FOUND, None),
       match l !! i with
       | Some e => if replaceCb_ then [EvReplace k (e_val e) v] else []
       | None => []
       end)
  | OpSet k v, None =>
      (take kEntriesPerBucket (mkEntry k v :: l), (BR_NOTFOUND, None),
       match l !! (kEntriesPerBucket - 1)%nat with Some e => evicted e | None => [] end)
  | OpDel k, Some i =>
      (delete i l, (BR_FOUND, if kHasValues then e_val <$> l !! i else None),
       match l !! i with Some e => removed k (e_val e) kNormal | None => [] end)
  | OpGet k sp, Some i =>
      (l, (if sp && (kEntriesPerBucket / 4 <? i)%nat then BR_PROMOTE else BR_FOUND,
           if kHasValues then e_val <$> l !! i else None),
       if (S i =? kEntriesPerBucket)%nat then [EvStat st_tailHits] else [])
  | OpPromote k, Some i =>
      (if (kEntriesPerBucket / 4 <? i)%nat
       then match l !! i with Some e => e :: delete i l | None => l end else l,
       (BR_FOUND, None), [])
  | _, None => (l, (BR_NOTFOUND, None), [])
  end.

Fixpoint lru_specs (ops : list BucketOp) (l : list Entry)
    : list Entry * list (BucketReturn * option Value) * list CCEvent :=
  match ops with
  | [] => (l, [], [])
  | op :: ops =>
      let '(l1, r, ev) := lru_spec op l in
      let '(l2, rs, evs) := lru_specs ops l1 in
      (l2, r :: rs, ev ++ evs)
  end.

(** What of a result is promised: not the code of a set that inserts a new
    entry, nor what is in [val] after a deletion that finds nothing. *)
Definition promised (op : BucketOp) (l : list Entry) (r : BucketReturn * option Value)
    : option BucketReturn * option (option Value) :=
  match op, key_index (op_key op) l with
  | OpSet _ _, None => (None, Some r.2)
  | OpDel _, None => (Some r.1, None)
  | _, _ => (Some r.1, Some r.2)
  end.

Fixpoint lru_results (ops : list BucketOp) (l : list Entry)
    : list (option BucketReturn * option (option Value)) :=
  match ops with
  | [] => []
  | op :: ops => promised op l (lru_spec op l).1.2 :: lru_results ops (lru_spec op l).1.1
  end.

Definition answers (a : option BucketReturn * option (option Value)) (r : BucketReturn * option Value) : Prop :=
  from_option (eq r.1) True a.1 /\ from_option (eq r.2) True a.2.

Lemma promised_answers (op : BucketOp) (l : list Entry) (r : BucketReturn * option Value) :
  answers (promised op l r) r.
Proof. unfold answers, promised. destruct op; cbn [op_key]; by destruct key_index. Qed.

Lemma lru_specs_answers (ops : list BucketOp) (l : list Entry) :
  Forall2 answers (lru_results ops l) (lru_specs ops l).1.2.
Proof.
  revert l. induction ops as [|op ops IH]; intros l; cbn [lru_results lru_specs]; [constructor|].
  pose proof (promised_answers op l (lru_spec op l).1.2) as Ha.
  destruct (lru_spec op l) as [[l1 r] ev]. cbn in *. specialize (IH l1).
  destruct (lru_specs ops l1) as [[l2 rs] evs]. by constructor.
Qed.

(** ** Implementation *)

Definition runOp (op : BucketOp) : M (Bucket * list CCEvent) (BucketReturn * option Value) :=
  match op with
  | OpSet k v => bucketSet k (Some v) 0
  | OpDel k => bucketDel k true
  | OpGet k sp => bucketGet k true sp
  | OpPromote k => let! r := bucketPromote k in ret (r, None)
  end.

Fixpoint runOps (ops : list BucketOp)
    : M (Bucket * list CCEvent) (list (BucketReturn * option Value)) :=
  match ops with
  | [] => ret []
  | op :: ops => let! r := runOp op in let! rs := runOps ops in ret (r :: rs)
  end.

(** ** Refinement *)

Lemma index_entry (l : list Entry) (b : Bucket) (k : Key) (i : nat) :
  holds l b -> key_index k l = Some i ->
  exists v, l !! i = Some (mkEntry k v) /\ entryAt b (Z.of_nat i) = Some (mkEntry k v) /\
    (i < kEntriesPerBucket)%nat.
Proof.
  intros Hb Hi. pose proof Hi as Hi'. rewrite <- (bucketFind_spec l b) in Hi' by done.
  destruct (found_entry l b k i Hb Hi') as (v & He & Ha). exists v. split; [done|]. split; [done|].
  apply lookup_lt_Some in He. destruct Hb as (_ & Hl & _). lia.
Qed.

Lemma log_cond (c : bool) (e : CCEvent) (b : Bucket) (lg : list CCEvent) :
  (if c then log_event e else ret tt) (b, lg) = (Ok tt, (b, lg ++ if c then [e] else [])).
Proof. destruct c; [done|]. unfold ret. by rewrite app_nil_r. Qed.

Lemma evict_run (e : Entry) (b : Bucket) (lg : list CCEvent) :
  onEntryEvicted e (b, lg) = (Ok tt, (b, lg ++ evicted e)).
Proof.
  unfold onEntryEvicted, bind, log_event at 1, modify. unfold callRemoveCb.
  rewrite log_cond. unfold evicted, removed. by rewrite <- app_assoc.
Qed.

Lemma set_refines (k : Key) (v : Value) (l : list Entry) (b : Bucket) (lg : list CCEvent) :
  isEmpty k = false -> holds l b ->
  let '(l', r, ev) := lru_spec (OpSet k v) l in
  exists b', bucketSet k (Some v) 0 (b, lg) = (Ok r, (b', lg ++ ev)) /\ holds l' b'.
Proof.
  intros Hk Hb. unfold lru_spec, bucketSet. cbn [op_key]. rewrite andb_false_r. cbn [orb negb Z.eqb andb].
  unfold bind at 1, getBucket, gets. cbn [fst default]. rewrite (bucketFind_spec l) by done.
  destruct (key_index k l) as [i|] eqn:Hi.
  - destruct (index_entry l b k i Hb Hi) as (w & He & -> & _). rewrite He. cbn [e_val].
    unfold bind. rewrite log_cond. unfold setBucket, modify, ret. eexists. split; [done|].
    by apply (updateVal_spec l b i (mkEntry k w)).
  - destruct (insert_spec l b k v Hb Hk) as (b' & E & Hb'); [by apply key_index_None|].
    cbn [from_option id]. rewrite E. destruct (l !! (kEntriesPerBucket - 1)%nat) as [e|].
    + unfold bind. rewrite evict_run. unfold setBucket, modify, ret. eauto.
    + unfold bind, setBucket, modify, ret. rewrite app_nil_r. eauto.
Qed.

Lemma del_refines (k : Key) (l : list Entry) (b : Bucket) (lg : list CCEvent) :
  holds l b ->
  let '(l', r, ev) := lru_spec (OpDel k) l in
  exists b', bucketDel k true (b, lg) = (Ok r, (b', lg ++ ev)) /\ holds l' b'.
Proof.
  intros Hb. unfold lru_spec, bucketDel. cbn [op_key].
  unfold bind at 1, getBucket, gets. cbn [fst]. rewrite (bucketFind_spec l) by done.
  destruct (key_index k l) as [i|] eqn:Hi; [|exists b; by rewrite app_nil_r].
  destruct (index_entry l b k i Hb Hi) as (w & He & -> & _). rewrite He. cbn [e_val].
  unfold bind, callRemoveCb. rewrite log_cond, andb_true_r. unfold setBucket, modify, ret, removed.
  eexists. split; [done|]. by apply (del_spec l b i (mkEntry k w)).
Qed.

Lemma get_refines (k : Key) (sp : bool) (l : list Entry) (b : Bucket) (lg : list CCEvent) :
  holds l b ->
  let '(l', r, ev) := lru_spec (OpGet k sp) l in
  exists b', bucketGet k true sp (b, lg) = (Ok r, (b', lg ++ ev)) /\ holds l' b'.
Proof.
  intros Hb. unfold lru_spec, bucketGet. cbn [op_key].
  unfold bind at 1, getBucket, gets. cbn [fst]. rewrite (bucketFind_spec l) by done.
  destruct (key_index k l) as [i|] eqn:Hi; [|exists b; by rewrite app_nil_r].
  destruct (index_entry l b k i Hb Hi) as (w & He & Ha & Hlt). rewrite He, Ha. cbn [e_val].
  assert (Ht : isBucketTail b (Z.of_nat i) = (S i =? kEntriesPerBucket)%nat).
  { unfold isBucketTail. rewrite Ha, bool_decide_eq_true_2 by eauto. cbn [andb].
    destruct (Nat.eqb_spec (S i) kEntriesPerBucket); [apply Z.eqb_eq|apply Z.eqb_neq]; lia. }
  rewrite Ht, andb_true_r. unfold bind. rewrite log_cond. unfold ret, needs_promote.
  eexists. split; [done|done].
Qed.

Lemma promote_refines (k : Key) (l : list Entry) (b : Bucket) (lg : list CCEvent) :
  holds l b ->
  let '(l', r, ev) := lru_spec (OpPromote k) l in
  exists b', runOp (OpPromote k) (b, lg) = (Ok r, (b', lg ++ ev)) /\ holds l' b'.
Proof.
  intros Hb. unfold lru_spec, runOp, bucketPromote. cbn [op_key].
  unfold bind, getBucket, gets. cbn [fst]. rewrite (bucketFind_spec l) by done.
  destruct (key_index k l) as [i|] eqn:Hi; [|exists b; by rewrite app_nil_r].
  destruct (index_entry l b k i Hb Hi) as (w & He & _ & _). rewrite He, app_nil_r.
  unfold needs_promote. destruct (_ <? i)%nat; [|by exists b].
  destruct (promote_spec l b i _ Hb He) as (b' & E & Hb'). rewrite E. by exists b'.
Qed.

Lemma op_refines (op : BucketOp) (l : list Entry) (b : Bucket) (lg : list CCEvent) :
  isEmpty (op_key op) = false -> holds l b ->
  let '(l', r, ev) := lru_spec op l in
  exists b', runOp op (b, lg) = (Ok r, (b', lg ++ ev)) /\ holds l' b'.
Proof.
  intros Hk Hb. destruct op as [k v|k|k sp|k]; cbn [op_key] in Hk.
  - by apply set_refines.
  - by apply del_refines.
  - by apply get_refines.
  - by apply promote_refines.
Qed.

(** C33. A bucket of the compact cache refines an LRU list of at most
    [kEntriesPerBucket] entries: any sequence of sets, deletions, lookups and
    promotions of non-empty keys on a zeroed bucket runs to its end, calls the
    remove and replace callbacks for exactly the entries the list drops or
    replaces, in that order, and leaves the entries of the list in its order.
    Lookups, promotions, sets of a key that is there and deletions that find
    their key return the code and value of the list; a deletion that finds
    nothing says so, and a set of a new key returns (the code it returns and
    what such a deletion leaves in [val] are left open). *)
Theorem lru_bucket_refines (ops : list BucketOp) :
  Forall (fun op => isEmpty (op_key op) = false) ops ->
  exists rs b, runOps ops (zeroBucket, []) = (Ok rs, (b, (lru_specs ops []).2)) /\
    Forall2 answers (lru_results ops []) rs /\
    live b = (lru_specs ops []).1.1 /\ (length (live b) <= kEntriesPerBucket)%nat.
Proof.
  intros Hops.
  assert (Hgen : forall l b lg, holds l b -> exists b',
    runOps ops (b, lg) = (Ok (lru_specs ops l).1.2, (b', lg ++ (lru_specs ops l).2)) /\
    holds (lru_specs ops l).1.1 b').
  { induction Hops as [|op ops Hk _ IH]; intros l b lg Hb; cbn [runOps lru_specs].
    - exists b. rewrite app_nil_r. by split.
    - pose proof (op_refines op l b lg Hk Hb) as Hop.
      destruct (lru_spec op l) as [[l1 r] ev]. destruct Hop as (b1 & E1 & Hb1).
      destruct (IH l1 b1 (lg ++ ev) Hb1) as (b2 & E2 & Hb2).
      destruct (lru_specs ops l1) as [[l2 rs] evs]. exists b2. split; [|done].
      unfold bind. rewrite E1, E2. cbn. by rewrite app_assoc. }
  destruct (Hgen [] zeroBucket [] holds_zero) as (b & E & Hb). eexists _, b. split; [done|].
  split; [apply lru_specs_answers|]. rewrite (holds_live _ _ Hb). split; [done|]. apply Hb.
Qed.
End lru.

Definition dOps : list (@BucketOp demoD) :=
  [@OpSet demoD 1 10; @OpSet demoD 2 20; @OpGet demoD 1 true; @OpPromote demoD 1;
   @OpSet demoD 3 30; @OpDel demoD 1; @OpGet demoD 2 false].

Lemma lru_bucket_refines_witness :
  exists rs b, @runOps demoD demoC dOps (@zeroBucket demoD, []) = (Ok rs, (b, (@lru_specs demoD demoC dOps []).2)) /\
    Forall2 answers (@lru_results demoD demoC dOps []) rs /\
    live b = [@mkEntry demoD 3 30] /\ (length (live b) <= 2)%nat.
Proof.
  apply (@lru_bucket_refines demoD demoD_ok demoC dOps).
  repeat constructor.
Defined.

(** ** Purging a compact cache

    [forEachBucket] and [purge] of [src/cachelib/compact_cache/CCache.h]: with a
    filter that never aborts, exactly the entries it selects go. *)

Import FixedLruBucket CCache.

Section purge.
  Context `{D : Descriptor} {Dok : DescriptorOk D} {C : CConfig}.
  Context (shouldPurge : Key -> option Value -> PurgeFilterResult).

Definition verdict (e : Entry) : PurgeFilterResult :=
  shouldPurge (e_key e) (if kHasValues then Some (e_val e) else None).

(** The entries that stay. *)
Fixpoint keep (l : list Entry) : list Entry :=
  match l with
  | [] => []
  | e :: l => match verdict e with PURGE => keep l | _ => e :: keep l end
  end.

Definition never_aborts : Prop := forall e, verdict e <> ABORT.

Lemma purge_loop_runs (fuel pos : nat) (l : list Entry) :
  never_aborts -> (pos <= length l < pos + fuel)%nat ->
  bruns (purge_loop fuel shouldPurge pos) l
    (fun ok l' => ok = true /\ l' = take pos l ++ keep (drop pos l)).
Proof.
  intros Hna. revert pos l. induction fuel as [|fuel IH]; intros pos l Hf b lg Hb; [lia|].
  cbn [purge_loop]. unfold bind at 1, getBucket, gets. cbn [fst]. rewrite (holds_entryAt l) by done.
  destruct (l !! pos) as [e|] eqn:Ee.
  - pose proof (lookup_lt_Some _ _ _ Ee) as Hlt. rewrite (drop_S l e pos Ee). cbn [keep].
    fold (verdict e). destruct (verdict e) eqn:Ev; [| |by apply Hna in Ev].
    + destruct (IH (S pos) l ltac:(lia) b lg Hb) as (a & b' & l' & lg' & E & Hb' & -> & ->).
      exists true, b', (take (S pos) l ++ keep (drop (S pos) l)), lg'. split; [done|]. split; [done|].
      split; [done|]. by rewrite (take_S_r l pos e Ee), <- app_assoc.
    + assert (Hlog : exists lg1, callRemoveCb (e_key e) (e_val e) kNormal (b, lg) = (Ok tt, (b, lg1))).
      { unfold callRemoveCb, log_event, modify, ret. destruct removeCb_; eauto. }
      destruct Hlog as [lg1 Hlog]. unfold bind. rewrite Hlog. unfold setBucket, modify.
      assert (Hlen : length (delete pos l) = (length l - 1)%nat) by (apply length_delete; eauto).
      destruct (IH pos (delete pos l) ltac:(lia) (del b pos) lg1) as (a & b' & l' & lg' & E & Hb' & -> & ->);
        [by eapply del_spec|].
      eexists true, b', _, lg'. split; [exact E|]. split; [exact Hb'|]. split; [done|].
      rewrite delete_take_drop. rewrite take_app_le, take_take, Nat.min_id by (rewrite length_take; lia).
      rewrite drop_app_ge by (rewrite length_take; lia).
      by rewrite length_take, Nat.min_l, Nat.sub_diag, drop_0 by lia.
  - apply lookup_ge_None in Ee. exists true, b, l, lg. split; [done|]. split; [done|]. split; [done|].
    by rewrite take_ge, drop_ge, app_nil_r by lia.
Qed.

Lemma purge_bucket (s : CCache) (loc : Loc) :
  never_aborts -> table_ok s -> inside s loc ->
  exists s', onBucket loc (purge_loop (S kEntriesPerBucket) shouldPurge 0) s = (Ok true, s') /\
    table_ok s' /\ same_shape s s' /\ content s' loc = keep (content s loc) /\
    forall loc', loc' <> loc -> content s' loc' = content s loc'.
Proof.
  intros Hna Hok Hin. pose proof (content_length s loc Hok Hin) as Hlen.
  destruct (onBucket_run _ s loc _ Hok Hin (purge_loop_runs (S kEntriesPerBucket) 0 (content s loc) Hna ltac:(lia)))
    as (a & s' & E & Hok' & Hsh & [-> Hc] & Ho).
  exists s'. rewrite take_0, drop_0 in Hc. auto.
Qed.

(** Purged at the locations [P], untouched elsewhere. *)
Definition purged (P : Loc -> Prop) (s s' : CCache) : Prop :=
  table_ok s' /\ same_shape s s' /\
  forall loc, (P loc -> content s' loc = keep (content s loc)) /\
              (~ P loc -> content s' loc = content s loc).

Lemma purge_buckets (cnt : nat) (s : CCache) (n i : Z) :
  never_aborts -> table_ok s -> 0 <= n < zlen (chunks s) -> 0 <= i ->
  i + Z.of_nat cnt <= bucketsPerChunk_ ->
  exists s', forBuckets (purge_loop (S kEntriesPerBucket) shouldPurge 0) n i cnt s = (Ok true, s') /\
    purged (fun loc => loc.1 = n /\ i <= loc.2 < i + Z.of_nat cnt) s s'.
Proof.
  intros Hna. revert s i. induction cnt as [|cnt IH]; intros s i Hok Hn Hi Hb; cbn [forBuckets].
  - exists s. split; [done|]. split; [done|]. split; [by repeat split|]. intros loc. split; [lia|done].
  - destruct (purge_bucket s (n, i) Hna Hok) as (s1 & E1 & Hok1 & Hsh1 & Hc1 & Ho1); [by split; cbn; lia|].
    pose proof (same_shape_zlen s s1 Hsh1) as Hz.
    destruct (IH s1 (i + 1)) as (s2 & E2 & Hok2 & Hsh2 & Hc2); [done|lia|lia|lia|].
    exists s2. unfold bind. rewrite E1. split; [done|]. split; [done|].
    split; [by eapply same_shape_trans|]. intros loc. destruct (Hc2 loc) as [Hin Hout].
    destruct (decide (loc = (n, i))) as [->|Hne]; cbn in *.
    + rewrite Hout by lia. split; [done|]. intros Hx. exfalso. apply Hx. lia.
    + rewrite (Ho1 loc Hne) in *. split; intros HP.
      * apply Hin. destruct loc as [a b]. cbn in *. assert (b <> i) by (intros ->; apply Hne; f_equal; lia). lia.
      * apply Hout. lia.
Qed.

Lemma purge_chunks (cnt : nat) (s : CCache) (n : Z) :
  never_aborts -> table_ok s -> 0 <= n -> n + Z.of_nat cnt <= zlen (chunks s) -> 0 <= bucketsPerChunk_ ->
  exists s', forChunks (purge_loop (S kEntriesPerBucket) shouldPurge 0) n cnt s = (Ok true, s') /\
    purged (fun loc => n <= loc.1 < n + Z.of_nat cnt /\ 0 <= loc.2 < bucketsPerChunk_) s s'.
Proof.
  intros Hna. revert s n. induction cnt as [|cnt IH]; intros s n Hok Hn Hz Hb; cbn [forChunks].
  - exists s. split; [done|]. split; [done|]. split; [by repeat split|]. intros loc. split; [lia|done].
  - unfold bind at 1, getChunk, bind at 1, get, Prelude.guard. rewrite (proj2 (Z.leb_gt _ _)) by lia.
    unfold bind at 1, ret.
    destruct (purge_buckets (Z.to_nat bucketsPerChunk_) s n 0) as (s1 & E1 & Hok1 & Hsh1 & Hc1);
      [done|done|lia|lia|lia|].
    pose proof (same_shape_zlen s s1 Hsh1) as Hz1.
    destruct (IH s1 (n + 1)) as (s2 & E2 & Hok2 & Hsh2 & Hc2); [done|lia|lia|lia|].
    exists s2. unfold bind. rewrite E1. split; [done|]. split; [done|].
    split; [by eapply same_shape_trans|]. intros loc. destruct (Hc1 loc) as [Hin1 Hout1].
    destruct (Hc2 loc) as [Hin2 Hout2]. destruct (decide (loc.1 = n)) as [He|Hne].
    + rewrite Hout2 by lia. split; intros HP; [apply Hin1; lia|apply Hout1; lia].
    + rewrite Hout1 in Hin2, Hout2 by lia. split; intros HP; [apply Hin2; lia|apply Hout2; lia].
Qed.

(** [purge] with a filter that never aborts succeeds and removes, from every
    bucket of the cache, exactly the entries the filter selects; the entries
    that stay keep their order. *)
Theorem purge_exact (s : CCache) :
  never_aborts -> table_ok s -> zlen (chunks s) = numChunks_ s -> 0 <= bucketsPerChunk_ ->
  exists s', purge shouldPurge s = (Ok true, s') /\ table_ok s' /\
    forall loc, inside s loc -> content s' loc = keep (content s loc).
Proof.
  intros Hna Hok Hz Hb. unfold purge, forEachBucket.
  destruct (purge_chunks (Z.to_nat (numChunks_ s)) s 0) as (s1 & E1 & Hok1 & _ & Hc1);
    [done|done|lia|unfold zlen in *; lia|lia|].
  unfold bind at 1 2, get. rewrite E1. eexists. split; [reflexivity|]. split; [exact Hok1|].
  intros loc [H1 H2]. apply Hc1. unfold zlen in *. lia.
Qed.
End purge.

(** Two chunks with keys 2, 3 and 1, 4; the even keys are purged. *)
Definition dTable : @CCache demoD :=
  state_of (let! _ := @set demoD demoC 1 (Some (10 : @Value demoD)) 0 true in
            let! _ := @set demoD demoC 2 (Some (20 : @Value demoD)) 0 true in
            let! _ := @set demoD demoC 3 (Some (30 : @Value demoD)) 0 true in
            @set demoD demoC 4 (Some (40 : @Value demoD)) 0 true) (dChunks 2).

Definition dEven (k : @Key demoD) (_ : option (@Value demoD)) : PurgeFilterResult :=
  if Z.even k then PURGE else SKIP.

Lemma dTable_ok : @table_ok demoD demoC dTable.
Proof.
  intros n chunk Hn. change dTable with
    (ltac:(let x := eval vm_compute in dTable in exact x)) in Hn.
  destruct n as [|[|n]]; [| |done]; injection Hn as <-; (split; [done|]);
    intros [|i] b Hb; try done; injection Hb as <-.
  - exists [@mkEntry demoD 3 30; @mkEntry demoD 2 20].
    split; [done|]. split; [cbn; lia|]. split; [by repeat constructor|]. by repeat constructor; set_solver.
  - exists [@mkEntry demoD 4 40; @mkEntry demoD 1 10].
    split; [done|]. split; [cbn; lia|]. split; [by repeat constructor|]. by repeat constructor; set_solver.
Qed.

Lemma purge_exact_witness :
  exists s', @purge demoD demoC dEven dTable = (Ok true, s') /\ @table_ok demoD demoC s' /\
    content s' (0, 0) = [@mkEntry demoD 3 30] /\ content s' (1, 0) = [@mkEntry demoD 1 10].
Proof.
  destruct (@purge_exact demoD demoD_ok demoC dEven dTable) as (s' & E & Hok & Hc);
    [intros e; unfold verdict, dEven; by destruct (Z.even (e_key e))|apply dTable_ok|
     vm_compute; reflexivity|cbn; lia|].
  exists s'. split; [exact E|]. split; [exact Hok|].
  rewrite !Hc by (split; vm_compute; split; congruence). split; vm_compute; reflexivity.
Defined.
