(* ===== verification/Cohort.v ===== *)
(** * Cohorts: waiting for the requests of the past

    [src/cachelib/common/Cohort.h]: two reference counts in one 64-bit word,
    one of them marked as current; [switchCohorts] marks the other and waits
    until the old count is zero. The word is changed by single atomic
    operations, which are the actions of the system below. *)

From S2P Require Import Prelude.
From stdpp Require Import base tactics numbers list.

#[local] Open Scope Z_scope.

(** ** The word *)

Definition kTopCohortBit : Z := 2 ^ 63.
Definition kBottomCohortBit : Z := 2 ^ 31.
Definition kBottomRef : Z := 1.
Definition kTopRef : Z := 2 ^ 32.

Definition isTop (cohort : Z) : bool := negb (Z.land cohort kTopCohortBit =? 0).
Definition refOf (top : bool) : Z := if top then kTopRef else kBottomRef.

Definition fetch_add (w d : Z) : Z := u64 (w + d).
Definition fetch_sub (w d : Z) : Z := u64 (w - d).

(** [cohortVal_.fetch_xor(kTopCohortBit + kBottomCohortBit)]. *)
Definition switchWord (w : Z) : Z := Z.lxor w (kTopCohortBit + kBottomCohortBit).

(** The condition under which [switchCohorts] goes on waiting. *)
Definition draining (current : Z) : bool :=
  negb (u64 (Z.shiftl current 32) =? 0) && negb (Z.shiftr current 32 =? 0).

Definition getPending (w : Z) (top : bool) : Z :=
  if top then Z.shiftr (Z.ldiff w kTopCohortBit) 32
  else Z.shiftr (u64 (Z.shiftl (Z.ldiff w kBottomCohortBit) 32)) 32.

(** ** The system

    A request loads the word, adds a reference to the cohort it saw, and keeps
    it if that cohort is still current, else takes it back and retries. The
    number with a token is ghost: how many switches had been made. *)

Inductive CThread : Type :=
| COut
| CLoaded (top : bool)
| CStale (top : bool)
| CToken (top : bool) (epoch : nat).

Record CState : Type := mkCS {
  cohortVal : Z;
  threads : list CThread;
  waiting : bool;
  switches : nat
}.

Inductive CAction : Type :=
| CLoad (i : nat)
| CIncr (i : nat)
| CUndo (i : nat)
| CDecr (i : nat)
| CSwitch
| CDrained.

Definition cact (a : CAction) (s : CState) : option CState :=
  let upd i t w := Some (mkCS w (<[i := t]> (threads s)) (waiting s) (switches s)) in
  match a with
  | CLoad i =>
      match threads s !! i with
      | Some COut => upd i (CLoaded (isTop (cohortVal s))) (cohortVal s)
      | _ => None
      end
  | CIncr i =>
      match threads s !! i with
      | Some (CLoaded top) =>
          let w := fetch_add (cohortVal s) (refOf top) in
          if bool_decide (isTop (cohortVal s) = top) then upd i (CToken top (switches s)) w
          else upd i (CStale top) w
      | _ => None
      end
  | CUndo i =>
      match threads s !! i with
      | Some (CStale top) => upd i COut (fetch_sub (cohortVal s) (refOf top))
      | _ => None
      end
  | CDecr i =>
      match threads s !! i with
      | Some (CToken top _) => upd i COut (fetch_sub (cohortVal s) (refOf top))
      | _ => None
      end
  | CSwitch =>
      if waiting s then None
      else Some (mkCS (switchWord (cohortVal s)) (threads s) true (S (switches s)))
  | CDrained =>
      if waiting s && negb (draining (cohortVal s))
      then Some (mkCS (cohortVal s) (threads s) false (switches s)) else None
  end.

Fixpoint crun (l : list CAction) (s : CState) : option CState :=
  match l with
  | [] => Some s
  | a :: l => match cact a s with Some s => crun l s | None => None end
  end.

Definition cinit (n : nat) : CState := mkCS kBottomCohortBit (replicate n COut) false 0.

(** ** The word as two counts *)

Definition encode (top : bool) (t b : Z) : Z :=
  (t * 2 ^ 32 + b) + (if top then kTopCohortBit else kBottomCohortBit).

Definition small (x : Z) : Prop := 0 <= x < 2 ^ 31.

Lemma land_bit_0 (x n : Z) : 0 <= n -> Z.testbit x n = false -> Z.land x (2 ^ n) = 0.
Proof.
  intros Hn Hx. apply Z.bits_inj'. intros i Hi. rewrite Z.land_spec, Z.bits_0, Z.pow2_bits_eqb by done.
  destruct (Z.eqb_spec n i) as [->|]; [by rewrite Hx|apply andb_false_r].
Qed.

Lemma counts_bits (t b : Z) :
  small t -> small b ->
  Z.testbit (t * 2 ^ 32 + b) 31 = false /\ Z.testbit (t * 2 ^ 32 + b) 63 = false.
Proof.
  unfold small. intros Ht Hb. split.
  - rewrite <- (Z.mod_pow2_bits_low _ 32 31) by lia.
    replace ((t * 2 ^ 32 + b) mod 2 ^ 32) with b by (rewrite Z.add_comm, Z.mod_add, Z.mod_small; lia).
    by apply (testbit_above b 31); lia.
  - apply (testbit_above _ 63); lia.
Qed.

(** The mark is a bit the counts do not use. *)
Lemma encode_lxor (top : bool) (t b : Z) :
  small t -> small b ->
  encode top t b = Z.lxor (t * 2 ^ 32 + b) (if top then kTopCohortBit else kBottomCohortBit).
Proof.
  intros Ht Hb. destruct (counts_bits t b Ht Hb) as [H31 H63]. unfold encode.
  apply Z.add_nocarry_lxor. unfold kTopCohortBit, kBottomCohortBit.
  destruct top; by apply land_bit_0.
Qed.

Lemma isTop_encode (top : bool) (t b : Z) : small t -> small b -> isTop (encode top t b) = top.
Proof.
  intros Ht Hb. destruct (counts_bits t b Ht Hb) as [H31 H63]. rewrite encode_lxor by done.
  pose proof (mask_test_bit (Z.lxor (t * 2 ^ 32 + b) (if top then kTopCohortBit else kBottomCohortBit)) 63) as Hm.
  unfold isTop. unfold mask_test in Hm. rewrite Z.shiftl_1_l in Hm. unfold kTopCohortBit at 2.
  rewrite Hm by lia. rewrite Z.lxor_spec, H63. by destruct top.
Qed.

Lemma switch_encode (top : bool) (t b : Z) :
  small t -> small b -> switchWord (encode top t b) = encode (negb top) t b.
Proof.
  intros Ht Hb. rewrite !encode_lxor by done. unfold switchWord. rewrite Z.lxor_assoc. f_equal.
  by destruct top.
Qed.

Lemma draining_encode (top : bool) (t b : Z) :
  small t -> small b ->
  draining (encode top t b) = negb ((if top then b else t) =? 0).
Proof.
  unfold small. intros Ht Hb. unfold draining, encode, kTopCohortBit, kBottomCohortBit.
  rewrite Z.shiftl_mul_pow2, Z.shiftr_div_pow2 by lia.
  assert (Hlo : u64 ((t * 2 ^ 32 + b + (if top then 2 ^ 63 else 2 ^ 31)) * 2 ^ 32)
                = (b + (if top then 0 else 2 ^ 31)) * 2 ^ 32).
  { unfold u64. symmetry. apply (Z.mod_unique_pos _ _ (t + if top then 2 ^ 31 else 0));
      destruct top; lia. }
  assert (Hhi : (t * 2 ^ 32 + b + (if top then 2 ^ 63 else 2 ^ 31)) / 2 ^ 32
                = t + if top then 2 ^ 31 else 0).
  { symmetry. apply (Z.div_unique_pos _ _ _ (b + if top then 0 else 2 ^ 31)); destruct top; lia. }
  rewrite Hlo, Hhi. destruct top.
  - rewrite (proj2 (Z.eqb_neq (t + 2 ^ 31) 0)) by lia. cbn [negb]. rewrite andb_true_r.
    destruct (Z.eqb_spec b 0), (Z.eqb_spec ((b + 0) * 2 ^ 32) 0); try done; lia.
  - rewrite (proj2 (Z.eqb_neq ((b + 2 ^ 31) * 2 ^ 32) 0)) by lia. cbn [negb andb]. by rewrite Z.add_0_r.
Qed.

(** ** The counts are the numbers of threads *)

Definition counted (top : bool) (t : CThread) : bool :=
  match t with
  | CStale c | CToken c _ => bool_decide (c = top)
  | _ => false
  end.
Fixpoint count (top : bool) (ts : list CThread) : Z :=
  match ts with
  | [] => 0
  | t :: ts => Z.b2z (counted top t) + count top ts
  end.

Lemma count_update (top : bool) (ts : list CThread) (i : nat) (t t' : CThread) :
  ts !! i = Some t ->
  count top (<[i := t']> ts) = count top ts - Z.b2z (counted top t) + Z.b2z (counted top t').
Proof.
  revert i. induction ts as [|x ts IH]; intros [|i] Hi; try done.
  - injection Hi as ->. change (<[0%nat := t']> (t :: ts)) with (t' :: ts). cbn [count]. lia.
  - change (<[S i := t']> (x :: ts)) with (x :: <[i := t']> ts). cbn [count]. rewrite (IH i Hi). lia.
Qed.

Lemma count_range (top : bool) (ts : list CThread) : 0 <= count top ts <= Z.of_nat (length ts).
Proof.
  induction ts as [|x ts IH]; cbn -[Z.of_nat]; [lia|].
  destruct (counted top x); cbn [Z.b2z]; lia.
Qed.

Lemma count_pos (top : bool) (ts : list CThread) (i : nat) (t : CThread) :
  ts !! i = Some t -> counted top t = true -> 0 < count top ts.
Proof.
  intros Hi Ht. pose proof (count_update top ts i t COut Hi) as Hu.
  pose proof (count_range top (<[i := COut]> ts)) as Hr. rewrite Ht in Hu. cbn in Hu. lia.
Qed.

Record CInv (s : CState) : Prop := {
  ci_len : Z.of_nat (length (threads s)) < 2 ^ 31;
  ci_word : exists top, cohortVal s = encode top (count true (threads s)) (count false (threads s)) /\
    forall i c e, threads s !! i = Some (CToken c e) ->
      e = switches s /\ c = top \/ waiting s = true /\ switches s = S e /\ c = negb top
}.

Lemma counts_small (s : CState) (top : bool) :
  Z.of_nat (length (threads s)) < 2 ^ 31 -> small (count top (threads s)).
Proof. intros H. pose proof (count_range top (threads s)). unfold small. lia. Qed.

(** Adding or taking back one reference. *)
Lemma encode_add (top c : bool) (t b : Z) (d : Z) :
  (d = 1 \/ d = -1) ->
  small t -> small b -> small (t + if c then d else 0) -> small (b + if c then 0 else d) ->
  u64 (encode top t b + d * refOf c) =
  encode top (t + if c then d else 0) (b + if c then 0 else d).
Proof.
  unfold small. intros Hd Ht Hb Ht' Hb'. unfold encode, refOf, kTopRef, kBottomRef, kTopCohortBit, kBottomCohortBit.
  rewrite u64_small; [destruct c; lia|]. unfold is_u64. destruct c, top; lia.
Qed.

Lemma counted_both (t : CThread) (c : bool) (e : nat) :
  (t = CStale c \/ t = CToken c e) ->
  Z.b2z (counted true t) = (if c then 1 else 0) /\ Z.b2z (counted false t) = (if c then 0 else 1).
Proof. intros [-> | ->]; by destruct c. Qed.

(** A thread goes from [t] to [t'] and the word follows. *)
Lemma CInv_update (s : CState) (i : nat) (t t' : CThread) (w : Z) :
  CInv s -> threads s !! i = Some t ->
  (forall top, cohortVal s = encode top (count true (threads s)) (count false (threads s)) ->
     w = encode top (count true (<[i := t']> (threads s))) (count false (<[i := t']> (threads s))) /\
     forall c e, t' = CToken c e -> e = switches s /\ c = top) ->
  CInv (mkCS w (<[i := t']> (threads s)) (waiting s) (switches s)).
Proof.
  intros [Hlen (top & Hw & Htok)] Hi Hnew. destruct (Hnew top Hw) as [Hw' Ht'].
  split; cbn; [by rewrite length_insert|]. exists top. split; [done|]. intros j c e Hj.
  destruct (decide (j = i)) as [->|Hne].
  - rewrite list_lookup_insert_eq in Hj by (by eapply lookup_lt_Some). injection Hj as ->.
    left. by apply Ht'.
  - rewrite list_lookup_insert_ne in Hj by done. by eapply Htok.
Qed.

Lemma word_incr (s : CState) (top c : bool) (i : nat) (t t' : CThread) (e : nat) :
  Z.of_nat (length (threads s)) < 2 ^ 31 -> threads s !! i = Some t ->
  counted true t = false -> counted false t = false -> (t' = CStale c \/ t' = CToken c e) ->
  cohortVal s = encode top (count true (threads s)) (count false (threads s)) ->
  fetch_add (cohortVal s) (refOf c) =
  encode top (count true (<[i := t']> (threads s))) (count false (<[i := t']> (threads s))).
Proof.
  intros Hlen Hi H1 H2 Ht' Hw. destruct (counted_both t' c e Ht') as [E1 E2].
  pose proof (count_range true (<[i := t']> (threads s))) as R1.
  pose proof (count_range false (<[i := t']> (threads s))) as R2. rewrite length_insert in R1, R2.
  rewrite !(count_update _ _ i t t' Hi), H1, H2, E1, E2 in *. cbn [Z.b2z] in *.
  unfold fetch_add. rewrite Hw. pose proof (counts_small s true Hlen). pose proof (counts_small s false Hlen).
  replace (refOf c) with (1 * refOf c) by lia. 
  rewrite encode_add; unfold small in *;
    [destruct c; f_equal; lia|lia|lia|lia|destruct c; lia|destruct c; lia].
Qed.

Lemma word_decr (s : CState) (top c : bool) (i : nat) (t : CThread) (e : nat) :
  Z.of_nat (length (threads s)) < 2 ^ 31 -> threads s !! i = Some t ->
  (t = CStale c \/ t = CToken c e) ->
  cohortVal s = encode top (count true (threads s)) (count false (threads s)) ->
  fetch_sub (cohortVal s) (refOf c) =
  encode top (count true (<[i := COut]> (threads s))) (count false (<[i := COut]> (threads s))).
Proof.
  intros Hlen Hi Ht Hw. destruct (counted_both t c e Ht) as [E1 E2].
  pose proof (count_range true (<[i := COut]> (threads s))) as R1.
  pose proof (count_range false (<[i := COut]> (threads s))) as R2. rewrite length_insert in R1, R2.
  rewrite !(count_update _ _ i t COut Hi), E1, E2 in *. cbn [Z.b2z counted] in *.
  unfold fetch_sub. rewrite Hw. pose proof (counts_small s true Hlen). pose proof (counts_small s false Hlen).
  replace (encode top (count true (threads s)) (count false (threads s)) - refOf c)
    with (encode top (count true (threads s)) (count false (threads s)) + -1 * refOf c) by lia.
  rewrite encode_add; unfold small in *;
    [destruct c; f_equal; lia|lia|lia|lia|destruct c; lia|destruct c; lia].
Qed.

Lemma cact_inv (a : CAction) (s s' : CState) : CInv s -> cact a s = Some s' -> CInv s'.
Proof.
  intros Hinv. pose proof Hinv as [Hlen (top & Hw & Htok)].
  pose proof (counts_small s true Hlen) as St. pose proof (counts_small s false Hlen) as Sb.
  assert (Htop : forall top', cohortVal s = encode top' (count true (threads s)) (count false (threads s)) ->
            isTop (cohortVal s) = top') by (intros top' ->; by apply isTop_encode).
  destruct a as [i|i|i|i| |]; unfold cact.
  - destruct (threads s !! i) as [[]|] eqn:Hi; try done. intros [= <-].
    eapply CInv_update; [done|done|]. intros top' Hw'. split; [|done].
    assert (E : forall c, count c (<[i := CLoaded (isTop (cohortVal s))]> (threads s)) = count c (threads s)).
    { intros c. rewrite (count_update _ _ i COut _ Hi). cbn [counted Z.b2z]. lia. }
    by rewrite !E.
  - destruct (threads s !! i) as [[|c| |]|] eqn:Hi; try done. case_bool_decide as Hc; intros [= <-].
    + eapply CInv_update; [done|done|]. intros top' Hw'. split.
      * apply (word_incr s top' c i (CLoaded c) _ (switches s)); auto.
      * intros c' e [= -> ->]. split; [done|]. rewrite <- Hc. by apply Htop.
    + eapply CInv_update; [done|done|]. intros top' Hw'. split; [|done].
      apply (word_incr s top' c i (CLoaded c) _ 0); auto.
  - destruct (threads s !! i) as [[| |c|]|] eqn:Hi; try done. intros [= <-].
    eapply CInv_update; [done|done|]. intros top' Hw'. split; [|done].
    apply (word_decr s top' c i (CStale c) 0); auto.
  - destruct (threads s !! i) as [[| | |c e]|] eqn:Hi; try done. intros [= <-].
    eapply CInv_update; [done|done|]. intros top' Hw'. split; [|done].
    apply (word_decr s top' c i (CToken c e) e); auto.
  - destruct (waiting s) eqn:Hwt; [done|]. intros [= <-]. split; [done|]. exists (negb top). cbn.
    split; [by rewrite Hw, switch_encode|]. intros i c e Hi.
    destruct (Htok i c e Hi) as [[-> ->]|[? _]]; [|done]. right. by rewrite negb_involutive.
  - destruct (waiting s) eqn:Hwt; [|done]. cbn [andb]. destruct (draining (cohortVal s)) eqn:Hd; [done|].
    intros [= <-]. split; [done|]. exists top. split; [done|]. cbn. intros i c e Hi. left.
    destruct (Htok i c e Hi) as [?|(_ & _ & ->)]; [done|]. exfalso.
    rewrite Hw, draining_encode in Hd by done. apply negb_false_iff, Z.eqb_eq in Hd.
    pose proof (count_pos (negb top) (threads s) i _ Hi) as Hp. cbn in Hp.
    rewrite bool_decide_eq_true_2 in Hp by done. specialize (Hp eq_refl). destruct top; cbn in Hp; lia.
Qed.

Lemma crun_inv (l : list CAction) (s s' : CState) : CInv s -> crun l s = Some s' -> CInv s'.
Proof.
  revert s. induction l as [|a l IH]; intros s Hs; cbn; [by intros [= <-]|].
  destruct (cact a s) as [s1|] eqn:E; [|done]. apply IH. by eapply cact_inv.
Qed.

Lemma count_out (top : bool) (n : nat) : count top (replicate n COut) = 0.
Proof. induction n; cbn; lia. Qed.

Lemma cinit_inv (n : nat) : Z.of_nat n < 2 ^ 31 -> CInv (cinit n).
Proof.
  intros Hn. split; cbn; [by rewrite length_replicate|]. exists false.
  rewrite !count_out. split; [done|]. intros i c e Hi. apply lookup_replicate in Hi as [? _]. done.
Qed.

(** C34. When [switchCohorts] returns, every token taken before the switch has
    been released: in any interleaving of up to [2 ^ 31 - 1] threads taking and
    releasing tokens with any number of switches, no reference is lost or
    counted for the wrong cohort when the two counts share one word, and a
    token still held was taken after the last switch. *)
Theorem cohort_drained (n : nat) (l : list CAction) (s s' : CState) :
  Z.of_nat n < 2 ^ 31 -> crun l (cinit n) = Some s -> cact CDrained s = Some s' ->
  forall i c e, threads s' !! i = Some (CToken c e) -> e = switches s'.
Proof.
  intros Hn Hrun Hd i c e Hi.
  pose proof (cact_inv _ _ _ (crun_inv l _ _ (cinit_inv n Hn) Hrun) Hd) as [_ (top & _ & Htok)].
  destruct (Htok i c e Hi) as [[? _]|(Hw & _)]; [done|].
  unfold cact in Hd. destruct (_ && _); [|done]. injection Hd as <-. done.
Qed.

(** Two threads take tokens, one before and one after the switch; the switch
    ends once the first one has released its token. *)
Definition cTrace : list CAction := [CLoad 0; CIncr 0; CSwitch; CLoad 1; CIncr 1; CDecr 0].

Lemma cohort_drained_witness :
  exists s s', crun cTrace (cinit 2) = Some s /\ cact CDrained s = Some s' /\
    threads s' !! 1%nat = Some (CToken true 1) /\ 1%nat = switches s'.
Proof.
  eexists _, _. split; [vm_compute; reflexivity|]. split; [vm_compute; reflexivity|].
  split; [reflexivity|].
  eapply (cohort_drained 2 cTrace _ _ ltac:(lia) ltac:(vm_compute; reflexivity) ltac:(vm_compute; reflexivity) 1 true).
  reflexivity.
Defined.

(** While the first token is held, the switch goes on waiting. *)
Example waits_for_token :
  mbind (cact CDrained) (crun [CLoad 0; CIncr 0; CSwitch; CLoad 1; CIncr 1] (cinit 2)) = None.
Proof. reflexivity. Qed.
