(* ===== verification/Region.v ===== *)
(** * Regions of the block cache

    [src/cachelib/navy/block_cache/Types.h] and [Region.{h,cpp}]: a region is
    a fixed range of the device that entries are appended to, with the counts
    of the readers and writers that have it open, and a buffer in memory while
    it is being filled. Every operation holds the region's lock; one that
    waits on the condition variable is [Throw StillWaiting] with the writes it
    made before the wait, and is run again when it is notified (the loop tests
    its condition again; the writes before the loop are idempotent).

    [XDCHECK]s are checks of debug builds only and have no code here. *)

From S2P Require Import Prelude Bytes.
From stdpp Require Import base tactics numbers list.

#[local] Open Scope Z_scope.
#[local] Open Scope cachelib_scope.

(** ** Addresses *)

Definition kInvalid : Z := 2 ^ 32 - 1.
Definition valid (rid : Z) : bool := negb (rid =? kInvalid).

Record RelAddress : Type := mkRel { addr_rid : Z; addr_offset : Z }.

#[export] Instance RelAddress_eq_dec : EqDecision RelAddress.
Proof. solve_decision. Defined.

Definition addRel (a : RelAddress) (ofs : Z) : RelAddress := mkRel (addr_rid a) (u32 (addr_offset a + ofs)).
Definition subRel (a : RelAddress) (ofs : Z) : RelAddress := mkRel (addr_rid a) (u32 (addr_offset a - ofs)).

(** An [AbsAddress] is its 64-bit offset. *)
Definition addAbs (a ofs : Z) : Z := u64 (a + ofs).
Definition subAbs (a ofs : Z) : Z := u64 (a - ofs).

(** ** Descriptors *)

Inductive OpenMode : Type := ModeNone | ModeWrite | ModeRead.
Inductive OpenStatus : Type := Ready | OpenRetry | OpenError.

#[export] Instance OpenMode_eq_dec : EqDecision OpenMode.
Proof. solve_decision. Defined.
#[export] Instance OpenStatus_eq_dec : EqDecision OpenStatus.
Proof. solve_decision. Defined.

Record RegionDescriptor : Type := mkDesc {
  status_ : OpenStatus;
  regionId_ : Z;
  mode_ : OpenMode;
  physReadMode_ : bool
}.

(** [RegionDescriptor(status)]. *)
Definition statusDesc (s : OpenStatus) : RegionDescriptor := mkDesc s kInvalid ModeNone false.
Definition makeWriteDescriptor (s : OpenStatus) (r : Z) : RegionDescriptor := mkDesc s r ModeWrite false.
Definition makeReadDescriptor (s : OpenStatus) (r : Z) (phys : bool) : RegionDescriptor :=
  mkDesc s r ModeRead phys.
Definition isReady (d : RegionDescriptor) : bool := bool_decide (status_ d = Ready).
Definition isPhysReadMode (d : RegionDescriptor) : bool :=
  bool_decide (mode_ d = ModeRead) && physReadMode_ d.

(** ** The region *)

Record Region : Type := mkRegion {
  regionId : Z;
  regionSize_ : Z;
  priority_ : Z;
  flags_ : Z;
  activePhysReaders_ : Z;
  activeInMemReaders_ : Z;
  activeWriters_ : Z;
  lastEntryEndOffset_ : Z;
  numItems_ : Z;
  buffer_ : option bytes
}.

Definition kBlockAccess : Z := Z.shiftl 1 0.
Definition kPinned : Z := Z.shiftl 1 1.
Definition kFlushPending : Z := Z.shiftl 1 2.
Definition kFlushed : Z := Z.shiftl 1 3.
Definition kCleanedup : Z := Z.shiftl 1 4.
Definition kBeingReclaimed : Z := Z.shiftl 1 5.

Definition newRegion (i regionSize : Z) : Region := mkRegion i regionSize 0 0 0 0 0 0 0 None.

(** The state a region is persisted as, and the constructor from it. *)
Record RegionProto : Type := mkRegionProto {
  p_regionId : Z;
  p_lastEntryEndOffset : Z;
  p_priority : Z;
  p_numItems : Z
}.

Definition u16 (x : Z) : Z := x mod 2 ^ 16.

Definition regionOf (d : RegionProto) (regionSize : Z) : Region :=
  mkRegion (u32 (p_regionId d)) regionSize (u16 (p_priority d)) 0 0 0 0
    (u32 (p_lastEntryEndOffset d)) (u32 (p_numItems d)) None.

Definition set_flags (f : Z) (r : Region) : Region :=
  mkRegion (regionId r) (regionSize_ r) (priority_ r) f (activePhysReaders_ r) (activeInMemReaders_ r)
    (activeWriters_ r) (lastEntryEndOffset_ r) (numItems_ r) (buffer_ r).
Definition set_counts (phys inMem writers : Z) (r : Region) : Region :=
  mkRegion (regionId r) (regionSize_ r) (priority_ r) (flags_ r) phys inMem writers
    (lastEntryEndOffset_ r) (numItems_ r) (buffer_ r).
Definition set_buffer (b : option bytes) (r : Region) : Region :=
  mkRegion (regionId r) (regionSize_ r) (priority_ r) (flags_ r) (activePhysReaders_ r)
    (activeInMemReaders_ r) (activeWriters_ r) (lastEntryEndOffset_ r) (numItems_ r) b.
Definition set_end (e n : Z) (r : Region) : Region :=
  mkRegion (regionId r) (regionSize_ r) (priority_ r) (flags_ r) (activePhysReaders_ r)
    (activeInMemReaders_ r) (activeWriters_ r) e n (buffer_ r).
Definition setPriority (p : Z) (r : Region) : Region :=
  mkRegion (regionId r) (regionSize_ r) p (flags_ r) (activePhysReaders_ r) (activeInMemReaders_ r)
    (activeWriters_ r) (lastEntryEndOffset_ r) (numItems_ r) (buffer_ r).

Definition orFlag (f : Z) (r : Region) : Region := set_flags (Z.lor (flags_ r) f) r.
Definition hasFlag (f : Z) (r : Region) : bool := mask_test (flags_ r) f.

Definition isFlushedLocked : Region -> bool := hasFlag kFlushed.
Definition isCleanedupLocked : Region -> bool := hasFlag kCleanedup.
Definition isBeingReclaimed : Region -> bool := hasFlag kBeingReclaimed.
Definition hasBuffer (r : Region) : bool := match buffer_ r with Some _ => true | None => false end.

Definition getFragmentationSize (r : Region) : Z :=
  if numItems_ r =? 0 then 0 else u32 (regionSize_ r - lastEntryEndOffset_ r).

Definition activeOpenLocked (writersOnly : bool) (r : Region) : Z :=
  if writersOnly then activeWriters_ r
  else u32 (activePhysReaders_ r + activeInMemReaders_ r + activeWriters_ r).

(** ** Operations *)

Definition readyForReclaim (wait allowRead : bool) : M Region bool :=
  do! modify (orFlag (if allowRead then kBeingReclaimed else kBlockAccess)) in
  let! ready := gets (fun r => activeOpenLocked allowRead r =? 0) in
  if negb ready && wait then throw StillWaiting else ret ready.

Definition waitForActiveReaders : M Region unit :=
  do! modify (orFlag kBlockAccess) in
  let! busy := gets (fun r => negb (activeInMemReaders_ r =? 0) || negb (activePhysReaders_ r =? 0)) in
  if busy : bool then throw StillWaiting else ret tt.

(** The sum of two 32-bit integers is taken on 32 bits. *)
Definition canAllocateLocked (size : Z) (r : Region) : bool :=
  u32 (lastEntryEndOffset_ r + size) <=? regionSize_ r.

Definition allocateLocked (size : Z) : M Region RelAddress :=
  let! r := get in
  do! modify (set_end (u32 (lastEntryEndOffset_ r + size)) (u32 (numItems_ r + 1))) in
  ret (mkRel (regionId r) (lastEntryEndOffset_ r)).

(** The view returned is the part of the buffer from the address' offset, of
    the size asked for: the address and the size stand for it. *)
Definition openAndAllocate (size : Z) : M Region (RegionDescriptor * RelAddress) :=
  let! r := get in
  if negb (canAllocateLocked size r) then ret (statusDesc OpenError, mkRel kInvalid 0)
  else
    do! modify (set_counts (activePhysReaders_ r) (activeInMemReaders_ r) (u32 (activeWriters_ r + 1))) in
    let! addr := allocateLocked size in
    do! Prelude.guard (negb (hasBuffer r)) UndefinedBehavior in
    ret (makeWriteDescriptor Ready (regionId r), addr).

(** A caller on a Navy thread sleeps here while the region is blocked, then
    gets [Retry] all the same. *)
Definition openForRead : M Region RegionDescriptor :=
  let! r := get in
  if hasFlag kBlockAccess r then ret (statusDesc OpenRetry)
  else if isFlushedLocked r || negb (hasBuffer r) then
    do! modify (set_counts (u32 (activePhysReaders_ r + 1)) (activeInMemReaders_ r) (activeWriters_ r)) in
    ret (makeReadDescriptor Ready (regionId r) true)
  else
    do! modify (set_counts (activePhysReaders_ r) (u32 (activeInMemReaders_ r + 1)) (activeWriters_ r)) in
    ret (makeReadDescriptor Ready (regionId r) false).

Definition attachBuffer (b : bytes) : M Region unit := modify (set_buffer (Some b)).

Definition detachBuffer : M Region (option bytes) :=
  let! r := get in
  if negb (activeInMemReaders_ r =? 0) then throw StillWaiting
  else
    do! modify (set_buffer None) in
    ret (buffer_ r).

Definition setPendingFlush : M Region unit := modify (orFlag kFlushPending).

Inductive FlushRes : Type := kSuccess | kRetryDeviceFailure | kRetryPendingWrites.

#[export] Instance FlushRes_eq_dec : EqDecision FlushRes.
Proof. solve_decision. Defined.

(** [flushBuffer] is two critical sections around the callback: what it does
    before the callback, and what it does with the callback's result. *)
Definition flushBegin (r : Region) : FlushRes + option bytes :=
  if negb (activeWriters_ r =? 0) then inl kRetryPendingWrites
  else if isFlushedLocked r then inl kSuccess
  else inr (buffer_ r).
Definition flushEnd (written : bool) : M Region FlushRes :=
  if written then do! modify (orFlag kFlushed) in ret kSuccess
  else ret kRetryDeviceFailure.

(** [cleanupBuffer] likewise: [None] when the buffer is cleaned up already. *)
Definition cleanupBegin : M Region (option (option bytes)) :=
  let! r := get in
  if negb (activeWriters_ r =? 0) then throw StillWaiting
  else if isCleanedupLocked r then ret None
  else ret (Some (buffer_ r)).
Definition cleanupEnd : M Region unit := modify (orFlag kCleanedup).

Definition reset : M Region unit :=
  modify (fun r => mkRegion (regionId r) (regionSize_ r) 0 0 0 0 0 0 0 (buffer_ r)).

Definition close (d : RegionDescriptor) : M Region unit :=
  modify (fun r =>
    match mode_ d with
    | ModeWrite =>
        set_counts (activePhysReaders_ r) (activeInMemReaders_ r) (u32 (activeWriters_ r - 1)) r
    | ModeRead =>
        if isPhysReadMode d then
          set_counts (u32 (activePhysReaders_ r - 1)) (activeInMemReaders_ r) (activeWriters_ r) r
        else
          set_counts (activePhysReaders_ r) (u32 (activeInMemReaders_ r - 1)) (activeWriters_ r) r
    | ModeNone => r
    end).

Definition writeToBuffer (ofs : Z) (buf : bytes) : M Region unit :=
  let! r := get in
  match buffer_ r with
  | None => throw UndefinedBehavior
  | Some b => let! b' := lift (store b ofs buf) in modify (set_buffer (Some b'))
  end.

Definition readFromBuffer (fromOffset size : Z) : M Region bytes :=
  let! r := get in
  match buffer_ r with
  | None => throw UndefinedBehavior
  | Some b => lift (load b fromOffset size)
  end.
