(* ===== verification/RegionPolicy.v ===== *)
(** * Eviction policies of regions

    [src/cachelib/navy/block_cache/EvictionPolicy.h], [FifoPolicy.{h,cpp}]
    (plain and segmented) and [LruPolicy.{h,cpp}]. The interface is a class;
    its laws say that a policy tracks a multiset of regions, which [track]
    adds to, [evict] takes from and [touch] keeps, and that [evict] fails only
    when nothing is tracked. Times come from [getSteadyClockSeconds] and are
    arguments; the percentile estimators are statistics and have no code
    here. *)

From S2P Require Import Prelude Bytes BloomFilter Region.
From stdpp Require Import base tactics numbers list.

#[local] Open Scope Z_scope.
#[local] Open Scope cachelib_scope.

(** ** The interface *)

Class EvictionPolicy (P : Type) : Type := {
  track : Z -> Region -> M P unit;
  touch : Z -> Z -> M P unit;
  evict : M P Z;
  resetPolicy : M P unit
}.

Definition isRegionId (i : Z) : Prop := 0 <= i < kInvalid.

Class EvictionPolicyLaws (P : Type) `{EvictionPolicy P} : Type := {
  policy_wf : P -> Prop;
  tracked : P -> list Z;
  okPriority : P -> Z -> Prop;
  track_law now r p :
    policy_wf p -> isRegionId (regionId r) -> regionId r ∉ tracked p -> okPriority p (priority_ r) ->
    exists p', track now r p = (Ok tt, p') /\ policy_wf p' /\
      tracked p' ≡ₚ regionId r :: tracked p /\ (forall k, okPriority p' k <-> okPriority p k);
  touch_law now i p :
    policy_wf p -> isRegionId i ->
    exists p', touch now i p = (Ok tt, p') /\ policy_wf p' /\
      tracked p' ≡ₚ tracked p /\ (forall k, okPriority p' k <-> okPriority p k);
  evict_law p :
    policy_wf p ->
    exists i p', evict p = (Ok i, p') /\ policy_wf p' /\
      (forall k, okPriority p' k <-> okPriority p k) /\
      (tracked p = [] /\ i = kInvalid /\ p' = p \/ i <> kInvalid /\ tracked p ≡ₚ i :: tracked p');
  reset_law p :
    policy_wf p ->
    exists p', resetPolicy p = (Ok tt, p') /\ policy_wf p' /\ tracked p' = [] /\
      (forall k, okPriority p' k <-> okPriority p k)
}.

(** ** [FifoPolicy] *)

Record Node : Type := mkNode { node_rid : Z; trackTime : Z }.

Module Fifo.

Record t : Type := mk { queue_ : list Node }.

Definition track (now : Z) (r : Region) : M t unit :=
  modify (fun p => mk (queue_ p ++ [mkNode (regionId r) now])).

Definition evict : M t Z :=
  let! p := get in
  match queue_ p with
  | [] => ret kInvalid
  | n :: q => do! modify (fun _ => mk q) in ret (node_rid n)
  end.

Definition reset : M t unit := modify (fun _ => mk []).

(** The thrift object: 32-bit signed index and 64-bit signed time, in order. *)
Definition persist (p : t) : list (Z * Z) :=
  (fun n => (s32 (node_rid n), trackTime n)) <$> queue_ p.
Definition recover (d : list (Z * Z)) : M t unit :=
  modify (fun _ => mk ((fun x => mkNode (u32 x.1) x.2) <$> d)).

End Fifo.

#[export] Instance Fifo_policy : EvictionPolicy Fifo.t := {|
  track := Fifo.track;
  touch := fun _ _ => ret tt;
  evict := Fifo.evict;
  resetPolicy := Fifo.reset
|}.

(** ** [SegmentedFifoPolicy] *)

Module SFifo.

Record t : Type := mk {
  segmentRatio_ : list Z;
  totalRatioWeight_ : Z;
  segments_ : list (list Node)
}.

Definition set_segments (s : list (list Node)) (p : t) : t :=
  mk (segmentRatio_ p) (totalRatioWeight_ p) s.

(** [detail::accumulate], on 32 bits. *)
Fixpoint accumulate (a : Z) (nums : list Z) : res Z :=
  match nums with
  | [] => Ok a
  | b :: nums => if b =? 0 then Throw InvalidArgument else accumulate (u32 (a + b)) nums
  end.

Definition make (segmentRatio : list Z) : res t :=
  let? total := accumulate 0 segmentRatio in
  match segmentRatio with
  | [] => Throw InvalidArgument
  | _ => Ok (mk segmentRatio total (replicate (length segmentRatio) []))
  end.

Definition numElementsLocked (p : t) : Z := sumZ (zlen <$> segments_ p).

(** The inner loop: the oldest regions of a segment move down. *)
Fixpoint demote (limit : Z) (curr next : list Node) : list Node * list Node :=
  if limit <? zlen curr then
    match curr with
    | [] => (curr, next)
    | n :: curr => demote limit curr (next ++ [n])
    end
  else (curr, next).

(** The outer loop, over the segments and ratios from the last one down. *)
Fixpoint rebalance_loop (regionsTracked total : Z) (curr : list Node)
    (segs : list (list Node)) (ratios : list Z) : list (list Node) :=
  match segs, ratios with
  | next :: segs, ratio :: ratios =>
      let '(curr, next) := demote (u64 (regionsTracked * ratio) / total) curr next in
      curr :: rebalance_loop regionsTracked total next segs ratios
  | _, _ => curr :: segs
  end.

(** Dividing by a total weight of 0 is undefined. *)
Definition rebalanceLocked : M t unit :=
  let! p := get in
  match rev (segments_ p) with
  | [] => throw UndefinedBehavior
  | [_] => ret tt
  | curr :: segs =>
      do! Prelude.guard (totalRatioWeight_ p =? 0) UndefinedBehavior in
      modify (set_segments (rev (rebalance_loop (numElementsLocked p) (totalRatioWeight_ p)
                                   curr segs (rev (segmentRatio_ p)))))
  end.

Definition track (now : Z) (r : Region) : M t unit :=
  let! p := get in
  match segments_ p !! Z.to_nat (priority_ r) with
  | None => throw UndefinedBehavior
  | Some s =>
      do! modify (set_segments (<[Z.to_nat (priority_ r) := s ++ [mkNode (regionId r) now]]>
                                  (segments_ p))) in
      rebalanceLocked
  end.

Definition evict : M t Z :=
  let! p := get in
  match segments_ p with
  | [] => throw UndefinedBehavior
  | [] :: _ => ret kInvalid
  | (n :: lowestPri) :: segs =>
      do! modify (set_segments (lowestPri :: segs)) in
      do! rebalanceLocked in
      ret (node_rid n)
  end.

Definition reset : M t unit :=
  modify (fun p => set_segments (replicate (length (segments_ p)) []) p).

End SFifo.

#[export] Instance SFifo_policy : EvictionPolicy SFifo.t := {|
  track := SFifo.track;
  touch := fun _ _ => ret tt;
  evict := SFifo.evict;
  resetPolicy := SFifo.reset
|}.

(** ** [LruPolicy] *)

Module Lru.

Record ListNode : Type := mkLN {
  prev : Z;
  next : Z;
  creationTime : Z;
  lastUpdateTime : Z;
  hits : Z
}.

Record t : Type := mk {
  array_ : list ListNode;
  head_ : Z;
  tail_ : Z
}.

Definition inList (n : ListNode) : bool := negb (prev n =? kInvalid) || negb (next n =? kInvalid).

Definition set_prev (i : Z) (n : ListNode) : ListNode :=
  mkLN i (next n) (creationTime n) (lastUpdateTime n) (hits n).
Definition set_next (i : Z) (n : ListNode) : ListNode :=
  mkLN (prev n) i (creationTime n) (lastUpdateTime n) (hits n).

Definition nodeAt (i : Z) : M t ListNode :=
  fun p => match array_ p !! Z.to_nat i with
           | Some n => (Ok n, p)
           | None => (Throw UndefinedBehavior, p)
           end.
Definition setNode (i : Z) (n : ListNode) : M t unit :=
  modify (fun p => mk (<[Z.to_nat i := n]> (array_ p)) (head_ p) (tail_ p)).
Definition setHead (i : Z) : M t unit := modify (fun p => mk (array_ p) i (tail_ p)).
Definition setTail (i : Z) : M t unit := modify (fun p => mk (array_ p) (head_ p) i).

Definition make : t := mk [] kInvalid kInvalid.

(** [array_.resize(i + 1)] when [i] is past the end. *)
Definition grow (i : Z) : M t unit :=
  modify (fun p =>
    if zlen (array_ p) <=? i then
      mk (array_ p ++ replicate (Z.to_nat (i + 1) - length (array_ p)) (mkLN kInvalid kInvalid 0 0 0))
        (head_ p) (tail_ p)
    else p).

Definition unlink (i : Z) : M t unit :=
  let! node := nodeAt i in
  let! p := get in
  do! (if tail_ p =? i then setTail (prev node)
       else let! nx := nodeAt (next node) in setNode (next node) (set_prev (prev node) nx)) in
  do! (if head_ p =? i then setHead (next node)
       else let! pv := nodeAt (prev node) in setNode (prev node) (set_next (next node) pv)) in
  let! node := nodeAt i in
  setNode i (set_prev kInvalid (set_next kInvalid node)).

Definition linkAtHead (i : Z) : M t unit :=
  let! p := get in
  if i =? head_ p then ret tt
  else
    do! (if head_ p =? kInvalid then ret tt
         else let! h := nodeAt (head_ p) in setNode (head_ p) (set_prev i h)) in
    let! n := nodeAt i in
    do! setNode i (set_next (head_ p) n) in
    do! setHead i in
    if tail_ p =? kInvalid then setTail i else ret tt.

Definition touch (now : Z) (i : Z) : M t unit :=
  do! grow i in
  let! n := nodeAt i in
  if inList n then
    do! setNode i (mkLN (prev n) (next n) (creationTime n) now (u32 (hits n + 1))) in
    do! unlink i in
    linkAtHead i
  else ret tt.

Definition track (now : Z) (r : Region) : M t unit :=
  let i := regionId r in
  do! grow i in
  let! n := nodeAt i in
  do! setNode i (mkLN (prev n) (next n) now now 0) in
  if inList n then ret tt else linkAtHead i.

Definition evict : M t Z :=
  let! p := get in
  if tail_ p =? kInvalid then ret kInvalid
  else do! unlink (tail_ p) in ret (tail_ p).

Definition reset : M t unit := modify (fun _ => make).

End Lru.

#[export] Instance Lru_policy : EvictionPolicy Lru.t := {|
  track := Lru.track;
  touch := Lru.touch;
  evict := Lru.evict;
  resetPolicy := Lru.reset
|}.
