(* ===== verification/RegionPolicyProofs.v ===== *)
(** * The eviction policies keep the laws

    The FIFO policy is a queue; the segmented one never starves its lowest
    segment, so that [evict] finds a region whenever one is tracked; the LRU
    policy, a doubly-linked list in a vector, refines a list of region ids
    from the most to the least recently used. *)

From S2P Require Import Prelude Bytes BloomFilter Region RegionPolicy.
From stdpp Require Import base tactics numbers list.

#[local] Open Scope Z_scope.

(** ** FIFO *)

#[export] Program Instance Fifo_laws : EvictionPolicyLaws Fifo.t := {|
  policy_wf p := Forall (fun n => isRegionId (node_rid n)) (Fifo.queue_ p);
  tracked p := node_rid <$> Fifo.queue_ p;
  okPriority _ _ := True
|}.
Next Obligation.
  intros now r p Hwf Hr Hn _. eexists. split; [reflexivity|]. cbn. split.
  - apply Forall_app. split; [done|]. by constructor.
  - split; [|done]. rewrite fmap_app. cbn. by rewrite Permutation_app_comm.
Qed.
Next Obligation. intros now i p Hwf Hi. eexists. split; [reflexivity|]. done. Qed.
Next Obligation.
  intros [[|n q]] Hwf; unfold evict, Fifo_policy, Fifo.evict; cbn in *.
  - eexists _, _. split; [reflexivity|]. split; [done|]. split; [done|]. by left.
  - apply Forall_cons in Hwf as [Hn Hq]. eexists _, _. split; [reflexivity|]. split; [done|].
    split; [done|]. right. split; [|done]. unfold isRegionId in Hn. lia.
Qed.
Next Obligation. intros p Hwf. eexists. split; [reflexivity|]. done. Qed.

(** ** Segmented FIFO *)

Module SFifoProofs.
Import SFifo.

Lemma zlen_Permutation {A} (l k : list A) : l ≡ₚ k -> zlen l = zlen k.
Proof. intros H. unfold zlen. by rewrite H. Qed.

Lemma demote_spec (limit : Z) (curr next curr' next' : list Node) :
  0 <= limit -> demote limit curr next = (curr', next') ->
  zlen curr' = Z.min limit (zlen curr) /\ next ++ curr = next' ++ curr'.
Proof.
  intros Hl. revert next. induction curr as [|n curr IH]; intros next; cbn [demote].
  - destruct (limit <? zlen []) eqn:E; intros [= <- <-]; (split; [rewrite zlen_nil; lia|done]).
  - destruct (Z.ltb_spec limit (zlen (n :: curr))) as [Hlt|Hge].
    + intros Hd. destruct (IH _ Hd) as [H1 H2]. rewrite zlen_cons in *. split; [lia|].
      rewrite <- H2, <- app_assoc. done.
    + intros [= <- <-]. split; [lia|done].
Qed.

(** The limits of the segments but the last one passed. *)
Fixpoint limits_below (n total : Z) (ratios : list Z) (segs : list (list Node)) : Prop :=
  match segs, ratios with
  | [], _ => True
  | [_], _ => True
  | s :: segs, r :: ratios => zlen s <= n * r / total /\ limits_below n total ratios segs
  | _, [] => True
  end.

Lemma rebalance_loop_spec (n total : Z) (segs : list (list Node)) :
  0 < total -> 0 <= n -> forall (curr : list Node) (ratios : list Z),
  length ratios = S (length segs) -> (forall r, r ∈ ratios -> 0 < r /\ n * r < 2 ^ 64) ->
  let out := rebalance_loop n total curr segs ratios in
  limits_below n total ratios out /\ length out = S (length segs) /\
  concat out ≡ₚ curr ++ concat segs.
Proof.
  intros Ht Hn. induction segs as [|next segs IH]; intros curr ratios Hlen Hr;
    destruct ratios as [|r ratios]; try done; cbn [rebalance_loop].
  - destruct (Hr r) as [Hr0 Hr1]; [by left|]. rewrite u64_small by (unfold is_u64; nia).
    destruct (demote (n * r / total) curr next) as [c x] eqn:Hd.
    assert (Hq : 0 <= n * r / total) by (apply Z.div_pos; nia).
    destruct (demote_spec _ _ _ _ _ Hq Hd) as [Hc Hx].
    destruct (IH x ratios) as (IH1 & IH2 & IH3); [by injection Hlen|intros; apply Hr; by right|].
    cbn zeta in *. destruct (rebalance_loop n total x segs ratios) as [|y out] eqn:Eo; [done|].
    split; [cbn; split; [lia|done]|]. split; [cbn; cbn in IH2; lia|].
    cbn [concat]. cbn [concat] in IH3. rewrite IH3.
    rewrite !app_assoc. apply Permutation_app; [|done].
    by rewrite (Permutation_app_comm c x), <- Hx, Permutation_app_comm.
Qed.

(** The limits of the higher segments leave room for the lowest one. *)
Lemma limits_sum (n total : Z) (ratios : list Z) (segs : list (list Node)) :
  0 < total -> 0 <= n -> length ratios = length segs -> segs <> [] ->
  (forall r, r ∈ ratios -> 0 < r) ->
  limits_below n total ratios segs ->
  exists low rlow, last segs = Some low /\ last ratios = Some rlow /\
    total * zlen (concat segs) <= n * (sumZ ratios - rlow) + total * zlen low.
Proof.
  intros Ht Hn. revert ratios. induction segs as [|s segs IH]; intros ratios Hlen Hne Hr Hl; [done|].
  destruct ratios as [|r ratios]; [done|]. destruct segs as [|s' segs].
  - destruct ratios; [|done]. exists s, r. split; [done|]. split; [done|].
    cbn. rewrite app_nil_r. nia.
  - destruct Hl as [Hs Hl]. destruct (IH ratios) as (low & rlow & E1 & E2 & H); [by injection Hlen|done| |done|].
    { intros; apply Hr; by right. }
    exists low, rlow. split; [by rewrite last_cons, E1|]. split; [by rewrite last_cons, E2|].
    change (concat (s :: s' :: segs)) with (s ++ concat (s' :: segs)). rewrite zlen_app.
    change (sumZ (r :: ratios)) with (r + sumZ ratios).
    assert (total * zlen s <= n * r).
    { pose proof (Z.mul_div_le (n * r) total Ht). nia. }
    nia.
Qed.

Record wf (p : t) : Prop := {
  wf_ids : Forall (fun n => isRegionId (node_rid n)) (concat (segments_ p));
  wf_dup : NoDup (node_rid <$> concat (segments_ p));
  wf_len : length (segmentRatio_ p) = length (segments_ p);
  wf_ne : segments_ p <> [];
  wf_ratio : forall r, r ∈ segmentRatio_ p -> 0 < r < 2 ^ 32;
  wf_total : totalRatioWeight_ p = sumZ (segmentRatio_ p);
  wf_low : concat (segments_ p) <> [] -> exists n s ss, segments_ p = (n :: s) :: ss
}.

Lemma numElements (p : t) : numElementsLocked p = zlen (concat (segments_ p)).
Proof.
  unfold numElementsLocked. induction (segments_ p) as [|s ss IH]; [done|].
  cbn. rewrite zlen_app, <- IH. done.
Qed.

Lemma sum_pos (l : list Z) : l <> [] -> (forall r, r ∈ l -> 0 < r) -> 0 < sumZ l.
Proof.
  destruct l as [|x l]; [done|]. intros _ H. change (sumZ (x :: l)) with (x + sumZ l).
  assert (0 < x) by (apply H; by left).
  assert (0 <= sumZ l); [|lia]. apply sumZ_nonneg. intros y Hy. assert (0 < y); [|lia].
  apply H. by right.
Qed.

Lemma zlen_NoDup_ids (l : list Z) : NoDup l -> Forall isRegionId l -> zlen l <= 2 ^ 32.
Proof.
  intros Hd Hf. unfold zlen.
  assert (length l <= length (seqZ 0 (2 ^ 32)))%nat as H.
  { apply submseteq_length, NoDup_submseteq; [done|]. intros x Hx. apply elem_of_seqZ.
    rewrite Forall_forall in Hf. specialize (Hf x Hx). unfold isRegionId, kInvalid in Hf. lia. }
  rewrite length_seqZ in H. lia.
Qed.

Lemma last_rev {A} (l : list A) : last (rev l) = head l.
Proof. destruct l as [|x l]; [done|]. cbn. by rewrite last_snoc. Qed.

Lemma concat_rev_perm {A} (l : list (list A)) : concat (rev l) ≡ₚ concat l.
Proof.
  induction l as [|x l IH]; [done|]. cbn. rewrite concat_app. cbn. rewrite app_nil_r, IH.
  apply Permutation_app_comm.
Qed.

Lemma rebalance_ok (p : t) :
  Forall (fun n => isRegionId (node_rid n)) (concat (segments_ p)) ->
  NoDup (node_rid <$> concat (segments_ p)) ->
  length (segmentRatio_ p) = length (segments_ p) -> segments_ p <> [] ->
  (forall r, r ∈ segmentRatio_ p -> 0 < r < 2 ^ 32) -> totalRatioWeight_ p = sumZ (segmentRatio_ p) ->
  exists p', rebalanceLocked p = (Ok tt, p') /\ wf p' /\
    concat (segments_ p') ≡ₚ concat (segments_ p) /\ length (segments_ p') = length (segments_ p).
Proof.
  intros Hid Hdup Hlen Hne Hr Ht. unfold rebalanceLocked. mstep.
  assert (Htot : 0 < totalRatioWeight_ p).
  { rewrite Ht. apply sum_pos; [|intros r Hr'; by apply Hr]. destruct (segmentRatio_ p), (segments_ p); done. }
  destruct (rev (segments_ p)) as [|curr [|c2 segs]] eqn:Erev.
  - exfalso. apply Hne. rewrite <- (rev_involutive (segments_ p)), Erev. done.
  - assert (E : segments_ p = [curr]) by (rewrite <- (rev_involutive (segments_ p)), Erev; done).
    exists p. split; [done|]. split; [|done]. split; try done. rewrite E. cbn. rewrite app_nil_r.
    destruct curr as [|n s]; [done|]. eauto.
  - rewrite (proj2 (Z.eqb_neq _ _)) by lia. eexists. split; [reflexivity|].
    assert (Hn : numElementsLocked p <= 2 ^ 32).
    { rewrite numElements. pose proof (zlen_NoDup_ids _ Hdup) as H. unfold zlen in *. rewrite length_fmap in H.
      apply H. by apply Forall_fmap. }
    assert (Hn0 : 0 <= numElementsLocked p) by (rewrite numElements; apply zlen_nonneg).
    assert (Hlr : length (rev (segmentRatio_ p)) = S (length (c2 :: segs))).
    { rewrite length_rev, Hlen, <- (length_rev (segments_ p)), Erev. done. }
    destruct (rebalance_loop_spec (numElementsLocked p) (totalRatioWeight_ p) (c2 :: segs) Htot Hn0 curr
                (rev (segmentRatio_ p)) Hlr) as (L1 & L2 & L3).
    { intros r Hin. rewrite <- Permutation_rev in Hin. specialize (Hr r Hin). nia. }
    cbn zeta in *. set (out := rebalance_loop _ _ _ _ _) in *. clearbody out.
    assert (Hperm : concat (rev out) ≡ₚ concat (segments_ p)).
    { rewrite concat_rev_perm, L3. change (curr ++ concat (c2 :: segs)) with (concat (curr :: c2 :: segs)).
      rewrite <- Erev. apply concat_rev_perm. }
    assert (Hlout : length (rev out) = length (segments_ p)).
    { rewrite length_rev, L2, <- Hlr, length_rev. done. }
    cbn [segments_ set_segments]. split; [|done]. split; cbn [segments_ set_segments segmentRatio_ totalRatioWeight_]; try done.
    + by rewrite Hperm.
    + by rewrite Hperm.
    + by rewrite Hlout.
    + destruct (rev out); [|done]. destruct (segments_ p); done.
    + intros Hne'. destruct (limits_sum (numElementsLocked p) (totalRatioWeight_ p) (rev (segmentRatio_ p)) out)
        as (low & rlow & E1 & E2 & Hsum); try done.
      { rewrite Hlr, L2. done. }
      { by destruct out. }
      { intros r Hin. rewrite <- Permutation_rev in Hin. by apply Hr. }
      rewrite (sumZ_perm (rev (segmentRatio_ p)) (segmentRatio_ p)) in Hsum by (by rewrite <- Permutation_rev).
      assert (Hrl : 0 < rlow).
      { apply Hr. rewrite last_rev in E2. destruct (segmentRatio_ p); [done|]. injection E2 as ->. by left. }
      assert (Hz : zlen (concat out) = numElementsLocked p).
      { rewrite numElements. apply zlen_Permutation. by rewrite <- Hperm, concat_rev_perm. }
      assert (Hpos : 0 < numElementsLocked p).
      { rewrite <- Hz. destruct (concat out) eqn:E; [|zl]. exfalso. apply Hne'.
        apply Permutation_nil. by rewrite concat_rev_perm, E. }
      rewrite Hz, <- Ht in Hsum. destruct low as [|n low]; [exfalso; rewrite zlen_nil in Hsum; nia|].
      destruct out as [|o out] using rev_ind; [done|]. rewrite last_snoc in E1. injection E1 as ->.
      rewrite rev_app_distr. cbn. eauto.
Qed.

Lemma accumulate_sum (l : list Z) (a t : Z) :
  0 <= a -> (forall r, r ∈ l -> 0 <= r) -> a + sumZ l < 2 ^ 32 -> accumulate a l = Ok t ->
  t = a + sumZ l /\ (forall r, r ∈ l -> r <> 0).
Proof.
  revert a. induction l as [|b l IH]; intros a Ha Hl Hs; cbn [accumulate].
  - intros [= <-]. cbn. split; [lia|]. intros r Hr. by apply not_elem_of_nil in Hr.
  - destruct (Z.eqb_spec b 0) as [|Hb]; [done|]. change (sumZ (b :: l)) with (b + sumZ l) in *.
    assert (0 <= b) by (apply Hl; by left).
    assert (0 <= sumZ l) by (apply sumZ_nonneg; intros; apply Hl; by right).
    rewrite u32_small by (unfold is_u32; lia). intros Ht. apply IH in Ht as [-> Hn]; [|lia| |lia].
    + split; [lia|]. intros r [->|Hr]%elem_of_cons; [done|by apply Hn].
    + intros r Hr. apply Hl. by right.
Qed.

Lemma concat_replicate_nil {A} (n : nat) : concat (replicate n (@nil A)) = [].
Proof. by induction n. Qed.

Lemma make_wf (ratios : list Z) (p : t) :
  (forall r, r ∈ ratios -> 0 <= r) -> sumZ ratios < 2 ^ 32 -> make ratios = Ok p -> wf p.
Proof.
  intros Hr Hs. unfold make. destruct (accumulate 0 ratios) as [tot|] eqn:Ha; [|done].
  destruct (accumulate_sum ratios 0 tot) as [-> Hn]; try done.
  destruct ratios as [|r ratios]; [done|]. set (l := r :: ratios) in *. intros [= <-].
  split; cbn [segments_ segmentRatio_ totalRatioWeight_];
    cbn [length replicate concat app]; rewrite ?concat_replicate_nil; try done.
  - constructor.
  - by rewrite length_replicate.
  - intros x Hx. specialize (Hn x Hx). pose proof (Hr x Hx).
    destruct (proj1 (elem_of_Permutation l x) Hx) as [k Hk].
    rewrite (sumZ_perm _ _ Hk) in Hs. change (sumZ (x :: k)) with (x + sumZ k) in Hs.
    assert (0 <= sumZ k); [|lia]. apply sumZ_nonneg. intros y Hy. apply Hr. rewrite Hk. by right.
Qed.

End SFifoProofs.

#[export] Program Instance SFifo_laws : EvictionPolicyLaws SFifo.t := {|
  policy_wf := SFifoProofs.wf;
  tracked p := node_rid <$> concat (SFifo.segments_ p);
  okPriority p k := 0 <= k < zlen (SFifo.segments_ p)
|}.
Next Obligation.
  intros now r p Hwf Hr Hn Hk. unfold track, SFifo_policy, SFifo.track. mstep.
  destruct (lookup_lt_is_Some_2 (SFifo.segments_ p) (Z.to_nat (priority_ r))) as [s Hs].
  { unfold zlen in Hk. lia. }
  rewrite Hs. set (p1 := SFifo.set_segments _ p).
  assert (Hc : concat (SFifo.segments_ p1) ≡ₚ mkNode (regionId r) now :: concat (SFifo.segments_ p))
    by (by apply concat_insert_snoc).
  destruct (SFifoProofs.rebalance_ok p1) as (p2 & E & Hwf2 & Hp & Hl).
  - rewrite Hc. constructor; [done|]. apply Hwf.
  - rewrite Hc. cbn. apply NoDup_cons. split; [done|]. apply Hwf.
  - cbn. rewrite length_insert. apply Hwf.
  - cbn. intros E. apply (f_equal length) in E. rewrite length_insert in E.
    pose proof (SFifoProofs.wf_ne p Hwf). by destruct (SFifo.segments_ p).
  - apply Hwf.
  - apply Hwf.
  - eexists. split; [exact E|]. split; [done|]. split; [by rewrite Hp, Hc|].
    intros k. unfold zlen. rewrite Hl. cbn. by rewrite length_insert.
Qed.
Next Obligation. intros now i p Hwf Hi. eexists. split; [reflexivity|]. done. Qed.
Next Obligation.
  intros p Hwf. unfold evict, SFifo_policy, SFifo.evict. mstep.
  pose proof (SFifoProofs.wf_ne p Hwf) as Hne. pose proof (SFifoProofs.wf_low p Hwf) as Hlow.
  destruct (SFifo.segments_ p) as [|[|n low] segs] eqn:Es; [done| |].
  - eexists _, _. split; [reflexivity|]. split; [done|]. split; [by rewrite Es|]. left.
    split; [|done]. cbn. destruct (concat segs) as [|x c] eqn:Ec; [done|].
    destruct Hlow as (n & s & ss & [=]). cbn. by rewrite Ec.
  - set (p1 := SFifo.set_segments (low :: segs) p).
    pose proof Hwf as [W1 W2 W3 W4 W5 W6 _]. rewrite Es in *. cbn in W1, W2.
    apply Forall_cons in W1 as [Wn W1]. apply NoDup_cons in W2 as [Wd W2].
    destruct (SFifoProofs.rebalance_ok p1) as (p2 & E & Hwf2 & Hp & Hl); try done.
    rewrite E. cbn. eexists _, _. split; [reflexivity|]. split; [done|]. split.
    + intros k. unfold zlen. by rewrite Hl.
    + right. split; [unfold isRegionId in Wn; lia|]. by rewrite Hp.
Qed.
Next Obligation.
  intros p Hwf. eexists. split; [reflexivity|]. cbn [fst snd].
  assert (Hl : length (SFifo.segments_ (SFifo.set_segments (replicate (length (SFifo.segments_ p)) []) p))
               = length (SFifo.segments_ p)) by (cbn; by rewrite length_replicate).
  destruct Hwf as [W1 W2 W3 W4 W5 W6 _]. split; [split|split]; try done; cbn;
    rewrite ?SFifoProofs.concat_replicate_nil; try done.
  - constructor.
  - by rewrite length_replicate.
  - by destruct (SFifo.segments_ p).
  - intros k. unfold zlen. by rewrite length_replicate.
Qed.

(** ** LRU *)

Module LruProofs.
Import Lru.

(** The nodes [l] linked one to the next, [pr] before the first and [nx]
    after the last. *)
Fixpoint lseg (a : list ListNode) (pr : Z) (l : list Z) (nx : Z) : Prop :=
  match l with
  | [] => True
  | i :: l => (exists n, a !! Z.to_nat i = Some n /\ prev n = pr /\ next n = default nx (head l)) /\
              lseg a i l nx
  end.

Definition lastd (pr : Z) (l : list Z) : Z := default pr (last l).
Definition headd (nx : Z) (l : list Z) : Z := default nx (head l).

Lemma lseg_app (a : list ListNode) (l k : list Z) (pr nx : Z) :
  lseg a pr (l ++ k) nx <-> lseg a pr l (headd nx k) /\ lseg a (lastd pr l) k nx.
Proof.
  revert pr. induction l as [|i l IH]; intros pr; cbn [app lseg]; [tauto|].
  rewrite IH. assert (E : lastd pr (i :: l) = lastd i l).
  { unfold lastd. rewrite last_cons. by destruct (last l). }
  rewrite E. assert (E2 : default nx (head (l ++ k)) = default (headd nx k) (head l)) by (by destruct l).
  rewrite E2. tauto.
Qed.

Lemma lseg_ext (a b : list ListNode) (l : list Z) (pr nx : Z) :
  (forall i, i ∈ l -> forall n, a !! Z.to_nat i = Some n ->
     exists n', b !! Z.to_nat i = Some n' /\ prev n' = prev n /\ next n' = next n) ->
  lseg a pr l nx -> lseg b pr l nx.
Proof.
  revert pr. induction l as [|i l IH]; intros pr Hab; cbn [lseg]; [done|].
  intros [(n & Hn & <- & <-) Hl]. split; [|apply IH; [|done]; intros; apply Hab; [by right|done]].
  destruct (Hab i) with n as (n' & Hn' & E1 & E2); [by left|done|]. rewrite <- E1, <- E2. eauto.
Qed.

Lemma lseg_frame (a : list ListNode) (l : list Z) (pr nx i : Z) (n : ListNode) :
  Forall isRegionId l -> isRegionId i -> i ∉ l -> lseg a pr l nx -> lseg (<[Z.to_nat i := n]> a) pr l nx.
Proof.
  intros Hf Hi Hn. apply lseg_ext. intros j Hj m Hm. exists m. split; [|done].
  rewrite Forall_forall in Hf. specialize (Hf j Hj). rewrite list_lookup_insert_ne; [done|].
  intros E. apply Hn. unfold isRegionId in *. by replace i with j by lia.
Qed.

Record lru (p : t) (l : list Z) : Prop := {
  lru_ids : Forall isRegionId l;
  lru_dup : NoDup l;
  lru_head : head_ p = headd kInvalid l;
  lru_tail : tail_ p = lastd kInvalid l;
  lru_links : lseg (array_ p) kInvalid l kInvalid;
  lru_out : forall i n, isRegionId i -> array_ p !! Z.to_nat i = Some n -> i ∉ l ->
    prev n = kInvalid /\ next n = kInvalid
}.

Lemma make_lru : lru make [].
Proof. split; try done. constructor. Qed.

(** A region can be seen to be listed from its links, unless it is alone. *)
Lemma lru_inList (p : t) (l : list Z) (i : Z) (n : ListNode) :
  lru p l -> isRegionId i -> array_ p !! Z.to_nat i = Some n ->
  (inList n = true -> i ∈ l) /\ (inList n = false -> i ∈ l -> l = [i]).
Proof.
  intros [Hid Hd Hh Ht Hl Ho] Hi Hn. unfold inList. split.
  - intros Hin. destruct (decide (i ∈ l)) as [|Hnot]; [done|].
    destruct (Ho i n Hi Hn Hnot) as [E1 E2]. by rewrite E1, E2, !Z.eqb_refl in Hin.
  - intros Hin (l1 & l2 & ->)%list_elem_of_split. apply orb_false_iff in Hin as [H1 H2].
    apply negb_false_iff, Z.eqb_eq in H1, H2. apply lseg_app in Hl as [_ [(n' & Hn' & E1 & E2) _]].
    rewrite Hn in Hn'. injection Hn' as <-. rewrite Forall_app, Forall_cons in Hid. destruct Hid as (F1 & _ & F2).
    destruct l2 as [|y l2]; [|exfalso; apply Forall_cons in F2 as [F2 _]; cbn in E2; unfold isRegionId in F2; lia].
    destruct l1 as [|x l1] using rev_ind; [done|]. exfalso. rewrite Forall_app, Forall_singleton in F1.
    unfold lastd in E1. rewrite last_snoc in E1. cbn in E1. unfold isRegionId in F1. lia.
Qed.

Lemma lseg_set_head (a : list ListNode) (x : Z) (k : list Z) (pr pr' nx : Z) (n : ListNode) :
  Forall isRegionId (x :: k) -> NoDup (x :: k) -> a !! Z.to_nat x = Some n ->
  lseg a pr (x :: k) nx -> lseg (<[Z.to_nat x := set_prev pr' n]> a) pr' (x :: k) nx.
Proof.
  intros [Hx Hk]%Forall_cons [Hn Hd]%NoDup_cons Hax [(n' & Hn' & E1 & E2) Hl].
  rewrite Hax in Hn'. injection Hn' as <-. split; [|by apply lseg_frame].
  exists (set_prev pr' n). split; [|done]. apply list_lookup_insert_eq. by eapply lookup_lt_Some.
Qed.

Lemma lseg_set_last (a : list ListNode) (x : Z) (k : list Z) (pr nx nx' : Z) (n : ListNode) :
  Forall isRegionId (k ++ [x]) -> NoDup (k ++ [x]) -> a !! Z.to_nat x = Some n ->
  lseg a pr (k ++ [x]) nx -> lseg (<[Z.to_nat x := set_next nx' n]> a) pr (k ++ [x]) nx'.
Proof.
  rewrite Forall_app, Forall_singleton. intros [Hk Hx] (Hd & Hn & _)%NoDup_app Hax.
  rewrite !lseg_app. intros [Hl [(n' & Hn' & E1 & E2) _]]. rewrite Hax in Hn'. injection Hn' as <-.
  assert (Hxk : x ∉ k) by (intros Hin; apply (Hn x Hin); by left).
  split; [by apply lseg_frame|]. split; [|done]. exists (set_next nx' n). split; [|done].
  apply list_lookup_insert_eq. by eapply lookup_lt_Some.
Qed.

Lemma id_inj (i j : Z) : isRegionId i -> isRegionId j -> Z.to_nat i = Z.to_nat j -> i = j.
Proof. unfold isRegionId. lia. Qed.

Lemma nodeAt_Some (p : t) (i : Z) (n : ListNode) :
  array_ p !! Z.to_nat i = Some n -> nodeAt i p = (Ok n, p).
Proof. intros H. unfold nodeAt. by rewrite H. Qed.

Lemma ids_split (l1 l2 : list Z) (i : Z) :
  Forall isRegionId (l1 ++ i :: l2) -> NoDup (l1 ++ i :: l2) ->
  Forall isRegionId l1 /\ Forall isRegionId l2 /\ isRegionId i /\ NoDup l1 /\ NoDup l2 /\
  i ∉ l1 /\ i ∉ l2 /\ (forall x, x ∈ l1 -> x ∉ l2).
Proof.
  rewrite Forall_app, Forall_cons. intros (F1 & Fi & F2) (D1 & Hx & [Hi D2]%NoDup_cons)%NoDup_app.
  repeat (split; [done|]). split; [intros Hin; apply (Hx i Hin); by left|]. split; [done|].
  intros x H1 H2. apply (Hx x H1). by right.
Qed.

(** What [unlink] does to the nodes after and before. *)
Lemma unlink_next (p : t) (l1 l2 : list Z) (i : Z) (node : ListNode) :
  lru p (l1 ++ i :: l2) -> array_ p !! Z.to_nat i = Some node ->
  exists p1, (if tail_ p =? i then setTail (prev node)
              else bind (nodeAt (next node)) (fun nx => setNode (next node) (set_prev (prev node) nx))) p
             = (Ok tt, p1) /\
    head_ p1 = head_ p /\ tail_ p1 = lastd kInvalid (l1 ++ l2) /\
    lseg (array_ p1) kInvalid l1 i /\ lseg (array_ p1) (lastd kInvalid l1) l2 kInvalid /\
    array_ p1 !! Z.to_nat i = Some node /\
    (forall j n, isRegionId j -> array_ p1 !! Z.to_nat j = Some n -> j ∉ l1 ++ i :: l2 ->
       prev n = kInvalid /\ next n = kInvalid).
Proof.
  intros [Hid Hd Hh Ht Hl Ho] Hn. destruct (ids_split _ _ _ Hid Hd) as (F1 & F2 & Fi & D1 & D2 & N1 & N2 & N12).
  apply lseg_app in Hl as [L1 [(n' & Hn' & E1 & E2) L2]]. rewrite Hn in Hn'. injection Hn' as <-.
  destruct l2 as [|y l2].
  - rewrite Ht. unfold lastd at 1. rewrite last_snoc. cbn [default id from_option]. rewrite Z.eqb_refl.
    eexists. split; [reflexivity|]. cbn. rewrite app_nil_r. by rewrite E1.
  - rewrite (proj2 (Z.eqb_neq _ _)).
    2:{ rewrite Ht. unfold lastd. rewrite last_app_cons, last_cons.
        destruct (last (y :: l2)) as [z|] eqn:Ez; [|by rewrite last_None in Ez]. cbn.
        apply last_Some_elem_of in Ez. by intros ->. }
    destruct L2 as [(ny & Hy & Ey1 & Ey2) L2]. cbn in E2. rewrite E2.
    unfold bind. rewrite (nodeAt_Some _ _ _ Hy). eexists. split; [reflexivity|]. cbn [head_ tail_ array_].
    apply Forall_cons in F2 as [Fy F2].
    assert (Hyi : Z.to_nat y <> Z.to_nat i).
    { intros E. apply id_inj in E as ->; [|done|done]. apply N2. by left. }
    split; [done|]. split.
    { rewrite Ht. unfold lastd. rewrite last_app_cons, last_app_cons, last_cons.
      by destruct (last (y :: l2)) eqn:Ez; [|rewrite last_None in Ez]. }
    split. { apply lseg_frame; try done. intros Hin. apply (N12 y Hin). by left. }
    split.
    { rewrite E1. eapply lseg_set_head; [by constructor|done|done|]. split; [eauto|done]. }
    split; [by rewrite list_lookup_insert_ne|].
    intros j n Hj Hjn Hnot. apply (Ho j n Hj); [|done].
    rewrite list_lookup_insert_ne in Hjn; [done|]. intros E. apply id_inj in E as <-; [|done|done].
    apply Hnot, elem_of_app. right. right. by left.
Qed.

Lemma unlink_ok (p : t) (l1 l2 : list Z) (i : Z) :
  lru p (l1 ++ i :: l2) ->
  exists p' n, unlink i p = (Ok tt, p') /\ lru p' (l1 ++ l2) /\ array_ p' !! Z.to_nat i = Some n.
Proof.
  intros Hlru. pose proof Hlru as [Hid Hd Hh Ht Hl Ho].
  destruct (ids_split _ _ _ Hid Hd) as (F1 & F2 & Fi & D1 & D2 & N1 & N2 & N12).
  apply lseg_app in Hl as [_ [(node & Hn & E1 & E2) _]].
  destruct (unlink_next p l1 l2 i node Hlru Hn) as (p1 & R1 & Hh1 & Ht1 & L1 & L2 & Hn1 & Ho1).
  unfold unlink. unfold bind at 1. rewrite (nodeAt_Some _ _ _ Hn). unfold bind at 1, get at 1.
  unfold bind at 1. rewrite R1.
  assert (Hprev : exists p2, (if head_ p =? i then setHead (next node)
      else bind (nodeAt (prev node)) (fun pv => setNode (prev node) (set_next (next node) pv))) p1 = (Ok tt, p2) /\
    tail_ p2 = tail_ p1 /\ head_ p2 = headd kInvalid (l1 ++ l2) /\
    lseg (array_ p2) kInvalid l1 (headd kInvalid l2) /\ lseg (array_ p2) (lastd kInvalid l1) l2 kInvalid /\
    array_ p2 !! Z.to_nat i = Some node /\
    (forall j n, isRegionId j -> array_ p2 !! Z.to_nat j = Some n -> j ∉ l1 ++ i :: l2 ->
       prev n = kInvalid /\ next n = kInvalid)).
  { destruct l1 as [|x l1] using rev_ind.
    - rewrite Hh. cbn [headd app head default id from_option]. rewrite Z.eqb_refl.
      eexists. split; [reflexivity|]. cbn. rewrite E2. done.
    - clear IHl1. rewrite (proj2 (Z.eqb_neq _ _)).
      2:{ rewrite Hh. intros E. apply N1. destruct l1; cbn in E; subst; [by left|by left]. }
      assert (Ex : prev node = x) by (rewrite E1; unfold lastd; by rewrite last_snoc).
      rewrite Ex. pose proof L1 as L1'. apply lseg_app in L1' as [_ [(nx & Hx & _) _]].
      unfold bind. rewrite (nodeAt_Some _ _ _ Hx). eexists. split; [reflexivity|]. cbn [head_ tail_ array_].
      pose proof F1 as F1'. rewrite Forall_app, Forall_singleton in F1'. destruct F1' as [_ Fx].
      assert (Hxl : x ∈ l1 ++ [x]) by (apply elem_of_app; right; by left).
      split; [done|]. split; [rewrite Hh1, Hh; by destruct l1|].
      split; [rewrite E2; by eapply lseg_set_last|].
      split; [apply lseg_frame; try done; by apply N12|].
      split. { rewrite list_lookup_insert_ne; [done|]. intros E. apply id_inj in E as ->; done. }
      intros j n Hj Hjn Hnot. apply (Ho1 j n Hj); [|done]. rewrite list_lookup_insert_ne in Hjn; [done|].
      intros E. apply id_inj in E as <-; [|done|done]. apply Hnot, elem_of_app. by left. }
  destruct Hprev as (p2 & R2 & Ht2 & Hh2 & M1 & M2 & Hn2 & Ho2).
  unfold bind at 1. rewrite R2. unfold bind. rewrite (nodeAt_Some _ _ _ Hn2).
  assert (Hlt : (Z.to_nat i < length (array_ p2))%nat) by (by eapply lookup_lt_Some).
  eexists _, _. split; [reflexivity|]. split; [|by apply list_lookup_insert_eq].
  split; cbn [array_ head_ tail_].
  - by apply Forall_app.
  - by apply NoDup_app.
  - done.
  - by rewrite Ht2, Ht1.
  - apply lseg_app. split; by apply lseg_frame.
  - intros j n Hj. destruct (decide (j = i)) as [->|Hji].
    + rewrite list_lookup_insert_eq by done. by intros [= <-].
    + rewrite list_lookup_insert_ne by (intros E; apply id_inj in E; [by subst|done|done]).
      intros Hjn Hnot. apply (Ho2 j n Hj Hjn). rewrite elem_of_app, elem_of_cons.
      rewrite elem_of_app in Hnot. tauto.
Qed.

Lemma linkAtHead_ok (p : t) (l : list Z) (i : Z) (n : ListNode) :
  lru p l -> isRegionId i -> i ∉ l -> array_ p !! Z.to_nat i = Some n ->
  exists p', linkAtHead i p = (Ok tt, p') /\ lru p' (i :: l).
Proof.
  intros [Hid Hd Hh Ht Hl Ho] Hi Hnot Hn. destruct (Ho i n Hi Hn Hnot) as [E1 E2].
  unfold linkAtHead. unfold bind at 1, get at 1. rewrite (proj2 (Z.eqb_neq i (head_ p))).
  2:{ rewrite Hh. destruct l as [|y l]; cbn; [unfold isRegionId in Hi; lia|]. intros ->. apply Hnot. by left. }
  destruct l as [|y l].
  - rewrite Hh, Ht. cbn [headd lastd head last default id from_option]. rewrite Z.eqb_refl.
    unfold bind, ret. rewrite (nodeAt_Some _ _ _ Hn). cbn. eexists. split; [reflexivity|].
    assert (Hlt : (Z.to_nat i < length (array_ p))%nat) by (by eapply lookup_lt_Some).
    split; cbn [array_ head_ tail_]; try done.
    + by constructor.
    + apply NoDup_singleton.
    + split; [|done]. eexists. split; [by apply list_lookup_insert_eq|]. done.
    + intros j m Hj Hjm Hj2. rewrite list_lookup_insert_ne in Hjm; [by eapply Ho; [..|by apply not_elem_of_nil]|].
      intros E. apply id_inj in E as <-; [|done|done]. apply Hj2. by left.
  - rewrite Hh. cbn [headd head default id from_option]. apply Forall_cons in Hid as [Hy Hid].
    assert (Hiy : Z.to_nat y <> Z.to_nat i).
    { intros E. apply id_inj in E as ->; [|done|done]. apply Hnot. by left. }
    rewrite (proj2 (Z.eqb_neq y kInvalid)) by (unfold isRegionId in Hy; lia).
    rewrite (proj2 (Z.eqb_neq (tail_ p) kInvalid)).
    2:{ rewrite Ht. unfold lastd. destruct (last (y :: l)) as [z|] eqn:Ez; [|by apply last_None in Ez].
        apply last_Some_elem_of in Ez. cbn. assert (Hz : isRegionId z).
        { apply (proj1 (Forall_forall isRegionId (y :: l))); [by constructor|done]. }
        unfold isRegionId in Hz. lia. }
    pose proof Hl as [(ny & Hny & _) _].
    unfold bind at 1 2. rewrite (nodeAt_Some _ _ _ Hny). cbn [setNode modify].
    assert (Hn' : <[Z.to_nat y := set_prev i ny]> (array_ p) !! Z.to_nat i = Some n)
      by (by rewrite list_lookup_insert_ne).
    unfold bind at 1. rewrite (nodeAt_Some (mk _ _ _) _ _ Hn'). cbn. eexists. split; [reflexivity|].
    assert (Hlt : (Z.to_nat i < length (<[Z.to_nat y := set_prev i ny]> (array_ p)))%nat)
      by (by eapply lookup_lt_Some).
    split; cbn [array_ head_ tail_].
    + constructor; [done|]. by constructor.
    + by apply NoDup_cons.
    + done.
    + rewrite Ht. unfold lastd. by rewrite last_cons_cons.
    + split; [eexists; split; [by apply list_lookup_insert_eq|]; done|].
      apply lseg_frame; [by constructor|done|done|]. eapply lseg_set_head; [by constructor|done|done|done].
    + intros j m Hj Hjm Hj2. rewrite elem_of_cons in Hj2.
      rewrite list_lookup_insert_ne in Hjm by (intros E; apply id_inj in E; [subst; tauto|done|done]).
      rewrite list_lookup_insert_ne in Hjm
        by (intros E; apply id_inj in E; [subst; apply Hj2; right; by left|done|done]).
      eapply Ho; [done|done|tauto].
Qed.

Lemma grow_ok (p : t) (l : list Z) (i : Z) :
  lru p l -> isRegionId i ->
  exists p' n, grow i p = (Ok tt, p') /\ lru p' l /\ array_ p' !! Z.to_nat i = Some n.
Proof.
  intros [Hid Hd Hh Ht Hl Ho] Hi. unfold grow, modify. destruct (Z.leb_spec (zlen (array_ p)) i) as [Hle|Hgt].
  - assert (Hsplit : forall j n, array_ p !! j = Some n ->
      (array_ p ++ replicate (Z.to_nat (i + 1) - length (array_ p)) (mkLN kInvalid kInvalid 0 0 0)) !! j = Some n)
      by (intros; by apply lookup_app_l_Some).
    eexists _, (mkLN kInvalid kInvalid 0 0 0). split; [reflexivity|]. split.
    + split; cbn [array_ head_ tail_]; try done.
      * eapply lseg_ext; [|exact Hl]. intros j _ n Hn. exists n. eauto.
      * intros j n Hj [Hjn|[_ Hjn]]%lookup_app_Some Hnot; [by eapply Ho|].
        apply lookup_replicate in Hjn as [-> _]. done.
    + cbn. rewrite lookup_app_r by (unfold zlen in Hle; unfold isRegionId in Hi; lia).
      apply lookup_replicate. split; [done|]. unfold zlen in Hle; unfold isRegionId in Hi; lia.
  - destruct (lookup_lt_is_Some_2 (array_ p) (Z.to_nat i)) as [n Hn].
    { unfold zlen in Hgt. unfold isRegionId in Hi. lia. }
    exists p, n. split; [done|]. split; [by split|done].
Qed.

(** Changing the data of a node but not its links. *)
Lemma setData_ok (p : t) (l : list Z) (i : Z) (n n' : ListNode) :
  lru p l -> isRegionId i -> array_ p !! Z.to_nat i = Some n -> prev n' = prev n -> next n' = next n ->
  lru (mk (<[Z.to_nat i := n']> (array_ p)) (head_ p) (tail_ p)) l.
Proof.
  intros [Hid Hd Hh Ht Hl Ho] Hi Hn E1 E2.
  assert (Hlt : (Z.to_nat i < length (array_ p))%nat) by (by eapply lookup_lt_Some).
  split; cbn [array_ head_ tail_]; try done.
  - eapply lseg_ext; [|exact Hl]. intros j Hj m Hm. destruct (decide (Z.to_nat j = Z.to_nat i)) as [E|Hne].
    + rewrite E in *. rewrite Hn in Hm. injection Hm as <-. exists n'. by rewrite list_lookup_insert_eq.
    + exists m. by rewrite list_lookup_insert_ne.
  - intros j m Hj Hjm Hnot. destruct (decide (Z.to_nat j = Z.to_nat i)) as [E|Hne].
    + rewrite E in Hjm. rewrite list_lookup_insert_eq in Hjm by done. injection Hjm as <-.
      rewrite E1, E2. apply id_inj in E as ->; [|done|done]. by eapply Ho.
    + rewrite list_lookup_insert_ne in Hjm by done. by eapply Ho.
Qed.

(** The list a policy stands for, and what the operations do to it. *)
Definition remove_id (i : Z) (l : list Z) : list Z := filter (fun j => j <> i) l.
Definition spec_touch (i : Z) (l : list Z) : list Z :=
  if decide (i ∈ l) then i :: remove_id i l else l.
Definition spec_track (i : Z) (l : list Z) : list Z :=
  if decide (i ∈ l) then l else i :: l.
Definition spec_evict (l : list Z) : Z * list Z :=
  match last l with
  | None => (kInvalid, l)
  | Some i => (i, removelast l)
  end.

Lemma remove_id_notin (i : Z) (l : list Z) : i ∉ l -> remove_id i l = l.
Proof.
  unfold remove_id. induction l as [|x l IH]; [done|]. intros [Hx Hl]%not_elem_of_cons.
  rewrite filter_cons_True by done. by rewrite IH.
Qed.

Lemma remove_id_split (i : Z) (l1 l2 : list Z) :
  NoDup (l1 ++ i :: l2) -> remove_id i (l1 ++ i :: l2) = l1 ++ l2.
Proof.
  intros (D1 & Hx & [Hi D2]%NoDup_cons)%NoDup_app. unfold remove_id. rewrite filter_app, filter_cons_False by auto.
  f_equal; apply remove_id_notin; [|done]. intros Hin. apply (Hx i Hin). by left.
Qed.

Lemma touch_ok (now : Z) (p : t) (l : list Z) (i : Z) :
  lru p l -> isRegionId i ->
  exists p', touch now i p = (Ok tt, p') /\ lru p' (spec_touch i l).
Proof.
  intros Hp Hi. destruct (grow_ok p l i Hp Hi) as (p1 & n & R1 & Hp1 & Hn).
  unfold touch. unfold bind at 1. rewrite R1. unfold bind at 1. rewrite (nodeAt_Some _ _ _ Hn).
  destruct (lru_inList p1 l i n Hp1 Hi Hn) as [Ht Hf]. destruct (inList n).
  - specialize (Ht eq_refl). unfold bind at 1, setNode, modify.
    pose proof (setData_ok p1 l i n (mkLN (prev n) (next n) (creationTime n) now (u32 (hits n + 1)))
                  Hp1 Hi Hn eq_refl eq_refl) as Hp2.
    unfold spec_touch. rewrite decide_True by done.
    pose proof (lru_dup _ _ Hp1) as Hd. apply list_elem_of_split in Ht as (l1 & l2 & ->).
    destruct (unlink_ok _ l1 l2 i Hp2) as (p3 & n3 & R3 & Hp3 & Hn3). unfold bind at 1. rewrite R3.
    rewrite remove_id_split by done.
    destruct (ids_split _ _ _ (lru_ids _ _ Hp1) Hd) as (_ & _ & _ & _ & _ & N1 & N2 & _).
    apply (linkAtHead_ok p3 (l1 ++ l2) i n3); [done|done| |done]. rewrite elem_of_app. tauto.
  - eexists. split; [reflexivity|]. unfold spec_touch. destruct (decide (i ∈ l)) as [Hin|]; [|done].
    rewrite (Hf eq_refl Hin). unfold remove_id. rewrite filter_cons_False by auto. cbn.
    by rewrite <- (Hf eq_refl Hin).
Qed.

Lemma track_ok (now : Z) (r : Region) (p : t) (l : list Z) :
  lru p l -> isRegionId (regionId r) ->
  exists p', track now r p = (Ok tt, p') /\ lru p' (spec_track (regionId r) l).
Proof.
  intros Hp Hi. destruct (grow_ok p l (regionId r) Hp Hi) as (p1 & n & R1 & Hp1 & Hn).
  unfold track. unfold bind at 1. rewrite R1. unfold bind at 1. rewrite (nodeAt_Some _ _ _ Hn).
  unfold bind at 1, setNode, modify.
  pose proof (setData_ok p1 l (regionId r) n (mkLN (prev n) (next n) now now 0)
                Hp1 Hi Hn eq_refl eq_refl) as Hp2.
  destruct (lru_inList p1 l _ n Hp1 Hi Hn) as [Ht Hf]. unfold spec_track. destruct (inList n).
  - rewrite decide_True by auto. eexists. split; [reflexivity|done].
  - destruct (decide (regionId r ∈ l)) as [Hin|Hnot].
    + assert (Hh : head_ p1 = regionId r) by (by rewrite (lru_head _ _ Hp1), (Hf eq_refl Hin)).
      unfold linkAtHead. unfold bind at 1, get at 1. cbn [head_]. rewrite Hh, Z.eqb_refl.
      rewrite Hh in Hp2. eexists. split; [reflexivity|done].
    + eapply (linkAtHead_ok _ l); [done|done|done|]. cbn. apply list_lookup_insert_eq.
      by eapply lookup_lt_Some.
Qed.

Lemma evict_ok (p : t) (l : list Z) :
  lru p l -> exists p', evict p = (Ok (spec_evict l).1, p') /\ lru p' (spec_evict l).2 /\
    (l = [] -> p' = p).
Proof.
  intros Hp. unfold evict, spec_evict. unfold bind at 1, get at 1. rewrite (lru_tail _ _ Hp). unfold lastd.
  destruct l as [|i l] using rev_ind; [eexists; split; [reflexivity|done]|].
  rewrite last_snoc. cbn [default id from_option fst snd]. rewrite removelast_snoc.
  pose proof (lru_ids _ _ Hp) as Hid. rewrite Forall_app, Forall_singleton in Hid. destruct Hid as [_ Hi].
  rewrite (proj2 (Z.eqb_neq _ _)) by (unfold isRegionId in Hi; lia).
  destruct (unlink_ok p l [] i Hp) as (p' & n & R & Hp' & _). rewrite app_nil_r in Hp'.
  unfold bind. rewrite R. eexists. split; [reflexivity|]. split; [done|]. by destruct l.
Qed.

(** The list can be read off the links. *)
Fixpoint walk (a : list ListNode) (fuel : nat) (i : Z) : list Z :=
  if i =? kInvalid then [] else
  match fuel with
  | O => []
  | S fuel => match a !! Z.to_nat i with
              | Some n => i :: walk a fuel (next n)
              | None => []
              end
  end.
Definition listOf (p : t) : list Z := walk (array_ p) (length (array_ p)) (head_ p).

Lemma walk_lseg (a : list ListNode) (l : list Z) (pr : Z) (fuel : nat) :
  Forall isRegionId l -> lseg a pr l kInvalid -> (length l <= fuel)%nat ->
  walk a fuel (headd kInvalid l) = l.
Proof.
  revert pr fuel. induction l as [|i l IH]; intros pr fuel Hid Hl Hf.
  - destruct fuel; done.
  - apply Forall_cons in Hid as [Hi Hid]. destruct Hl as [(n & Hn & _ & E) Hl]. cbn in Hf.
    destruct fuel as [|fuel]; [lia|]. cbn [walk headd head default id from_option].
    rewrite (proj2 (Z.eqb_neq i kInvalid)) by (unfold isRegionId in Hi; lia).
    rewrite Hn, E. f_equal. eapply IH; [done|done|lia].
Qed.

Lemma listOf_lru (p : t) (l : list Z) : lru p l -> listOf p = l.
Proof.
  intros [Hid Hd Hh Ht Hl Ho]. unfold listOf. rewrite Hh. eapply walk_lseg; [done|done|].
  rewrite <- (length_fmap Z.to_nat l).
  replace (length (array_ p)) with (length (seq 0 (length (array_ p)))) by apply length_seq.
  apply submseteq_length, NoDup_submseteq.
  - apply NoDup_fmap_2_strong; [|done]. rewrite Forall_forall in Hid.
    intros x y Hx Hy. apply id_inj; by apply Hid.
  - intros k (i & -> & Hi)%list_elem_of_fmap. apply elem_of_seq. split; [lia|]. cbn.
    apply list_elem_of_split in Hi as (l1 & l2 & ->). apply lseg_app in Hl as [_ [(n & Hn & _) _]].
    by eapply lookup_lt_Some.
Qed.

End LruProofs.

#[export] Program Instance Lru_laws : EvictionPolicyLaws Lru.t := {|
  policy_wf p := exists l, LruProofs.lru p l;
  tracked := LruProofs.listOf;
  okPriority _ _ := True
|}.
Next Obligation.
  intros now r p (l & Hl) Hr Hn _. rewrite (LruProofs.listOf_lru _ _ Hl) in *.
  destruct (LruProofs.track_ok now r p l Hl Hr) as (p' & E & Hp'). exists p'. split; [done|].
  split; [by eexists|]. rewrite (LruProofs.listOf_lru _ _ Hp').
  unfold LruProofs.spec_track. by rewrite decide_False.
Qed.
Next Obligation.
  intros now i p (l & Hl) Hi. destruct (LruProofs.touch_ok now p l i Hl Hi) as (p' & E & Hp').
  exists p'. split; [done|]. split; [by eexists|].
  rewrite (LruProofs.listOf_lru _ _ Hp'), (LruProofs.listOf_lru _ _ Hl). split; [|done].
  unfold LruProofs.spec_touch. destruct (decide (i ∈ l)) as [Hin|]; [|done].
  pose proof (LruProofs.lru_dup _ _ Hl) as Hd. apply list_elem_of_split in Hin as (l1 & l2 & ->).
  rewrite LruProofs.remove_id_split by done. by rewrite Permutation_middle.
Qed.
Next Obligation.
  intros p (l & Hl). destruct (LruProofs.evict_ok p l Hl) as (p' & E & Hp' & Hnil).
  eexists _, p'. split; [exact E|]. split; [by eexists|]. split; [done|].
  rewrite (LruProofs.listOf_lru _ _ Hl), (LruProofs.listOf_lru _ _ Hp'). unfold LruProofs.spec_evict in *.
  destruct l as [|i l] using rev_ind; [left; auto|]. right. rewrite last_snoc in *. cbn in *.
  rewrite removelast_snoc. pose proof (LruProofs.lru_ids _ _ Hl) as Hid.
  rewrite Forall_app, Forall_singleton in Hid. destruct Hid as [_ Hi].
  split; [unfold isRegionId in Hi; lia|]. by rewrite Permutation_app_comm.
Qed.
Next Obligation.
  intros p _. eexists. split; [reflexivity|]. split; [by eexists; apply LruProofs.make_lru|]. done.
Qed.

(** ** What the policies promise *)

(** Requests to a policy, and a run of them with the regions evicted. *)
Inductive PolicyOp : Type :=
| OpTrack (now : Z) (i : Z)
| OpTouch (now : Z) (i : Z)
| OpEvict.

Definition lruStep (o : PolicyOp) : M Lru.t (option Z) :=
  match o with
  | OpTrack now i => bind (Lru.track now (newRegion i 0)) (fun _ => ret None)
  | OpTouch now i => bind (Lru.touch now i) (fun _ => ret None)
  | OpEvict => bind Lru.evict (fun i => ret (Some i))
  end.
Fixpoint lruRun (os : list PolicyOp) : M Lru.t (list (option Z)) :=
  match os with
  | [] => ret []
  | o :: os => bind (lruStep o) (fun r => bind (lruRun os) (fun rs => ret (r :: rs)))
  end.

Definition specStep (o : PolicyOp) (l : list Z) : option Z * list Z :=
  match o with
  | OpTrack _ i => (None, LruProofs.spec_track i l)
  | OpTouch _ i => (None, LruProofs.spec_touch i l)
  | OpEvict => (Some (LruProofs.spec_evict l).1, (LruProofs.spec_evict l).2)
  end.
Fixpoint specRun (os : list PolicyOp) (l : list Z) : list (option Z) * list Z :=
  match os with
  | [] => ([], l)
  | o :: os => let '(r, l) := specStep o l in let '(rs, l) := specRun os l in (r :: rs, l)
  end.

Definition op_ok (o : PolicyOp) : Prop :=
  match o with OpTrack _ i | OpTouch _ i => isRegionId i | OpEvict => True end.

Lemma lruRun_spec (os : list PolicyOp) (p : Lru.t) (l : list Z) :
  LruProofs.lru p l -> Forall op_ok os ->
  exists p', lruRun os p = (Ok (specRun os l).1, p') /\ LruProofs.lru p' (specRun os l).2.
Proof.
  revert p l. induction os as [|o os IH]; intros p l Hp Hok; [eexists; split; [reflexivity|done]|].
  apply Forall_cons in Hok as [Ho Hok]. cbn [lruRun specRun].
  assert (Hs : exists p1, lruStep o p = (Ok (specStep o l).1, p1) /\ LruProofs.lru p1 (specStep o l).2).
  { destruct o as [now i|now i|]; cbn [lruStep specStep fst snd] in *; unfold bind.
    - destruct (LruProofs.track_ok now (newRegion i 0) p l Hp Ho) as (p1 & -> & H1). eexists. done.
    - destruct (LruProofs.touch_ok now p l i Hp Ho) as (p1 & -> & H1). eexists. done.
    - destruct (LruProofs.evict_ok p l Hp) as (p1 & -> & H1 & _). eexists. done. }
  destruct Hs as (p1 & R1 & H1). unfold bind at 1. rewrite R1. destruct (specStep o l) as [r l1]. cbn [fst snd] in *.
  destruct (IH p1 l1 H1 Hok) as (p2 & R2 & H2). unfold bind. rewrite R2.
  destruct (specRun os l1) as [rs l2]. cbn in *. eexists. split; [reflexivity|done].
Qed.

(** C12. The LRU policy of regions, a doubly-linked list kept in a vector by
    index, refines a list of region ids: any sequence of tracking, touching and
    evicting on a fresh policy runs without undefined behaviour, evicts the
    regions the list would (the least recently tracked or touched one first,
    none only when nothing is tracked) and ends with the links of the list. *)
Theorem lru_policy_refines (os : list PolicyOp) :
  Forall op_ok os ->
  exists p, lruRun os Lru.make = (Ok (specRun os []).1, p) /\ LruProofs.listOf p = (specRun os []).2.
Proof.
  intros Hok. destruct (lruRun_spec os Lru.make [] LruProofs.make_lru Hok) as (p & R & Hp).
  exists p. split; [done|]. by apply LruProofs.listOf_lru.
Qed.

Definition lruDemo : list PolicyOp :=
  [OpTrack 1 5; OpTrack 2 3; OpTrack 3 9; OpTouch 4 5; OpEvict; OpTouch 5 7; OpEvict; OpEvict; OpEvict].

Lemma lru_policy_refines_witness :
  exists p, lruRun lruDemo Lru.make
            = (Ok [None; None; None; None; Some 3; None; Some 9; Some 5; Some kInvalid], p) /\
    LruProofs.listOf p = [].
Proof.
  apply (lru_policy_refines lruDemo). repeat (constructor; [cbn; unfold isRegionId, kInvalid; lia|]). constructor.
Defined.

(** States of a segmented policy: regions are tracked once each, at the
    priority they have, until they are evicted. *)
Inductive sfifo_reachable (ratios : list Z) : SFifo.t -> Prop :=
| sfr_make p : SFifo.make ratios = Ok p -> sfifo_reachable ratios p
| sfr_track p now r p' :
    sfifo_reachable ratios p -> isRegionId (regionId r) -> regionId r ∉ tracked p ->
    0 <= priority_ r < zlen ratios -> SFifo.track now r p = (Ok tt, p') -> sfifo_reachable ratios p'
| sfr_evict p i p' :
    sfifo_reachable ratios p -> SFifo.evict p = (Ok i, p') -> sfifo_reachable ratios p'.

Lemma sfifo_reachable_wf (ratios : list Z) (p : SFifo.t) :
  (forall r, r ∈ ratios -> 0 <= r) -> sumZ ratios < 2 ^ 32 -> sfifo_reachable ratios p ->
  SFifoProofs.wf p /\ zlen (SFifo.segments_ p) = zlen ratios.
Proof.
  intros Hr Hs. induction 1 as [p Hm|p now r p' Hp [IH Hl] Hi Hn Hk Ht|p i p' Hp [IH Hl] He].
  - split; [by eapply SFifoProofs.make_wf|]. unfold SFifo.make in Hm.
    destruct (SFifo.accumulate 0 ratios); [|done]. destruct ratios; [done|]. injection Hm as <-.
    unfold zlen. cbn. by rewrite length_replicate.
  - destruct (@track_law _ _ SFifo_laws now r p IH Hi Hn) as (p1 & E & W & _ & K); [cbn; lia|].
    unfold track, SFifo_policy in E. rewrite Ht in E. injection E as <-. split; [done|]. cbn in K.
    specialize (K (zlen ratios - 1)) as K1. specialize (K (zlen ratios)) as K2.
    pose proof (zlen_nonneg (SFifo.segments_ p')). pose proof (zlen_nonneg ratios).
    pose proof (SFifoProofs.wf_ne p' W). rewrite Hl in *. destruct (SFifo.segments_ p'); [done|].
    rewrite zlen_cons in *. pose proof (zlen_nonneg l). lia.
  - destruct (@evict_law _ _ SFifo_laws p IH) as (j & p1 & E & W & K & _).
    unfold evict, SFifo_policy in E. rewrite He in E. injection E as <- <-. split; [done|]. cbn in K.
    specialize (K (zlen ratios - 1)) as K1. specialize (K (zlen ratios)) as K2.
    pose proof (zlen_nonneg (SFifo.segments_ p')). pose proof (zlen_nonneg ratios).
    pose proof (SFifoProofs.wf_ne p' W). rewrite Hl in *. destruct (SFifo.segments_ p'); [done|].
    rewrite zlen_cons in *. pose proof (zlen_nonneg l). lia.
Qed.

(** C37. The segmented FIFO policy never starves its lowest segment: with
    ratios whose sum fits 32 bits, in every state it reaches, [evict] returns a
    region that is tracked, and takes out that one alone, as long as any region
    is tracked in any segment, so that the loop of [doReclaim] around [evict]
    ends at its first turn. *)
Theorem sfifo_never_starves (ratios : list Z) (p : SFifo.t) :
  (forall r, r ∈ ratios -> 0 <= r) -> sumZ ratios < 2 ^ 32 -> sfifo_reachable ratios p ->
  exists i p', SFifo.evict p = (Ok i, p') /\
    (i = kInvalid <-> concat (SFifo.segments_ p) = []) /\
    (i <> kInvalid -> node_rid <$> concat (SFifo.segments_ p) ≡ₚ i :: (node_rid <$> concat (SFifo.segments_ p'))).
Proof.
  intros Hr Hs Hp. destruct (sfifo_reachable_wf ratios p Hr Hs Hp) as [W _].
  destruct (@evict_law _ _ SFifo_laws p W) as (i & p' & E & _ & _ & H). exists i, p'. split; [exact E|]. cbn in H.
  destruct H as [(Ht & -> & ->)|[Hi Ht]].
  - apply fmap_nil_inv in Ht. by rewrite Ht.
  - split; [|done]. split; [done|]. intros Hc. rewrite Hc in Ht. by apply Permutation_nil_cons in Ht.
Qed.

(** Three regions of the highest priority of three: two have moved down. *)
Definition sfifoDemo : SFifo.t :=
  SFifo.mk [1; 1; 1] 3 [[mkNode 4 0; mkNode 6 0]; []; [mkNode 8 0]].

Lemma sfifoDemo_reachable : sfifo_reachable [1; 1; 1] sfifoDemo.
Proof.
  set (at2 i := setPriority 2 (newRegion i 0)).
  eapply (sfr_track _ _ 0 (at2 8));
    [eapply (sfr_track _ _ 0 (at2 6)); [eapply (sfr_track _ _ 0 (at2 4)); [by apply sfr_make|..]|..]|..];
    try (vm_compute; reflexivity); try (unfold zlen, isRegionId, kInvalid; cbn; lia);
    apply (bool_decide_unpack _); vm_compute; exact I.
Qed.

Lemma sfifo_never_starves_witness :
  exists p', SFifo.evict sfifoDemo = (Ok 4, p').
Proof.
  destruct (sfifo_never_starves [1; 1; 1] sfifoDemo) as (i & p' & E & _).
  - intros r Hr. repeat (apply elem_of_cons in Hr as [->|Hr]; [lia|]). by apply not_elem_of_nil in Hr.
  - vm_compute. reflexivity.
  - exact sfifoDemo_reachable.
  - exists p'. rewrite E. vm_compute in E. injection E as <- <-. reflexivity.
Defined.
