(* ===== verification/BlockIndex.v ===== *)
(** * The index of the block cache

    [src/cachelib/navy/block_cache/Index.h] and [SparseMapIndex.{h,cpp}]: the
    map from key hashes to entry addresses. The interface is a class with its
    laws, stated for the address a hash finds; two hashes may share an entry
    ([same]). The implementation is an array of hash maps, here [gmap]s keyed
    by 32 bits of the hash. Each operation holds the lock of its bucket map.
    The percentile estimator of hits is a statistic and has no code here. *)

From S2P Require Import Prelude Bytes BloomFilter Region.
From stdpp Require Import base tactics numbers list gmap.

#[local] Open Scope Z_scope.
#[local] Open Scope cachelib_scope.

(** [extra] is the union of [totalHits] and [itemHistory], one byte. *)
Record ItemRecord : Type := mkRecord {
  address : Z;
  sizeHint : Z;
  extra : Z;
  currentHits : Z
}.

#[export] Instance ItemRecord_eq_dec : EqDecision ItemRecord.
Proof. solve_decision. Defined.

(** A [LookupResult] is the record found, if any. *)
Class Index (X : Type) : Type := {
  ixLookup : Z -> M X (option ItemRecord);
  ixPeek : X -> Z -> option ItemRecord;
  ixInsert : Z -> Z -> Z -> M X (option ItemRecord);
  ixInsertIfNotExists : Z -> Z -> Z -> M X (option ItemRecord);
  ixReplaceIfMatch : Z -> Z -> Z -> M X bool;
  ixRemove : Z -> M X (option ItemRecord);
  ixRemoveIfMatch : Z -> Z -> M X bool;
  resetIndex : M X unit
}.

(** What the block cache reads of a record: the address and the size hint. *)
Definition locOf {X} `{Index X} (x : X) (h : Z) : option (Z * Z) :=
  (fun r => (address r, sizeHint r)) <$> ixPeek x h.

Class IndexLaws (X : Type) `{Index X} : Type := {
  index_wf : X -> Prop;
  same : X -> Z -> Z -> Prop;
  same_dec x h k :: Decision (same x h k);
  same_equiv x :: Equivalence (same x);
  same_peek x h k : same x h k -> ixPeek x h = ixPeek x k;
  lookup_law x h : index_wf x -> exists x', ixLookup h x = (Ok (ixPeek x h), x') /\ index_wf x' /\
    (forall k j, same x' k j <-> same x k j) /\ (forall k, locOf x' k = locOf x k);
  insert_law x h a n : index_wf x -> is_u32 a -> 0 <= n < 2 ^ 16 ->
    exists x', ixInsert h a n x = (Ok (ixPeek x h), x') /\ index_wf x' /\
    (forall k j, same x' k j <-> same x k j) /\
    (forall k, locOf x' k = if decide (same x h k) then Some (a, n) else locOf x k);
  insertIfNotExists_law x h a n : index_wf x -> is_u32 a -> 0 <= n < 2 ^ 16 ->
    exists x', ixInsertIfNotExists h a n x = (Ok (ixPeek x h), x') /\ index_wf x' /\
    (forall k j, same x' k j <-> same x k j) /\
    (forall k, locOf x' k = if decide (same x h k /\ ixPeek x h = None) then Some (a, n) else locOf x k);
  replaceIfMatch_law x h new old : index_wf x -> is_u32 new ->
    exists x' b, ixReplaceIfMatch h new old x = (Ok b, x') /\ index_wf x' /\
    (forall k j, same x' k j <-> same x k j) /\
    (b = true /\ (exists n, locOf x h = Some (old, n) /\
       (forall k, locOf x' k = if decide (same x h k) then Some (new, n) else locOf x k))
     \/ b = false /\ fst <$> locOf x h <> Some old /\ (forall k, locOf x' k = locOf x k));
  remove_law x h : index_wf x -> exists x', ixRemove h x = (Ok (ixPeek x h), x') /\ index_wf x' /\
    (forall k j, same x' k j <-> same x k j) /\
    (forall k, locOf x' k = if decide (same x h k) then None else locOf x k);
  removeIfMatch_law x h a : index_wf x ->
    exists x' b, ixRemoveIfMatch h a x = (Ok b, x') /\ index_wf x' /\
    (forall k j, same x' k j <-> same x k j) /\
    (b = true /\ fst <$> locOf x h = Some a /\
       (forall k, locOf x' k = if decide (same x h k) then None else locOf x k)
     \/ b = false /\ fst <$> locOf x h <> Some a /\ (forall k, locOf x' k = locOf x k));
  resetIndex_law x : index_wf x -> exists x', resetIndex x = (Ok tt, x') /\ index_wf x' /\
    (forall k j, same x' k j <-> same x k j) /\ (forall k, locOf x' k = None)
}.

(** ** [SparseMapIndex] *)

Module SparseMap.

Inductive ExtraField : Type := kTotalHits | kItemHitHistory.

Record t : Type := mk {
  numBucketMaps_ : Z;
  numBucketMapsPerMutex_ : Z;
  extraField_ : ExtraField;
  bucketMaps_ : list (gmap Z ItemRecord);
  unAccessedItems_ : Z
}.

Definition set_maps (m : list (gmap Z ItemRecord)) (x : t) : t :=
  mk (numBucketMaps_ x) (numBucketMapsPerMutex_ x) (extraField_ x) m (unAccessedItems_ x).
Definition set_unaccessed (n : Z) (x : t) : t :=
  mk (numBucketMaps_ x) (numBucketMapsPerMutex_ x) (extraField_ x) (bucketMaps_ x) n.

Definition make (numBucketMaps numBucketMapsPerMutex : Z) (e : ExtraField) : t :=
  mk numBucketMaps numBucketMapsPerMutex e (replicate (Z.to_nat numBucketMaps) ∅) 0.

(** [safeInc]. *)
Definition safeInc (val : Z) : Z := if val <? 255 then val + 1 else val.

Definition bucketMap (x : t) (hash : Z) : Z := Z.land (Z.shiftr hash 32) (numBucketMaps_ x - 1).
Definition subkey (hash : Z) : Z := Z.land hash (Z.ones 32).

(** [getMap]: an index past the array has no defined meaning. *)
Definition getMap (hash : Z) : M t (gmap Z ItemRecord) :=
  fun x => match bucketMaps_ x !! Z.to_nat (bucketMap x hash) with
           | Some m => (Ok m, x)
           | None => (Throw UndefinedBehavior, x)
           end.
Definition putMap (hash : Z) (m : gmap Z ItemRecord) : M t unit :=
  modify (fun x => set_maps (<[Z.to_nat (bucketMap x hash) := m]> (bucketMaps_ x)) x).

(** [__builtin_popcount] of a byte. *)
Definition popcount8 (b : Z) : Z := sumZ ((fun i => Z.b2z (Z.testbit b i)) <$> seqZ 0 8).

Definition totalHitsOf (e : ExtraField) (r : ItemRecord) : Z :=
  match e with
  | kTotalHits => extra r
  | kItemHitHistory => Z.max (popcount8 (extra r)) (currentHits r)
  end.

Definition trackRemove (r : ItemRecord) : M t unit :=
  modify (fun x => if totalHitsOf (extraField_ x) r =? 0
                   then set_unaccessed (u64 (unAccessedItems_ x + 1)) x else x).

Definition lookup (key : Z) : M t (option ItemRecord) :=
  let! m := getMap key in
  match m !! subkey key with
  | Some r =>
      let! e := gets extraField_ in
      let ex := match e with kTotalHits => safeInc (extra r) | kItemHitHistory => extra r end in
      do! putMap key (<[subkey key := mkRecord (address r) (sizeHint r) ex (safeInc (currentHits r))]> m) in
      ret (Some r)
  | None => ret None
  end.

Definition peek (x : t) (key : Z) : option ItemRecord :=
  match bucketMaps_ x !! Z.to_nat (bucketMap x key) with
  | Some m => m !! subkey key
  | None => None
  end.

Definition insert (key addr size : Z) : M t (option ItemRecord) :=
  let! m := getMap key in
  match m !! subkey key with
  | Some r =>
      do! trackRemove r in
      do! putMap key (<[subkey key := mkRecord addr size 0 0]> m) in
      ret (Some r)
  | None =>
      do! putMap key (<[subkey key := mkRecord addr size 0 0]> m) in
      ret None
  end.

Definition insertIfNotExists (key addr size : Z) : M t (option ItemRecord) :=
  let! m := getMap key in
  match m !! subkey key with
  | Some r => ret (Some r)
  | None =>
      do! putMap key (<[subkey key := mkRecord addr size 0 0]> m) in
      ret None
  end.

Definition replaceIfMatch (key newAddress oldAddress : Z) : M t bool :=
  let! m := getMap key in
  match m !! subkey key with
  | Some r =>
      if address r =? oldAddress then
        let! e := gets extraField_ in
        let ex := match e with
                  | kItemHitHistory =>
                      let h := Z.shiftr (extra r) 1 in if 0 <? currentHits r then Z.lor h 128 else h
                  | kTotalHits => extra r
                  end in
        do! putMap key (<[subkey key := mkRecord newAddress (sizeHint r) ex 0]> m) in
        ret true
      else ret false
  | None => ret false
  end.

Definition remove (key : Z) : M t (option ItemRecord) :=
  let! m := getMap key in
  match m !! subkey key with
  | Some r =>
      do! trackRemove r in
      do! putMap key (delete (subkey key) m) in
      ret (Some r)
  | None => ret None
  end.

Definition removeIfMatch (key addr : Z) : M t bool :=
  let! m := getMap key in
  match m !! subkey key with
  | Some r =>
      if address r =? addr then
        do! trackRemove r in
        do! putMap key (delete (subkey key) m) in
        ret true
      else ret false
  | None => ret false
  end.

Definition reset : M t unit :=
  modify (fun x => set_unaccessed 0
    (set_maps (replicate (Z.to_nat (numBucketMaps_ x)) ∅ ++ drop (Z.to_nat (numBucketMaps_ x)) (bucketMaps_ x)) x)).

Definition computeSize (x : t) : Z :=
  sumZ ((fun m => Z.of_nat (size m)) <$> take (Z.to_nat (numBucketMaps_ x)) (bucketMaps_ x)).

(** The thrift objects: one bucket per map, fields signed. *)
Record IndexEntry : Type := mkEntry {
  e_key : Z; e_address : Z; e_sizeHint : Z; e_totalHits : Z; e_currentHits : Z
}.
Record IndexBucket : Type := mkBucket { b_id : Z; b_entries : list IndexEntry }.

Definition s16 (x : Z) : Z := (x + 2 ^ 15) mod 2 ^ 16 - 2 ^ 15.
Definition s8 (x : Z) : Z := (x + 2 ^ 7) mod 2 ^ 8 - 2 ^ 7.

Definition entryOf (kr : Z * ItemRecord) : IndexEntry :=
  mkEntry (s32 kr.1) (s32 (address kr.2)) (s16 (sizeHint kr.2)) (s8 (extra kr.2)) (s8 (currentHits kr.2)).
Definition recordOf (e : IndexEntry) : Z * ItemRecord :=
  (u32 (e_key e), mkRecord (u32 (e_address e)) (u16 (e_sizeHint e)) (u8 (e_totalHits e)) (u8 (e_currentHits e))).

(** The records written, in order. The order within a map is its own. *)
Definition persist (x : t) : list IndexBucket :=
  imap (fun i m => mkBucket (Z.of_nat i) (entryOf <$> map_to_list m))
    (take (Z.to_nat (numBucketMaps_ x)) (bucketMaps_ x)).

(** [try_emplace] keeps an entry that is there already. *)
Definition tryEmplace (m : gmap Z ItemRecord) (kr : Z * ItemRecord) : gmap Z ItemRecord :=
  match m !! kr.1 with Some _ => m | None => <[kr.1 := kr.2]> m end.

Fixpoint recover_loop (n : nat) (bs : list IndexBucket) : M t (list IndexBucket) :=
  match n with
  | O => ret bs
  | S n =>
      match bs with
      | [] => throw RuntimeError
      | b :: bs =>
          let! x := get in
          do! Prelude.guard (numBucketMaps_ x <=? u32 (b_id b)) InvalidArgument in
          match bucketMaps_ x !! Z.to_nat (u32 (b_id b)) with
          | None => throw UndefinedBehavior
          | Some m =>
              do! modify (set_maps (<[Z.to_nat (u32 (b_id b)) :=
                             foldl tryEmplace m (recordOf <$> b_entries b)]> (bucketMaps_ x))) in
              recover_loop n bs
          end
      end
  end.

(** Reading past the last record throws. The records not read are left. *)
Definition recover (bs : list IndexBucket) : M t (list IndexBucket) :=
  let! x := get in
  do! (if 0 <? computeSize x then reset else ret tt) in
  recover_loop (Z.to_nat (numBucketMaps_ x)) bs.

End SparseMap.

#[export] Instance SparseMap_index : Index SparseMap.t := {|
  ixLookup := SparseMap.lookup;
  ixPeek := SparseMap.peek;
  ixInsert := SparseMap.insert;
  ixInsertIfNotExists := SparseMap.insertIfNotExists;
  ixReplaceIfMatch := SparseMap.replaceIfMatch;
  ixRemove := SparseMap.remove;
  ixRemoveIfMatch := SparseMap.removeIfMatch;
  resetIndex := SparseMap.reset
|}.

(** ** The sparse-map index keeps the laws of an index *)

Module SparseMapProofs.
Import SparseMap.

(** The fields of a record and its key fit their widths. *)
Definition record_ok (kr : Z * ItemRecord) : Prop :=
  is_u32 kr.1 /\ is_u32 (address kr.2) /\ 0 <= sizeHint kr.2 < 2 ^ 16 /\
  is_u8 (extra kr.2) /\ is_u8 (currentHits kr.2).

(** The number of bucket maps is a power of two. *)
Record wf (x : t) : Prop := {
  wf_pow : exists k, 0 <= k /\ numBucketMaps_ x = 2 ^ k;
  wf_len : zlen (bucketMaps_ x) = numBucketMaps_ x;
  wf_recs : forall m k r, m ∈ bucketMaps_ x -> m !! k = Some r -> record_ok (k, r)
}.

Definition sameEntry (x : t) (h k : Z) : Prop := bucketMap x h = bucketMap x k /\ subkey h = subkey k.

#[global] Instance sameEntry_dec (x : t) (h k : Z) : Decision (sameEntry x h k).
Proof. unfold sameEntry. apply _. Defined.

#[global] Instance sameEntry_equiv (x : t) : Equivalence (sameEntry x).
Proof.
  unfold sameEntry. split; [done|intros ? ? []; done|]. intros ? ? ? [] []. split; congruence.
Qed.

Lemma bucketMap_range (x : t) (h : Z) : wf x -> 0 <= bucketMap x h < numBucketMaps_ x.
Proof.
  intros [(k & Hk & E) _ _]. unfold bucketMap. rewrite E.
  replace (2 ^ k - 1) with (Z.ones k) by (rewrite Z.ones_equiv; lia). rewrite Z.land_ones by done.
  apply Z.mod_pos_bound. lia.
Qed.

Lemma map_at (x : t) (h : Z) : wf x -> exists m, bucketMaps_ x !! Z.to_nat (bucketMap x h) = Some m.
Proof.
  intros Hwf. apply lookup_lt_is_Some_2. pose proof (bucketMap_range x h Hwf).
  pose proof (wf_len x Hwf). unfold zlen in *. lia.
Qed.

Lemma getMap_Some (x : t) (h : Z) (m : gmap Z ItemRecord) :
  bucketMaps_ x !! Z.to_nat (bucketMap x h) = Some m -> getMap h x = (Ok m, x).
Proof. intros E. unfold getMap. by rewrite E. Qed.

(** The map of a hash is replaced, other data may change. *)
Lemma put_wf (x y : t) (h : Z) (m : gmap Z ItemRecord) :
  wf x -> numBucketMaps_ y = numBucketMaps_ x ->
  bucketMaps_ y = <[Z.to_nat (bucketMap x h) := m]> (bucketMaps_ x) ->
  (forall k r, m !! k = Some r -> record_ok (k, r)) ->
  wf y /\ (forall k j, sameEntry y k j <-> sameEntry x k j).
Proof.
  intros [Hp Hl Hr] En Em Hm. split.
  - split; [by rewrite En|rewrite Em, En; unfold zlen in *; by rewrite length_insert|].
    intros m' k r Hin. rewrite Em in Hin. apply list_elem_of_lookup in Hin as [i Hi].
    rewrite list_lookup_insert_Some in Hi. destruct Hi as [(_ & <- & _)|[_ Hi]]; [apply Hm|].
    apply Hr. by eapply list_elem_of_lookup_2.
  - intros k j. unfold sameEntry, bucketMap. by rewrite En.
Qed.

Lemma peek_put (x y : t) (h k : Z) (m m' : gmap Z ItemRecord) :
  wf x -> numBucketMaps_ y = numBucketMaps_ x ->
  bucketMaps_ x !! Z.to_nat (bucketMap x h) = Some m ->
  bucketMaps_ y = <[Z.to_nat (bucketMap x h) := m']> (bucketMaps_ x) ->
  peek y k = if decide (bucketMap x h = bucketMap x k) then m' !! subkey k else peek x k.
Proof.
  intros Hwf En Em Ey. unfold peek. replace (bucketMap y k) with (bucketMap x k) by (unfold bucketMap; by rewrite En).
  rewrite Ey. destruct (decide (bucketMap x h = bucketMap x k)) as [<-|Hne].
  - rewrite list_lookup_insert_eq; [done|by eapply lookup_lt_Some].
  - rewrite list_lookup_insert_ne; [done|]. pose proof (bucketMap_range x h Hwf).
    pose proof (bucketMap_range x k Hwf). lia.
Qed.

(** Storing or deleting the record of a hash. *)
Lemma peek_update (x y : t) (h k : Z) (m : gmap Z ItemRecord) (o : option ItemRecord) :
  wf x -> numBucketMaps_ y = numBucketMaps_ x ->
  bucketMaps_ x !! Z.to_nat (bucketMap x h) = Some m ->
  bucketMaps_ y = <[Z.to_nat (bucketMap x h) := partial_alter (fun _ => o) (subkey h) m]> (bucketMaps_ x) ->
  peek y k = if decide (sameEntry x h k) then o else peek x k.
Proof.
  intros Hwf En Em Ey. rewrite (peek_put x y h k _ _ Hwf En Em Ey).
  destruct (decide (bucketMap x h = bucketMap x k)) as [Eb|Hne].
  - destruct (decide (subkey h = subkey k)) as [Es|Hs].
    + rewrite decide_True by done. by rewrite <- Es, lookup_partial_alter_eq.
    + rewrite lookup_partial_alter_ne by done. rewrite decide_False by (unfold sameEntry; tauto).
      unfold peek. rewrite <- Eb, Em. done.
  - rewrite decide_False by (unfold sameEntry; tauto). done.
Qed.

Lemma peek_at (x : t) (h : Z) (m : gmap Z ItemRecord) :
  bucketMaps_ x !! Z.to_nat (bucketMap x h) = Some m -> peek x h = m !! subkey h.
Proof. intros E. unfold peek. by rewrite E. Qed.

End SparseMapProofs.
Import SparseMapProofs.

Lemma loc_update (x y : SparseMap.t) (h k : Z) (o : option ItemRecord) :
  SparseMap.peek y k = (if decide (sameEntry x h k) then o else SparseMap.peek x k) ->
  locOf y k = if decide (sameEntry x h k) then (fun r => (address r, sizeHint r)) <$> o else locOf x k.
Proof. intros E. unfold locOf, ixPeek, SparseMap_index. rewrite E. by destruct (decide _). Qed.

(** Every operation but [reset] ends with the record of its hash replaced
    (or kept) and nothing else of the maps changed. *)
Lemma op_effect (x y : SparseMap.t) (h : Z) (m : gmap Z ItemRecord) (o : option ItemRecord) :
  wf x -> SparseMap.bucketMaps_ x !! Z.to_nat (SparseMap.bucketMap x h) = Some m ->
  SparseMap.numBucketMaps_ y = SparseMap.numBucketMaps_ x ->
  SparseMap.bucketMaps_ y = <[Z.to_nat (SparseMap.bucketMap x h) :=
     partial_alter (fun _ => o) (SparseMap.subkey h) m]> (SparseMap.bucketMaps_ x) ->
  (forall r, o = Some r -> record_ok (SparseMap.subkey h, r)) ->
  wf y /\ (forall k j, sameEntry y k j <-> sameEntry x k j) /\
  (forall k, locOf y k = if decide (sameEntry x h k)
                         then (fun r => (address r, sizeHint r)) <$> o else locOf x k).
Proof.
  intros Hwf Em En Ey Ho. destruct (put_wf x y h _ Hwf En Ey) as [Hy Hs].
  { intros k r. destruct (decide (SparseMap.subkey h = k)) as [<-|Hne].
    - rewrite lookup_partial_alter_eq. apply Ho.
    - rewrite lookup_partial_alter_ne by done. apply (wf_recs x Hwf). by eapply list_elem_of_lookup_2. }
  split; [done|]. split; [done|]. intros k. apply loc_update. by eapply peek_update.
Qed.

(** The record stored is the one that was there, as far as it is read. *)
Lemma loc_same (x : SparseMap.t) (h k : Z) (r r' : ItemRecord) :
  SparseMap.peek x h = Some r -> address r' = address r -> sizeHint r' = sizeHint r ->
  (if decide (sameEntry x h k) then Some (address r', sizeHint r') else locOf x k) = locOf x k.
Proof.
  intros Hp Ea Eh. destruct (decide (sameEntry x h k)) as [[Eb Es]|]; [|done].
  unfold locOf, ixPeek, SparseMap_index. replace (SparseMap.peek x k) with (SparseMap.peek x h).
  - by rewrite Hp, Ea, Eh.
  - unfold SparseMap.peek. by rewrite Eb, Es.
Qed.

Lemma trackRemove_eq (r : ItemRecord) (x : SparseMap.t) :
  exists y, SparseMap.trackRemove r x = (Ok tt, y) /\
    SparseMap.numBucketMaps_ y = SparseMap.numBucketMaps_ x /\
    SparseMap.bucketMaps_ y = SparseMap.bucketMaps_ x.
Proof.
  eexists. split; [reflexivity|]. by destruct (_ =? _).
Qed.

(** The state the goal speaks of is what [op_effect] describes. *)
Ltac effect x h m :=
  lazymatch goal with
  | |- _ ?y /\ _ => edestruct (op_effect x y h m) as (Hy & Hs & Hl);
      [done|done|cbn; congruence| | |split; [exact Hy|]; split; [exact Hs|]]
  end.

Lemma subkey_u32 (h : Z) : is_u32 (SparseMap.subkey h).
Proof. unfold SparseMap.subkey, is_u32. rewrite Z.land_ones by lia. apply Z.mod_pos_bound. lia. Qed.

(** A record that is there already. *)
Lemma record_at (x : SparseMap.t) (h : Z) (m : gmap Z ItemRecord) (r : ItemRecord) :
  wf x -> SparseMap.bucketMaps_ x !! Z.to_nat (SparseMap.bucketMap x h) = Some m ->
  m !! SparseMap.subkey h = Some r -> record_ok (SparseMap.subkey h, r).
Proof. intros Hwf Em Er. apply (wf_recs x Hwf m); [|done]. by eapply list_elem_of_lookup_2. Qed.

Lemma safeInc_u8 (n : Z) : is_u8 n -> is_u8 (SparseMap.safeInc n).
Proof. unfold is_u8, SparseMap.safeInc. intros Hn. destruct (Z.ltb_spec n 255); lia. Qed.

Lemma new_record (h a n : Z) : is_u32 a -> 0 <= n < 2 ^ 16 -> record_ok (SparseMap.subkey h, mkRecord a n 0 0).
Proof. intros Ha Hn. split; [apply subkey_u32|]. cbn. unfold is_u8. split_and!; try done; apply Hn. Qed.

(** The history of an item, one window later. *)
Lemma history_u8 (e c : Z) : is_u8 e -> is_u8 (if 0 <? c then Z.lor (Z.shiftr e 1) 128 else Z.shiftr e 1).
Proof.
  unfold is_u8. intros He. assert (Hs : 0 <= Z.shiftr e 1 < 2 ^ 7).
  { rewrite Z.shiftr_div_pow2 by lia. change (2 ^ 1) with 2. split; [apply Z.div_pos; lia|apply Z.div_lt_upper_bound; lia]. }
  destruct (0 <? c); [|lia]. split; [apply Z.lor_nonneg; lia|].
  change (2 ^ 8) with 256. assert (Z.lor (Z.shiftr e 1) 128 < 2 ^ 8); [|lia].
  apply Z.log2_lt_cancel. rewrite Z.log2_pow2, Z.log2_lor by lia.
  apply Z.max_lub_lt; [|done]. destruct (Z.eq_dec (Z.shiftr e 1) 0) as [->|]; [done|].
  apply Z.lt_le_trans with 7; [|lia]. apply Z.log2_lt_pow2; lia.
Qed.

#[export] Program Instance SparseMap_laws : IndexLaws SparseMap.t := {|
  index_wf := wf;
  same := sameEntry
|}.
Next Obligation.
  intros x h k [Eb Es]. unfold ixPeek, SparseMap_index, SparseMap.peek. by rewrite Eb, Es.
Qed.
Next Obligation.
  intros x h Hwf. destruct (map_at x h Hwf) as [m Em]. pose proof (peek_at x h m Em) as Hp.
  unfold ixLookup, ixPeek, SparseMap_index, SparseMap.lookup. unfold bind at 1. rewrite (getMap_Some _ _ _ Em), Hp.
  destruct (m !! SparseMap.subkey h) as [r|] eqn:Er; [|by eexists].
  cbn. eexists. split; [reflexivity|].
  pose proof (record_at x h m r Hwf Em Er) as (Rk & Ra & Rs & Re & Rc). effect x h m; [reflexivity| |].
  { intros r' [= <-]. split_and!; cbn; try done; try apply Rs; [destruct (SparseMap.extraField_ x); [by apply safeInc_u8|done]|by apply safeInc_u8]. }
  intros k. etrans; [exact (Hl k)|]. by apply (loc_same _ _ _ r).
Qed.
Next Obligation.
  intros x h a n Hwf Ha Hn. destruct (map_at x h Hwf) as [m Em]. pose proof (peek_at x h m Em) as Hp.
  unfold ixInsert, ixPeek, SparseMap_index, SparseMap.insert. unfold bind at 1. rewrite (getMap_Some _ _ _ Em), Hp.
  destruct (m !! SparseMap.subkey h) as [r|] eqn:Er.
  - destruct (trackRemove_eq r x) as (y & R & E1 & E2). unfold bind at 1. rewrite R.
    eexists. split; [reflexivity|].
    effect x h m; [cbn; unfold SparseMap.bucketMap; rewrite E1, E2; reflexivity| |exact Hl].
    intros r' [= <-]. by apply new_record.
  - eexists. split; [reflexivity|]. effect x h m; [reflexivity| |exact Hl]. intros r' [= <-]. by apply new_record.
Qed.
Next Obligation.
  intros x h a n Hwf Ha Hn. destruct (map_at x h Hwf) as [m Em]. pose proof (peek_at x h m Em) as Hp.
  unfold ixInsertIfNotExists, ixPeek, SparseMap_index, SparseMap.insertIfNotExists.
  unfold bind at 1. rewrite (getMap_Some _ _ _ Em), Hp. destruct (m !! SparseMap.subkey h) as [r|] eqn:Er.
  - eexists. split; [reflexivity|]. split; [done|]. split; [done|]. intros k. rewrite decide_False; [done|]. by intros [_ ?].
  - eexists. split; [reflexivity|]. effect x h m; [reflexivity|intros r' [= <-]; by apply new_record|].
    intros k. etrans; [exact (Hl k)|].
    destruct (decide (sameEntry x h k)); [by rewrite decide_True|by rewrite decide_False by tauto].
Qed.
Next Obligation.
  intros x h new old Hwf Hnew. destruct (map_at x h Hwf) as [m Em]. pose proof (peek_at x h m Em) as Hp.
  unfold ixReplaceIfMatch, SparseMap_index, SparseMap.replaceIfMatch.
  unfold bind at 1. rewrite (getMap_Some _ _ _ Em).
  assert (Hloc : locOf x h = (fun r => (address r, sizeHint r)) <$> (m !! SparseMap.subkey h)).
  { unfold locOf, ixPeek, SparseMap_index. by rewrite Hp. }
  destruct (m !! SparseMap.subkey h) as [r|] eqn:Er.
  - destruct (Z.eqb_spec (address r) old) as [<-|Hne].
    + cbn. eexists _, _. split; [reflexivity|].
      pose proof (record_at x h m r Hwf Em Er) as (Rk & Ra & Rs & Re & Rc). effect x h m; [reflexivity| |].
      { intros r' [= <-]. split_and!; cbn; try done; try apply Rs. destruct (SparseMap.extraField_ x); [done|].
        by apply history_u8. }
      left. split; [done|]. exists (sizeHint r). split; [exact Hloc|exact Hl].
    + eexists _, _. split; [reflexivity|]. split; [done|]. split; [done|]. right. split; [done|].
      split; [|done]. change (fst <$> locOf x h <> Some old). rewrite Hloc. cbn. congruence.
  - eexists _, _. split; [reflexivity|]. split; [done|]. split; [done|]. right. split; [done|].
    split; [|done]. change (fst <$> locOf x h <> Some old). by rewrite Hloc.
Qed.
Next Obligation.
  intros x h Hwf. destruct (map_at x h Hwf) as [m Em]. pose proof (peek_at x h m Em) as Hp.
  unfold ixRemove, ixPeek, SparseMap_index, SparseMap.remove. unfold bind at 1. rewrite (getMap_Some _ _ _ Em), Hp.
  destruct (m !! SparseMap.subkey h) as [r|] eqn:Er.
  - destruct (trackRemove_eq r x) as (y & R & E1 & E2). unfold bind at 1. rewrite R.
    eexists. split; [reflexivity|].
    effect x h m; [cbn; unfold SparseMap.bucketMap; rewrite E1, E2; reflexivity|done|exact Hl].
  - eexists. split; [reflexivity|]. split; [done|]. split; [done|]. intros k.
    destruct (decide (sameEntry x h k)) as [[Eb Es]|]; [|done].
    unfold locOf, ixPeek, SparseMap_index. replace (SparseMap.peek x k) with (SparseMap.peek x h); [by rewrite Hp|].
    unfold SparseMap.peek. by rewrite Eb, Es.
Qed.
Next Obligation.
  intros x h a Hwf. destruct (map_at x h Hwf) as [m Em]. pose proof (peek_at x h m Em) as Hp.
  unfold ixRemoveIfMatch, SparseMap_index, SparseMap.removeIfMatch.
  unfold bind at 1. rewrite (getMap_Some _ _ _ Em).
  assert (Hloc : locOf x h = (fun r => (address r, sizeHint r)) <$> (m !! SparseMap.subkey h)).
  { unfold locOf, ixPeek, SparseMap_index. by rewrite Hp. }
  destruct (m !! SparseMap.subkey h) as [r|] eqn:Er.
  - destruct (Z.eqb_spec (address r) a) as [<-|Hne].
    + destruct (trackRemove_eq r x) as (y & R & E1 & E2). unfold bind at 1. rewrite R.
      eexists _, _. split; [reflexivity|].
      effect x h m; [cbn; unfold SparseMap.bucketMap; rewrite E1, E2; reflexivity|done|].
      left. split; [done|]. split; [|exact Hl]. change (fst <$> locOf x h = Some (address r)). by rewrite Hloc.
    + eexists _, _. split; [reflexivity|]. split; [done|]. split; [done|]. right. split; [done|].
      split; [|done]. change (fst <$> locOf x h <> Some a). rewrite Hloc. cbn. congruence.
  - eexists _, _. split; [reflexivity|]. split; [done|]. split; [done|]. right. split; [done|].
    split; [|done]. change (fst <$> locOf x h <> Some a). by rewrite Hloc.
Qed.
Next Obligation.
  intros x Hwf. eexists. split; [reflexivity|]. pose proof Hwf as [Hp Hl Hr].
  assert (Ed : drop (Z.to_nat (SparseMap.numBucketMaps_ x)) (SparseMap.bucketMaps_ x) = []).
  { apply drop_ge. unfold zlen in Hl. lia. }
  rewrite Ed, app_nil_r. split; [|split; [done|]].
  - split; [done| |].
    + cbn. rewrite zlen_replicate. destruct Hp as (k & Hk & ->). lia.
    + cbn. intros m k r (-> & _)%elem_of_replicate. by rewrite lookup_empty.
  - intros k. unfold locOf, ixPeek, SparseMap_index, SparseMap.peek. cbn.
    destruct (replicate _ _ !! _) as [m|] eqn:E; [|done]. apply lookup_replicate in E as [-> _]. done.
Qed.

(** ** Persisting and recovering *)

Module SparseMapPersist.
Import SparseMap.

Lemma wrap_signed (x n : Z) : 0 < n -> 0 <= x < 2 ^ n -> ((x + 2 ^ (n - 1)) mod 2 ^ n - 2 ^ (n - 1)) mod 2 ^ n = x.
Proof.
  intros Hn Hx. rewrite Zminus_mod, Zmod_mod, <- Zminus_mod.
  replace (x + 2 ^ (n - 1) - 2 ^ (n - 1)) with x by lia. by apply Z.mod_small.
Qed.

Lemma record_entry (kr : Z * ItemRecord) : record_ok kr -> recordOf (entryOf kr) = kr.
Proof.
  destruct kr as [k [a s e c]]. unfold record_ok, is_u32, is_u8. cbn. intros (Hk & Ha & Hs & He & Hc).
  unfold recordOf, entryOf, u32, u16, u8, s32, s16, s8. cbn.
  f_equal; [by apply (wrap_signed k 32)|]. f_equal;
    [by apply (wrap_signed a 32)|by apply (wrap_signed s 16)|by apply (wrap_signed e 8)|by apply (wrap_signed c 8)].
Qed.

Lemma foldl_tryEmplace (l : list (Z * ItemRecord)) (acc : gmap Z ItemRecord) (k : Z) :
  NoDup l.*1 -> (forall j, j ∈ l.*1 -> acc !! j = None) ->
  foldl tryEmplace acc l !! k = match (list_to_map l : gmap Z ItemRecord) !! k with
                                | Some r => Some r
                                | None => acc !! k
                                end.
Proof.
  revert acc. induction l as [|[j r] l IH]; intros acc Hd Hn; [done|].
  cbn in Hd. apply NoDup_cons in Hd as [Hj Hd]. cbn [foldl].
  assert (Ea : acc !! j = None) by (apply Hn; by left).
  unfold tryEmplace at 2. cbn. rewrite Ea. rewrite IH; [|done|].
  - destruct (decide (k = j)) as [->|Hne].
    + rewrite !lookup_insert_eq. by rewrite (not_elem_of_list_to_map_1 l).
    + by rewrite !lookup_insert_ne.
  - intros i Hi. rewrite lookup_insert_ne by (by intros ->). apply Hn. by right.
Qed.

Lemma rebuild_map (m : gmap Z ItemRecord) :
  (forall kr, kr ∈ map_to_list m -> record_ok kr) ->
  foldl tryEmplace ∅ (recordOf <$> (entryOf <$> map_to_list m)) = m.
Proof.
  intros Hok. assert (E : recordOf <$> (entryOf <$> map_to_list m) = map_to_list m).
  { rewrite <- list_fmap_compose. rewrite <- (list_fmap_id (map_to_list m)) at 2.
    apply list_fmap_ext. intros i kr Hi. cbn. apply record_entry, Hok. by eapply list_elem_of_lookup_2. }
  rewrite E. apply map_eq. intros k. rewrite foldl_tryEmplace.
  - rewrite list_to_map_to_list, lookup_empty. by destruct (m !! k).
  - apply NoDup_fst_map_to_list.
  - intros. apply lookup_empty.
Qed.

(** The loop, when the maps before [length front] are done and the others
    are empty. *)
Lemma recover_loop_ok (back : list (gmap Z ItemRecord)) (front : list (gmap Z ItemRecord))
    (rest : list IndexBucket) (y : t) :
  (forall m kr, m ∈ back -> kr ∈ map_to_list m -> record_ok kr) ->
  numBucketMaps_ y = Z.of_nat (length front + length back) -> numBucketMaps_ y <= 2 ^ 32 ->
  bucketMaps_ y = front ++ replicate (length back) ∅ ->
  exists y', recover_loop (length back)
      (imap (fun i m => mkBucket (Z.of_nat (length front + i)) (entryOf <$> map_to_list m)) back ++ rest) y
    = (Ok rest, y') /\ bucketMaps_ y' = front ++ back /\ numBucketMaps_ y' = numBucketMaps_ y.
Proof.
  revert front y. induction back as [|m back IH]; intros front y Hok Hn Hle Hm.
  - cbn in *. eexists. split; [reflexivity|done].
  - cbn [length recover_loop imap app]. unfold bind at 1, get at 1. cbn [b_id b_entries]. rewrite Nat.add_0_r.
    cbn [length] in Hn. rewrite u32_small by (unfold is_u32; lia).
    rewrite (proj2 (Z.leb_gt _ _)) by lia. unfold bind at 1. cbn [Prelude.guard]. unfold ret at 1.
    rewrite Hm, Nat2Z.id, lookup_app_r, Nat.sub_diag by done. cbn [length replicate lookup list_lookup].
    change ((∅ :: replicate (length back) ∅) !! 0%nat) with (Some (∅ : gmap Z ItemRecord)). cbv iota beta.
    rewrite rebuild_map by (intros; eapply Hok; [by left|done]).
    unfold bind at 1, modify.
    destruct (IH (front ++ [m]) (set_maps (front ++ m :: replicate (length back) ∅) y)) as (y' & R & E1 & E2).
    + intros; eapply Hok; [by right|done].
    + cbn. rewrite length_app. cbn. rewrite Hn. lia.
    + done.
    + cbn. by rewrite <- app_assoc.
    + exists y'. split; [|split; [by rewrite E1, <- app_assoc|done]]. rewrite <- R. clear R.
      f_equal.
      * f_equal. apply imap_ext. intros i x _. cbn. f_equal. rewrite length_app. cbn. lia.
      * f_equal. rewrite insert_app_r_alt, Nat.sub_diag by done. done.
Qed.

Lemma size_zero_empty (ms : list (gmap Z ItemRecord)) :
  sumZ ((fun m => Z.of_nat (size m)) <$> ms) <= 0 -> ms = replicate (length ms) ∅.
Proof.
  induction ms as [|m ms IH]; [done|]. cbn [fmap list_fmap length replicate].
  change (sumZ (Z.of_nat (size m) :: ((fun m => Z.of_nat (size m)) <$> ms)))
    with (Z.of_nat (size m) + sumZ ((fun m => Z.of_nat (size m)) <$> ms)).
  assert (0 <= sumZ ((fun m : gmap Z ItemRecord => Z.of_nat (size m)) <$> ms)).
  { apply sumZ_nonneg. intros x (n & -> & _)%list_elem_of_fmap. lia. }
  intros Hs. f_equal; [apply map_size_empty_inv; lia|apply IH; lia].
Qed.

End SparseMapPersist.
Import SparseMapPersist.

(** C38. Persisting the index and recovering it gives the same index: every
    bucket map comes back with exactly its entries (addresses, size hints and
    hit counts survive the signed thrift fields), whatever the index recovered
    into held before, and the reader is left after the index's records. *)
Theorem index_persist_recover (x y : SparseMap.t) (rest : list SparseMap.IndexBucket) :
  SparseMapProofs.wf x -> SparseMapProofs.wf y ->
  SparseMap.numBucketMaps_ y = SparseMap.numBucketMaps_ x -> SparseMap.numBucketMaps_ x <= 2 ^ 32 ->
  exists y', SparseMap.recover (SparseMap.persist x ++ rest) y = (Ok rest, y') /\
    SparseMap.bucketMaps_ y' = SparseMap.bucketMaps_ x.
Proof.
  intros [Px Lx Rx] [Py Ly _] En Hle.
  assert (Hok : forall m kr, m ∈ SparseMap.bucketMaps_ x -> kr ∈ map_to_list m -> record_ok kr).
  { intros m [k r] Hm Hkr. apply elem_of_map_to_list in Hkr. by apply (Rx m). }
  assert (Elx : Z.to_nat (SparseMap.numBucketMaps_ x) = length (SparseMap.bucketMaps_ x)) by (unfold zlen in Lx; lia).
  assert (Hlen : length (SparseMap.bucketMaps_ y) = length (SparseMap.bucketMaps_ x)) by (unfold zlen in *; lia).
  assert (Hy : exists y1, (if 0 <? SparseMap.computeSize y then SparseMap.reset else ret tt) y = (Ok tt, y1) /\
    SparseMap.numBucketMaps_ y1 = SparseMap.numBucketMaps_ x /\
    SparseMap.bucketMaps_ y1 = replicate (length (SparseMap.bucketMaps_ x)) ∅).
  { destruct (Z.ltb_spec 0 (SparseMap.computeSize y)) as [Hs|Hs].
    - eexists. split; [reflexivity|]. cbn. split; [done|]. rewrite En, Elx.
      rewrite drop_ge by (rewrite Hlen; done). by rewrite app_nil_r.
    - exists y. split; [done|]. split; [done|]. unfold SparseMap.computeSize in Hs.
      rewrite take_ge in Hs by lia. rewrite <- Hlen. by apply size_zero_empty. }
  destruct Hy as (y1 & R & En1 & Em1). unfold SparseMap.recover. unfold bind at 1, get at 1. unfold bind at 1.
  rewrite R. unfold SparseMap.persist. rewrite En, Elx, take_ge by done.
  destruct (recover_loop_ok (SparseMap.bucketMaps_ x) [] rest y1) as (y' & R' & E1 & _); [done|..].
  - cbn. rewrite En1. unfold zlen in Lx. lia.
  - by rewrite En1.
  - done.
  - exists y'. split; [exact R'|done].
Qed.

Definition ixDemo : SparseMap.t :=
  SparseMap.mk 2 1 SparseMap.kTotalHits
    [{[ 7 := mkRecord (2 ^ 32 - 1) 65535 255 200 ]}; {[ 2 ^ 32 - 1 := mkRecord 3 1 0 0 ]}] 0.

Lemma ixDemo_wf : SparseMapProofs.wf ixDemo.
Proof.
  split; [exists 1; by cbn|reflexivity|]. intros m k r Hm Hr. cbn in Hm.
  repeat (apply elem_of_cons in Hm as [->|Hm]); [..|by apply not_elem_of_nil in Hm];
    apply lookup_singleton_Some in Hr as [<- <-]; unfold record_ok, is_u32, is_u8; cbn; lia.
Qed.

Lemma index_persist_recover_witness :
  exists y', SparseMap.recover (SparseMap.persist ixDemo) (SparseMap.make 2 1 SparseMap.kTotalHits)
    = (Ok [], y') /\ SparseMap.bucketMaps_ y' = SparseMap.bucketMaps_ ixDemo.
Proof.
  replace (SparseMap.persist ixDemo) with (SparseMap.persist ixDemo ++ []) by apply app_nil_r.
  apply (index_persist_recover ixDemo (SparseMap.make 2 1 SparseMap.kTotalHits) []).
  - exact ixDemo_wf.
  - split; [exists 1; by cbn|reflexivity|]. cbn. intros m k r Hm.
    repeat (apply elem_of_cons in Hm as [->|Hm]); [..|by apply not_elem_of_nil in Hm]; by rewrite lookup_empty.
  - reflexivity.
  - cbn. lia.
Defined.
