(* ===== verification/RegionManager.v ===== *)
(** * The region manager

    [src/cachelib/navy/block_cache/RegionManager.{h,cpp}]: the regions of a
    block cache, the clean ones that allocators take, the pool of buffers they
    are filled in, and the jobs that flush filled regions to the device and
    reclaim regions the policy evicts.

    A task given to a worker thread is an entry of [jobs_]; when and in which
    order the jobs run is up to the clients of this file. The callbacks to the
    block cache ([evictCb_], [cleanupCb_]) change the state of the block cache,
    of which the region manager is a part: they are computations over a type
    [S] with a [Lens] to the region manager. Condition variables, worker
    identities and the clock's use in statistics have no code here. *)

From S2P Require Import Prelude Bytes BloomFilter Region RegionPolicy.
From stdpp Require Import base tactics numbers list.

#[local] Open Scope Z_scope.
#[local] Open Scope cachelib_scope.

(** ** What the region manager needs of a device

    [bdRead] is the read of any range ([Buffer read(offset, size)]). The laws
    are those of a device whose reads do not fail; a write may. *)
Class BlockDevice (D : Type) : Type := {
  bdWrite : Z -> bytes -> M D bool;
  bdRead : Z -> Z -> M D (option bytes);
  bdFlush : M D unit
}.

Class BlockDeviceLaws (D : Type) `{BlockDevice D} : Type := {
  bd_holds : D -> Z -> bytes -> Prop;
  bd_can : D -> Z -> Z -> Prop;
  bd_read_law d off bs i n :
    bd_holds d off bs -> bd_can d off (zlen bs) -> 0 <= i -> 0 <= n -> i + n <= zlen bs ->
    exists d', bdRead (off + i) n d = (Ok (Some (peek bs i n)), d') /\
      (forall o c, bd_holds d o c -> bd_holds d' o c) /\ (forall o m, bd_can d o m -> bd_can d' o m);
  bd_write_law d off bs :
    bd_can d off (zlen bs) ->
    exists ok d', bdWrite off bs d = (Ok ok, d') /\ (ok = true -> bd_holds d' off bs) /\
      (forall o c, bd_holds d o c -> o + zlen c <= off \/ off + zlen bs <= o -> bd_holds d' o c) /\
      (forall o m, bd_can d o m -> bd_can d' o m);
  bd_flush_law d :
    exists d', bdFlush d = (Ok tt, d') /\
      (forall o c, bd_holds d o c -> bd_holds d' o c) /\ (forall o m, bd_can d o m -> bd_can d' o m)
}.

(** ** State *)

Inductive Job : Type :=
| JReclaim
| JFlush (rid : Z).

#[export] Instance Job_eq_dec : EqDecision Job.
Proof. solve_decision. Defined.

Inductive RMCounter : Type :=
| externalFragmentation_ | physicalWrittenCount_ | reclaimRegionErrors_ | cleanRegionRetries_
| numReclaimScheduled_ | reclaimCount_ | evictedCount_ | readDuringReclaimCount_
| numInMemBufActive_ | numInMemBufWaitingFlush_ | numInMemBufFlushRetries_
| numInMemBufFlushFailures_.

#[export] Instance RMCounter_eq_dec : EqDecision RMCounter.
Proof. solve_decision. Defined.

Record RMConfig : Type := mkRMConfig {
  numPriorities_ : Z;
  inMemBufFlushRetryLimit_ : nat;
  numRegions_ : Z;
  rmRegionSize_ : Z;
  baseOffset_ : Z;
  numCleanRegions_ : Z;
  workerFlushAsync_ : bool;
  allowReadDuringReclaim_ : bool;
  cleanRegionFastPath_ : bool
}.

Section RegionManager.
Context {P D : Type} `{EvictionPolicy P} `{BlockDevice D}.

(** A null pointer in the pool of buffers is [None]. *)
Record RM : Type := mkRM {
  cfg : RMConfig;
  device_ : D;
  policy_ : P;
  regions_ : list Region;
  cleanRegions_ : list Z;
  reclaimsOutstanding_ : Z;
  cleanRegionsEmpty_ : bool;
  seqNumber_ : Z;
  buffers_ : list (option bytes);
  jobs_ : list Job;
  rmCounters_ : RMCounter -> Z;
  clock_ : Z
}.

Definition set_device (d : D) (s : RM) : RM :=
  mkRM (cfg s) d (policy_ s) (regions_ s) (cleanRegions_ s) (reclaimsOutstanding_ s)
    (cleanRegionsEmpty_ s) (seqNumber_ s) (buffers_ s) (jobs_ s) (rmCounters_ s) (clock_ s).
Definition set_policy (p : P) (s : RM) : RM :=
  mkRM (cfg s) (device_ s) p (regions_ s) (cleanRegions_ s) (reclaimsOutstanding_ s)
    (cleanRegionsEmpty_ s) (seqNumber_ s) (buffers_ s) (jobs_ s) (rmCounters_ s) (clock_ s).
Definition set_regions (rs : list Region) (s : RM) : RM :=
  mkRM (cfg s) (device_ s) (policy_ s) rs (cleanRegions_ s) (reclaimsOutstanding_ s)
    (cleanRegionsEmpty_ s) (seqNumber_ s) (buffers_ s) (jobs_ s) (rmCounters_ s) (clock_ s).
Definition set_clean (c : list Z) (outstanding : Z) (isEmpty : bool) (s : RM) : RM :=
  mkRM (cfg s) (device_ s) (policy_ s) (regions_ s) c outstanding
    isEmpty (seqNumber_ s) (buffers_ s) (jobs_ s) (rmCounters_ s) (clock_ s).
Definition set_seq (n : Z) (s : RM) : RM :=
  mkRM (cfg s) (device_ s) (policy_ s) (regions_ s) (cleanRegions_ s) (reclaimsOutstanding_ s)
    (cleanRegionsEmpty_ s) n (buffers_ s) (jobs_ s) (rmCounters_ s) (clock_ s).
Definition set_buffers (b : list (option bytes)) (s : RM) : RM :=
  mkRM (cfg s) (device_ s) (policy_ s) (regions_ s) (cleanRegions_ s) (reclaimsOutstanding_ s)
    (cleanRegionsEmpty_ s) (seqNumber_ s) b (jobs_ s) (rmCounters_ s) (clock_ s).
Definition set_jobs (j : list Job) (s : RM) : RM :=
  mkRM (cfg s) (device_ s) (policy_ s) (regions_ s) (cleanRegions_ s) (reclaimsOutstanding_ s)
    (cleanRegionsEmpty_ s) (seqNumber_ s) (buffers_ s) j (rmCounters_ s) (clock_ s).
Definition set_rmCounter (c : RMCounter) (v : Z) (s : RM) : RM :=
  mkRM (cfg s) (device_ s) (policy_ s) (regions_ s) (cleanRegions_ s) (reclaimsOutstanding_ s)
    (cleanRegionsEmpty_ s) (seqNumber_ s) (buffers_ s) (jobs_ s)
    (fun k => if decide (k = c) then v else rmCounters_ s k) (clock_ s).

Definition rmCount (c : RMCounter) (d : Z) : M RM unit :=
  modify (fun s => set_rmCounter c (u64 (rmCounters_ s c + d)) s).

(** Computations on a part of the state. *)
Definition onDevice {A} (m : M D A) : M RM A := fun s =>
  let '(r, d) := m (device_ s) in (r, set_device d s).
Definition onPolicy {A} (m : M P A) : M RM A := fun s =>
  let '(r, p) := m (policy_ s) in (r, set_policy p s).

(** [getRegion]; an index past the array has no defined meaning. *)
Definition getRegion (rid : Z) : M RM Region := fun s =>
  match regions_ s !! Z.to_nat rid with
  | Some r => (Ok r, s)
  | None => (Throw UndefinedBehavior, s)
  end.
Definition onRegion {A} (rid : Z) (m : M Region A) : M RM A := fun s =>
  match regions_ s !! Z.to_nat rid with
  | Some r => let '(x, r') := m r in (x, set_regions (<[Z.to_nat rid := r']> (regions_ s)) s)
  | None => (Throw UndefinedBehavior, s)
  end.

(** ** Addresses *)

Definition toAbsolute (s : RM) (ra : RelAddress) : Z :=
  u64 (addr_offset ra + u64 (addr_rid ra * rmRegionSize_ (cfg s))).
Definition toRelative (s : RM) (aa : Z) : RelAddress :=
  mkRel (u32 (aa / rmRegionSize_ (cfg s))) (u32 (aa mod rmRegionSize_ (cfg s))).
Definition physicalOffset (s : RM) (ra : RelAddress) : Z := u64 (baseOffset_ (cfg s) + toAbsolute s ra).
Definition isValidIORange (s : RM) (ofs size : Z) : bool := ofs + size <=? rmRegionSize_ (cfg s).

(** ** The policy *)

Definition evictRegion : M RM Z := onPolicy evict.

Definition touchRegion (rid : Z) : M RM unit :=
  let! r := getRegion rid in
  if hasBuffer r then ret tt
  else let! now := gets clock_ in onPolicy (touch now rid).

Definition trackRegion (rid : Z) : M RM unit :=
  let! r := getRegion rid in
  let! now := gets clock_ in
  onPolicy (track now r).

(** The two loops over the regions in [resetEvictionPolicy]. *)
Fixpoint trackEmpty (rids : list Z) : M RM unit :=
  match rids with
  | [] => ret tt
  | i :: rids =>
      let! r := getRegion i in
      do! rmCount externalFragmentation_ (getFragmentationSize r) in
      do! (if numItems_ r =? 0 then trackRegion i else ret tt) in
      trackEmpty rids
  end.
Fixpoint trackNonEmpty (rids : list Z) : M RM unit :=
  match rids with
  | [] => ret tt
  | i :: rids =>
      let! r := getRegion i in
      do! (if numItems_ r =? 0 then ret tt else trackRegion i) in
      trackNonEmpty rids
  end.

Definition resetEvictionPolicy : M RM unit :=
  do! onPolicy resetPolicy in
  do! modify (set_rmCounter externalFragmentation_ 0) in
  let! n := gets (fun s => numRegions_ (cfg s)) in
  do! trackEmpty (seqZ 0 n) in
  trackNonEmpty (seqZ 0 n).

Fixpoint resetRegions (rids : list Z) : M RM unit :=
  match rids with
  | [] => ret tt
  | i :: rids => do! onRegion i Region.reset in resetRegions rids
  end.

Definition rmReset : M RM unit :=
  let! n := gets (fun s => numRegions_ (cfg s)) in
  do! resetRegions (seqZ 0 n) in
  do! modify (fun s => set_clean [] (reclaimsOutstanding_ s) false s) in
  do! modify (set_seq 0) in
  resetEvictionPolicy.

(** The constructor: [bufs] are the buffers as they are allocated, whatever
    they hold. *)
Definition newRM (c : RMConfig) (d : D) (p : P) (bufs : list bytes) : res unit * RM :=
  resetEvictionPolicy
    (mkRM c d p ((fun i => newRegion i (rmRegionSize_ c)) <$> seqZ 0 (numRegions_ c))
       [] 0 false 0 (Some <$> bufs) [] (fun _ => 0) 0).

(** ** Device access *)

Definition deviceWrite (addr : RelAddress) (buf : bytes) : M RM bool :=
  let! s := get in
  let! ok := onDevice (bdWrite (physicalOffset s addr) buf) in
  if ok : bool then do! rmCount physicalWrittenCount_ (zlen buf) in ret true else ret false.

(** A null buffer is [None]. *)
Definition read (desc : RegionDescriptor) (addr : RelAddress) (size : Z) : M RM (option bytes) :=
  let! r := getRegion (addr_rid addr) in
  do! (if isBeingReclaimed r then rmCount readDuringReclaimCount_ 1 else ret tt) in
  if negb (isPhysReadMode desc) then
    let! b := onRegion (addr_rid addr) (readFromBuffer (addr_offset addr) size) in
    ret (Some b)
  else
    let! s := get in
    onDevice (bdRead (physicalOffset s addr) size).

(** ** Buffers and clean regions *)

Definition returnBufferToPool (b : option bytes) : M RM unit :=
  do! modify (fun s => set_buffers (buffers_ s ++ [b]) s) in
  rmCount numInMemBufActive_ (-1).

Definition claimBufferFromPool : M RM (option bytes) :=
  let! s := get in
  match last (buffers_ s) with
  | None => ret None
  | Some b =>
      do! modify (set_buffers (removelast (buffers_ s))) in
      do! rmCount numInMemBufActive_ 1 in
      ret b
  end.

Definition assignBufferToRegion (rid : Z) : M RM OpenStatus :=
  let! b := claimBufferFromPool in
  match b with
  | None => ret OpenRetry
  | Some b => do! onRegion rid (attachBuffer b) in ret Ready
  end.

(** [getNextWorker().addTaskRemote] and [getCurrentNavyThread()->addTaskRemote]. *)
Definition addJob (j : Job) : M RM unit := modify (fun s => set_jobs (jobs_ s ++ [j]) s).
Definition startReclaim : M RM unit := do! rmCount numReclaimScheduled_ 1 in addJob JReclaim.

Fixpoint startReclaims (n : nat) : M RM unit :=
  match n with
  | O => ret tt
  | S n => do! startReclaim in startReclaims n
  end.

(** Returns a region id and a status. The waiter asked for with [addWaiter]
    only delays the caller. *)
Definition getCleanRegion (rid : Z) (addWaiter : bool) : M RM (Z * OpenStatus) :=
  let! s := get in
  if cleanRegionFastPath_ (cfg s) && negb addWaiter && cleanRegionsEmpty_ s then
    do! rmCount cleanRegionRetries_ 1 in ret (rid, OpenRetry)
  else
    let '(rid, clean, status) :=
      match last (cleanRegions_ s) with
      | Some r => (r, removelast (cleanRegions_ s), Ready)
      | None => (rid, cleanRegions_ s, OpenRetry)
      end in
    let isEmpty := match clean with
                   | [] => if 0 <? reclaimsOutstanding_ s then true else cleanRegionsEmpty_ s
                   | _ => cleanRegionsEmpty_ s
                   end in
    let plannedClean := u64 (zlen clean + reclaimsOutstanding_ s) in
    let newSched := if plannedClean <? numCleanRegions_ (cfg s)
                    then u32 (numCleanRegions_ (cfg s) - plannedClean) else 0 in
    do! modify (set_clean clean (u32 (reclaimsOutstanding_ s + newSched)) isEmpty) in
    do! startReclaims (Z.to_nat newSched) in
    match status with
    | Ready =>
        let! st := assignBufferToRegion rid in
        do! (if decide (st = Ready) then ret tt
             else modify (fun s => set_clean (cleanRegions_ s ++ [rid]) (reclaimsOutstanding_ s) false s)) in
        ret (rid, st)
    | OpenRetry => do! rmCount cleanRegionRetries_ 1 in ret (rid, OpenRetry)
    | OpenError => ret (rid, status)
    end.

(** ** Opening and closing *)

Definition rmOpenForRead (rid : Z) (seqNumber : option Z) : M RM RegionDescriptor :=
  let! desc := onRegion rid openForRead in
  if negb (isReady desc) then ret desc
  else
    let! s := get in
    if match seqNumber with Some n => negb (seqNumber_ s =? n) | None => false end then
      do! onRegion rid (Region.close desc) in ret (statusDesc OpenRetry)
    else ret desc.

Definition rmClose (desc : RegionDescriptor) : M RM unit := onRegion (regionId_ desc) (Region.close desc).

(** ** Flushing *)

Definition rmFlushBuffer (rid : Z) : M RM FlushRes :=
  let! r := getRegion rid in
  match flushBegin r with
  | inl res => ret res
  | inr None => throw UndefinedBehavior
  | inr (Some b) =>
      let! ok := deviceWrite (mkRel rid 0) b in
      do! (if ok : bool then rmCount numInMemBufWaitingFlush_ (-1) else ret tt) in
      onRegion rid (flushEnd ok)
  end.

Definition rmDetachBuffer (rid : Z) : M RM unit :=
  let! b := onRegion rid Region.detachBuffer in
  returnBufferToPool b.

Definition releaseCleanedupRegion (rid : Z) : M RM unit :=
  let! r := getRegion rid in
  do! rmCount externalFragmentation_ (- getFragmentationSize r) in
  do! modify (fun s => set_seq (u64 (seqNumber_ s + 1)) s) in
  do! onRegion rid Region.reset in
  modify (fun s => set_clean (cleanRegions_ s ++ [rid]) (reclaimsOutstanding_ s) false s).

(** The loop of [doFlushInternal]: whether the buffer was flushed before the
    attempts that are left ran out. Each wait for pending writes is one run of
    the loop that has to be taken up again. *)
Fixpoint flushAttempts (attempts : nat) (rid : Z) : M RM bool :=
  match attempts with
  | O => ret false
  | S attempts =>
      let! res := rmFlushBuffer rid in
      match res with
      | kSuccess => ret true
      | kRetryDeviceFailure =>
          do! rmCount numInMemBufFlushRetries_ 1 in flushAttempts attempts rid
      | kRetryPendingWrites => throw StillWaiting
      end
  end.

(** ** Persistence *)

Record RegionData : Type := mkRegionData { rd_regionSize : Z; rd_regions : list RegionProto }.

Definition rmPersist (s : RM) : RegionData :=
  mkRegionData (s32 (rmRegionSize_ (cfg s)))
    (imap (fun i r => mkRegionProto (s32 (Z.of_nat i)) (s32 (lastEntryEndOffset_ r)) (priority_ r)
                        (s32 (numItems_ r)))
       (take (Z.to_nat (numRegions_ (cfg s))) (regions_ s))).

Fixpoint recoverRegions (size : Z) (ps : list RegionProto) : M RM unit :=
  match ps with
  | [] => ret tt
  | p :: ps =>
      let! s := get in
      let index := u32 (p_regionId p) in
      do! Prelude.guard ((numRegions_ (cfg s) <=? index) ||
                         (rmRegionSize_ (cfg s) <? u32 (p_lastEntryEndOffset p))) InvalidArgument in
      let pri := if (0 <? numPriorities_ (cfg s)) && (numPriorities_ (cfg s) <=? p_priority p)
                 then numPriorities_ (cfg s) - 1 else p_priority p in
      let p := mkRegionProto (p_regionId p) (p_lastEntryEndOffset p) pri (p_numItems p) in
      do! modify (set_regions (<[Z.to_nat index := regionOf p (u64 size)]> (regions_ s))) in
      recoverRegions size ps
  end.

Definition rmRecover (d : RegionData) : M RM unit :=
  let! s := get in
  do! Prelude.guard (negb (zlen (rd_regions d) =? numRegions_ (cfg s)) ||
                     negb (u32 (rd_regionSize d) =? rmRegionSize_ (cfg s))) InvalidArgument in
  do! recoverRegions (rd_regionSize d) (rd_regions d) in
  resetEvictionPolicy.
End RegionManager.
Arguments RM : clear implicits.

(** ** Jobs, with the callbacks *)

Class Lens (S T : Type) : Type := { lget : S -> T; lset : T -> S -> S }.

Definition zoom {S T A} `{Lens S T} (m : M T A) : M S A := fun s =>
  let '(r, t) := m (lget s) in (r, lset t s).

Section Jobs.
Context {P D S : Type} `{EvictionPolicy P} `{BlockDevice D} `{Lens S (RM P D)}.

(** [evictCb_] and [cleanupCb_]. *)
Variable evictCb : Z -> bytes -> M S Z.
Variable cleanupCb : Z -> bytes -> M S unit.

Definition cleanupBufferOnFlushFailure (rid : Z) : M S unit :=
  let! c := zoom (onRegion rid cleanupBegin) in
  do! (match c with
       | None => ret tt
       | Some None => throw UndefinedBehavior
       | Some (Some b) =>
           do! cleanupCb rid b in
           do! zoom (rmCount numInMemBufWaitingFlush_ (-1)) in
           do! zoom (rmCount numInMemBufFlushFailures_ 1) in
           zoom (onRegion rid cleanupEnd)
       end) in
  zoom (rmDetachBuffer rid).

Definition doFlushInternal (rid : Z) : M S unit :=
  let! limit := zoom (gets (fun s => inMemBufFlushRetryLimit_ (cfg s))) in
  let! flushed := zoom (flushAttempts limit rid) in
  if flushed : bool then
    do! zoom (rmDetachBuffer rid) in
    zoom (trackRegion rid)
  else
    do! cleanupBufferOnFlushFailure rid in
    zoom (releaseCleanedupRegion rid).

(** [onWorker]: whether the calling thread is one of the workers. *)
Definition doFlush (onWorker : bool) (rid : Z) (async : bool) : M S unit :=
  let! r := zoom (getRegion rid) in
  do! zoom (rmCount externalFragmentation_ (getFragmentationSize r)) in
  do! zoom (onRegion rid setPendingFlush) in
  do! zoom (rmCount numInMemBufWaitingFlush_ 1) in
  if negb async then doFlushInternal rid
  else if onWorker then
    let! flushAsync := zoom (gets (fun s => workerFlushAsync_ (cfg s))) in
    if flushAsync : bool then zoom (addJob (JFlush rid)) else doFlushInternal rid
  else
    do! zoom (rmCount numReclaimScheduled_ 1) in zoom (addJob (JFlush rid)).

Definition doEviction (rid : Z) (buffer : bytes) : M S unit :=
  let! n := evictCb rid buffer in
  zoom (rmCount evictedCount_ n).

Definition releaseEvictedRegion (rid : Z) : M S unit :=
  let! r := zoom (getRegion rid) in
  do! zoom (rmCount externalFragmentation_ (- getFragmentationSize r)) in
  do! zoom (modify (fun s => set_seq (u64 (seqNumber_ s + 1)) s)) in
  let! allow := zoom (gets (fun s => allowReadDuringReclaim_ (cfg s))) in
  do! (if allow : bool then zoom (onRegion rid waitForActiveReaders) else ret tt) in
  do! zoom (onRegion rid Region.reset) in
  do! zoom (modify (fun s =>
        set_clean (cleanRegions_ s ++ [rid])
          (if 0 <? reclaimsOutstanding_ s then reclaimsOutstanding_ s - 1 else reclaimsOutstanding_ s)
          false s)) in
  zoom (rmCount reclaimCount_ 1).

(** The loop around [evict] goes on while no region can be evicted; a turn of
    it that fails is a wait. *)
Definition doReclaim : M S unit :=
  let! rid := zoom evictRegion in
  do! Prelude.guard (negb (valid rid)) StillWaiting in
  let! allow := zoom (gets (fun s => allowReadDuringReclaim_ (cfg s))) in
  do! zoom (onRegion rid (readyForReclaim true allow)) in
  let! r := zoom (getRegion rid) in
  do! (if numItems_ r =? 0 then ret tt
       else
         let desc := makeReadDescriptor Ready rid true in
         let sizeToRead := lastEntryEndOffset_ r in
         let! buffer := zoom (read desc (mkRel rid 0) sizeToRead) in
         match buffer with
         | Some b =>
             if zlen b =? sizeToRead then doEviction rid b
             else zoom (rmCount reclaimRegionErrors_ 1)
         | None =>
             (* a null buffer has size 0 *)
             if sizeToRead =? 0 then ret tt else zoom (rmCount reclaimRegionErrors_ 1)
         end) in
  releaseEvictedRegion rid.

(** A worker takes up the job at position [i] of those waiting. *)
Definition runJob (i : nat) : M S unit :=
  let! j := zoom (gets (fun s => jobs_ s !! i)) in
  match j with
  | None => ret tt
  | Some j =>
      do! zoom (modify (fun s => set_jobs (delete i (jobs_ s)) s)) in
      match j with
      | JReclaim => doReclaim
      | JFlush rid => doFlushInternal rid
      end
  end.
End Jobs.
