(* ===== verification/BlockCache.v ===== *)
(** * The block cache: the large-item engine of Navy

    [src/cachelib/navy/block_cache/Allocator.{h,cpp}] and
    [BlockCache.{h,cpp}], with the sparse-map index or any other index that
    keeps the laws of [BlockIndex]: combined entry blocks are not used.

    An entry is a slot of a region: the value at the front, the key and a
    descriptor of 32 bytes at the end; the index maps the hash of the key to
    the end of the slot. The operations run one at a time here, the jobs they
    schedule between them; the interleaving of a reader with the reclaiming of
    the region it reads is not modelled.

    Parameters: the device, the eviction policy, the index, SpookyHash over a
    key ([hashBuffer]), folly's crc32 ([checksum]), the user's callbacks. The
    answer of a reinsertion policy may depend on the index and on how many
    times it was asked. [destructorCalls_] is the sequence of the calls of the
    user's destructor callback. Event tracking and latency statistics have no
    code here. *)

From S2P Require Import Prelude Bytes BloomFilter Device BigHash Region RegionPolicy RegionManager BlockIndex.
From stdpp Require Import base tactics numbers list.

#[local] Open Scope Z_scope.
#[local] Open Scope cachelib_scope.

(** ** Entries *)

Definition kMinAllocAlignSize : Z := 512.
Definition kMaxItemSize : Z := kMinAllocAlignSize * (2 ^ 16 - 1).
Definition kDefaultItemPriority : Z := 0.
Definition kFormatVersion : Z := 13.

(** [sizeof(EntryDesc)]: 28 bytes of fields and 4 of padding. *)
Definition descSize : Z := 32.

Record EntryDesc : Type := mkEntryDesc {
  keySize : Z;
  valueSize : Z;
  keyHash : Z;
  lastAccessTimeSecs : Z;
  csSelf : Z;
  cs : Z
}.

Record HashedKey : Type := mkHK { hk_key : bytes; hk_hash : Z }.

(** The bytes before [csSelf]. *)
Definition descHeader (ks vs kh t : Z) : bytes := le32 ks ++ le32 vs ++ le64 kh ++ le32 t.

(** The descriptor that ends at [entryEnd]. *)
Definition parseDesc (b : bytes) (entryEnd : Z) : res EntryDesc :=
  let o := entryEnd - descSize in
  let? ks := load32 b o in
  let? vs := load32 b (o + 4) in
  let? kh := load64 b (o + 8) in
  let? t := load32 b (o + 16) in
  let? c1 := load32 b (o + 20) in
  let? c2 := load32 b (o + 24) in
  Ok (mkEntryDesc ks vs kh t c1 c2).

Definition encodeSizeHint (size : Z) : Z :=
  u16 (powTwoAlign size kMinAllocAlignSize / kMinAllocAlignSize).
Definition decodeSizeHint (hint : Z) : Z := u32 (hint * kMinAllocAlignSize).

(** ** Configuration and state *)

Inductive DestructorEvent : Type := Removed | Recycled.

Inductive AllocatorApiResult : Type :=
| REINSERTED | EVICTED | EXPIRED | REMOVED | FAILED | CORRUPTED.

Inductive BCCounter : Type :=
| lookupCount_ | succLookupCount_ | retryReadCount_ | insertCount_ | insertHashCollisionCount_
| succInsertCount_ | lookupFalsePositiveCount_ | lookupEntryHeaderChecksumErrorCount_
| lookupValueChecksumErrorCount_ | removeCount_ | succRemoveCount_ | evictionLookupMissCounter_
| evictionExpiredCount_ | allocErrorCount_ | allocRetryCount_ | logicalWrittenCount_
| holeCount_ | holeSizeTotal_ | usedSizeBytes_ | reinsertionErrorCount_ | reinsertionCount_
| reinsertionBytes_ | reclaimEntryHeaderChecksumErrorCount_ | reclaimValueChecksumErrorCount_
| removeAttemptCollisions_ | cleanupEntryHeaderChecksumErrorCount_
| cleanupValueChecksumErrorCount_ | lookupForItemDestructorErrorCount_ | excessiveReadBytes_
| allocRetryWaits_.

#[export] Instance BCCounter_eq_dec : EqDecision BCCounter.
Proof. solve_decision. Defined.

(** The calling thread: a worker of the region manager, a Navy thread. *)
Record Ctx : Type := mkCtx { onWorker : bool; onNavyThread : bool }.

Definition workerCtx : Ctx := mkCtx true true.

Record RegionAllocator : Type := mkRA { ra_priority : Z; ra_rid : Z }.

Section BlockCache.
Context {P D X : Type} `{EvictionPolicy P} `{BlockDevice D} `{Index X}.
Variable hashBuffer : bytes -> Z.
Variable checksum : bytes -> Z.

Record BCConfig : Type := mkBCConfig {
  allocAlignSize_ : Z;
  checksumData_ : bool;
  itemDestructorEnabled_ : bool;
  preciseRemove_ : bool;
  bcNumPriorities_ : Z;
  hasDestructorCb_ : bool;
  checkExpired_ : option (bytes -> res bool);
  shouldReinsert_ : option (nat -> X -> bytes -> bytes -> res bool)
}.

Record BC : Type := mkBC {
  bcfg : BCConfig;
  regionManager_ : RM P D;
  allocators_ : list (list RegionAllocator);
  index_ : X;
  bcCounters_ : BCCounter -> Z;
  destructorCalls_ : list (HashedKey * bytes * DestructorEvent);
  asked_ : nat
}.

#[export] Instance BC_RM : Lens BC (RM P D) := {|
  lget := regionManager_;
  lset rm s := mkBC (bcfg s) rm (allocators_ s) (index_ s) (bcCounters_ s) (destructorCalls_ s) (asked_ s)
|}.

Definition set_allocators (a : list (list RegionAllocator)) (s : BC) : BC :=
  mkBC (bcfg s) (regionManager_ s) a (index_ s) (bcCounters_ s) (destructorCalls_ s) (asked_ s).
Definition set_index (x : X) (s : BC) : BC :=
  mkBC (bcfg s) (regionManager_ s) (allocators_ s) x (bcCounters_ s) (destructorCalls_ s) (asked_ s).
Definition set_bcCounter (c : BCCounter) (v : Z) (s : BC) : BC :=
  mkBC (bcfg s) (regionManager_ s) (allocators_ s) (index_ s)
    (fun k => if decide (k = c) then v else bcCounters_ s k) (destructorCalls_ s) (asked_ s).
Definition add_call (c : HashedKey * bytes * DestructorEvent) (s : BC) : BC :=
  mkBC (bcfg s) (regionManager_ s) (allocators_ s) (index_ s) (bcCounters_ s)
    (destructorCalls_ s ++ [c]) (asked_ s).
Definition add_asked (s : BC) : BC :=
  mkBC (bcfg s) (regionManager_ s) (allocators_ s) (index_ s) (bcCounters_ s)
    (destructorCalls_ s) (S (asked_ s)).

Definition bcCount (c : BCCounter) (d : Z) : M BC unit :=
  modify (fun s => set_bcCounter c (u64 (bcCounters_ s c + d)) s).
Definition onIndex {A} (m : M X A) : M BC A := fun s =>
  let '(r, x) := m (index_ s) in (r, set_index x s).
Definition onRM {A} (m : M (RM P D) A) : M BC A := zoom m.

Definition addHole (size : Z) : M BC unit :=
  do! bcCount holeCount_ 1 in bcCount holeSizeTotal_ size.
Definition removeHole (size : Z) : M BC unit :=
  do! bcCount holeCount_ (-1) in bcCount holeSizeTotal_ (- size).

(** ** Sizes and addresses *)

Definition makeHK (key : bytes) : HashedKey := mkHK key (hashBuffer key).

(** [HashedKey::operator==]. *)
Definition hk_eq (a b : HashedKey) : bool :=
  (hk_hash a =? hk_hash b) && (zlen (hk_key a) =? zlen (hk_key b)) &&
  bytesEqual (hk_key a) (hk_key b) (length (hk_key a)).

Definition serializedSize (s : BC) (ks vs : Z) : Z :=
  u32 (powTwoAlign (u32 (descSize + ks + vs)) (allocAlignSize_ (bcfg s))).

Definition encodeRelAddress (s : BC) (addr : RelAddress) : Z :=
  u32 (toAbsolute (regionManager_ s) addr / allocAlignSize_ (bcfg s)).
Definition decodeAbsAddress (s : BC) (code : Z) : Z := u64 (code * allocAlignSize_ (bcfg s)).
Definition decodeRelAddress (s : BC) (code : Z) : RelAddress :=
  addRel (toRelative (regionManager_ s) (subAbs (decodeAbsAddress s code) 1)) 1.

Definition computeChecksum (d : EntryDesc) : Z :=
  checksum (descHeader (keySize d) (valueSize d) (keyHash d) (lastAccessTimeSecs d)).

(** ** Cleaning up a region whose flush failed *)

Definition removeItem (hk : HashedKey) (currAddr : RelAddress) : M BC bool :=
  let! s := get in
  let! ok := onIndex (ixRemoveIfMatch (hk_hash hk) (encodeRelAddress s currAddr)) in
  do! (if ok : bool then ret tt else bcCount evictionLookupMissCounter_ 1) in
  ret ok.

(** The loops over the entries of a region go from the last entry to the
    first; [fuel] of one more than the first offset is enough, since each
    entry takes up space. *)
Fixpoint cleanupLoop (fuel : nat) (rid ofs : Z) (buffer : bytes) : M BC unit :=
  if negb (0 <? ofs) then ret tt else
  match fuel with
  | O => throw StillWaiting
  | S fuel =>
      let! desc := lift (parseDesc buffer ofs) in
      if negb (csSelf desc =? computeChecksum desc) then bcCount cleanupEntryHeaderChecksumErrorCount_ 1
      else
        let! s := get in
        let entrySize := serializedSize s (keySize desc) (valueSize desc) in
        let! key := lift (load buffer (ofs - descSize - keySize desc) (keySize desc)) in
        let hk := makeHK key in
        let! value := lift (load buffer (ofs - entrySize) (valueSize desc)) in
        do! (if checksumData_ (bcfg s) && negb (cs desc =? checksum value)
             then bcCount cleanupValueChecksumErrorCount_ 1 else ret tt) in
        let! removed := removeItem hk (mkRel rid ofs) in
        do! (if removed : bool then bcCount usedSizeBytes_ (- decodeSizeHint (encodeSizeHint entrySize))
             else removeHole (decodeSizeHint (encodeSizeHint entrySize))) in
        do! (if hasDestructorCb_ (bcfg s) && removed
             then modify (add_call (hk, value, Recycled)) else ret tt) in
        cleanupLoop fuel rid (u32 (ofs - entrySize)) buffer
  end.

Definition onRegionCleanup (rid : Z) (buffer : bytes) : M BC unit :=
  let! r := onRM (getRegion rid) in
  cleanupLoop (Z.to_nat (lastEntryEndOffset_ r) + 1) rid (lastEntryEndOffset_ r) buffer.

(** ** The allocator *)

Definition bcDoFlush (ctx : Ctx) (rid : Z) (async : bool) : M BC unit :=
  doFlush onRegionCleanup (onWorker ctx) rid async.

Definition getRA (p i : nat) : M BC RegionAllocator := fun s =>
  match allocators_ s !! p ≫= (fun ras => ras !! i) with
  | Some ra => (Ok ra, s)
  | None => (Throw UndefinedBehavior, s)
  end.
Definition setRA (p i : nat) (rid : Z) : M BC unit :=
  modify (fun s => set_allocators
    (alter (alter (fun ra => mkRA (ra_priority ra) rid) i) p (allocators_ s)) s).

Definition flushAndReleaseRegionFromRALocked (ctx : Ctx) (p i : nat) (flushAsync : bool) : M BC unit :=
  let! ra := getRA p i in
  if valid (ra_rid ra) then
    do! bcDoFlush ctx (ra_rid ra) flushAsync in
    setRA p i kInvalid
  else ret tt.

(** [allocateWith] once the allocator has no region: a clean region is taken. *)
Definition allocateNew (ctx : Ctx) (p i : nat) (size : Z) (canWait : bool) : M BC (RegionDescriptor * RelAddress) :=
  let canWait := canWait && onNavyThread ctx in
  let! r := onRM (getCleanRegion kInvalid canWait) in
  match r with
  | (rid, OpenRetry) =>
      do! (if canWait then bcCount allocRetryWaits_ 1 else ret tt) in
      ret (statusDesc OpenRetry, mkRel kInvalid 0)
  | (rid, _) =>
      let! ra := getRA p i in
      do! onRM (onRegion rid (modify (setPriority (ra_priority ra)))) in
      do! setRA p i rid in
      onRM (onRegion rid (openAndAllocate size))
  end.

Definition allocateWith (ctx : Ctx) (p i : nat) (size : Z) (canWait : bool) : M BC (RegionDescriptor * RelAddress) :=
  let! ra := getRA p i in
  if valid (ra_rid ra) then
    let! r := onRM (onRegion (ra_rid ra) (openAndAllocate size)) in
    if isReady r.1 then ret r
    else
      do! flushAndReleaseRegionFromRALocked ctx p i true in
      allocateNew ctx p i size canWait
  else allocateNew ctx p i size canWait.

Definition allocate (ctx : Ctx) (size priority : Z) (canWait : bool) (distKey : Z)
    : M BC (RegionDescriptor * RelAddress) :=
  let! s := get in
  if (size =? 0) || (rmRegionSize_ (cfg (regionManager_ s)) <? size)
  then ret (statusDesc OpenError, mkRel kInvalid 0)
  else
    match allocators_ s !! Z.to_nat priority with
    | None | Some [] => throw UndefinedBehavior
    | Some ras => allocateWith ctx (Z.to_nat priority) (Z.to_nat (distKey mod zlen ras)) size canWait
    end.

(** The loops of [Allocator::flush] and [reset] over the allocators. *)
Fixpoint forRAs (f : nat -> nat -> M BC unit) (pis : list (nat * nat)) : M BC unit :=
  match pis with
  | [] => ret tt
  | (p, i) :: pis => do! f p i in forRAs f pis
  end.
Definition allRAs (a : list (list RegionAllocator)) : list (nat * nat) :=
  concat (imap (fun p ras => (fun i => (p, i)) <$> seq 0 (length ras)) a).

Definition allocatorFlush (ctx : Ctx) : M BC unit :=
  let! s := get in
  forRAs (fun p i => flushAndReleaseRegionFromRALocked ctx p i false) (allRAs (allocators_ s)).

Definition allocatorReset : M BC unit :=
  do! modify (set_bcCounter allocRetryWaits_ 0) in
  do! onRM rmReset in
  let! s := get in
  forRAs (fun p i => setRA p i kInvalid) (allRAs (allocators_ s)).

(** ** Inserting *)

Definition allocateImpl (ctx : Ctx) (hk : HashedKey) (vs priority : Z) (canWait : bool)
    : M BC (RegionDescriptor * Z * RelAddress) :=
  let! s := get in
  let size := serializedSize s (u32 (zlen (hk_key hk))) vs in
  let! r := allocate ctx size priority canWait (hk_hash hk) in
  ret (r.1, size, r.2).

Definition allocateForInsert (ctx : Ctx) (hk : HashedKey) (vs : Z) (canWait : bool)
    : M BC (Status + RegionDescriptor * Z * RelAddress) :=
  let! s := get in
  if kMaxItemSize <? serializedSize s (u32 (zlen (hk_key hk))) vs then
    do! bcCount allocErrorCount_ 1 in
    do! bcCount insertCount_ 1 in
    ret (inl Rejected)
  else
    let! r := allocateImpl ctx hk vs kDefaultItemPriority canWait in
    match status_ r.1.1 with
    | Ready => do! bcCount insertCount_ 1 in ret (inr r)
    | OpenError =>
        do! bcCount allocErrorCount_ 1 in
        do! bcCount insertCount_ 1 in
        ret (inl Rejected)
    | OpenRetry => do! bcCount allocRetryCount_ 1 in ret (inl Retry)
    end.

(** The view a slot is written through is the part of its region's buffer
    from the slot's address, [size] bytes long. *)
Definition writeEntry (addr : RelAddress) (size : Z) (hk : HashedKey) (value : bytes) (t : Z) : M BC unit :=
  let! s := get in
  let w ofs b := onRM (onRegion (addr_rid addr) (writeToBuffer ofs b)) in
  let ks := u32 (zlen (hk_key hk)) in
  let vs := u32 (zlen value) in
  let dest := addr_offset addr + size - descSize in
  let header := descHeader ks vs (hk_hash hk) t in
  do! w dest (header ++ le32 (checksum header) ++ le32 0) in
  do! (if checksumData_ (bcfg s) then w (dest + 24) (le32 (checksum value)) else ret tt) in
  do! w (dest - zlen (hk_key hk)) (hk_key hk) in
  do! w (addr_offset addr) value in
  bcCount logicalWrittenCount_ (zlen (hk_key hk) + zlen value).

Definition updateIndex (kh size : Z) (addr : RelAddress) (allowReplace : bool) : M BC bool :=
  let! s := get in
  let newObjSizeHint := encodeSizeHint size in
  let encodedAddr := encodeRelAddress s (addRel addr size) in
  let! lr := onIndex (if allowReplace then ixInsert kh encodedAddr newObjSizeHint
                      else ixInsertIfNotExists kh encodedAddr newObjSizeHint) in
  let newObjSize := decodeSizeHint newObjSizeHint in
  let finish oldObjSize :=
    do! bcCount succInsertCount_ 1 in
    do! (if newObjSize <? oldObjSize then bcCount usedSizeBytes_ (- (oldObjSize - newObjSize))
         else bcCount usedSizeBytes_ (newObjSize - oldObjSize)) in
    ret true in
  match lr with
  | None => finish 0
  | Some r =>
      do! bcCount insertHashCollisionCount_ 1 in
      if allowReplace then
        do! addHole (decodeSizeHint (sizeHint r)) in
        finish (decodeSizeHint (sizeHint r))
      else ret false
  end.

Definition insert (ctx : Ctx) (hk : HashedKey) (value : bytes) (t : Z) : M BC Status :=
  let! r := allocateForInsert ctx hk (u32 (zlen value)) true in
  match r with
  | inl st => ret st
  | inr (desc, slotSize, addr) =>
      do! writeEntry addr slotSize hk value t in
      do! updateIndex (hk_hash hk) slotSize addr true in
      do! onRM (rmClose desc) in
      ret StatusOk
  end.

Definition couldExist (hk : HashedKey) : M BC bool :=
  let! s := get in
  match ixPeek (index_ s) (hk_hash hk) with
  | None => do! bcCount lookupCount_ 1 in ret false
  | Some _ => ret true
  end.

Definition estimateWriteSize (s : BC) (hk : HashedKey) (value : bytes) : Z :=
  serializedSize s (u32 (zlen (hk_key hk))) (u32 (zlen value)).

(** ** Looking up *)

(** On success the value and the last access time. *)
Definition readEntry (desc : RegionDescriptor) (addrEnd : RelAddress) (approx : Z) (expected : HashedKey)
    : M BC (Status * bytes * Z) :=
  let! s := get in
  let approx := Z.min approx (addr_offset addrEnd) in
  let! b := onRM (read desc (subRel addrEnd approx) approx) in
  match b with
  | None => ret (DeviceError, [], 0)
  | Some buffer =>
      let! d := lift (parseDesc buffer (zlen buffer)) in
      if negb (csSelf d =? computeChecksum d) then
        do! bcCount lookupEntryHeaderChecksumErrorCount_ 1 in ret (ChecksumError, [], 0)
      else
        let! key := lift (load buffer (zlen buffer - descSize - keySize d) (keySize d)) in
        if negb (hk_eq (mkHK key (keyHash d)) expected) then
          do! bcCount lookupFalsePositiveCount_ 1 in ret (NotFound, [], 0)
        else
          let size := serializedSize s (keySize d) (valueSize d) in
          let! b2 :=
            (if size <? zlen buffer then
               do! bcCount excessiveReadBytes_ (zlen buffer - size) in
               ret (Some (drop (Z.to_nat (zlen buffer - size)) buffer))
             else if zlen buffer <? size then onRM (read desc (subRel addrEnd size) size)
             else ret (Some buffer)) in
          match b2 with
          | None => ret (DeviceError, [], 0)
          | Some buffer =>
              let! slice := lift (load buffer 0 (valueSize d)) in
              if checksumData_ (bcfg s) && negb (cs d =? checksum slice) then
                do! bcCount lookupValueChecksumErrorCount_ 1 in ret (ChecksumError, [], 0)
              else ret (StatusOk, slice, lastAccessTimeSecs d)
          end
  end.

(** The loop that finds and opens the region: [retries] more turns. *)
Fixpoint openLoop (retries : nat) (hk : HashedKey)
    : M BC (option (RegionDescriptor * RelAddress * Z)) :=
  let! s := get in
  let seqNumber := seqNumber_ (regionManager_ s) in
  let! lr := onIndex (ixLookup (hk_hash hk)) in
  match lr with
  | None => do! bcCount lookupCount_ 1 in ret None
  | Some r =>
      let addrEnd := decodeRelAddress s (address r) in
      let! desc := onRM (rmOpenForRead (addr_rid addrEnd) (Some seqNumber)) in
      let done_ := ret (Some (desc, addrEnd, decodeSizeHint (sizeHint r))) in
      match retries with
      | O => done_
      | S n => if decide (status_ desc = OpenRetry) then openLoop n hk else done_
      end
  end.

(** The open descriptor, if any, and the outcome. *)
Definition lookupInternal (hk : HashedKey) : M BC (option RegionDescriptor * Status * bytes * Z) :=
  let! s := get in
  let! o := openLoop (if allowReadDuringReclaim_ (cfg (regionManager_ s)) then 1 else 0) hk in
  match o with
  | None => ret (None, NotFound, [], 0)
  | Some (desc, addrEnd, approx) =>
      match status_ desc with
      | OpenRetry => ret (Some desc, Retry, [], 0)
      | OpenError => ret (Some desc, DeviceError, [], 0)
      | Ready =>
          let! r := readEntry desc addrEnd approx hk in
          let! r :=
            match r.1.1 with
            | DeviceError => do! onIndex (ixRemove (hk_hash hk)) in ret r
            | ChecksumError =>
                let! r := readEntry desc addrEnd approx hk in
                do! bcCount retryReadCount_ 1 in
                do! (if decide (r.1.1 = StatusOk) then ret tt
                     else let! _ := onIndex (ixRemove (hk_hash hk)) in ret tt) in
                ret r
            | _ => ret r
            end in
          do! (if decide (r.1.1 = StatusOk) then
                 do! onRM (touchRegion (addr_rid addrEnd)) in bcCount succLookupCount_ 1
               else ret tt) in
          do! bcCount lookupCount_ 1 in
          ret (Some desc, r.1.1, r.1.2, r.2)
      end
  end.

Definition lookup (hk : HashedKey) : M BC (Status * bytes * Z) :=
  let! r := lookupInternal hk in
  let '(desc, status, value, t) := r in
  do! (match desc with
       | Some d => if isReady d then onRM (rmClose d) else ret tt
       | None => ret tt
       end) in
  if decide (status = StatusOk) then ret (status, value, t) else ret (status, [], 0).

(** ** Removing *)

Definition removeImpl (hk : HashedKey) (value : option bytes) : M BC Status :=
  let! s := get in
  let! lr := onIndex (ixRemove (hk_hash hk)) in
  match lr with
  | Some r =>
      let removedObjectSize := decodeSizeHint (sizeHint r) in
      do! addHole removedObjectSize in
      do! bcCount usedSizeBytes_ (- removedObjectSize) in
      do! bcCount succRemoveCount_ 1 in
      do! (match value with
           | Some v => if hasDestructorCb_ (bcfg s) then modify (add_call (hk, v, Removed)) else ret tt
           | None => ret tt
           end) in
      ret StatusOk
  | None => ret NotFound
  end.

Definition remove (hk : HashedKey) : M BC Status :=
  do! bcCount removeCount_ 1 in
  let! s := get in
  if (itemDestructorEnabled_ (bcfg s) && hasDestructorCb_ (bcfg s)) || preciseRemove_ (bcfg s) then
    let! r := lookup hk in
    let '(status, value, _) := r in
    match status with
    | StatusOk => removeImpl hk (Some value)
    | Retry => ret Retry
    | NotFound =>
        do! bcCount removeAttemptCollisions_ 1 in
        if preciseRemove_ (bcfg s) then ret NotFound else removeImpl hk None
    | ChecksumError => do! bcCount lookupForItemDestructorErrorCount_ 1 in ret ChecksumError
    | _ => do! bcCount lookupForItemDestructorErrorCount_ 1 in ret BadState
    end
  else removeImpl hk None.

(** ** Reclaiming *)

(** The local function of [reinsertOrRemoveItem]. *)
Definition dropItem (hk : HashedKey) (currAddr : RelAddress) (expired : bool) : M BC AllocatorApiResult :=
  let! s := get in
  let! ok := onIndex (ixRemoveIfMatch (hk_hash hk) (encodeRelAddress s currAddr)) in
  if ok : bool then
    if expired then do! bcCount evictionExpiredCount_ 1 in ret EXPIRED else ret EVICTED
  else ret REMOVED.

(** What the user's expiry check and the reinsertion policy say of an item:
    [Throw] when one of them threw. *)
Inductive Verdict : Type := VExpired | VReject | VReinsert.

Definition judge (hk : HashedKey) (value : bytes) : M BC (res Verdict) :=
  let! s := get in
  match (match checkExpired_ (bcfg s) with Some f => f value | None => Ok false end) with
  | Throw e => ret (Throw e)
  | Ok true => ret (Ok VExpired)
  | Ok false =>
      match shouldReinsert_ (bcfg s) with
      | None => ret (Ok VReject)
      | Some f =>
          do! modify add_asked in
          match f (asked_ s) (index_ s) (hk_key hk) value with
          | Throw e => ret (Throw e)
          | Ok true => ret (Ok VReinsert)
          | Ok false => ret (Ok VReject)
          end
      end
  end.

Definition reinsertOrRemoveItem (hk : HashedKey) (value : bytes) (entrySize : Z) (currAddr : RelAddress)
    (d : EntryDesc) : M BC AllocatorApiResult :=
  let! s := get in
  let lr := ixPeek (index_ s) (hk_hash hk) in
  match lr with
  | None => do! bcCount evictionLookupMissCounter_ 1 in ret REMOVED
  | Some r =>
      if negb (bool_decide (decodeRelAddress s (address r) = currAddr)) then
        do! bcCount evictionLookupMissCounter_ 1 in ret REMOVED
      else
        let! v := judge hk value in
        match v with
        | Throw _ => ret CORRUPTED
        | Ok VExpired => dropItem hk currAddr true
        | Ok VReject => dropItem hk currAddr false
        | Ok VReinsert =>
            if checksumData_ (bcfg s) && negb (cs d =? checksum value) then
              do! bcCount reclaimValueChecksumErrorCount_ 1 in
              do! dropItem hk currAddr false in
              ret CORRUPTED
            else
              let priority := if bcNumPriorities_ (bcfg s) =? 0 then kDefaultItemPriority
                              else Z.min (currentHits r) (bcNumPriorities_ (bcfg s) - 1) in
              let! a := allocateImpl workerCtx hk (u32 (zlen value)) priority false in
              let '(desc, size, addr) := a in
              match status_ desc with
              | OpenError =>
                  do! bcCount allocErrorCount_ 1 in
                  do! bcCount reinsertionErrorCount_ 1 in
                  do! dropItem hk currAddr false in
                  ret FAILED
              | OpenRetry =>
                  do! bcCount reinsertionErrorCount_ 1 in
                  do! dropItem hk currAddr false in
                  ret FAILED
              | Ready =>
                  do! writeEntry addr size hk value 0 in
                  let! s := get in
                  let! replaced := onIndex (ixReplaceIfMatch (hk_hash hk)
                    (encodeRelAddress s (addRel addr size)) (encodeRelAddress s currAddr)) in
                  let! res :=
                    (if replaced : bool then
                       do! bcCount reinsertionCount_ 1 in
                       do! bcCount reinsertionBytes_ entrySize in
                       ret REINSERTED
                     else
                       do! bcCount reinsertionErrorCount_ 1 in
                       do! dropItem hk currAddr false in
                       ret FAILED) in
                  do! onRM (rmClose desc) in
                  ret res
              end
        end
  end.

Fixpoint reclaimLoop (fuel : nat) (rid ofs : Z) (buffer : bytes) (evictionCount : Z) : M BC Z :=
  if negb (0 <? ofs) then ret evictionCount else
  match fuel with
  | O => throw StillWaiting
  | S fuel =>
      let! desc := lift (parseDesc buffer ofs) in
      if negb (csSelf desc =? computeChecksum desc) then
        do! bcCount reclaimEntryHeaderChecksumErrorCount_ 1 in ret evictionCount
      else
        let! s := get in
        let entrySize := serializedSize s (keySize desc) (valueSize desc) in
        let! key := lift (load buffer (ofs - descSize - keySize desc) (keySize desc)) in
        let hk := makeHK key in
        let! value := lift (load buffer (ofs - entrySize) (valueSize desc)) in
        let! res := reinsertOrRemoveItem hk value entrySize (mkRel rid ofs) desc in
        let evicted := match res with EVICTED | EXPIRED => true | _ => false end in
        do! (if evicted then bcCount usedSizeBytes_ (- decodeSizeHint (encodeSizeHint entrySize))
             else match res with
                  | REMOVED => removeHole (decodeSizeHint (encodeSizeHint entrySize))
                  | _ => ret tt
                  end) in
        do! (if hasDestructorCb_ (bcfg s) && evicted
             then modify (add_call (hk, value, Recycled)) else ret tt) in
        reclaimLoop fuel rid (u32 (ofs - entrySize)) buffer
          (if evicted then u32 (evictionCount + 1) else evictionCount)
  end.

Definition onRegionReclaim (rid : Z) (buffer : bytes) : M BC Z :=
  let! r := onRM (getRegion rid) in
  reclaimLoop (Z.to_nat (lastEntryEndOffset_ r) + 1) rid (lastEntryEndOffset_ r) buffer 0.

(** ** Jobs, flush and reset *)

Definition bcRunJob (i : nat) : M BC unit := runJob onRegionReclaim onRegionCleanup i.

(** [drain]: the jobs run until none is left, [fuel] of them at most. *)
Fixpoint drain (fuel : nat) : M BC unit :=
  let! s := get in
  match jobs_ (regionManager_ s) with
  | [] => ret tt
  | _ =>
      match fuel with
      | O => throw StillWaiting
      | S fuel => do! bcRunJob 0 in drain fuel
      end
  end.

Definition flush (fuel : nat) (ctx : Ctx) : M BC unit :=
  do! allocatorFlush ctx in
  do! drain fuel in
  onRM (onDevice bdFlush).

Definition resetCounters : list BCCounter :=
  [insertCount_; lookupCount_; removeCount_; allocErrorCount_; allocRetryCount_;
   logicalWrittenCount_; holeCount_; holeSizeTotal_; usedSizeBytes_].

Definition initializeBlockCache : M BC unit :=
  do! allocatorReset in
  modify (fun s => foldl (fun s c => set_bcCounter c 0 s) s resetCounters).

Definition bcReset : M BC unit :=
  do! onIndex resetIndex in
  initializeBlockCache.

(** The constructor of a block cache over a fresh region manager. *)
Definition newAllocators (perPriority : list nat) : list (list RegionAllocator) :=
  imap (fun p n => replicate n (mkRA (Z.of_nat p) kInvalid)) perPriority.

Definition newBC (bc : BCConfig) (c : RMConfig) (d : D) (p : P) (x : X) (bufs : list bytes)
    (perPriority : list nat) : res BC :=
  match newRM c d p bufs with
  | (Ok _, rm) => Ok (mkBC bc rm (newAllocators perPriority) x (fun _ => 0) [] 0)
  | (Throw e, _) => Throw e
  end.

(** A random entry: [rid] and [randOffset] are the random draws. The walk
    goes back until the entry the offset falls into. *)
Fixpoint randomLoop (fuel : nat) (rid ofs randOffset : Z) (buffer : bytes) : M BC (Status * bytes * bytes) :=
  if negb (0 <? ofs) then ret (NotFound, [], []) else
  match fuel with
  | O => throw StillWaiting
  | S fuel =>
      let! d := lift (parseDesc buffer ofs) in
      if negb (csSelf d =? computeChecksum d) then ret (NotFound, [], [])
      else
        let! s := get in
        let entrySize := serializedSize s (keySize d) (valueSize d) in
        let start := u32 (ofs - entrySize) in
        if randOffset <? start then randomLoop fuel rid start randOffset buffer
        else
          let! value := lift (load buffer (ofs - entrySize) (valueSize d)) in
          if checksumData_ (bcfg s) && negb (cs d =? checksum value) then ret (NotFound, [], [])
          else
            let! key := lift (load buffer (ofs - descSize - keySize d) (keySize d)) in
            let hk := makeHK key in
            match ixPeek (index_ s) (hk_hash hk) with
            | None => ret (NotFound, [], [])
            | Some r =>
                if bool_decide (mkRel rid ofs = decodeRelAddress s (address r))
                then ret (StatusOk, value, hk_key hk) else ret (NotFound, [], [])
            end
  end.

Definition getRandomAlloc (rid randOffset : Z) : M BC (Status * bytes * bytes) :=
  let! r := onRM (getRegion rid) in
  let ofs := lastEntryEndOffset_ r in
  if ofs <=? randOffset then ret (NotFound, [], [])
  else
    let! s := get in
    let! desc := onRM (rmOpenForRead rid (Some (seqNumber_ (regionManager_ s)))) in
    if negb (isReady desc) then ret (NotFound, [], [])
    else
      let! b := onRM (read desc (mkRel rid 0) ofs) in
      do! onRM (rmClose desc) in
      match b with
      | Some buffer =>
          if zlen buffer =? ofs then randomLoop (Z.to_nat ofs + 1) rid ofs randOffset buffer
          else ret (NotFound, [], [])
      | None => ret (NotFound, [], [])
      end.
End BlockCache.
Arguments BC : clear implicits.
Arguments BCConfig : clear implicits.
