(* ===== verification/Runs.v ===== *)
(** * Runs of computations that return

    [runs m s Q]: started in [s], the computation [m] returns, throws nothing,
    and its value and last state satisfy [Q]. The lemmas follow the structure
    of a computation; [runs_step] applies them. *)

From S2P Require Import Prelude Bytes Region RegionPolicy RegionManager.
From stdpp Require Import base tactics numbers list.

#[local] Open Scope Z_scope.

Definition runs {S A} (m : M S A) (s : S) (Q : A -> S -> Prop) : Prop :=
  match m s with
  | (Ok a, s') => Q a s'
  | (Throw _, _) => False
  end.

Section runs.
Context {S : Type}.
Implicit Types s : S.

Lemma runs_bind {A B} (m : M S A) (k : A -> M S B) s (Q : B -> S -> Prop) :
  runs m s (fun a s' => runs (k a) s' Q) -> runs (bind m k) s Q.
Proof. unfold runs, bind. by destruct (m s) as [[]]. Qed.

Lemma runs_bind_inv {A B} (m : M S A) (k : A -> M S B) s (Q : B -> S -> Prop) :
  runs (bind m k) s Q -> runs m s (fun a s' => runs (k a) s' Q).
Proof. unfold runs, bind. by destruct (m s) as [[]]. Qed.

Lemma runs_mono {A} (m : M S A) s (Q R : A -> S -> Prop) :
  runs m s Q -> (forall a s', Q a s' -> R a s') -> runs m s R.
Proof. unfold runs. destruct (m s) as [[]]; auto. Qed.

Lemma runs_ret {A} (a : A) s (Q : A -> S -> Prop) : Q a s -> runs (ret a) s Q.
Proof. done. Qed.
Lemma runs_get s (Q : S -> S -> Prop) : Q s s -> runs get s Q.
Proof. done. Qed.
Lemma runs_gets {A} (f : S -> A) s (Q : A -> S -> Prop) : Q (f s) s -> runs (gets f) s Q.
Proof. done. Qed.
Lemma runs_modify (f : S -> S) s (Q : unit -> S -> Prop) : Q tt (f s) -> runs (modify f) s Q.
Proof. done. Qed.
Lemma runs_guard (b : bool) e s (Q : unit -> S -> Prop) :
  b = false -> Q tt s -> runs (Prelude.guard b e) s Q.
Proof. by intros ->. Qed.
Lemma runs_lift {A} (r : res A) (a : A) s (Q : A -> S -> Prop) :
  r = Ok a -> Q a s -> runs (lift r) s Q.
Proof. by intros ->. Qed.
Lemma runs_eq {A} (m : M S A) s a s' (Q : A -> S -> Prop) :
  m s = (Ok a, s') -> Q a s' -> runs m s Q.
Proof. unfold runs. by intros ->. Qed.
Lemma runs_result {A} (m : M S A) s (Q : A -> S -> Prop) :
  runs m s Q -> exists a s', m s = (Ok a, s') /\ Q a s'.
Proof. unfold runs. destruct (m s) as [[]]; [eauto|done]. Qed.

Lemma runs_zoom {T A} `{Lens S T} (m : M T A) s (Q : A -> S -> Prop) :
  runs m (lget s) (fun a t => Q a (lset t s)) -> runs (zoom m) s Q.
Proof. unfold runs, zoom. by destruct (m (lget s)) as [[]]. Qed.
End runs.

Section runsRM.
Context {P D : Type}.

Lemma runs_getRegion (rid : Z) (s : RM P D) (r : Region) (Q : Region -> RM P D -> Prop) :
  regions_ s !! Z.to_nat rid = Some r -> Q r s -> runs (getRegion rid) s Q.
Proof. unfold runs, getRegion. by intros ->. Qed.

Lemma runs_onRegion {A} (rid : Z) (m : M Region A) (s : RM P D) (r : Region) (Q : A -> RM P D -> Prop) :
  regions_ s !! Z.to_nat rid = Some r ->
  runs m r (fun a r' => Q a (set_regions (<[Z.to_nat rid := r']> (regions_ s)) s)) ->
  runs (onRegion rid m) s Q.
Proof. unfold runs, onRegion. intros ->. by destruct (m r) as [[]]. Qed.

Lemma runs_onPolicy {A} (m : M P A) (s : RM P D) (Q : A -> RM P D -> Prop) :
  runs m (policy_ s) (fun a p => Q a (set_policy p s)) -> runs (onPolicy m) s Q.
Proof. unfold runs, onPolicy. by destruct (m (policy_ s)) as [[]]. Qed.

Lemma runs_onDevice {A} (m : M D A) (s : RM P D) (Q : A -> RM P D -> Prop) :
  runs m (device_ s) (fun a d => Q a (set_device d s)) -> runs (onDevice m) s Q.
Proof. unfold runs, onDevice. by destruct (m (device_ s)) as [[]]. Qed.
End runsRM.

(** One step of a run. *)
Ltac runs_step :=
  lazymatch goal with
  | |- runs (bind _ _) _ _ => apply runs_bind
  | |- runs (ret _) _ _ => apply runs_ret
  | |- runs get _ _ => apply runs_get
  | |- runs (gets _) _ _ => apply runs_gets
  | |- runs (modify _) _ _ => apply runs_modify
  | |- runs (zoom _) _ _ => apply runs_zoom
  | |- runs (onPolicy _) _ _ => apply runs_onPolicy
  | |- runs (onDevice _) _ _ => apply runs_onDevice
  | |- runs (if ?b then _ else _) _ _ => destruct b eqn:?
  end.
Ltac runs_steps := repeat (runs_step; cbv beta).
