(* ===== verification/BlockCodec.v ===== *)
(** * Entries on the device

    The layout, sizes and addresses of the entries the block cache writes, and
    the device under it. *)

From S2P Require Import Prelude Bytes BloomFilter Device BigHash Region RegionPolicy BlockIndex RegionManager BlockCache.
From stdpp Require Import base tactics numbers list.

#[local] Open Scope Z_scope.

(** ** Entries on the device: layout, sizes and addresses

    What the block cache writes for an entry parses back to it, sizes are
    multiples of the allocation alignment that fit their 32 and 16 bits, and
    the address the index stores for the end of a slot decodes to that slot. *)

(** ** Alignment *)

Definition alignUp (n a : Z) : Z := (n + (a - 1)) / a * a.

(** The mask that clears the low bits. *)
Lemma land_clear (x k : Z) :
  0 <= k < 64 -> 0 <= x < 2 ^ 64 -> Z.land x (Z.lxor (2 ^ k - 1) (Z.ones 64)) = x / 2 ^ k * 2 ^ k.
Proof.
  intros Hk Hx. rewrite <- Z.shiftr_div_pow2, <- Z.shiftl_mul_pow2 by lia.
  replace (2 ^ k - 1) with (Z.ones k) by (rewrite Z.ones_equiv; lia).
  apply Z.bits_inj'. intros i Hi. rewrite Z.land_spec, Z.lxor_spec, !Z.testbit_ones_nonneg by lia.
  rewrite Z.shiftl_spec by done. destruct (Z.ltb_spec i k).
  - rewrite (Z.testbit_neg_r _ (i - k)) by lia. rewrite (proj2 (Z.ltb_lt i 64)) by lia. by rewrite andb_false_r.
  - rewrite Z.shiftr_spec by lia. replace (i - k + k) with i by lia. cbn [xorb].
    destruct (Z.ltb_spec i 64); [by rewrite andb_true_r|]. rewrite andb_false_r. symmetry.
    by apply (testbit_above x 64).
Qed.

Lemma powTwoAlign_up (n k : Z) :
  0 <= k < 64 -> 0 <= n -> n + 2 ^ k <= 2 ^ 64 -> powTwoAlign n (2 ^ k) = alignUp n (2 ^ k).
Proof.
  intros Hk Hn Hs. unfold powTwoAlign, alignUp.
  assert (Hp : 0 < 2 ^ k) by lia. rewrite u64_small by (unfold is_u64; lia). apply land_clear; lia.
Qed.

Lemma block_alignUp_spec (n a : Z) : 0 < a -> n <= alignUp n a < n + a /\ alignUp n a mod a = 0.
Proof.
  intros Ha. unfold alignUp. rewrite Z.mod_mul by lia.
  pose proof (Z.div_mod (n + (a - 1)) a). pose proof (Z.mod_pos_bound (n + (a - 1)) a Ha). lia.
Qed.

Lemma alignUp_pos (n a : Z) : 0 < a -> 0 < n -> a <= alignUp n a.
Proof.
  intros Ha Hn. destruct (block_alignUp_spec n a Ha) as [H1 H2]. apply Z.mod_divide in H2; [|lia].
  destruct H2 as [q Hq]. rewrite Hq in *. assert (0 < q) by nia. nia.
Qed.

Lemma alignUp_mult (n a b : Z) : 0 < b -> a mod b = 0 -> 0 < a -> alignUp n a mod b = 0.
Proof.
  intros Hb Hab Ha. destruct (block_alignUp_spec n a Ha) as [_ H2].
  apply Z.mod_divide in H2 as [q ->]; [|lia]. apply Z.mod_divide in Hab as [p ->]; [|lia].
  rewrite Z.mul_assoc. apply Z.mod_mul. lia.
Qed.

(** ** The size hint *)

Lemma sizeHint_covers (n : Z) :
  0 < n <= kMaxItemSize -> n mod kMinAllocAlignSize = 0 ->
  decodeSizeHint (encodeSizeHint n) = n /\ 0 <= encodeSizeHint n < 2 ^ 16.
Proof.
  unfold kMaxItemSize, kMinAllocAlignSize. intros Hn Hm. unfold encodeSizeHint, decodeSizeHint, kMinAllocAlignSize.
  change 512 with (2 ^ 9). rewrite powTwoAlign_up by lia.
  apply Z.mod_divide in Hm as [q ->]; [|lia].
  assert (E : alignUp (q * 512) (2 ^ 9) = q * 512).
  { unfold alignUp. change (2 ^ 9) with 512. f_equal. symmetry.
    apply (Z.div_unique_pos _ _ _ 511); lia. }
  rewrite E. change (2 ^ 9) with 512. rewrite Z.div_mul by lia.
  unfold u16, u32. rewrite !(Z.mod_small q) by lia. rewrite Z.mod_small by lia. split; [done|lia].
Qed.

(** ** Entries *)

Record Entry : Type := mkEnt { e_key : bytes; e_val : bytes; e_time : Z }.

Section codec.
Variable hashBuffer : bytes -> Z.
Variable checksum : bytes -> Z.
Hypothesis hash_u64 : forall b, is_u64 (hashBuffer b).
Hypothesis checksum_u32 : forall b, is_u32 (checksum b).
Variable align : Z.
Variable sums : bool.

Definition esize (e : Entry) : Z := alignUp (descSize + zlen (e_key e) + zlen (e_val e)) align.

Definition e_header (e : Entry) : bytes :=
  descHeader (zlen (e_key e)) (zlen (e_val e)) (hashBuffer (e_key e)) (e_time e).

Definition e_desc (e : Entry) (c : Z) : EntryDesc :=
  mkEntryDesc (zlen (e_key e)) (zlen (e_val e)) (hashBuffer (e_key e)) (e_time e)
    (checksum (e_header e)) c.

(** The bytes of a slot that holds the entry. The last four are padding. *)
Definition slot (e : Entry) (sb : bytes) : Prop :=
  zlen sb = esize e /\
  exists pad c tail, zlen tail = 4 /\ is_u32 c /\ (sums = true -> c = checksum (e_val e)) /\
    sb = e_val e ++ pad ++ e_key e ++ e_header e ++ le32 (checksum (e_header e)) ++ le32 c ++ tail.

Definition entry_ok (e : Entry) : Prop :=
  is_bytes (e_key e) /\ is_bytes (e_val e) /\ is_u32 (e_time e) /\
  esize e <= kMaxItemSize /\ zlen (e_key e) < 2 ^ 32 /\ zlen (e_val e) < 2 ^ 32.

Lemma zlen_header (e : Entry) : zlen (e_header e) = 20.
Proof. unfold e_header, descHeader. autorewrite with zlen. lia. Qed.

Lemma load32_at (a b : bytes) (x off : Z) :
  is_u32 x -> off = zlen a -> load32 (a ++ le32 x ++ b) off = Ok x.
Proof.
  intros Hx ->. unfold load32. rewrite load_app by (autorewrite with zlen; lia). cbn.
  by rewrite le_to_Z_le32.
Qed.

Lemma load64_at (a b : bytes) (x off : Z) :
  is_u64 x -> off = zlen a -> load64 (a ++ le64 x ++ b) off = Ok x.
Proof.
  intros Hx ->. unfold load64. rewrite load_app by (autorewrite with zlen; lia). cbn.
  by rewrite le_to_Z_le64.
Qed.

Lemma parse_at (f post : bytes) (ks vs kh t c1 c2 : Z) :
  is_u32 ks -> is_u32 vs -> is_u64 kh -> is_u32 t -> is_u32 c1 -> is_u32 c2 ->
  parseDesc (f ++ le32 ks ++ le32 vs ++ le64 kh ++ le32 t ++ le32 c1 ++ le32 c2 ++ post) (zlen f + descSize)
  = Ok (mkEntryDesc ks vs kh t c1 c2).
Proof.
  intros. unfold parseDesc, descSize. replace (zlen f + 32 - 32) with (zlen f) by lia.
  rewrite load32_at by done. cbn [rbind].
  rewrite (app_assoc f (le32 ks)), load32_at by (autorewrite with zlen; lia || done). cbn [rbind].
  rewrite (app_assoc (f ++ le32 ks)), load64_at by (autorewrite with zlen; lia || done). cbn [rbind].
  rewrite (app_assoc ((f ++ le32 ks) ++ le32 vs)), load32_at by (autorewrite with zlen; lia || done). cbn [rbind].
  rewrite (app_assoc (((f ++ le32 ks) ++ le32 vs) ++ le64 kh)), load32_at
    by (autorewrite with zlen; lia || done). cbn [rbind].
  rewrite (app_assoc ((((f ++ le32 ks) ++ le32 vs) ++ le64 kh) ++ le32 t)), load32_at
    by (autorewrite with zlen; lia || done). done.
Qed.

(** Reading the descriptor, the key and the value of a slot that ends at
    [zlen pre + esize e]. *)
Lemma slot_parse (e : Entry) (sb pre post : bytes) :
  entry_ok e -> slot e sb ->
  exists c, parseDesc (pre ++ sb ++ post) (zlen pre + esize e) = Ok (e_desc e c) /\
    (sums = true -> c = checksum (e_val e)).
Proof.
  intros (_ & _ & Ht & _ & Hk & Hv) (Hl & pad & c & tail & H4 & Hc & Hs & ->). exists c. split; [|done].
  rewrite <- Hl. set (f := pre ++ e_val e ++ pad ++ e_key e).
  replace (zlen pre + zlen (e_val e ++ pad ++ e_key e ++ e_header e ++ le32 (checksum (e_header e)) ++ le32 c ++ tail))
    with (zlen f + descSize)
    by (unfold f, descSize; autorewrite with zlen; pose proof (zlen_header e); lia).
  replace (pre ++ (e_val e ++ pad ++ e_key e ++ e_header e ++ le32 (checksum (e_header e)) ++ le32 c ++ tail) ++ post)
    with (f ++ e_header e ++ le32 (checksum (e_header e)) ++ le32 c ++ tail ++ post)
    by (unfold f; by rewrite <- !app_assoc).
  unfold e_desc. set (k := checksum (e_header e)). assert (Hk' : is_u32 k) by apply checksum_u32. clearbody k.
  unfold e_header, descHeader. rewrite <- !app_assoc.
  pose proof (zlen_nonneg (e_key e)). pose proof (zlen_nonneg (e_val e)).
  apply parse_at; unfold is_u32 in *; (lia || done || apply hash_u64).
Qed.

Lemma slot_key (e : Entry) (sb pre post : bytes) :
  slot e sb ->
  load (pre ++ sb ++ post) (zlen pre + esize e - descSize - zlen (e_key e)) (zlen (e_key e)) = Ok (e_key e).
Proof.
  intros (Hl & pad & c & tail & H4 & Hc & Hs & ->). rewrite <- Hl.
  pose proof (zlen_header e). rewrite <- !app_assoc, (app_assoc pre), (app_assoc (pre ++ _)).
  apply load_app; [|done]. unfold descSize. autorewrite with zlen. lia.
Qed.

Lemma slot_value (e : Entry) (sb pre post : bytes) :
  slot e sb -> load (pre ++ sb ++ post) (zlen pre) (zlen (e_val e)) = Ok (e_val e).
Proof.
  intros (Hl & pad & c & tail & H4 & Hc & Hs & ->). rewrite <- !app_assoc. by apply load_app.
Qed.

(** ** The entries of a region, from its start *)

Definition span (L : list Entry) : Z := sumZ (esize <$> L).

Definition chain (b : bytes) (L : list Entry) : Prop :=
  exists sbs rest, b = concat sbs ++ rest /\ Forall2 slot L sbs.

Lemma span_app (L K : list Entry) : span (L ++ K) = span L + span K.
Proof. unfold span. by rewrite fmap_app, sumZ_app. Qed.

Lemma span_cons (e : Entry) (L : list Entry) : span (e :: L) = esize e + span L.
Proof. done. Qed.

Lemma span_nil : span [] = 0.
Proof. done. Qed.

Lemma span_snoc (L : list Entry) (e : Entry) : span (L ++ [e]) = span L + esize e.
Proof. rewrite span_app. unfold span at 2. cbn. lia. Qed.

Lemma chain_span (L : list Entry) (sbs : list bytes) : Forall2 slot L sbs -> zlen (concat sbs) = span L.
Proof.
  induction 1 as [|e sb L sbs [Hl _] _ IH]; [done|]. cbn [concat]. rewrite zlen_app, IH, Hl. done.
Qed.

(** An entry of the chain, and the bytes around it. *)
Lemma chain_split (b : bytes) (L1 L2 : list Entry) (e : Entry) :
  chain b (L1 ++ e :: L2) ->
  exists pre sb post, b = pre ++ sb ++ post /\ zlen pre = span L1 /\ slot e sb.
Proof.
  intros (sbs & rest & -> & Hf). apply Forall2_app_inv_l in Hf as (s1 & s2 & H1 & H2 & ->).
  inversion H2 as [|x sb ? s3 Hs H3]; subst. exists (concat s1), sb, (concat s3 ++ rest).
  split; [|split; [by apply chain_span|done]].
  rewrite concat_app. cbn [concat]. by rewrite <- !app_assoc.
Qed.

(** Only the bytes up to the end of the chain matter. *)
Lemma chain_prefix (b b' : bytes) (L : list Entry) :
  chain b L -> peek b 0 (span L) = peek b' 0 (span L) -> chain b' L.
Proof.
  intros (sbs & rest & -> & Hf) Hp. exists sbs, (drop (length (concat sbs)) b').
  pose proof (chain_span L sbs Hf) as Ht. split; [|done]. unfold peek in Hp.
  change (Z.to_nat 0) with 0%nat in Hp. rewrite !drop_0, <- Ht in Hp. unfold zlen in Hp.
  rewrite Nat2Z.id, take_app_length in Hp. rewrite Hp at 1. by rewrite take_drop.
Qed.

Lemma chain_peek (b : bytes) (L : list Entry) : chain b L -> chain (peek b 0 (span L)) L.
Proof.
  intros (sbs & rest & -> & Hf). pose proof (chain_span L sbs Hf) as Ht. exists sbs, []. split; [|done].
  unfold peek. change (Z.to_nat 0) with 0%nat. rewrite drop_0, <- Ht. unfold zlen.
  rewrite Nat2Z.id, take_app_length. by rewrite app_nil_r.
Qed.

Lemma chain_snoc (b : bytes) (L : list Entry) (e : Entry) (sbs : list bytes) (sb rest : bytes) :
  Forall2 slot L sbs -> slot e sb -> b = concat sbs ++ sb ++ rest -> chain b (L ++ [e]).
Proof.
  intros Hf Hs ->. exists (sbs ++ [sb]), rest. split.
  - rewrite concat_app. cbn. by rewrite app_nil_r, <- app_assoc.
  - by apply Forall2_app; [|constructor].
Qed.

Lemma block_esize_pos (e : Entry) : 0 < align -> 0 < esize e.
Proof.
  intros Ha. pose proof (alignUp_pos (descSize + zlen (e_key e) + zlen (e_val e)) align Ha).
  unfold esize. unfold descSize in *. pose proof (zlen_nonneg (e_key e)). pose proof (zlen_nonneg (e_val e)). lia.
Qed.

Lemma span_nonneg (L : list Entry) : 0 < align -> 0 <= span L.
Proof.
  intros Ha. unfold span. apply sumZ_nonneg. intros x (e & -> & _)%list_elem_of_fmap.
  pose proof (block_esize_pos e Ha). lia.
Qed.

Lemma span_mod (L : list Entry) : 0 < align -> span L mod align = 0.
Proof.
  intros Ha. induction L as [|e L IH]; [by apply Z.mod_0_l; lia|].
  change (span (e :: L)) with (esize e + span L). rewrite Zplus_mod, IH.
  destruct (block_alignUp_spec (descSize + zlen (e_key e) + zlen (e_val e)) align Ha) as [_ Hm].
  unfold esize. rewrite Hm. by apply Z.mod_0_l; lia.
Qed.
End codec.

(** ** The device as the block cache sees it

    A [Device] without an encryptor whose transfers read what was written is a
    device of the region manager: a read of any range inside what was written
    goes through the aligned range around it and gives the bytes asked for. *)

#[export] Instance Device_block {I} `{DeviceImpl I} : BlockDevice (Device I) := {|
  bdWrite := Device.write;
  bdRead := Device.readBuffer;
  bdFlush := Device.flush
|}.

(** Reads that do not fail, and a flush that keeps what is stored. *)
Class ReliableReads (I : Type) `{DeviceImplLaws I} : Prop := {
  no_read_fault : ~ read_fault (I := I);
  flush_stores (i : I) : exists i', flushImpl i = (Ok tt, i') /\ implSize i' = implSize i /\
    (forall o c, stores i o c -> stores i' o c)
}.

#[export] Instance MemoryDevice_reliable : ReliableReads MemoryDevice.
Proof.
  split.
  - intros (o & n & i & i' & E). cbn in E. destruct (load _ _ _); discriminate E.
  - intros i. by exists i.
Qed.

Section laws.
Context {I : Type} {DI : DeviceImpl I} {DL : DeviceImplLaws I} {DR : ReliableReads I}.
Notation Dev := (Device I).

Definition plain_holds (d : Dev) (off : Z) (bs : bytes) : Prop :=
  encryptor_ d = None /\ stores (impl_ d) off bs.

Definition plain_can (d : Dev) (off n : Z) : Prop :=
  encryptor_ d = None /\ dev_canTransfer d off n /\ 0 <= n < 2 ^ 32 /\
  exists k, 0 <= k < 32 /\ ioAlignmentSize_ d = 2 ^ k /\ off mod 2 ^ k = 0 /\ n mod 2 ^ k = 0.

Lemma plain_can_same (d d' : Dev) (o n : Z) : same_config d d' -> plain_can d o n -> plain_can d' o n.
Proof.
  intros Hc (He & Ht & Hn & k & Hk & Ha & Hr). pose proof Hc as (_ & E1 & _ & _ & E2 & _).
  split; [by rewrite E2|]. split; [by apply (canTransfer_same d)|]. split; [done|]. exists k. by rewrite E1.
Qed.

Lemma plain_keep (d d' : Dev) : same_config d d' -> (forall o c, stores (impl_ d) o c -> stores (impl_ d') o c) ->
  (forall o c, plain_holds d o c -> plain_holds d' o c) /\ (forall o m, plain_can d o m -> plain_can d' o m).
Proof.
  intros Hc Hs. split; [|intros o m; by apply plain_can_same].
  intros o c [He Hst]. split; [|by apply Hs]. destruct Hc as (_ & _ & _ & _ & E & _). by rewrite E.
Qed.

(** The aligned range around [i], [n] lies inside a range with aligned ends. *)
Lemma aligned_inside (a off len i n : Z) :
  0 < a -> 0 <= off -> off mod a = 0 -> len mod a = 0 -> 0 <= i -> 0 <= n -> i + n <= len ->
  let ro := (off + i) / a * a in
  off <= ro /\ ro + (off + i) mod a = off + i /\ ro + alignUp ((off + i) mod a + n) a <= off + len.
Proof.
  intros Ha Hoff Ho Hl Hi Hn Hin ro.
  apply Z.mod_divide in Ho as [q ->]; [|lia]. apply Z.mod_divide in Hl as [p ->]; [|lia].
  pose proof (Z.div_mod (q * a + i) a) as Hd. pose proof (Z.mod_pos_bound (q * a + i) a Ha) as Hm.
  assert (Hro : ro + (q * a + i) mod a = q * a + i) by (unfold ro; lia).
  split_and!; [|done|].
  - unfold ro. rewrite Z.div_add_l by lia. pose proof (Z.div_pos i a). nia.
  - destruct (block_alignUp_spec ((q * a + i) mod a + n) a Ha) as [[H1 H2] H3].
    apply Z.mod_divide in H3 as [m Em]; [|lia]. rewrite Em in *. unfold ro in *.
    set (j := (q * a + i) / a) in *. assert (j + m <= q + p); [|nia]. nia.
Qed.

Lemma plain_read (d : Dev) (off : Z) (bs : bytes) (i n : Z) :
  plain_holds d off bs -> plain_can d off (zlen bs) -> 0 <= i -> 0 <= n -> i + n <= zlen bs ->
  exists d', Device.readBuffer (off + i) n d = (Ok (Some (peek bs i n)), d') /\
    (forall o c, plain_holds d o c -> plain_holds d' o c) /\ (forall o m, plain_can d o m -> plain_can d' o m).
Proof.
  intros [He Hst] (_ & Ht & Hl & k & Hk & Ea & Hoff & Hlen) Hi Hn Hin.
  destruct Ht as (Ho & Hsz & H64 & _ & Hmax & Hmw & _). set (a := 2 ^ k) in *. assert (Ha : 0 < a) by (unfold a; lia).
  assert (Hab : a < 2 ^ 32) by (unfold a; apply Z.pow_lt_mono_r; lia).
  destruct (aligned_inside a off (zlen bs) i n Ha Ho Hoff Hlen Hi Hn Hin) as (Hlo & Hpre & Hhi).
  set (ro := (off + i) / a * a) in *. set (pf := (off + i) mod a) in *.
  destruct (block_alignUp_spec (pf + n) a Ha) as [[Hu1 Hu2] _]. set (m := alignUp (pf + n) a) in *.
  pose proof (Z.mod_pos_bound (off + i) a Ha) as Hpf. fold pf in Hpf.
  destruct (bytes_split bs (ro - off) m) as (x & y & z & Ebs & Ex & Ey); [lia..|].
  rewrite Ebs, !stores_app in Hst. destruct Hst as (_ & Hst & _). replace (off + zlen x) with ro in Hst by lia.
  unfold Device.readBuffer, bind, get. rewrite Ea. fold a.
  unfold getIOAlignedSize. rewrite Ea. unfold a at 1 2. rewrite land_clear by lia. fold a. fold ro.
  replace (Z.land (off + i) (a - 1)) with pf.
  2: { unfold pf, a. rewrite <- Z.land_ones by lia. f_equal. rewrite Z.ones_equiv. lia. }
  assert (Ep : powTwoAlign (pf + n) a = m) by (unfold a, m; apply powTwoAlign_up; fold a; lia).
  rewrite Ep, u32_small by (unfold is_u32; lia). rewrite Ey.
  destruct (readInternal_spec ro y d) as (r & d' & E & Hc & Hr & Hf).
  { unfold dev_holds. by rewrite He. }
  { unfold dev_canTransfer. rewrite He. split_and!; try done; lia. }
  destruct Hr as [->|[_ Hbad]]; [|by destruct (no_read_fault Hbad)].
  rewrite E. unfold ret. exists d'. split; [|by apply plain_keep]. do 3 f_equal.
  unfold peek. rewrite Ebs. unfold zlen in *.
  replace (Z.to_nat i) with (length x + Z.to_nat pf)%nat by lia.
  rewrite <- drop_drop, drop_app_length, drop_app_le by lia. rewrite take_app_le; [done|]. rewrite length_drop. lia.
Qed.

#[export, refine] Instance Device_block_laws : BlockDeviceLaws Dev := {|
  bd_holds := plain_holds;
  bd_can := plain_can
|}.
Proof.
  - apply plain_read.
  - intros d off bs (He & Ht & Hl & Hk).
    destruct (dev_write_spec off bs d Ht) as (ok & d' & E & Hc & Hok & Hf). exists ok, d'.
    pose proof Hc as (_ & _ & _ & _ & Ee & _). rewrite He in Ee.
    split_and!; [exact E| | |].
    + intros ->. unfold dev_holds in Hok. rewrite Ee in Hok. by split.
    + intros o c [_ Hst] Hd. split; [done|]. specialize (Hf o c). unfold dev_holds in Hf. rewrite He, Ee in Hf. by apply Hf.
    + intros o m. by apply plain_can_same.
  - intros d. destruct (flush_stores (impl_ d)) as (i' & E & Hsz & Hst). exists (set_impl i' d).
    split; [cbn; unfold Device.flush, onImpl; by rewrite E|]. apply plain_keep; [by unfold same_config|done].
Defined.
End laws.
