(* ===== verification/BlockCacheInv.v ===== *)
(** * The invariant of the block cache

    Every region is in one place: held by a running job, tracked by the
    policy, clean, owned by an allocator or waiting to be flushed. A region
    holds a chain of entries, in its buffer or on the device, and every
    address in the index is the end of an entry of some chain whose key has
    that hash and whose value is the last one written for the key. *)

From S2P Require Import Prelude Bytes BloomFilter Device BigHash Region RegionPolicy RegionManager BlockIndex BlockCache Runs BlockCodec.
From stdpp Require Import base tactics numbers list.

#[local] Open Scope Z_scope.

Section inv.
Context {P D X : Type} {IP : EvictionPolicy P} {LP : EvictionPolicyLaws P} {ID : BlockDevice D}.
Context {LD : BlockDeviceLaws D} {IX : Index X} {LX : IndexLaws X}.
Variable hashBuffer : bytes -> Z.
Variable checksum : bytes -> Z.
Variable bc : BCConfig X.
Variable rc : RMConfig.

Notation align := (allocAlignSize_ bc).
Notation rs := (rmRegionSize_ rc).
Notation nregs := (numRegions_ rc).
Notation base := (baseOffset_ rc).
Notation slot_ := (slot hashBuffer checksum align (checksumData_ bc)).
Notation chain_ := (chain hashBuffer checksum align (checksumData_ bc)).
Notation esz := (esize align).
Notation tot := (span align).

(** The configurations the theorems are about: what [Config::validate] and
    [BlockCache::validate] check, less the cache of exactly [2 ^ 32] allocation
    units, which they accept and whose last slot has no address of 32 bits; and
    callbacks, the expiry check and the reinsertion policy, that do not throw.
    [reinsertOrRemoveItem] catches what they throw and leaves the item in the
    index, from where its region, filled anew, is read: values that were
    overwritten come back (an example is in BlockCacheSafety.v). *)
Record config_ok : Prop := {
  co_hash : forall b, is_u64 (hashBuffer b);
  co_sum : forall b, is_u32 (checksum b);
  co_align : exists k, 9 <= k <= 30 /\ align = 2 ^ k;
  co_rs : 0 < rs <= 2 ^ 30;
  co_rs_align : rs mod align = 0;
  co_n : 0 < nregs < kInvalid;
  co_cache : nregs * rs < align * 2 ^ 32;
  co_base : 0 <= base;
  co_end : base + nregs * rs < 2 ^ 64;
  co_expired : forall f v, checkExpired_ bc = Some f -> exists b, f v = Ok b;
  co_reinsert : forall f n x k v, shouldReinsert_ bc = Some f -> exists b, f n x k v = Ok b
}.

Lemma align_pos : config_ok -> 0 < align.
Proof. intros C. destruct (co_align C) as (k & Hk & ->). lia. Qed.

Lemma align_512 : config_ok -> 512 <= align /\ align mod 512 = 0 /\ align <= 2 ^ 30.
Proof.
  intros C. destruct (co_align C) as (k & Hk & ->).
  replace k with (9 + (k - 9)) by lia. rewrite Z.pow_add_r by lia. change (2 ^ 9) with 512.
  assert (0 < 2 ^ (k - 9)) by lia. split; [nia|]. split; [rewrite Z.mul_comm; apply Z.mod_mul; lia|].
  change 512 with (2 ^ 9). rewrite <- Z.pow_add_r by lia. apply Z.pow_le_mono_r; lia.
Qed.

(** ** Addresses *)

Definition code (rid ofs : Z) : Z := (rid * rs + ofs) / align.

Lemma cache_bound : config_ok -> nregs * rs < 2 ^ 62.
Proof. intros C. pose proof (co_cache C). destruct (align_512 C) as (_ & _ & Ha). nia. Qed.

Lemma rid_bound (rid : Z) : config_ok -> 0 <= rid < nregs -> 0 <= rid * rs /\ rid * rs + rs <= nregs * rs.
Proof. intros C Hr. pose proof (co_rs C). nia. Qed.

Lemma toAbsolute_eq (s : RM P D) (rid ofs : Z) :
  config_ok -> cfg s = rc -> 0 <= rid < nregs -> 0 <= ofs <= rs ->
  toAbsolute s (mkRel rid ofs) = rid * rs + ofs.
Proof.
  intros C E Hr Ho. unfold toAbsolute. rewrite E. cbn [addr_offset addr_rid].
  pose proof (cache_bound C). destruct (rid_bound rid C Hr).
  rewrite (u64_small (rid * rs)) by (unfold is_u64; lia). rewrite u64_small by (unfold is_u64; lia). lia.
Qed.

Lemma code_u32 (rid ofs : Z) : config_ok -> 0 <= rid < nregs -> 0 <= ofs <= rs -> is_u32 (code rid ofs).
Proof.
  intros C Hr Ho. unfold code, is_u32. destruct (rid_bound rid C Hr). pose proof (align_pos C). pose proof (co_cache C).
  split; [apply Z.div_pos; lia|]. apply Z.div_lt_upper_bound; lia.
Qed.

Lemma encode_eq (s : BC P D X) (rid ofs : Z) :
  config_ok -> bcfg s = bc -> cfg (regionManager_ s) = rc -> 0 <= rid < nregs -> 0 <= ofs <= rs ->
  encodeRelAddress s (mkRel rid ofs) = code rid ofs.
Proof.
  intros C E1 E2 Hr Ho. unfold encodeRelAddress. rewrite (toAbsolute_eq _ rid ofs), E1 by done.
  apply u32_small. by apply code_u32.
Qed.

Lemma code_eq (rid ofs : Z) :
  config_ok -> 0 <= rid < nregs -> 0 <= ofs -> ofs mod align = 0 -> code rid ofs * align = rid * rs + ofs.
Proof.
  intros C Hr Ho Hm. pose proof (align_pos C) as Ha. unfold code.
  pose proof (co_rs_align C) as Hrs. apply Z.mod_divide in Hm as [q ->]; [|lia].
  apply Z.mod_divide in Hrs as [p Hp]; [|lia]. rewrite Hp.
  replace (rid * (p * align) + q * align) with ((rid * p + q) * align) by lia.
  rewrite Z.div_mul; lia.
Qed.

Lemma decode_code (s : BC P D X) (rid ofs : Z) :
  config_ok -> bcfg s = bc -> cfg (regionManager_ s) = rc ->
  0 <= rid < nregs -> 0 < ofs <= rs -> ofs mod align = 0 ->
  decodeRelAddress s (code rid ofs) = mkRel rid ofs.
Proof.
  intros C E1 E2 Hr Ho Hm. unfold decodeRelAddress, decodeAbsAddress, subAbs, toRelative, addRel.
  rewrite E1, E2, (code_eq rid ofs) by (done || lia). pose proof (cache_bound C). destruct (rid_bound rid C Hr).
  pose proof (co_n C). pose proof (co_rs C). unfold kInvalid in *.
  rewrite (u64_small (rid * rs + ofs)), u64_small by (unfold is_u64; lia). cbn [addr_rid addr_offset].
  assert (Eq : (rid * rs + ofs - 1) / rs = rid) by (symmetry; apply (Z.div_unique_pos _ _ _ (ofs - 1)); lia).
  assert (Em : (rid * rs + ofs - 1) mod rs = ofs - 1) by (symmetry; apply (Z.mod_unique_pos _ _ rid); lia).
  rewrite Eq, Em. rewrite (u32_small rid), (u32_small (ofs - 1)), u32_small by (unfold is_u32; lia).
  f_equal. lia.
Qed.

Lemma code_inj (rid rid' ofs ofs' : Z) :
  config_ok -> 0 <= rid < nregs -> 0 <= rid' < nregs -> 0 < ofs <= rs -> 0 < ofs' <= rs ->
  ofs mod align = 0 -> ofs' mod align = 0 -> code rid ofs = code rid' ofs' -> rid = rid' /\ ofs = ofs'.
Proof.
  intros C Hr Hr' Ho Ho' Hm Hm' E. apply (f_equal (fun x => x * align)) in E.
  rewrite !code_eq in E by (done || lia).
  destruct (Z.lt_trichotomy rid rid') as [Hl|[->|Hl]]; [exfalso; nia|lia|exfalso; nia].
Qed.

Lemma serializedSize_eq (s : BC P D X) (ks vs : Z) :
  config_ok -> bcfg s = bc -> 0 <= ks -> 0 <= vs -> descSize + ks + vs + align <= 2 ^ 32 ->
  serializedSize s ks vs = alignUp (descSize + ks + vs) align.
Proof.
  intros C E Hk Hv Hs. unfold serializedSize. rewrite E. unfold descSize in *. pose proof (align_pos C) as Ha.
  rewrite (u32_small (32 + ks + vs)) by (unfold is_u32; lia).
  destruct (co_align C) as (k & Hk' & Ea).
  assert (Ep : powTwoAlign (32 + ks + vs) align = alignUp (32 + ks + vs) align).
  { rewrite Ea. apply powTwoAlign_up; [lia|lia|]. rewrite <- Ea. lia. }
  rewrite Ep. apply u32_small. unfold is_u32.
  destruct (block_alignUp_spec (32 + ks + vs) align Ha) as [H1 _]. lia.
Qed.

(** ** Ownership *)

Definition owned (ras : list (list RegionAllocator)) : list Z :=
  filter (fun r => valid r = true) (ra_rid <$> concat ras).
Definition flushing (js : list Job) : list Z :=
  omap (fun j => match j with JFlush r => Some r | JReclaim => None end) js.

(** ** Regions *)

(** Where the bytes of a region are. *)
Definition data_ok (d : D) (i : Z) (r : Region) (L : list Entry) : Prop :=
  match buffer_ r with
  | Some b => zlen b = rs /\ chain_ b L
  | None => L = [] \/ exists b, bd_holds d (base + i * rs) b /\ zlen b = rs /\ chain_ b L
  end.

(** [w] is the region with an open writer, if any, and the size of the slot it
    has allocated and not written. *)
Definition pending (w : option (Z * Z)) (i : Z) : Z * Z :=
  match w with Some (j, n) => if decide (j = i) then (1, n) else (0, 0) | None => (0, 0) end.

Record region_ok (d : D) (w : option (Z * Z)) (i : Z) (r : Region) (L : list Entry) : Prop := {
  ro_id : regionId r = i;
  ro_size : regionSize_ r = rs;
  ro_phys : activePhysReaders_ r = 0;
  ro_inmem : activeInMemReaders_ r = 0;
  ro_writers : activeWriters_ r = (pending w i).1;
  ro_end : lastEntryEndOffset_ r = tot L + (pending w i).2;
  ro_items : numItems_ r = Z.of_nat (length L) + (if decide ((pending w i).2 = 0) then 0 else 1);
  ro_fits : 0 <= (pending w i).2 /\ tot L + (pending w i).2 <= rs;
  ro_data : data_ok d i r L
}.

(** What is known of a region by the place it is in. *)
Definition clean_ok (r : Region) : Prop :=
  buffer_ r = None /\ flags_ r = 0 /\ lastEntryEndOffset_ r = 0.
Definition filling_ok (r : Region) : Prop := is_Some (buffer_ r) /\ flags_ r = 0.
Definition flushing_ok (r : Region) : Prop :=
  is_Some (buffer_ r) /\ hasFlag kBlockAccess r = false /\ isFlushedLocked r = false /\ isCleanedupLocked r = false.
Definition tracked_ok (r : Region) : Prop := buffer_ r = None /\ hasFlag kBlockAccess r = false.

(** ** The index *)

(** [ofs] is the end of the entry [e] of the chain [L]. *)
Definition ends_at (L : list Entry) (e : Entry) (ofs : Z) : Prop :=
  exists L1 L2, L = L1 ++ e :: L2 /\ ofs = tot (L1 ++ [e]).

Definition points (x : X) (spec : bytes -> option bytes) (G : list (list Entry)) (h a n : Z) : Prop :=
  exists rid L e ofs, G !! Z.to_nat rid = Some L /\ 0 <= rid < nregs /\ ends_at L e ofs /\ a = code rid ofs /\
    same x h (hashBuffer (e_key e)) /\ spec (e_key e) = Some (e_val e) /\
    esz e <= decodeSizeHint n /\ 0 <= n < 2 ^ 16.

(** ** The invariant *)

Record Inv (spec : bytes -> option bytes) (held : list Z) (w : option (Z * Z)) (G : list (list Entry))
    (bcf : BCConfig X) (rcf : RMConfig) (d : D) (p : P) (rgs : list Region) (clean : list Z)
    (bufs : list (option bytes)) (js : list Job) (ras : list (list RegionAllocator)) (x : X) : Prop := {
  i_bcfg : bcf = bc;
  i_rcfg : rcf = rc;
  i_policy : policy_wf p;
  i_pri0 : okPriority p 0;
  i_ras : forall ra, ra ∈ concat ras -> okPriority p (ra_priority ra);
  i_pri : forall r, r ∈ rgs -> okPriority p (priority_ r);
  i_part : held ++ tracked p ++ clean ++ owned ras ++ flushing js ≡ₚ seqZ 0 nregs;
  i_len : Z.of_nat (length rgs) = nregs;
  i_glen : length G = length rgs;
  i_regs : forall i r L, rgs !! Z.to_nat i = Some r -> G !! Z.to_nat i = Some L -> 0 <= i -> region_ok d w i r L;
  i_entries : forall L e, L ∈ G -> e ∈ L -> entry_ok align e;
  i_tracked : forall i r, i ∈ tracked p -> rgs !! Z.to_nat i = Some r -> tracked_ok r;
  i_clean : forall i r, i ∈ clean -> rgs !! Z.to_nat i = Some r -> clean_ok r;
  i_owned : forall i r, i ∈ owned ras -> rgs !! Z.to_nat i = Some r -> filling_ok r;
  i_flushing : forall i r, i ∈ flushing js -> rgs !! Z.to_nat i = Some r -> flushing_ok r;
  i_bufs : forall o, o ∈ bufs -> exists b, o = Some b /\ zlen b = rs;
  i_index : index_wf x;
  i_points : forall h a n, locOf x h = Some (a, n) -> points x spec G h a n;
  i_can : forall i, 0 <= i < nregs -> bd_can d (base + i * rs) rs
}.

#[local] Arguments i_bcfg {spec held w G bcf rcf d p rgs clean bufs js ras x} _.
#[local] Arguments i_rcfg {spec held w G bcf rcf d p rgs clean bufs js ras x} _.
#[local] Arguments i_policy {spec held w G bcf rcf d p rgs clean bufs js ras x} _.
#[local] Arguments i_pri0 {spec held w G bcf rcf d p rgs clean bufs js ras x} _.
#[local] Arguments i_ras {spec held w G bcf rcf d p rgs clean bufs js ras x} _.
#[local] Arguments i_pri {spec held w G bcf rcf d p rgs clean bufs js ras x} _.
#[local] Arguments i_part {spec held w G bcf rcf d p rgs clean bufs js ras x} _.
#[local] Arguments i_len {spec held w G bcf rcf d p rgs clean bufs js ras x} _.
#[local] Arguments i_glen {spec held w G bcf rcf d p rgs clean bufs js ras x} _.
#[local] Arguments i_regs {spec held w G bcf rcf d p rgs clean bufs js ras x} _.
#[local] Arguments i_entries {spec held w G bcf rcf d p rgs clean bufs js ras x} _.
#[local] Arguments i_tracked {spec held w G bcf rcf d p rgs clean bufs js ras x} _.
#[local] Arguments i_clean {spec held w G bcf rcf d p rgs clean bufs js ras x} _.
#[local] Arguments i_owned {spec held w G bcf rcf d p rgs clean bufs js ras x} _.
#[local] Arguments i_flushing {spec held w G bcf rcf d p rgs clean bufs js ras x} _.
#[local] Arguments i_bufs {spec held w G bcf rcf d p rgs clean bufs js ras x} _.
#[local] Arguments i_index {spec held w G bcf rcf d p rgs clean bufs js ras x} _.
#[local] Arguments i_points {spec held w G bcf rcf d p rgs clean bufs js ras x} _.
#[local] Arguments i_can {spec held w G bcf rcf d p rgs clean bufs js ras x} _.

(** [ras] stands for the allocators: it is [allocators_ s] except between the
    moment an allocator's region is given up and the moment it says so. *)
Definition InvV (spec : bytes -> option bytes) (held : list Z) (w : option (Z * Z)) (G : list (list Entry))
    (ras : list (list RegionAllocator)) (s : BC P D X) : Prop :=
  Inv spec held w G (bcfg s) (cfg (regionManager_ s)) (device_ (regionManager_ s)) (policy_ (regionManager_ s))
    (regions_ (regionManager_ s)) (cleanRegions_ (regionManager_ s)) (buffers_ (regionManager_ s))
    (jobs_ (regionManager_ s)) ras (index_ s).
Definition InvS (spec : bytes -> option bytes) (held : list Z) (w : option (Z * Z)) (G : list (list Entry))
    (s : BC P D X) : Prop := InvV spec held w G (allocators_ s) s.

(** The regions held by a job are left alone by the code it calls. *)
Definition keeps (held : list Z) (G G' : list (list Entry)) (s s' : BC P D X) : Prop :=
  forall i, i ∈ held -> G' !! Z.to_nat i = G !! Z.to_nat i /\
    regions_ (regionManager_ s') !! Z.to_nat i = regions_ (regionManager_ s) !! Z.to_nat i.

(** ** Places *)

Section places.
Context (spec : bytes -> option bytes) (held : list Z) (w : option (Z * Z)) (G : list (list Entry))
  (bcf : BCConfig X) (rcf : RMConfig) (d : D) (p : P) (rgs : list Region) (clean : list Z)
  (bufs : list (option bytes)) (js : list Job) (ras : list (list RegionAllocator)) (x : X).
Hypothesis (C : config_ok) (I : Inv spec held w G bcf rcf d p rgs clean bufs js ras x).

Lemma part_range (i : Z) : i ∈ held ++ tracked p ++ clean ++ owned ras ++ flushing js -> 0 <= i < nregs.
Proof. rewrite (i_part I). intros Hi. apply elem_of_seqZ in Hi. lia. Qed.

Lemma part_NoDup : NoDup (held ++ tracked p ++ clean ++ owned ras ++ flushing js).
Proof. rewrite (i_part I). apply NoDup_seqZ. Qed.

Lemma region_at (i : Z) :
  0 <= i < nregs -> exists r L, rgs !! Z.to_nat i = Some r /\ G !! Z.to_nat i = Some L /\ region_ok d w i r L.
Proof.
  intros Hi. pose proof (i_len I) as Hl.
  pose proof (i_glen I) as Hg.
  destruct (lookup_lt_is_Some_2 rgs (Z.to_nat i)) as [r Hr]; [lia|].
  destruct (lookup_lt_is_Some_2 G (Z.to_nat i)) as [L HL]; [lia|].
  exists r, L. split_and!; [done|done|]. eapply i_regs; [exact I|done|done|lia].
Qed.

(** The regions of the places other than [held] are not held. *)
Lemma held_apart (i : Z) :
  i ∈ held -> i ∉ tracked p /\ i ∉ clean /\ i ∉ owned ras /\ i ∉ flushing js.
Proof.
  intros Hi. pose proof part_NoDup as Hd. apply NoDup_app in Hd as (_ & Hx & _). specialize (Hx i Hi).
  rewrite !elem_of_app in Hx. tauto.
Qed.
End places.
End inv.

#[global] Arguments i_bcfg {P D X IP LP ID LD IX LX hashBuffer checksum bc rc spec held w G bcf rcf d p rgs clean bufs js ras x} _.
#[global] Arguments i_rcfg {P D X IP LP ID LD IX LX hashBuffer checksum bc rc spec held w G bcf rcf d p rgs clean bufs js ras x} _.
#[global] Arguments i_policy {P D X IP LP ID LD IX LX hashBuffer checksum bc rc spec held w G bcf rcf d p rgs clean bufs js ras x} _.
#[global] Arguments i_pri0 {P D X IP LP ID LD IX LX hashBuffer checksum bc rc spec held w G bcf rcf d p rgs clean bufs js ras x} _.
#[global] Arguments i_ras {P D X IP LP ID LD IX LX hashBuffer checksum bc rc spec held w G bcf rcf d p rgs clean bufs js ras x} _.
#[global] Arguments i_pri {P D X IP LP ID LD IX LX hashBuffer checksum bc rc spec held w G bcf rcf d p rgs clean bufs js ras x} _.
#[global] Arguments i_part {P D X IP LP ID LD IX LX hashBuffer checksum bc rc spec held w G bcf rcf d p rgs clean bufs js ras x} _.
#[global] Arguments i_len {P D X IP LP ID LD IX LX hashBuffer checksum bc rc spec held w G bcf rcf d p rgs clean bufs js ras x} _.
#[global] Arguments i_glen {P D X IP LP ID LD IX LX hashBuffer checksum bc rc spec held w G bcf rcf d p rgs clean bufs js ras x} _.
#[global] Arguments i_regs {P D X IP LP ID LD IX LX hashBuffer checksum bc rc spec held w G bcf rcf d p rgs clean bufs js ras x} _.
#[global] Arguments i_entries {P D X IP LP ID LD IX LX hashBuffer checksum bc rc spec held w G bcf rcf d p rgs clean bufs js ras x} _.
#[global] Arguments i_tracked {P D X IP LP ID LD IX LX hashBuffer checksum bc rc spec held w G bcf rcf d p rgs clean bufs js ras x} _.
#[global] Arguments i_clean {P D X IP LP ID LD IX LX hashBuffer checksum bc rc spec held w G bcf rcf d p rgs clean bufs js ras x} _.
#[global] Arguments i_owned {P D X IP LP ID LD IX LX hashBuffer checksum bc rc spec held w G bcf rcf d p rgs clean bufs js ras x} _.
#[global] Arguments i_flushing {P D X IP LP ID LD IX LX hashBuffer checksum bc rc spec held w G bcf rcf d p rgs clean bufs js ras x} _.
#[global] Arguments i_bufs {P D X IP LP ID LD IX LX hashBuffer checksum bc rc spec held w G bcf rcf d p rgs clean bufs js ras x} _.
#[global] Arguments i_index {P D X IP LP ID LD IX LX hashBuffer checksum bc rc spec held w G bcf rcf d p rgs clean bufs js ras x} _.
#[global] Arguments i_points {P D X IP LP ID LD IX LX hashBuffer checksum bc rc spec held w G bcf rcf d p rgs clean bufs js ras x} _.
#[global] Arguments i_can {P D X IP LP ID LD IX LX hashBuffer checksum bc rc spec held w G bcf rcf d p rgs clean bufs js ras x} _.
