(* ===== verification/BlockCacheMoves.v ===== *)
(** * The block cache: steps and moves on the invariant

    The steps that change nothing the invariant speaks of, and the steps that
    move a region from one place to another. *)

From S2P Require Import Prelude Bytes BloomFilter Device BigHash Region RegionPolicy RegionManager BlockIndex BlockCache Runs BlockCodec BlockCacheInv.
From stdpp Require Import base tactics numbers list.

#[local] Open Scope Z_scope.

(** ** Steps that only count

    Many steps of the block cache change counters, statistics, sequence
    numbers or the log of destructor calls: nothing the invariant speaks of. *)

Section quiet.
Context {P D X : Type} {IP : EvictionPolicy P} {LP : EvictionPolicyLaws P} {ID : BlockDevice D}.
Context {LD : BlockDeviceLaws D} {IX : Index X} {LX : IndexLaws X}.
Notation BC_ := (BC P D X).

Record quiet (s s' : BC_) : Prop := {
  qt_bcfg : bcfg s' = bcfg s;
  qt_allocators : allocators_ s' = allocators_ s;
  qt_index : index_ s' = index_ s;
  qt_cfg : cfg (regionManager_ s') = cfg (regionManager_ s);
  qt_device : device_ (regionManager_ s') = device_ (regionManager_ s);
  qt_policy : policy_ (regionManager_ s') = policy_ (regionManager_ s);
  qt_regions : regions_ (regionManager_ s') = regions_ (regionManager_ s);
  qt_clean : cleanRegions_ (regionManager_ s') = cleanRegions_ (regionManager_ s);
  qt_buffers : buffers_ (regionManager_ s') = buffers_ (regionManager_ s);
  qt_jobs : jobs_ (regionManager_ s') = jobs_ (regionManager_ s)
}.

#[global] Instance quiet_preorder : PreOrder quiet.
Proof. split; [done|]. intros a b c [] []. split; congruence. Qed.

Lemma quiet_inv hashBuffer checksum bc rc spec held w G ras (s s' : BC_) :
  quiet s s' -> InvV hashBuffer checksum bc rc spec held w G ras s ->
  InvV hashBuffer checksum bc rc spec held w G ras s'.
Proof. intros [E1 _ E2 E3 E4 E5 E6 E7 E8 E9]. unfold InvV. by rewrite E1, E2, E3, E4, E5, E6, E7, E8, E9. Qed.

Lemma lset_lget (s : BC_) : lset (lget s) s = s.
Proof. by destruct s. Qed.

Lemma lset_regions (s : BC_) : lset (set_regions (regions_ (lget s)) (lget s)) s = s.
Proof. by destruct s as [? []]. Qed.

(** The same for the region manager alone. *)
Record rmquiet (t t' : RM P D) : Prop := {
  rq_cfg : cfg t' = cfg t;
  rq_device : device_ t' = device_ t;
  rq_policy : policy_ t' = policy_ t;
  rq_regions : regions_ t' = regions_ t;
  rq_clean : cleanRegions_ t' = cleanRegions_ t;
  rq_buffers : buffers_ t' = buffers_ t;
  rq_jobs : jobs_ t' = jobs_ t
}.

#[global] Instance rmquiet_preorder : PreOrder rmquiet.
Proof. split; [done|]. intros a b c [] []. split; congruence. Qed.

Lemma quiet_lset (t t' : RM P D) (s : BC_) : rmquiet t t' -> quiet (lset t s) (lset t' s).
Proof. intros []. by split. Qed.

(** A computation that returns and is quiet. *)
Definition noise (m : M BC_ unit) : Prop := forall s, exists s', m s = (Ok tt, s') /\ quiet s s'.

Lemma runs_noise (m : M BC_ unit) (s : BC_) (Q : unit -> BC_ -> Prop) :
  noise m -> (forall s', quiet s s' -> Q tt s') -> runs m s Q.
Proof. intros Hm HQ. destruct (Hm s) as (s' & E & Hq). eapply runs_eq; eauto. Qed.

Lemma noise_ret : noise (ret tt).
Proof. intros s. by exists s. Qed.
Lemma noise_modify (f : BC_ -> BC_) : (forall s, quiet s (f s)) -> noise (modify f).
Proof. intros Hf s. by exists (f s). Qed.
Lemma noise_bind (m k : M BC_ unit) : noise m -> noise k -> noise (bind m (fun _ => k)).
Proof.
  intros Hm Hk s. destruct (Hm s) as (s1 & E1 & H1). destruct (Hk s1) as (s2 & E2 & H2).
  exists s2. unfold bind. rewrite E1. split; [done|]. by transitivity s1.
Qed.
Lemma noise_if (b : bool) (m k : M BC_ unit) : noise m -> noise k -> noise (if b then m else k).
Proof. by destruct b. Qed.
Lemma noise_bcCount (c : BCCounter) (n : Z) : noise (bcCount c n).
Proof. by apply noise_modify. Qed.
Lemma noise_rmCount (c : RMCounter) (n : Z) : noise (zoom (rmCount c n)).
Proof. intros s. eexists. split; [done|]. done. Qed.
Lemma noise_seq : noise (zoom (modify (fun s => set_seq (u64 (seqNumber_ s + 1)) s))).
Proof. intros s. eexists. split; [done|]. done. Qed.
Lemma noise_call c : noise (modify (add_call c)).
Proof. by apply noise_modify. Qed.
Lemma noise_asked : noise (modify add_asked).
Proof. by apply noise_modify. Qed.
Lemma noise_addHole (n : Z) : noise (addHole n).
Proof. apply noise_bind; apply noise_bcCount. Qed.
Lemma noise_removeHole (n : Z) : noise (removeHole n).
Proof. apply noise_bind; apply noise_bcCount. Qed.
End quiet.

Create HintDb noise.
#[export] Hint Resolve noise_ret noise_bind noise_if noise_bcCount noise_rmCount noise_seq noise_call
  noise_asked noise_addHole noise_removeHole : noise.

(** One quiet step before the rest. *)
Ltac quiet_step s Hq := apply runs_bind; apply runs_noise; [solve [eauto with noise]|intros s Hq].

(** ** Moving regions from place to place

    The steps of the region manager on the invariant of the block cache: a
    region is taken out of a place and held, a held region is changed, and a
    held region is put into a place. *)

(** ** Lists of places *)

Lemma owned_app (a b : list (list RegionAllocator)) : owned (a ++ b) = owned a ++ owned b.
Proof. unfold owned. by rewrite concat_app, fmap_app, filter_app. Qed.

Definition validList (i : Z) : list Z := if valid i then [i] else [].

Lemma owned_one (l1 l2 : list RegionAllocator) (ra : RegionAllocator) :
  owned [l1 ++ ra :: l2] = owned [l1] ++ validList (ra_rid ra) ++ owned [l2].
Proof.
  unfold owned, validList. cbn. rewrite !app_nil_r, fmap_app, filter_app. f_equal. cbn [fmap list_fmap].
  rewrite filter_cons. destruct (valid (ra_rid ra)); [rewrite decide_True by done|rewrite decide_False by done]; done.
Qed.

(** The allocator at [p], [i] gets another region. *)
Lemma owned_set (ras : list (list RegionAllocator)) (p i : nat) (ra : RegionAllocator) (rid : Z) :
  ras !! p ≫= (fun l => l !! i) = Some ra ->
  owned (alter (alter (fun ra => mkRA (ra_priority ra) rid) i) p ras) ++ validList (ra_rid ra)
  ≡ₚ validList rid ++ owned ras.
Proof.
  destruct (ras !! p) as [l|] eqn:Hp; [|done]. cbn. intros Hi.
  apply list_elem_of_split_length in Hp as (a & b & -> & ->).
  apply list_elem_of_split_length in Hi as (l1 & l2 & -> & ->).
  rewrite alter_app_r_alt, Nat.sub_diag by done. cbn.
  rewrite alter_app_r_alt, Nat.sub_diag by done. cbn.
  rewrite !(cons_middle _ a), !owned_app, !owned_one. cbn [ra_rid].
  generalize (validList (ra_rid ra)) (validList rid) (owned a) (owned [l1]) (owned [l2]) (owned b).
  intros. solve_Permutation.
Qed.

Lemma flushing_app (a b : list Job) : flushing (a ++ b) = flushing a ++ flushing b.
Proof. unfold flushing. induction a as [|[|r] a IH]; cbn; [done|done|]. by rewrite IH. Qed.

Lemma flushing_delete (js : list Job) (k : nat) (rid : Z) :
  js !! k = Some (JFlush rid) -> flushing js ≡ₚ rid :: flushing (delete k js).
Proof.
  intros (a & b & -> & ->)%list_elem_of_split_length. rewrite delete_middle, !flushing_app. cbn.
  by rewrite Permutation_middle.
Qed.

Lemma flushing_delete_reclaim (js : list Job) (k : nat) :
  js !! k = Some JReclaim -> flushing (delete k js) = flushing js.
Proof. intros (a & b & -> & ->)%list_elem_of_split_length. by rewrite delete_middle, !flushing_app. Qed.

Section moves.
Context {P D X : Type} {IP : EvictionPolicy P} {LP : EvictionPolicyLaws P} {ID : BlockDevice D}.
Context {LD : BlockDeviceLaws D} {IX : Index X} {LX : IndexLaws X}.
Context (hashBuffer checksum : bytes -> Z) (bc : BCConfig X) (rc : RMConfig).

Notation align := (allocAlignSize_ bc).
Notation rs := (rmRegionSize_ rc).
Notation nregs := (numRegions_ rc).
Notation base := (baseOffset_ rc).
Notation chain_ := (chain hashBuffer checksum align (checksumData_ bc)).
Notation esz := (esize align).
Notation tot := (span align).
Notation Inv_ := (Inv hashBuffer checksum bc rc).
Notation region_ok_ := (region_ok hashBuffer checksum bc rc).
Notation points_ := (points hashBuffer bc rc).

Section fixed.
Context (spec : bytes -> option bytes) (held : list Z) (w : option (Z * Z)) (G : list (list Entry))
  (bcf : BCConfig X) (rcf : RMConfig) (d : D) (p : P) (rgs : list Region) (clean : list Z)
  (bufs : list (option bytes)) (js : list Job) (ras : list (list RegionAllocator)) (x : X).
Hypothesis (I : Inv_ spec held w G bcf rcf d p rgs clean bufs js ras x).

(** *** Taking a region out of a place *)

Lemma pick_tracked (i : Z) (p' : P) :
  policy_wf p' -> (forall k, okPriority p' k <-> okPriority p k) -> tracked p ≡ₚ i :: tracked p' ->
  Inv_ spec (i :: held) w G bcf rcf d p' rgs clean bufs js ras x.
Proof.
  intros Hw Hk Ht. destruct I. split; try done.
  - by apply Hk.
  - intros ra Hra. by apply Hk, i_ras.
  - intros r Hr. by apply Hk, i_pri.
  - rewrite <- i_part, Ht. solve_Permutation.
  - intros j r Hj. apply i_tracked. rewrite Ht. by right.
Qed.

Lemma pick_clean (i : Z) (clean' : list Z) :
  clean ≡ₚ i :: clean' -> Inv_ spec (i :: held) w G bcf rcf d p rgs clean' bufs js ras x.
Proof.
  intros Hc. destruct I. split; try done.
  - rewrite <- i_part, Hc. solve_Permutation.
  - intros j r Hj. apply i_clean. rewrite Hc. by right.
Qed.

Lemma pick_flush (i : Z) (js' : list Job) :
  flushing js ≡ₚ i :: flushing js' -> Inv_ spec (i :: held) w G bcf rcf d p rgs clean bufs js' ras x.
Proof.
  intros Hc. destruct I. split; try done.
  - rewrite <- i_part, Hc. solve_Permutation.
  - intros j r Hj. apply i_flushing. rewrite Hc. by right.
Qed.

Lemma same_flushing (js' : list Job) :
  flushing js' = flushing js -> Inv_ spec held w G bcf rcf d p rgs clean bufs js' ras x.
Proof. intros E. destruct I. split; try done; by rewrite E. Qed.

Lemma pick_owned (i : Z) (ras' : list (list RegionAllocator)) :
  owned ras ≡ₚ i :: owned ras' -> (forall ra, ra ∈ concat ras' -> okPriority p (ra_priority ra)) ->
  Inv_ spec (i :: held) w G bcf rcf d p rgs clean bufs js ras' x.
Proof.
  intros Ho Hr. destruct I. split; try done.
  - rewrite <- i_part, Ho. solve_Permutation.
  - intros j r Hj. apply i_owned. rewrite Ho. by right.
Qed.
End fixed.

Section put.
Context (spec : bytes -> option bytes) (held : list Z) (w : option (Z * Z)) (G : list (list Entry))
  (bcf : BCConfig X) (rcf : RMConfig) (d : D) (p : P) (rgs : list Region) (clean : list Z)
  (bufs : list (option bytes)) (js : list Job) (ras : list (list RegionAllocator)) (x : X) (i : Z) (r : Region).
Hypothesis (I : Inv_ spec (i :: held) w G bcf rcf d p rgs clean bufs js ras x).
Hypothesis (Hr : rgs !! Z.to_nat i = Some r).

(** *** Putting a held region into a place *)

Lemma put_tracked (p' : P) :
  policy_wf p' -> (forall k, okPriority p' k <-> okPriority p k) -> tracked p' ≡ₚ i :: tracked p ->
  tracked_ok r -> Inv_ spec held w G bcf rcf d p' rgs clean bufs js ras x.
Proof.
  intros Hw Hk Ht Hok. destruct I. split; try done.
  - by apply Hk.
  - intros ra Hra. by apply Hk, i_ras.
  - intros r' Hr'. by apply Hk, i_pri.
  - rewrite <- i_part, Ht. solve_Permutation.
  - intros j r' Hj Hr'. rewrite Ht in Hj. apply elem_of_cons in Hj as [->|Hj]; [|by eapply i_tracked].
    rewrite Hr in Hr'. by injection Hr' as <-.
Qed.

Lemma put_clean (clean' : list Z) :
  clean' ≡ₚ i :: clean -> clean_ok r -> Inv_ spec held w G bcf rcf d p rgs clean' bufs js ras x.
Proof.
  intros Hc Hok. destruct I. split; try done.
  - rewrite <- i_part, Hc. solve_Permutation.
  - intros j r' Hj Hr'. rewrite Hc in Hj. apply elem_of_cons in Hj as [->|Hj]; [|by eapply i_clean].
    rewrite Hr in Hr'. by injection Hr' as <-.
Qed.

Lemma put_flush (js' : list Job) :
  flushing js' ≡ₚ i :: flushing js -> flushing_ok r -> Inv_ spec held w G bcf rcf d p rgs clean bufs js' ras x.
Proof.
  intros Hc Hok. destruct I. split; try done.
  - rewrite <- i_part, Hc. solve_Permutation.
  - intros j r' Hj Hr'. rewrite Hc in Hj. apply elem_of_cons in Hj as [->|Hj]; [|by eapply i_flushing].
    rewrite Hr in Hr'. by injection Hr' as <-.
Qed.

Lemma put_owned (ras' : list (list RegionAllocator)) :
  owned ras' ≡ₚ i :: owned ras -> (forall ra, ra ∈ concat ras' -> okPriority p (ra_priority ra)) ->
  filling_ok r -> Inv_ spec held w G bcf rcf d p rgs clean bufs js ras' x.
Proof.
  intros Ho Hra Hok. destruct I. split; try done.
  - rewrite <- i_part, Ho. solve_Permutation.
  - intros j r' Hj Hr'. rewrite Ho in Hj. apply elem_of_cons in Hj as [->|Hj]; [|by eapply i_owned].
    rewrite Hr in Hr'. by injection Hr' as <-.
Qed.
End put.
End moves.
