(* ===== verification/BlockCacheFlush.v ===== *)
(** * The block cache: updates and flushes

    How the invariant follows changes of a region, of the device, of the policy
    and of the index, and what the flush of a region does. *)

From S2P Require Import Prelude Bytes BloomFilter Device BigHash Region RegionPolicy BlockIndex RegionManager BlockCache Runs BlockCodec BlockCacheInv BlockCacheMoves.
From stdpp Require Import base tactics numbers list.

#[local] Open Scope Z_scope.

(** ** Changing a region, the device, the policy and the index

    The remaining steps on the invariant of the block cache: a region's record
    and entries change, the device is written or read, the policy is touched,
    entries leave the index. *)

Section updates.
Context {P D X : Type} {IP : EvictionPolicy P} {LP : EvictionPolicyLaws P} {ID : BlockDevice D}.
Context {LD : BlockDeviceLaws D} {IX : Index X} {LX : IndexLaws X}.
Context (hashBuffer checksum : bytes -> Z) (bc : BCConfig X) (rc : RMConfig).

Notation align := (allocAlignSize_ bc).
Notation rs := (rmRegionSize_ rc).
Notation nregs := (numRegions_ rc).
Notation base := (baseOffset_ rc).
Notation chain_ := (chain hashBuffer checksum align (checksumData_ bc)).
Notation esz := (esize align).
Notation tot := (span align).
Notation Inv_ := (Inv hashBuffer checksum bc rc).
Notation region_ok_ := (region_ok hashBuffer checksum bc rc).
Notation data_ok_ := (data_ok hashBuffer checksum bc rc).
Notation points_ := (points hashBuffer bc rc).
Notation code_ := (code bc rc).
Notation ends_at_ := (ends_at bc).

(** ** Devices *)

(** What a read, a flush and a failed write keep. *)
Definition dev_le (d d' : D) : Prop :=
  (forall o c, bd_holds d o c -> bd_holds d' o c) /\ (forall o n, bd_can d o n -> bd_can d' o n).

#[global] Instance dev_le_preorder : PreOrder dev_le.
Proof. split; [by split|]. intros a b c [H1 H2] [H3 H4]. split; eauto. Qed.

(** The device keeps what it holds outside the range of region [i]. *)
Definition dev_apart (i : Z) (d d' : D) : Prop :=
  (forall j c, j <> i -> zlen c = rs -> bd_holds d (base + j * rs) c -> bd_holds d' (base + j * rs) c) /\
  (forall o n, bd_can d o n -> bd_can d' o n).

Lemma dev_le_apart (i : Z) (d d' : D) : dev_le d d' -> dev_apart i d d'.
Proof. intros [H1 H2]. split; eauto. Qed.

Lemma data_ok_le (d d' : D) (i : Z) (r : Region) (L : list Entry) :
  dev_le d d' -> data_ok_ d i r L -> data_ok_ d' i r L.
Proof.
  intros [H1 _]. unfold data_ok. destruct (buffer_ r); [done|]. intros [->|(b & Hb & Hr)]; [by left|].
  right. eauto.
Qed.

Lemma data_ok_apart (d d' : D) (i j : Z) (r : Region) (L : list Entry) :
  dev_apart i d d' -> j <> i -> data_ok_ d j r L -> data_ok_ d' j r L.
Proof.
  intros [H1 _] Hj. unfold data_ok. destruct (buffer_ r); [done|]. intros [->|(b & Hb & Hr & Hc)]; [by left|].
  right. eauto 6.
Qed.

Lemma region_ok_data (d d' : D) (w w' : option (Z * Z)) (i : Z) (r : Region) (L : list Entry) :
  region_ok_ d w i r L -> pending w' i = pending w i -> (data_ok_ d i r L -> data_ok_ d' i r L) ->
  region_ok_ d' w' i r L.
Proof. intros [] E Hd. split; rewrite ?E; auto. Qed.

(** ** The index *)

(** The index of a later state says no more than that of an earlier one. *)
Definition ix_le (x x' : X) : Prop :=
  (forall k j, same x' k j <-> same x k j) /\ (forall h, locOf x' h = None \/ locOf x' h = locOf x h).

#[global] Instance ix_le_preorder : PreOrder ix_le.
Proof.
  split; [by split; [|right]|]. intros a b c [H1 H2] [H3 H4]. split.
  - intros k j. by rewrite H3.
  - intros h. destruct (H4 h) as [->| ->]; auto.
Qed.

Lemma ix_le_eq (x x' : X) :
  (forall k j, same x' k j <-> same x k j) -> (forall h, locOf x' h = locOf x h) -> ix_le x x'.
Proof. intros H1 H2. split; [done|]. intros h. right. apply H2. Qed.

Lemma ix_le_loc (x x' : X) (h : Z) (v : Z * Z) : ix_le x x' -> locOf x' h = Some v -> locOf x h = Some v.
Proof. intros [_ H] E. destruct (H h) as [E'|E']; congruence. Qed.

Definition points_all (x : X) (spec : bytes -> option bytes) (G : list (list Entry)) : Prop :=
  forall h a n, locOf x h = Some (a, n) -> points_ x spec G h a n.

Lemma points_same (x x' : X) spec G h a n :
  (forall k j, same x' k j <-> same x k j) -> points_ x spec G h a n -> points_ x' spec G h a n.
Proof.
  intros Hs (rid & L & e & ofs & H1 & H2 & H3 & H4 & H5 & H6). exists rid, L, e, ofs.
  refine (conj H1 (conj H2 (conj H3 (conj H4 (conj _ H6))))). by apply Hs.
Qed.

Lemma points_le (x x' : X) spec G : ix_le x x' -> points_all x spec G -> points_all x' spec G.
Proof. intros Hi Hp h a n E. eapply points_same; [apply Hi|]. by apply Hp, (ix_le_loc x x'). Qed.

Lemma locOf_same (x : X) (h k : Z) : same x h k -> locOf x h = locOf x k.
Proof. intros Hs. unfold locOf. by rewrite (same_peek x h k Hs). Qed.

(** ** Addresses in the index and the entries they stand for *)

Lemma ends_at_elem (L : list Entry) (e : Entry) (ofs : Z) : ends_at_ L e ofs -> e ∈ L.
Proof. intros (L1 & L2 & -> & _). rewrite elem_of_app, elem_of_cons. auto. Qed.

Lemma ends_at_app (L K : list Entry) (e : Entry) (ofs : Z) : ends_at_ L e ofs -> ends_at_ (L ++ K) e ofs.
Proof. intros (L1 & L2 & -> & ->). exists L1, (L2 ++ K). by rewrite <- app_assoc. Qed.

Lemma ends_at_last (L : list Entry) (e : Entry) : ends_at_ (L ++ [e]) e (tot (L ++ [e])).
Proof. by exists L, []. Qed.

Section geometry.
Hypothesis (C : config_ok hashBuffer checksum bc rc).

Lemma ends_at_range (L : list Entry) (e : Entry) (ofs : Z) :
  ends_at_ L e ofs -> 0 < ofs <= tot L /\ ofs mod align = 0.
Proof.
  intros (L1 & L2 & -> & ->). pose proof (align_pos _ _ _ _ C) as Ha.
  pose proof (block_esize_pos align e Ha). pose proof (span_nonneg align L1 Ha). pose proof (span_nonneg align L2 Ha).
  rewrite (span_mod align) by done. rewrite span_snoc. split; [|done].
  rewrite span_app, span_cons. lia.
Qed.

Lemma ends_at_inj (L : list Entry) (e e' : Entry) (ofs : Z) : ends_at_ L e ofs -> ends_at_ L e' ofs -> e = e'.
Proof.
  pose proof (align_pos _ _ _ _ C) as Ha.
  intros (L1 & L2 & -> & ->) (K1 & K2 & E & Ho).
  revert K1 E Ho. induction L1 as [|a L1 IH]; intros [|b K1] E Ho; cbn in E; injection E as -> E.
  - done.
  - exfalso. pose proof (span_nonneg align K1 Ha). pose proof (block_esize_pos align e' Ha).
    rewrite !span_snoc, span_cons, span_nil in Ho. lia.
  - exfalso. pose proof (span_nonneg align L1 Ha). pose proof (block_esize_pos align e Ha).
    rewrite !span_snoc, span_cons, span_nil in Ho. lia.
  - apply (IH K1); [done|]. rewrite !span_snoc, !span_cons in Ho. rewrite !span_snoc. lia.
Qed.

(** No entry ends inside another one. *)
Lemma ends_at_gap (L1 L2 : list Entry) (e e' : Entry) (o : Z) :
  ends_at_ (L1 ++ e :: L2) e' o -> o <= tot L1 \/ o = tot (L1 ++ [e]) \/ tot (L1 ++ [e]) < o.
Proof.
  pose proof (align_pos _ _ _ _ C) as Ha. intros (K1 & K2 & E & ->).
  revert K1 E. induction L1 as [|a L1 IH]; intros [|b K1] E; cbn in E; injection E as -> E.
  - auto.
  - right. right. pose proof (span_nonneg align K1 Ha). pose proof (block_esize_pos align e' Ha).
    rewrite !span_snoc, span_cons, span_nil. lia.
  - left. pose proof (span_nonneg align L1 Ha). rewrite !span_snoc, span_cons, span_nil. lia.
  - destruct (IH K1 E) as [H|[H|H]]; rewrite !span_snoc in *; rewrite !span_cons; lia.
Qed.

(** Every chain fits its region. *)
Definition fits (G : list (list Entry)) : Prop := forall i L, G !! i = Some L -> tot L <= rs.

Lemma points_at (x : X) spec (G : list (list Entry)) (rid : Z) (L : list Entry) (e : Entry) (ofs h n : Z) :
  fits G -> points_all x spec G -> G !! Z.to_nat rid = Some L -> 0 <= rid < nregs -> ends_at_ L e ofs ->
  locOf x h = Some (code_ rid ofs, n) ->
  same x h (hashBuffer (e_key e)) /\ spec (e_key e) = Some (e_val e) /\ esz e <= decodeSizeHint n /\ 0 <= n < 2 ^ 16.
Proof.
  intros Hf Hp HL Hr He El. destruct (Hp h _ n El) as (rid' & L' & e' & ofs' & HL' & Hr' & He' & Ec & Hs & Hrest).
  destruct (ends_at_range _ _ _ He) as [Ho Hm]. destruct (ends_at_range _ _ _ He') as [Ho' Hm'].
  pose proof (Hf _ _ HL). pose proof (Hf _ _ HL').
  destruct (code_inj hashBuffer checksum bc rc rid rid' ofs ofs') as [<- <-]; try done; try lia.
  rewrite HL in HL'. injection HL' as <-. by rewrite (ends_at_inj L e e' ofs).
Qed.

(** No hash finds an entry of [L] in region [rid] that ends past [ofs]. *)
Definition clear_above (x : X) (rid : Z) (L : list Entry) (ofs : Z) : Prop :=
  forall e o h n, ends_at_ L e o -> ofs < o -> locOf x h <> Some (code_ rid o, n).

Lemma clear_le (x x' : X) rid L ofs : ix_le x x' -> clear_above x rid L ofs -> clear_above x' rid L ofs.
Proof. intros Hi Hc e o h n He Ho E. eapply Hc; [done|done|]. by eapply ix_le_loc. Qed.

Lemma clear_top (x : X) rid L : clear_above x rid L (tot L).
Proof. intros e o h n He Ho. destruct (ends_at_range _ _ _ He). lia. Qed.

Lemma clear_step (x : X) rid L1 e L2 :
  clear_above x rid (L1 ++ e :: L2) (tot (L1 ++ [e])) ->
  (forall h n, locOf x h <> Some (code_ rid (tot (L1 ++ [e])), n)) ->
  clear_above x rid (L1 ++ e :: L2) (tot L1).
Proof.
  intros Hc Hn e' o h n He Ho. destruct (ends_at_gap L1 L2 e e' o He) as [?|[->|?]]; [lia|done|by eapply Hc].
Qed.

(** A region no hash finds an entry in may be emptied. *)
Lemma points_clear (x : X) spec (G : list (list Entry)) (rid : Z) (L : list Entry) :
  0 <= rid -> points_all x spec G -> G !! Z.to_nat rid = Some L -> clear_above x rid L 0 ->
  points_all x spec (<[Z.to_nat rid := []]> G).
Proof.
  intros Hrid Hp HL Hc h a n El. destruct (Hp h a n El) as (rid' & L' & e' & ofs' & HL' & Hr' & He' & -> & Hrest).
  exists rid', L', e', ofs'. destruct (decide (rid' = rid)) as [->|Hne].
  - exfalso. rewrite HL in HL'. injection HL' as <-. eapply Hc; [exact He'| |exact El].
    apply ends_at_range in He'. lia.
  - by rewrite list_lookup_insert_ne by lia.
Qed.

(** A region may get more entries. *)
Lemma points_extend (x : X) spec (G : list (list Entry)) (rid : Z) (L K : list Entry) :
  0 <= rid -> points_all x spec G -> G !! Z.to_nat rid = Some L ->
  points_all x spec (<[Z.to_nat rid := L ++ K]> G).
Proof.
  intros Hrid Hp HL h a n El. destruct (Hp h a n El) as (rid' & L' & e' & ofs' & HL' & Hr' & He' & -> & Hrest).
  destruct (decide (rid' = rid)) as [->|Hne].
  - rewrite HL in HL'. injection HL' as <-. exists rid, (L ++ K), e', ofs'.
    rewrite list_lookup_insert_eq by (by eapply lookup_lt_Some). split; [done|]. split; [done|].
    split; [by apply ends_at_app|done].
  - exists rid', L', e', ofs'. by rewrite list_lookup_insert_ne by lia.
Qed.

(** Removing the entry that ends at [ofs] from the index, if it is there. *)
Lemma drop_clears (x x' : X) (b : bool) spec (G : list (list Entry)) (rid : Z) (L : list Entry) (e : Entry) (ofs : Z) :
  fits G -> points_all x spec G -> G !! Z.to_nat rid = Some L -> 0 <= rid < nregs -> ends_at_ L e ofs ->
  (forall k j, same x' k j <-> same x k j) ->
  (b = true /\ fst <$> locOf x (hashBuffer (e_key e)) = Some (code_ rid ofs) /\
     (forall k, locOf x' k = if decide (same x (hashBuffer (e_key e)) k) then None else locOf x k)
   \/ b = false /\ fst <$> locOf x (hashBuffer (e_key e)) <> Some (code_ rid ofs) /\ (forall k, locOf x' k = locOf x k)) ->
  ix_le x x' /\ (forall h n, locOf x' h <> Some (code_ rid ofs, n)).
Proof.
  intros Hf Hp HL Hr He Hs Hcase.
  assert (Hsame : forall h n, locOf x h = Some (code_ rid ofs, n) -> same x h (hashBuffer (e_key e))).
  { intros h n El. by eapply points_at. }
  destruct Hcase as [(-> & Hm & Hl)|(-> & Hm & Hl)].
  - split.
    + split; [done|]. intros h. rewrite Hl. case_decide; auto.
    + intros h n. rewrite Hl. case_decide as Hd; [done|]. intros El. apply Hd. symmetry. by eapply Hsame.
  - split; [by apply ix_le_eq|]. intros h n. rewrite Hl. intros El. apply Hm.
    rewrite <- (locOf_same x h) by (by eapply Hsame). by rewrite El.
Qed.
End geometry.

(** ** The records of the invariant *)

Section fixed.
Context (spec : bytes -> option bytes) (held : list Z) (w : option (Z * Z)) (G : list (list Entry))
  (bcf : BCConfig X) (rcf : RMConfig) (d : D) (p : P) (rgs : list Region) (clean : list Z)
  (bufs : list (option bytes)) (js : list Job) (ras : list (list RegionAllocator)) (x : X).
Hypothesis (I : Inv_ spec held w G bcf rcf d p rgs clean bufs js ras x).

Lemma inv_device (d' : D) : dev_le d d' -> Inv_ spec held w G bcf rcf d' p rgs clean bufs js ras x.
Proof.
  intros Hd. destruct I. split; try done.
  - intros i r L Hr HL Hi. eapply region_ok_data; [by apply i_regs|done|by apply data_ok_le].
  - intros i Hi. by apply Hd, i_can.
Qed.

Lemma inv_policy (p' : P) :
  policy_wf p' -> (forall k, okPriority p' k <-> okPriority p k) -> tracked p' ≡ₚ tracked p ->
  Inv_ spec held w G bcf rcf d p' rgs clean bufs js ras x.
Proof.
  intros Hw Hk Ht. destruct I. split; try done.
  - by apply Hk.
  - intros ra Hra. by apply Hk, i_ras.
  - intros r Hr. by apply Hk, i_pri.
  - by rewrite Ht.
  - intros i r Hi. apply i_tracked. by rewrite <- Ht.
Qed.

Lemma inv_index (spec' : bytes -> option bytes) (x' : X) :
  index_wf x' -> points_all x' spec' G -> Inv_ spec' held w G bcf rcf d p rgs clean bufs js ras x'.
Proof. intros Hw Hp. destruct I. by split. Qed.

Lemma inv_index_le (x' : X) :
  index_wf x' -> ix_le x x' -> Inv_ spec held w G bcf rcf d p rgs clean bufs js ras x'.
Proof. intros Hw Hl. apply inv_index; [done|]. apply (points_le x x'); [done|]. exact (i_points I). Qed.

Lemma inv_bufs (bufs' : list (option bytes)) :
  (forall o, o ∈ bufs' -> exists b, o = Some b /\ zlen b = rs) ->
  Inv_ spec held w G bcf rcf d p rgs clean bufs' js ras x.
Proof. intros Hb. destruct I. by split. Qed.

(** Region [i] changes, and what the device holds of it. *)
Lemma upd_region (i : Z) (r' : Region) (L' : list Entry) (w' : option (Z * Z)) (d' : D) :
  0 <= i < nregs ->
  (i ∈ tracked p -> tracked_ok r') -> (i ∈ clean -> clean_ok r') ->
  (i ∈ owned ras -> filling_ok r') -> (i ∈ flushing js -> flushing_ok r') ->
  okPriority p (priority_ r') -> (forall e, e ∈ L' -> entry_ok align e) ->
  (forall j, j <> i -> pending w' j = pending w j) -> dev_apart i d d' -> region_ok_ d' w' i r' L' ->
  points_all x spec (<[Z.to_nat i := L']> G) ->
  Inv_ spec held w' (<[Z.to_nat i := L']> G) bcf rcf d' p (<[Z.to_nat i := r']> rgs) clean bufs js ras x.
Proof.
  intros Hi Ht Hc Ho Hf Hp He Hw Hd Hr Hx. destruct I.
  assert (Hlt : (Z.to_nat i < length rgs)%nat) by lia.
  assert (Hcase : forall j q, 0 <= j -> <[Z.to_nat i:=r']> rgs !! Z.to_nat j = Some q ->
            (j = i /\ q = r') \/ (j <> i /\ rgs !! Z.to_nat j = Some q)).
  { intros j q Hj Hq. destruct (decide (j = i)) as [->|Hne].
    - rewrite list_lookup_insert_eq in Hq by done. injection Hq as <-. auto.
    - rewrite list_lookup_insert_ne in Hq by lia. auto. }
  assert (Hpos : forall j, j ∈ held ++ tracked p ++ clean ++ owned ras ++ flushing js -> 0 <= j).
  { intros j. rewrite i_part. intros Hj%elem_of_seqZ. lia. }
  setoid_rewrite elem_of_app in Hpos. setoid_rewrite elem_of_app in Hpos. setoid_rewrite elem_of_app in Hpos.
  setoid_rewrite elem_of_app in Hpos.
  split; try done.
  - intros q Hq. apply list_elem_of_lookup in Hq as [k Hk].
    rewrite <- (Nat2Z.id k) in Hk. destruct (Hcase _ _ (Zle_0_nat k) Hk) as [[_ ->]|[_ Hk']]; [done|].
    apply i_pri. by eapply list_elem_of_lookup_2.
  - by rewrite length_insert.
  - by rewrite !length_insert.
  - intros j q L Hq HL Hj. destruct (Hcase j q Hj Hq) as [[-> ->]|[Hne Hq']].
    + rewrite list_lookup_insert_eq in HL by lia. by injection HL as <-.
    + rewrite list_lookup_insert_ne in HL by lia.
      eapply region_ok_data; [by apply i_regs|by apply Hw|by apply data_ok_apart with i].
  - intros L e HL HeL. apply list_elem_of_lookup in HL as [k Hk].
    rewrite list_lookup_insert_Some in Hk. destruct Hk as [(_ & <- & _)|[_ Hk]]; [by apply He|].
    eapply i_entries; [by eapply list_elem_of_lookup_2|done].
  - intros j q Hj Hq. destruct (Hcase j q) as [[-> ->]|[Hne Hq']]; [by apply Hpos; auto|done|by apply Ht|by eauto].
  - intros j q Hj Hq. destruct (Hcase j q) as [[-> ->]|[Hne Hq']]; [by apply Hpos; auto|done|by apply Hc|by eauto].
  - intros j q Hj Hq. destruct (Hcase j q) as [[-> ->]|[Hne Hq']]; [by apply Hpos; auto|done|by apply Ho|by eauto].
  - intros j q Hj Hq. destruct (Hcase j q) as [[-> ->]|[Hne Hq']]; [by apply Hpos; auto 6|done|by apply Hf|by eauto].
  - intros j Hj. by apply Hd, i_can.
Qed.

(** A held region changes. *)
Lemma upd_held (i : Z) (r' : Region) (L' : list Entry) (w' : option (Z * Z)) (d' : D) :
  i ∈ held -> okPriority p (priority_ r') -> (forall e, e ∈ L' -> entry_ok align e) ->
  (forall j, j <> i -> pending w' j = pending w j) -> dev_apart i d d' -> region_ok_ d' w' i r' L' ->
  points_all x spec (<[Z.to_nat i := L']> G) ->
  Inv_ spec held w' (<[Z.to_nat i := L']> G) bcf rcf d' p (<[Z.to_nat i := r']> rgs) clean bufs js ras x.
Proof.
  intros Hh. destruct (held_apart _ _ _ _ _ _ _ _ _ _ _ _ _ _ _ _ _ _ I i Hh) as (H1 & H2 & H3 & H4).
  apply upd_region; try done. eapply part_range; [exact I|]. rewrite elem_of_app. by left.
Qed.

(** Its record changes and its entries do not. *)
Lemma upd_held_record (i : Z) (r' : Region) (L : list Entry) (d' : D) :
  i ∈ held -> G !! Z.to_nat i = Some L -> okPriority p (priority_ r') -> dev_apart i d d' ->
  region_ok_ d' w i r' L ->
  Inv_ spec held w G bcf rcf d' p (<[Z.to_nat i := r']> rgs) clean bufs js ras x.
Proof.
  intros Hh HL Hp Hd Hr. rewrite <- (list_insert_id G (Z.to_nat i) L) by done.
  apply upd_held; try done.
  - intros e He. eapply (i_entries I); [|done]. by eapply list_elem_of_lookup_2.
  - rewrite list_insert_id by done. exact (i_points I).
Qed.

Lemma inv_fits : fits G.
Proof.
  intros i L HL. pose proof (lookup_lt_Some _ _ _ HL). rewrite (i_glen I) in *. pose proof (i_len I).
  destruct (region_at _ _ _ _ _ _ _ _ _ _ _ _ _ _ _ _ _ _ I (Z.of_nat i)) as (r & L' & _ & HL' & Hok); [lia|].
  rewrite Nat2Z.id, HL in HL'. injection HL' as <-. pose proof (ro_fits _ _ _ _ _ _ _ _ _ Hok) as Hf.
  lia.
Qed.
End fixed.
End updates.

(** ** Flushing a region

    A region that is flushed is tracked by the policy afterwards, its entries
    on the device; one whose flush fails leaves the index and is clean. *)

Section flush.
Context {P D X : Type} {IP : EvictionPolicy P} {LP : EvictionPolicyLaws P} {ID : BlockDevice D}.
Context {LD : BlockDeviceLaws D} {IX : Index X} {LX : IndexLaws X}.
Context (hashBuffer checksum : bytes -> Z) (bc : BCConfig X) (rc : RMConfig).
Context (C : config_ok hashBuffer checksum bc rc).

Notation align := (allocAlignSize_ bc).
Notation rs := (rmRegionSize_ rc).
Notation nregs := (numRegions_ rc).
Notation base := (baseOffset_ rc).
Notation chain_ := (chain hashBuffer checksum align (checksumData_ bc)).
Notation esz := (esize align).
Notation tot := (span align).
Notation Inv_ := (Inv hashBuffer checksum bc rc).
Notation InvV_ := (InvV hashBuffer checksum bc rc).
Notation region_ok_ := (region_ok hashBuffer checksum bc rc).
Notation points_all_ := (points_all hashBuffer bc rc).
Notation clear_above_ := (clear_above bc rc).
Notation code_ := (code bc rc).
Notation ends_at_ := (ends_at bc).
Notation fits_ := (fits bc rc).
Notation BC_ := (BC P D X).

(** ** Reading an entry of a chain *)

Lemma esize_serialized (s : BC_) (e : Entry) :
  bcfg s = bc -> entry_ok align e -> serializedSize s (zlen (e_key e)) (zlen (e_val e)) = esz e.
Proof.
  intros E (_ & _ & _ & He & _ & _). destruct (align_512 _ _ _ _ C) as (Ha & _ & Hb).
  destruct (block_alignUp_spec (descSize + zlen (e_key e) + zlen (e_val e)) align) as [Hs _]; [lia|].
  fold (esize align e) in Hs. unfold kMaxItemSize, kMinAllocAlignSize in He.
  apply (serializedSize_eq hashBuffer checksum bc rc); try done; try apply zlen_nonneg. lia.
Qed.

Lemma entry_read (b : bytes) (L1 L2 : list Entry) (e : Entry) :
  chain_ b (L1 ++ e :: L2) -> entry_ok align e ->
  exists c, parseDesc b (tot (L1 ++ [e])) = Ok (e_desc hashBuffer checksum e c) /\
    (checksumData_ bc = true -> c = checksum (e_val e)) /\
    load b (tot (L1 ++ [e]) - descSize - zlen (e_key e)) (zlen (e_key e)) = Ok (e_key e) /\
    load b (tot (L1 ++ [e]) - esz e) (zlen (e_val e)) = Ok (e_val e).
Proof.
  intros Hc He. destruct (chain_split _ _ _ _ _ _ _ _ Hc) as (pre & sb & post & -> & Hl & Hs).
  rewrite span_snoc, <- Hl.
  destruct (slot_parse hashBuffer checksum (co_hash _ _ _ _ C) (co_sum _ _ _ _ C) align (checksumData_ bc)
    e sb pre post He Hs) as (c & Hp & Hcs).
  exists c. split_and!; [done|done|by eapply slot_key|].
  replace (zlen pre + esz e - esz e) with (zlen pre) by lia. by eapply slot_value.
Qed.

(** ** Cleaning up *)

(** The step changes the index and counters only. *)
Definition ixonly (s s' : BC_) : Prop := quiet (set_index (index_ s') s) s'.

Lemma ixonly_quiet (s s' : BC_) : quiet s s' -> ixonly s s'.
Proof. intros []. by split. Qed.

#[global] Instance ixonly_preorder : PreOrder ixonly.
Proof. split; [done|]. intros a b c [] []. split; cbn in *; congruence. Qed.

Lemma runs_onIndex {A} (m : M X A) (s : BC_) (Q : A -> BC_ -> Prop) :
  runs m (index_ s) (fun a x => Q a (set_index x s)) -> runs (onIndex m) s Q.
Proof. unfold runs, onIndex. by destruct (m (index_ s)) as [[]]. Qed.

Section scan.
Context (spec : bytes -> option bytes) (G : list (list Entry)) (rid : Z) (L : list Entry) (b : bytes).
Context (HL : G !! Z.to_nat rid = Some L) (Hrid : 0 <= rid < nregs) (Hfit : fits_ G).
Context (Hchain : chain_ b L) (Hok : forall e, e ∈ L -> entry_ok align e).

(** What a walk over the entries of the region needs of a state. *)
Record scanned (bcf : BCConfig X) (rcf : RMConfig) (x : X) (ofs : Z) : Prop := {
  sc_bcfg : bcf = bc;
  sc_rcfg : rcf = rc;
  sc_index : index_wf x;
  sc_points : points_all_ x spec G;
  sc_clear : clear_above_ x rid L ofs
}.
Definition scan (s : BC_) (ofs : Z) : Prop := scanned (bcfg s) (cfg (regionManager_ s)) (index_ s) ofs.

Lemma scan_quiet (s s' : BC_) (ofs : Z) : quiet s s' -> scan s ofs -> scan s' ofs.
Proof. intros [E1 _ E2 E3 _ _ _ _ _ _]. unfold scan. by rewrite E1, E2, E3. Qed.

(** Removing the entry [e] from the index, where the address is that of [e]. *)
Lemma runs_dropEntry (s : BC_) (L1 L2 : list Entry) (e : Entry) (Q : bool -> BC_ -> Prop) :
  L = L1 ++ e :: L2 -> scan s (tot (L1 ++ [e])) ->
  (forall b x', scan (set_index x' s) (tot L1) -> ix_le (index_ s) x' -> Q b (set_index x' s)) ->
  runs (onIndex (ixRemoveIfMatch (hashBuffer (e_key e)) (encodeRelAddress s (mkRel rid (tot (L1 ++ [e])))))) s Q.
Proof.
  intros EL Sc HQ. destruct Sc as [E1 E2 Hw Hp Hc].
  assert (He : ends_at_ L e (tot (L1 ++ [e]))) by (by exists L1, L2).
  destruct (ends_at_range _ _ _ _ C _ _ _ He) as [Ho Hm]. pose proof (Hfit _ _ HL).
  rewrite (encode_eq hashBuffer checksum bc rc) by (done || lia).
  apply runs_onIndex.
  destruct (removeIfMatch_law (index_ s) (hashBuffer (e_key e)) (code_ rid (tot (L1 ++ [e]))) Hw)
    as (x' & ok & Er & Hw' & Hs & Hcase).
  eapply runs_eq; [exact Er|].
  destruct (drop_clears hashBuffer checksum bc rc C (index_ s) x' ok spec G rid L e (tot (L1 ++ [e])))
    as [Hle Hno]; try done.
  apply HQ; [|done]. split; try done.
  - by eapply points_le.
  - rewrite EL in Hc |- *. cbn [index_ set_index]. eapply clear_step; [done| |done].
    eapply clear_le; [done..|]. exact Hc.
Qed.

Lemma cleanup_loop (L1 L2 : list Entry) (fuel : nat) (s : BC_) :
  L = L1 ++ L2 -> (length L1 < fuel)%nat -> scan s (tot L1) ->
  runs (cleanupLoop hashBuffer checksum fuel rid (tot L1) b) s (fun _ s' =>
    ixonly s s' /\ scan s' 0 /\ ix_le (index_ s) (index_ s')).
Proof.
  revert L2 fuel s. induction L1 as [|e L1 IH] using rev_ind; intros L2 fuel s EL Hf Sc.
  { destruct fuel; [lia|]. cbn. by split; [|split]. }
  destruct fuel as [|fuel]; [lia|]. rewrite <- app_assoc in EL. cbn [app] in EL.
  assert (Heok : entry_ok align e) by (apply Hok; rewrite EL, elem_of_app, elem_of_cons; auto).
  pose proof (align_pos _ _ _ _ C) as Ha. pose proof (block_esize_pos align e Ha). pose proof (span_nonneg align L1 Ha).
  destruct (entry_read b L1 L2 e) as (c & Hp & Hcs & Hkey & Hval); [by rewrite <- EL|done|].
  cbn [cleanupLoop]. rewrite (proj2 (Z.ltb_lt 0 (tot (L1 ++ [e])))) by (rewrite span_snoc; lia). cbn [negb].
  apply runs_bind. eapply runs_lift; [exact Hp|].
  rewrite (proj2 (Z.eqb_eq _ _)) by done. cbn [negb].
  apply runs_bind, runs_get. cbv zeta.
  cbn [keySize valueSize e_desc]. rewrite esize_serialized by (apply Sc || done).
  apply runs_bind. eapply runs_lift; [exact Hkey|].
  apply runs_bind. eapply runs_lift; [exact Hval|].
  quiet_step s1 Q1. apply (scan_quiet _ _ _ Q1) in Sc.
  apply runs_bind. unfold removeItem. apply runs_bind, runs_get. apply runs_bind.
  eapply runs_dropEntry; [done|done|]. intros ok x' Sc' Hle. cbn [hk_hash makeHK].
  quiet_step s2 Q2. apply runs_ret.
  quiet_step s3 Q3. quiet_step s4 Q4.
  replace (u32 (tot (L1 ++ [e]) - esz e)) with (tot L1).
  2: { rewrite span_snoc. rewrite u32_small; [lia|]. unfold is_u32. pose proof (Hfit _ _ HL) as Hl.
       rewrite EL, span_app in Hl. pose proof (co_rs _ _ _ _ C). 
       pose proof (span_nonneg align (e :: L2) Ha). lia. }
  eapply runs_mono; [apply (IH (e :: L2))|]; [done|rewrite length_app in Hf; cbn in Hf; lia| |].
  - by apply (scan_quiet s3), (scan_quiet s2), (scan_quiet (set_index x' s1)).
  - intros _ s5 (H1 & H2 & H3).
    assert (E : index_ s4 = x').
    { rewrite (qt_index _ _ Q4), (qt_index _ _ Q3), (qt_index _ _ Q2). done. }
    split_and!; [|done|].
    + transitivity s4; [|done]. transitivity (set_index x' s1); [transitivity s1; [by apply ixonly_quiet|done]|].
      apply ixonly_quiet. transitivity s2; [done|]. by transitivity s3.
    + rewrite E in H3. rewrite <- (qt_index _ _ Q1). by transitivity x'.
Qed.

End scan.

Lemma span_length (L : list Entry) : Z.of_nat (length L) <= tot L.
Proof.
  pose proof (align_pos _ _ _ _ C) as Ha. induction L as [|e L IH]; [done|].
  rewrite span_cons. pose proof (block_esize_pos align e Ha). cbn [length]. lia.
Qed.

Section region.
Context (spec : bytes -> option bytes) (held : list Z) (G : list (list Entry)) (ras : list (list RegionAllocator)).
Context (rid : Z) (r : Region) (L : list Entry).

(** A region held by a job, with no writer. *)
Record holding (s : BC_) : Prop := {
  ho_inv : InvV_ spec (rid :: held) None G ras s;
  ho_reg : regions_ (regionManager_ s) !! Z.to_nat rid = Some r;
  ho_ent : G !! Z.to_nat rid = Some L
}.

Lemma holding_range (s : BC_) : holding s -> 0 <= rid < nregs.
Proof.
  intros [I _ _]. eapply (part_range _ _ _ _ _ _ _ _ _ _ _ _ _ _ _ _ _ _ I). by left.
Qed.

Lemma holding_ok (s : BC_) : holding s -> region_ok_ (device_ (regionManager_ s)) None rid r L.
Proof. intros Ho. destruct (holding_range s Ho). destruct Ho as [I Hr HL]. by eapply (i_regs I). Qed.

Lemma cleanup_spec (s : BC_) (b : bytes) :
  holding s -> chain_ b L ->
  runs (onRegionCleanup hashBuffer checksum rid b) s (fun _ s' =>
    ixonly s s' /\ scan spec G rid L s' 0 /\ ix_le (index_ s) (index_ s')).
Proof.
  intros Ho Hc. pose proof (holding_range s Ho) as Hr. pose proof (holding_ok s Ho) as Hok. destruct Ho as [I Hreg HL].
  unfold onRegionCleanup. apply runs_bind, runs_zoom. eapply runs_getRegion; [exact Hreg|].
  rewrite (ro_end _ _ _ _ _ _ _ _ _ Hok). cbn [pending snd]. rewrite Z.add_0_r.
  pose proof (span_length L). eapply runs_mono.
  - eapply (cleanup_loop spec G rid L b HL Hr (inv_fits _ _ _ _ _ _ _ _ _ _ _ _ _ _ _ _ _ _ I) Hc) with (L2 := []).
    + intros e He. eapply (i_entries I); [|done]. by eapply list_elem_of_lookup_2.
    + by rewrite app_nil_r.
    + lia.
    + split; [apply (i_bcfg I)|apply (i_rcfg I)|apply (i_index I)|exact (i_points I)|].
      cbn. by eapply clear_top.
  - done.
Qed.
End region.

(** ** The attempts to write the buffer *)

Lemma phys_eq (t : RM P D) (rid ofs : Z) :
  cfg t = rc -> 0 <= rid < nregs -> 0 <= ofs <= rs -> physicalOffset t (mkRel rid ofs) = base + rid * rs + ofs.
Proof.
  intros E Hr Ho. unfold physicalOffset.
  rewrite (toAbsolute_eq hashBuffer checksum bc rc), E by done.
  destruct (rid_bound _ _ _ _ rid C Hr). pose proof (co_end _ _ _ _ C). pose proof (co_base _ _ _ _ C).
  rewrite u64_small by (unfold is_u64; lia). lia.
Qed.

Lemma flush_attempts (n : nat) (t : RM P D) (rid : Z) (r : Region) (b : bytes) :
  cfg t = rc -> 0 <= rid < nregs -> regions_ t !! Z.to_nat rid = Some r -> activeWriters_ r = 0 ->
  isFlushedLocked r = false -> buffer_ r = Some b -> zlen b = rs -> bd_can (device_ t) (base + rid * rs) rs ->
  runs (flushAttempts n rid) t (fun ok t' => exists d',
    rmquiet (set_device d' (set_regions
      (if ok : bool then <[Z.to_nat rid := orFlag kFlushed r]> (regions_ t) else regions_ t) t)) t' /\
    dev_apart rc rid (device_ t) d' /\ (ok = true -> bd_holds d' (base + rid * rs) b)).
Proof.
  revert t. induction n as [|n IH]; intros t Ec Hr Hreg Hw Hfl Hb Hl Hcan.
  { apply runs_ret. exists (device_ t). by split_and!. }
  cbn [flushAttempts]. apply runs_bind. unfold rmFlushBuffer. apply runs_bind. eapply runs_getRegion; [done|].
  unfold flushBegin. rewrite Hw, Hfl, Hb. cbn [Z.eqb negb].
  apply runs_bind. unfold deviceWrite. apply runs_bind, runs_get. apply runs_bind, runs_onDevice.
  rewrite phys_eq by (done || pose proof (co_rs _ _ _ _ C); lia). rewrite Z.add_0_r.
  destruct (bd_write_law (device_ t) (base + rid * rs) b) as (ok & d' & Ew & Hh & Hkeep & Hcan'); [by rewrite Hl|].
  eapply runs_eq; [exact Ew|].
  assert (Hap : dev_apart rc rid (device_ t) d').
  { split; [|done]. intros j c Hj Hc. intros Hh'. apply Hkeep; [done|].
    pose proof (co_rs _ _ _ _ C). rewrite Hc, Hl. destruct (Z.lt_total j rid) as [?|[?|?]]; [left; nia|congruence|right; nia]. }
  destruct ok.
  - apply runs_bind. unfold rmCount. apply runs_modify. apply runs_ret.
    apply runs_bind. unfold rmCount. apply runs_modify.
    eapply runs_onRegion; [done|]. cbn. by exists d'.
  - apply runs_ret. apply runs_bind, runs_ret. eapply runs_onRegion; [done|]. cbn.
    apply runs_bind. unfold rmCount. apply runs_modify.
    eapply runs_mono; [apply IH|]; try done.
    + cbn. by rewrite list_lookup_insert_eq by (by eapply lookup_lt_Some).
    + by apply Hcan'.
    + intros ok' t' (d2 & Hq & Hap2 & Hh2). exists d2. cbn in Hq, Hap2. rewrite (list_insert_id (regions_ t) (Z.to_nat rid) r) in Hq by done.
      split_and!; [|by destruct Hap, Hap2; split; eauto|done].
      destruct Hq. split; cbn in *; done.
Qed.

(** ** Giving the buffer back *)

Lemma runs_detach (t : RM P D) (rid : Z) (r : Region) (Q : unit -> RM P D -> Prop) :
  regions_ t !! Z.to_nat rid = Some r -> activeInMemReaders_ r = 0 ->
  (forall t', rmquiet (set_buffers (buffers_ t ++ [buffer_ r])
     (set_regions (<[Z.to_nat rid := set_buffer None r]> (regions_ t)) t)) t' -> Q tt t') ->
  runs (rmDetachBuffer rid) t Q.
Proof.
  intros Hr Hi HQ. unfold rmDetachBuffer. apply runs_bind. eapply runs_onRegion; [done|].
  unfold Region.detachBuffer. apply runs_bind, runs_get. rewrite Hi. cbn [Z.eqb negb].
  apply runs_bind, runs_modify, runs_ret. unfold returnBufferToPool. apply runs_bind, runs_modify.
  unfold rmCount. apply runs_modify. by apply HQ.
Qed.

Lemma hasFlag_or (f g : Z) (r : Region) :
  hasFlag f r = false -> Z.land g f = 0 -> hasFlag f (orFlag g r) = false.
Proof.
  unfold hasFlag, mask_test, orFlag. cbn. intros Hf Hg. rewrite Z.land_comm, Z.land_lor_distr_r.
  rewrite (Z.land_comm f g), Hg, Z.lor_0_r, Z.land_comm. done.
Qed.

(** ** What a step leaves to the job that called it *)

Record after (held : list Z) (G : list (list Entry)) (s : BC_) (G' : list (list Entry)) (s' : BC_) : Prop := {
  af_index : ix_le (index_ s) (index_ s');
  af_keeps : keeps held G G' s s';
  af_shape : length <$> allocators_ s' = length <$> allocators_ s
}.

Lemma after_refl held G s : after held G s G s.
Proof. by split. Qed.

Lemma after_trans held G1 s1 G2 s2 G3 s3 :
  after held G1 s1 G2 s2 -> after held G2 s2 G3 s3 -> after held G1 s1 G3 s3.
Proof.
  intros [H1 H2 H5] [H3 H4 H6]. split; [by transitivity (index_ s2)| |congruence].
  intros i Hi. destruct (H2 i Hi) as [E1 E2]. destruct (H4 i Hi) as [E3 E4]. split; congruence.
Qed.

Lemma after_quiet held G s s' : quiet s s' -> after held G s G s'.
Proof.
  intros Q. split; [by rewrite (qt_index _ _ Q)| |by rewrite (qt_allocators _ _ Q)].
  intros i _. by rewrite (qt_regions _ _ Q).
Qed.

(** A step on region [rid] alone. *)
Lemma after_region held G s L s' rid r :
  rid ∉ held -> 0 <= rid -> (forall i, i ∈ held -> 0 <= i) -> ix_le (index_ s) (index_ s') ->
  regions_ (regionManager_ s') = <[Z.to_nat rid := r]> (regions_ (regionManager_ s)) ->
  length <$> allocators_ s' = length <$> allocators_ s -> after held G s (<[Z.to_nat rid := L]> G) s'.
Proof.
  intros Hn Hr Hp Hi E Hl. split; [done| |done]. intros i Hh. specialize (Hp i Hh).
  assert (Z.to_nat rid <> Z.to_nat i) by (intros ?; apply Hn; by replace rid with i by lia).
  by rewrite E, !list_lookup_insert_ne.
Qed.

Lemma holding_apart spec held G ras rid r L s :
  holding spec held G ras rid r L s -> rid ∉ held /\ (forall i, i ∈ held -> 0 <= i).
Proof.
  intros [I _ _]. pose proof (part_NoDup _ _ _ _ _ _ _ _ _ _ _ _ _ _ _ _ _ _ I) as Hd. cbn [app] in Hd.
  apply NoDup_cons in Hd as [Hn _]. rewrite elem_of_app in Hn. split; [tauto|].
  intros i Hi. eapply (part_range _ _ _ _ _ _ _ _ _ _ _ _ _ _ _ _ _ _ I). right. rewrite elem_of_app. by left.
Qed.

Lemma holding_pri spec held G ras rid r L s :
  holding spec held G ras rid r L s -> okPriority (policy_ (regionManager_ s)) (priority_ r).
Proof. intros [I Hr _]. apply (i_pri I). by eapply list_elem_of_lookup_2. Qed.

(** A region record that differs from an acceptable one in the flags and the
    place of the data. *)
Lemma region_ok_like d d' rid r r' L :
  region_ok_ d None rid r L -> regionId r' = regionId r -> regionSize_ r' = regionSize_ r ->
  activePhysReaders_ r' = activePhysReaders_ r -> activeInMemReaders_ r' = activeInMemReaders_ r ->
  activeWriters_ r' = activeWriters_ r -> lastEntryEndOffset_ r' = lastEntryEndOffset_ r ->
  numItems_ r' = numItems_ r -> data_ok hashBuffer checksum bc rc d' rid r' L -> region_ok_ d' None rid r' L.
Proof. intros [] E1 E2 E3 E4 E5 E6 E7 Hd. split; rewrite ?E1, ?E2, ?E3, ?E4, ?E5, ?E6, ?E7; done. Qed.

Section internal.
Context (spec : bytes -> option bytes) (held : list Z) (G : list (list Entry)) (ras : list (list RegionAllocator)).
Context (rid : Z) (r : Region) (L : list Entry).
Notation holding_ := (holding spec held G ras rid r L).

(** After a flush the region's entries are on the device: it is tracked. *)
Lemma finish_flushed (s : BC_) (b : bytes) (d' : D) (t' : RM P D) :
  holding_ s -> flushing_ok r -> buffer_ r = Some b -> dev_apart rc rid (device_ (regionManager_ s)) d' ->
  bd_holds d' (base + rid * rs) b ->
  rmquiet (set_device d' (set_regions (<[Z.to_nat rid := orFlag kFlushed r]> (regions_ (regionManager_ s)))
    (regionManager_ s))) t' ->
  runs (bind (zoom (rmDetachBuffer rid)) (fun _ => zoom (trackRegion rid))) (lset t' s) (fun _ s' =>
    InvV_ spec held None G ras s' /\ after held G s G s' /\ allocators_ s' = allocators_ s).
Proof.
  intros Ho Hf Hb Hap Hh Hq. pose proof (holding_ok _ _ _ _ _ _ _ s Ho) as Hok.
  pose proof (holding_range _ _ _ _ _ _ _ s Ho) as Hr. destruct (holding_apart _ _ _ _ _ _ _ s Ho) as [Hn Hpos].
  pose proof (holding_pri _ _ _ _ _ _ _ s Ho) as Hpri. destruct Ho as [I Hreg HL].
  set (r2 := set_buffer None (orFlag kFlushed r)).
  assert (Hlt : (Z.to_nat rid < length (regions_ (regionManager_ s)))%nat) by (by eapply lookup_lt_Some).
  pose proof (ro_data _ _ _ _ _ _ _ _ _ Hok) as Hd. unfold data_ok in Hd. rewrite Hb in Hd.
  assert (I2 : Inv_ spec (rid :: held) None G (bcfg s) (cfg t') (device_ t') (policy_ t')
    (<[Z.to_nat rid := r2]> (regions_ t')) (cleanRegions_ t') (buffers_ t' ++ [Some b]) (jobs_ t') ras (index_ s)).
  { destruct Hq as [-> -> -> -> -> -> ->]. cbn. rewrite list_insert_insert_eq.
    eapply inv_bufs; [eapply upd_held_record; [exact I|by left|exact HL|exact Hpri|exact Hap|]|].
    - eapply region_ok_like; [exact Hok|done..|]. unfold data_ok. cbn. right. exists b. by split.
    - intros o [Hin|Hin]%elem_of_app; [by apply (i_bufs I)|]. apply list_elem_of_singleton in Hin as ->.
      exists b. split; [done|apply Hd]. }
  assert (Hreg' : regions_ t' !! Z.to_nat rid = Some (orFlag kFlushed r)).
  { rewrite (rq_regions _ _ Hq). cbn. by apply list_lookup_insert_eq. }
  apply runs_bind, runs_zoom, (runs_detach _ _ _ _ Hreg'); [by apply (ro_inmem _ _ _ _ _ _ _ _ _ Hok)|].
  intros t2 Hq2. apply runs_zoom. change (lget (lset t2 (lset t' s))) with t2.
  assert (Hreg2 : regions_ t2 !! Z.to_nat rid = Some r2).
  { rewrite (rq_regions _ _ Hq2). cbn. apply list_lookup_insert_eq. by eapply lookup_lt_Some. }
  cbn [orFlag set_flags buffer_] in Hq2. rewrite Hb in Hq2.
  destruct (held_apart _ _ _ _ _ _ _ _ _ _ _ _ _ _ _ _ _ _ I2 rid) as (Ht & _); [by left|].
  unfold trackRegion. apply runs_bind. eapply runs_getRegion; [done|]. apply runs_bind, runs_gets, runs_onPolicy.
  rewrite (rq_policy _ _ Hq2). cbn [policy_ set_buffers set_regions].
  destruct (track_law (clock_ t2) r2 (policy_ t')) as (p' & Ep & Hpw & Htr & Hpk).
  { apply (i_policy I2). }
  { cbn. rewrite (ro_id _ _ _ _ _ _ _ _ _ Hok). unfold isRegionId. pose proof (co_n _ _ _ _ C). lia. }
  { cbn. by rewrite (ro_id _ _ _ _ _ _ _ _ _ Hok). }
  { cbn. apply (i_pri I2 r2). eapply list_elem_of_lookup_2, list_lookup_insert_eq. by eapply lookup_lt_Some. }
  eapply runs_eq; [exact Ep|]. split_and!; [|split; [| |done]|done].
  - unfold InvV. cbn. destruct Hq2 as [-> -> _ -> -> -> ->]. cbn.
    eapply put_tracked; [exact I2| |done|done| |].
    + apply list_lookup_insert_eq. by eapply lookup_lt_Some.
    + rewrite Htr. cbn. by rewrite (ro_id _ _ _ _ _ _ _ _ _ Hok).
    + destruct Hf as (_ & Hba & _). split; [done|]. cbn. by apply hasFlag_or.
  - done.
  - intros i Hi. specialize (Hpos i Hi). cbn. rewrite (rq_regions _ _ Hq2). cbn. rewrite (rq_regions _ _ Hq). cbn.
    assert (Z.to_nat rid <> Z.to_nat i) by (intros ?; apply Hn; by replace rid with i by lia).
    by rewrite !list_lookup_insert_ne.
Qed.
(** A region no hash finds an entry in may be emptied and put with the clean ones. *)
Lemma empty_region d p rgs clean bufs js x bcf rcf :
  Inv_ spec (rid :: held) None G bcf rcf d p rgs clean bufs js ras x -> G !! Z.to_nat rid = Some L ->
  clear_above_ x rid L 0 ->
  Inv_ spec held None (<[Z.to_nat rid := []]> G) bcf rcf d p
    (<[Z.to_nat rid := mkRegion rid rs 0 0 0 0 0 0 0 None]> rgs) (clean ++ [rid]) bufs js ras x.
Proof.
  intros I HL Hc. pose proof (co_rs _ _ _ _ C).
  assert (Hr : 0 <= rid < nregs) by (eapply (part_range _ _ _ _ _ _ _ _ _ _ _ _ _ _ _ _ _ _ I); by left).
  eapply (put_clean _ _ _ _ _ _ _ _ _ _ _ _ _ clean); cycle 1.
  { apply list_lookup_insert_eq. rewrite <- (i_glen I). by eapply lookup_lt_Some. }
  { by rewrite (Permutation_app_comm clean). }
  { done. }
  eapply upd_held; [exact I|by left|apply (i_pri0 I)|by intros e He%elem_of_nil|done|by apply dev_le_apart| |].
  - split; cbn; try done; [lia|by left].
  - eapply points_clear; [done|lia|exact (i_points I)|done|done].
Qed.

(** When no attempt succeeds the entries leave the index, and the region is clean. *)
Lemma finish_failed (s : BC_) (b : bytes) :
  holding_ s -> flushing_ok r -> buffer_ r = Some b ->
  runs (bind (cleanupBufferOnFlushFailure (onRegionCleanup hashBuffer checksum) rid)
          (fun _ => zoom (releaseCleanedupRegion rid))) s (fun _ s' =>
    InvV_ spec held None (<[Z.to_nat rid := []]> G) ras s' /\
    after held G s (<[Z.to_nat rid := []]> G) s' /\ allocators_ s' = allocators_ s).
Proof.
  intros Ho Hf Hb. pose proof (holding_ok _ _ _ _ _ _ _ s Ho) as Hok.
  pose proof (holding_range _ _ _ _ _ _ _ s Ho) as Hr. destruct (holding_apart _ _ _ _ _ _ _ s Ho) as [Hn Hpos].
  pose proof (ro_data _ _ _ _ _ _ _ _ _ Hok) as Hd. unfold data_ok in Hd. rewrite Hb in Hd.
  pose proof (ho_reg _ _ _ _ _ _ _ _ Ho) as Hreg. pose proof (ho_ent _ _ _ _ _ _ _ _ Ho) as HL.
  assert (Hlt : (Z.to_nat rid < length (regions_ (regionManager_ s)))%nat) by (by eapply lookup_lt_Some).
  apply runs_bind. unfold cleanupBufferOnFlushFailure. apply runs_bind, runs_zoom.
  eapply runs_onRegion; [exact Hreg|]. unfold cleanupBegin. apply runs_bind, runs_get.
  rewrite (ro_writers _ _ _ _ _ _ _ _ _ Hok). cbn [pending fst Z.eqb negb].
  destruct Hf as (_ & Hf1 & Hf2 & Hf3). rewrite Hf3, Hb. apply runs_ret.
  rewrite (list_insert_id (regions_ (lget s))) by exact Hreg.
  apply runs_bind, runs_bind. eapply runs_mono; [eapply (cleanup_spec spec held G ras rid r L _ b)|].
  { destruct Ho as [I ? ?]. split; [exact I|done|done]. }
  { apply Hd. }
  intros _ s1 (Hx & Hs & Hle). cbv beta. quiet_step s2 Q2. quiet_step s3 Q3.
  assert (Q : quiet (set_index (index_ s1) s) s3).
  { transitivity s1; [destruct Hx; by split|]. by transitivity s2. }
  assert (I : InvV_ spec (rid :: held) None G ras s3).
  { apply (quiet_inv _ _ _ _ _ _ _ _ _ _ _ Q). eapply inv_index_le; [exact (ho_inv _ _ _ _ _ _ _ _ Ho)|apply Hs|done]. }
  apply runs_zoom. eapply runs_onRegion; [cbn; by rewrite (qt_regions _ _ Q)|].
  unfold cleanupEnd. apply runs_modify. apply runs_zoom.
  eapply runs_detach; [cbn; apply list_lookup_insert_eq; by rewrite (qt_regions _ _ Q)|cbn; apply Hok|].
  intros t4 Q4. apply runs_zoom. change (lget (lset t4 _)) with t4.
  cbn in Q4. rewrite list_insert_insert_eq in Q4. unfold releaseCleanedupRegion.
  apply runs_bind. eapply runs_getRegion; [rewrite (rq_regions _ _ Q4); cbn; apply list_lookup_insert_eq; by rewrite (qt_regions _ _ Q)|].
  apply runs_bind. unfold rmCount. apply runs_modify. apply runs_bind, runs_modify. apply runs_bind.
  eapply runs_onRegion; [cbn; rewrite (rq_regions _ _ Q4); cbn; apply list_lookup_insert_eq; by rewrite (qt_regions _ _ Q)|].
  unfold Region.reset. apply runs_modify. apply runs_modify. cbn.
  rewrite (ro_id _ _ _ _ _ _ _ _ _ Hok), (ro_size _ _ _ _ _ _ _ _ _ Hok).
  rewrite (rq_regions _ _ Q4). cbn. rewrite list_insert_insert_eq.
  split_and!.
  - unfold InvV. cbn. destruct Q4 as [-> -> -> _ -> -> ->]. cbn.
    eapply empty_region; [|done|].
    + eapply inv_bufs; [exact I|]. rewrite Hb. intros o [Hin|Hin]%elem_of_app; [by apply (i_bufs I)|].
      apply list_elem_of_singleton in Hin as ->. exists b. split; [done|apply Hd].
    + rewrite (qt_index _ _ Q). cbn. apply Hs.
  - eapply after_region; [done|lia|done| | |].
    + cbn. by rewrite (qt_index _ _ Q).
    + cbn. by rewrite (qt_regions _ _ Q).
    + cbn. by rewrite (qt_allocators _ _ Q).
  - cbn. by rewrite (qt_allocators _ _ Q).
Qed.

Lemma doFlushInternal_spec (s : BC_) :
  holding_ s -> flushing_ok r ->
  runs (doFlushInternal (onRegionCleanup hashBuffer checksum) rid) s (fun _ s' => exists G',
    InvV_ spec held None G' ras s' /\ after held G s G' s' /\ allocators_ s' = allocators_ s).
Proof.
  intros Ho Hf. pose proof (holding_ok _ _ _ _ _ _ _ s Ho) as Hok.
  pose proof (holding_range _ _ _ _ _ _ _ s Ho) as Hr.
  pose proof (holding_pri _ _ _ _ _ _ _ s Ho) as Hpri. destruct Ho as [I Hreg HL].
  pose proof (ro_data _ _ _ _ _ _ _ _ _ Hok) as Hd.
  destruct Hf as ((b & Hb) & Hf1 & Hf2 & Hf3). unfold data_ok in Hd. rewrite Hb in Hd.
  unfold doFlushInternal. apply runs_bind, runs_zoom, runs_gets. apply runs_bind, runs_zoom.
  eapply runs_mono; [eapply flush_attempts|].
  { apply (i_rcfg I). } { exact Hr. } { exact Hreg. } { apply Hok. } { done. } { done. } { apply Hd. }
  { by apply (i_can I). }
  intros ok t' (d' & Hq & Hap & Hh). cbn in Hq, Hap. destruct ok.
  - eapply runs_mono; [eapply (finish_flushed s b d' t'); [by split|done|done|exact Hap|by apply Hh|exact Hq]|].
    intros [] s' Hs. by exists G.
  - assert (Q : quiet (lset (set_device d' (regionManager_ s)) s) (lset t' s)).
    { apply quiet_lset. transitivity (set_device d' (set_regions (regions_ (regionManager_ s)) (regionManager_ s))); [by split|done]. }
    eapply runs_mono; [eapply (finish_failed _ b); [split|done|done]|].
    + eapply quiet_inv; [exact Q|]. unfold InvV. cbn.
      rewrite <- (list_insert_id (regions_ (regionManager_ s)) (Z.to_nat rid) r) by done.
      eapply upd_held_record; [exact I|by left|done|done|done|].
      eapply region_ok_like; [exact Hok|done..|]. unfold data_ok. by rewrite Hb.
    + cbn. by rewrite (rq_regions _ _ Hq).
    + done.
    + intros [] s' (H1 & H2 & H3). exists (<[Z.to_nat rid := []]> G). split_and!; [done| |done].
      eapply after_trans; [|exact H2]. split; [done| |done]. intros i _. cbn. by rewrite (rq_regions _ _ Hq).
Qed.
End internal.
End flush.
