(* ===== verification/BlockCacheInsert.v ===== *)
(** * The block cache: inserts

    Allocating a slot, writing an entry into it, and [insert]. *)

From S2P Require Import Prelude Bytes BloomFilter Device BigHash Region RegionPolicy BlockIndex RegionManager BlockCache Runs BlockCodec BlockCacheInv BlockCacheMoves BlockCacheFlush.
From stdpp Require Import base tactics numbers list.

#[local] Open Scope Z_scope.

(** ** Allocating a slot

    The allocator opens a slot in the region it fills, in a clean region after
    giving up a full one, or asks to try again. *)

(** ** The allocators *)

(** The allocator at [p], [i] gets region [rid]. *)
Definition setRid (p i : nat) (rid : Z) (ras : list (list RegionAllocator)) : list (list RegionAllocator) :=
  alter (alter (fun ra => mkRA (ra_priority ra) rid) i) p ras.

Lemma alter_fmap_id {A B} (f : A -> A) (g : A -> B) (l : list A) (i : nat) :
  (forall a, g (f a) = g a) -> g <$> alter f i l = g <$> l.
Proof.
  intros E. revert i. induction l as [|a l IH]; intros [|i]; cbn; [done..|by rewrite E|].
  f_equal. apply IH.
Qed.

Lemma setRid_shape (ras : list (list RegionAllocator)) (p i : nat) (rid : Z) :
  length <$> setRid p i rid ras = length <$> ras.
Proof. apply alter_fmap_id. intros l. apply length_alter. Qed.

Lemma setRid_priority (ras : list (list RegionAllocator)) (p i : nat) (rid : Z) (Pr : Z -> Prop) :
  (forall ra, ra ∈ concat ras -> Pr (ra_priority ra)) ->
  forall ra, ra ∈ concat (setRid p i rid ras) -> Pr (ra_priority ra).
Proof.
  intros H ra Hin.
  assert (E : ra_priority <$> concat (setRid p i rid ras) = ra_priority <$> concat ras).
  { unfold setRid. clear. revert p. induction ras as [|l ras IH]; intros [|p]; cbn; [done..| |].
    - rewrite !fmap_app. f_equal. by apply alter_fmap_id.
    - rewrite !fmap_app. f_equal. apply IH. }
  apply (list_elem_of_fmap_2 ra_priority) in Hin. rewrite E in Hin.
  apply list_elem_of_fmap in Hin as (ra' & -> & Hin). by apply H.
Qed.

Lemma setRid_lookup (ras : list (list RegionAllocator)) (p i : nat) (rid : Z) (ra : RegionAllocator) :
  ras !! p ≫= (fun l => l !! i) = Some ra ->
  setRid p i rid ras !! p ≫= (fun l => l !! i) = Some (mkRA (ra_priority ra) rid).
Proof.
  unfold setRid. intros E. rewrite list_lookup_alter_eq. destruct (ras !! p) as [l|]; [|done]. cbn in *.
  by rewrite list_lookup_alter_eq, E.
Qed.

Section alloc.
Context {P D X : Type} {IP : EvictionPolicy P} {LP : EvictionPolicyLaws P} {ID : BlockDevice D}.
Context {LD : BlockDeviceLaws D} {IX : Index X} {LX : IndexLaws X}.
Context (hashBuffer checksum : bytes -> Z) (bc : BCConfig X) (rc : RMConfig).
Context (C : config_ok hashBuffer checksum bc rc).

Notation align := (allocAlignSize_ bc).
Notation rs := (rmRegionSize_ rc).
Notation nregs := (numRegions_ rc).
Notation chain_ := (chain hashBuffer checksum align (checksumData_ bc)).
Notation tot := (span align).
Notation Inv_ := (Inv hashBuffer checksum bc rc).
Notation InvV_ := (InvV hashBuffer checksum bc rc).
Notation InvS_ := (InvS hashBuffer checksum bc rc).
Notation region_ok_ := (region_ok hashBuffer checksum bc rc).
Notation BC_ := (BC P D X).

Section doflush.
Context (spec : bytes -> option bytes) (held : list Z) (G : list (list Entry)) (ras : list (list RegionAllocator)).
Context (rid : Z) (r : Region) (L : list Entry).
Notation holding_ := (holding hashBuffer checksum bc rc spec held G ras rid r L).

Lemma doFlush_spec (ctx : Ctx) (async : bool) (s : BC_) :
  holding_ s -> filling_ok r ->
  runs (bcDoFlush hashBuffer checksum ctx rid async) s (fun _ s' => exists G',
    InvV_ spec held None G' ras s' /\ after held G s G' s' /\ allocators_ s' = allocators_ s).
Proof.
  intros Ho [Hb Hfl]. pose proof (holding_ok _ _ _ _ _ _ _ _ _ _ _ s Ho) as Hok.
  pose proof (holding_pri _ _ _ _ _ _ _ _ _ _ _ s Ho) as Hpri. destruct Ho as [I Hreg HL].
  pose proof (lookup_lt_Some _ _ _ Hreg) as Hlt.
  unfold bcDoFlush, doFlush. apply runs_bind, runs_zoom. eapply runs_getRegion; [exact Hreg|].
  quiet_step s1 Q1. apply runs_bind, runs_zoom. eapply runs_onRegion; [cbn; by rewrite (qt_regions _ _ Q1)|].
  unfold setPendingFlush. apply runs_modify. quiet_step s2 Q2.
  set (r' := orFlag kFlushPending r).
  assert (Hf : flushing_ok r') by (unfold flushing_ok, r', hasFlag, isFlushedLocked, isCleanedupLocked, hasFlag; cbn; by rewrite Hfl).
  assert (Ho2 : holding hashBuffer checksum bc rc spec held G ras rid r' L s2).
  { split; [|by rewrite (qt_regions _ _ Q2); cbn; rewrite (qt_regions _ _ Q1); apply list_lookup_insert_eq|done].
    eapply quiet_inv; [exact Q2|]. apply (quiet_inv _ _ _ _ _ _ _ _ _ _ _ Q1) in I.
    eapply upd_held_record; [exact I|by left|exact HL| |by apply dev_le_apart|].
    + cbn. by rewrite (qt_policy _ _ Q1).
    + cbn. rewrite (qt_device _ _ Q1). by destruct Hok; split. }
  assert (Ha : after held G s G s2).
  { destruct (holding_apart _ _ _ _ _ _ _ _ _ _ _ s2 Ho2) as [Hn Hpos].
    pose proof (holding_range _ _ _ _ _ _ _ _ _ _ _ s2 Ho2).
    split.
    - rewrite (qt_index _ _ Q2). cbn. by rewrite (qt_index _ _ Q1).
    - intros i Hi. specialize (Hpos i Hi). rewrite (qt_regions _ _ Q2). cbn. rewrite (qt_regions _ _ Q1).
      assert (Z.to_nat rid <> Z.to_nat i) by (intros ?; apply Hn; by replace rid with i by lia).
      by rewrite !list_lookup_insert_ne.
    - rewrite (qt_allocators _ _ Q2). cbn. by rewrite (qt_allocators _ _ Q1). }
  assert (Ea : allocators_ s2 = allocators_ s).
  { rewrite (qt_allocators _ _ Q2). cbn. by rewrite (qt_allocators _ _ Q1). }
  assert (Hint : runs (doFlushInternal (onRegionCleanup hashBuffer checksum) rid) s2 (fun _ s' => exists G',
    InvV_ spec held None G' ras s' /\ after held G s G' s' /\ allocators_ s' = allocators_ s)).
  { eapply runs_mono; [eapply doFlushInternal_spec; [exact C|exact Ho2|exact Hf]|].
    intros [] s3 (G' & I3 & A3 & E3). exists G'. split_and!; [done|by eapply after_trans|congruence]. }
  assert (Hjob : forall s3, quiet s2 s3 -> runs (zoom (addJob (JFlush rid))) s3 (fun _ s' => exists G',
    InvV_ spec held None G' ras s' /\ after held G s G' s' /\ allocators_ s' = allocators_ s)).
  { intros s3 Q3. apply runs_zoom. unfold addJob. apply runs_modify. exists G. cbn. split_and!.
    - destruct Ho2 as [I2 Hr2 _]. apply (quiet_inv _ _ _ _ _ _ _ _ _ _ _ Q3) in I2.
      eapply put_flush; [exact I2|cbn; by rewrite (qt_regions _ _ Q3)| |done].
      cbn. rewrite flushing_app. cbn. by rewrite Permutation_app_comm.
    - eapply after_trans; [exact Ha|]. by apply (after_quiet held G s2 s3) in Q3 as [].
    - by rewrite (qt_allocators _ _ Q3). }
  destruct async; cbn [negb]; [|done]. destruct (onWorker ctx).
  - apply runs_bind, runs_zoom, runs_gets. destruct (workerFlushAsync_ _).
    + rewrite lset_lget. by apply Hjob.
    + by rewrite lset_lget.
  - quiet_step s3 Q3. by apply Hjob.
Qed.
End doflush.

(** ** Giving up the region of an allocator *)

Lemma owned_range (spec : bytes -> option bytes) held w G ras (s : BC_) (rid : Z) :
  InvV_ spec held w G ras s -> rid ∈ owned ras -> 0 <= rid < nregs.
Proof.
  intros I Ho. eapply (part_range _ _ _ _ _ _ _ _ _ _ _ _ _ _ _ _ _ _ I). rewrite !elem_of_app. auto.
Qed.

Lemma owned_elem (ras : list (list RegionAllocator)) (p i : nat) (ra : RegionAllocator) :
  ras !! p ≫= (fun l => l !! i) = Some ra -> valid (ra_rid ra) = true -> ra_rid ra ∈ owned ras.
Proof.
  intros E Hv. pose proof (owned_set ras p i ra kInvalid E) as Hp. unfold validList in Hp. rewrite Hv in Hp. cbn in Hp.
  rewrite <- Hp, elem_of_app. right. by left.
Qed.

Lemma runs_getRA (p i : nat) (s : BC_) (ra : RegionAllocator) (Q : RegionAllocator -> BC_ -> Prop) :
  allocators_ s !! p ≫= (fun l => l !! i) = Some ra -> Q ra s -> runs (getRA p i) s Q.
Proof. unfold runs, getRA. by intros ->. Qed.

Lemma flushAndRelease_spec (ctx : Ctx) (spec : bytes -> option bytes) held G (s : BC_) (p i : nat) (ra : RegionAllocator) (async : bool) :
  InvS_ spec held None G s -> allocators_ s !! p ≫= (fun l => l !! i) = Some ra ->
  runs (flushAndReleaseRegionFromRALocked hashBuffer checksum ctx p i async) s (fun _ s' => exists G',
    InvS_ spec held None G' s' /\ after held G s G' s' /\
    exists ra', allocators_ s' !! p ≫= (fun l => l !! i) = Some ra' /\ valid (ra_rid ra') = false).
Proof.
  intros I Hra. unfold flushAndReleaseRegionFromRALocked. apply runs_bind. eapply runs_getRA; [done|].
  destruct (valid (ra_rid ra)) eqn:Hv.
  2: { apply runs_ret. exists G. split_and!; [done|apply after_refl|eauto]. }
  pose proof (owned_elem _ _ _ _ Hra Hv) as Hown. pose proof (owned_range _ _ _ _ _ s _ I Hown) as Hr.
  destruct (region_at _ _ _ _ _ _ _ _ _ _ _ _ _ _ _ _ _ _ I (ra_rid ra) Hr) as (r & L & Hreg & HL & _).
  assert (I2 : InvV_ spec (ra_rid ra :: held) None G (setRid p i kInvalid (allocators_ s)) s).
  { eapply pick_owned; [exact I| |apply setRid_priority, (i_ras I)].
    pose proof (owned_set _ _ _ _ kInvalid Hra) as Hp. unfold validList in Hp. rewrite Hv in Hp. cbn in Hp.
    unfold setRid. by rewrite <- Hp, Permutation_app_comm. }
  apply runs_bind. eapply runs_mono.
  { eapply (doFlush_spec spec held G _ (ra_rid ra) r L); [by split|]. by apply (i_owned I _ _ Hown). }
  intros [] s' (G' & I' & A' & E'). cbv beta. unfold setRA. apply runs_modify. exists G'.
  split_and!.
  - unfold InvS. cbn. rewrite E'. exact I'.
  - eapply after_trans; [exact A'|]. split; [done|done|]. cbn. rewrite E'. apply setRid_shape.
  - eexists. cbn. rewrite E'. split; [by apply setRid_lookup|done].
Qed.

(** ** Taking a clean region *)

Lemma runs_startReclaims (n : nat) (t : RM P D) (Q : unit -> RM P D -> Prop) :
  (forall t', rmquiet (set_jobs (jobs_ t ++ replicate n JReclaim) t) t' -> Q tt t') ->
  runs (startReclaims n) t Q.
Proof.
  revert t. induction n as [|n IH]; intros t HQ.
  { apply runs_ret, HQ. split; try done. cbn. by rewrite app_nil_r. }
  cbn [startReclaims]. apply runs_bind. unfold startReclaim. apply runs_bind. unfold rmCount. apply runs_modify.
  unfold addJob. apply runs_modify. apply IH. intros t' Hq. apply HQ. cbn in Hq. rewrite <- app_assoc in Hq.
  by destruct Hq; split.
Qed.

(** The state after a clean region and a buffer were taken. *)
Definition taken (t : RM P D) (clean : list Z) (bufs : list (option bytes)) (n : nat) (rid : Z) (r : Region) (b : bytes)
    : RM P D :=
  set_regions (<[Z.to_nat rid := set_buffer (Some b) r]> (regions_ t))
    (set_buffers bufs (set_jobs (jobs_ t ++ replicate n JReclaim) (set_clean clean 0 false t))).

Lemma getClean_spec (t : RM P D) (rid0 : Z) (wait : bool) :
  (forall o, o ∈ buffers_ t -> is_Some o) ->
  (forall i, i ∈ cleanRegions_ t -> is_Some (regions_ t !! Z.to_nat i)) ->
  runs (getCleanRegion rid0 wait) t (fun res t' =>
    (res.2 = OpenRetry /\ exists n, rmquiet (set_jobs (jobs_ t ++ replicate n JReclaim) t) t') \/
    (exists clean bufs n rid r b, res = (rid, Ready) /\ cleanRegions_ t = clean ++ [rid] /\
       buffers_ t = bufs ++ [Some b] /\ regions_ t !! Z.to_nat rid = Some r /\
       rmquiet (taken t clean bufs n rid r b) t')).
Proof.
  intros Hb Hc. unfold getCleanRegion. apply runs_bind, runs_get.
  destruct (_ && _).
  { apply runs_bind. unfold rmCount. apply runs_modify, runs_ret. left. split; [done|]. exists 0%nat.
    split; try done. cbn. by rewrite app_nil_r. }
  destruct (last (cleanRegions_ t)) as [rid|] eqn:El.
  - apply last_Some in El as [clean El]. rewrite El, removelast_last.
    set (n := Z.to_nat _). apply runs_bind, runs_modify. apply runs_bind.
    apply runs_startReclaims. intros t1 Q1. cbn in Q1. apply runs_bind.
    destruct (Hc rid) as [r Hr]; [rewrite El, elem_of_app; right; by left|].
    unfold assignBufferToRegion, claimBufferFromPool. apply runs_bind, runs_bind, runs_get.
    rewrite (rq_buffers _ _ Q1). cbn [buffers_ set_jobs set_clean].
    destruct (last (buffers_ t)) as [o|] eqn:Eb.
    + apply last_Some in Eb as [bufs Eb]. destruct (Hb o) as [b ->]; [rewrite Eb, elem_of_app; right; by left|].
      rewrite Eb, removelast_last. apply runs_bind, runs_modify. apply runs_bind. unfold rmCount. apply runs_modify, runs_ret.
      apply runs_bind. eapply runs_onRegion; [cbn; rewrite (rq_regions _ _ Q1); exact Hr|].
      unfold attachBuffer. apply runs_modify. apply runs_ret. rewrite decide_True by done.
      apply runs_bind, runs_ret, runs_ret. right. exists clean, bufs, n, rid, r, b. split_and!; try done.
      destruct Q1 as [E1 E2 E3 E4 E5 E6 E7]. unfold taken. split; cbn in *; rewrite ?E4; done.
    + apply runs_ret, runs_ret. rewrite decide_False by done. apply runs_bind, runs_modify, runs_ret. left.
      split; [done|]. exists n. destruct Q1 as [E1 E2 E3 E4 E5 E6 E7].
      split; cbn in *; rewrite ?E5; done.
  - rewrite last_None in El. rewrite El. set (n := Z.to_nat _). apply runs_bind, runs_modify. apply runs_bind.
    apply runs_startReclaims. intros t1 Q1. cbn in Q1. apply runs_bind. unfold rmCount. apply runs_modify, runs_ret.
    left. split; [done|]. exists n. destruct Q1 as [E1 E2 E3 E4 E5 E6 E7]. split; cbn in *; rewrite ?E5; done.
Qed.

(** ** Opening a slot *)

Definition opened (size : Z) (r : Region) : Region :=
  set_end (lastEntryEndOffset_ r + size) (numItems_ r + 1)
    (set_counts (activePhysReaders_ r) (activeInMemReaders_ r) 1 r).

Lemma runs_openAndAllocate (r : Region) (L : list Entry) (d : D) (rid size : Z) (Q : _ -> Region -> Prop) :
  region_ok_ d None rid r L -> is_Some (buffer_ r) -> 0 < size <= rs ->
  (tot L + size <= rs -> Q (makeWriteDescriptor Ready rid, mkRel rid (tot L)) (opened size r)) ->
  (rs < tot L + size -> Q (statusDesc OpenError, mkRel kInvalid 0) r) ->
  runs (openAndAllocate size) r Q.
Proof.
  intros Hok [b Hb] Hs H1 H2. pose proof (co_rs _ _ _ _ C). pose proof (align_pos _ _ _ _ C) as Ha.
  pose proof (span_nonneg align L Ha). pose proof (span_length _ _ _ _ C L) as Hl.
  destruct Hok. cbn in *. rewrite Z.add_0_r in *.
  unfold openAndAllocate. apply runs_bind, runs_get. unfold canAllocateLocked.
  rewrite ro_end, ro_size, u32_small by (unfold is_u32; lia).
  destruct (Z.leb_spec (tot L + size) rs) as [Hle|Hgt]; cbn [negb]; [|by apply runs_ret, H2].
  apply runs_bind, runs_modify. apply runs_bind. unfold allocateLocked. apply runs_bind, runs_get.
  apply runs_bind, runs_modify, runs_ret. apply runs_bind. apply runs_guard; [unfold hasBuffer; by rewrite Hb|].
  apply runs_ret. unfold opened in H1. cbn. rewrite ro_writers, ro_end, ro_id, ro_items in *.
  change (u32 (0 + 1)) with 1. rewrite !u32_small by (unfold is_u32; lia). by apply H1.
Qed.

(** The region of an allocator changes. *)
Lemma upd_owned spec held w w' G bcf rcf d p rgs clean bufs js ras x rid r r' L K :
  Inv_ spec held w G bcf rcf d p rgs clean bufs js ras x -> rid ∈ owned ras ->
  rgs !! Z.to_nat rid = Some r -> G !! Z.to_nat rid = Some L -> (forall e, e ∈ K -> entry_ok align e) ->
  priority_ r' = priority_ r -> filling_ok r' -> (forall j, j <> rid -> pending w' j = pending w j) ->
  region_ok_ d w' rid r' (L ++ K) ->
  Inv_ spec held w' (<[Z.to_nat rid := L ++ K]> G) bcf rcf d p (<[Z.to_nat rid := r']> rgs) clean bufs js ras x.
Proof.
  intros I Hown Hreg HL HK Hpri Hfill Hw Hok.
  assert (Hin : rid ∈ held ++ tracked p ++ clean ++ owned ras ++ flushing js) by (rewrite !elem_of_app; auto).
  pose proof (part_range _ _ _ _ _ _ _ _ _ _ _ _ _ _ _ _ _ _ I rid Hin) as Hr.
  pose proof (part_NoDup _ _ _ _ _ _ _ _ _ _ _ _ _ _ _ _ _ _ I) as Hd.
  rewrite !NoDup_app in Hd. setoid_rewrite elem_of_app in Hd. setoid_rewrite elem_of_app in Hd.
  eapply upd_region; [exact I|done|..].
  - intros Ht. exfalso. destruct Hd as (_ & _ & _ & Hd & _). eapply Hd; eauto.
  - intros Ht. exfalso. destruct Hd as (_ & _ & _ & _ & _ & Hd & _). eapply Hd; eauto.
  - done.
  - intros Ht. exfalso. destruct Hd as (_ & _ & _ & _ & _ & _ & _ & Hd & _). eapply Hd; eauto.
  - rewrite Hpri. apply (i_pri I r). by eapply list_elem_of_lookup_2.
  - intros e [He|He]%elem_of_app; [|by apply HK]. eapply (i_entries I); [|done]. by eapply list_elem_of_lookup_2.
  - done.
  - by apply dev_le_apart.
  - done.
  - eapply points_extend; [lia|exact (i_points I)|done].
Qed.

(** The invariant with the slot open. *)
Lemma open_window spec held G bcf rcf d p rgs clean bufs js ras x rid r L size :
  Inv_ spec held None G bcf rcf d p rgs clean bufs js ras x -> rid ∈ owned ras ->
  rgs !! Z.to_nat rid = Some r -> G !! Z.to_nat rid = Some L -> 0 < size -> tot L + size <= rs ->
  Inv_ spec held (Some (rid, size)) G bcf rcf d p (<[Z.to_nat rid := opened size r]> rgs) clean bufs js ras x.
Proof.
  intros I Hown Hreg HL Hs Hf.
  assert (Hr : 0 <= rid < nregs).
  { eapply (part_range _ _ _ _ _ _ _ _ _ _ _ _ _ _ _ _ _ _ I). rewrite !elem_of_app. auto. }
  destruct Hr as [Hr0 Hr1]. pose proof (i_regs I _ _ _ Hreg HL Hr0) as Hok.
  assert (E : <[Z.to_nat rid := L ++ []]> G = G) by (rewrite app_nil_r; by apply list_insert_id).
  rewrite <- E at 1.
  eapply upd_owned; [exact I|done|done|done|by intros e He%elem_of_nil|done|exact (i_owned I _ _ Hown Hreg)| |].
  - intros j Hj. cbn. rewrite decide_False by congruence. done.
  - rewrite app_nil_r. destruct Hok. cbn in *. rewrite decide_True in ro_items by done.
    split; cbn; rewrite ?(decide_True (P := rid = rid)) by done; cbn; try done; try lia.
    rewrite decide_False by lia. lia.
Qed.

(** ** The allocator *)

Record allocated (spec : bytes -> option bytes) (held : list Z) (size : Z) (G : list (list Entry)) (s : BC_)
    (res : RegionDescriptor * RelAddress) (s' : BC_) : Prop := {
  al_res : exists G', after held G s G' s' /\
    (status_ res.1 <> Ready /\ InvS_ spec held None G' s' \/
     exists rid L, res = (makeWriteDescriptor Ready rid, mkRel rid (tot L)) /\ G' !! Z.to_nat rid = Some L /\
       rid ∈ owned (allocators_ s') /\ InvS_ spec held (Some (rid, size)) G' s')
}.

Lemma allocated_after spec held size G s G1 s1 res s' :
  after held G s G1 s1 -> allocated spec held size G1 s1 res s' -> allocated spec held size G s res s'.
Proof.
  intros A [(G' & A' & H)]. split. exists G'. split; [by eapply after_trans|done].
Qed.

Lemma flushing_reclaims (js : list Job) (n : nat) : flushing (js ++ replicate n JReclaim) = flushing js.
Proof.
  rewrite flushing_app. assert (flushing (replicate n JReclaim) = []) as -> by (by clear; induction n).
  apply app_nil_r.
Qed.

(** The clean region taken and given to an allocator. *)
Lemma take_clean spec held G bcf rcf d p rgs clean bufs js ras x rid r b n pi i ra pri :
  Inv_ spec held None G bcf rcf d p rgs (clean ++ [rid]) (bufs ++ [Some b]) js ras x ->
  rgs !! Z.to_nat rid = Some r -> ras !! pi ≫= (fun l => l !! i) = Some ra -> valid (ra_rid ra) = false ->
  pri = ra_priority ra ->
  G !! Z.to_nat rid = Some [] /\ rid ∉ held /\ 0 <= rid /\ (forall j, j ∈ held -> 0 <= j) /\
  rid ∈ owned (setRid pi i rid ras) /\
  Inv_ spec held None G bcf rcf d p (<[Z.to_nat rid := setPriority pri (set_buffer (Some b) r)]> rgs)
    clean bufs (js ++ replicate n JReclaim) (setRid pi i rid ras) x.
Proof.
  intros I Hreg Hra Hv ->.
  assert (Hcl : rid ∈ clean ++ [rid]) by (rewrite elem_of_app; right; by left).
  destruct (i_clean I rid r Hcl Hreg) as (Hb0 & Hfl & Hend).
  apply (pick_clean _ _ _ _ _ _ _ _ _ _ _ _ _ _ _ _ _ _) with (i := rid) (clean' := clean) in I as I2;
    [|by rewrite Permutation_app_comm].
  pose proof (part_range _ _ _ _ _ _ _ _ _ _ _ _ _ _ _ _ _ _ I2) as Hrange.
  pose proof (Hrange rid) as Hr. specialize (Hr (list_elem_of_here _ _)).
  destruct (region_at _ _ _ _ _ _ _ _ _ _ _ _ _ _ _ _ _ _ I2 rid Hr) as (r' & L & Hreg' & HL & Hok).
  rewrite Hreg in Hreg'. injection Hreg' as <-.
  assert (L = []) as ->.
  { pose proof (ro_end _ _ _ _ _ _ _ _ _ Hok) as He. rewrite Hend in He. cbn in He.
    pose proof (span_length _ _ _ _ C L). destruct L; [done|]. cbn [length] in *. lia. }
  pose proof (part_NoDup _ _ _ _ _ _ _ _ _ _ _ _ _ _ _ _ _ _ I2) as Hd. cbn [app] in Hd.
  apply NoDup_cons in Hd as [Hn _]. rewrite elem_of_app in Hn.
  destruct (i_bufs I (Some b)) as (b' & Eb & Hlb); [rewrite elem_of_app; right; by left|]. injection Eb as <-.
  assert (Hvr : valid rid = true).
  { unfold valid. pose proof (co_n _ _ _ _ C). rewrite (proj2 (Z.eqb_neq rid kInvalid)) by lia. done. }
  assert (Hown : owned (setRid pi i rid ras) ≡ₚ rid :: owned ras).
  { pose proof (owned_set ras pi i ra rid Hra) as Hp. unfold validList in Hp. rewrite Hv, Hvr, app_nil_r in Hp. exact Hp. }
  split_and!; [done|tauto|lia| |rewrite Hown; by left|].
  { intros j Hj. apply Hrange. right. rewrite elem_of_app. by left. }
  assert (Hrapri : okPriority p (ra_priority ra)).
  { apply (i_ras I). destruct (ras !! pi) as [l|] eqn:El; [|done]. cbn in Hra.
    apply list_elem_of_split_length in El as (l1 & l2 & -> & _). apply list_elem_of_lookup_2 in Hra.
    rewrite concat_app. cbn. rewrite !elem_of_app. auto. }
  eapply put_owned; [|apply list_lookup_insert_eq; by eapply lookup_lt_Some|exact Hown|apply setRid_priority, (i_ras I)|done].
  eapply upd_held_record; [|by left|exact HL|exact Hrapri|by apply dev_le_apart|].
  - eapply inv_bufs; [eapply same_flushing; [exact I2|apply flushing_reclaims]|].
    intros o Ho. apply (i_bufs I). rewrite elem_of_app. by left.
  - destruct Hok. split; cbn; try done. split; [done|]. exists [], b. by split.
Qed.

Lemma allocateNew_spec (ctx : Ctx) spec held G (s : BC_) (p i : nat) (ra : RegionAllocator) (size : Z) (canWait : bool) :
  InvS_ spec held None G s -> allocators_ s !! p ≫= (fun l => l !! i) = Some ra -> valid (ra_rid ra) = false ->
  0 < size <= rs ->
  runs (allocateNew ctx p i size canWait) s (allocated spec held size G s).
Proof.
  intros I Hra Hv Hs. unfold allocateNew. apply runs_bind, runs_zoom. eapply runs_mono; [apply getClean_spec|].
  { intros o Ho. destruct (i_bufs I o Ho) as (b & -> & _). done. }
  { intros j Hj. destruct (region_at _ _ _ _ _ _ _ _ _ _ _ _ _ _ _ _ _ _ I j) as (r & L & Hr & _); [|by exists r].
    eapply (part_range _ _ _ _ _ _ _ _ _ _ _ _ _ _ _ _ _ _ I). rewrite !elem_of_app. auto. }
  intros [rid st] t [[Hst (n & Q)]|(clean & bufs & n & rid' & r & b & E & Ec & Eb & Hr & Q)].
  - cbn in Hst. subst st.
    assert (It : InvS_ spec held None G (lset t s)).
    { eapply quiet_inv; [apply quiet_lset, Q|]. eapply same_flushing; [exact I|]. apply flushing_reclaims. }
    assert (At : after held G s G (lset t s)).
    { split; [done| |done]. intros j _. cbn. by rewrite (rq_regions _ _ Q). }
    quiet_step s1 Q1. apply runs_ret. split. exists G.
    split; [eapply after_trans; [exact At|by apply after_quiet]|]. left. split; [done|].
    unfold InvS. rewrite (qt_allocators _ _ Q1). by apply (quiet_inv _ _ _ _ _ _ _ _ _ _ _ Q1).
  - injection E as -> ->. unfold InvS, InvV in I. cbn in Ec, Eb, Hr, Q. rewrite Ec, Eb in I.
    destruct (take_clean _ _ _ _ _ _ _ _ _ _ _ _ _ rid' r b n p i ra _ I Hr Hra Hv eq_refl) as (HL & Hn & H0 & Hpos & Hown & I2).
    pose proof (lookup_lt_Some _ _ _ Hr) as Hlt.
    apply runs_bind. eapply runs_getRA; [done|].
    apply runs_bind, runs_zoom. eapply runs_onRegion; [cbn; rewrite (rq_regions _ _ Q); by apply list_lookup_insert_eq|].
    apply runs_modify. apply runs_bind. unfold setRA. apply runs_modify. apply runs_zoom.
    set (r2 := setPriority (ra_priority ra) (set_buffer (Some b) r)) in *.
    eapply runs_onRegion; [cbn; rewrite (rq_regions _ _ Q); apply list_lookup_insert_eq; cbn; by rewrite length_insert|].
    pose proof (i_regs I2 rid' r2 [] (list_lookup_insert_eq _ _ _ Hlt) HL H0) as Hok2.
    eapply runs_openAndAllocate; [exact Hok2|done|done| |].
    + intros Hfit. split. exists G. split.
      * split; [done| |cbn; apply setRid_shape]. intros j Hj. specialize (Hpos j Hj). cbn. rewrite (rq_regions _ _ Q). cbn.
        assert (Z.to_nat rid' <> Z.to_nat j) by (intros ?; apply Hn; by replace rid' with j by lia).
        by rewrite !list_lookup_insert_ne.
      * right. exists rid', []. split_and!; [done|done|exact Hown|]. unfold InvS, InvV. cbn.
        rewrite (rq_regions _ _ Q). cbn. rewrite !list_insert_insert_eq.
        destruct Q as [-> -> -> _ -> -> ->]. cbn.
        rewrite <- (list_insert_insert_eq (regions_ (regionManager_ s)) (Z.to_nat rid') (opened size r2) r2).
        eapply open_window; [exact I2|exact Hown|by apply list_lookup_insert_eq|done|lia|done].
    + rewrite span_nil. lia.
Qed.

Lemma allocateWith_spec (ctx : Ctx) spec held G (s : BC_) (p i : nat) (ra : RegionAllocator) (size : Z) (canWait : bool) :
  InvS_ spec held None G s -> allocators_ s !! p ≫= (fun l => l !! i) = Some ra -> 0 < size <= rs ->
  runs (allocateWith hashBuffer checksum ctx p i size canWait) s (allocated spec held size G s).
Proof.
  intros I Hra Hs. unfold allocateWith. apply runs_bind. eapply runs_getRA; [done|].
  destruct (valid (ra_rid ra)) eqn:Hv; [|by eapply allocateNew_spec].
  pose proof (owned_elem _ _ _ _ Hra Hv) as Hown. pose proof (owned_range _ _ _ _ _ s _ I Hown) as Hr.
  destruct (region_at _ _ _ _ _ _ _ _ _ _ _ _ _ _ _ _ _ _ I (ra_rid ra) Hr) as (r & L & Hreg & HL & Hok).
  apply runs_bind, runs_zoom. eapply runs_onRegion; [exact Hreg|].
  eapply runs_openAndAllocate; [exact Hok|apply (i_owned I _ _ Hown Hreg)|done| |].
  - intros Hfit. apply runs_ret. split. exists G. split.
    + split; [done| |done]. intros j Hj. cbn.
      destruct (held_apart _ _ _ _ _ _ _ _ _ _ _ _ _ _ _ _ _ _ I j Hj) as (_ & _ & Hnj & _).
      assert (0 <= j) by (eapply (part_range _ _ _ _ _ _ _ _ _ _ _ _ _ _ _ _ _ _ I); rewrite elem_of_app; by left).
      rewrite list_lookup_insert_ne; [done|]. intros ?. apply Hnj. by replace j with (ra_rid ra) by lia.
    + right. exists (ra_rid ra), L. split_and!; [done|done|exact Hown|].
      eapply open_window; [exact I|done|done|done|lia|done].
  - intros _. rewrite (list_insert_id (regions_ (lget s))) by exact Hreg. cbn [fst].
    change (isReady (statusDesc OpenError)) with false. cbv iota.
    rewrite lset_regions.
    apply runs_bind. eapply runs_mono; [by eapply flushAndRelease_spec|].
    intros [] s1 (G1 & I1 & A1 & ra1 & Hra1 & Hv1). cbv beta.
    eapply runs_mono; [by eapply allocateNew_spec|]. intros res s2. by apply allocated_after.
Qed.

(** The allocators of each priority in use. *)
Definition shape_ok (ns : list nat) : Prop :=
  forall pri, (pri = 0 \/ pri < bcNumPriorities_ bc) -> exists n, ns !! Z.to_nat pri = Some (S n).

Lemma allocate_spec (ctx : Ctx) spec held G (s : BC_) (size pri : Z) (canWait : bool) (k : Z) :
  InvS_ spec held None G s -> shape_ok (length <$> allocators_ s) -> (pri = 0 \/ pri < bcNumPriorities_ bc) ->
  0 < size -> runs (allocate hashBuffer checksum ctx size pri canWait k) s (allocated spec held size G s).
Proof.
  intros I Hsh Hpri Hs. unfold allocate. apply runs_bind, runs_get. rewrite (i_rcfg I).
  rewrite (proj2 (Z.eqb_neq size 0)) by lia. cbn [orb].
  destruct (Z.ltb_spec rs size).
  { apply runs_ret. split. exists G. split; [apply after_refl|]. left. by split. }
  destruct (Hsh pri Hpri) as [n Hn]. rewrite list_lookup_fmap in Hn.
  destruct (allocators_ s !! Z.to_nat pri) as [ras|] eqn:Er; [|done]. cbn in Hn. injection Hn as Hn.
  destruct ras as [|ra0 ras]; [done|].
  destruct (lookup_lt_is_Some_2 (ra0 :: ras) (Z.to_nat (k mod zlen (ra0 :: ras)))) as [ra Hra].
  { pose proof (Z.mod_pos_bound k (zlen (ra0 :: ras))). unfold zlen in *. cbn [length] in *. lia. }
  eapply (allocateWith_spec _ _ _ _ _ _ _ ra); [done|by rewrite Er|lia].
Qed.
End alloc.

(** ** Writing an entry and inserting it

    What is written into an open slot is the entry; the index then finds it,
    and the close of the slot gives the invariant back. *)

Section write.
Context {P D X : Type} {IP : EvictionPolicy P} {LP : EvictionPolicyLaws P} {ID : BlockDevice D}.
Context {LD : BlockDeviceLaws D} {IX : Index X} {LX : IndexLaws X}.
Context (hashBuffer checksum : bytes -> Z) (bc : BCConfig X) (rc : RMConfig).
Context (C : config_ok hashBuffer checksum bc rc).

Notation align := (allocAlignSize_ bc).
Notation rs := (rmRegionSize_ rc).
Notation nregs := (numRegions_ rc).
Notation slot_ := (slot hashBuffer checksum align (checksumData_ bc)).
Notation chain_ := (chain hashBuffer checksum align (checksumData_ bc)).
Notation tot := (span align).
Notation esz := (esize align).
Notation Inv_ := (Inv hashBuffer checksum bc rc).
Notation InvV_ := (InvV hashBuffer checksum bc rc).
Notation InvS_ := (InvS hashBuffer checksum bc rc).
Notation region_ok_ := (region_ok hashBuffer checksum bc rc).
Notation points_all_ := (points_all hashBuffer bc rc).
Notation code_ := (code bc rc).
Notation ends_at_ := (ends_at bc).
Notation BC_ := (BC P D X).

(** ** The bytes *)

Lemma split_at (b : bytes) (n : Z) : 0 <= n <= zlen b -> exists x y, b = x ++ y /\ zlen x = n.
Proof.
  intros Hn. exists (take (Z.to_nat n) b), (drop (Z.to_nat n) b). rewrite take_drop. split; [done|].
  unfold zlen in *. rewrite length_take. lia.
Qed.

(** The four stores of [writeEntry] into a slot of the right size. *)
Lemma stores (a rest : bytes) (e : Entry) (o c : Z) :
  o = zlen a -> esz e <= zlen rest ->
  exists v0 p0 k0 h0 c0 t0 rest',
    rest = v0 ++ p0 ++ k0 ++ h0 ++ c0 ++ t0 ++ rest' /\ zlen v0 = zlen (e_val e) /\ zlen k0 = zlen (e_key e) /\
    zlen h0 = 24 /\ zlen c0 = 4 /\ zlen t0 = 4 /\ zlen (v0 ++ p0 ++ k0 ++ h0 ++ c0 ++ t0) = esz e.
Proof.
  intros -> Hs. destruct (block_alignUp_spec (descSize + zlen (e_key e) + zlen (e_val e)) align) as [Hd _].
  { by apply (align_pos hashBuffer checksum bc rc). }
  fold (esize align e) in Hd. unfold descSize in Hd.
  pose proof (zlen_nonneg (e_key e)). pose proof (zlen_nonneg (e_val e)).
  destruct (split_at rest (esz e)) as (sb & rest' & -> & El); [lia|].
  destruct (split_at sb (zlen (e_val e))) as (v0 & sb1 & -> & Ev); [lia|]. rewrite zlen_app in El.
  destruct (split_at sb1 (esz e - zlen (e_val e) - 32 - zlen (e_key e))) as (p0 & sb2 & -> & Ep); [lia|]. rewrite zlen_app in El.
  destruct (split_at sb2 (zlen (e_key e))) as (k0 & sb3 & -> & Ek); [lia|]. rewrite zlen_app in El.
  destruct (split_at sb3 24) as (h0 & sb4 & -> & Eh); [lia|]. rewrite zlen_app in El.
  destruct (split_at sb4 4) as (c0 & t0 & -> & Ec); [lia|]. rewrite zlen_app in El.
  exists v0, p0, k0, h0, c0, t0, rest'. rewrite <- !app_assoc. split_and!; try done; [lia|].
  rewrite !zlen_app. lia.
Qed.

Lemma store_at (d a b b' c : bytes) (off : Z) :
  d = a ++ b ++ c -> off = zlen a -> zlen b' = zlen b -> store d off b' = Ok (a ++ b' ++ c).
Proof. intros -> -> Hl. by apply store_app. Qed.

(** ** Writes through a slot's view *)

(** The state with the buffer of region [rid] replaced. *)
Definition withBuf (s : BC_) (rid : Z) (r : Region) (b : bytes) : BC_ :=
  lset (set_regions (<[Z.to_nat rid := set_buffer (Some b) r]> (regions_ (regionManager_ s))) (regionManager_ s)) s.

Lemma withBuf_id (s : BC_) (rid : Z) (r : Region) (b : bytes) :
  regions_ (regionManager_ s) !! Z.to_nat rid = Some r -> buffer_ r = Some b -> withBuf s rid r b = s.
Proof.
  intros Hr Hb. unfold withBuf. assert (set_buffer (Some b) r = r) as -> by (destruct r; cbn in *; by subst).
  rewrite list_insert_id by done. apply lset_regions.
Qed.

Lemma runs_write (s : BC_) (rid ofs : Z) (r : Region) (b b' buf : bytes) (Q : unit -> BC_ -> Prop) :
  (Z.to_nat rid < length (regions_ (regionManager_ s)))%nat -> store b ofs buf = Ok b' ->
  Q tt (withBuf s rid r b') ->
  runs (onRM (onRegion rid (writeToBuffer ofs buf))) (withBuf s rid r b) Q.
Proof.
  intros Hlt Hs HQ. apply runs_zoom. eapply runs_onRegion; [by apply list_lookup_insert_eq|].
  unfold writeToBuffer. apply runs_bind, runs_get. cbn [buffer_ set_buffer].
  apply runs_bind. eapply runs_lift; [done|]. apply runs_modify. unfold withBuf in HQ. cbn.
  by rewrite list_insert_insert_eq.
Qed.

Lemma writeEntry_runs (s : BC_) (rid : Z) (r : Region) (L : list Entry) (b : bytes) (e : Entry) (Q : unit -> BC_ -> Prop) :
  bcfg s = bc -> regions_ (regionManager_ s) !! Z.to_nat rid = Some r -> buffer_ r = Some b -> chain_ b L ->
  tot L + esz e <= zlen b -> entry_ok align e ->
  (forall b' s', chain_ b' (L ++ [e]) -> zlen b' = zlen b -> quiet (withBuf s rid r b') s' -> Q tt s') ->
  runs (writeEntry checksum (mkRel rid (tot L)) (esz e) (makeHK hashBuffer (e_key e)) (e_val e) (e_time e)) s Q.
Proof.
  intros Ec Hreg Hb (sbs & rest & Eb & Hch) Hfit (Hk & Hv & Ht & Hsz & Hkl & Hvl) HQ.
  pose proof (lookup_lt_Some _ _ _ Hreg) as Hlt. pose proof (chain_span _ _ _ _ _ _ Hch) as Hspan.
  assert (Hrest : esz e <= zlen rest) by (rewrite Eb, zlen_app in Hfit; lia).
  destruct (stores (concat sbs) rest e (tot L) 0 (eq_sym Hspan) Hrest)
    as (v0 & p0 & k0 & h0 & c0 & t0 & rest' & Er & Ev & Ek & Eh & Ecc & Et & Es).
  pose proof (zlen_nonneg (e_key e)). pose proof (zlen_nonneg (e_val e)).
  unfold writeEntry. apply runs_bind, runs_get. cbn [addr_rid addr_offset makeHK hk_key hk_hash].
  rewrite (u32_small (zlen (e_key e))), (u32_small (zlen (e_val e))) by (unfold is_u32; lia).
  change (descHeader (zlen (e_key e)) (zlen (e_val e)) (hashBuffer (e_key e)) (e_time e)) with (e_header hashBuffer e).
  set (hd := e_header hashBuffer e). assert (Hhd : zlen hd = 20) by apply zlen_header.
  set (A := concat sbs) in *.
  assert (Hlens : zlen v0 + zlen p0 + zlen k0 + 32 = esz e) by (rewrite !zlen_app in Es; lia).
  rewrite Ec. set (k := checksum hd).
  rewrite <- (withBuf_id s rid r b Hreg Hb). apply runs_bind.
  eapply runs_write; [done| |].
  { apply (store_at _ (A ++ v0 ++ p0 ++ k0) (h0 ++ c0) _ (t0 ++ rest')).
    - rewrite Eb, Er, <- !app_assoc. done.
    - unfold descSize. rewrite !zlen_app. lia.
    - rewrite !zlen_app, !zlen_le32. lia. }
  set (c := if checksumData_ bc then checksum (e_val e) else 0).
  assert (Hc : is_u32 c).
  { unfold c. destruct (checksumData_ bc); [apply (co_sum _ _ _ _ C)|unfold is_u32; lia]. }
  apply runs_bind.
  assert (Hsum : forall R : unit -> BC_ -> Prop,
    R tt (withBuf s rid r ((A ++ v0 ++ p0 ++ k0) ++ (hd ++ le32 k ++ le32 c) ++ t0 ++ rest')) ->
    runs (if checksumData_ bc
          then onRM (onRegion rid (writeToBuffer (tot L + esz e - descSize + 24) (le32 (checksum (e_val e)))))
          else ret tt)
      (withBuf s rid r ((A ++ v0 ++ p0 ++ k0) ++ (hd ++ le32 k ++ le32 0) ++ t0 ++ rest')) R).
  { intros R HR. unfold c in HR. destruct (checksumData_ bc); [|exact HR].
    eapply runs_write; [done| |].
    - apply (store_at _ (A ++ v0 ++ p0 ++ k0 ++ hd ++ le32 k) (le32 0) _ (t0 ++ rest')).
      + rewrite <- !app_assoc. done.
      + unfold descSize. rewrite !zlen_app, !zlen_le32. lia.
      + by rewrite !zlen_le32.
    - rewrite <- !app_assoc. rewrite <- !app_assoc in HR. exact HR. }
  apply Hsum. apply runs_bind. eapply runs_write; [done| |].
  { apply (store_at _ (A ++ v0 ++ p0) k0 _ (hd ++ le32 k ++ le32 c ++ t0 ++ rest')).
    - rewrite <- !app_assoc. done.
    - unfold descSize. rewrite !zlen_app. lia.
    - done. }
  apply runs_bind. eapply runs_write; [done| |].
  { apply (store_at _ A v0 _ (p0 ++ e_key e ++ hd ++ le32 k ++ le32 c ++ t0 ++ rest')).
    - rewrite <- !app_assoc. done.
    - done.
    - done. }
  apply runs_noise; [eauto with noise|]. intros s' Q'. eapply HQ; [| |exact Q'].
  - eapply (chain_snoc _ _ _ _ _ L e sbs (e_val e ++ p0 ++ e_key e ++ hd ++ le32 k ++ le32 c ++ t0) rest'); [done| |].
    + split; [rewrite !zlen_app, !zlen_le32; lia|]. exists p0, c, t0. split_and!; [done|apply Hc..| |].
      * unfold c. by intros ->.
      * unfold k, hd. done.
    + fold A. rewrite <- !app_assoc. done.
  - rewrite Eb, Er. rewrite !zlen_app, !zlen_le32. lia.
Qed.

(** ** The invariant *)

(** What there is to know of an allocator's region. *)
Lemma owned_region spec held w G (s : BC_) (rid : Z) (L : list Entry) :
  InvS_ spec held w G s -> rid ∈ owned (allocators_ s) -> G !! Z.to_nat rid = Some L ->
  0 <= rid < nregs /\ rid ∉ held /\ (forall i, i ∈ held -> 0 <= i) /\
  exists r b, regions_ (regionManager_ s) !! Z.to_nat rid = Some r /\ filling_ok r /\ buffer_ r = Some b /\
    region_ok_ (device_ (regionManager_ s)) w rid r L /\ zlen b = rs /\ chain_ b L.
Proof.
  intros I Hown HL. pose proof (owned_range _ _ _ _ _ _ _ _ _ s rid I Hown) as Hr. split; [done|].
  split; [intros Hh; by apply (held_apart _ _ _ _ _ _ _ _ _ _ _ _ _ _ _ _ _ _ I) in Hh as (_ & _ & ? & _)|].
  split; [intros i Hi; eapply (part_range _ _ _ _ _ _ _ _ _ _ _ _ _ _ _ _ _ _ I); rewrite elem_of_app; by left|].
  destruct (region_at _ _ _ _ _ _ _ _ _ _ _ _ _ _ _ _ _ _ I rid Hr) as (r & L' & Hreg & HL' & Hok).
  rewrite HL in HL'. injection HL' as <-.
  pose proof (i_owned I _ _ Hown Hreg) as Hf. destruct (proj1 Hf) as [b Hb]. exists r, b.
  pose proof (ro_data _ _ _ _ _ _ _ _ _ Hok) as Hd. unfold data_ok in Hd. rewrite Hb in Hd.
  split_and!; try done; apply Hd.
Qed.

Lemma writeEntry_spec spec held G (s : BC_) (rid : Z) (L : list Entry) (e : Entry) :
  InvS_ spec held (Some (rid, esz e)) G s -> rid ∈ owned (allocators_ s) -> G !! Z.to_nat rid = Some L ->
  entry_ok align e ->
  runs (writeEntry checksum (mkRel rid (tot L)) (esz e) (makeHK hashBuffer (e_key e)) (e_val e) (e_time e)) s
    (fun _ s' => InvS_ spec held (Some (rid, 0)) (<[Z.to_nat rid := L ++ [e]]> G) s' /\ index_ s' = index_ s /\
       allocators_ s' = allocators_ s /\ after held G s (<[Z.to_nat rid := L ++ [e]]> G) s').
Proof.
  intros I Hown HL He.
  destruct (owned_region _ _ _ _ s rid L I Hown HL) as (Hr & Hnh & Hpos & r & b & Hreg & Hfill & Hb & Hok & Hlb & Hch).
  assert (Hfit : tot L + esz e <= rs).
  { pose proof (ro_fits _ _ _ _ _ _ _ _ _ Hok) as Hf. cbn in Hf. rewrite decide_True in Hf by done. cbn in Hf. lia. }
  pose proof (block_esize_pos align e (align_pos _ _ _ _ C)) as Hpos'.
  eapply writeEntry_runs; [apply (i_bcfg I)|exact Hreg|exact Hb|exact Hch|by rewrite Hlb|exact He|].
  intros b' s' Hch' Hlb' Q. split_and!.
  - unfold InvS. rewrite (qt_allocators _ _ Q). eapply quiet_inv; [exact Q|].
    eapply upd_owned; [exact I|exact Hown|exact Hreg|exact HL|intros e' ->%list_elem_of_singleton; done| | | |]; try done.
    + split; [done|apply Hfill].
    + intros j Hj. cbn. by rewrite !decide_False by congruence.
    + destruct Hok. cbn in *. rewrite !(decide_True (P := rid = rid)) in * by done. cbn in *.
      rewrite decide_False in ro_items by lia.
      split; cbn; rewrite ?(decide_True (P := rid = rid)) by done; cbn;
        rewrite ?span_snoc, ?length_app, ?(decide_True (P := 0 = 0)) by done; cbn; try done; try lia.
      split; [congruence|done].
  - by rewrite (qt_index _ _ Q).
  - by rewrite (qt_allocators _ _ Q).
  - eapply after_region; [done|lia|done|by rewrite (qt_index _ _ Q)|by rewrite (qt_regions _ _ Q)|by rewrite (qt_allocators _ _ Q)].
Qed.

(** The slot is closed. *)
Lemma close_spec spec held G (s : BC_) (rid : Z) (L : list Entry) :
  InvS_ spec held (Some (rid, 0)) G s -> rid ∈ owned (allocators_ s) -> G !! Z.to_nat rid = Some L ->
  runs (onRM (rmClose (makeWriteDescriptor Ready rid))) s (fun _ s' =>
    InvS_ spec held None G s' /\ index_ s' = index_ s /\ after held G s G s').
Proof.
  intros I Hown HL.
  destruct (owned_region _ _ _ _ s rid L I Hown HL) as (Hr & Hnh & Hpos & r & b & Hreg & Hfill & Hb & Hok & Hlb & Hch).
  assert (E : <[Z.to_nat rid := L ++ []]> G = G) by (rewrite app_nil_r; by apply list_insert_id).
  apply runs_zoom. unfold rmClose. eapply runs_onRegion; [exact Hreg|]. unfold Region.close. apply runs_modify.
  split_and!; [|done|].
  - unfold InvS, InvV. cbn. rewrite <- E at 1.
    eapply upd_owned; [exact I|exact Hown|exact Hreg|exact HL|by intros e He%elem_of_nil| | | |]; try done.
    + intros j Hj. cbn. by rewrite decide_False by congruence.
    + rewrite app_nil_r. destruct Hok. cbn in *. rewrite !(decide_True (P := rid = rid)) in * by done. cbn in *.
      split; cbn; try done. by rewrite ro_writers.
  - rewrite <- E at 2. by eapply after_region; [|lia|..].
Qed.
End write.

(** ** Inserting

    An insert that succeeds makes the value the last one written for its key,
    and the index finds it; one that does not succeed changes no value. *)

(** The values by key, with that of [k] replaced. *)
Definition upd (spec : bytes -> option bytes) (k : bytes) (v : option bytes) : bytes -> option bytes :=
  fun j => if decide (j = k) then v else spec j.

Section insert.
Context {P D X : Type} {IP : EvictionPolicy P} {LP : EvictionPolicyLaws P} {ID : BlockDevice D}.
Context {LD : BlockDeviceLaws D} {IX : Index X} {LX : IndexLaws X}.
Context (hashBuffer checksum : bytes -> Z) (bc : BCConfig X) (rc : RMConfig).
Context (C : config_ok hashBuffer checksum bc rc).

Notation align := (allocAlignSize_ bc).
Notation rs := (rmRegionSize_ rc).
Notation nregs := (numRegions_ rc).
Notation tot := (span align).
Notation esz := (esize align).
Notation InvS_ := (InvS hashBuffer checksum bc rc).
Notation points_ := (points hashBuffer bc rc).
Notation points_all_ := (points_all hashBuffer bc rc).
Notation code_ := (code bc rc).
Notation ends_at_ := (ends_at bc).
Notation BC_ := (BC P D X).

(** ** The index *)

(** [h] and what has the same place get the address of [e]. *)
Lemma points_insert (x x' : X) spec G (rid : Z) (L : list Entry) (e : Entry) (ofs n : Z) :
  points_all_ x spec G -> G !! Z.to_nat rid = Some L -> 0 <= rid < nregs -> ends_at_ L e ofs ->
  esz e <= decodeSizeHint n -> 0 <= n < 2 ^ 16 -> (forall k j, same x' k j <-> same x k j) ->
  (forall k, locOf x' k = if decide (same x (hashBuffer (e_key e)) k) then Some (code_ rid ofs, n) else locOf x k) ->
  points_all_ x' (upd spec (e_key e) (Some (e_val e))) G.
Proof.
  intros Hp HL Hr He Hn Hn16 Hs Hl h a m E. rewrite Hl in E. case_decide as Hd.
  - injection E as <- <-. exists rid, L, e, ofs. unfold upd. rewrite decide_True by done.
    refine (conj HL (conj Hr (conj He (conj eq_refl (conj _ (conj eq_refl (conj Hn Hn16))))))).
    apply Hs. by symmetry.
  - destruct (Hp h a m E) as (rid' & L' & e' & ofs' & H1 & H2 & H3 & H4 & H5 & H6 & H7).
    exists rid', L', e', ofs'. refine (conj H1 (conj H2 (conj H3 (conj H4 (conj _ (conj _ H7)))))).
    + by apply Hs.
    + unfold upd. rewrite decide_False; [done|]. intros E'. apply Hd. rewrite <- E'. by symmetry.
Qed.

(** The index finds an entry of the key. *)
Definition present (x : X) (G : list (list Entry)) (k : bytes) : Prop :=
  exists rid L e ofs n, locOf x (hashBuffer k) = Some (code_ rid ofs, n) /\ G !! Z.to_nat rid = Some L /\
    0 <= rid < nregs /\ ends_at_ L e ofs /\ e_key e = k.

Lemma updateIndex_spec spec held w G (s : BC_) (rid : Z) (L : list Entry) (e : Entry) :
  InvS_ spec held w G s -> G !! Z.to_nat rid = Some (L ++ [e]) -> 0 <= rid < nregs -> entry_ok align e ->
  tot (L ++ [e]) <= rs ->
  runs (updateIndex (hashBuffer (e_key e)) (esz e) (mkRel rid (tot L)) true) s (fun _ s' =>
    InvS_ (upd spec (e_key e) (Some (e_val e))) held w G s' /\ present (index_ s') G (e_key e) /\
    allocators_ s' = allocators_ s).
Proof.
  intros I HL Hr He Hfit. destruct (align_512 _ _ _ _ C) as (Ha & Ham & _).
  assert (Hap : 0 < align) by lia. pose proof (block_esize_pos align e Hap). pose proof (span_nonneg align L Hap).
  pose proof (co_rs _ _ _ _ C). rewrite span_snoc in Hfit.
  assert (Hm : esz e mod kMinAllocAlignSize = 0) by (apply alignUp_mult; [done|done|lia]).
  destruct (sizeHint_covers (esz e)) as [Hdec Hn16]; [split; [lia|apply He]|done|].
  unfold updateIndex. apply runs_bind, runs_get. unfold addRel. cbn [addr_rid addr_offset].
  rewrite u32_small by (unfold is_u32; lia). rewrite <- span_snoc.
  rewrite (encode_eq hashBuffer checksum bc rc) by (try done; try apply (i_bcfg I); try apply (i_rcfg I); rewrite ?span_snoc; lia).
  apply runs_bind, runs_onIndex.
  destruct (insert_law (index_ s) (hashBuffer (e_key e)) (code_ rid (tot (L ++ [e]))) (encodeSizeHint (esz e)) (i_index I))
    as (x' & Ei & Hw' & Hs & Hl).
  { apply (code_u32 hashBuffer checksum); [done|done|]. rewrite span_snoc. lia. }
  { done. }
  eapply runs_eq; [exact Ei|].
  set (s1 := set_index x' s).
  assert (I1 : InvS_ (upd spec (e_key e) (Some (e_val e))) held w G s1).
  { eapply inv_index; [exact I|exact Hw'|]. eapply (points_insert (index_ s)); try done; [exact (i_points I)|apply ends_at_last|lia]. }
  assert (Hpr : present (index_ s1) G (e_key e)).
  { exists rid, (L ++ [e]), e, (tot (L ++ [e])), (encodeSizeHint (esz e)). cbn. rewrite Hl, decide_True by reflexivity.
    split_and!; try done; try lia. apply ends_at_last. }
  assert (Hfin : forall k : M BC_ unit, noise k -> forall s2, quiet s1 s2 ->
    runs (bind (bcCount succInsertCount_ 1) (fun _ => bind k (fun _ => ret true))) s2 (fun _ s' =>
      InvS_ (upd spec (e_key e) (Some (e_val e))) held w G s' /\ present (index_ s') G (e_key e) /\
      allocators_ s' = allocators_ s)).
  { intros k Hk s2 Q2. quiet_step s3 Q3. apply runs_bind, runs_noise; [done|]. intros s4 Q4. apply runs_ret.
    assert (Q : quiet s1 s4) by (transitivity s2; [done|by transitivity s3]).
    unfold InvS. rewrite (qt_index _ _ Q), (qt_allocators _ _ Q). split_and!; [|done|done].
    eapply quiet_inv; [exact Q|exact I1]. }
  destruct (ixPeek (index_ s) (hashBuffer (e_key e))) as [ir|].
  - quiet_step s2 Q2. quiet_step s3 Q3. apply Hfin; [|by transitivity s2]. destruct (_ <? _); eauto with noise.
  - apply Hfin; [|done]. destruct (_ <? _); eauto with noise.
Qed.

(** ** The operation *)

(** A key and a value the cache may be given: their sizes and that of an
    allocation unit fit 32 bits. *)
Definition item_ok (k v : bytes) (t : Z) : Prop :=
  is_bytes k /\ is_bytes v /\ is_u32 t /\ descSize + zlen k + zlen v + align <= 2 ^ 32.

Lemma item_size (s : BC_) (k v : bytes) (t : Z) :
  bcfg s = bc -> item_ok k v t ->
  serializedSize s (u32 (zlen k)) (u32 (zlen v)) = esz (mkEnt k v t) /\
  (esz (mkEnt k v t) <= kMaxItemSize -> entry_ok align (mkEnt k v t)).
Proof.
  intros E (Hk & Hv & Ht & Hs). pose proof (zlen_nonneg k). pose proof (zlen_nonneg v).
  pose proof (align_pos _ _ _ _ C). unfold descSize in Hs.
  rewrite !u32_small by (unfold is_u32; lia). split.
  - apply (serializedSize_eq hashBuffer checksum bc rc); try done.
  - intros Hm. split_and!; cbn; try done; lia.
Qed.

Definition inserted (spec : bytes -> option bytes) (k v : bytes) (s : BC_) (st : Status) (s' : BC_) : Prop :=
  length <$> allocators_ s' = length <$> allocators_ s /\ exists G',
    (st = StatusOk /\ InvS_ (upd spec k (Some v)) [] None G' s' /\ present (index_ s') G' k \/
     (st = Rejected \/ st = Retry) /\ InvS_ spec [] None G' s').

Lemma block_insert_spec (ctx : Ctx) spec G (s : BC_) (k v : bytes) (t : Z) :
  InvS_ spec [] None G s -> shape_ok bc (length <$> allocators_ s) -> item_ok k v t ->
  runs (BlockCache.insert hashBuffer checksum ctx (makeHK hashBuffer k) v t) s (inserted spec k v s).
Proof.
  intros I Hsh Hi. destruct (item_size s k v t (i_bcfg I) Hi) as [Hsz Heok].
  set (e := mkEnt k v t) in *. pose proof (block_esize_pos align e (align_pos _ _ _ _ C)).
  unfold BlockCache.insert. apply runs_bind. unfold allocateForInsert. apply runs_bind, runs_get.
  cbn [hk_key makeHK]. rewrite Hsz. destruct (Z.ltb_spec kMaxItemSize (esz e)) as [Hbig|Hsmall].
  { quiet_step s1 Q1. quiet_step s2 Q2. apply runs_ret, runs_ret.
    assert (Q : quiet s s2) by (by transitivity s1). unfold inserted. rewrite (qt_allocators _ _ Q).
    split; [done|]. exists G. right. split; [by left|]. unfold InvS. rewrite (qt_allocators _ _ Q).
    by apply (quiet_inv _ _ _ _ _ _ _ _ _ _ _ Q). }
  specialize (Heok Hsmall). apply runs_bind. unfold allocateImpl. apply runs_bind, runs_get. cbn [hk_key makeHK].
  rewrite Hsz. apply runs_bind. eapply runs_mono.
  { apply (allocate_spec hashBuffer checksum bc rc C ctx spec [] G s); [exact I|done|by left|lia]. }
  intros res s1 [(G1 & A1 & [[Hst I1]|(rid & L & -> & HL & Hown & I1)])]; cbv beta; apply runs_ret; cbn [fst snd].
  - destruct (status_ res.1) eqn:Es; [done| |].
    + quiet_step s2 Q2. apply runs_ret, runs_ret. unfold inserted. rewrite (qt_allocators _ _ Q2).
      split; [apply A1|]. exists G1. right. split; [by right|]. unfold InvS. rewrite (qt_allocators _ _ Q2).
      by apply (quiet_inv _ _ _ _ _ _ _ _ _ _ _ Q2).
    + quiet_step s2 Q2. quiet_step s3 Q3. apply runs_ret, runs_ret.
      assert (Q : quiet s1 s3) by (by transitivity s2). unfold inserted. rewrite (qt_allocators _ _ Q).
      split; [apply A1|]. exists G1. right. split; [by left|]. unfold InvS. rewrite (qt_allocators _ _ Q).
      by apply (quiet_inv _ _ _ _ _ _ _ _ _ _ _ Q).
  - cbn [status_ makeWriteDescriptor]. quiet_step s2 Q2. apply runs_ret.
    assert (I2 : InvS_ spec [] (Some (rid, esz e)) G1 s2).
    { unfold InvS. rewrite (qt_allocators _ _ Q2). by apply (quiet_inv _ _ _ _ _ _ _ _ _ _ _ Q2). }
    rewrite <- (qt_allocators _ _ Q2) in Hown.
    apply runs_bind. eapply runs_mono; [by eapply (writeEntry_spec hashBuffer checksum bc rc C spec [] G1 s2 rid L e)|].
    intros [] s3 (I3 & Ex3 & Ea3 & A3). cbv beta.
    assert (HL3 : <[Z.to_nat rid := L ++ [e]]> G1 !! Z.to_nat rid = Some (L ++ [e])).
    { apply list_lookup_insert_eq. by eapply lookup_lt_Some. }
    assert (Hr : 0 <= rid < nregs) by (eapply owned_range; [exact I2|exact Hown]).
    apply runs_bind. eapply runs_mono.
    { eapply (updateIndex_spec spec [] _ _ s3 rid L e); [exact I3|exact HL3|done|done|].
      by apply (inv_fits _ _ _ _ _ _ _ _ _ _ _ _ _ _ _ _ _ _ I3 _ _ HL3). }
    intros _ s4 (I4 & Hpr & Ea4). cbv beta.
    apply runs_bind. eapply runs_mono.
    { eapply (close_spec hashBuffer checksum bc rc _ [] _ s4 rid); [exact I4|by rewrite Ea4, Ea3|exact HL3]. }
    intros _ s5 (I5 & Ex5 & A5). cbv beta. apply runs_ret. split.
    + rewrite (af_shape _ _ _ _ _ A5), Ea4, Ea3, (qt_allocators _ _ Q2). apply A1.
    + exists (<[Z.to_nat rid := L ++ [e]]> G1). left. split; [done|]. split; [exact I5|]. by rewrite Ex5.
Qed.
End insert.
