(* ===== verification/BlockCacheLookup.v ===== *)
(** * The block cache: lookups, removes and random items *)

From S2P Require Import Prelude Bytes BloomFilter Device BigHash Region RegionPolicy BlockIndex RegionManager BlockCache Runs BlockCodec BlockCacheInv BlockCacheMoves BlockCacheFlush BlockCacheInsert.
From stdpp Require Import base tactics numbers list.

#[local] Open Scope Z_scope.

(** ** Looking up

    A lookup finds the entry the index has for the key's hash, wherever its
    region keeps it, and returns its value when the key is the same. *)

Section lookup.
Context {P D X : Type} {IP : EvictionPolicy P} {LP : EvictionPolicyLaws P} {ID : BlockDevice D}.
Context {LD : BlockDeviceLaws D} {IX : Index X} {LX : IndexLaws X}.
Context (hashBuffer checksum : bytes -> Z) (bc : BCConfig X) (rc : RMConfig).
Context (C : config_ok hashBuffer checksum bc rc).

Notation align := (allocAlignSize_ bc).
Notation rs := (rmRegionSize_ rc).
Notation nregs := (numRegions_ rc).
Notation base := (baseOffset_ rc).
Notation chain_ := (chain hashBuffer checksum align (checksumData_ bc)).
Notation tot := (span align).
Notation esz := (esize align).
Notation InvS_ := (InvS hashBuffer checksum bc rc).
Notation region_ok_ := (region_ok hashBuffer checksum bc rc).
Notation code_ := (code bc rc).
Notation ends_at_ := (ends_at bc).
Notation present_ := (present hashBuffer bc rc).
Notation BC_ := (BC P D X).

(** ** Reading the bytes of a region *)

(** [b] are the bytes of region [rid] as an open descriptor reads them. *)
Definition source (d : D) (rid : Z) (r : Region) (phys : bool) (b : bytes) : Prop :=
  zlen b = rs /\ if phys then bd_holds d (base + rid * rs) b /\ bd_can d (base + rid * rs) rs else buffer_ r = Some b.

Lemma source_le (d d' : D) rid r phys b : dev_le d d' -> source d rid r phys b -> source d' rid r phys b.
Proof. intros [H1 H2] [Hl Hs]. split; [done|]. destruct phys; [|done]. destruct Hs. auto. Qed.

(** The state with another device. *)
Definition withDev (s : BC_) (d : D) : BC_ := lset (set_device d (regionManager_ s)) s.

Lemma read_spec (s : BC_) (rid lo n : Z) (r : Region) (phys : bool) (b : bytes) (Q : option bytes -> BC_ -> Prop) :
  cfg (regionManager_ s) = rc -> 0 <= rid < nregs -> regions_ (regionManager_ s) !! Z.to_nat rid = Some r ->
  source (device_ (regionManager_ s)) rid r phys b -> 0 <= lo -> 0 <= n -> lo + n <= rs ->
  (forall d' s', dev_le (device_ (regionManager_ s)) d' -> quiet (withDev s d') s' -> Q (Some (peek b lo n)) s') ->
  runs (onRM (read (makeReadDescriptor Ready rid phys) (mkRel rid lo) n)) s Q.
Proof.
  intros Ec Hr Hreg [Hl Hs] Hlo Hn Hln HQ. apply runs_zoom. unfold read. cbn [addr_rid addr_offset].
  apply runs_bind. eapply runs_getRegion; [exact Hreg|]. apply runs_bind.
  assert (Hk : forall t, rmquiet (lget s) t ->
    runs (if negb (isPhysReadMode (makeReadDescriptor Ready rid phys))
          then bind (onRegion rid (readFromBuffer lo n)) (fun b => ret (Some b))
          else bind get (fun s => onDevice (bdRead (physicalOffset s (mkRel rid lo)) n))) t
      (fun a t' => Q a (lset t' s))).
  { intros t Qt. unfold isPhysReadMode. cbn. destruct phys; cbn.
    - destruct Hs as [Hh Hc]. apply runs_bind, runs_get, runs_onDevice.
      rewrite (phys_eq hashBuffer checksum bc rc) by (done || (rewrite (rq_cfg _ _ Qt); done) || lia).
      rewrite (rq_device _ _ Qt). change (device_ (lget s)) with (device_ (regionManager_ s)).
      destruct (bd_read_law (device_ (regionManager_ s)) (base + rid * rs) b lo n) as (d' & Er & H1 & H2);
        [done|by rewrite Hl|done|done|lia|].
      eapply runs_eq; [exact Er|]. eapply (HQ d'); [by split|]. apply quiet_lset. destruct Qt. by split.
    - apply runs_bind. eapply runs_onRegion; [rewrite (rq_regions _ _ Qt); exact Hreg|].
      unfold readFromBuffer. apply runs_bind, runs_get. rewrite Hs. eapply runs_lift.
      { unfold load. rewrite (proj2 (in_bounds_true _ _ _)); [done|lia]. }
      apply runs_ret. eapply (HQ (device_ (regionManager_ s))); [done|]. apply quiet_lset.
      destruct Qt. cbn in *. split; cbn; try done. rewrite rq_regions. by apply list_insert_id. }
  destruct (isBeingReclaimed r).
  - unfold rmCount. apply runs_modify. by apply Hk.
  - apply runs_ret. by apply Hk.
Qed.

(** ** The entry *)

Lemma peek_suffix (pre sb post : bytes) (m : Z) :
  zlen sb <= m <= zlen pre + zlen sb ->
  peek (pre ++ sb ++ post) (zlen pre + zlen sb - m) m = drop (Z.to_nat (zlen pre + zlen sb - m)) pre ++ sb.
Proof.
  intros Hm. unfold peek. set (n := Z.to_nat (zlen pre + zlen sb - m)).
  assert (Hn : (n <= length pre)%nat) by (unfold n, zlen in *; lia).
  rewrite drop_app_le by done. rewrite (app_assoc (drop n pre)), take_app_le.
  - apply take_ge. rewrite length_app, length_drop. unfold n, zlen in *. lia.
  - rewrite length_app, length_drop. unfold n, zlen in *. lia.
Qed.

Lemma hk_eq_spec (e : Entry) (k : bytes) :
  is_bytes (e_key e) -> is_bytes k ->
  hk_eq (mkHK (e_key e) (hashBuffer (e_key e))) (makeHK hashBuffer k) = bool_decide (e_key e = k).
Proof.
  intros He Hk. unfold hk_eq. cbn. destruct (decide (e_key e = k)) as [->|Hne].
  - rewrite bool_decide_eq_true_2, !Z.eqb_refl by done. cbn. rewrite bytesEqual_eq by done.
    by apply bool_decide_eq_true_2.
  - rewrite bool_decide_eq_false_2 by done. destruct (Z.eqb_spec (zlen (e_key e)) (zlen k)) as [El|]; cbn.
    2: by rewrite andb_false_r.
    unfold zlen in El. apply Nat2Z.inj in El. rewrite bytesEqual_eq by (done || lia).
    rewrite firstn_all. rewrite (take_ge k) by lia. rewrite bool_decide_eq_false_2 by done. apply andb_false_r.
Qed.

(** What reading the entry gives a lookup of [k]. *)
Definition answer (e : Entry) (k : bytes) : Status * bytes * Z :=
  if decide (e_key e = k) then (StatusOk, e_val e, e_time e) else (NotFound, [], 0).

Lemma readEntry_spec (s : BC_) (rid ofs approx : Z) (r : Region) (phys : bool) (b : bytes) (L : list Entry) (e : Entry)
    (k : bytes) (Q : Status * bytes * Z -> BC_ -> Prop) :
  bcfg s = bc -> cfg (regionManager_ s) = rc -> 0 <= rid < nregs ->
  regions_ (regionManager_ s) !! Z.to_nat rid = Some r ->
  source (device_ (regionManager_ s)) rid r phys b -> chain_ b L -> ends_at_ L e ofs -> tot L <= rs ->
  entry_ok align e -> esz e <= approx -> is_bytes k ->
  (forall d' s', dev_le (device_ (regionManager_ s)) d' -> quiet (withDev s d') s' -> Q (answer e k) s') ->
  runs (readEntry checksum (makeReadDescriptor Ready rid phys) (mkRel rid ofs) approx (makeHK hashBuffer k)) s Q.
Proof.
  intros Eb Ec Hr Hreg Hsrc Hch He Hfit Heok Hap Hk HQ.
  destruct (ends_at_range _ _ _ _ C _ _ _ He) as [Ho _]. pose proof (co_rs _ _ _ _ C).
  destruct He as (L1 & L2 & -> & ->).
  destruct (chain_split _ _ _ _ _ _ _ _ Hch) as (pre & sb & post & -> & Hpre & Hslot).
  pose proof (proj1 Hslot) as Hsb. pose proof (block_esize_pos align e (align_pos _ _ _ _ C)).
  assert (Eo : tot (L1 ++ [e]) = zlen pre + zlen sb) by (rewrite span_snoc; lia).
  unfold readEntry. apply runs_bind, runs_get. cbn [addr_offset].
  set (m := Z.min approx (tot (L1 ++ [e]))).
  assert (Hm : zlen sb <= m <= zlen pre + zlen sb) by (pose proof (zlen_nonneg pre); unfold m; lia).
  apply runs_bind. unfold subRel. cbn [addr_rid addr_offset]. rewrite u32_small by (unfold is_u32; lia).
  eapply read_spec; [done|done|done|exact Hsrc|lia|lia|lia|]. intros d' s1 Hd1 Q1.
  rewrite Eo, peek_suffix by done. set (pre' := drop _ pre).
  assert (Hpl : zlen pre' + zlen sb = m).
  { unfold pre', zlen. rewrite length_drop. unfold zlen in Hm. lia. }
  replace (zlen (pre' ++ sb)) with (zlen pre' + esz e) by (rewrite zlen_app; lia).
  destruct (slot_parse hashBuffer checksum (co_hash _ _ _ _ C) (co_sum _ _ _ _ C) align (checksumData_ bc)
    e sb pre' [] Heok Hslot) as (c & Hp & Hcs).
  pose proof (slot_key _ _ _ _ e sb pre' [] Hslot) as Hkey. rewrite app_nil_r in Hp, Hkey.
  apply runs_bind. eapply runs_lift; [exact Hp|]. rewrite (proj2 (Z.eqb_eq _ _)) by done. cbn [negb].
  apply runs_bind. eapply runs_lift; [exact Hkey|]. cbn [keyHash e_desc keySize valueSize].
  rewrite hk_eq_spec by (done || apply Heok). unfold answer in HQ.
  destruct (decide (e_key e = k)) as [Ek|Ek].
  2: { rewrite bool_decide_eq_false_2 by done. cbn [negb]. quiet_step s2 Q2. apply runs_ret.
       eapply (HQ d'); [done|]. by transitivity s1. }
  rewrite bool_decide_eq_true_2 by done. cbn [negb]. rewrite (esize_serialized hashBuffer checksum bc rc C) by done.
  assert (Hfin : forall s2, quiet s1 s2 ->
    runs (bind (lift (load sb 0 (zlen (e_val e)))) (fun slice =>
      if checksumData_ (bcfg s) && negb (c =? checksum slice)
      then bind (bcCount lookupValueChecksumErrorCount_ 1) (fun _ => ret (ChecksumError, [], 0))
      else ret (StatusOk, slice, e_time e))) s2 Q).
  { intros s2 Q2. pose proof (slot_value _ _ _ _ e sb [] [] Hslot) as Hv. rewrite app_nil_r in Hv. cbn [app zlen length Z.of_nat] in Hv.
    apply runs_bind. eapply runs_lift; [exact Hv|]. rewrite Eb.
    replace (checksumData_ bc && negb (c =? checksum (e_val e))) with false.
    - apply runs_ret. eapply (HQ d'); [done|]. by transitivity s1.
    - destruct (checksumData_ bc); [|done]. rewrite Hcs by done. by rewrite Z.eqb_refl. }
  apply runs_bind. destruct (Z.ltb_spec (esz e) (zlen pre' + esz e)).
  - quiet_step s2 Q2. apply runs_ret. cbn [cs lastAccessTimeSecs].
    assert (drop (Z.to_nat (zlen pre' + esz e - esz e)) (pre' ++ sb) = sb) as ->.
    { replace (zlen pre' + esz e - esz e) with (zlen pre') by lia. unfold zlen. rewrite Nat2Z.id. apply drop_app_length. }
    by apply Hfin.
  - rewrite (proj2 (Z.ltb_ge _ _)) by (pose proof (zlen_nonneg pre'); lia). apply runs_ret.
    assert (pre' = []) as -> by (apply nil_length_inv; unfold zlen in *; lia). by apply Hfin.
Qed.

(** ** Opening the region *)

(** A region that has an entry can be opened, for its buffer or the device. *)
Lemma region_open spec G (s : BC_) (rid : Z) (r : Region) (L : list Entry) (e : Entry) :
  InvS_ spec [] None G s -> 0 <= rid < nregs -> regions_ (regionManager_ s) !! Z.to_nat rid = Some r ->
  G !! Z.to_nat rid = Some L -> e ∈ L ->
  hasFlag kBlockAccess r = false /\ isFlushedLocked r || negb (hasBuffer r) = negb (hasBuffer r) /\
  exists b, source (device_ (regionManager_ s)) rid r (negb (hasBuffer r)) b /\ chain_ b L.
Proof.
  intros I Hr Hreg HL He.
  assert (Hin : rid ∈ seqZ 0 nregs) by (apply elem_of_seqZ; lia).
  rewrite <- (i_part I) in Hin. cbn [app] in Hin. rewrite !elem_of_app in Hin.
  assert (Hflags : hasFlag kBlockAccess r = false /\ isFlushedLocked r || negb (hasBuffer r) = negb (hasBuffer r)).
  { unfold isFlushedLocked. destruct Hin as [Hi|[Hi|[Hi|Hi]]].
    - destruct (i_tracked I _ _ Hi Hreg) as [Hb Hf]. split; [done|]. unfold hasBuffer. rewrite Hb. apply orb_true_r.
    - destruct (i_clean I _ _ Hi Hreg) as (Hb & Hf & _). unfold hasFlag, hasBuffer. by rewrite Hb, Hf.
    - destruct (i_owned I _ _ Hi Hreg) as [Hb Hf]. unfold hasFlag. by rewrite Hf.
    - destruct (i_flushing I _ _ Hi Hreg) as (Hb & Hf & Hfl & _). unfold isFlushedLocked in Hfl. by rewrite Hfl. }
  split; [apply Hflags|]. split; [apply Hflags|].
  destruct Hr as [Hr0 Hr1]. pose proof (ro_data _ _ _ _ _ _ _ _ _ (i_regs I _ _ _ Hreg HL Hr0)) as Hd.
  unfold data_ok in Hd. unfold source, hasBuffer. destruct (buffer_ r) as [b|]; cbn.
  - exists b. by destruct Hd.
  - destruct Hd as [->|(b & Hb & Hl & Hc)]; [by apply elem_of_nil in He|]. exists b. split_and!; try done. by apply (i_can I).
Qed.

(** The record of an open region. *)
Definition reading (phys : bool) (r : Region) : Region :=
  set_counts (if phys then 1 else 0) (if phys then 0 else 1) 0 r.

Lemma reading_close (phys : bool) (d : D) (rid : Z) (r : Region) (L : list Entry) (Q : unit -> Region -> Prop) :
  region_ok_ d None rid r L -> Q tt r -> runs (Region.close (makeReadDescriptor Ready rid phys)) (reading phys r) Q.
Proof.
  intros Hok HQ. unfold Region.close. apply runs_modify. destruct Hok. cbn in ro_writers.
  assert (E : set_counts 0 0 0 r = r) by (destruct r; cbn in *; by subst).
  unfold isPhysReadMode. destruct phys; cbn; rewrite <- E in HQ; exact HQ.
Qed.

Lemma rmOpen_runs (t : RM P D) (d : D) (rid : Z) (r : Region) (L : list Entry) (n : Z) (Q : RegionDescriptor -> RM P D -> Prop) :
  regions_ t !! Z.to_nat rid = Some r -> region_ok_ d None rid r L -> hasFlag kBlockAccess r = false ->
  isFlushedLocked r || negb (hasBuffer r) = negb (hasBuffer r) -> n = seqNumber_ t ->
  Q (makeReadDescriptor Ready rid (negb (hasBuffer r)))
    (set_regions (<[Z.to_nat rid := reading (negb (hasBuffer r)) r]> (regions_ t)) t) ->
  runs (rmOpenForRead rid (Some n)) t Q.
Proof.
  intros Hreg Hok Hf Hp -> HQ. unfold rmOpenForRead. apply runs_bind. eapply runs_onRegion; [exact Hreg|].
  unfold openForRead. apply runs_bind, runs_get. rewrite Hf, Hp. destruct Hok. cbn in ro_writers.
  destruct (hasBuffer r); cbn [negb] in *; apply runs_bind, runs_modify, runs_ret;
    rewrite ro_id, ro_phys, ro_inmem, ro_writers; change (u32 (0 + 1)) with 1;
    change (isReady (makeReadDescriptor Ready _ _)) with true; cbn [negb];
    apply runs_bind, runs_get; cbn [seqNumber_ set_regions]; rewrite Z.eqb_refl; cbn [negb]; by apply runs_ret.
Qed.

(** The index after a lookup finds what it found before. *)
Record ix_eq (x x' : X) : Prop := {
  xe_wf : index_wf x';
  xe_same : forall k j, same x' k j <-> same x k j;
  xe_loc : forall h, locOf x' h = locOf x h
}.

(** The state with region [rid] open. *)
Definition withOpen (s : BC_) (x : X) (rid : Z) (r : Region) (phys : bool) : BC_ :=
  lset (set_regions (<[Z.to_nat rid := reading phys r]> (regions_ (regionManager_ s))) (regionManager_ s)) (set_index x s).

Lemma openLoop_spec spec G (s : BC_) (n : nat) (k : bytes) (Q : option (RegionDescriptor * RelAddress * Z) -> BC_ -> Prop) :
  InvS_ spec [] None G s ->
  (forall x' s', locOf (index_ s) (hashBuffer k) = None -> ix_eq (index_ s) x' -> quiet (set_index x' s) s' -> Q None s') ->
  (forall x' rid r L e ofs a, ix_eq (index_ s) x' -> 0 <= rid < nregs -> locOf (index_ s) (hashBuffer k) = Some (code_ rid ofs, a) ->
     regions_ (regionManager_ s) !! Z.to_nat rid = Some r -> G !! Z.to_nat rid = Some L -> ends_at_ L e ofs ->
     Q (Some (makeReadDescriptor Ready rid (negb (hasBuffer r)), mkRel rid ofs, decodeSizeHint a))
       (withOpen s x' rid r (negb (hasBuffer r)))) ->
  runs (openLoop n (makeHK hashBuffer k)) s Q.
Proof.
  intros I Hnone Hsome.
  destruct (lookup_law (index_ s) (hashBuffer k) (i_index I)) as (x' & El & Hw & Hs & Hl).
  assert (Hxe : ix_eq (index_ s) x') by (by split).
  assert (Hend : forall m : option ItemRecord -> M BC_ (option (RegionDescriptor * RelAddress * Z)),
    (m None = bind (bcCount lookupCount_ 1) (fun _ => ret None)) ->
    (forall ir, ixPeek (index_ s) (hashBuffer k) = Some ir ->
       m (Some ir) = let addrEnd := decodeRelAddress s (address ir) in
       bind (onRM (rmOpenForRead (addr_rid addrEnd) (Some (seqNumber_ (regionManager_ s))))) (fun desc =>
         let done_ := ret (Some (desc, addrEnd, decodeSizeHint (sizeHint ir))) in
         match n with
         | O => done_
         | S n => if decide (status_ desc = OpenRetry) then openLoop n (makeHK hashBuffer k) else done_
         end)) ->
    runs (m (ixPeek (index_ s) (hashBuffer k))) (set_index x' s) Q).
  2: { destruct n; cbn [openLoop]; apply runs_bind, runs_get; apply runs_bind, runs_onIndex; (eapply runs_eq; [exact El|]);
       by apply (Hend (fun lr => match lr with None => _ | Some r => _ end)). }
  intros m Hm0 Hm1. destruct (ixPeek (index_ s) (hashBuffer k)) as [ir|] eqn:Ep.
  - rewrite (Hm1 ir) by done. cbv zeta.
    assert (Eloc : locOf (index_ s) (hashBuffer k) = Some (address ir, sizeHint ir)) by (unfold locOf; by rewrite Ep).
    destruct (i_points I _ _ _ Eloc) as (rid & L & e & ofs & HL & Hr & He & Ea & _).
    destruct (region_at _ _ _ _ _ _ _ _ _ _ _ _ _ _ _ _ _ _ I rid Hr) as (r & L' & Hreg & HL' & Hok).
    rewrite HL in HL'. injection HL' as <-.
    destruct (ends_at_range _ _ _ _ C _ _ _ He) as [Ho Hmod].
    pose proof (inv_fits _ _ _ _ _ _ _ _ _ _ _ _ _ _ _ _ _ _ I _ _ HL) as Hfit.
    destruct (region_open spec G s rid r L e I Hr Hreg HL (ends_at_elem _ _ _ _ He)) as (Hf1 & Hf2 & _).
    rewrite Ea, (decode_code hashBuffer checksum bc rc) by (done || apply (i_bcfg I) || apply (i_rcfg I) || lia).
    apply runs_bind, runs_zoom. eapply rmOpen_runs; [exact Hreg|exact Hok|done|done|done|].
    assert (HQ := Hsome x' rid r L e ofs (sizeHint ir) Hxe Hr). rewrite <- Ea in HQ.
    specialize (HQ Eloc Hreg HL He). destruct n; [|rewrite decide_False by done]; apply runs_ret; exact HQ.
  - rewrite Hm0. quiet_step s1 Q1. apply runs_ret. eapply Hnone; [|exact Hxe|exact Q1]. unfold locOf. by rewrite Ep.
Qed.

(** ** The operation *)

(** The state with other contents of the device, the policy and the index. *)
Definition withEnv (s : BC_) (d : D) (p : P) (x : X) : BC_ :=
  lset (set_device d (set_policy p (regionManager_ s))) (set_index x s).

(** A policy that tracks the same regions. *)
Record policy_eq (p p' : P) : Prop := {
  pe_wf : policy_wf p';
  pe_pri : forall i, okPriority p' i <-> okPriority p i;
  pe_tracked : tracked p' ≡ₚ tracked p
}.

Lemma block_inv_env spec held w G (s s' : BC_) (d : D) (p : P) (x : X) :
  InvS_ spec held w G s -> dev_le (device_ (regionManager_ s)) d -> policy_eq (policy_ (regionManager_ s)) p ->
  ix_eq (index_ s) x -> quiet (withEnv s d p x) s' -> InvS_ spec held w G s'.
Proof.
  intros I Hd [H1 H2 H3] [H4 H5 H6] Q. unfold InvS. rewrite (qt_allocators _ _ Q). eapply quiet_inv; [exact Q|].
  eapply inv_index_le; [|exact H4|by apply ix_le_eq]. eapply inv_policy; [|exact H1|exact H2|exact H3].
  eapply inv_device; [exact I|exact Hd].
Qed.

(** What a lookup of [k] gives. *)
Definition found (spec : bytes -> option bytes) (G : list (list Entry)) (x : X) (k : bytes) (res : Status * bytes * Z) : Prop :=
  (res.1.1 = StatusOk /\ spec k = Some res.1.2 /\ present_ x G k) \/ (res = (NotFound, [], 0) /\ ~ present_ x G k).

Lemma touch_runs (t : RM P D) (rid : Z) (r : Region) (Q : unit -> RM P D -> Prop) :
  regions_ t !! Z.to_nat rid = Some r -> 0 <= rid < nregs -> policy_wf (policy_ t) ->
  (forall p', policy_eq (policy_ t) p' -> Q tt (set_policy p' t)) -> runs (touchRegion rid) t Q.
Proof.
  intros Hreg Hr Hw HQ. unfold touchRegion. apply runs_bind. eapply runs_getRegion; [exact Hreg|].
  destruct (hasBuffer r).
  - apply runs_ret. assert (E : set_policy (policy_ t) t = t) by (by destruct t). rewrite <- E. by apply HQ.
  - apply runs_bind, runs_gets, runs_onPolicy.
    destruct (touch_law (clock_ t) rid (policy_ t) Hw) as (p' & Ep & H1 & H2 & H3).
    { unfold isRegionId. pose proof (co_n _ _ _ _ C). lia. }
    eapply runs_eq; [exact Ep|]. by apply HQ.
Qed.

Lemma points_found spec G (s : BC_) (k : bytes) (rid : Z) (L : list Entry) (e : Entry) (ofs a : Z) :
  InvS_ spec [] None G s -> locOf (index_ s) (hashBuffer k) = Some (code_ rid ofs, a) -> 0 <= rid < nregs ->
  G !! Z.to_nat rid = Some L -> ends_at_ L e ofs ->
  found spec G (index_ s) k (answer e k) /\ esz e <= decodeSizeHint a.
Proof.
  intros I El Hr HL He. pose proof (inv_fits _ _ _ _ _ _ _ _ _ _ _ _ _ _ _ _ _ _ I) as Hfit.
  destruct (points_at _ _ _ _ C _ _ _ _ _ _ _ _ _ Hfit (i_points I) HL Hr He El) as (_ & Hspec & Hsz & _).
  split; [|done]. unfold found, answer. destruct (decide (e_key e = k)) as [<-|Hne].
  - left. cbn. split_and!; [done|done|]. exists rid, L, e, ofs, a.
    exact (conj El (conj HL (conj Hr (conj He eq_refl)))).
  - right. split; [done|]. intros (rid' & L' & e' & ofs' & a' & El' & HL' & Hr' & He' & Ek).
    rewrite El in El'. injection El' as Ec _.
    destruct (ends_at_range _ _ _ _ C _ _ _ He). destruct (ends_at_range _ _ _ _ C _ _ _ He').
    pose proof (Hfit _ _ HL). pose proof (Hfit _ _ HL').
    destruct (code_inj hashBuffer checksum bc rc rid rid' ofs ofs' C) as [<- <-]; try done; try lia.
    rewrite HL in HL'. injection HL' as <-. by rewrite (ends_at_inj _ _ _ _ C L e e' ofs) in Hne.
Qed.

Lemma lookup_spec spec G (s : BC_) (k : bytes) :
  InvS_ spec [] None G s -> is_bytes k ->
  runs (BlockCache.lookup checksum (makeHK hashBuffer k)) s (fun res s' =>
    InvS_ spec [] None G s' /\ found spec G (index_ s) k res /\ ix_eq (index_ s) (index_ s') /\
    allocators_ s' = allocators_ s).
Proof.
  intros I Hk. unfold BlockCache.lookup. apply runs_bind. unfold lookupInternal. apply runs_bind, runs_get.
  apply runs_bind. eapply openLoop_spec; [exact I| |].
  { intros x' s' Hnone Hxe Q. apply runs_ret. apply runs_bind, runs_ret. cbn. apply runs_ret. split_and!.
    - eapply (block_inv_env _ _ _ _ s s' (device_ (regionManager_ s)) (policy_ (regionManager_ s)) x'); try done.
      + split; [apply (i_policy I)|done|done].
      + destruct Q. by split.
    - right. split; [done|]. intros (rid & L & e & ofs & n & El & _). congruence.
    - by rewrite (qt_index _ _ Q).
    - by rewrite (qt_allocators _ _ Q). }
  intros x' rid r L e ofs a Hxe Hr Eloc Hreg HL He. set (phys := negb (hasBuffer r)).
  pose proof (lookup_lt_Some _ _ _ Hreg) as Hlt. destruct (Hr) as [Hr0 Hr1].
  pose proof (i_regs I _ _ _ Hreg HL Hr0) as Hok.
  pose proof (ends_at_elem _ _ _ _ He) as HeL.
  destruct (region_open spec G s rid r L e I Hr Hreg HL HeL) as (_ & _ & b & Hsrc & Hch).
  destruct (points_found spec G s k rid L e ofs a I Eloc Hr HL He) as [Hfound Hsz].
  cbn [status_ makeReadDescriptor]. apply runs_bind.
  eapply (readEntry_spec _ rid ofs _ (reading phys r) phys b L e k).
  { apply (i_bcfg I). } { apply (i_rcfg I). } { done. } { cbn. by apply list_lookup_insert_eq. } { exact Hsrc. } { done. }
  { done. } { by apply (inv_fits _ _ _ _ _ _ _ _ _ _ _ _ _ _ _ _ _ _ I _ _ HL). }
  { eapply (i_entries I); [|exact HeL]. by eapply list_elem_of_lookup_2. } { done. } { done. }
  intros d' s1 Hd1 Q1. cbn in Hd1.
  assert (Hmatch : forall (T : Type) (y : M BC_ T) f g, match (answer e k).1.1 with
     | DeviceError => f | ChecksumError => g | _ => y end = y).
  { intros. unfold answer. by case_decide. }
  rewrite Hmatch. apply runs_bind, runs_ret. apply runs_bind.
  set (env p := lset (set_regions (<[Z.to_nat rid := reading phys r]> (regions_ (regionManager_ s)))
    (regionManager_ (withEnv s d' p x'))) (withEnv s d' p x')).
  eapply (runs_mono _ _ (fun _ s2 => exists p', policy_eq (policy_ (regionManager_ s)) p' /\ quiet (env p') s2)).
  { assert (Hnil : quiet (env (policy_ (regionManager_ s))) s1) by (destruct Q1; by split).
    assert (Hpe : policy_eq (policy_ (regionManager_ s)) (policy_ (regionManager_ s))) by (split; [apply (i_policy I)|done|done]).
    case_decide; [|apply runs_ret; eauto].
    apply runs_bind, runs_zoom. eapply touch_runs.
    { cbn. rewrite (qt_regions _ _ Q1). cbn. by apply list_lookup_insert_eq. }
    { done. } { cbn. rewrite (qt_policy _ _ Q1). apply (i_policy I). }
    intros p' Hp'. cbn in Hp'. rewrite (qt_policy _ _ Q1) in Hp'. apply runs_noise; [eauto with noise|].
    intros s2 Q2. exists p'. split; [exact Hp'|]. etransitivity; [|exact Q2]. destruct Q1. by split. }
  intros _ s2 (p' & Hpe & Q2). cbv beta. quiet_step s3 Q3. apply runs_ret.
  assert (Qe : quiet (env p') s3) by (by transitivity s2).
  change (isReady (makeReadDescriptor Ready rid phys)) with true. cbv iota.
  apply runs_bind, runs_zoom. unfold rmClose. cbn [regionId_ makeReadDescriptor].
  eapply runs_onRegion.
  { cbn. rewrite (qt_regions _ _ Qe). cbn. by apply list_lookup_insert_eq. }
  eapply reading_close; [exact Hok|].
  assert (Hq : quiet (withEnv s d' p' x') (lset (set_regions (<[Z.to_nat rid:=r]> (regions_ (lget s3))) (lget s3)) s3)).
  { destruct Qe. split; cbn in *; try done. rewrite qt_regions. cbn.
    rewrite list_insert_insert_eq. by apply list_insert_id. }
  assert (Hres : (if decide ((answer e k).1.1 = StatusOk)
                  then (answer e k) else ((answer e k).1.1, [], 0)) = answer e k).
  { unfold answer. case_decide; cbn; by case_decide. }
  destruct (answer e k) as [[st v] tm]. cbn in *.
  assert (Hend : InvS_ spec [] None G (lset (set_regions (<[Z.to_nat rid:=r]> (regions_ (lget s3))) (lget s3)) s3) /\
    found spec G (index_ s) k (st, v, tm) /\ ix_eq (index_ s) (index_ s3) /\ allocators_ s3 = allocators_ s).
  { split_and!; [|exact Hfound|by rewrite (qt_index _ _ Qe)|by rewrite (qt_allocators _ _ Qe)].
    eapply block_inv_env; [exact I|exact Hd1|exact Hpe|exact Hxe|exact Hq]. }
  destruct (decide (st = StatusOk)); apply runs_ret; [exact Hend|]. by rewrite Hres.
Qed.
End lookup.

(** ** Removing

    A remove takes the key's hash out of the index; one that looks the key up
    first does so when the entry found is of the key, or, unless the removal
    is precise, of another key with the same place in the index. *)

Section remove.
Context {P D X : Type} {IP : EvictionPolicy P} {LP : EvictionPolicyLaws P} {ID : BlockDevice D}.
Context {LD : BlockDeviceLaws D} {IX : Index X} {LX : IndexLaws X}.
Context (hashBuffer checksum : bytes -> Z) (bc : BCConfig X) (rc : RMConfig).
Context (C : config_ok hashBuffer checksum bc rc).

Notation align := (allocAlignSize_ bc).
Notation rs := (rmRegionSize_ rc).
Notation nregs := (numRegions_ rc).
Notation base := (baseOffset_ rc).
Notation chain_ := (chain hashBuffer checksum align (checksumData_ bc)).
Notation tot := (span align).
Notation esz := (esize align).
Notation InvS_ := (InvS hashBuffer checksum bc rc).
Notation region_ok_ := (region_ok hashBuffer checksum bc rc).
Notation code_ := (code bc rc).
Notation ends_at_ := (ends_at bc).
Notation present_ := (present hashBuffer bc rc).
Notation BC_ := (BC P D X).
Notation points_all_ := (points_all hashBuffer bc rc).
Notation found_ := (found hashBuffer bc rc).

(** No address in the index is of an entry of [k]. *)
Lemma points_absent (x : X) spec G (k : bytes) :
  points_all_ x spec G -> ~ present_ x G k -> points_all_ x (upd spec k None) G.
Proof.
  intros Hp Hn h a n E. destruct (Hp h a n E) as (rid & L & e & ofs & H1 & H2 & H3 & -> & H5 & H6 & H7).
  exists rid, L, e, ofs. refine (conj H1 (conj H2 (conj H3 (conj eq_refl (conj H5 (conj _ H7)))))).
  unfold upd. rewrite decide_False; [done|]. intros Ek. apply Hn. exists rid, L, e, ofs, n.
  rewrite <- Ek, <- (locOf_same x h) by done. exact (conj E (conj H1 (conj H2 (conj H3 eq_refl)))).
Qed.

Lemma removeImpl_spec spec held w G (s : BC_) (k : bytes) (v : option bytes) :
  InvS_ spec held w G s ->
  runs (removeImpl (makeHK hashBuffer k) v) s (fun st s' =>
    (st = StatusOk \/ st = NotFound) /\ InvS_ (upd spec k None) held w G s' /\ allocators_ s' = allocators_ s).
Proof.
  intros I. unfold removeImpl. apply runs_bind, runs_get. apply runs_bind, runs_onIndex.
  destruct (remove_law (index_ s) (hashBuffer k) (i_index I)) as (x' & Er & Hw & Hs & Hl).
  eapply runs_eq; [exact Er|].
  assert (I1 : InvS_ (upd spec k None) held w G (set_index x' s)).
  { eapply inv_index; [exact I|exact Hw|]. apply points_absent.
    - eapply (points_le _ _ _ (index_ s)); [|exact (i_points I)]. split; [done|]. intros h. rewrite Hl. case_decide; auto.
    - intros (rid & L & e & ofs & n & El & _). rewrite Hl, decide_True in El by reflexivity. done. }
  assert (Hq : forall s', quiet (set_index x' s) s' -> InvS_ (upd spec k None) held w G s' /\ allocators_ s' = allocators_ s).
  { intros s' Q. unfold InvS. rewrite (qt_allocators _ _ Q). split; [|done]. eapply quiet_inv; [exact Q|exact I1]. }
  destruct (ixPeek (index_ s) (hashBuffer k)) as [ir|].
  - quiet_step s1 Q1. quiet_step s2 Q2. quiet_step s3 Q3. apply runs_bind, runs_noise.
    { destruct v; [|eauto with noise]. destruct (hasDestructorCb_ _); eauto with noise. }
    intros s4 Q4. apply runs_ret. split; [by left|]. apply Hq. transitivity s1; [done|]. transitivity s2; [done|]. by transitivity s3.
  - apply runs_ret. split; [by right|]. by apply Hq.
Qed.

Lemma remove_spec spec G (s : BC_) (k : bytes) :
  InvS_ spec [] None G s -> is_bytes k ->
  runs (BlockCache.remove checksum (makeHK hashBuffer k)) s (fun st s' =>
    (st = StatusOk \/ st = NotFound) /\ InvS_ (upd spec k None) [] None G s' /\ allocators_ s' = allocators_ s).
Proof.
  intros I Hk. unfold BlockCache.remove. quiet_step s1 Q1. apply runs_bind, runs_get.
  assert (I1 : InvS_ spec [] None G s1).
  { unfold InvS. rewrite (qt_allocators _ _ Q1). by apply (quiet_inv _ _ _ _ _ _ _ _ _ _ _ Q1). }
  rewrite <- (qt_allocators _ _ Q1). destruct (_ || _); [|by apply removeImpl_spec].
  apply runs_bind. eapply runs_mono; [by apply (lookup_spec hashBuffer checksum bc rc C)|].
  intros res s2 (I2 & Hf & Hx & Ea). cbv beta. rewrite <- Ea.
  destruct Hf as [(Hst & _)|[-> Hn]].
  - destruct res as [[st v] tm]. cbn in Hst. subst st. by apply removeImpl_spec.
  - quiet_step s3 Q3. assert (I3 : InvS_ spec [] None G s3).
    { unfold InvS. rewrite (qt_allocators _ _ Q3). by apply (quiet_inv _ _ _ _ _ _ _ _ _ _ _ Q3). }
    rewrite <- (qt_allocators _ _ Q3). destruct (preciseRemove_ _); [|by apply removeImpl_spec].
    apply runs_ret. split; [by right|]. split; [|done]. eapply inv_index; [exact I3|apply (i_index I3)|].
    apply points_absent; [exact (i_points I3)|]. rewrite (qt_index _ _ Q3). intros (rid & L & e & ofs & n & El & Hrest).
    apply Hn. exists rid, L, e, ofs, n. rewrite <- (xe_loc _ _ Hx). exact (conj El Hrest).
Qed.

(** A negative answer is right: no entry of the key can be found. *)
Lemma block_couldExist_spec spec G (s : BC_) (k : bytes) :
  InvS_ spec [] None G s ->
  runs (BlockCache.couldExist (makeHK hashBuffer k)) s (fun b s' =>
    InvS_ (if b then spec else upd spec k None) [] None G s' /\ allocators_ s' = allocators_ s).
Proof.
  intros I. unfold BlockCache.couldExist. apply runs_bind, runs_get.
  destruct (ixPeek (index_ s) (hashBuffer k)) as [ir|] eqn:Epk; cbn [hk_hash makeHK]; rewrite Epk; [by apply runs_ret|].
  quiet_step s1 Q1. apply runs_ret. split; [|apply (qt_allocators _ _ Q1)].
  assert (I1 : InvS_ spec [] None G s1).
  { unfold InvS. rewrite (qt_allocators _ _ Q1). by apply (quiet_inv _ _ _ _ _ _ _ _ _ _ _ Q1). }
  eapply inv_index; [exact I1|apply (i_index I1)|]. apply points_absent; [exact (i_points I1)|].
  rewrite (qt_index _ _ Q1). intros (rid & L & e & ofs & n & El & _). unfold locOf in El. by rewrite Epk in El.
Qed.
End remove.

(** ** Random items

    An item drawn at random is one the index finds, with its last value. *)

Section random.
Context {P D X : Type} {IP : EvictionPolicy P} {LP : EvictionPolicyLaws P} {ID : BlockDevice D}.
Context {LD : BlockDeviceLaws D} {IX : Index X} {LX : IndexLaws X}.
Context (hashBuffer checksum : bytes -> Z) (bc : BCConfig X) (rc : RMConfig).
Context (C : config_ok hashBuffer checksum bc rc).

Notation align := (allocAlignSize_ bc).
Notation rs := (rmRegionSize_ rc).
Notation nregs := (numRegions_ rc).
Notation base := (baseOffset_ rc).
Notation chain_ := (chain hashBuffer checksum align (checksumData_ bc)).
Notation tot := (span align).
Notation esz := (esize align).
Notation InvS_ := (InvS hashBuffer checksum bc rc).
Notation region_ok_ := (region_ok hashBuffer checksum bc rc).
Notation code_ := (code bc rc).
Notation ends_at_ := (ends_at bc).
Notation present_ := (present hashBuffer bc rc).
Notation BC_ := (BC P D X).

(** Nothing, or a key with its value. *)
Definition drawn (spec : bytes -> option bytes) (res : Status * bytes * bytes) : Prop :=
  res.1.1 = NotFound \/ res.1.1 = StatusOk /\ spec res.2 = Some res.1.2.

Lemma random_loop spec G (s : BC_) (rid rnd : Z) (L L1 L2 : list Entry) (bb : bytes) (fuel : nat) :
  InvS_ spec [] None G s -> 0 <= rid < nregs -> G !! Z.to_nat rid = Some L -> chain_ bb L ->
  L = L1 ++ L2 -> (length L1 < fuel)%nat ->
  runs (randomLoop hashBuffer checksum fuel rid (tot L1) rnd bb) s (fun res s' => s' = s /\ drawn spec res).
Proof.
  intros I Hr HL Hch. revert L2 fuel. induction L1 as [|e L1 IH] using rev_ind; intros L2 fuel EL Hf.
  { destruct fuel; [lia|]. cbn. split; [done|by left]. }
  destruct fuel as [|fuel]; [lia|]. rewrite <- app_assoc in EL. cbn [app] in EL.
  assert (HeL : e ∈ L) by (rewrite EL, elem_of_app, elem_of_cons; auto).
  assert (Heok : entry_ok align e) by (eapply (i_entries I); [|exact HeL]; by eapply list_elem_of_lookup_2).
  assert (He : ends_at_ L e (tot (L1 ++ [e]))) by (by exists L1, L2).
  destruct (ends_at_range _ _ _ _ C _ _ _ He) as [Ho Hom].
  pose proof (inv_fits _ _ _ _ _ _ _ _ _ _ _ _ _ _ _ _ _ _ I) as Hfits. pose proof (Hfits _ _ HL) as Hfit.
  pose proof (align_pos _ _ _ _ C) as Ha. pose proof (block_esize_pos align e Ha). pose proof (span_nonneg align L1 Ha).
  destruct (entry_read _ _ _ _ C bb L1 L2 e) as (c & Hp & Hcs & Hkey & Hval); [by rewrite <- EL|done|].
  cbn [randomLoop]. rewrite (proj2 (Z.ltb_lt 0 (tot (L1 ++ [e])))) by (rewrite span_snoc; lia). cbn [negb].
  apply runs_bind. eapply runs_lift; [exact Hp|].
  rewrite (proj2 (Z.eqb_eq _ _)) by done. cbn [negb].
  apply runs_bind, runs_get. cbv zeta.
  cbn [keySize valueSize e_desc cs]. rewrite (esize_serialized _ _ _ _ C) by (apply (i_bcfg I) || done).
  replace (u32 (tot (L1 ++ [e]) - esz e)) with (tot L1).
  2: { rewrite span_snoc in *. rewrite u32_small; [lia|]. unfold is_u32. pose proof (co_rs _ _ _ _ C). lia. }
  destruct (Z.ltb_spec rnd (tot L1)).
  { apply (IH (e :: L2)); [done|]. rewrite length_app in Hf. cbn in Hf. lia. }
  apply runs_bind. eapply runs_lift; [exact Hval|].
  destruct (_ && _); [apply runs_ret; split; [done|by left]|].
  apply runs_bind. eapply runs_lift; [exact Hkey|]. cbn [hk_hash makeHK hk_key].
  destruct (ixPeek (index_ s) (hashBuffer (e_key e))) as [ir|] eqn:Ep; [|apply runs_ret; split; [done|by left]].
  destruct (bool_decide (mkRel rid (tot (L1 ++ [e])) = decodeRelAddress s (address ir))) eqn:Ed;
    apply runs_ret; (split; [done|]); [right|by left]. split; [done|]. cbn.
  apply bool_decide_eq_true in Ed.
  assert (El : locOf (index_ s) (hashBuffer (e_key e)) = Some (address ir, sizeHint ir)) by (unfold locOf; by rewrite Ep).
  destruct (i_points I _ _ _ El) as (rid' & L' & e' & ofs' & HL' & Hr' & He' & Ea & _).
  destruct (ends_at_range _ _ _ _ C _ _ _ He') as [Ho' Hom']. pose proof (Hfits _ _ HL').
  rewrite Ea, (decode_code hashBuffer checksum bc rc) in Ed by (done || apply (i_bcfg I) || apply (i_rcfg I) || lia).
  injection Ed as <- Eo. rewrite Ea, <- Eo in El.
  by destruct (points_at _ _ _ _ C _ _ _ _ _ _ _ _ _ Hfits (i_points I) HL Hr He El) as (_ & ? & _).
Qed.

Lemma random_spec spec G (s : BC_) (rid rnd : Z) :
  InvS_ spec [] None G s -> 0 <= rid < nregs -> 0 <= rnd ->
  runs (getRandomAlloc hashBuffer checksum rid rnd) s (fun res s' =>
    InvS_ spec [] None G s' /\ allocators_ s' = allocators_ s /\ drawn spec res).
Proof.
  intros I Hr Hrnd.
  destruct (region_at _ _ _ _ _ _ _ _ _ _ _ _ _ _ _ _ _ _ I rid Hr) as (r & L & Hreg & HL & Hok).
  pose proof (lookup_lt_Some _ _ _ Hreg) as Hlt.
  pose proof (ro_end _ _ _ _ _ _ _ _ _ Hok) as Hend. cbn in Hend. rewrite Z.add_0_r in Hend.
  pose proof (inv_fits _ _ _ _ _ _ _ _ _ _ _ _ _ _ _ _ _ _ I _ _ HL) as Hfit.
  unfold getRandomAlloc. apply runs_bind, runs_zoom. eapply runs_getRegion; [exact Hreg|]. rewrite lset_lget, Hend.
  destruct (Z.leb_spec (tot L) rnd) as [|Hgt]; [apply runs_ret; split_and!; [done|done|by left]|].
  destruct L as [|e0 L0] eqn:EL; [rewrite span_nil in Hgt; lia|]. rewrite <- EL in *.
  destruct (region_open hashBuffer checksum bc rc spec G s rid r L e0 I Hr Hreg HL) as (Hf1 & Hf2 & b & Hsrc & Hch);
    [rewrite EL; by left|].
  set (phys := negb (hasBuffer r)) in *.
  apply runs_bind, runs_get. apply runs_bind, runs_zoom. eapply (rmOpen_runs hashBuffer checksum bc rc); [exact Hreg|exact Hok|done|done|done|].
  change (isReady (makeReadDescriptor Ready rid (negb (hasBuffer r)))) with true. cbn [negb].
  apply runs_bind. eapply (read_spec hashBuffer checksum bc rc C _ rid 0 (tot L) (reading phys r) phys b).
  { apply (i_rcfg I). } { done. } { cbn. by apply list_lookup_insert_eq. } { exact Hsrc. } { done. }
  { lia. } { lia. }
  intros d' s1 Hd1 Q1. cbn in Hd1.
  apply runs_bind, runs_zoom. unfold rmClose. cbn [regionId_ makeReadDescriptor]. eapply runs_onRegion.
  { cbn. rewrite (qt_regions _ _ Q1). cbn. by apply list_lookup_insert_eq. }
  eapply (reading_close hashBuffer checksum bc rc); [exact Hok|].
  set (s2 := lset _ s1). rewrite zlen_peek, Z.eqb_refl by (destruct Hsrc; lia).
  assert (Hq : quiet (withEnv s d' (policy_ (regionManager_ s)) (index_ s)) s2).
  { destruct Q1. split; cbn in *; try done. rewrite qt_regions. cbn.
    rewrite list_insert_insert_eq. by apply list_insert_id. }
  assert (I2 : InvS_ spec [] None G s2).
  { eapply block_inv_env; [exact I|exact Hd1| | |exact Hq]; split; try done; [apply (i_policy I)|apply (i_index I)]. }
  eapply runs_mono.
  { eapply (random_loop spec G s2 rid rnd L L []); [exact I2|done|done|by apply chain_peek|by rewrite app_nil_r|].
    pose proof (span_length _ _ _ _ C L). lia. }
  intros res s3 [-> Hd]. split_and!; [done|by rewrite (qt_allocators _ _ Hq)|done].
Qed.
End random.
