(* ===== verification/BlockCacheJobs.v ===== *)
(** * The block cache: reclaims and the jobs of the workers *)

From S2P Require Import Prelude Bytes BloomFilter Device BigHash Region RegionPolicy BlockIndex RegionManager BlockCache Runs BlockCodec BlockCacheInv BlockCacheMoves BlockCacheFlush BlockCacheInsert BlockCacheLookup.
From stdpp Require Import base tactics numbers list.

#[local] Open Scope Z_scope.

(** ** Reclaiming a region

    The walk over a region that is reclaimed takes every entry of it out of
    the index or moves it to another region; the region is clean afterwards. *)

Section reclaim.
Context {P D X : Type} {IP : EvictionPolicy P} {LP : EvictionPolicyLaws P} {ID : BlockDevice D}.
Context {LD : BlockDeviceLaws D} {IX : Index X} {LX : IndexLaws X}.
Context (hashBuffer checksum : bytes -> Z) (bc : BCConfig X) (rc : RMConfig).
Context (C : config_ok hashBuffer checksum bc rc).

Notation align := (allocAlignSize_ bc).
Notation rs := (rmRegionSize_ rc).
Notation nregs := (numRegions_ rc).
Notation base := (baseOffset_ rc).
Notation chain_ := (chain hashBuffer checksum align (checksumData_ bc)).
Notation tot := (span align).
Notation esz := (esize align).
Notation InvS_ := (InvS hashBuffer checksum bc rc).
Notation region_ok_ := (region_ok hashBuffer checksum bc rc).
Notation code_ := (code bc rc).
Notation ends_at_ := (ends_at bc).
Notation present_ := (present hashBuffer bc rc).
Notation BC_ := (BC P D X).
Notation points_all_ := (points_all hashBuffer bc rc).
Notation clear_above_ := (clear_above bc rc).
Notation scan_ := (scan hashBuffer bc rc).

(** The index after an entry moved. *)
Lemma points_replace (x x' : X) spec G (rid : Z) (L : list Entry) (e : Entry) (ofs n : Z) :
  points_all_ x spec G -> G !! Z.to_nat rid = Some L -> 0 <= rid < nregs -> ends_at_ L e ofs ->
  spec (e_key e) = Some (e_val e) ->
  esz e <= decodeSizeHint n -> 0 <= n < 2 ^ 16 -> (forall k j, same x' k j <-> same x k j) ->
  (forall k, locOf x' k = if decide (same x (hashBuffer (e_key e)) k) then Some (code_ rid ofs, n) else locOf x k) ->
  points_all_ x' spec G.
Proof.
  intros Hp HL Hr He Hspec Hn Hn16 Hs Hl h a m E.
  destruct (points_insert hashBuffer bc rc x x' spec G rid L e ofs n Hp HL Hr He Hn Hn16 Hs Hl h a m E)
    as (rid' & L' & e' & ofs' & H1 & H2 & H3 & H4 & H5 & H6 & H7).
  exists rid', L', e', ofs'. refine (conj H1 (conj H2 (conj H3 (conj H4 (conj H5 (conj _ H7)))))).
  unfold upd in H6. case_decide as Hd; [by rewrite Hd, <- H6|done].
Qed.

Section walk.
Context (spec : bytes -> option bytes) (rid : Z) (r : Region) (L : list Entry) (bb : bytes).
Context (Hchain : chain_ bb L).

(** Between two entries of the walk, when those past [ofs] are done. *)
Record walking (G : list (list Entry)) (w : option (Z * Z)) (ofs : Z) (s : BC_) : Prop := {
  wk_inv : InvS_ spec [rid] w G s;
  wk_ent : G !! Z.to_nat rid = Some L;
  wk_reg : regions_ (regionManager_ s) !! Z.to_nat rid = Some r;
  wk_clear : clear_above_ (index_ s) rid L ofs;
  wk_shape : shape_ok bc (length <$> allocators_ s)
}.

Lemma walking_quiet G w ofs (s s' : BC_) : quiet s s' -> walking G w ofs s -> walking G w ofs s'.
Proof.
  intros Q [I HL Hr Hc Hs]. split; [|done|by rewrite (qt_regions _ _ Q)|by rewrite (qt_index _ _ Q)|by rewrite (qt_allocators _ _ Q)].
  unfold InvS. rewrite (qt_allocators _ _ Q). by apply (quiet_inv _ _ _ _ _ _ _ _ _ _ _ Q).
Qed.

Lemma walking_after G w ofs (s : BC_) G' w' (s' : BC_) :
  after [rid] G s G' s' -> InvS_ spec [rid] w' G' s' -> walking G w ofs s -> walking G' w' ofs s'.
Proof.
  intros [Hx Hk Hsh] I' [I HL Hr Hc Hs]. destruct (Hk rid) as [E1 E2]; [by left|].
  split; [done|by rewrite E1|by rewrite E2|by eapply clear_le|by rewrite Hsh].
Qed.

Lemma walking_range G w ofs (s : BC_) : walking G w ofs s -> 0 <= rid < nregs.
Proof.
  intros [I _ _ _ _]. eapply (part_range _ _ _ _ _ _ _ _ _ _ _ _ _ _ _ _ _ _ I). by left.
Qed.

Lemma walking_ok G w ofs (s : BC_) (e : Entry) : walking G w ofs s -> e ∈ L -> entry_ok align e.
Proof. intros [I HL _ _ _] He. eapply (i_entries I); [|exact He]. by eapply list_elem_of_lookup_2. Qed.

Section entry.
Context (L1 L2 : list Entry) (e : Entry) (EL : L = L1 ++ e :: L2).
Notation ofs := (tot (L1 ++ [e])).

Lemma entry_ends : ends_at_ L e ofs.
Proof. by exists L1, L2. Qed.

(** The entry is done when no hash finds it. *)
Lemma walking_step G w (s : BC_) :
  walking G w ofs s -> (forall h n, locOf (index_ s) h <> Some (code_ rid ofs, n)) -> walking G w (tot L1) s.
Proof.
  intros [I HL Hr Hc Hs] Hn. split; try done. rewrite EL in Hc |- *. by eapply (clear_step hashBuffer checksum).
Qed.

Lemma walking_elsewhere G w (s : BC_) :
  walking G w ofs s -> fst <$> locOf (index_ s) (hashBuffer (e_key e)) <> Some (code_ rid ofs) -> walking G w (tot L1) s.
Proof.
  intros Hw Hn. apply walking_step; [done|]. intros h n El. pose proof (walking_range _ _ _ _ Hw). destruct Hw as [I HL _ _ _].
  destruct (points_at _ _ _ _ C _ _ _ _ _ _ _ _ _ (inv_fits _ _ _ _ _ _ _ _ _ _ _ _ _ _ _ _ _ _ I) (i_points I)
    HL H entry_ends El) as [Hs _].
  apply Hn. by rewrite <- (locOf_same _ h), El.
Qed.

Lemma drop_spec G w (s : BC_) (expired : bool) :
  walking G w ofs s ->
  runs (dropItem (makeHK hashBuffer (e_key e)) (mkRel rid ofs) expired) s (fun _ s' =>
    walking G w (tot L1) s' /\ after [rid] G s G s' /\ allocators_ s' = allocators_ s).
Proof.
  intros Hw. pose proof (walking_range _ _ _ _ Hw) as Hr. destruct (Hw) as [I HL Hreg Hc Hs].
  unfold dropItem. apply runs_bind, runs_get. apply runs_bind.
  eapply (runs_dropEntry hashBuffer checksum bc rc C spec G rid L HL Hr (inv_fits _ _ _ _ _ _ _ _ _ _ _ _ _ _ _ _ _ _ I) s L1 L2 e).
  { exact EL. }
  { split; [apply (i_bcfg I)|apply (i_rcfg I)|apply (i_index I)|exact (i_points I)|exact Hc]. }
  intros ok x' Sc Hle.
  assert (Hw' : walking G w (tot L1) (set_index x' s)).
  { split; try done; [|apply Sc]. eapply inv_index_le; [exact I|apply Sc|exact Hle]. }
  assert (Hq : forall s', quiet (set_index x' s) s' ->
    walking G w (tot L1) s' /\ after [rid] G s G s' /\ allocators_ s' = allocators_ s).
  { intros s' Q. split_and!; [by eapply walking_quiet| |by rewrite (qt_allocators _ _ Q)].
    eapply after_trans; [|by apply after_quiet]. by split. }
  destruct ok; [destruct expired; [quiet_step s1 Q1|]|]; apply runs_ret; by apply Hq.
Qed.

(** ** The reinsertion policy *)

Lemma judge_runs G w o (s : BC_) (hk : HashedKey) (v : bytes) (Q : res Verdict -> BC_ -> Prop) :
  walking G w o s -> (forall a s', quiet s s' -> Q (Ok a) s') -> runs (judge hk v) s Q.
Proof.
  intros [I _ _ _ _] HQ. unfold judge. apply runs_bind, runs_get. rewrite (i_bcfg I).
  assert (Hre : runs (match shouldReinsert_ bc with
    | None => ret (Ok VReject)
    | Some f => bind (modify add_asked) (fun _ =>
        match f (asked_ s) (index_ s) (hk_key hk) v with
        | Throw e => ret (Throw e) | Ok true => ret (Ok VReinsert) | Ok false => ret (Ok VReject) end) end) s Q).
  { destruct (shouldReinsert_ bc) as [f|] eqn:Ef; [|by apply runs_ret, HQ].
    quiet_step s1 Q1. destruct (co_reinsert _ _ _ _ C f (asked_ s) (index_ s) (hk_key hk) v Ef) as [[] ->]; by apply runs_ret, HQ. }
  destruct (checkExpired_ bc) as [f|] eqn:Ef; [|exact Hre].
  destruct (co_expired _ _ _ _ C f v Ef) as [[] ->]; [by apply runs_ret, HQ|exact Hre].
Qed.

(** ** Moving the entry *)

(** The entry as it is written again. *)
Definition moved : Entry := mkEnt (e_key e) (e_val e) 0.

Lemma moved_size : esz moved = esz e.
Proof. done. Qed.

(** The index gets the new address, if it still has the old one. *)
Lemma replace_spec G (s : BC_) (rid' : Z) (L' : list Entry) (Q : bool -> BC_ -> Prop) :
  walking G (Some (rid', 0)) ofs s -> rid' <> rid -> 0 <= rid' < nregs -> G !! Z.to_nat rid' = Some (L' ++ [moved]) ->
  (forall s', walking G (Some (rid', 0)) (tot L1) s' -> allocators_ s' = allocators_ s -> Q true s') ->
  (forall s', walking G (Some (rid', 0)) ofs s' -> allocators_ s' = allocators_ s -> Q false s') ->
  runs (onIndex (ixReplaceIfMatch (hashBuffer (e_key e)) (encodeRelAddress s (mkRel rid' (tot (L' ++ [moved]))))
    (encodeRelAddress s (mkRel rid ofs)))) s Q.
Proof.
  intros Hw Hne Hr' HL' Htrue Hfalse. pose proof (walking_range _ _ _ _ Hw) as Hr. destruct (Hw) as [I HL Hreg Hc Hs].
  pose proof (inv_fits _ _ _ _ _ _ _ _ _ _ _ _ _ _ _ _ _ _ I) as Hfit.
  destruct (ends_at_range _ _ _ _ C _ _ _ entry_ends) as [Ho Hom]. pose proof (Hfit _ _ HL).
  pose proof (ends_at_last bc L' moved) as He'. destruct (ends_at_range _ _ _ _ C _ _ _ He') as [Ho' Hom']. pose proof (Hfit _ _ HL').
  rewrite !(encode_eq hashBuffer checksum bc rc) by (done || apply (i_bcfg I) || apply (i_rcfg I) || lia).
  apply runs_onIndex.
  destruct (replaceIfMatch_law (index_ s) (hashBuffer (e_key e)) (code_ rid' (tot (L' ++ [moved]))) (code_ rid ofs) (i_index I))
    as (x' & ok & Er & Hw' & Hsm & [(-> & n & El & Hl)|(-> & Hno & Hl)]);
    [apply (code_u32 hashBuffer checksum); [done|done|lia]|eapply runs_eq; [exact Er|]..].
  - destruct (points_at _ _ _ _ C _ _ _ _ _ _ _ _ _ Hfit (i_points I) HL Hr entry_ends El) as (_ & Hspec & Hsz & Hn16).
    apply Htrue; [|done]. split; try done.
    + eapply inv_index; [exact I|exact Hw'|].
      apply (points_replace (index_ s) x' spec G rid' (L' ++ [moved]) moved (tot (L' ++ [moved])) n); try done. exact (i_points I).
    + assert (Hnew : forall o, 0 < o <= rs -> o mod align = 0 -> code_ rid o <> code_ rid' (tot (L' ++ [moved]))).
      { intros o Hox Hm E. destruct (code_inj hashBuffer checksum bc rc rid rid' o (tot (L' ++ [moved])) C) as [E1 _];
          try done; try lia. }
      rewrite EL. eapply (clear_step hashBuffer checksum); [exact C| |].
      * rewrite <- EL. intros e2 o h m He2 Ho2. cbn. rewrite Hl.
        destruct (ends_at_range _ _ _ _ C _ _ _ He2). case_decide; [|by eapply Hc]. intros [= E _]. eapply Hnew; [| |done]; [lia|done].
      * intros h m. cbn. rewrite Hl. case_decide as Hd; [intros [= E _]; eapply Hnew; [| |done]; [lia|done]|].
        intros E. apply Hd. symmetry.
        by destruct (points_at _ _ _ _ C _ _ _ _ _ _ _ _ _ Hfit (i_points I) HL Hr entry_ends E).
  - apply Hfalse; [|done]. split; try done.
    + eapply inv_index_le; [exact I|exact Hw'|by apply ix_le_eq].
    + eapply clear_le; [|exact Hc]. by apply ix_le_eq.
Qed.

Definition done_ (s' : BC_) : Prop := exists G', walking G' None (tot L1) s'.

(** The slot is written, the index updated, the slot closed. *)
Lemma move_spec G (s : BC_) (rid' : Z) (L' : list Entry) (entrySize : Z) :
  walking G (Some (rid', esz e)) ofs s -> rid' ∈ owned (allocators_ s) -> G !! Z.to_nat rid' = Some L' ->
  runs (bind (writeEntry checksum (mkRel rid' (tot L')) (esz e) (makeHK hashBuffer (e_key e)) (e_val e) 0) (fun _ =>
    bind get (fun s0 =>
    bind (onIndex (ixReplaceIfMatch (hashBuffer (e_key e)) (encodeRelAddress s0 (addRel (mkRel rid' (tot L')) (esz e)))
            (encodeRelAddress s0 (mkRel rid ofs)))) (fun replaced : bool =>
    bind (if replaced
          then bind (bcCount reinsertionCount_ 1) (fun _ => bind (bcCount reinsertionBytes_ entrySize) (fun _ => ret REINSERTED))
          else bind (bcCount reinsertionErrorCount_ 1) (fun _ =>
                 bind (dropItem (makeHK hashBuffer (e_key e)) (mkRel rid ofs) false) (fun _ => ret FAILED))) (fun res =>
    bind (onRM (rmClose (makeWriteDescriptor Ready rid'))) (fun _ => ret res)))))) s (fun _ s' => done_ s').
Proof.
  intros Hw Hown HL'. pose proof (walking_range _ _ _ _ Hw) as Hr.
  assert (He : entry_ok align e) by (eapply walking_ok; [exact Hw|]; rewrite EL, elem_of_app, elem_of_cons; auto).
  assert (Hm : entry_ok align moved).
  { destruct He as (H1 & H2 & _ & H4). split_and!; try done; try apply H4; cbn; unfold is_u32; lia. }
  pose proof (wk_inv _ _ _ _ Hw) as I.
  assert (Hr' : 0 <= rid' < nregs) by (eapply owned_range; [exact I|exact Hown]).
  assert (Hne : rid' <> rid).
  { intros ->. destruct (held_apart _ _ _ _ _ _ _ _ _ _ _ _ _ _ _ _ _ _ I rid) as (_ & _ & Hn & _); [by left|done]. }
  apply runs_bind. eapply runs_mono.
  { apply (writeEntry_spec hashBuffer checksum bc rc C spec [rid] G s rid' L' moved); [exact I|exact Hown|exact HL'|exact Hm]. }
  intros [] s1 (I1 & Ex1 & Ea1 & A1). cbv beta. pose proof (walking_after _ _ _ _ _ _ _ A1 I1 Hw) as Hw1.
  set (G1 := <[Z.to_nat rid' := L' ++ [moved]]> G) in *.
  assert (HL1 : G1 !! Z.to_nat rid' = Some (L' ++ [moved])) by (apply list_lookup_insert_eq; by eapply lookup_lt_Some).
  apply runs_bind, runs_get. apply runs_bind. unfold addRel. cbn [addr_rid addr_offset].
  pose proof (inv_fits _ _ _ _ _ _ _ _ _ _ _ _ _ _ _ _ _ _ I1 _ _ HL1) as Hfit. rewrite span_snoc, moved_size in Hfit.
  pose proof (span_nonneg align L' (align_pos _ _ _ _ C)). pose proof (block_esize_pos align e (align_pos _ _ _ _ C)).
  pose proof (co_rs _ _ _ _ C). rewrite u32_small by (unfold is_u32; lia). rewrite <- moved_size, <- span_snoc.
  assert (Hclose : forall res s2, walking G1 (Some (rid', 0)) (tot L1) s2 -> allocators_ s2 = allocators_ s1 ->
    runs (bind (onRM (rmClose (makeWriteDescriptor Ready rid'))) (fun _ => ret res)) s2 (fun (_ : AllocatorApiResult) s' => done_ s')).
  { intros res s2 Hw2 Ea2. apply runs_bind. eapply runs_mono.
    { eapply (close_spec hashBuffer checksum bc rc spec [rid] G1 s2 rid'); [apply Hw2|by rewrite Ea2, Ea1|exact HL1]. }
    intros [] s3 (I3 & Ex3 & A3). apply runs_ret. exists G1. by eapply walking_after. }
  eapply replace_spec; [exact Hw1|done|done|exact HL1| |].
  - intros s2 Hw2 Ea2. apply runs_bind. quiet_step s3 Q3. quiet_step s4 Q4. apply runs_ret.
    assert (Q : quiet s2 s4) by (by transitivity s3). apply Hclose; [by eapply walking_quiet|].
    by rewrite (qt_allocators _ _ Q).
  - intros s2 Hw2 Ea2. apply runs_bind. quiet_step s3 Q3. apply runs_bind.
    eapply runs_mono; [apply (drop_spec G1 (Some (rid', 0))); by eapply walking_quiet|].
    intros res s4 (Hw4 & _ & Ea4). cbv beta. apply runs_ret. apply Hclose; [done|].
    by rewrite Ea4, (qt_allocators _ _ Q3).
Qed.

Lemma drop_done G (s : BC_) (expired : bool) (res : AllocatorApiResult) :
  walking G None ofs s ->
  runs (bind (dropItem (makeHK hashBuffer (e_key e)) (mkRel rid ofs) expired) (fun _ => ret res)) s (fun _ s' => done_ s').
Proof.
  intros Hw. apply runs_bind. eapply runs_mono; [by apply drop_spec|]. intros a s' (Hw' & _). apply runs_ret. by exists G.
Qed.

(** A slot is asked for; without one the entry is dropped. *)
Lemma reinsert_spec G (s : BC_) (pri entrySize : Z) :
  walking G None ofs s -> (pri = 0 \/ pri < bcNumPriorities_ bc) ->
  runs (bind (allocateImpl hashBuffer checksum workerCtx (makeHK hashBuffer (e_key e)) (u32 (zlen (e_val e))) pri false) (fun a =>
    let '(desc, size, addr) := a in
    match status_ desc with
    | OpenError => bind (bcCount allocErrorCount_ 1) (fun _ => bind (bcCount reinsertionErrorCount_ 1) (fun _ =>
        bind (dropItem (makeHK hashBuffer (e_key e)) (mkRel rid ofs) false) (fun _ => ret FAILED)))
    | OpenRetry => bind (bcCount reinsertionErrorCount_ 1) (fun _ =>
        bind (dropItem (makeHK hashBuffer (e_key e)) (mkRel rid ofs) false) (fun _ => ret FAILED))
    | Ready =>
        bind (writeEntry checksum addr size (makeHK hashBuffer (e_key e)) (e_val e) 0) (fun _ =>
        bind get (fun s0 =>
        bind (onIndex (ixReplaceIfMatch (hashBuffer (e_key e)) (encodeRelAddress s0 (addRel addr size))
                (encodeRelAddress s0 (mkRel rid ofs)))) (fun replaced : bool =>
        bind (if replaced
              then bind (bcCount reinsertionCount_ 1) (fun _ => bind (bcCount reinsertionBytes_ entrySize) (fun _ => ret REINSERTED))
              else bind (bcCount reinsertionErrorCount_ 1) (fun _ =>
                     bind (dropItem (makeHK hashBuffer (e_key e)) (mkRel rid ofs) false) (fun _ => ret FAILED))) (fun res =>
        bind (onRM (rmClose desc)) (fun _ => ret res)))))
    end)) s (fun _ s' => done_ s').
Proof.
  intros Hw Hpri. destruct (Hw) as [I HL Hreg Hc Hs].
  assert (He : entry_ok align e) by (eapply walking_ok; [exact Hw|]; rewrite EL, elem_of_app, elem_of_cons; auto).
  pose proof (block_esize_pos align e (align_pos _ _ _ _ C)).
  apply runs_bind. unfold allocateImpl. apply runs_bind, runs_get. cbn [hk_key hk_hash makeHK].
  pose proof He as (_ & _ & _ & _ & Hkl & Hvl). pose proof (zlen_nonneg (e_key e)). pose proof (zlen_nonneg (e_val e)).
  rewrite (u32_small (zlen (e_key e))), (u32_small (zlen (e_val e))) by (unfold is_u32; lia).
  rewrite (esize_serialized hashBuffer checksum bc rc C) by (done || apply (i_bcfg I)).
  apply runs_bind. eapply runs_mono.
  { apply (allocate_spec hashBuffer checksum bc rc C workerCtx spec [rid] G s); [exact I|done|done|lia]. }
  intros res s1 [(G1 & A1 & [[Hst I1]|(rid' & L' & -> & HL' & Hown & I1)])]; cbv beta; apply runs_ret; cbn [fst snd].
  - pose proof (walking_after _ _ _ _ _ _ _ A1 I1 Hw) as Hw1. destruct (status_ res.1) eqn:Es; [done| |].
    + quiet_step s2 Q2. apply (drop_done G1). by eapply walking_quiet.
    + quiet_step s2 Q2. quiet_step s3 Q3. apply (drop_done G1). by eapply walking_quiet, walking_quiet.
  - cbn [status_ makeWriteDescriptor]. apply (move_spec G1 s1 rid' L'); [|exact Hown|exact HL'].
    by eapply walking_after.
Qed.

Lemma item_spec G (s : BC_) (c : Z) :
  walking G None ofs s -> (checksumData_ bc = true -> c = checksum (e_val e)) ->
  runs (reinsertOrRemoveItem hashBuffer checksum (makeHK hashBuffer (e_key e)) (e_val e) (esz e) (mkRel rid ofs)
    (e_desc hashBuffer checksum e c)) s (fun _ s' => done_ s').
Proof.
  intros Hw Hcs. pose proof (walking_range _ _ _ _ Hw) as Hr. destruct (Hw) as [I HL Hreg Hc Hs].
  destruct (ends_at_range _ _ _ _ C _ _ _ entry_ends) as [Ho Hom].
  pose proof (inv_fits _ _ _ _ _ _ _ _ _ _ _ _ _ _ _ _ _ _ I _ _ HL) as Hfit.
  unfold reinsertOrRemoveItem. apply runs_bind, runs_get. cbn [hk_hash makeHK].
  destruct (ixPeek (index_ s) (hashBuffer (e_key e))) as [ir|] eqn:Ep.
  2: { quiet_step s1 Q1. apply runs_ret. exists G. eapply walking_quiet; [exact Q1|]. apply walking_elsewhere; [done|].
       unfold locOf. by rewrite Ep. }
  destruct (bool_decide (decodeRelAddress s (address ir) = mkRel rid ofs)) eqn:Ed; cbn [negb].
  2: { apply bool_decide_eq_false in Ed. quiet_step s1 Q1. apply runs_ret. exists G.
       eapply walking_quiet; [exact Q1|]. apply walking_elsewhere; [done|]. unfold locOf. rewrite Ep. cbn. intros [= Ea].
       apply Ed. rewrite Ea. apply (decode_code hashBuffer checksum bc rc); done || apply (i_bcfg I) || apply (i_rcfg I) || lia. }
  apply runs_bind. eapply judge_runs; [exact Hw|]. intros v s1 Q1. pose proof (walking_quiet _ _ _ _ _ Q1 Hw) as Hw1.
  assert (Hdrop : forall b, runs (dropItem (makeHK hashBuffer (e_key e)) (mkRel rid ofs) b) s1 (fun _ s' => done_ s')).
  { intros b. eapply runs_mono; [by apply drop_spec|]. intros a s2 (Hw2 & _). by exists G. }
  destruct v; [apply Hdrop..|]. rewrite (i_bcfg I). cbn [cs e_desc].
  replace (checksumData_ bc && negb (c =? checksum (e_val e))) with false.
  2: { destruct (checksumData_ bc); [|done]. rewrite Hcs by done. by rewrite Z.eqb_refl. }
  apply (reinsert_spec G); [done|]. destruct (Z.eqb_spec (bcNumPriorities_ bc) 0); [by left|right; lia].
Qed.
End entry.

(** ** The walk *)

Lemma reclaim_loop (L1 L2 : list Entry) (fuel : nat) (n : Z) (s : BC_) G :
  L = L1 ++ L2 -> (length L1 < fuel)%nat -> walking G None (tot L1) s ->
  runs (reclaimLoop hashBuffer checksum fuel rid (tot L1) bb n) s (fun _ s' => exists G', walking G' None 0 s').
Proof.
  revert L2 fuel n s G. induction L1 as [|e L1 IH] using rev_ind; intros L2 fuel n s G EL Hf Hw.
  { destruct fuel; [lia|]. cbn. by exists G. }
  destruct fuel as [|fuel]; [lia|]. rewrite <- app_assoc in EL. cbn [app] in EL.
  pose proof (walking_range _ _ _ _ Hw) as Hr.
  assert (Heok : entry_ok align e) by (eapply walking_ok; [exact Hw|]; rewrite EL, elem_of_app, elem_of_cons; auto).
  pose proof (align_pos _ _ _ _ C) as Ha. pose proof (block_esize_pos align e Ha). pose proof (span_nonneg align L1 Ha).
  destruct (entry_read _ _ _ _ C bb L1 L2 e) as (c & Hp & Hcs & Hkey & Hval); [by rewrite <- EL|done|].
  cbn [reclaimLoop]. rewrite (proj2 (Z.ltb_lt 0 (tot (L1 ++ [e])))) by (rewrite span_snoc; lia). cbn [negb].
  apply runs_bind. eapply runs_lift; [exact Hp|].
  rewrite (proj2 (Z.eqb_eq _ _)) by done. cbn [negb].
  apply runs_bind, runs_get. cbv zeta.
  cbn [keySize valueSize e_desc]. rewrite (esize_serialized _ _ _ _ C) by (apply (i_bcfg (wk_inv _ _ _ _ Hw)) || done).
  apply runs_bind. eapply runs_lift; [exact Hkey|].
  apply runs_bind. eapply runs_lift; [exact Hval|].
  apply runs_bind. eapply runs_mono; [by apply (item_spec L1 L2 e EL G)|]. intros res s1 (G1 & Hw1). cbv beta.
  replace (u32 (tot (L1 ++ [e]) - esz e)) with (tot L1).
  2: { pose proof (inv_fits _ _ _ _ _ _ _ _ _ _ _ _ _ _ _ _ _ _ (wk_inv _ _ _ _ Hw) _ _ (wk_ent _ _ _ _ Hw)) as Hl.
       rewrite span_snoc. rewrite u32_small; [lia|]. unfold is_u32.
       rewrite EL, span_app in Hl. pose proof (co_rs _ _ _ _ C). pose proof (span_nonneg align (e :: L2) Ha). lia. }
  apply runs_bind, runs_noise; [destruct res; eauto with noise|]. intros s2 Q2. quiet_step s3 Q3.
  apply (IH (e :: L2) fuel _ s3 G1); [done|rewrite length_app in Hf; cbn in Hf; lia|].
  eapply walking_quiet; [exact Q3|]. by eapply walking_quiet.
Qed.
End walk.
End reclaim.

(** ** The jobs

    A worker that takes up a waiting flush or reclaim brings it to its end,
    unless it is a reclaim and the policy has no region to evict. *)

Section jobs.
Context {P D X : Type} {IP : EvictionPolicy P} {LP : EvictionPolicyLaws P} {ID : BlockDevice D}.
Context {LD : BlockDeviceLaws D} {IX : Index X} {LX : IndexLaws X}.
Context (hashBuffer checksum : bytes -> Z) (bc : BCConfig X) (rc : RMConfig).
Context (C : config_ok hashBuffer checksum bc rc).

Notation align := (allocAlignSize_ bc).
Notation rs := (rmRegionSize_ rc).
Notation nregs := (numRegions_ rc).
Notation base := (baseOffset_ rc).
Notation chain_ := (chain hashBuffer checksum align (checksumData_ bc)).
Notation tot := (span align).
Notation esz := (esize align).
Notation InvS_ := (InvS hashBuffer checksum bc rc).
Notation region_ok_ := (region_ok hashBuffer checksum bc rc).
Notation code_ := (code bc rc).
Notation ends_at_ := (ends_at bc).
Notation present_ := (present hashBuffer bc rc).
Notation BC_ := (BC P D X).
Notation InvV_ := (InvV hashBuffer checksum bc rc).
Notation walking_ := (walking hashBuffer checksum bc rc).

(** ** Releasing the region *)

Lemma release_spec spec G (s : BC_) (rid : Z) (r : Region) (L : list Entry) :
  walking_ spec rid r L G None 0 s -> buffer_ r = None ->
  runs (releaseEvictedRegion rid) s (fun _ s' =>
    InvS_ spec [] None (<[Z.to_nat rid := []]> G) s' /\ allocators_ s' = allocators_ s).
Proof.
  intros Hw Hb. pose proof (walking_range _ _ _ _ _ _ _ _ _ _ _ _ Hw) as Hr.
  destruct Hw as [I HL Hreg Hc Hsh]. pose proof (lookup_lt_Some _ _ _ Hreg) as Hlt. destruct (Hr) as [Hr0 Hr1].
  pose proof (i_regs I _ _ _ Hreg HL Hr0) as Hok.
  unfold releaseEvictedRegion. apply runs_bind, runs_zoom. eapply runs_getRegion; [exact Hreg|]. rewrite lset_lget.
  quiet_step s1 Q1. quiet_step s2 Q2. assert (Q : quiet s s2) by (by transitivity s1).
  apply runs_bind, runs_zoom, runs_gets. rewrite lset_lget.
  assert (Hfin : forall s3 r3, quiet (lset (set_regions (<[Z.to_nat rid := r3]> (regions_ (regionManager_ s2))) (regionManager_ s2)) s2) s3 ->
    regionId r3 = rid -> regionSize_ r3 = rs -> buffer_ r3 = None ->
    runs (bind (zoom (onRegion rid Region.reset)) (fun _ =>
          bind (zoom (modify (fun s => set_clean (cleanRegions_ s ++ [rid])
            (if 0 <? reclaimsOutstanding_ s then reclaimsOutstanding_ s - 1 else reclaimsOutstanding_ s) false s)))
          (fun _ => zoom (rmCount reclaimCount_ 1)))) s3 (fun _ s' =>
      InvS_ spec [] None (<[Z.to_nat rid := []]> G) s' /\ allocators_ s' = allocators_ s)).
  { intros s3 r3 Q3 E1 E2 E3. apply runs_bind, runs_zoom.
    eapply runs_onRegion; [cbn; rewrite (qt_regions _ _ Q3); cbn; rewrite (qt_regions _ _ Q); by apply list_lookup_insert_eq|].
    unfold Region.reset. apply runs_modify. rewrite E1, E2, E3. apply runs_bind, runs_zoom, runs_modify.
    apply runs_noise; [eauto with noise|]. intros s4 Q4. rewrite (qt_allocators _ _ Q4). cbn.
    rewrite (qt_allocators _ _ Q3). cbn. rewrite (qt_allocators _ _ Q). split; [|done].
    unfold InvS. rewrite (qt_allocators _ _ Q4). eapply quiet_inv; [exact Q4|].
    unfold InvV. cbn. destruct Q3 as [-> -> -> -> -> -> -> -> -> ->]. cbn. rewrite list_insert_insert_eq.
    apply (quiet_inv _ _ _ _ _ _ _ _ _ _ _ Q) in I as I2. rewrite (qt_allocators _ _ Q).
    eapply empty_region; [exact C|exact I2|exact HL|]. by rewrite (qt_index _ _ Q). }
  destruct (allowReadDuringReclaim_ _).
  - apply runs_bind, runs_zoom. eapply runs_onRegion; [cbn; rewrite (qt_regions _ _ Q); exact Hreg|].
    unfold waitForActiveReaders. apply runs_bind, runs_modify. apply runs_bind, runs_gets. cbn.
    rewrite (ro_inmem _ _ _ _ _ _ _ _ _ Hok), (ro_phys _ _ _ _ _ _ _ _ _ Hok). cbn. apply runs_ret.
    eapply Hfin; [done|by apply Hok|by apply Hok|done].
  - apply runs_bind, runs_ret. eapply (Hfin s2 r); [|apply Hok|apply Hok|done].
    rewrite list_insert_id by (by rewrite (qt_regions _ _ Q)). by destruct s2 as [? []].
Qed.

(** ** Reclaiming *)

Definition good (spec : bytes -> option bytes) (s' : BC_) : Prop :=
  (exists G', InvS_ spec [] None G' s') /\ shape_ok bc (length <$> allocators_ s').

(** The region is evicted, and no longer open to allocators. *)
Lemma block_evict_spec spec G (s : BC_) :
  InvS_ spec [] None G s -> shape_ok bc (length <$> allocators_ s) -> tracked (policy_ (regionManager_ s)) <> [] ->
  runs (zoom evictRegion) s (fun rid s' => exists r L,
    valid rid = true /\ walking_ spec rid r L G None (tot L) s' /\ tracked_ok r /\
    allocators_ s' = allocators_ s).
Proof.
  intros I Hsh Ht. apply runs_zoom. unfold evictRegion. apply runs_onPolicy.
  destruct (evict_law (policy_ (regionManager_ s)) (i_policy I)) as (rid & p' & Ee & Hw & Hpri & [(Hnil & _)|[Hne Htr]]);
    [by destruct Ht|].
  eapply runs_eq; [exact Ee|].
  assert (I' : InvS_ spec [rid] None G (lset (set_policy p' (regionManager_ s)) s)).
  { eapply pick_tracked; [exact I|done|done|exact Htr]. }
  assert (Hr : 0 <= rid < nregs) by (eapply (part_range _ _ _ _ _ _ _ _ _ _ _ _ _ _ _ _ _ _ I'); by left).
  destruct (region_at _ _ _ _ _ _ _ _ _ _ _ _ _ _ _ _ _ _ I' rid Hr) as (r & L & Hreg & HL & Hok).
  exists r, L. split_and!; [|split; [exact I'|done|done| |done]| |done].
  - unfold valid. by rewrite (proj2 (Z.eqb_neq _ _)).
  - by eapply clear_top.
  - apply (i_tracked I rid r); [|exact Hreg]. rewrite Htr. by left.
Qed.

(** Access to the region is limited while it is reclaimed. *)
Lemma ready_spec spec G (s : BC_) (rid : Z) (r : Region) (L : list Entry) (allow : bool) :
  walking_ spec rid r L G None (tot L) s -> tracked_ok r ->
  runs (zoom (onRegion rid (readyForReclaim true allow))) s (fun _ s' => exists r',
    walking_ spec rid r' L G None (tot L) s' /\ buffer_ r' = None /\ allocators_ s' = allocators_ s).
Proof.
  intros Hw [Hb _]. pose proof (walking_range _ _ _ _ _ _ _ _ _ _ _ _ Hw) as Hr. destruct Hw as [I HL Hreg Hc Hsh].
  pose proof (lookup_lt_Some _ _ _ Hreg) as Hlt. destruct (Hr) as [Hr0 Hr1].
  pose proof (i_regs I _ _ _ Hreg HL Hr0) as Hok.
  apply runs_zoom. eapply runs_onRegion; [exact Hreg|]. unfold readyForReclaim.
  set (f := if allow then kBeingReclaimed else kBlockAccess).
  apply runs_bind, runs_modify. apply runs_bind, runs_gets.
  replace (activeOpenLocked allow (orFlag f r)) with 0.
  2: { unfold activeOpenLocked. cbn. destruct Hok. cbn in ro_writers. rewrite ro_phys, ro_inmem, ro_writers. by destruct allow. }
  apply runs_ret. exists (orFlag f r). split_and!; [|done|done]. split; [|done|by apply list_lookup_insert_eq|done|done].
  eapply upd_held_record; [exact I|by left|exact HL| |by apply dev_le_apart|].
  - apply (i_pri I r). by eapply list_elem_of_lookup_2.
  - eapply region_ok_like; [exact Hok|done..|apply Hok].
Qed.

(** The entries are read from the device and walked over. *)
Lemma evictEntries_spec spec G (s : BC_) (rid : Z) (r : Region) (L : list Entry) :
  walking_ spec rid r L G None (tot L) s -> buffer_ r = None ->
  runs (if numItems_ r =? 0 then ret tt
        else bind (zoom (read (makeReadDescriptor Ready rid true) (mkRel rid 0) (lastEntryEndOffset_ r))) (fun buffer =>
          match buffer with
          | Some b => if zlen b =? lastEntryEndOffset_ r then doEviction (onRegionReclaim hashBuffer checksum) rid b
                      else zoom (rmCount reclaimRegionErrors_ 1)
          | None => if lastEntryEndOffset_ r =? 0 then ret tt else zoom (rmCount reclaimRegionErrors_ 1)
          end)) s (fun _ s' => exists G', walking_ spec rid r L G' None 0 s').
Proof.
  intros Hw Hb. pose proof (walking_range _ _ _ _ _ _ _ _ _ _ _ _ Hw) as Hr. destruct (Hr) as [Hr0 Hr1].
  pose proof (i_regs (wk_inv _ _ _ _ _ _ _ _ _ _ _ _ Hw) _ _ _ (wk_reg _ _ _ _ _ _ _ _ _ _ _ _ Hw) (wk_ent _ _ _ _ _ _ _ _ _ _ _ _ Hw) Hr0) as Hok.
  pose proof (span_length _ _ _ _ C L) as Hlen.
  pose proof (inv_fits _ _ _ _ _ _ _ _ _ _ _ _ _ _ _ _ _ _ (wk_inv _ _ _ _ _ _ _ _ _ _ _ _ Hw) _ _ (wk_ent _ _ _ _ _ _ _ _ _ _ _ _ Hw)) as Hfit.
  pose proof (ro_items _ _ _ _ _ _ _ _ _ Hok) as Hitems. cbn in Hitems. rewrite decide_True, Z.add_0_r in Hitems by done.
  pose proof (ro_end _ _ _ _ _ _ _ _ _ Hok) as Hend. cbn in Hend. rewrite Z.add_0_r in Hend.
  destruct (Z.eqb_spec (numItems_ r) 0) as [E0|Hne].
  { apply runs_ret. exists G. assert (L = []) as -> by (destruct L; [done|cbn in *; lia]). exact Hw. }
  pose proof (ro_data _ _ _ _ _ _ _ _ _ Hok) as Hd. unfold data_ok in Hd. rewrite Hb in Hd.
  destruct Hd as [->|(b & Hh & Hl & Hch)]; [done|].
  apply runs_bind. rewrite Hend. eapply (read_spec hashBuffer checksum bc rc C s rid 0 (tot L) r true b).
  { apply (i_rcfg (wk_inv _ _ _ _ _ _ _ _ _ _ _ _ Hw)). } { done. } { apply Hw. }
  { split; [done|]. split; [done|]. apply (i_can (wk_inv _ _ _ _ _ _ _ _ _ _ _ _ Hw)). lia. }
  { done. } { lia. } { lia. }
  intros d' s1 Hd1 Q1. rewrite zlen_peek, Z.eqb_refl by lia.
  assert (Hw1 : walking_ spec rid r L G None (tot L) s1).
  { eapply walking_quiet; [exact Q1|]. destruct Hw as [I HL Hreg Hc Hsh]. split; try done. by eapply inv_device. }
  unfold doEviction. apply runs_bind. unfold onRegionReclaim. apply runs_bind, runs_zoom.
  eapply runs_getRegion; [apply Hw1|]. rewrite lset_lget, Hend.
  eapply runs_mono; [eapply (reclaim_loop hashBuffer checksum bc rc C spec rid r L (peek b 0 (tot L))); [|by rewrite app_nil_r|lia|exact Hw1]|].
  { by apply chain_peek. }
  intros n s2 (G2 & Hw2). cbv beta. apply runs_noise; [eauto with noise|]. intros s3 Q3. exists G2. by eapply walking_quiet.
Qed.

Lemma doReclaim_spec spec G (s : BC_) :
  InvS_ spec [] None G s -> shape_ok bc (length <$> allocators_ s) -> tracked (policy_ (regionManager_ s)) <> [] ->
  runs (doReclaim (onRegionReclaim hashBuffer checksum)) s (fun _ s' => good spec s').
Proof.
  intros I Hsh Ht. unfold doReclaim. apply runs_bind. eapply runs_mono; [by eapply block_evict_spec|].
  intros rid s1 (r & L & Hv & Hw1 & Hto & Ea1). cbv beta. apply runs_bind, runs_guard; [by rewrite Hv|].
  apply runs_bind, runs_zoom, runs_gets. rewrite lset_lget.
  apply runs_bind. eapply runs_mono; [by eapply ready_spec|]. intros b s2 (r2 & Hw2 & Hb2 & Ea2). cbv beta.
  apply runs_bind, runs_zoom. eapply runs_getRegion; [apply Hw2|]. rewrite lset_lget.
  apply runs_bind. eapply runs_mono; [by eapply evictEntries_spec|]. intros [] s3 (G3 & Hw3). cbv beta.
  eapply runs_mono; [by eapply release_spec|]. intros [] s4 (I4 & Ea4). split; [by eexists|]. rewrite Ea4. apply Hw3.
Qed.

(** ** A worker *)

(** Nothing for the job to evict. *)
Definition starved (s : BC_) (i : nat) : Prop :=
  jobs_ (regionManager_ s) !! i = Some JReclaim /\ tracked (policy_ (regionManager_ s)) = [].

Lemma runJob_spec spec (s : BC_) (i : nat) :
  good spec s ->
  (starved s i /\ exists s', bcRunJob hashBuffer checksum i s = (Throw StillWaiting, s')) \/
  (~ starved s i /\ runs (bcRunJob hashBuffer checksum i) s (fun _ s' => good spec s')).
Proof.
  intros [(G & I) Hsh]. unfold starved, bcRunJob, runJob.
  destruct (jobs_ (regionManager_ s) !! i) as [[|rid]|] eqn:Ej.
  3: { right. split; [by intros [? _]|]. apply runs_bind, runs_zoom, runs_gets.
       change (jobs_ (lget s)) with (jobs_ (regionManager_ s)). rewrite Ej. apply runs_ret. split; [by exists G|done]. }
  - set (s1 := lset (set_jobs (delete i (jobs_ (regionManager_ s))) (regionManager_ s)) s).
    assert (I1 : InvS_ spec [] None G s1) by (eapply same_flushing; [exact I|by apply flushing_delete_reclaim]).
    destruct (decide (tracked (policy_ (regionManager_ s)) = [])) as [Ht|Ht].
    + left. split; [done|].
      destruct (evict_law (policy_ (regionManager_ s)) (i_policy I)) as (rid & p' & Ee & _ & _ & [(_ & -> & ->)|[_ Hp]]);
        [|rewrite Ht in Hp; by apply Permutation_nil_cons in Hp].
      eexists. unfold bind at 1, zoom at 1, gets. change (jobs_ (lget s)) with (jobs_ (regionManager_ s)). rewrite Ej.
      unfold doReclaim, evictRegion, bind, zoom, onPolicy, modify. cbn. rewrite Ee. done.
    + right. split; [by intros [_ ?]|]. apply runs_bind, runs_zoom, runs_gets.
      change (jobs_ (lget s)) with (jobs_ (regionManager_ s)). rewrite Ej, lset_lget.
      apply runs_bind, runs_zoom, runs_modify. apply (doReclaim_spec spec G s1); [exact I1|exact Hsh|exact Ht].
  - right. split; [by intros [? _]|]. apply runs_bind, runs_zoom, runs_gets.
    change (jobs_ (lget s)) with (jobs_ (regionManager_ s)). rewrite Ej, lset_lget.
    apply runs_bind, runs_zoom, runs_modify.
    pose proof (flushing_delete _ _ _ Ej) as Hf.
    assert (Hin : rid ∈ flushing (jobs_ (regionManager_ s))) by (rewrite Hf; by left).
    assert (Hr : 0 <= rid < nregs).
    { eapply (part_range _ _ _ _ _ _ _ _ _ _ _ _ _ _ _ _ _ _ I). rewrite !elem_of_app. auto. }
    destruct (region_at _ _ _ _ _ _ _ _ _ _ _ _ _ _ _ _ _ _ I rid Hr) as (r & L & Hreg & HL & Hok).
    eapply runs_mono.
    { eapply (doFlushInternal_spec hashBuffer checksum bc rc C spec [] G (allocators_ s) rid r L); [split|].
      - eapply pick_flush; [exact I|exact Hf].
      - exact Hreg.
      - exact HL.
      - by apply (i_flushing I rid r). }
    intros [] s' (G' & I' & A' & Ea'). split; [exists G'; unfold InvS; by rewrite Ea'|]. by rewrite Ea'.
Qed.

(** ** Flushing every allocator *)

Lemma forRAs_spec spec (s : BC_) (ctx : Ctx) (pis : list (nat * nat)) :
  good spec s ->
  (forall p i, (p, i) ∈ pis -> exists n, (length <$> allocators_ s) !! p = Some n /\ (i < n)%nat) ->
  runs (forRAs (fun p i => flushAndReleaseRegionFromRALocked hashBuffer checksum ctx p i false) pis) s
    (fun _ s' => good spec s').
Proof.
  revert s. induction pis as [|[p i] pis IH]; intros s Hg Hp; [by apply runs_ret|].
  destruct (Hg) as [(G & I) Hsh]. destruct (Hp p i) as (n & Hn & Hi); [by left|].
  rewrite list_lookup_fmap in Hn. destruct (allocators_ s !! p) as [l|] eqn:El; [|done]. injection Hn as <-.
  destruct (lookup_lt_is_Some_2 l i Hi) as [ra Hra].
  cbn [forRAs]. apply runs_bind. eapply runs_mono.
  { eapply (flushAndRelease_spec hashBuffer checksum bc rc C ctx spec [] G s p i ra); [exact I|by rewrite El]. }
  intros [] s1 (G1 & I1 & A1 & _). cbv beta. apply IH.
  - split; [by exists G1|]. by rewrite (af_shape _ _ _ _ _ A1).
  - intros p' i' Hin. rewrite (af_shape _ _ _ _ _ A1). apply Hp. by right.
Qed.

Lemma allRAs_elem (a : list (list RegionAllocator)) (p i : nat) :
  (p, i) ∈ allRAs a -> exists n, (length <$> a) !! p = Some n /\ (i < n)%nat.
Proof.
  unfold allRAs. intros Hin. apply list_elem_of_In, in_concat in Hin as (l & Hl & Hin).
  apply list_elem_of_In, elem_of_lookup_imap in Hl as (q & ras & -> & Hq).
  apply list_elem_of_In, list_elem_of_fmap in Hin as (j & [= -> ->] & Hj). apply elem_of_seq in Hj.
  exists (length ras). rewrite list_lookup_fmap, Hq. split; [done|lia].
Qed.

Lemma allocatorFlush_spec spec (s : BC_) (ctx : Ctx) :
  good spec s -> runs (allocatorFlush hashBuffer checksum ctx) s (fun _ s' => good spec s').
Proof.
  intros Hg. unfold allocatorFlush. apply runs_bind, runs_get. apply forRAs_spec; [done|]. apply allRAs_elem.
Qed.
End jobs.
