(* ===== verification/BlockCacheSafety.v ===== *)
(** * The block cache: theorems

    A new block cache satisfies the invariant, and any sequence of operations
    and jobs keeps it: what a lookup returns is what was written last. *)

From S2P Require Import Prelude Bytes BloomFilter Device BigHash Region RegionPolicy RegionPolicyProofs BlockIndex RegionManager BlockCache Runs BlockCodec BlockCacheInv BlockCacheMoves BlockCacheFlush BlockCacheInsert BlockCacheLookup BlockCacheJobs.
From stdpp Require Import base tactics numbers list gmap.

#[local] Open Scope Z_scope.

(** ** A new block cache

    The constructor gives every region to the policy; the invariant holds with
    no value written. *)

Section new.
Context {P D X : Type} {IP : EvictionPolicy P} {LP : EvictionPolicyLaws P} {ID : BlockDevice D}.
Context {LD : BlockDeviceLaws D} {IX : Index X} {LX : IndexLaws X}.
Context (hashBuffer checksum : bytes -> Z) (bc : BCConfig X) (rc : RMConfig).
Context (C : config_ok hashBuffer checksum bc rc).

Notation align := (allocAlignSize_ bc).
Notation rs := (rmRegionSize_ rc).
Notation nregs := (numRegions_ rc).
Notation base := (baseOffset_ rc).
Notation chain_ := (chain hashBuffer checksum align (checksumData_ bc)).
Notation tot := (span align).
Notation esz := (esize align).
Notation InvS_ := (InvS hashBuffer checksum bc rc).
Notation region_ok_ := (region_ok hashBuffer checksum bc rc).
Notation code_ := (code bc rc).
Notation ends_at_ := (ends_at bc).
Notation present_ := (present hashBuffer bc rc).
Notation BC_ := (BC P D X).
Notation good_ := (good hashBuffer checksum bc rc).

Lemma track_loop (rids : list Z) (t : RM P D) :
  policy_wf (policy_ t) -> okPriority (policy_ t) 0 ->
  (forall i, i ∈ rids -> 0 <= i < nregs /\ regions_ t !! Z.to_nat i = Some (newRegion i rs)) ->
  NoDup (rids ++ tracked (policy_ t)) ->
  runs (trackEmpty rids) t (fun _ t' => exists p', rmquiet (set_policy p' t) t' /\ policy_wf p' /\
    tracked p' ≡ₚ rids ++ tracked (policy_ t) /\ (forall k, okPriority p' k <-> okPriority (policy_ t) k)).
Proof.
  revert t. induction rids as [|i rids IH]; intros t Hw H0 Hr Hn.
  { apply runs_ret. exists (policy_ t). by split_and!. }
  destruct (Hr i) as [Hi Hreg]; [by left|]. cbn [app] in Hn. apply NoDup_cons in Hn as [Hni Hn].
  cbn [trackEmpty]. apply runs_bind. eapply runs_getRegion; [exact Hreg|].
  apply runs_bind. unfold rmCount. apply runs_modify. cbn [numItems_ newRegion Z.eqb].
  apply runs_bind. unfold trackRegion. apply runs_bind. eapply runs_getRegion; [exact Hreg|].
  apply runs_bind, runs_gets, runs_onPolicy. cbn [policy_ set_rmCounter].
  destruct (track_law (clock_ t) (newRegion i rs) (policy_ t) Hw) as (p1 & E1 & Hw1 & Ht1 & Hk1).
  { unfold isRegionId. cbn. pose proof (co_n _ _ _ _ C). lia. }
  { cbn. rewrite elem_of_app in Hni. tauto. }
  { done. }
  eapply runs_eq; [exact E1|]. cbn [regionId newRegion] in Ht1.
  eapply runs_mono; [apply IH|].
  - exact Hw1.
  - cbn. by apply Hk1.
  - intros j Hj. apply Hr. by right.
  - cbn. rewrite Ht1. rewrite <- Permutation_middle. by apply NoDup_cons.
  - intros [] t' (p' & Hq & Hw' & Ht' & Hk'). cbn in *. exists p'. split_and!; [|done| |].
    + destruct Hq. by split.
    + rewrite Ht', Ht1. by rewrite <- Permutation_middle.
    + intros k. by rewrite Hk'.
Qed.

Lemma trackNonEmpty_idle (rids : list Z) (t : RM P D) (Q : unit -> RM P D -> Prop) :
  (forall i, i ∈ rids -> regions_ t !! Z.to_nat i = Some (newRegion i rs)) -> Q tt t ->
  runs (trackNonEmpty rids) t Q.
Proof.
  intros Hr HQ. induction rids as [|i rids IH]; [by apply runs_ret|]. cbn [trackNonEmpty].
  apply runs_bind. eapply runs_getRegion; [by apply Hr; left|]. apply runs_bind, runs_ret. apply IH.
  intros j Hj. apply Hr. by right.
Qed.

(** Regions that hold nothing, as the constructor makes them and [reset]
    leaves them. *)
Definition fresh : list Region := (fun i => newRegion i rs) <$> seqZ 0 nregs.

Lemma fresh_at (i : Z) : 0 <= i < nregs -> fresh !! Z.to_nat i = Some (newRegion i rs).
Proof.
  intros Hi. unfold fresh. rewrite list_lookup_fmap, lookup_seqZ_lt by lia. cbn. f_equal. f_equal. lia.
Qed.

Lemma resetEvictionPolicy_fresh (t : RM P D) :
  cfg t = rc -> regions_ t = fresh -> policy_wf (policy_ t) -> okPriority (policy_ t) 0 ->
  runs resetEvictionPolicy t (fun _ t' => exists p', rmquiet (set_policy p' t) t' /\ policy_wf p' /\
    tracked p' ≡ₚ seqZ 0 nregs /\ (forall k, okPriority p' k <-> okPriority (policy_ t) k)).
Proof.
  intros Ec Er Hp Hpri. unfold resetEvictionPolicy. apply runs_bind, runs_onPolicy.
  assert (Hrgs : forall i, i ∈ seqZ 0 nregs -> 0 <= i < nregs /\ fresh !! Z.to_nat i = Some (newRegion i rs)).
  { intros i Hi%elem_of_seqZ. split; [lia|]. apply fresh_at. lia. }
  destruct (reset_law (policy_ t) Hp) as (p1 & E1 & Hw1 & Ht1 & Hk1). eapply runs_eq; [exact E1|].
  apply runs_bind, runs_modify. apply runs_bind, runs_gets. apply runs_bind. cbn [cfg set_rmCounter set_policy]. rewrite Ec.
  eapply runs_mono; [apply track_loop|].
  - exact Hw1.
  - cbn. by apply Hk1.
  - cbn. by rewrite Er.
  - cbn. rewrite Ht1, app_nil_r. apply NoDup_seqZ.
  - intros [] t' (p' & Hq & Hw' & Ht' & Hk'). cbn in *. apply trackNonEmpty_idle.
    + intros i Hi. rewrite (rq_regions _ _ Hq). cbn. rewrite Er. by apply Hrgs.
    + exists p'. rewrite Ht1, app_nil_r in Ht'. split_and!; [destruct Hq; by split|done|done|].
      intros k. by rewrite Hk'.
Qed.

(** A block cache of such regions satisfies the invariant when nothing is in
    the index. *)
Lemma fresh_good (s : BC_) :
  bcfg s = bc -> cfg (regionManager_ s) = rc -> regions_ (regionManager_ s) = fresh ->
  cleanRegions_ (regionManager_ s) = [] -> jobs_ (regionManager_ s) = [] -> owned (allocators_ s) = [] ->
  policy_wf (policy_ (regionManager_ s)) -> tracked (policy_ (regionManager_ s)) ≡ₚ seqZ 0 nregs ->
  okPriority (policy_ (regionManager_ s)) 0 ->
  (forall ra, ra ∈ concat (allocators_ s) -> okPriority (policy_ (regionManager_ s)) (ra_priority ra)) ->
  (forall o, o ∈ buffers_ (regionManager_ s) -> exists b, o = Some b /\ zlen b = rs) ->
  index_wf (index_ s) -> (forall h, locOf (index_ s) h = None) ->
  (forall i, 0 <= i < nregs -> bd_can (device_ (regionManager_ s)) (base + i * rs) rs) ->
  shape_ok bc (length <$> allocators_ s) -> good_ (fun _ => None) s.
Proof.
  intros Eb Ec Er El Ej Eo Hw Ht H0 Hra Hbf Hx Hemp Hcan Hsh. split; [|done].
  exists (replicate (Z.to_nat nregs) []). unfold InvS, InvV. rewrite Er, El, Ej. pose proof (co_n _ _ _ _ C).
  assert (Hlen : length fresh = Z.to_nat nregs) by (unfold fresh; by rewrite length_fmap, length_seqZ).
  assert (Hat : forall i r, 0 <= i -> fresh !! Z.to_nat i = Some r -> r = newRegion i rs).
  { intros i r Hi Hr. pose proof (lookup_lt_Some _ _ _ Hr). rewrite fresh_at in Hr by lia. by injection Hr as <-. }
  split; try done.
  - intros r Hr. apply list_elem_of_fmap in Hr as (i & -> & _). done.
  - rewrite Eo, Ht. by rewrite !app_nil_r.
  - lia.
  - by rewrite length_replicate.
  - intros i r L Hr HL Hi. apply Hat in Hr as ->; [|done]. apply lookup_replicate in HL as [-> _].
    pose proof (co_rs _ _ _ _ C). split; cbn; try done; [lia|by left].
  - intros L e HL He. apply elem_of_replicate in HL as [-> _]. by apply elem_of_nil in He.
  - intros i r Hi Hr. rewrite Ht in Hi. apply elem_of_seqZ in Hi. apply Hat in Hr as ->; [|lia]. done.
  - intros i r Hi. by apply elem_of_nil in Hi.
  - intros i r Hi. rewrite Eo in Hi. by apply elem_of_nil in Hi.
  - intros i r Hi. by apply elem_of_nil in Hi.
  - intros h a n E. by rewrite Hemp in E.
Qed.

(** What a new block cache is made of. *)
Record parts_ok (d : D) (p : P) (x : X) (bufs : list bytes) (perPriority : list nat) : Prop := {
  po_policy : policy_wf p;
  po_pri : forall k, 0 <= k <= Z.of_nat (length perPriority) -> okPriority p k;
  po_index : index_wf x;
  po_empty : forall h, locOf x h = None;
  po_bufs : forall b, b ∈ bufs -> zlen b = rs;
  po_shape : shape_ok bc perPriority;
  po_can : forall i, 0 <= i < nregs -> bd_can d (base + i * rs) rs
}.

Lemma newAllocators_elem (ns : list nat) (ra : RegionAllocator) :
  ra ∈ concat (newAllocators ns) -> ra_rid ra = kInvalid /\ 0 <= ra_priority ra <= Z.of_nat (length ns).
Proof.
  unfold newAllocators. intros Hin. apply list_elem_of_In, in_concat in Hin as (l & Hl & Hin).
  apply list_elem_of_In, elem_of_lookup_imap in Hl as (q & n & -> & Hq). apply list_elem_of_In in Hin.
  apply elem_of_replicate in Hin as [-> _]. apply lookup_lt_Some in Hq. cbn. split; [done|lia].
Qed.

Lemma newAllocators_owned (ns : list nat) : owned (newAllocators ns) = [].
Proof.
  destruct (owned (newAllocators ns)) as [|i l] eqn:E; [done|].
  assert (Hi : i ∈ owned (newAllocators ns)) by (rewrite E; by left).
  apply list_elem_of_filter in Hi as [Hv Hi]. apply list_elem_of_fmap in Hi as (ra & -> & Hra).
  apply newAllocators_elem in Hra as [Er _]. by rewrite Er in Hv.
Qed.

Lemma newAllocators_shape (ns : list nat) : length <$> newAllocators ns = ns.
Proof.
  unfold newAllocators. apply list_eq. intros i. rewrite list_lookup_fmap, list_lookup_imap.
  destruct (ns !! i) as [n|]; [|done]. cbn. by rewrite length_replicate.
Qed.

Lemma newBC_good (d : D) (p : P) (x : X) (bufs : list bytes) (perPriority : list nat) :
  parts_ok d p x bufs perPriority ->
  exists s, newBC bc rc d p x bufs perPriority = Ok s /\ good_ (fun _ => None) s.
Proof.
  intros [Hp Hpri Hx Hemp Hb Hsh Hcan]. unfold newBC, newRM. fold fresh.
  assert (Hp0 : okPriority p 0) by (apply Hpri; lia).
  set (t0 := mkRM rc d p fresh [] 0 false 0 (Some <$> bufs) [] (fun _ => 0) 0).
  destruct (runs_result _ _ _ (resetEvictionPolicy_fresh t0 eq_refl eq_refl Hp Hp0)) as ([] & t' & -> & p' & Hq & Hw' & Ht' & Hk').
  eexists. split; [done|]. destruct Hq as [E1 E2 E3 E4 E5 E6 E7]. cbn in *.
  apply fresh_good; cbn; try (rewrite ?E3; done).
  - apply newAllocators_owned.
  - rewrite E3. by apply Hk'.
  - intros ra Hra. apply newAllocators_elem in Hra as [_ Hra]. rewrite E3. by apply Hk', Hpri.
  - rewrite E6. intros o (b & -> & Ho)%list_elem_of_fmap. exists b. split; [done|by apply Hb].
  - by rewrite E2.
  - by rewrite newAllocators_shape.
Qed.

(** ** Resetting

    [reset] is to be called with no job pending; here no region may be owned
    by an allocator either. *)

Definition quiescent (s : BC_) : bool :=
  bool_decide (jobs_ (regionManager_ s) = [] /\ owned (allocators_ s) = []).

(** [resetRegions] on regions that were let go. *)
Lemma resetRegions_fresh (rids : list Z) (t : RM P D) (Q : unit -> RM P D -> Prop) :
  NoDup rids -> (forall i, i ∈ rids -> 0 <= i /\ exists r, regions_ t !! Z.to_nat i = Some r /\
    regionId r = i /\ regionSize_ r = rs /\ Region.buffer_ r = None) ->
  (forall l, length l = length (regions_ t) -> (forall i, i ∈ rids -> l !! Z.to_nat i = Some (newRegion i rs)) ->
     (forall n, (forall i, i ∈ rids -> Z.to_nat i <> n) -> l !! n = regions_ t !! n) -> Q tt (set_regions l t)) ->
  runs (resetRegions rids) t Q.
Proof.
  revert t. induction rids as [|i rids IH]; intros t Hn Hr HQ.
  { apply runs_ret. replace t with (set_regions (regions_ t) t) by by destruct t.
    apply HQ; [done| |done]. intros i Hi. by apply elem_of_nil in Hi. }
  apply NoDup_cons in Hn as [Hni Hn]. destruct (Hr i) as (Hi & r & Hri & E1 & E2 & E3); [by left|].
  assert (Hlt : (Z.to_nat i < length (regions_ t))%nat) by by eapply lookup_lt_Some.
  cbn [resetRegions]. apply runs_bind. eapply runs_onRegion; [exact Hri|]. apply runs_modify. rewrite E1, E2, E3.
  fold (newRegion i rs).
  assert (Hne : forall j, j ∈ rids -> Z.to_nat j <> Z.to_nat i).
  { intros j Hj E. destruct (Hr j) as [Hj0 _]; [by right|]. apply Hni. by replace i with j by lia. }
  apply IH; [done| |].
  - intros j Hj. destruct (Hr j) as (Hj0 & r' & Hrj & Hrest); [by right|]. split; [done|]. exists r'.
    cbn. split; [|done]. rewrite list_lookup_insert_ne; [done|]. intros E. by destruct (Hne j Hj).
  - intros l Hl Hin Hout. cbn in *. rewrite length_insert in Hl. apply (HQ l); [done| |].
    + intros j [->|Hj]%elem_of_cons; [|by apply Hin]. rewrite Hout by done. by rewrite list_lookup_insert_eq.
    + intros n Hnn. rewrite Hout by (intros j Hj; apply Hnn; by right).
      apply list_lookup_insert_ne. apply Hnn. by left.
Qed.

Lemma resetRAs_idle (pis : list (nat * nat)) (s : BC_) (Q : unit -> BC_ -> Prop) :
  owned (allocators_ s) = [] -> Q tt s -> runs (forRAs (fun p i => setRA p i kInvalid) pis) s Q.
Proof.
  intros Ho HQ. induction pis as [|[p i] pis IH]; [by apply runs_ret|]. cbn [forRAs].
  apply runs_bind. unfold setRA. apply runs_modify.
  assert (E : alter (alter (fun ra => mkRA (ra_priority ra) kInvalid) i) p (allocators_ s) = allocators_ s); [|by rewrite E; destruct s].
  apply list_eq. intros q. destruct (decide (p = q)) as [->|Hne]; [|by rewrite list_lookup_alter_ne].
  rewrite list_lookup_alter_eq. destruct (allocators_ s !! q) as [l|] eqn:El; [|done]. cbn. f_equal.
  apply list_eq. intros k. destruct (decide (i = k)) as [->|Hne]; [|by rewrite list_lookup_alter_ne].
  rewrite list_lookup_alter_eq. destruct (l !! k) as [[pr rid]|] eqn:Ek; [|done]. cbn. do 2 f_equal.
  destruct (decide (rid = kInvalid)) as [->|Hv]; [done|]. exfalso.
  assert (Hin : rid ∈ owned (allocators_ s)); [|rewrite Ho in Hin; by apply elem_of_nil in Hin].
  unfold owned. apply list_elem_of_filter. split; [unfold valid; by rewrite (proj2 (Z.eqb_neq _ _) Hv)|].
  apply list_elem_of_fmap. exists (mkRA pr rid). split; [done|]. apply list_elem_of_In, in_concat.
  exists l. split; apply list_elem_of_In; by eapply list_elem_of_lookup_2.
Qed.

Lemma bcReset_spec spec (s : BC_) :
  good_ spec s -> quiescent s = true -> runs bcReset s (fun _ s' => good_ (fun _ => None) s').
Proof.
  intros [(G & I) Hsh] [Hj Ho]%bool_decide_eq_true. unfold bcReset. apply runs_bind, runs_onIndex.
  destruct (resetIndex_law (index_ s) (i_index I)) as (x' & Ex & Hx & _ & Hemp). eapply runs_eq; [exact Ex|].
  assert (Hfree : forall i r, 0 <= i < nregs -> regions_ (regionManager_ s) !! Z.to_nat i = Some r -> Region.buffer_ r = None).
  { intros i r Hi Hr. assert (Hin : i ∈ seqZ 0 nregs) by (apply elem_of_seqZ; lia).
    rewrite <- (i_part I), Ho, Hj in Hin. cbn in Hin. rewrite app_nil_r in Hin.
    apply elem_of_app in Hin as [Hin|Hin]; [apply (i_tracked I i r Hin Hr)|apply (i_clean I i r Hin Hr)]. }
  unfold initializeBlockCache, allocatorReset. apply runs_bind, runs_bind, runs_modify. apply runs_bind, runs_zoom.
  unfold rmReset. apply runs_bind, runs_gets. apply runs_bind. cbn. rewrite (i_rcfg I).
  apply resetRegions_fresh; [apply NoDup_seqZ| |].
  { intros i Hi%elem_of_seqZ. split; [lia|].
    destruct (region_at _ _ _ _ _ _ _ _ _ _ _ _ _ _ _ _ _ _ I i) as (r & L & Hr & _ & Hok); [lia|].
    exists r. split_and!; [done|by destruct Hok..|]. apply (Hfree i r); [lia|done]. }
  intros l Hlen Hl _. cbn in Hlen, Hl. pose proof (i_len I) as Hn. assert (El : l = fresh).
  { apply list_eq_same_length with (n := length l); [|done|].
    - unfold fresh. rewrite length_fmap, length_seqZ. lia.
    - intros k a b Hk Ha Hb. replace k with (Z.to_nat (Z.of_nat k)) in Ha, Hb by lia.
      rewrite Hl in Ha by (apply elem_of_seqZ; lia). rewrite fresh_at in Hb by lia. congruence. }
  subst l. apply runs_bind, runs_modify. apply runs_bind, runs_modify.
  eapply runs_mono; [apply resetEvictionPolicy_fresh; cbn; [apply (i_rcfg I)|done|apply (i_policy I)|apply (i_pri0 I)]|].
  intros [] t' (p' & [E1 E2 E3 E4 E5 E6 E7] & Hw' & Ht' & Hk'). cbn in *.
  apply runs_bind, runs_get. apply resetRAs_idle; [done|].
  apply fresh_good; cbn; rewrite ?E1, ?E2, ?E3, ?E4, ?E5, ?E6, ?E7; try done.
  - apply (i_bcfg I).
  - apply (i_rcfg I).
  - apply Hk', (i_pri0 I).
  - intros ra Hra. by apply Hk', (i_ras I).
  - apply (i_bufs I).
  - apply (i_can I).
Qed.
End new.

(** ** The block cache never returns a stale value

    Any sequence of inserts, lookups, removes, random draws, jobs of the
    workers, flushes of the allocators and resets on a new block cache, over a
    device whose writes may fail: what a lookup returns is what was written
    last. *)

(** ** Sequences of operations *)

(** [OJob i]: a worker takes up the job at position [i]. *)
Inductive Op : Type :=
| OInsert (ctx : Ctx) (k v : bytes) (t : Z)
| OLookup (k : bytes)
| ORemove (k : bytes)
| ORandom (rid rnd : Z)
| OJob (i : nat)
| OFlush (ctx : Ctx)
| OReset.

Inductive Out : Type :=
| RStatus (st : Status)
| RFound (r : Status * bytes * Z)
| RDrawn (r : Status * bytes * bytes)
| RDone
| RWaiting.

Section system.
Context {P D X : Type} {IP : EvictionPolicy P} {ID : BlockDevice D} {IX : Index X}.
Context (hashBuffer checksum : bytes -> Z).
Notation BC_ := (BC P D X).

Definition output {A} (f : A -> Out) (m : M BC_ A) (s : BC_) : res (Out * BC_) :=
  match m s with
  | (Ok a, s') => Ok (f a, s')
  | (Throw e, _) => Throw e
  end.

(** A job that waits is still to be done: it has changed nothing. *)
Definition perform (op : Op) (s : BC_) : res (Out * BC_) :=
  match op with
  | OInsert ctx k v t => output RStatus (BlockCache.insert hashBuffer checksum ctx (makeHK hashBuffer k) v t) s
  | OLookup k => output RFound (BlockCache.lookup checksum (makeHK hashBuffer k)) s
  | ORemove k => output RStatus (BlockCache.remove checksum (makeHK hashBuffer k)) s
  | ORandom rid rnd => output RDrawn (getRandomAlloc hashBuffer checksum rid rnd) s
  | OJob i =>
      match bcRunJob hashBuffer checksum i s with
      | (Ok _, s') => Ok (RDone, s')
      | (Throw StillWaiting, _) => Ok (RWaiting, s)
      | (Throw e, _) => Throw e
      end
  | OFlush ctx => output (fun _ => RDone) (allocatorFlush hashBuffer checksum ctx) s
  | OReset => output (fun _ => RDone) bcReset s
  end.

Fixpoint execute (ops : list Op) (s : BC_) : res (list Out * BC_) :=
  match ops with
  | [] => Ok ([], s)
  | op :: ops =>
      match perform op s with
      | Throw e => Throw e
      | Ok (o, s') =>
          match execute ops s' with
          | Throw e => Throw e
          | Ok (os, s'') => Ok (o :: os, s'')
          end
      end
  end.

(** The resets of the sequence come when the cache is quiescent. *)
Fixpoint resets_quiescent (ops : list Op) (s : BC_) : bool :=
  match ops with
  | [] => true
  | op :: ops =>
      match op with OReset => quiescent s | _ => true end &&
      match perform op s with Throw _ => true | Ok (_, s') => resets_quiescent ops s' end
  end.
End system.

(** ** What a client may rely on

    [spec] has the last value inserted for each key and not removed since. An
    insert that was not accepted changes nothing. *)
Inductive answers (spec : bytes -> option bytes) : Op -> Out -> (bytes -> option bytes) -> Prop :=
| a_insert ctx k v t : answers spec (OInsert ctx k v t) (RStatus StatusOk) (upd spec k (Some v))
| a_reject ctx k v t st : st = Rejected \/ st = Retry -> answers spec (OInsert ctx k v t) (RStatus st) spec
| a_hit k v t : spec k = Some v -> answers spec (OLookup k) (RFound (StatusOk, v, t)) spec
| a_miss k : answers spec (OLookup k) (RFound (NotFound, [], 0)) spec
| a_remove k st : st = StatusOk \/ st = NotFound -> answers spec (ORemove k) (RStatus st) (upd spec k None)
| a_drawn rid rnd k v : spec k = Some v -> answers spec (ORandom rid rnd) (RDrawn (StatusOk, v, k)) spec
| a_none rid rnd r : r.1.1 = NotFound -> answers spec (ORandom rid rnd) (RDrawn r) spec
| a_job i : answers spec (OJob i) RDone spec
| a_wait i : answers spec (OJob i) RWaiting spec
| a_flush ctx : answers spec (OFlush ctx) RDone spec
| a_reset : answers spec OReset RDone (fun _ => None).

Inductive coherent (spec : bytes -> option bytes) : list Op -> list Out -> Prop :=
| c_nil : coherent spec [] []
| c_cons op out spec' ops outs :
    answers spec op out spec' -> coherent spec' ops outs -> coherent spec (op :: ops) (out :: outs).

Section safety.
Context {P D X : Type} {IP : EvictionPolicy P} {LP : EvictionPolicyLaws P} {ID : BlockDevice D}.
Context {LD : BlockDeviceLaws D} {IX : Index X} {LX : IndexLaws X}.
Context (hashBuffer checksum : bytes -> Z) (bc : BCConfig X) (rc : RMConfig).
Notation BC_ := (BC P D X).
Notation good_ := (good hashBuffer checksum bc rc).
Notation config_ok_ := (config_ok hashBuffer checksum bc rc).

Definition op_ok (op : Op) : Prop :=
  match op with
  | OInsert _ k v t => item_ok bc k v t
  | OLookup k | ORemove k => is_bytes k
  | ORandom rid rnd => 0 <= rid < numRegions_ rc /\ 0 <= rnd
  | OJob _ | OFlush _ | OReset => True
  end.

Lemma output_runs {A} (f : A -> Out) (m : M BC_ A) (s : BC_) (Q : A -> BC_ -> Prop) :
  runs m s Q -> exists a s', output f m s = Ok (f a, s') /\ Q a s'.
Proof. intros (a & s' & E & HQ)%runs_result. exists a, s'. unfold output. by rewrite E. Qed.

(** One operation. *)
Lemma perform_good spec (op : Op) (s : BC_) :
  config_ok_ -> good_ spec s -> op_ok op -> (op = OReset -> quiescent s = true) ->
  exists out s' spec', perform hashBuffer checksum op s = Ok (out, s') /\ answers spec op out spec' /\ good_ spec' s'.
Proof.
  intros C Hg Hop Hq. destruct (Hg) as [(G & I) Hsh]. destruct op as [ctx k v t|k|k|rid rnd|i|ctx|]; cbn [perform op_ok] in *.
  - destruct (output_runs RStatus _ _ _ (block_insert_spec hashBuffer checksum bc rc C ctx spec G s k v t I Hsh Hop))
      as (st & s' & -> & Hl & G' & Hcase).
    exists (RStatus st), s'. destruct Hcase as [(-> & I' & _)|(Hst & I')].
    + exists (upd spec k (Some v)). split_and!; [done|constructor|]. split; [by exists G'|by rewrite Hl].
    + exists spec. split_and!; [done|by constructor|]. split; [by exists G'|by rewrite Hl].
  - destruct (output_runs RFound _ _ _ (lookup_spec hashBuffer checksum bc rc C spec G s k I Hop))
      as (r & s' & -> & I' & Hf & _ & Ea).
    exists (RFound r), s', spec. split_and!; [done| |split; [by exists G|by rewrite Ea]].
    destruct Hf as [(H1 & H2 & _)|[-> _]]; [|constructor]. destruct r as [[st v] t]. cbn in *. subst st. by constructor.
  - destruct (output_runs RStatus _ _ _ (remove_spec hashBuffer checksum bc rc C spec G s k I Hop))
      as (st & s' & -> & Hst & I' & Ea).
    exists (RStatus st), s', (upd spec k None). split_and!; [done|by constructor|split; [by exists G|by rewrite Ea]].
  - destruct Hop as [Hrid Hrnd].
    destruct (output_runs RDrawn _ _ _ (random_spec hashBuffer checksum bc rc C spec G s rid rnd I Hrid Hrnd))
      as (r & s' & -> & I' & Ea & Hd).
    exists (RDrawn r), s', spec. split_and!; [done| |split; [by exists G|by rewrite Ea]].
    destruct Hd as [H1|[H1 H2]]; [by constructor|]. destruct r as [[st v] k]. cbn in *. subst st. by constructor.
  - destruct (runJob_spec hashBuffer checksum bc rc C spec s i Hg) as [(_ & s' & ->)|(_ & Hr)].
    + exists RWaiting, s, spec. split_and!; [done|constructor|done].
    + apply runs_result in Hr as ([] & s' & -> & Hg'). exists RDone, s', spec. split_and!; [done|constructor|done].
  - destruct (output_runs (fun _ : unit => RDone) _ _ _ (allocatorFlush_spec hashBuffer checksum bc rc C spec s ctx Hg))
      as ([] & s' & -> & Hg').
    exists RDone, s', spec. split_and!; [done|constructor|done].
  - destruct (output_runs (fun _ : unit => RDone) _ _ _ (bcReset_spec hashBuffer checksum bc rc C spec s Hg (Hq eq_refl)))
      as ([] & s' & -> & Hg').
    exists RDone, s', (fun _ => None). split_and!; [done|constructor|done].
Qed.

Lemma execute_good spec (ops : list Op) (s : BC_) :
  config_ok_ -> good_ spec s -> Forall op_ok ops -> resets_quiescent hashBuffer checksum ops s = true ->
  exists outs s' spec', execute hashBuffer checksum ops s = Ok (outs, s') /\ coherent spec ops outs /\ good_ spec' s'.
Proof.
  intros C Hg Hops. revert spec s Hg. induction Hops as [|op ops Hop _ IH]; intros spec s Hg Hq.
  { exists [], s, spec. split_and!; [done|constructor|done]. }
  cbn [resets_quiescent] in Hq. apply andb_true_iff in Hq as [Hq Hqs].
  destruct (perform_good spec op s C Hg Hop) as (out & s1 & spec1 & E1 & Ha & Hg1); [by intros ->|].
  rewrite E1 in Hqs. destruct (IH spec1 s1 Hg1 Hqs) as (outs & s2 & spec2 & E2 & Hc & Hg2).
  exists (out :: outs), s2, spec2. cbn [execute]. rewrite E1, E2. split_and!; [done|by econstructor|done].
Qed.

(** The states a new block cache reaches. *)
Definition reachable (d : D) (p : P) (x : X) (bufs : list bytes) (perPriority : list nat) (s : BC_) : Prop :=
  exists ops s0 outs, Forall op_ok ops /\ newBC bc rc d p x bufs perPriority = Ok s0 /\
    resets_quiescent hashBuffer checksum ops s0 = true /\ execute hashBuffer checksum ops s0 = Ok (outs, s).

Lemma reachable_good d p x bufs perPriority (s : BC_) :
  config_ok_ -> parts_ok bc rc d p x bufs perPriority -> reachable d p x bufs perPriority s ->
  exists spec, good_ spec s.
Proof.
  intros C Hp (ops & s0 & outs & Hops & E0 & Hq & E).
  destruct (newBC_good hashBuffer checksum bc rc C d p x bufs perPriority Hp) as (s0' & E0' & Hg).
  rewrite E0 in E0'. injection E0' as <-.
  destruct (execute_good _ ops s0 C Hg Hops Hq) as (outs' & s' & spec' & E' & _ & Hg').
  rewrite E in E'. injection E' as <- <-. by exists spec'.
Qed.

(** C5. No stale reads. From a new block cache any sequence of inserts,
    lookups, removes, random draws, jobs taken up in any order, flushes of the
    allocators and resets runs without an exception or undefined behaviour, and its
    answers are coherent: a lookup that returns a value returns the last one
    inserted for the key and not removed since, nor dropped by a reset, and so
    does a random draw; the other answers are a miss, or an insert that was
    rejected or has to be retried and leaves the values as they were. Resets
    come when no job is pending and no allocator owns a region. Writes of the
    device may fail, its reads do not, and the user's callbacks, the expiry
    check and the reinsertion policy, return: with one that throws stale values
    are returned (see [throwing_reinsertion_is_stale]). Keys, values and items
    have the sizes of [item_ok], and the cache less than [2 ^ 32] allocation
    units. *)
Theorem block_cache_no_stale_reads d p x bufs perPriority (ops : list Op) :
  config_ok_ -> parts_ok bc rc d p x bufs perPriority -> Forall op_ok ops ->
  exists s0, newBC bc rc d p x bufs perPriority = Ok s0 /\
    (resets_quiescent hashBuffer checksum ops s0 = true ->
     exists outs s, execute hashBuffer checksum ops s0 = Ok (outs, s) /\ coherent (fun _ => None) ops outs).
Proof.
  intros C Hp Hops.
  destruct (newBC_good hashBuffer checksum bc rc C d p x bufs perPriority Hp) as (s0 & E0 & Hg).
  exists s0. split; [done|]. intros Hq.
  destruct (execute_good _ ops s0 C Hg Hops Hq) as (outs & s & spec & E & Hc & _). by exists outs, s.
Qed.

(** C10. A client reads what it wrote. In every state a block cache reaches,
    when an insert is accepted the next lookup of the key finds the value,
    whatever else has the hash of the key, and whether or not the insert had
    to flush a region, successfully or not, to make room. *)
Theorem block_cache_read_your_write d p x bufs perPriority (s s1 : BC_) (ctx : Ctx) (k v : bytes) (t : Z) :
  config_ok_ -> parts_ok bc rc d p x bufs perPriority -> reachable d p x bufs perPriority s -> item_ok bc k v t ->
  BlockCache.insert hashBuffer checksum ctx (makeHK hashBuffer k) v t s = (Ok StatusOk, s1) ->
  exists t' s2, BlockCache.lookup checksum (makeHK hashBuffer k) s1 = (Ok (StatusOk, v, t'), s2).
Proof.
  intros C Hp Hr Hi E. destruct (reachable_good _ _ _ _ _ _ C Hp Hr) as (spec & (G & I) & Hsh).
  pose proof (block_insert_spec hashBuffer checksum bc rc C ctx spec G s k v t I Hsh Hi) as Hins.
  unfold runs in Hins. rewrite E in Hins. destruct Hins as (_ & G' & [(_ & I' & Hpr)|([|] & _)]); [|done..].
  pose proof (lookup_spec hashBuffer checksum bc rc C _ G' s1 k I' (proj1 Hi)) as Hlook.
  apply runs_result in Hlook as (((st & v') & t') & s2 & -> & _ & Hf & _).
  destruct Hf as [(H1 & H2 & _)|[_ Hn]]; [|done]. cbn in *. subst st. unfold upd in H2. rewrite decide_True in H2 by done.
  injection H2 as <-. by exists t', s2.
Qed.

(** C11. Every region is in one place. In every state a block cache reaches
    by inserts, lookups, removes, random draws, jobs, flushes and resets, each
    region is tracked by the policy, clean, owned by an allocator or waiting to
    be flushed, in one of these only; no region is open; a tracked region has
    given its buffer back, a clean one is empty, one being filled or flushed
    has its buffer and can be read. The resets are those with no job pending
    and no region owned by an allocator: one that comes while a region is being
    filled makes the policy track it with its buffer (see
    [reset_keeps_buffer]). *)
Theorem block_cache_regions_partition d p x bufs perPriority (s : BC_) :
  config_ok_ -> parts_ok bc rc d p x bufs perPriority -> reachable d p x bufs perPriority s ->
  tracked (policy_ (regionManager_ s)) ++ cleanRegions_ (regionManager_ s) ++ owned (allocators_ s) ++
    flushing (jobs_ (regionManager_ s)) ≡ₚ seqZ 0 (numRegions_ rc) /\
  forall i r, 0 <= i -> regions_ (regionManager_ s) !! Z.to_nat i = Some r ->
    regionId r = i /\ activePhysReaders_ r = 0 /\ activeInMemReaders_ r = 0 /\ activeWriters_ r = 0 /\
    0 <= lastEntryEndOffset_ r <= rmRegionSize_ rc /\
    (i ∈ tracked (policy_ (regionManager_ s)) -> Region.buffer_ r = None /\ hasFlag kBlockAccess r = false) /\
    (i ∈ cleanRegions_ (regionManager_ s) -> Region.buffer_ r = None /\ lastEntryEndOffset_ r = 0) /\
    (i ∈ owned (allocators_ s) ++ flushing (jobs_ (regionManager_ s)) ->
       is_Some (Region.buffer_ r) /\ hasFlag kBlockAccess r = false).
Proof.
  intros C Hp Hr. destruct (reachable_good _ _ _ _ _ _ C Hp Hr) as (spec & (G & I) & Hsh).
  split; [exact (i_part I)|]. intros i r Hi Hreg. pose proof (lookup_lt_Some _ _ _ Hreg) as Hlt.
  destruct (region_at _ _ _ _ _ _ _ _ _ _ _ _ _ _ _ _ _ _ I i) as (r' & L & Hreg' & HL & Hok).
  { pose proof (i_len I). lia. }
  rewrite Hreg in Hreg'. injection Hreg' as <-. pose proof (span_nonneg _ L (align_pos _ _ _ _ C)).
  destruct Hok. cbn in *. rewrite Z.add_0_r in *. split_and!; try done; [lia|lia| | |].
  - intros Ht. by apply (i_tracked I i r).
  - intros Hc. by destruct (i_clean I i r Hc Hreg) as (? & _ & ?).
  - intros [Ho|Hf]%elem_of_app.
    + destruct (i_owned I i r Ho Hreg) as [? E]. split; [done|]. unfold hasFlag. by rewrite E.
    + by destruct (i_flushing I i r Hf Hreg) as (? & ? & _).
Qed.

(** C36. The workers make progress. In every state a block cache reaches, a
    waiting job that is taken up comes to its end, throws nothing and does not
    wait, unless it is a reclaim and the policy has no region to evict, in
    which case it waits. *)
Theorem block_cache_jobs_complete d p x bufs perPriority (s : BC_) (i : nat) :
  config_ok_ -> parts_ok bc rc d p x bufs perPriority -> reachable d p x bufs perPriority s ->
  if decide (jobs_ (regionManager_ s) !! i = Some JReclaim /\ tracked (policy_ (regionManager_ s)) = [])
  then exists s', bcRunJob hashBuffer checksum i s = (Throw StillWaiting, s')
  else exists s', bcRunJob hashBuffer checksum i s = (Ok tt, s').
Proof.
  intros C Hp Hr. destruct (reachable_good _ _ _ _ _ _ C Hp Hr) as (spec & Hg).
  destruct (runJob_spec hashBuffer checksum bc rc C spec s i Hg) as [(H1 & H2)|(H1 & H2)].
  - by rewrite decide_True.
  - rewrite decide_False by done. apply runs_result in H2 as ([] & s' & E & _). by exists s'.
Qed.
End safety.

(** ** A small cache

    Four regions of two allocation units, two buffers, a memory device. *)
Module Demo.
Definition hash (b : bytes) : Z := u64 (sumZ b * 2654435761).
Definition crc (b : bytes) : Z := u32 (sumZ b).
Definition rc : RMConfig := mkRMConfig 1 2 4 1024 0 1 false true false.
Definition bc : BCConfig SparseMap.t :=
  mkBCConfig 512 true false false 1 false None (Some (fun n _ _ _ => Ok (Nat.even n))).
Definition dev : Device MemoryDevice := mkDevice 4096 512 0 0 None 0 0 0 0 0 0 (mkMemoryDevice (replicate 4096 0)).
Definition pol : Fifo.t := Fifo.mk [].
Definition ix : SparseMap.t := SparseMap.make 2 1 SparseMap.kTotalHits.
Definition bufs : list bytes := [replicate 1024 7; replicate 1024 9].
Definition ctx : Ctx := mkCtx false false.

Definition ops : list Op :=
  [OInsert ctx [1] [10; 11] 5; OJob 0; OInsert ctx [1] [10; 11] 5; OInsert ctx [2] [20] 6; OLookup [1];
   OInsert ctx [3] [30] 7; OJob 0; OJob 0; OInsert ctx [3] [30] 7; OLookup [2]; ORemove [1]; OLookup [1];
   OInsert ctx [2] [21] 8; OLookup [2]; OFlush ctx; OJob 0; OJob 0; OLookup [3];
   OReset; OLookup [3]; OInsert ctx [3] [31] 9; OJob 0; OInsert ctx [3] [31] 9; OLookup [3]].

Definition run : res (list Out * BC Fifo.t (Device MemoryDevice) SparseMap.t) :=
  match newBC bc rc dev pol ix bufs [1%nat] with
  | Ok s => execute hash crc ops s
  | Throw e => Throw e
  end.

Lemma demo_config : config_ok hash crc bc rc.
Proof.
  split; cbn; try done.
  - intros b. unfold is_u64, hash, u64. apply Z.mod_pos_bound. lia.
  - intros b. apply u32_range.
  - exists 9. split; [lia|done].
  - intros f n x k v [= <-]. eauto.
Qed.

Lemma parts : parts_ok bc rc dev pol ix bufs [1%nat].
Proof.
  split; cbn.
  - constructor.
  - done.
  - split; [exists 1; split; [lia|done]|done|]. cbn. intros m k r Hm.
    repeat (apply elem_of_cons in Hm as [->|Hm]); [..|by apply not_elem_of_nil in Hm]; by rewrite lookup_empty.
  - intros h. unfold locOf, ixPeek, SparseMap_index, SparseMap.peek. cbn.
    destruct (Z.to_nat _) as [|[|]]; cbn; rewrite ?lookup_empty; done.
  - intros b Hb. repeat (apply elem_of_cons in Hb as [->|Hb]; [done|]). by apply elem_of_nil in Hb.
  - intros pri [->|Hp]; exists 0%nat; [done|]. assert (Z.to_nat pri = 0%nat) as -> by (cbn in Hp; lia). done.
  - intros i Hi. assert (Hc : i = 0 \/ i = 1 \/ i = 2 \/ i = 3) by lia.
    assert (Hsz : implSize (impl_ dev) = 4096) by done.
    split; [done|]. split; [unfold dev_canTransfer; rewrite Hsz; cbn; split_and!; try done; lia|]. split; [lia|].
    exists 9. split; [lia|]. cbn. split_and!; [done| |done]. by destruct Hc as [->|[->|[->| ->]]].
Qed.

Lemma demo_block_ops_ok : Forall (op_ok bc rc) ops.
Proof.
  assert (Hb : forall l, forallb (fun b => (0 <=? b) && (b <? 256)) l = true -> is_bytes l).
  { intros l Hl. apply Forall_forall. intros b Hb. rewrite forallb_forall in Hl.
    apply list_elem_of_In, Hl in Hb. unfold is_u8. lia. }
  repeat (apply Forall_cons; split); try apply Forall_nil_2; cbn [op_ok]; try done; try (by apply Hb);
    (split; [by apply Hb|]; split; [by apply Hb|]; split; [unfold is_u32; lia|vm_compute; done]).
Qed.

(** The answers: an insert is retried until a region was reclaimed; the
    inserts that follow fill regions and the last values are found; a reset
    drops everything, and the cache is filled again. *)
Example demo_outputs : fst <$> (match run with Ok r => Some r | Throw _ => None end) =
  Some [RStatus Retry; RDone; RStatus StatusOk; RStatus StatusOk; RFound (StatusOk, [10; 11], 5); RStatus Retry;
        RDone; RDone; RStatus StatusOk; RFound (StatusOk, [20], 6); RStatus StatusOk; RFound (NotFound, [], 0);
        RStatus StatusOk; RFound (StatusOk, [21], 8); RDone; RDone; RDone; RFound (StatusOk, [30], 7);
        RDone; RFound (NotFound, [], 0); RStatus Retry; RDone; RStatus StatusOk; RFound (StatusOk, [31], 9)].
Proof. vm_compute. reflexivity. Qed.

Example demo_quiescent :
  match newBC bc rc dev pol ix bufs [1%nat] with Ok s0 => resets_quiescent hash crc ops s0 | Throw _ => false end = true.
Proof. vm_compute. reflexivity. Qed.

Example demo_insert :
  match (match newBC bc rc dev pol ix bufs [1%nat] with Ok s0 => execute hash crc ops s0 | Throw e => Throw e end) with
  | Ok (_, s) => (BlockCache.insert hash crc ctx (makeHK hash [4]) [40] 9 s).1
  | Throw e => Throw e
  end = Ok StatusOk.
Proof. vm_compute. reflexivity. Qed.

(** The state the sequence leads to. *)
Lemma demo_runs : exists s, reachable hash crc bc rc dev pol ix bufs [1%nat] s /\
  exists ctx s1, BlockCache.insert hash crc ctx (makeHK hash [4]) [40] 9 s = (Ok StatusOk, s1).
Proof.
  pose proof demo_insert as Hs. pose proof demo_quiescent as Hq.
  destruct (newBC bc rc dev pol ix bufs [1%nat]) as [s0|] eqn:E0; [|discriminate Hs].
  destruct (execute hash crc ops s0) as [[outs s]|] eqn:E; [|discriminate Hs].
  exists s. split; [exists ops, s0, outs; split_and!; [apply demo_block_ops_ok|exact E0|exact Hq|exact E]|].
  exists ctx. destruct (BlockCache.insert _ _ _ _ _ _ s) as [r s1]. exists s1. cbn in Hs. by rewrite Hs.
Qed.

(** A region was filled while no clean one was left: a reclaim and the flush of
    the region wait to be taken up. *)
Definition filled : list Op := take 6 ops.

Example demo_jobs :
  match (match newBC bc rc dev pol ix bufs [1%nat] with Ok s0 => execute hash crc filled s0 | Throw e => Throw e end) with
  | Ok (_, s) => (jobs_ (regionManager_ s), tracked (policy_ (regionManager_ s)))
  | Throw e => ([], [])
  end = ([JReclaim; JFlush 0], [1; 2; 3]).
Proof. vm_compute. reflexivity. Qed.

Example filled_quiescent :
  match newBC bc rc dev pol ix bufs [1%nat] with Ok s0 => resets_quiescent hash crc filled s0 | Throw _ => false end = true.
Proof. vm_compute. reflexivity. Qed.

Lemma demo_waiting : exists s, reachable hash crc bc rc dev pol ix bufs [1%nat] s /\
  jobs_ (regionManager_ s) = [JReclaim; JFlush 0] /\ tracked (policy_ (regionManager_ s)) = [1; 2; 3].
Proof.
  pose proof demo_jobs as Hs. pose proof filled_quiescent as Hq.
  destruct (newBC bc rc dev pol ix bufs [1%nat]) as [s0|] eqn:E0; [|discriminate Hs].
  destruct (execute hash crc filled s0) as [[outs s]|] eqn:E; [|discriminate Hs].
  exists s. injection Hs as H1 H2. split; [|done].
  exists filled, s0, outs. split_and!; [apply Forall_take, demo_block_ops_ok|exact E0|exact Hq|exact E].
Qed.

(** ** What the theorems do not cover

    A reinsertion policy that throws: the reclaim catches the exception and
    keeps the index entry of the item, which then points into a region that is
    filled anew. Here key 9 is set to 50 and then to 60, and a lookup returns
    50, left over in the buffer the region got. *)
Definition bcThrowing : BCConfig SparseMap.t :=
  mkBCConfig 512 true false false 1 false None (Some (fun _ _ _ _ => Throw RuntimeError)).
Definition rcThree : RMConfig := mkRMConfig 1 2 3 1024 0 1 false true false.
Definition put (k v : Z) : Op := OInsert ctx [k] [v] 5.
Definition stale : list Op :=
  [put 1 10; OJob 0; put 1 10; put 9 50; put 2 10; OJob 0; put 2 10; put 9 60; OFlush ctx; OJob 0; OJob 0; OJob 0;
   put 3 10; OFlush ctx; OJob 0; OJob 0; put 4 10; OFlush ctx; OJob 0; OJob 0; OLookup [9]].

Example throwing_reinsertion_is_stale :
  match newBC bcThrowing rcThree dev pol ix bufs [1%nat] with
  | Ok s0 => match execute hash crc stale s0 with
             | Ok (outs, _) => (outs !! 3%nat, outs !! 7%nat, last outs)
             | Throw _ => (None, None, None)
             end
  | Throw _ => (None, None, None)
  end = (Some (RStatus StatusOk), Some (RStatus StatusOk), Some (RFound (StatusOk, [50], 5))).
Proof. vm_compute. reflexivity. Qed.

(** [reset] while a region is being filled: the policy tracks the region,
    which still has its buffer, and the buffer is missing in the pool. *)
Example reset_keeps_buffer :
  match newBC bc rc dev pol ix bufs [1%nat] with
  | Ok s0 => match execute hash crc (take 3 ops) s0 with
             | Ok (_, s) => let s' := (bcReset s).2 in
                 (owned (allocators_ s), tracked (policy_ (regionManager_ s')),
                  (fun r => bool_decide (is_Some (Region.buffer_ r))) <$> regions_ (regionManager_ s'))
             | Throw _ => ([], [], [])
             end
  | Throw _ => ([], [], [])
  end = ([0], [0; 1; 2; 3], [true; false; false; false]).
Proof. vm_compute. reflexivity. Qed.
End Demo.

Lemma block_cache_no_stale_reads_witness :
  exists s0 outs s, newBC Demo.bc Demo.rc Demo.dev Demo.pol Demo.ix Demo.bufs [1%nat] = Ok s0 /\
    execute Demo.hash Demo.crc Demo.ops s0 = Ok (outs, s) /\ coherent (fun _ => None) Demo.ops outs.
Proof.
  destruct (block_cache_no_stale_reads Demo.hash Demo.crc Demo.bc Demo.rc Demo.dev Demo.pol Demo.ix Demo.bufs [1%nat] Demo.ops
              Demo.demo_config Demo.parts Demo.demo_block_ops_ok) as (s0 & E0 & H).
  pose proof Demo.demo_quiescent as Hq. rewrite E0 in Hq. destruct (H Hq) as (outs & s & E & Hc). by exists s0, outs, s.
Defined.

Lemma block_cache_read_your_write_witness :
  exists (s1 : BC Fifo.t (Device MemoryDevice) SparseMap.t) t' s2,
    BlockCache.lookup Demo.crc (makeHK Demo.hash [4]) s1 = (Ok (StatusOk, [40], t'), s2).
Proof.
  destruct Demo.demo_runs as (s & Hr & ctx & s1 & E). exists s1.
  eapply (block_cache_read_your_write Demo.hash Demo.crc Demo.bc Demo.rc);
    [apply Demo.demo_config|apply Demo.parts|exact Hr| |exact E].
  split; [|split; [|split; [|vm_compute; done]]]; [repeat constructor; unfold is_u8; lia..|unfold is_u32; lia].
Defined.

Lemma block_cache_regions_partition_witness :
  exists s : BC Fifo.t (Device MemoryDevice) SparseMap.t,
    tracked (policy_ (regionManager_ s)) ++ cleanRegions_ (regionManager_ s) ++ owned (allocators_ s) ++
      flushing (jobs_ (regionManager_ s)) ≡ₚ seqZ 0 4.
Proof.
  destruct Demo.demo_runs as (s & Hr & _). exists s.
  apply (block_cache_regions_partition Demo.hash Demo.crc Demo.bc Demo.rc _ _ _ _ _ s Demo.demo_config Demo.parts Hr).
Defined.

(** Both jobs come to their end. *)
Lemma block_cache_jobs_complete_witness :
  exists s : BC Fifo.t (Device MemoryDevice) SparseMap.t,
    jobs_ (regionManager_ s) = [JReclaim; JFlush 0] /\
    (exists s', bcRunJob Demo.hash Demo.crc 0 s = (Ok tt, s')) /\
    (exists s', bcRunJob Demo.hash Demo.crc 1 s = (Ok tt, s')).
Proof.
  destruct Demo.demo_waiting as (s & Hr & Hj & Ht). exists s. split; [exact Hj|].
  pose proof (block_cache_jobs_complete Demo.hash Demo.crc Demo.bc Demo.rc _ _ _ _ _ s 0 Demo.demo_config Demo.parts Hr) as H0.
  pose proof (block_cache_jobs_complete Demo.hash Demo.crc Demo.bc Demo.rc _ _ _ _ _ s 1 Demo.demo_config Demo.parts Hr) as H1.
  rewrite decide_False in H0 by (rewrite Ht; by intros [_ [=]]).
  rewrite decide_False in H1 by (rewrite Ht; by intros [_ [=]]).
  by split.
Defined.
