(* ===== verification/Scheduler.v ===== *)
(** * The request scheduler of Navy

    [src/cachelib/navy/scheduler/NavyRequestScheduler.cpp] with the fibers of
    [NavyRequestDispatcher.cpp], and [OrderedThreadPoolJobScheduler] of
    [ThreadPoolJobScheduler.cpp], which orders requests in the same way: the
    requests of a shard of keys run one at a time, the others of the shard
    wait in a list. [submitted_] has the requests handed to the threads and
    not completed; the threads take them up in any order. A request that asks
    to be rescheduled stays submitted.

    The theorem: the requests of a shard complete in the order they were
    enqueued, each once, and a shard with a request left has one submitted. *)

From S2P Require Import Prelude.
From stdpp Require Import base tactics numbers list.

#[local] Open Scope Z_scope.
#[local] Open Scope cachelib_scope.

Section scheduler.
Context {J : Type}.

(** The hash of the key, and the job. *)
Notation Req := (Z * J)%type.

Record Scheduler : Type := mkScheduler {
  numShards_ : Z;
  pendingReqs_ : list (list Req);
  shouldSpool_ : list bool;
  submitted_ : list Req;
  numSpooled_ : Z;
  currSpooled_ : Z;
  stopped_ : bool
}.

Definition newScheduler (numShardsPower : Z) : Scheduler :=
  let n := Z.shiftl 1 numShardsPower in
  mkScheduler n (replicate (Z.to_nat n) []) (replicate (Z.to_nat n) false) [] 0 0 false.

Definition shardOf (s : Scheduler) (key : Z) : Z := key mod numShards_ s.

Definition set_pending (shard : Z) (l : list Req) (s : Scheduler) : Scheduler :=
  mkScheduler (numShards_ s) (<[Z.to_nat shard := l]> (pendingReqs_ s)) (shouldSpool_ s) (submitted_ s)
    (numSpooled_ s) (currSpooled_ s) (stopped_ s).
Definition set_spool (shard : Z) (b : bool) (s : Scheduler) : Scheduler :=
  mkScheduler (numShards_ s) (pendingReqs_ s) (<[Z.to_nat shard := b]> (shouldSpool_ s)) (submitted_ s)
    (numSpooled_ s) (currSpooled_ s) (stopped_ s).
Definition set_submitted (l : list Req) (s : Scheduler) : Scheduler :=
  mkScheduler (numShards_ s) (pendingReqs_ s) (shouldSpool_ s) l (numSpooled_ s) (currSpooled_ s) (stopped_ s).
Definition add_spooled (total curr : Z) (s : Scheduler) : Scheduler :=
  mkScheduler (numShards_ s) (pendingReqs_ s) (shouldSpool_ s) (submitted_ s)
    (u64 (numSpooled_ s + total)) (u64 (currSpooled_ s + curr)) (stopped_ s).
Definition stop (s : Scheduler) : Scheduler :=
  mkScheduler (numShards_ s) (pendingReqs_ s) (shouldSpool_ s) (submitted_ s) (numSpooled_ s) (currSpooled_ s) true.

(** The vectors are indexed by the shard. *)
Definition pendingAt (shard : Z) : M Scheduler (list Req) := fun s =>
  match pendingReqs_ s !! Z.to_nat shard with
  | Some l => (Ok l, s)
  | None => (Throw UndefinedBehavior, s)
  end.
Definition spoolAt (shard : Z) : M Scheduler bool := fun s =>
  match shouldSpool_ s !! Z.to_nat shard with
  | Some b => (Ok b, s)
  | None => (Throw UndefinedBehavior, s)
  end.

Definition submitReq (r : Req) : M Scheduler unit :=
  modify (fun s => set_submitted (submitted_ s ++ [r]) s).

Definition enqueueWithKey (job : J) (key : Z) : M Scheduler unit :=
  let! s := get in
  if stopped_ s then ret tt else
  let shard := shardOf s key in
  let! spool := spoolAt shard in
  if spool : bool then
    let! l := pendingAt shard in
    do! modify (set_pending shard (l ++ [(key, job)])) in
    modify (add_spooled 1 1)
  else
    do! modify (set_spool shard true) in
    submitReq (key, job).

Definition notifyCompletion (key : Z) : M Scheduler unit :=
  let! s := get in
  let shard := shardOf s key in
  let! l := pendingAt shard in
  match l with
  | [] => modify (set_spool shard false)
  | next :: l =>
      do! modify (add_spooled 0 (-1)) in
      do! (if stopped_ s then ret tt else submitReq next) in
      modify (set_pending shard l)
  end.

(** The fiber of a submitted request, once its job is done. *)
Definition complete (i : nat) : M Scheduler unit :=
  let! s := get in
  match submitted_ s !! i with
  | None => ret tt
  | Some (key, _) =>
      do! modify (set_submitted (delete i (submitted_ s))) in
      notifyCompletion key
  end.

(** The job asked to be rescheduled, with what it remembers. *)
Definition reschedule (i : nat) (j : J) : M Scheduler unit :=
  modify (fun s => set_submitted (alter (fun r => (r.1, j)) i (submitted_ s)) s).

(** ** Order

    [ofShard]: the jobs of a shard, in order. *)

Definition ofShard (n shard : Z) (l : list Req) : list J :=
  snd <$> filter (fun r => r.1 mod n = shard) l.

#[local] Arguments ofShard : simpl never.

Lemma ofShard_app (n shard : Z) (l k : list Req) : ofShard n shard (l ++ k) = ofShard n shard l ++ ofShard n shard k.
Proof. unfold ofShard. by rewrite filter_app, fmap_app. Qed.
Lemma ofShard_one (n shard : Z) (r : Req) : ofShard n shard [r] = if decide (r.1 mod n = shard) then [r.2] else [].
Proof. unfold ofShard. rewrite filter_cons, filter_nil. by case_decide. Qed.

(** [todo shard] are the jobs of a shard not completed, the submitted one
    first. *)
Record sched_ok (s : Scheduler) (todo : Z -> list J) : Prop := {
  sk_pos : 0 < numShards_ s;
  sk_pending : Z.of_nat (length (pendingReqs_ s)) = numShards_ s;
  sk_spool : Z.of_nat (length (shouldSpool_ s)) = numShards_ s;
  sk_running : stopped_ s = false;
  sk_shard : forall i l b, 0 <= i < numShards_ s ->
    pendingReqs_ s !! Z.to_nat i = Some l -> shouldSpool_ s !! Z.to_nat i = Some b ->
    todo i = ofShard (numShards_ s) i (submitted_ s) ++ l.*2 /\
    length (ofShard (numShards_ s) i (submitted_ s)) = Nat.b2n b /\
    (b = false -> l = []) /\ Forall (fun r => r.1 mod numShards_ s = i) l
}.

Definition addTodo (shard : Z) (j : J) (todo : Z -> list J) (i : Z) : list J :=
  if decide (i = shard) then todo i ++ [j] else todo i.
Definition dropTodo (shard : Z) (todo : Z -> list J) (i : Z) : list J :=
  if decide (i = shard) then tail (todo i) else todo i.
Definition setTodo (shard : Z) (j : J) (todo : Z -> list J) (i : Z) : list J :=
  if decide (i = shard) then match todo i with [] => [] | _ :: l => j :: l end else todo i.

Lemma newScheduler_ok (p : Z) : 0 <= p -> sched_ok (newScheduler p) (fun _ => []).
Proof.
  intros Hp. assert (Hn : 0 < Z.shiftl 1 p) by (rewrite Z.shiftl_mul_pow2 by lia; lia).
  split; cbn; rewrite ?length_replicate; try done; try lia.
  intros i l b _ Hl Hb. apply lookup_replicate in Hl as [-> _]. apply lookup_replicate in Hb as [-> _]. done.
Qed.

Lemma shard_at (s : Scheduler) todo (i : Z) :
  sched_ok s todo -> 0 <= i < numShards_ s ->
  exists l b, pendingReqs_ s !! Z.to_nat i = Some l /\ shouldSpool_ s !! Z.to_nat i = Some b.
Proof.
  intros [] Hi. destruct (lookup_lt_is_Some_2 (pendingReqs_ s) (Z.to_nat i)) as [l Hl]; [lia|].
  destruct (lookup_lt_is_Some_2 (shouldSpool_ s) (Z.to_nat i)) as [b Hb]; [lia|]. by exists l, b.
Qed.

(** ** The operations keep the order

    [allReqs]: every request not completed, in no particular order. *)

Definition allReqs (s : Scheduler) : list Req := submitted_ s ++ concat (pendingReqs_ s).

Lemma concat_insert_tail (ls : list (list Req)) (i : nat) (l : list Req) (r : Req) :
  ls !! i = Some (r :: l) -> concat ls ≡ₚ r :: concat (<[i := l]> ls).
Proof.
  intros H. rewrite <- (take_drop_middle ls i (r :: l) H) at 1. rewrite insert_take_drop by (by eapply lookup_lt_Some).
  rewrite !concat_app. cbn [concat]. solve_Permutation.
Qed.

Lemma shard_inj (n i j : Z) : 0 <= i < n -> 0 <= j < n -> Z.to_nat i = Z.to_nat j -> i = j.
Proof. lia. Qed.

(** A state whose lists differ at one shard only. *)
Lemma sched_ok_upd (s s' : Scheduler) todo todo' (k : Z) (l' : list Req) (b' : bool) :
  sched_ok s todo -> 0 <= k < numShards_ s -> numShards_ s' = numShards_ s -> stopped_ s' = false ->
  pendingReqs_ s' = <[Z.to_nat k := l']> (pendingReqs_ s) -> shouldSpool_ s' = <[Z.to_nat k := b']> (shouldSpool_ s) ->
  (forall i, i <> k -> ofShard (numShards_ s) i (submitted_ s') = ofShard (numShards_ s) i (submitted_ s)) ->
  (forall i, i <> k -> todo' i = todo i) ->
  todo' k = ofShard (numShards_ s) k (submitted_ s') ++ l'.*2 ->
  length (ofShard (numShards_ s) k (submitted_ s')) = Nat.b2n b' -> (b' = false -> l' = []) ->
  Forall (fun r => r.1 mod numShards_ s = k) l' -> sched_ok s' todo'.
Proof.
  intros [] Hk En Es Ep Eb Hother Htodo H1 H2 H3 H4.
  split; rewrite ?En; try done; rewrite ?Ep, ?Eb, ?length_insert; try done.
  intros i l b Hi Hl Hb. destruct (decide (i = k)) as [->|Hne].
  - rewrite list_lookup_insert_eq in Hl by lia. rewrite list_lookup_insert_eq in Hb by lia.
    injection Hl as <-. injection Hb as <-. done.
  - rewrite list_lookup_insert_ne in Hl by lia. rewrite list_lookup_insert_ne in Hb by lia.
    rewrite Hother, Htodo by done. by apply sk_shard0.
Qed.

Lemma enqueue_ok (s : Scheduler) todo (j : J) (key : Z) :
  sched_ok s todo ->
  exists s', enqueueWithKey j key s = (Ok tt, s') /\ sched_ok s' (addTodo (shardOf s key) j todo) /\
    numShards_ s' = numShards_ s /\ allReqs s' ≡ₚ allReqs s ++ [(key, j)].
Proof.
  intros Hok. destruct (Hok) as [Hn _ _ Hr _]. set (k := shardOf s key).
  assert (Hk : 0 <= k < numShards_ s) by (apply Z.mod_pos_bound; lia).
  destruct (shard_at s todo k Hok Hk) as (l & b & Hl & Hb).
  destruct (sk_shard _ _ Hok k l b Hk Hl Hb) as (Ht & Hlen & Hnil & Hf).
  unfold enqueueWithKey. cbn [bind get]. unfold bind, get. rewrite Hr. fold k. unfold spoolAt. rewrite Hb. destruct b.
  - unfold pendingAt. rewrite Hl. cbn. eexists. split; [done|]. split; [|split; [done|]].
    + eapply (sched_ok_upd s _ todo _ k (l ++ [(key, j)]) true); try done.
      * cbn. by rewrite list_insert_id.
      * intros i Hi. unfold addTodo. by rewrite decide_False.
      * unfold addTodo. rewrite decide_True, Ht by done. cbn. by rewrite fmap_app, app_assoc.
      * apply Forall_app. split; [done|]. by apply Forall_singleton.
    + unfold allReqs. cbn. rewrite concat_insert_snoc by done. solve_Permutation.
  - cbn. eexists. split; [done|]. split; [|split; [done|]].
    + specialize (Hnil eq_refl). subst l. eapply (sched_ok_upd s _ todo _ k [] true); try done.
      * cbn. by rewrite list_insert_id.
      * intros i Hi. cbn. rewrite ofShard_app, ofShard_one, decide_False by (unfold k, shardOf in Hi; cbn; congruence).
        apply app_nil_r.
      * intros i Hi. unfold addTodo. by rewrite decide_False.
      * unfold addTodo. rewrite decide_True, Ht by done. cbn. rewrite ofShard_app, ofShard_one, decide_True by done.
        by rewrite !app_nil_r.
      * cbn. rewrite ofShard_app, ofShard_one, decide_True by done. rewrite length_app, Hlen. done.
    + unfold allReqs. cbn. solve_Permutation.
Qed.

Lemma ofShard_delete (n k : Z) (l : list Req) (i : nat) (r : Req) :
  l !! i = Some r -> exists l1 l2, delete i l = l1 ++ l2 /\
    ofShard n k l = ofShard n k l1 ++ (if decide (r.1 mod n = k) then [r.2] else []) ++ ofShard n k l2 /\
    ofShard n k (delete i l) = ofShard n k l1 ++ ofShard n k l2.
Proof.
  intros H. exists (take i l), (drop (S i) l). rewrite delete_take_drop. split; [done|]. rewrite ofShard_app. split; [|done].
  rewrite <- (take_drop_middle l i r H) at 1. change (r :: drop (S i) l) with ([r] ++ drop (S i) l).
  by rewrite !ofShard_app, ofShard_one.
Qed.

(** A submitted request is the first of its shard, and the only one submitted. *)
Lemma submitted_first (s : Scheduler) todo (i : nat) (key : Z) (j : J) :
  sched_ok s todo -> submitted_ s !! i = Some (key, j) ->
  exists l, pendingReqs_ s !! Z.to_nat (shardOf s key) = Some l /\
    shouldSpool_ s !! Z.to_nat (shardOf s key) = Some true /\ 0 <= shardOf s key < numShards_ s /\
    todo (shardOf s key) = j :: l.*2 /\ Forall (fun r => r.1 mod numShards_ s = shardOf s key) l /\
    ofShard (numShards_ s) (shardOf s key) (submitted_ s) = [j] /\
    ofShard (numShards_ s) (shardOf s key) (delete i (submitted_ s)) = [].
Proof.
  intros Hok Hi. destruct (Hok) as [Hn _ _ _ _]. set (k := shardOf s key).
  assert (Hk : 0 <= k < numShards_ s) by (apply Z.mod_pos_bound; lia).
  destruct (shard_at s todo k Hok Hk) as (l & b & Hl & Hb). exists l. split; [done|].
  destruct (sk_shard _ _ Hok k l b Hk Hl Hb) as (Ht & Hlen & _ & Hf).
  destruct (ofShard_delete (numShards_ s) k _ _ _ Hi) as (l1 & l2 & _ & E1 & E2).
  rewrite decide_True in E1 by done. cbn in E1. rewrite E1, length_app in Hlen. cbn in Hlen.
  destruct b; [|cbn in Hlen; lia]. cbn in Hlen.
  assert (H1 : ofShard (numShards_ s) k l1 = []) by (apply length_zero_iff_nil; lia).
  assert (H2 : ofShard (numShards_ s) k l2 = []) by (apply length_zero_iff_nil; lia).
  rewrite H1, H2 in E1. rewrite Ht, E1, E2, H1, H2. done.
Qed.

Lemma ofShard_others (s : Scheduler) (i : nat) (key : Z) (j : J) (m : Z) :
  submitted_ s !! i = Some (key, j) -> m <> shardOf s key ->
  ofShard (numShards_ s) m (delete i (submitted_ s)) = ofShard (numShards_ s) m (submitted_ s).
Proof.
  intros Hi Hm. destruct (ofShard_delete (numShards_ s) m _ _ _ Hi) as (l1 & l2 & _ & E1 & E2).
  rewrite E1, E2, decide_False; [done|]. cbn. unfold shardOf in Hm. congruence.
Qed.

Lemma complete_ok (s : Scheduler) todo (i : nat) (key : Z) (j : J) :
  sched_ok s todo -> submitted_ s !! i = Some (key, j) ->
  exists s', complete i s = (Ok tt, s') /\ sched_ok s' (dropTodo (shardOf s key) todo) /\
    numShards_ s' = numShards_ s /\ allReqs s ≡ₚ (key, j) :: allReqs s' /\ head (todo (shardOf s key)) = Some j.
Proof.
  intros Hok Hi. destruct (submitted_first s todo i key j Hok Hi) as (l & Hl & Hb & Hk & Ht & Hf & H1 & H2).
  set (k := shardOf s key) in *. unfold complete, bind, get. rewrite Hi. unfold modify, notifyCompletion, bind, get.
  change (shardOf (set_submitted _ s) key) with k. unfold pendingAt. cbn [pendingReqs_ set_submitted]. rewrite Hl.
  assert (Hsub : submitted_ s ≡ₚ (key, j) :: delete i (submitted_ s)) by (by apply delete_Permutation).
  destruct l as [|[key' next] l].
  - eexists. split; [done|]. rewrite Ht. split; [|split; [done|split; [|done]]].
    + eapply (sched_ok_upd s _ todo _ k [] false); try done.
      * apply (sk_running _ _ Hok).
      * cbn. by rewrite list_insert_id.
      * intros m Hm. by eapply ofShard_others.
      * intros m Hm. unfold dropTodo. by rewrite decide_False.
      * unfold dropTodo. rewrite decide_True, Ht by done. cbn. by rewrite H2.
      * cbn. by rewrite H2.
    + unfold allReqs. cbn. by rewrite Hsub at 1.
  - apply Forall_cons in Hf as [Hkey' Hf]. cbn. rewrite (sk_running _ _ Hok). cbn.
    eexists. split; [done|]. rewrite Ht. split; [|split; [done|split; [|done]]].
    + eapply (sched_ok_upd s _ todo _ k l true); try done.
      * apply (sk_running _ _ Hok).
      * cbn. by rewrite list_insert_id.
      * intros m Hm. cbn. rewrite ofShard_app, ofShard_one, decide_False by (cbn in *; congruence).
        rewrite app_nil_r. by eapply ofShard_others.
      * intros m Hm. unfold dropTodo. by rewrite decide_False.
      * unfold dropTodo. rewrite decide_True, Ht by done. cbn. rewrite ofShard_app, ofShard_one, H2, decide_True by done. done.
      * cbn. rewrite ofShard_app, ofShard_one, H2, decide_True by done. done.
    + unfold allReqs. cbn. rewrite Hsub at 1. rewrite (concat_insert_tail _ _ _ _ Hl). solve_Permutation.
Qed.

Lemma reschedule_ok (s : Scheduler) todo (i : nat) (key : Z) (j j' : J) :
  sched_ok s todo -> submitted_ s !! i = Some (key, j) ->
  exists s', reschedule i j' s = (Ok tt, s') /\ sched_ok s' (setTodo (shardOf s key) j' todo) /\
    numShards_ s' = numShards_ s /\ exists rest, allReqs s ≡ₚ (key, j) :: rest /\ allReqs s' ≡ₚ (key, j') :: rest.
Proof.
  intros Hok Hi. destruct (submitted_first s todo i key j Hok Hi) as (l & Hl & Hb & Hk & Ht & Hf & H1 & H2).
  set (k := shardOf s key) in *. eexists. split; [done|]. cbn.
  assert (Hlt := lookup_lt_Some _ _ _ Hi).
  set (sub' := alter (fun r => (r.1, j')) i (submitted_ s)).
  assert (Hi' : sub' !! i = Some (key, j')) by (unfold sub'; rewrite list_lookup_alter_eq, Hi; reflexivity).
  assert (Hd : delete i sub' = delete i (submitted_ s)).
  { rewrite !delete_take_drop. unfold sub'. by rewrite take_alter, drop_alter, !decide_False by lia. }
  assert (Ho : forall m, m <> k -> ofShard (numShards_ s) m sub' = ofShard (numShards_ s) m (submitted_ s)).
  { intros m Hm. rewrite <- (ofShard_others s i key j m Hi) by done. rewrite <- Hd.
    symmetry. apply (ofShard_others (set_submitted sub' s) i key j' m Hi'). done. }
  assert (Hs : ofShard (numShards_ s) k sub' = [j']).
  { destruct (ofShard_delete (numShards_ s) k _ _ _ Hi') as (l1 & l2 & _ & E1 & E2). rewrite Hd, H2 in E2.
    symmetry in E2. apply app_eq_nil in E2 as [E2 E3]. rewrite E1, E2, E3, decide_True by done. done. }
  split; [|split; [done|]].
  - eapply (sched_ok_upd s _ todo _ k l true); try done.
    + apply (sk_running _ _ Hok).
    + cbn. by rewrite list_insert_id.
    + cbn. by rewrite list_insert_id.
    + intros m Hm. unfold setTodo. by rewrite decide_False.
    + unfold setTodo. rewrite decide_True, Ht by done. cbn. by rewrite Hs.
    + cbn. by rewrite Hs.
  - exists (delete i (submitted_ s) ++ concat (pendingReqs_ s)). unfold allReqs. cbn. split.
    + by rewrite (delete_Permutation _ _ _ Hi) at 1.
    + fold sub'. by rewrite (delete_Permutation _ _ _ Hi') at 1; rewrite Hd.
Qed.

(** ** Sequences of requests *)

Inductive SchedOp : Type :=
| SEnqueue (job : J) (key : Z)
| SComplete (i : nat).

(** The requests that completed, in order. *)
Fixpoint schedRun (ops : list SchedOp) : M Scheduler (list Req) :=
  match ops with
  | [] => ret []
  | SEnqueue job key :: ops => do! enqueueWithKey job key in schedRun ops
  | SComplete i :: ops =>
      let! s := get in
      do! complete i in
      let! rs := schedRun ops in
      ret (match submitted_ s !! i with Some r => r :: rs | None => rs end)
  end.

Fixpoint enqueued (ops : list SchedOp) : list Req :=
  match ops with
  | [] => []
  | SEnqueue job key :: ops => (key, job) :: enqueued ops
  | SComplete _ :: ops => enqueued ops
  end.

Lemma addTodo_one (s : Scheduler) (todo : Z -> list J) (key : Z) (j : J) (m : Z) (l : list Req) :
  addTodo (shardOf s key) j todo m ++ ofShard (numShards_ s) m l = todo m ++ ofShard (numShards_ s) m ((key, j) :: l).
Proof.
  change ((key, j) :: l) with ([(key, j)] ++ l). rewrite ofShard_app, ofShard_one. cbn. unfold addTodo, shardOf.
  destruct (decide (m = key mod numShards_ s)) as [->|Hm].
  - rewrite decide_True by done. by rewrite <- app_assoc.
  - by rewrite decide_False by congruence.
Qed.

Lemma schedRun_ok (ops : list SchedOp) (s : Scheduler) todo :
  sched_ok s todo ->
  exists done s' todo', schedRun ops s = (Ok done, s') /\ sched_ok s' todo' /\ numShards_ s' = numShards_ s /\
    forall m, todo m ++ ofShard (numShards_ s) m (enqueued ops) = ofShard (numShards_ s) m done ++ todo' m.
Proof.
  revert s todo. induction ops as [|[job key|i] ops IH]; intros s todo Hok.
  - exists [], s, todo. split_and!; try done. intros m. by rewrite app_nil_r.
  - destruct (enqueue_ok s todo job key Hok) as (s1 & E1 & Hok1 & En & _).
    destruct (IH s1 _ Hok1) as (done & s' & todo' & E' & Hok' & En' & Hm).
    exists done, s', todo'. cbn [schedRun enqueued]. unfold bind. rewrite E1, E'.
    split_and!; [done..|congruence|]. intros m. rewrite <- addTodo_one, <- En, <- Hm. done.
  - cbn [schedRun enqueued]. unfold bind, get. destruct (submitted_ s !! i) as [[key j]|] eqn:Hi.
    + destruct (complete_ok s todo i key j Hok Hi) as (s1 & E1 & Hok1 & En & _ & Hh).
      destruct (IH s1 _ Hok1) as (done & s' & todo' & E' & Hok' & En' & Hm).
      exists ((key, j) :: done), s', todo'. rewrite E1, E'. split_and!; [done..|congruence|]. intros m.
      specialize (Hm m). rewrite En in Hm. change ((key, j) :: done) with ([(key, j)] ++ done).
      rewrite ofShard_app, ofShard_one, <- app_assoc, <- Hm. cbn. unfold dropTodo, shardOf in *.
      destruct (decide (m = key mod numShards_ s)) as [->|Hne].
      * rewrite decide_True by done. destruct (todo _); [done|]. by injection Hh as ->.
      * by rewrite decide_False by congruence.
    + destruct (IH s todo Hok) as (done & s' & todo' & E' & Hok' & En' & Hm).
      exists done, s', todo'. unfold complete, bind, get. rewrite Hi. unfold ret at 1. rewrite E'. done.
Qed.

(** C40. The requests of a shard of keys run in order. Whatever requests are
    enqueued and whenever the threads complete submitted ones, the requests of
    a shard complete in the order they were enqueued, none twice and none
    lost, and of those that wait exactly the first is submitted: a shard with
    work has one request running, so that it makes progress and no two
    requests of a key ever run at once. *)
Theorem scheduler_fifo (p : Z) (ops : list SchedOp) :
  0 <= p ->
  exists done s, schedRun ops (newScheduler p) = (Ok done, s) /\
    forall shard, 0 <= shard < 2 ^ p -> exists waiting,
      ofShard (2 ^ p) shard (enqueued ops) = ofShard (2 ^ p) shard done ++ waiting /\
      ofShard (2 ^ p) shard (submitted_ s) = take 1 waiting.
Proof.
  intros Hp. destruct (schedRun_ok ops _ _ (newScheduler_ok p Hp)) as (done & s & todo & E & Hok & En & Hm).
  exists done, s. split; [done|].
  assert (En0 : numShards_ (newScheduler p) = 2 ^ p) by (cbn; rewrite Z.shiftl_mul_pow2 by lia; lia).
  rewrite En0 in En, Hm. intros shard Hs. exists (todo shard). split; [apply (Hm shard)|].
  destruct (shard_at s todo shard Hok) as (l & b & Hl & Hb); [lia|].
  destruct (sk_shard _ _ Hok shard l b) as (-> & Hlen & Hnil & _); [lia|done..|]. rewrite En in *.
  destruct b; cbn in Hlen.
  - destruct (ofShard _ _ _) as [|j [|]]; done.
  - apply length_zero_iff_nil in Hlen. rewrite Hlen, Hnil by done. done.
Qed.
End scheduler.
Arguments Scheduler : clear implicits.

Lemma scheduler_fifo_witness :
  exists done s, schedRun [SEnqueue 1%nat 5; SEnqueue 2%nat 9; SEnqueue 3%nat 4; SComplete 1; SComplete 0; SComplete 0]
      (newScheduler 2) = (Ok done, s) /\
    forall shard, 0 <= shard < 2 ^ 2 -> exists waiting,
      ofShard (2 ^ 2) shard [(5, 1%nat); (9, 2%nat); (4, 3%nat)] = ofShard (2 ^ 2) shard done ++ waiting /\
      ofShard (2 ^ 2) shard (submitted_ s) = take 1 waiting.
Proof.
  apply (scheduler_fifo 2 [SEnqueue 1%nat 5; SEnqueue 2%nat 9; SEnqueue 3%nat 4; SComplete 1; SComplete 0; SComplete 0]).
  lia.
Defined.
