(* ===== verification/Engine.v ===== *)
(** * Engines of Navy, and pairs of them

    [src/cachelib/navy/engine/Engine.h], [NoopEngine.h] and
    [EnginePair.{h,cpp}]. An engine is a cache of items on a device; a pair
    routes small items to one engine and large ones to the other, and keeps a
    key out of both at once. What a pair relies on is the class
    [EngineLaws]; [EngineBigHash] and [EngineBlock] show that BigHash and the block cache have it.

    A [HashedKey] is a key with its hash, a function of the key: the
    operations take the key. A null pointer to an engine, for which
    [EnginePair::validate] puts in a [NoopEngine], is [None]. The jobs a pair
    gives to the scheduler are in [Driver]; recovery and statistics of
    lifetimes are left out. *)

From S2P Require Import Prelude Bytes BigHash Runs.
From stdpp Require Import base tactics numbers list.

#[local] Open Scope Z_scope.
#[local] Open Scope cachelib_scope.

(** ** The interface *)

(** [eDrain] and [eFlush] take fuel for the jobs they wait for; [eReset] the
    time; [eWork i] is the engine's own threads taking up their job [i], if
    there is one and it need not wait. *)
Class Engine (E : Type) : Type := {
  eInsert : bytes -> bytes -> Z -> M E Status;
  eLookup : bytes -> M E (Status * bytes * Z);
  eRemove : bytes -> M E Status;
  eCouldExist : bytes -> M E bool;
  eEstimateWriteSize : E -> bytes -> bytes -> Z;
  eGetSize : E -> Z;
  eGetMaxItemSize : E -> Z;
  eDrain : nat -> M E unit;
  eFlush : nat -> M E unit;
  eReset : Z -> M E unit;
  eWork : nat -> M E unit
}.

(** The values by key, with that of [k] replaced. *)
Definition updKey (L : bytes -> option bytes) (k : bytes) (o : option bytes) : bytes -> option bytes :=
  fun j => if decide (j = k) then o else L j.

(** [promises L s]: every value the engine may return for a key is the one [L]
    has. [item_fits]: what an engine requires of an item. A failed insert
    leaves the previous item; a failed remove does not. *)
Class EngineLaws (E : Type) `{Engine E} : Type := {
  promises : (bytes -> option bytes) -> E -> Prop;
  item_fits : E -> bytes -> bytes -> Z -> Prop;
  insert_promise L s k v t : promises L s -> item_fits s k v t ->
    runs (eInsert k v t) s (fun st s' => item_fits s' = item_fits s /\
      (st = StatusOk /\ promises (updKey L k (Some v)) s' \/
       (st = Rejected \/ st = Retry \/ st = DeviceError) /\ promises L s'));
  lookup_promise L s k : promises L s -> is_bytes k ->
    runs (eLookup k) s (fun r s' => item_fits s' = item_fits s /\ promises L s' /\
      (r.1.1 = StatusOk /\ L k = Some r.1.2 \/ r.1.1 = NotFound \/ r.1.1 = DeviceError));
  remove_promise L s k : promises L s -> is_bytes k ->
    runs (eRemove k) s (fun st s' => item_fits s' = item_fits s /\ promises (updKey L k None) s' /\
      (st = StatusOk \/ st = NotFound \/ st = DeviceError));
  couldExist_promise L s k : promises L s -> is_bytes k ->
    runs (eCouldExist k) s (fun b s' => item_fits s' = item_fits s /\ promises (if b then L else updKey L k None) s');
  work_promise L s i : promises L s ->
    runs (eWork i) s (fun _ s' => item_fits s' = item_fits s /\ promises L s')
}.

(** An engine that reports a removal only of a key it had. *)
Class ExactRemove (E : Type) `{EngineLaws E} : Prop :=
  remove_exact L s s' k : promises L s -> is_bytes k -> eRemove k s = (Ok StatusOk, s') -> is_Some (L k).

(** ** [NoopEngine] *)
Module Noop.
Section noop.
Context {S : Type}.
Definition insert (k v : bytes) (t : Z) : M S Status := ret Rejected.
Definition lookup (k : bytes) : M S (Status * bytes * Z) := ret (NotFound, [], 0).
Definition remove (k : bytes) : M S Status := ret NotFound.
Definition couldExist (k : bytes) : M S bool := ret false.
Definition estimateWriteSize : Z := 0.
Definition getSize : Z := 0.
Definition getMaxItemSize : Z := 2 ^ 32 - 1.
Definition flush : M S unit := ret tt.
Definition reset : M S unit := ret tt.
End noop.
End Noop.

(** A pointer to an engine, with the engine that stands for null. *)
Definition onPtr {E A} (noop : M (option E) A) (m : M E A) : M (option E) A := fun p =>
  match p with
  | None => noop p
  | Some s => let '(r, s') := m s in (r, Some s')
  end.

#[export] Instance Ptr_engine {E} `{Engine E} : Engine (option E) := {|
  eInsert k v t := onPtr (Noop.insert k v t) (eInsert k v t);
  eLookup k := onPtr (Noop.lookup k) (eLookup k);
  eRemove k := onPtr (Noop.remove k) (eRemove k);
  eCouldExist k := onPtr (Noop.couldExist k) (eCouldExist k);
  eEstimateWriteSize p k v := match p with Some s => eEstimateWriteSize s k v | None => Noop.estimateWriteSize end;
  eGetSize p := match p with Some s => eGetSize s | None => Noop.getSize end;
  eGetMaxItemSize p := match p with Some s => eGetMaxItemSize s | None => Noop.getMaxItemSize end;
  eDrain n := onPtr (ret tt) (eDrain n);
  eFlush n := onPtr Noop.flush (eFlush n);
  eReset t := onPtr Noop.reset (eReset t);
  eWork i := onPtr (ret tt) (eWork i)
|}.

(** ** [EnginePair] *)

Inductive PairCounter : Type :=
  pInsertCount_ | pLookupCount_ | pRemoveCount_ | pSuccInsertCount_ | pSuccLookupCount_ | pSuccRemoveCount_ |
  pIoErrorCount_.

#[export] Instance PairCounter_eq_dec : EqDecision PairCounter.
Proof. solve_decision. Defined.

Record EnginePair (S L : Type) : Type := mkPair {
  smallItemMaxSize_ : Z;
  largeItemCache_ : option L;
  smallItemCache_ : option S;
  pairCounters_ : PairCounter -> Z
}.
Arguments mkPair {S L}. Arguments smallItemMaxSize_ {S L}. Arguments largeItemCache_ {S L}.
Arguments smallItemCache_ {S L}. Arguments pairCounters_ {S L}.

Section pair.
Context {S L : Type} `{Engine S} `{Engine L}.
Notation Pair := (EnginePair S L).

Definition newPair (small : option S) (large : option L) (smallItemMaxSize : Z) : Pair :=
  mkPair (match small with Some _ => smallItemMaxSize | None => 0 end) large small (fun _ => 0).

Definition validatePair (p : Pair) : res unit :=
  match smallItemCache_ p with
  | None => Ok tt
  | Some s =>
      if smallItemMaxSize_ p =? 0 then Throw InvalidArgument
      else if eGetMaxItemSize s <? smallItemMaxSize_ p then Throw InvalidArgument
      else Ok tt
  end.

Definition set_small (s : option S) (p : Pair) : Pair :=
  mkPair (smallItemMaxSize_ p) (largeItemCache_ p) s (pairCounters_ p).
Definition set_large (l : option L) (p : Pair) : Pair :=
  mkPair (smallItemMaxSize_ p) l (smallItemCache_ p) (pairCounters_ p).
Definition pairCount (c : PairCounter) : M Pair unit :=
  modify (fun p => mkPair (smallItemMaxSize_ p) (largeItemCache_ p) (smallItemCache_ p)
    (fun c' => if decide (c' = c) then u64 (pairCounters_ p c' + 1) else pairCounters_ p c')).

Definition onSmall {A} (m : M (option S) A) : M Pair A := fun p =>
  let '(r, s) := m (smallItemCache_ p) in (r, set_small s p).
Definition onLarge {A} (m : M (option L) A) : M Pair A := fun p =>
  let '(r, l) := m (largeItemCache_ p) in (r, set_large l p).

Definition pairIsItemLarge (p : Pair) (k v : bytes) : bool := smallItemMaxSize_ p <? zlen k + zlen v.

Definition pairCouldExist (k : bytes) : M Pair bool :=
  let! inSmall := onSmall (eCouldExist k) in
  let! b := (if inSmall : bool then ret true else onLarge (eCouldExist k)) in
  do! (if b : bool then ret tt else pairCount pLookupCount_) in
  ret b.

Definition pairEstimateWriteSize (p : Pair) (k v : bytes) : Z :=
  if pairIsItemLarge p k v then eEstimateWriteSize (largeItemCache_ p) k v
  else eEstimateWriteSize (smallItemCache_ p) k v.

Definition updateLookupStats (st : Status) : M Pair unit :=
  match st with
  | StatusOk => pairCount pSuccLookupCount_
  | DeviceError => pairCount pIoErrorCount_
  | _ => ret tt
  end.

(** A busy wait for a result other than [Retry]. *)
Fixpoint untilDone {T A} (fuel : nat) (statusOf : A -> Status) (m : M T A) : M T A :=
  match fuel with
  | O => throw StillWaiting
  | Datatypes.S fuel =>
      let! r := m in
      if bool_decide (statusOf r = Retry) then untilDone fuel statusOf m else ret r
  end.

Definition lookupSync (fuel : nat) (k : bytes) : M Pair (Status * bytes * Z) :=
  do! pairCount pLookupCount_ in
  let! r := untilDone fuel (fun r => r.1.1) (onLarge (eLookup k)) in
  let! r := (if bool_decide (r.1.1 = NotFound) then untilDone fuel (fun r => r.1.1) (onSmall (eLookup k))
             else ret r) in
  do! updateLookupStats r.1.1 in
  ret r.

(** The [skip] flags are what a job remembers when it is rescheduled. *)
Definition insertInternal (k v : bytes) (skipInsertion : bool) (t : Z) : M Pair (Status * bool) :=
  let! p := get in
  let large := pairIsItemLarge p k v in
  let! st := (if skipInsertion then ret StatusOk
              else if large then onLarge (eInsert k v t) else onSmall (eInsert k v t)) in
  if negb skipInsertion && bool_decide (st = Retry) then ret (Retry, skipInsertion) else
  let! r := (if bool_decide (st = DeviceError) then ret (inr st) else
             let! rs := (if large then onSmall (eRemove k) else onLarge (eRemove k)) in
             if bool_decide (rs = Retry) then ret (inl rs)
             else if bool_decide (rs = StatusOk) || bool_decide (rs = NotFound) then ret (inr st)
             else ret (inr BadState)) in
  match r with
  | inl rs => ret (rs, true)
  | inr st =>
      do! (match st with
           | StatusOk => pairCount pSuccInsertCount_
           | BadState | DeviceError => pairCount pIoErrorCount_
           | _ => ret tt
           end) in
      ret (st, true)
  end.

Definition lookupInternal (k : bytes) (skipLargeItemCache : bool) : M Pair (Status * bytes * Z * bool) :=
  let! r := (if skipLargeItemCache then ret (NotFound, [], 0) else onLarge (eLookup k)) in
  if negb skipLargeItemCache && bool_decide (r.1.1 = Retry) then ret (r, skipLargeItemCache) else
  let! r := (if bool_decide (r.1.1 = NotFound) then onSmall (eLookup k) else ret r) in
  if bool_decide (r.1.1 = Retry) then ret (r, true) else
  do! updateLookupStats r.1.1 in
  ret (r, true).

Definition removeHashedKeyInternal (k : bytes) (skipSmallItemCache : bool) : M Pair (Status * bool) :=
  do! pairCount pRemoveCount_ in
  let! st := (if skipSmallItemCache then ret NotFound else onSmall (eRemove k)) in
  let! r := (if bool_decide (st = NotFound) then let! st := onLarge (eRemove k) in ret (st, true)
             else ret (st, skipSmallItemCache)) in
  do! (match r.1 with
       | StatusOk => pairCount pSuccRemoveCount_
       | DeviceError => pairCount pIoErrorCount_
       | _ => ret tt
       end) in
  ret r.

Fixpoint removeLoop (fuel : nat) (k : bytes) (skip : bool) : M Pair Status :=
  match fuel with
  | O => throw StillWaiting
  | Datatypes.S fuel =>
      let! r := removeHashedKeyInternal k skip in
      if bool_decide (r.1 = Retry) then removeLoop fuel k r.2 else ret r.1
  end.
Definition removeSync (fuel : nat) (k : bytes) : M Pair Status := removeLoop fuel k false.

Definition pairDrain (fuel : nat) : M Pair unit := do! onSmall (eDrain fuel) in onLarge (eDrain fuel).
Definition pairFlush (fuel : nat) : M Pair unit := do! onSmall (eFlush fuel) in onLarge (eFlush fuel).
Definition pairReset (now : Z) : M Pair unit := do! onSmall (eReset now) in onLarge (eReset now).
Definition getUsableSize (p : Pair) : Z := u64 (eGetSize (largeItemCache_ p) + eGetSize (smallItemCache_ p)).

(** The threads of an engine of the pair. *)
Definition pairWork (large : bool) (i : nat) : M Pair unit :=
  if large then onLarge (eWork i) else onSmall (eWork i).
End pair.
