(* ===== verification/EngineProofs.v ===== *)
(** * What a pair of engines promises

    From the promises of its engines: a key is never in both, a lookup returns
    the last value inserted and not removed, and what becomes of a key when an
    operation fails. *)

From S2P Require Import Prelude Bytes BigHash Runs Engine.
From stdpp Require Import base tactics numbers list.

#[local] Open Scope Z_scope.

Lemma updKey_eq (L : bytes -> option bytes) (k : bytes) (o : option bytes) : updKey L k o k = o.
Proof. unfold updKey. by rewrite decide_True. Qed.
Lemma updKey_ne (L : bytes -> option bytes) (k j : bytes) (o : option bytes) : j <> k -> updKey L k o j = L j.
Proof. intros Hne. unfold updKey. by rewrite decide_False. Qed.

(** ** Pointers to engines *)
Section ptr.
Context {E : Type} `{EngineLaws E}.

Definition ptr_promises (L : bytes -> option bytes) (p : option E) : Prop :=
  match p with Some s => promises L s | None => True end.
Definition ptr_fits (p : option E) : bytes -> bytes -> Z -> Prop :=
  match p with Some s => item_fits s | None => fun _ _ _ => True end.

Lemma runs_onPtr_some {A} (noop : M (option E) A) (m : M E A) (s : E) (Q : A -> option E -> Prop) :
  runs m s (fun a s' => Q a (Some s')) -> runs (onPtr noop m) (Some s) Q.
Proof. unfold runs, onPtr. destruct (m s) as [[a|e] s']; done. Qed.

#[export, refine] Instance Ptr_laws : EngineLaws (option E) := {|
  promises := ptr_promises;
  item_fits := ptr_fits
|}.
Proof.
  all: intros L [s|] *; cbn [ptr_promises ptr_fits].
  all: try (intros; apply runs_ret; cbn; split; [done|]; auto; fail).
  all: intros Hp; try intros Hf; apply runs_onPtr_some.
  - eapply runs_mono; [by apply insert_promise|]. done.
  - eapply runs_mono; [by apply lookup_promise|]. done.
  - eapply runs_mono; [by apply remove_promise|]. done.
  - eapply runs_mono; [by apply couldExist_promise|]. done.
  - eapply runs_mono; [by apply work_promise|]. done.
Defined.

#[export] Instance Ptr_exact `{!ExactRemove E} : ExactRemove (option E).
Proof.
  intros L [s|] s' k Hp Hk Er; [|done]. cbn in *. unfold onPtr in Er.
  destruct (eRemove k s) as [r s1] eqn:E1. injection Er as -> <-. by eapply remove_exact.
Qed.
End ptr.

(** ** Pairs *)
Section pair.
Context {S L : Type} {IS : Engine S} {LS : EngineLaws S} {XS : ExactRemove S} {IL : Engine L} {LL : EngineLaws L}.
Notation Pair := (EnginePair S L).

(** The items of the pair are those of its engines, a key in one at most. *)
Definition pair_ok (V : bytes -> option bytes) (p : Pair) : Prop :=
  exists Vs Vl, promises Vs (smallItemCache_ p) /\ promises Vl (largeItemCache_ p) /\
    (forall k, Vs k = None \/ Vl k = None) /\
    (forall k v, Vs k = Some v \/ Vl k = Some v -> V k = Some v).

Definition pair_fits (p : Pair) (k v : bytes) (t : Z) : Prop :=
  is_bytes k /\
  if pairIsItemLarge p k v then item_fits (largeItemCache_ p) k v t else item_fits (smallItemCache_ p) k v t.

(** What no operation changes. *)
Definition pair_same (p p' : Pair) : Prop :=
  smallItemMaxSize_ p' = smallItemMaxSize_ p /\
  item_fits (largeItemCache_ p') = item_fits (largeItemCache_ p) /\
  item_fits (smallItemCache_ p') = item_fits (smallItemCache_ p).

#[export] Instance pair_same_preorder : PreOrder pair_same.
Proof.
  split; [by intros p|]. intros p q r (H1 & H2 & H3) (K1 & K2 & K3). split_and!; etrans; eauto.
Qed.

Lemma pair_same_fits (p p' : Pair) k v t : pair_same p p' -> pair_fits p k v t -> pair_fits p' k v t.
Proof. intros (H1 & H2 & H3). unfold pair_fits, pairIsItemLarge. by rewrite H1, H2, H3. Qed.

Lemma runs_onSmall {A} (m : M (option S) A) (p : Pair) (Q : A -> Pair -> Prop) :
  runs m (smallItemCache_ p) (fun a s => Q a (set_small s p)) -> runs (onSmall m) p Q.
Proof. unfold runs, onSmall. by destruct (m (smallItemCache_ p)) as [[]]. Qed.
Lemma runs_onLarge {A} (m : M (option L) A) (p : Pair) (Q : A -> Pair -> Prop) :
  runs m (largeItemCache_ p) (fun a l => Q a (set_large l p)) -> runs (onLarge m) p Q.
Proof. unfold runs, onLarge. by destruct (m (largeItemCache_ p)) as [[]]. Qed.

(** A counter does not matter. *)
Definition counted (p p' : Pair) : Prop :=
  smallItemMaxSize_ p' = smallItemMaxSize_ p /\ largeItemCache_ p' = largeItemCache_ p /\
  smallItemCache_ p' = smallItemCache_ p.

Lemma counted_ok (p p' : Pair) V : counted p p' -> pair_ok V p -> pair_ok V p'.
Proof. intros (_ & H1 & H2). unfold pair_ok. by rewrite H1, H2. Qed.
Lemma counted_same (p p' : Pair) : counted p p' -> pair_same p p'.
Proof. intros (H1 & H2 & H3). unfold pair_same. by rewrite H1, H2, H3. Qed.

Lemma runs_count (c : PairCounter) (p : Pair) (Q : unit -> Pair -> Prop) :
  (forall p', counted p p' -> Q tt p') -> runs (pairCount c) p Q.
Proof. intros HQ. by apply HQ. Qed.
Lemma runs_updateStats (st : Status) (p : Pair) (Q : unit -> Pair -> Prop) :
  (forall p', counted p p' -> Q tt p') -> runs (updateLookupStats st) p Q.
Proof. intros HQ. destruct st; cbn; first [by apply HQ | apply runs_ret; by apply HQ]. Qed.

(** [V] may only grow. *)
Lemma pair_ok_weaken (V W : bytes -> option bytes) (p : Pair) :
  (forall k v, V k = Some v -> W k = Some v) -> pair_ok V p -> pair_ok W p.
Proof. intros HW (Vs & Vl & H1 & H2 & H3 & H4). exists Vs, Vl. eauto 6. Qed.

Lemma untilDone_spec {T A} (fuel : nat) (statusOf : A -> Status) (m : M T A) (s : T) (Q : A -> T -> Prop) :
  (0 < fuel)%nat -> runs m s (fun a s' => statusOf a <> Retry /\ Q a s') -> runs (untilDone fuel statusOf m) s Q.
Proof.
  intros Hf Hm. destruct fuel as [|fuel]; [lia|]. cbn [untilDone]. apply runs_bind. eapply runs_mono; [exact Hm|].
  intros a s' [Hne HQ]. cbv beta. rewrite bool_decide_eq_false_2 by done. by apply runs_ret.
Qed.
(** ** Steps in one engine

    The engine that is not called has the values it had. *)

Lemma small_insert Vs Vl (p : Pair) k v t :
  promises Vs (smallItemCache_ p) -> promises Vl (largeItemCache_ p) -> item_fits (smallItemCache_ p) k v t ->
  runs (onSmall (eInsert k v t)) p (fun st p' => pair_same p p' /\ promises Vl (largeItemCache_ p') /\
    (st = StatusOk /\ promises (updKey Vs k (Some v)) (smallItemCache_ p') \/
     (st = Rejected \/ st = Retry \/ st = DeviceError) /\ promises Vs (smallItemCache_ p'))).
Proof.
  intros H1 H2 H3. apply runs_onSmall. eapply runs_mono; [exact (insert_promise Vs _ k v t H1 H3)|].
  intros st s' [Hf Hc]. split; [by split_and!|]. by split.
Qed.
Lemma large_insert Vs Vl (p : Pair) k v t :
  promises Vs (smallItemCache_ p) -> promises Vl (largeItemCache_ p) -> item_fits (largeItemCache_ p) k v t ->
  runs (onLarge (eInsert k v t)) p (fun st p' => pair_same p p' /\ promises Vs (smallItemCache_ p') /\
    (st = StatusOk /\ promises (updKey Vl k (Some v)) (largeItemCache_ p') \/
     (st = Rejected \/ st = Retry \/ st = DeviceError) /\ promises Vl (largeItemCache_ p'))).
Proof.
  intros H1 H2 H3. apply runs_onLarge. eapply runs_mono; [exact (insert_promise Vl _ k v t H2 H3)|].
  intros st s' [Hf Hc]. split; [by split_and!|]. by split.
Qed.
Lemma small_remove Vs Vl (p : Pair) k :
  promises Vs (smallItemCache_ p) -> promises Vl (largeItemCache_ p) -> is_bytes k ->
  runs (onSmall (eRemove k)) p (fun st p' => pair_same p p' /\ promises Vl (largeItemCache_ p') /\
    promises (updKey Vs k None) (smallItemCache_ p') /\ (st = StatusOk \/ st = NotFound \/ st = DeviceError) /\
    (st = StatusOk -> is_Some (Vs k))).
Proof.
  intros H1 H2 H3. apply runs_onSmall. pose proof (remove_promise Vs (smallItemCache_ p) k H1 H3) as Hr.
  unfold runs in *. destruct (eRemove k (smallItemCache_ p)) as [[st|] s'] eqn:Er; [|done]. destruct Hr as (Hf & Hp & Hst).
  split; [by split_and!|]. split_and!; try done. intros ->. exact (remove_exact Vs _ _ k H1 H3 Er).
Qed.
Lemma large_remove Vs Vl (p : Pair) k :
  promises Vs (smallItemCache_ p) -> promises Vl (largeItemCache_ p) -> is_bytes k ->
  runs (onLarge (eRemove k)) p (fun st p' => pair_same p p' /\ promises Vs (smallItemCache_ p') /\
    promises (updKey Vl k None) (largeItemCache_ p') /\ (st = StatusOk \/ st = NotFound \/ st = DeviceError)).
Proof.
  intros H1 H2 H3. apply runs_onLarge. eapply runs_mono; [exact (remove_promise Vl _ k H2 H3)|].
  intros st s' (Hf & Hp & Hst). split; [by split_and!|]. by split_and!.
Qed.

(** ** Inserting *)

(** A pair from the promises of its engines, where [k] has the value [o]. *)
Lemma pair_ok_at Vs Vl V (p : Pair) (k : bytes) (Ws Wl : bytes -> option bytes) (o : option bytes) :
  promises Ws (smallItemCache_ p) -> promises Wl (largeItemCache_ p) ->
  (forall j, Vs j = None \/ Vl j = None) -> (forall j v, Vs j = Some v \/ Vl j = Some v -> V j = Some v) ->
  (forall j, j <> k -> Ws j = Vs j /\ Wl j = Vl j) -> (Ws k = None \/ Wl k = None) ->
  (forall v, Ws k = Some v \/ Wl k = Some v -> o = Some v) -> pair_ok (updKey V k o) p.
Proof.
  intros H1 H2 H3 H4 Hj Hk Ho. exists Ws, Wl. split_and!; [done..| |].
  - intros j. destruct (decide (j = k)) as [->|Hne]; [done|]. by destruct (Hj j Hne) as [-> ->].
  - intros j v. destruct (decide (j = k)) as [->|Hne]; [rewrite updKey_eq; apply Ho|].
    rewrite updKey_ne by done. destruct (Hj j Hne) as [-> ->]. apply H4.
Qed.

(** What an insert that returned [st] may have done to the value of the key. *)
Definition insert_effect (V : bytes -> option bytes) (k v : bytes) (st : Status) (V' : bytes -> option bytes) : Prop :=
  match st with
  | StatusOk => V' = updKey V k (Some v)
  | Rejected | DeviceError | Retry => V' = V
  | BadState => V' = V \/ V' = updKey V k (Some v)
  | _ => False
  end.

Lemma pair_ok_keep V (p : Pair) k : pair_ok (updKey V k (V k)) p -> pair_ok V p.
Proof.
  apply pair_ok_weaken. intros j v. destruct (decide (j = k)) as [->|Hne]; [by rewrite updKey_eq|by rewrite updKey_ne].
Qed.

(** The second half of an insert: the key is removed from the other engine. *)
Lemma insert_finish (large : bool) Vs Vl V (p : Pair) (k v : bytes) (st : Status) (Ws Wl : bytes -> option bytes) :
  promises Ws (smallItemCache_ p) -> promises Wl (largeItemCache_ p) ->
  (forall j, Vs j = None \/ Vl j = None) -> (forall j v, Vs j = Some v \/ Vl j = Some v -> V j = Some v) ->
  is_bytes k -> (st = StatusOk \/ st = Rejected) ->
  (forall j, j <> k -> Ws j = Vs j /\ Wl j = Vl j) ->
  (if large then Wl else Ws) k = (if decide (st = StatusOk) then Some v else (if large then Vl else Vs) k) ->
  runs (if large then onSmall (eRemove k) else onLarge (eRemove k)) p (fun rs p' => pair_same p p' /\
    (rs = StatusOk \/ rs = NotFound \/ rs = DeviceError) /\
    pair_ok (if decide (st = StatusOk) then updKey V k (Some v) else V) p').
Proof.
  intros H1 H2 H3 H4 Hk Hst Hj Hat.
  assert (Hfin : forall p', promises (if large then updKey Ws k None else Ws) (smallItemCache_ p') ->
      promises (if large then Wl else updKey Wl k None) (largeItemCache_ p') ->
      pair_ok (if decide (st = StatusOk) then updKey V k (Some v) else V) p').
  { intros p' Hp1 Hp2. assert (Hr : pair_ok (updKey V k (if decide (st = StatusOk) then Some v else V k)) p').
    { eapply (pair_ok_at Vs Vl V p' k _ _ _ Hp1 Hp2 H3 H4).
      - intros j Hne. destruct (Hj j Hne) as [H5 H6]. by destruct large; rewrite updKey_ne.
      - destruct large; rewrite updKey_eq; auto.
      - intros w. destruct large; rewrite updKey_eq, Hat; intros [Hw|Hw]; try done; case_decide; try done;
          apply H4; auto. }
    case_decide; [done|]. by eapply pair_ok_keep. }
  destruct large.
  - eapply runs_mono; [by apply (small_remove Ws Wl)|]. intros rs p' (Hs & Hp2 & Hp1 & Hrs & _). split_and!; auto.
  - eapply runs_mono; [by apply (large_remove Ws Wl)|]. intros rs p' (Hs & Hp1 & Hp2 & Hrs). split_and!; auto.
Qed.

(** The first half: one engine is asked to take the item. *)
Lemma insert_begin (large : bool) Vs Vl (p : Pair) (k v : bytes) (t : Z) :
  promises Vs (smallItemCache_ p) -> promises Vl (largeItemCache_ p) ->
  (if large then item_fits (largeItemCache_ p) k v t else item_fits (smallItemCache_ p) k v t) ->
  runs (if large then onLarge (eInsert k v t) else onSmall (eInsert k v t)) p (fun st p' =>
    pair_same p p' /\ (st = StatusOk \/ st = Rejected \/ st = Retry \/ st = DeviceError) /\
    exists Ws Wl, promises Ws (smallItemCache_ p') /\ promises Wl (largeItemCache_ p') /\
      (forall j, j <> k -> Ws j = Vs j /\ Wl j = Vl j) /\ (st <> StatusOk -> Ws = Vs /\ Wl = Vl) /\
      (st = StatusOk -> (if large then Wl else Ws) k = Some v)).
Proof.
  intros H1 H2 Hfit. destruct large.
  - eapply runs_mono; [by apply (large_insert Vs Vl)|]. intros st p' (Hs & Hp1 & [[-> Hp2]|[Hst Hp2]]).
    + split; [done|]. split; [auto|]. exists Vs, (updKey Vl k (Some v)). split_and!; try done.
      * intros j Hne. by rewrite updKey_ne.
      * intros _. by rewrite updKey_eq.
    + split; [done|]. split; [tauto|]. exists Vs, Vl. split_and!; try done. intros ->. by destruct Hst as [|[|]].
  - eapply runs_mono; [by apply (small_insert Vs Vl)|]. intros st p' (Hs & Hp1 & [[-> Hp2]|[Hst Hp2]]).
    + split; [done|]. split; [auto|]. exists (updKey Vs k (Some v)), Vl. split_and!; try done.
      * intros j Hne. by rewrite updKey_ne.
      * intros _. by rewrite updKey_eq.
    + split; [done|]. split; [tauto|]. exists Vs, Vl. split_and!; try done. intros ->. by destruct Hst as [|[|]].
Qed.

Lemma insertInternal_spec V (p : Pair) k v t :
  pair_ok V p -> pair_fits p k v t ->
  runs (insertInternal k v false t) p (fun r p' => pair_same p p' /\
    (r.1 = Retry -> r.2 = false) /\ exists V', insert_effect V k v r.1 V' /\ pair_ok V' p').
Proof.
  intros (Vs & Vl & H1 & H2 & H3 & H4) [Hk Hfit]. unfold insertInternal. apply runs_bind, runs_get. cbv beta iota zeta.
  set (large := pairIsItemLarge p k v) in *. apply runs_bind.
  eapply runs_mono; [by apply (insert_begin large Vs Vl)|]. intros st p1 (Hs1 & Hst & Ws & Wl & Hw1 & Hw2 & Hj & Hkeep & Hat). cbv beta.
  assert (Hok1 : st <> StatusOk -> pair_ok V p1).
  { intros Hne. destruct (Hkeep Hne) as [-> ->]. by exists Vs, Vl. }
  cbn [negb andb]. destruct (decide (st = Retry)) as [->|Hnr].
  { rewrite bool_decide_eq_true_2 by done. apply runs_ret. split; [done|]. split; [done|]. exists V. split; [done|by apply Hok1]. }
  rewrite bool_decide_eq_false_2 by done. destruct (decide (st = DeviceError)) as [->|Hnd].
  { rewrite bool_decide_eq_true_2 by done. runs_steps. apply runs_count. intros p2 Hc. apply runs_ret.
    split; [etrans; [exact Hs1|by apply counted_same]|]. split; [done|]. exists V. split; [done|].
    eapply counted_ok; [exact Hc|by apply Hok1]. }
  rewrite bool_decide_eq_false_2 by done. apply runs_bind, runs_bind.
  eapply runs_mono.
  { apply (insert_finish large Vs Vl V p1 k v st Ws Wl); try done.
    - by destruct Hst as [->|[->|[|]]]; auto.
    - case_decide as Hd; [by apply Hat|]. destruct (Hkeep Hd) as [-> ->]. by destruct large. }
  intros rs p2 (Hs2 & Hrs & Hok2). cbv beta.
  rewrite bool_decide_eq_false_2 by (by destruct Hrs as [->|[->| ->]]).
  assert (Hsame : pair_same p p2) by (by etrans).
  destruct (bool_decide (rs = StatusOk) || bool_decide (rs = NotFound)); runs_steps.
  - destruct Hst as [->|[->|[->| ->]]]; try done; cbv beta iota.
    + apply runs_count. intros p3 Hc. apply runs_ret. split; [etrans; [exact Hsame|by apply counted_same]|]. split; [done|].
      eexists. split; [done|]. by eapply counted_ok.
    + apply runs_ret, runs_ret. split; [done|]. split; [done|]. exists V. split; [done|]. by apply Hok2.
  - apply runs_count. intros p3 Hc. apply runs_ret. split; [etrans; [exact Hsame|by apply counted_same]|]. split; [done|].
    case_decide; eexists; (split; [|by eapply counted_ok]); cbn; auto.
Qed.
(** ** Looking up and removing *)

Definition lookup_answer (V : bytes -> option bytes) (k : bytes) (r : Status * bytes * Z) : Prop :=
  r.1.1 = StatusOk /\ V k = Some r.1.2 \/ r.1.1 = NotFound \/ r.1.1 = DeviceError.

Lemma large_lookup V (p : Pair) k :
  pair_ok V p -> is_bytes k ->
  runs (onLarge (eLookup k)) p (fun r p' => pair_same p p' /\ pair_ok V p' /\ lookup_answer V k r).
Proof.
  intros (Vs & Vl & H1 & H2 & H3 & H4) Hk. apply runs_onLarge. eapply runs_mono; [exact (lookup_promise Vl _ k H2 Hk)|].
  intros r l (Hf & Hp & Hr). split; [by split_and!|]. split; [by exists Vs, Vl|]. destruct Hr as [[? ?]|]; [left|by right]. auto.
Qed.
Lemma small_lookup V (p : Pair) k :
  pair_ok V p -> is_bytes k ->
  runs (onSmall (eLookup k)) p (fun r p' => pair_same p p' /\ pair_ok V p' /\ lookup_answer V k r).
Proof.
  intros (Vs & Vl & H1 & H2 & H3 & H4) Hk. apply runs_onSmall. eapply runs_mono; [exact (lookup_promise Vs _ k H1 Hk)|].
  intros r l (Hf & Hp & Hr). split; [by split_and!|]. split; [by exists Vs, Vl|]. destruct Hr as [[? ?]|]; [left|by right]. auto.
Qed.

Lemma answer_done V k r : lookup_answer V k r -> r.1.1 <> Retry.
Proof. by intros [[-> _]|[-> | ->]]. Qed.

Lemma lookupSync_spec (fuel : nat) V (p : Pair) k :
  (0 < fuel)%nat -> pair_ok V p -> is_bytes k ->
  runs (lookupSync fuel k) p (fun r p' => pair_same p p' /\ pair_ok V p' /\ lookup_answer V k r).
Proof.
  intros Hf Hok Hk. unfold lookupSync. apply runs_bind, runs_count. intros p1 Hc1.
  apply runs_bind, untilDone_spec; [done|]. eapply runs_mono; [apply (large_lookup V)|]; [by eapply counted_ok|done|].
  intros r p2 (Hs2 & Hok2 & Hr). split; [by eapply answer_done|].
  apply runs_bind. eapply (runs_mono _ _ (fun r p' => pair_same p2 p' /\ pair_ok V p' /\ lookup_answer V k r)).
  - case_bool_decide; [|by apply runs_ret]. apply untilDone_spec; [done|]. eapply runs_mono; [by apply (small_lookup V)|].
    intros r' p3 Hr'. split; [by eapply answer_done, Hr'|done].
  - intros r' p3 (Hs3 & Hok3 & Hr'). apply runs_bind, runs_updateStats. intros p4 Hc4. apply runs_ret.
    split; [|split; [by eapply counted_ok|done]]. apply counted_same in Hc1, Hc4. etrans; [exact Hc1|]. etrans; [exact Hs2|]. by etrans.
Qed.

Lemma lookupInternal_spec V (p : Pair) k :
  pair_ok V p -> is_bytes k ->
  runs (lookupInternal k false) p (fun r p' => pair_same p p' /\ pair_ok V p' /\ lookup_answer V k r.1).
Proof.
  intros Hok Hk. unfold lookupInternal. apply runs_bind. eapply runs_mono; [by apply (large_lookup V)|].
  intros r p1 (Hs1 & Hok1 & Hr). cbv beta. rewrite (bool_decide_eq_false_2 (r.1.1 = Retry)) by (by eapply answer_done).
  cbn [negb andb]. apply runs_bind. eapply (runs_mono _ _ (fun r p' => pair_same p1 p' /\ pair_ok V p' /\ lookup_answer V k r)).
  - case_bool_decide; [|by apply runs_ret]. by apply (small_lookup V).
  - intros r' p2 (Hs2 & Hok2 & Hr'). cbv beta. rewrite (bool_decide_eq_false_2 (r'.1.1 = Retry)) by (by eapply answer_done).
    apply runs_bind, runs_updateStats. intros p3 Hc3. apply runs_ret. split; [|split; [by eapply counted_ok|done]].
    apply counted_same in Hc3. etrans; [exact Hs1|]. by etrans.
Qed.

(** What a remove that returned [st] did to the value of the key. *)
Definition remove_effect (V : bytes -> option bytes) (k : bytes) (st : Status) (V' : bytes -> option bytes) : Prop :=
  match st with
  | StatusOk | NotFound => V' = updKey V k None
  | DeviceError => V' = V
  | _ => False
  end.

Lemma removeHashedKeyInternal_spec V (p : Pair) k :
  pair_ok V p -> is_bytes k ->
  runs (removeHashedKeyInternal k false) p (fun r p' => pair_same p p' /\
    exists V', remove_effect V k r.1 V' /\ pair_ok V' p').
Proof.
  intros Hok Hk. unfold removeHashedKeyInternal. apply runs_bind, runs_count. intros p1 Hc1. apply runs_bind. cbv beta iota.
  destruct (counted_ok _ _ _ Hc1 Hok) as (Vs & Vl & H1 & H2 & H3 & H4).
  eapply runs_mono; [by apply (small_remove Vs Vl)|]. intros st p2 (Hs2 & Hp2 & Hp1 & Hst & Hex). cbv beta.
  apply runs_bind. eapply (runs_mono _ _ (fun r p' => pair_same p2 p' /\ exists V', remove_effect V k r.1 V' /\ pair_ok V' p')).
  - case_bool_decide as Hnf.
    + apply runs_bind. eapply runs_mono; [by apply (large_remove (updKey Vs k None) Vl)|].
      intros st' p3 (Hs3 & Hp3 & Hp4 & Hst'). apply runs_ret. split; [done|].
      assert (Hboth : pair_ok (updKey V k None) p3).
      { eapply (pair_ok_at Vs Vl V p3 k _ _ None Hp3 Hp4 H3 H4).
        - intros j Hne. by rewrite !updKey_ne.
        - rewrite updKey_eq. auto.
        - intros w. rewrite !updKey_eq. by intros [|]. }
      destruct Hst' as [->|[->| ->]]; cbn; eexists; (split; [done|]); try exact Hboth.
      eapply pair_ok_weaken; [|exact Hboth]. intros j w. destruct (decide (j = k)) as [->|]; [by rewrite updKey_eq|by rewrite updKey_ne].
    + apply runs_ret. split; [done|]. cbn [fst].
      assert (Hsm : forall o, (forall w, Vl k = Some w -> o = Some w) -> pair_ok (updKey V k o) p2).
      { intros o Ho. eapply (pair_ok_at Vs Vl V p2 k _ _ o Hp1 Hp2 H3 H4).
        - intros j Hne. by rewrite updKey_ne.
        - rewrite updKey_eq. auto.
        - intros w. rewrite updKey_eq. intros [|]; [done|auto]. }
      destruct Hst as [->|[->| ->]]; [|done|]; cbn; eexists; (split; [done|]).
      * apply Hsm. intros w Hw. destruct (Hex eq_refl) as [w' Hw']. destruct (H3 k); congruence.
      * eapply pair_ok_keep, Hsm. auto.
  - intros r p3 (Hs3 & V' & He & Hok3). apply runs_bind.
    assert (Hfin : forall p4, counted p3 p4 -> pair_same p p4 /\ exists V', remove_effect V k r.1 V' /\ pair_ok V' p4).
    { intros p4 Hc4. split; [|exists V'; split; [done|by eapply counted_ok]]. apply counted_same in Hc1, Hc4.
      etrans; [exact Hc1|]. etrans; [exact Hs2|]. by etrans. }
    destruct r as [st' skip]. cbn [fst] in *.
    destruct st'; first [apply runs_count; intros p4 Hc4 | apply runs_ret]; apply runs_ret; by apply Hfin.
Qed.

Lemma removeSync_spec (fuel : nat) V (p : Pair) k :
  (0 < fuel)%nat -> pair_ok V p -> is_bytes k ->
  runs (removeSync fuel k) p (fun st p' => pair_same p p' /\ exists V', remove_effect V k st V' /\ pair_ok V' p').
Proof.
  intros Hf Hok Hk. destruct fuel as [|fuel]; [lia|]. unfold removeSync. cbn [removeLoop]. apply runs_bind.
  eapply runs_mono; [by apply removeHashedKeyInternal_spec|]. intros r p' (Hs & V' & He & Hok'). cbv beta.
  rewrite bool_decide_eq_false_2; [|by intros E; rewrite E in He]. apply runs_ret. eauto.
Qed.

Lemma pairCouldExist_spec V (p : Pair) k :
  pair_ok V p -> is_bytes k ->
  runs (pairCouldExist k) p (fun b p' => pair_same p p' /\ pair_ok (if b then V else updKey V k None) p').
Proof.
  intros (Vs & Vl & H1 & H2 & H3 & H4) Hk. unfold pairCouldExist. apply runs_bind, runs_onSmall.
  eapply runs_mono; [exact (couldExist_promise Vs _ k H1 Hk)|]. intros b s (Hf & Hp).
  apply runs_bind. destruct b.
  - apply runs_ret, runs_bind, runs_ret, runs_ret. split; [by split_and!|]. by exists Vs, Vl.
  - apply runs_onLarge. eapply runs_mono; [exact (couldExist_promise Vl _ k H2 Hk)|]. intros b l (Hf' & Hp'). apply runs_bind.
    assert (Hv : forall p', promises (updKey Vs k None) (smallItemCache_ p') ->
      promises (if b then Vl else updKey Vl k None) (largeItemCache_ p') -> pair_ok (if b then V else updKey V k None) p').
    { intros p' Hps Hpl. destruct b.
      - eapply (pair_ok_keep V p' k), (pair_ok_at Vs Vl V p' k _ _ _ Hps Hpl H3 H4).
        + intros j Hne. by rewrite updKey_ne.
        + rewrite updKey_eq. auto.
        + intros w. rewrite updKey_eq. intros [|]; [done|auto].
      - eapply (pair_ok_at Vs Vl V p' k _ _ _ Hps Hpl H3 H4).
        + intros j Hne. by rewrite !updKey_ne.
        + rewrite updKey_eq. auto.
        + intros w. rewrite !updKey_eq. by intros [|]. }
    destruct b; [apply runs_ret|apply runs_count; intros p2 (Hc1 & Hc2 & Hc3)]; apply runs_ret.
    + split; [by split_and!|]. by apply Hv.
    + split; [split_and!; [done|by rewrite Hc2|by rewrite Hc3]|]. apply Hv; [by rewrite Hc3|by rewrite Hc2].
Qed.

Lemma pairWork_spec V (p : Pair) (large : bool) (i : nat) :
  pair_ok V p -> runs (pairWork large i) p (fun _ p' => pair_same p p' /\ pair_ok V p').
Proof.
  intros (Vs & Vl & H1 & H2 & H3 & H4). destruct large; cbn.
  - apply runs_onLarge. eapply runs_mono; [exact (work_promise Vl _ i H2)|]. intros _ l (Hf & Hp).
    split; [by split_and!|]. by exists Vs, Vl.
  - apply runs_onSmall. eapply runs_mono; [exact (work_promise Vs _ i H1)|]. intros _ l (Hf & Hp).
    split; [by split_and!|]. by exists Vs, Vl.
Qed.
End pair.
