(* ===== verification/EngineBigHash.v ===== *)
(** * BigHash is an engine

    The interface [Engine] of Navy implemented by BigHash, the engine for small
    items, with the laws of [EngineLaws]. A bucket that was lost to an error of
    the device keeps none of its keys, so that a failed remove removes. *)

From S2P Require Import Prelude Bytes BloomFilter BloomFilterSpec BucketStorage Bucket BucketSpec.
From S2P Require Import Device BigHash BigHashProofs BigHashSpec Runs Engine EngineProofs.
From stdpp Require Import base tactics numbers list.

#[local] Open Scope Z_scope.
#[local] Open Scope cachelib_scope.

Section bighash.
Context {D : Type} {DI : NavyDevice D} {DL : NavyDeviceLaws D} {FH : FollyHash} {CR : Crc32} {CL : Crc32Laws} {KH : KeyHasher}.
Notation BH := (BigHash D).
Context (checkExpired_ : Bucket.ExpiredCheck).

Definition BigHash_engine : Engine BH := {|
  eInsert k v t := BigHash.insert checkExpired_ (makeHK k) v;
  eLookup k := let! r := BigHash.lookup (makeHK k) in ret (r.1.1, default [] r.1.2, r.2);
  eRemove k := BigHash.remove (makeHK k);
  eCouldExist k := bh_couldExist (makeHK k);
  eEstimateWriteSize s _ _ := BigHash.estimateWriteSize s;
  eGetSize := BigHash.getSize;
  eGetMaxItemSize := BigHash.getMaxItemSize;
  eDrain _ := ret tt;
  eFlush _ := BigHash.flush;
  eReset now := BigHash.reset now;
  eWork _ := ret tt
|}.

Context (hash_range : forall k, is_u64 (hashBuffer k)).

(** The buckets in service hold nothing but the values of [L]. *)
Definition holds_only (L : bytes -> option bytes) (s : BH) (m : Z -> list entry) : Prop :=
  forall i e, 0 <= i < numBuckets_ s -> valid s i -> e ∈ m i ->
    keyHash (fst e) mod numBuckets_ s = i /\ fst e = makeHK (key (fst e)) /\ L (key (fst e)) = Some (snd e).

Definition bh_promises (L : bytes -> option bytes) (s : BH) : Prop := exists m, bh_inv s m /\ holds_only L s m.
Definition bh_fits (s : BH) (k v : bytes) (t : Z) : Prop :=
  is_bytes k /\ is_bytes v /\ zlen k + zlen v <= bucketSize_ s - 44.

Lemma steps_fits (s s' : BH) : steps_to s s' -> bh_fits s' = bh_fits s.
Proof. intros [(Hb & _) _]. unfold bh_fits. by rewrite Hb. Qed.

Lemma holds_only_steps L (s s' : BH) m : steps_to s s' -> holds_only L s m -> holds_only L s' m.
Proof.
  intros [(_ & _ & Hn & _) Hv] Ha i e Hi Hvi He. rewrite Hn in *. apply Ha; auto.
Qed.

(** An entry of another bucket has another key. *)
Lemma holds_only_other L (s : BH) m (k : bytes) (o : option bytes) (i : Z) (e : entry) :
  holds_only L s m -> 0 <= i < numBuckets_ s -> valid s i -> e ∈ m i -> key (fst e) <> k ->
  keyHash (fst e) mod numBuckets_ s = i /\ fst e = makeHK (key (fst e)) /\ updKey L k o (key (fst e)) = Some (snd e).
Proof. intros Ha Hi Hv He Hne. destruct (Ha i e Hi Hv He) as (H1 & H2 & H3). by rewrite updKey_ne. Qed.

Lemma other_bucket L (s : BH) m (k : bytes) (i : Z) (e : entry) :
  holds_only L s m -> 0 <= i < numBuckets_ s -> valid s i -> e ∈ m i -> bh_env s ->
  i <> getBucketId s (makeHK k) -> key (fst e) <> k.
Proof.
  intros Ha Hi Hv He Henv Hne Hk. apply Hne. destruct (Ha i e Hi Hv He) as (H1 & H2 & _).
  destruct (getBucketId_eq s (makeHK k) Henv) as [-> _]. rewrite <- H1, H2, Hk. done.
Qed.

(** The key is gone when its bucket is out of service. *)
Lemma holds_only_disabled L (s : BH) m (k : bytes) :
  holds_only L s m -> bh_env s -> ~ valid s (getBucketId s (makeHK k)) -> holds_only (updKey L k None) s m.
Proof.
  intros Ha Henv Hnv i e Hi Hv He. eapply holds_only_other; try done. eapply other_bucket; try done. by intros ->.
Qed.

Lemma bh_insert_law L (s : BH) k v t :
  bh_promises L s -> bh_fits s k v t ->
  runs (BigHash.insert checkExpired_ (makeHK k) v) s (fun st s' => bh_fits s' = bh_fits s /\
    (st = StatusOk /\ bh_promises (updKey L k (Some v)) s' \/
     (st = Rejected \/ st = Retry \/ st = DeviceError) /\ bh_promises L s')).
Proof using All.
  intros (m & Hi & Ha) (Hk & Hv & Hsz). set (hk := makeHK k). pose proof (inv_env _ _ Hi) as Henv.
  destruct (getBucketId_eq s hk Henv) as [Hbid Hb]. set (bid := getBucketId s hk) in *.
  destruct (put_parts checkExpired_ (bucketSize_ s - 24) hk v (m bid)) as [[ex ev] rest] eqn:Ep.
  assert (Hen : entry_ok (hk, v)) by (split; [done..|apply hash_range]).
  destruct (insert_run checkExpired_ s m hk v ex ev rest Hi Hen) as (st & s' & E & Hst & Hcase);
    [unfold esize; cbn in *; lia|done|].
  eapply runs_eq; [exact E|]. split; [by apply steps_fits|].
  destruct Hcase as [(-> & Hv' & Hi' & Hck & _)|(Hst' & _ & Hi' & _)]; [left|right].
  - split; [done|]. eexists. split; [exact Hi'|]. pose proof (holds_only_steps _ _ _ _ Hst Ha) as Ha'.
    assert (Hvb : valid s bid) by (unfold valid in *; by rewrite <- Hck).
    assert (Hnd : NoDup (m bid).*1) by (by apply (inv_nodup s)).
    destruct (put_parts_perm _ _ _ _ _ _ _ _ Hnd Ep) as [_ Hn].
    destruct (put_parts_ok _ _ _ _ _ _ _ _ Hnd Ep) as (_ & Hin & _).
    assert (Hnum : numBuckets_ s' = numBuckets_ s) by (apply Hst).
    intros i e Hir Hvi. unfold updm. fold hk. fold bid. destruct (Z.eqb_spec i bid) as [->|Hne].
    + intros [He| ->%list_elem_of_singleton]%elem_of_app.
      * eapply holds_only_other; [exact Ha'|done|done|by apply Hin|]. intros Ek. apply Hn.
        destruct (Ha bid e Hb Hvb (Hin e He)) as (_ & H2 & _). apply list_elem_of_fmap. exists e. split; [|done].
        rewrite H2, Ek. done.
      * cbn. rewrite updKey_eq, Hnum. split_and!; done.
    + intros He. eapply holds_only_other; [exact Ha'|done..|]. apply (other_bucket L s m k i e); try done; [lia|].
      apply Hst; [lia|done].
  - split; [tauto|]. exists m. split; [done|]. by eapply holds_only_steps.
Qed.

Lemma bh_lookup_law L (s : BH) k :
  bh_promises L s -> is_bytes k ->
  runs (let! r := BigHash.lookup (makeHK k) in ret (r.1.1, default [] r.1.2, r.2)) s (fun r s' =>
    bh_fits s' = bh_fits s /\ bh_promises L s' /\
    (r.1.1 = StatusOk /\ L k = Some r.1.2 \/ r.1.1 = NotFound \/ r.1.1 = DeviceError)).
Proof.
  intros (m & Hi & Ha) Hk. apply runs_bind.
  destruct (lookup_run s m (makeHK k) Hi Hk) as (st & v & s' & E & Hi' & Hst & _ & Hcase).
  eapply runs_eq; [exact E|]. apply runs_ret. split; [by apply steps_fits|].
  split; [exists m; split; [done|by eapply holds_only_steps]|]. cbn.
  destruct (getBucketId_eq s (makeHK k) (inv_env _ _ Hi)) as [Hbid Hb].
  destruct Hcase as [[Hv Hans]|(_ & _ & [[_ ->]|[_ ->]])]; [|auto..]. unfold answer in Hans.
  destruct (lookup_key _ _) as [v'|] eqn:El; [|injection Hans as -> _; auto]. injection Hans as -> ->. left.
  split; [done|]. apply lookup_key_In in El. destruct Hst as [_ Hmono].
  by destruct (Ha _ _ Hb (Hmono _ Hb Hv) El) as (_ & _ & ?).
Qed.

Lemma bh_remove_law L (s : BH) k :
  bh_promises L s -> is_bytes k ->
  runs (BigHash.remove (makeHK k)) s (fun st s' => bh_fits s' = bh_fits s /\ bh_promises (updKey L k None) s' /\
    (st = StatusOk \/ st = NotFound \/ st = DeviceError) /\ (st = StatusOk -> is_Some (L k))).
Proof.
  intros (m & Hi & Ha) Hk. pose proof (inv_env _ _ Hi) as Henv.
  destruct (remove_run s m (makeHK k) Hi Hk) as (st & s' & E & Hst & Hcase).
  eapply runs_eq; [exact E|]. split; [by apply steps_fits|]. pose proof (holds_only_steps _ _ _ _ Hst Ha) as Ha'.
  destruct (getBucketId_eq s (makeHK k) Henv) as [Hbid Hb]. set (bid := getBucketId s (makeHK k)) in *.
  assert (Hnum : numBuckets_ s' = numBuckets_ s) by (apply Hst).
  assert (Hother : forall i e, 0 <= i < numBuckets_ s' -> valid s' i -> e ∈ m i -> i <> bid -> key (fst e) <> k).
  { intros i e Hir Hv He Hne. apply (other_bucket L s m k i e); try done; [lia|]. apply Hst; [lia|done]. }
  destruct Hcase as [(-> & Hv' & v & El & Hi' & _)|[(-> & Hv' & El & Hi' & _)|(Hst' & Hv' & Hi' & _)]].
  - split; [|split; [auto|]].
    + eexists. split; [exact Hi'|]. intros i e Hir Hv. unfold updm. fold bid. destruct (Z.eqb_spec i bid) as [->|Hne].
      * intros [Hne He]%list_elem_of_filter. eapply holds_only_other; try done. intros Ek. apply Hne.
        destruct (Ha' bid e Hir Hv He) as (_ & -> & _). by rewrite Ek.
      * intros He. eapply holds_only_other; try done. by eapply Hother.
    + intros _. apply lookup_key_In in El. destruct Hst as [_ Hmono].
      destruct (Ha _ _ Hb (Hmono _ Hb Hv') El) as (_ & _ & HL). by exists v.
  - split; [|split; [auto|done]]. exists m. split; [done|]. intros i e Hir Hv He.
    eapply holds_only_other; try done. destruct (decide (i = bid)) as [->|Hne]; [|by eapply Hother].
    intros Ek. apply lookup_key_None in El. apply El. apply list_elem_of_fmap. exists e. split; [|done].
    destruct (Ha' bid e Hir Hv He) as (_ & -> & _). by rewrite Ek.
  - split; [|split; [tauto|by destruct Hst' as [-> | ->]]]. exists m. split; [done|]. intros i e Hir Hv He.
    eapply holds_only_other; try done. eapply Hother; try done. by intros ->.
Qed.
Lemma bh_couldExist_law L (s : BH) k :
  bh_promises L s -> is_bytes k ->
  runs (bh_couldExist (makeHK k)) s (fun b s' =>
    bh_fits s' = bh_fits s /\ bh_promises (if b then L else updKey L k None) s').
Proof.
  intros (m & Hi & Ha) Hk. pose proof (inv_env _ _ Hi) as Henv. set (hk := makeHK k).
  destruct (getBucketId_eq s hk Henv) as [_ Hb]. set (bid := getBucketId s hk) in *.
  assert (Hrej : exists r c, bfReject bid (keyHash hk) s = (Ok r, set_counters c s) /\
      (r = true -> valid s bid -> forall e, e ∈ m bid -> keyHash (fst e) <> keyHash hk)).
  { destruct (isBucketValid_run s bid Henv Hb) as [[Hv _]|[Hnv _]].
    - destruct (bfReject_run s m bid (keyHash hk) Hi Hb Hv) as (r & c & E & Hr). exists r, c. auto.
    - assert (Hi0 : bh_inv s (updm m bid [])).
      { destruct Hi as [He (km & Hbl & Hk') Hbu]. split; [done| |].
        - exists km. split; [done|]. intros i e Hir Hv. unfold updm. case_match; [by intros ?%not_elem_of_nil|auto].
        - intros i Hir Hv. unfold updm. destruct (Z.eqb_spec i bid) as [->|]; [done|auto]. }
      destruct (bfReject_total s bid (keyHash hk) (updm m bid []) Hi0 Hb) as (r & c & E). exists r, c. done. }
  destruct Hrej as (r & c & E & Hr). unfold bh_couldExist. apply runs_bind, runs_get. fold bid.
  apply runs_bind. eapply runs_eq; [exact E|]. cbv beta.
  assert (Hfin : forall c', bh_fits (set_counters c' (set_counters c s)) = bh_fits s /\
      bh_promises (if negb r then L else updKey L k None) (set_counters c' (set_counters c s))).
  { intros c'. split; [done|]. exists m. split; [done|]. destruct r; cbn [negb]; [|done].
    intros i e Hir Hv He. eapply holds_only_other; try done. destruct (decide (i = bid)) as [->|Hne].
    - intros Ek. apply (Hr eq_refl Hv e He). destruct (Ha bid e Hir Hv He) as (_ & -> & _). by rewrite Ek.
    - by apply (other_bucket L s m k i e). }
  destruct r; cbn [negb]; apply runs_bind.
  - unfold inc, add. apply runs_modify, runs_ret. apply Hfin.
  - apply runs_ret, runs_ret. apply (Hfin c).
Qed.

Definition BigHash_engine_laws : @EngineLaws BH BigHash_engine.
Proof using All.
  refine (@Build_EngineLaws BH BigHash_engine bh_promises bh_fits _ _ _ _ _).
  - apply bh_insert_law.
  - apply bh_lookup_law.
  - intros L s k Hp Hk. eapply runs_mono; [by apply bh_remove_law|]. intros st s' (H1 & H2 & H3 & _). done.
  - apply bh_couldExist_law.
  - intros L s i Hp. by apply runs_ret.
Defined.

Lemma BigHash_engine_exact : @ExactRemove BH BigHash_engine BigHash_engine_laws.
Proof.
  intros L s s' k Hp Hk E. pose proof (bh_remove_law L s k Hp Hk) as Hr. unfold runs in Hr.
  change (BigHash.remove (makeHK k) s = (Ok StatusOk, s')) in E. rewrite E in Hr. by apply Hr.
Qed.
End bighash.
