(* ===== verification/EngineBlock.v ===== *)
(** * The block cache is an engine

    The interface [Engine] of Navy implemented by the block cache, the engine
    for large items, with the laws of [EngineLaws]. *)

From S2P Require Import Prelude Bytes BloomFilter Device BigHash Region RegionPolicy RegionManager BlockIndex BlockCache Runs BlockCodec BlockCacheInv BlockCacheInsert BlockCacheLookup BlockCacheJobs BlockCacheSafety Engine EngineProofs.
From stdpp Require Import base tactics numbers list.

#[local] Open Scope Z_scope.
#[local] Open Scope cachelib_scope.

Section blockcache.
Context {P D X : Type} {IP : EvictionPolicy P} {LP : EvictionPolicyLaws P} {ID : BlockDevice D}.
Context {LD : BlockDeviceLaws D} {IX : Index X} {LX : IndexLaws X}.
Context (hashBuffer checksum : bytes -> Z) (ctx : Ctx).
Notation BC_ := (BC P D X).

Definition bcGetSize (s : BC_) : Z := u64 (numRegions_ (cfg (regionManager_ s)) * rmRegionSize_ (cfg (regionManager_ s))).
Definition bcGetMaxItemSize (s : BC_) : Z := u64 (rmRegionSize_ (cfg (regionManager_ s)) - descSize).

(** A job that has to wait is left for later. *)
Definition bcWork (i : nat) : M BC_ unit := fun s =>
  match bcRunJob hashBuffer checksum i s with
  | (Throw StillWaiting, _) => (Ok tt, s)
  | r => r
  end.

Definition BlockCache_engine : Engine BC_ := {|
  eInsert k v t := BlockCache.insert hashBuffer checksum ctx (BlockCache.makeHK hashBuffer k) v t;
  eLookup k := BlockCache.lookup checksum (BlockCache.makeHK hashBuffer k);
  eRemove k := BlockCache.remove checksum (BlockCache.makeHK hashBuffer k);
  eCouldExist k := BlockCache.couldExist (BlockCache.makeHK hashBuffer k);
  eEstimateWriteSize s k v := BlockCache.estimateWriteSize s (BlockCache.makeHK hashBuffer k) v;
  eGetSize := bcGetSize;
  eGetMaxItemSize := bcGetMaxItemSize;
  eDrain fuel := BlockCache.drain hashBuffer checksum fuel;
  eFlush fuel := BlockCache.flush hashBuffer checksum fuel ctx;
  eReset _ := bcReset;
  eWork := bcWork
|}.

Definition bc_promises (L : bytes -> option bytes) (s : BC_) : Prop :=
  exists bc rc, config_ok hashBuffer checksum bc rc /\ good hashBuffer checksum bc rc L s.
Definition bc_fits (s : BC_) : bytes -> bytes -> Z -> Prop := item_ok (bcfg s).

Lemma good_bcfg bc rc L (s : BC_) : good hashBuffer checksum bc rc L s -> bcfg s = bc.
Proof. intros [(G & I) _]. exact (i_bcfg I). Qed.

(** One operation of the block cache on its own. *)
Lemma perform_promise L (op : Op) (s : BC_) :
  bc_promises L s -> (forall bc rc, config_ok hashBuffer checksum bc rc -> bcfg s = bc -> op_ok bc rc op) ->
  op <> OReset ->
  exists out s' L', perform hashBuffer checksum op s = Ok (out, s') /\ answers L op out L' /\
    bc_promises L' s' /\ bc_fits s' = bc_fits s.
Proof.
  intros (bc & rc & C & Hg) Hop Hne. pose proof (good_bcfg _ _ _ _ Hg) as Eb.
  destruct (perform_good hashBuffer checksum bc rc L op s C Hg (Hop bc rc C Eb) ltac:(done)) as (out & s' & L' & E & Ha & Hg').
  exists out, s', L'. split_and!; [done..|by exists bc, rc|]. unfold bc_fits. by rewrite Eb, (good_bcfg _ _ _ _ Hg').
Qed.

Lemma output_inv {A} (f : A -> Out) (m : M BC_ A) (s s' : BC_) (out : Out) :
  output f m s = Ok (out, s') -> exists a, m s = (Ok a, s') /\ out = f a.
Proof. unfold output. destruct (m s) as [[a|] s1]; [|done]. intros [= <- <-]. eauto. Qed.

Definition BlockCache_engine_laws : @EngineLaws BC_ BlockCache_engine.
Proof.
  refine (@Build_EngineLaws BC_ BlockCache_engine bc_promises bc_fits _ _ _ _ _).
  - intros L s k v t Hp Hf. destruct (perform_promise L (OInsert ctx k v t) s Hp) as (out & s' & L' & E & Ha & Hp' & Hs).
    { by intros bc rc _ <-. }
    { done. }
    apply output_inv in E as (st & E & ->). eapply runs_eq; [exact E|]. split; [done|]. inversion Ha; subst; [by left|right].
    split; [tauto|done].
  - intros L s k Hp Hk. destruct (perform_promise L (OLookup k) s Hp) as (out & s' & L' & E & Ha & Hp' & Hs); [done..|].
    apply output_inv in E as (r & E & ->). eapply runs_eq; [exact E|]. split; [done|]. inversion Ha; subst; cbn; auto.
  - intros L s k Hp Hk. destruct (perform_promise L (ORemove k) s Hp) as (out & s' & L' & E & Ha & Hp' & Hs); [done..|].
    apply output_inv in E as (st & E & ->). eapply runs_eq; [exact E|]. split; [done|]. inversion Ha; subst. split; [done|tauto].
  - intros L s k (bc & rc & C & Hg) Hk. pose proof (good_bcfg _ _ _ _ Hg) as Eb. destruct Hg as [(G & I) Hsh].
    eapply runs_mono; [exact (block_couldExist_spec hashBuffer checksum bc rc L G s k I)|]. intros b s' (I' & Ea).
    assert (Hg' : good hashBuffer checksum bc rc (if b then L else updKey L k None) s').
    { split; [exists G; by destruct b|by rewrite Ea]. }
    split; [|by exists bc, rc]. unfold bc_fits. by rewrite Eb, (good_bcfg _ _ _ _ Hg').
  - intros L s i Hp. destruct (perform_promise L (OJob i) s Hp) as (out & s' & L' & E & Ha & Hp' & Hs); [done..|].
    unfold eWork, BlockCache_engine, bcWork, runs. unfold perform in E. inversion Ha; subst;
      destruct (bcRunJob hashBuffer checksum i s) as [[[]|[]] s1]; try done; simplify_eq; done.
Defined.
End blockcache.
