(* ===== verification/Driver.v ===== *)
(** * The driver of Navy

    [src/cachelib/navy/driver/Driver.{h,cpp}], with the jobs of
    [engine/EnginePair.cpp]. The driver admits inserts, picks the pair of
    engines of a key and hands asynchronous requests to the scheduler;
    synchronous lookups and removes go to the engines at once. The callbacks
    of asynchronous requests are the [Event]s of the jobs that complete.

    The selector of pairs and the hash of a key are parameters; what the
    admission policy answers to the estimated write size is an argument of
    the call. Shutting down, recovery, random draws and statistics are left
    out. *)

From S2P Require Import Prelude Bytes BigHash Scheduler Engine.
From stdpp Require Import base tactics numbers list.

#[local] Open Scope Z_scope.
#[local] Open Scope cachelib_scope.

(** The functions given to the scheduler, with what they remember. *)
Inductive DriverJob : Type :=
| JobInsert (k v : bytes) (t : Z) (skipInsertion : bool)
| JobLookup (k : bytes) (skipLargeItemCache : bool)
| JobRemove (k : bytes) (skipSmallItemCache : bool).

Inductive DriverCounter : Type :=
  rejectedCount_ | rejectedConcurrentInsertsCount_ | rejectedParcelMemoryCount_ | rejectedBytes_ | acceptedCount_ |
  acceptedBytes_.

#[export] Instance DriverCounter_eq_dec : EqDecision DriverCounter.
Proof. solve_decision. Defined.

Record DriverConfig : Type := mkDriverConfig {
  maxConcurrentInserts_ : Z;
  maxParcelMemory_ : Z;
  maxKeySize_ : Z;
  useEstimatedWriteSize_ : bool;
  selector_ : option (bytes -> Z);
  hasAdmissionPolicy_ : bool
}.

Record Driver (S L : Type) : Type := mkDriver {
  dcfg : DriverConfig;
  enginePairs_ : list (EnginePair S L);
  scheduler_ : Scheduler DriverJob;
  parcelMemory_ : Z;
  concurrentInserts_ : Z;
  driverCounters_ : DriverCounter -> Z;
  byEngine_ : DriverCounter -> list Z
}.
Arguments mkDriver {S L}. Arguments dcfg {S L}. Arguments enginePairs_ {S L}. Arguments scheduler_ {S L}.
Arguments parcelMemory_ {S L}. Arguments concurrentInserts_ {S L}. Arguments driverCounters_ {S L}. Arguments byEngine_ {S L}.

(** What a job's callback is told, or that the job has to run again. *)
Inductive Event : Type :=
| Inserted (k v : bytes) (st : Status)
| LookedUp (k : bytes) (r : Status * bytes * Z)
| Removed (k : bytes) (st : Status)
| Rescheduled
| Idle.

Section driver.
Context {S L : Type} {IS : Engine S} {IL : Engine L}.
Context (hashBuffer : bytes -> Z).
Notation Drv := (Driver S L).

(** The config is validated and the vectors by engine are kept for several
    pairs only. *)
Definition validateDriver (c : DriverConfig) (pairs : list (EnginePair S L)) : res unit :=
  match pairs with
  | [] => Throw InvalidArgument
  | _ =>
      match fold_right (fun p (r : res unit) => match validatePair p with Ok _ => r | Throw e => Throw e end)
              (Ok tt) pairs with
      | Throw e => Throw e
      | Ok _ =>
          match selector_ c with
          | None => if (1 <? length pairs)%nat then Throw InvalidArgument else Ok tt
          | Some _ => Ok tt
          end
      end
  end.

Definition newDriver (c : DriverConfig) (pairs : list (EnginePair S L)) (shardPower : Z) : res Drv :=
  match validateDriver c pairs with
  | Throw e => Throw e
  | Ok _ =>
      Ok (mkDriver c pairs (newScheduler shardPower) 0 0 (fun _ => 0)
            (fun _ => if (1 <? length pairs)%nat then replicate (length pairs) 0 else []))
  end.

Definition set_pairs (ps : list (EnginePair S L)) (s : Drv) : Drv :=
  mkDriver (dcfg s) ps (scheduler_ s) (parcelMemory_ s) (concurrentInserts_ s) (driverCounters_ s) (byEngine_ s).
Definition set_scheduler (q : Scheduler DriverJob) (s : Drv) : Drv :=
  mkDriver (dcfg s) (enginePairs_ s) q (parcelMemory_ s) (concurrentInserts_ s) (driverCounters_ s) (byEngine_ s).
Definition set_loads (parcel inserts : Z) (s : Drv) : Drv :=
  mkDriver (dcfg s) (enginePairs_ s) (scheduler_ s) parcel inserts (driverCounters_ s) (byEngine_ s).
Definition set_driverCounters (f : DriverCounter -> Z) (g : DriverCounter -> list Z) (s : Drv) : Drv :=
  mkDriver (dcfg s) (enginePairs_ s) (scheduler_ s) (parcelMemory_ s) (concurrentInserts_ s) f g.

Definition driverCount (c : DriverCounter) (n : Z) : M Drv unit :=
  modify (fun s => set_driverCounters
    (fun c' => if decide (c' = c) then u64 (driverCounters_ s c' + n) else driverCounters_ s c') (byEngine_ s) s).

(** Nothing when the vector is not kept. *)
Definition engineCount (c : DriverCounter) (i n : Z) : M Drv unit :=
  modify (fun s => set_driverCounters (driverCounters_ s)
    (fun c' => if decide (c' = c) then alter (fun x => u64 (x + n)) (Z.to_nat i) (byEngine_ s c') else byEngine_ s c') s).

Definition onScheduler {A} (m : M (Scheduler DriverJob) A) : M Drv A := fun s =>
  let '(r, q) := m (scheduler_ s) in (r, set_scheduler q s).

Definition selectEnginePair (s : Drv) (k : bytes) : Z :=
  match selector_ (dcfg s) with Some f => f k | None => 0 end.

(** [enginePairs_[i]]. *)
Definition onPair {A} (i : Z) (m : M (EnginePair S L) A) : M Drv A := fun s =>
  match enginePairs_ s !! Z.to_nat i with
  | None => (Throw UndefinedBehavior, s)
  | Some p => let '(r, p') := m p in (r, set_pairs (<[Z.to_nat i := p']> (enginePairs_ s)) s)
  end.

Definition onPairOf {A} (k : bytes) (m : M (EnginePair S L) A) : M Drv A :=
  let! s := get in onPair (selectEnginePair s k) m.

Definition driverIsItemLarge (k v : bytes) : M Drv bool := onPairOf k (gets (fun p => pairIsItemLarge p k v)).

Definition driverCouldExist (k : bytes) : M Drv bool := onPairOf k (pairCouldExist k).

Definition driverEstimateWriteSize (k v : bytes) : M Drv Z :=
  let! s := get in
  if useEstimatedWriteSize_ (dcfg s) then onPairOf k (gets (fun p => pairEstimateWriteSize p k v))
  else ret (u64 (zlen k + zlen v)).

Definition addLoads (parcel inserts : Z) : M Drv unit :=
  modify (fun s => set_loads (u64 (parcelMemory_ s + parcel)) (u64 (concurrentInserts_ s + inserts)) s).

(** [accept] is what the policy answers to the estimated write size. *)
Definition admissionTest (accept : Z -> bool) (k v : bytes) : M Drv bool :=
  let parcelSize := u64 (zlen k + zlen v) in
  do! addLoads parcelSize 1 in
  let! s := get in
  let idx := selectEnginePair s k in
  let! ok := (if hasAdmissionPolicy_ (dcfg s) then let! n := driverEstimateWriteSize k v in ret (accept n) else ret true) in
  let! admitted :=
    (if ok : bool then
       if concurrentInserts_ s <=? maxConcurrentInserts_ (dcfg s) then
         if parcelMemory_ s <=? maxParcelMemory_ (dcfg s) then
           do! driverCount acceptedCount_ 1 in
           do! driverCount acceptedBytes_ parcelSize in
           ret true
         else
           do! driverCount rejectedParcelMemoryCount_ 1 in
           do! engineCount rejectedParcelMemoryCount_ idx 1 in
           ret false
       else
         do! driverCount rejectedConcurrentInsertsCount_ 1 in
         do! engineCount rejectedConcurrentInsertsCount_ idx 1 in
         ret false
     else ret false) in
  if admitted : bool then ret true else
  do! driverCount rejectedCount_ 1 in
  do! driverCount rejectedBytes_ parcelSize in
  do! engineCount rejectedCount_ idx 1 in
  do! engineCount rejectedBytes_ idx parcelSize in
  do! addLoads (- parcelSize) (-1) in
  ret false.

Definition insertAsync (accept : Z -> bool) (k v : bytes) (t : Z) : M Drv Status :=
  let! s := get in
  if maxKeySize_ (dcfg s) <? zlen k then
    let size := u64 (zlen k + zlen v) in
    do! driverCount rejectedCount_ 1 in
    do! driverCount rejectedBytes_ size in
    do! engineCount rejectedCount_ (selectEnginePair s k) 1 in
    do! engineCount rejectedBytes_ (selectEnginePair s k) size in
    ret Rejected
  else
    let! ok := admissionTest accept k v in
    if negb ok then ret Rejected else
    do! onPairOf k (pairCount pInsertCount_) in
    do! onScheduler (enqueueWithKey (JobInsert k v t false) (hashBuffer k)) in
    ret StatusOk.

Definition lookupAsync (k : bytes) : M Drv unit :=
  do! onPairOf k (ret tt) in
  onScheduler (enqueueWithKey (JobLookup k false) (hashBuffer k)).

Definition removeAsync (k : bytes) : M Drv unit :=
  do! onPairOf k (ret tt) in
  onScheduler (enqueueWithKey (JobRemove k false) (hashBuffer k)).

Definition driverLookup (fuel : nat) (k : bytes) : M Drv (Status * bytes * Z) := onPairOf k (lookupSync fuel k).
Definition driverRemove (fuel : nat) (k : bytes) : M Drv Status := onPairOf k (removeSync fuel k).

(** A thread takes up the submitted request [i]. The callback of an insert
    takes its parcel off the loads. *)
Definition runRequest (i : nat) : M Drv Event :=
  let! s := get in
  match submitted_ (scheduler_ s) !! i with
  | None => ret Idle
  | Some (_, JobInsert k v t skip) =>
      let! r := onPairOf k (insertInternal k v skip t) in
      if bool_decide (r.1 = Retry) then
        do! onScheduler (reschedule i (JobInsert k v t r.2)) in ret Rescheduled
      else
        do! addLoads (- u64 (zlen k + zlen v)) (-1) in
        do! onScheduler (complete i) in
        ret (Inserted k v r.1)
  | Some (_, JobLookup k skip) =>
      let! r := onPairOf k (lookupInternal k skip) in
      if bool_decide (r.1.1.1 = Retry) then
        do! onScheduler (reschedule i (JobLookup k r.2)) in ret Rescheduled
      else
        do! onScheduler (complete i) in
        ret (LookedUp k r.1)
  | Some (_, JobRemove k skip) =>
      let! r := onPairOf k (removeHashedKeyInternal k skip) in
      if bool_decide (r.1 = Retry) then
        do! onScheduler (reschedule i (JobRemove k r.2)) in ret Rescheduled
      else
        do! onScheduler (complete i) in
        ret (Removed k r.1)
  end.

(** The threads of an engine of pair [i]. *)
Definition driverWork (i : Z) (large : bool) (j : nat) : M Drv unit :=
  let! s := get in
  if (Z.to_nat i <? length (enginePairs_ s))%nat then onPair i (pairWork large j) else ret tt.
End driver.
