(* ===== verification/DriverSpec.v ===== *)
(** * The driver of Navy: theorems

    What the driver promises over any engines that keep their laws, and Navy as
    a whole: BigHash and the block cache under one driver. *)

From S2P Require Import Prelude Bytes BloomFilter Device BigHash BigHashProofs BigHashClaims Region RegionPolicy RegionPolicyProofs BlockIndex RegionManager BlockCache Runs.
From S2P Require Import BlockCodec BlockCacheInv BlockCacheMoves BlockCacheSafety Scheduler Engine EngineProofs EngineBigHash EngineBlock Driver.
From stdpp Require Import base tactics numbers list.

#[local] Open Scope Z_scope.
#[local] Open Scope cachelib_scope.

(** ** What the driver of Navy promises

    Sequences of requests to a driver over empty pairs of engines that keep
    their laws, with the threads of the scheduler and of the engines at work
    between them: lookups return the last value inserted, and the loads the
    driver admits inserts by are exact and within their limits. *)

(** ** Sequences of requests *)

Inductive DriverOp : Type :=
| DInsert (accept : Z -> bool) (k v : bytes) (t : Z)
| DLookupAsync (k : bytes)
| DRemoveAsync (k : bytes)
| DLookup (k : bytes)
| DRemove (k : bytes)
| DCouldExist (k : bytes)
| DRun (i : nat)
| DWork (i : Z) (large : bool) (j : nat).

Inductive DriverOut : Type :=
| OutStatus (st : Status)
| OutFound (r : Status * bytes * Z)
| OutBool (b : bool)
| OutEvent (e : Event)
| OutDone.

Section run.
Context {S L : Type} {IS : Engine S} {IL : Engine L} (hashBuffer : bytes -> Z) (fuel : nat).
Notation Drv := (Driver S L).

Definition driverStep (op : DriverOp) : M Drv DriverOut :=
  match op with
  | DInsert accept k v t => let! st := insertAsync hashBuffer accept k v t in ret (OutStatus st)
  | DLookupAsync k => do! lookupAsync hashBuffer k in ret OutDone
  | DRemoveAsync k => do! removeAsync hashBuffer k in ret OutDone
  | DLookup k => let! r := driverLookup fuel k in ret (OutFound r)
  | DRemove k => let! st := driverRemove fuel k in ret (OutStatus st)
  | DCouldExist k => let! b := driverCouldExist k in ret (OutBool b)
  | DRun i => let! e := runRequest i in ret (OutEvent e)
  | DWork i large j => do! driverWork i large j in ret OutDone
  end.

Fixpoint driverRun (ops : list DriverOp) : M Drv (list DriverOut) :=
  match ops with
  | [] => ret []
  | op :: ops =>
      let! o := driverStep op in
      let! os := driverRun ops in
      ret (o :: os)
  end.
End run.

(** [V] has the last value inserted for each key and not removed since. An
    insert takes effect when its job completes. *)
Inductive dAnswers (V : bytes -> option bytes) : DriverOp -> DriverOut -> (bytes -> option bytes) -> Prop :=
| da_queued accept k v t : dAnswers V (DInsert accept k v t) (OutStatus StatusOk) V
| da_rejected accept k v t : dAnswers V (DInsert accept k v t) (OutStatus Rejected) V
| da_lookupAsync k : dAnswers V (DLookupAsync k) OutDone V
| da_removeAsync k : dAnswers V (DRemoveAsync k) OutDone V
| da_lookup k r : lookup_answer V k r -> dAnswers V (DLookup k) (OutFound r) V
| da_remove k st V' : remove_effect V k st V' -> dAnswers V (DRemove k) (OutStatus st) V'
| da_maybe k : dAnswers V (DCouldExist k) (OutBool true) V
| da_absent k : dAnswers V (DCouldExist k) (OutBool false) (updKey V k None)
| da_inserted i k v st V' : insert_effect V k v st V' -> dAnswers V (DRun i) (OutEvent (Inserted k v st)) V'
| da_lookedUp i k r : lookup_answer V k r -> dAnswers V (DRun i) (OutEvent (LookedUp k r)) V
| da_removed i k st V' : remove_effect V k st V' -> dAnswers V (DRun i) (OutEvent (Removed k st)) V'
| da_again i : dAnswers V (DRun i) (OutEvent Rescheduled) V
| da_idle i : dAnswers V (DRun i) (OutEvent Idle) V
| da_work i large j : dAnswers V (DWork i large j) OutDone V.

Inductive dCoherent (V : bytes -> option bytes) : list DriverOp -> list DriverOut -> Prop :=
| dc_nil : dCoherent V [] []
| dc_cons op out V' ops outs : dAnswers V op out V' -> dCoherent V' ops outs -> dCoherent V (op :: ops) (out :: outs).

(** ** The loads *)

Definition parcelOf (r : Z * DriverJob) : Z :=
  match r.2 with JobInsert k v _ _ => zlen k + zlen v | _ => 0 end.
Definition insertOf (r : Z * DriverJob) : Z := match r.2 with JobInsert _ _ _ _ => 1 | _ => 0 end.

Section proofs.
Context {S L : Type} {IS : Engine S} {LS : EngineLaws S} {XS : ExactRemove S} {IL : Engine L} {LL : EngineLaws L}.
Context (hashBuffer : bytes -> Z) (c : DriverConfig) (ps0 : list (EnginePair S L)) (fuel : nat).
Notation Drv := (Driver S L).

Definition sel (k : bytes) : Z := match selector_ c with Some f => f k | None => 0 end.

(** The selector gives a pair that exists. *)
Definition key_ok (k : bytes) : Prop := is_bytes k /\ 0 <= sel k < Z.of_nat (length ps0).
Definition item_in (k v : bytes) (t : Z) : Prop :=
  key_ok k /\ zlen k + zlen v < 2 ^ 63 /\ forall p, ps0 !! Z.to_nat (sel k) = Some p -> pair_fits p k v t.

Record limits_ok : Prop := {
  lo_inserts : 0 <= maxConcurrentInserts_ c < 2 ^ 32;
  lo_parcels : 0 <= maxParcelMemory_ c < 2 ^ 63
}.

Definition job_ok (r : Z * DriverJob) : Prop :=
  match r.2 with
  | JobInsert k v t skip => skip = false /\ item_in k v t
  | JobLookup k skip => skip = false /\ key_ok k
  | JobRemove k skip => skip = false /\ key_ok k
  end.

Definition restrict (i : Z) (V : bytes -> option bytes) (k : bytes) : option bytes :=
  if decide (sel k = i) then V k else None.

(** [ei] inserts of [ep] bytes are counted that are not in the scheduler. *)
Record driver_ok (ei ep : Z) (V : bytes -> option bytes) (s : Drv) : Prop := {
  dk_cfg : dcfg s = c;
  dk_len : length (enginePairs_ s) = length ps0;
  dk_pairs : forall i p0 p, ps0 !! i = Some p0 -> enginePairs_ s !! i = Some p ->
    pair_same p0 p /\ pair_ok (restrict (Z.of_nat i) V) p;
  dk_sched : exists todo, sched_ok (scheduler_ s) todo;
  dk_jobs : Forall job_ok (allReqs (scheduler_ s));
  dk_inserts : concurrentInserts_ s = sumZ (insertOf <$> allReqs (scheduler_ s)) + ei;
  dk_parcels : parcelMemory_ s = sumZ (parcelOf <$> allReqs (scheduler_ s)) + ep;
  dk_max : concurrentInserts_ s <= maxConcurrentInserts_ c /\ parcelMemory_ s <= maxParcelMemory_ c
}.

(** A change of the value of one key. *)
Definition change (V : bytes -> option bytes) (k : bytes) (e : option (option bytes)) : bytes -> option bytes :=
  match e with None => V | Some o => updKey V k o end.

Lemma restrict_change (V : bytes -> option bytes) (k : bytes) e (p : EnginePair S L) :
  pair_ok (change (restrict (sel k) V) k e) p -> pair_ok (restrict (sel k) (change V k e)) p.
Proof.
  apply pair_ok_weaken. intros j v. destruct e as [o|]; cbn; [|done]. unfold restrict, updKey.
  destruct (decide (j = k)) as [->|]; [|done]. by rewrite decide_True.
Qed.
Lemma restrict_other (V : bytes -> option bytes) (k : bytes) e (i : Z) (p : EnginePair S L) :
  i <> sel k -> pair_ok (restrict i V) p -> pair_ok (restrict i (change V k e)) p.
Proof.
  intros Hi. apply pair_ok_weaken. intros j v. destruct e as [o|]; cbn; [|done]. unfold restrict, updKey.
  destruct (decide (j = k)) as [->|]; [|done]. by rewrite decide_False.
Qed.

(** An operation on the pair of a key. *)
Lemma onPairOf_spec {A} ei ep V (s : Drv) (k : bytes) (m : M (EnginePair S L) A) (Q : A -> option (option bytes) -> Prop) :
  driver_ok ei ep V s -> key_ok k ->
  (forall p0 p, ps0 !! Z.to_nat (sel k) = Some p0 -> pair_same p0 p -> pair_ok (restrict (sel k) V) p ->
     runs m p (fun a p' => pair_same p p' /\ exists e, Q a e /\ pair_ok (change (restrict (sel k) V) k e) p')) ->
  runs (onPairOf k m) s (fun a s' => exists e ps, s' = set_pairs ps s /\ Q a e /\ driver_ok ei ep (change V k e) s').
Proof.
  intros Hd [Hk Hsel] Hm. unfold onPairOf. apply runs_bind, runs_get. destruct (Hd) as [Hc Hlen Hpairs Hs Hj Hi Hp Hx].
  assert (Esel : selectEnginePair s k = sel k) by (unfold selectEnginePair; by rewrite Hc). rewrite Esel.
  destruct (lookup_lt_is_Some_2 ps0 (Z.to_nat (sel k))) as [p0 Hp0]; [lia|].
  destruct (lookup_lt_is_Some_2 (enginePairs_ s) (Z.to_nat (sel k))) as [p Hpk]; [lia|].
  destruct (Hpairs _ _ _ Hp0 Hpk) as [Hsame Hok]. rewrite Z2Nat.id in Hok by lia.
  unfold onPair, runs. rewrite Hpk. specialize (Hm p0 p Hp0 Hsame Hok). unfold runs in Hm.
  destruct (m p) as [[a|] p']; [|done]. destruct Hm as (Hs' & e & HQ & Hok'). exists e. eexists.
  split; [done|]. split; [done|]. split; cbn; try done; [by rewrite length_insert|].
  intros i q0 q Hq0 Hq. destruct (decide (i = Z.to_nat (sel k))) as [->|Hne].
  - rewrite list_lookup_insert_eq in Hq by (by eapply lookup_lt_Some). injection Hq as <-.
    rewrite Hp0 in Hq0. injection Hq0 as <-. split; [by etrans|]. rewrite Z2Nat.id by lia. by apply restrict_change.
  - rewrite list_lookup_insert_ne in Hq by done. destruct (Hpairs _ _ _ Hq0 Hq) as [H1 H2]. split; [done|].
    apply restrict_other; [lia|done].
Qed.
(** ** Loads and statistics *)

(** Only statistics differ. *)
Definition calm (s s' : Drv) : Prop :=
  dcfg s' = dcfg s /\ enginePairs_ s' = enginePairs_ s /\ scheduler_ s' = scheduler_ s /\
  parcelMemory_ s' = parcelMemory_ s /\ concurrentInserts_ s' = concurrentInserts_ s.

#[local] Instance calm_preorder : PreOrder calm.
Proof.
  split; [by intros s|]. intros s1 s2 s3 (H1 & H2 & H3 & H4 & H5) (K1 & K2 & K3 & K4 & K5). split_and!; congruence.
Qed.

Lemma calm_ok ei ep V (s s' : Drv) : calm s s' -> driver_ok ei ep V s -> driver_ok ei ep V s'.
Proof.
  intros (H1 & H2 & H3 & H4 & H5) [K1 K2 K3 K4 K5 K6 K7 K8]. split; rewrite ?H1, ?H2, ?H3, ?H4, ?H5; done.
Qed.

Lemma runs_driverCount (d : DriverCounter) (n : Z) (s : Drv) (Q : unit -> Drv -> Prop) :
  (forall s', calm s s' -> Q tt s') -> runs (driverCount d n) s Q.
Proof. intros HQ. by apply HQ. Qed.
Lemma runs_engineCount (d : DriverCounter) (i n : Z) (s : Drv) (Q : unit -> Drv -> Prop) :
  (forall s', calm s s' -> Q tt s') -> runs (engineCount d i n) s Q.
Proof. intros HQ. by apply HQ. Qed.

Lemma insertOf_range (r : Z * DriverJob) : 0 <= insertOf r <= 1.
Proof. destruct r as [key []]; cbn; lia. Qed.
Lemma parcelOf_nonneg (r : Z * DriverJob) : 0 <= parcelOf r.
Proof. destruct r as [key []]; cbn; try lia. pose proof (zlen_nonneg k). pose proof (zlen_nonneg v). lia. Qed.
Lemma sum_nonneg (f : Z * DriverJob -> Z) (l : list (Z * DriverJob)) : (forall r, 0 <= f r) -> 0 <= sumZ (f <$> l).
Proof. intros Hf. apply sumZ_nonneg. intros x (r & -> & _)%list_elem_of_fmap. apply Hf. Qed.

Lemma runs_estimate (s : Drv) (k v : bytes) (Q : Z -> Drv -> Prop) :
  dcfg s = c -> length (enginePairs_ s) = length ps0 -> key_ok k -> (forall n s', calm s s' -> Q n s') -> runs (driverEstimateWriteSize k v) s Q.
Proof.
  intros Hc Hlen [_ Hsel] HQ. unfold driverEstimateWriteSize. apply runs_bind, runs_get.
  destruct (useEstimatedWriteSize_ _); [|by apply runs_ret, HQ].
  unfold onPairOf. apply runs_bind, runs_get. unfold onPair, runs.
  assert (Esel : selectEnginePair s k = sel k) by (unfold selectEnginePair; by rewrite Hc). rewrite Esel.
  destruct (lookup_lt_is_Some_2 (enginePairs_ s) (Z.to_nat (sel k))) as [p Hp]; [lia|]. rewrite Hp. cbn. apply HQ.
  split_and!; try done. cbn. by rewrite list_insert_id.
Qed.

(** The loads go back to what they were. *)
Lemma loads_back (x n : Z) : is_u64 x -> u64 (u64 (x + n) + - n) = x.
Proof.
  intros Hx. unfold u64, is_u64 in *. rewrite Zplus_mod_idemp_l. replace (x + n + - n) with x by lia. by apply Z.mod_small.
Qed.

(** A rejected insert takes itself off the loads. *)
Lemma reject_spec V (s s2 : Drv) (size idx : Z) :
  driver_ok 0 0 V s -> is_u64 (parcelMemory_ s) -> is_u64 (concurrentInserts_ s) ->
  calm (set_loads (u64 (parcelMemory_ s + size)) (u64 (concurrentInserts_ s + 1)) s) s2 ->
  runs (do! driverCount rejectedCount_ 1 in
        do! driverCount rejectedBytes_ size in
        do! engineCount rejectedCount_ idx 1 in
        do! engineCount rejectedBytes_ idx size in
        do! addLoads (- size) (-1) in ret false) s2 (fun b s' => driver_ok (Z.b2z b) (Z.b2z b * size) V s').
Proof.
  intros [K1 K2 K3 K4 K5 K6 K7 K8] Hu1 Hu2 Hc2. apply runs_bind, runs_driverCount. intros s3 Hc3.
  apply runs_bind, runs_driverCount. intros s4 Hc4. apply runs_bind, runs_engineCount. intros s5 Hc5.
  apply runs_bind, runs_engineCount. intros s6 Hc6. apply runs_bind, runs_modify, runs_ret.
  assert (Hc26 : calm s2 s6) by (do 3 (etrans; [eassumption|]); done).
  pose proof (transitivity Hc2 Hc26) as (E1 & E2 & E3 & E4 & E5). cbn in E4, E5. rewrite E4, E5, !loads_back by done.
  cbn [Z.b2z]. rewrite Z.mul_0_l. split; cbn; rewrite ?E1, ?E2, ?E3; done.
Qed.

Lemma admissionTest_spec V (s : Drv) (accept : Z -> bool) (k v : bytes) (t : Z) :
  limits_ok -> driver_ok 0 0 V s -> item_in k v t ->
  runs (admissionTest accept k v) s (fun b s' => driver_ok (Z.b2z b) (Z.b2z b * (zlen k + zlen v)) V s').
Proof.
  intros [Hl1 Hl2] Hd (Hk & Hsz & _). pose proof (zlen_nonneg k). pose proof (zlen_nonneg v).
  destruct (Hd) as [Hc Hlen Hpairs Hs Hj Hi Hp [Hm1 Hm2]]. rewrite Z.add_0_r in Hi, Hp.
  pose proof (sum_nonneg insertOf (allReqs (scheduler_ s)) (fun r => proj1 (insertOf_range r))) as Hn1.
  pose proof (sum_nonneg parcelOf (allReqs (scheduler_ s)) parcelOf_nonneg) as Hn2.
  set (size := zlen k + zlen v) in *. unfold admissionTest. fold size.
  rewrite (u64_small size) by (unfold is_u64; lia). apply runs_bind, runs_modify.
  set (s1 := set_loads _ _ s). apply runs_bind, runs_get. cbv beta zeta. change (dcfg s1) with (dcfg s). rewrite Hc.
  assert (Eb : parcelMemory_ s1 = parcelMemory_ s + size /\ concurrentInserts_ s1 = concurrentInserts_ s + 1).
  { cbn. rewrite !u64_small by (unfold is_u64; lia). done. }
  pose proof (fun s2 => reject_spec V s s2 size (selectEnginePair s1 k) Hd) as Hback.
  assert (Hok1 : driver_ok 1 size V s1 \/ maxConcurrentInserts_ c < concurrentInserts_ s1 \/ maxParcelMemory_ c < parcelMemory_ s1).
  { destruct (decide (concurrentInserts_ s1 <= maxConcurrentInserts_ c /\ parcelMemory_ s1 <= maxParcelMemory_ c)) as [Hle|Hgt];
      [left|right; lia]. split; try done; [cbn [scheduler_ s1 set_loads]; lia..]. }
  apply runs_bind.
  eapply (runs_mono _ _ (fun _ s2 => calm s1 s2)).
  { destruct (hasAdmissionPolicy_ c); [|by apply runs_ret]. apply runs_bind.
    apply runs_estimate; [done..|]. intros n s2 Hc2. by apply runs_ret. }
  intros ok s2 Hc2. cbv beta. apply runs_bind. destruct ok; [|apply runs_ret; apply Hback; try done; unfold is_u64; lia].
  destruct (Z.leb_spec (concurrentInserts_ s1) (maxConcurrentInserts_ c)).
  - destruct (Z.leb_spec (parcelMemory_ s1) (maxParcelMemory_ c)).
    + apply runs_bind, runs_driverCount. intros s3 Hc3. apply runs_bind, runs_driverCount. intros s4 Hc4.
      apply runs_ret, runs_ret. cbn [Z.b2z]. rewrite Z.mul_1_l. destruct Hok1 as [Hok1|]; [|lia].
      eapply calm_ok; [|exact Hok1]. do 2 (etrans; [eassumption|]). done.
    + apply runs_bind, runs_driverCount. intros s3 Hc3. apply runs_bind, runs_engineCount. intros s4 Hc4.
      apply runs_ret. apply Hback; [unfold is_u64; lia..|]. do 2 (etrans; [eassumption|]). done.
  - apply runs_bind, runs_driverCount. intros s3 Hc3. apply runs_bind, runs_engineCount. intros s4 Hc4.
    apply runs_ret. apply Hback; [unfold is_u64; lia..|]. do 2 (etrans; [eassumption|]). done.
Qed.
(** ** The scheduler's requests *)

Lemma runs_onScheduler {A} (m : M (Scheduler DriverJob) A) (s : Drv) (Q : A -> Drv -> Prop) :
  runs m (scheduler_ s) (fun a q => Q a (set_scheduler q s)) -> runs (onScheduler m) s Q.
Proof. unfold runs, onScheduler. by destruct (m (scheduler_ s)) as [[]]. Qed.

Lemma sum_perm (f : Z * DriverJob -> Z) (l l' : list (Z * DriverJob)) : l ≡ₚ l' -> sumZ (f <$> l) = sumZ (f <$> l').
Proof. intros Hp. apply sumZ_perm. by rewrite Hp. Qed.
Lemma sum_cons (f : Z * DriverJob -> Z) (r : Z * DriverJob) (l : list (Z * DriverJob)) :
  sumZ (f <$> r :: l) = f r + sumZ (f <$> l).
Proof. done. Qed.

Lemma enqueue_spec V (s : Drv) (job : DriverJob) (key : Z) (Q : unit -> Drv -> Prop) :
  driver_ok (insertOf (key, job)) (parcelOf (key, job)) V s -> job_ok (key, job) ->
  (forall s', driver_ok 0 0 V s' -> Q tt s') -> runs (onScheduler (enqueueWithKey job key)) s Q.
Proof.
  intros [K1 K2 K3 [todo Hs] K5 K6 K7 K8] Hjob HQ. apply runs_onScheduler.
  destruct (enqueue_ok _ _ job key Hs) as (q & E & Hs' & _ & Hp). eapply runs_eq; [exact E|]. apply HQ.
  rewrite (Permutation_app_comm _ [(key, job)]) in Hp. cbn in Hp.
  split; cbn; try done.
  - by eexists.
  - rewrite Hp. by apply Forall_cons.
  - rewrite (sum_perm _ _ _ Hp), sum_cons. lia.
  - rewrite (sum_perm _ _ _ Hp), sum_cons. lia.
Qed.

Lemma complete_spec V (s : Drv) (i : nat) (key : Z) (job : DriverJob) (Q : unit -> Drv -> Prop) :
  submitted_ (scheduler_ s) !! i = Some (key, job) ->
  driver_ok (- insertOf (key, job)) (- parcelOf (key, job)) V s ->
  (forall s', driver_ok 0 0 V s' -> Q tt s') -> runs (onScheduler (complete i)) s Q.
Proof.
  intros Hi [K1 K2 K3 [todo Hs] K5 K6 K7 K8] HQ. apply runs_onScheduler.
  destruct (complete_ok _ _ i key job Hs Hi) as (q & E & Hs' & _ & Hp & _). eapply runs_eq; [exact E|]. apply HQ.
  rewrite (sum_perm _ _ _ Hp), sum_cons in K6. rewrite (sum_perm _ _ _ Hp), sum_cons in K7. rewrite Hp in K5.
  apply Forall_cons in K5 as [_ K5]. split; cbn; try done; [by eexists|lia..].
Qed.

Lemma reschedule_spec V (s : Drv) (i : nat) (key : Z) (job : DriverJob) (Q : unit -> Drv -> Prop) :
  submitted_ (scheduler_ s) !! i = Some (key, job) -> driver_ok 0 0 V s ->
  (forall s', driver_ok 0 0 V s' -> Q tt s') -> runs (onScheduler (reschedule i job)) s Q.
Proof.
  intros Hi [K1 K2 K3 [todo Hs] K5 K6 K7 K8] HQ. apply runs_onScheduler.
  destruct (reschedule_ok _ _ i key job job Hs Hi) as (q & E & Hs' & _ & rest & Hp & Hp'). eapply runs_eq; [exact E|]. apply HQ.
  assert (Hpq : allReqs q ≡ₚ allReqs (scheduler_ s)) by (by rewrite Hp, Hp').
  split; cbn; try done; [by eexists|by rewrite Hpq|by rewrite (sum_perm _ _ _ Hpq)..].
Qed.

Lemma submitted_job_ok V (s : Drv) (i : nat) (r : Z * DriverJob) :
  driver_ok 0 0 V s -> submitted_ (scheduler_ s) !! i = Some r -> job_ok r.
Proof.
  intros Hd Hi. pose proof (dk_jobs _ _ _ _ Hd) as Hj. apply Forall_app in Hj as [Hj _].
  by eapply Forall_lookup_1.
Qed.

(** ** Effects of the pairs, as changes of one key *)

Lemma insert_effect_change W k v st V' :
  insert_effect W k v st V' -> exists e, V' = change W k e /\ forall V, insert_effect V k v st (change V k e).
Proof.
  destruct st; cbn; try done; [intros ->; by exists (Some (Some v))|intros ->; by exists None..|].
  intros [-> | ->]; [exists None|exists (Some (Some v))]; cbn; auto.
Qed.
Lemma remove_effect_change W k st V' :
  remove_effect W k st V' -> exists e, V' = change W k e /\ forall V, remove_effect V k st (change V k e).
Proof. destruct st; cbn; try done; intros ->; [by exists (Some None)..|by exists None]. Qed.

Lemma lookup_answer_restrict V k r : lookup_answer (restrict (sel k) V) k r -> lookup_answer V k r.
Proof. intros [[H1 H2]|]; [left|by right]. split; [done|]. unfold restrict in H2. by rewrite decide_True in H2. Qed.

Lemma insert_on_pair V (s : Drv) k v t :
  driver_ok 0 0 V s -> item_in k v t ->
  runs (onPairOf k (insertInternal k v false t)) s (fun r s' => exists V' ps, s' = set_pairs ps s /\
    (r.1 = Retry -> r.2 = false) /\ insert_effect V k v r.1 V' /\ driver_ok 0 0 V' s').
Proof using XS.
  intros Hd (Hk & _ & Hfit). eapply runs_mono.
  { apply (onPairOf_spec 0 0 V s k _ (fun r e => (r.1 = Retry -> r.2 = false) /\ forall V, insert_effect V k v r.1 (change V k e)));
      [done..|]. intros p0 p Hp0 Hsame Hok. eapply runs_mono; [apply (insertInternal_spec _ p k v t Hok)|].
    - by eapply pair_same_fits, Hfit.
    - intros r p' (Hs & Hr & V' & He & Hok'). split; [done|].
      apply insert_effect_change in He as (e & -> & He). by exists e. }
  intros r s' (e & ps & -> & (Hr & He) & Hd'). exists (change V k e), ps. auto.
Qed.

Lemma lookup_on_pair (m : M (EnginePair S L) (Status * bytes * Z)) V (s : Drv) k :
  (forall W p, pair_ok W p -> runs m p (fun r p' => pair_same p p' /\ pair_ok W p' /\ lookup_answer W k r)) ->
  driver_ok 0 0 V s -> key_ok k ->
  runs (onPairOf k m) s (fun r s' => (exists ps, s' = set_pairs ps s) /\ lookup_answer V k r /\ driver_ok 0 0 V s').
Proof.
  intros Hm Hd Hk. eapply runs_mono.
  { apply (onPairOf_spec 0 0 V s k _ (fun r e => e = None /\ lookup_answer V k r)); [done..|].
    intros p0 p Hp0 Hsame Hok. eapply runs_mono; [by apply Hm|]. intros r p' (Hs & Hok' & Hr). split; [done|].
    exists None. split; [|done]. split; [done|]. by apply lookup_answer_restrict. }
  intros r s' (e & ps & -> & (-> & Hr) & Hd'). eauto.
Qed.

Lemma remove_on_pair {A} (st_of : A -> Status) (m : M (EnginePair S L) A) V (s : Drv) k :
  (forall W p, pair_ok W p -> runs m p (fun r p' => pair_same p p' /\ exists W', remove_effect W k (st_of r) W' /\ pair_ok W' p')) ->
  driver_ok 0 0 V s -> key_ok k ->
  runs (onPairOf k m) s (fun r s' => exists V' ps, s' = set_pairs ps s /\ remove_effect V k (st_of r) V' /\ driver_ok 0 0 V' s').
Proof.
  intros Hm Hd Hk. eapply runs_mono.
  { apply (onPairOf_spec 0 0 V s k _ (fun r e => forall V, remove_effect V k (st_of r) (change V k e))); [done..|].
    intros p0 p Hp0 Hsame Hok. eapply runs_mono; [by apply Hm|]. intros r p' (Hs & W' & He & Hok'). split; [done|].
    apply remove_effect_change in He as (e & -> & He). by exists e. }
  intros r s' (e & ps & -> & He & Hd'). exists (change V k e), ps. auto.
Qed.
(** ** The requests of a client *)

Lemma quiet_on_pair {A} (m : M (EnginePair S L) A) ei ep V (s : Drv) k (Q : A -> Drv -> Prop) :
  driver_ok ei ep V s -> key_ok k ->
  (forall p, runs m p (fun a p' => counted p p' /\ forall s', driver_ok ei ep V s' -> Q a s')) ->
  runs (onPairOf k m) s Q.
Proof.
  intros Hd Hk Hm. eapply runs_mono.
  { apply (onPairOf_spec ei ep V s k m (fun a e => e = None /\ forall s', driver_ok ei ep V s' -> Q a s')); [done..|].
    intros p0 p _ _ Hok. eapply runs_mono; [apply Hm|]. intros a p' [Hc HQ]. split; [by apply counted_same|].
    exists None. split; [done|]. by eapply counted_ok. }
  intros a s' (e & ps & _ & (-> & HQ) & Hd'). by apply HQ.
Qed.

Lemma counted_refl (p : EnginePair S L) : counted p p.
Proof. done. Qed.

Lemma insertAsync_spec V (s : Drv) (accept : Z -> bool) k v t :
  limits_ok -> driver_ok 0 0 V s -> item_in k v t ->
  runs (insertAsync hashBuffer accept k v t) s (fun st s' => (st = StatusOk \/ st = Rejected) /\ driver_ok 0 0 V s').
Proof.
  intros Hl Hd Hi. unfold insertAsync. apply runs_bind, runs_get. cbv beta zeta. destruct (_ <? _).
  { apply runs_bind, runs_driverCount. intros s1 H1. apply runs_bind, runs_driverCount. intros s2 H2.
    apply runs_bind, runs_engineCount. intros s3 H3. apply runs_bind, runs_engineCount. intros s4 H4. apply runs_ret.
    split; [by right|]. eapply calm_ok; [|exact Hd]. do 3 (etrans; [eassumption|]). done. }
  apply runs_bind. eapply runs_mono; [by apply (admissionTest_spec V s accept k v t)|]. intros b s1 Hd1. cbv beta.
  destruct b; cbn [negb]; [|apply runs_ret; by auto]. cbn [Z.b2z] in Hd1. rewrite Z.mul_1_l in Hd1.
  apply runs_bind. eapply quiet_on_pair; [exact Hd1|apply Hi|]. intros p. apply runs_count. intros p' Hc. split; [done|].
  intros s2 Hd2. apply runs_bind. eapply enqueue_spec; [exact Hd2|done|]. intros s3 Hd3. apply runs_ret. auto.
Qed.

Lemma async_spec V (s : Drv) (job : DriverJob) k :
  (job = JobLookup k false \/ job = JobRemove k false) -> driver_ok 0 0 V s -> key_ok k ->
  runs (do! onPairOf k (ret tt) in onScheduler (enqueueWithKey job (hashBuffer k))) s (fun _ s' => driver_ok 0 0 V s').
Proof.
  intros Hj Hd Hk. apply runs_bind. eapply quiet_on_pair; [exact Hd|done|]. intros p. apply runs_ret. split; [done|].
  intros s1 Hd1. destruct Hj as [-> | ->]; (eapply enqueue_spec; [exact Hd1|done|done]).
Qed.

Lemma couldExist_on_pair V (s : Drv) k :
  driver_ok 0 0 V s -> key_ok k ->
  runs (driverCouldExist k) s (fun b s' => driver_ok 0 0 (if b then V else updKey V k None) s').
Proof.
  intros Hd Hk. eapply runs_mono.
  { apply (onPairOf_spec 0 0 V s k _ (fun (b : bool) e => e = if b then None else Some None)); [done..|].
    intros p0 p _ _ Hok. eapply runs_mono; [apply (pairCouldExist_spec _ p k Hok), Hk|].
    intros b p' [Hs Hok']. split; [done|]. eexists. split; [done|]. by destruct b. }
  intros b s' (e & ps & _ & -> & Hd'). by destruct b.
Qed.

Lemma driverWork_spec V (s : Drv) (i : Z) (large : bool) (j : nat) :
  driver_ok 0 0 V s -> runs (driverWork i large j) s (fun _ s' => driver_ok 0 0 V s').
Proof.
  intros Hd. unfold driverWork. apply runs_bind, runs_get. destruct (Nat.ltb_spec (Z.to_nat i) (length (enginePairs_ s)));
    [|by apply runs_ret].
  destruct (Hd) as [K1 K2 K3 K4 K5 K6 K7 K8].
  destruct (lookup_lt_is_Some_2 (enginePairs_ s) (Z.to_nat i)) as [p Hp]; [done|].
  destruct (lookup_lt_is_Some_2 ps0 (Z.to_nat i)) as [p0 Hp0]; [lia|].
  destruct (K3 _ _ _ Hp0 Hp) as [Hsame Hok]. unfold onPair, runs. rewrite Hp.
  pose proof (pairWork_spec _ p large j Hok) as Hw. unfold runs in Hw. destruct (pairWork large j p) as [[[]|] p']; [|done].
  destruct Hw as [Hs Hok']. split; cbn; try done; [by rewrite length_insert|].
  intros n q0 q Hq0 Hq. destruct (decide (n = Z.to_nat i)) as [->|Hne].
  - rewrite list_lookup_insert_eq in Hq by done. injection Hq as <-. rewrite Hp0 in Hq0. injection Hq0 as <-.
    split; [by etrans|done].
  - rewrite list_lookup_insert_ne in Hq by done. by apply K3.
Qed.

(** ** A request that is taken up *)

Lemma addLoads_spec V (s : Drv) (i : nat) (key : Z) (k v : bytes) (t : Z) (skip : bool) (Q : unit -> Drv -> Prop) :
  limits_ok -> submitted_ (scheduler_ s) !! i = Some (key, JobInsert k v t skip) -> driver_ok 0 0 V s ->
  (forall s', scheduler_ s' = scheduler_ s -> driver_ok (-1) (- (zlen k + zlen v)) V s' -> Q tt s') ->
  runs (addLoads (- u64 (zlen k + zlen v)) (-1)) s Q.
Proof.
  intros [Hl1 Hl2] Hi Hd HQ. destruct (submitted_job_ok V s i _ Hd Hi) as (_ & _ & Hsz & _). cbn in Hsz.
  destruct Hd as [K1 K2 K3 [todo Hs] K5 K6 K7 [K8 K9]]. pose proof (zlen_nonneg k). pose proof (zlen_nonneg v).
  destruct (complete_ok _ _ i key _ Hs Hi) as (q & _ & _ & _ & Hp & _).
  pose proof (sum_nonneg insertOf (allReqs q) (fun r => proj1 (insertOf_range r))).
  pose proof (sum_nonneg parcelOf (allReqs q) parcelOf_nonneg).
  pose proof K6 as K6'. pose proof K7 as K7'.
  rewrite (sum_perm _ _ _ Hp), sum_cons in K6'. rewrite (sum_perm _ _ _ Hp), sum_cons in K7'. cbn in K6', K7'.
  apply runs_modify, HQ; [done|]. rewrite (u64_small (zlen k + zlen v)) by (unfold is_u64; lia).
  rewrite !u64_small by (unfold is_u64; lia). split; cbn; try done; [by eexists|lia..].
Qed.

Lemma runRequest_spec V (s : Drv) (i : nat) :
  limits_ok -> driver_ok 0 0 V s ->
  runs (runRequest i) s (fun e s' => exists V', dAnswers V (DRun i) (OutEvent e) V' /\ driver_ok 0 0 V' s').
Proof using XS.
  intros Hl Hd. unfold runRequest. apply runs_bind, runs_get.
  destruct (submitted_ (scheduler_ s) !! i) as [[key job]|] eqn:Hi; [|apply runs_ret; exists V; split; [constructor|done]].
  pose proof (submitted_job_ok V s i _ Hd Hi) as Hj. destruct job as [k v t skip|k skip|k skip]; destruct Hj as [-> Hj];
    apply runs_bind.
  - eapply runs_mono; [by apply (insert_on_pair V s k v t)|]. intros r s1 (V' & ps & -> & Hr & He & Hd1). cbv beta.
    case_bool_decide as Hretry.
    + rewrite Hretry in He. cbn in He. subst V'. rewrite (Hr Hretry).
      apply runs_bind. eapply reschedule_spec; [exact Hi|exact Hd1|]. intros s2 Hd2. apply runs_ret. exists V.
      split; [constructor|done].
    + apply runs_bind. eapply (addLoads_spec V'); [done|exact Hi|exact Hd1|]. intros s2 Es Hd2. apply runs_bind.
      eapply (complete_spec V'); [rewrite Es; exact Hi|exact Hd2|]. intros s3 Hd3. apply runs_ret. exists V'.
      split; [by constructor|done].
  - eapply (runs_mono _ _ (fun r s' => (exists ps, s' = set_pairs ps s) /\ lookup_answer V k r.1 /\ driver_ok 0 0 V s')).
    { eapply runs_mono.
      { apply (onPairOf_spec 0 0 V s k _ (fun r e => e = None /\ lookup_answer V k r.1)); [done..|].
        intros p0 p _ _ Hok. eapply runs_mono; [apply (lookupInternal_spec _ p k Hok), Hj|]. intros r p' (Hs & Hok' & Hr).
        split; [done|]. exists None. split; [|done]. split; [done|]. by apply lookup_answer_restrict. }
      intros r s' (e & ps & -> & (-> & Hr) & Hd'). eauto. }
    intros r s1 ((ps & ->) & Hr & Hd1). cbv beta. rewrite bool_decide_eq_false_2 by (by eapply answer_done).
    apply runs_bind. eapply (complete_spec V); [exact Hi|exact Hd1|]. intros s2 Hd2. apply runs_ret. exists V.
    split; [by constructor|done].
  - eapply runs_mono; [apply (remove_on_pair fst _ V s k); [|done..]|].
    { intros W p Hok. eapply runs_mono; [by apply removeHashedKeyInternal_spec, Hj|]. done. }
    intros r s1 (V' & ps & -> & He & Hd1). cbv beta. rewrite bool_decide_eq_false_2 by (intros E; by rewrite E in He).
    apply runs_bind. eapply (complete_spec V'); [exact Hi|exact Hd1|]. intros s2 Hd2. apply runs_ret. exists V'.
    split; [by constructor|done].
Qed.

(** ** Sequences *)

Definition driver_op_ok (op : DriverOp) : Prop :=
  match op with
  | DInsert _ k v t => item_in k v t
  | DLookupAsync k | DRemoveAsync k | DLookup k | DRemove k | DCouldExist k => key_ok k
  | DRun _ | DWork _ _ _ => True
  end.

Lemma driverStep_spec V (s : Drv) (op : DriverOp) :
  limits_ok -> (0 < fuel)%nat -> driver_ok 0 0 V s -> driver_op_ok op ->
  runs (driverStep hashBuffer fuel op) s (fun o s' => exists V', dAnswers V op o V' /\ driver_ok 0 0 V' s').
Proof using XS.
  intros Hl Hf Hd Hop. destruct op; cbn [driverStep driver_op_ok] in *; apply runs_bind.
  - eapply runs_mono; [by apply (insertAsync_spec V)|]. intros st s' [Hst Hd']. apply runs_ret. exists V.
    split; [|done]. destruct Hst as [-> | ->]; constructor.
  - eapply runs_mono; [apply (async_spec V s (JobLookup k false) k); auto|]. intros [] s' Hd'. apply runs_ret. exists V.
    split; [constructor|done].
  - eapply runs_mono; [apply (async_spec V s (JobRemove k false) k); auto|]. intros [] s' Hd'. apply runs_ret. exists V.
    split; [constructor|done].
  - eapply runs_mono; [apply (lookup_on_pair _ V s k); [|done..]|].
    { intros W p Hok. apply lookupSync_spec; [done..|apply Hop]. }
    intros r s' (_ & Hr & Hd'). apply runs_ret. exists V. split; [by constructor|done].
  - eapply runs_mono; [apply (remove_on_pair (fun st => st) _ V s k); [|done..]|].
    { intros W p Hok. apply removeSync_spec; [done..|apply Hop]. }
    intros st s' (V' & _ & _ & He & Hd'). apply runs_ret. exists V'. split; [by constructor|done].
  - eapply runs_mono; [by apply (couldExist_on_pair V)|]. intros b s' Hd'. apply runs_ret. eexists. split; [|exact Hd'].
    destruct b; constructor.
  - eapply runs_mono; [by apply (runRequest_spec V)|]. intros e s' (V' & Ha & Hd'). apply runs_ret. eauto.
  - eapply runs_mono; [by apply (driverWork_spec V)|]. intros [] s' Hd'. apply runs_ret. exists V. split; [constructor|done].
Qed.

Lemma driverRun_spec V (s : Drv) (ops : list DriverOp) :
  limits_ok -> (0 < fuel)%nat -> driver_ok 0 0 V s -> Forall driver_op_ok ops ->
  exists outs s' V', driverRun hashBuffer fuel ops s = (Ok outs, s') /\ dCoherent V ops outs /\ driver_ok 0 0 V' s'.
Proof using XS.
  intros Hl Hf Hd Hops. revert V s Hd. induction Hops as [|op ops Hop _ IH]; intros V s Hd.
  { exists [], s, V. split_and!; [done|constructor|done]. }
  destruct (runs_result _ _ _ (driverStep_spec V s op Hl Hf Hd Hop)) as (o & s1 & E1 & V1 & Ha & Hd1).
  destruct (IH V1 s1 Hd1) as (os & s2 & V2 & E2 & Hc & Hd2). exists (o :: os), s2, V2.
  cbn [driverRun]. unfold bind. rewrite E1, E2. split_and!; [done|by econstructor|done].
Qed.

Lemma newDriver_ok (power : Z) (s : Drv) :
  limits_ok -> 0 <= power -> (forall p, p ∈ ps0 -> pair_ok (fun _ => None) p) ->
  newDriver c ps0 power = Ok s -> driver_ok 0 0 (fun _ => None) s.
Proof.
  intros [Hl1 Hl2] Hpw Hempty E. unfold newDriver in E. destruct (validateDriver c ps0); [|done]. injection E as <-.
  assert (Hall : allReqs (newScheduler (J := DriverJob) power) = []).
  { unfold allReqs. cbn. by induction (Z.to_nat _). }
  pose proof (newScheduler_ok (J := DriverJob) power Hpw) as Hq. set (q := newScheduler power) in *.
  clearbody q. split; cbn; rewrite ?Hall; try done; [|by eexists|lia].
  intros i p0 p Hp0 Hp. rewrite Hp0 in Hp. injection Hp as <-. split; [done|].
  eapply pair_ok_weaken; [|apply Hempty; by eapply list_elem_of_lookup_2]. done.
Qed.
End proofs.

(** ** Navy as a whole

    The theorems of the driver over any engines that keep their laws, and a
    driver with one pair: BigHash for items up to 20 bytes, the block cache for
    the others, each on a memory device. *)

Section claims.
Context {S L : Type} {IS : Engine S} {LS : EngineLaws S} {XS : ExactRemove S} {IL : Engine L} {LL : EngineLaws L}.
Context (hashBuffer : bytes -> Z) (c : DriverConfig) (ps : list (EnginePair S L)) (fuel : nat) (power : Z).

(** What is assumed of a driver: limits that fit their types, empty pairs that
    pass validation. *)
Record setup : Prop := {
  st_limits : limits_ok c;
  st_power : 0 <= power;
  st_fuel : (0 < fuel)%nat;
  st_valid : validateDriver c ps = Ok tt;
  st_empty : forall p, p ∈ ps -> pair_ok (fun _ => None) p
}.

Lemma setup_new : setup -> exists s, newDriver c ps power = Ok s /\ driver_ok c ps 0 0 (fun _ => None) s.
Proof.
  intros [H1 H2 H3 H4 H5]. unfold newDriver. rewrite H4. eexists. split; [done|]. eapply (newDriver_ok _ _ power); try done.
  unfold newDriver. by rewrite H4.
Qed.

(** C3. Navy serves no stale value. From a driver over empty pairs of
    engines, any sequence of inserts (admitted or not), asynchronous and
    synchronous lookups and removes and existence checks, with requests and
    the jobs of the engines taken up in any order between them, runs without
    an exception or undefined behaviour, and its answers are coherent: a
    lookup that returns a value returns the one of the last insert of the key
    that took effect, whichever engine the values of the key went to, and none
    after a remove that succeeded; a negative existence check is right. An
    insert that fails leaves the old value or, if the other engine could not
    be cleaned up, may leave the new one. This is for engines that keep the
    laws of [EngineLaws]: BigHash does whatever transfers fail; the block cache
    does over a device whose reads do not fail and with an expiry check and a
    reinsertion policy that do not throw ([config_ok]), and not with one that
    throws. Inserts are of items that fit their engines. *)
Theorem navy_no_stale_reads (ops : list DriverOp) :
  setup -> Forall (driver_op_ok c ps) ops ->
  exists s0 outs s, newDriver c ps power = Ok s0 /\ driverRun hashBuffer fuel ops s0 = (Ok outs, s) /\
    dCoherent (fun _ => None) ops outs.
Proof using XS.
  intros Hs Hops. destruct (setup_new Hs) as (s0 & E0 & Hd).
  destruct (driverRun_spec hashBuffer c ps fuel _ s0 ops (st_limits Hs) (st_fuel Hs) Hd Hops) as (outs & s & V & E & Hc & _).
  by exists s0, outs, s.
Qed.

(** C39. The loads by which the driver admits inserts are exact: after any
    sequence of requests, however many were rejected, rescheduled or
    completed, the count of concurrent inserts is the number of inserts in the
    scheduler and the parcel memory the bytes of their keys and values, and
    neither exceeds its limit. *)
Theorem driver_loads_exact (ops : list DriverOp) (s0 s : Driver S L) (outs : list DriverOut) :
  setup -> Forall (driver_op_ok c ps) ops ->
  newDriver c ps power = Ok s0 -> driverRun hashBuffer fuel ops s0 = (Ok outs, s) ->
  concurrentInserts_ s = sumZ (insertOf <$> allReqs (scheduler_ s)) /\
  parcelMemory_ s = sumZ (parcelOf <$> allReqs (scheduler_ s)) /\
  0 <= concurrentInserts_ s <= maxConcurrentInserts_ c /\ 0 <= parcelMemory_ s <= maxParcelMemory_ c.
Proof using XS.
  intros Hs Hops E0 E. destruct (setup_new Hs) as (s0' & E0' & Hd). rewrite E0 in E0'. injection E0' as <-.
  destruct (driverRun_spec hashBuffer c ps fuel _ s0 ops (st_limits Hs) (st_fuel Hs) Hd Hops) as (outs' & s' & V & E' & _ & Hd').
  rewrite E in E'. injection E' as <- <-. destruct Hd' as [_ _ _ _ _ Hi Hp [Hm1 Hm2]]. rewrite Z.add_0_r in Hi, Hp.
  pose proof (sum_nonneg insertOf (allReqs (scheduler_ s)) (fun r => proj1 (insertOf_range r))).
  pose proof (sum_nonneg parcelOf (allReqs (scheduler_ s)) parcelOf_nonneg). lia.
Qed.
End claims.

(** ** One pair of engines *)
Module NavyDemo.
Notation Small := (BigHash (Device MemoryDevice)).
Notation Large := (BC Fifo.t (Device MemoryDevice) SparseMap.t).

Definition hash : bytes -> Z := demoKeyHasher.

Lemma hash_range (k : bytes) : is_u64 (hash k).
Proof. apply Z.mod_pos_bound. lia. Qed.

#[export] Instance small : Engine Small := BigHash_engine None.
#[export] Instance small_laws : EngineLaws Small := BigHash_engine_laws None hash_range.
#[export] Instance small_exact : ExactRemove Small := BigHash_engine_exact None hash_range.
#[export] Instance large : Engine Large := BlockCache_engine hash Demo.crc Demo.ctx.
#[export] Instance large_laws : EngineLaws Large := BlockCache_engine_laws hash Demo.crc Demo.ctx.

Lemma navy_config : config_ok hash Demo.crc Demo.bc Demo.rc.
Proof. destruct Demo.demo_config. split; try done. apply hash_range. Qed.

Definition cfg : DriverConfig := mkDriverConfig 2 40 16 true None true.

Definition pairs (b : Large) : list (EnginePair Small Large) := [newPair (Some demoEngine) (Some b) 20].

Definition yes (_ : Z) : bool := true.

(** A small item replaces a large one and the other way round; an insert is
    rejected for the load, one has to be retried. *)
Definition ops : list DriverOp :=
  [DInsert yes [1] [10; 11] 0; DLookupAsync [1]; DRun 0; DRun 0; DInsert yes [1] (replicate 30 7) 0;
   DInsert yes [2] (replicate 30 8) 0; DRun 0; DWork 0 true 0; DRun 0; DLookup [1]; DInsert yes [1] [5] 3; DRun 0;
   DLookup [1]; DRemove [1]; DLookup [1]; DCouldExist [9]].

Definition run : res (list DriverOut) :=
  match newBC Demo.bc Demo.rc Demo.dev Demo.pol Demo.ix Demo.bufs [1%nat] with
  | Ok b =>
      match newDriver cfg (pairs b) 2 with
      | Ok s => fst (driverRun hash 1 ops s)
      | Throw e => Throw e
      end
  | Throw e => Throw e
  end.

Example run_outputs : run = Ok
  [OutStatus StatusOk; OutDone; OutEvent (Inserted [1] [10; 11] StatusOk); OutEvent (LookedUp [1] (StatusOk, [10; 11], 0));
   OutStatus StatusOk; OutStatus Rejected; OutEvent Rescheduled; OutDone;
   OutEvent (Inserted [1] (replicate 30 7) StatusOk); OutFound (StatusOk, replicate 30 7, 0); OutStatus StatusOk;
   OutEvent (Inserted [1] [5] StatusOk); OutFound (StatusOk, [5], 0); OutStatus StatusOk; OutFound (NotFound, [], 0);
   OutBool false].
Proof. vm_compute. reflexivity. Qed.

Lemma pairs_setup (b : Large) :
  newBC Demo.bc Demo.rc Demo.dev Demo.pol Demo.ix Demo.bufs [1%nat] = Ok b ->
  bc_promises hash Demo.crc (fun _ => None) b -> setup cfg (pairs b) 1 2.
Proof.
  intros E Hb. split; try (cbn; lia).
  - split; cbn; lia.
  - vm_compute. done.
  - intros p ->%list_elem_of_singleton. exists (fun _ => None), (fun _ => None). cbn. split_and!; try done; [|auto|].
    + exists (fun _ => []). split; [apply demo_new|]. intros i e _ _ He. by apply not_elem_of_nil in He.
    + by intros k v [|].
Qed.

Lemma navy_ops_ok (b : Large) :
  newBC Demo.bc Demo.rc Demo.dev Demo.pol Demo.ix Demo.bufs [1%nat] = Ok b ->
  bcfg b = Demo.bc -> Forall (driver_op_ok cfg (pairs b)) ops.
Proof.
  intros E Eb. assert (Hk : forall k, forallb (fun x => (0 <=? x) && (x <? 256)) k = true -> key_ok cfg (pairs b) k).
  { intros k Hk. split; [by apply small_bytes|cbn; lia]. }
  repeat (apply Forall_cons; split); try apply Forall_nil_2; cbn [driver_op_ok]; try done; try (by apply Hk).
  all: split; [by apply Hk|split; [vm_compute; done|]]; cbn; intros p [= <-]; split; [by apply small_bytes|].
  all: cbn; unfold bh_fits, bc_fits, BlockCacheInsert.item_ok; rewrite ?Eb;
    repeat split; try (by apply small_bytes); try (vm_compute; done); unfold is_u32; lia.
Qed.
End NavyDemo.

#[local] Existing Instances NavyDemo.small NavyDemo.small_laws NavyDemo.small_exact NavyDemo.large NavyDemo.large_laws.

Lemma navy_no_stale_reads_witness :
  exists (b : NavyDemo.Large) s0 outs s, newDriver NavyDemo.cfg (NavyDemo.pairs b) 2 = Ok s0 /\
    driverRun NavyDemo.hash 1 NavyDemo.ops s0 = (Ok outs, s) /\ dCoherent (fun _ => None) NavyDemo.ops outs.
Proof.
  destruct (newBC_good NavyDemo.hash Demo.crc Demo.bc Demo.rc NavyDemo.navy_config _ _ _ _ _ Demo.parts) as (b & E & Hg).
  exists b. apply (navy_no_stale_reads NavyDemo.hash NavyDemo.cfg (NavyDemo.pairs b) 1 2 NavyDemo.ops).
  - apply NavyDemo.pairs_setup; [exact E|]. exists Demo.bc, Demo.rc. split; [apply NavyDemo.navy_config|exact Hg].
  - apply NavyDemo.navy_ops_ok; [exact E|]. exact (good_bcfg _ _ _ _ _ _ Hg).
Defined.

Lemma driver_loads_exact_witness :
  exists s : Driver NavyDemo.Small NavyDemo.Large,
    concurrentInserts_ s = sumZ (insertOf <$> allReqs (scheduler_ s)) /\
    parcelMemory_ s = sumZ (parcelOf <$> allReqs (scheduler_ s)) /\
    0 <= concurrentInserts_ s <= 2 /\ 0 <= parcelMemory_ s <= 40.
Proof.
  destruct (newBC_good NavyDemo.hash Demo.crc Demo.bc Demo.rc NavyDemo.navy_config _ _ _ _ _ Demo.parts) as (b & E & Hg).
  assert (Hs : setup NavyDemo.cfg (NavyDemo.pairs b) 1 2).
  { apply NavyDemo.pairs_setup; [exact E|]. exists Demo.bc, Demo.rc. split; [apply NavyDemo.navy_config|exact Hg]. }
  assert (Ho : Forall (driver_op_ok NavyDemo.cfg (NavyDemo.pairs b)) NavyDemo.ops).
  { apply NavyDemo.navy_ops_ok; [exact E|]. exact (good_bcfg _ _ _ _ _ _ Hg). }
  destruct (setup_new _ _ _ _ Hs) as (s0 & E0 & Hd).
  destruct (driverRun_spec NavyDemo.hash _ _ 1 _ s0 _ (st_limits _ _ _ _ Hs) (st_fuel _ _ _ _ Hs) Hd Ho)
    as (outs & s & V & E1 & _). exists s.
  exact (driver_loads_exact NavyDemo.hash NavyDemo.cfg (NavyDemo.pairs b) 1 2 NavyDemo.ops s0 s outs Hs Ho E0 E1).
Defined.
